(* ===== verification/_CoqProject ===== *)
-Q . S2P
Prelude.v
Inet.v
StatusCodes.v
Contexts.v
Lmdb.v
Txn.v
Records.v
Vccert.v
Sim.v
Database.v
PqRep.v
ProcessQueue.v
ProcessQueueSpec.v
BlockMake.v
Ledger.v
BlockMakeSpec.v
History.v
Queries.v
QueriesSpec.v
DataserviceExamples.v
RequestCodec.v
RequestSpec.v
ResponseCodec.v
ResponseSpec.v
Ipc.v
IpcSpec.v
CodecExamples.v
AuthedIpc.v
AuthedSpec.v
AuthedExamples.v
ConfigStream.v
ConfigSpec.v
ConfigSafety.v
ConfigExamples.v
Dispatch.v
DispatchInv.v
Service.v
ServiceSpec.v
ServiceRefine.v
RpcSpec.v
ReadLoop.v
ClientApi.v
ClientSpec.v
RpcCall.v
ServiceExamples.v
NotificationCodec.v
NotificationService.v
NotificationSpec.v
NotificationRefine.v
NotificationExamples.v
Canonization.v
BlockCert.v
CanonizationSpec.v
CanonizationRound.v
CanonizationSystem.v
CanonizationControl.v
CanonizationControlSpec.v
CanonizationLife.v
CanonizationExamples.v
ProtocolService.v
ProtocolSpec.v
ProtocolControlSpec.v
Handshake.v
HandshakeLaws.v
HandshakeServer.v
HandshakeAgreement.v
ProtocolExamples.v
ProtocolFibers.v
ProtocolRequests.v
ProtocolResponses.v
ProtocolEndpoints.v
ProtocolScheduler.v
ProtocolContracts.v
ProtocolConnection.v
ProtocolEndpointContracts.v
ProtocolInvariant.v
ProtocolSafety.v
ProtocolClient.v
ProtocolClientSpec.v
ProtocolRun.v
