(* ===== verification/Prelude.v ===== *)
(** * Verification of the Velo blockchain agent (agentd)

    agentd is a node of the Velo blockchain.  It is a group of processes, each with
    few privileges, that talk over socket pairs: the data service owns the
    database and is the only process that touches it; the canonization service
    takes attested transactions from it and makes blocks; the protocol service
    speaks to the clients of the node; the notification service announces new
    blocks; random, listen and auth services and a supervisor complete it.  This
    development models the data service as a whole, from the bytes on its socket
    to the bytes in its database and back, with the client library the other
    processes call; the canonization, the notification and the protocol
    service, the latter from the handshake with a client to the end of the connection;
    the message layer between all of them, and the configuration they are started with.

    ** How the sources are modelled

    Functions are translated one by one and keep their names.  Code with effects
    is an [Act W A], a function from a world [W] to a result and a world; a
    function that returns a status is an [Eff W A], whose result is [Ok] a value
    or [Err] a status code ([StatusCodes]).  [let*] goes on after a success,
    [let!] looks at the result.  [post m Q w] says that [m], run from [w], ends in
    a result and world with [Q]; since an [Act] is a total function there is no
    partial correctness.  Integers are [Z] with their wrap-around written out;
    byte strings are lists of bytes; structures that are stored or sent are the
    bytes themselves with accessors at the field offsets ([Records], [Inet]).
    Memory allocation may fail.

    What is not in the repository is an interface, a type class of operations on
    [W] with a class of the laws its documentation promises: the database LMDB
    and the allocator ([Lmdb], [Database]), the certificate library vccert
    ([Vccert]), the buffers and sockets of libevent and the calls read and write
    ([Service], [Ipc], [RequestCodec]), the event loop and the certificate builder
    ([Canonization], [BlockCert]), the cipher and code of vccrypt ([AuthedIpc]) and
    its key agreement ([Handshake]), and of rcpr the psock ([ClientApi]),
    the allocator ([NotificationCodec]), trees, lists and messages
    ([NotificationService], [ProtocolService], [ProtocolFibers]), and the codec of the
    client protocol in vcblockchain ([ProtocolFibers]; laws in
    [ProtocolConnection]).  The laws
    allow any call to fail at any time; a theorem that needs more asks for
    [LMDB_reliable] or the like.  [Sim], [CodecExamples] and
    [ServiceExamples] are concrete platforms on which all laws hold at once; the
    witnesses of the theorems are there or in the files named Examples.

    ** The data service, bottom up (src/src/dataservice)

    - [Contexts]: capability sets, the root and child contexts and the free list of
      children.  [Txn]: the ways the functions wrap their work in database
      transactions, and what each guarantees.
    - [ProcessQueue]: dataservice_transaction_{submit,drop,promote,get,get_first}.c.
      [PqRep] relates the linked list in the database to a queue; the functions
      are correct one by one ([ProcessQueueSpec]) and in any sequence
      ([ProcessQueueSpec.process_queue_refines]).
    - [BlockMake]: dataservice_block_make.c.  [Ledger] defines what appending a
      block means and how the blocks are stored; the code implements it
      ([BlockMakeSpec.block_make_refines], [block_make_total]) and its loop ends
      ([block_make_terminates]).  [History]: whatever is called, the ledger stays
      safe and only grows ([ledger_history]), and a block moves exactly its
      transactions from the queue to the chain ([block_make_moves]).
    - [Queries], [QueriesSpec]: the reads give back what was stored.
    - [Database]: opening the database, with every error path, and what is open
      afterwards: an environment of the given size with the six named databases.
    - [RequestCodec], [ResponseCodec]: the packets, both directions, with round
      trips and the bounds on what a decoder accepts ([RequestSpec],
      [ResponseSpec]).
    - [Dispatch]: dataservice_decode_and_dispatch*.c and the socket callbacks.
      [DispatchInv.dispatch_safe]: no request breaks the instance.  [ServiceSpec]
      is the whole service as one abstract machine; [RpcSpec.rpc_refines] and
      [RpcSpec.rpc_session] say that the code implements it, request by
      request, and [ReadLoop] that the read callback serves
      what has arrived and ends.
    - [ClientApi]: dataservice_api_{sendreq,recvresp}_*.c.  [RpcCall.rpc_call]
      closes the circle: client, service and client again.

    ** Messages and configuration (src/src/ipc, src/src/config)

    - [Ipc]: plain values, strings and data packets; [IpcSpec] proves that messages
      arrive as they were sent.  [AuthedIpc]: encrypted and authenticated packets;
      what a session of them accepts is a prefix of what was sent
      ([AuthedSpec.authed_session]).
    - [ConfigStream]: config_write_block.c, config_read_block.c and
      config_set_defaults.c; the reader gives back what the writer was given,
      is equivalent to a reference parser, and never exceeds its bounds
      ([ConfigSpec], [ConfigSafety]).
    - [StatusCodes]: the status codes are distinct.

    ** The canonization service (src/src/canonization)

    - [Canonization]: the callbacks of a round.  [CanonizationSpec.canonization_reacts]
      says what every response leads to, as reactions of an abstract machine.
      [CanonizationRound] follows these reactions against the abstract data service,
      and [CanonizationSystem.canonization_round] runs the callbacks along them, with
      peers that answer what was written: from the timer to the next round, the
      attested transactions at the front of the queue end in one signed block,
      certified as [BlockCert] describes.
    - [CanonizationControl]: the commands by which it is configured, given its key
      and started, with their client functions; [CanonizationControlSpec] specifies
      the service and composes it with the client ([control_call_served]).
    - [CanonizationLife.canonization_life_cycle]: the invariant of the instance over
      all callbacks in any order, on any platform.

    ** The notification service (src/src/notificationservice)

    - [NotificationCodec]: packets and client functions.
    - [NotificationService]: the handlers as programs of fibers that share a
      context, and the scheduler as a step relation.  [NotificationRefine] proves
      that any interleaving refines the atomic notifier of [NotificationSpec]
      ([notification_refines]), and that every assertion is answered once, and
      none waits for a block that is not the latest ([notification_delivery]).

    ** The protocol service (src/src/protocolservice)

    - [ProtocolService]: entities, their capabilities and the keys of the agent, and
      the control socket by which the supervisor sets them, with its client
      functions.  [ProtocolControlSpec] gives the registry and its commands, and
      [protocol_configured] says that client, control fiber and objects implement
      them.  [ProtocolSpec] has the laws of the libraries and a small logic,
      [runs], for programs that read and write one stream.
    - [Handshake]: the handshake, both sides.  [HandshakeServer.handshake_authenticates]:
      it succeeds only with an entity of the registry that answered under the secret
      derived from its key.  [HandshakeAgreement.handshake_response_verified]: the client
      takes only an answer whose code it can verify.  [HandshakeAgreement.handshake_agreement]:
      connected to each other, both sides succeed, with the same secret and the
      vectors from which [authed_session] goes on.
    - [ProtocolFibers], [ProtocolRequests], [ProtocolResponses], [ProtocolEndpoints]: what
      happens after the handshake, as programs of fibers that share a context and send
      each other messages: a connection's reader with all requests (protocol_dnd_*.c)
      and the extended API, its writer (pwe_dnd_*.c), and the endpoints that pass
      requests to the data service (pde_*.c) and the notification service and bring the
      responses back.  [ProtocolScheduler] is the scheduler as a step relation: any
      fiber may go on, any call may fail, and the sockets may deliver anything.
      It also says what an observer of these calls sees: the requests a
      packet asks for, the exchanges with the data service, the packets of a session.
    - [ProtocolContracts] has a logic of contracts for fibers, state machines over the
      calls a fiber may make; [ProtocolConnection] and [ProtocolEndpointContracts] prove
      that the programs keep theirs.  [ProtocolInvariant] puts them together over all
      interleavings, and [ProtocolSafety] reads the theorems off the traces that the
      contracts allow: a service that starts with a registry, distinct mailboxes and no
      contexts ([starts]; the control fiber has finished, so the registry is fixed)
      serves the requests of each client in order, each answer being to its request
      ([requests_served_in_order]); it uses for a client only the context that was
      opened for it, with no capability its user was not given
      ([contexts_keep_clients_apart]); and no vector of a session is used for two
      packets ([vectors_never_reused]).  [ProtocolRun] runs two clients on a concrete
      platform.
    - [ProtocolClient]: the functions by which a client sends a request and receives
      the response (protocolservice_api_sendreq_*.c, recvresp_*.c).
      [ProtocolClientSpec] has the calls of the library as values and what each asks
      for and is told.  [client_requests_arrive]: the reader of the connection takes the
      packets of a sequence of calls in order, and for each its handler sends the message
      that asks for what was called.
      [client_calls_answered]: over all interleavings, the answer to a call gives its
      caller the status and the result that the data service responded.  The class
      [VCBLOCKCHAIN_layout] says that the codec of vcblockchain has the packets of the
      client library.

    ** Fuel

    - [block_make_children] has the size of the block as fuel; each round consumes
      a field of it, so more fuel changes nothing ([block_make_terminates]).
    - [ipc_read_loop] has a number of packets as fuel; one more than the bytes
      that can be read is enough for any input ([ipc_read_loop_terminates]).
    - [config_read_loop] has a number of entries as fuel; an entry takes at least a
      byte of the stream ([ConfigSafety.config_read_equiv], [config_read_safe]).
    - [control_fiber_loop] has a number of packets as fuel; one more than the commands
      on the stream is enough ([protocol_configured]).

    ** Not modelled

    - The libraries above and the calls of the operating system, and the code that
      only starts processes, opens sockets or sets up event loops and fibers.
    - Pointer lifetimes: memory that LMDB returns is modelled by its contents when
      the call returns; asserts of the sources are not modelled.
    - Of the protocol service the fibers that accept connections, pass requests to the
      random service and end the process.  The registry does not change while clients
      are served, although the control fiber could still change it.
    - The attestation, random, listen and auth services, the supervisor and the
      command line.
    - The parser of the configuration file, which lex and yacc generate. *)

From Stdlib Require Export Strings.Byte.
From stdpp Require Export prelude gmap list.

Open Scope Z_scope.

(** ** Bytes *)

Abbreviation byte := Byte.byte.
Abbreviation bytes := (list Byte.byte).

#[global] Instance byte_eq_dec : EqDecision byte := Byte.byte_eq_dec.

#[global] Program Instance byte_countable : Countable byte :=
  inj_countable Byte.to_N Byte.of_N _.
Next Obligation. intros b. apply Byte.of_to_N. Qed.

#[global] Instance byte_inhabited : Inhabited byte := populate Byte.x00.

(** The value of an unsigned byte, and the byte an integer is truncated to. *)
Definition Z_of_byte (b : byte) : Z := Z.of_N (Byte.to_N b).
Definition byte_of_Z (z : Z) : byte :=
  default Byte.x00 (Byte.of_N (Z.to_N (z mod 256))).

Lemma Z_of_byte_range b : 0 ≤ Z_of_byte b < 256.
Proof. unfold Z_of_byte. pose proof (Byte.to_N_bounded b). lia. Qed.

Lemma Z_of_byte_of_Z z : Z_of_byte (byte_of_Z z) = z mod 256.
Proof.
  unfold byte_of_Z, Z_of_byte.
  pose proof (Z.mod_pos_bound z 256 ltac:(lia)) as Hz.
  destruct (Byte.of_N _) as [b|] eqn:E; simpl.
  - apply Byte.to_of_N in E. rewrite E. lia.
  - apply Byte.of_N_None_iff in E. lia.
Qed.

Lemma byte_of_Z_of_byte b : byte_of_Z (Z_of_byte b) = b.
Proof.
  unfold byte_of_Z. rewrite Z.mod_small by apply Z_of_byte_range.
  unfold Z_of_byte. by rewrite N2Z.id, Byte.of_to_N.
Qed.

(** ** Memory regions

    A C object is modelled by its bytes. [sub off len b] are the [len] bytes at
    offset [off] ([memcpy] out of a field), [splice off v b] is the object
    after [memcpy(b + off, v, length v)], and [memset c n] is a fresh object
    filled with one byte. *)

Definition sub (off len : nat) (b : bytes) : bytes := take len (drop off b).
Definition splice (off : nat) (v b : bytes) : bytes :=
  take off b ++ v ++ drop (off + length v) b.
Definition memset (c : byte) (n : nat) : bytes := replicate n c.

(** The size of an object as a machine integer. *)
Definition sizeof (b : bytes) : Z := Z.of_nat (length b).

Lemma length_sub off len b : (off + len ≤ length b)%nat → length (sub off len b) = len.
Proof. intros. unfold sub. rewrite length_take, length_drop. lia. Qed.

Lemma length_sub_le off len b : (length (sub off len b) ≤ len)%nat.
Proof. unfold sub. rewrite length_take. lia. Qed.

Lemma length_splice off v b :
  (off + length v ≤ length b)%nat → length (splice off v b) = length b.
Proof. intros. unfold splice. rewrite !length_app, length_take, length_drop. lia. Qed.

Lemma length_memset c n : length (memset c n) = n.
Proof. apply length_replicate. Qed.

Lemma sub_app_l off len a b :
  (off + len ≤ length a)%nat → sub off len (a ++ b) = sub off len a.
Proof. intros. unfold sub. rewrite drop_app_le, take_app_le; [done| |lia]. rewrite length_drop. lia. Qed.

Lemma sub_app_r off len a b :
  (length a ≤ off)%nat → sub off len (a ++ b) = sub (off - length a) len b.
Proof. intros. unfold sub. rewrite drop_app_ge by lia. done. Qed.

(** Reading the field at the front of a list of concatenated fields. *)
Lemma sub_head len a b : length a = len → sub 0 len (a ++ b) = a.
Proof. intros <-. unfold sub. by rewrite drop_0, take_app_length. Qed.

Lemma sub_skip off n len a b :
  length a = n → (n ≤ off)%nat → sub off len (a ++ b) = sub (off - n) len b.
Proof. intros <- ?. by apply sub_app_r. Qed.

Lemma sub_exact len a : length a = len → sub 0 len a = a.
Proof. intros <-. unfold sub. by rewrite drop_0, take_ge by lia. Qed.

(** Reading a field after the fields [pre]. *)
Lemma sub_between pre f rest off n :
  off = length pre → n = length f → sub off n (pre ++ f ++ rest) = f.
Proof. intros -> ->. rewrite sub_app_r, Nat.sub_diag by lia. by apply sub_head. Qed.

(** Reading within a prefix. *)
Lemma sub_take off len n b : (off + len ≤ n)%nat → sub off len (take n b) = sub off len b.
Proof.
  intros. unfold sub. rewrite skipn_firstn_comm, take_take. f_equal. lia.
Qed.

(** A field and what follows it. *)
Lemma sub_drop off n b : sub off n b ++ drop (off + n) b = drop off b.
Proof. unfold sub. by rewrite <- drop_drop, take_drop. Qed.

(** Writing the field at the front of a list of concatenated fields. *)
Lemma splice_head v a b : length v = length a → splice 0 v (a ++ b) = v ++ b.
Proof.
  intros Hl. unfold splice. simpl. rewrite Hl, drop_app_length. done.
Qed.

Lemma splice_skip off n v a b :
  length a = n → (n ≤ off)%nat → splice off v (a ++ b) = a ++ splice (off - n) v b.
Proof.
  intros <- ?. unfold splice.
  rewrite take_app_ge, drop_app_ge by lia. rewrite <- !(assoc_L (++)).
  do 4 f_equal. lia.
Qed.

Lemma splice_app_l off v a b :
  (off + length v ≤ length a)%nat → splice off v (a ++ b) = splice off v a ++ b.
Proof.
  intros. unfold splice.
  rewrite take_app_le, drop_app_le by lia. by rewrite <- !(assoc_L (++)).
Qed.

Lemma memset_add c n m : memset c (n + m) = memset c n ++ memset c m.
Proof. apply replicate_add. Qed.

(** Filling the second part of an object. *)
Lemma splice_tail n v a b :
  length a = n → length v = length b → splice n v (a ++ b) = a ++ v.
Proof.
  intros <- Hl. unfold splice. rewrite take_app_length, drop_app_ge by lia.
  rewrite drop_ge by lia. by rewrite app_nil_r.
Qed.

Global Opaque sub splice memset.

(** ** Results and effects

    A C function returns an [int] status and writes its outputs through
    pointers.  [Ok a] is [AGENTD_STATUS_SUCCESS] with outputs [a]; [Err s] is
    the failure status [s].  An effectful function threads the outside world
    [W]: the database, the allocator, the sockets. *)

Inductive result (A : Type) : Type :=
  | Ok (a : A)
  | Err (status : Z).
Arguments Ok {A} a.
Arguments Err {A} status.

#[global] Instance result_eq_dec `{EqDecision A} : EqDecision (result A).
Proof. solve_decision. Defined.

Lemma Ok_inj {A} (a b : A) : Ok a = Ok b → a = b.
Proof. by intros [= ->]. Qed.

Definition is_ok {A} (r : result A) : bool := match r with Ok _ => true | Err _ => false end.

(** The status a result is reported to a caller with. *)
Definition status_of {A} (r : result A) : Z := match r with Ok _ => 0 | Err s => s end.

Declare Scope agentd_scope.
Delimit Scope agentd_scope with agentd.

Section monad.
Context {W : Type}.

(** [Act A] performs an effect and returns an [A]; [Eff A] may fail. *)
Definition Act (A : Type) : Type := W → A * W.
Definition Eff (A : Type) : Type := Act (result A).

Definition ret {A} (a : A) : Act A := λ w, (a, w).
Definition ok {A} (a : A) : Eff A := ret (Ok a).
Definition throw {A} (s : Z) : Eff A := ret (Err s).
Definition act {A B} (m : Act A) (k : A → Act B) : Act B :=
  λ w, let '(a, w') := m w in k a w'.
Definition bind {A B} (m : Eff A) (k : A → Eff B) : Eff B :=
  act m (λ r, match r with Ok a => k a | Err s => throw s end).

(** [post Q m w]: running [m] in [w] ends in a state that satisfies [Q]. *)
Definition post {A} (m : Act A) (Q : A → W → Prop) (w : W) : Prop :=
  let '(a, w') := m w in Q a w'.

Lemma post_ret {A} (a : A) (Q : A → W → Prop) w : Q a w → post (ret a) Q w.
Proof. done. Qed.

Lemma post_act {A B} (m : Act A) (k : A → Act B) Q w :
  post m (λ a, post (k a) Q) w → post (act m k) Q w.
Proof. unfold post, act. by destruct (m w). Qed.

Lemma post_bind {A B} (m : Eff A) (k : A → Eff B) Q w :
  post m (λ r w', match r with Ok a => post (k a) Q w' | Err s => Q (Err s) w' end) w →
  post (bind m k) Q w.
Proof. intros H. apply post_act. revert H. unfold post. destruct (m w) as [[a|s] w']; done. Qed.

Lemma post_mono {A} (m : Act A) (P Q : A → W → Prop) w :
  post m P w → (∀ a w', P a w' → Q a w') → post m Q w.
Proof. unfold post. destruct (m w). auto. Qed.

Lemma post_run {A} (m : Act A) (Q : A → W → Prop) w : post m Q w ↔ Q (m w).1 (m w).2.
Proof. unfold post. by destruct (m w). Qed.

(** A postcondition of a mapped program, read back. *)
Lemma post_map_inv {A B : Type} (f : A → B) (m : Eff A) (Q : result B → W → Prop) w :
  post (bind m (λ a, ok (f a))) Q w →
  post m (λ r w', Q match r with Ok a => Ok (f a) | Err s => Err s end w') w.
Proof. rewrite !post_run. unfold bind, act. by destruct (m w) as [[a|s] w']. Qed.

Lemma post_if {A} (b : bool) (m1 m2 : Act A) Q w :
  (b = true → post m1 Q w) → (b = false → post m2 Q w) → post (if b then m1 else m2) Q w.
Proof. destruct b; auto. Qed.

(** Facts proved about the same run combine. *)
Lemma post_and {A} (m : Act A) (P Q : A → W → Prop) w :
  post m P w → post m Q w → post m (λ a w', P a w' ∧ Q a w') w.
Proof. unfold post. destruct (m w). auto. Qed.
End monad.
Arguments Act : clear implicits.
Arguments Eff : clear implicits.
Global Opaque post.

(** [let* x := m in k] runs the fallible [m] and goes to the function's exit on
    an error; [let! x := m in k] runs an effect and looks at its status itself. *)
Notation "'let*' x := m 'in' k" := (bind m (λ x, k))
  (at level 10, x binder, m at level 100, k at level 200) : agentd_scope.
Notation "'let!' x := m 'in' k" := (act m (λ x, k))
  (at level 10, x binder, m at level 100, k at level 200) : agentd_scope.
Open Scope agentd_scope.

(** Pure sequencing: [let? x := r in k] returns [r]'s error. *)
Definition result_bind {A B} (r : result A) (k : A → result B) : result B :=
  match r with Ok a => k a | Err s => Err s end.
Notation "'let?' x := r 'in' k" := (result_bind r (λ x, k))
  (at level 10, x binder, r at level 100, k at level 200) : agentd_scope.
(** [check c s]: fail with [s] unless [c]. *)
Definition check (c : bool) (s : Z) : result unit := if c then Ok tt else Err s.

(** ** The allocator

    [malloc(size)] of the C library: false is a null pointer. *)
Class MALLOC (W : Type) := { malloc : Z → Act W bool }.

(** ** Automation *)

(** Lengths of byte strings. *)
Create Rewrite HintDb len.
#[export] Hint Rewrite @length_app @length_take @length_drop @length_replicate
  length_memset @length_reverse @length_nil @length_cons : len.
Ltac len := autorewrite with len in *; simpl length in *; lia.

(** One step of symbolic execution of an effectful program: the structural
    rules of [post]. *)
Ltac post_step :=
  match goal with
  | |- post (act _ _) _ _ => apply post_act
  | |- post (bind _ _) _ _ => apply post_bind
  | |- post (ret _) _ _ => apply post_ret
  | |- post (ok _) _ _ => apply post_ret
  | |- post (throw _) _ _ => apply post_ret
  | |- post (if ?b then _ else _) _ _ => apply post_if; intros
  end.
Ltac post_cbn := cbn beta iota delta [negb andb orb Z.eqb Pos.eqb].
Ltac post_steps := post_cbn; repeat (post_step; post_cbn).
