(* ===== verification/Inet.v ===== *)
(** * Byte order and machine integers

    [src/src/inet/htonll.c], [src/include/agentd/inet.h] and the C library's
    [htonl]/[ntohl].  Integers are kept as [Z] in the range of their type; the
    host is little-endian (x86-64), so the bytes of an integer object in memory
    are [le_enc] of its value. *)

From S2P Require Import Prelude.

Definition wrap32 (z : Z) : Z := z mod 2 ^ 32.
Definition wrap64 (z : Z) : Z := z mod 2 ^ 64.

Lemma wrap64_small z : 0 ≤ z < 2 ^ 64 → wrap64 z = z.
Proof. apply Z.mod_small. Qed.

(** ** Little-endian memory representation *)

Fixpoint le_enc (n : nat) (z : Z) : bytes :=
  match n with
  | O => []
  | S n => byte_of_Z (Z.land z 255) :: le_enc n (Z.shiftr z 8)
  end.

Fixpoint le_dec (l : bytes) : Z :=
  match l with
  | [] => 0
  | b :: l => Z_of_byte b + 256 * le_dec l
  end.

(** Network byte order. *)
Definition be_enc (n : nat) (z : Z) : bytes := reverse (le_enc n z).
Definition be_dec (l : bytes) : Z := le_dec (reverse l).

(** ** The conversions *)

(** [htonll]: the eight masked and shifted parts, as written. *)
Definition htonll (val : Z) : Z :=
  Z.lor (Z.lor (Z.lor (Z.lor (Z.lor (Z.lor (Z.lor
    (Z.shiftl (Z.land val 0x00000000000000FF) 56)
    (Z.shiftl (Z.land val 0x000000000000FF00) 40))
    (Z.shiftl (Z.land val 0x0000000000FF0000) 24))
    (Z.shiftl (Z.land val 0x00000000FF000000) 8))
    (Z.shiftr (Z.land val 0x000000FF00000000) 8))
    (Z.shiftr (Z.land val 0x0000FF0000000000) 24))
    (Z.shiftr (Z.land val 0x00FF000000000000) 40))
    (Z.shiftr (Z.land val 0xFF00000000000000) 56).

Definition ntohll (val : Z) : Z := htonll val.

(** [htonl] and [ntohl] of the C library on a little-endian host. *)
Definition htonl (val : Z) : Z :=
  Z.lor (Z.lor (Z.lor
    (Z.shiftl (Z.land val 0x000000FF) 24)
    (Z.shiftl (Z.land val 0x0000FF00) 8))
    (Z.shiftr (Z.land val 0x00FF0000) 8))
    (Z.shiftr (Z.land val 0xFF000000) 24).

Definition ntohl (val : Z) : Z := htonl val.

(** ** Lemmas *)

Lemma length_le_enc n z : length (le_enc n z) = n.
Proof. revert z; induction n; intros; simpl; auto. Qed.

Lemma length_be_enc n z : length (be_enc n z) = n.
Proof. unfold be_enc. by rewrite length_reverse, length_le_enc. Qed.
#[export] Hint Rewrite length_le_enc length_be_enc : len.

Lemma le_dec_range l : 0 ≤ le_dec l < 256 ^ Z.of_nat (length l).
Proof.
  induction l as [|b l IH]; [simpl; lia|].
  cbn [le_dec length]. rewrite Nat2Z.inj_succ, Z.pow_succ_r by lia.
  pose proof (Z_of_byte_range b). lia.
Qed.

Lemma le_dec_enc n z : 0 ≤ z < 256 ^ Z.of_nat n → le_dec (le_enc n z) = z.
Proof.
  revert z; induction n as [|n IH]; intros z Hz; [simpl in *; lia|].
  cbn [le_enc le_dec]. rewrite Nat2Z.inj_succ, Z.pow_succ_r in Hz by lia.
  rewrite Z_of_byte_of_Z. change 255 with (Z.ones 8). rewrite Z.land_ones, Z.shiftr_div_pow2 by lia.
  change (2 ^ 8) with 256. rewrite Z.mod_mod by lia. rewrite IH.
  - pose proof (Z.div_mod z 256). lia.
  - split; [apply Z.div_pos; lia|]. apply Z.div_lt_upper_bound; lia.
Qed.

Lemma le_enc_dec l : le_enc (length l) (le_dec l) = l.
Proof.
  induction l as [|b l IH]; [done|]. cbn [length le_enc le_dec].
  pose proof (Z_of_byte_range b).
  change 255 with (Z.ones 8). rewrite Z.land_ones, Z.shiftr_div_pow2 by lia. change (2 ^ 8) with 256.
  replace ((Z_of_byte b + 256 * le_dec l) mod 256) with (Z_of_byte b)
    by (rewrite Z.mul_comm, Z.mod_add, Z.mod_small; lia).
  replace ((Z_of_byte b + 256 * le_dec l) / 256) with (le_dec l)
    by (rewrite Z.mul_comm, Z.div_add, Z.div_small; lia).
  by rewrite byte_of_Z_of_byte, IH.
Qed.

Lemma be_dec_enc n z : 0 ≤ z < 256 ^ Z.of_nat n → be_dec (be_enc n z) = z.
Proof. intros. unfold be_dec, be_enc. rewrite reverse_involutive. by apply le_dec_enc. Qed.

Lemma be_enc_dec l : be_enc (length l) (be_dec l) = l.
Proof.
  unfold be_dec, be_enc. rewrite <- (length_reverse l), le_enc_dec. apply reverse_involutive.
Qed.

Lemma be_enc_dec_length n l : length l = n → be_enc n (be_dec l) = l.
Proof. intros <-. apply be_enc_dec. Qed.

Lemma be_enc_inj n x y :
  0 ≤ x < 256 ^ Z.of_nat n → 0 ≤ y < 256 ^ Z.of_nat n → be_enc n x = be_enc n y → x = y.
Proof. intros Hx Hy H. by rewrite <- (be_dec_enc n x), H, be_dec_enc. Qed.

(** Equality of the low byte of two words, decided bit by bit. *)
Lemma land_255_eq x y :
  (∀ n, 0 ≤ n < 8 → Z.testbit x n = Z.testbit y n) → Z.land x 255 = Z.land y 255.
Proof.
  intros H. apply Z.bits_inj'. intros n Hn. rewrite !Z.land_spec.
  destruct (decide (n < 8)) as [Hlt|Hge]; [by rewrite H by lia|].
  change 255 with (Z.ones 8). rewrite Z.ones_spec_high by lia. by rewrite !andb_false_r.
Qed.

Lemma byte_cases_8 (P : Z → Prop) :
  P 0 → P 1 → P 2 → P 3 → P 4 → P 5 → P 6 → P 7 → ∀ n, 0 ≤ n < 8 → P n.
Proof.
  intros ???????? n Hn.
  assert (n = 0 ∨ n = 1 ∨ n = 2 ∨ n = 3 ∨ n = 4 ∨ n = 5 ∨ n = 6 ∨ n = 7) by lia.
  repeat match goal with H : _ ∨ _ |- _ => destruct H as [->|H] end; by subst.
Qed.

Local Ltac swap_bits :=
  repeat (rewrite Z.lor_spec || rewrite Z.land_spec
          || (rewrite Z.shiftr_spec by lia) || (rewrite Z.shiftl_spec by lia));
  simpl Z.add; simpl Z.sub;
  repeat match goal with
  | |- context [Z.testbit ?a (Z.neg ?p)] => rewrite (Z.testbit_neg_r a (Z.neg p)) by lia
  end;
  simpl; rewrite ?andb_false_r, ?andb_true_r, ?orb_false_r, ?orb_false_l; try reflexivity.

(** The bytes of a 64-bit object that holds [htonll v] are [v] most significant
    byte first: what the peer and the database read. *)
Lemma le_enc_htonll v : le_enc 8 (htonll v) = be_enc 8 v.
Proof.
  unfold be_enc, htonll. cbn [le_enc]. cbv [reverse rev_append].
  repeat (apply (f_equal2 cons); [apply (f_equal byte_of_Z)|]); [..|done].
  all: apply land_255_eq, byte_cases_8; swap_bits.
Qed.

Lemma le_enc_htonl v : le_enc 4 (htonl v) = be_enc 4 v.
Proof.
  unfold be_enc, htonl. cbn [le_enc]. cbv [reverse rev_append].
  repeat (apply (f_equal2 cons); [apply (f_equal byte_of_Z)|]); [..|done].
  all: apply land_255_eq, byte_cases_8; swap_bits.
Qed.

Lemma bits_bounded k z :
  0 ≤ k → (∀ n, k ≤ n → Z.testbit z n = false) → 0 ≤ z < 2 ^ k.
Proof.
  intros Hk H. replace z with (z mod 2 ^ k); [apply Z.mod_pos_bound; lia|].
  apply Z.bits_inj'. intros n Hn. destruct (decide (n < k)).
  - by rewrite Z.mod_pow2_bits_low by lia.
  - rewrite Z.mod_pow2_bits_high by lia. by rewrite H by lia.
Qed.

Lemma bounded_bits k z n : 0 ≤ z < 2 ^ k → 0 ≤ k ≤ n → Z.testbit z n = false.
Proof.
  intros Hz Hn. rewrite <- (Z.mod_small z (2 ^ k)) by lia. apply Z.mod_pow2_bits_high. lia.
Qed.

Lemma lor_range k a b : 0 ≤ k → 0 ≤ a < 2 ^ k → 0 ≤ b < 2 ^ k → 0 ≤ Z.lor a b < 2 ^ k.
Proof.
  intros Hk Ha Hb. apply bits_bounded; [done|]. intros n Hn.
  by rewrite Z.lor_spec, (bounded_bits k a), (bounded_bits k b) by lia.
Qed.

Lemma land_range k v c : 0 ≤ k → 0 ≤ c < 2 ^ k → 0 ≤ Z.land v c < 2 ^ k.
Proof.
  intros Hk Hc. apply bits_bounded; [done|]. intros n Hn.
  by rewrite Z.land_spec, (bounded_bits k c), andb_false_r by lia.
Qed.

Lemma shiftl_range k s z : 0 ≤ s ≤ k → 0 ≤ z < 2 ^ (k - s) → 0 ≤ Z.shiftl z s < 2 ^ k.
Proof.
  intros Hs Hz. rewrite Z.shiftl_mul_pow2 by lia.
  replace (2 ^ k) with (2 ^ (k - s) * 2 ^ s) by (rewrite <- Z.pow_add_r by lia; f_equal; lia).
  pose proof (Z.pow_pos_nonneg 2 s). nia.
Qed.

Lemma shiftr_range k s z : 0 ≤ s → 0 ≤ z < 2 ^ k → 0 ≤ Z.shiftr z s < 2 ^ k.
Proof.
  intros Hs Hz. rewrite Z.shiftr_div_pow2 by lia.
  pose proof (Z.pow_pos_nonneg 2 s). split; [apply Z.div_pos; lia|].
  apply Z.div_lt_upper_bound; nia.
Qed.

Local Ltac range_tac :=
  repeat apply lor_range; try lia;
  lazymatch goal with
  | |- _ ≤ Z.shiftl _ _ < _ => apply shiftl_range
  | |- _ => apply shiftr_range
  end; try lia; apply land_range; lia.

Lemma htonll_range v : 0 ≤ htonll v < 2 ^ 64.
Proof. unfold htonll. range_tac. Qed.
Lemma ntohll_range v : 0 ≤ ntohll v < 2 ^ 64.
Proof. apply htonll_range. Qed.

Lemma htonl_range v : 0 ≤ htonl v < 2 ^ 32.
Proof. unfold htonl. range_tac. Qed.

(** What the host reads from eight (four) bytes of network data. *)
Lemma ntohll_le_dec b : length b = 8%nat → ntohll (le_dec b) = be_dec b.
Proof.
  intros Hb. unfold ntohll, be_dec.
  rewrite <- (le_dec_enc 8 (htonll (le_dec b))) by apply htonll_range.
  rewrite le_enc_htonll. unfold be_enc. by rewrite <- Hb, le_enc_dec.
Qed.

Lemma ntohl_le_dec b : length b = 4%nat → ntohl (le_dec b) = be_dec b.
Proof.
  intros Hb. unfold ntohl, be_dec.
  rewrite <- (le_dec_enc 4 (htonl (le_dec b))) by apply htonl_range.
  rewrite le_enc_htonl. unfold be_enc. by rewrite <- Hb, le_enc_dec.
Qed.

Lemma be_dec_range l : 0 ≤ be_dec l < 256 ^ Z.of_nat (length l).
Proof. unfold be_dec. rewrite <- (length_reverse l). apply le_dec_range. Qed.

Lemma ntohll_htonll v : 0 ≤ v < 2 ^ 64 → ntohll (htonll v) = v.
Proof.
  intros Hv. rewrite <- (le_dec_enc 8 (htonll v)) by apply htonll_range.
  rewrite le_enc_htonll, ntohll_le_dec by apply length_be_enc. by apply be_dec_enc.
Qed.

Lemma ntohl_htonl v : 0 ≤ v < 2 ^ 32 → ntohl (htonl v) = v.
Proof.
  intros Hv. rewrite <- (le_dec_enc 4 (htonl v)) by apply htonl_range.
  rewrite le_enc_htonl, ntohl_le_dec by apply length_be_enc. by apply be_dec_enc.
Qed.

(** ** Integers in packets

    The value ranges of [uint32_t] and [uint64_t], and the bytes of an integer
    that was converted to network order and copied into a packet. *)
Definition u32 (z : Z) : Prop := 0 ≤ z < 2 ^ 32.
Definition u64 (z : Z) : Prop := 0 ≤ z < 2 ^ 64.

Definition net32 (v : Z) : bytes := le_enc 4 (htonl v).
Definition net64 (v : Z) : bytes := le_enc 8 (htonll v).

Lemma net32_be v : net32 v = be_enc 4 v.
Proof. apply le_enc_htonl. Qed.
Lemma net64_be v : net64 v = be_enc 8 v.
Proof. apply le_enc_htonll. Qed.

Lemma length_net32 v : length (net32 v) = 4%nat.
Proof. by rewrite net32_be, length_be_enc. Qed.
Lemma length_net64 v : length (net64 v) = 8%nat.
Proof. by rewrite net64_be, length_be_enc. Qed.
#[export] Hint Rewrite length_net32 length_net64 : len.

Lemma ntohl_u32 v : u32 (ntohl v).
Proof. apply htonl_range. Qed.
Lemma ntohll_u64 v : u64 (ntohll v).
Proof. apply htonll_range. Qed.

Lemma le_dec_be_8 v : u64 v → le_dec (be_enc 8 v) = htonll v.
Proof. intros. rewrite <- le_enc_htonll. apply le_dec_enc, htonll_range. Qed.
Lemma le_dec_be_4 v : u32 v → le_dec (be_enc 4 v) = htonl v.
Proof. intros. rewrite <- le_enc_htonl. apply le_dec_enc, htonl_range. Qed.

(** Reading back the integer at the front of a packet. *)
Lemma read_net32 v rest : u32 v → ntohl (le_dec (sub 0 4 (be_enc 4 v ++ rest))) = v.
Proof.
  intros Hv. rewrite sub_head by apply length_be_enc.
  rewrite ntohl_le_dec by apply length_be_enc. by apply be_dec_enc.
Qed.
Lemma read_net64 v rest : u64 v → ntohll (le_dec (sub 0 8 (be_enc 8 v ++ rest))) = v.
Proof.
  intros Hv. rewrite sub_head by apply length_be_enc.
  rewrite ntohll_le_dec by apply length_be_enc. by apply be_dec_enc.
Qed.

Lemma ntohll_eq : ntohll = htonll.
Proof. done. Qed.
Lemma ntohl_eq : ntohl = htonl.
Proof. done. Qed.

Lemma htonll_ntohll v : 0 ≤ v < 2 ^ 64 → htonll (ntohll v) = v.
Proof. intros Hv. pose proof (ntohll_htonll v Hv) as E. rewrite ntohll_eq in *. exact E. Qed.
Lemma htonl_ntohl v : 0 ≤ v < 2 ^ 32 → htonl (ntohl v) = v.
Proof. intros Hv. pose proof (ntohl_htonl v Hv) as E. rewrite ntohl_eq in *. exact E. Qed.

Global Opaque htonll htonl ntohll ntohl le_enc be_enc le_dec be_dec.
