(* ===== verification/StatusCodes.v ===== *)
(** * Status codes

    [src/include/agentd/status_codes.h], [services.h] and the per-service
    headers under [src/include/agentd/status_codes/]: the general, IPC and data
    service codes, with their numeric values as they cross process
    boundaries; then those of the other services. *)

From S2P Require Import Prelude.

Definition AGENTD_STATUS_SUCCESS : Z := 0x00000000.

(** The services of [services.h] whose codes are modelled. *)
Definition AGENTD_SERVICE_GENERAL : Z := 0x00.
Definition AGENTD_SERVICE_IPC : Z := 0x01.
Definition AGENTD_SERVICE_DATASERVICE : Z := 0x03.

(** [AGENTD_STATUS_ERROR_MACRO]: the error flag, the service and the reason. *)
Definition AGENTD_STATUS_ERROR_MACRO (service reason : Z) : Z :=
  Z.lor (Z.lor 0x8000000 (Z.shiftl (Z.land service 0xFF) 16)) (Z.land reason 0xFFFF).

Definition AGENTD_ERROR_GENERAL_OUT_OF_MEMORY : Z :=
  AGENTD_STATUS_ERROR_MACRO AGENTD_SERVICE_GENERAL 0x0001.
Definition AGENTD_ERROR_GENERAL_PATH_NOT_FOUND : Z :=
  AGENTD_STATUS_ERROR_MACRO AGENTD_SERVICE_GENERAL 0x0002.
Definition AGENTD_ERROR_GENERAL_CHDIR_FAILURE : Z :=
  AGENTD_STATUS_ERROR_MACRO AGENTD_SERVICE_GENERAL 0x0003.
Definition AGENTD_ERROR_GENERAL_CHROOT_FAILURE : Z :=
  AGENTD_STATUS_ERROR_MACRO AGENTD_SERVICE_GENERAL 0x0004.
Definition AGENTD_ERROR_GENERAL_GETPWNAM_FAILURE : Z :=
  AGENTD_STATUS_ERROR_MACRO AGENTD_SERVICE_GENERAL 0x0005.
Definition AGENTD_ERROR_GENERAL_GETGRNAM_FAILURE : Z :=
  AGENTD_STATUS_ERROR_MACRO AGENTD_SERVICE_GENERAL 0x0006.
Definition AGENTD_ERROR_GENERAL_PRIVSEP_SETFDS_STDIN_CLOSE : Z :=
  AGENTD_STATUS_ERROR_MACRO AGENTD_SERVICE_GENERAL 0x0007.
Definition AGENTD_ERROR_GENERAL_PRIVSEP_SETFDS_STDOUT_CLOSE : Z :=
  AGENTD_STATUS_ERROR_MACRO AGENTD_SERVICE_GENERAL 0x0008.
Definition AGENTD_ERROR_GENERAL_PRIVSEP_SETFDS_STDERR_CLOSE : Z :=
  AGENTD_STATUS_ERROR_MACRO AGENTD_SERVICE_GENERAL 0x0009.
Definition AGENTD_ERROR_GENERAL_PRIVSEP_SETFDS_DUP2_FAILURE : Z :=
  AGENTD_STATUS_ERROR_MACRO AGENTD_SERVICE_GENERAL 0x000A.
Definition AGENTD_ERROR_GENERAL_PRIVSEP_SETFDS_BAD_ARGUMENT : Z :=
  AGENTD_STATUS_ERROR_MACRO AGENTD_SERVICE_GENERAL 0x000B.
Definition AGENTD_ERROR_GENERAL_PRIVSEP_DROP_PRIVILEGES_SETEGID_FAILURE : Z :=
  AGENTD_STATUS_ERROR_MACRO AGENTD_SERVICE_GENERAL 0x000C.
Definition AGENTD_ERROR_GENERAL_PRIVSEP_DROP_PRIVILEGES_SETEUID_FAILURE : Z :=
  AGENTD_STATUS_ERROR_MACRO AGENTD_SERVICE_GENERAL 0x000D.
Definition AGENTD_ERROR_GENERAL_PRIVSEP_DROP_PRIVILEGES_SETGID_FAILURE : Z :=
  AGENTD_STATUS_ERROR_MACRO AGENTD_SERVICE_GENERAL 0x000E.
Definition AGENTD_ERROR_GENERAL_PRIVSEP_DROP_PRIVILEGES_SETUID_FAILURE : Z :=
  AGENTD_STATUS_ERROR_MACRO AGENTD_SERVICE_GENERAL 0x000F.
Definition AGENTD_ERROR_GENERAL_PRIVSEP_EXEC_PRIVATE_SETENV_FAILURE : Z :=
  AGENTD_STATUS_ERROR_MACRO AGENTD_SERVICE_GENERAL 0x0010.
Definition AGENTD_ERROR_GENERAL_PRIVSEP_EXEC_PRIVATE_EXECL_FAILURE : Z :=
  AGENTD_STATUS_ERROR_MACRO AGENTD_SERVICE_GENERAL 0x0011.

Definition AGENTD_ERROR_IPC_WOULD_BLOCK : Z :=
  AGENTD_STATUS_ERROR_MACRO AGENTD_SERVICE_IPC 0x0001.
Definition AGENTD_ERROR_IPC_READ_BLOCK_FAILURE : Z :=
  AGENTD_STATUS_ERROR_MACRO AGENTD_SERVICE_IPC 0x0002.
Definition AGENTD_ERROR_IPC_WRITE_BLOCK_FAILURE : Z :=
  AGENTD_STATUS_ERROR_MACRO AGENTD_SERVICE_IPC 0x0003.
Definition AGENTD_ERROR_IPC_READ_NONBLOCK_FAILURE : Z :=
  AGENTD_STATUS_ERROR_MACRO AGENTD_SERVICE_IPC 0x0004.
Definition AGENTD_ERROR_IPC_WRITE_NONBLOCK_FAILURE : Z :=
  AGENTD_STATUS_ERROR_MACRO AGENTD_SERVICE_IPC 0x0005.
Definition AGENTD_ERROR_IPC_EVENT_BASE_NEW_FAILURE : Z :=
  AGENTD_STATUS_ERROR_MACRO AGENTD_SERVICE_IPC 0x0006.
Definition AGENTD_ERROR_IPC_READ_UNEXPECTED_DATA_TYPE : Z :=
  AGENTD_STATUS_ERROR_MACRO AGENTD_SERVICE_IPC 0x0007.
Definition AGENTD_ERROR_IPC_READ_UNEXPECTED_DATA_SIZE : Z :=
  AGENTD_STATUS_ERROR_MACRO AGENTD_SERVICE_IPC 0x0008.
Definition AGENTD_ERROR_IPC_READ_BUFFER_DRAIN_FAILURE : Z :=
  AGENTD_STATUS_ERROR_MACRO AGENTD_SERVICE_IPC 0x0009.
Definition AGENTD_ERROR_IPC_READ_BUFFER_REMOVE_FAILURE : Z :=
  AGENTD_STATUS_ERROR_MACRO AGENTD_SERVICE_IPC 0x000A.
Definition AGENTD_ERROR_IPC_WRITE_BUFFER_TYPE_ADD_FAILURE : Z :=
  AGENTD_STATUS_ERROR_MACRO AGENTD_SERVICE_IPC 0x000B.
Definition AGENTD_ERROR_IPC_WRITE_BUFFER_SIZE_ADD_FAILURE : Z :=
  AGENTD_STATUS_ERROR_MACRO AGENTD_SERVICE_IPC 0x000C.
Definition AGENTD_ERROR_IPC_WRITE_BUFFER_PAYLOAD_ADD_FAILURE : Z :=
  AGENTD_STATUS_ERROR_MACRO AGENTD_SERVICE_IPC 0x000D.
Definition AGENTD_ERROR_IPC_FCNTL_GETFL_FAILURE : Z :=
  AGENTD_STATUS_ERROR_MACRO AGENTD_SERVICE_IPC 0x000E.
Definition AGENTD_ERROR_IPC_FCNTL_SETFL_FAILURE : Z :=
  AGENTD_STATUS_ERROR_MACRO AGENTD_SERVICE_IPC 0x000F.
Definition AGENTD_ERROR_IPC_EVSIGNAL_NEW_FAILURE : Z :=
  AGENTD_STATUS_ERROR_MACRO AGENTD_SERVICE_IPC 0x0010.
Definition AGENTD_ERROR_IPC_EVENT_ADD_FAILURE : Z :=
  AGENTD_STATUS_ERROR_MACRO AGENTD_SERVICE_IPC 0x0011.
Definition AGENTD_ERROR_IPC_INVALID_ARGUMENT : Z :=
  AGENTD_STATUS_ERROR_MACRO AGENTD_SERVICE_IPC 0x0012.
Definition AGENTD_ERROR_IPC_MISSING_CALLBACK : Z :=
  AGENTD_STATUS_ERROR_MACRO AGENTD_SERVICE_IPC 0x0013.
Definition AGENTD_ERROR_IPC_EVBUFFER_NEW_FAILURE : Z :=
  AGENTD_STATUS_ERROR_MACRO AGENTD_SERVICE_IPC 0x0014.
Definition AGENTD_ERROR_IPC_EVENT_NEW_FAILURE : Z :=
  AGENTD_STATUS_ERROR_MACRO AGENTD_SERVICE_IPC 0x0015.
Definition AGENTD_ERROR_IPC_EVBUFFER_READ_FAILURE : Z :=
  AGENTD_STATUS_ERROR_MACRO AGENTD_SERVICE_IPC 0x0016.
Definition AGENTD_ERROR_IPC_SOCKETPAIR_FAILURE : Z :=
  AGENTD_STATUS_ERROR_MACRO AGENTD_SERVICE_IPC 0x0017.
Definition AGENTD_ERROR_IPC_ACCEPT_NOBLOCK_FAILURE : Z :=
  AGENTD_STATUS_ERROR_MACRO AGENTD_SERVICE_IPC 0x0018.
Definition AGENTD_ERROR_IPC_CRYPTO_FAILURE : Z :=
  AGENTD_STATUS_ERROR_MACRO AGENTD_SERVICE_IPC 0x0019.
Definition AGENTD_ERROR_IPC_UNAUTHORIZED_PACKET : Z :=
  AGENTD_STATUS_ERROR_MACRO AGENTD_SERVICE_IPC 0x001A.
Definition AGENTD_ERROR_IPC_EVBUFFER_EOF : Z :=
  AGENTD_STATUS_ERROR_MACRO AGENTD_SERVICE_IPC 0x001B.
Definition AGENTD_ERROR_IPC_ACCEPT_SHOULD_RETRY : Z :=
  AGENTD_STATUS_ERROR_MACRO AGENTD_SERVICE_IPC 0x001C.

Definition AGENTD_ERROR_DATASERVICE_NOT_FOUND : Z :=
  AGENTD_STATUS_ERROR_MACRO AGENTD_SERVICE_DATASERVICE 0x0001.
Definition AGENTD_ERROR_DATASERVICE_NOT_AUTHORIZED : Z :=
  AGENTD_STATUS_ERROR_MACRO AGENTD_SERVICE_DATASERVICE 0x0003.
Definition AGENTD_ERROR_DATASERVICE_IPC_READ_DATA_FAILURE : Z :=
  AGENTD_STATUS_ERROR_MACRO AGENTD_SERVICE_DATASERVICE 0x0004.
Definition AGENTD_ERROR_DATASERVICE_RECVRESP_UNEXPECTED_DATA_PACKET_SIZE : Z :=
  AGENTD_STATUS_ERROR_MACRO AGENTD_SERVICE_DATASERVICE 0x0005.
Definition AGENTD_ERROR_DATASERVICE_RECVRESP_UNEXPECTED_METHOD_CODE : Z :=
  AGENTD_STATUS_ERROR_MACRO AGENTD_SERVICE_DATASERVICE 0x0006.
Definition AGENTD_ERROR_DATASERVICE_RECVRESP_MALFORMED_PAYLOAD_DATA : Z :=
  AGENTD_STATUS_ERROR_MACRO AGENTD_SERVICE_DATASERVICE 0x0007.
Definition AGENTD_ERROR_DATASERVICE_IPC_WRITE_DATA_FAILURE : Z :=
  AGENTD_STATUS_ERROR_MACRO AGENTD_SERVICE_DATASERVICE 0x0008.
Definition AGENTD_ERROR_DATASERVICE_BLOCK_HEIGHT : Z :=
  AGENTD_STATUS_ERROR_MACRO AGENTD_SERVICE_DATASERVICE 0x0009.
Definition AGENTD_ERROR_DATASERVICE_PREVIOUS_BLOCK_UUID : Z :=
  AGENTD_STATUS_ERROR_MACRO AGENTD_SERVICE_DATASERVICE 0x000A.
Definition AGENTD_ERROR_DATASERVICE_NO_CHILD_TRANSACTIONS : Z :=
  AGENTD_STATUS_ERROR_MACRO AGENTD_SERVICE_DATASERVICE 0x000C.
Definition AGENTD_ERROR_DATASERVICE_BLOCK_MAKE_BLOCK_INSERTION_FAILURE : Z :=
  AGENTD_STATUS_ERROR_MACRO AGENTD_SERVICE_DATASERVICE 0x000E.
Definition AGENTD_ERROR_DATASERVICE_BLOCK_MAKE_CHILD_TRANSACTION_FAILURE : Z :=
  AGENTD_STATUS_ERROR_MACRO AGENTD_SERVICE_DATASERVICE 0x000F.
Definition AGENTD_ERROR_DATASERVICE_REQUEST_PACKET_INVALID_SIZE : Z :=
  AGENTD_STATUS_ERROR_MACRO AGENTD_SERVICE_DATASERVICE 0x0010.
Definition AGENTD_ERROR_DATASERVICE_CHILD_CONTEXT_BAD_INDEX : Z :=
  AGENTD_STATUS_ERROR_MACRO AGENTD_SERVICE_DATASERVICE 0x0011.
Definition AGENTD_ERROR_DATASERVICE_CHILD_CONTEXT_INVALID : Z :=
  AGENTD_STATUS_ERROR_MACRO AGENTD_SERVICE_DATASERVICE 0x0012.
Definition AGENTD_ERROR_DATASERVICE_CHILD_CONTEXT_MAX_REACHED : Z :=
  AGENTD_STATUS_ERROR_MACRO AGENTD_SERVICE_DATASERVICE 0x0013.
Definition AGENTD_ERROR_DATASERVICE_REQUEST_PACKET_BAD : Z :=
  AGENTD_STATUS_ERROR_MACRO AGENTD_SERVICE_DATASERVICE 0x0014.
Definition AGENTD_ERROR_DATASERVICE_PROC_RUNSECURE_ROOT_USER_REQUIRED : Z :=
  AGENTD_STATUS_ERROR_MACRO AGENTD_SERVICE_DATASERVICE 0x0015.
Definition AGENTD_ERROR_DATASERVICE_IPC_SOCKETPAIR_FAILURE : Z :=
  AGENTD_STATUS_ERROR_MACRO AGENTD_SERVICE_DATASERVICE 0x0016.
Definition AGENTD_ERROR_DATASERVICE_FORK_FAILURE : Z :=
  AGENTD_STATUS_ERROR_MACRO AGENTD_SERVICE_DATASERVICE 0x0017.
Definition AGENTD_ERROR_DATASERVICE_PRIVSEP_LOOKUP_USERGROUP_FAILURE : Z :=
  AGENTD_STATUS_ERROR_MACRO AGENTD_SERVICE_DATASERVICE 0x0018.
Definition AGENTD_ERROR_DATASERVICE_PRIVSEP_CHROOT_FAILURE : Z :=
  AGENTD_STATUS_ERROR_MACRO AGENTD_SERVICE_DATASERVICE 0x0019.
Definition AGENTD_ERROR_DATASERVICE_PRIVSEP_DROP_PRIVILEGES_FAILURE : Z :=
  AGENTD_STATUS_ERROR_MACRO AGENTD_SERVICE_DATASERVICE 0x001A.
Definition AGENTD_ERROR_DATASERVICE_PRIVSEP_SETFDS_FAILURE : Z :=
  AGENTD_STATUS_ERROR_MACRO AGENTD_SERVICE_DATASERVICE 0x001B.
Definition AGENTD_ERROR_DATASERVICE_PRIVSEP_EXEC_PRIVATE_FAILURE : Z :=
  AGENTD_STATUS_ERROR_MACRO AGENTD_SERVICE_DATASERVICE 0x001C.
Definition AGENTD_ERROR_DATASERVICE_PRIVSEP_EXEC_SURVIVAL_WEIRDNESS : Z :=
  AGENTD_STATUS_ERROR_MACRO AGENTD_SERVICE_DATASERVICE 0x001D.
Definition AGENTD_ERROR_DATASERVICE_CHILD_DETAILS_DELETE_FAILURE : Z :=
  AGENTD_STATUS_ERROR_MACRO AGENTD_SERVICE_DATASERVICE 0x001E.
Definition AGENTD_ERROR_DATASERVICE_INSTANCE_CREATE_FAILURE : Z :=
  AGENTD_STATUS_ERROR_MACRO AGENTD_SERVICE_DATASERVICE 0x001F.
Definition AGENTD_ERROR_DATASERVICE_IPC_MAKE_NOBLOCK_FAILURE : Z :=
  AGENTD_STATUS_ERROR_MACRO AGENTD_SERVICE_DATASERVICE 0x0020.
Definition AGENTD_ERROR_DATASERVICE_IPC_EVENT_LOOP_INIT_FAILURE : Z :=
  AGENTD_STATUS_ERROR_MACRO AGENTD_SERVICE_DATASERVICE 0x0021.
Definition AGENTD_ERROR_DATASERVICE_IPC_EVENT_LOOP_ADD_FAILURE : Z :=
  AGENTD_STATUS_ERROR_MACRO AGENTD_SERVICE_DATASERVICE 0x0022.
Definition AGENTD_ERROR_DATASERVICE_IPC_EVENT_LOOP_RUN_FAILURE : Z :=
  AGENTD_STATUS_ERROR_MACRO AGENTD_SERVICE_DATASERVICE 0x0023.
Definition AGENTD_ERROR_DATASERVICE_CHILD_CONTEXT_CREATE_FAILURE : Z :=
  AGENTD_STATUS_ERROR_MACRO AGENTD_SERVICE_DATASERVICE 0x0024.
Definition AGENTD_ERROR_DATASERVICE_MDB_ENV_CREATE_FAILURE : Z :=
  AGENTD_STATUS_ERROR_MACRO AGENTD_SERVICE_DATASERVICE 0x0025.
Definition AGENTD_ERROR_DATASERVICE_MDB_ENV_SET_MAPSIZE_FAILURE : Z :=
  AGENTD_STATUS_ERROR_MACRO AGENTD_SERVICE_DATASERVICE 0x0026.
Definition AGENTD_ERROR_DATASERVICE_MDB_ENV_SET_MAXDBS_FAILURE : Z :=
  AGENTD_STATUS_ERROR_MACRO AGENTD_SERVICE_DATASERVICE 0x0027.
Definition AGENTD_ERROR_DATASERVICE_MDB_ENV_OPEN_FAILURE : Z :=
  AGENTD_STATUS_ERROR_MACRO AGENTD_SERVICE_DATASERVICE 0x0028.
Definition AGENTD_ERROR_DATASERVICE_MDB_TXN_BEGIN_FAILURE : Z :=
  AGENTD_STATUS_ERROR_MACRO AGENTD_SERVICE_DATASERVICE 0x0029.
Definition AGENTD_ERROR_DATASERVICE_MDB_DBI_OPEN_FAILURE : Z :=
  AGENTD_STATUS_ERROR_MACRO AGENTD_SERVICE_DATASERVICE 0x002A.
Definition AGENTD_ERROR_DATASERVICE_MDB_TXN_COMMIT_FAILURE : Z :=
  AGENTD_STATUS_ERROR_MACRO AGENTD_SERVICE_DATASERVICE 0x002B.
Definition AGENTD_ERROR_DATASERVICE_INVALID_STORED_TRANSACTION_NODE : Z :=
  AGENTD_STATUS_ERROR_MACRO AGENTD_SERVICE_DATASERVICE 0x002C.
Definition AGENTD_ERROR_DATASERVICE_MDB_GET_FAILURE : Z :=
  AGENTD_STATUS_ERROR_MACRO AGENTD_SERVICE_DATASERVICE 0x002D.
Definition AGENTD_ERROR_DATASERVICE_MDB_PUT_FAILURE : Z :=
  AGENTD_STATUS_ERROR_MACRO AGENTD_SERVICE_DATASERVICE 0x002E.
Definition AGENTD_ERROR_DATASERVICE_MDB_DEL_FAILURE : Z :=
  AGENTD_STATUS_ERROR_MACRO AGENTD_SERVICE_DATASERVICE 0x002F.
Definition AGENTD_ERROR_DATASERVICE_INVALID_ARTIFACT_NODE_SIZE : Z :=
  AGENTD_STATUS_ERROR_MACRO AGENTD_SERVICE_DATASERVICE 0x0030.
Definition AGENTD_ERROR_DATASERVICE_INVALID_STORED_BLOCK_NODE : Z :=
  AGENTD_STATUS_ERROR_MACRO AGENTD_SERVICE_DATASERVICE 0x0031.
Definition AGENTD_ERROR_DATASERVICE_INVALID_INDEX_ENTRY : Z :=
  AGENTD_STATUS_ERROR_MACRO AGENTD_SERVICE_DATASERVICE 0x0032.
Definition AGENTD_ERROR_DATASERVICE_VCCRYPT_SUITE_OPTIONS_INIT_FAILURE : Z :=
  AGENTD_STATUS_ERROR_MACRO AGENTD_SERVICE_DATASERVICE 0x0033.
Definition AGENTD_ERROR_DATASERVICE_VCCERT_PARSER_OPTIONS_INIT_FAILURE : Z :=
  AGENTD_STATUS_ERROR_MACRO AGENTD_SERVICE_DATASERVICE 0x0034.
Definition AGENTD_ERROR_DATASERVICE_VCCERT_PARSER_INIT_FAILURE : Z :=
  AGENTD_STATUS_ERROR_MACRO AGENTD_SERVICE_DATASERVICE 0x0035.
Definition AGENTD_ERROR_DATASERVICE_MISSING_BLOCK_HEIGHT : Z :=
  AGENTD_STATUS_ERROR_MACRO AGENTD_SERVICE_DATASERVICE 0x0036.
Definition AGENTD_ERROR_DATASERVICE_INVALID_BLOCK_HEIGHT : Z :=
  AGENTD_STATUS_ERROR_MACRO AGENTD_SERVICE_DATASERVICE 0x0037.
Definition AGENTD_ERROR_DATASERVICE_MISSING_PREVIOUS_BLOCK_UUID : Z :=
  AGENTD_STATUS_ERROR_MACRO AGENTD_SERVICE_DATASERVICE 0x0038.
Definition AGENTD_ERROR_DATASERVICE_INVALID_PREVIOUS_BLOCK_UUID : Z :=
  AGENTD_STATUS_ERROR_MACRO AGENTD_SERVICE_DATASERVICE 0x0039.
Definition AGENTD_ERROR_DATASERVICE_MISSING_BLOCK_UUID : Z :=
  AGENTD_STATUS_ERROR_MACRO AGENTD_SERVICE_DATASERVICE 0x003A.
Definition AGENTD_ERROR_DATASERVICE_INVALID_BLOCK_UUID : Z :=
  AGENTD_STATUS_ERROR_MACRO AGENTD_SERVICE_DATASERVICE 0x003B.
Definition AGENTD_ERROR_DATASERVICE_MISSING_CHILD_TRANSACTION_UUID : Z :=
  AGENTD_STATUS_ERROR_MACRO AGENTD_SERVICE_DATASERVICE 0x003C.
Definition AGENTD_ERROR_DATASERVICE_MISSING_CHILD_PREVIOUS_TRANSACTION_UUID : Z :=
  AGENTD_STATUS_ERROR_MACRO AGENTD_SERVICE_DATASERVICE 0x003D.
Definition AGENTD_ERROR_DATASERVICE_MISSING_CHILD_ARTIFACT_UUID : Z :=
  AGENTD_STATUS_ERROR_MACRO AGENTD_SERVICE_DATASERVICE 0x003E.
Definition AGENTD_ERROR_DATASERVICE_MISSING_CHILD_STATE : Z :=
  AGENTD_STATUS_ERROR_MACRO AGENTD_SERVICE_DATASERVICE 0x003F.
Definition AGENTD_ERROR_DATASERVICE_OUT_OF_CHILD_INSTANCES : Z :=
  AGENTD_STATUS_ERROR_MACRO AGENTD_SERVICE_DATASERVICE 0x0040.
Definition AGENTD_ERROR_DATASERVICE_WOULD_TRUNCATE : Z :=
  AGENTD_STATUS_ERROR_MACRO AGENTD_SERVICE_DATASERVICE 0x0041.
Definition AGENTD_ERROR_DATASERVICE_RESPONSE_PACKET_INVALID_SIZE : Z :=
  AGENTD_STATUS_ERROR_MACRO AGENTD_SERVICE_DATASERVICE 0x0042.
Definition AGENTD_ERROR_DATASERVICE_RESPONSE_INVALID_PARAMETER : Z :=
  AGENTD_STATUS_ERROR_MACRO AGENTD_SERVICE_DATASERVICE 0x0043.
Definition AGENTD_ERROR_DATASERVICE_PRIVSEP_CLOSE_OTHER_FDS : Z :=
  AGENTD_STATUS_ERROR_MACRO AGENTD_SERVICE_DATASERVICE 0x0044.
Definition AGENTD_ERROR_DATASERVICE_INVALID_PARAMETER : Z :=
  AGENTD_STATUS_ERROR_MACRO AGENTD_SERVICE_DATASERVICE 0x0045.

(** Every code of the general service, in the order of its header. *)
Definition general_status_codes : list Z :=
  [AGENTD_ERROR_GENERAL_OUT_OF_MEMORY;
   AGENTD_ERROR_GENERAL_PATH_NOT_FOUND;
   AGENTD_ERROR_GENERAL_CHDIR_FAILURE;
   AGENTD_ERROR_GENERAL_CHROOT_FAILURE;
   AGENTD_ERROR_GENERAL_GETPWNAM_FAILURE;
   AGENTD_ERROR_GENERAL_GETGRNAM_FAILURE;
   AGENTD_ERROR_GENERAL_PRIVSEP_SETFDS_STDIN_CLOSE;
   AGENTD_ERROR_GENERAL_PRIVSEP_SETFDS_STDOUT_CLOSE;
   AGENTD_ERROR_GENERAL_PRIVSEP_SETFDS_STDERR_CLOSE;
   AGENTD_ERROR_GENERAL_PRIVSEP_SETFDS_DUP2_FAILURE;
   AGENTD_ERROR_GENERAL_PRIVSEP_SETFDS_BAD_ARGUMENT;
   AGENTD_ERROR_GENERAL_PRIVSEP_DROP_PRIVILEGES_SETEGID_FAILURE;
   AGENTD_ERROR_GENERAL_PRIVSEP_DROP_PRIVILEGES_SETEUID_FAILURE;
   AGENTD_ERROR_GENERAL_PRIVSEP_DROP_PRIVILEGES_SETGID_FAILURE;
   AGENTD_ERROR_GENERAL_PRIVSEP_DROP_PRIVILEGES_SETUID_FAILURE;
   AGENTD_ERROR_GENERAL_PRIVSEP_EXEC_PRIVATE_SETENV_FAILURE;
   AGENTD_ERROR_GENERAL_PRIVSEP_EXEC_PRIVATE_EXECL_FAILURE].

(** Every code of the ipc service, in the order of its header. *)
Definition ipc_status_codes : list Z :=
  [AGENTD_ERROR_IPC_WOULD_BLOCK;
   AGENTD_ERROR_IPC_READ_BLOCK_FAILURE;
   AGENTD_ERROR_IPC_WRITE_BLOCK_FAILURE;
   AGENTD_ERROR_IPC_READ_NONBLOCK_FAILURE;
   AGENTD_ERROR_IPC_WRITE_NONBLOCK_FAILURE;
   AGENTD_ERROR_IPC_EVENT_BASE_NEW_FAILURE;
   AGENTD_ERROR_IPC_READ_UNEXPECTED_DATA_TYPE;
   AGENTD_ERROR_IPC_READ_UNEXPECTED_DATA_SIZE;
   AGENTD_ERROR_IPC_READ_BUFFER_DRAIN_FAILURE;
   AGENTD_ERROR_IPC_READ_BUFFER_REMOVE_FAILURE;
   AGENTD_ERROR_IPC_WRITE_BUFFER_TYPE_ADD_FAILURE;
   AGENTD_ERROR_IPC_WRITE_BUFFER_SIZE_ADD_FAILURE;
   AGENTD_ERROR_IPC_WRITE_BUFFER_PAYLOAD_ADD_FAILURE;
   AGENTD_ERROR_IPC_FCNTL_GETFL_FAILURE;
   AGENTD_ERROR_IPC_FCNTL_SETFL_FAILURE;
   AGENTD_ERROR_IPC_EVSIGNAL_NEW_FAILURE;
   AGENTD_ERROR_IPC_EVENT_ADD_FAILURE;
   AGENTD_ERROR_IPC_INVALID_ARGUMENT;
   AGENTD_ERROR_IPC_MISSING_CALLBACK;
   AGENTD_ERROR_IPC_EVBUFFER_NEW_FAILURE;
   AGENTD_ERROR_IPC_EVENT_NEW_FAILURE;
   AGENTD_ERROR_IPC_EVBUFFER_READ_FAILURE;
   AGENTD_ERROR_IPC_SOCKETPAIR_FAILURE;
   AGENTD_ERROR_IPC_ACCEPT_NOBLOCK_FAILURE;
   AGENTD_ERROR_IPC_CRYPTO_FAILURE;
   AGENTD_ERROR_IPC_UNAUTHORIZED_PACKET;
   AGENTD_ERROR_IPC_EVBUFFER_EOF;
   AGENTD_ERROR_IPC_ACCEPT_SHOULD_RETRY].

(** Every code of the dataservice service, in the order of its header. *)
Definition dataservice_status_codes : list Z :=
  [AGENTD_ERROR_DATASERVICE_NOT_FOUND;
   AGENTD_ERROR_DATASERVICE_NOT_AUTHORIZED;
   AGENTD_ERROR_DATASERVICE_IPC_READ_DATA_FAILURE;
   AGENTD_ERROR_DATASERVICE_RECVRESP_UNEXPECTED_DATA_PACKET_SIZE;
   AGENTD_ERROR_DATASERVICE_RECVRESP_UNEXPECTED_METHOD_CODE;
   AGENTD_ERROR_DATASERVICE_RECVRESP_MALFORMED_PAYLOAD_DATA;
   AGENTD_ERROR_DATASERVICE_IPC_WRITE_DATA_FAILURE;
   AGENTD_ERROR_DATASERVICE_BLOCK_HEIGHT;
   AGENTD_ERROR_DATASERVICE_PREVIOUS_BLOCK_UUID;
   AGENTD_ERROR_DATASERVICE_NO_CHILD_TRANSACTIONS;
   AGENTD_ERROR_DATASERVICE_BLOCK_MAKE_BLOCK_INSERTION_FAILURE;
   AGENTD_ERROR_DATASERVICE_BLOCK_MAKE_CHILD_TRANSACTION_FAILURE;
   AGENTD_ERROR_DATASERVICE_REQUEST_PACKET_INVALID_SIZE;
   AGENTD_ERROR_DATASERVICE_CHILD_CONTEXT_BAD_INDEX;
   AGENTD_ERROR_DATASERVICE_CHILD_CONTEXT_INVALID;
   AGENTD_ERROR_DATASERVICE_CHILD_CONTEXT_MAX_REACHED;
   AGENTD_ERROR_DATASERVICE_REQUEST_PACKET_BAD;
   AGENTD_ERROR_DATASERVICE_PROC_RUNSECURE_ROOT_USER_REQUIRED;
   AGENTD_ERROR_DATASERVICE_IPC_SOCKETPAIR_FAILURE;
   AGENTD_ERROR_DATASERVICE_FORK_FAILURE;
   AGENTD_ERROR_DATASERVICE_PRIVSEP_LOOKUP_USERGROUP_FAILURE;
   AGENTD_ERROR_DATASERVICE_PRIVSEP_CHROOT_FAILURE;
   AGENTD_ERROR_DATASERVICE_PRIVSEP_DROP_PRIVILEGES_FAILURE;
   AGENTD_ERROR_DATASERVICE_PRIVSEP_SETFDS_FAILURE;
   AGENTD_ERROR_DATASERVICE_PRIVSEP_EXEC_PRIVATE_FAILURE;
   AGENTD_ERROR_DATASERVICE_PRIVSEP_EXEC_SURVIVAL_WEIRDNESS;
   AGENTD_ERROR_DATASERVICE_CHILD_DETAILS_DELETE_FAILURE;
   AGENTD_ERROR_DATASERVICE_INSTANCE_CREATE_FAILURE;
   AGENTD_ERROR_DATASERVICE_IPC_MAKE_NOBLOCK_FAILURE;
   AGENTD_ERROR_DATASERVICE_IPC_EVENT_LOOP_INIT_FAILURE;
   AGENTD_ERROR_DATASERVICE_IPC_EVENT_LOOP_ADD_FAILURE;
   AGENTD_ERROR_DATASERVICE_IPC_EVENT_LOOP_RUN_FAILURE;
   AGENTD_ERROR_DATASERVICE_CHILD_CONTEXT_CREATE_FAILURE;
   AGENTD_ERROR_DATASERVICE_MDB_ENV_CREATE_FAILURE;
   AGENTD_ERROR_DATASERVICE_MDB_ENV_SET_MAPSIZE_FAILURE;
   AGENTD_ERROR_DATASERVICE_MDB_ENV_SET_MAXDBS_FAILURE;
   AGENTD_ERROR_DATASERVICE_MDB_ENV_OPEN_FAILURE;
   AGENTD_ERROR_DATASERVICE_MDB_TXN_BEGIN_FAILURE;
   AGENTD_ERROR_DATASERVICE_MDB_DBI_OPEN_FAILURE;
   AGENTD_ERROR_DATASERVICE_MDB_TXN_COMMIT_FAILURE;
   AGENTD_ERROR_DATASERVICE_INVALID_STORED_TRANSACTION_NODE;
   AGENTD_ERROR_DATASERVICE_MDB_GET_FAILURE;
   AGENTD_ERROR_DATASERVICE_MDB_PUT_FAILURE;
   AGENTD_ERROR_DATASERVICE_MDB_DEL_FAILURE;
   AGENTD_ERROR_DATASERVICE_INVALID_ARTIFACT_NODE_SIZE;
   AGENTD_ERROR_DATASERVICE_INVALID_STORED_BLOCK_NODE;
   AGENTD_ERROR_DATASERVICE_INVALID_INDEX_ENTRY;
   AGENTD_ERROR_DATASERVICE_VCCRYPT_SUITE_OPTIONS_INIT_FAILURE;
   AGENTD_ERROR_DATASERVICE_VCCERT_PARSER_OPTIONS_INIT_FAILURE;
   AGENTD_ERROR_DATASERVICE_VCCERT_PARSER_INIT_FAILURE;
   AGENTD_ERROR_DATASERVICE_MISSING_BLOCK_HEIGHT;
   AGENTD_ERROR_DATASERVICE_INVALID_BLOCK_HEIGHT;
   AGENTD_ERROR_DATASERVICE_MISSING_PREVIOUS_BLOCK_UUID;
   AGENTD_ERROR_DATASERVICE_INVALID_PREVIOUS_BLOCK_UUID;
   AGENTD_ERROR_DATASERVICE_MISSING_BLOCK_UUID;
   AGENTD_ERROR_DATASERVICE_INVALID_BLOCK_UUID;
   AGENTD_ERROR_DATASERVICE_MISSING_CHILD_TRANSACTION_UUID;
   AGENTD_ERROR_DATASERVICE_MISSING_CHILD_PREVIOUS_TRANSACTION_UUID;
   AGENTD_ERROR_DATASERVICE_MISSING_CHILD_ARTIFACT_UUID;
   AGENTD_ERROR_DATASERVICE_MISSING_CHILD_STATE;
   AGENTD_ERROR_DATASERVICE_OUT_OF_CHILD_INSTANCES;
   AGENTD_ERROR_DATASERVICE_WOULD_TRUNCATE;
   AGENTD_ERROR_DATASERVICE_RESPONSE_PACKET_INVALID_SIZE;
   AGENTD_ERROR_DATASERVICE_RESPONSE_INVALID_PARAMETER;
   AGENTD_ERROR_DATASERVICE_PRIVSEP_CLOSE_OTHER_FDS;
   AGENTD_ERROR_DATASERVICE_INVALID_PARAMETER].

(** The service and the reason a code was built from. *)
Definition status_service (code : Z) : Z := Z.land (Z.shiftr code 16) 0xFF.
Definition status_reason (code : Z) : Z := Z.land code 0xFFFF.

Global Opaque AGENTD_STATUS_ERROR_MACRO.

(** ** Status codes of the other services

    The other headers under [src/include/agentd/status_codes/]: the codes of the configuration, the supervisor, the
    readers and the other services of the agent. *)

(** ** The services *)

Definition AGENTD_SERVICE_SUPERVISOR : Z := 0x02.
Definition AGENTD_SERVICE_CONFIG : Z := 0x04.
Definition AGENTD_SERVICE_AUTHSERVICE : Z := 0x05.
Definition AGENTD_SERVICE_LOG : Z := 0x06.
Definition AGENTD_SERVICE_CANONIZATION : Z := 0x07.
Definition AGENTD_SERVICE_APPLICATION : Z := 0x08.
Definition AGENTD_SERVICE_PROCESS : Z := 0x09.
Definition AGENTD_SERVICE_PROTOCOL : Z := 0x0A.
Definition AGENTD_SERVICE_LISTEN : Z := 0x0B.
Definition AGENTD_SERVICE_RANDOM : Z := 0x0C.
Definition AGENTD_SERVICE_READER : Z := 0x0D.
Definition AGENTD_SERVICE_ATTESTATION : Z := 0x0E.
Definition AGENTD_SERVICE_NOTIFICATION : Z := 0x0F.

(** ** The codes *)

Definition AGENTD_ERROR_CONFIG_IPC_WRITE_DATA_FAILURE : Z :=
  AGENTD_STATUS_ERROR_MACRO AGENTD_SERVICE_CONFIG 0x0000.
Definition AGENTD_ERROR_CONFIG_IPC_READ_DATA_FAILURE : Z :=
  AGENTD_STATUS_ERROR_MACRO AGENTD_SERVICE_CONFIG 0x0001.
Definition AGENTD_ERROR_CONFIG_INET_NTOP_FAILURE : Z :=
  AGENTD_STATUS_ERROR_MACRO AGENTD_SERVICE_CONFIG 0x0002.
Definition AGENTD_ERROR_CONFIG_INET_PTON_FAILURE : Z :=
  AGENTD_STATUS_ERROR_MACRO AGENTD_SERVICE_CONFIG 0x0003.
Definition AGENTD_ERROR_CONFIG_PROC_RUNSECURE_ROOT_USER_REQUIRED : Z :=
  AGENTD_STATUS_ERROR_MACRO AGENTD_SERVICE_CONFIG 0x0004.
Definition AGENTD_ERROR_CONFIG_IPC_SOCKETPAIR_FAILURE : Z :=
  AGENTD_STATUS_ERROR_MACRO AGENTD_SERVICE_CONFIG 0x0005.
Definition AGENTD_ERROR_CONFIG_FORK_FAILURE : Z :=
  AGENTD_STATUS_ERROR_MACRO AGENTD_SERVICE_CONFIG 0x0006.
Definition AGENTD_ERROR_CONFIG_PRIVSEP_LOOKUP_USERGROUP_FAILURE : Z :=
  AGENTD_STATUS_ERROR_MACRO AGENTD_SERVICE_CONFIG 0x0007.
Definition AGENTD_ERROR_CONFIG_PRIVSEP_CHROOT_FAILURE : Z :=
  AGENTD_STATUS_ERROR_MACRO AGENTD_SERVICE_CONFIG 0x0008.
Definition AGENTD_ERROR_CONFIG_PRIVSEP_DROP_PRIVILEGES_FAILURE : Z :=
  AGENTD_STATUS_ERROR_MACRO AGENTD_SERVICE_CONFIG 0x0009.
Definition AGENTD_ERROR_CONFIG_PRIVSEP_SETFDS_FAILURE : Z :=
  AGENTD_STATUS_ERROR_MACRO AGENTD_SERVICE_CONFIG 0x000A.
Definition AGENTD_ERROR_CONFIG_PRIVSEP_EXEC_PRIVATE_FAILURE : Z :=
  AGENTD_STATUS_ERROR_MACRO AGENTD_SERVICE_CONFIG 0x000B.
Definition AGENTD_ERROR_CONFIG_PRIVSEP_EXEC_SURVIVAL_WEIRDNESS : Z :=
  AGENTD_STATUS_ERROR_MACRO AGENTD_SERVICE_CONFIG 0x000C.
Definition AGENTD_ERROR_CONFIG_OPEN_CONFIG_FILE_FAILURE : Z :=
  AGENTD_STATUS_ERROR_MACRO AGENTD_SERVICE_CONFIG 0x000D.
Definition AGENTD_ERROR_CONFIG_PROC_EXIT_FAILURE : Z :=
  AGENTD_STATUS_ERROR_MACRO AGENTD_SERVICE_CONFIG 0x000E.
Definition AGENTD_ERROR_CONFIG_DEFAULTS_SET_FAILURE : Z :=
  AGENTD_STATUS_ERROR_MACRO AGENTD_SERVICE_CONFIG 0x000F.
Definition AGENTD_ERROR_CONFIG_INVALID_STREAM : Z :=
  AGENTD_STATUS_ERROR_MACRO AGENTD_SERVICE_CONFIG 0x0010.
Definition AGENTD_ERROR_CONFIG_PRIVSEP_CLOSE_OTHER_FDS : Z :=
  AGENTD_STATUS_ERROR_MACRO AGENTD_SERVICE_CONFIG 0x0011.

Definition AGENTD_ERROR_SUPERVISOR_SIGNAL_INSTALLATION : Z :=
  AGENTD_STATUS_ERROR_MACRO AGENTD_SERVICE_SUPERVISOR 0x0001.

Definition AGENTD_ERROR_AUTHSERVICE_IPC_MAKE_NOBLOCK_FAILURE : Z :=
  AGENTD_STATUS_ERROR_MACRO AGENTD_SERVICE_AUTHSERVICE 0x0001.
Definition AGENTD_ERROR_AUTHSERVICE_IPC_EVENT_LOOP_ADD_FAILURE : Z :=
  AGENTD_STATUS_ERROR_MACRO AGENTD_SERVICE_AUTHSERVICE 0x0002.
Definition AGENTD_ERROR_AUTHSERVICE_IPC_EVENT_LOOP_RUN_FAILURE : Z :=
  AGENTD_STATUS_ERROR_MACRO AGENTD_SERVICE_AUTHSERVICE 0x0003.
Definition AGENTD_ERROR_AUTHSERVICE_IPC_EVENT_LOOP_INIT_FAILURE : Z :=
  AGENTD_STATUS_ERROR_MACRO AGENTD_SERVICE_AUTHSERVICE 0x0004.
Definition AGENTD_ERROR_AUTHSERVICE_PUBKEY_BUFFER_INIT_FAILURE : Z :=
  AGENTD_STATUS_ERROR_MACRO AGENTD_SERVICE_AUTHSERVICE 0x0005.
Definition AGENTD_ERROR_AUTHSERVICE_PRIVKEY_BUFFER_INIT_FAILURE : Z :=
  AGENTD_STATUS_ERROR_MACRO AGENTD_SERVICE_AUTHSERVICE 0x0006.
Definition AGENTD_ERROR_AUTHSERVICE_REQUEST_PACKET_INVALID_SIZE : Z :=
  AGENTD_STATUS_ERROR_MACRO AGENTD_SERVICE_AUTHSERVICE 0x0007.
Definition AGENTD_ERROR_AUTHSERVICE_REQUEST_PACKET_BAD : Z :=
  AGENTD_STATUS_ERROR_MACRO AGENTD_SERVICE_AUTHSERVICE 0x0008.
Definition AGENTD_ERROR_AUTHSERVICE_PROC_RUNSECURE_ROOT_USER_REQUIRED : Z :=
  AGENTD_STATUS_ERROR_MACRO AGENTD_SERVICE_AUTHSERVICE 0x0009.
Definition AGENTD_ERROR_AUTHSERVICE_IPC_SOCKETPAIR_FAILURE : Z :=
  AGENTD_STATUS_ERROR_MACRO AGENTD_SERVICE_AUTHSERVICE 0x000A.
Definition AGENTD_ERROR_AUTHSERVICE_FORK_FAILURE : Z :=
  AGENTD_STATUS_ERROR_MACRO AGENTD_SERVICE_AUTHSERVICE 0x000B.
Definition AGENTD_ERROR_AUTHSERVICE_PRIVSEP_LOOKUP_USERGROUP_FAILURE : Z :=
  AGENTD_STATUS_ERROR_MACRO AGENTD_SERVICE_AUTHSERVICE 0x000C.
Definition AGENTD_ERROR_AUTHSERVICE_PRIVSEP_CHROOT_FAILURE : Z :=
  AGENTD_STATUS_ERROR_MACRO AGENTD_SERVICE_AUTHSERVICE 0x000D.
Definition AGENTD_ERROR_AUTHSERVICE_PRIVSEP_DROP_PRIVILEGES_FAILURE : Z :=
  AGENTD_STATUS_ERROR_MACRO AGENTD_SERVICE_AUTHSERVICE 0x000E.
Definition AGENTD_ERROR_AUTHSERVICE_PRIVSEP_SETFDS_FAILURE : Z :=
  AGENTD_STATUS_ERROR_MACRO AGENTD_SERVICE_AUTHSERVICE 0x000F.
Definition AGENTD_ERROR_AUTHSERVICE_PRIVSEP_EXEC_PRIVATE_FAILURE : Z :=
  AGENTD_STATUS_ERROR_MACRO AGENTD_SERVICE_AUTHSERVICE 0x0010.
Definition AGENTD_ERROR_AUTHSERVICE_PRIVSEP_EXEC_SURVIVAL_WEIRDNESS : Z :=
  AGENTD_STATUS_ERROR_MACRO AGENTD_SERVICE_AUTHSERVICE 0x0011.
Definition AGENTD_ERROR_AUTHSERVICE_IPC_WRITE_DATA_FAILURE : Z :=
  AGENTD_STATUS_ERROR_MACRO AGENTD_SERVICE_AUTHSERVICE 0x0012.
Definition AGENTD_ERROR_AUTHSERVICE_IPC_READ_DATA_FAILURE : Z :=
  AGENTD_STATUS_ERROR_MACRO AGENTD_SERVICE_AUTHSERVICE 0x0013.
Definition AGENTD_ERROR_AUTHSERVICE_RECVRESP_UNEXPECTED_DATA_PACKET_SIZE : Z :=
  AGENTD_STATUS_ERROR_MACRO AGENTD_SERVICE_AUTHSERVICE 0x0014.
Definition AGENTD_ERROR_AUTHSERVICE_RECVRESP_UNEXPECTED_METHOD_CODE : Z :=
  AGENTD_STATUS_ERROR_MACRO AGENTD_SERVICE_AUTHSERVICE 0x0015.
Definition AGENTD_ERROR_AUTHSERVICE_PRIVSEP_CLOSE_OTHER_FDS : Z :=
  AGENTD_STATUS_ERROR_MACRO AGENTD_SERVICE_AUTHSERVICE 0x0016.

Definition AGENTD_ERROR_CANONIZATIONSERVICE_PROC_RUNSECURE_ROOT_USER_REQUIRED : Z :=
  AGENTD_STATUS_ERROR_MACRO AGENTD_SERVICE_CANONIZATION 0x0001.
Definition AGENTD_ERROR_CANONIZATIONSERVICE_FORK_FAILURE : Z :=
  AGENTD_STATUS_ERROR_MACRO AGENTD_SERVICE_CANONIZATION 0x0002.
Definition AGENTD_ERROR_CANONIZATIONSERVICE_PRIVSEP_LOOKUP_USERGROUP_FAILURE : Z :=
  AGENTD_STATUS_ERROR_MACRO AGENTD_SERVICE_CANONIZATION 0x0003.
Definition AGENTD_ERROR_CANONIZATIONSERVICE_PRIVSEP_CHROOT_FAILURE : Z :=
  AGENTD_STATUS_ERROR_MACRO AGENTD_SERVICE_CANONIZATION 0x0004.
Definition AGENTD_ERROR_CANONIZATIONSERVICE_PRIVSEP_DROP_PRIVILEGES_FAILURE : Z :=
  AGENTD_STATUS_ERROR_MACRO AGENTD_SERVICE_CANONIZATION 0x0005.
Definition AGENTD_ERROR_CANONIZATIONSERVICE_PRIVSEP_SETFDS_FAILURE : Z :=
  AGENTD_STATUS_ERROR_MACRO AGENTD_SERVICE_CANONIZATION 0x0006.
Definition AGENTD_ERROR_CANONIZATIONSERVICE_PRIVSEP_EXEC_PRIVATE_FAILURE : Z :=
  AGENTD_STATUS_ERROR_MACRO AGENTD_SERVICE_CANONIZATION 0x0007.
Definition AGENTD_ERROR_CANONIZATIONSERVICE_PRIVSEP_EXEC_SURVIVAL_WEIRDNESS : Z :=
  AGENTD_STATUS_ERROR_MACRO AGENTD_SERVICE_CANONIZATION 0x0008.
Definition AGENTD_ERROR_CANONIZATIONSERVICE_IPC_EVENT_LOOP_INIT : Z :=
  AGENTD_STATUS_ERROR_MACRO AGENTD_SERVICE_CANONIZATION 0x0009.
Definition AGENTD_ERROR_CANONIZATIONSERVICE_IPC_EVENT_LOOP_RUN_FAILURE : Z :=
  AGENTD_STATUS_ERROR_MACRO AGENTD_SERVICE_CANONIZATION 0x000A.
Definition AGENTD_ERROR_CANONIZATIONSERVICE_IPC_WRITE_DATA_FAILURE : Z :=
  AGENTD_STATUS_ERROR_MACRO AGENTD_SERVICE_CANONIZATION 0x000B.
Definition AGENTD_ERROR_CANONIZATIONSERVICE_IPC_READ_DATA_FAILURE : Z :=
  AGENTD_STATUS_ERROR_MACRO AGENTD_SERVICE_CANONIZATION 0x000C.
Definition AGENTD_ERROR_CANONIZATIONSERVICE_INSTANCE_CREATE_FAILURE : Z :=
  AGENTD_STATUS_ERROR_MACRO AGENTD_SERVICE_CANONIZATION 0x000D.
Definition AGENTD_ERROR_CANONIZATIONSERVICE_IPC_MAKE_NOBLOCK_FAILURE : Z :=
  AGENTD_STATUS_ERROR_MACRO AGENTD_SERVICE_CANONIZATION 0x000E.
Definition AGENTD_ERROR_CANONIZATIONSERVICE_IPC_EVENT_LOOP_ADD_FAILURE : Z :=
  AGENTD_STATUS_ERROR_MACRO AGENTD_SERVICE_CANONIZATION 0x000F.
Definition AGENTD_ERROR_CANONIZATIONSERVICE_REQUEST_PACKET_INVALID_SIZE : Z :=
  AGENTD_STATUS_ERROR_MACRO AGENTD_SERVICE_CANONIZATION 0x0010.
Definition AGENTD_ERROR_CANONIZATIONSERVICE_REQUEST_PACKET_BAD : Z :=
  AGENTD_STATUS_ERROR_MACRO AGENTD_SERVICE_CANONIZATION 0x0011.
Definition AGENTD_ERROR_CANONIZATIONSERVICE_RESPONSE_PACKET_INVALID_SIZE : Z :=
  AGENTD_STATUS_ERROR_MACRO AGENTD_SERVICE_CANONIZATION 0x0012.
Definition AGENTD_ERROR_CANONIZATIONSERVICE_RECVRESP_UNEXPECTED_METHOD_CODE : Z :=
  AGENTD_STATUS_ERROR_MACRO AGENTD_SERVICE_CANONIZATION 0x0013.
Definition AGENTD_ERROR_CANONIZATIONSERVICE_START_BEFORE_CONFIGURE : Z :=
  AGENTD_STATUS_ERROR_MACRO AGENTD_SERVICE_CANONIZATION 0x0014.
Definition AGENTD_ERROR_CANONIZATIONSERVICE_ALREADY_RUNNING : Z :=
  AGENTD_STATUS_ERROR_MACRO AGENTD_SERVICE_CANONIZATION 0x0015.
Definition AGENTD_ERROR_CANONIZATIONSERVICE_BAD_PARAMETER : Z :=
  AGENTD_STATUS_ERROR_MACRO AGENTD_SERVICE_CANONIZATION 0x0016.
Definition AGENTD_ERROR_CANONIZATIONSERVICE_ALREADY_CONFIGURED : Z :=
  AGENTD_STATUS_ERROR_MACRO AGENTD_SERVICE_CANONIZATION 0x0017.
Definition AGENTD_ERROR_CANONIZATIONSERVICE_PRIVSEP_CLOSE_OTHER_FDS : Z :=
  AGENTD_STATUS_ERROR_MACRO AGENTD_SERVICE_CANONIZATION 0x0018.
Definition AGENTD_ERROR_CANONIZATIONSERVICE_PRIVATE_KEY_ALREADY_SET : Z :=
  AGENTD_STATUS_ERROR_MACRO AGENTD_SERVICE_CANONIZATION 0x0019.
Definition AGENTD_ERROR_CANONIZATIONSERVICE_START_BEFORE_PRIVATE_KEY_SET : Z :=
  AGENTD_STATUS_ERROR_MACRO AGENTD_SERVICE_CANONIZATION 0x001A.

Definition AGENTD_ERROR_PROCESS_ALREADY_SPAWNED : Z :=
  AGENTD_STATUS_ERROR_MACRO AGENTD_SERVICE_PROCESS 0x0001.
Definition AGENTD_ERROR_PROCESS_NOT_ACTIVE : Z :=
  AGENTD_STATUS_ERROR_MACRO AGENTD_SERVICE_PROCESS 0x0002.

Definition AGENTD_ERROR_PROTOCOLSERVICE_IPC_MAKE_NOBLOCK_FAILURE : Z :=
  AGENTD_STATUS_ERROR_MACRO AGENTD_SERVICE_PROTOCOL 0x0001.
Definition AGENTD_ERROR_PROTOCOLSERVICE_IPC_EVENT_LOOP_ADD_FAILURE : Z :=
  AGENTD_STATUS_ERROR_MACRO AGENTD_SERVICE_PROTOCOL 0x0002.
Definition AGENTD_ERROR_PROTOCOLSERVICE_IPC_EVENT_LOOP_RUN_FAILURE : Z :=
  AGENTD_STATUS_ERROR_MACRO AGENTD_SERVICE_PROTOCOL 0x0003.
Definition AGENTD_ERROR_PROTOCOLSERVICE_PROC_RUNSECURE_ROOT_USER_REQUIRED : Z :=
  AGENTD_STATUS_ERROR_MACRO AGENTD_SERVICE_PROTOCOL 0x0004.
Definition AGENTD_ERROR_PROTOCOLSERVICE_IPC_SOCKETPAIR_FAILURE : Z :=
  AGENTD_STATUS_ERROR_MACRO AGENTD_SERVICE_PROTOCOL 0x0005.
Definition AGENTD_ERROR_PROTOCOLSERVICE_FORK_FAILURE : Z :=
  AGENTD_STATUS_ERROR_MACRO AGENTD_SERVICE_PROTOCOL 0x0006.
Definition AGENTD_ERROR_PROTOCOLSERVICE_PRIVSEP_LOOKUP_USERGROUP_FAILURE : Z :=
  AGENTD_STATUS_ERROR_MACRO AGENTD_SERVICE_PROTOCOL 0x0007.
Definition AGENTD_ERROR_PROTOCOLSERVICE_PRIVSEP_CHROOT_FAILURE : Z :=
  AGENTD_STATUS_ERROR_MACRO AGENTD_SERVICE_PROTOCOL 0x0008.
Definition AGENTD_ERROR_PROTOCOLSERVICE_PRIVSEP_DROP_PRIVILEGES_FAILURE : Z :=
  AGENTD_STATUS_ERROR_MACRO AGENTD_SERVICE_PROTOCOL 0x0009.
Definition AGENTD_ERROR_PROTOCOLSERVICE_PRIVSEP_SETFDS_FAILURE : Z :=
  AGENTD_STATUS_ERROR_MACRO AGENTD_SERVICE_PROTOCOL 0x000A.
Definition AGENTD_ERROR_PROTOCOLSERVICE_PRIVSEP_EXEC_PRIVATE_FAILURE : Z :=
  AGENTD_STATUS_ERROR_MACRO AGENTD_SERVICE_PROTOCOL 0x000B.
Definition AGENTD_ERROR_PROTOCOLSERVICE_PRIVSEP_EXEC_SURVIVAL_WEIRDNESS : Z :=
  AGENTD_STATUS_ERROR_MACRO AGENTD_SERVICE_PROTOCOL 0x000C.
Definition AGENTD_ERROR_PROTOCOLSERVICE_IPC_EVENT_LOOP_INIT_FAILURE : Z :=
  AGENTD_STATUS_ERROR_MACRO AGENTD_SERVICE_PROTOCOL 0x000D.
Definition AGENTD_ERROR_PROTOCOLSERVICE_MALFORMED_REQUEST : Z :=
  AGENTD_STATUS_ERROR_MACRO AGENTD_SERVICE_PROTOCOL 0x000E.
Definition AGENTD_ERROR_PROTOCOLSERVICE_MALFORMED_RESPONSE : Z :=
  AGENTD_STATUS_ERROR_MACRO AGENTD_SERVICE_PROTOCOL 0x000F.
Definition AGENTD_ERROR_PROTOCOLSERVICE_UNAUTHORIZED : Z :=
  AGENTD_STATUS_ERROR_MACRO AGENTD_SERVICE_PROTOCOL 0x0010.
Definition AGENTD_ERROR_PROTOCOLSERVICE_PRNG_REQUEST_FAILURE : Z :=
  AGENTD_STATUS_ERROR_MACRO AGENTD_SERVICE_PROTOCOL 0x0011.
Definition AGENTD_ERROR_PROTOCOLSERVICE_TRANSACTION_VERIFICATION : Z :=
  AGENTD_STATUS_ERROR_MACRO AGENTD_SERVICE_PROTOCOL 0x0012.
Definition AGENTD_ERROR_PROTOCOLSERVICE_PRIVSEP_CLOSE_OTHER_FDS : Z :=
  AGENTD_STATUS_ERROR_MACRO AGENTD_SERVICE_PROTOCOL 0x0013.
Definition AGENTD_ERROR_PROTOCOLSERVICE_REQUEST_PACKET_INVALID_SIZE : Z :=
  AGENTD_STATUS_ERROR_MACRO AGENTD_SERVICE_PROTOCOL 0x0014.
Definition AGENTD_ERROR_PROTOCOLSERVICE_REQUEST_PACKET_BAD : Z :=
  AGENTD_STATUS_ERROR_MACRO AGENTD_SERVICE_PROTOCOL 0x0015.
Definition AGENTD_ERROR_PROTOCOLSERVICE_IPC_WRITE_DATA_FAILURE : Z :=
  AGENTD_STATUS_ERROR_MACRO AGENTD_SERVICE_PROTOCOL 0x0016.
Definition AGENTD_ERROR_PROTOCOLSERVICE_PRIVATE_KEY_ALREADY_SET : Z :=
  AGENTD_STATUS_ERROR_MACRO AGENTD_SERVICE_PROTOCOL 0x0017.
Definition AGENTD_ERROR_PROTOCOLSERVICE_MISSING_PRIVATE_KEY : Z :=
  AGENTD_STATUS_ERROR_MACRO AGENTD_SERVICE_PROTOCOL 0x0018.
Definition AGENTD_ERROR_PROTOCOLSERVICE_INVALID_REQUEST_ID : Z :=
  AGENTD_STATUS_ERROR_MACRO AGENTD_SERVICE_PROTOCOL 0x0019.
Definition AGENTD_ERROR_PROTOCOLSERVICE_DATASERVICE_INVALID_RESPONSE_ID : Z :=
  AGENTD_STATUS_ERROR_MACRO AGENTD_SERVICE_PROTOCOL 0x001A.
Definition AGENTD_ERROR_PROTOCOLSERVICE_CONTROL_ENTITY_NOT_FOUND : Z :=
  AGENTD_STATUS_ERROR_MACRO AGENTD_SERVICE_PROTOCOL 0x001B.
Definition AGENTD_ERROR_PROTOCOLSERVICE_BLOCK_ASSERTION_ALREADY_SET : Z :=
  AGENTD_STATUS_ERROR_MACRO AGENTD_SERVICE_PROTOCOL 0x001C.
Definition AGENTD_ERROR_PROTOCOLSERVICE_BLOCK_ASSERTION_NOT_SET : Z :=
  AGENTD_STATUS_ERROR_MACRO AGENTD_SERVICE_PROTOCOL 0x001D.
Definition AGENTD_ERROR_PROTOCOLSERVICE_EXTENDED_API_ALREADY_ENABLED : Z :=
  AGENTD_STATUS_ERROR_MACRO AGENTD_SERVICE_PROTOCOL 0x001E.
Definition AGENTD_ERROR_PROTOCOLSERVICE_EXTENDED_API_UNKNOWN_ENTITY : Z :=
  AGENTD_STATUS_ERROR_MACRO AGENTD_SERVICE_PROTOCOL 0x001F.

Definition AGENTD_ERROR_LISTENSERVICE_IPC_MAKE_NOBLOCK_FAILURE : Z :=
  AGENTD_STATUS_ERROR_MACRO AGENTD_SERVICE_LISTEN 0x0001.
Definition AGENTD_ERROR_LISTENSERVICE_IPC_EVENT_LOOP_INIT_FAILURE : Z :=
  AGENTD_STATUS_ERROR_MACRO AGENTD_SERVICE_LISTEN 0x0002.
Definition AGENTD_ERROR_LISTENSERVICE_IPC_EVENT_LOOP_ADD_FAILURE : Z :=
  AGENTD_STATUS_ERROR_MACRO AGENTD_SERVICE_LISTEN 0x0003.
Definition AGENTD_ERROR_LISTENSERVICE_IPC_EVENT_LOOP_RUN_FAILURE : Z :=
  AGENTD_STATUS_ERROR_MACRO AGENTD_SERVICE_LISTEN 0x0004.
Definition AGENTD_ERROR_LISTENSERVICE_PROC_RUNSECURE_ROOT_USER_REQUIRED : Z :=
  AGENTD_STATUS_ERROR_MACRO AGENTD_SERVICE_LISTEN 0x0005.
Definition AGENTD_ERROR_LISTENSERVICE_IPC_SOCKETPAIR_FAILURE : Z :=
  AGENTD_STATUS_ERROR_MACRO AGENTD_SERVICE_LISTEN 0x0006.
Definition AGENTD_ERROR_LISTENSERVICE_FORK_FAILURE : Z :=
  AGENTD_STATUS_ERROR_MACRO AGENTD_SERVICE_LISTEN 0x0007.
Definition AGENTD_ERROR_LISTENSERVICE_PRIVSEP_LOOKUP_USERGROUP_FAILURE : Z :=
  AGENTD_STATUS_ERROR_MACRO AGENTD_SERVICE_LISTEN 0x0008.
Definition AGENTD_ERROR_LISTENSERVICE_PRIVSEP_CHROOT_FAILURE : Z :=
  AGENTD_STATUS_ERROR_MACRO AGENTD_SERVICE_LISTEN 0x0009.
Definition AGENTD_ERROR_LISTENSERVICE_PRIVSEP_DROP_PRIVILEGES_FAILURE : Z :=
  AGENTD_STATUS_ERROR_MACRO AGENTD_SERVICE_LISTEN 0x000A.
Definition AGENTD_ERROR_LISTENSERVICE_PRIVSEP_SETFDS_FAILURE : Z :=
  AGENTD_STATUS_ERROR_MACRO AGENTD_SERVICE_LISTEN 0x000B.
Definition AGENTD_ERROR_LISTENSERVICE_PRIVSEP_EXEC_PRIVATE_FAILURE : Z :=
  AGENTD_STATUS_ERROR_MACRO AGENTD_SERVICE_LISTEN 0x000C.
Definition AGENTD_ERROR_LISTENSERVICE_PRIVSEP_EXEC_SURVIVAL_WEIRDNESS : Z :=
  AGENTD_STATUS_ERROR_MACRO AGENTD_SERVICE_LISTEN 0x000D.
Definition AGENTD_ERROR_LISTENSERVICE_LISTENSOCKET_OPEN_FAILURE : Z :=
  AGENTD_STATUS_ERROR_MACRO AGENTD_SERVICE_LISTEN 0x000E.
Definition AGENTD_ERROR_LISTENSERVICE_PRIVSEP_CLOSE_OTHER_FDS : Z :=
  AGENTD_STATUS_ERROR_MACRO AGENTD_SERVICE_LISTEN 0x000F.

Definition AGENTD_ERROR_RANDOMSERVICE_INSTANCE_CREATE_FAILURE : Z :=
  AGENTD_STATUS_ERROR_MACRO AGENTD_SERVICE_RANDOM 0x0001.
Definition AGENTD_ERROR_RANDOMSERVICE_IPC_MAKE_NOBLOCK_FAILURE : Z :=
  AGENTD_STATUS_ERROR_MACRO AGENTD_SERVICE_RANDOM 0x0002.
Definition AGENTD_ERROR_RANDOMSERVICE_IPC_EVENT_LOOP_INIT_FAILURE : Z :=
  AGENTD_STATUS_ERROR_MACRO AGENTD_SERVICE_RANDOM 0x0003.
Definition AGENTD_ERROR_RANDOMSERVICE_IPC_EVENT_LOOP_ADD_FAILURE : Z :=
  AGENTD_STATUS_ERROR_MACRO AGENTD_SERVICE_RANDOM 0x0004.
Definition AGENTD_ERROR_RANDOMSERVICE_IPC_EVENT_LOOP_RUN_FAILURE : Z :=
  AGENTD_STATUS_ERROR_MACRO AGENTD_SERVICE_RANDOM 0x0005.
Definition AGENTD_ERROR_RANDOMSERVICE_REQUEST_PACKET_INVALID_SIZE : Z :=
  AGENTD_STATUS_ERROR_MACRO AGENTD_SERVICE_RANDOM 0x0006.
Definition AGENTD_ERROR_RANDOMSERVICE_REQUEST_PACKET_BAD : Z :=
  AGENTD_STATUS_ERROR_MACRO AGENTD_SERVICE_RANDOM 0x0007.
Definition AGENTD_ERROR_RANDOMSERVICE_IPC_WRITE_DATA_FAILURE : Z :=
  AGENTD_STATUS_ERROR_MACRO AGENTD_SERVICE_RANDOM 0x0008.
Definition AGENTD_ERROR_RANDOMSERVICE_IPC_READ_DATA_FAILURE : Z :=
  AGENTD_STATUS_ERROR_MACRO AGENTD_SERVICE_RANDOM 0x0009.
Definition AGENTD_ERROR_RANDOMSERVICE_GET_RANDOM_BYTES_INVALID_SIZE : Z :=
  AGENTD_STATUS_ERROR_MACRO AGENTD_SERVICE_RANDOM 0x000A.
Definition AGENTD_ERROR_RANDOMSERVICE_GET_RANDOM_BYTES_READ_FAILED : Z :=
  AGENTD_STATUS_ERROR_MACRO AGENTD_SERVICE_RANDOM 0x000B.
Definition AGENTD_ERROR_RANDOMSERVICE_PROC_RUNSECURE_ROOT_USER_REQUIRED : Z :=
  AGENTD_STATUS_ERROR_MACRO AGENTD_SERVICE_RANDOM 0x000C.
Definition AGENTD_ERROR_RANDOMSERVICE_FORK_FAILURE : Z :=
  AGENTD_STATUS_ERROR_MACRO AGENTD_SERVICE_RANDOM 0x000D.
Definition AGENTD_ERROR_RANDOMSERVICE_RANDOM_DEVICE_OPEN_FAILURE : Z :=
  AGENTD_STATUS_ERROR_MACRO AGENTD_SERVICE_RANDOM 0x000E.
Definition AGENTD_ERROR_RANDOMSERVICE_PRIVSEP_LOOKUP_USERGROUP_FAILURE : Z :=
  AGENTD_STATUS_ERROR_MACRO AGENTD_SERVICE_RANDOM 0x000F.
Definition AGENTD_ERROR_RANDOMSERVICE_PRIVSEP_CHROOT_FAILURE : Z :=
  AGENTD_STATUS_ERROR_MACRO AGENTD_SERVICE_RANDOM 0x0010.
Definition AGENTD_ERROR_RANDOMSERVICE_PRIVSEP_DROP_PRIVILEGES_FAILURE : Z :=
  AGENTD_STATUS_ERROR_MACRO AGENTD_SERVICE_RANDOM 0x0011.
Definition AGENTD_ERROR_RANDOMSERVICE_IPC_SOCKETPAIR_FAILURE : Z :=
  AGENTD_STATUS_ERROR_MACRO AGENTD_SERVICE_RANDOM 0x0012.
Definition AGENTD_ERROR_RANDOMSERVICE_PRIVSEP_SETFDS_FAILURE : Z :=
  AGENTD_STATUS_ERROR_MACRO AGENTD_SERVICE_RANDOM 0x0013.
Definition AGENTD_ERROR_RANDOMSERVICE_PRIVSEP_EXEC_PRIVATE_FAILURE : Z :=
  AGENTD_STATUS_ERROR_MACRO AGENTD_SERVICE_RANDOM 0x0014.
Definition AGENTD_ERROR_RANDOMSERVICE_PRIVSEP_EXEC_SURVIVAL_WEIRDNESS : Z :=
  AGENTD_STATUS_ERROR_MACRO AGENTD_SERVICE_RANDOM 0x0015.
Definition AGENTD_ERROR_RANDOMSERVICE_PRIVSEP_CLOSE_OTHER_FDS : Z :=
  AGENTD_STATUS_ERROR_MACRO AGENTD_SERVICE_RANDOM 0x0016.

Definition AGENTD_ERROR_READER_IPC_WRITE_DATA_FAILURE : Z :=
  AGENTD_STATUS_ERROR_MACRO AGENTD_SERVICE_READER 0x0000.
Definition AGENTD_ERROR_READER_IPC_READ_DATA_FAILURE : Z :=
  AGENTD_STATUS_ERROR_MACRO AGENTD_SERVICE_READER 0x0001.
Definition AGENTD_ERROR_READER_INET_NTOP_FAILURE : Z :=
  AGENTD_STATUS_ERROR_MACRO AGENTD_SERVICE_READER 0x0002.
Definition AGENTD_ERROR_READER_INET_PTON_FAILURE : Z :=
  AGENTD_STATUS_ERROR_MACRO AGENTD_SERVICE_READER 0x0003.
Definition AGENTD_ERROR_READER_PROC_RUNSECURE_ROOT_USER_REQUIRED : Z :=
  AGENTD_STATUS_ERROR_MACRO AGENTD_SERVICE_READER 0x0004.
Definition AGENTD_ERROR_READER_IPC_SOCKETPAIR_FAILURE : Z :=
  AGENTD_STATUS_ERROR_MACRO AGENTD_SERVICE_READER 0x0005.
Definition AGENTD_ERROR_READER_FORK_FAILURE : Z :=
  AGENTD_STATUS_ERROR_MACRO AGENTD_SERVICE_READER 0x0006.
Definition AGENTD_ERROR_READER_PRIVSEP_LOOKUP_USERGROUP_FAILURE : Z :=
  AGENTD_STATUS_ERROR_MACRO AGENTD_SERVICE_READER 0x0007.
Definition AGENTD_ERROR_READER_PRIVSEP_CHROOT_FAILURE : Z :=
  AGENTD_STATUS_ERROR_MACRO AGENTD_SERVICE_READER 0x0008.
Definition AGENTD_ERROR_READER_PRIVSEP_DROP_PRIVILEGES_FAILURE : Z :=
  AGENTD_STATUS_ERROR_MACRO AGENTD_SERVICE_READER 0x0009.
Definition AGENTD_ERROR_READER_PRIVSEP_SETFDS_FAILURE : Z :=
  AGENTD_STATUS_ERROR_MACRO AGENTD_SERVICE_READER 0x000A.
Definition AGENTD_ERROR_READER_PRIVSEP_EXEC_PRIVATE_FAILURE : Z :=
  AGENTD_STATUS_ERROR_MACRO AGENTD_SERVICE_READER 0x000B.
Definition AGENTD_ERROR_READER_PRIVSEP_EXEC_SURVIVAL_WEIRDNESS : Z :=
  AGENTD_STATUS_ERROR_MACRO AGENTD_SERVICE_READER 0x000C.
Definition AGENTD_ERROR_READER_PROC_EXIT_FAILURE : Z :=
  AGENTD_STATUS_ERROR_MACRO AGENTD_SERVICE_READER 0x000D.
Definition AGENTD_ERROR_READER_INVALID_STREAM : Z :=
  AGENTD_STATUS_ERROR_MACRO AGENTD_SERVICE_READER 0x000E.
Definition AGENTD_ERROR_READER_PRIVSEP_CLOSE_OTHER_FDS : Z :=
  AGENTD_STATUS_ERROR_MACRO AGENTD_SERVICE_READER 0x000F.
Definition AGENTD_ERROR_READER_FILE_OPEN : Z :=
  AGENTD_STATUS_ERROR_MACRO AGENTD_SERVICE_READER 0x0010.
Definition AGENTD_ERROR_READER_FILE_STAT : Z :=
  AGENTD_STATUS_ERROR_MACRO AGENTD_SERVICE_READER 0x0011.
Definition AGENTD_ERROR_READER_FILE_READ : Z :=
  AGENTD_STATUS_ERROR_MACRO AGENTD_SERVICE_READER 0x0012.

Definition AGENTD_ERROR_ATTESTATIONSERVICE_PROC_RUNSECURE_ROOT_USER_REQUIRED : Z :=
  AGENTD_STATUS_ERROR_MACRO AGENTD_SERVICE_ATTESTATION 0x0001.
Definition AGENTD_ERROR_ATTESTATIONSERVICE_FORK_FAILURE : Z :=
  AGENTD_STATUS_ERROR_MACRO AGENTD_SERVICE_ATTESTATION 0x0002.
Definition AGENTD_ERROR_ATTESTATIONSERVICE_PRIVSEP_LOOKUP_USERGROUP_FAILURE : Z :=
  AGENTD_STATUS_ERROR_MACRO AGENTD_SERVICE_ATTESTATION 0x0003.
Definition AGENTD_ERROR_ATTESTATIONSERVICE_PRIVSEP_CHROOT_FAILURE : Z :=
  AGENTD_STATUS_ERROR_MACRO AGENTD_SERVICE_ATTESTATION 0x0004.
Definition AGENTD_ERROR_ATTESTATIONSERVICE_PRIVSEP_DROP_PRIVILEGES_FAILURE : Z :=
  AGENTD_STATUS_ERROR_MACRO AGENTD_SERVICE_ATTESTATION 0x0005.
Definition AGENTD_ERROR_ATTESTATIONSERVICE_PRIVSEP_SETFDS_FAILURE : Z :=
  AGENTD_STATUS_ERROR_MACRO AGENTD_SERVICE_ATTESTATION 0x0006.
Definition AGENTD_ERROR_ATTESTATIONSERVICE_PRIVSEP_CLOSE_OTHER_FDS : Z :=
  AGENTD_STATUS_ERROR_MACRO AGENTD_SERVICE_ATTESTATION 0x0007.
Definition AGENTD_ERROR_ATTESTATIONSERVICE_PRIVSEP_EXEC_PRIVATE_FAILURE : Z :=
  AGENTD_STATUS_ERROR_MACRO AGENTD_SERVICE_ATTESTATION 0x0008.
Definition AGENTD_ERROR_ATTESTATIONSERVICE_PRIVSEP_EXEC_SURVIVAL_WEIRDNESS : Z :=
  AGENTD_STATUS_ERROR_MACRO AGENTD_SERVICE_ATTESTATION 0x0009.

Definition AGENTD_ERROR_NOTIFICATIONSERVICE_PROC_RUNSECURE_ROOT_USER_REQUIRED : Z :=
  AGENTD_STATUS_ERROR_MACRO AGENTD_SERVICE_NOTIFICATION 0x0001.
Definition AGENTD_ERROR_NOTIFICATIONSERVICE_FORK_FAILURE : Z :=
  AGENTD_STATUS_ERROR_MACRO AGENTD_SERVICE_NOTIFICATION 0x0002.
Definition AGENTD_ERROR_NOTIFICATIONSERVICE_PRIVSEP_LOOKUP_USERGROUP_FAILURE : Z :=
  AGENTD_STATUS_ERROR_MACRO AGENTD_SERVICE_NOTIFICATION 0x0003.
Definition AGENTD_ERROR_NOTIFICATIONSERVICE_PRIVSEP_CHROOT_FAILURE : Z :=
  AGENTD_STATUS_ERROR_MACRO AGENTD_SERVICE_NOTIFICATION 0x0004.
Definition AGENTD_ERROR_NOTIFICATIONSERVICE_PRIVSEP_DROP_PRIVILEGES_FAILURE : Z :=
  AGENTD_STATUS_ERROR_MACRO AGENTD_SERVICE_NOTIFICATION 0x0005.
Definition AGENTD_ERROR_NOTIFICATIONSERVICE_PRIVSEP_SETFDS_FAILURE : Z :=
  AGENTD_STATUS_ERROR_MACRO AGENTD_SERVICE_NOTIFICATION 0x0006.
Definition AGENTD_ERROR_NOTIFICATIONSERVICE_PRIVSEP_EXEC_PRIVATE_FAILURE : Z :=
  AGENTD_STATUS_ERROR_MACRO AGENTD_SERVICE_NOTIFICATION 0x0007.
Definition AGENTD_ERROR_NOTIFICATIONSERVICE_PRIVSEP_EXEC_SURVIVAL_WEIRDNESS : Z :=
  AGENTD_STATUS_ERROR_MACRO AGENTD_SERVICE_NOTIFICATION 0x0008.
Definition AGENTD_ERROR_NOTIFICATIONSERVICE_PRIVSEP_CLOSE_OTHER_FDS : Z :=
  AGENTD_STATUS_ERROR_MACRO AGENTD_SERVICE_NOTIFICATION 0x0009.
Definition AGENTD_ERROR_NOTIFICATIONSERVICE_API_BAD_ARGUMENT : Z :=
  AGENTD_STATUS_ERROR_MACRO AGENTD_SERVICE_NOTIFICATION 0x000A.
Definition AGENTD_ERROR_NOTIFICATIONSERVICE_INVALID_REQUEST_ID : Z :=
  AGENTD_STATUS_ERROR_MACRO AGENTD_SERVICE_NOTIFICATION 0x000B.
Definition AGENTD_ERROR_NOTIFICATIONSERVICE_NOT_AUTHORIZED : Z :=
  AGENTD_STATUS_ERROR_MACRO AGENTD_SERVICE_NOTIFICATION 0x000C.
Definition AGENTD_ERROR_NOTIFICATIONSERVICE_MALFORMED_REQUEST : Z :=
  AGENTD_STATUS_ERROR_MACRO AGENTD_SERVICE_NOTIFICATION 0x000D.

Definition config_status_codes : list Z :=
  [AGENTD_ERROR_CONFIG_IPC_WRITE_DATA_FAILURE;
   AGENTD_ERROR_CONFIG_IPC_READ_DATA_FAILURE;
   AGENTD_ERROR_CONFIG_INET_NTOP_FAILURE;
   AGENTD_ERROR_CONFIG_INET_PTON_FAILURE;
   AGENTD_ERROR_CONFIG_PROC_RUNSECURE_ROOT_USER_REQUIRED;
   AGENTD_ERROR_CONFIG_IPC_SOCKETPAIR_FAILURE;
   AGENTD_ERROR_CONFIG_FORK_FAILURE;
   AGENTD_ERROR_CONFIG_PRIVSEP_LOOKUP_USERGROUP_FAILURE;
   AGENTD_ERROR_CONFIG_PRIVSEP_CHROOT_FAILURE;
   AGENTD_ERROR_CONFIG_PRIVSEP_DROP_PRIVILEGES_FAILURE;
   AGENTD_ERROR_CONFIG_PRIVSEP_SETFDS_FAILURE;
   AGENTD_ERROR_CONFIG_PRIVSEP_EXEC_PRIVATE_FAILURE;
   AGENTD_ERROR_CONFIG_PRIVSEP_EXEC_SURVIVAL_WEIRDNESS;
   AGENTD_ERROR_CONFIG_OPEN_CONFIG_FILE_FAILURE;
   AGENTD_ERROR_CONFIG_PROC_EXIT_FAILURE;
   AGENTD_ERROR_CONFIG_DEFAULTS_SET_FAILURE;
   AGENTD_ERROR_CONFIG_INVALID_STREAM;
   AGENTD_ERROR_CONFIG_PRIVSEP_CLOSE_OTHER_FDS].

Definition supervisor_status_codes : list Z :=
  [AGENTD_ERROR_SUPERVISOR_SIGNAL_INSTALLATION].

Definition authservice_status_codes : list Z :=
  [AGENTD_ERROR_AUTHSERVICE_IPC_MAKE_NOBLOCK_FAILURE;
   AGENTD_ERROR_AUTHSERVICE_IPC_EVENT_LOOP_ADD_FAILURE;
   AGENTD_ERROR_AUTHSERVICE_IPC_EVENT_LOOP_RUN_FAILURE;
   AGENTD_ERROR_AUTHSERVICE_IPC_EVENT_LOOP_INIT_FAILURE;
   AGENTD_ERROR_AUTHSERVICE_PUBKEY_BUFFER_INIT_FAILURE;
   AGENTD_ERROR_AUTHSERVICE_PRIVKEY_BUFFER_INIT_FAILURE;
   AGENTD_ERROR_AUTHSERVICE_REQUEST_PACKET_INVALID_SIZE;
   AGENTD_ERROR_AUTHSERVICE_REQUEST_PACKET_BAD;
   AGENTD_ERROR_AUTHSERVICE_PROC_RUNSECURE_ROOT_USER_REQUIRED;
   AGENTD_ERROR_AUTHSERVICE_IPC_SOCKETPAIR_FAILURE;
   AGENTD_ERROR_AUTHSERVICE_FORK_FAILURE;
   AGENTD_ERROR_AUTHSERVICE_PRIVSEP_LOOKUP_USERGROUP_FAILURE;
   AGENTD_ERROR_AUTHSERVICE_PRIVSEP_CHROOT_FAILURE;
   AGENTD_ERROR_AUTHSERVICE_PRIVSEP_DROP_PRIVILEGES_FAILURE;
   AGENTD_ERROR_AUTHSERVICE_PRIVSEP_SETFDS_FAILURE;
   AGENTD_ERROR_AUTHSERVICE_PRIVSEP_EXEC_PRIVATE_FAILURE;
   AGENTD_ERROR_AUTHSERVICE_PRIVSEP_EXEC_SURVIVAL_WEIRDNESS;
   AGENTD_ERROR_AUTHSERVICE_IPC_WRITE_DATA_FAILURE;
   AGENTD_ERROR_AUTHSERVICE_IPC_READ_DATA_FAILURE;
   AGENTD_ERROR_AUTHSERVICE_RECVRESP_UNEXPECTED_DATA_PACKET_SIZE;
   AGENTD_ERROR_AUTHSERVICE_RECVRESP_UNEXPECTED_METHOD_CODE;
   AGENTD_ERROR_AUTHSERVICE_PRIVSEP_CLOSE_OTHER_FDS].

Definition canonization_status_codes : list Z :=
  [AGENTD_ERROR_CANONIZATIONSERVICE_PROC_RUNSECURE_ROOT_USER_REQUIRED;
   AGENTD_ERROR_CANONIZATIONSERVICE_FORK_FAILURE;
   AGENTD_ERROR_CANONIZATIONSERVICE_PRIVSEP_LOOKUP_USERGROUP_FAILURE;
   AGENTD_ERROR_CANONIZATIONSERVICE_PRIVSEP_CHROOT_FAILURE;
   AGENTD_ERROR_CANONIZATIONSERVICE_PRIVSEP_DROP_PRIVILEGES_FAILURE;
   AGENTD_ERROR_CANONIZATIONSERVICE_PRIVSEP_SETFDS_FAILURE;
   AGENTD_ERROR_CANONIZATIONSERVICE_PRIVSEP_EXEC_PRIVATE_FAILURE;
   AGENTD_ERROR_CANONIZATIONSERVICE_PRIVSEP_EXEC_SURVIVAL_WEIRDNESS;
   AGENTD_ERROR_CANONIZATIONSERVICE_IPC_EVENT_LOOP_INIT;
   AGENTD_ERROR_CANONIZATIONSERVICE_IPC_EVENT_LOOP_RUN_FAILURE;
   AGENTD_ERROR_CANONIZATIONSERVICE_IPC_WRITE_DATA_FAILURE;
   AGENTD_ERROR_CANONIZATIONSERVICE_IPC_READ_DATA_FAILURE;
   AGENTD_ERROR_CANONIZATIONSERVICE_INSTANCE_CREATE_FAILURE;
   AGENTD_ERROR_CANONIZATIONSERVICE_IPC_MAKE_NOBLOCK_FAILURE;
   AGENTD_ERROR_CANONIZATIONSERVICE_IPC_EVENT_LOOP_ADD_FAILURE;
   AGENTD_ERROR_CANONIZATIONSERVICE_REQUEST_PACKET_INVALID_SIZE;
   AGENTD_ERROR_CANONIZATIONSERVICE_REQUEST_PACKET_BAD;
   AGENTD_ERROR_CANONIZATIONSERVICE_RESPONSE_PACKET_INVALID_SIZE;
   AGENTD_ERROR_CANONIZATIONSERVICE_RECVRESP_UNEXPECTED_METHOD_CODE;
   AGENTD_ERROR_CANONIZATIONSERVICE_START_BEFORE_CONFIGURE;
   AGENTD_ERROR_CANONIZATIONSERVICE_ALREADY_RUNNING;
   AGENTD_ERROR_CANONIZATIONSERVICE_BAD_PARAMETER;
   AGENTD_ERROR_CANONIZATIONSERVICE_ALREADY_CONFIGURED;
   AGENTD_ERROR_CANONIZATIONSERVICE_PRIVSEP_CLOSE_OTHER_FDS;
   AGENTD_ERROR_CANONIZATIONSERVICE_PRIVATE_KEY_ALREADY_SET;
   AGENTD_ERROR_CANONIZATIONSERVICE_START_BEFORE_PRIVATE_KEY_SET].

Definition process_status_codes : list Z :=
  [AGENTD_ERROR_PROCESS_ALREADY_SPAWNED;
   AGENTD_ERROR_PROCESS_NOT_ACTIVE].

Definition protocolservice_status_codes : list Z :=
  [AGENTD_ERROR_PROTOCOLSERVICE_IPC_MAKE_NOBLOCK_FAILURE;
   AGENTD_ERROR_PROTOCOLSERVICE_IPC_EVENT_LOOP_ADD_FAILURE;
   AGENTD_ERROR_PROTOCOLSERVICE_IPC_EVENT_LOOP_RUN_FAILURE;
   AGENTD_ERROR_PROTOCOLSERVICE_PROC_RUNSECURE_ROOT_USER_REQUIRED;
   AGENTD_ERROR_PROTOCOLSERVICE_IPC_SOCKETPAIR_FAILURE;
   AGENTD_ERROR_PROTOCOLSERVICE_FORK_FAILURE;
   AGENTD_ERROR_PROTOCOLSERVICE_PRIVSEP_LOOKUP_USERGROUP_FAILURE;
   AGENTD_ERROR_PROTOCOLSERVICE_PRIVSEP_CHROOT_FAILURE;
   AGENTD_ERROR_PROTOCOLSERVICE_PRIVSEP_DROP_PRIVILEGES_FAILURE;
   AGENTD_ERROR_PROTOCOLSERVICE_PRIVSEP_SETFDS_FAILURE;
   AGENTD_ERROR_PROTOCOLSERVICE_PRIVSEP_EXEC_PRIVATE_FAILURE;
   AGENTD_ERROR_PROTOCOLSERVICE_PRIVSEP_EXEC_SURVIVAL_WEIRDNESS;
   AGENTD_ERROR_PROTOCOLSERVICE_IPC_EVENT_LOOP_INIT_FAILURE;
   AGENTD_ERROR_PROTOCOLSERVICE_MALFORMED_REQUEST;
   AGENTD_ERROR_PROTOCOLSERVICE_MALFORMED_RESPONSE;
   AGENTD_ERROR_PROTOCOLSERVICE_UNAUTHORIZED;
   AGENTD_ERROR_PROTOCOLSERVICE_PRNG_REQUEST_FAILURE;
   AGENTD_ERROR_PROTOCOLSERVICE_TRANSACTION_VERIFICATION;
   AGENTD_ERROR_PROTOCOLSERVICE_PRIVSEP_CLOSE_OTHER_FDS;
   AGENTD_ERROR_PROTOCOLSERVICE_REQUEST_PACKET_INVALID_SIZE;
   AGENTD_ERROR_PROTOCOLSERVICE_REQUEST_PACKET_BAD;
   AGENTD_ERROR_PROTOCOLSERVICE_IPC_WRITE_DATA_FAILURE;
   AGENTD_ERROR_PROTOCOLSERVICE_PRIVATE_KEY_ALREADY_SET;
   AGENTD_ERROR_PROTOCOLSERVICE_MISSING_PRIVATE_KEY;
   AGENTD_ERROR_PROTOCOLSERVICE_INVALID_REQUEST_ID;
   AGENTD_ERROR_PROTOCOLSERVICE_DATASERVICE_INVALID_RESPONSE_ID;
   AGENTD_ERROR_PROTOCOLSERVICE_CONTROL_ENTITY_NOT_FOUND;
   AGENTD_ERROR_PROTOCOLSERVICE_BLOCK_ASSERTION_ALREADY_SET;
   AGENTD_ERROR_PROTOCOLSERVICE_BLOCK_ASSERTION_NOT_SET;
   AGENTD_ERROR_PROTOCOLSERVICE_EXTENDED_API_ALREADY_ENABLED;
   AGENTD_ERROR_PROTOCOLSERVICE_EXTENDED_API_UNKNOWN_ENTITY].

Definition listenservice_status_codes : list Z :=
  [AGENTD_ERROR_LISTENSERVICE_IPC_MAKE_NOBLOCK_FAILURE;
   AGENTD_ERROR_LISTENSERVICE_IPC_EVENT_LOOP_INIT_FAILURE;
   AGENTD_ERROR_LISTENSERVICE_IPC_EVENT_LOOP_ADD_FAILURE;
   AGENTD_ERROR_LISTENSERVICE_IPC_EVENT_LOOP_RUN_FAILURE;
   AGENTD_ERROR_LISTENSERVICE_PROC_RUNSECURE_ROOT_USER_REQUIRED;
   AGENTD_ERROR_LISTENSERVICE_IPC_SOCKETPAIR_FAILURE;
   AGENTD_ERROR_LISTENSERVICE_FORK_FAILURE;
   AGENTD_ERROR_LISTENSERVICE_PRIVSEP_LOOKUP_USERGROUP_FAILURE;
   AGENTD_ERROR_LISTENSERVICE_PRIVSEP_CHROOT_FAILURE;
   AGENTD_ERROR_LISTENSERVICE_PRIVSEP_DROP_PRIVILEGES_FAILURE;
   AGENTD_ERROR_LISTENSERVICE_PRIVSEP_SETFDS_FAILURE;
   AGENTD_ERROR_LISTENSERVICE_PRIVSEP_EXEC_PRIVATE_FAILURE;
   AGENTD_ERROR_LISTENSERVICE_PRIVSEP_EXEC_SURVIVAL_WEIRDNESS;
   AGENTD_ERROR_LISTENSERVICE_LISTENSOCKET_OPEN_FAILURE;
   AGENTD_ERROR_LISTENSERVICE_PRIVSEP_CLOSE_OTHER_FDS].

Definition randomservice_status_codes : list Z :=
  [AGENTD_ERROR_RANDOMSERVICE_INSTANCE_CREATE_FAILURE;
   AGENTD_ERROR_RANDOMSERVICE_IPC_MAKE_NOBLOCK_FAILURE;
   AGENTD_ERROR_RANDOMSERVICE_IPC_EVENT_LOOP_INIT_FAILURE;
   AGENTD_ERROR_RANDOMSERVICE_IPC_EVENT_LOOP_ADD_FAILURE;
   AGENTD_ERROR_RANDOMSERVICE_IPC_EVENT_LOOP_RUN_FAILURE;
   AGENTD_ERROR_RANDOMSERVICE_REQUEST_PACKET_INVALID_SIZE;
   AGENTD_ERROR_RANDOMSERVICE_REQUEST_PACKET_BAD;
   AGENTD_ERROR_RANDOMSERVICE_IPC_WRITE_DATA_FAILURE;
   AGENTD_ERROR_RANDOMSERVICE_IPC_READ_DATA_FAILURE;
   AGENTD_ERROR_RANDOMSERVICE_GET_RANDOM_BYTES_INVALID_SIZE;
   AGENTD_ERROR_RANDOMSERVICE_GET_RANDOM_BYTES_READ_FAILED;
   AGENTD_ERROR_RANDOMSERVICE_PROC_RUNSECURE_ROOT_USER_REQUIRED;
   AGENTD_ERROR_RANDOMSERVICE_FORK_FAILURE;
   AGENTD_ERROR_RANDOMSERVICE_RANDOM_DEVICE_OPEN_FAILURE;
   AGENTD_ERROR_RANDOMSERVICE_PRIVSEP_LOOKUP_USERGROUP_FAILURE;
   AGENTD_ERROR_RANDOMSERVICE_PRIVSEP_CHROOT_FAILURE;
   AGENTD_ERROR_RANDOMSERVICE_PRIVSEP_DROP_PRIVILEGES_FAILURE;
   AGENTD_ERROR_RANDOMSERVICE_IPC_SOCKETPAIR_FAILURE;
   AGENTD_ERROR_RANDOMSERVICE_PRIVSEP_SETFDS_FAILURE;
   AGENTD_ERROR_RANDOMSERVICE_PRIVSEP_EXEC_PRIVATE_FAILURE;
   AGENTD_ERROR_RANDOMSERVICE_PRIVSEP_EXEC_SURVIVAL_WEIRDNESS;
   AGENTD_ERROR_RANDOMSERVICE_PRIVSEP_CLOSE_OTHER_FDS].

Definition reader_status_codes : list Z :=
  [AGENTD_ERROR_READER_IPC_WRITE_DATA_FAILURE;
   AGENTD_ERROR_READER_IPC_READ_DATA_FAILURE;
   AGENTD_ERROR_READER_INET_NTOP_FAILURE;
   AGENTD_ERROR_READER_INET_PTON_FAILURE;
   AGENTD_ERROR_READER_PROC_RUNSECURE_ROOT_USER_REQUIRED;
   AGENTD_ERROR_READER_IPC_SOCKETPAIR_FAILURE;
   AGENTD_ERROR_READER_FORK_FAILURE;
   AGENTD_ERROR_READER_PRIVSEP_LOOKUP_USERGROUP_FAILURE;
   AGENTD_ERROR_READER_PRIVSEP_CHROOT_FAILURE;
   AGENTD_ERROR_READER_PRIVSEP_DROP_PRIVILEGES_FAILURE;
   AGENTD_ERROR_READER_PRIVSEP_SETFDS_FAILURE;
   AGENTD_ERROR_READER_PRIVSEP_EXEC_PRIVATE_FAILURE;
   AGENTD_ERROR_READER_PRIVSEP_EXEC_SURVIVAL_WEIRDNESS;
   AGENTD_ERROR_READER_PROC_EXIT_FAILURE;
   AGENTD_ERROR_READER_INVALID_STREAM;
   AGENTD_ERROR_READER_PRIVSEP_CLOSE_OTHER_FDS;
   AGENTD_ERROR_READER_FILE_OPEN;
   AGENTD_ERROR_READER_FILE_STAT;
   AGENTD_ERROR_READER_FILE_READ].

Definition attestation_status_codes : list Z :=
  [AGENTD_ERROR_ATTESTATIONSERVICE_PROC_RUNSECURE_ROOT_USER_REQUIRED;
   AGENTD_ERROR_ATTESTATIONSERVICE_FORK_FAILURE;
   AGENTD_ERROR_ATTESTATIONSERVICE_PRIVSEP_LOOKUP_USERGROUP_FAILURE;
   AGENTD_ERROR_ATTESTATIONSERVICE_PRIVSEP_CHROOT_FAILURE;
   AGENTD_ERROR_ATTESTATIONSERVICE_PRIVSEP_DROP_PRIVILEGES_FAILURE;
   AGENTD_ERROR_ATTESTATIONSERVICE_PRIVSEP_SETFDS_FAILURE;
   AGENTD_ERROR_ATTESTATIONSERVICE_PRIVSEP_CLOSE_OTHER_FDS;
   AGENTD_ERROR_ATTESTATIONSERVICE_PRIVSEP_EXEC_PRIVATE_FAILURE;
   AGENTD_ERROR_ATTESTATIONSERVICE_PRIVSEP_EXEC_SURVIVAL_WEIRDNESS].

Definition notificationservice_status_codes : list Z :=
  [AGENTD_ERROR_NOTIFICATIONSERVICE_PROC_RUNSECURE_ROOT_USER_REQUIRED;
   AGENTD_ERROR_NOTIFICATIONSERVICE_FORK_FAILURE;
   AGENTD_ERROR_NOTIFICATIONSERVICE_PRIVSEP_LOOKUP_USERGROUP_FAILURE;
   AGENTD_ERROR_NOTIFICATIONSERVICE_PRIVSEP_CHROOT_FAILURE;
   AGENTD_ERROR_NOTIFICATIONSERVICE_PRIVSEP_DROP_PRIVILEGES_FAILURE;
   AGENTD_ERROR_NOTIFICATIONSERVICE_PRIVSEP_SETFDS_FAILURE;
   AGENTD_ERROR_NOTIFICATIONSERVICE_PRIVSEP_EXEC_PRIVATE_FAILURE;
   AGENTD_ERROR_NOTIFICATIONSERVICE_PRIVSEP_EXEC_SURVIVAL_WEIRDNESS;
   AGENTD_ERROR_NOTIFICATIONSERVICE_PRIVSEP_CLOSE_OTHER_FDS;
   AGENTD_ERROR_NOTIFICATIONSERVICE_API_BAD_ARGUMENT;
   AGENTD_ERROR_NOTIFICATIONSERVICE_INVALID_REQUEST_ID;
   AGENTD_ERROR_NOTIFICATIONSERVICE_NOT_AUTHORIZED;
   AGENTD_ERROR_NOTIFICATIONSERVICE_MALFORMED_REQUEST].

(** The codes of every service, in the order of the headers. *)
Definition agentd_status_codes : list (Z * list Z) :=
  [(AGENTD_SERVICE_GENERAL, general_status_codes); (AGENTD_SERVICE_IPC, ipc_status_codes);
   (AGENTD_SERVICE_DATASERVICE, dataservice_status_codes);
   (AGENTD_SERVICE_CONFIG, config_status_codes);
   (AGENTD_SERVICE_SUPERVISOR, supervisor_status_codes);
   (AGENTD_SERVICE_AUTHSERVICE, authservice_status_codes);
   (AGENTD_SERVICE_CANONIZATION, canonization_status_codes);
   (AGENTD_SERVICE_PROCESS, process_status_codes);
   (AGENTD_SERVICE_PROTOCOL, protocolservice_status_codes);
   (AGENTD_SERVICE_LISTEN, listenservice_status_codes);
   (AGENTD_SERVICE_RANDOM, randomservice_status_codes);
   (AGENTD_SERVICE_READER, reader_status_codes);
   (AGENTD_SERVICE_ATTESTATION, attestation_status_codes);
   (AGENTD_SERVICE_NOTIFICATION, notificationservice_status_codes)].

(** C37: The status codes of the agent identify an error: no two of the 289 error
    conditions share a code, also across services; none is
    [AGENTD_STATUS_SUCCESS]; each fits the 32-bit status fields of the packets,
    and names its service and its reason, which can be read off it. *)
Theorem status_codes_distinct :
  let codes := agentd_status_codes ≫= snd in
  NoDup codes ∧ AGENTD_STATUS_SUCCESS ∉ codes ∧ Forall (λ c, 0 < c < 2 ^ 31) codes ∧
  Forall (λ '(service, codes), Forall (λ c, status_service c = service ∧
    c = AGENTD_STATUS_ERROR_MACRO service (status_reason c)) codes) agentd_status_codes.
Proof.
  cbv zeta. split_and!.
  - apply (bool_decide_unpack _). by vm_compute.
  - apply (bool_decide_unpack _). by vm_compute.
  - apply (bool_decide_unpack _). by vm_compute.
  - unfold agentd_status_codes. repeat (constructor; [apply (bool_decide_unpack _); by vm_compute|]). constructor.
Qed.
