(* ===== verification/Contexts.v ===== *)
(** * Contexts and capabilities

    The bitsets of capabilities, the capabilities and methods of the data service, and
    its root and child contexts. *)

From S2P Require Import Prelude Inet StatusCodes.

(** ** Capability bitsets

    The macros of [src/include/agentd/bitcap.h].  A bitset is an array of
    [uint32_t] words; the macros index it without a bounds check, so an index
    past the end is undefined in C: the lemmas are for bits the array holds. *)

Abbreviation bitcap := (list Z).

(** [BITCAP(x, bitsize)]: the number of words declared. *)
Definition BITCAP (bitsize : nat) : nat :=
  (bitsize `div` 32 + if (0 <? bitsize `mod` 32)%nat then 1 else 0)%nat.
Definition BITCAP_OFFSET (bit : nat) : nat := (bit `div` 32)%nat.
Definition BITCAP_SHIFT (bit : nat) : Z := Z.of_nat (bit `mod` 32).

Definition BITCAP_INIT_FALSE (words : nat) : bitcap := replicate words 0.
Definition BITCAP_INIT_TRUE (words : nat) : bitcap := replicate words 0xFFFFFFFF.

Definition BITCAP_SET_TRUE (cap : bitcap) (bit : nat) : bitcap :=
  alter (λ w, Z.lor w (wrap32 (Z.shiftl 1 (BITCAP_SHIFT bit)))) (BITCAP_OFFSET bit) cap.
Definition BITCAP_SET_FALSE (cap : bitcap) (bit : nat) : bitcap :=
  alter (λ w, Z.land w (wrap32 (Z.lnot (Z.shiftl 1 (BITCAP_SHIFT bit))))) (BITCAP_OFFSET bit) cap.
Definition BITCAP_ISSET (cap : bitcap) (bit : nat) : bool :=
  negb (Z.land (default 0 (cap !! BITCAP_OFFSET bit))
               (wrap32 (Z.shiftl 1 (BITCAP_SHIFT bit))) =? 0).
Definition BITCAP_INTERSECT (a b : bitcap) : bitcap := zip_with Z.land a b.
Definition BITCAP_UNION (a b : bitcap) : bitcap := zip_with Z.lor a b.

(** ** Bits of a word *)

Lemma BITCAP_SHIFT_range bit : 0 ≤ BITCAP_SHIFT bit < 32.
Proof. unfold BITCAP_SHIFT. pose proof (Nat.mod_upper_bound bit 32). lia. Qed.

Lemma shift_one_wrap s : 0 ≤ s < 32 → wrap32 (Z.shiftl 1 s) = 2 ^ s.
Proof.
  intros Hs. unfold wrap32. rewrite Z.shiftl_1_l. apply Z.mod_small.
  split; [apply Z.pow_nonneg; lia|]. apply Z.pow_lt_mono_r; lia.
Qed.

Lemma land_pow2_testbit w s : 0 ≤ s → negb (Z.land w (2 ^ s) =? 0) = Z.testbit w s.
Proof.
  intros Hs. destruct (Z.testbit w s) eqn:E.
  - apply negb_true_iff, Z.eqb_neq. intros H.
    apply (f_equal (λ x, Z.testbit x s)) in H.
    by rewrite Z.land_spec, Z.bits_0, Z.pow2_bits_true, E in H by lia.
  - apply negb_false_iff, Z.eqb_eq, Z.bits_inj'. intros n Hn.
    rewrite Z.land_spec, Z.bits_0. destruct (decide (n = s)) as [->|Hne]; [by rewrite E|].
    rewrite Z.pow2_bits_false by lia. by rewrite andb_false_r.
Qed.

(** [BITCAP_ISSET] reads one bit of one word. *)
Lemma ISSET_testbit cap bit :
  BITCAP_ISSET cap bit = Z.testbit (default 0 (cap !! BITCAP_OFFSET bit)) (BITCAP_SHIFT bit).
Proof.
  unfold BITCAP_ISSET. pose proof (BITCAP_SHIFT_range bit).
  rewrite shift_one_wrap by lia. apply land_pow2_testbit. lia.
Qed.

Lemma offset_shift_inj b1 b2 :
  BITCAP_OFFSET b1 = BITCAP_OFFSET b2 → BITCAP_SHIFT b1 = BITCAP_SHIFT b2 → b1 = b2.
Proof.
  unfold BITCAP_OFFSET, BITCAP_SHIFT. intros.
  pose proof (Nat.div_mod b1 32). pose proof (Nat.div_mod b2 32). lia.
Qed.

(** A bit is within an array of [n] words. *)
Definition bit_in (cap : bitcap) (bit : nat) : Prop := (BITCAP_OFFSET bit < length cap)%nat.

Lemma ISSET_SET_TRUE cap bit b :
  bit_in cap bit →
  BITCAP_ISSET (BITCAP_SET_TRUE cap bit) b = bool_decide (b = bit) || BITCAP_ISSET cap b.
Proof.
  intros Hin. rewrite !ISSET_testbit. unfold BITCAP_SET_TRUE.
  pose proof (BITCAP_SHIFT_range bit). pose proof (BITCAP_SHIFT_range b).
  rewrite shift_one_wrap, list_lookup_alter by lia.
  case_decide as Ho.
  - destruct (lookup_lt_is_Some_2 cap _ Hin) as [w Hw]. rewrite <- Ho, Hw. simpl.
    rewrite Z.lor_spec, orb_comm, Z.pow2_bits_eqb by lia. f_equal.
    destruct (Z.eqb_spec (BITCAP_SHIFT bit) (BITCAP_SHIFT b)) as [Hs|Hs];
      symmetry; [apply bool_decide_eq_true|apply bool_decide_eq_false]; [|congruence].
    symmetry. by apply offset_shift_inj.
  - rewrite bool_decide_eq_false_2; [done|congruence].
Qed.

Lemma ISSET_SET_FALSE cap bit b :
  BITCAP_ISSET (BITCAP_SET_FALSE cap bit) b = bool_decide (b ≠ bit) && BITCAP_ISSET cap b.
Proof.
  rewrite !ISSET_testbit. unfold BITCAP_SET_FALSE.
  pose proof (BITCAP_SHIFT_range bit). pose proof (BITCAP_SHIFT_range b).
  rewrite list_lookup_alter. case_decide as Ho.
  - rewrite <- Ho. destruct (cap !! BITCAP_OFFSET bit) as [w|]; simpl; [|by rewrite Z.bits_0, andb_false_r].
    rewrite Z.land_spec, andb_comm. unfold wrap32. rewrite Z.mod_pow2_bits_low by lia.
    rewrite Z.lnot_spec, Z.shiftl_1_l, Z.pow2_bits_eqb by lia. f_equal.
    destruct (Z.eqb_spec (BITCAP_SHIFT bit) (BITCAP_SHIFT b)) as [Hs|Hs]; simpl; symmetry.
    + apply bool_decide_eq_false. intros []. symmetry. by apply offset_shift_inj.
    + apply bool_decide_eq_true. congruence.
  - rewrite bool_decide_eq_true_2; [done|congruence].
Qed.

Lemma ISSET_INTERSECT a b bit :
  BITCAP_ISSET (BITCAP_INTERSECT a b) bit = BITCAP_ISSET a bit && BITCAP_ISSET b bit.
Proof.
  rewrite !ISSET_testbit. unfold BITCAP_INTERSECT. rewrite lookup_zip_with.
  destruct (a !! _), (b !! _); simpl;
    rewrite ?Z.land_spec, ?Z.bits_0, ?andb_false_r; done.
Qed.

Lemma ISSET_UNION a b bit :
  length a = length b →
  BITCAP_ISSET (BITCAP_UNION a b) bit = BITCAP_ISSET a bit || BITCAP_ISSET b bit.
Proof.
  intros Hl. rewrite !ISSET_testbit. unfold BITCAP_UNION. rewrite lookup_zip_with.
  destruct (a !! _) eqn:Ea, (b !! _) eqn:Eb; simpl; rewrite ?Z.lor_spec, ?Z.bits_0; try done.
  - apply lookup_lt_Some in Ea. apply lookup_ge_None in Eb. lia.
  - apply lookup_lt_Some in Eb. apply lookup_ge_None in Ea. lia.
Qed.

Lemma ISSET_INIT_FALSE n bit : BITCAP_ISSET (BITCAP_INIT_FALSE n) bit = false.
Proof.
  rewrite ISSET_testbit. unfold BITCAP_INIT_FALSE.
  destruct (replicate n 0 !! _) eqn:E; simpl; [|by rewrite Z.bits_0].
  apply lookup_replicate in E as [-> _]. by rewrite Z.bits_0.
Qed.

Lemma ISSET_INIT_TRUE n bit :
  BITCAP_ISSET (BITCAP_INIT_TRUE n) bit = bool_decide (BITCAP_OFFSET bit < n)%nat.
Proof.
  rewrite ISSET_testbit. unfold BITCAP_INIT_TRUE. pose proof (BITCAP_SHIFT_range bit).
  case_bool_decide as Hlt.
  - rewrite lookup_replicate_2 by done. simpl. change 0xFFFFFFFF with (Z.ones 32).
    apply Z.ones_spec_low. lia.
  - destruct (replicate n _ !! _) eqn:E; simpl; [|by rewrite Z.bits_0].
    apply lookup_replicate in E as [_ ?]. lia.
Qed.

Lemma length_SET_TRUE cap bit : length (BITCAP_SET_TRUE cap bit) = length cap.
Proof. apply length_alter. Qed.
Lemma length_SET_FALSE cap bit : length (BITCAP_SET_FALSE cap bit) = length cap.
Proof. apply length_alter. Qed.
Lemma length_INTERSECT a b : length (BITCAP_INTERSECT a b) = (length a `min` length b)%nat.
Proof. apply length_zip_with. Qed.
#[export] Hint Rewrite length_SET_TRUE length_SET_FALSE length_INTERSECT : len.

(** ** The data service API

    The enumerations of [src/include/agentd/dataservice.h]: the capability
    bits and the method codes of the request packets. *)

(** ** [dataservice_api_cap_enum] *)

Definition DATASERVICE_API_CAP_LL_ROOT_CONTEXT_CREATE : nat := 0.
Definition DATASERVICE_API_CAP_LL_ROOT_CONTEXT_REDUCE_CAPS : nat := 1.
Definition DATASERVICE_API_CAP_LL_CHILD_CONTEXT_CREATE : nat := 2.
Definition DATASERVICE_API_CAP_LL_CHILD_CONTEXT_CLOSE : nat := 3.
Definition DATASERVICE_API_CAP_LL_DATABASE_BACKUP : nat := 4.
Definition DATASERVICE_API_CAP_LL_DATABASE_RESTORE : nat := 5.
Definition DATASERVICE_API_CAP_LL_DATABASE_UPGRADE : nat := 6.
Definition DATASERVICE_API_CAP_APP_GLOBAL_SETTING_READ : nat := 7.
Definition DATASERVICE_API_CAP_APP_GLOBAL_SETTING_WRITE : nat := 8.
Definition DATASERVICE_API_CAP_APP_BLOCK_ID_LATEST_READ : nat := 9.
Definition DATASERVICE_API_CAP_APP_BLOCK_ID_NEXT_READ : nat := 10.
Definition DATASERVICE_API_CAP_APP_BLOCK_ID_PREV_READ : nat := 11.
Definition DATASERVICE_API_CAP_APP_BLOCK_ID_WITH_TRANSACTION_READ : nat := 12.
Definition DATASERVICE_API_CAP_APP_BLOCK_READ : nat := 13.
Definition DATASERVICE_API_CAP_APP_TRANSACTION_READ : nat := 14.
Definition DATASERVICE_API_CAP_APP_PQ_TRANSACTION_SUBMIT : nat := 15.
Definition DATASERVICE_API_CAP_APP_PQ_TRANSACTION_PROMOTE : nat := 16.
Definition DATASERVICE_API_CAP_APP_PQ_TRANSACTION_FIRST_READ : nat := 17.
Definition DATASERVICE_API_CAP_APP_PQ_TRANSACTION_READ : nat := 18.
Definition DATASERVICE_API_CAP_APP_PQ_TRANSACTION_DROP : nat := 19.
Definition DATASERVICE_API_CAP_APP_ARTIFACT_READ : nat := 20.
Definition DATASERVICE_API_CAP_APP_BLOCK_WRITE : nat := 21.
Definition DATASERVICE_API_CAP_APP_BLOCK_ID_BY_HEIGHT_READ : nat := 22.
Definition DATASERVICE_API_CAP_BITS_MAX : nat := 23.

(** ** [dataservice_api_method_enum] *)

Definition DATASERVICE_API_METHOD_LOWER_BOUND : Z := 0.
Definition DATASERVICE_API_METHOD_LL_ROOT_CONTEXT_CREATE : Z := 0.
Definition DATASERVICE_API_METHOD_LL_ROOT_CONTEXT_REDUCE_CAPS : Z := 1.
Definition DATASERVICE_API_METHOD_LL_CHILD_CONTEXT_CREATE : Z := 2.
Definition DATASERVICE_API_METHOD_LL_CHILD_CONTEXT_CLOSE : Z := 3.
Definition DATASERVICE_API_METHOD_LL_DATABASE_BACKUP : Z := 4.
Definition DATASERVICE_API_METHOD_LL_DATABASE_RESTORE : Z := 5.
Definition DATASERVICE_API_METHOD_LL_DATABASE_UPGRADE : Z := 6.
Definition DATASERVICE_API_METHOD_APP_GLOBAL_SETTING_READ : Z := 7.
Definition DATASERVICE_API_METHOD_APP_GLOBAL_SETTING_WRITE : Z := 8.
Definition DATASERVICE_API_METHOD_APP_BLOCK_ID_LATEST_READ : Z := 9.
Definition DATASERVICE_API_METHOD_APP_BLOCK_ID_NEXT_READ : Z := 10.
Definition DATASERVICE_API_METHOD_APP_BLOCK_ID_PREV_READ : Z := 11.
Definition DATASERVICE_API_METHOD_APP_BLOCK_ID_WITH_TRANSACTION_READ : Z := 12.
Definition DATASERVICE_API_METHOD_APP_BLOCK_READ : Z := 13.
Definition DATASERVICE_API_METHOD_APP_TRANSACTION_READ : Z := 14.
Definition DATASERVICE_API_METHOD_APP_PQ_TRANSACTION_SUBMIT : Z := 15.
Definition DATASERVICE_API_METHOD_APP_PQ_TRANSACTION_PROMOTE : Z := 16.
Definition DATASERVICE_API_METHOD_APP_PQ_TRANSACTION_FIRST_READ : Z := 17.
Definition DATASERVICE_API_METHOD_APP_PQ_TRANSACTION_READ : Z := 18.
Definition DATASERVICE_API_METHOD_APP_PQ_TRANSACTION_DROP : Z := 19.
Definition DATASERVICE_API_METHOD_APP_ARTIFACT_READ : Z := 20.
Definition DATASERVICE_API_METHOD_APP_BLOCK_WRITE : Z := 21.
Definition DATASERVICE_API_METHOD_APP_BLOCK_ID_BY_HEIGHT_READ : Z := 22.
Definition DATASERVICE_API_METHOD_UPPER_BOUND : Z := 23.

(** ** Root and child contexts

    [dataservice_root_context_reduce_capabilities.c],
    [dataservice_child_context_{create,close,lookup}.c],
    [dataservice_child_details_{create,delete}.c],
    [dataservice_instance_create.c] and the structures of
    [dataservice_internal.h] and [private/dataservice.h].

    A pointer into the [children] array is the index of its element; the
    unused elements are linked through their [next] fields from [child_head].
    A structure's [hdr.dispose] is modelled by whether it is set. *)

(** [BITCAP(caps, DATASERVICE_API_CAP_BITS_MAX)]. *)
Definition cap_words : nat := BITCAP DATASERVICE_API_CAP_BITS_MAX.

(** What [ctx->details] points to: nothing, an open database, or memory that has
    been freed. *)
Inductive details_ptr : Set := details_null | details_open | details_freed.

#[global] Instance details_ptr_eq_dec : EqDecision details_ptr.
Proof. solve_decision. Defined.

Record dataservice_root_context := RootContext {
  root_dispose : bool; apicaps : bitcap; details : details_ptr }.

Record dataservice_child_context := ChildContext {
  child_root : bool; childcaps : bitcap }.

Record dataservice_child_details := ChildDetails {
  cd_dispose : bool; cd_next : option nat; cd_ctx : dataservice_child_context }.

Definition DATASERVICE_MAX_CHILD_CONTEXTS : nat := Z.to_nat 1024.

Record dataservice_instance := Instance_ {
  inst_dispose : bool; inst_ctx : dataservice_root_context;
  children : list dataservice_child_details; child_head : option nat;
  dataservice_force_exit : bool }.

Definition zero_root : dataservice_root_context :=
  RootContext false (BITCAP_INIT_FALSE cap_words) details_null.
Definition zero_child : dataservice_child_context :=
  ChildContext false (BITCAP_INIT_FALSE cap_words).
Definition zero_details : dataservice_child_details := ChildDetails false None zero_child.

(** ** Operations *)

(** The loop of [dataservice_instance_create]: push elements [i], [i+1], ... *)
Fixpoint link_children (n i : nat) (head : option nat) (cs : list dataservice_child_details)
  : option nat * list dataservice_child_details :=
  match n with
  | O => (head, cs)
  | S n =>
      link_children n (S i) (Some i)
        (alter (λ c, ChildDetails (cd_dispose c) head (cd_ctx c)) i cs)
  end.

(** [dataservice_instance_create], for a successful [malloc]. *)
Definition dataservice_instance_create : dataservice_instance :=
  let ctx := RootContext false
    (BITCAP_SET_TRUE (BITCAP_INIT_FALSE cap_words) DATASERVICE_API_CAP_LL_ROOT_CONTEXT_CREATE)
    details_null in
  let '(head, cs) := link_children DATASERVICE_MAX_CHILD_CONTEXTS 0 None
    (replicate DATASERVICE_MAX_CHILD_CONTEXTS zero_details) in
  Instance_ true ctx cs head false.

Definition set_children (inst : dataservice_instance) (head : option nat)
    (cs : list dataservice_child_details) : dataservice_instance :=
  Instance_ (inst_dispose inst) (inst_ctx inst) cs head (dataservice_force_exit inst).

(** [dataservice_child_details_create]: take the head of the free list. *)
Definition dataservice_child_details_create (inst : dataservice_instance)
  : result nat * dataservice_instance :=
  match child_head inst with
  | None => (Err AGENTD_ERROR_DATASERVICE_OUT_OF_CHILD_INSTANCES, inst)
  | Some i =>
      let next := cd_next (default zero_details (children inst !! i)) in
      (Ok i, set_children inst next (<[i := ChildDetails true None zero_child]> (children inst)))
  end.

(** [dataservice_child_details_delete]: dispose (clear) and push. *)
Definition dataservice_child_details_delete (inst : dataservice_instance) (offset : nat)
  : dataservice_instance :=
  set_children inst (Some offset)
    (<[offset := ChildDetails false (child_head inst) zero_child]> (children inst)).

(** [dataservice_child_context_lookup]; the offset is a [uint32_t]. *)
Definition dataservice_child_context_lookup (inst : dataservice_instance) (offset : Z)
  : result nat :=
  if Z.of_nat DATASERVICE_MAX_CHILD_CONTEXTS <=? offset
  then Err AGENTD_ERROR_DATASERVICE_CHILD_CONTEXT_BAD_INDEX
  else if cd_dispose (default zero_details (children inst !! Z.to_nat offset))
  then Ok (Z.to_nat offset)
  else Err AGENTD_ERROR_DATASERVICE_CHILD_CONTEXT_INVALID.

(** [dataservice_child_context_create]. *)
Definition dataservice_child_context_create (root : dataservice_root_context)
    (child : dataservice_child_context) (caps : bitcap) : result dataservice_child_context :=
  if negb (BITCAP_ISSET (apicaps root) DATASERVICE_API_CAP_LL_CHILD_CONTEXT_CREATE)
  then Err AGENTD_ERROR_DATASERVICE_NOT_AUTHORIZED
  else if negb (BITCAP_ISSET (childcaps child) DATASERVICE_API_CAP_LL_CHILD_CONTEXT_CREATE)
  then Err AGENTD_ERROR_DATASERVICE_NOT_AUTHORIZED
  else Ok (ChildContext true
             (BITCAP_SET_FALSE (BITCAP_INTERSECT (apicaps root) caps)
                DATASERVICE_API_CAP_LL_CHILD_CONTEXT_CREATE)).

(** [dataservice_child_context_close]. *)
Definition dataservice_child_context_close (child : dataservice_child_context)
  : result dataservice_child_context :=
  if negb (BITCAP_ISSET (childcaps child) DATASERVICE_API_CAP_LL_CHILD_CONTEXT_CLOSE)
  then Err AGENTD_ERROR_DATASERVICE_NOT_AUTHORIZED
  else Ok zero_child.

(** [dataservice_root_context_reduce_capabilities]. *)
Definition dataservice_root_context_reduce_capabilities (ctx : dataservice_root_context)
    (caps : bitcap) : result dataservice_root_context :=
  if negb (BITCAP_ISSET (apicaps ctx) DATASERVICE_API_CAP_LL_ROOT_CONTEXT_REDUCE_CAPS)
  then Err AGENTD_ERROR_DATASERVICE_NOT_AUTHORIZED
  else Ok (RootContext (root_dispose ctx) (BITCAP_INTERSECT (apicaps ctx) caps) (details ctx)).

(** ** The free list *)

(** [free_chain cs head l]: following [next] from [head] visits the unused
    elements [l] and ends. *)
Fixpoint free_chain (cs : list dataservice_child_details) (head : option nat) (l : list nat) : Prop :=
  match l with
  | [] => head = None
  | i :: l => head = Some i ∧ ∃ c, cs !! i = Some c ∧ cd_dispose c = false ∧ free_chain cs (cd_next c) l
  end.

(** The allocator's invariant: an element is unused exactly when it is on the
    free list, and it is there once. *)
Definition children_inv (inst : dataservice_instance) (free : list nat) : Prop :=
  length (children inst) = DATASERVICE_MAX_CHILD_CONTEXTS ∧
  free_chain (children inst) (child_head inst) free ∧ NoDup free ∧
  ∀ i c, children inst !! i = Some c → (cd_dispose c = false ↔ i ∈ free).

Lemma free_chain_insert cs head l i c :
  i ∉ l → free_chain cs head l → free_chain (<[i := c]> cs) head l.
Proof.
  revert head. induction l as [|j l IH]; intros head Hi; simpl; [done|].
  apply not_elem_of_cons in Hi as [Hne Hi].
  intros (->&c'&Hc&Hd&Hl). split; [done|]. exists c'.
  rewrite list_lookup_insert_ne by done. auto.
Qed.

Lemma free_chain_lt cs head l i : free_chain cs head l → i ∈ l → (i < length cs)%nat.
Proof.
  revert head. induction l as [|j l IH]; intros head; simpl; [by intros _ ?%elem_of_nil|].
  intros (_&c&Hc&_&Hl) [->|Hi]%elem_of_cons; [by eapply lookup_lt_Some|]. eauto.
Qed.

Lemma details_create_inv inst i free :
  children_inv inst (i :: free) →
  ∃ inst', dataservice_child_details_create inst = (Ok i, inst') ∧
    children_inv inst' free ∧
    children inst' = <[i := ChildDetails true None zero_child]> (children inst) ∧
    inst_ctx inst' = inst_ctx inst.
Proof.
  intros (Hlen&(Hh&c&Hc&Hd&Hch)&[Hi Hnd]%NoDup_cons&Hfree).
  unfold dataservice_child_details_create. rewrite Hh, Hc. simpl.
  eexists. split_and!; [done|..|done|done]. split_and!; simpl; auto.
  - by rewrite length_insert.
  - by apply free_chain_insert.
  - intros j c' Hj. rewrite list_lookup_insert in Hj. case_decide as Hij.
    + simplify_eq; simpl. destruct Hij as [-> _]. split; [done|]. intros ?; done.
    + rewrite (Hfree _ _ Hj), elem_of_cons. split; [|auto]. intros [->|]; [|done].
      exfalso. apply Hij. split; [done|]. by eapply lookup_lt_Some.
Qed.

Lemma details_create_full inst :
  children_inv inst [] →
  dataservice_child_details_create inst = (Err AGENTD_ERROR_DATASERVICE_OUT_OF_CHILD_INSTANCES, inst).
Proof. intros (_&Hh&_). unfold dataservice_child_details_create. simpl in Hh. by rewrite Hh. Qed.

Lemma details_delete_inv inst i c free :
  children_inv inst free → children inst !! i = Some c → cd_dispose c = true →
  children_inv (dataservice_child_details_delete inst i) (i :: free).
Proof.
  intros (Hlen&Hch&Hnd&Hfree) Hc Hd.
  assert (i ∉ free) as Hi by (rewrite <- (Hfree _ _ Hc); by rewrite Hd).
  assert (i < length (children inst))%nat as Hlt by by eapply lookup_lt_Some.
  split_and!; simpl; auto.
  - by rewrite length_insert.
  - split; [done|]. eexists. rewrite list_lookup_insert_eq by done.
    split_and!; [done..|]. by apply free_chain_insert.
  - by apply NoDup_cons.
  - intros j c' Hj. rewrite list_lookup_insert in Hj. case_decide as Hij; rewrite elem_of_cons.
    + simplify_eq; simpl. destruct Hij as [-> _]. naive_solver.
    + rewrite (Hfree _ _ Hj). split; [auto|]. intros [->|]; [|done]. naive_solver.
Qed.

Lemma link_children_spec n i head cs :
  (i + n ≤ length cs)%nat →
  let '(head', cs') := link_children n i head cs in
  length cs' = length cs ∧
  (∀ j, (j < i)%nat → cs' !! j = cs !! j) ∧
  (∀ j c, (i ≤ j < i + n)%nat → cs !! j = Some c →
     cs' !! j = Some (ChildDetails (cd_dispose c) (if (j =? i)%nat then head else Some (j - 1)%nat) (cd_ctx c))) ∧
  head' = match n with O => head | S _ => Some (i + n - 1)%nat end.
Proof.
  revert i head cs. induction n as [|n IH]; intros i head cs Hlen; simpl.
  { split_and!; auto. intros; lia. }
  specialize (IH (S i) (Some i) (alter (λ c, ChildDetails (cd_dispose c) head (cd_ctx c)) i cs)).
  rewrite length_alter in IH. specialize (IH ltac:(lia)).
  destruct (link_children _ _ _ _) as [head' cs']. destruct IH as (Hl&Hlt&Hin&->). split_and!.
  - done.
  - intros j Hj. rewrite Hlt, list_lookup_alter by lia. case_decide; [lia|done].
  - intros j c Hj Hc. destruct (decide (j = i)) as [->|Hne].
    + rewrite Hlt, list_lookup_alter, Nat.eqb_refl, Hc by lia. case_decide; done.
    + rewrite (Hin j c); [|lia|]; [|rewrite list_lookup_alter; case_decide; [lia|done]].
      replace (j =? i)%nat with false by (symmetry; by apply Nat.eqb_neq).
      destruct (j =? S i)%nat eqn:E; [|done]. apply Nat.eqb_eq in E as ->. do 3 f_equal. lia.
  - destruct n; f_equal; lia.
Qed.

(** ** The theorems *)

Lemma link_children_free n cs head' cs' :
  length cs = n → (∀ c, c ∈ cs → cd_dispose c = false) →
  link_children n 0 None cs = (head', cs') →
  free_chain cs' head' (reverse (seq 0 n)).
Proof.
  intros Hlen Hfree E. pose proof (link_children_spec n 0 None cs ltac:(lia)) as H.
  rewrite E in H. destruct H as (Hl&_&Hin&->).
  assert (∀ k, (k ≤ n)%nat →
    free_chain cs' (match k with O => None | S k => Some k end) (reverse (seq 0 k))) as Hk.
  { induction k as [|k IH]; intros Hk; [done|].
    rewrite seq_S, reverse_snoc. simpl. split; [done|].
    destruct (lookup_lt_is_Some_2 cs k ltac:(lia)) as [c Hc].
    eexists. rewrite (Hin k c) by (done || lia). split_and!; [done| |].
    - simpl. apply Hfree. by eapply list_elem_of_lookup_2.
    - destruct k as [|k]; [done|]. simpl. rewrite Nat.sub_0_r. apply IH. lia. }
  specialize (Hk n ltac:(lia)). destruct n; simpl in *; [done|]. by rewrite Nat.sub_0_r.
Qed.

Lemma link_children_dispose n i head cs head' cs' :
  link_children n i head cs = (head', cs') → cd_dispose <$> cs' = cd_dispose <$> cs.
Proof.
  revert i head cs. induction n as [|n IH]; intros i head cs E; simpl in E; [by simplify_eq|].
  rewrite (IH _ _ _ E). apply list_eq. intros j. rewrite !list_lookup_fmap, list_lookup_alter.
  case_decide; subst; by destruct (cs !! _).
Qed.

(** A new instance. *)
Lemma instance_create_spec :
  children_inv dataservice_instance_create (reverse (seq 0 DATASERVICE_MAX_CHILD_CONTEXTS)) ∧
  ∀ bit, BITCAP_ISSET (apicaps (inst_ctx dataservice_instance_create)) bit
         = bool_decide (bit = DATASERVICE_API_CAP_LL_ROOT_CONTEXT_CREATE).
Proof.
  unfold dataservice_instance_create, children_inv.
  destruct (link_children _ _ _ _) as [head cs] eqn:E. cbn [children child_head inst_ctx apicaps].
  set (n := DATASERVICE_MAX_CHILD_CONTEXTS) in *. split; [split_and!|].
  - pose proof (link_children_spec n 0 None (replicate n zero_details)) as H.
    rewrite E, length_replicate in H. by destruct (H ltac:(lia)) as (->&_).
  - eapply link_children_free; [|..|exact E]; [apply length_replicate|].
    intros c Hc%elem_of_replicate_inv. by subst.
  - rewrite reverse_Permutation. apply NoDup_seq.
  - intros i c Hc. rewrite elem_of_reverse, elem_of_seq.
    pose proof (link_children_dispose _ _ _ _ _ _ E) as Hd.
    assert ((cd_dispose <$> cs) !! i = Some (cd_dispose c)) as Hi by (by rewrite list_lookup_fmap, Hc).
    rewrite Hd, list_lookup_fmap in Hi. destruct (replicate _ _ !! i) eqn:Er; [|done].
    apply lookup_replicate in Er as [-> Hlt]. simpl in Hi. injection Hi as <-. split; [lia|done].
  - intros bit. rewrite ISSET_SET_TRUE, ISSET_INIT_FALSE, orb_false_r; [done|]. by vm_compute; lia.
Qed.

(** [dataservice_instance_create] builds an instance whose free list holds each of
    the 1024 child contexts exactly once, all of them unused, and whose root
    context may do nothing but create the root context. *)
Theorem instance_create_correct :
  children_inv dataservice_instance_create (reverse (seq 0 DATASERVICE_MAX_CHILD_CONTEXTS)) ∧
  ∀ bit, BITCAP_ISSET (apicaps (inst_ctx dataservice_instance_create)) bit
         = bool_decide (bit = DATASERVICE_API_CAP_LL_ROOT_CONTEXT_CREATE).
Proof. apply instance_create_spec. Qed.

(** [dataservice_child_context_create] gives a child exactly the capabilities that
    were asked for and that the root context has, never the one to create
    children, and refuses when the root or the child may not create contexts. *)
Theorem child_context_capabilities root child caps :
  match dataservice_child_context_create root child caps with
  | Ok child' =>
      BITCAP_ISSET (apicaps root) DATASERVICE_API_CAP_LL_CHILD_CONTEXT_CREATE = true ∧
      BITCAP_ISSET (childcaps child) DATASERVICE_API_CAP_LL_CHILD_CONTEXT_CREATE = true ∧
      ∀ bit, BITCAP_ISSET (childcaps child') bit = true ↔
        BITCAP_ISSET (apicaps root) bit = true ∧ BITCAP_ISSET caps bit = true ∧
        bit ≠ DATASERVICE_API_CAP_LL_CHILD_CONTEXT_CREATE
  | Err s =>
      s = AGENTD_ERROR_DATASERVICE_NOT_AUTHORIZED ∧
      (BITCAP_ISSET (apicaps root) DATASERVICE_API_CAP_LL_CHILD_CONTEXT_CREATE = false ∨
       BITCAP_ISSET (childcaps child) DATASERVICE_API_CAP_LL_CHILD_CONTEXT_CREATE = false)
  end.
Proof.
  unfold dataservice_child_context_create.
  destruct (BITCAP_ISSET (apicaps root) _) eqn:E1; simpl; [|auto].
  destruct (BITCAP_ISSET (childcaps child) _) eqn:E2; simpl; [|auto].
  split_and!; [done..|]. intros bit.
  rewrite ISSET_SET_FALSE, ISSET_INTERSECT, !andb_true_iff, bool_decide_eq_true. naive_solver.
Qed.

(** Repeated reduction of the root capabilities; a refused request changes
    nothing. *)
Fixpoint reduce_all (ctx : dataservice_root_context) (reqs : list bitcap) : dataservice_root_context :=
  match reqs with
  | [] => ctx
  | caps :: reqs =>
      match dataservice_root_context_reduce_capabilities ctx caps with
      | Ok ctx' => reduce_all ctx' reqs
      | Err _ => reduce_all ctx reqs
      end
  end.

(** No sequence of [dataservice_root_context_reduce_capabilities] requests adds a
    capability to the root context, and once the capability to reduce is gone
    the capabilities never change again. *)
Theorem root_capabilities_shrink ctx reqs :
  (∀ bit, BITCAP_ISSET (apicaps (reduce_all ctx reqs)) bit = true → BITCAP_ISSET (apicaps ctx) bit = true) ∧
  (BITCAP_ISSET (apicaps ctx) DATASERVICE_API_CAP_LL_ROOT_CONTEXT_REDUCE_CAPS = false →
   reduce_all ctx reqs = ctx).
Proof.
  revert ctx. induction reqs as [|caps reqs IH]; intros ctx; simpl; [done|].
  unfold dataservice_root_context_reduce_capabilities.
  destruct (BITCAP_ISSET (apicaps ctx) _) eqn:E; simpl.
  - split; [|done]. intros bit Hb%(proj1 (IH _)). simpl in Hb.
    rewrite ISSET_INTERSECT, andb_true_iff in Hb. naive_solver.
  - split; intros; [by apply IH|by apply (IH ctx)].
Qed.

Lemma root_capabilities_shrink_witness :
  let ctx := RootContext true (BITCAP_INIT_FALSE cap_words) details_open in
  BITCAP_ISSET (apicaps ctx) DATASERVICE_API_CAP_LL_ROOT_CONTEXT_REDUCE_CAPS = false ∧
  reduce_all ctx [BITCAP_INIT_TRUE cap_words] = ctx.
Proof.
  intros ctx. split; [by vm_compute|].
  apply (proj2 (root_capabilities_shrink ctx [BITCAP_INIT_TRUE cap_words])). by vm_compute.
Defined.
