(* ===== verification/Lmdb.v ===== *)
(** * The database and allocator interface

    The data service stores everything in LMDB, which is not part of the
    repository.  [LMDB W] is the part of its API the sources call, over a world
    [W] that holds the environment, the open transactions and the allocator;
    [LMDB_laws] states what the LMDB documentation promises of these calls.
    Every call may fail at any time with a non-zero code, unless a theorem asks
    for [LMDB_reliable].

    Memory returned by [mdb_get] is modelled by the bytes it holds when the
    call returns. *)

From S2P Require Import Prelude Inet.

(** The six databases [dataservice_database_open] opens. *)
Inductive dbi : Set := global_db | block_db | txn_db | pq_db | artifact_db | height_db.

#[global] Instance dbi_eq_dec : EqDecision dbi.
Proof. solve_decision. Defined.

(** The contents of the databases, as one transaction sees them. *)
Abbreviation bytes_map := (@gmap bytes (@list_eq_dec byte byte_eq_dec)
  (@list_countable byte byte_eq_dec byte_countable) bytes).
Abbreviation dbs := (dbi → bytes_map).

Definition db_set (d : dbi) (m : gmap bytes bytes) (V : dbs) : dbs :=
  λ d', if decide (d' = d) then m else V d'.

Definition MDB_SUCCESS : Z := 0.
Definition MDB_NOTFOUND : Z := -30798.
Definition MDB_NOOVERWRITE : Z := 0x10.
Definition MDB_RDONLY : Z := 0x20000.

Class LMDB (W : Type) := {
  MDB_txn : Type;
  mdb_txn_begin : option MDB_txn → Z → Act W (Z * MDB_txn);
  mdb_txn_commit : MDB_txn → Act W Z;
  mdb_txn_abort : MDB_txn → Act W unit;
  mdb_get : MDB_txn → dbi → bytes → Act W (Z * bytes);
  mdb_put : MDB_txn → dbi → bytes → bytes → Z → Act W Z;
  mdb_del : MDB_txn → dbi → bytes → Act W Z;
  (** The data service allocates with [malloc]. *)
  mdb_malloc :: MALLOC W;
}.

(** ** The documented behaviour

    [mdb_view w p d] is the contents of [d] as the transaction [p] sees it, or,
    for [None], as it is committed in the environment.  [mdb_usable w p] says
    that [p] may be operated on: it is open and has no open child ([None]: a
    top-level transaction may be begun).  [mdb_parent w t] is the transaction
    [t] was begun under, and [mdb_writable w t] that it is not read-only. *)
Class LMDB_laws (W : Type) `{L : LMDB W} := {
  mdb_view : W → option MDB_txn → dbs;
  mdb_usable : W → option MDB_txn → Prop;
  mdb_parent : W → MDB_txn → option MDB_txn;
  mdb_writable : W → MDB_txn → Prop;

  (** A new transaction starts with what its parent sees. *)
  law_begin : ∀ p fl w rc t w',
    mdb_txn_begin p fl w = ((rc, t), w') → mdb_usable w p →
    (rc = 0 → mdb_usable w' (Some t) ∧ mdb_parent w' t = p ∧ p ≠ Some t ∧
              (∀ d, mdb_view w' (Some t) d = mdb_view w p d) ∧
              (fl = 0 → (∀ q, p = Some q → mdb_writable w q) → mdb_writable w' t)) ∧
    (rc ≠ 0 → mdb_usable w' p) ∧
    (∀ q, p = Some q → mdb_writable w q → mdb_writable w' q) ∧
    ∀ d, mdb_view w' p d = mdb_view w p d;

  (** Reads change nothing; 0 and [MDB_NOTFOUND] tell what is stored. *)
  law_get : ∀ t d k w rc v w',
    mdb_get t d k w = ((rc, v), w') → mdb_usable w (Some t) →
    (rc = 0 → mdb_view w (Some t) d !! k = Some v) ∧
    (rc = MDB_NOTFOUND → mdb_view w (Some t) d !! k = None) ∧
    mdb_usable w' (Some t) ∧ mdb_parent w' t = mdb_parent w t ∧
    (mdb_writable w t → mdb_writable w' t) ∧
    (∀ q, mdb_parent w t = Some q → mdb_writable w q → mdb_writable w' q) ∧
    ∀ q e, mdb_view w' q e = mdb_view w q e;

  (** A successful put stores the pair; with [MDB_NOOVERWRITE] only when the key
      was absent.  A failed put leaves the transaction in an unknown state that
      can only be aborted.  Other transactions see nothing of it. *)
  law_put : ∀ t d k v fl w rc w',
    mdb_put t d k v fl w = (rc, w') → mdb_usable w (Some t) →
    (rc = 0 →
       mdb_view w' (Some t) d = <[k := v]> (mdb_view w (Some t) d) ∧
       (∀ e, e ≠ d → mdb_view w' (Some t) e = mdb_view w (Some t) e) ∧
       (fl = MDB_NOOVERWRITE → mdb_view w (Some t) d !! k = None)) ∧
    mdb_usable w' (Some t) ∧ mdb_parent w' t = mdb_parent w t ∧
    (mdb_writable w t → mdb_writable w' t) ∧
    (∀ q, mdb_parent w t = Some q → mdb_writable w q → mdb_writable w' q) ∧
    ∀ q e, q ≠ Some t → mdb_view w' q e = mdb_view w q e;

  law_del : ∀ t d k w rc w',
    mdb_del t d k w = (rc, w') → mdb_usable w (Some t) →
    (rc = 0 →
       is_Some (mdb_view w (Some t) d !! k) ∧
       mdb_view w' (Some t) d = delete k (mdb_view w (Some t) d) ∧
       (∀ e, e ≠ d → mdb_view w' (Some t) e = mdb_view w (Some t) e)) ∧
    (rc = MDB_NOTFOUND → mdb_view w (Some t) d !! k = None) ∧
    mdb_usable w' (Some t) ∧ mdb_parent w' t = mdb_parent w t ∧
    (mdb_writable w t → mdb_writable w' t) ∧
    (∀ q, mdb_parent w t = Some q → mdb_writable w q → mdb_writable w' q) ∧
    ∀ q e, q ≠ Some t → mdb_view w' q e = mdb_view w q e;

  (** A commit makes the transaction's view its parent's, or, when it fails,
      leaves the parent as it was; the handle is gone either way. *)
  law_commit : ∀ t w rc w' p,
    mdb_txn_commit t w = (rc, w') → mdb_usable w (Some t) → mdb_parent w t = p →
    (rc = 0 → ∀ d, mdb_view w' p d = mdb_view w (Some t) d) ∧
    (rc ≠ 0 → ∀ d, mdb_view w' p d = mdb_view w p d) ∧
    (∀ q, p = Some q → mdb_writable w q → mdb_writable w' q) ∧
    mdb_usable w' p;

  law_abort : ∀ t w w' p,
    mdb_txn_abort t w = (tt, w') → mdb_usable w (Some t) → mdb_parent w t = p →
    (∀ q, p = Some q → mdb_writable w q → mdb_writable w' q) ∧
    (∀ d, mdb_view w' p d = mdb_view w p d) ∧ mdb_usable w' p;

  law_malloc : ∀ n w b w',
    malloc n w = (b, w') →
    (∀ p, mdb_usable w p → mdb_usable w' p) ∧
    (∀ t, mdb_parent w' t = mdb_parent w t) ∧
    (∀ t, mdb_writable w t → mdb_writable w' t) ∧
    ∀ q e, mdb_view w' q e = mdb_view w q e;
}.

(** A call that is not about the database leaves it alone. *)
Definition db_silent {W : Type} `{LL : LMDB_laws W} {A : Type} (m : Act W A) : Prop :=
  ∀ w a w', m w = (a, w') →
    (∀ p, mdb_usable w p → mdb_usable w' p) ∧
    (∀ t, mdb_parent w' t = mdb_parent w t) ∧
    (∀ t, mdb_writable w t → mdb_writable w' t) ∧
    ∀ q e, mdb_view w' q e = mdb_view w q e.

(** No call fails for a reason outside the program: no I/O error, no exhausted
    map, no exhausted memory. *)
Record LMDB_reliable (W : Type) `{LL : LMDB_laws W} : Prop := {
  reliable_begin : ∀ p fl w, mdb_usable w p → (mdb_txn_begin p fl w).1.1 = 0;
  reliable_get : ∀ t d k w, mdb_usable w (Some t) →
    (mdb_get t d k w).1.1 = 0 ∨ (mdb_get t d k w).1.1 = MDB_NOTFOUND;
  reliable_put : ∀ t d k v fl w, mdb_usable w (Some t) → mdb_writable w t →
    fl ≠ MDB_NOOVERWRITE ∨ mdb_view w (Some t) d !! k = None →
    (mdb_put t d k v fl w).1 = 0;
  reliable_del : ∀ t d k w, mdb_usable w (Some t) → mdb_writable w t →
    (mdb_del t d k w).1 = 0 ∨ (mdb_del t d k w).1 = MDB_NOTFOUND;
  reliable_commit : ∀ t w, mdb_usable w (Some t) → (mdb_txn_commit t w).1 = 0;
  reliable_malloc : ∀ n w, 0 < n → (malloc n w).1 = true;
}.

(** ** Symbolic execution rules

    [env_state w p P]: [p] may be operated on, is writable, and sees [P].
    [txn_state w t p P V]: [t], begun under [p], sees [V] and [p] sees [P].
    The rules describe each call by these assertions; a branch for an outside
    fault carries the assumption that the platform is not reliable. *)
Section rules.
Context {W : Type} {L : LMDB W} {LL : LMDB_laws W}.

Definition faulty : Prop := LMDB_reliable W → False.

Definition env_state (w : W) (p : option MDB_txn) (P : dbs) : Prop :=
  mdb_usable w p ∧ (∀ q, p = Some q → mdb_writable w q) ∧ ∀ d, mdb_view w p d = P d.

Definition txn_state (wr : bool) (w : W) (t : MDB_txn) (p : option MDB_txn) (P V : dbs) : Prop :=
  mdb_usable w (Some t) ∧ mdb_parent w t = p ∧ p ≠ Some t ∧
  (wr = true → mdb_writable w t) ∧ (∀ q, p = Some q → mdb_writable w q) ∧
  (∀ d, mdb_view w (Some t) d = V d) ∧ (∀ d, mdb_view w p d = P d).

Lemma env_state_ext w p P P' : env_state w p P → (∀ d, P d = P' d) → env_state w p P'.
Proof. intros (?&?&Hv) HPP. split_and!; [done..|]. intros d. by rewrite Hv. Qed.

Lemma txn_state_ext wr w t p P V V' :
  txn_state wr w t p P V → (∀ d, V d = V' d) → txn_state wr w t p P V'.
Proof. intros (?&?&?&?&?&Hv&?) HVV. split_and!; try done. intros d. by rewrite Hv. Qed.

Lemma post_begin p fl P (Q : Z * MDB_txn → W → Prop) w :
  env_state w p P →
  (∀ rc t w', rc ≠ 0 → faulty → env_state w' p P → Q (rc, t) w') →
  (∀ t w', txn_state (bool_decide (fl = 0)) w' t p P P → Q (0, t) w') →
  post (mdb_txn_begin p fl) Q w.
Proof.
  intros (Hu&Hw&Hv) Hf Hs. apply post_run.
  destruct (mdb_txn_begin p fl w) as [[rc t] w'] eqn:E.
  pose proof (law_begin _ _ _ _ _ _ E Hu) as (H0&H1&Hwr&Hvp). simpl.
  destruct (decide (rc = 0)) as [->|Hne].
  - apply Hs. destruct (H0 eq_refl) as (?&?&?&Hvt&Hwt). split_and!; auto.
    + intros Hb%bool_decide_eq_true. auto.
    + intros d. by rewrite Hvt, Hv.
    + intros d. by rewrite Hvp, Hv.
  - apply Hf; [done| |].
    + intros R. apply Hne. pose proof (reliable_begin _ R p fl w Hu) as HR. by rewrite E in HR.
    + split_and!; auto. intros d. by rewrite Hvp, Hv.
Qed.

Lemma post_get wr t d k p P V (Q : Z * bytes → W → Prop) w :
  txn_state wr w t p P V →
  (∀ v w', V d !! k = Some v → txn_state wr w' t p P V → Q (0, v) w') →
  (∀ v w', V d !! k = None → txn_state wr w' t p P V → Q (MDB_NOTFOUND, v) w') →
  (∀ rc v w', rc ≠ 0 → rc ≠ MDB_NOTFOUND → faulty → txn_state wr w' t p P V → Q (rc, v) w') →
  post (mdb_get t d k) Q w.
Proof.
  intros (Hu&Hp&Hne&Hw&Hwp&Hv&HP) Hok Hnf Hf. apply post_run.
  destruct (mdb_get t d k w) as [[rc v] w'] eqn:E.
  pose proof (law_get _ _ _ _ _ _ _ E Hu) as (H0&H1&Hu'&Hp'&Hw'&Hwp'&Hv'). simpl.
  rewrite Hv in H0, H1.
  assert (txn_state wr w' t p P V) as Hst.
  { rewrite Hp in Hwp'. split_and!; auto; [congruence|..]; intros e; by rewrite Hv'. }
  destruct (decide (rc = 0)) as [->|]; [auto|].
  destruct (decide (rc = MDB_NOTFOUND)) as [->|]; [auto|].
  apply Hf; auto. intros R. pose proof (reliable_get _ R t d k w Hu) as HR.
  rewrite E in HR. by destruct HR.
Qed.

Lemma post_put t d k v fl p P V (Q : Z → W → Prop) w :
  txn_state true w t p P V →
  (∀ w', (fl = MDB_NOOVERWRITE → V d !! k = None) →
         txn_state true w' t p P (db_set d (<[k := v]> (V d)) V) → Q 0 w') →
  (∀ rc w' V', rc ≠ 0 → (fl = MDB_NOOVERWRITE ∧ is_Some (V d !! k)) ∨ faulty →
               txn_state true w' t p P V' → Q rc w') →
  post (mdb_put t d k v fl) Q w.
Proof.
  intros (Hu&Hp&Hne&Hw&Hwp&Hv&HP) Hok Hf. apply post_run.
  destruct (mdb_put t d k v fl w) as [rc w'] eqn:E.
  pose proof (law_put _ _ _ _ _ _ _ _ E Hu) as (H0&Hu'&Hp'&Hw'&Hwp'&Hv'). simpl.
  rewrite Hp in Hwp'.
  destruct (decide (rc = 0)) as [->|Hrc].
  - destruct (H0 eq_refl) as (Hd&He&Hno). rewrite Hv in Hd, Hno. apply Hok; [done|].
    split_and!; auto; [congruence| |].
    + intros e. unfold db_set. case_decide; [by subst|]. rewrite He by done. apply Hv.
    + intros e. rewrite Hv' by done. apply HP.
  - apply (Hf _ _ (mdb_view w' (Some t))); [done| |].
    + destruct (V d !! k) eqn:Ek, (decide (fl = MDB_NOOVERWRITE)); eauto; right; intros R;
        apply Hrc; pose proof (reliable_put _ R t d k v fl w Hu (Hw eq_refl)) as HR;
        rewrite E in HR; simpl in HR; apply HR; rewrite ?Hv; auto.
    + split_and!; auto; [congruence|]. intros e. rewrite Hv' by done. apply HP.
Qed.

Lemma post_del t d k p P V (Q : Z → W → Prop) w :
  txn_state true w t p P V →
  (∀ w', is_Some (V d !! k) →
         txn_state true w' t p P (db_set d (delete k (V d)) V) → Q 0 w') →
  (∀ w' V', V d !! k = None → txn_state true w' t p P V' → Q MDB_NOTFOUND w') →
  (∀ rc w' V', rc ≠ 0 → rc ≠ MDB_NOTFOUND → faulty → txn_state true w' t p P V' → Q rc w') →
  post (mdb_del t d k) Q w.
Proof.
  intros (Hu&Hp&Hne&Hw&Hwp&Hv&HP) Hok Hnf Hf. apply post_run.
  destruct (mdb_del t d k w) as [rc w'] eqn:E.
  pose proof (law_del _ _ _ _ _ _ E Hu) as (H0&H1&Hu'&Hp'&Hw'&Hwp'&Hv'). simpl.
  rewrite Hp in Hwp'. rewrite Hv in H0, H1.
  assert (txn_state true w' t p P (mdb_view w' (Some t))) as Hst.
  { split_and!; auto; [congruence|]. intros e. rewrite Hv' by done. apply HP. }
  destruct (decide (rc = 0)) as [->|Hrc].
  - destruct (H0 eq_refl) as (Hs&Hd&He). apply Hok; [done|].
    apply (txn_state_ext _ _ _ _ _ _ _ Hst).
    intros e. unfold db_set. case_decide; [by subst|]. rewrite He by done. apply Hv.
  - destruct (decide (rc = MDB_NOTFOUND)) as [->|Hrc']; [by eapply Hnf; eauto|].
    eapply Hf; eauto. intros R. pose proof (reliable_del _ R t d k w Hu (Hw eq_refl)) as HR.
    rewrite E in HR. by destruct HR.
Qed.

Lemma post_commit wr t p P V (Q : Z → W → Prop) w :
  txn_state wr w t p P V →
  (∀ w', env_state w' p V → Q 0 w') →
  (∀ rc w', rc ≠ 0 → faulty → env_state w' p P → Q rc w') →
  post (mdb_txn_commit t) Q w.
Proof.
  intros (Hu&Hp&Hne&Hw&Hwp&Hv&HP) Hok Hf. apply post_run.
  destruct (mdb_txn_commit t w) as [rc w'] eqn:E.
  pose proof (law_commit _ _ _ _ _ E Hu Hp) as (H0&H1&Hwp'&Hu'). simpl.
  destruct (decide (rc = 0)) as [->|Hrc].
  - apply Hok. split_and!; auto. intros d. by rewrite H0.
  - apply Hf; [done| |].
    + intros R. apply Hrc. pose proof (reliable_commit _ R t w Hu) as HR. by rewrite E in HR.
    + split_and!; auto. intros d. by rewrite H1.
Qed.

Lemma post_abort wr t p P V (Q : unit → W → Prop) w :
  txn_state wr w t p P V → (∀ w', env_state w' p P → Q tt w') → post (mdb_txn_abort t) Q w.
Proof.
  intros (Hu&Hp&Hne&Hw&Hwp&Hv&HP) Hok. apply post_run.
  destruct (mdb_txn_abort t w) as [[] w'] eqn:E.
  pose proof (law_abort _ _ _ _ E Hu Hp) as (Hwp'&Hv'&Hu'). simpl.
  apply Hok. split_and!; auto. intros d. by rewrite Hv'.
Qed.

Lemma post_malloc_txn wr n t p P V (Q : bool → W → Prop) w :
  txn_state wr w t p P V →
  (∀ w', txn_state wr w' t p P V → Q true w') →
  (∀ w', n ≤ 0 ∨ faulty → txn_state wr w' t p P V → Q false w') →
  post (malloc n) Q w.
Proof.
  intros (Hu&Hp&Hne&Hw&Hwp&Hv&HP) Hok Hf. apply post_run.
  destruct (malloc n w) as [b w'] eqn:E.
  pose proof (law_malloc _ _ _ _ E) as (Hu'&Hp'&Hw'&Hv'). simpl.
  assert (txn_state wr w' t p P V) as Hst.
  { split_and!; auto; try (intros ?; by rewrite Hv'). congruence. }
  destruct b; [auto|]. apply Hf; [|done].
  destruct (decide (n ≤ 0)); [by left|right]. intros R.
  pose proof (reliable_malloc _ R n w ltac:(lia)) as HR. by rewrite E in HR.
Qed.

Lemma post_malloc_env n p P (Q : bool → W → Prop) w :
  env_state w p P →
  (∀ w', env_state w' p P → Q true w') →
  (∀ w', n ≤ 0 ∨ faulty → env_state w' p P → Q false w') →
  post (malloc n) Q w.
Proof.
  intros (Hu&Hw&HP) Hok Hf. apply post_run.
  destruct (malloc n w) as [b w'] eqn:E.
  pose proof (law_malloc _ _ _ _ E) as (Hu'&Hp'&Hw'&Hv'). simpl.
  assert (env_state w' p P) as Hst.
  { split_and!; auto. intros ?. by rewrite Hv'. }
  destruct b; [auto|]. apply Hf; [|done].
  destruct (decide (n ≤ 0)); [by left|right]. intros R.
  pose proof (reliable_malloc _ R n w ltac:(lia)) as HR. by rewrite E in HR.
Qed.

Lemma post_silent_txn {A : Type} (m : Act W A) wr t p P V (Q : A → W → Prop) w :
  db_silent m → txn_state wr w t p P V →
  (∀ a w', (m w).1 = a → txn_state wr w' t p P V → Q a w') →
  post m Q w.
Proof.
  intros Hm (Hu&Hp&Hne&Hw&Hwp&Hv&HP) Hok. apply post_run.
  destruct (m w) as [a w'] eqn:E. destruct (Hm _ _ _ E) as (Hu'&Hp'&Hw'&Hv'). simpl.
  apply Hok; [done|]. split_and!; auto; try (intros ?; by rewrite Hv'). congruence.
Qed.

Lemma post_silent_env {A : Type} (m : Act W A) p P (Q : A → W → Prop) w :
  db_silent m → env_state w p P → (∀ a w', (m w).1 = a → env_state w' p P → Q a w') → post m Q w.
Proof.
  intros Hm (Hu&Hw&HP) Hok. apply post_run.
  destruct (m w) as [a w'] eqn:E. destruct (Hm _ _ _ E) as (Hu'&Hp'&Hw'&Hv'). simpl.
  apply Hok; [done|]. split_and!; auto. intros ?. by rewrite Hv'.
Qed.
End rules.

Lemma db_set_eq d m V : db_set d m V d = m.
Proof. unfold db_set. by case_decide. Qed.
Lemma db_set_ne d e m V : e ≠ d → db_set d m V e = V e.
Proof. intros. unfold db_set. by case_decide. Qed.
Create Rewrite HintDb db.
#[export] Hint Rewrite db_set_eq : db.
#[export] Hint Rewrite db_set_ne using done : db.

(** [V'] is [V] with the contents of [d] replaced by [m]. *)
Definition db_changed (d : dbi) (m : bytes_map) (V V' : dbs) : Prop :=
  V' d = m ∧ ∀ e, e ≠ d → V' e = V e.

Lemma db_changed_set d m V : db_changed d m V (db_set d m V).
Proof. split; intros; by autorewrite with db. Qed.

Lemma db_changed_trans d m m' V V' V'' :
  db_changed d m V V' → db_changed d m' V' V'' → db_changed d m' V V''.
Proof. intros [_ H] [? H']. split; [done|]. intros e He. by rewrite H', H. Qed.
#[export] Hint Resolve db_changed_set : core.
