(* ===== verification/Txn.v ===== *)
(** * Database transactions

    How the functions of the data service wrap their work in an LMDB
    transaction, and what each way of doing so guarantees. *)

From S2P Require Import Prelude Inet StatusCodes Lmdb.

Section txn.
Context {W : Type} {L : LMDB W}.

(** [mdb_get] into an [MDB_val] that was cleared before the call, which a
    failing call leaves as it is. *)
Definition mdb_get_cleared (txn : MDB_txn) (d : dbi) (k : bytes) : Act W (Z * bytes) :=
  let! '(rc, lval) := mdb_get txn d k in
  ret (rc, if rc =? 0 then lval else []).

(** The exits of a function that begins a transaction of its own under
    [parent]: on success it commits, without looking at the status of the
    commit; on failure it aborts. *)
Definition in_txn {A : Type} (parent : option MDB_txn) (body : MDB_txn → Eff W A) : Eff W A :=
  let! '(rc, txn) := mdb_txn_begin parent 0 in
  if negb (rc =? 0) then throw AGENTD_ERROR_DATASERVICE_MDB_TXN_BEGIN_FAILURE else
  let! r := body txn in
  match r with
  | Ok a => let! _ := mdb_txn_commit txn in ok a
  | Err s => let! _ := mdb_txn_abort txn in throw s
  end.

(** The same for a function that works in the caller's transaction when there
    is one. *)
Definition in_txn_or_parent {A : Type} (parent : option MDB_txn) (body : MDB_txn → Eff W A) : Eff W A :=
  match parent with
  | Some txn => body txn
  | None => in_txn None body
  end.

(** A query: the transaction it begins is read-only and always aborted. *)
Definition in_query_txn {A : Type} (parent : option MDB_txn) (body : MDB_txn → Eff W A) : Eff W A :=
  match parent with
  | Some txn => body txn
  | None =>
      let! '(rc, txn) := mdb_txn_begin None MDB_RDONLY in
      if negb (rc =? 0) then throw AGENTD_ERROR_DATASERVICE_MDB_TXN_BEGIN_FAILURE else
      let! r := body txn in
      let! _ := mdb_txn_abort txn in
      ret r
  end.

End txn.

(** ** What they guarantee *)

Section txn_rules.
Context {W : Type} {L : LMDB W} {LL : LMDB_laws W}.

(** The work of a function inside the transaction [t]: a success leaves a view
    related by [R] to the outputs; a failure is one of [E], or an outside
    fault.  The parent's view stays [P] in every case. *)
Definition txn_outcome {A : Type} (t : MDB_txn) (p : option MDB_txn) (P : dbs)
    (R : A → dbs → Prop) (E : Z → Prop) (r : result A) (w : W) : Prop :=
  ∃ V, txn_state true w t p P V ∧
    match r with Ok a => R a V | Err s => E s ∨ faulty end.

(** The whole function, seen by the parent [p]: all of its work is done, or
    none of it.  The functions ignore the status of the commit, so that after
    an outside fault a success may have stored nothing. *)
Definition outcome {A : Type} (p : option MDB_txn) (P : dbs)
    (R : A → dbs → Prop) (E : Z → Prop) (r : result A) (w : W) : Prop :=
  match r with
  | Ok a => (∃ V, env_state w p V ∧ R a V) ∨ (faulty ∧ env_state w p P)
  | Err s => env_state w p P ∧ (E s ∨ faulty)
  end.

(** A query sees the database as it is and leaves it so. *)
Definition query_outcome {A : Type} (p : option MDB_txn) (P : dbs) (Q : result A → Prop)
    (r : result A) (w : W) : Prop :=
  env_state w p P ∧ (Q r ∨ (faulty ∧ is_ok r = false)).

Lemma post_get_cleared wr t d k p P V (Q : Z * bytes → W → Prop) w :
  txn_state wr w t p P V →
  (∀ v w', V d !! k = Some v → txn_state wr w' t p P V → Q (0, v) w') →
  (∀ w', V d !! k = None → txn_state wr w' t p P V → Q (MDB_NOTFOUND, []) w') →
  (∀ rc w', rc ≠ 0 → rc ≠ MDB_NOTFOUND → faulty → txn_state wr w' t p P V → Q (rc, []) w') →
  post (mdb_get_cleared t d k) Q w.
Proof.
  intros Hst Hok Hnf Hf. unfold mdb_get_cleared. post_step.
  eapply post_get; [done|..]; intros; simplify_eq; post_steps; auto.
  rewrite (proj2 (Z.eqb_neq _ _)) by done. auto.
Qed.

Lemma post_in_txn {A : Type} p P (body : MDB_txn → Eff W A) R E w :
  env_state w p P →
  (∀ t w', txn_state true w' t p P P → post (body t) (txn_outcome t p P R E) w') →
  post (in_txn p body) (outcome p P R E) w.
Proof.
  intros Hst Hbody. unfold in_txn. post_step. eapply post_begin; [done|..].
  - intros rc t w' Hrc Hf Hst'. rewrite (proj2 (Z.eqb_neq _ _)) by done. simpl.
    post_steps. simpl. auto.
  - intros t w' Ht. simpl. post_step. eapply post_mono; [by apply Hbody|].
    intros [a|s] w2 (V&HV&Hr); post_steps.
    + eapply post_commit; [done|..]; intros; post_steps; simpl; eauto.
    + eapply post_abort; [done|..]; intros; post_steps; simpl; eauto.
Qed.

Lemma post_in_query_txn {A : Type} P (body : MDB_txn → Eff W A) Q w :
  env_state w None P →
  (∀ t w', txn_state false w' t None P P →
     post (body t) (λ r w2, txn_state false w2 t None P P ∧ (Q r ∨ (faulty ∧ is_ok r = false))) w') →
  post (in_query_txn None body) (query_outcome None P Q) w.
Proof.
  intros Hst Hbody. unfold in_query_txn. post_step. eapply post_begin; [done|..].
  - intros rc t w' Hrc Hf Hst'. rewrite (proj2 (Z.eqb_neq _ _)) by done. simpl.
    post_steps. split; auto.
  - intros t w' Ht. simpl. post_step. eapply post_mono; [by apply Hbody|].
    intros r w2 (HV&Hr). post_step. eapply post_abort; [done|].
    intros; post_steps. by split.
Qed.

Lemma outcome_mono {A : Type} p (P : dbs) (R R' : A → dbs → Prop) (E E' : Z → Prop) (r : result A) (w : W) :
  outcome p P R E r w → (∀ a V, R a V → R' a V) → (∀ s, E s → E' s) → outcome p P R' E' r w.
Proof. unfold outcome. destruct r; naive_solver. Qed.
End txn_rules.

(** The test of a status that is known not to be 0. *)
Ltac rc_ne :=
  repeat match goal with
  | H : ?rc ≠ ?c |- context [?rc =? ?c] => rewrite (proj2 (Z.eqb_neq rc c) H)
  end; cbn [negb orb andb].

(** The tests of the statuses 0 and [MDB_NOTFOUND]. *)
Ltac rc_known :=
  change (0 =? MDB_NOTFOUND) with false; change (MDB_NOTFOUND =? MDB_NOTFOUND) with true;
  change (MDB_NOTFOUND =? 0) with false; post_cbn.

(** A failure inside a transaction: either an outside fault or a case of [E]. *)
Ltac txn_fail := rc_ne; rc_known; post_steps; eexists; split; [eassumption|]; cbn beta iota; auto.
