(* ===== verification/Records.v ===== *)
(** * Stored records

    The structures of [src/include/agentd/dataservice/data.h] as the bytes the
    data service writes to and reads from its databases.  Each structure has
    accessors and updates at its field offsets (what a C pointer cast and
    [memcpy] do on x86-64: 8-byte alignment, trailing padding), and a record of
    the host-order values with its encoding. *)

From S2P Require Import Prelude Inet.

(** The identifiers that mark the two ends of the linked lists. *)
Definition zero_uuid : bytes := memset Byte.x00 16.
Definition ff_uuid : bytes := memset Byte.xff 16.

Definition is_uuid (b : bytes) : Prop := length b = 16%nat.

Lemma zero_uuid_ne_ff : zero_uuid ≠ ff_uuid.
Proof. apply (bool_decide_unpack _). by vm_compute. Qed.

(** ** [data_transaction_node_state_t] *)

Definition DATASERVICE_TRANSACTION_NODE_STATE_UNKNOWN : Z := 0x00000000.
Definition DATASERVICE_TRANSACTION_NODE_STATE_SUBMITTED : Z := 0x00000001.
Definition DATASERVICE_TRANSACTION_NODE_STATE_ATTESTED : Z := 0x00000002.
Definition DATASERVICE_TRANSACTION_NODE_STATE_CANONIZED : Z := 0x00000003.
Definition DATASERVICE_TRANSACTION_NODE_STATE_INVALID : Z := 0xFFFFFFFF.

(** ** [data_transaction_node_t] *)

Definition sizeof_txn_node : nat := 96.

Definition txn_node_key (b : bytes) : bytes := sub 0 16 b.
Definition txn_node_prev (b : bytes) : bytes := sub 16 16 b.
Definition txn_node_next (b : bytes) : bytes := sub 32 16 b.
Definition txn_node_artifact_id (b : bytes) : bytes := sub 48 16 b.
Definition txn_node_block_id (b : bytes) : bytes := sub 64 16 b.
Definition txn_node_net_txn_cert_size (b : bytes) : Z := le_dec (sub 80 8 b).
Definition txn_node_net_txn_state (b : bytes) : Z := le_dec (sub 88 4 b).

Definition set_txn_node_key (v b : bytes) : bytes := splice 0 v b.
Definition set_txn_node_prev (v b : bytes) : bytes := splice 16 v b.
Definition set_txn_node_next (v b : bytes) : bytes := splice 32 v b.
Definition set_txn_node_artifact_id (v b : bytes) : bytes := splice 48 v b.
Definition set_txn_node_block_id (v b : bytes) : bytes := splice 64 v b.
Definition set_txn_node_net_txn_cert_size (v : Z) (b : bytes) : bytes := splice 80 (le_enc 8 v) b.
Definition set_txn_node_net_txn_state (v : Z) (b : bytes) : bytes := splice 88 (le_enc 4 v) b.

Record data_transaction_node := TxnNode {
  tn_key : bytes; tn_prev : bytes; tn_next : bytes; tn_artifact_id : bytes; tn_block_id : bytes;
  tn_cert_size : Z; tn_state : Z }.

Definition enc_txn_node (n : data_transaction_node) : bytes :=
  tn_key n ++ tn_prev n ++ tn_next n ++ tn_artifact_id n ++ tn_block_id n ++
  be_enc 8 (tn_cert_size n) ++ be_enc 4 (tn_state n) ++ memset Byte.x00 4.

Definition dec_txn_node (b : bytes) : data_transaction_node :=
  TxnNode (txn_node_key b) (txn_node_prev b) (txn_node_next b) (txn_node_artifact_id b)
    (txn_node_block_id b) (ntohll (txn_node_net_txn_cert_size b)) (ntohl (txn_node_net_txn_state b)).

Record wf_txn_node (n : data_transaction_node) : Prop := {
  wf_tn_key : is_uuid (tn_key n); wf_tn_prev : is_uuid (tn_prev n); wf_tn_next : is_uuid (tn_next n);
  wf_tn_artifact_id : is_uuid (tn_artifact_id n); wf_tn_block_id : is_uuid (tn_block_id n);
  wf_tn_cert_size : 0 ≤ tn_cert_size n < 2 ^ 64; wf_tn_state : 0 ≤ tn_state n < 2 ^ 32 }.

(** ** [data_artifact_record_t] *)

Definition sizeof_artifact : nat := 72.

Definition artifact_key (b : bytes) : bytes := sub 0 16 b.
Definition artifact_txn_first (b : bytes) : bytes := sub 16 16 b.
Definition artifact_txn_latest (b : bytes) : bytes := sub 32 16 b.
Definition artifact_net_height_first (b : bytes) : Z := le_dec (sub 48 8 b).
Definition artifact_net_height_latest (b : bytes) : Z := le_dec (sub 56 8 b).
Definition artifact_net_state_latest (b : bytes) : Z := le_dec (sub 64 4 b).

Definition set_artifact_key (v b : bytes) : bytes := splice 0 v b.
Definition set_artifact_txn_first (v b : bytes) : bytes := splice 16 v b.
Definition set_artifact_txn_latest (v b : bytes) : bytes := splice 32 v b.
Definition set_artifact_net_height_first (v : Z) (b : bytes) : bytes := splice 48 (le_enc 8 v) b.
Definition set_artifact_net_height_latest (v : Z) (b : bytes) : bytes := splice 56 (le_enc 8 v) b.
Definition set_artifact_net_state_latest (v : Z) (b : bytes) : bytes := splice 64 (le_enc 4 v) b.

Record data_artifact_record := ArtifactRecord {
  ar_key : bytes; ar_txn_first : bytes; ar_txn_latest : bytes;
  ar_height_first : Z; ar_height_latest : Z; ar_state_latest : Z }.

Definition enc_artifact (a : data_artifact_record) : bytes :=
  ar_key a ++ ar_txn_first a ++ ar_txn_latest a ++ be_enc 8 (ar_height_first a) ++
  be_enc 8 (ar_height_latest a) ++ be_enc 4 (ar_state_latest a) ++ memset Byte.x00 4.

Definition dec_artifact (b : bytes) : data_artifact_record :=
  ArtifactRecord (artifact_key b) (artifact_txn_first b) (artifact_txn_latest b)
    (ntohll (artifact_net_height_first b)) (ntohll (artifact_net_height_latest b))
    (ntohl (artifact_net_state_latest b)).

Record wf_artifact (a : data_artifact_record) : Prop := {
  wf_ar_key : is_uuid (ar_key a); wf_ar_txn_first : is_uuid (ar_txn_first a);
  wf_ar_txn_latest : is_uuid (ar_txn_latest a);
  wf_ar_height_first : 0 ≤ ar_height_first a < 2 ^ 64;
  wf_ar_height_latest : 0 ≤ ar_height_latest a < 2 ^ 64;
  wf_ar_state_latest : 0 ≤ ar_state_latest a < 2 ^ 32 }.

(** ** [data_block_node_t] *)

Definition sizeof_block_node : nat := 80.

Definition block_node_key (b : bytes) : bytes := sub 0 16 b.
Definition block_node_prev (b : bytes) : bytes := sub 16 16 b.
Definition block_node_next (b : bytes) : bytes := sub 32 16 b.
Definition block_node_first_transaction_id (b : bytes) : bytes := sub 48 16 b.
Definition block_node_net_block_height (b : bytes) : Z := le_dec (sub 64 8 b).
Definition block_node_net_block_cert_size (b : bytes) : Z := le_dec (sub 72 8 b).

Definition set_block_node_key (v b : bytes) : bytes := splice 0 v b.
Definition set_block_node_prev (v b : bytes) : bytes := splice 16 v b.
Definition set_block_node_next (v b : bytes) : bytes := splice 32 v b.
Definition set_block_node_first_transaction_id (v b : bytes) : bytes := splice 48 v b.
Definition set_block_node_net_block_height (v : Z) (b : bytes) : bytes := splice 64 (le_enc 8 v) b.
Definition set_block_node_net_block_cert_size (v : Z) (b : bytes) : bytes := splice 72 (le_enc 8 v) b.

Record data_block_node := BlockNode {
  bn_key : bytes; bn_prev : bytes; bn_next : bytes; bn_first_transaction_id : bytes;
  bn_height : Z; bn_cert_size : Z }.

Definition enc_block_node (n : data_block_node) : bytes :=
  bn_key n ++ bn_prev n ++ bn_next n ++ bn_first_transaction_id n ++
  be_enc 8 (bn_height n) ++ be_enc 8 (bn_cert_size n).

Definition dec_block_node (b : bytes) : data_block_node :=
  BlockNode (block_node_key b) (block_node_prev b) (block_node_next b)
    (block_node_first_transaction_id b) (ntohll (block_node_net_block_height b))
    (ntohll (block_node_net_block_cert_size b)).

Record wf_block_node (n : data_block_node) : Prop := {
  wf_bn_key : is_uuid (bn_key n); wf_bn_prev : is_uuid (bn_prev n); wf_bn_next : is_uuid (bn_next n);
  wf_bn_first_transaction_id : is_uuid (bn_first_transaction_id n);
  wf_bn_height : 0 ≤ bn_height n < 2 ^ 64; wf_bn_cert_size : 0 ≤ bn_cert_size n < 2 ^ 64 }.

(** ** Reading and writing fields of encoded records *)

(** The length of one field of a concatenation. *)
Ltac flen := solve [ eassumption | apply length_be_enc | apply length_le_enc | apply length_memset ].

(** Normalise reads and writes at constant offsets of a concatenation of
    fields whose lengths are known. *)
Ltac fields :=
  repeat match goal with
  | |- context [sub 0 ?len (?a ++ ?b)] => rewrite (sub_head len a b) by flen
  | |- context [sub ?off ?len (?a ++ ?b)] =>
      erewrite (sub_skip off _ len a b); [|flen|lia]; cbn [Nat.sub]
  | |- context [splice 0 ?v (?a ++ ?b)] =>
      rewrite (splice_head v a b) by
        first [transitivity 16%nat; [flen|symmetry; flen]|transitivity 8%nat; [flen|symmetry; flen]
              |transitivity 4%nat; [flen|symmetry; flen]]
  | |- context [splice ?off ?v (?a ++ ?b)] =>
      erewrite (splice_skip off _ v a b); [|flen|lia]; cbn [Nat.sub]
  end.

Section txn_node.
Implicit Types n : data_transaction_node.

Lemma length_enc_txn_node n : wf_txn_node n → length (enc_txn_node n) = sizeof_txn_node.
Proof.
  destruct n; intros []; unfold enc_txn_node, is_uuid in *; simpl in *.
  rewrite !length_app, !length_be_enc, length_memset. unfold sizeof_txn_node. lia.
Qed.

Local Ltac start :=
  unfold enc_txn_node, txn_node_key, txn_node_prev, txn_node_next, txn_node_artifact_id,
    txn_node_block_id, txn_node_net_txn_cert_size, txn_node_net_txn_state, set_txn_node_key,
    set_txn_node_prev, set_txn_node_next, set_txn_node_artifact_id, set_txn_node_block_id,
    set_txn_node_net_txn_cert_size, set_txn_node_net_txn_state, is_uuid in *;
  simpl in *; rewrite <- ?app_assoc.

Lemma txn_node_fields n rest :
  wf_txn_node n →
  txn_node_key (enc_txn_node n ++ rest) = tn_key n ∧
  txn_node_prev (enc_txn_node n ++ rest) = tn_prev n ∧
  txn_node_next (enc_txn_node n ++ rest) = tn_next n ∧
  txn_node_artifact_id (enc_txn_node n ++ rest) = tn_artifact_id n ∧
  txn_node_block_id (enc_txn_node n ++ rest) = tn_block_id n ∧
  ntohll (txn_node_net_txn_cert_size (enc_txn_node n ++ rest)) = tn_cert_size n ∧
  ntohl (txn_node_net_txn_state (enc_txn_node n ++ rest)) = tn_state n.
Proof.
  destruct n; intros []; start. split_and!; fields; try done.
  - rewrite ntohll_le_dec by flen. by apply be_dec_enc.
  - rewrite ntohl_le_dec by flen. by apply be_dec_enc.
Qed.

Lemma dec_enc_txn_node n rest : wf_txn_node n → dec_txn_node (enc_txn_node n ++ rest) = n.
Proof.
  intros Hn. pose proof (txn_node_fields n rest Hn) as (?&?&?&?&?&?&?).
  destruct n; unfold dec_txn_node; simpl in *. congruence.
Qed.

Lemma txn_node_set_prev n v rest :
  wf_txn_node n → is_uuid v →
  set_txn_node_prev v (enc_txn_node n ++ rest)
  = enc_txn_node (TxnNode (tn_key n) v (tn_next n) (tn_artifact_id n) (tn_block_id n)
                    (tn_cert_size n) (tn_state n)) ++ rest.
Proof. destruct n; intros [] ?; start. by fields. Qed.

Lemma txn_node_set_next n v rest :
  wf_txn_node n → is_uuid v →
  set_txn_node_next v (enc_txn_node n ++ rest)
  = enc_txn_node (TxnNode (tn_key n) (tn_prev n) v (tn_artifact_id n) (tn_block_id n)
                    (tn_cert_size n) (tn_state n)) ++ rest.
Proof. destruct n; intros [] ?; start. by fields. Qed.

Lemma txn_node_set_state n v rest :
  wf_txn_node n →
  set_txn_node_net_txn_state (htonl v) (enc_txn_node n ++ rest)
  = enc_txn_node (TxnNode (tn_key n) (tn_prev n) (tn_next n) (tn_artifact_id n) (tn_block_id n)
                    (tn_cert_size n) v) ++ rest.
Proof. destruct n; intros []; start. rewrite le_enc_htonl. by fields. Qed.

Lemma txn_node_set_key n v rest :
  wf_txn_node n → is_uuid v →
  set_txn_node_key v (enc_txn_node n ++ rest)
  = enc_txn_node (TxnNode v (tn_prev n) (tn_next n) (tn_artifact_id n) (tn_block_id n)
                    (tn_cert_size n) (tn_state n)) ++ rest.
Proof. destruct n; intros [] ?; start. by fields. Qed.

Lemma txn_node_set_artifact_id n v rest :
  wf_txn_node n → is_uuid v →
  set_txn_node_artifact_id v (enc_txn_node n ++ rest)
  = enc_txn_node (TxnNode (tn_key n) (tn_prev n) (tn_next n) v (tn_block_id n)
                    (tn_cert_size n) (tn_state n)) ++ rest.
Proof. destruct n; intros [] ?; start. by fields. Qed.

Lemma txn_node_set_block_id n v rest :
  wf_txn_node n → is_uuid v →
  set_txn_node_block_id v (enc_txn_node n ++ rest)
  = enc_txn_node (TxnNode (tn_key n) (tn_prev n) (tn_next n) (tn_artifact_id n) v
                    (tn_cert_size n) (tn_state n)) ++ rest.
Proof. destruct n; intros [] ?; start. by fields. Qed.

Lemma txn_node_set_cert_size n v rest :
  wf_txn_node n →
  set_txn_node_net_txn_cert_size (htonll v) (enc_txn_node n ++ rest)
  = enc_txn_node (TxnNode (tn_key n) (tn_prev n) (tn_next n) (tn_artifact_id n) (tn_block_id n)
                    v (tn_state n)) ++ rest.
Proof. destruct n; intros []; start. rewrite le_enc_htonll. by fields. Qed.

(** A zeroed structure followed by [rest] is the encoding of the zero node. *)
Lemma txn_node_zero rest :
  memset Byte.x00 sizeof_txn_node ++ rest
  = enc_txn_node (TxnNode zero_uuid zero_uuid zero_uuid zero_uuid zero_uuid 0 0) ++ rest.
Proof. f_equal; by vm_compute. Qed.

Lemma wf_zero_txn_node : wf_txn_node (TxnNode zero_uuid zero_uuid zero_uuid zero_uuid zero_uuid 0 0).
Proof. constructor; simpl; [apply length_memset..|lia|lia]. Qed.
End txn_node.

Section block_node.
Implicit Types n : data_block_node.

Lemma length_enc_block_node n : wf_block_node n → length (enc_block_node n) = sizeof_block_node.
Proof.
  destruct n; intros []; unfold enc_block_node, is_uuid in *; simpl in *.
  rewrite !length_app, !length_be_enc. unfold sizeof_block_node. lia.
Qed.

Local Ltac start :=
  unfold enc_block_node, block_node_key, block_node_prev, block_node_next,
    block_node_first_transaction_id, block_node_net_block_height, block_node_net_block_cert_size,
    set_block_node_key, set_block_node_prev, set_block_node_next,
    set_block_node_first_transaction_id, set_block_node_net_block_height,
    set_block_node_net_block_cert_size, is_uuid in *;
  simpl in *; rewrite <- ?app_assoc.

Lemma block_node_fields n rest :
  wf_block_node n →
  block_node_key (enc_block_node n ++ rest) = bn_key n ∧
  block_node_prev (enc_block_node n ++ rest) = bn_prev n ∧
  block_node_next (enc_block_node n ++ rest) = bn_next n ∧
  block_node_first_transaction_id (enc_block_node n ++ rest) = bn_first_transaction_id n ∧
  ntohll (block_node_net_block_height (enc_block_node n ++ rest)) = bn_height n ∧
  ntohll (block_node_net_block_cert_size (enc_block_node n ++ rest)) = bn_cert_size n.
Proof.
  destruct n; intros []; start. split_and!; fields; try done.
  - rewrite ntohll_le_dec by flen. by apply be_dec_enc.
  - rewrite ntohll_le_dec by flen. by apply be_dec_enc.
Qed.

(** The bytes of the height field, used as a key. *)
Lemma block_node_height_bytes n rest :
  wf_block_node n →
  le_enc 8 (block_node_net_block_height (enc_block_node n ++ rest)) = be_enc 8 (bn_height n).
Proof.
  destruct n; intros []; start. fields.
  pose proof (length_be_enc 8 bn_height0) as Hl. rewrite <- Hl at 1. apply le_enc_dec.
Qed.

Lemma dec_enc_block_node n rest : wf_block_node n → dec_block_node (enc_block_node n ++ rest) = n.
Proof.
  intros Hn. pose proof (block_node_fields n rest Hn) as (?&?&?&?&?&?).
  destruct n; unfold dec_block_node; simpl in *. congruence.
Qed.

Lemma block_node_set_next n v rest :
  wf_block_node n → is_uuid v →
  set_block_node_next v (enc_block_node n ++ rest)
  = enc_block_node (BlockNode (bn_key n) (bn_prev n) v (bn_first_transaction_id n)
                      (bn_height n) (bn_cert_size n)) ++ rest.
Proof. destruct n; intros [] ?; start. by fields. Qed.

Lemma block_node_set_prev n v rest :
  wf_block_node n → is_uuid v →
  set_block_node_prev v (enc_block_node n ++ rest)
  = enc_block_node (BlockNode (bn_key n) v (bn_next n) (bn_first_transaction_id n)
                      (bn_height n) (bn_cert_size n)) ++ rest.
Proof. destruct n; intros [] ?; start. by fields. Qed.

Lemma block_node_set_height n v rest :
  wf_block_node n →
  set_block_node_net_block_height (htonll v) (enc_block_node n ++ rest)
  = enc_block_node (BlockNode (bn_key n) (bn_prev n) (bn_next n) (bn_first_transaction_id n)
                      v (bn_cert_size n)) ++ rest.
Proof. destruct n; intros []; start. rewrite le_enc_htonll. by fields. Qed.

Lemma block_node_set_key n v rest :
  wf_block_node n → is_uuid v →
  set_block_node_key v (enc_block_node n ++ rest)
  = enc_block_node (BlockNode v (bn_prev n) (bn_next n) (bn_first_transaction_id n)
                      (bn_height n) (bn_cert_size n)) ++ rest.
Proof. destruct n; intros [] ?; start. by fields. Qed.

Lemma block_node_set_first_transaction_id n v rest :
  wf_block_node n → is_uuid v →
  set_block_node_first_transaction_id v (enc_block_node n ++ rest)
  = enc_block_node (BlockNode (bn_key n) (bn_prev n) (bn_next n) v
                      (bn_height n) (bn_cert_size n)) ++ rest.
Proof. destruct n; intros [] ?; start. by fields. Qed.

Lemma block_node_set_cert_size n v rest :
  wf_block_node n →
  set_block_node_net_block_cert_size (htonll v) (enc_block_node n ++ rest)
  = enc_block_node (BlockNode (bn_key n) (bn_prev n) (bn_next n) (bn_first_transaction_id n)
                      (bn_height n) v) ++ rest.
Proof.
  destruct n; intros []; start. rewrite le_enc_htonll. by fields.
Qed.

Lemma block_node_zero rest :
  memset Byte.x00 sizeof_block_node ++ rest
  = enc_block_node (BlockNode zero_uuid zero_uuid zero_uuid zero_uuid 0 0) ++ rest.
Proof. f_equal; by vm_compute. Qed.

Lemma wf_zero_block_node : wf_block_node (BlockNode zero_uuid zero_uuid zero_uuid zero_uuid 0 0).
Proof. constructor; simpl; [apply length_memset..|lia|lia]. Qed.
End block_node.

Section artifact.
Implicit Types a : data_artifact_record.

Lemma length_enc_artifact a : wf_artifact a → length (enc_artifact a) = sizeof_artifact.
Proof.
  destruct a; intros []; unfold enc_artifact, is_uuid in *; simpl in *.
  rewrite !length_app, !length_be_enc, length_memset. unfold sizeof_artifact. lia.
Qed.

Local Ltac start :=
  unfold enc_artifact, artifact_key, artifact_txn_first, artifact_txn_latest,
    artifact_net_height_first, artifact_net_height_latest, artifact_net_state_latest,
    set_artifact_key, set_artifact_txn_first, set_artifact_txn_latest,
    set_artifact_net_height_first, set_artifact_net_height_latest,
    set_artifact_net_state_latest, is_uuid in *;
  simpl in *; rewrite <- ?app_assoc.

Lemma dec_enc_artifact a : wf_artifact a → dec_artifact (enc_artifact a) = a.
Proof.
  destruct a; intros []; unfold dec_artifact; start. f_equal; fields; try done.
  - rewrite ntohll_le_dec by flen. by apply be_dec_enc.
  - rewrite ntohll_le_dec by flen. by apply be_dec_enc.
  - rewrite ntohl_le_dec by flen. by apply be_dec_enc.
Qed.

(** The record [dataservice_block_make_update_artifact] builds for a new
    artifact, and the update it makes to an existing one. *)
Lemma artifact_create key txn h s :
  is_uuid key → is_uuid txn →
  set_artifact_net_state_latest (htonl s)
    (set_artifact_net_height_latest (htonll h)
      (set_artifact_net_height_first (htonll h)
        (set_artifact_txn_latest txn
          (set_artifact_txn_first txn
            (set_artifact_key key (memset Byte.x00 sizeof_artifact))))))
  = enc_artifact (ArtifactRecord key txn txn h h s).
Proof.
  intros Hk Ht.
  change (memset Byte.x00 sizeof_artifact) with
    (enc_artifact (ArtifactRecord zero_uuid zero_uuid zero_uuid 0 0 0)).
  assert (length zero_uuid = 16%nat) by apply length_memset.
  start. rewrite le_enc_htonl, le_enc_htonll. by fields.
Qed.

Lemma artifact_update a txn h s :
  wf_artifact a → is_uuid txn →
  set_artifact_net_state_latest (htonl s)
    (set_artifact_net_height_latest (htonll h) (set_artifact_txn_latest txn (enc_artifact a)))
  = enc_artifact (ArtifactRecord (ar_key a) (ar_txn_first a) txn (ar_height_first a) h s).
Proof. destruct a; intros [] ?; start. rewrite le_enc_htonl, le_enc_htonll. by fields. Qed.

Lemma artifact_key_enc a : wf_artifact a → artifact_key (enc_artifact a) = ar_key a.
Proof. destruct a; intros []; start. by fields. Qed.
End artifact.
