(* ===== verification/Vccert.v ===== *)
(** * The certificate parser interface

    Blocks and transactions are Velo certificates, parsed by the vccert library,
    which is not part of the repository.  [VCCERT W] is the part of its API the
    data service calls.  A parser is a value: [vccert_parser_find_short] finds
    the first field of a type and leaves the parser at it,
    [vccert_parser_find_next] goes on to the next field of the same type. *)

From S2P Require Import Prelude Inet Lmdb Records.

(** The field types the program looks for or writes, and the one that signing adds. *)
Inductive cert_field : Set :=
  | VCCERT_FIELD_TYPE_BLOCK_HEIGHT
  | VCCERT_FIELD_TYPE_PREVIOUS_BLOCK_UUID
  | VCCERT_FIELD_TYPE_BLOCK_UUID
  | VCCERT_FIELD_TYPE_WRAPPED_TRANSACTION_TUPLE
  | VCCERT_FIELD_TYPE_CERTIFICATE_ID
  | VCCERT_FIELD_TYPE_PREVIOUS_CERTIFICATE_ID
  | VCCERT_FIELD_TYPE_ARTIFACT_ID
  | VCCERT_FIELD_TYPE_NEW_ARTIFACT_STATE
  | VCCERT_FIELD_TYPE_CERTIFICATE_VERSION
  | VCCERT_FIELD_TYPE_CERTIFICATE_VALID_FROM
  | VCCERT_FIELD_TYPE_CERTIFICATE_CRYPTO_SUITE
  | VCCERT_FIELD_TYPE_CERTIFICATE_TYPE
  | VCCERT_FIELD_TYPE_PREVIOUS_BLOCK_HASH
  | VCCERT_FIELD_TYPE_SIGNATURE
  | VCCERT_FIELD_TYPE_SIGNER_ID.

#[global] Instance cert_field_eq_dec : EqDecision cert_field.
Proof. solve_decision. Defined.

Class VCCERT (W : Type) := {
  (** [vccrypt_suite_options_init], [vccert_parser_options_simple_init] and
      [vccert_parser_init] allocate; true is success. *)
  vccrypt_suite_options_init : Act W bool;
  vccert_parser_options_simple_init : Act W bool;
  vccert_parser : Type;
  vccert_parser_init : bytes → Act W bool;
  (** The parser that a successful [vccert_parser_init] sets up. *)
  vccert_parser_of : bytes → vccert_parser;
  vccert_parser_find_short : vccert_parser → cert_field → option bytes * vccert_parser;
  vccert_parser_find_next : vccert_parser → option bytes * vccert_parser;
  vccert_certificate_type_uuid_root_block : bytes;
}.

(** Parsing does not touch the database; a search looks through the whole
    certificate, a found field lies inside it, going on to the next field of a
    finite certificate comes to an end, and the root block identifier is a
    proper identifier. *)
Class VCCERT_laws (W : Type) `{LL : LMDB_laws W} `{VC : VCCERT W} := {
  law_suite_init : db_silent vccrypt_suite_options_init;
  law_options_init : db_silent vccert_parser_options_simple_init;
  law_parser_init : ∀ b, db_silent (vccert_parser_init b);
  vccert_parser_remaining : vccert_parser → nat;
  vccert_parser_cert : vccert_parser → bytes;
  law_parser_of : ∀ b, vccert_parser_cert (vccert_parser_of b) = b;
  law_find_short_any : ∀ p f,
    vccert_parser_find_short p f
    = vccert_parser_find_short (vccert_parser_of (vccert_parser_cert p)) f;
  law_find_short : ∀ p f x p', vccert_parser_find_short p f = (x, p') →
    vccert_parser_cert p' = vccert_parser_cert p ∧
    (∀ v, x = Some v → (length v ≤ length (vccert_parser_cert p))%nat);
  law_find_next : ∀ p x p', vccert_parser_find_next p = (Some x, p') →
    vccert_parser_cert p' = vccert_parser_cert p ∧
    (length x ≤ length (vccert_parser_cert p))%nat ∧
    (vccert_parser_remaining p' < vccert_parser_remaining p)%nat;
  law_remaining : ∀ p, (vccert_parser_remaining p ≤ length (vccert_parser_cert p))%nat;
  law_root_block : is_uuid vccert_certificate_type_uuid_root_block ∧
    vccert_certificate_type_uuid_root_block ≠ zero_uuid ∧
    vccert_certificate_type_uuid_root_block ≠ ff_uuid;
}.

(** No initialisation fails. *)
Record VCCERT_reliable (W : Type) `{VC : VCCERT W} : Prop := {
  reliable_suite_init : ∀ w, (vccrypt_suite_options_init w).1 = true;
  reliable_options_init : ∀ w, (vccert_parser_options_simple_init w).1 = true;
  reliable_parser_init : ∀ b w, (vccert_parser_init b w).1 = true;
}.

Definition vc_faulty {W : Type} `{VC : VCCERT W} : Prop := VCCERT_reliable W → False.
