(* ===== verification/Sim.v ===== *)
(** * A concrete platform

    An in-memory instance of the [LMDB] interface, used to evaluate the model
    and to show that its hypotheses hold together.  The environment is a
    function from databases to finite maps; open transactions form a stack of
    snapshots, innermost first, and a handle is its depth.  [faults] chooses
    which calls fail.  A format of certificates follows. *)

From S2P Require Import Prelude Inet Lmdb Records Vccert.

Record sim_faults := {
  f_begin : bool; f_get : bool; f_put : bool; f_del : bool; f_commit : bool; f_malloc : bool }.

Definition no_faults : sim_faults := Build_sim_faults false false false false false false.

Record sim_world := { sim_base : dbs; sim_stack : list dbs }.

Definition sim_empty : sim_world := {| sim_base := λ _, ∅; sim_stack := [] |}.

Definition sim_depth (p : option nat) : nat := default 0%nat p.

Definition sim_top (w : sim_world) : dbs := default (sim_base w) (head (sim_stack w)).

(** The view of the transaction at depth [n], or the environment for 0. *)
Definition sim_at (w : sim_world) (n : nat) : dbs :=
  if (n =? 0)%nat || (length (sim_stack w) <? n)%nat then sim_base w
  else default (sim_base w) (sim_stack w !! (length (sim_stack w) - n)%nat).

Definition sim_set_top (V : dbs) (w : sim_world) : sim_world :=
  match sim_stack w with
  | [] => {| sim_base := V; sim_stack := [] |}
  | _ :: r => {| sim_base := sim_base w; sim_stack := V :: r |}
  end.

Definition sim_pop (w : sim_world) : sim_world :=
  {| sim_base := sim_base w; sim_stack := tail (sim_stack w) |}.

Section sim.
Variable F : sim_faults.

Definition sim_begin (p : option nat) (fl : Z) : Act sim_world (Z * nat) := λ w,
  if f_begin F || negb (sim_depth p =? length (sim_stack w))%nat then ((-1, 0%nat), w)
  else ((0, S (length (sim_stack w))),
        {| sim_base := sim_base w; sim_stack := sim_top w :: sim_stack w |}).

Definition sim_is_top (t : nat) (w : sim_world) : bool :=
  (t =? length (sim_stack w))%nat && negb (t =? 0)%nat.

Definition sim_commit (t : nat) : Act sim_world Z := λ w,
  if negb (sim_is_top t w) then (-1, w)
  else if f_commit F then (-1, sim_pop w)
  else (0, sim_set_top (sim_top w) (sim_pop w)).

Definition sim_abort (t : nat) : Act sim_world unit := λ w,
  if negb (sim_is_top t w) then (tt, w) else (tt, sim_pop w).

Definition sim_get (t : nat) (d : dbi) (k : bytes) : Act sim_world (Z * bytes) := λ w,
  if f_get F || negb (sim_is_top t w) then ((-1, []), w)
  else match sim_top w d !! k with
       | Some v => ((0, v), w)
       | None => ((MDB_NOTFOUND, []), w)
       end.

Definition sim_put (t : nat) (d : dbi) (k v : bytes) (fl : Z) : Act sim_world Z := λ w,
  if f_put F || negb (sim_is_top t w) then (-1, w)
  else if (fl =? MDB_NOOVERWRITE) && bool_decide (is_Some (sim_top w d !! k)) then (-1, w)
  else (0, sim_set_top (db_set d (<[k := v]> (sim_top w d)) (sim_top w)) w).

Definition sim_del (t : nat) (d : dbi) (k : bytes) : Act sim_world Z := λ w,
  if f_del F || negb (sim_is_top t w) then (-1, w)
  else match sim_top w d !! k with
       | Some _ => (0, sim_set_top (db_set d (delete k (sim_top w d)) (sim_top w)) w)
       | None => (MDB_NOTFOUND, w)
       end.

Definition sim_malloc (n : Z) : Act sim_world bool := λ w, (negb (f_malloc F), w).

Instance sim_lmdb : LMDB sim_world := {|
  MDB_txn := nat;
  mdb_txn_begin := sim_begin; mdb_txn_commit := sim_commit; mdb_txn_abort := sim_abort;
  mdb_get := sim_get; mdb_put := sim_put; mdb_del := sim_del;
  mdb_malloc := {| malloc := sim_malloc |} |}.

Definition sim_usable (w : sim_world) (p : option nat) : Prop :=
  match p with None => sim_stack w = [] | Some t => sim_is_top t w = true end.

Definition sim_parent (w : sim_world) (t : nat) : option nat :=
  match t with S (S n) => Some (S n) | _ => None end.

Definition sim_view (w : sim_world) (p : option nat) : dbs := sim_at w (sim_depth p).

Lemma sim_at_0 w : sim_at w 0 = sim_base w.
Proof. done. Qed.

Lemma sim_at_top b V r : sim_at {| sim_base := b; sim_stack := V :: r |} (S (length r)) = V.
Proof. unfold sim_at. simpl. by rewrite Nat.ltb_irrefl, Nat.sub_diag. Qed.

(** Below the top of the stack a view does not depend on the top. *)
Lemma sim_at_below b V V' r n :
  n ≠ S (length r) →
  sim_at {| sim_base := b; sim_stack := V :: r |} n
  = sim_at {| sim_base := b; sim_stack := V' :: r |} n.
Proof.
  intros Hn. unfold sim_at. simpl.
  destruct (n =? 0)%nat eqn:E0; [done|].
  destruct (S (length r) <? n)%nat eqn:E; [done|]. simpl.
  apply Nat.ltb_ge in E. apply Nat.eqb_neq in E0.
  destruct (S (length r) - n)%nat eqn:Es; [lia|done].
Qed.

Lemma sim_at_push b V r n :
  (n ≤ length r)%nat →
  sim_at {| sim_base := b; sim_stack := V :: r |} n = sim_at {| sim_base := b; sim_stack := r |} n.
Proof.
  intros Hn. unfold sim_at. simpl.
  destruct (n =? 0)%nat eqn:E0; [done|]. apply Nat.eqb_neq in E0.
  destruct (S (length r) <? n)%nat eqn:E1; [apply Nat.ltb_lt in E1; lia|].
  destruct (length r <? n)%nat eqn:E2; [apply Nat.ltb_lt in E2; lia|]. simpl.
  by replace (S (length r) - n)%nat with (S (length r - n)) by lia.
Qed.

Lemma sim_usable_top w t :
  sim_usable w (Some t) →
  ∃ b V r, w = {| sim_base := b; sim_stack := V :: r |} ∧ t = S (length r).
Proof.
  simpl. unfold sim_is_top. rewrite andb_true_iff, negb_true_iff, Nat.eqb_eq, Nat.eqb_neq.
  destruct w as [b [|V r]]; simpl; intros [Ht Hn]; [done|]. eauto.
Qed.

Lemma sim_usable_cons b V r : sim_usable {| sim_base := b; sim_stack := V :: r |} (Some (S (length r))).
Proof. unfold sim_usable, sim_is_top. simpl. by rewrite Nat.eqb_refl. Qed.

Lemma sim_usable_parent b r w0 : sim_usable {| sim_base := b; sim_stack := r |} (sim_parent w0 (S (length r))).
Proof. destruct r; [done|]. apply sim_usable_cons. Qed.

Lemma sim_parent_depth w n : sim_depth (sim_parent w (S n)) = n.
Proof. by destruct n. Qed.

Lemma sim_view_ne b V V' r q :
  q ≠ Some (S (length r)) →
  sim_view {| sim_base := b; sim_stack := V :: r |} q = sim_view {| sim_base := b; sim_stack := V' :: r |} q.
Proof. intros Hq. apply sim_at_below. destruct q; simpl; [congruence|lia]. Qed.

Lemma sim_is_top_cons b V r :
  sim_is_top (S (length r)) {| sim_base := b; sim_stack := V :: r |} = true.
Proof. apply sim_usable_cons. Qed.

Lemma sim_law_begin p fl w rc t w' :
  sim_begin p fl w = ((rc, t), w') → sim_usable w p →
  (rc = 0 → sim_usable w' (Some t) ∧ sim_parent w' t = p ∧ p ≠ Some t ∧
            ∀ d, sim_view w' (Some t) d = sim_view w p d) ∧
  (rc ≠ 0 → sim_usable w' p) ∧
  ∀ d, sim_view w' p d = sim_view w p d.
Proof.
  intros E Hu. unfold sim_begin in E.
  assert (sim_depth p = length (sim_stack w)) as Hd.
  { destruct p as [t0|]; [|simpl in Hu; by rewrite Hu].
    apply sim_usable_top in Hu as (?&?&?&->&->). done. }
  rewrite Hd, Nat.eqb_refl in E. destruct (f_begin F); simpl in E; injection E as <- <- <-.
  { by split_and!. }
  destruct w as [b r]. split_and!; [|done|].
  - intros _. split_and!.
    + apply sim_usable_cons.
    + destruct p as [t0|]; [|destruct r; done].
      apply sim_usable_top in Hu as (?&V&r'&[= -> ->]&->). done.
    + destruct p; [|done]. intros [= ->]. simpl in Hd. lia.
    + intros d. unfold sim_view at 1. simpl sim_depth. rewrite sim_at_top.
      unfold sim_view. rewrite Hd. destruct r; [done|]. simpl. by rewrite sim_at_top.
  - intros d. unfold sim_view. rewrite Hd. by rewrite sim_at_push by (simpl; lia).
Qed.

Lemma sim_law_get t d k w rc v w' :
  sim_get t d k w = ((rc, v), w') → sim_usable w (Some t) →
  (rc = 0 → sim_view w (Some t) d !! k = Some v) ∧
  (rc = MDB_NOTFOUND → sim_view w (Some t) d !! k = None) ∧ w' = w.
Proof.
  intros E Hu. apply sim_usable_top in Hu as (b&V&r&->&->).
  unfold sim_get in E. rewrite sim_is_top_cons in E. unfold sim_view. simpl sim_depth.
  rewrite sim_at_top. destruct (f_get F); simpl in E; [by simplify_eq|].
  unfold sim_top in E; simpl in E. by destruct (V d !! k) eqn:Ek; simplify_eq.
Qed.

Lemma sim_law_put t d k v fl w rc w' :
  sim_put t d k v fl w = (rc, w') → sim_usable w (Some t) →
  (rc = 0 →
     sim_view w' (Some t) d = <[k := v]> (sim_view w (Some t) d) ∧
     (∀ e, e ≠ d → sim_view w' (Some t) e = sim_view w (Some t) e) ∧
     (fl = MDB_NOOVERWRITE → sim_view w (Some t) d !! k = None)) ∧
  sim_usable w' (Some t) ∧
  ∀ q e, q ≠ Some t → sim_view w' q e = sim_view w q e.
Proof.
  intros E Hu. apply sim_usable_top in Hu as Hu'. destruct Hu' as (b&V&r&->&->).
  unfold sim_put in E. rewrite sim_is_top_cons in E. unfold sim_view at 1 2 3 4 5. simpl sim_depth.
  rewrite !sim_at_top. destruct (f_put F); simpl in E; [by simplify_eq|].
  unfold sim_top, sim_set_top in E; simpl in E.
  destruct (_ && _) eqn:Eno; simplify_eq; [done|].
  rewrite sim_at_top. split_and!; [|apply sim_usable_cons|].
  - intros _. rewrite db_set_eq. split_and!; [done|intros; by rewrite db_set_ne|].
    intros ->. simpl in Eno. apply bool_decide_eq_false in Eno. by apply eq_None_not_Some.
  - intros q e Hq. by rewrite (sim_view_ne _ _ V).
Qed.

Lemma sim_law_del t d k w rc w' :
  sim_del t d k w = (rc, w') → sim_usable w (Some t) →
  (rc = 0 →
     is_Some (sim_view w (Some t) d !! k) ∧
     sim_view w' (Some t) d = delete k (sim_view w (Some t) d) ∧
     (∀ e, e ≠ d → sim_view w' (Some t) e = sim_view w (Some t) e)) ∧
  (rc = MDB_NOTFOUND → sim_view w (Some t) d !! k = None) ∧
  sim_usable w' (Some t) ∧
  ∀ q e, q ≠ Some t → sim_view w' q e = sim_view w q e.
Proof.
  intros E Hu. apply sim_usable_top in Hu as Hu'. destruct Hu' as (b&V&r&->&->).
  unfold sim_del in E. rewrite sim_is_top_cons in E. unfold sim_view at 1 2 3 4 5 6. simpl sim_depth.
  rewrite !sim_at_top. destruct (f_del F); simpl in E; [by simplify_eq|].
  unfold sim_top, sim_set_top in E; simpl in E.
  destruct (V d !! k) eqn:Ek; simplify_eq; [|done].
  rewrite sim_at_top. split_and!; [|done|apply sim_usable_cons|].
  - intros _. rewrite db_set_eq. split_and!; [eauto|done|intros; by rewrite db_set_ne].
  - intros q e Hq. by rewrite (sim_view_ne _ _ V).
Qed.

Lemma sim_law_commit t w rc w' :
  sim_commit t w = (rc, w') → sim_usable w (Some t) →
  (rc = 0 → ∀ d, sim_view w' (sim_parent w t) d = sim_view w (Some t) d) ∧
  (rc ≠ 0 → ∀ d, sim_view w' (sim_parent w t) d = sim_view w (sim_parent w t) d) ∧
  sim_usable w' (sim_parent w t).
Proof.
  intros E Hu. apply sim_usable_top in Hu as (b&V&r&->&->).
  unfold sim_commit in E. rewrite sim_is_top_cons in E. simpl in E.
  unfold sim_view. rewrite sim_parent_depth. simpl sim_depth. rewrite sim_at_top.
  destruct (f_commit F); simplify_eq; unfold sim_pop, sim_set_top, sim_top; simpl.
  - split_and!; [done| |].
    + intros _ d. by rewrite sim_at_push.
    + apply (sim_usable_parent b r {| sim_base := b; sim_stack := [] |}).
  - split_and!; [|done|]; destruct r; simpl; auto.
    + intros _ d. by rewrite sim_at_top.
    + apply sim_usable_cons.
Qed.

Lemma sim_law_abort t w w' :
  sim_abort t w = (tt, w') → sim_usable w (Some t) →
  (∀ d, sim_view w' (sim_parent w t) d = sim_view w (sim_parent w t) d) ∧
  sim_usable w' (sim_parent w t).
Proof.
  intros E Hu. apply sim_usable_top in Hu as (b&V&r&->&->).
  unfold sim_abort in E. rewrite sim_is_top_cons in E. simpl in E.
  unfold sim_view. rewrite sim_parent_depth. simplify_eq. unfold sim_pop; simpl. split.
  - intros d. by rewrite sim_at_push.
  - apply (sim_usable_parent b r {| sim_base := b; sim_stack := [] |}).
Qed.

#[refine] Instance sim_laws : LMDB_laws sim_world := {|
  mdb_view := sim_view; mdb_usable := sim_usable; mdb_parent := sim_parent;
  mdb_writable := λ _ _, True |}.
Proof.
  - intros p fl w rc t w' E Hu. destruct (sim_law_begin _ _ _ _ _ _ E Hu) as (H0&H1&H2).
    split_and!; auto. intros Hrc. destruct (H0 Hrc) as (?&?&?&?). by split_and!.
  - intros t d k w rc v w' E Hu. destruct (sim_law_get _ _ _ _ _ _ _ E Hu) as (H0&H1&->).
    by split_and!.
  - intros t d k v fl w rc w' E Hu. destruct (sim_law_put _ _ _ _ _ _ _ _ E Hu) as (H0&H1&H2).
    by split_and!.
  - intros t d k w rc w' E Hu. destruct (sim_law_del _ _ _ _ _ _ E Hu) as (H0&H1&H2&H3).
    by split_and!.
  - intros t w rc w' p E Hu <-. destruct (sim_law_commit _ _ _ _ E Hu) as (H0&H1&H2).
    by split_and!.
  - intros t w w' p E Hu <-. destruct (sim_law_abort _ _ _ E Hu) as (H0&H1). by split_and!.
  - intros n w b w' [= <- <-]. by split_and!.
Defined.
End sim.

(** The fault-free platform. *)
Definition sim_ok : LMDB sim_world := sim_lmdb no_faults.
Definition sim_ok_laws : @LMDB_laws sim_world sim_ok := sim_laws no_faults.

Lemma sim_ok_reliable : @LMDB_reliable sim_world sim_ok sim_ok_laws.
Proof.
  constructor; cbn.
  - intros p fl w Hu. unfold sim_begin. simpl.
    replace (sim_depth p =? length (sim_stack w))%nat with true; [done|].
    destruct p as [t|]; simpl in *; [|by rewrite Hu].
    apply sim_usable_top in Hu as (?&?&?&->&->). simpl. by rewrite Nat.eqb_refl.
  - intros t d k w Hu. unfold sim_get. rewrite Hu. simpl. destruct (_ !! _); auto.
  - intros t d k v fl w Hu _ Hk. apply sim_usable_top in Hu as (b&V&r&->&->).
    unfold sim_view in Hk. simpl sim_depth in Hk. rewrite sim_at_top in Hk.
    unfold sim_put. rewrite sim_is_top_cons. unfold sim_top. simpl.
    destruct Hk as [Hk|Hk]; [by rewrite (proj2 (Z.eqb_neq _ _) Hk)|].
    rewrite Hk, andb_false_r. done.
  - intros t d k w Hu _. unfold sim_del. rewrite Hu. simpl. destruct (_ !! _); auto.
  - intros t w Hu. unfold sim_commit. by rewrite Hu.
  - done.
Qed.

Lemma sim_empty_state F : @env_state sim_world (sim_lmdb F) (sim_laws F) sim_empty None (λ _, ∅).
Proof. by split_and!. Qed.

(** ** A concrete certificate format

    An instance of the certificate parser interface:
    a certificate is a sequence of fields of a tag byte, a length byte and the
    contents.  It shows that the laws of [Vccert] hold together and makes the
    block operations evaluable. *)

Fixpoint sim_fields (fuel : nat) (b : bytes) : list (Z * bytes) :=
  match fuel, b with
  | S fuel, tag :: len :: b =>
      let n := Z.to_nat (Z_of_byte len) in
      (Z_of_byte tag, take n b) :: sim_fields fuel (drop n b)
  | _, _ => []
  end.

Definition sim_cert_fields (b : bytes) : list (Z * bytes) := sim_fields (length b) b.

Definition sim_tag (f : cert_field) : Z :=
  match f with
  | VCCERT_FIELD_TYPE_BLOCK_HEIGHT => 1
  | VCCERT_FIELD_TYPE_PREVIOUS_BLOCK_UUID => 2
  | VCCERT_FIELD_TYPE_BLOCK_UUID => 3
  | VCCERT_FIELD_TYPE_WRAPPED_TRANSACTION_TUPLE => 4
  | VCCERT_FIELD_TYPE_CERTIFICATE_ID => 5
  | VCCERT_FIELD_TYPE_PREVIOUS_CERTIFICATE_ID => 6
  | VCCERT_FIELD_TYPE_ARTIFACT_ID => 7
  | VCCERT_FIELD_TYPE_NEW_ARTIFACT_STATE => 8
  | VCCERT_FIELD_TYPE_CERTIFICATE_VERSION => 9
  | VCCERT_FIELD_TYPE_CERTIFICATE_VALID_FROM => 10
  | VCCERT_FIELD_TYPE_CERTIFICATE_CRYPTO_SUITE => 11
  | VCCERT_FIELD_TYPE_CERTIFICATE_TYPE => 12
  | VCCERT_FIELD_TYPE_PREVIOUS_BLOCK_HASH => 13
  | VCCERT_FIELD_TYPE_SIGNATURE => 14
  | VCCERT_FIELD_TYPE_SIGNER_ID => 15
  end.

(** A parser: the certificate, the position after the last field found, and the
    tag that was looked for. *)
Record sim_parser := SimParser { sp_cert : bytes; sp_pos : nat; sp_tag : Z }.

Definition sim_find (p : sim_parser) : option bytes * sim_parser :=
  match list_find (λ x, x.1 = sp_tag p) (drop (sp_pos p) (sim_cert_fields (sp_cert p))) with
  | Some (i, (_, v)) => (Some v, SimParser (sp_cert p) (sp_pos p + i + 1) (sp_tag p))
  | None => (None, p)
  end.

#[global] Instance sim_vccert : VCCERT sim_world := {|
  vccrypt_suite_options_init := ret true;
  vccert_parser_options_simple_init := ret true;
  vccert_parser := sim_parser;
  vccert_parser_init := λ _, ret true;
  vccert_parser_of := λ b, SimParser b 0 0;
  vccert_parser_find_short := λ p f, sim_find (SimParser (sp_cert p) 0 (sim_tag f));
  vccert_parser_find_next := sim_find;
  vccert_certificate_type_uuid_root_block := memset Byte.x7e 16 |}.

Lemma sim_fields_length fuel b : (length (sim_fields fuel b) ≤ length b)%nat.
Proof.
  revert b. induction fuel as [|fuel IH]; intros [|tag [|len b]]; simpl; try lia.
  specialize (IH (drop (Z.to_nat (Z_of_byte len)) b)). rewrite length_drop in IH. lia.
Qed.

Lemma sim_fields_elem fuel b x : x ∈ sim_fields fuel b → (length x.2 ≤ length b)%nat.
Proof.
  revert b. induction fuel as [|fuel IH]; intros [|tag [|len b]]; simpl; try by intros ?%elem_of_nil.
  intros [->|Hx]%elem_of_cons; simpl; [rewrite length_take; lia|].
  specialize (IH _ Hx). rewrite length_drop in IH. lia.
Qed.

Lemma sim_find_spec p x p' :
  sim_find p = (x, p') →
  sp_cert p' = sp_cert p ∧
  ∀ v, x = Some v → (length v ≤ length (sp_cert p))%nat ∧
    (length (sim_cert_fields (sp_cert p)) - sp_pos p' < length (sim_cert_fields (sp_cert p)) - sp_pos p)%nat.
Proof.
  unfold sim_find. destruct (list_find _ _) as [[i [tag v]]|] eqn:E; intros [= <- <-]; [|done].
  split; [done|]. intros v' [= <-]. apply list_find_Some in E as (Hi&_&_).
  split.
  - apply (sim_fields_elem (length (sp_cert p)) (sp_cert p) (tag, v)).
    apply list_elem_of_lookup_2 in Hi. rewrite <- (take_drop (sp_pos p) (sim_fields _ _)).
    apply elem_of_app. by right.
  - apply lookup_lt_Some in Hi. rewrite length_drop in Hi. simpl. lia.
Qed.

#[local] Existing Instance sim_ok.
#[local] Existing Instance sim_ok_laws.

#[global, refine] Instance sim_vccert_laws : VCCERT_laws sim_world := {|
  vccert_parser_remaining := λ p, (length (sim_cert_fields (sp_cert p)) - sp_pos p)%nat;
  vccert_parser_cert := sp_cert |}.
Proof.
  - by intros w a w' [= <- <-].
  - by intros w a w' [= <- <-].
  - by intros b w a w' [= <- <-].
  - done.
  - done.
  - intros p f x p' E. apply sim_find_spec in E as [Hc Hv]. split; [done|].
    intros v Hx. by apply Hv in Hx as [? _].
  - intros p x p' E. apply sim_find_spec in E as [Hc Hv]. destruct (Hv x eq_refl) as [? ?].
    by rewrite Hc.
  - intros p. pose proof (sim_fields_length (length (sp_cert p)) (sp_cert p)).
    unfold sim_cert_fields. lia.
  - split; [by apply length_memset|]. split; apply (bool_decide_unpack _); by vm_compute.
Defined.

Lemma sim_vccert_reliable : VCCERT_reliable sim_world.
Proof. by split. Qed.

(** Building certificates. *)
Definition sim_field (f : cert_field) (v : bytes) : bytes :=
  byte_of_Z (sim_tag f) :: byte_of_Z (sizeof v) :: v.
