(* ===== verification/Database.v ===== *)
(** * Opening and closing the database

    [dataservice_database_open.c], [dataservice_database_close.c],
    [dataservice_root_context_init.c]: the root context owns the database
    environment.  Both are owned by the one instance of the service, so the model
    has one environment. *)

From S2P Require Import Prelude StatusCodes Contexts Lmdb Txn.

(** ** The environment functions of LMDB *)

Class MDB_ENV (W : Type) `{L : LMDB W} := {
  mdb_env_create : Act W Z;
  mdb_env_set_mapsize : Z → Act W Z;
  mdb_env_set_maxdbs : Z → Act W Z;
  mdb_env_open : bytes → Act W Z;
  mdb_env_sync : Act W Z;
  mdb_env_close : Act W unit;
  mdb_dbi_open : MDB_txn → dbi → Act W Z;
  mdb_dbi_close : dbi → Act W unit;
}.

(** An environment does not exist, exists, or is open. *)
Inductive env_phase : Set := env_none | env_created | env_opened.

(** With its limits, and the named databases that were opened in it. *)
Record environment := Environment {
  ev_phase : env_phase; ev_mapsize : Z; ev_maxdbs : Z; ev_dbis : list dbi }.
Definition no_environment : environment := Environment env_none 0 0 [].
Definition add_dbi (d : dbi) (e : environment) : environment :=
  Environment (ev_phase e) (ev_mapsize e) (ev_maxdbs e)
    (if bool_decide (d ∈ ev_dbis e) then ev_dbis e else ev_dbis e ++ [d]).

(** An environment that could not be opened can only be closed; the transactions of an
    open one behave as in [LMDB_laws]; opening the named databases creates the missing
    ones empty. *)
Class MDB_ENV_laws (W : Type) `{L : LMDB W} `{LL : !LMDB_laws W} `{ME : !MDB_ENV W} := {
  env : W → environment;
  law_env_create : ∀ w rc w', mdb_env_create w = (rc, w') → ev_phase (env w) = env_none →
    ev_phase (env w') = (if rc =? 0 then env_created else env_none) ∧ (rc = 0 → ev_dbis (env w') = []);
  law_set_mapsize : ∀ n w rc w', mdb_env_set_mapsize n w = (rc, w') →
    env w' = if rc =? 0 then Environment (ev_phase (env w)) n (ev_maxdbs (env w)) (ev_dbis (env w)) else env w;
  law_set_maxdbs : ∀ n w rc w', mdb_env_set_maxdbs n w = (rc, w') →
    env w' = if rc =? 0 then Environment (ev_phase (env w)) (ev_mapsize (env w)) n (ev_dbis (env w)) else env w;
  law_env_open : ∀ d w rc w', mdb_env_open d w = (rc, w') → ev_phase (env w) = env_created →
    if rc =? 0 then
      env w' = Environment env_opened (ev_mapsize (env w)) (ev_maxdbs (env w)) (ev_dbis (env w)) ∧
      ∃ P, env_state w' None P
    else env w' = env w;
  law_env_close : ∀ w w', mdb_env_close w = (tt, w') → ev_phase (env w') = env_none;
  law_dbi_open : ∀ t d w rc w' wr p P V, mdb_dbi_open t d w = (rc, w') →
    txn_state wr w t p P V →
    env w' = (if rc =? 0 then add_dbi d (env w) else env w) ∧ txn_state wr w' t p P V;
  law_env_begin : ∀ p fl w r w', mdb_txn_begin p fl w = (r, w') → env w' = env w;
  law_env_commit : ∀ t w rc w', mdb_txn_commit t w = (rc, w') → env w' = env w;
  law_env_malloc : ∀ n w b w', malloc n w = (b, w') → env w' = env w;
}.

(** An environment library without faults: it opens the named databases up to the
    limit that was set. *)
Record MDB_ENV_reliable (W : Type) `{MEL : MDB_ENV_laws W} : Prop := {
  reliable_env_create : ∀ w, (mdb_env_create w).1 = 0;
  reliable_set_mapsize : ∀ n w, ev_phase (env w) = env_created → (mdb_env_set_mapsize n w).1 = 0;
  reliable_set_maxdbs : ∀ n w, ev_phase (env w) = env_created → (mdb_env_set_maxdbs n w).1 = 0;
  reliable_env_open : ∀ d w, ev_phase (env w) = env_created → (mdb_env_open d w).1 = 0;
  reliable_dbi_open : ∀ t d w p P V, txn_state true w t p P V →
    Z.of_nat (length (ev_dbis (env w))) < ev_maxdbs (env w) → (mdb_dbi_open t d w).1 = 0;
}.

(** ** The operations *)

Section database.
Context {W : Type} {L : LMDB W} {ME : MDB_ENV W}.

(** The names are opened in this order. *)
Definition dbi_order : list dbi := [global_db; block_db; txn_db; pq_db; artifact_db; height_db].

Definition sizeof_database_details : Z := 32.

(** The successive [mdb_dbi_open]; the first that fails ends it. *)
Fixpoint open_dbis (txn : MDB_txn) (ds : list dbi) : Eff W unit :=
  match ds with
  | [] => ok tt
  | d :: ds =>
      let! rc := mdb_dbi_open txn d in
      if negb (rc =? 0) then throw AGENTD_ERROR_DATASERVICE_MDB_DBI_OPEN_FAILURE
      else open_dbis txn ds
  end.

(** What happens between [mdb_env_create] and [close_environment]. *)
Definition open_environment (max_database_size : Z) (datadir : bytes) : Eff W unit :=
  let! rc := mdb_env_set_mapsize max_database_size in
  if negb (rc =? 0) then throw AGENTD_ERROR_DATASERVICE_MDB_ENV_SET_MAPSIZE_FAILURE else
  let! rc := mdb_env_set_maxdbs 6 in
  if negb (rc =? 0) then throw AGENTD_ERROR_DATASERVICE_MDB_ENV_SET_MAXDBS_FAILURE else
  let! rc := mdb_env_open datadir in
  if negb (rc =? 0) then throw AGENTD_ERROR_DATASERVICE_MDB_ENV_OPEN_FAILURE else
  let! '(rc, txn) := mdb_txn_begin None 0 in
  if negb (rc =? 0) then throw AGENTD_ERROR_DATASERVICE_MDB_TXN_BEGIN_FAILURE else
  let! r := open_dbis txn dbi_order in
  match r with
  | Ok _ =>
      let! rc := mdb_txn_commit txn in
      if negb (rc =? 0) then throw AGENTD_ERROR_DATASERVICE_MDB_TXN_COMMIT_FAILURE else ok tt
  | Err s => let! _ := mdb_txn_abort txn in throw s
  end.

(** The details pointer that the function leaves in the context comes with the
    status: after a failure the memory is freed, but not the pointer cleared. *)
Definition dataservice_database_open (max_database_size : Z) (datadir : bytes)
  : Act W (result unit * details_ptr) :=
  let! mem := malloc sizeof_database_details in
  if negb mem then ret (Err AGENTD_ERROR_GENERAL_OUT_OF_MEMORY, details_null) else
  let! rc := mdb_env_create in
  if negb (rc =? 0)
  then ret (Err AGENTD_ERROR_DATASERVICE_MDB_ENV_CREATE_FAILURE, details_freed) else
  let! r := open_environment max_database_size datadir in
  match r with
  | Ok _ => ret (Ok tt, details_open)
  | Err s => let! _ := mdb_env_close in ret (Err s, details_freed)
  end.

Fixpoint close_dbis (ds : list dbi) : Act W unit :=
  match ds with
  | [] => ret tt
  | d :: ds => let! _ := mdb_dbi_close d in close_dbis ds
  end.

Definition dataservice_database_close : Act W unit :=
  let! _ := mdb_env_sync in
  let! _ := close_dbis dbi_order in
  mdb_env_close.

(** [memset] of the context, all capabilities but the one to do this again, and
    the database. *)
Definition dataservice_root_context_init (ctx : dataservice_root_context)
    (max_database_size : Z) (datadir : bytes) : Act W (result unit * dataservice_root_context) :=
  if negb (BITCAP_ISSET (apicaps ctx) DATASERVICE_API_CAP_LL_ROOT_CONTEXT_CREATE)
  then ret (Err AGENTD_ERROR_DATASERVICE_NOT_AUTHORIZED, ctx) else
  let caps := BITCAP_SET_FALSE (BITCAP_INIT_TRUE cap_words)
                DATASERVICE_API_CAP_LL_ROOT_CONTEXT_CREATE in
  let! '(r, d) := dataservice_database_open max_database_size datadir in
  ret (r, RootContext true caps d).

Definition dataservice_root_context_dispose (ctx : dataservice_root_context)
  : Act W dataservice_root_context :=
  let! _ := dataservice_database_close in ret zero_root.
End database.

(** ** What they promise *)

Definition database_open_errors : list Z :=
  [AGENTD_ERROR_DATASERVICE_MDB_ENV_CREATE_FAILURE;
   AGENTD_ERROR_DATASERVICE_MDB_ENV_SET_MAPSIZE_FAILURE;
   AGENTD_ERROR_DATASERVICE_MDB_ENV_SET_MAXDBS_FAILURE;
   AGENTD_ERROR_DATASERVICE_MDB_ENV_OPEN_FAILURE; AGENTD_ERROR_DATASERVICE_MDB_TXN_BEGIN_FAILURE;
   AGENTD_ERROR_DATASERVICE_MDB_DBI_OPEN_FAILURE;
   AGENTD_ERROR_DATASERVICE_MDB_TXN_COMMIT_FAILURE].

(** Membership in a list of constants. *)
Ltac listed := apply (bool_decide_unpack _); by vm_compute.

Section spec.
Context {W : Type} {L : LMDB W} {LL : LMDB_laws W} {ME : MDB_ENV W} {MEL : MDB_ENV_laws W}.

Definition env_faulty : Prop := LMDB_reliable W → MDB_ENV_reliable W → False.

(** A call by what it does to the environment. *)
Lemma post_keep {A : Type} (m : Act W A) (Q : A → W → Prop) w :
  (∀ a w', m w = (a, w') → env w' = env w) →
  post m (λ a w', env w' = env w → Q a w') w → post m Q w.
Proof. rewrite !post_run. intros Hm HQ. apply HQ. eapply Hm, surjective_pairing. Qed.

(** A call for the environment, which a reliable library answers with success. *)
Lemma post_env {B : Type} (m : Act W Z) (e1 : environment) (k : Z → Act W B) Q w :
  (∀ rc w', m w = (rc, w') → env w' = if rc =? 0 then e1 else env w) →
  (MDB_ENV_reliable W → (m w).1 = 0) →
  (∀ w', env w' = e1 → post (k 0) Q w') →
  (∀ rc w', rc ≠ 0 → env_faulty → post (k rc) Q w') →
  post (act m k) Q w.
Proof.
  intros He Hr Hok Hf. apply post_act, post_run. destruct (m w) as [rc w'] eqn:E. simpl in Hr. cbn [fst snd].
  specialize (He _ _ eq_refl). destruct (Z.eqb_spec rc 0) as [->|Hne]; [auto|].
  apply Hf; [done|]. intros _ HR. by apply Hne, Hr.
Qed.

(** The databases that are opened are those that were and those of the list. *)
Lemma post_open_dbis ds t p P V (Q : result unit → W → Prop) w :
  txn_state true w t p P V → Z.of_nat (length (ev_dbis (env w)) + length ds) ≤ ev_maxdbs (env w) →
  (∀ w', ev_phase (env w') = ev_phase (env w) → ev_mapsize (env w') = ev_mapsize (env w) →
     (∀ d, d ∈ ds ∨ d ∈ ev_dbis (env w) → d ∈ ev_dbis (env w')) → txn_state true w' t p P V → Q (Ok tt) w') →
  (∀ w', env_faulty → txn_state true w' t p P V → Q (Err AGENTD_ERROR_DATASERVICE_MDB_DBI_OPEN_FAILURE) w') →
  post (open_dbis t ds) Q w.
Proof.
  revert w. induction ds as [|d ds IH]; intros w Ht Hl Hok Herr; cbn [open_dbis].
  { post_steps. apply Hok; [done..| |done]. intros d [?%elem_of_nil|?]; done. }
  cbn [length] in Hl. apply post_act, post_run. destruct (mdb_dbi_open t d w) as [rc w1] eqn:E.
  destruct (law_dbi_open _ _ _ _ _ _ _ _ _ E Ht) as [He Ht1]. cbn [fst snd].
  destruct (Z.eqb_spec rc 0) as [->|Hne]; cbn [negb].
  - apply IH; [done|..|auto].
    + rewrite He. unfold add_dbi. cbn [ev_dbis ev_maxdbs]. case_bool_decide; rewrite ?length_app; simpl; lia.
    + intros w' Hp Hm Hd. rewrite He in Hp, Hm, Hd. apply Hok; [done..|]. intros d' Hd'. apply Hd. unfold add_dbi. simpl.
      case_bool_decide; set_solver.
  - post_steps. apply Herr; [|done]. intros _ HR. apply Hne.
    pose proof (reliable_dbi_open _ HR t d w p P V Ht ltac:(lia)) as H. by rewrite E in H.
Qed.

(** Every database was opened. *)
Definition opened_all (n : Z) (w : W) : Prop :=
  ev_phase (env w) = env_opened ∧ ev_mapsize (env w) = n ∧ (∀ d, d ∈ ev_dbis (env w)) ∧ ∃ P, env_state w None P.

(** After a failure the environment still exists, open or not. *)
Lemma open_environment_spec n datadir w :
  ev_phase (env w) = env_created → ev_dbis (env w) = [] →
  post (open_environment n datadir) (λ r w',
    match r with
    | Ok _ => opened_all n w'
    | Err s => s ∈ database_open_errors ∧ env_faulty
    end) w.
Proof.
  intros Hw Hd. unfold open_environment.
  eapply post_env; [apply law_set_mapsize|intros R; by apply (reliable_set_mapsize _ R)| |].
  2: { intros rc w' Hne F. apply post_if; intros; post_steps; [split; [listed|done]|lia]. }
  intros w1 H1. cbn [negb Z.eqb].
  eapply post_env; [apply law_set_maxdbs|intros R; apply (reliable_set_maxdbs _ R); by rewrite H1| |].
  2: { intros rc w' Hne F. apply post_if; intros; post_steps; [split; [listed|done]|lia]. }
  intros w2 H2. rewrite H1 in H2. cbn in H2. rewrite Hd, Hw in H2. cbn [negb Z.eqb].
  apply post_act, post_run. destruct (mdb_env_open datadir w2) as [rc3 w3] eqn:E3.
  assert (ev_phase (env w2) = env_created) as Hw2 by (by rewrite H2).
  pose proof (law_env_open _ _ _ _ E3 Hw2) as H3. cbn [fst snd].
  destruct (Z.eqb_spec rc3 0) as [->|Hne]; cbn [negb].
  2: { post_steps. split; [listed|]. intros _ R. apply Hne. pose proof (reliable_env_open _ R datadir w2 Hw2) as H.
    by rewrite E3 in H. }
  destruct H3 as [H3 [P HP]]. rewrite H2 in H3. cbn in H3.
  apply post_act, (post_keep _ _ _ (law_env_begin None 0 w3)).
  eapply post_begin; [exact HP|..]; intros.
  { apply post_if; intros; post_steps; [|lia]. split; [listed|]. intros R _. by eauto. }
  cbn [negb Z.eqb]. assert (env w' = Environment env_opened n 6 []) as H4 by congruence.
  apply post_act. eapply post_open_dbis; [done|by rewrite H4|..]; rewrite ?H4.
  2: { intros w5 F Ht5. apply post_act. eapply post_abort; [done|]. intros. post_steps. split; [listed|done]. }
  cbn. intros w5 Hp Hm Hall Ht5.
  apply post_act, (post_keep _ _ _ (law_env_commit t w5)).
  eapply post_commit; [done|..]; intros.
  - post_steps. unfold opened_all. replace (env w'0) with (env w5) by congruence. split_and!; [done..| |eauto].
    intros d. apply Hall. left. unfold dbi_order. destruct d; set_solver.
  - apply post_if; intros; post_steps; [|lia]. split; [listed|]. intros R _. by eauto.
Qed.

Lemma database_open_ok n datadir w :
  ev_phase (env w) = env_none →
  post (dataservice_database_open n datadir) (λ '(r, d) w',
    match r with
    | Ok _ => d = details_open ∧ opened_all n w'
    | Err s => ev_phase (env w') = env_none ∧ env_faulty ∧
        (s = AGENTD_ERROR_GENERAL_OUT_OF_MEMORY ∧ d = details_null ∨
         s ∈ database_open_errors ∧ d = details_freed)
    end) w.
Proof.
  intros Hw. unfold dataservice_database_open.
  apply post_act, post_run. destruct (malloc sizeof_database_details w) as [mem w1] eqn:E1.
  apply law_env_malloc in E1 as H1. cbn [fst snd].
  destruct mem; cbn [negb].
  2: { post_steps. split; [congruence|]. split; [|auto]. intros R _.
    pose proof (reliable_malloc _ R sizeof_database_details w ltac:(done)) as H. by rewrite E1 in H. }
  apply post_act, post_run. destruct (mdb_env_create w1) as [rc w2] eqn:E2.
  destruct (law_env_create _ _ _ E2 ltac:(by rewrite H1)) as [H2 H2']. cbn [fst snd].
  destruct (Z.eqb_spec rc 0) as [->|Hne]; cbn [negb].
  2: { post_steps. split_and!; [done| |right; split; [listed|done]]. intros _ R. apply Hne.
    pose proof (reliable_env_create _ R w1) as H. by rewrite E2 in H. }
  apply post_act. eapply post_mono; [by apply open_environment_spec; auto|].
  intros [[]|s] w3 H3; [by post_steps|].
  apply post_act, post_run. destruct (mdb_env_close w3) as [[] w4] eqn:E4.
  apply law_env_close in E4. post_steps. destruct H3. auto.
Qed.


(** Closing leaves no environment. *)
Lemma database_close_spec w : post dataservice_database_close (λ _ w', ev_phase (env w') = env_none) w.
Proof.
  unfold dataservice_database_close. apply post_act, post_run. destruct (mdb_env_sync w) as [rc w1].
  apply post_act, post_run. destruct (close_dbis dbi_order _) as [[] w2].
  apply post_run. destruct (mdb_env_close _) as [[] w3] eqn:E. by eapply law_env_close.
Qed.

(** The root context can be initialised once: without the capability nothing
    happens, with it the new context has every capability except the one to
    initialise it again, whether or not the database could be opened. *)
Theorem root_context_init_once ctx n datadir w :
  ev_phase (env w) = env_none →
  post (dataservice_root_context_init ctx n datadir) (λ '(r, ctx') w',
    if BITCAP_ISSET (apicaps ctx) DATASERVICE_API_CAP_LL_ROOT_CONTEXT_CREATE then
      (∀ bit, (bit < DATASERVICE_API_CAP_BITS_MAX)%nat →
         BITCAP_ISSET (apicaps ctx') bit
         = bool_decide (bit ≠ DATASERVICE_API_CAP_LL_ROOT_CONTEXT_CREATE)) ∧
      (∀ n' d' w2, dataservice_root_context_init ctx' n' d' w2
         = (Err AGENTD_ERROR_DATASERVICE_NOT_AUTHORIZED, ctx', w2)) ∧
      (is_ok r = true → details ctx' = details_open ∧ ∃ P, env_state w' None P)
    else r = Err AGENTD_ERROR_DATASERVICE_NOT_AUTHORIZED ∧ ctx' = ctx ∧ w' = w) w.
Proof.
  intros Hw. unfold dataservice_root_context_init at 1.
  destruct (BITCAP_ISSET (apicaps ctx) _); cbn [negb]; [|by post_steps].
  apply post_act. eapply post_mono; [by apply database_open_ok|].
  intros [r d] w' H. post_steps.
  assert (∀ bit, (bit < DATASERVICE_API_CAP_BITS_MAX)%nat →
    BITCAP_ISSET (BITCAP_SET_FALSE (BITCAP_INIT_TRUE cap_words)
       DATASERVICE_API_CAP_LL_ROOT_CONTEXT_CREATE) bit
    = bool_decide (bit ≠ DATASERVICE_API_CAP_LL_ROOT_CONTEXT_CREATE)) as Hcaps.
  { intros bit Hbit. rewrite ISSET_SET_FALSE, ISSET_INIT_TRUE.
    rewrite (bool_decide_true (_ < _)%nat), andb_true_r; [done|].
    unfold BITCAP_OFFSET, cap_words, BITCAP in *. unfold DATASERVICE_API_CAP_BITS_MAX in *.
    apply Nat.div_lt_upper_bound; simpl; lia. }
  split; [exact Hcaps|split].
  - intros n' d' w2. unfold dataservice_root_context_init. cbn [apicaps].
    by rewrite Hcaps by (vm_compute; lia).
  - destruct r as [[]|s]; [|done]. intros _. destruct H as (->&_&_&_&?). by split.
Qed.
End spec.
