(* ===== verification/PqRep.v ===== *)
(** * The process queue as an abstract queue

    [pq_rep m q] relates the contents [m] of [pq_db] to the queue [q] of waiting
    transactions, and the lemmas say how the database updates of each operation
    change [q].  Everything here is about finite maps; no effects. *)

From S2P Require Import Prelude Inet StatusCodes Lmdb Records.

Record pq_entry := PqEntry {
  pe_id : bytes; pe_artifact : bytes; pe_state : Z; pe_cert : bytes }.

(** The node of an entry between [prev] and [next], and the value stored. *)
Definition entry_node (prev next : bytes) (e : pq_entry) : data_transaction_node :=
  TxnNode (pe_id e) prev next (pe_artifact e) zero_uuid (sizeof (pe_cert e)) (pe_state e).
Definition entry_value (prev next : bytes) (e : pq_entry) : bytes :=
  enc_txn_node (entry_node prev next e) ++ pe_cert e.

Definition start_node (next : bytes) : data_transaction_node :=
  TxnNode zero_uuid zero_uuid next zero_uuid zero_uuid 0 0.
Definition end_node (prev : bytes) : data_transaction_node :=
  TxnNode ff_uuid prev ff_uuid zero_uuid zero_uuid 0 0.

(** The identifier before and after a part of the queue. *)
Definition last_id (q : list pq_entry) : bytes := default zero_uuid (pe_id <$> last q).
Definition first_id (q : list pq_entry) : bytes := default ff_uuid (pe_id <$> head q).

Record wf_entry (e : pq_entry) : Prop := {
  wf_pe_id : is_uuid (pe_id e);
  wf_pe_artifact : is_uuid (pe_artifact e);
  wf_pe_state : 0 ≤ pe_state e < 2 ^ 32;
  wf_pe_cert : sizeof (pe_cert e) < 2 ^ 63 }.

(** Every entry is well formed, and no two nodes share an identifier. *)
Definition wf_queue (q : list pq_entry) : Prop :=
  Forall wf_entry q ∧ NoDup (zero_uuid :: ff_uuid :: (pe_id <$> q)).

Record pq_list (m : bytes_map) (q : list pq_entry) : Prop := {
  pq_wf : wf_queue q;
  pq_start : m !! zero_uuid = Some (enc_txn_node (start_node (first_id q)));
  pq_end : m !! ff_uuid = Some (enc_txn_node (end_node (last_id q)));
  pq_entry_at : ∀ q1 e q2, q = q1 ++ e :: q2 →
    m !! pe_id e = Some (entry_value (last_id q1) (first_id q2) e);
  pq_dom : ∀ k, is_Some (m !! k) → k = zero_uuid ∨ k = ff_uuid ∨ k ∈ pe_id <$> q }.

(** A database without nodes is an empty queue, too. *)
Definition pq_rep (m : bytes_map) (q : list pq_entry) : Prop :=
  (m = ∅ ∧ q = []) ∨ pq_list m q.

(** ** The operations on abstract queues *)

Definition find_entry (id : bytes) (q : list pq_entry) : option pq_entry :=
  head (filter (λ e, pe_id e = id) q).
Definition drop_entry (id : bytes) (q : list pq_entry) : list pq_entry :=
  filter (λ e, pe_id e ≠ id) q.
Definition attest_entry (e : pq_entry) : pq_entry :=
  PqEntry (pe_id e) (pe_artifact e) DATASERVICE_TRANSACTION_NODE_STATE_ATTESTED (pe_cert e).
Definition promote_entry (id : bytes) (q : list pq_entry) : list pq_entry :=
  (λ e, if decide (pe_id e = id) then attest_entry e else e) <$> q.

(** ** Facts about queues *)

Lemma is_uuid_zero : is_uuid zero_uuid.
Proof. apply length_memset. Qed.
Lemma is_uuid_ff : is_uuid ff_uuid.
Proof. apply length_memset. Qed.
#[export] Hint Resolve is_uuid_zero is_uuid_ff : core.

Lemma last_id_snoc q e : last_id (q ++ [e]) = pe_id e.
Proof. unfold last_id. by rewrite last_snoc. Qed.
Lemma last_id_cons_app q1 e q2 : last_id (q1 ++ e :: q2) = last_id (e :: q2).
Proof. unfold last_id. by rewrite last_app_cons. Qed.
Lemma first_id_app_cons q1 e q2 q : first_id ((q1 ++ e :: q2) ++ q) = first_id (q1 ++ e :: q2).
Proof. by destruct q1. Qed.

Lemma last_id_uuid q : Forall wf_entry q → is_uuid (last_id q).
Proof.
  intros Hq. unfold last_id. destruct (last q) as [e|] eqn:E; simpl; [|done].
  apply last_Some_elem_of in E. eapply Forall_forall in Hq; [|done]. apply Hq.
Qed.
Lemma first_id_uuid q : Forall wf_entry q → is_uuid (first_id q).
Proof. destruct 1 as [|e q []]; simpl; [done|]. done. Qed.

Lemma wf_start next : is_uuid next → wf_txn_node (start_node next).
Proof. constructor; simpl; auto; lia. Qed.
Lemma wf_end prev : is_uuid prev → wf_txn_node (end_node prev).
Proof. constructor; simpl; auto; lia. Qed.
Lemma wf_entry_node prev next e :
  is_uuid prev → is_uuid next → wf_entry e → wf_txn_node (entry_node prev next e).
Proof. intros ?? []. constructor; simpl; auto. unfold sizeof in *. lia. Qed.

Lemma length_entry_value prev next e :
  is_uuid prev → is_uuid next → wf_entry e →
  length (entry_value prev next e) = (sizeof_txn_node + length (pe_cert e))%nat.
Proof.
  intros. unfold entry_value. by rewrite length_app, length_enc_txn_node by by apply wf_entry_node.
Qed.

Lemma wf_queue_app q1 q2 : wf_queue (q1 ++ q2) → wf_queue q1 ∧ wf_queue q2.
Proof.
  unfold wf_queue. rewrite Forall_app, fmap_app, !NoDup_cons, NoDup_app, !not_elem_of_cons, !not_elem_of_app.
  naive_solver.
Qed.

(** An entry's place in the queue is determined by its identifier. *)
Lemma split_unique q1 e q2 q1' e' q2' :
  wf_queue (q1 ++ e :: q2) → q1 ++ e :: q2 = q1' ++ e' :: q2' → pe_id e = pe_id e' →
  q1 = q1' ∧ e = e' ∧ q2 = q2'.
Proof.
  intros [_ Hnd] Heq Hid. rewrite !NoDup_cons in Hnd. destruct Hnd as (_&_&Hnd).
  assert (length q1 = length q1') as Hl.
  { eapply (NoDup_lookup (pe_id <$> (q1 ++ e :: q2))); [done| |].
    - rewrite list_lookup_fmap, list_lookup_middle by done. simpl. done.
    - rewrite Heq, list_lookup_fmap, list_lookup_middle by done. simpl. by rewrite Hid. }
  apply app_inj_1 in Heq as [-> Heq]; [|done]. by simplify_eq.
Qed.

Lemma wf_queue_id_ne q1 e q2 :
  wf_queue (q1 ++ e :: q2) → pe_id e ≠ zero_uuid ∧ pe_id e ≠ ff_uuid.
Proof.
  intros [_ Hnd]. rewrite !NoDup_cons, !not_elem_of_cons, fmap_app, fmap_cons, !not_elem_of_app,
    !not_elem_of_cons in Hnd. naive_solver.
Qed.

Lemma find_entry_split id q e :
  find_entry id q = Some e → ∃ q1 q2, q = q1 ++ e :: q2 ∧ pe_id e = id.
Proof.
  unfold find_entry. intros Hh.
  assert (e ∈ filter (λ e, pe_id e = id) q) as Hin.
  { destruct (filter _ q); simplify_eq/=. by left. }
  apply list_elem_of_filter in Hin as [Hid Hin].
  apply list_elem_of_split in Hin as (q1&q2&->). eauto.
Qed.

Lemma find_entry_None id q : find_entry id q = None ↔ id ∉ pe_id <$> q.
Proof.
  unfold find_entry. rewrite head_None. induction q as [|e q IH]; [set_solver|].
  rewrite filter_cons, fmap_cons, not_elem_of_cons. case_decide; naive_solver.
Qed.

Lemma find_entry_middle q1 e q2 :
  wf_queue (q1 ++ e :: q2) → find_entry (pe_id e) (q1 ++ e :: q2) = Some e.
Proof.
  intros Hwf. destruct (find_entry _ _) as [e'|] eqn:E.
  - apply find_entry_split in E as (q1'&q2'&Heq&Hid).
    by destruct (split_unique _ _ _ _ _ _ Hwf Heq) as (_&->&_).
  - exfalso. apply find_entry_None in E. apply E. rewrite fmap_app, fmap_cons. set_solver.
Qed.

(** ** Cutting the queue

    Between any two neighbours the queue can be cut into [a ++ b]; [node_before]
    is the value of the last node of [a] (the start node for [a = []]) when it
    points to [next], [node_after] that of the first node of [b]. *)

Definition node_before (a : list pq_entry) (next : bytes) : bytes :=
  match last a with
  | None => enc_txn_node (start_node next)
  | Some e => entry_value (last_id (removelast a)) next e
  end.

Definition node_after (b : list pq_entry) (prev : bytes) : bytes :=
  match b with
  | [] => enc_txn_node (end_node prev)
  | e :: b => entry_value prev (first_id b) e
  end.

Lemma node_before_snoc a e next : node_before (a ++ [e]) next = entry_value (last_id a) next e.
Proof. unfold node_before. by rewrite last_snoc, removelast_last. Qed.

Lemma cut_start a : last_id a ∈ zero_uuid :: (pe_id <$> a).
Proof.
  destruct a as [|e a _] using rev_ind; [by left|].
  rewrite last_id_snoc, fmap_app, elem_of_cons, elem_of_app. set_solver.
Qed.
Lemma cut_end b : first_id b ∈ ff_uuid :: (pe_id <$> b).
Proof. destruct b; set_solver. Qed.

Lemma wf_queue_cons_NoDup q :
  wf_queue q → NoDup (zero_uuid :: (pe_id <$> q)) ∧ NoDup (ff_uuid :: (pe_id <$> q)) ∧
  zero_uuid ≠ ff_uuid.
Proof. intros [_ H]. rewrite !NoDup_cons, !not_elem_of_cons in *. naive_solver. Qed.

(** Nodes on the two sides of a cut are different. *)
Lemma part_ne a b x y :
  wf_queue (a ++ b) → x ∈ zero_uuid :: (pe_id <$> a) → y ∈ ff_uuid :: (pe_id <$> b) → x ≠ y.
Proof.
  intros [_ Hnd] Hx Hy <-. rewrite fmap_app in Hnd.
  rewrite !NoDup_cons, NoDup_app, !not_elem_of_cons, !not_elem_of_app in Hnd.
  rewrite elem_of_cons in Hx, Hy. destruct Hnd as ((?&?&?)&(?&?)&?&Hd&?).
  destruct Hx as [Ha|Ha], Hy as [Hb|Hb]; try congruence; by eapply Hd.
Qed.

Lemma cut_ne a b : wf_queue (a ++ b) → last_id a ≠ first_id b.
Proof. intros Hwf. eapply part_ne; [done|apply cut_start|apply cut_end]. Qed.

(** Membership of an identifier in the part of a queue it is in. *)
Ltac in_part :=
  repeat first [rewrite fmap_cons|rewrite fmap_app|rewrite elem_of_cons|rewrite elem_of_app];
  intuition auto.

Lemma last_id_ne_ff a b : wf_queue (a ++ b) → last_id a ≠ ff_uuid.
Proof.
  intros [Hwf _]%wf_queue_app. replace ff_uuid with (first_id []) by done.
  apply (cut_ne a []). by rewrite app_nil_r.
Qed.

Lemma last_id_notin a b e : wf_queue (a ++ e :: b) → last_id a ≠ pe_id e.
Proof. apply (cut_ne a (e :: b)). Qed.

(** A later cut ends in another node. *)
Lemma last_id_later a x r b : wf_queue (a ++ (x :: r) ++ b) → last_id (a ++ x :: r) ≠ last_id a.
Proof.
  intros [_ Hnd]. rewrite last_id_cons_app.
  assert (last_id (x :: r) ∈ pe_id <$> (x :: r)) as Hx.
  { destruct (exists_last (l := x :: r) ltac:(done)) as (l&y&->).
    rewrite last_id_snoc, fmap_app. set_solver. }
  pose proof (cut_start a) as Ha. intros Heq. rewrite Heq in Hx.
  rewrite !fmap_app, !NoDup_cons, !NoDup_app, !not_elem_of_cons, !not_elem_of_app in Hnd.
  rewrite elem_of_cons in Ha. destruct Ha as [Ha|Ha].
  - rewrite Ha in Hx. naive_solver.
  - destruct Hnd as (_&_&_&Hd&_). apply (Hd _ Ha). rewrite elem_of_app. by left.
Qed.

Lemma pq_list_before m a b : pq_list m (a ++ b) → m !! last_id a = Some (node_before a (first_id b)).
Proof.
  intros []. destruct a as [|e a _] using rev_ind; [done|].
  rewrite last_id_snoc, node_before_snoc. apply pq_entry_at0. by rewrite <- app_assoc.
Qed.

Lemma pq_list_after m a b : pq_list m (a ++ b) → m !! first_id b = Some (node_after b (last_id a)).
Proof.
  intros []. destruct b as [|e b]; simpl.
  - by rewrite app_nil_r in *.
  - by apply pq_entry_at0.
Qed.

(** To show that a map represents a queue it is enough to look at the cuts. *)
Lemma pq_list_intro m q :
  wf_queue q →
  (∀ a b, q = a ++ b → m !! last_id a = Some (node_before a (first_id b))) →
  m !! ff_uuid = Some (enc_txn_node (end_node (last_id q))) →
  (∀ k, is_Some (m !! k) → k = zero_uuid ∨ k = ff_uuid ∨ k ∈ pe_id <$> q) →
  pq_list m q.
Proof.
  intros Hwf Hcut Hend Hdom. split; auto.
  - by apply (Hcut [] q).
  - intros q1 e q2 ->. specialize (Hcut (q1 ++ [e]) q2).
    rewrite last_id_snoc, node_before_snoc, <- app_assoc in Hcut. by apply Hcut.
Qed.

(** ** The updates *)

Lemma wf_queue_nil : wf_queue [].
Proof.
  pose proof zero_uuid_ne_ff. split; [done|].
  rewrite fmap_nil, !NoDup_cons, not_elem_of_cons. split_and!; [done|apply not_elem_of_nil..|].
  by apply NoDup_nil.
Qed.

Lemma wf_queue_snoc q e :
  wf_queue q → wf_entry e → pe_id e ∉ zero_uuid :: ff_uuid :: (pe_id <$> q) → wf_queue (q ++ [e]).
Proof.
  intros [Hf Hnd] He Hid. split; [apply Forall_app; auto|].
  rewrite fmap_app, fmap_cons, fmap_nil, !app_comm_cons, <- Permutation_cons_append.
  by apply NoDup_cons.
Qed.

(** Appending: the new node, the old last node and the end node are written. *)
Lemma pq_list_submit m q e :
  pq_list m q → wf_entry e → pe_id e ∉ zero_uuid :: ff_uuid :: (pe_id <$> q) →
  pq_list
    (<[ff_uuid := enc_txn_node (end_node (pe_id e))]>
       (<[last_id q := node_before q (pe_id e)]>
          (<[pe_id e := entry_value (last_id q) ff_uuid e]> m)))
    (q ++ [e]).
Proof.
  intros Hm He Hid. pose proof (wf_queue_snoc _ _ (pq_wf _ _ Hm) He Hid) as Hwf.
  apply pq_list_intro; [done|..].
  - intros a b Heq. destruct b as [|x b _] using rev_ind.
    + rewrite app_nil_r in Heq. subst a. rewrite last_id_snoc, node_before_snoc. simpl.
      rewrite lookup_insert_ne by (symmetry; by apply (wf_queue_id_ne q e [])).
      rewrite lookup_insert_ne by (by apply (last_id_notin q [])). by rewrite lookup_insert_eq.
    + rewrite app_assoc in Heq. apply app_inj_tail in Heq as [-> <-].
      rewrite <- app_assoc in Hwf.
      rewrite lookup_insert_ne by (symmetry; by eapply last_id_ne_ff).
      destruct b as [|y b]; simpl in *.
      { by rewrite app_nil_r, lookup_insert_eq. }
      rewrite lookup_insert_ne
        by (apply (last_id_later a y b [e]); by rewrite <- app_comm_cons).
      rewrite lookup_insert_ne.
      { by rewrite (pq_list_before m a (y :: b)). }
      intros Heq. apply Hid. rewrite Heq. pose proof (cut_start a). rewrite fmap_app. set_solver.
  - by rewrite lookup_insert_eq, last_id_snoc.
  - intros k. rewrite !lookup_insert_is_Some', fmap_app.
    pose proof (cut_start q). pose proof (pq_dom _ _ Hm k). set_solver.
Qed.

(** The first submission writes the new node and both sentinels. *)
Lemma pq_list_create e :
  wf_entry e → pe_id e ≠ zero_uuid → pe_id e ≠ ff_uuid →
  pq_list
    (<[ff_uuid := enc_txn_node (end_node (pe_id e))]>
       (<[zero_uuid := enc_txn_node (start_node (pe_id e))]>
          (<[pe_id e := entry_value zero_uuid ff_uuid e]> ∅)))
    [e].
Proof.
  intros He Hz Hf. pose proof zero_uuid_ne_ff. apply pq_list_intro.
  - apply (wf_queue_snoc []); [apply wf_queue_nil|done|set_solver].
  - intros a b Heq. destruct a as [|x [|]]; simplify_eq/=.
    + by rewrite lookup_insert_ne, lookup_insert_eq by done.
    + change (last_id [x]) with (pe_id x).
      by rewrite lookup_insert_ne, lookup_insert_ne, lookup_insert_eq by done.
  - by rewrite lookup_insert_eq.
  - intros k. rewrite !lookup_insert_is_Some', lookup_empty. intros [|[|[|[? [=]]]]]; set_solver.
Qed.

Lemma filter_all {A} (P : A → Prop) `{∀ x, Decision (P x)} (l : list A) :
  Forall P l → filter P l = l.
Proof. induction 1; [done|]. rewrite filter_cons_True by done. by f_equal. Qed.

Lemma drop_entry_split q1 e q2 :
  wf_queue (q1 ++ e :: q2) → drop_entry (pe_id e) (q1 ++ e :: q2) = q1 ++ q2.
Proof.
  intros [_ Hnd]. unfold drop_entry. rewrite filter_app, filter_cons_False by naive_solver.
  rewrite fmap_app, fmap_cons, !NoDup_cons, NoDup_app, NoDup_cons in Hnd.
  destruct Hnd as (_&_&_&Hd&Hn&_).
  rewrite !filter_all; [done|..]; apply Forall_forall; intros x Hx Heq.
  - apply Hn. rewrite <- Heq. by apply list_elem_of_fmap_2.
  - apply (Hd (pe_id x)); [by apply list_elem_of_fmap_2|]. rewrite Heq. by left.
Qed.

Lemma wf_queue_drop q1 e q2 : wf_queue (q1 ++ e :: q2) → wf_queue (q1 ++ q2).
Proof.
  intros [Hf Hnd]. split.
  - rewrite Forall_app, Forall_cons in *. naive_solver.
  - rewrite !fmap_app, fmap_cons, !NoDup_cons, !NoDup_app, NoDup_cons, !not_elem_of_cons,
      !not_elem_of_app, !not_elem_of_cons in *. set_solver.
Qed.

(** Removing: the nodes before and after are joined. *)
Definition drop_map (m : bytes_map) (a b : list pq_entry) (e : pq_entry) : bytes_map :=
  <[first_id b := node_after b (last_id a)]>
    (<[last_id a := node_before a (first_id b)]> (delete (pe_id e) m)).

(** A cut in the part before the removed entry. *)
Lemma drop_cut_left m c r b e :
  pq_list m ((c ++ r) ++ e :: b) →
  drop_map m (c ++ r) b e !! last_id c = Some (node_before c (first_id (r ++ b))).
Proof.
  intros Hm. pose proof (pq_wf _ _ Hm) as Hwf0. pose proof (wf_queue_drop _ _ _ Hwf0) as Hwf.
  unfold drop_map. destruct r as [|x r].
  { rewrite !app_nil_r in *. rewrite lookup_insert_ne by (symmetry; by apply cut_ne).
    by rewrite lookup_insert_eq. }
  rewrite <- app_assoc in Hwf, Hwf0, Hm. pose proof (cut_end b) as Hb. rewrite elem_of_cons in Hb.
  rewrite lookup_insert_ne
    by (symmetry; eapply part_ne; [exact Hwf|apply cut_start|in_part]).
  rewrite lookup_insert_ne by (by apply (last_id_later c x r b)).
  rewrite lookup_delete_ne by (symmetry; eapply part_ne; [exact Hwf0|apply cut_start|in_part]).
  by rewrite (pq_list_before m c (x :: r ++ e :: b)).
Qed.

(** A cut in the part after it. *)
Lemma drop_cut_right m a r y d e :
  pq_list m (a ++ e :: r ++ y :: d) →
  drop_map m a (r ++ y :: d) e !! pe_id y = Some (entry_value (last_id (a ++ r)) (first_id d) y).
Proof.
  intros Hm. unfold drop_map. destruct r as [|x r].
  { simpl. by rewrite app_nil_r, lookup_insert_eq. }
  pose proof (pq_wf _ _ Hm) as Hwf.
  rewrite lookup_insert_ne by (apply (part_ne (a ++ [e; x]) (r ++ y :: d));
    [by rewrite <- app_assoc|simpl; in_part..]).
  rewrite lookup_insert_ne by (eapply part_ne; [exact Hwf|apply cut_start|in_part]).
  rewrite lookup_delete_ne by (apply (part_ne (a ++ [e]) ((x :: r) ++ y :: d));
    [by rewrite <- app_assoc|in_part..]).
  rewrite (pq_entry_at _ _ Hm (a ++ e :: x :: r) y d) by (by rewrite <- app_assoc).
  by rewrite !last_id_cons_app.
Qed.

Lemma drop_end m a b e :
  pq_list m (a ++ e :: b) →
  drop_map m a b e !! ff_uuid = Some (enc_txn_node (end_node (last_id (a ++ b)))).
Proof.
  intros Hm. pose proof (pq_wf _ _ Hm) as Hwf0. pose proof (wf_queue_drop _ _ _ Hwf0) as Hwf.
  unfold drop_map. destruct b as [|y b]; simpl.
  { by rewrite lookup_insert_eq, app_nil_r. }
  pose proof (wf_queue_id_ne _ _ _ Hwf). rewrite lookup_insert_ne by naive_solver.
  rewrite lookup_insert_ne by (by eapply last_id_ne_ff).
  rewrite lookup_delete_ne by (by apply (wf_queue_id_ne a e (y :: b))).
  rewrite (pq_end _ _ Hm), !last_id_cons_app. done.
Qed.

Lemma pq_list_drop m a b e : pq_list m (a ++ e :: b) → pq_list (drop_map m a b e) (a ++ b).
Proof.
  intros Hm. apply pq_list_intro; [by eapply wf_queue_drop, pq_wf|..|by apply drop_end|].
  - intros c d Heq. destruct (app_eq_inv _ _ _ _ Heq) as [(r&->&->)|(r&->&->)].
    + by apply drop_cut_left.
    + destruct r as [|y r _] using rev_ind.
      * rewrite app_nil_r in *. simpl in *. pose proof (drop_cut_left m a [] d e) as Hl.
        rewrite app_nil_r in Hl. by apply Hl.
      * rewrite app_assoc, last_id_snoc, node_before_snoc.
        rewrite <- app_assoc in *. by apply drop_cut_right.
  - intros k. unfold drop_map. rewrite !lookup_insert_is_Some', lookup_delete_is_Some, fmap_app.
    pose proof (cut_start a). pose proof (cut_end b). pose proof (pq_dom _ _ Hm k) as Hd.
    rewrite fmap_app, fmap_cons in Hd. set_solver.
Qed.

(** Rewriting an entry in place. *)
Lemma first_id_replace r e e' b :
  pe_id e' = pe_id e → first_id (r ++ e' :: b) = first_id (r ++ e :: b).
Proof. by destruct r. Qed.
Lemma last_id_replace a e e' r :
  pe_id e' = pe_id e → last_id (a ++ e' :: r) = last_id (a ++ e :: r).
Proof. intros He. rewrite !last_id_cons_app. destruct r; unfold last_id; simpl; congruence. Qed.

Lemma pq_list_replace m a b e e' :
  pq_list m (a ++ e :: b) → wf_entry e' → pe_id e' = pe_id e →
  pq_list (<[pe_id e := entry_value (last_id a) (first_id b) e']> m) (a ++ e' :: b).
Proof.
  intros Hm He' Hid. pose proof (pq_wf _ _ Hm) as Hwf.
  pose proof (wf_queue_id_ne _ _ _ Hwf) as [Hz Hf].
  assert (pe_id <$> (a ++ e' :: b) = pe_id <$> (a ++ e :: b)) as Hids.
  { rewrite !fmap_app, !fmap_cons. by rewrite Hid. }
  assert (wf_queue (a ++ e' :: b)) as Hwf'.
  { destruct Hwf as [Hfa Hnd]. split; [|by rewrite Hids].
    rewrite Forall_app, Forall_cons in *. naive_solver. }
  split; [done|..].
  - rewrite lookup_insert_ne by done. rewrite (pq_start _ _ Hm). by rewrite (first_id_replace a e e').
  - rewrite lookup_insert_ne by done. rewrite (pq_end _ _ Hm). by rewrite (last_id_replace a e e').
  - intros q1 x q2 Heq. destruct (decide (pe_id e' = pe_id x)) as [Hx|Hx].
    { destruct (split_unique _ _ _ _ _ _ Hwf' Heq Hx) as (->&->&->). by rewrite Hid, lookup_insert_eq. }
    rewrite lookup_insert_ne by congruence.
    destruct (app_eq_inv _ _ _ _ Heq) as [([|y r]&->&Hr)|([|y r]&->&Hr)]; simplify_eq/=.
    + rewrite (first_id_replace r e e') by done. apply (pq_entry_at _ _ Hm). by rewrite <- app_assoc.
    + rewrite (last_id_replace a e y) by done. apply (pq_entry_at _ _ Hm). by rewrite <- app_assoc.
  - intros k. rewrite lookup_insert_is_Some', Hids. pose proof (pq_dom _ _ Hm k).
    intros [<-|]; [|auto]. right; right. in_part.
Qed.

Lemma promote_entry_split q1 e q2 :
  wf_queue (q1 ++ e :: q2) →
  promote_entry (pe_id e) (q1 ++ e :: q2) = q1 ++ attest_entry e :: q2.
Proof.
  intros Hwf. unfold promote_entry. rewrite fmap_app, fmap_cons, decide_True by done.
  assert (∀ l : list pq_entry, (∀ x, x ∈ l → pe_id x ≠ pe_id e) →
    (λ x, if decide (pe_id x = pe_id e) then attest_entry x else x) <$> l = l) as Hl.
  { induction l as [|x l IH]; intros Hx; [done|].
    rewrite fmap_cons, decide_False by (apply Hx; by left). f_equal. apply IH.
    intros y Hy. apply Hx. by right. }
  rewrite !Hl; [done|..]; intros x Hx%(list_elem_of_fmap_2 pe_id).
  - symmetry. apply (part_ne (q1 ++ [e]) q2); [by rewrite <- app_assoc|in_part..].
  - eapply part_ne; [exact Hwf|in_part..].
Qed.

(** ** The stored bytes *)

Lemma enc_txn_node_nil n : enc_txn_node n = enc_txn_node n ++ [].
Proof. by rewrite app_nil_r. Qed.

Lemma node_before_set_next a v v' :
  Forall wf_entry a → is_uuid v → is_uuid v' →
  set_txn_node_next v' (node_before a v) = node_before a v'.
Proof.
  intros Ha Hv Hv'. destruct a as [|e a _] using rev_ind.
  - change (node_before [] v) with (enc_txn_node (start_node v)).
    rewrite enc_txn_node_nil, txn_node_set_next by (auto using wf_start). by rewrite app_nil_r.
  - rewrite !node_before_snoc. apply Forall_app in Ha as [Ha [He _]%Forall_cons].
    apply txn_node_set_next; [|done]. apply wf_entry_node; auto using last_id_uuid.
Qed.

Lemma node_after_set_prev b v v' :
  Forall wf_entry b → is_uuid v → is_uuid v' →
  set_txn_node_prev v' (node_after b v) = node_after b v'.
Proof.
  intros Hb Hv Hv'. destruct b as [|e b]; simpl.
  - rewrite enc_txn_node_nil, txn_node_set_prev by (auto using wf_end). by rewrite app_nil_r.
  - apply Forall_cons in Hb as [He Hb].
    apply txn_node_set_prev; [|done]. apply wf_entry_node; auto using first_id_uuid.
Qed.

(** A stored node is as long as its header says. *)
Lemma node_before_size a v :
  Forall wf_entry a → is_uuid v →
  sizeof (node_before a v)
  = Z.of_nat sizeof_txn_node + ntohll (txn_node_net_txn_cert_size (node_before a v)) ∧
  sizeof (node_before a v) < 2 ^ 64.
Proof.
  intros Ha Hv. destruct a as [|e a _] using rev_ind.
  - pose proof (wf_start v Hv) as Hs. change (node_before [] v) with (enc_txn_node (start_node v)).
    pose proof (length_enc_txn_node _ Hs) as Hlen.
    rewrite enc_txn_node_nil at 2. destruct (txn_node_fields _ [] Hs) as (_&_&_&_&_&->&_).
    unfold sizeof. rewrite Hlen. split; [done|]. by vm_compute.
  - rewrite !node_before_snoc. apply Forall_app in Ha as [Ha [He _]%Forall_cons].
    pose proof (last_id_uuid a Ha) as Hl. pose proof (wf_entry_node _ _ _ Hl Hv He) as Hn.
    assert (sizeof (entry_value (last_id a) v e) = Z.of_nat sizeof_txn_node + sizeof (pe_cert e)) as ->.
    { unfold sizeof. rewrite length_entry_value by done. lia. }
    unfold entry_value. destruct (txn_node_fields _ (pe_cert e) Hn) as (_&_&_&_&_&->&_). simpl.
    destruct He. unfold sizeof_txn_node in *. lia.
Qed.

Lemma node_before_len a v : Forall wf_entry a → is_uuid v → (sizeof_txn_node ≤ length (node_before a v))%nat.
Proof.
  intros Ha Hv. destruct (node_before_size a v Ha Hv) as [Hs _]. unfold sizeof in Hs.
  pose proof (ntohll_range (txn_node_net_txn_cert_size (node_before a v))). lia.
Qed.

Lemma node_after_len b v : Forall wf_entry b → is_uuid v → (sizeof_txn_node ≤ length (node_after b v))%nat.
Proof.
  intros Hb Hv. destruct b as [|e b]; simpl.
  - rewrite length_enc_txn_node by (by apply wf_end). lia.
  - apply Forall_cons in Hb as [He Hb].
    rewrite length_entry_value by (auto using first_id_uuid). lia.
Qed.

(** The sentinels as [dataservice_transaction_submit_create_queue] builds them. *)
Lemma start_node_bytes id :
  is_uuid id → set_txn_node_next id (memset Byte.x00 sizeof_txn_node) = enc_txn_node (start_node id).
Proof.
  intros. pose proof (txn_node_zero []) as Hz. rewrite !app_nil_r in Hz. rewrite Hz, enc_txn_node_nil.
  rewrite txn_node_set_next by (done || apply wf_zero_txn_node). by rewrite app_nil_r.
Qed.

Lemma end_node_bytes id :
  is_uuid id →
  set_txn_node_prev id (set_txn_node_next ff_uuid (set_txn_node_key ff_uuid
    (memset Byte.x00 sizeof_txn_node))) = enc_txn_node (end_node id).
Proof.
  intros. pose proof (txn_node_zero []) as Hz. rewrite !app_nil_r in Hz. rewrite Hz, enc_txn_node_nil.
  rewrite txn_node_set_key by (done || apply wf_zero_txn_node).
  rewrite txn_node_set_next, txn_node_set_prev by (try done; constructor; simpl; auto; lia).
  by rewrite app_nil_r.
Qed.

Lemma txn_node_key_enc n rest : wf_txn_node n → txn_node_key (enc_txn_node n ++ rest) = tn_key n.
Proof. intros Hn. by destruct (txn_node_fields n rest Hn) as (->&_). Qed.
Lemma txn_node_key_enc' n : wf_txn_node n → txn_node_key (enc_txn_node n) = tn_key n.
Proof. rewrite (enc_txn_node_nil n). apply txn_node_key_enc. Qed.
