(* ===== verification/ProcessQueue.v ===== *)
(** * The process queue

    Submitted transactions wait in [pq_db], a doubly linked list of
    [data_transaction_node_t] values between a start node (the all-zero
    identifier) and an end node (the all-0xFF identifier).  This file models
    [dataservice_transaction_submit.c], [dataservice_transaction_drop.c],
    [dataservice_transaction_promote.c], [dataservice_transaction_get.c],
    [dataservice_transaction_get_first.c] and the explicit transactions of
    [dataservice_data_txn_*.c]; [ProcessQueueSpec] proves them. *)

From S2P Require Import Prelude Inet StatusCodes Contexts Lmdb Txn Records.

Section pq.
Context {W : Type} {L : LMDB W}.

(** The build flag [ATTESTATION == 1]. *)
Variable ATTESTATION : bool.

(** ** Submission *)

Definition dataservice_transaction_submit_create_queue (txn : MDB_txn) (txn_id : bytes)
  : Eff W unit :=
  let start := set_txn_node_next txn_id (memset Byte.x00 sizeof_txn_node) in
  let end_ :=
    set_txn_node_prev txn_id
      (set_txn_node_next (memset Byte.xff 16)
         (set_txn_node_key (memset Byte.xff 16) (memset Byte.x00 sizeof_txn_node))) in
  let! rc := mdb_put txn pq_db (txn_node_key start) start 0 in
  if negb (rc =? 0) then throw AGENTD_ERROR_DATASERVICE_MDB_PUT_FAILURE else
  let! rc := mdb_put txn pq_db (txn_node_key end_) end_ 0 in
  if negb (rc =? 0) then throw AGENTD_ERROR_DATASERVICE_MDB_PUT_FAILURE else
  ok tt.

Definition dataservice_transaction_submit_update_prev (txn : MDB_txn) (txn_id prev : bytes)
  : Eff W unit :=
  let! '(rc, prev_node) := mdb_get txn pq_db prev in
  if negb (rc =? 0) then throw AGENTD_ERROR_DATASERVICE_MDB_GET_FAILURE else
  let prev_size :=
    wrap64 (Z.of_nat sizeof_txn_node + ntohll (txn_node_net_txn_cert_size prev_node)) in
  let! mem := malloc prev_size in
  if negb mem then throw AGENTD_ERROR_GENERAL_OUT_OF_MEMORY else
  let node := set_txn_node_next txn_id (take (Z.to_nat prev_size) prev_node) in
  let! rc := mdb_put txn pq_db prev node 0 in
  if negb (rc =? 0) then throw AGENTD_ERROR_DATASERVICE_MDB_PUT_FAILURE else
  ok tt.

Definition dataservice_transaction_submit_update_end (txn : MDB_txn) (txn_id curr_end : bytes)
  : Eff W unit :=
  let end_ := set_txn_node_prev txn_id (take sizeof_txn_node curr_end) in
  let! rc := mdb_put txn pq_db (txn_node_key end_) end_ 0 in
  if negb (rc =? 0) then throw AGENTD_ERROR_DATASERVICE_MDB_PUT_FAILURE else
  ok tt.

(** The state a transaction enters the queue with. *)
Definition submit_state : Z :=
  if ATTESTATION then DATASERVICE_TRANSACTION_NODE_STATE_SUBMITTED
  else DATASERVICE_TRANSACTION_NODE_STATE_ATTESTED.

(** The node [dataservice_transaction_submit] allocates and fills. *)
Definition submit_newnode (end_node : option bytes) (txn_id artifact_id txn_bytes : bytes)
  : bytes :=
  let newnode := memset Byte.x00 (sizeof_txn_node + length txn_bytes) in
  let newnode := splice sizeof_txn_node txn_bytes newnode in
  let newnode := set_txn_node_key txn_id newnode in
  let newnode := set_txn_node_next (memset Byte.xff 16) newnode in
  let newnode := set_txn_node_artifact_id artifact_id newnode in
  let newnode := set_txn_node_net_txn_cert_size (htonll (sizeof txn_bytes)) newnode in
  let newnode := set_txn_node_net_txn_state (htonl submit_state) newnode in
  match end_node with
  | Some e => set_txn_node_prev (txn_node_prev e) newnode
  | None => set_txn_node_prev (memset Byte.x00 16) newnode
  end.

Definition dataservice_transaction_submit (child : dataservice_child_context)
    (dtxn_ctx : option MDB_txn) (txn_id artifact_id txn_bytes : bytes) : Eff W unit :=
  if negb (BITCAP_ISSET (childcaps child) DATASERVICE_API_CAP_APP_PQ_TRANSACTION_SUBMIT)
  then throw AGENTD_ERROR_DATASERVICE_NOT_AUTHORIZED else
  in_txn dtxn_ctx (λ txn,
    let! '(rc, lval) := mdb_get_cleared txn pq_db (memset Byte.xff 16) in
    let* end_node :=
      if rc =? MDB_NOTFOUND then ok None
      else if rc =? 0 then
        if (length lval <? sizeof_txn_node)%nat
        then throw AGENTD_ERROR_DATASERVICE_INVALID_STORED_TRANSACTION_NODE
        else ok (Some lval)
      else throw AGENTD_ERROR_DATASERVICE_MDB_GET_FAILURE in
    let! mem := malloc (Z.of_nat (sizeof_txn_node + length txn_bytes)) in
    if negb mem then throw AGENTD_ERROR_GENERAL_OUT_OF_MEMORY else
    let newnode := submit_newnode end_node txn_id artifact_id txn_bytes in
    let! rc := mdb_put txn pq_db (txn_node_key newnode) newnode MDB_NOOVERWRITE in
    if negb (rc =? 0) then throw AGENTD_ERROR_DATASERVICE_MDB_PUT_FAILURE else
    match end_node with
    | None => dataservice_transaction_submit_create_queue txn txn_id
    | Some e =>
        let* _ := dataservice_transaction_submit_update_prev txn txn_id (txn_node_prev e) in
        dataservice_transaction_submit_update_end txn txn_id e
    end).

(** ** Removal and promotion *)

Definition dataservice_transaction_drop_fixup_prev_next (del_txn : MDB_txn) (node : bytes)
  : Eff W unit :=
  let! '(rc, lval) := mdb_get_cleared del_txn pq_db (txn_node_prev node) in
  if negb (rc =? 0) || (length lval <? sizeof_txn_node)%nat
  then throw AGENTD_ERROR_DATASERVICE_MDB_GET_FAILURE else
  let! mem := malloc (sizeof lval) in
  if negb mem then throw AGENTD_ERROR_GENERAL_OUT_OF_MEMORY else
  let prev := set_txn_node_next (txn_node_next node) lval in
  let! rc := mdb_put del_txn pq_db (txn_node_prev node) prev 0 in
  if negb (rc =? 0) then throw AGENTD_ERROR_DATASERVICE_MDB_PUT_FAILURE else
  let! '(rc, lval) := mdb_get_cleared del_txn pq_db (txn_node_next node) in
  if negb (rc =? 0) || (length lval <? sizeof_txn_node)%nat
  then throw AGENTD_ERROR_DATASERVICE_MDB_GET_FAILURE else
  let! mem := malloc (sizeof lval) in
  if negb mem then throw AGENTD_ERROR_GENERAL_OUT_OF_MEMORY else
  let next := set_txn_node_prev (txn_node_prev node) lval in
  let! rc := mdb_put del_txn pq_db (txn_node_next node) next 0 in
  if negb (rc =? 0) then throw AGENTD_ERROR_DATASERVICE_MDB_PUT_FAILURE else
  ok tt.

(** The identifiers of the start and end nodes "are never found". *)
Definition is_sentinel (txn_id : bytes) : bool :=
  bool_decide (txn_id = memset Byte.x00 16) || bool_decide (txn_id = memset Byte.xff 16).

Definition dataservice_transaction_drop_internal (dtxn_ctx : option MDB_txn) (txn_id : bytes)
  : Eff W unit :=
  if is_sentinel txn_id then throw AGENTD_ERROR_DATASERVICE_NOT_FOUND else
  in_txn_or_parent dtxn_ctx (λ del_txn,
    let! '(rc, lval) := mdb_get_cleared del_txn pq_db txn_id in
    if (rc =? MDB_NOTFOUND) || (length lval <? sizeof_txn_node)%nat
    then throw AGENTD_ERROR_DATASERVICE_NOT_FOUND
    else if negb (rc =? 0) then throw AGENTD_ERROR_DATASERVICE_MDB_GET_FAILURE else
    let node := take sizeof_txn_node lval in
    let! rc := mdb_del del_txn pq_db txn_id in
    if rc =? MDB_NOTFOUND then throw AGENTD_ERROR_DATASERVICE_NOT_FOUND
    else if negb (rc =? 0) then throw AGENTD_ERROR_DATASERVICE_MDB_DEL_FAILURE else
    dataservice_transaction_drop_fixup_prev_next del_txn node).

Definition dataservice_transaction_drop (child : dataservice_child_context)
    (dtxn_ctx : option MDB_txn) (txn_id : bytes) : Eff W unit :=
  if negb (BITCAP_ISSET (childcaps child) DATASERVICE_API_CAP_APP_PQ_TRANSACTION_DROP)
  then throw AGENTD_ERROR_DATASERVICE_NOT_AUTHORIZED
  else dataservice_transaction_drop_internal dtxn_ctx txn_id.

Definition dataservice_transaction_promote_internal (dtxn_ctx : option MDB_txn) (txn_id : bytes)
  : Eff W unit :=
  if is_sentinel txn_id then throw AGENTD_ERROR_DATASERVICE_NOT_FOUND else
  in_txn_or_parent dtxn_ctx (λ update_txn,
    let! '(rc, lval) := mdb_get_cleared update_txn pq_db txn_id in
    if (rc =? MDB_NOTFOUND) || (length lval <? sizeof_txn_node)%nat
    then throw AGENTD_ERROR_DATASERVICE_NOT_FOUND
    else if negb (rc =? 0) then throw AGENTD_ERROR_DATASERVICE_MDB_GET_FAILURE else
    let! mem := malloc (sizeof lval) in
    if negb mem then throw AGENTD_ERROR_GENERAL_OUT_OF_MEMORY else
    let node :=
      set_txn_node_net_txn_state (htonl DATASERVICE_TRANSACTION_NODE_STATE_ATTESTED) lval in
    let! rc := mdb_put update_txn pq_db txn_id node 0 in
    if negb (rc =? 0) then throw AGENTD_ERROR_DATASERVICE_MDB_PUT_FAILURE else
    ok tt).

Definition dataservice_transaction_promote (child : dataservice_child_context)
    (dtxn_ctx : option MDB_txn) (txn_id : bytes) : Eff W unit :=
  if negb (BITCAP_ISSET (childcaps child) DATASERVICE_API_CAP_APP_PQ_TRANSACTION_PROMOTE)
  then throw AGENTD_ERROR_DATASERVICE_NOT_AUTHORIZED
  else dataservice_transaction_promote_internal dtxn_ctx txn_id.

(** ** Queries

    The result is the node structure and the certificate.  The certificate is
    a copy only when the function owns the transaction. *)

(** The common tail of the transaction queries: look [txn_id] up in the database
    [d], check its size and copy it out. *)
Definition transaction_get_entry (d : dbi) (parent : option MDB_txn) (query_txn : MDB_txn)
    (txn_id : bytes)
  : Eff W (bytes * bytes) :=
  let! '(rc, bdata) := mdb_get_cleared query_txn d txn_id in
  if rc =? MDB_NOTFOUND then throw AGENTD_ERROR_DATASERVICE_NOT_FOUND
  else if negb (rc =? 0) then throw AGENTD_ERROR_DATASERVICE_MDB_GET_FAILURE
  else if (length bdata <=? sizeof_txn_node)%nat
  then throw AGENTD_ERROR_DATASERVICE_INVALID_STORED_TRANSACTION_NODE else
  let data_size := ntohll (txn_node_net_txn_cert_size bdata) in
  let txn_size := sizeof bdata - Z.of_nat sizeof_txn_node in
  if negb (txn_size =? data_size)
  then throw AGENTD_ERROR_DATASERVICE_INVALID_STORED_TRANSACTION_NODE else
  let! mem := match parent with None => malloc txn_size | Some _ => ret true end in
  if negb mem then throw AGENTD_ERROR_GENERAL_OUT_OF_MEMORY else
  ok (take sizeof_txn_node bdata, drop sizeof_txn_node bdata).

Definition dataservice_transaction_get (child : dataservice_child_context)
    (dtxn_ctx : option MDB_txn) (txn_id : bytes) : Eff W (bytes * bytes) :=
  if negb (BITCAP_ISSET (childcaps child) DATASERVICE_API_CAP_APP_PQ_TRANSACTION_READ)
  then throw AGENTD_ERROR_DATASERVICE_NOT_AUTHORIZED else
  in_query_txn dtxn_ctx (λ query_txn, transaction_get_entry pq_db dtxn_ctx query_txn txn_id).

Definition dataservice_transaction_get_first (child : dataservice_child_context)
    (dtxn_ctx : option MDB_txn) : Eff W (bytes * bytes) :=
  if negb (BITCAP_ISSET (childcaps child) DATASERVICE_API_CAP_APP_PQ_TRANSACTION_FIRST_READ)
  then throw AGENTD_ERROR_DATASERVICE_NOT_AUTHORIZED else
  let parent_flags := match dtxn_ctx with Some _ => 0 | None => MDB_RDONLY end in
  let! '(rc, txn) := mdb_txn_begin dtxn_ctx parent_flags in
  if negb (rc =? 0) then throw AGENTD_ERROR_DATASERVICE_MDB_TXN_BEGIN_FAILURE else
  let! '(rc, first_node) := mdb_get_cleared txn pq_db (memset Byte.x00 16) in
  let! _ := mdb_txn_abort txn in
  if rc =? MDB_NOTFOUND then throw AGENTD_ERROR_DATASERVICE_NOT_FOUND
  else if negb (rc =? 0) then throw AGENTD_ERROR_DATASERVICE_MDB_GET_FAILURE
  else if (length first_node <? sizeof_txn_node)%nat
  then throw AGENTD_ERROR_DATASERVICE_INVALID_STORED_TRANSACTION_NODE
  else if bool_decide (txn_node_next first_node = memset Byte.xff 16)
  then throw AGENTD_ERROR_DATASERVICE_NOT_FOUND else
  let key := txn_node_next first_node in
  in_query_txn dtxn_ctx (λ query_txn, transaction_get_entry pq_db dtxn_ctx query_txn key).

(** ** Explicit transactions *)

(** [dataservice_data_txn_begin] returns success whatever [mdb_txn_begin]
    returns; the handle is valid when the second component is true. *)
Definition dataservice_data_txn_begin (parent : option MDB_txn) (read_only : bool)
  : Eff W (MDB_txn * bool) :=
  let! '(rc, txn) :=
    if bool_decide (parent = None) && read_only
    then mdb_txn_begin None MDB_RDONLY
    else mdb_txn_begin parent 0 in
  ok (txn, rc =? 0).

Definition dataservice_data_txn_commit (txn : MDB_txn) : Act W unit :=
  let! _ := mdb_txn_commit txn in ret tt.

Definition dataservice_data_txn_abort (txn : MDB_txn) : Act W unit := mdb_txn_abort txn.
End pq.
