(* ===== verification/ProcessQueueSpec.v ===== *)
(** * Correctness of the process queue

    Every operation of [ProcessQueue] implements the operation of the same name
    on abstract queues ([PqRep]), atomically: a failure leaves all six
    databases as they were, and a failure that is not an outside fault happens
    exactly when the abstract operation fails.  In the end the operations are put
    together as one data type. *)

From S2P Require Import Prelude Inet StatusCodes Contexts Lmdb Txn Records Sim PqRep ProcessQueue.

(** The databases after an operation that changes the process queue to [q]. *)
Definition pq_update (P : dbs) (q : list pq_entry) (V : dbs) : Prop :=
  pq_rep (V pq_db) q ∧ ∀ d, d ≠ pq_db → V d = P d.

Definition new_entry (ATTESTATION : bool) (txn_id artifact_id txn_bytes : bytes) : pq_entry :=
  PqEntry txn_id artifact_id (submit_state ATTESTATION) txn_bytes.

Lemma pq_rep_wf m q : pq_rep m q → wf_queue q.
Proof. intros [[-> ->]|[]]; [apply wf_queue_nil|done]. Qed.

(** Looking up an identifier that is not a sentinel. *)
Lemma pq_rep_lookup m q id :
  pq_rep m q → id ≠ zero_uuid → id ≠ ff_uuid →
  match m !! id with
  | Some v => pq_list m q ∧ ∃ q1 e q2, q = q1 ++ e :: q2 ∧ pe_id e = id ∧ find_entry id q = Some e ∧
                v = entry_value (last_id q1) (first_id q2) e
  | None => id ∉ pe_id <$> q ∧ find_entry id q = None
  end.
Proof.
  intros [[-> ->]|Hm] Hz Hf; [by rewrite lookup_empty; set_solver|].
  destruct (m !! id) as [v|] eqn:E.
  - destruct (pq_dom _ _ Hm id ltac:(eauto)) as [?|[?|Hin]]; [done..|].
    apply list_elem_of_fmap in Hin as (e&->&(q1&q2&->)%list_elem_of_split).
    rewrite (pq_entry_at _ _ Hm q1 e q2 eq_refl) in E. simplify_eq.
    split; [done|]. exists q1, e, q2. split_and!; [done..| |done]. by apply find_entry_middle, (pq_wf _ _ Hm).
  - rewrite find_entry_None. split; intros (e&->&(q1&q2&->)%list_elem_of_split)%list_elem_of_fmap;
      by rewrite (pq_entry_at _ _ Hm q1 e q2 eq_refl) in E.
Qed.

(** A failed read reports [NOT_FOUND] because the cleared value is too short. *)
Ltac get_fault :=
  intros; change (length (@nil byte) <? sizeof_txn_node)%nat with true; rewrite ?orb_true_r; txn_fail.

Section spec.
Context {W : Type} {L : LMDB W} {LL : LMDB_laws W}.
Context (ATTESTATION : bool).

(** ** Submission *)

(** The allocated node is the stored form of the new entry. *)
Lemma submit_newnode_value end_ prev id art cert :
  wf_entry (new_entry ATTESTATION id art cert) → is_uuid prev →
  match end_ with Some v => txn_node_prev v = prev | None => prev = zero_uuid end →
  submit_newnode ATTESTATION end_ id art cert
  = entry_value prev ff_uuid (new_entry ATTESTATION id art cert).
Proof.
  intros [Hid Hart Hst Hcert] Hp Hend. simpl in Hid, Hart, Hst, Hcert.
  unfold submit_newnode. cbv zeta.
  assert (splice sizeof_txn_node cert (memset Byte.x00 (sizeof_txn_node + length cert))
          = memset Byte.x00 sizeof_txn_node ++ cert) as ->.
  { rewrite memset_add. apply splice_tail; by rewrite ?length_memset. }
  rewrite txn_node_zero.
  assert (0 ≤ sizeof cert < 2 ^ 64) by (unfold sizeof in *; lia).
  rewrite txn_node_set_key by (apply wf_zero_txn_node || done).
  change (memset Byte.xff 16) with ff_uuid. change (memset Byte.x00 16) with zero_uuid.
  rewrite txn_node_set_next, txn_node_set_artifact_id, txn_node_set_cert_size,
    txn_node_set_state by (try done; constructor; simpl; auto; lia).
  simpl. destruct end_; subst; rewrite txn_node_set_prev; try done;
    constructor; simpl; auto.
Qed.

Lemma create_queue_spec t p P V id w :
  txn_state true w t p P V → is_uuid id →
  post (dataservice_transaction_submit_create_queue t id)
    (txn_outcome t p P
       (λ _, db_changed pq_db
          (<[ff_uuid := enc_txn_node (end_node id)]>
             (<[zero_uuid := enc_txn_node (start_node id)]> (V pq_db))) V)
       (λ _, False)) w.
Proof.
  intros Ht Hid. unfold dataservice_transaction_submit_create_queue.
  rewrite start_node_bytes, end_node_bytes by done. cbv zeta.
  rewrite !txn_node_key_enc' by auto using wf_start, wf_end. simpl tn_key.
  post_step. eapply post_put; [done| |intros; txn_fail; naive_solver].
  intros w1 _ H1. simpl. post_step. eapply post_put; [done| |intros; txn_fail; naive_solver].
  intros w2 _ H2. post_steps. eexists. split; [done|]. cbn beta iota.
  autorewrite with db in *. eapply db_changed_trans; eauto.
Qed.

Lemma update_prev_spec t p P V a next id w :
  txn_state true w t p P V → Forall wf_entry a → is_uuid next → is_uuid id →
  V pq_db !! last_id a = Some (node_before a next) →
  post (dataservice_transaction_submit_update_prev t id (last_id a))
    (txn_outcome t p P
       (λ _, db_changed pq_db (<[last_id a := node_before a id]> (V pq_db)) V) (λ _, False)) w.
Proof.
  intros Ht Ha Hn Hid Hm. unfold dataservice_transaction_submit_update_prev.
  post_step. eapply post_get; [done| |by intros; simplify_eq|intros; txn_fail].
  intros v w1 Hv H1. rewrite Hm in Hv. simplify_eq.
  destruct (node_before_size a next Ha Hn) as [Hsz Hlt].
  rewrite <- Hsz, wrap64_small by (unfold sizeof in *; lia).
  assert (take (Z.to_nat (sizeof (node_before a next))) (node_before a next) = node_before a next) as ->.
  { apply take_ge. unfold sizeof. lia. }
  rewrite node_before_set_next by done.
  post_steps. eapply post_malloc_txn; [done| |].
  - intros w2 H2. post_steps. eapply post_put; [done| |intros; txn_fail; naive_solver].
    intros w3 _ H3. post_steps. eexists. split; [done|]. cbn beta iota. auto.
  - intros w2 [Hle|Hf] H2; [|txn_fail].
    pose proof (node_before_len a next Ha Hn). unfold sizeof, sizeof_txn_node in *. lia.
Qed.

Lemma update_end_spec t p P V prev id w :
  txn_state true w t p P V → is_uuid prev → is_uuid id →
  post (dataservice_transaction_submit_update_end t id (enc_txn_node (end_node prev)))
    (txn_outcome t p P
       (λ _, db_changed pq_db (<[ff_uuid := enc_txn_node (end_node id)]> (V pq_db)) V)
       (λ _, False)) w.
Proof.
  intros Ht Hp Hid. unfold dataservice_transaction_submit_update_end. cbv zeta.
  rewrite take_ge by (by rewrite length_enc_txn_node by by apply wf_end).
  pose proof (node_after_set_prev [] prev id) as Hset. simpl in Hset. rewrite Hset by done.
  rewrite txn_node_key_enc' by (by apply wf_end). simpl tn_key.
  post_step. eapply post_put; [done| |intros; txn_fail; naive_solver].
  intros w1 _ H1. post_steps. eexists. split; [done|]. cbn beta iota. auto.
Qed.

(** What [mdb_get] finds at the end of the queue. *)
Lemma pq_rep_end m q :
  pq_rep m q →
  match m !! ff_uuid with
  | Some v => pq_list m q ∧ v = enc_txn_node (end_node (last_id q))
  | None => m = ∅ ∧ q = []
  end.
Proof. intros [[-> ->]|Hm]; [by rewrite lookup_empty|]. by rewrite (pq_end _ _ Hm). Qed.

Lemma pq_rep_fresh m q id :
  pq_rep m q → id ≠ zero_uuid → id ≠ ff_uuid →
  (m !! id = None → id ∉ pe_id <$> q) ∧ (is_Some (m !! id) → id ∈ pe_id <$> q).
Proof.
  intros Hm Hz Hf. pose proof (pq_rep_lookup m q id Hm Hz Hf) as Hl.
  destruct (m !! id) eqn:E.
  - split; [done|]. intros _. destruct Hl as (_&q1&e&q2&->&<-&_). in_part.
  - split; [naive_solver|]. by intros [? [=]].
Qed.

Lemma submit_body_append t p P V q e w :
  txn_state true w t p P (db_set pq_db (<[pe_id e := entry_value (last_id q) ff_uuid e]> (P pq_db)) V) →
  (∀ d, d ≠ pq_db → V d = P d) →
  pq_list (P pq_db) q → wf_entry e → pe_id e ∉ zero_uuid :: ff_uuid :: (pe_id <$> q) →
  post (let* _ := dataservice_transaction_submit_update_prev t (pe_id e) (last_id q) in
        dataservice_transaction_submit_update_end t (pe_id e) (enc_txn_node (end_node (last_id q))))
    (txn_outcome t p P (λ _, pq_update P (q ++ [e])) (λ _, False)) w.
Proof.
  intros Ht HV Hm He Hid. pose proof (pq_wf _ _ Hm) as [Hq _].
  pose proof (last_id_uuid q Hq) as Hl. pose proof (wf_pe_id _ He) as Hi.
  post_step. eapply post_mono; [eapply (update_prev_spec _ _ _ _ q ff_uuid); eauto|].
  { autorewrite with db. rewrite lookup_insert_ne.
    - rewrite <- (app_nil_r q) in Hm. by rewrite (pq_list_before _ _ _ Hm).
    - intros Heq. apply Hid. rewrite Heq. pose proof (cut_start q). set_solver. }
  intros [[]|s] w1 (V1&H1&Hr); [|eexists; eauto]. cbn beta iota in *.
  eapply post_mono; [by eapply update_end_spec|].
  intros [[]|s] w2 (V2&H2&Hr2); eexists; eauto. split; [done|].
  pose proof (db_changed_trans _ _ _ _ _ _ Hr Hr2) as [Hpq Hother].
  split.
  - right. rewrite Hpq. rewrite (proj1 Hr). autorewrite with db. by apply pq_list_submit.
  - intros d Hd. rewrite Hother by done. autorewrite with db. auto.
Qed.

Lemma submit_ok p P q child id art cert w :
  env_state w p P → pq_rep (P pq_db) q →
  is_uuid id → id ≠ zero_uuid → id ≠ ff_uuid → is_uuid art → sizeof cert < 2 ^ 63 →
  BITCAP_ISSET (childcaps child) DATASERVICE_API_CAP_APP_PQ_TRANSACTION_SUBMIT = true →
  post (dataservice_transaction_submit ATTESTATION child p id art cert)
    (outcome p P
       (λ _ V, id ∉ pe_id <$> q ∧ pq_update P (q ++ [new_entry ATTESTATION id art cert]) V)
       (λ s, id ∈ pe_id <$> q ∧ s = AGENTD_ERROR_DATASERVICE_MDB_PUT_FAILURE)) w.
Proof.
  intros Hst Hm Hid Hz Hf Hart Hcert Hcap. unfold dataservice_transaction_submit. rewrite Hcap. simpl negb.
  apply post_in_txn; [done|]. intros t w' Ht.
  assert (wf_entry (new_entry ATTESTATION id art cert)) as He.
  { constructor; simpl; auto. by destruct ATTESTATION. }
  pose proof (pq_rep_end _ _ Hm) as Hend. pose proof (pq_rep_fresh _ _ id Hm Hz Hf) as [Hfr Hdup].
  pose proof (pq_rep_wf _ _ Hm) as [Hq _]. pose proof (last_id_uuid q Hq) as Hl.
  post_step. eapply post_get_cleared; [done|..].
  3: { intros; txn_fail. }
  - intros v w1 Hv H1. change (memset Byte.xff 16) with ff_uuid in Hv. rewrite Hv in Hend.
    destruct Hend as [Hpl ->]. pose proof (wf_end _ Hl) as Hwe.
    rc_known. rewrite length_enc_txn_node, Nat.ltb_irrefl by done. post_steps.
    eapply post_malloc_txn; [done| |intros ? [?|?]; [unfold sizeof_txn_node in *; lia|intros; txn_fail]].
    intros w2 H2. cbv zeta. rewrite (submit_newnode_value _ (last_id q)) by
      (try done; by destruct (txn_node_fields _ [] Hwe) as (_&Hp&_); rewrite app_nil_r in Hp).
    unfold entry_value at 1. rewrite txn_node_key_enc by (by apply wf_entry_node). simpl tn_key.
    post_steps. eapply post_put; [done| |intros rc w3 V3 ? [[_ ?]|?] ?; txn_fail].
    intros w3 Hno H3. post_cbn.
    destruct (txn_node_fields _ [] Hwe) as (_&Hp&_). rewrite app_nil_r in Hp. rewrite Hp.
    eapply post_mono; [eapply (submit_body_append _ _ _ P q (new_entry ATTESTATION id art cert)); eauto|].
    + simpl. pose proof (Hfr (Hno eq_refl)). set_solver.
    + intros [[]|s] w4 (V4&H4&Hr); eexists; (split; [done|]); naive_solver.
  - intros w1 Hv H1. change (memset Byte.xff 16) with ff_uuid in Hv. rewrite Hv in Hend.
    destruct Hend as [Hemp ->]. rc_known. post_steps.
    eapply post_malloc_txn; [done| |intros ? [?|?]; [unfold sizeof_txn_node in *; lia|intros; txn_fail]].
    intros w2 H2. cbv zeta. rewrite (submit_newnode_value _ zero_uuid) by done.
    unfold entry_value at 1. rewrite txn_node_key_enc by (by apply wf_entry_node). simpl tn_key.
    post_steps. eapply post_put; [done| |intros rc w3 V3 ? [[_ ?]|?] ?; txn_fail].
    intros w3 Hno H3. post_steps.
    eapply post_mono; [by eapply create_queue_spec|].
    intros [[]|s] w4 (V4&H4&Hr); eexists; (split; [done|]); [|naive_solver].
    split; [set_solver|]. split.
    + right. rewrite (proj1 Hr). autorewrite with db. rewrite Hemp.
      by apply (pq_list_create (new_entry ATTESTATION id art cert)).
    + intros d Hd. rewrite (proj2 Hr) by done. by autorewrite with db.
Qed.

(** ** Removal *)

(** The fixup rewrites the two neighbours, whatever else is stored. *)
Lemma drop_fixup_spec t p P V a b e w :
  txn_state true w t p P V → Forall wf_entry a → Forall wf_entry b → wf_entry e →
  last_id a ≠ first_id b →
  V pq_db !! last_id a = Some (node_before a (pe_id e)) →
  V pq_db !! first_id b = Some (node_after b (pe_id e)) →
  post (dataservice_transaction_drop_fixup_prev_next t
          (enc_txn_node (entry_node (last_id a) (first_id b) e)))
    (txn_outcome t p P
       (λ _, db_changed pq_db
          (<[first_id b := node_after b (last_id a)]>
             (<[last_id a := node_before a (first_id b)]> (V pq_db))) V)
       (λ _, False)) w.
Proof.
  intros Ht Ha Hb He Hne Hma Hmb. pose proof (wf_pe_id _ He) as Hi.
  pose proof (last_id_uuid a Ha) as Hl. pose proof (first_id_uuid b Hb) as Hf.
  destruct (txn_node_fields _ [] (wf_entry_node _ _ _ Hl Hf He)) as (_&Hp&Hn&_).
  rewrite app_nil_r in Hp, Hn. simpl in Hp, Hn.
  pose proof (node_before_len a _ Ha Hi) as Hla. pose proof (node_after_len b _ Hb Hi) as Hlb.
  unfold dataservice_transaction_drop_fixup_prev_next. rewrite Hp, Hn. post_step.
  eapply post_get_cleared; [done| |by intros; simplify_eq|intros; txn_fail].
  intros v w1 Hv H1. rewrite Hma in Hv. injection Hv as <-. rewrite (proj2 (Nat.ltb_ge _ _) Hla).
  rewrite node_before_set_next by done. post_steps.
  eapply post_malloc_txn; [done| |intros ? [?|?]; [unfold sizeof, sizeof_txn_node in *; lia|intros; txn_fail]].
  intros w2 H2. post_steps. eapply post_put; [done| |intros; txn_fail; naive_solver].
  intros w3 _ H3. post_steps. eapply post_get_cleared; [done| | |intros; txn_fail];
    autorewrite with db; rewrite lookup_insert_ne, Hmb by done; [|done].
  intros v w4 [= <-] H4. rewrite (proj2 (Nat.ltb_ge _ _) Hlb).
  rewrite node_after_set_prev by done. post_steps.
  eapply post_malloc_txn; [done| |intros ? [?|?]; [unfold sizeof, sizeof_txn_node in *; lia|intros; txn_fail]].
  intros w5 H5. post_steps. eapply post_put; [done| |intros; txn_fail; naive_solver].
  intros w6 _ H6. post_steps. eexists. split; [done|]. cbn beta iota.
  autorewrite with db. eapply db_changed_trans; eauto.
Qed.

Lemma entry_value_take prev next e :
  is_uuid prev → is_uuid next → wf_entry e →
  take sizeof_txn_node (entry_value prev next e) = enc_txn_node (entry_node prev next e) ∧
  drop sizeof_txn_node (entry_value prev next e) = pe_cert e.
Proof.
  intros. unfold entry_value.
  rewrite <- (length_enc_txn_node (entry_node prev next e)) by (by apply wf_entry_node).
  by rewrite take_app_length, drop_app_length.
Qed.

Lemma is_sentinel_case id q :
  wf_queue q → if is_sentinel id then id ∉ pe_id <$> q else id ≠ zero_uuid ∧ id ≠ ff_uuid.
Proof.
  intros [_ Hnd]. rewrite !NoDup_cons, not_elem_of_cons in Hnd. unfold is_sentinel.
  case_bool_decide; [naive_solver|]. case_bool_decide; naive_solver.
Qed.

(** Inside the caller's transaction [t]. *)
Lemma drop_body_spec t p P V q id w :
  txn_state true w t p P V → pq_rep (V pq_db) q →
  post (dataservice_transaction_drop_internal (Some t) id)
    (txn_outcome t p P
       (λ _ V', id ∈ pe_id <$> q ∧ pq_update V (drop_entry id q) V')
       (λ s, id ∉ pe_id <$> q ∧ s = AGENTD_ERROR_DATASERVICE_NOT_FOUND)) w.
Proof.
  intros Ht Hm. unfold dataservice_transaction_drop_internal.
  pose proof (pq_rep_wf _ _ Hm) as Hwf. pose proof (is_sentinel_case id q Hwf) as Hs.
  destruct (is_sentinel id); [txn_fail|]. destruct Hs as [Hz Hf]. pose proof (pq_rep_lookup _ _ id Hm Hz Hf) as Hl.
  unfold in_txn_or_parent. post_step.
  eapply post_get_cleared; [done| |intros w1 Hv H1; rewrite Hv in Hl; txn_fail; naive_solver|get_fault].
  intros v w1 Hv H1. rewrite Hv in Hl. destruct Hl as (Hpl&a&e&b&->&<-&_&->).
  pose proof (wf_queue_app _ _ Hwf) as [[Ha _] [Hb _]]. apply Forall_cons in Hb as [He Hb].
  pose proof (last_id_uuid a Ha) as Hla. pose proof (first_id_uuid b Hb) as Hfb.
  rewrite length_entry_value by done. rewrite (proj2 (Nat.ltb_ge _ _)) by lia. rc_known.
  destruct (entry_value_take (last_id a) (first_id b) e) as [-> _]; [done..|]. cbv zeta.
  post_steps. eapply post_del; [done| |by intros w2 V2 Hn; rewrite Hv in Hn|intros; txn_fail].
  intros w2 _ H2. rc_known.
  assert (pe_id e ≠ first_id b) as Hne.
  { rewrite <- (last_id_snoc a e). apply cut_ne. by rewrite <- app_assoc. }
  pose proof (last_id_notin _ _ _ Hwf) as Hne'.
  eapply post_mono; [eapply drop_fixup_spec; eauto|].
  - apply cut_ne. by eapply wf_queue_drop.
  - autorewrite with db. rewrite lookup_delete_ne by done. by apply (pq_list_before _ a (e :: b)).
  - autorewrite with db. rewrite lookup_delete_ne by done.
    rewrite <- (last_id_snoc a e). apply pq_list_after. by rewrite <- app_assoc.
  - intros [[]|s] w3 (V3&H3&Hr); eexists; (split; [done|]); [|naive_solver].
    split; [in_part|]. rewrite drop_entry_split by done. split.
    + right. rewrite (proj1 Hr). autorewrite with db. by apply pq_list_drop.
    + intros d Hd. rewrite (proj2 Hr) by done. by autorewrite with db.
Qed.

(** A function that refuses the sentinels and otherwise works in a transaction:
    what it does in the caller's transaction decides what it does alone. *)
Lemma post_sentinel_txn {A : Type} (f : MDB_txn → Eff W A) P q id R (E : Z → Prop) w :
  env_state w None P → pq_rep (P pq_db) q →
  (id ∉ pe_id <$> q → E AGENTD_ERROR_DATASERVICE_NOT_FOUND) →
  (∀ t w', txn_state true w' t None P P →
     post (if is_sentinel id then throw AGENTD_ERROR_DATASERVICE_NOT_FOUND
           else in_txn_or_parent (Some t) f) (txn_outcome t None P R E) w') →
  post (if is_sentinel id then throw AGENTD_ERROR_DATASERVICE_NOT_FOUND
        else in_txn_or_parent None f) (outcome None P R E) w.
Proof.
  intros Hst Hm HE Hf. pose proof (is_sentinel_case id q (pq_rep_wf _ _ Hm)) as Hs.
  destruct (is_sentinel id); [post_steps; simpl; auto|]. by apply post_in_txn.
Qed.

Lemma drop_ok P q child id w :
  env_state w None P → pq_rep (P pq_db) q →
  BITCAP_ISSET (childcaps child) DATASERVICE_API_CAP_APP_PQ_TRANSACTION_DROP = true →
  post (dataservice_transaction_drop child None id)
    (outcome None P
       (λ _ V, id ∈ pe_id <$> q ∧ pq_update P (drop_entry id q) V)
       (λ s, id ∉ pe_id <$> q ∧ s = AGENTD_ERROR_DATASERVICE_NOT_FOUND)) w.
Proof.
  intros Hst Hm Hcap. unfold dataservice_transaction_drop. rewrite Hcap. simpl negb.
  eapply post_sentinel_txn; [done..|auto|]. intros t w' Ht. by apply drop_body_spec.
Qed.

(** ** Promotion *)

Lemma promote_body_spec t p P V q id w :
  txn_state true w t p P V → pq_rep (V pq_db) q →
  post (dataservice_transaction_promote_internal (Some t) id)
    (txn_outcome t p P
       (λ _ V', id ∈ pe_id <$> q ∧ pq_update V (promote_entry id q) V')
       (λ s, id ∉ pe_id <$> q ∧ s = AGENTD_ERROR_DATASERVICE_NOT_FOUND)) w.
Proof.
  intros Ht Hm. unfold dataservice_transaction_promote_internal.
  pose proof (pq_rep_wf _ _ Hm) as Hwf. pose proof (is_sentinel_case id q Hwf) as Hs.
  destruct (is_sentinel id); [txn_fail|]. destruct Hs as [Hz Hf].
  pose proof (pq_rep_lookup _ _ id Hm Hz Hf) as Hl. unfold in_txn_or_parent. post_step.
  eapply post_get_cleared; [done| |intros w1 Hv H1; rewrite Hv in Hl; txn_fail; naive_solver|get_fault].
  intros v w1 Hv H1. rewrite Hv in Hl. destruct Hl as (Hpl&a&e&b&->&<-&_&->).
  pose proof (wf_queue_app _ _ Hwf) as [[Ha _] [Hb _]]. apply Forall_cons in Hb as [He Hb].
  pose proof (last_id_uuid a Ha) as Hla. pose proof (first_id_uuid b Hb) as Hfb.
  pose proof (wf_entry_node _ _ _ Hla Hfb He) as Hn.
  assert (length (entry_value (last_id a) (first_id b) e) = sizeof_txn_node + length (pe_cert e))%nat
    as Hlen by (by apply length_entry_value).
  rewrite (proj2 (Nat.ltb_ge _ _)) by lia. rc_known. post_steps.
  eapply post_malloc_txn; [done| |intros ? [?|?]; [unfold sizeof, sizeof_txn_node in *; lia|intros; txn_fail]].
  intros w2 H2. unfold entry_value. rewrite txn_node_set_state by done.
  post_steps. eapply post_put; [done| |intros; txn_fail; naive_solver].
  intros w3 _ H3. post_steps. eexists. split; [done|]. cbn beta iota. split; [in_part|].
  rewrite promote_entry_split by done. split; [right|intros d Hd; by autorewrite with db].
  autorewrite with db. apply (pq_list_replace _ a b e (attest_entry e)); [done| |done].
  destruct He. by constructor.
Qed.

Lemma promote_ok P q child id w :
  env_state w None P → pq_rep (P pq_db) q →
  BITCAP_ISSET (childcaps child) DATASERVICE_API_CAP_APP_PQ_TRANSACTION_PROMOTE = true →
  post (dataservice_transaction_promote child None id)
    (outcome None P
       (λ _ V, id ∈ pe_id <$> q ∧ pq_update P (promote_entry id q) V)
       (λ s, id ∉ pe_id <$> q ∧ s = AGENTD_ERROR_DATASERVICE_NOT_FOUND)) w.
Proof.
  intros Hst Hm Hcap. unfold dataservice_transaction_promote. rewrite Hcap. simpl negb.
  eapply post_sentinel_txn; [done..|auto|]. intros t w' Ht. by apply promote_body_spec.
Qed.

(** ** Queries *)

(** The answer of a query for the entry of [q] between [a] and [b]. *)
Definition entry_answer (a : list pq_entry) (e : pq_entry) (b : list pq_entry) : bytes * bytes :=
  (enc_txn_node (entry_node (last_id a) (first_id b) e), pe_cert e).

(** What a query for [id] answers. *)
Definition get_answer (q : list pq_entry) (id : bytes) (r : result (bytes * bytes)) : Prop :=
  match r with
  | Ok x => ∃ a e b, q = a ++ e :: b ∧ pe_id e = id ∧ x = entry_answer a e b
  | Err s => id ∉ pe_id <$> q ∧ s = AGENTD_ERROR_DATASERVICE_NOT_FOUND
  end.

Lemma get_entry_spec wr parent t p P V q id w :
  txn_state wr w t p P V → pq_rep (V pq_db) q → id ≠ zero_uuid → id ≠ ff_uuid →
  Forall (λ e, pe_cert e ≠ []) q →
  post (transaction_get_entry pq_db parent t id)
    (λ r w', txn_state wr w' t p P V ∧ (get_answer q id r ∨ (faulty ∧ is_ok r = false))) w.
Proof.
  intros Ht Hm Hz Hf Hc. pose proof (pq_rep_lookup _ _ id Hm Hz Hf) as Hl.
  unfold transaction_get_entry. post_step.
  eapply post_get_cleared; [done|
    |intros w1 Hv H1; rewrite Hv in Hl; rc_known; post_steps; split; [done|left; by destruct Hl]
    |intros; rc_ne; post_steps; split; [done|by right]].
  intros v w1 Hv H1. rewrite Hv in Hl. destruct Hl as (Hpl&a&e&b&->&<-&_&->).
  pose proof (wf_queue_app _ _ (pq_wf _ _ Hpl)) as [[Ha _] [Hb _]]. apply Forall_cons in Hb as [He Hb].
  apply Forall_app in Hc as [_ [Hce _]%Forall_cons].
  pose proof (last_id_uuid a Ha) as Hla. pose proof (first_id_uuid b Hb) as Hfb.
  destruct (entry_value_take (last_id a) (first_id b) e) as [-> ->]; [done..|].
  assert (length (pe_cert e) ≠ 0)%nat by (by destruct (pe_cert e)).
  assert (sizeof (entry_value (last_id a) (first_id b) e) - Z.of_nat sizeof_txn_node = sizeof (pe_cert e)) as ->
    by (unfold sizeof; rewrite length_entry_value by done; lia).
  rewrite length_entry_value by done. rewrite (proj2 (Nat.leb_gt _ _)) by lia.
  unfold entry_value. destruct (txn_node_fields _ (pe_cert e) (wf_entry_node _ _ _ Hla Hfb He))
    as (_&_&_&_&_&->&_). simpl tn_cert_size. cbv zeta. rewrite !Z.eqb_refl. rc_known.
  assert (get_answer (a ++ e :: b) (pe_id e) (Ok (entry_answer a e b))) by (simpl; eauto 10).
  destruct parent; post_steps; [auto|].
  eapply post_malloc_txn; [done| |intros w2 [?|?]; [unfold sizeof in *; lia|]]; intros; post_steps; auto.
Qed.

Lemma get_ok P q child id w :
  env_state w None P → pq_rep (P pq_db) q → id ≠ zero_uuid → id ≠ ff_uuid →
  Forall (λ e, pe_cert e ≠ []) q →
  BITCAP_ISSET (childcaps child) DATASERVICE_API_CAP_APP_PQ_TRANSACTION_READ = true →
  post (dataservice_transaction_get child None id)
    (query_outcome None P (get_answer q id)) w.
Proof.
  intros Hst Hm Hz Hf Hc Hcap. unfold dataservice_transaction_get. rewrite Hcap. simpl negb.
  apply post_in_query_txn; [done|]. intros t w' Ht. by apply get_entry_spec.
Qed.

Definition get_first_answer (q : list pq_entry) (r : result (bytes * bytes)) : Prop :=
  r = match q with
      | [] => Err AGENTD_ERROR_DATASERVICE_NOT_FOUND
      | e :: b => Ok (entry_answer [] e b)
      end.

(** What the start node says. *)
Lemma pq_rep_start m q :
  pq_rep m q →
  match m !! zero_uuid with
  | Some v => length v = sizeof_txn_node ∧ txn_node_next v = first_id q
  | None => q = []
  end.
Proof.
  intros [[-> ->]|Hm]; [by rewrite lookup_empty|]. rewrite (pq_start _ _ Hm).
  pose proof (wf_start _ (first_id_uuid q (proj1 (pq_wf _ _ Hm)))) as Hs.
  split; [by apply length_enc_txn_node|].
  destruct (txn_node_fields _ [] Hs) as (_&_&Hn&_). by rewrite app_nil_r in Hn.
Qed.

Lemma get_first_ok P q child w :
  env_state w None P → pq_rep (P pq_db) q → Forall (λ e, pe_cert e ≠ []) q →
  BITCAP_ISSET (childcaps child) DATASERVICE_API_CAP_APP_PQ_TRANSACTION_FIRST_READ = true →
  post (dataservice_transaction_get_first child None)
    (query_outcome None P (get_first_answer q)) w.
Proof.
  intros Hst Hm Hc Hcap. unfold dataservice_transaction_get_first. rewrite Hcap. simpl negb.
  pose proof (pq_rep_start _ _ Hm) as Hs. pose proof (pq_rep_wf _ _ Hm) as Hwf.
  change (memset Byte.x00 16) with zero_uuid. change (memset Byte.xff 16) with ff_uuid.
  post_steps. eapply post_begin; [done|intros; rc_ne; post_steps; split; [done|by right]|].
  intros t w1 H1. post_steps. eapply post_get_cleared; [done|..].
  2: { intros w2 Hv H2. post_steps. eapply post_abort; [done|]. intros. rc_known. post_steps.
       split; [done|left]. rewrite Hv in Hs. by subst. }
  2: { intros. post_steps. eapply post_abort; [done|]. intros. rc_ne. post_steps.
       split; [done|by right]. }
  intros v w2 Hv H2. post_steps. eapply post_abort; [done|]. intros w3 H3. rewrite Hv in Hs.
  destruct Hs as [-> ->]. rewrite Nat.ltb_irrefl. rc_known.
  destruct q as [|e b]; simpl.
  { rewrite bool_decide_true by done. post_steps. split; [done|by left]. }
  pose proof (wf_queue_id_ne [] e b Hwf) as [Hz Hf].
  rewrite bool_decide_false by done. eapply post_mono.
  - apply (post_in_query_txn P _ (get_answer (e :: b) (pe_id e))); [done|].
    intros t' w' Ht. by apply get_entry_spec.
  - intros r w' [Hw' [Hr|?]]; split; auto. left. destruct r as [x|s]; simpl in Hr.
    + destruct Hr as (a'&e'&b'&Heq&Hid&->).
      destruct (split_unique [] e b _ _ _ Hwf Heq) as (<-&<-&<-); done.
    + destruct Hr as [Hn _]. exfalso. apply Hn. by left.
Qed.

(** ** The theorems *)

(** [dataservice_transaction_submit] appends the transaction to the process
    queue in the build's initial state when its identifier is not waiting
    already, and reports [MDB_PUT_FAILURE] with all databases unchanged when
    it is; barring outside faults nothing else can happen. *)
Theorem submit_spec p P q child id art cert w :
  env_state w p P → pq_rep (P pq_db) q →
  is_uuid id → id ≠ zero_uuid → id ≠ ff_uuid → is_uuid art → sizeof cert < 2 ^ 63 →
  BITCAP_ISSET (childcaps child) DATASERVICE_API_CAP_APP_PQ_TRANSACTION_SUBMIT = true →
  post (dataservice_transaction_submit ATTESTATION child p id art cert)
    (outcome p P
       (λ _ V, id ∉ pe_id <$> q ∧ pq_update P (q ++ [new_entry ATTESTATION id art cert]) V)
       (λ s, id ∈ pe_id <$> q ∧ s = AGENTD_ERROR_DATASERVICE_MDB_PUT_FAILURE)) w.
Proof. apply submit_ok. Qed.

(** [dataservice_transaction_drop] removes exactly the named transaction from
    the process queue and joins its neighbours, or reports [NOT_FOUND] with
    all databases unchanged when no such transaction waits; the sentinels are
    never found. *)
Theorem drop_spec P q child id w :
  env_state w None P → pq_rep (P pq_db) q →
  BITCAP_ISSET (childcaps child) DATASERVICE_API_CAP_APP_PQ_TRANSACTION_DROP = true →
  post (dataservice_transaction_drop child None id)
    (outcome None P
       (λ _ V, id ∈ pe_id <$> q ∧ pq_update P (drop_entry id q) V)
       (λ s, id ∉ pe_id <$> q ∧ s = AGENTD_ERROR_DATASERVICE_NOT_FOUND)) w.
Proof. apply drop_ok. Qed.

(** [dataservice_transaction_promote] marks the named transaction as attested
    and changes nothing else, or reports [NOT_FOUND] with all databases
    unchanged when no such transaction waits. *)
Theorem promote_spec P q child id w :
  env_state w None P → pq_rep (P pq_db) q →
  BITCAP_ISSET (childcaps child) DATASERVICE_API_CAP_APP_PQ_TRANSACTION_PROMOTE = true →
  post (dataservice_transaction_promote child None id)
    (outcome None P
       (λ _ V, id ∈ pe_id <$> q ∧ pq_update P (promote_entry id q) V)
       (λ s, id ∉ pe_id <$> q ∧ s = AGENTD_ERROR_DATASERVICE_NOT_FOUND)) w.
Proof. apply promote_ok. Qed.

(** [dataservice_transaction_get] returns the node header and certificate of
    the transaction with the given identifier exactly when it waits in the
    queue, [NOT_FOUND] otherwise, and never changes a database. *)
Theorem get_spec P q child id w :
  env_state w None P → pq_rep (P pq_db) q → id ≠ zero_uuid → id ≠ ff_uuid →
  Forall (λ e, pe_cert e ≠ []) q →
  BITCAP_ISSET (childcaps child) DATASERVICE_API_CAP_APP_PQ_TRANSACTION_READ = true →
  post (dataservice_transaction_get child None id)
    (query_outcome None P (get_answer q id)) w.
Proof. apply get_ok. Qed.

(** [dataservice_transaction_get_first] returns the transaction at the front of
    the queue, [NOT_FOUND] for an empty queue, initialised or not, and never
    changes a database. *)
Theorem get_first_spec P q child w :
  env_state w None P → pq_rep (P pq_db) q → Forall (λ e, pe_cert e ≠ []) q →
  BITCAP_ISSET (childcaps child) DATASERVICE_API_CAP_APP_PQ_TRANSACTION_FIRST_READ = true →
  post (dataservice_transaction_get_first child None)
    (query_outcome None P (get_first_answer q)) w.
Proof. apply get_first_ok. Qed.
End spec.

(** ** The process queue as a data type

    Any sequence of requests to the process queue, on a platform without
    outside faults, is answered as the abstract queue answers it. *)

Inductive pq_op :=
  | OpSubmit (txn_id artifact_id txn_bytes : bytes)
  | OpDrop (txn_id : bytes)
  | OpPromote (txn_id : bytes)
  | OpGet (txn_id : bytes)
  | OpGetFirst.

(** ** The abstract queue *)

(** A request is answered by a status and, for a query, an entry. *)
Definition aq_step (ATTESTATION : bool) (q : list pq_entry) (op : pq_op)
  : result (option pq_entry) * list pq_entry :=
  match op with
  | OpSubmit id art cert =>
      if bool_decide (id ∈ pe_id <$> q) then (Err AGENTD_ERROR_DATASERVICE_MDB_PUT_FAILURE, q)
      else (Ok None, q ++ [new_entry ATTESTATION id art cert])
  | OpDrop id =>
      if bool_decide (id ∈ pe_id <$> q) then (Ok None, drop_entry id q)
      else (Err AGENTD_ERROR_DATASERVICE_NOT_FOUND, q)
  | OpPromote id =>
      if bool_decide (id ∈ pe_id <$> q) then (Ok None, promote_entry id q)
      else (Err AGENTD_ERROR_DATASERVICE_NOT_FOUND, q)
  | OpGet id =>
      (match find_entry id q with
       | Some e => Ok (Some e) | None => Err AGENTD_ERROR_DATASERVICE_NOT_FOUND end, q)
  | OpGetFirst =>
      (match q with
       | e :: _ => Ok (Some e) | [] => Err AGENTD_ERROR_DATASERVICE_NOT_FOUND end, q)
  end.

Fixpoint aq_run (ATTESTATION : bool) (q : list pq_entry) (ops : list pq_op)
  : list (result (option pq_entry)) * list pq_entry :=
  match ops with
  | [] => ([], q)
  | op :: ops =>
      let '(r, q) := aq_step ATTESTATION q op in
      let '(rs, q) := aq_run ATTESTATION q ops in (r :: rs, q)
  end.

(** Requests that name proper transactions. *)
Definition good_id (id : bytes) : Prop := is_uuid id ∧ id ≠ zero_uuid ∧ id ≠ ff_uuid.
Definition good_op (op : pq_op) : Prop :=
  match op with
  | OpSubmit id art cert => good_id id ∧ is_uuid art ∧ cert ≠ [] ∧ sizeof cert < 2 ^ 63
  | OpDrop id | OpPromote id | OpGet id => good_id id
  | OpGetFirst => True
  end.

(** ** The implementation *)

(** The entry a query's answer describes. *)
Definition answer_entry (x : bytes * bytes) : pq_entry :=
  PqEntry (txn_node_key x.1) (txn_node_artifact_id x.1) (ntohl (txn_node_net_txn_state x.1)) x.2.

Section impl.
Context {W : Type} {L : LMDB W}.
Context (ATTESTATION : bool) (child : dataservice_child_context).

Definition run_op (op : pq_op) : Eff W (option pq_entry) :=
  match op with
  | OpSubmit id art cert =>
      let* _ := dataservice_transaction_submit ATTESTATION child None id art cert in ok None
  | OpDrop id => let* _ := dataservice_transaction_drop child None id in ok None
  | OpPromote id => let* _ := dataservice_transaction_promote child None id in ok None
  | OpGet id =>
      let* x := dataservice_transaction_get child None id in ok (Some (answer_entry x))
  | OpGetFirst =>
      let* x := dataservice_transaction_get_first child None in ok (Some (answer_entry x))
  end.

Fixpoint run_ops (ops : list pq_op) : Act W (list (result (option pq_entry))) :=
  match ops with
  | [] => ret []
  | op :: ops => let! r := run_op op in let! rs := run_ops ops in ret (r :: rs)
  end.
End impl.

(** A child that may do everything with the queue. *)
Definition pq_caps (child : dataservice_child_context) : Prop :=
  Forall (λ c, BITCAP_ISSET (childcaps child) c = true)
    [DATASERVICE_API_CAP_APP_PQ_TRANSACTION_SUBMIT; DATASERVICE_API_CAP_APP_PQ_TRANSACTION_DROP;
     DATASERVICE_API_CAP_APP_PQ_TRANSACTION_PROMOTE; DATASERVICE_API_CAP_APP_PQ_TRANSACTION_READ;
     DATASERVICE_API_CAP_APP_PQ_TRANSACTION_FIRST_READ].

Lemma answer_entry_answer a e b :
  wf_queue (a ++ e :: b) → answer_entry (entry_answer a e b) = e.
Proof.
  intros Hwf. pose proof (wf_queue_app _ _ Hwf) as [[Ha _] [Hb _]]. apply Forall_cons in Hb as [He Hb].
  pose proof (wf_entry_node _ _ _ (last_id_uuid a Ha) (first_id_uuid b Hb) He) as Hn.
  destruct (txn_node_fields _ [] Hn) as (Hk&_&_&Har&_&_&Hs). rewrite app_nil_r in Hk, Har, Hs.
  unfold answer_entry, entry_answer. simpl. rewrite Hk, Har, Hs. by destruct e.
Qed.

Section refine.
Context {W : Type} {L : LMDB W} {LL : LMDB_laws W} (R : LMDB_reliable W).
Context (ATTESTATION : bool) (child : dataservice_child_context) (Hcaps : pq_caps child).

(** The implementation's state for the abstract queue [q], the other
    databases being those of [P]. *)
Definition pq_state (P : dbs) (w : W) (q : list pq_entry) : Prop :=
  (∃ V, env_state w None V ∧ pq_update P q V) ∧ Forall (λ e, pe_cert e ≠ []) q.

Lemma pq_update_trans P V V' q q' : pq_update P q V → pq_update V q' V' → pq_update P q' V'.
Proof. intros [_ H] [? H']. split; [done|]. intros d Hd. by rewrite H', H. Qed.

(** An outcome without faults is one of the two answers. *)
Lemma outcome_reliable {A : Type} p P (R' : A → dbs → Prop) E r w :
  outcome p P R' E r w →
  match r with
  | Ok a => ∃ V, env_state w p V ∧ R' a V
  | Err s => env_state w p P ∧ E s
  end.
Proof. unfold outcome, faulty. destruct r; naive_solver. Qed.

(** One step of each mutating request. *)
Lemma update_step P V q q' cond s (m : Eff W unit) w :
  pq_update P q V → Forall (λ e, pe_cert e ≠ []) q → Forall (λ e, pe_cert e ≠ []) q' →
  Decision cond →
  post m (outcome None V (λ _ V', cond ∧ pq_update V q' V') (λ s', ¬ cond ∧ s' = s)) w →
  post (let* _ := m in ok (@None pq_entry))
    (λ r w', (cond ∧ r = Ok None ∧ pq_state P w' q') ∨ (¬ cond ∧ r = Err s ∧ (env_state w' None V))) w.
Proof.
  intros HV Hc Hc' Hdec Hm. post_step. eapply post_mono; [exact Hm|].
  intros [[]|s'] w' Ho%outcome_reliable; post_steps.
  - left. destruct Ho as (V'&?&?&?). split_and!; [done..|]. split; [|done]. exists V'.
    split; [done|]. by eapply pq_update_trans.
  - right. naive_solver.
Qed.

Lemma step_refines P q op w :
  pq_state P w q → good_op op →
  post (run_op ATTESTATION child op)
    (λ r w', r = (aq_step ATTESTATION q op).1 ∧ pq_state P w' (aq_step ATTESTATION q op).2) w.
Proof.
  intros [(V&Hw&HV) Hc] Hop. unfold pq_caps in Hcaps. rewrite !Forall_cons in Hcaps.
  destruct Hcaps as (H1&H2&H3&H4&H5&_). pose proof (proj1 HV) as Hrep.
  pose proof (pq_rep_wf _ _ Hrep) as Hwf.
  assert (∀ w', env_state w' None V → pq_state P w' q) as Hsame by (split; eauto).
  destruct op as [id art cert|id|id|id|]; simpl in Hop; simpl run_op.
  - destruct Hop as ((?&?&?)&?&?&?).
    eapply post_mono; [eapply (update_step P V q (q ++ [new_entry ATTESTATION id art cert])
      (id ∉ pe_id <$> q)); [done..| |apply _|]|].
    + apply Forall_app; split; [done|]. by apply Forall_singleton.
    + eapply post_mono; [by apply submit_ok|]. intros r w' Ho.
      eapply outcome_mono; [done|naive_solver|]. intros s [Hin ->]. naive_solver.
    + intros r w' Hr. simpl. case_bool_decide; naive_solver.
  - eapply post_mono; [eapply (update_step P V q (drop_entry id q) (id ∈ pe_id <$> q)); [done..| |apply _|]|].
    + apply Forall_forall. intros e [_ He]%list_elem_of_filter. by eapply Forall_forall in Hc.
    + eapply post_mono; [by apply drop_ok|]. done.
    + intros r w' Hr. simpl. case_bool_decide; naive_solver.
  - eapply post_mono; [eapply (update_step P V q (promote_entry id q) (id ∈ pe_id <$> q)); [done..| |apply _|]|].
    + apply Forall_fmap. eapply Forall_impl; [exact Hc|]. intros e He. unfold compose. by case_decide.
    + eapply post_mono; [by apply promote_ok|]. done.
    + intros r w' Hr. simpl. case_bool_decide; naive_solver.
  - destruct Hop as (?&?&?). post_step. eapply post_mono; [by apply get_ok|].
    intros r w' [Hw' [Hr|[Hf _]]]; [|by destruct Hf]. destruct r as [x|s]; post_steps; simpl; (split; [|auto]).
    + destruct Hr as (a&e&b&->&<-&->). rewrite find_entry_middle by done. by rewrite answer_entry_answer.
    + destruct Hr as [Hn ->]. by rewrite (proj2 (find_entry_None id q) Hn).
  - post_step. eapply post_mono; [by apply get_first_ok|].
    intros r w' [Hw' [Hr|[Hf _]]]; [|by destruct Hf]. unfold get_first_answer in Hr. subst r.
    destruct q as [|e b]; post_steps; simpl; (split; [|auto]); [done|].
    by rewrite (answer_entry_answer [] e b).
Qed.

(** C10: Refinement, on a database library that does what is asked of it
    ([LMDB_reliable]) and for a child context that has the five capabilities of the
    queue ([pq_caps]): started on any database that represents the queue [q], a
    sequence of submit, drop, promote, get and get-first requests is answered status
    by status and entry by entry as the abstract first-in-first-out queue answers it,
    and ends in a database that represents the abstract queue's final state, the other
    databases untouched. The requests are for identifiers of 16 bytes other than the
    two sentinels of the queue, and certificates that are submitted are not empty and
    shorter than 2^63 bytes ([good_op]); the submission under a sentinel's identifier
    is a finding of its own. *)
Theorem process_queue_refines P q ops w :
  pq_state P w q → Forall good_op ops →
  post (run_ops ATTESTATION child ops)
    (λ rs w', rs = (aq_run ATTESTATION q ops).1 ∧ pq_state P w' (aq_run ATTESTATION q ops).2) w.
Proof.
  intros Hw Hops. revert q w Hw. induction Hops as [|op ops Hop _ IH]; intros q w Hw; simpl.
  { post_steps. done. }
  post_step. eapply post_mono; [by apply step_refines|]. intros r w1 [-> Hw1].
  destruct (aq_step ATTESTATION q op) as [r q1]; simpl in *. post_step.
  eapply post_mono; [by apply IH|]. intros rs w2 [-> Hw2].
  destruct (aq_run ATTESTATION q1 ops) as [rs q2]; simpl in *. by post_steps.
Qed.
End refine.
