(* ===== verification/BlockMake.v ===== *)
(** * Making a block

    [dataservice_block_make.c]: a canonized block is appended to the blockchain
    ([block_db], [height_db]), and each transaction it wraps moves from the
    process queue to the transaction and artifact databases, all in one
    database transaction. *)

From S2P Require Import Prelude Inet StatusCodes Contexts Lmdb Txn Records Vccert ProcessQueue.

Section block_make.
Context {W : Type} {L : LMDB W} {VC : VCCERT W}.

(** ** Queries and constraints *)

(** [query_end_node]: the end node, or [None] when there is no block yet. *)
Definition query_end_node (txn : MDB_txn) : Eff W (option bytes) :=
  let! '(rc, lval) := mdb_get_cleared txn block_db (memset Byte.xff 16) in
  if rc =? MDB_NOTFOUND then ok None
  else if rc =? 0 then
    if (length lval <? sizeof_block_node)%nat
    then throw AGENTD_ERROR_DATASERVICE_INVALID_STORED_BLOCK_NODE
    else ok (Some lval)
  else throw AGENTD_ERROR_DATASERVICE_MDB_GET_FAILURE.

(** The constraints are pure: they read the parser and the end node, and return
    the parser where the search left it. *)
Definition constraint_matching_block_height (parser : vccert_parser) (end_node : option bytes)
  : result Z * vccert_parser :=
  let expected_block_height :=
    match end_node with
    | Some e => wrap64 (1 + ntohll (block_node_net_block_height e))
    | None => 1
    end in
  match vccert_parser_find_short parser VCCERT_FIELD_TYPE_BLOCK_HEIGHT with
  | (Some block_height_raw, parser) =>
      if (length block_height_raw =? 8)%nat then
        if ntohll (le_dec block_height_raw) =? expected_block_height
        then (Ok expected_block_height, parser)
        else (Err AGENTD_ERROR_DATASERVICE_INVALID_BLOCK_HEIGHT, parser)
      else (Err AGENTD_ERROR_DATASERVICE_MISSING_BLOCK_HEIGHT, parser)
  | (None, parser) => (Err AGENTD_ERROR_DATASERVICE_MISSING_BLOCK_HEIGHT, parser)
  end.

Definition constraint_matching_prev_uuid (parser : vccert_parser) (end_node : option bytes)
  : result bytes * vccert_parser :=
  let expected_prev_block_id :=
    match end_node with
    | Some e => block_node_prev e
    | None => vccert_certificate_type_uuid_root_block
    end in
  match vccert_parser_find_short parser VCCERT_FIELD_TYPE_PREVIOUS_BLOCK_UUID with
  | (Some block_prev_uuid, parser) =>
      if (length block_prev_uuid =? 16)%nat then
        if bool_decide (block_prev_uuid = expected_prev_block_id)
        then (Ok block_prev_uuid, parser)
        else (Err AGENTD_ERROR_DATASERVICE_INVALID_PREVIOUS_BLOCK_UUID, parser)
      else (Err AGENTD_ERROR_DATASERVICE_MISSING_PREVIOUS_BLOCK_UUID, parser)
  | (None, parser) => (Err AGENTD_ERROR_DATASERVICE_MISSING_PREVIOUS_BLOCK_UUID, parser)
  end.

Definition constraint_sane_block_uuid (parser : vccert_parser) (block_id : bytes)
  : result unit * vccert_parser :=
  match vccert_parser_find_short parser VCCERT_FIELD_TYPE_BLOCK_UUID with
  | (Some cert_block_id, parser) =>
      (if (length cert_block_id =? 16)%nat then
         if negb (bool_decide (block_id = cert_block_id))
         then Err AGENTD_ERROR_DATASERVICE_INVALID_BLOCK_UUID
         else if bool_decide (block_id = vccert_certificate_type_uuid_root_block)
         then Err AGENTD_ERROR_DATASERVICE_INVALID_BLOCK_UUID
         else if bool_decide (block_id = zero_uuid)
         then Err AGENTD_ERROR_DATASERVICE_INVALID_BLOCK_UUID
         else if bool_decide (block_id = ff_uuid)
         then Err AGENTD_ERROR_DATASERVICE_INVALID_BLOCK_UUID
         else Ok tt
       else Err AGENTD_ERROR_DATASERVICE_MISSING_BLOCK_UUID, parser)
  | (None, parser) => (Err AGENTD_ERROR_DATASERVICE_MISSING_BLOCK_UUID, parser)
  end.

(** ** The block list *)

Definition dataservice_block_make_create_queue (txn : MDB_txn) (block_id : bytes) (height : Z)
  : Eff W unit :=
  let start := set_block_node_next block_id (memset Byte.x00 sizeof_block_node) in
  let end_ := set_block_node_key (memset Byte.xff 16) (memset Byte.x00 sizeof_block_node) in
  let end_ := set_block_node_next (memset Byte.xff 16) end_ in
  let end_ := set_block_node_prev block_id end_ in
  let end_ := set_block_node_net_block_height (htonll height) end_ in
  let! rc := mdb_put txn block_db (block_node_key start) start 0 in
  if negb (rc =? 0) then throw AGENTD_ERROR_DATASERVICE_MDB_PUT_FAILURE else
  let! rc := mdb_put txn block_db (block_node_key end_) end_ 0 in
  if negb (rc =? 0) then throw AGENTD_ERROR_DATASERVICE_MDB_PUT_FAILURE else
  ok tt.

Definition dataservice_block_make_update_prev (txn : MDB_txn) (block_id prev : bytes) : Eff W unit :=
  let! '(rc, prev_node) := mdb_get txn block_db prev in
  if negb (rc =? 0) then throw AGENTD_ERROR_DATASERVICE_MDB_GET_FAILURE else
  let prev_size :=
    wrap64 (Z.of_nat sizeof_block_node + ntohll (block_node_net_block_cert_size prev_node)) in
  let! mem := malloc prev_size in
  if negb mem then throw AGENTD_ERROR_GENERAL_OUT_OF_MEMORY else
  let node := set_block_node_next block_id (take (Z.to_nat prev_size) prev_node) in
  let! rc := mdb_put txn block_db prev node 0 in
  if negb (rc =? 0) then throw AGENTD_ERROR_DATASERVICE_MDB_PUT_FAILURE else
  ok tt.

Definition dataservice_block_make_update_end (txn : MDB_txn) (block_id : bytes) (height : Z)
    (curr_end : bytes) : Eff W unit :=
  let end_ := set_block_node_prev block_id (take sizeof_block_node curr_end) in
  let end_ := set_block_node_net_block_height (htonll height) end_ in
  let! rc := mdb_put txn block_db (block_node_key end_) end_ 0 in
  if negb (rc =? 0) then throw AGENTD_ERROR_DATASERVICE_MDB_PUT_FAILURE else
  ok tt.

(** The node [dataservice_make_block_insert_block] allocates and fills. *)
Definition insert_blocknode (block_id block_prev_id first_child_txn_id : bytes) (block_height : Z)
    (block_data : bytes) : bytes :=
  let blocknode := memset Byte.x00 (sizeof_block_node + length block_data) in
  let blocknode := splice sizeof_block_node block_data blocknode in
  let blocknode := set_block_node_key block_id blocknode in
  let blocknode := set_block_node_next (memset Byte.xff 16) blocknode in
  let blocknode := set_block_node_prev block_prev_id blocknode in
  let blocknode := set_block_node_first_transaction_id first_child_txn_id blocknode in
  let blocknode := set_block_node_net_block_height (htonll block_height) blocknode in
  set_block_node_net_block_cert_size (htonll (sizeof block_data)) blocknode.

Definition dataservice_make_block_insert_block (txn : MDB_txn)
    (block_id block_prev_id first_child_txn_id : bytes) (block_height : Z) (block_data : bytes)
  : Eff W unit :=
  let! mem := malloc (Z.of_nat (sizeof_block_node + length block_data)) in
  if negb mem then throw AGENTD_ERROR_GENERAL_OUT_OF_MEMORY else
  let blocknode :=
    insert_blocknode block_id block_prev_id first_child_txn_id block_height block_data in
  let! rc := mdb_put txn block_db (block_node_key blocknode) blocknode MDB_NOOVERWRITE in
  if negb (rc =? 0) then throw AGENTD_ERROR_DATASERVICE_MDB_PUT_FAILURE else
  let! rc := mdb_put txn height_db (le_enc 8 (block_node_net_block_height blocknode))
               (block_node_key blocknode) MDB_NOOVERWRITE in
  if negb (rc =? 0) then throw AGENTD_ERROR_DATASERVICE_MDB_PUT_FAILURE else
  ok tt.

(** ** The wrapped transactions *)

Definition dataservice_make_block_get_first_transaction_id (txn_cert : bytes) : Eff W bytes :=
  let! init := vccert_parser_init txn_cert in
  if negb init then throw AGENTD_ERROR_DATASERVICE_VCCERT_PARSER_INIT_FAILURE else
  let parser := vccert_parser_of txn_cert in
  match (vccert_parser_find_short parser VCCERT_FIELD_TYPE_CERTIFICATE_ID).1 with
  | Some transaction_id =>
      if (length transaction_id =? 16)%nat then ok transaction_id
      else throw AGENTD_ERROR_DATASERVICE_MISSING_CHILD_TRANSACTION_UUID
  | None => throw AGENTD_ERROR_DATASERVICE_MISSING_CHILD_TRANSACTION_UUID
  end.

Definition dataservice_block_make_update_prev_txn (txn : MDB_txn) (txn_id next_txn_id : bytes)
  : Eff W unit :=
  let! '(rc, lval) := mdb_get_cleared txn txn_db txn_id in
  if negb (rc =? 0) || (length lval <? sizeof_txn_node)%nat
  then throw AGENTD_ERROR_DATASERVICE_MDB_GET_FAILURE else
  let! mem := malloc (sizeof lval) in
  if negb mem then throw AGENTD_ERROR_GENERAL_OUT_OF_MEMORY else
  let rec := set_txn_node_next next_txn_id lval in
  let! rc := mdb_put txn txn_db txn_id rec 0 in
  if negb (rc =? 0) then throw AGENTD_ERROR_DATASERVICE_MDB_PUT_FAILURE else
  ok tt.

(** The two records [dataservice_block_make_update_artifact] stores. *)
Definition new_artifact_record (artifact_id transaction_id : bytes) (height state : Z) : bytes :=
  let record := memset Byte.x00 sizeof_artifact in
  let record := set_artifact_key artifact_id record in
  let record := set_artifact_txn_first transaction_id record in
  let record := set_artifact_txn_latest transaction_id record in
  let record := set_artifact_net_height_first (htonll height) record in
  let record := set_artifact_net_height_latest (htonll height) record in
  set_artifact_net_state_latest (htonl state) record.

Definition updated_artifact_record (lval transaction_id : bytes) (height state : Z) : bytes :=
  let record := set_artifact_txn_latest transaction_id lval in
  let record := set_artifact_net_height_latest (htonll height) record in
  set_artifact_net_state_latest (htonl state) record.

Definition dataservice_block_make_update_artifact (txn : MDB_txn) (artifact_id transaction_id : bytes)
    (height state : Z) : Eff W unit :=
  let! '(rc, lval) := mdb_get_cleared txn artifact_db artifact_id in
  if rc =? MDB_NOTFOUND then
    let record := new_artifact_record artifact_id transaction_id height state in
    let! rc := mdb_put txn artifact_db (artifact_key record) record MDB_NOOVERWRITE in
    if negb (rc =? 0) then throw AGENTD_ERROR_DATASERVICE_MDB_PUT_FAILURE else
    ok tt
  else if (rc =? 0) && (length lval =? sizeof_artifact)%nat then
    let record := updated_artifact_record lval transaction_id height state in
    let! rc := mdb_put txn artifact_db (artifact_key record) record 0 in
    if negb (rc =? 0) then throw AGENTD_ERROR_DATASERVICE_MDB_PUT_FAILURE else
    ok tt
  else if (rc =? 0) && negb (length lval =? sizeof_artifact)%nat then
    throw AGENTD_ERROR_DATASERVICE_INVALID_ARTIFACT_NODE_SIZE
  else throw AGENTD_ERROR_DATASERVICE_MDB_GET_FAILURE.

(** The fields [dataservice_block_make_process_child] reads from a wrapped
    transaction, in its order. *)
Record child_fields := ChildFields {
  cf_transaction_id : bytes; cf_prev_transaction_id : bytes; cf_artifact_id : bytes; cf_state : Z }.

Definition find_sized (parser : vccert_parser) (f : cert_field) (size : nat) (err : Z)
  : result bytes * vccert_parser :=
  match vccert_parser_find_short parser f with
  | (Some v, parser) => (if (length v =? size)%nat then Ok v else Err err, parser)
  | (None, parser) => (Err err, parser)
  end.

Definition process_child_fields (parser : vccert_parser) : result child_fields :=
  let '(r, parser) := find_sized parser VCCERT_FIELD_TYPE_CERTIFICATE_ID 16
    AGENTD_ERROR_DATASERVICE_MISSING_CHILD_TRANSACTION_UUID in
  match r with Err s => Err s | Ok transaction_id =>
  let '(r, parser) := find_sized parser VCCERT_FIELD_TYPE_PREVIOUS_CERTIFICATE_ID 16
    AGENTD_ERROR_DATASERVICE_MISSING_CHILD_PREVIOUS_TRANSACTION_UUID in
  match r with Err s => Err s | Ok prev_transaction_id =>
  let '(r, parser) := find_sized parser VCCERT_FIELD_TYPE_ARTIFACT_ID 16
    AGENTD_ERROR_DATASERVICE_MISSING_CHILD_ARTIFACT_UUID in
  match r with Err s => Err s | Ok artifact_id =>
  let '(r, parser) := find_sized parser VCCERT_FIELD_TYPE_NEW_ARTIFACT_STATE 4
    AGENTD_ERROR_DATASERVICE_MISSING_CHILD_STATE in
  match r with Err s => Err s | Ok state_raw =>
  Ok (ChildFields transaction_id prev_transaction_id artifact_id (ntohl (le_dec state_raw)))
  end end end end.

(** The transaction record [dataservice_block_make_process_child] stores. *)
Definition child_txn_rec (c : child_fields) (block_id txn_cert : bytes) : bytes :=
  let txn_rec := memset Byte.x00 (sizeof_txn_node + length txn_cert) in
  let txn_rec := set_txn_node_key (cf_transaction_id c) txn_rec in
  let txn_rec := set_txn_node_prev (cf_prev_transaction_id c) txn_rec in
  let txn_rec := set_txn_node_next ff_uuid txn_rec in
  let txn_rec := set_txn_node_artifact_id (cf_artifact_id c) txn_rec in
  let txn_rec := set_txn_node_block_id block_id txn_rec in
  let txn_rec := set_txn_node_net_txn_cert_size (htonll (sizeof txn_cert)) txn_rec in
  let txn_rec :=
    set_txn_node_net_txn_state (htonl DATASERVICE_TRANSACTION_NODE_STATE_CANONIZED) txn_rec in
  splice sizeof_txn_node txn_cert txn_rec.

Definition dataservice_block_make_process_child (txn : MDB_txn) (height : Z)
    (block_id txn_cert : bytes) : Eff W unit :=
  let! init := vccert_parser_init txn_cert in
  if negb init then throw AGENTD_ERROR_DATASERVICE_VCCERT_PARSER_INIT_FAILURE else
  match process_child_fields (vccert_parser_of txn_cert) with
  | Err s => throw s
  | Ok c =>
      let! mem := malloc (Z.of_nat (sizeof_txn_node + length txn_cert)) in
      if negb mem then throw AGENTD_ERROR_GENERAL_OUT_OF_MEMORY else
      let! rc := mdb_put txn txn_db (cf_transaction_id c) (child_txn_rec c block_id txn_cert)
                   MDB_NOOVERWRITE in
      if negb (rc =? 0) then throw AGENTD_ERROR_DATASERVICE_MDB_PUT_FAILURE else
      let* _ := dataservice_transaction_drop_internal (Some txn) (cf_transaction_id c) in
      let* _ :=
        if bool_decide (cf_prev_transaction_id c = zero_uuid) then ok tt
        else dataservice_block_make_update_prev_txn txn
               (cf_prev_transaction_id c) (cf_transaction_id c) in
      dataservice_block_make_update_artifact txn (cf_artifact_id c) (cf_transaction_id c)
        height (cf_state c)
  end.

(** The loop over the wrapped transactions.  The parser moves forward in the
    block at each turn, so that [fuel], the size of the block, is never
    exhausted ([block_make_children_fuel]). *)
Fixpoint block_make_children (fuel : nat) (txn : MDB_txn) (height : Z) (block_id : bytes)
    (parser : vccert_parser) (wrapped_transaction_raw : bytes) : Eff W unit :=
  let* _ := dataservice_block_make_process_child txn height block_id wrapped_transaction_raw in
  match vccert_parser_find_next parser, fuel with
  | (Some raw, parser), S fuel => block_make_children fuel txn height block_id parser raw
  | _, _ => ok tt
  end.

(** ** The whole operation *)

(** The work inside the transaction. *)
Definition block_make_body (block_id block_data : bytes) (txn : MDB_txn) : Eff W unit :=
  let parser := vccert_parser_of block_data in
  let* end_node := query_end_node txn in
  let '(r, parser) := constraint_matching_block_height parser end_node in
  let* expected_block_height := ret r in
  let '(r, parser) := constraint_matching_prev_uuid parser end_node in
  let* block_prev_uuid := ret r in
  let '(r, parser) := constraint_sane_block_uuid parser block_id in
  let* _ := ret r in
  match vccert_parser_find_short parser VCCERT_FIELD_TYPE_WRAPPED_TRANSACTION_TUPLE with
  | (None, _) => throw AGENTD_ERROR_DATASERVICE_NO_CHILD_TRANSACTIONS
  | (Some wrapped_transaction_raw, parser) =>
      let* first_child_txn_id :=
        dataservice_make_block_get_first_transaction_id wrapped_transaction_raw in
      let* _ := dataservice_make_block_insert_block txn block_id block_prev_uuid
                  first_child_txn_id expected_block_height block_data in
      let* _ :=
        match end_node with
        | None => dataservice_block_make_create_queue txn block_id expected_block_height
        | Some e =>
            let* _ := dataservice_block_make_update_prev txn block_id (block_node_prev e) in
            dataservice_block_make_update_end txn block_id expected_block_height e
        end in
      block_make_children (length block_data) txn expected_block_height block_id parser
        wrapped_transaction_raw
  end.

Definition dataservice_block_make (child : dataservice_child_context) (dtxn_ctx : option MDB_txn)
    (block_id block_data : bytes) : Eff W unit :=
  if negb (BITCAP_ISSET (childcaps child) DATASERVICE_API_CAP_APP_BLOCK_WRITE)
  then throw AGENTD_ERROR_DATASERVICE_NOT_AUTHORIZED else
  let! init := vccrypt_suite_options_init in
  if negb init then throw AGENTD_ERROR_DATASERVICE_VCCRYPT_SUITE_OPTIONS_INIT_FAILURE else
  let! init := vccert_parser_options_simple_init in
  if negb init then throw AGENTD_ERROR_DATASERVICE_VCCERT_PARSER_OPTIONS_INIT_FAILURE else
  let! init := vccert_parser_init block_data in
  if negb init then throw AGENTD_ERROR_DATASERVICE_VCCERT_PARSER_INIT_FAILURE else
  in_txn dtxn_ctx (block_make_body block_id block_data).
End block_make.
