(* ===== verification/Ledger.v ===== *)
(** * The ledger: what making a block means

    The abstract state of the blockchain (its blocks in order, the canonized
    transactions, the artifacts and the process queue), the abstract operation
    of appending a block, and its properties; and how the blocks are stored.
    [BlockMakeSpec] shows that [dataservice_block_make] implements
    [ledger_append]. *)

From S2P Require Import Prelude Inet StatusCodes Lmdb Records Vccert PqRep BlockMake.

Record blk := Blk { bk_id : bytes; bk_first : bytes; bk_cert : bytes }.

Abbreviation txn_map := (@gmap bytes (@list_eq_dec byte byte_eq_dec)
  (@list_countable byte byte_eq_dec byte_countable) (data_transaction_node * bytes)).
Abbreviation artifact_map := (@gmap bytes (@list_eq_dec byte byte_eq_dec)
  (@list_countable byte byte_eq_dec byte_countable) data_artifact_record).

Record ledger := Ledger {
  lg_blocks : list blk;
  lg_txns : txn_map;
  lg_artifacts : artifact_map;
  lg_queue : list pq_entry }.

Section ledger.
Context {W : Type} {VC : VCCERT W}.

(** ** Reading a certificate *)

(** The first field of a type, if it has the expected size. *)
Definition cert_get (cert : bytes) (f : cert_field) (size : nat) : option bytes :=
  match (vccert_parser_find_short (vccert_parser_of cert) f).1 with
  | Some v => if (length v =? size)%nat then Some v else None
  | None => None
  end.

(** The transactions a block wraps. *)
Fixpoint wrapped_list (fuel : nat) (parser : vccert_parser) (raw : bytes) : list bytes :=
  raw ::
  match vccert_parser_find_next parser, fuel with
  | (Some raw, parser), S fuel => wrapped_list fuel parser raw
  | _, _ => []
  end.

Definition block_children (data : bytes) : list bytes :=
  match vccert_parser_find_short (vccert_parser_of data) VCCERT_FIELD_TYPE_WRAPPED_TRANSACTION_TUPLE with
  | (Some raw, parser) => wrapped_list (length data) parser raw
  | (None, _) => []
  end.

(** ** Appending a block *)

(** The identifier a new block must name as its predecessor. *)
Definition last_block_id (bs : list blk) : bytes :=
  default vccert_certificate_type_uuid_root_block (bk_id <$> last bs).

Definition artifact_apply (arts : artifact_map) (c : child_fields) (height : Z) : artifact_map :=
  let id := cf_transaction_id c in
  <[cf_artifact_id c :=
      match arts !! cf_artifact_id c with
      | None => ArtifactRecord (cf_artifact_id c) id id height height (cf_state c)
      | Some a => ArtifactRecord (ar_key a) (ar_txn_first a) id (ar_height_first a) height (cf_state c)
      end]> arts.

(** The transaction [prev], if there is one, is followed by [id]. *)
Definition link_prev (txns : txn_map) (prev id : bytes) : result txn_map :=
  if bool_decide (prev = zero_uuid) then Ok txns
  else match txns !! prev with
       | None => Err AGENTD_ERROR_DATASERVICE_MDB_GET_FAILURE
       | Some (n, cert) =>
           Ok (<[prev := (TxnNode (tn_key n) (tn_prev n) id (tn_artifact_id n) (tn_block_id n)
                            (tn_cert_size n) (tn_state n), cert)]> txns)
       end.

Definition canonized_node (c : child_fields) (block_id cert : bytes) : data_transaction_node :=
  TxnNode (cf_transaction_id c) (cf_prev_transaction_id c) ff_uuid (cf_artifact_id c) block_id
    (sizeof cert) DATASERVICE_TRANSACTION_NODE_STATE_CANONIZED.

(** One wrapped transaction: it leaves the queue, is recorded as canonized in
    the block, is linked to its predecessor, and becomes the latest transaction
    of its artifact. *)
Definition child_apply (height : Z) (block_id : bytes) (lg : ledger) (cert : bytes) : result ledger :=
  match process_child_fields (vccert_parser_of cert) with
  | Err s => Err s
  | Ok c =>
      let id := cf_transaction_id c in
      match lg_txns lg !! id with
      | Some _ => Err AGENTD_ERROR_DATASERVICE_MDB_PUT_FAILURE
      | None =>
          if bool_decide (id ∈ pe_id <$> lg_queue lg) then
            let txns := <[id := (canonized_node c block_id cert, cert)]> (lg_txns lg) in
            match link_prev txns (cf_prev_transaction_id c) id with
            | Err s => Err s
            | Ok txns =>
                Ok (Ledger (lg_blocks lg) txns (artifact_apply (lg_artifacts lg) c height)
                      (drop_entry id (lg_queue lg)))
            end
          else Err AGENTD_ERROR_DATASERVICE_NOT_FOUND
      end
  end.

Fixpoint children_apply (height : Z) (block_id : bytes) (lg : ledger) (certs : list bytes)
  : result ledger :=
  match certs with
  | [] => Ok lg
  | cert :: certs =>
      match child_apply height block_id lg cert with
      | Err s => Err s
      | Ok lg => children_apply height block_id lg certs
      end
  end.

Definition block_height (lg : ledger) : Z := Z.of_nat (length (lg_blocks lg)).

Definition ledger_append (lg : ledger) (block_id data : bytes) : result ledger :=
  let height := block_height lg + 1 in
  match cert_get data VCCERT_FIELD_TYPE_BLOCK_HEIGHT 8 with
  | None => Err AGENTD_ERROR_DATASERVICE_MISSING_BLOCK_HEIGHT
  | Some h =>
  if negb (be_dec h =? height) then Err AGENTD_ERROR_DATASERVICE_INVALID_BLOCK_HEIGHT else
  match cert_get data VCCERT_FIELD_TYPE_PREVIOUS_BLOCK_UUID 16 with
  | None => Err AGENTD_ERROR_DATASERVICE_MISSING_PREVIOUS_BLOCK_UUID
  | Some prev =>
  if negb (bool_decide (prev = last_block_id (lg_blocks lg)))
  then Err AGENTD_ERROR_DATASERVICE_INVALID_PREVIOUS_BLOCK_UUID else
  match cert_get data VCCERT_FIELD_TYPE_BLOCK_UUID 16 with
  | None => Err AGENTD_ERROR_DATASERVICE_MISSING_BLOCK_UUID
  | Some uuid =>
  if negb (bool_decide (block_id = uuid ∧
       block_id ∉ [vccert_certificate_type_uuid_root_block; zero_uuid; ff_uuid]))
  then Err AGENTD_ERROR_DATASERVICE_INVALID_BLOCK_UUID else
  match block_children data with
  | [] => Err AGENTD_ERROR_DATASERVICE_NO_CHILD_TRANSACTIONS
  | (raw :: _) as certs =>
  match cert_get raw VCCERT_FIELD_TYPE_CERTIFICATE_ID 16 with
  | None => Err AGENTD_ERROR_DATASERVICE_MISSING_CHILD_TRANSACTION_UUID
  | Some first =>
  if bool_decide (block_id ∈ bk_id <$> lg_blocks lg)
  then Err AGENTD_ERROR_DATASERVICE_MDB_PUT_FAILURE else
  children_apply height block_id
    (Ledger (lg_blocks lg ++ [Blk block_id first data]) (lg_txns lg) (lg_artifacts lg) (lg_queue lg))
    certs
  end end end end end.

(** ** What appending a block does *)

(** What never changes in the record of a canonized transaction: everything but
    the link to its successor. *)
Definition same_txn (x y : data_transaction_node * bytes) : Prop :=
  x.2 = y.2 ∧ tn_key x.1 = tn_key y.1 ∧ tn_prev x.1 = tn_prev y.1 ∧
  tn_artifact_id x.1 = tn_artifact_id y.1 ∧ tn_block_id x.1 = tn_block_id y.1 ∧
  tn_cert_size x.1 = tn_cert_size y.1 ∧ tn_state x.1 = tn_state y.1.

#[local] Instance same_txn_refl : Reflexive same_txn.
Proof. intros [n c]. by split_and!. Qed.
#[local] Instance same_txn_trans : Transitive same_txn.
Proof. intros [n c] [n' c'] [n'' c''] (?&?&?&?&?&?&?) (?&?&?&?&?&?&?). split_and!; congruence. Qed.

(** [txns'] records the transactions of [txns], and those only. *)
Definition same_txns (txns txns' : txn_map) : Prop :=
  ∀ k, option_Forall2 same_txn (txns !! k) (txns' !! k).

Lemma same_txns_lookup txns txns' k x :
  same_txns txns txns' → txns !! k = Some x → ∃ y, txns' !! k = Some y ∧ same_txn x y.
Proof. intros Hs Hk. specialize (Hs k). rewrite Hk in Hs. inversion Hs; eauto. Qed.

Lemma same_txns_None txns txns' k : same_txns txns txns' → txns !! k = None ↔ txns' !! k = None.
Proof. intros Hs. specialize (Hs k). split; intros Hk; rewrite Hk in Hs; by inversion Hs. Qed.

Lemma link_prev_same txns prev id txns' : link_prev txns prev id = Ok txns' → same_txns txns txns'.
Proof.
  unfold link_prev. case_bool_decide; [intros [= <-] k; by apply option_Forall2_refl, _|].
  destruct (txns !! prev) as [[n c]|] eqn:E; [|done]. intros [= <-] k.
  destruct (decide (k = prev)) as [->|].
  - rewrite E, lookup_insert_eq. constructor. by split_and!.
  - rewrite lookup_insert_ne by done. by apply option_Forall2_refl, _.
Qed.

(** The effect of the wrapped transactions with identifiers [ids]. *)
Record moved (block_id : bytes) (lg lg' : ledger) (ids : list bytes) : Prop := {
  moved_blocks : lg_blocks lg' = lg_blocks lg;
  moved_nodup : NoDup ids;
  moved_from : ∀ x, x ∈ ids → x ∈ pe_id <$> lg_queue lg ∧ lg_txns lg !! x = None;
  moved_queue : lg_queue lg' = filter (λ e, pe_id e ∉ ids) (lg_queue lg);
  moved_kept : ∀ k x, lg_txns lg !! k = Some x → ∃ y, lg_txns lg' !! k = Some y ∧ same_txn x y;
  moved_new : ∀ k, k ∈ ids → ∃ n c, lg_txns lg' !! k = Some (n, c) ∧ tn_key n = k ∧
    tn_block_id n = block_id ∧ tn_state n = DATASERVICE_TRANSACTION_NODE_STATE_CANONIZED;
  moved_only : ∀ k, is_Some (lg_txns lg' !! k) → is_Some (lg_txns lg !! k) ∨ k ∈ ids }.

(** The transaction of the wrapped certificate is [id], and is canonized with it. *)
Definition recorded (txns : txn_map) (cert id : bytes) : Prop :=
  (∃ c, process_child_fields (vccert_parser_of cert) = Ok c ∧ cf_transaction_id c = id) ∧
  ∃ n, txns !! id = Some (n, cert).

Lemma child_apply_moved height block_id lg cert lg' :
  child_apply height block_id lg cert = Ok lg' →
  ∃ id, recorded (lg_txns lg') cert id ∧ moved block_id lg lg' [id].
Proof.
  unfold child_apply. destruct (process_child_fields _) as [c|] eqn:Ec; [|done].
  destruct (lg_txns lg !! _) eqn:En; [done|]. case_bool_decide as Hin; [|done].
  destruct (link_prev _ _ _) as [txns|] eqn:El; [|done]. intros [= <-].
  apply link_prev_same in El. exists (cf_transaction_id c). split.
  { split; [by exists c|]. simpl.
    destruct (same_txns_lookup _ _ _ _ El (lookup_insert_eq _ _ _)) as ([n' c']&Hk&Hs).
    exists n'. rewrite Hk. f_equal. f_equal. symmetry. apply Hs. }
  split; simpl.
  - done.
  - apply NoDup_singleton.
  - intros x ->%list_elem_of_singleton. done.
  - unfold drop_entry. apply list_filter_iff. intros e. by rewrite list_elem_of_singleton.
  - intros k x Hk. eapply same_txns_lookup; [exact El|]. by rewrite lookup_insert_ne by congruence.
  - intros k ->%list_elem_of_singleton.
    destruct (same_txns_lookup _ _ _ _ El (lookup_insert_eq _ _ _)) as ([n' c']&Hk&Hs).
    destruct Hs as (?&?&?&?&?&?&?). simpl in *. eauto 10.
  - intros k [y Hy]. destruct (decide (k = cf_transaction_id c)) as [->|Hne]; [right; by left|left].
    destruct (lg_txns lg !! k) eqn:E; [done|]. exfalso.
    rewrite <- (lookup_insert_ne (lg_txns lg) (cf_transaction_id c) k
      (canonized_node c block_id cert, cert)) in E by done.
    apply (same_txns_None _ _ _ El) in E. congruence.
Qed.

Lemma children_apply_moved height block_id lg certs lg' :
  children_apply height block_id lg certs = Ok lg' →
  ∃ ids, Forall2 (recorded (lg_txns lg')) certs ids ∧ moved block_id lg lg' ids.
Proof.
  revert lg. induction certs as [|cert certs IH]; intros lg; simpl.
  { intros [= <-]. exists []. split; [constructor|]. split.
    - done.
    - apply NoDup_nil_2.
    - by intros x ?%elem_of_nil.
    - symmetry. apply filter_all, Forall_forall. intros e _ ?%elem_of_nil. done.
    - intros k x. eauto using same_txn_refl.
    - by intros k ?%elem_of_nil.
    - auto. }
  destruct (child_apply _ _ _ _) as [lg1|] eqn:E; [|done]. intros Hc.
  apply child_apply_moved in E as (id&[Hid [n1 Hn1]]&M1). apply IH in Hc as (ids&Hl&M2).
  assert (∃ y, lg_txns lg1 !! id = Some y) as [y Hy].
  { destruct (moved_new _ _ _ _ M1 id) as (n&c&?&_); [by left|eauto]. }
  exists (id :: ids). split.
  { constructor; [split; [done|]|done]. destruct (moved_kept _ _ _ _ M2 _ _ Hn1) as ([n' c']&Hk&Hc&_).
    simpl in Hc. subst. by exists n'. }
  split.
  - by rewrite (moved_blocks _ _ _ _ M2), (moved_blocks _ _ _ _ M1).
  - apply NoDup_cons. split; [|apply (moved_nodup _ _ _ _ M2)].
    intros [_ Hn]%(moved_from _ _ _ _ M2). congruence.
  - intros x [->|Hx]%elem_of_cons; [apply (moved_from _ _ _ _ M1); by left|].
    apply (moved_from _ _ _ _ M2) in Hx as [Hq Hn]. split.
    + rewrite (moved_queue _ _ _ _ M1) in Hq.
      apply list_elem_of_fmap in Hq as (e&->&[_ ?]%list_elem_of_filter). by apply list_elem_of_fmap_2.
    + destruct (lg_txns lg !! x) eqn:Ex; [|done].
      destruct (moved_kept _ _ _ _ M1 _ _ Ex) as (?&?&_). congruence.
  - rewrite (moved_queue _ _ _ _ M2), (moved_queue _ _ _ _ M1), list_filter_filter.
    apply list_filter_iff. intros e. rewrite !not_elem_of_cons. set_solver.
  - intros k x Hx. destruct (moved_kept _ _ _ _ M1 _ _ Hx) as (y1&Hy1&?).
    destruct (moved_kept _ _ _ _ M2 _ _ Hy1) as (y2&?&?). eauto using same_txn_trans.
  - intros k [->|Hk]%elem_of_cons; [|by apply (moved_new _ _ _ _ M2)].
    destruct (moved_new _ _ _ _ M1 id) as (n&c&Hk&?&?&?); [by left|].
    destruct (moved_kept _ _ _ _ M2 _ _ Hk) as ([n' c']&?&(_&?&?&?&?&?&?)). simpl in *.
    exists n', c'. split_and!; congruence.
  - intros k Hk. apply (moved_only _ _ _ _ M2) in Hk as [Hk|Hk]; [|right; by right].
    apply (moved_only _ _ _ _ M1) in Hk as [?|Hk]; [by left|right]. set_solver.
Qed.

Lemma ledger_append_ok lg block_id data lg' :
  ledger_append lg block_id data = Ok lg' →
  (∃ h, cert_get data VCCERT_FIELD_TYPE_BLOCK_HEIGHT 8 = Some h ∧ be_dec h = block_height lg + 1) ∧
  cert_get data VCCERT_FIELD_TYPE_PREVIOUS_BLOCK_UUID 16 = Some (last_block_id (lg_blocks lg)) ∧
  cert_get data VCCERT_FIELD_TYPE_BLOCK_UUID 16 = Some block_id ∧
  block_id ∉ [vccert_certificate_type_uuid_root_block; zero_uuid; ff_uuid] ∧
  block_id ∉ bk_id <$> lg_blocks lg ∧
  ∃ first, cert_get (hd [] (block_children data)) VCCERT_FIELD_TYPE_CERTIFICATE_ID 16 = Some first ∧
    block_children data ≠ [] ∧
    children_apply (block_height lg + 1) block_id
      (Ledger (lg_blocks lg ++ [Blk block_id first data]) (lg_txns lg) (lg_artifacts lg) (lg_queue lg))
      (block_children data) = Ok lg'.
Proof.
  unfold ledger_append.
  destruct (cert_get data VCCERT_FIELD_TYPE_BLOCK_HEIGHT 8) as [h|]; [|done].
  destruct (be_dec h =? _) eqn:Eh; [|done]. apply Z.eqb_eq in Eh.
  destruct (cert_get data VCCERT_FIELD_TYPE_PREVIOUS_BLOCK_UUID 16) as [prev|]; [|done].
  case_bool_decide as Hp; [subst prev|done].
  destruct (cert_get data VCCERT_FIELD_TYPE_BLOCK_UUID 16) as [u|]; [|done].
  case_bool_decide as Hu; [destruct Hu as [<- Hu]|done].
  destruct (block_children data) as [|raw certs]; [done|]. simpl.
  destruct (cert_get raw _ 16) as [first|]; [|done].
  case_bool_decide as Hin; [done|]. intros Hc. split; [by eauto|]. split_and!; [done..|].
  exists first. by split_and!.
Qed.

(** Appending a block adds it at the end, and moves transactions: those it wraps
    leave the queue and join the canonized ones. *)
Lemma ledger_append_moves lg block_id data lg' :
  ledger_append lg block_id data = Ok lg' →
  ∃ first ids,
    lg_blocks lg' = lg_blocks lg ++ [Blk block_id first data] ∧
    Forall2 (recorded (lg_txns lg')) (block_children data) ids ∧ ids ≠ [] ∧
    moved block_id (Ledger (lg_blocks lg') (lg_txns lg) (lg_artifacts lg) (lg_queue lg)) lg' ids.
Proof.
  intros (_&_&_&_&_&first&_&Hne&Hc)%ledger_append_ok.
  apply children_apply_moved in Hc as (ids&Hl&M).
  exists first, ids. pose proof (moved_blocks _ _ _ _ M) as Hb. simpl in Hb. rewrite Hb.
  split_and!; [done..| |done]. by destruct Hl.
Qed.

(** Every block names its height, its identifier and its predecessor. *)
Definition chain_valid (bs : list blk) : Prop :=
  ∀ bs1 b bs2, bs = bs1 ++ b :: bs2 →
    (∃ h, cert_get (bk_cert b) VCCERT_FIELD_TYPE_BLOCK_HEIGHT 8 = Some h ∧
          be_dec h = Z.of_nat (length bs1) + 1) ∧
    cert_get (bk_cert b) VCCERT_FIELD_TYPE_PREVIOUS_BLOCK_UUID 16 = Some (last_block_id bs1) ∧
    cert_get (bk_cert b) VCCERT_FIELD_TYPE_BLOCK_UUID 16 = Some (bk_id b) ∧
    bk_id b ∉ bk_id <$> bs1.

Lemma chain_valid_snoc bs b :
  chain_valid bs →
  (∃ h, cert_get (bk_cert b) VCCERT_FIELD_TYPE_BLOCK_HEIGHT 8 = Some h ∧
        be_dec h = Z.of_nat (length bs) + 1) →
  cert_get (bk_cert b) VCCERT_FIELD_TYPE_PREVIOUS_BLOCK_UUID 16 = Some (last_block_id bs) →
  cert_get (bk_cert b) VCCERT_FIELD_TYPE_BLOCK_UUID 16 = Some (bk_id b) →
  bk_id b ∉ bk_id <$> bs →
  chain_valid (bs ++ [b]).
Proof.
  intros Hv ???? bs1 b' bs2 Heq. destruct bs2 as [|x bs2 _] using rev_ind.
  - apply app_inj_tail in Heq as [<- <-]. by split_and!.
  - rewrite app_comm_cons, app_assoc in Heq. apply app_inj_tail in Heq as [Heq _].
    by apply (Hv bs1 b' bs2).
Qed.

Lemma ledger_append_valid lg block_id data lg' :
  chain_valid (lg_blocks lg) → ledger_append lg block_id data = Ok lg' →
  chain_valid (lg_blocks lg').
Proof.
  intros Hv (Hh&Hp&Hu&_&Hin&first&_&_&Hc)%ledger_append_ok.
  apply children_apply_moved in Hc as (ids&_&M). rewrite (moved_blocks _ _ _ _ M).
  by apply chain_valid_snoc.
Qed.
End ledger.

(** ** The stored blockchain

    [chain_rep mb mh bs] relates the contents of [block_db] and [height_db] to
    the list of blocks, and the lemmas say how the database updates of
    [dataservice_block_make] extend it. *)

Section rep.
Context {W : Type} {VC : VCCERT W}.

Definition next_block_id (bs : list blk) : bytes := default ff_uuid (bk_id <$> head bs).

(** The stored node of [b] with [bs1] before and [bs2] after it. *)
Definition block_node_of (bs1 : list blk) (b : blk) (bs2 : list blk) : data_block_node :=
  BlockNode (bk_id b) (last_block_id bs1) (next_block_id bs2) (bk_first b)
    (Z.of_nat (length bs1) + 1) (sizeof (bk_cert b)).
Definition block_value (bs1 : list blk) (b : blk) (bs2 : list blk) : bytes :=
  enc_block_node (block_node_of bs1 b bs2) ++ bk_cert b.

Definition block_start (next : bytes) : data_block_node :=
  BlockNode zero_uuid zero_uuid next zero_uuid 0 0.
Definition block_end (prev : bytes) (height : Z) : data_block_node :=
  BlockNode ff_uuid prev ff_uuid zero_uuid height 0.

Record wf_blk (b : blk) : Prop := {
  wf_bk_id : is_uuid (bk_id b);
  wf_bk_first : is_uuid (bk_first b);
  wf_bk_cert : sizeof (bk_cert b) < 2 ^ 63;
  wf_bk_cert_ne : bk_cert b ≠ [] }.

Definition wf_chain (bs : list blk) : Prop :=
  Forall wf_blk bs ∧ NoDup (zero_uuid :: ff_uuid :: (bk_id <$> bs)) ∧
  Z.of_nat (length bs) < 2 ^ 64.

Record block_list (mb : bytes_map) (bs : list blk) : Prop := {
  bl_start : mb !! zero_uuid = Some (enc_block_node (block_start (next_block_id bs)));
  bl_end : mb !! ff_uuid
           = Some (enc_block_node (block_end (last_block_id bs) (Z.of_nat (length bs))));
  bl_at : ∀ bs1 b bs2, bs = bs1 ++ b :: bs2 → mb !! bk_id b = Some (block_value bs1 b bs2);
  bl_dom : ∀ k, is_Some (mb !! k) → k = zero_uuid ∨ k = ff_uuid ∨ k ∈ bk_id <$> bs }.

(** [height_db] maps each height to the block at that height. *)
Definition height_index (mh : bytes_map) (bs : list blk) : Prop :=
  ∀ k v, mh !! k = Some v ↔
    ∃ i b, bs !! i = Some b ∧ k = be_enc 8 (Z.of_nat i + 1) ∧ v = bk_id b.

Definition chain_rep (mb mh : bytes_map) (bs : list blk) : Prop :=
  wf_chain bs ∧ height_index mh bs ∧ ((bs = [] ∧ mb = ∅) ∨ (bs ≠ [] ∧ block_list mb bs)).

(** ** Facts *)

Lemma last_block_id_snoc bs b : last_block_id (bs ++ [b]) = bk_id b.
Proof. unfold last_block_id. by rewrite last_snoc. Qed.

Lemma wf_chain_snoc bs b :
  wf_chain bs → wf_blk b → bk_id b ∉ zero_uuid :: ff_uuid :: (bk_id <$> bs) →
  Z.of_nat (length bs) + 1 < 2 ^ 64 → wf_chain (bs ++ [b]).
Proof.
  intros (Hf&Hnd&_) Hb Hid Hl. split_and!; [apply Forall_app; auto| |rewrite length_app; simpl; lia].
  rewrite fmap_app, fmap_cons, fmap_nil, !app_comm_cons, <- Permutation_cons_append.
  by apply NoDup_cons.
Qed.

(** A block's place is determined by its identifier. *)
Lemma chain_split_unique bs1 b bs2 bs1' b' bs2' :
  wf_chain (bs1 ++ b :: bs2) → bs1 ++ b :: bs2 = bs1' ++ b' :: bs2' → bk_id b = bk_id b' →
  bs1 = bs1' ∧ b = b' ∧ bs2 = bs2'.
Proof.
  intros (_&Hnd&_) Heq Hid. rewrite !NoDup_cons in Hnd. destruct Hnd as (_&_&Hnd).
  assert (length bs1 = length bs1') as Hl.
  { eapply (NoDup_lookup (bk_id <$> (bs1 ++ b :: bs2))); [done| |].
    - rewrite list_lookup_fmap, list_lookup_middle by done. simpl. done.
    - rewrite Heq, list_lookup_fmap, list_lookup_middle by done. simpl. by rewrite Hid. }
  apply app_inj_1 in Heq as [-> Heq]; [|done]. by simplify_eq.
Qed.

Lemma wf_chain_id_ne bs b :
  wf_chain bs → b ∈ bs → bk_id b ≠ zero_uuid ∧ bk_id b ≠ ff_uuid.
Proof.
  intros (_&Hnd&_) Hb%(list_elem_of_fmap_2 bk_id). rewrite !NoDup_cons, not_elem_of_cons in Hnd.
  split; intros Heq; rewrite Heq in Hb; naive_solver.
Qed.

Lemma height_index_snoc mh bs b :
  height_index mh bs → Z.of_nat (length bs) + 1 < 2 ^ 64 →
  mh !! be_enc 8 (Z.of_nat (length bs) + 1) = None ∧
  height_index (<[be_enc 8 (Z.of_nat (length bs) + 1) := bk_id b]> mh) (bs ++ [b]).
Proof.
  intros Hh Hl.
  assert (∀ i x, bs !! i = Some x →
    be_enc 8 (Z.of_nat (length bs) + 1) ≠ be_enc 8 (Z.of_nat i + 1)) as Hne.
  { intros i x Hi Heq. apply lookup_lt_Some in Hi. apply be_enc_inj in Heq; lia. }
  split.
  - apply eq_None_not_Some. intros [v Hv]. apply Hh in Hv as (i&x&Hi&Heq&_). by eapply Hne.
  - intros k v. rewrite lookup_insert_Some, (Hh k v). split.
    + intros [[<- <-]|[Hk (i&x&Hi&->&->)]].
      * exists (length bs), b. by rewrite list_lookup_middle.
      * exists i, x. split_and!; try done. by apply lookup_app_l_Some.
    + intros (i&x&[Hi|[Hi Hx]]%lookup_app_Some&->&->).
      * right. split; [by eapply Hne|eauto].
      * left. apply list_lookup_singleton_Some in Hx as [Hx <-]. split; [|done]. do 2 f_equal. lia.
Qed.

(** ** Extending the list *)

Lemma block_list_append mb bs x b :
  wf_chain ((bs ++ [x]) ++ [b]) → block_list mb (bs ++ [x]) →
  block_list
    (<[ff_uuid := enc_block_node (block_end (bk_id b) (Z.of_nat (length (bs ++ [x])) + 1))]>
       (<[bk_id x := block_value bs x [b]]>
          (<[bk_id b := block_value (bs ++ [x]) b []]> mb)))
    ((bs ++ [x]) ++ [b]).
Proof.
  intros Hwf Hm.
  assert (bk_id x ≠ bk_id b) as Hxb.
  { intros Heq. destruct (chain_split_unique bs x [b] (bs ++ [x]) b []) as (Hbs&_);
      rewrite <- ?app_assoc in *; [done..|]. by apply (f_equal length) in Hbs; len. }
  pose proof (wf_chain_id_ne _ x Hwf ltac:(set_solver)) as [Hxz Hxf].
  pose proof (wf_chain_id_ne _ b Hwf ltac:(set_solver)) as [Hbz Hbf].
  split.
  - pose proof zero_uuid_ne_ff. rewrite !lookup_insert_ne by done.
    rewrite (bl_start _ _ Hm). by destruct bs.
  - rewrite lookup_insert_eq, last_block_id_snoc. do 4 f_equal. len.
  - intros bs1 y bs2 Heq.
    pose proof (wf_chain_id_ne _ y Hwf ltac:(rewrite Heq; set_solver)) as [_ Hyf].
    rewrite lookup_insert_ne by done. destruct bs2 as [|z bs2 _] using rev_ind.
    + apply app_inj_tail in Heq as [<- <-].
      by rewrite lookup_insert_ne, lookup_insert_eq by done.
    + rewrite app_comm_cons, app_assoc in Heq. apply app_inj_tail in Heq as [Heq <-].
      destruct bs2 as [|u bs2 _] using rev_ind.
      * apply app_inj_tail in Heq as [<- <-]. by rewrite lookup_insert_eq.
      * assert (bk_id x ≠ bk_id y ∧ bk_id b ≠ bk_id y) as [Hxy Hby].
        { rewrite Heq, <- app_assoc in Hwf. rewrite app_comm_cons, app_assoc in Heq.
          apply app_inj_tail in Heq as [-> <-].
          destruct Hwf as (_&Hnd&_). rewrite !NoDup_cons in Hnd. destruct Hnd as (_&_&Hnd).
          rewrite fmap_app in Hnd. apply NoDup_app in Hnd as (_&_&Hnd). simpl in Hnd.
          apply NoDup_cons in Hnd as [Hn _]. rewrite !fmap_app in Hn. set_solver. }
        rewrite !lookup_insert_ne by done. rewrite (bl_at _ _ Hm bs1 y (bs2 ++ [u]) Heq).
        unfold block_value, block_node_of. do 4 f_equal. by destruct bs2.
  - intros k. rewrite !lookup_insert_is_Some', !fmap_app. pose proof (bl_dom _ _ Hm k) as Hd.
    rewrite fmap_app in Hd. set_solver.
Qed.

Lemma block_list_create b :
  wf_chain [b] →
  block_list
    (<[ff_uuid := enc_block_node (block_end (bk_id b) 1)]>
       (<[zero_uuid := enc_block_node (block_start (bk_id b))]>
          (<[bk_id b := block_value [] b []]> ∅)))
    [b].
Proof.
  intros Hwf. pose proof zero_uuid_ne_ff.
  pose proof (wf_chain_id_ne _ b Hwf ltac:(set_solver)) as [Hbz Hbf]. split.
  - by rewrite lookup_insert_ne, lookup_insert_eq by done.
  - by rewrite lookup_insert_eq.
  - intros bs1 y bs2 Heq. destruct bs1 as [|? [|]]; simplify_eq/=.
    by rewrite lookup_insert_ne, lookup_insert_ne, lookup_insert_eq by done.
  - intros k. rewrite !lookup_insert_is_Some', lookup_empty. intros [|[|[|[? [=]]]]]; set_solver.
Qed.

(** ** The stored bytes *)

Lemma next_block_id_uuid bs : Forall wf_blk bs → is_uuid (next_block_id bs).
Proof. destruct 1 as [|b bs []]; simpl; auto. Qed.

Lemma wf_block_start next : is_uuid next → wf_block_node (block_start next).
Proof. constructor; simpl; auto; lia. Qed.
Lemma wf_block_end prev h : is_uuid prev → 0 ≤ h < 2 ^ 64 → wf_block_node (block_end prev h).
Proof. constructor; simpl; auto; lia. Qed.

Lemma enc_block_node_nil n : enc_block_node n = enc_block_node n ++ [].
Proof. by rewrite app_nil_r. Qed.

Lemma block_node_key_enc n rest : wf_block_node n → block_node_key (enc_block_node n ++ rest) = bn_key n.
Proof. intros Hn. by destruct (block_node_fields n rest Hn) as (->&_). Qed.
Lemma block_node_key_enc' n : wf_block_node n → block_node_key (enc_block_node n) = bn_key n.
Proof. rewrite (enc_block_node_nil n). apply block_node_key_enc. Qed.

Lemma block_start_bytes id :
  is_uuid id →
  set_block_node_next id (memset Byte.x00 sizeof_block_node) = enc_block_node (block_start id).
Proof.
  intros. pose proof (block_node_zero []) as Hz. rewrite !app_nil_r in Hz.
  rewrite Hz, enc_block_node_nil. rewrite block_node_set_next by (done || apply wf_zero_block_node).
  by rewrite app_nil_r.
Qed.

Lemma block_end_bytes id h :
  is_uuid id → 0 ≤ h < 2 ^ 64 →
  set_block_node_net_block_height (htonll h)
    (set_block_node_prev id (set_block_node_next ff_uuid (set_block_node_key ff_uuid
      (memset Byte.x00 sizeof_block_node)))) = enc_block_node (block_end id h).
Proof.
  intros. pose proof (block_node_zero []) as Hz. rewrite !app_nil_r in Hz.
  rewrite Hz, enc_block_node_nil. rewrite block_node_set_key by (done || apply wf_zero_block_node).
  rewrite block_node_set_next, block_node_set_prev, block_node_set_height
    by (try done; constructor; simpl; auto; lia).
  by rewrite app_nil_r.
Qed.
End rep.
