(* ===== verification/BlockMakeSpec.v ===== *)
(** * Correctness of making a block

    [dataservice_block_make] implements [ledger_append] on the databases that
    represent a ledger, atomically and with the same errors. *)

From S2P Require Import Prelude Inet StatusCodes Contexts Lmdb Txn Records Vccert PqRep ProcessQueue ProcessQueueSpec BlockMake Ledger.

(** ** The databases of a ledger *)

Definition enc_txns (txns : txn_map) : bytes_map := (λ x, enc_txn_node x.1 ++ x.2) <$> txns.
Definition enc_artifacts (arts : artifact_map) : bytes_map := enc_artifact <$> arts.

(** A stored transaction is well formed and carries the size of its certificate. *)
Definition wf_txn (x : data_transaction_node * bytes) : Prop :=
  wf_txn_node x.1 ∧ tn_cert_size x.1 = sizeof x.2 ∧ x.2 ≠ [].
Definition wf_txns (txns : txn_map) : Prop := map_Forall (λ _, wf_txn) txns.
Definition wf_artifacts (arts : artifact_map) : Prop :=
  map_Forall (λ k a, wf_artifact a ∧ ar_key a = k) arts.

Section spec.
Context {W : Type} {L : LMDB W} {LL : LMDB_laws W} {VC : VCCERT W} {VL : VCCERT_laws W}.

Record ledger_rep (V : dbs) (lg : ledger) : Prop := {
  lr_chain : chain_rep (V block_db) (V height_db) (lg_blocks lg);
  lr_txns : V txn_db = enc_txns (lg_txns lg);
  lr_wf_txns : wf_txns (lg_txns lg);
  lr_artifacts : V artifact_db = enc_artifacts (lg_artifacts lg);
  lr_wf_artifacts : wf_artifacts (lg_artifacts lg);
  lr_queue : pq_rep (V pq_db) (lg_queue lg) }.

(** ** The records of a wrapped transaction *)

Lemma find_sized_ok parser f size err v parser' :
  find_sized parser f size err = (Ok v, parser') → length v = size.
Proof.
  unfold find_sized. destruct (vccert_parser_find_short parser f) as [[x|] p1]; [|done].
  destruct (length x =? size)%nat eqn:E; [|done]. intros [= <- <-]. by apply Nat.eqb_eq.
Qed.

Lemma process_child_fields_wf parser c :
  process_child_fields parser = Ok c →
  is_uuid (cf_transaction_id c) ∧ is_uuid (cf_prev_transaction_id c) ∧
  is_uuid (cf_artifact_id c) ∧ 0 ≤ cf_state c < 2 ^ 32.
Proof.
  unfold process_child_fields.
  destruct (find_sized parser _ 16 _) as [[id|] p1] eqn:E1; simpl; [|done].
  destruct (find_sized p1 _ 16 _) as [[prev|] p2] eqn:E2; simpl; [|done].
  destruct (find_sized p2 _ 16 _) as [[art|] p3] eqn:E3; simpl; [|done].
  destruct (find_sized p3 _ 4 _) as [[st|] p4] eqn:E4; simpl; [|done]. intros [= <-]. simpl.
  apply find_sized_ok in E1, E2, E3, E4. do 3 (split; [done|]).
  rewrite ntohl_le_dec by done. pose proof (be_dec_range st) as Hr. by rewrite E4 in Hr.
Qed.

(** A certificate with fields is not empty. *)
Lemma process_child_fields_nonempty cert c :
  process_child_fields (vccert_parser_of cert) = Ok c → cert ≠ [].
Proof.
  unfold process_child_fields.
  destruct (find_sized _ VCCERT_FIELD_TYPE_CERTIFICATE_ID 16 _) as [[id|] p1] eqn:E1; [|done].
  intros _ ->. pose proof (find_sized_ok _ _ _ _ _ _ E1) as Hl. unfold find_sized in E1.
  destruct (vccert_parser_find_short _ _) as [[v|] p2] eqn:E; [|done].
  destruct (law_find_short _ _ _ _ E) as [_ Hle]. rewrite law_parser_of in Hle.
  specialize (Hle v eq_refl). simpl in Hle. destruct (length v =? 16)%nat; simplify_eq. lia.
Qed.

Lemma child_txn_rec_value c block_id cert :
  is_uuid (cf_transaction_id c) → is_uuid (cf_prev_transaction_id c) → is_uuid (cf_artifact_id c) →
  is_uuid block_id → sizeof cert < 2 ^ 63 →
  wf_txn_node (canonized_node c block_id cert) ∧
  child_txn_rec c block_id cert = enc_txn_node (canonized_node c block_id cert) ++ cert.
Proof.
  intros Hid Hprev Hart Hb Hc. assert (0 ≤ sizeof cert < 2 ^ 64) by (unfold sizeof in *; lia).
  assert (wf_txn_node (canonized_node c block_id cert)) as Hwf by (constructor; simpl; auto; done).
  split; [done|]. unfold child_txn_rec. cbv zeta. rewrite memset_add, txn_node_zero.
  rewrite txn_node_set_key by (apply wf_zero_txn_node || done).
  rewrite txn_node_set_prev, txn_node_set_next, txn_node_set_artifact_id, txn_node_set_block_id,
    txn_node_set_cert_size, txn_node_set_state by (try done; constructor; simpl; auto; lia).
  fold (canonized_node c block_id cert). simpl tn_key.
  apply splice_tail; [by rewrite <- (length_enc_txn_node _ Hwf)|by rewrite length_memset].
Qed.

Lemma enc_txns_insert txns k n cert :
  enc_txns (<[k := (n, cert)]> txns) = <[k := enc_txn_node n ++ cert]> (enc_txns txns).
Proof. unfold enc_txns. by rewrite fmap_insert. Qed.

Lemma wf_txns_insert txns k x : wf_txns txns → wf_txn x → wf_txns (<[k := x]> txns).
Proof. intros. by apply map_Forall_insert_2. Qed.

Lemma update_prev_txn_spec t p P V txns prev id w :
  txn_state true w t p P V → V txn_db = enc_txns txns → wf_txns txns →
  prev ≠ zero_uuid → is_uuid id →
  post (dataservice_block_make_update_prev_txn t prev id)
    (txn_outcome t p P
       (λ _ V', ∃ txns', link_prev txns prev id = Ok txns' ∧ wf_txns txns' ∧
                  db_changed txn_db (enc_txns txns') V V')
       (λ s, link_prev txns prev id = Err s)) w.
Proof.
  intros Ht HV Hwf Hz Hid. unfold dataservice_block_make_update_prev_txn, link_prev.
  rewrite bool_decide_false by done. post_step.
  eapply post_get_cleared; [done|..]; rewrite ?HV; unfold enc_txns at 1; rewrite ?lookup_fmap.
  3: { intros; txn_fail. }
  - intros v w1 Hv H1. apply fmap_Some in Hv as ([n cert]&Hk&->). rewrite Hk. simpl.
    destruct (Hwf _ _ Hk) as (Hn&Hsz&Hce). simpl in Hn, Hsz, Hce. pose proof (length_enc_txn_node n Hn) as Hlen.
    rewrite (proj2 (Nat.ltb_ge _ _)) by len. rewrite txn_node_set_next by done. post_steps.
    eapply post_malloc_txn; [done| |intros ? [?|?]; [unfold sizeof, sizeof_txn_node in *; len|intros; txn_fail]].
    intros w2 H2. post_steps. eapply post_put; [done| |intros; txn_fail; naive_solver].
    intros w3 _ H3. post_steps. eexists. split; [done|]. eexists. split; [done|].
    split; [apply wf_txns_insert; [done|]; split_and!; [destruct Hn; by constructor|done..]|].
    rewrite enc_txns_insert, <- HV. auto.
  - intros w1 Hv H1. apply fmap_None in Hv. rewrite Hv. txn_fail.
Qed.

Lemma update_artifact_spec t p P V arts c h w :
  txn_state true w t p P V → V artifact_db = enc_artifacts arts → wf_artifacts arts →
  is_uuid (cf_artifact_id c) → is_uuid (cf_transaction_id c) → 0 ≤ h < 2 ^ 64 →
  0 ≤ cf_state c < 2 ^ 32 →
  post (dataservice_block_make_update_artifact t (cf_artifact_id c) (cf_transaction_id c) h (cf_state c))
    (txn_outcome t p P
       (λ _ V', wf_artifacts (artifact_apply arts c h) ∧
                db_changed artifact_db (enc_artifacts (artifact_apply arts c h)) V V')
       (λ _, False)) w.
Proof.
  intros Ht HV Hwf Ha Hid Hh Hs. unfold dataservice_block_make_update_artifact, artifact_apply.
  unfold new_artifact_record, updated_artifact_record. rewrite artifact_create by done. post_step.
  eapply post_get_cleared; [done|..]; rewrite ?HV; unfold enc_artifacts at 1; rewrite ?lookup_fmap.
  3: { intros; txn_fail. }
  - intros v w1 Hv H1. apply fmap_Some in Hv as (a&Hk&->). rewrite Hk.
    destruct (Hwf _ _ Hk) as [Hwa Hkey]. rewrite artifact_update by done.
    rewrite length_enc_artifact, Nat.eqb_refl by done.
    assert (wf_artifact (ArtifactRecord (ar_key a) (ar_txn_first a) (cf_transaction_id c)
      (ar_height_first a) h (cf_state c))) as Hwa' by (destruct Hwa; by constructor).
    rc_known. cbv zeta. rewrite artifact_key_enc by done. simpl ar_key. rewrite Hkey in *. rc_known. post_steps.
    eapply post_put; [done| |intros; txn_fail; naive_solver].
    intros w2 _ H2. post_steps. eexists. split; [done|]. split; [apply map_Forall_insert_2; [by split|done]|].
    unfold enc_artifacts. rewrite fmap_insert. rewrite HV. unfold enc_artifacts. auto.
  - intros w1 Hv H1. apply fmap_None in Hv. rewrite Hv.
    assert (wf_artifact (ArtifactRecord (cf_artifact_id c) (cf_transaction_id c) (cf_transaction_id c)
      h h (cf_state c))) as Hwa' by by constructor.
    rc_known. cbv zeta. rewrite artifact_key_enc by done. simpl ar_key. rc_known. post_steps.
    eapply post_put; [done| |].
    + intros w2 _ H2. post_steps. eexists. split; [done|]. split; [apply map_Forall_insert_2; [by split|done]|].
      unfold enc_artifacts. rewrite fmap_insert. rewrite HV. unfold enc_artifacts. auto.
    + intros rc w2 V' Hrc [[_ Hd]|Hf] H2; [|txn_fail]. exfalso. rewrite HV in Hd.
      unfold enc_artifacts in Hd. rewrite lookup_fmap, Hv in Hd. by destruct Hd.
Qed.

(** The databases represent the ledger [r] turned [lg] into, and the global
    settings are as in [V]. *)
Definition ledger_step (r : result ledger) (V V' : dbs) : Prop :=
  ∃ lg', r = Ok lg' ∧ ledger_rep V' lg' ∧ V' global_db = V global_db.

(** The databases that making a block does not change in this step. *)
Lemma ledger_rep_change V V' lg txns arts q :
  ledger_rep V lg →
  V' block_db = V block_db → V' height_db = V height_db →
  V' txn_db = enc_txns txns → wf_txns txns →
  V' artifact_db = enc_artifacts arts → wf_artifacts arts → pq_rep (V' pq_db) q →
  ledger_rep V' (Ledger (lg_blocks lg) txns arts q).
Proof. intros [] Hb Hh ?????. split; simpl; try done. by rewrite Hb, Hh. Qed.

Lemma post_parser_init_txn b wr t p P V (Q : bool → W → Prop) w :
  txn_state wr w t p P V →
  (∀ w', txn_state wr w' t p P V → Q true w') →
  (∀ w', vc_faulty → txn_state wr w' t p P V → Q false w') →
  post (vccert_parser_init b) Q w.
Proof.
  intros Ht Hok Hf. eapply post_silent_txn; [apply law_parser_init|done|].
  intros [] w' Hr H'; [auto|]. apply Hf; [|done]. intros R.
  pose proof (reliable_parser_init _ R b w). congruence.
Qed.

Lemma process_child_spec t p P V lg h block_id cert w :
  txn_state true w t p P V → ledger_rep V lg → is_uuid block_id → 0 ≤ h < 2 ^ 64 →
  sizeof cert < 2 ^ 63 →
  post (dataservice_block_make_process_child t h block_id cert)
    (txn_outcome t p P (λ _, ledger_step (child_apply h block_id lg cert) V)
       (λ s, child_apply h block_id lg cert = Err s ∨ vc_faulty)) w.
Proof.
  intros Ht Hr Hb Hh Hc. unfold dataservice_block_make_process_child, child_apply. post_step.
  eapply post_parser_init_txn; [done| |intros; txn_fail]. intros w1 H1. post_cbn.
  destruct (process_child_fields _) as [c|s] eqn:Ef; [|txn_fail].
  destruct (process_child_fields_wf _ _ Ef) as (Hid&Hprev&Hart&Hst).
  pose proof (process_child_fields_nonempty _ _ Ef) as Hcne.
  destruct (child_txn_rec_value c block_id cert) as [Hn ->]; [done..|]. post_step.
  eapply post_malloc_txn; [done| |intros ? [?|?]; [unfold sizeof_txn_node in *; lia|intros; txn_fail]].
  intros w2 H2. post_steps. destruct Hr as [Hch Htx Hwtx Hart' Hwart Hq] eqn:HR; clear HR.
  eapply post_put; [done|..].
  2: { intros rc w3 V3 Hrc [[_ Hd]|Hf] H3; [|txn_fail].
       rewrite Htx in Hd. unfold enc_txns in Hd. rewrite lookup_fmap in Hd.
       destruct (lg_txns lg !! _); [txn_fail|by destruct Hd]. }
  intros w3 Hno H3. specialize (Hno eq_refl). rewrite Htx in Hno, H3.
  unfold enc_txns in Hno. rewrite lookup_fmap in Hno. apply fmap_None in Hno. rewrite Hno. post_cbn.
  post_step. eapply post_mono; [eapply (drop_body_spec _ _ _ _ (lg_queue lg)); [done|by autorewrite with db]|].
  intros [[]|s] w4 (V4&H4&Hr4); cbn beta iota in *.
  2: { eexists. split; [done|]. destruct Hr4 as [[Hni ->]|?]; [|auto]. left. left.
       by rewrite bool_decide_false. }
  destruct Hr4 as [Hin [Hq4 Ho4]]. rewrite (bool_decide_true (cf_transaction_id c ∈ _)) by done.
  set (txns := <[cf_transaction_id c := (canonized_node c block_id cert, cert)]> (lg_txns lg)).
  assert (wf_txns txns) as Hwt by (apply wf_txns_insert; [done|by split_and!]).
  assert (V4 txn_db = enc_txns txns) as Htx4.
  { rewrite Ho4 by done. autorewrite with db. unfold txns. by rewrite enc_txns_insert. }
  assert (∀ d, d ≠ pq_db → d ≠ txn_db → V4 d = V d) as Hsame.
  { intros d ??. rewrite Ho4 by done. by autorewrite with db. }
  post_step. eapply (post_mono _ (txn_outcome t p P
    (λ _ V', ∃ txns', link_prev txns (cf_prev_transaction_id c) (cf_transaction_id c) = Ok txns' ∧
               wf_txns txns' ∧ db_changed txn_db (enc_txns txns') V4 V')
    (λ s, link_prev txns (cf_prev_transaction_id c) (cf_transaction_id c) = Err s))).
  { case_bool_decide as Hz; [|by apply update_prev_txn_spec]. post_steps. eexists. split; [done|].
    exists txns. unfold link_prev. rewrite bool_decide_true by done. split_and!; [done..|].
    split; [done|auto]. }
  intros [[]|s] w5 (V5&H5&Hr5); cbn beta iota in *.
  2: { eexists. split; [done|]. destruct Hr5 as [->|?]; auto. }
  destruct Hr5 as (txns'&Hl&Hwt'&Ht5&Ho5). rewrite Hl.
  eapply post_mono; [eapply (update_artifact_spec _ _ _ _ (lg_artifacts lg)); try done|].
  { rewrite Ho5, Hsame by done. done. }
  intros [[]|s] w6 (V6&H6&Hr6); cbn beta iota in *; eexists; (split; [done|]); [|naive_solver].
  destruct Hr6 as [Hwa [Ha6 Ho6]]. eexists. split; [done|].
  split; [|by rewrite Ho6, Ho5, Hsame by done].
  eapply ledger_rep_change; [exact Hr|..]; try done.
  - by rewrite Ho6, Ho5, Hsame by done.
  - by rewrite Ho6, Ho5, Hsame by done.
  - by rewrite Ho6, Ht5 by done.
  - by rewrite Ho6, Ho5 by done.
Qed.

Lemma children_spec fuel t p P V lg h block_id parser raw w :
  txn_state true w t p P V → ledger_rep V lg → is_uuid block_id → 0 ≤ h < 2 ^ 64 →
  sizeof (vccert_parser_cert parser) < 2 ^ 63 → sizeof raw < 2 ^ 63 →
  post (block_make_children fuel t h block_id parser raw)
    (txn_outcome t p P
       (λ _, ledger_step (children_apply h block_id lg (wrapped_list fuel parser raw)) V)
       (λ s, children_apply h block_id lg (wrapped_list fuel parser raw) = Err s ∨ vc_faulty)) w.
Proof.
  intros Ht Hr Hb Hh. revert V lg parser raw w Ht Hr.
  induction fuel as [|fuel IH]; intros V lg parser raw w Ht Hr Hc Hraw; simpl; post_step;
    (eapply post_mono; [by apply process_child_spec|]); intros [[]|s] w1 (V1&H1&Hr1); cbn beta iota in *.
  2,4: eexists; (split; [done|]); destruct Hr1 as [[->|?]|?]; auto.
  all: destruct Hr1 as (lg1&->&Hr1&Hg1).
  - assert (post (ok ()) (txn_outcome t p P (λ _, ledger_step (Ok lg1) V)
      (λ s, Ok lg1 = Err s ∨ vc_faulty)) w1) as Hdone.
    { post_steps. eexists. split; [done|]. eexists. by split_and!. }
    by destruct (vccert_parser_find_next parser) as [[]].
  - destruct (vccert_parser_find_next parser) as [[raw'|] parser'] eqn:En.
    + destruct (law_find_next _ _ _ En) as (Hce&Hle&_). rewrite <- Hce in Hc, Hle.
      eapply post_mono; [by eapply IH; try done; unfold sizeof in *; lia|].
      intros [[]|s] w2 (V2&H2&Hr2); cbn beta iota in *; eexists; (split; [done|]); [|done].
      destruct Hr2 as (lg2&->&?&?). eexists. split_and!; [done..|congruence].
    + post_steps. eexists. split; [done|]. eexists. by split_and!.
Qed.

(** The fuel of the loop is never used up: more fuel changes nothing, so the
    loop ends because the block has no more wrapped transactions. *)
Lemma block_make_children_fuel f1 f2 t h block_id parser raw :
  (vccert_parser_remaining parser ≤ f1)%nat → (vccert_parser_remaining parser ≤ f2)%nat →
  block_make_children f1 t h block_id parser raw = block_make_children f2 t h block_id parser raw ∧
  wrapped_list f1 parser raw = wrapped_list f2 parser raw.
Proof.
  revert f2 parser raw. induction f1 as [|f1 IH]; intros f2 parser raw H1 H2; simpl;
    destruct f2; simpl; destruct (vccert_parser_find_next parser) as [[raw'|] parser'] eqn:En;
    try done; pose proof (law_find_next _ _ _ En) as (_&_&Hlt); try lia.
  destruct (IH f2 parser' raw') as [-> ->]; [lia..|done].
Qed.

(** ** The block list *)

Lemma last_block_id_uuid bs : Forall wf_blk bs → is_uuid (last_block_id bs).
Proof.
  intros Hq. unfold last_block_id. destruct (last bs) as [e|] eqn:E; simpl; [|apply law_root_block].
  apply last_Some_elem_of in E. eapply Forall_forall in Hq; [|done]. apply Hq.
Qed.

Lemma wf_block_node_of bs1 b bs2 :
  Forall wf_blk bs1 → wf_blk b → Forall wf_blk bs2 → Z.of_nat (length bs1) + 1 < 2 ^ 64 →
  wf_block_node (block_node_of bs1 b bs2).
Proof.
  intros H1 [] H2 Hl.
  constructor; simpl; auto using last_block_id_uuid, next_block_id_uuid; unfold sizeof in *; lia.
Qed.

Lemma insert_blocknode_value bs b :
  Forall wf_blk bs → wf_blk b → Z.of_nat (length bs) + 1 < 2 ^ 64 →
  insert_blocknode (bk_id b) (last_block_id bs) (bk_first b) (Z.of_nat (length bs) + 1) (bk_cert b)
  = block_value bs b [].
Proof.
  intros Hbs Hb Hl. destruct (wf_block_node_of bs b [] Hbs Hb (Forall_nil_2 _) Hl) as [Hk Hp _ Hf Hh Hs].
  simpl in *. unfold insert_blocknode. cbv zeta.
  rewrite memset_add, splice_tail by (by rewrite ?length_memset). rewrite block_node_zero.
  change (memset Byte.xff 16) with ff_uuid.
  rewrite block_node_set_key by (apply wf_zero_block_node || done).
  rewrite block_node_set_next, block_node_set_prev, block_node_set_first_transaction_id,
    block_node_set_height, block_node_set_cert_size
    by (try done; constructor; simpl; auto; lia). done.
Qed.

(** A block that is stored already is one of the chain. *)
Lemma chain_rep_lookup mb mh bs id :
  chain_rep mb mh bs → id ≠ zero_uuid → id ≠ ff_uuid → is_Some (mb !! id) ↔ id ∈ bk_id <$> bs.
Proof.
  intros (_&_&[[-> ->]|[_ Hbl]]) Hz Hf.
  - rewrite lookup_empty. split; [by intros [? [=]]|by intros ?%elem_of_nil].
  - split; [intros Hs; by destruct (bl_dom _ _ Hbl _ Hs) as [?|[?|?]]|].
    intros (x&->&(bs1&bs2&->)%list_elem_of_split)%list_elem_of_fmap.
    rewrite (bl_at _ _ Hbl bs1 x bs2 eq_refl). eauto.
Qed.

Lemma insert_block_spec t p P V bs b w :
  txn_state true w t p P V → chain_rep (V block_db) (V height_db) bs → wf_blk b →
  bk_id b ≠ zero_uuid → bk_id b ≠ ff_uuid → Z.of_nat (length bs) + 1 < 2 ^ 64 →
  post (dataservice_make_block_insert_block t (bk_id b) (last_block_id bs) (bk_first b)
          (Z.of_nat (length bs) + 1) (bk_cert b))
    (txn_outcome t p P
       (λ _ V', bk_id b ∉ bk_id <$> bs ∧
          V' block_db = <[bk_id b := block_value bs b []]> (V block_db) ∧
          V' height_db = <[be_enc 8 (Z.of_nat (length bs) + 1) := bk_id b]> (V height_db) ∧
          ∀ d, d ≠ block_db → d ≠ height_db → V' d = V d)
       (λ s, bk_id b ∈ bk_id <$> bs ∧ s = AGENTD_ERROR_DATASERVICE_MDB_PUT_FAILURE)) w.
Proof.
  intros Ht Hch Hb Hz Hf Hl. unfold dataservice_make_block_insert_block. post_step.
  eapply post_malloc_txn; [done| |intros ? [?|?]; [unfold sizeof_block_node in *; lia|intros; txn_fail]].
  intros w1 H1. pose proof (chain_rep_lookup _ _ _ _ Hch Hz Hf) as Hdup.
  destruct Hch as ((Hbs&_&_)&Hh&_). destruct (height_index_snoc _ _ b Hh Hl) as [Hnone _].
  rewrite insert_blocknode_value by done. cbv zeta.
  pose proof (wf_block_node_of bs b [] Hbs Hb (Forall_nil_2 _) Hl) as Hn.
  unfold block_value. rewrite block_node_key_enc, block_node_height_bytes by done. simpl bn_key. simpl bn_height.
  post_steps. eapply post_put; [done| |intros rc w2 V2 Hrc [[_ Hd]|?] H2; [|txn_fail]].
  2: { apply Hdup in Hd. txn_fail. }
  intros w2 Hno H2. post_steps. eapply post_put; [done|..]; autorewrite with db.
  2: { rewrite Hnone. intros rc w3 V3 Hrc [[_ [? [=]]]|?] H3; txn_fail. }
  intros w3 _ H3. post_steps. eexists. split; [done|]. split_and!.
  - intros Hin%Hdup. rewrite Hno in Hin by done. by destruct Hin.
  - by autorewrite with db.
  - by autorewrite with db.
  - intros d ??. by autorewrite with db.
Qed.

Lemma block_create_queue_spec t p P V id h w :
  txn_state true w t p P V → is_uuid id → 0 ≤ h < 2 ^ 64 →
  post (dataservice_block_make_create_queue t id h)
    (txn_outcome t p P
       (λ _, db_changed block_db
          (<[ff_uuid := enc_block_node (block_end id h)]>
             (<[zero_uuid := enc_block_node (block_start id)]> (V block_db))) V)
       (λ _, False)) w.
Proof.
  intros Ht Hid Hh. unfold dataservice_block_make_create_queue.
  rewrite block_start_bytes by done. cbv zeta. rewrite block_end_bytes by done.
  rewrite !block_node_key_enc' by auto using wf_block_start, wf_block_end. simpl bn_key.
  post_step. eapply post_put; [done| |intros; txn_fail; naive_solver].
  intros w1 _ H1. post_steps. eapply post_put; [done| |intros; txn_fail; naive_solver].
  intros w2 _ H2. post_steps. eexists. split; [done|]. cbn beta iota.
  autorewrite with db in *. eapply db_changed_trans; eauto.
Qed.

(** A stored block is as long as its header says. *)
Lemma block_value_size bs b bs2 :
  Forall wf_blk bs → wf_blk b → Forall wf_blk bs2 → Z.of_nat (length bs) + 1 < 2 ^ 64 →
  sizeof (block_value bs b bs2)
  = Z.of_nat sizeof_block_node + ntohll (block_node_net_block_cert_size (block_value bs b bs2)) ∧
  Z.of_nat sizeof_block_node ≤ sizeof (block_value bs b bs2) < 2 ^ 64.
Proof.
  intros H1 Hb H2 Hl. pose proof (wf_block_node_of bs b bs2 H1 Hb H2 Hl) as Hn.
  assert (sizeof (block_value bs b bs2) = Z.of_nat sizeof_block_node + sizeof (bk_cert b)) as ->.
  { unfold sizeof, block_value. rewrite length_app, length_enc_block_node by done. lia. }
  unfold block_value. destruct (block_node_fields _ (bk_cert b) Hn) as (_&_&_&_&_&->). simpl.
  destruct Hb. unfold sizeof_block_node, sizeof in *. lia.
Qed.

Lemma block_update_prev_spec t p P V bs x b w :
  txn_state true w t p P V → Forall wf_blk bs → wf_blk x → wf_blk b →
  Z.of_nat (length bs) + 1 < 2 ^ 64 →
  V block_db !! bk_id x = Some (block_value bs x []) →
  post (dataservice_block_make_update_prev t (bk_id b) (bk_id x))
    (txn_outcome t p P
       (λ _, db_changed block_db (<[bk_id x := block_value bs x [b]]> (V block_db)) V)
       (λ _, False)) w.
Proof.
  intros Ht Hbs Hx Hb Hl Hm. unfold dataservice_block_make_update_prev.
  post_step. eapply post_get; [done| |by intros; simplify_eq|intros; txn_fail].
  intros v w1 Hv H1. rewrite Hm in Hv. injection Hv as <-.
  destruct (block_value_size bs x [] Hbs Hx (Forall_nil_2 _) Hl) as [Hsz Hlt].
  rewrite <- Hsz, wrap64_small by lia. rewrite take_ge by (unfold sizeof; lia).
  assert (set_block_node_next (bk_id b) (block_value bs x []) = block_value bs x [b]) as ->.
  { apply block_node_set_next; [by apply wf_block_node_of|apply Hb]. }
  post_steps. eapply post_malloc_txn; [done| |].
  - intros w2 H2. post_steps. eapply post_put; [done| |intros; txn_fail; naive_solver].
    intros w3 _ H3. post_steps. eexists. split; [done|]. cbn beta iota. auto.
  - intros w2 [Hle|Hf] H2; [unfold sizeof_block_node in *; lia|txn_fail].
Qed.

Lemma block_update_end_spec t p P V prev n id h w :
  txn_state true w t p P V → is_uuid prev → 0 ≤ n < 2 ^ 64 → is_uuid id → 0 ≤ h < 2 ^ 64 →
  post (dataservice_block_make_update_end t id h (enc_block_node (block_end prev n)))
    (txn_outcome t p P
       (λ _, db_changed block_db (<[ff_uuid := enc_block_node (block_end id h)]> (V block_db)) V)
       (λ _, False)) w.
Proof.
  intros Ht Hp Hn Hid Hh. unfold dataservice_block_make_update_end. cbv zeta.
  pose proof (wf_block_end prev n Hp Hn) as Hw. rewrite take_ge by (by rewrite length_enc_block_node).
  rewrite enc_block_node_nil, block_node_set_prev by done.
  rewrite block_node_set_height by (by apply (wf_block_end id n)). rewrite app_nil_r.
  change (BlockNode _ _ _ _ _ _) with (block_end id h).
  rewrite block_node_key_enc' by (by apply wf_block_end). simpl bn_key.
  post_step. eapply post_put; [done| |intros; txn_fail; naive_solver].
  intros w1 _ H1. post_steps. eexists. split; [done|]. cbn beta iota. auto.
Qed.

(** What [query_end_node] finds. *)
Definition stored_end (bs : list blk) : option bytes :=
  match bs with
  | [] => None
  | _ => Some (enc_block_node (block_end (last_block_id bs) (Z.of_nat (length bs))))
  end.

Lemma stored_end_wf bs :
  wf_chain bs → ∀ e, stored_end bs = Some e →
  length e = sizeof_block_node ∧ block_node_prev e = last_block_id bs ∧
  ntohll (block_node_net_block_height e) = Z.of_nat (length bs).
Proof.
  intros (Hf&_&Hl) e He. assert (e = enc_block_node (block_end (last_block_id bs) (Z.of_nat (length bs)))) as ->
    by (destruct bs; simpl in *; congruence).
  pose proof (wf_block_end _ _ (last_block_id_uuid bs Hf) (conj (Zle_0_nat _) Hl)) as Hw.
  split; [by apply length_enc_block_node|].
  destruct (block_node_fields _ [] Hw) as (_&Hp&_&_&Hh&_). rewrite app_nil_r in Hp, Hh. by rewrite Hp, Hh.
Qed.

(** Linking the inserted block into the list. *)
Lemma link_block_spec t p P V V0 bs b w :
  chain_rep (V0 block_db) (V0 height_db) bs → wf_chain (bs ++ [b]) →
  txn_state true w t p P V →
  V block_db = <[bk_id b := block_value bs b []]> (V0 block_db) →
  V height_db = <[be_enc 8 (Z.of_nat (length bs) + 1) := bk_id b]> (V0 height_db) →
  post (match stored_end bs with
        | None => dataservice_block_make_create_queue t (bk_id b) (Z.of_nat (length bs) + 1)
        | Some e =>
            let* _ := dataservice_block_make_update_prev t (bk_id b) (block_node_prev e) in
            dataservice_block_make_update_end t (bk_id b) (Z.of_nat (length bs) + 1) e
        end)
    (txn_outcome t p P
       (λ _ V', chain_rep (V' block_db) (V' height_db) (bs ++ [b]) ∧ ∀ d, d ≠ block_db → V' d = V d)
       (λ _, False)) w.
Proof.
  intros (Hwf0&Hh&Hbl) Hwf Ht Hb1 Hh1.
  assert (Z.of_nat (length bs) + 1 < 2 ^ 64) as Hl by (destruct Hwf as (_&_&Hl); len).
  destruct (height_index_snoc _ _ b Hh Hl) as [_ Hh'].
  pose proof (proj1 Hwf) as [Hbs [Hb _]%Forall_cons]%Forall_app.
  pose proof (wf_bk_id _ Hb) as Hid.
  assert (∀ V', block_list (V' block_db) (bs ++ [b]) → (∀ d, d ≠ block_db → V' d = V d) →
    chain_rep (V' block_db) (V' height_db) (bs ++ [b])) as Hdone.
  { intros V' Hb' Ho. split_and!; [done| |right; split; [by destruct bs|done]].
    by rewrite Ho, Hh1 by done. }
  destruct Hbl as [[-> Hemp]|[Hne Hbl]].
  - simpl stored_end. cbn beta iota. eapply post_mono; [apply block_create_queue_spec; [done..|simpl; lia]|].
    intros [[]|s] w1 (V1&H1&Hr); eexists; (split; [done|]); [|done]. destruct Hr as [Hc Ho].
    split; [|done]. apply Hdone; [|done]. rewrite Hc, Hb1, Hemp. by apply block_list_create.
  - destruct (exists_last Hne) as (bs0&x&->). apply Forall_app in Hbs as [Hbs0 [Hx _]%Forall_cons].
    destruct (stored_end ((bs0 ++ [x]))) as [e|] eqn:Ee; [|by destruct bs0].
    destruct (stored_end_wf _ Hwf0 _ Ee) as (_&->&_). rewrite last_block_id_snoc.
    assert (bk_id b ≠ bk_id x) as Hbx.
    { destruct Hwf as (_&Hnd&_). rewrite !fmap_app, !NoDup_cons, !NoDup_app in Hnd. set_solver. }
    assert (Z.of_nat (length bs0) + 1 < 2 ^ 64) by len.
    post_step. eapply post_mono; [eapply (block_update_prev_spec _ _ _ _ bs0 x b); try done|].
    { rewrite Hb1, lookup_insert_ne by done. by apply (bl_at _ _ Hbl). }
    intros [[]|s] w1 (V1&H1&Hr); cbn beta iota in *; [|by eexists].
    assert (e = enc_block_node (block_end (bk_id x) (Z.of_nat (length (bs0 ++ [x]))))) as ->.
    { rewrite <- (last_block_id_snoc bs0 x). by destruct bs0; simpl in *; simplify_eq. }
    eapply post_mono; [apply block_update_end_spec; [done|apply Hx|lia|done|lia]|].
    intros [[]|s] w2 (V2&H2&Hr2); eexists; (split; [done|]); [|done].
    pose proof (db_changed_trans _ _ _ _ _ _ Hr Hr2) as [Hc Ho]. split; [|done].
    apply Hdone; [|done]. rewrite Hc, (proj1 Hr), Hb1. by apply block_list_append.
Qed.

(** ** The constraints *)

Lemma query_end_node_spec t p P V bs w :
  txn_state true w t p P V → chain_rep (V block_db) (V height_db) bs →
  post (query_end_node t)
    (λ r w', txn_state true w' t p P V ∧ (r = Ok (stored_end bs) ∨ (faulty ∧ is_ok r = false))) w.
Proof.
  intros Ht (Hwf&_&Hbl). unfold query_end_node. change (memset Byte.xff 16) with ff_uuid. post_step.
  assert (V block_db !! ff_uuid = stored_end bs) as Hend.
  { destruct Hbl as [[-> ->]|[Hne Hbl]]; [done|]. rewrite (bl_end _ _ Hbl). by destruct bs. }
  eapply post_get_cleared; [done|..]; rewrite ?Hend.
  - intros v w1 Hv H1. destruct (stored_end_wf _ Hwf _ Hv) as (->&_). rewrite Nat.ltb_irrefl, Hv.
    rc_known. post_steps. auto.
  - intros w1 Hv H1. rewrite Hv. rc_known. post_steps. auto.
  - intros rc w1 Hrc Hrc' Hf H1. rc_ne. post_steps. split; [done|by right].
Qed.

Lemma cert_get_short parser f :
  (vccert_parser_find_short parser f).1
  = (vccert_parser_find_short (vccert_parser_of (vccert_parser_cert parser)) f).1.
Proof. by rewrite law_find_short_any. Qed.

(** The first constraint decides the height as [ledger_append] does. *)
Lemma constraint_height_spec parser data bs :
  vccert_parser_cert parser = data → wf_chain bs → Z.of_nat (length bs) + 1 < 2 ^ 64 →
  ∃ parser', vccert_parser_cert parser' = data ∧
  constraint_matching_block_height parser (stored_end bs)
  = (match cert_get data VCCERT_FIELD_TYPE_BLOCK_HEIGHT 8 with
     | None => Err AGENTD_ERROR_DATASERVICE_MISSING_BLOCK_HEIGHT
     | Some h => if be_dec h =? Z.of_nat (length bs) + 1 then Ok (Z.of_nat (length bs) + 1)
                 else Err AGENTD_ERROR_DATASERVICE_INVALID_BLOCK_HEIGHT
     end, parser').
Proof.
  intros <- Hwf Hl. unfold constraint_matching_block_height, cert_get. rewrite <- cert_get_short.
  assert (match stored_end bs with
          | Some e => wrap64 (1 + ntohll (block_node_net_block_height e)) | None => 1 end
          = Z.of_nat (length bs) + 1) as ->.
  { destruct (stored_end bs) as [e|] eqn:E; [|by destruct bs].
    destruct (stored_end_wf _ Hwf _ E) as (_&_&->). rewrite wrap64_small; lia. }
  destruct (vccert_parser_find_short parser _) as [[h|] parser'] eqn:E; simpl;
    destruct (law_find_short _ _ _ _ E) as [Hc _]; exists parser'; (split; [done|]); [|done].
  destruct (length h =? 8)%nat eqn:E8; [|done]. apply Nat.eqb_eq in E8.
  rewrite ntohll_le_dec by done. by destruct (be_dec h =? _).
Qed.

Lemma constraint_prev_spec parser data bs :
  vccert_parser_cert parser = data → wf_chain bs →
  ∃ parser', vccert_parser_cert parser' = data ∧
  constraint_matching_prev_uuid parser (stored_end bs)
  = (match cert_get data VCCERT_FIELD_TYPE_PREVIOUS_BLOCK_UUID 16 with
     | None => Err AGENTD_ERROR_DATASERVICE_MISSING_PREVIOUS_BLOCK_UUID
     | Some prev => if bool_decide (prev = last_block_id bs) then Ok (last_block_id bs)
                    else Err AGENTD_ERROR_DATASERVICE_INVALID_PREVIOUS_BLOCK_UUID
     end, parser').
Proof.
  intros <- Hwf. unfold constraint_matching_prev_uuid, cert_get. rewrite <- cert_get_short.
  assert (match stored_end bs with
          | Some e => block_node_prev e | None => vccert_certificate_type_uuid_root_block end
          = last_block_id bs) as ->.
  { destruct (stored_end bs) as [e|] eqn:E; [|by destruct bs].
    by destruct (stored_end_wf _ Hwf _ E) as (_&->&_). }
  destruct (vccert_parser_find_short parser _) as [[u|] parser'] eqn:E; simpl;
    destruct (law_find_short _ _ _ _ E) as [Hc _]; exists parser'; (split; [done|]); [|done].
  destruct (length u =? 16)%nat; [|done]. case_bool_decide; by subst.
Qed.

Lemma constraint_uuid_spec parser data block_id :
  vccert_parser_cert parser = data →
  ∃ parser', vccert_parser_cert parser' = data ∧
  constraint_sane_block_uuid parser block_id
  = (match cert_get data VCCERT_FIELD_TYPE_BLOCK_UUID 16 with
     | None => Err AGENTD_ERROR_DATASERVICE_MISSING_BLOCK_UUID
     | Some uuid =>
         if bool_decide (block_id = uuid ∧
              block_id ∉ [vccert_certificate_type_uuid_root_block; zero_uuid; ff_uuid])
         then Ok tt else Err AGENTD_ERROR_DATASERVICE_INVALID_BLOCK_UUID
     end, parser').
Proof.
  intros <-. unfold constraint_sane_block_uuid, cert_get. rewrite <- cert_get_short.
  destruct (vccert_parser_find_short parser _) as [[u|] parser'] eqn:E; simpl;
    destruct (law_find_short _ _ _ _ E) as [Hc _]; exists parser'; (split; [done|]); [|done].
  destruct (length u =? 16)%nat; [|done]. f_equal.
  assert (block_id ∉ [vccert_certificate_type_uuid_root_block; zero_uuid; ff_uuid] ↔
    block_id ≠ vccert_certificate_type_uuid_root_block ∧
    block_id ≠ zero_uuid ∧ block_id ≠ ff_uuid) as Hin.
  { rewrite !not_elem_of_cons. pose proof (not_elem_of_nil block_id). tauto. }
  repeat case_bool_decide; naive_solver.
Qed.

Lemma cert_get_len data f n v : cert_get data f n = Some v → length v = n.
Proof.
  unfold cert_get. destruct (vccert_parser_find_short _ f).1 as [x|]; [|done].
  destruct (length x =? n)%nat eqn:E; [|done]. intros [= <-]. by apply Nat.eqb_eq.
Qed.

Lemma cert_get_nonempty f n v : cert_get [] f n = Some v → n = 0%nat.
Proof.
  intros E. pose proof (cert_get_len _ _ _ _ E) as Hl. unfold cert_get in E.
  destruct (vccert_parser_find_short _ f) as [[x|] p] eqn:Ef; [|done]. simpl in E.
  destruct (law_find_short _ _ _ _ Ef) as [_ Hle]. rewrite law_parser_of in Hle.
  specialize (Hle x eq_refl). simpl in Hle. destruct (length x =? n)%nat; simplify_eq. lia.
Qed.

(** ** The whole operation *)

Lemma wrapped_list_head fuel parser raw :
  ∃ rest, wrapped_list fuel parser raw = raw :: rest.
Proof. destruct fuel; simpl; eauto. Qed.

Lemma first_transaction_id_spec t p P V raw w :
  txn_state true w t p P V →
  post (dataservice_make_block_get_first_transaction_id raw)
    (λ r w', txn_state true w' t p P V ∧
       (r = match cert_get raw VCCERT_FIELD_TYPE_CERTIFICATE_ID 16 with
            | Some id => Ok id
            | None => Err AGENTD_ERROR_DATASERVICE_MISSING_CHILD_TRANSACTION_UUID
            end ∨ (vc_faulty ∧ is_ok r = false))) w.
Proof.
  intros Ht. unfold dataservice_make_block_get_first_transaction_id, cert_get. post_step.
  eapply post_parser_init_txn; [done| |intros; post_steps; auto]. intros w1 H1. post_cbn.
  destruct (vccert_parser_find_short _ _).1 as [v|]; [|post_steps; auto].
  destruct (length v =? 16)%nat; post_steps; auto.
Qed.

(** Storing the block and its transactions once the constraints hold. *)
Lemma block_store_spec t p P lg first block_id data parser raw w :
  txn_state true w t p P P → ledger_rep P lg → wf_blk (Blk block_id first data) →
  block_id ≠ zero_uuid → block_id ≠ ff_uuid → block_height lg + 1 < 2 ^ 64 →
  vccert_parser_cert parser = data → (length raw ≤ length data)%nat →
  post (let* _ := dataservice_make_block_insert_block t block_id (last_block_id (lg_blocks lg))
                    first (block_height lg + 1) data in
        let* _ :=
          match stored_end (lg_blocks lg) with
          | None => dataservice_block_make_create_queue t block_id (block_height lg + 1)
          | Some e =>
              let* _ := dataservice_block_make_update_prev t block_id (block_node_prev e) in
              dataservice_block_make_update_end t block_id (block_height lg + 1) e
          end in
        block_make_children (length data) t (block_height lg + 1) block_id parser raw)
    (let r :=
       if bool_decide (block_id ∈ bk_id <$> lg_blocks lg)
       then Err AGENTD_ERROR_DATASERVICE_MDB_PUT_FAILURE
       else children_apply (block_height lg + 1) block_id
              (Ledger (lg_blocks lg ++ [Blk block_id first data]) (lg_txns lg) (lg_artifacts lg)
                 (lg_queue lg)) (wrapped_list (length data) parser raw) in
     txn_outcome t p P (λ _, ledger_step r P) (λ s, r = Err s ∨ vc_faulty)) w.
Proof.
  intros Ht Hr Hb Hz Hf Hl Hp Hraw. unfold block_height in *. set (b := Blk block_id first data) in *.
  pose proof (lr_chain _ _ Hr) as Hch. post_step.
  eapply post_mono; [by apply (insert_block_spec t p P P (lg_blocks lg) b)|].
  intros [[]|s] w1 (V1&H1&Hr1); cbn beta iota in *.
  2: { eexists. split; [done|]. destruct Hr1 as [[Hin ->]|?]; [|auto]. left. left.
       by rewrite bool_decide_true. }
  destruct Hr1 as (Hni&Hb1&Hh1&Ho1). rewrite bool_decide_false by done. post_step.
  assert (wf_chain (lg_blocks lg ++ [b])) as Hwf.
  { apply wf_chain_snoc; [apply Hch|done| |done]. rewrite !not_elem_of_cons. done. }
  eapply post_mono; [by apply (link_block_spec t p P V1 P (lg_blocks lg) b)|].
  intros [[]|s] w2 (V2&H2&Hr2); cbn beta iota in *; [|eexists; split; [done|]; naive_solver].
  destruct Hr2 as [Hch2 Ho2].
  assert (∀ d, d ≠ block_db → d ≠ height_db → V2 d = P d) as Ho.
  { intros d ??. rewrite Ho2, Ho1 by done. done. }
  eapply post_mono; [eapply (children_spec _ _ _ _ V2
    (Ledger (lg_blocks lg ++ [b]) (lg_txns lg) (lg_artifacts lg) (lg_queue lg))); [done| |apply Hb|lia|rewrite Hp; apply Hb|
    destruct Hb as [_ _ Hc _]; unfold sizeof in *; simpl in *; lia]|].
  { destruct Hr. split; simpl; try done; by rewrite Ho by done. }
  intros [[]|s] w3 (V3&H3&Hr3); cbn beta iota in *; eexists; (split; [done|]); [|done].
  destruct Hr3 as (lg'&->&Hr3&Hg). eexists. split_and!; [done..|]. by rewrite Hg, Ho.
Qed.

Lemma block_make_body_spec t p P lg block_id data w :
  txn_state true w t p P P → ledger_rep P lg → sizeof data < 2 ^ 63 → block_height lg + 1 < 2 ^ 64 →
  post (block_make_body block_id data t)
    (txn_outcome t p P (λ _, ledger_step (ledger_append lg block_id data) P)
       (λ s, ledger_append lg block_id data = Err s ∨ vc_faulty)) w.
Proof.
  intros Ht Hr Hd Hl. unfold block_make_body, ledger_append. cbv zeta. post_step.
  pose proof (lr_chain _ _ Hr) as Hch. pose proof (proj1 Hch) as Hwf.
  eapply post_mono; [by eapply query_end_node_spec|].
  intros r w1 [H1 [->|[Hf Hnok]]]; [|destruct r; [done|eexists; split; [done|]; auto]].
  destruct (constraint_height_spec _ data (lg_blocks lg) (law_parser_of data) Hwf Hl) as (p1&Hp1&->).
  fold (block_height lg). destruct (cert_get data VCCERT_FIELD_TYPE_BLOCK_HEIGHT 8) as [h|]; [|post_steps; txn_fail].
  destruct (be_dec h =? block_height lg + 1); [|post_steps; txn_fail]. post_steps.
  destruct (constraint_prev_spec _ data (lg_blocks lg) Hp1 Hwf) as (p2&Hp2&->).
  destruct (cert_get data VCCERT_FIELD_TYPE_PREVIOUS_BLOCK_UUID 16) as [prev|]; [|post_steps; txn_fail].
  case_bool_decide as Hprev; [|post_steps; txn_fail]. post_steps.
  destruct (constraint_uuid_spec _ data block_id Hp2) as (p3&Hp3&->).
  destruct (cert_get data VCCERT_FIELD_TYPE_BLOCK_UUID 16) as [u|] eqn:Eu; [|post_steps; txn_fail].
  case_bool_decide as Hu; [|post_steps; txn_fail]. post_steps. destruct Hu as [-> Hu].
  apply cert_get_len in Eu. rewrite !not_elem_of_cons in Hu. destruct Hu as (_&Hz&Hff&_).
  rewrite law_find_short_any, Hp3. unfold block_children.
  destruct (vccert_parser_find_short (vccert_parser_of data) _) as [[raw|] pw] eqn:Ew; [|post_steps; txn_fail].
  destruct (law_find_short _ _ _ _ Ew) as [Hpw Hraw]. rewrite law_parser_of in Hpw, Hraw.
  destruct (wrapped_list_head (length data) pw raw) as [rest Hw]. rewrite Hw. post_steps.
  eapply post_mono; [by eapply first_transaction_id_spec|].
  intros r w2 [H2 [->|[Hf Hnok]]]; [|destruct r; [done|eexists; split; [done|]; auto]].
  destruct (cert_get raw _ 16) as [first|] eqn:Ef; [|post_steps; txn_fail]. rewrite <- Hw.
  apply block_store_spec; auto. split; [done|by apply cert_get_len in Ef|done|].
  intros Hne. simpl in Hne. specialize (Hraw _ eq_refl). rewrite Hne in Hraw. simpl in Hraw.
  apply Nat.le_0_r, nil_length_inv in Hraw. rewrite Hraw in Ef. by apply cert_get_nonempty in Ef.
Qed.

Lemma block_make_ok p P lg child block_id data w :
  env_state w p P → ledger_rep P lg → sizeof data < 2 ^ 63 → block_height lg + 1 < 2 ^ 64 →
  BITCAP_ISSET (childcaps child) DATASERVICE_API_CAP_APP_BLOCK_WRITE = true →
  post (dataservice_block_make child p block_id data)
    (outcome p P (λ _, ledger_step (ledger_append lg block_id data) P)
       (λ s, ledger_append lg block_id data = Err s ∨ vc_faulty)) w.
Proof.
  intros Hst Hr Hd Hl Hcap. unfold dataservice_block_make. rewrite Hcap. simpl negb. cbn beta iota.
  post_step. eapply post_silent_env; [apply law_suite_init|done|]. intros [] w1 Hi1 H1; post_steps.
  2: { split; [done|]. left. right. intros R. pose proof (reliable_suite_init _ R w). congruence. }
  eapply post_silent_env; [apply law_options_init|done|]. intros [] w2 Hi2 H2; post_steps.
  2: { split; [done|]. left. right. intros R. pose proof (reliable_options_init _ R w1). congruence. }
  eapply post_silent_env; [apply law_parser_init|done|]. intros [] w3 Hi3 H3; post_steps.
  2: { split; [done|]. left. right. intros R. pose proof (reliable_parser_init _ R data w2). congruence. }
  apply post_in_txn; [done|]. intros t w' Ht. by apply block_make_body_spec.
Qed.

(** ** The theorems *)

(** C9: Refinement: on databases that represent a ledger, [dataservice_block_make]
    succeeds only by turning them into a representation of the ledger with the
    block appended, and fails only with the status [ledger_append] gives and
    with every database unchanged; barring faults of the database or of the
    certificate library nothing else can happen.  All effects become visible to
    the caller at once or not at all. *)
Theorem block_make_refines p P lg child block_id data w :
  env_state w p P → ledger_rep P lg → sizeof data < 2 ^ 63 → block_height lg + 1 < 2 ^ 64 →
  BITCAP_ISSET (childcaps child) DATASERVICE_API_CAP_APP_BLOCK_WRITE = true →
  post (dataservice_block_make child p block_id data)
    (outcome p P (λ _, ledger_step (ledger_append lg block_id data) P)
       (λ s, ledger_append lg block_id data = Err s ∨ vc_faulty)) w.
Proof. apply block_make_ok. Qed.

(** Total correctness: on a platform without faults [dataservice_block_make] answers
    exactly as [ledger_append] does: it stores every acceptable block with all
    of its transactions, and reports for any other block the reason while
    leaving the databases alone. *)
Theorem block_make_total p P lg child block_id data w :
  LMDB_reliable W → VCCERT_reliable W →
  env_state w p P → ledger_rep P lg → sizeof data < 2 ^ 63 → block_height lg + 1 < 2 ^ 64 →
  BITCAP_ISSET (childcaps child) DATASERVICE_API_CAP_APP_BLOCK_WRITE = true →
  post (dataservice_block_make child p block_id data)
    (λ r w', match ledger_append lg block_id data with
             | Ok lg' => r = Ok tt ∧ ∃ V, env_state w' p V ∧ ledger_rep V lg'
             | Err s => r = Err s ∧ env_state w' p P
             end) w.
Proof.
  intros R RV ?????. eapply post_mono; [by apply block_make_ok|].
  intros [[]|s] w' Ho; simpl in Ho; unfold faulty, vc_faulty in Ho.
  - destruct Ho as [(V&?&lg'&->&?&?)|[[] _]]; eauto.
  - destruct Ho as [? [[->|[]]|[]]]; auto.
Qed.

(** The loop over the wrapped transactions of a block ends because the block has no
    more of them: with any fuel of at least the size of the block it does the
    same, and what it works through is the list of all wrapped transactions. *)
Theorem block_make_terminates fuel t h block_id data raw parser :
  vccert_parser_find_short (vccert_parser_of data) VCCERT_FIELD_TYPE_WRAPPED_TRANSACTION_TUPLE
  = (Some raw, parser) →
  (length data ≤ fuel)%nat →
  block_make_children fuel t h block_id parser raw
  = block_make_children (length data) t h block_id parser raw ∧
  wrapped_list fuel parser raw = block_children data.
Proof.
  intros Ew Hf. destruct (law_find_short _ _ _ _ Ew) as [Hpw _]. rewrite law_parser_of in Hpw.
  pose proof (law_remaining parser) as Hrem. rewrite Hpw in Hrem.
  destruct (block_make_children_fuel fuel (length data) t h block_id parser raw) as [-> ->]; [lia..|].
  unfold block_children. by rewrite Ew.
Qed.
End spec.
