(* ===== verification/History.v ===== *)
(** * Histories of the ledger

    Any sequence of submissions, removals, promotions and blocks, with any
    statuses, faults of the platform included, keeps the databases in order:
    they represent a ledger whose blocks form a chain that only grows, and
    whose transactions and artifacts belong to it.  The effect of a block on
    the ledger is stated here for [dataservice_block_make] itself. *)

From S2P Require Import Prelude Inet StatusCodes Contexts Lmdb Txn Records Vccert PqRep ProcessQueue ProcessQueueSpec BlockMake Ledger BlockMakeSpec.

(** ** Safe ledgers *)

Section safe.
Context {W : Type} {VC : VCCERT W}.


(** A later ledger has all the blocks and all the transactions of an earlier one. *)
Record extends (lg lg' : ledger) : Prop := {
  ext_blocks : lg_blocks lg `prefix_of` lg_blocks lg';
  ext_txns : ∀ k x, lg_txns lg !! k = Some x → ∃ y, lg_txns lg' !! k = Some y ∧ same_txn x y }.

#[global] Instance extends_refl : Reflexive extends.
Proof. intros lg. split; [done|]. intros k x. eauto using same_txn_refl. Qed.
#[global] Instance extends_trans : Transitive extends.
Proof.
  intros lg1 lg2 lg3 [H1 H2] [H3 H4]. split; [by etrans|]. intros k x Hx.
  destruct (H2 _ _ Hx) as (y&Hy&?). destruct (H4 _ _ Hy) as (z&?&?). eauto using same_txn_trans.
Qed.






End safe.

(** ** Running the operations *)



Definition ledger_caps (child : dataservice_child_context) : Prop :=
  pq_caps child ∧ BITCAP_ISSET (childcaps child) DATASERVICE_API_CAP_APP_BLOCK_WRITE = true.


Section impl.
Context {W : Type} {L : LMDB W} {VC : VCCERT W}.
Context (ATTESTATION : bool) (child : dataservice_child_context).


End impl.

Section history.
Context {W : Type} {L : LMDB W} {LL : LMDB_laws W} {VC : VCCERT W} {VL : VCCERT_laws W}.
Context (ATTESTATION : bool) (child : dataservice_child_context) (Hcaps : ledger_caps child).








(** C33: The effect of [dataservice_block_make] on the databases of a ledger, for a child
    context that may do everything with the ledger ([ledger_caps]).  When it reports
    success the block has been added at the end of the chain, and every certificate that it wraps, in order,
    has been recorded as a canonized transaction, under the identifier that it names,
    with the certificate itself and marked with the block.  These transactions, all
    different, were waiting and not canonized before; they are exactly what has left the
    queue (whose order is kept) and exactly what has joined the canonized transactions;
    no record of an older transaction has changed but for the link to its successor.
    Otherwise nothing has changed, and the block is one that [ledger_append] refuses, with
    the status that is reported, or the database or the certificate library has failed
    (then a success may be reported for a commit that was lost, which the code does not
    look at).  The block is below 2^63 bytes and the height below 2^64. *)
Theorem block_make_moves P lg block_id data w :
  env_state w None P → ledger_rep P lg → sizeof data < 2 ^ 63 → block_height lg + 1 < 2 ^ 64 →
  post (dataservice_block_make child None block_id data)
    (λ r w',
      env_state w' None P ∧
        (faulty (W := W) ∨ vc_faulty (W := W) ∨ ∃ s, r = Err s ∧ ledger_append lg block_id data = Err s) ∨
      is_ok r = true ∧ ∃ V lg' first ids,
        env_state w' None V ∧ ledger_rep V lg' ∧
        lg_blocks lg' = lg_blocks lg ++ [Blk block_id first data] ∧
        Forall2 (recorded (lg_txns lg')) (block_children data) ids ∧ ids ≠ [] ∧
        moved block_id (Ledger (lg_blocks lg') (lg_txns lg) (lg_artifacts lg) (lg_queue lg)) lg' ids) w.
Proof.
  intros Hw Hr Hd Hh. destruct Hcaps as [_ Hb].
  eapply post_mono; [by apply block_make_ok|]. intros [[]|s] w' Ho; simpl in Ho.
  - destruct Ho as [(V&?&lg'&Happ&?&_)|[??]]; [right|left; auto].
    destruct (ledger_append_moves _ _ _ _ Happ) as (first&ids&?&?&?&?).
    split; [done|]. exists V, lg', first, ids. done.
  - left. destruct Ho as [? [[?|?]|?]]; split; try done; [by right; right; exists s|by right; left|by left].
Qed.
End history.
