(* ===== verification/Queries.v ===== *)
(** * Queries and settings

    The read operations on the blockchain and artifact databases and the global
    settings: [dataservice_block_get.c], [dataservice_block_id_by_height_get.c],
    [dataservice_latest_block_id_get.c], [dataservice_artifact_get.c],
    [dataservice_block_transaction_get.c],
    [dataservice_canonized_transaction_get.c], [dataservice_global_settings_get.c]
    and [dataservice_global_settings_set.c]. *)

From S2P Require Import Prelude Inet StatusCodes Contexts Lmdb Txn Records Vccert ProcessQueue.

Section queries.
Context {W : Type} {L : LMDB W} {VC : VCCERT W}.

(** The result is the node structure and the block certificate.  A query for
    the root block identifier, which is not stored, answers with the start node
    and no certificate. *)
Definition dataservice_block_get (child : dataservice_child_context) (dtxn_ctx : option MDB_txn)
    (block_id : bytes) : Eff W (bytes * bytes) :=
  if negb (BITCAP_ISSET (childcaps child) DATASERVICE_API_CAP_APP_BLOCK_READ)
  then throw AGENTD_ERROR_DATASERVICE_NOT_AUTHORIZED else
  in_query_txn dtxn_ctx (λ query_txn,
    let! '(rc, lval) := mdb_get_cleared query_txn block_db block_id in
    let! '(skip_cert, (rc, bdata)) :=
      if (rc =? MDB_NOTFOUND) && bool_decide (block_id = vccert_certificate_type_uuid_root_block)
      then let! r := mdb_get_cleared query_txn block_db zero_uuid in ret (true, r)
      else ret (false, (rc, lval)) in
    if rc =? MDB_NOTFOUND then throw AGENTD_ERROR_DATASERVICE_NOT_FOUND
    else if negb (rc =? 0) then throw AGENTD_ERROR_DATASERVICE_MDB_GET_FAILURE
    else if (negb skip_cert && (length bdata <=? sizeof_block_node)%nat)
            || (skip_cert && (length bdata <? sizeof_block_node)%nat)
    then throw AGENTD_ERROR_DATASERVICE_INVALID_STORED_BLOCK_NODE else
    let data_size := ntohll (block_node_net_block_cert_size bdata) in
    let block_size := sizeof bdata - Z.of_nat sizeof_block_node in
    if negb (block_size =? data_size)
    then throw AGENTD_ERROR_DATASERVICE_INVALID_STORED_BLOCK_NODE else
    let! mem := match dtxn_ctx with None => malloc block_size | Some _ => ret true end in
    if negb mem then throw AGENTD_ERROR_GENERAL_OUT_OF_MEMORY else
    ok (take sizeof_block_node bdata, drop sizeof_block_node bdata)).

Definition dataservice_block_id_by_height_get (child : dataservice_child_context)
    (dtxn_ctx : option MDB_txn) (height : Z) : Eff W bytes :=
  if negb (BITCAP_ISSET (childcaps child) DATASERVICE_API_CAP_APP_BLOCK_ID_BY_HEIGHT_READ)
  then throw AGENTD_ERROR_DATASERVICE_NOT_AUTHORIZED else
  in_query_txn dtxn_ctx (λ query_txn,
    let net_height := htonll height in
    let! '(rc, lval) := mdb_get_cleared query_txn height_db (le_enc 8 net_height) in
    if rc =? MDB_NOTFOUND then throw AGENTD_ERROR_DATASERVICE_NOT_FOUND
    else if negb (rc =? 0) then throw AGENTD_ERROR_DATASERVICE_MDB_GET_FAILURE
    else if negb (length lval =? 16)%nat then throw AGENTD_ERROR_DATASERVICE_INVALID_INDEX_ENTRY
    else ok lval).

Definition dataservice_latest_block_id_get (child : dataservice_child_context)
    (dtxn_ctx : option MDB_txn) : Eff W bytes :=
  if negb (BITCAP_ISSET (childcaps child) DATASERVICE_API_CAP_APP_BLOCK_ID_LATEST_READ)
  then throw AGENTD_ERROR_DATASERVICE_NOT_AUTHORIZED else
  in_query_txn dtxn_ctx (λ query_txn,
    let! '(rc, lval) := mdb_get_cleared query_txn block_db (memset Byte.xff 16) in
    if rc =? MDB_NOTFOUND then ok vccert_certificate_type_uuid_root_block
    else if negb (rc =? 0) then throw AGENTD_ERROR_DATASERVICE_MDB_GET_FAILURE
    else if negb (length lval =? sizeof_block_node)%nat
    then throw AGENTD_ERROR_DATASERVICE_INVALID_INDEX_ENTRY
    else ok (block_node_prev lval)).

Definition dataservice_artifact_get (child : dataservice_child_context)
    (dtxn_ctx : option MDB_txn) (artifact_id : bytes) : Eff W bytes :=
  if negb (BITCAP_ISSET (childcaps child) DATASERVICE_API_CAP_APP_ARTIFACT_READ)
  then throw AGENTD_ERROR_DATASERVICE_NOT_AUTHORIZED else
  in_query_txn dtxn_ctx (λ query_txn,
    let! '(rc, lval) := mdb_get_cleared query_txn artifact_db artifact_id in
    if rc =? MDB_NOTFOUND then throw AGENTD_ERROR_DATASERVICE_NOT_FOUND
    else if negb (rc =? 0) then throw AGENTD_ERROR_DATASERVICE_MDB_GET_FAILURE
    else if negb (length lval =? sizeof_artifact)%nat
    then throw AGENTD_ERROR_DATASERVICE_INVALID_ARTIFACT_NODE_SIZE
    else ok lval).

Definition dataservice_block_transaction_get (child : dataservice_child_context)
    (dtxn_ctx : option MDB_txn) (txn_id : bytes) : Eff W (bytes * bytes) :=
  if negb (BITCAP_ISSET (childcaps child) DATASERVICE_API_CAP_APP_TRANSACTION_READ)
  then throw AGENTD_ERROR_DATASERVICE_NOT_AUTHORIZED else
  in_query_txn dtxn_ctx (λ query_txn, transaction_get_entry txn_db dtxn_ctx query_txn txn_id).

Definition dataservice_canonized_transaction_get (child : dataservice_child_context)
    (dtxn_ctx : option MDB_txn) (txn_id : bytes) : Eff W (bytes * bytes) :=
  if negb (BITCAP_ISSET (childcaps child) DATASERVICE_API_CAP_APP_TRANSACTION_READ)
  then throw AGENTD_ERROR_DATASERVICE_NOT_AUTHORIZED else
  in_query_txn dtxn_ctx (λ query_txn, transaction_get_entry txn_db dtxn_ctx query_txn txn_id).

(** [size] is the size of the caller's buffer; the answer also tells the size
    stored when it does not fit. *)
Definition dataservice_global_settings_get (child : dataservice_child_context) (key size : Z)
  : Act W (result bytes * Z) :=
  if negb (BITCAP_ISSET (childcaps child) DATASERVICE_API_CAP_APP_GLOBAL_SETTING_READ)
  then ret (Err AGENTD_ERROR_DATASERVICE_NOT_AUTHORIZED, size) else
  let! '(rc, txn) := mdb_txn_begin None MDB_RDONLY in
  if negb (rc =? 0) then ret (Err AGENTD_ERROR_DATASERVICE_MDB_TXN_BEGIN_FAILURE, size) else
  let! '(rc, lval) := mdb_get_cleared txn global_db (le_enc 8 key) in
  let! _ := mdb_txn_abort txn in
  if rc =? MDB_NOTFOUND then ret (Err AGENTD_ERROR_DATASERVICE_NOT_FOUND, size)
  else if negb (rc =? 0) then ret (Err AGENTD_ERROR_DATASERVICE_MDB_GET_FAILURE, size)
  else if size <? sizeof lval then ret (Err AGENTD_ERROR_DATASERVICE_WOULD_TRUNCATE, sizeof lval)
  else ret (Ok lval, sizeof lval).

(** After a failed commit the function aborts the transaction again, although
    its handle is gone. *)
Definition dataservice_global_settings_set (child : dataservice_child_context) (key : Z)
    (buffer : bytes) : Eff W unit :=
  if negb (BITCAP_ISSET (childcaps child) DATASERVICE_API_CAP_APP_GLOBAL_SETTING_WRITE)
  then throw AGENTD_ERROR_DATASERVICE_NOT_AUTHORIZED else
  let! '(rc, txn) := mdb_txn_begin None 0 in
  if negb (rc =? 0) then throw AGENTD_ERROR_DATASERVICE_MDB_TXN_BEGIN_FAILURE else
  let! rc := mdb_put txn global_db (le_enc 8 key) buffer 0 in
  if negb (rc =? 0) then
    let! _ := mdb_txn_abort txn in throw AGENTD_ERROR_DATASERVICE_MDB_PUT_FAILURE else
  let! rc := mdb_txn_commit txn in
  if negb (rc =? 0) then
    let! _ := mdb_txn_abort txn in throw AGENTD_ERROR_DATASERVICE_MDB_TXN_COMMIT_FAILURE else
  ok tt.
End queries.
