(* ===== verification/QueriesSpec.v ===== *)
(** * Correctness of the queries

    The queries read back what [dataservice_block_make] stored: on databases
    that represent a ledger each query answers from the ledger, without faults
    in no other way, and changes nothing. *)

From S2P Require Import Prelude Inet StatusCodes Contexts Lmdb Txn Records Vccert PqRep ProcessQueue ProcessQueueSpec BlockMake Ledger BlockMakeSpec Queries.

Section spec.
Context {W : Type} {L : LMDB W} {LL : LMDB_laws W} {VC : VCCERT W} {VL : VCCERT_laws W}.
Context (P : dbs) (lg : ledger) (Hrep : ledger_rep P lg).
Context (child : dataservice_child_context).

(** The answer to a lookup. *)
Definition lookup_answer {A : Type} (o : option A) : result A :=
  match o with Some a => Ok a | None => Err AGENTD_ERROR_DATASERVICE_NOT_FOUND end.

(** The block with an identifier, as stored. *)
Definition block_answer (block_id : bytes) (r : result (bytes * bytes)) : Prop :=
  match r with
  | Ok x => ∃ bs1 b bs2, lg_blocks lg = bs1 ++ b :: bs2 ∧ bk_id b = block_id ∧
              x = (enc_block_node (block_node_of bs1 b bs2), bk_cert b)
  | Err s => block_id ∉ bk_id <$> lg_blocks lg ∧ s = AGENTD_ERROR_DATASERVICE_NOT_FOUND
  end.

(** A query that reads one key. *)
Ltac query_start Hcap :=
  rewrite Hcap; simpl negb; cbn beta iota; apply post_in_query_txn; [done|]; intros t w' Ht; post_step.
Ltac query_fault := intros; rc_ne; repeat (post_step; post_cbn; rc_ne); split; [done|by right].

Lemma block_get_ok block_id w :
  env_state w None P → block_id ≠ zero_uuid → block_id ≠ ff_uuid →
  block_id ≠ vccert_certificate_type_uuid_root_block →
  BITCAP_ISSET (childcaps child) DATASERVICE_API_CAP_APP_BLOCK_READ = true →
  post (dataservice_block_get child None block_id) (query_outcome None P (block_answer block_id)) w.
Proof.
  intros Hst Hz Hf Hroot Hcap. unfold dataservice_block_get. query_start Hcap.
  pose proof (lr_chain _ _ Hrep) as Hch. pose proof (chain_rep_lookup _ _ _ _ Hch Hz Hf) as Hin.
  eapply post_get_cleared; [done|..].
  3: { query_fault. }
  - intros v w1 Hv H1. rewrite Hv in Hin. destruct Hch as (Hwf&_&Hbl).
    destruct Hbl as [[_ Hemp]|[_ Hbl]]; [by rewrite Hemp in Hv|].
    assert (block_id ∈ bk_id <$> lg_blocks lg) as Hb by (apply Hin; eauto).
    apply list_elem_of_fmap in Hb as (b&->&(bs1&bs2&Heq)%list_elem_of_split).
    rewrite (bl_at _ _ Hbl bs1 b bs2 Heq) in Hv. injection Hv as <-.
    destruct Hwf as (Hfa&_&Hl). rewrite Heq in Hfa, Hl. rewrite length_app in Hl. simpl in Hl.
    apply Forall_app in Hfa as [H1' [Hb H2']%Forall_cons].
    assert (Z.of_nat (length bs1) + 1 < 2 ^ 64) as Hl' by lia.
    pose proof (wf_block_node_of bs1 b bs2 H1' Hb H2' Hl') as Hn.
    destruct (block_value_size bs1 b bs2 H1' Hb H2' Hl') as [Hsz _].
    pose proof (wf_bk_cert_ne _ Hb). assert (length (bk_cert b) ≠ 0)%nat by (by destruct (bk_cert b)).
    rc_known. apply post_act, post_ret. rc_known.
    assert (length (block_value bs1 b bs2) = sizeof_block_node + length (bk_cert b))%nat as Hlen.
    { unfold block_value. by rewrite length_app, length_enc_block_node by done. }
    rewrite (proj2 (Nat.leb_gt _ _)) by lia.
    rewrite (proj2 (Z.eqb_eq _ _)) by lia. post_steps.
    assert (take sizeof_block_node (block_value bs1 b bs2) = enc_block_node (block_node_of bs1 b bs2) ∧
            drop sizeof_block_node (block_value bs1 b bs2) = bk_cert b) as [-> ->].
    { unfold block_value. rewrite <- (length_enc_block_node _ Hn).
      by rewrite take_app_length, drop_app_length. }
    eapply post_malloc_txn; [done| |intros ? [?|?]; [unfold sizeof in *; lia|intros; post_steps; split; [done|by right]]].
    intros w2 H2. post_steps. split; [done|left]. simpl. eauto 10.
  - intros w1 Hv H1. rc_known. rewrite bool_decide_false by done. apply post_act, post_ret.
    rc_known. post_steps.
    split; [done|left]. split; [|done].
    rewrite <- Hin, Hv. by intros [? [=]].
Qed.

(** [dataservice_block_get] returns the node (with its neighbours, height and first
    transaction) and the certificate of the block with the given identifier, or
    [NOT_FOUND] when the blockchain has no such block. *)
Theorem block_get_spec block_id w :
  env_state w None P → block_id ≠ zero_uuid → block_id ≠ ff_uuid →
  block_id ≠ vccert_certificate_type_uuid_root_block →
  BITCAP_ISSET (childcaps child) DATASERVICE_API_CAP_APP_BLOCK_READ = true →
  post (dataservice_block_get child None block_id) (query_outcome None P (block_answer block_id)) w.
Proof. apply block_get_ok. Qed.

Lemma block_id_by_height_ok height w :
  env_state w None P → 0 ≤ height < 2 ^ 64 →
  BITCAP_ISSET (childcaps child) DATASERVICE_API_CAP_APP_BLOCK_ID_BY_HEIGHT_READ = true →
  post (dataservice_block_id_by_height_get child None height)
    (query_outcome None P
       (λ r, r = lookup_answer
          (if height =? 0 then None else bk_id <$> lg_blocks lg !! Z.to_nat (height - 1)))) w.
Proof.
  intros Hst Hh Hcap. unfold dataservice_block_id_by_height_get. query_start Hcap. cbv zeta.
  rewrite le_enc_htonll. destruct (lr_chain _ _ Hrep) as ((Hfa&_&Hl)&Hi&_).
  eapply post_get_cleared; [done|..].
  3: { query_fault. }
  - intros v w1 Hv H1. apply Hi in Hv as (i&b&Hb&Hk&->).
    assert (height = Z.of_nat i + 1) as ->.
    { pose proof (lookup_lt_Some _ _ _ Hb). apply be_enc_inj in Hk; lia. }
    assert (is_uuid (bk_id b)) as Hu.
    { apply list_elem_of_lookup_2 in Hb. eapply Forall_forall in Hfa; [|done]. apply Hfa. }
    rewrite Hu. change (16 =? 16)%nat with true. rc_known. post_steps. split; [done|left].
    rewrite (proj2 (Z.eqb_neq _ 0)) by lia.
    replace (Z.to_nat (Z.of_nat i + 1 - 1)) with i by lia. by rewrite Hb.
  - intros w1 Hv H1. rc_known. post_steps. split; [done|left]. destruct (height =? 0) eqn:E; [done|].
    apply Z.eqb_neq in E. destruct (lg_blocks lg !! _) as [b|] eqn:Eb; [|done]. exfalso.
    assert (P height_db !! be_enc 8 height = Some (bk_id b)) as Hs.
    { apply Hi. eexists _, b. split; [done|]. split; [|done]. f_equal. lia. }
    congruence.
Qed.

(** [dataservice_block_id_by_height_get] returns the identifier of the block at the
    given height, counted from 1, and [NOT_FOUND] for every other height. *)
Theorem block_id_by_height_spec height w :
  env_state w None P → 0 ≤ height < 2 ^ 64 →
  BITCAP_ISSET (childcaps child) DATASERVICE_API_CAP_APP_BLOCK_ID_BY_HEIGHT_READ = true →
  post (dataservice_block_id_by_height_get child None height)
    (query_outcome None P
       (λ r, r = lookup_answer
          (if height =? 0 then None else bk_id <$> lg_blocks lg !! Z.to_nat (height - 1)))) w.
Proof. apply block_id_by_height_ok. Qed.

Lemma latest_block_id_ok w :
  env_state w None P →
  BITCAP_ISSET (childcaps child) DATASERVICE_API_CAP_APP_BLOCK_ID_LATEST_READ = true →
  post (dataservice_latest_block_id_get child None)
    (query_outcome None P (λ r, r = Ok (last_block_id (lg_blocks lg)))) w.
Proof.
  intros Hst Hcap. unfold dataservice_latest_block_id_get. query_start Hcap.
  change (memset Byte.xff 16) with ff_uuid. destruct (lr_chain _ _ Hrep) as (Hwf&_&Hbl).
  eapply post_get_cleared; [done|..].
  3: { query_fault. }
  - intros v w1 Hv H1. destruct Hbl as [[_ Hemp]|[Hne Hbl]]; [by rewrite Hemp in Hv|].
    rewrite (bl_end _ _ Hbl) in Hv.
    destruct (stored_end_wf _ Hwf v) as (->&->&_); [by destruct (lg_blocks lg)|].
    rewrite Nat.eqb_refl. rc_known. post_steps. split; [done|by left].
  - intros w1 Hv H1. rc_known. post_steps. split; [done|left].
    destruct Hbl as [[-> _]|[_ Hbl]]; [done|]. by rewrite (bl_end _ _ Hbl) in Hv.
Qed.

(** [dataservice_latest_block_id_get] always succeeds with the identifier of the
    last block, which is the root block as long as no block was made. *)
Theorem latest_block_id_spec w :
  env_state w None P →
  BITCAP_ISSET (childcaps child) DATASERVICE_API_CAP_APP_BLOCK_ID_LATEST_READ = true →
  post (dataservice_latest_block_id_get child None)
    (query_outcome None P (λ r, r = Ok (last_block_id (lg_blocks lg)))) w.
Proof. apply latest_block_id_ok. Qed.

Lemma artifact_get_ok artifact_id w :
  env_state w None P →
  BITCAP_ISSET (childcaps child) DATASERVICE_API_CAP_APP_ARTIFACT_READ = true →
  post (dataservice_artifact_get child None artifact_id)
    (query_outcome None P
       (λ r, r = lookup_answer (enc_artifact <$> lg_artifacts lg !! artifact_id))) w.
Proof.
  intros Hst Hcap. unfold dataservice_artifact_get. query_start Hcap.
  eapply post_get_cleared; [done|..]; rewrite ?(lr_artifacts _ _ Hrep); unfold enc_artifacts; rewrite ?lookup_fmap.
  3: { query_fault. }
  - intros v w1 Hv H1. rewrite Hv. apply fmap_Some in Hv as (a&Ha&->).
    destruct (lr_wf_artifacts _ _ Hrep _ _ Ha) as [Hwa _].
    rewrite length_enc_artifact, Nat.eqb_refl by done. rc_known. post_steps. split; [done|by left].
  - intros w1 Hv H1. rewrite Hv. rc_known. post_steps. split; [done|by left].
Qed.

(** [dataservice_artifact_get] returns the record of the artifact, or [NOT_FOUND]
    when no canonized transaction mentions it. *)
Theorem artifact_get_spec artifact_id w :
  env_state w None P →
  BITCAP_ISSET (childcaps child) DATASERVICE_API_CAP_APP_ARTIFACT_READ = true →
  post (dataservice_artifact_get child None artifact_id)
    (query_outcome None P
       (λ r, r = lookup_answer (enc_artifact <$> lg_artifacts lg !! artifact_id))) w.
Proof. apply artifact_get_ok. Qed.

Lemma canonized_transaction_get_ok txn_id w :
  env_state w None P →
  BITCAP_ISSET (childcaps child) DATASERVICE_API_CAP_APP_TRANSACTION_READ = true →
  post (dataservice_canonized_transaction_get child None txn_id)
    (query_outcome None P
       (λ r, r = lookup_answer ((λ x, (enc_txn_node x.1, x.2)) <$> lg_txns lg !! txn_id))) w ∧
  dataservice_block_transaction_get child None txn_id
  = dataservice_canonized_transaction_get child None txn_id.
Proof.
  intros Hst Hcap. split; [|done]. unfold dataservice_canonized_transaction_get, transaction_get_entry.
  query_start Hcap.
  eapply post_get_cleared; [done|..]; rewrite ?(lr_txns _ _ Hrep); unfold enc_txns; rewrite ?lookup_fmap.
  3: { query_fault. }
  - intros v w1 Hv H1. apply fmap_Some in Hv as ([n cert]&Hx&->). rewrite Hx.
    destruct (lr_wf_txns _ _ Hrep _ _ Hx) as (Hn&Hsz&Hne). simpl in *.
    pose proof (length_enc_txn_node n Hn) as Hlen.
    assert (length cert ≠ 0)%nat by (by destruct cert).
    rewrite (proj2 (Nat.leb_gt _ _)) by len. rc_known.
    destruct (txn_node_fields n cert Hn) as (_&_&_&_&_&->&_). rewrite Hsz.
    rewrite (proj2 (Z.eqb_eq _ (sizeof cert))) by (unfold sizeof; len). post_steps.
    rewrite <- Hlen, take_app_length, drop_app_length.
    eapply post_malloc_txn; [done| |intros ? [?|?]; [unfold sizeof in *; len|intros; post_steps; split; [done|by right]]].
    intros w2 H2. post_steps. split; [done|by left].
  - intros w1 Hv H1. apply fmap_None in Hv. rewrite Hv. rc_known. post_steps. split; [done|by left].
Qed.

(** [dataservice_canonized_transaction_get] and [dataservice_block_transaction_get]
    return the node (with its block, artifact, neighbours and state) and the
    certificate of a canonized transaction, or [NOT_FOUND]. *)
Theorem canonized_transaction_get_spec txn_id w :
  env_state w None P →
  BITCAP_ISSET (childcaps child) DATASERVICE_API_CAP_APP_TRANSACTION_READ = true →
  post (dataservice_canonized_transaction_get child None txn_id)
    (query_outcome None P
       (λ r, r = lookup_answer ((λ x, (enc_txn_node x.1, x.2)) <$> lg_txns lg !! txn_id))) w ∧
  dataservice_block_transaction_get child None txn_id
  = dataservice_canonized_transaction_get child None txn_id.
Proof. apply canonized_transaction_get_ok. Qed.
End spec.

(** ** Global settings *)

Section settings.
Context {W : Type} {L : LMDB W} {LL : LMDB_laws W}.

(** [dataservice_global_settings_set], unlike the other operations, reports a
    failed commit. *)
Lemma global_settings_set_spec P child key v w :
  env_state w None P →
  BITCAP_ISSET (childcaps child) DATASERVICE_API_CAP_APP_GLOBAL_SETTING_WRITE = true →
  post (dataservice_global_settings_set child key v)
    (λ r w', match r with
             | Ok _ => ∃ V, env_state w' None V ∧
                 db_changed global_db (<[le_enc 8 key := v]> (P global_db)) P V
             | Err _ => faulty
             end) w.
Proof.
  intros Hst Hcap. unfold dataservice_global_settings_set. rewrite Hcap. simpl negb. post_steps.
  eapply post_begin; [done|intros; rc_ne; by post_steps|]. intros t w1 H1. post_steps.
  eapply post_put; [done| |].
  - intros w2 _ H2. post_steps. eapply post_commit; [done| |].
    + intros w3 H3. post_steps. eauto.
    + intros rc w3 Hrc Hf H3. rc_ne. post_steps. apply post_run. done.
  - intros rc w2 V2 Hrc [[[=] _]|Hf] H2. rc_ne. post_steps. eapply post_abort; [done|].
    intros. by post_steps.
Qed.

Lemma global_settings_get_spec P child key size w :
  env_state w None P →
  BITCAP_ISSET (childcaps child) DATASERVICE_API_CAP_APP_GLOBAL_SETTING_READ = true →
  post (dataservice_global_settings_get child key size)
    (λ r w', env_state w' None P ∧
       (r = match P global_db !! le_enc 8 key with
            | None => (Err AGENTD_ERROR_DATASERVICE_NOT_FOUND, size)
            | Some v => if size <? sizeof v then (Err AGENTD_ERROR_DATASERVICE_WOULD_TRUNCATE, sizeof v)
                        else (Ok v, sizeof v)
            end ∨ (faulty ∧ is_ok r.1 = false))) w.
Proof.
  intros Hst Hcap. unfold dataservice_global_settings_get. rewrite Hcap. simpl negb. post_steps.
  eapply post_begin; [done|intros; rc_ne; post_steps; split; [done|by right]|].
  intros t w1 H1. post_steps. eapply post_get_cleared; [done|..].
  - intros v w2 Hv H2. post_steps. eapply post_abort; [done|]. intros w3 H3. rewrite Hv. rc_known.
    destruct (size <? sizeof v); post_steps; (split; [done|by left]).
  - intros w2 Hv H2. post_steps. eapply post_abort; [done|]. intros w3 H3. rewrite Hv. rc_known.
    post_steps. auto.
  - intros rc w2 Hrc1 Hrc2 Hf H2. post_steps. eapply post_abort; [done|]. intros w3 H3. rc_ne. post_steps.
    split; [done|by right].
Qed.

(** A global setting reads back as it was last written: after a successful
    [dataservice_global_settings_set], [dataservice_global_settings_get] with a
    large enough buffer returns the value, and with a smaller one returns
    [WOULD_TRUNCATE] and the size needed; without outside faults both succeed. *)
Theorem global_settings_roundtrip P child key v size w :
  env_state w None P →
  BITCAP_ISSET (childcaps child) DATASERVICE_API_CAP_APP_GLOBAL_SETTING_WRITE = true →
  BITCAP_ISSET (childcaps child) DATASERVICE_API_CAP_APP_GLOBAL_SETTING_READ = true →
  post (let* _ := dataservice_global_settings_set child key v in
        let! r := dataservice_global_settings_get child key size in ok r)
    (λ r _, match r with
            | Ok (Ok v', n) => v' = v ∧ n = sizeof v ∧ sizeof v ≤ size
            | Ok (Err s, n) =>
                (s = AGENTD_ERROR_DATASERVICE_WOULD_TRUNCATE ∧ n = sizeof v ∧ size < sizeof v) ∨ faulty
            | Err _ => faulty
            end) w.
Proof.
  intros Hst Hw Hr. post_step. eapply post_mono; [by apply global_settings_set_spec|].
  intros [[]|s] w1; [|done]. intros (V&HV&Hc&_). post_step.
  eapply post_mono; [by apply global_settings_get_spec|].
  intros [r n] w2 [_ [Heq|[Hf Hnok]]]; post_steps.
  - rewrite Hc, lookup_insert_eq in Heq. destruct (size <? sizeof v) eqn:E; simplify_eq.
    + left. apply Z.ltb_lt in E. by split_and!.
    + apply Z.ltb_ge in E. by split_and!.
  - simpl in Hnok. destruct r; [done|]. by right.
Qed.
End settings.
