(* ===== verification/DataserviceExamples.v ===== *)
(** * The data service's database on a concrete platform

    Evaluations of the model on [Sim], the witnesses of the theorems on the process
    queue, on making blocks and on queries, and the behaviours of the code that its
    documentation does not promise. *)

From S2P Require Import Prelude Inet StatusCodes Contexts Lmdb Txn Records Vccert Sim PqRep ProcessQueue ProcessQueueSpec BlockMake Ledger BlockMakeSpec History Queries QueriesSpec.

Definition ex_child : dataservice_child_context := ChildContext true (BITCAP_INIT_TRUE cap_words).
Definition ex_id (n : Z) : bytes := replicate 15 Byte.x00 ++ [byte_of_Z n].
Definition ex_cert : bytes := [Byte.x0a; Byte.x0b; Byte.x0c].

(** The databases after a run on the fault-free platform. *)
Definition ex_ops : list pq_op :=
  [ OpSubmit (ex_id 1) (ex_id 9) ex_cert; OpSubmit (ex_id 2) (ex_id 9) ex_cert;
    OpSubmit (ex_id 1) (ex_id 8) ex_cert; OpPromote (ex_id 2); OpDrop (ex_id 1);
    OpGet (ex_id 1); OpGetFirst ].

Example ex_run :
  (@run_ops _ sim_ok true ex_child ex_ops sim_empty).1
  = [ Ok None; Ok None; Err AGENTD_ERROR_DATASERVICE_MDB_PUT_FAILURE; Ok None; Ok None;
      Err AGENTD_ERROR_DATASERVICE_NOT_FOUND;
      Ok (Some (PqEntry (ex_id 2) (ex_id 9) DATASERVICE_TRANSACTION_NODE_STATE_ATTESTED ex_cert)) ].
Proof. by vm_compute. Qed.

(** ** Witnesses *)

Abbreviation sim_env := (@env_state sim_world sim_ok sim_ok_laws).

Lemma pq_rep_empty : pq_rep ∅ [].
Proof. by left. Qed.

Lemma submit_spec_witness :
  post (@dataservice_transaction_submit _ sim_ok true ex_child None (ex_id 1) (ex_id 9) ex_cert)
    (@outcome _ sim_ok sim_ok_laws _ None (λ _, ∅)
       (λ _ V, ex_id 1 ∉ pe_id <$> [] ∧
          pq_update (λ _, ∅) ([] ++ [new_entry true (ex_id 1) (ex_id 9) ex_cert]) V)
       (λ s, ex_id 1 ∈ pe_id <$> [] ∧ s = AGENTD_ERROR_DATASERVICE_MDB_PUT_FAILURE))
    sim_empty.
Proof.
  apply (@submit_spec sim_world sim_ok sim_ok_laws true None (λ _, ∅) []);
    [apply sim_empty_state|apply pq_rep_empty|by vm_compute..| | | | |];
    try (apply (bool_decide_unpack _); by vm_compute); by vm_compute.
Defined.

(** A database in which one transaction waits. *)
Definition ex_entry : pq_entry := new_entry true (ex_id 1) (ex_id 9) ex_cert.
Definition ex_dbs : dbs :=
  db_set pq_db
    (<[ff_uuid := enc_txn_node (end_node (ex_id 1))]>
       (<[zero_uuid := enc_txn_node (start_node (ex_id 1))]>
          (<[ex_id 1 := entry_value zero_uuid ff_uuid ex_entry]> ∅)))
    (λ _, ∅).
Definition ex_world : sim_world := {| sim_base := ex_dbs; sim_stack := [] |}.

Lemma ex_world_state : sim_env ex_world None ex_dbs.
Proof. by split_and!. Qed.

Lemma good_ex_1 : good_id (ex_id 1).
Proof. split_and!; [by vm_compute|apply (bool_decide_unpack _); by vm_compute..]. Qed.

Lemma ex_rep : pq_rep (ex_dbs pq_db) [ex_entry].
Proof.
  right. destruct good_ex_1 as (?&?&?). apply (pq_list_create ex_entry); [|done..].
  by constructor; vm_compute.
Qed.

Lemma ex_certs : Forall (λ e, pe_cert e ≠ []) [ex_entry].
Proof. by constructor. Qed.

Lemma drop_spec_witness :
  post (@dataservice_transaction_drop _ sim_ok ex_child None (ex_id 1))
    (@outcome _ sim_ok sim_ok_laws _ None ex_dbs
       (λ _ V, ex_id 1 ∈ pe_id <$> [ex_entry] ∧ pq_update ex_dbs (drop_entry (ex_id 1) [ex_entry]) V)
       (λ s, ex_id 1 ∉ pe_id <$> [ex_entry] ∧ s = AGENTD_ERROR_DATASERVICE_NOT_FOUND))
    ex_world.
Proof.
  apply (@drop_spec sim_world sim_ok sim_ok_laws);
    [apply ex_world_state|apply ex_rep|by vm_compute].
Defined.

Lemma promote_spec_witness :
  post (@dataservice_transaction_promote _ sim_ok ex_child None (ex_id 1))
    (@outcome _ sim_ok sim_ok_laws _ None ex_dbs
       (λ _ V, ex_id 1 ∈ pe_id <$> [ex_entry] ∧ pq_update ex_dbs (promote_entry (ex_id 1) [ex_entry]) V)
       (λ s, ex_id 1 ∉ pe_id <$> [ex_entry] ∧ s = AGENTD_ERROR_DATASERVICE_NOT_FOUND))
    ex_world.
Proof.
  apply (@promote_spec sim_world sim_ok sim_ok_laws);
    [apply ex_world_state|apply ex_rep|by vm_compute].
Defined.

Lemma get_spec_witness :
  post (@dataservice_transaction_get _ sim_ok ex_child None (ex_id 1))
    (@query_outcome _ sim_ok sim_ok_laws _ None ex_dbs (get_answer [ex_entry] (ex_id 1))) ex_world.
Proof.
  apply (@get_spec sim_world sim_ok sim_ok_laws);
    [apply ex_world_state|apply ex_rep|apply good_ex_1|apply good_ex_1|apply ex_certs|by vm_compute].
Defined.

Lemma get_first_spec_witness :
  post (@dataservice_transaction_get_first _ sim_ok ex_child None)
    (@query_outcome _ sim_ok sim_ok_laws _ None ex_dbs (get_first_answer [ex_entry])) ex_world.
Proof.
  apply (@get_first_spec sim_world sim_ok sim_ok_laws);
    [apply ex_world_state|apply ex_rep|apply ex_certs|by vm_compute].
Defined.

Lemma process_queue_refines_witness :
  post (@run_ops _ sim_ok true ex_child [OpDrop (ex_id 1); OpGetFirst])
    (λ rs w', rs = (aq_run true [ex_entry] [OpDrop (ex_id 1); OpGetFirst]).1 ∧
       @pq_state _ sim_ok sim_ok_laws ex_dbs w' (aq_run true [ex_entry] [OpDrop (ex_id 1); OpGetFirst]).2)
    ex_world.
Proof.
  apply (@process_queue_refines sim_world sim_ok sim_ok_laws sim_ok_reliable true ex_child).
  - repeat constructor.
  - split; [|apply ex_certs]. exists ex_dbs. split; [apply ex_world_state|]. split; [apply ex_rep|done].
  - repeat constructor; apply good_ex_1.
Defined.

(** ** What the code does beside its documentation *)

(** [dataservice_data_txn_begin] reports success when no transaction could be
    begun. *)
Example data_txn_begin_failure :
  ∃ t, (@dataservice_data_txn_begin _ (sim_lmdb (Build_sim_faults true false false false false false))
          None false sim_empty).1 = Ok (t, false).
Proof. by eexists. Qed.

(** [dataservice_transaction_submit] reports success when the commit failed and
    nothing is stored. *)
Example submit_commit_failure :
  let '(r, w) :=
    @dataservice_transaction_submit _ (sim_lmdb (Build_sim_faults false false false false true false))
      true ex_child None (ex_id 1) (ex_id 9) ex_cert sim_empty in
  r = Ok tt ∧ sim_base w pq_db = ∅.
Proof. by vm_compute. Qed.

(** A transaction whose identifier is the end sentinel is accepted by an empty
    queue, and makes every later submission unreachable from the front. *)
Example submit_end_sentinel :
  (@run_ops _ sim_ok true ex_child
     [OpSubmit ff_uuid (ex_id 9) ex_cert; OpSubmit (ex_id 1) (ex_id 9) ex_cert; OpGetFirst]
     sim_empty).1
  = [Ok None; Ok None; Err AGENTD_ERROR_DATASERVICE_NOT_FOUND].
Proof. by vm_compute. Qed.

(** The start sentinel is accepted likewise, and its certificate is lost. *)
Example submit_start_sentinel :
  (@run_ops _ sim_ok true ex_child
     [OpSubmit zero_uuid (ex_id 9) ex_cert; OpGetFirst; OpDrop zero_uuid]
     sim_empty).1
  = [Ok None; Err AGENTD_ERROR_DATASERVICE_INVALID_STORED_TRANSACTION_NODE;
     Err AGENTD_ERROR_DATASERVICE_NOT_FOUND].
Proof. by vm_compute. Qed.

(** ** Making blocks on a concrete platform

    Evaluations of [dataservice_block_make] and the witnesses of the theorems of
    [History] and [BlockMakeSpec]. *)

#[local] Existing Instance sim_ok.
#[local] Existing Instance sim_ok_laws.

(** A transaction on artifact 9, and a block that wraps it. *)
Definition ex_txn_cert (id prev : bytes) (state : Z) : bytes :=
  sim_field VCCERT_FIELD_TYPE_CERTIFICATE_ID id ++
  sim_field VCCERT_FIELD_TYPE_PREVIOUS_CERTIFICATE_ID prev ++
  sim_field VCCERT_FIELD_TYPE_ARTIFACT_ID (ex_id 9) ++
  sim_field VCCERT_FIELD_TYPE_NEW_ARTIFACT_STATE (be_enc 4 state).

Definition ex_block (height : Z) (prev id : bytes) (certs : list bytes) : bytes :=
  sim_field VCCERT_FIELD_TYPE_BLOCK_HEIGHT (be_enc 8 height) ++
  sim_field VCCERT_FIELD_TYPE_PREVIOUS_BLOCK_UUID prev ++
  sim_field VCCERT_FIELD_TYPE_BLOCK_UUID id ++
  concat (sim_field VCCERT_FIELD_TYPE_WRAPPED_TRANSACTION_TUPLE <$> certs).

Definition ex_txn_1 : bytes := ex_txn_cert (ex_id 1) zero_uuid 7.
Definition ex_txn_2 : bytes := ex_txn_cert (ex_id 2) (ex_id 1) 8.
Definition ex_block_1 : bytes :=
  ex_block 1 vccert_certificate_type_uuid_root_block (ex_id 51) [ex_txn_1; ex_txn_2].

(** Two transactions are submitted and canonized in one block. *)
Definition ex_scenario : Act sim_world (list Z) :=
  let! r1 := dataservice_transaction_submit true ex_child None (ex_id 1) (ex_id 9) ex_txn_1 in
  let! r2 := dataservice_transaction_submit true ex_child None (ex_id 2) (ex_id 9) ex_txn_2 in
  let! r3 := dataservice_block_make ex_child None (ex_id 51) ex_block_1 in
  let! r4 := dataservice_block_make ex_child None (ex_id 51) ex_block_1 in
  ret [status_of r1; status_of r2; status_of r3; status_of r4].

Example ex_scenario_run :
  let '(statuses, w) := ex_scenario sim_empty in
  statuses = [0; 0; 0; AGENTD_ERROR_DATASERVICE_INVALID_BLOCK_HEIGHT] ∧
  sim_base w height_db !! be_enc 8 1 = Some (ex_id 51) ∧
  sim_base w artifact_db !! ex_id 9
  = Some (enc_artifact (ArtifactRecord (ex_id 9) (ex_id 1) (ex_id 2) 1 1 8)) ∧
  txn_node_next <$> sim_base w txn_db !! ex_id 1 = Some (ex_id 2).
Proof. by vm_compute. Qed.

(** ** Witnesses *)

(** A ledger without blocks in which transaction 1 waits. *)
Definition ex_ledger : ledger :=
  Ledger [] ∅ ∅ [new_entry true (ex_id 1) (ex_id 9) ex_txn_1].

Definition ex_block_a : bytes :=
  ex_block 1 vccert_certificate_type_uuid_root_block (ex_id 51) [ex_txn_1].

Definition ex_ledger' : ledger :=
  Ledger [Blk (ex_id 51) (ex_id 1) ex_block_a]
    (<[ex_id 1 := (canonized_node (ChildFields (ex_id 1) zero_uuid (ex_id 9) 7) (ex_id 51) ex_txn_1, ex_txn_1)]> ∅)
    (<[ex_id 9 := ArtifactRecord (ex_id 9) (ex_id 1) (ex_id 1) 1 1 7]> ∅) [].

Lemma ex_append : ledger_append ex_ledger (ex_id 51) ex_block_a = Ok ex_ledger'.
Proof. by vm_compute. Qed.

(** The stored form of [ex_ledger]. *)
Definition ex_ledger_dbs : dbs :=
  db_set pq_db
    (<[ff_uuid := enc_txn_node (end_node (ex_id 1))]>
       (<[zero_uuid := enc_txn_node (start_node (ex_id 1))]>
          (<[ex_id 1 := entry_value zero_uuid ff_uuid (new_entry true (ex_id 1) (ex_id 9) ex_txn_1)]> ∅)))
    (λ _, ∅).
Definition ex_ledger_world : sim_world := {| sim_base := ex_ledger_dbs; sim_stack := [] |}.

Lemma ex_ledger_state : env_state ex_ledger_world None ex_ledger_dbs.
Proof. by split_and!. Qed.

Lemma chain_rep_empty : chain_rep ∅ ∅ [].
Proof.
  split_and!; [|intros k v; rewrite lookup_empty; split; [done|]; intros (i&b&Hi&_); by rewrite lookup_nil in Hi|by left].
  split_and!; [done| |done]. apply wf_queue_nil.
Qed.

Lemma ex_ledger_rep : ledger_rep ex_ledger_dbs ex_ledger.
Proof.
  split; simpl.
  - apply chain_rep_empty.
  - done.
  - apply map_Forall_empty.
  - done.
  - apply map_Forall_empty.
  - right. destruct good_ex_1 as (?&?&?).
    apply (pq_list_create (new_entry true (ex_id 1) (ex_id 9) ex_txn_1)); [|done..].
    by constructor; vm_compute.
Qed.

Lemma block_make_refines_witness :
  post (dataservice_block_make ex_child None (ex_id 51) ex_block_a)
    (outcome None ex_ledger_dbs
       (λ _, ledger_step (ledger_append ex_ledger (ex_id 51) ex_block_a) ex_ledger_dbs)
       (λ s, ledger_append ex_ledger (ex_id 51) ex_block_a = Err s ∨ vc_faulty)) ex_ledger_world.
Proof.
  apply block_make_refines; [apply ex_ledger_state|apply ex_ledger_rep|by vm_compute..].
Defined.

Lemma block_make_total_witness :
  post (dataservice_block_make ex_child None (ex_id 51) ex_block_a)
    (λ r w', match ledger_append ex_ledger (ex_id 51) ex_block_a with
             | Ok lg' => r = Ok tt ∧ ∃ V, env_state w' None V ∧ ledger_rep V lg'
             | Err s => r = Err s ∧ env_state w' None ex_ledger_dbs
             end) ex_ledger_world.
Proof.
  apply block_make_total; [apply sim_ok_reliable|apply sim_vccert_reliable|
    apply ex_ledger_state|apply ex_ledger_rep|by vm_compute..].
Defined.

Lemma ex_ledger_caps : ledger_caps ex_child.
Proof. split; [|by vm_compute]. unfold pq_caps. by repeat constructor. Qed.





Lemma block_make_moves_witness :
  post (dataservice_block_make ex_child None (ex_id 51) ex_block_a)
    (λ r w',
      env_state w' None ex_ledger_dbs ∧
        (faulty (W := sim_world) ∨ vc_faulty (W := sim_world) ∨
         ∃ s, r = Err s ∧ ledger_append ex_ledger (ex_id 51) ex_block_a = Err s) ∨
      is_ok r = true ∧ ∃ V lg' first ids,
        env_state w' None V ∧ ledger_rep V lg' ∧
        lg_blocks lg' = lg_blocks ex_ledger ++ [Blk (ex_id 51) first ex_block_a] ∧
        Forall2 (recorded (lg_txns lg')) (block_children ex_block_a) ids ∧ ids ≠ [] ∧
        moved (ex_id 51)
          (Ledger (lg_blocks lg') (lg_txns ex_ledger) (lg_artifacts ex_ledger) (lg_queue ex_ledger))
          lg' ids) ex_ledger_world.
Proof.
  apply (block_make_moves ex_child ex_ledger_caps ex_ledger_dbs ex_ledger);
    [apply ex_ledger_state|apply ex_ledger_rep|by vm_compute..].
Defined.

Lemma block_make_terminates_witness :
  ∃ raw parser,
    block_make_children 1000 1%nat 1 (ex_id 51) parser raw
    = block_make_children (length ex_block_a) 1%nat 1 (ex_id 51) parser raw ∧
    wrapped_list 1000 parser raw = block_children ex_block_a.
Proof.
  eexists _, _. apply block_make_terminates; [vm_compute; reflexivity|].
  apply (Nat.leb_le (length ex_block_a) 1000). by vm_compute.
Defined.

(** ** The queries on a concrete platform

    Witnesses of the theorems of [QueriesSpec], on the databases of a ledger
    with one block. *)

#[local] Existing Instance sim_ok.
#[local] Existing Instance sim_ok_laws.

Definition ex_blk : blk := Blk (ex_id 51) (ex_id 1) ex_block_a.

Definition ex_full_dbs : dbs := λ d,
  match d with
  | block_db =>
      <[ff_uuid := enc_block_node (block_end (bk_id ex_blk) 1)]>
        (<[zero_uuid := enc_block_node (block_start (bk_id ex_blk))]>
           (<[bk_id ex_blk := block_value [] ex_blk []]> ∅))
  | height_db => <[be_enc 8 1 := bk_id ex_blk]> ∅
  | txn_db => enc_txns (lg_txns ex_ledger')
  | artifact_db => enc_artifacts (lg_artifacts ex_ledger')
  | _ => ∅
  end.
Definition ex_full_world : sim_world := {| sim_base := ex_full_dbs; sim_stack := [] |}.

Lemma ex_full_state : env_state ex_full_world None ex_full_dbs.
Proof. by split_and!. Qed.

Lemma ex_full_rep : ledger_rep ex_full_dbs ex_ledger'.
Proof.
  assert (wf_chain [ex_blk]) as Hwf.
  { apply (wf_chain_snoc []).
    - apply chain_rep_empty.
    - split; [by vm_compute..|done].
    - apply (bool_decide_unpack _). by vm_compute.
    - done. }
  split; simpl.
  - split; [exact Hwf|split].
    2: { right; split; [discriminate|]. exact (block_list_create ex_blk Hwf). }
    exact (proj2 (height_index_snoc ∅ [] ex_blk (proj1 (proj2 chain_rep_empty)) eq_refl)).
  - done.
  - apply map_Forall_insert_2; [|apply map_Forall_empty].
    split_and!; [by constructor; vm_compute|by vm_compute|done].
  - done.
  - apply map_Forall_insert_2; [|apply map_Forall_empty]. split; [by constructor; vm_compute|done].
  - by left.
Qed.

Lemma block_get_spec_witness :
  post (dataservice_block_get ex_child None (ex_id 51))
    (query_outcome None ex_full_dbs (block_answer ex_ledger' (ex_id 51))) ex_full_world.
Proof.
  apply (block_get_spec _ _ ex_full_rep); [apply ex_full_state|..|by vm_compute];
    apply (bool_decide_unpack _); by vm_compute.
Defined.

Lemma block_id_by_height_spec_witness :
  post (dataservice_block_id_by_height_get ex_child None 1)
    (query_outcome None ex_full_dbs
       (λ r, r = lookup_answer
          (if 1 =? 0 then None else bk_id <$> lg_blocks ex_ledger' !! Z.to_nat (1 - 1)))) ex_full_world.
Proof.
  apply (block_id_by_height_spec _ _ ex_full_rep); [apply ex_full_state|lia|by vm_compute].
Defined.

Lemma latest_block_id_spec_witness :
  post (dataservice_latest_block_id_get ex_child None)
    (query_outcome None ex_full_dbs (λ r, r = Ok (last_block_id (lg_blocks ex_ledger')))) ex_full_world.
Proof. apply (latest_block_id_spec _ _ ex_full_rep); [apply ex_full_state|by vm_compute]. Defined.

Lemma artifact_get_spec_witness :
  post (dataservice_artifact_get ex_child None (ex_id 9))
    (query_outcome None ex_full_dbs
       (λ r, r = lookup_answer (enc_artifact <$> lg_artifacts ex_ledger' !! ex_id 9))) ex_full_world.
Proof. apply (artifact_get_spec _ _ ex_full_rep); [apply ex_full_state|by vm_compute]. Defined.

Lemma canonized_transaction_get_spec_witness :
  post (dataservice_canonized_transaction_get ex_child None (ex_id 1))
    (query_outcome None ex_full_dbs
       (λ r, r = lookup_answer ((λ x, (enc_txn_node x.1, x.2)) <$> lg_txns ex_ledger' !! ex_id 1)))
    ex_full_world.
Proof.
  apply (canonized_transaction_get_spec _ _ ex_full_rep ex_child (ex_id 1)); [apply ex_full_state|by vm_compute].
Defined.

Lemma global_settings_roundtrip_witness :
  post (let* _ := dataservice_global_settings_set ex_child 0 ex_cert in
        let! r := dataservice_global_settings_get ex_child 0 16 in ok r)
    (λ r _, match r with
            | Ok (Ok v', n) => v' = ex_cert ∧ n = sizeof ex_cert ∧ sizeof ex_cert ≤ 16
            | Ok (Err s, n) =>
                (s = AGENTD_ERROR_DATASERVICE_WOULD_TRUNCATE ∧ n = sizeof ex_cert ∧ 16 < sizeof ex_cert)
                ∨ faulty
            | Err _ => faulty
            end) sim_empty.
Proof.
  apply (global_settings_roundtrip (λ _, ∅)); [apply sim_empty_state|by vm_compute..].
Defined.
