(* ===== verification/RequestCodec.v ===== *)
(** * Request packets

    The client side of the data service protocol builds a request with
    [dataservice_encode_request_*.c]; the service takes it apart with
    [dataservice_request_init*.c] and [dataservice_decode_request_*.c].  A packet
    is the method code, for most methods the index of the child context, and the
    fields of the request, in network byte order. *)

From S2P Require Import Prelude Inet StatusCodes Contexts Lmdb Records.

(** ** Sequential writes

    The encoders compute the size of the packet, allocate it and write the
    fields one after the other, moving a pointer forward. *)
Fixpoint write_seq (off : nat) (fields : list bytes) (b : bytes) : bytes :=
  match fields with
  | [] => b
  | f :: fields => write_seq (off + length f) fields (splice off f b)
  end.

Lemma write_seq_spec fields pre b :
  length b = length (concat fields) →
  write_seq (length pre) fields (pre ++ b) = pre ++ concat fields.
Proof.
  revert pre b. induction fields as [|f fields IH]; intros pre b Hb; simpl.
  - simpl in Hb. by rewrite (nil_length_inv b).
  - simpl in Hb. rewrite length_app in Hb.
    replace (splice (length pre) f (pre ++ b)) with ((pre ++ f) ++ drop (length f) b).
    + replace (length pre + length f)%nat with (length (pre ++ f)) by (rewrite length_app; lia).
      rewrite IH by (rewrite length_drop; lia). by rewrite <- (assoc_L (++)).
    + rewrite <- (take_drop (length f) b) at 2.
      rewrite (assoc_L (++)), splice_app_l by (rewrite length_app, length_take; lia).
      rewrite splice_tail by (done || rewrite length_take; lia).
      done.
Qed.

(** Fields that fill the buffer leave nothing of what was there before. *)
Lemma write_seq_full fields b :
  length b = length (concat fields) → write_seq 0 fields b = concat fields.
Proof. apply (write_seq_spec fields []). Qed.

(** ** Allocation

    [vccrypt_buffer_init] of the vccrypt library: a status and, on success, a
    buffer of the size asked for, whose contents are not specified; and
    [allocate] of the vpr library. *)
Class VCCRYPT_BUFFER (W : Type) := {
  vccrypt_buffer_init : nat → Act W (Z * bytes);
  allocate : nat → Act W bool;
}.

Class VCCRYPT_BUFFER_laws (W : Type) `{VB : VCCRYPT_BUFFER W} := {
  law_buffer_init : ∀ n w b w', vccrypt_buffer_init n w = ((0, b), w') → length b = n;
}.

(** ** Encoding *)

Section encode.
Context {W : Type} {VB : VCCRYPT_BUFFER W}.

(** Allocate a buffer of the computed size and write the fields. *)
Definition encode_fields (reqbuflen : nat) (fields : list bytes) : Eff W bytes :=
  let! '(retval, tmp) := vccrypt_buffer_init reqbuflen in
  if negb (retval =? 0) then throw retval else
  ok (write_seq 0 fields tmp).

(** [(uint8_t)read_cert]. *)
Definition byte_of_bool (b : bool) : bytes := [if b then Byte.x01 else Byte.x00].

(** The capabilities as they lie in memory. *)
Definition caps_bytes (caps : bitcap) : bytes := concat (le_enc 4 <$> caps).

Definition dataservice_encode_request_artifact_get (child : Z) (artifact_id : bytes) : Eff W bytes :=
  encode_fields (4 + 4 + 16)
    [net32 DATASERVICE_API_METHOD_APP_ARTIFACT_READ; net32 child; artifact_id].

Definition dataservice_encode_request_block_get (child : Z) (block_id : bytes) (read_cert : bool)
  : Eff W bytes :=
  encode_fields (4 + 4 + 16 + 1)
    [net32 DATASERVICE_API_METHOD_APP_BLOCK_READ; net32 child; block_id; byte_of_bool read_cert].

Definition dataservice_encode_request_block_id_by_height_get (child height : Z) : Eff W bytes :=
  encode_fields (4 + 4 + 8)
    [net32 DATASERVICE_API_METHOD_APP_BLOCK_ID_BY_HEIGHT_READ; net32 child; net64 height].

Definition dataservice_encode_request_block_make (child : Z) (block_id block_cert : bytes)
  : Eff W bytes :=
  encode_fields (4 + 4 + 16 + length block_cert)
    [net32 DATASERVICE_API_METHOD_APP_BLOCK_WRITE; net32 child; block_id; block_cert].

Definition dataservice_encode_request_canonized_transaction_get (child : Z) (txn_id : bytes)
    (read_cert : bool) : Eff W bytes :=
  encode_fields (4 + 4 + 16 + 1)
    [net32 DATASERVICE_API_METHOD_APP_TRANSACTION_READ; net32 child; txn_id; byte_of_bool read_cert].

Definition dataservice_encode_request_child_context_close (child : Z) : Eff W bytes :=
  encode_fields (4 + 4) [net32 DATASERVICE_API_METHOD_LL_CHILD_CONTEXT_CLOSE; net32 child].

Definition dataservice_encode_request_child_context_create (caps : bytes) : Eff W bytes :=
  encode_fields (4 + length caps) [net32 DATASERVICE_API_METHOD_LL_CHILD_CONTEXT_CREATE; caps].

Definition dataservice_encode_request_global_settings_get (child key : Z) : Eff W bytes :=
  encode_fields (4 + 4 + 8)
    [net32 DATASERVICE_API_METHOD_APP_GLOBAL_SETTING_READ; net32 child; net64 key].

Definition dataservice_encode_request_global_settings_set (child key : Z) (val : bytes)
  : Eff W bytes :=
  encode_fields (4 + 4 + 8 + length val)
    [net32 DATASERVICE_API_METHOD_APP_GLOBAL_SETTING_WRITE; net32 child; net64 key; val].

Definition dataservice_encode_request_latest_block_id_get (child : Z) : Eff W bytes :=
  encode_fields (4 + 4) [net32 DATASERVICE_API_METHOD_APP_BLOCK_ID_LATEST_READ; net32 child].

(** [datadir] is the string without its terminating zero. *)
Definition dataservice_encode_request_root_context_init (max_database_size : Z) (datadir : bytes)
  : Eff W bytes :=
  encode_fields (4 + 8 + length datadir)
    [net32 DATASERVICE_API_METHOD_LL_ROOT_CONTEXT_CREATE; net64 max_database_size; datadir].

Definition dataservice_encode_request_root_context_reduce_caps (caps : bytes) : Eff W bytes :=
  encode_fields (4 + length caps) [net32 DATASERVICE_API_METHOD_LL_ROOT_CONTEXT_REDUCE_CAPS; caps].

Definition dataservice_encode_request_transaction_drop (child : Z) (txn_id : bytes) : Eff W bytes :=
  encode_fields (4 + 4 + 16)
    [net32 DATASERVICE_API_METHOD_APP_PQ_TRANSACTION_DROP; net32 child; txn_id].

Definition dataservice_encode_request_transaction_get (child : Z) (txn_id : bytes) : Eff W bytes :=
  encode_fields (4 + 4 + 16)
    [net32 DATASERVICE_API_METHOD_APP_PQ_TRANSACTION_READ; net32 child; txn_id].

Definition dataservice_encode_request_transaction_get_first (child : Z) : Eff W bytes :=
  encode_fields (4 + 4) [net32 DATASERVICE_API_METHOD_APP_PQ_TRANSACTION_FIRST_READ; net32 child].

Definition dataservice_encode_request_transaction_promote (child : Z) (txn_id : bytes) : Eff W bytes :=
  encode_fields (4 + 4 + 16)
    [net32 DATASERVICE_API_METHOD_APP_PQ_TRANSACTION_PROMOTE; net32 child; txn_id].

Definition dataservice_encode_request_transaction_submit (child : Z) (txn_id artifact_id val : bytes)
  : Eff W bytes :=
  encode_fields (4 + 4 + 16 + 16 + length val)
    [net32 DATASERVICE_API_METHOD_APP_PQ_TRANSACTION_SUBMIT; net32 child; txn_id; artifact_id; val].
End encode.

(** ** Decoding

    A decoder works on the packet after the method code.  It clears the request
    structure before it reads anything, and clears it again when it fails, so a
    caller finds the child index 0 there after a failure ([request_child]). *)

(** [dataservice_request_init]: the child index and the rest of the packet. *)
Definition dataservice_request_init (breq : bytes) : result (Z * bytes) :=
  if (length breq <? 4)%nat then Err AGENTD_ERROR_DATASERVICE_REQUEST_PACKET_INVALID_SIZE
  else Ok (ntohl (le_dec (sub 0 4 breq)), drop 4 breq).

(** [dataservice_request_init_empty]: no child index in the packet. *)
Definition dataservice_request_init_empty (breq : bytes) : result (Z * bytes) := Ok (0, breq).

Record dataservice_request_payload_artifact_read := ReqArtifactRead {
  ar_child_index : Z; ar_artifact_id : bytes }.
Record dataservice_request_block_id_by_height_read := ReqBlockIdByHeight {
  bh_child_index : Z; bh_block_height : Z }.
Record dataservice_request_block_id_latest_read := ReqBlockIdLatest { bl_child_index : Z }.
Record dataservice_request_block_make := ReqBlockMake {
  bm_child_index : Z; bm_block_id : bytes; bm_cert : bytes }.
Record dataservice_request_block_read := ReqBlockRead {
  br_child_index : Z; br_block_id : bytes; br_read_cert : bool }.
Record dataservice_request_canonized_transaction_get := ReqCanonizedGet {
  cg_child_index : Z; cg_txn_id : bytes; cg_read_cert : bool }.
Record dataservice_request_child_context_close := ReqChildClose { cc_child_index : Z }.
Record dataservice_request_child_context_create := ReqChildCreate { cr_caps : bitcap }.
Record dataservice_request_global_setting_get := ReqGlobalGet {
  gg_child_index : Z; gg_key : Z }.
Record dataservice_request_global_setting_set := ReqGlobalSet {
  gs_child_index : Z; gs_key : Z; gs_val : bytes }.
Record dataservice_request_payload_root_context_init := ReqRootInit {
  ri_max_database_size : Z; ri_datadir : bytes }.
Record dataservice_request_payload_root_context_reduce_caps := ReqReduceCaps { rc_caps : bitcap }.
Record dataservice_request_transaction_drop := ReqTxnDrop { td_child_index : Z; td_txn_id : bytes }.
Record dataservice_request_transaction_get := ReqTxnGet { tg_child_index : Z; tg_txn_id : bytes }.
Record dataservice_request_transaction_get_first := ReqTxnGetFirst { tf_child_index : Z }.
Record dataservice_request_transaction_promote := ReqTxnPromote {
  tp_child_index : Z; tp_txn_id : bytes }.
Record dataservice_request_transaction_submit := ReqTxnSubmit {
  ts_child_index : Z; ts_txn_id : bytes; ts_artifact_id : bytes; ts_cert : bytes }.

Definition dataservice_decode_request_block_id_by_height_read (req : bytes)
  : result dataservice_request_block_id_by_height_read :=
  let? '(child, breq) := dataservice_request_init req in
  let? _ := check (length breq =? 8)%nat AGENTD_ERROR_DATASERVICE_REQUEST_PACKET_INVALID_SIZE in
  Ok (ReqBlockIdByHeight child (ntohll (le_dec (sub 0 8 breq)))).

Definition dataservice_decode_request_block_id_latest_read (req : bytes)
  : result dataservice_request_block_id_latest_read :=
  let? '(child, _) := dataservice_request_init req in Ok (ReqBlockIdLatest child).

Definition dataservice_decode_request_block_make (req : bytes)
  : result dataservice_request_block_make :=
  let? '(child, breq) := dataservice_request_init req in
  let? _ := check (16 <=? length breq)%nat AGENTD_ERROR_DATASERVICE_REQUEST_PACKET_INVALID_SIZE in
  Ok (ReqBlockMake child (sub 0 16 breq) (drop 16 breq)).

(** The flag byte at [breq[16]]. *)
Definition flag_byte (breq : bytes) : bool := negb (le_dec (sub 16 1 breq) =? 0).

Definition dataservice_decode_request_block_read (req : bytes)
  : result dataservice_request_block_read :=
  let? '(child, breq) := dataservice_request_init req in
  let? _ := check (length breq =? 16 + 1)%nat AGENTD_ERROR_DATASERVICE_REQUEST_PACKET_INVALID_SIZE in
  Ok (ReqBlockRead child (sub 0 16 breq) (flag_byte breq)).

Definition dataservice_decode_request_canonized_transaction_get (req : bytes)
  : result dataservice_request_canonized_transaction_get :=
  let? '(child, breq) := dataservice_request_init req in
  let? _ := check (length breq =? 16 + 1)%nat AGENTD_ERROR_DATASERVICE_REQUEST_PACKET_INVALID_SIZE in
  Ok (ReqCanonizedGet child (sub 0 16 breq) (flag_byte breq)).

Definition dataservice_decode_request_child_context_close (req : bytes)
  : result dataservice_request_child_context_close :=
  let? '(child, _) := dataservice_request_init req in Ok (ReqChildClose child).

(** [memcpy] of a packet into an array of [n] words. *)
Fixpoint caps_of_bytes (n : nat) (b : bytes) : bitcap :=
  match n with
  | O => []
  | S n => le_dec (sub 0 4 b) :: caps_of_bytes n (drop 4 b)
  end.

Definition dataservice_decode_request_child_context_create (req : bytes)
  : result dataservice_request_child_context_create :=
  let? '(_, breq) := dataservice_request_init_empty req in
  let? _ := check (length breq =? 4 * cap_words)%nat
              AGENTD_ERROR_DATASERVICE_REQUEST_PACKET_INVALID_SIZE in
  Ok (ReqChildCreate (caps_of_bytes cap_words breq)).

Definition dataservice_decode_request_global_setting_get (req : bytes)
  : result dataservice_request_global_setting_get :=
  let? '(child, breq) := dataservice_request_init req in
  let? _ := check (length breq =? 8)%nat AGENTD_ERROR_DATASERVICE_REQUEST_PACKET_INVALID_SIZE in
  Ok (ReqGlobalGet child (ntohll (le_dec (sub 0 8 breq)))).

Definition dataservice_decode_request_global_setting_set (req : bytes)
  : result dataservice_request_global_setting_set :=
  let? '(child, breq) := dataservice_request_init req in
  let? _ := check (negb (length breq <=? 8)%nat)
              AGENTD_ERROR_DATASERVICE_REQUEST_PACKET_INVALID_SIZE in
  Ok (ReqGlobalSet child (ntohll (le_dec (sub 0 8 breq))) (drop 8 breq)).

Definition dataservice_decode_request_payload_artifact_read (req : bytes)
  : result dataservice_request_payload_artifact_read :=
  let? '(child, breq) := dataservice_request_init req in
  let? _ := check (length breq =? 16)%nat AGENTD_ERROR_DATASERVICE_REQUEST_PACKET_INVALID_SIZE in
  Ok (ReqArtifactRead child (sub 0 16 breq)).

Definition dataservice_decode_request_root_context_init {W : Type} `{VB : VCCRYPT_BUFFER W}
    (req : bytes) : Eff W dataservice_request_payload_root_context_init :=
  if (length req <=? 8)%nat then throw AGENTD_ERROR_DATASERVICE_REQUEST_PACKET_INVALID_SIZE else
  let max_database_size := ntohll (le_dec (sub 0 8 req)) in
  let breq := drop 8 req in
  let! mem := allocate (length breq + 1) in
  if negb mem then throw AGENTD_ERROR_GENERAL_OUT_OF_MEMORY else
  ok (ReqRootInit max_database_size breq).

Definition dataservice_decode_request_root_context_reduce_caps (req : bytes)
  : result dataservice_request_payload_root_context_reduce_caps :=
  let? '(_, breq) := dataservice_request_init_empty req in
  let? _ := check (length breq =? 4 * cap_words)%nat
              AGENTD_ERROR_DATASERVICE_REQUEST_PACKET_INVALID_SIZE in
  Ok (ReqReduceCaps (caps_of_bytes cap_words breq)).

Definition dataservice_decode_request_transaction_drop (req : bytes)
  : result dataservice_request_transaction_drop :=
  let? '(child, breq) := dataservice_request_init req in
  let? _ := check (length breq =? 16)%nat AGENTD_ERROR_DATASERVICE_REQUEST_PACKET_INVALID_SIZE in
  Ok (ReqTxnDrop child (sub 0 16 breq)).

Definition dataservice_decode_request_transaction_get (req : bytes)
  : result dataservice_request_transaction_get :=
  let? '(child, breq) := dataservice_request_init req in
  let? _ := check (length breq =? 16)%nat AGENTD_ERROR_DATASERVICE_REQUEST_PACKET_INVALID_SIZE in
  Ok (ReqTxnGet child (sub 0 16 breq)).

Definition dataservice_decode_request_transaction_get_first (req : bytes)
  : result dataservice_request_transaction_get_first :=
  let? '(child, _) := dataservice_request_init req in Ok (ReqTxnGetFirst child).

Definition dataservice_decode_request_transaction_promote (req : bytes)
  : result dataservice_request_transaction_promote :=
  let? '(child, breq) := dataservice_request_init req in
  let? _ := check (length breq =? 16)%nat AGENTD_ERROR_DATASERVICE_REQUEST_PACKET_INVALID_SIZE in
  Ok (ReqTxnPromote child (sub 0 16 breq)).

Definition dataservice_decode_request_transaction_submit (req : bytes)
  : result dataservice_request_transaction_submit :=
  let? '(child, breq) := dataservice_request_init req in
  let? _ := check (negb (length breq <=? 16 + 16)%nat)
              AGENTD_ERROR_DATASERVICE_REQUEST_PACKET_INVALID_SIZE in
  Ok (ReqTxnSubmit child (sub 0 16 breq) (sub 0 16 (drop 16 breq)) (drop 16 (drop 16 breq))).

(** The start of [dataservice_decode_and_dispatch]: the method code and the
    payload. *)
Definition dispatch_header (req : bytes) : result (Z * bytes) :=
  if (length req <? 4)%nat then Err AGENTD_ERROR_DATASERVICE_REQUEST_PACKET_INVALID_SIZE
  else Ok (ntohl (le_dec (sub 0 4 req)), drop 4 req).

(** The child index a handler finds in its request structure. *)
Definition request_child {A} (child_index : A → Z) (r : result A) : Z :=
  match r with Ok d => child_index d | Err _ => 0 end.
