(* ===== verification/RequestSpec.v ===== *)
(** * Round trips of the request packets

    The requests of the protocol as one type, the client's encoder and the
    service's decoder for it, and the theorems that the two agree. *)

From S2P Require Import Prelude Inet StatusCodes Contexts Lmdb Records RequestCodec.

(** ** The requests *)

Inductive api_request : Type :=
  | root_context_create (d : dataservice_request_payload_root_context_init)
  | root_context_reduce_caps (d : dataservice_request_payload_root_context_reduce_caps)
  | child_context_create (d : dataservice_request_child_context_create)
  | child_context_close (d : dataservice_request_child_context_close)
  | global_setting_get (d : dataservice_request_global_setting_get)
  | global_setting_set (d : dataservice_request_global_setting_set)
  | transaction_submit (d : dataservice_request_transaction_submit)
  | transaction_get_first (d : dataservice_request_transaction_get_first)
  | transaction_get (d : dataservice_request_transaction_get)
  | transaction_drop (d : dataservice_request_transaction_drop)
  | transaction_promote (d : dataservice_request_transaction_promote)
  | artifact_read (d : dataservice_request_payload_artifact_read)
  | block_make (d : dataservice_request_block_make)
  | block_read (d : dataservice_request_block_read)
  | block_id_by_height_read (d : dataservice_request_block_id_by_height_read)
  | block_id_latest_read (d : dataservice_request_block_id_latest_read)
  | canonized_transaction_get (d : dataservice_request_canonized_transaction_get).

(** The values the C types of the fields can hold. *)
Definition wf_caps (caps : bitcap) : Prop := length caps = cap_words ∧ Forall u32 caps.

Definition wf_request (r : api_request) : Prop :=
  match r with
  | root_context_create d => u64 (ri_max_database_size d) ∧ ri_datadir d ≠ []
  | root_context_reduce_caps d => wf_caps (rc_caps d)
  | child_context_create d => wf_caps (cr_caps d)
  | child_context_close d => u32 (cc_child_index d)
  | global_setting_get d => u32 (gg_child_index d) ∧ u64 (gg_key d)
  | global_setting_set d => u32 (gs_child_index d) ∧ u64 (gs_key d) ∧ gs_val d ≠ []
  | transaction_submit d =>
      u32 (ts_child_index d) ∧ is_uuid (ts_txn_id d) ∧ is_uuid (ts_artifact_id d) ∧ ts_cert d ≠ []
  | transaction_get_first d => u32 (tf_child_index d)
  | transaction_get d => u32 (tg_child_index d) ∧ is_uuid (tg_txn_id d)
  | transaction_drop d => u32 (td_child_index d) ∧ is_uuid (td_txn_id d)
  | transaction_promote d => u32 (tp_child_index d) ∧ is_uuid (tp_txn_id d)
  | artifact_read d => u32 (ar_child_index d) ∧ is_uuid (ar_artifact_id d)
  | block_make d => u32 (bm_child_index d) ∧ is_uuid (bm_block_id d)
  | block_read d => u32 (br_child_index d) ∧ is_uuid (br_block_id d)
  | block_id_by_height_read d => u32 (bh_child_index d) ∧ u64 (bh_block_height d)
  | block_id_latest_read d => u32 (bl_child_index d)
  | canonized_transaction_get d => u32 (cg_child_index d) ∧ is_uuid (cg_txn_id d)
  end.

Section spec.
Context {W : Type} {VB : VCCRYPT_BUFFER W}.

(** The encoder the client calls for each request. *)
Definition encode_request (r : api_request) : Eff W bytes :=
  match r with
  | root_context_create d =>
      dataservice_encode_request_root_context_init (ri_max_database_size d) (ri_datadir d)
  | root_context_reduce_caps d =>
      dataservice_encode_request_root_context_reduce_caps (caps_bytes (rc_caps d))
  | child_context_create d =>
      dataservice_encode_request_child_context_create (caps_bytes (cr_caps d))
  | child_context_close d => dataservice_encode_request_child_context_close (cc_child_index d)
  | global_setting_get d =>
      dataservice_encode_request_global_settings_get (gg_child_index d) (gg_key d)
  | global_setting_set d =>
      dataservice_encode_request_global_settings_set (gs_child_index d) (gs_key d) (gs_val d)
  | transaction_submit d =>
      dataservice_encode_request_transaction_submit
        (ts_child_index d) (ts_txn_id d) (ts_artifact_id d) (ts_cert d)
  | transaction_get_first d => dataservice_encode_request_transaction_get_first (tf_child_index d)
  | transaction_get d => dataservice_encode_request_transaction_get (tg_child_index d) (tg_txn_id d)
  | transaction_drop d =>
      dataservice_encode_request_transaction_drop (td_child_index d) (td_txn_id d)
  | transaction_promote d =>
      dataservice_encode_request_transaction_promote (tp_child_index d) (tp_txn_id d)
  | artifact_read d =>
      dataservice_encode_request_artifact_get (ar_child_index d) (ar_artifact_id d)
  | block_make d =>
      dataservice_encode_request_block_make (bm_child_index d) (bm_block_id d) (bm_cert d)
  | block_read d =>
      dataservice_encode_request_block_get (br_child_index d) (br_block_id d) (br_read_cert d)
  | block_id_by_height_read d =>
      dataservice_encode_request_block_id_by_height_get (bh_child_index d) (bh_block_height d)
  | block_id_latest_read d => dataservice_encode_request_latest_block_id_get (bl_child_index d)
  | canonized_transaction_get d =>
      dataservice_encode_request_canonized_transaction_get
        (cg_child_index d) (cg_txn_id d) (cg_read_cert d)
  end.

Definition result_map {A B} (f : A → B) (r : result A) : result B := let? a := r in Ok (f a).

(** The decoder the service selects by the method code, as the [switch] of
    [dataservice_decode_and_dispatch] does. *)
Definition decode_request (method : Z) (req : bytes) : Eff W api_request :=
  if method =? DATASERVICE_API_METHOD_LL_ROOT_CONTEXT_CREATE then
    let* d := dataservice_decode_request_root_context_init req in ok (root_context_create d)
  else ret (
  if method =? DATASERVICE_API_METHOD_LL_ROOT_CONTEXT_REDUCE_CAPS then
    result_map root_context_reduce_caps (dataservice_decode_request_root_context_reduce_caps req)
  else if method =? DATASERVICE_API_METHOD_LL_CHILD_CONTEXT_CREATE then
    result_map child_context_create (dataservice_decode_request_child_context_create req)
  else if method =? DATASERVICE_API_METHOD_LL_CHILD_CONTEXT_CLOSE then
    result_map child_context_close (dataservice_decode_request_child_context_close req)
  else if method =? DATASERVICE_API_METHOD_APP_GLOBAL_SETTING_READ then
    result_map global_setting_get (dataservice_decode_request_global_setting_get req)
  else if method =? DATASERVICE_API_METHOD_APP_GLOBAL_SETTING_WRITE then
    result_map global_setting_set (dataservice_decode_request_global_setting_set req)
  else if method =? DATASERVICE_API_METHOD_APP_PQ_TRANSACTION_SUBMIT then
    result_map transaction_submit (dataservice_decode_request_transaction_submit req)
  else if method =? DATASERVICE_API_METHOD_APP_PQ_TRANSACTION_FIRST_READ then
    result_map transaction_get_first (dataservice_decode_request_transaction_get_first req)
  else if method =? DATASERVICE_API_METHOD_APP_PQ_TRANSACTION_READ then
    result_map transaction_get (dataservice_decode_request_transaction_get req)
  else if method =? DATASERVICE_API_METHOD_APP_PQ_TRANSACTION_DROP then
    result_map transaction_drop (dataservice_decode_request_transaction_drop req)
  else if method =? DATASERVICE_API_METHOD_APP_PQ_TRANSACTION_PROMOTE then
    result_map transaction_promote (dataservice_decode_request_transaction_promote req)
  else if method =? DATASERVICE_API_METHOD_APP_ARTIFACT_READ then
    result_map artifact_read (dataservice_decode_request_payload_artifact_read req)
  else if method =? DATASERVICE_API_METHOD_APP_BLOCK_WRITE then
    result_map block_make (dataservice_decode_request_block_make req)
  else if method =? DATASERVICE_API_METHOD_APP_BLOCK_READ then
    result_map block_read (dataservice_decode_request_block_read req)
  else if method =? DATASERVICE_API_METHOD_APP_BLOCK_ID_BY_HEIGHT_READ then
    result_map block_id_by_height_read (dataservice_decode_request_block_id_by_height_read req)
  else if method =? DATASERVICE_API_METHOD_APP_BLOCK_ID_LATEST_READ then
    result_map block_id_latest_read (dataservice_decode_request_block_id_latest_read req)
  else if method =? DATASERVICE_API_METHOD_APP_TRANSACTION_READ then
    result_map canonized_transaction_get (dataservice_decode_request_canonized_transaction_get req)
  else Err AGENTD_ERROR_DATASERVICE_REQUEST_PACKET_BAD).
End spec.

(** The method code of a request, and the bytes that follow it in its packet. *)
Definition request_method (r : api_request) : Z :=
  match r with
  | root_context_create _ => DATASERVICE_API_METHOD_LL_ROOT_CONTEXT_CREATE
  | root_context_reduce_caps _ => DATASERVICE_API_METHOD_LL_ROOT_CONTEXT_REDUCE_CAPS
  | child_context_create _ => DATASERVICE_API_METHOD_LL_CHILD_CONTEXT_CREATE
  | child_context_close _ => DATASERVICE_API_METHOD_LL_CHILD_CONTEXT_CLOSE
  | global_setting_get _ => DATASERVICE_API_METHOD_APP_GLOBAL_SETTING_READ
  | global_setting_set _ => DATASERVICE_API_METHOD_APP_GLOBAL_SETTING_WRITE
  | transaction_submit _ => DATASERVICE_API_METHOD_APP_PQ_TRANSACTION_SUBMIT
  | transaction_get_first _ => DATASERVICE_API_METHOD_APP_PQ_TRANSACTION_FIRST_READ
  | transaction_get _ => DATASERVICE_API_METHOD_APP_PQ_TRANSACTION_READ
  | transaction_drop _ => DATASERVICE_API_METHOD_APP_PQ_TRANSACTION_DROP
  | transaction_promote _ => DATASERVICE_API_METHOD_APP_PQ_TRANSACTION_PROMOTE
  | artifact_read _ => DATASERVICE_API_METHOD_APP_ARTIFACT_READ
  | block_make _ => DATASERVICE_API_METHOD_APP_BLOCK_WRITE
  | block_read _ => DATASERVICE_API_METHOD_APP_BLOCK_READ
  | block_id_by_height_read _ => DATASERVICE_API_METHOD_APP_BLOCK_ID_BY_HEIGHT_READ
  | block_id_latest_read _ => DATASERVICE_API_METHOD_APP_BLOCK_ID_LATEST_READ
  | canonized_transaction_get _ => DATASERVICE_API_METHOD_APP_TRANSACTION_READ
  end.

Definition request_fields (r : api_request) : list bytes :=
  match r with
  | root_context_create d => [be_enc 8 (ri_max_database_size d); ri_datadir d]
  | root_context_reduce_caps d => [caps_bytes (rc_caps d)]
  | child_context_create d => [caps_bytes (cr_caps d)]
  | child_context_close d => [be_enc 4 (cc_child_index d)]
  | global_setting_get d => [be_enc 4 (gg_child_index d); be_enc 8 (gg_key d)]
  | global_setting_set d => [be_enc 4 (gs_child_index d); be_enc 8 (gs_key d); gs_val d]
  | transaction_submit d =>
      [be_enc 4 (ts_child_index d); ts_txn_id d; ts_artifact_id d; ts_cert d]
  | transaction_get_first d => [be_enc 4 (tf_child_index d)]
  | transaction_get d => [be_enc 4 (tg_child_index d); tg_txn_id d]
  | transaction_drop d => [be_enc 4 (td_child_index d); td_txn_id d]
  | transaction_promote d => [be_enc 4 (tp_child_index d); tp_txn_id d]
  | artifact_read d => [be_enc 4 (ar_child_index d); ar_artifact_id d]
  | block_make d => [be_enc 4 (bm_child_index d); bm_block_id d; bm_cert d]
  | block_read d => [be_enc 4 (br_child_index d); br_block_id d; byte_of_bool (br_read_cert d)]
  | block_id_by_height_read d => [be_enc 4 (bh_child_index d); be_enc 8 (bh_block_height d)]
  | block_id_latest_read d => [be_enc 4 (bl_child_index d)]
  | canonized_transaction_get d =>
      [be_enc 4 (cg_child_index d); cg_txn_id d; byte_of_bool (cg_read_cert d)]
  end.

(** The wire format. *)
Definition request_packet (r : api_request) : bytes :=
  be_enc 4 (request_method r) ++ concat (request_fields r).

(** ** Lemmas *)

Lemma length_byte_of_bool b : length (byte_of_bool b) = 1%nat.
Proof. done. Qed.
#[export] Hint Rewrite length_byte_of_bool : len.

Lemma request_init_spec v rest :
  u32 v → dataservice_request_init (be_enc 4 v ++ rest) = Ok (v, rest).
Proof.
  intros Hv. unfold dataservice_request_init. rewrite read_net32 by done.
  rewrite drop_app_ge, length_app, length_be_enc by (rewrite length_be_enc; lia).
  by rewrite Nat.sub_diag, drop_0.
Qed.

Lemma caps_roundtrip caps n :
  length caps = n → Forall u32 caps → caps_of_bytes n (caps_bytes caps) = caps.
Proof.
  intros <-. unfold caps_bytes. induction 1 as [|w caps Hw _ IH]; [done|].
  cbn [length caps_of_bytes]. rewrite fmap_cons, concat_cons.
  rewrite sub_head by apply length_le_enc. rewrite le_dec_enc by done.
  rewrite drop_app_ge, length_le_enc, Nat.sub_diag, drop_0 by (rewrite length_le_enc; lia).
  by rewrite IH.
Qed.

Lemma length_caps_bytes caps : length (caps_bytes caps) = (4 * length caps)%nat.
Proof.
  unfold caps_bytes. induction caps as [|w caps IH]; [done|]. rewrite fmap_cons, concat_cons.
  rewrite length_app, length_le_enc, IH. simpl length. lia.
Qed.
#[export] Hint Rewrite length_caps_bytes : len.

Lemma flag_roundtrip id b : is_uuid id → flag_byte (id ++ byte_of_bool b) = b.
Proof.
  intros Hid. unfold flag_byte. rewrite (sub_skip 16 16) by (done || lia).
  rewrite sub_exact by done. by destruct b.
Qed.

Lemma method_range r : u32 (request_method r).
Proof. unfold u32. by destruct r; vm_compute. Qed.

Create HintDb decoders.
#[export] Hint Unfold dataservice_request_init_empty
  dataservice_decode_request_root_context_reduce_caps dataservice_decode_request_child_context_create
  dataservice_decode_request_child_context_close dataservice_decode_request_global_setting_get
  dataservice_decode_request_global_setting_set dataservice_decode_request_transaction_submit
  dataservice_decode_request_transaction_get_first dataservice_decode_request_transaction_get
  dataservice_decode_request_transaction_drop dataservice_decode_request_transaction_promote
  dataservice_decode_request_payload_artifact_read dataservice_decode_request_block_make
  dataservice_decode_request_block_read dataservice_decode_request_block_id_by_height_read
  dataservice_decode_request_block_id_latest_read
  dataservice_decode_request_canonized_transaction_get : decoders.

Lemma check_ok c s : c = true → check c s = Ok tt.
Proof. by intros ->. Qed.

Lemma nonempty_length (b : bytes) : b ≠ [] → (0 < length b)%nat.
Proof. destruct b; simpl; [done|lia]. Qed.

(** Decoding of concatenated fields: split off the front field, check sizes. *)
Ltac size_ok := rewrite ?negb_true_iff, ?Nat.eqb_eq, ?Nat.leb_le, ?Nat.leb_gt; len.
Ltac eval_method :=
  match goal with |- context [?a =? ?b] =>
    let v := eval vm_compute in (a =? b) in change (a =? b) with v; cbn iota end.
Ltac decode_step :=
  match goal with
  | |- context [dataservice_request_init (be_enc 4 _ ++ _)] => rewrite request_init_spec by done
  | |- context [dataservice_request_init (be_enc 4 ?v)] =>
      rewrite <- (app_nil_r (be_enc 4 v)), request_init_spec by done
  | |- context [result_bind (Ok _) _] => cbn [result_bind]
  | |- context [check ?c _] => rewrite check_ok by size_ok
  | |- context [ntohll (le_dec (sub 0 8 (be_enc 8 _ ++ _)))] => rewrite read_net64 by done
  | |- context [ntohll (le_dec (sub 0 8 (be_enc 8 ?v)))] =>
      rewrite <- (app_nil_r (be_enc 8 v)), read_net64 by done
  | |- context [drop _ (_ ++ _)] => rewrite drop_app_length' by (done || len)
  | |- context [flag_byte _] => rewrite flag_roundtrip by done
  | |- context [sub 0 16 (_ ++ _)] => rewrite sub_head by done
  | |- context [sub 0 16 _] => rewrite sub_exact by done
  | |- context [caps_of_bytes _ (caps_bytes _)] => rewrite caps_roundtrip by done
  end.

Section roundtrip.
Context {W : Type} {VB : VCCRYPT_BUFFER W} {VL : VCCRYPT_BUFFER_laws W}.

Lemma encode_fields_spec n fields w :
  length (concat fields) = n →
  (encode_fields n fields w).1 =
    let s := (vccrypt_buffer_init n w).1.1 in if s =? 0 then Ok (concat fields) else Err s.
Proof.
  intros Hn. unfold encode_fields, act. destruct (vccrypt_buffer_init n w) as [[s b] w'] eqn:E.
  simpl. destruct (Z.eqb_spec s 0) as [->|Hs]; [|done]. simpl.
  apply law_buffer_init in E. rewrite write_seq_full; [done|]. congruence.
Qed.

Lemma encode_request_spec r w :
  wf_request r →
  (encode_request r w).1 =
    let s := (vccrypt_buffer_init (length (request_packet r)) w).1.1 in
    if s =? 0 then Ok (request_packet r) else Err s.
Proof.
  intros Hwf. unfold request_packet.
  destruct r; cbn [encode_request request_method request_fields wf_request] in *.
  all: rewrite <- !net32_be, <- ?net64_be, <- concat_cons.
  all: match goal with |- context [concat ?l] =>
    transitivity (encode_fields (length (concat l)) l w).1;
    [|by apply encode_fields_spec] end.
  all: apply (f_equal (λ n, (encode_fields n _ w).1)); cbn [concat].
  all: repeat match goal with H : _ ∧ _ |- _ => destruct H | H : is_uuid _ |- _ => unfold is_uuid in H end.
  all: len.
Qed.

(** A packet decodes to the request it was built from; only the allocation of
    the directory name can fail. *)
Lemma decode_request_spec r w :
  wf_request r →
  post (decode_request (request_method r) (concat (request_fields r)))
    (λ d _, d = Ok r ∨
       (∃ d', r = root_context_create d') ∧ d = Err AGENTD_ERROR_GENERAL_OUT_OF_MEMORY) w.
Proof.
  intros Hwf. destruct r as [d|d|d|d|d|d|d|d|d|d|d|d|d|d|d|d|d];
    cbn [wf_request] in Hwf; unfold wf_caps, is_uuid in *; destruct_and?;
    cbn [request_method request_fields concat]; rewrite ?app_nil_r;
    repeat match goal with H : _ ≠ [] |- _ => apply nonempty_length in H end.
  { apply post_bind. unfold dataservice_decode_request_root_context_init.
    replace (_ <=? 8)%nat with false by (symmetry; size_ok).
    repeat decode_step. apply post_act, post_run. destruct (allocate _ _) as [mem w'].
    destruct mem; simpl; post_steps; [left; by destruct d|right; eauto]. }
  all: unfold decode_request; repeat eval_method; apply post_ret; left; unfold result_map.
  all: autounfold with decoders; repeat decode_step; try by destruct d.
Qed.

(** What a decoder guarantees of its result, whatever the input. *)
Definition decodes {A} (P : A → Prop) (r : result A) : Prop :=
  match r with Ok a => P a | Err s => s = AGENTD_ERROR_DATASERVICE_REQUEST_PACKET_INVALID_SIZE end.

Lemma decodes_bind {A B} (r : result A) (k : A → result B) P :
  decodes (λ a, decodes P (k a)) r → decodes P (result_bind r k).
Proof. by destruct r. Qed.

Lemma decodes_ok {A} (P : A → Prop) (r : result A) :
  decodes P r →
  match r with
  | Ok a => P a
  | Err s => s = AGENTD_ERROR_DATASERVICE_REQUEST_PACKET_BAD ∨
             s = AGENTD_ERROR_DATASERVICE_REQUEST_PACKET_INVALID_SIZE ∨
             s = AGENTD_ERROR_GENERAL_OUT_OF_MEMORY
  end.
Proof. destruct r; simpl; auto. Qed.

Lemma decodes_check {B} c (k : unit → result B) P :
  (c = true → decodes P (k tt)) →
  decodes P (result_bind (check c AGENTD_ERROR_DATASERVICE_REQUEST_PACKET_INVALID_SIZE) k).
Proof. destruct c; simpl; auto. Qed.

Lemma decodes_init {B} req (k : Z * bytes → result B) P :
  (∀ child breq, u32 child → decodes P (k (child, breq))) →
  decodes P (result_bind (dataservice_request_init req) k).
Proof.
  unfold dataservice_request_init. destruct (_ <? _)%nat; simpl; [done|].
  intros H. apply H, ntohl_u32.
Qed.

Lemma sub_uuid off b : (off + 16 ≤ length b)%nat → is_uuid (sub off 16 b).
Proof. apply length_sub. Qed.

Lemma drop_nonempty n (b : bytes) : (n < length b)%nat → drop n b ≠ [].
Proof. intros Hl Hd%(f_equal length). rewrite length_drop in Hd. simpl in Hd. lia. Qed.

Lemma le_dec_u32 b : u32 (le_dec (sub 0 4 b)).
Proof.
  unfold u32. pose proof (le_dec_range (sub 0 4 b)) as Hr.
  pose proof (length_sub_le 0 4 b).
  split; [lia|]. eapply Z.lt_le_trans; [apply Hr|].
  change (2 ^ 32) with (256 ^ 4). apply Z.pow_le_mono_r; lia.
Qed.

Lemma caps_of_bytes_wf b : wf_caps (caps_of_bytes cap_words b).
Proof.
  unfold wf_caps. generalize cap_words as n. intros n. revert b.
  induction n as [|n IH]; intros b; simpl; [done|]. destruct (IH (drop 4 b)).
  split; [by f_equal|]. constructor; [apply le_dec_u32|done].
Qed.

(** C27: For every request the service knows, the packet that the client's
    encoder builds is taken apart by the dispatcher into the method code of the
    request and a payload from which the method's decoder recovers exactly the
    request.  The encoder fails only with the status of its allocation, and the
    decoder only for lack of memory for the directory name. *)
Theorem request_roundtrip r w :
  wf_request r →
  post (encode_request r) (λ enc _,
    match enc with
    | Ok packet =>
        ∃ payload, dispatch_header packet = Ok (request_method r, payload) ∧
        ∀ w2, post (decode_request (request_method r) payload)
          (λ d _, d = Ok r ∨
             (∃ d', r = root_context_create d') ∧ d = Err AGENTD_ERROR_GENERAL_OUT_OF_MEMORY) w2
    | Err s => s ≠ 0 ∧ s = (vccrypt_buffer_init (length (request_packet r)) w).1.1
    end) w.
Proof.
  intros Hwf. apply post_run. rewrite encode_request_spec by done. simpl.
  destruct (Z.eqb_spec (vccrypt_buffer_init (length (request_packet r)) w).1.1 0); [|done].
  exists (concat (request_fields r)). split; [|intros w2; by apply decode_request_spec].
  unfold request_packet. apply (request_init_spec _ (concat (request_fields r))), method_range.
Qed.

(** C38: Whatever bytes arrive, a request that a decoder accepts is well-formed:
    identifiers are 16 bytes, integers are in the range of their types,
    capability sets have the declared number of words, and certificates,
    settings and directory names that must not be empty are not.  A method code
    outside the protocol is refused as a bad packet. *)
Theorem decode_request_wf method req w :
  post (decode_request method req) (λ d _,
    match d with
    | Ok r => wf_request r ∧ method = request_method r
    | Err s => s = AGENTD_ERROR_DATASERVICE_REQUEST_PACKET_BAD ∨
               s = AGENTD_ERROR_DATASERVICE_REQUEST_PACKET_INVALID_SIZE ∨
               s = AGENTD_ERROR_GENERAL_OUT_OF_MEMORY
    end) w.
Proof.
  unfold decode_request. apply post_if; intros Hm.
  { apply post_bind. unfold dataservice_decode_request_root_context_init.
    apply post_if; intros Hl; [post_steps; auto|]. apply post_act, post_run.
    destruct (allocate _ _) as [mem w']. destruct mem; simpl; post_steps; auto.
    split; [split; [apply ntohll_u64|]|by apply Z.eqb_eq].
    apply drop_nonempty. by apply Nat.leb_gt. }
  apply post_ret. unfold result_map.
  repeat (case Z.eqb_spec; [intros ->; apply decodes_ok|intros _]); [..|simpl; by left].
  all: autounfold with decoders; apply decodes_bind.
  all: first [apply decodes_init; intros child breq Hchild|cbn [result_bind]].
  all: try (apply decodes_check; rewrite ?negb_true_iff, ?Nat.eqb_eq, ?Nat.leb_le, ?Nat.leb_gt; intros Hl).
  all: split; [|done]; cbn; split_and?; rewrite ?drop_drop.
  all: auto using ntohll_u64.
  all: first [apply (caps_of_bytes_wf req)|apply sub_uuid; len|apply drop_nonempty; len].
Qed.
End roundtrip.
