(* ===== verification/ResponseCodec.v ===== *)
(** * Response packets

    The service builds a response from a status and a payload
    ([dataservice_encode_response_*.c],
    [dataservice_decode_and_dispatch_write_status.c]); the client takes it apart
    with [dataservice_decode_response_*.c].  A packet is the method code, the
    index of the child context, the status, and for a success the payload. *)

From S2P Require Import Prelude Inet StatusCodes Contexts Lmdb Records RequestCodec.

(** ** Payloads *)

Section encode.
Context {W : Type} {L : LMDB W}.

(** Allocate the payload and write its fields at their offsets. *)
Definition encode_payload (payload_size : nat) (fields : list bytes) : Eff W bytes :=
  let! mem := malloc (Z.of_nat payload_size) in
  if negb mem then throw AGENTD_ERROR_GENERAL_OUT_OF_MEMORY else
  ok (write_seq 0 fields (memset Byte.x00 payload_size)).

Definition dataservice_encode_response_block_id_by_height_read (block_id : bytes) : Eff W bytes :=
  encode_payload 16 [block_id].

Definition dataservice_encode_response_block_id_latest_read (block_id : bytes) : Eff W bytes :=
  encode_payload 16 [block_id].

Definition dataservice_encode_response_block_read
    (block_id prev_id next_id first_txn_id : bytes) (block_height : Z) (write_cert : bool)
    (cert : bytes) : Eff W bytes :=
  let payload_size := (if write_cert then 4 * 16 + 8 + length cert else 4 * 16 + 8)%nat in
  encode_payload payload_size
    ([block_id; prev_id; next_id; first_txn_id; net64 block_height]
       ++ if write_cert then [cert] else []).

Definition dataservice_encode_response_canonized_transaction_get
    (txn_id prev_id next_id artifact_id block_id : bytes) (net_txn_state : Z) (write_cert : bool)
    (cert : bytes) : Eff W bytes :=
  let payload_size := (if write_cert then 5 * 16 + 4 + length cert else 5 * 16 + 4)%nat in
  encode_payload payload_size
    ([txn_id; prev_id; next_id; artifact_id; block_id; le_enc 4 net_txn_state]
       ++ if write_cert then [cert] else []).

Definition dataservice_encode_response_child_context_create (child_offset : Z) : Eff W bytes :=
  encode_payload 4 [net32 child_offset].

Definition dataservice_encode_response_payload_artifact_read
    (artifact_id txn_first txn_latest : bytes) (height_first height_latest state_latest : Z)
  : Eff W bytes :=
  encode_payload (3 * 16 + 2 * 8 + 4)
    [artifact_id; txn_first; txn_latest; net64 height_first; net64 height_latest; net32 state_latest].

Definition dataservice_encode_response_transaction_get
    (txn_id prev_id next_id artifact_id : bytes) (net_txn_state : Z) (cert : bytes) : Eff W bytes :=
  encode_payload (4 * 16 + 4 + length cert)
    [txn_id; prev_id; next_id; artifact_id; le_enc 4 net_txn_state; cert].

Definition dataservice_encode_response_transaction_get_first
    (txn_id prev_id next_id artifact_id : bytes) (net_txn_state : Z) (cert : bytes) : Eff W bytes :=
  encode_payload (4 * 16 + 4 + length cert)
    [txn_id; prev_id; next_id; artifact_id; le_enc 4 net_txn_state; cert].
End encode.

(** ** The packet

    The bytes [dataservice_decode_and_dispatch_write_status] writes; [data] is
    [None] for a null pointer. *)
Definition status_packet (method offset status : Z) (data : option bytes) : bytes :=
  let respsize := (4 + 4 + 4 + length (default [] data))%nat in
  let resp := memset Byte.x00 respsize in
  let resp := splice (0 * 4) (net32 method) resp in
  let resp := splice (1 * 4) (net32 offset) resp in
  let resp := splice (2 * 4) (net32 status) resp in
  match data with Some d => splice (3 * 4) d resp | None => resp end.

(** ** Decoding *)

Record dataservice_response_header := ResponseHeader {
  rh_method_code : Z; rh_offset : Z; rh_status : Z }.

(** The start of every decoder: [size_ok] is its check of the packet size. *)
Definition decode_response_header (size_ok : bool) (method : Z) (resp : bytes)
  : result dataservice_response_header :=
  let? _ := check size_ok AGENTD_ERROR_DATASERVICE_RESPONSE_PACKET_INVALID_SIZE in
  let method_code := ntohl (le_dec (sub 0 4 resp)) in
  let? _ := check (method =? method_code) AGENTD_ERROR_DATASERVICE_RECVRESP_UNEXPECTED_METHOD_CODE in
  Ok (ResponseHeader method_code (ntohl (le_dec (sub 4 4 resp))) (ntohl (le_dec (sub 8 4 resp)))).

Definition response_packet_size : nat := 4 + 4 + 4.

(** The responses that are only a header. *)
Definition decode_response_status (method : Z) (resp : bytes) : result dataservice_response_header :=
  decode_response_header (length resp =? response_packet_size)%nat method resp.

Definition dataservice_decode_response_block_make : bytes → result dataservice_response_header :=
  decode_response_status DATASERVICE_API_METHOD_APP_BLOCK_WRITE.
Definition dataservice_decode_response_child_context_close : bytes → result dataservice_response_header :=
  decode_response_status DATASERVICE_API_METHOD_LL_CHILD_CONTEXT_CLOSE.
Definition dataservice_decode_response_global_settings_set : bytes → result dataservice_response_header :=
  decode_response_status DATASERVICE_API_METHOD_APP_GLOBAL_SETTING_WRITE.
Definition dataservice_decode_response_root_context_init : bytes → result dataservice_response_header :=
  decode_response_status DATASERVICE_API_METHOD_LL_ROOT_CONTEXT_CREATE.
Definition dataservice_decode_response_root_context_reduce_caps
  : bytes → result dataservice_response_header :=
  decode_response_status DATASERVICE_API_METHOD_LL_ROOT_CONTEXT_REDUCE_CAPS.
Definition dataservice_decode_response_transaction_drop : bytes → result dataservice_response_header :=
  decode_response_status DATASERVICE_API_METHOD_APP_PQ_TRANSACTION_DROP.
Definition dataservice_decode_response_transaction_promote : bytes → result dataservice_response_header :=
  decode_response_status DATASERVICE_API_METHOD_APP_PQ_TRANSACTION_PROMOTE.
Definition dataservice_decode_response_transaction_submit : bytes → result dataservice_response_header :=
  decode_response_status DATASERVICE_API_METHOD_APP_PQ_TRANSACTION_SUBMIT.

(** The others check for at least a header. *)
Definition decode_response_min (method : Z) (resp : bytes) : result dataservice_response_header :=
  decode_response_header (negb (length resp <? response_packet_size)%nat) method resp.

(** [dresp->child] is not set for a status other than success. *)
Definition dataservice_decode_response_child_context_create (resp : bytes)
  : result (dataservice_response_header * option Z) :=
  let? hdr := decode_response_min DATASERVICE_API_METHOD_LL_CHILD_CONTEXT_CREATE resp in
  if rh_status hdr =? AGENTD_STATUS_SUCCESS then
    let? _ := check (negb (length resp <? response_packet_size + 4)%nat)
                AGENTD_ERROR_DATASERVICE_RECVRESP_UNEXPECTED_DATA_PACKET_SIZE in
    Ok (hdr, Some (ntohl (le_dec (sub 12 4 resp))))
  else Ok (hdr, None).

(** The data is whatever follows the header, also after a failure. *)
Definition dataservice_decode_response_global_settings_get (resp : bytes)
  : result (dataservice_response_header * bytes) :=
  let? hdr := decode_response_min DATASERVICE_API_METHOD_APP_GLOBAL_SETTING_READ resp in
  Ok (hdr, drop response_packet_size resp).

Definition decode_response_block_id (method : Z) (resp : bytes)
  : result (dataservice_response_header * bytes) :=
  let? hdr := decode_response_min method resp in
  if negb (rh_status hdr =? AGENTD_STATUS_SUCCESS) then Ok (hdr, memset Byte.x00 16) else
  let? _ := check (negb (length resp <? response_packet_size + 16)%nat)
              AGENTD_ERROR_DATASERVICE_RESPONSE_PACKET_INVALID_SIZE in
  Ok (hdr, sub 12 16 resp).

Definition dataservice_decode_response_block_id_by_height_get
  : bytes → result (dataservice_response_header * bytes) :=
  decode_response_block_id DATASERVICE_API_METHOD_APP_BLOCK_ID_BY_HEIGHT_READ.
Definition dataservice_decode_response_latest_block_id_get
  : bytes → result (dataservice_response_header * bytes) :=
  decode_response_block_id DATASERVICE_API_METHOD_APP_BLOCK_ID_LATEST_READ.

(** [uint32_t dat_size = size; dat_size -= ...]. *)
Definition dat_size (resp : bytes) (consumed : nat) : Z :=
  wrap32 (wrap32 (sizeof resp) - Z.of_nat consumed).

(** The record is a cleared structure that the fields are copied into. *)
Definition dataservice_decode_response_artifact_get (resp : bytes)
  : result (dataservice_response_header * bytes) :=
  let? hdr := decode_response_min DATASERVICE_API_METHOD_APP_ARTIFACT_READ resp in
  let record := memset Byte.x00 sizeof_artifact in
  if negb (rh_status hdr =? AGENTD_STATUS_SUCCESS) then Ok (hdr, record) else
  let? _ := check (68 =? dat_size resp response_packet_size)
              AGENTD_ERROR_DATASERVICE_RESPONSE_PACKET_INVALID_SIZE in
  let bval := drop response_packet_size resp in
  let record := set_artifact_key (sub 0 16 bval) record in
  let record := set_artifact_txn_first (sub 16 16 bval) record in
  let record := set_artifact_txn_latest (sub 32 16 bval) record in
  let record := set_artifact_net_height_first (le_dec (sub 48 8 bval)) record in
  let record := set_artifact_net_height_latest (le_dec (sub 56 8 bval)) record in
  let record := set_artifact_net_state_latest (le_dec (sub 64 4 bval)) record in
  Ok (hdr, record).

(** The node structure and the certificate bytes. *)
Definition dataservice_decode_response_block_get (resp : bytes)
  : result (dataservice_response_header * bytes * bytes) :=
  let id_arr_size := (4 * 16 + 1 * 8)%nat in
  let? hdr := decode_response_min DATASERVICE_API_METHOD_APP_BLOCK_READ resp in
  let node := memset Byte.x00 sizeof_block_node in
  if negb (rh_status hdr =? AGENTD_STATUS_SUCCESS) then Ok (hdr, node, []) else
  let? _ := check (negb (length resp <? response_packet_size + id_arr_size)%nat)
              AGENTD_ERROR_DATASERVICE_RESPONSE_PACKET_INVALID_SIZE in
  let bval := drop response_packet_size resp in
  let dat := dat_size resp (response_packet_size + id_arr_size) in
  let node := set_block_node_key (sub 0 16 bval) node in
  let node := set_block_node_prev (sub 16 16 bval) node in
  let node := set_block_node_next (sub 32 16 bval) node in
  let node := set_block_node_first_transaction_id (sub 48 16 bval) node in
  let node := set_block_node_net_block_height (le_dec (sub 64 8 bval)) node in
  let node := set_block_node_net_block_cert_size (htonll dat) node in
  Ok (hdr, node, take (Z.to_nat dat) (drop id_arr_size bval)).

Definition decode_response_txn (method : Z) (resp : bytes)
  : result (dataservice_response_header * bytes * bytes) :=
  let id_arr_size := (4 * 16 + 4)%nat in
  let? hdr := decode_response_min method resp in
  let node := memset Byte.x00 sizeof_txn_node in
  if negb (rh_status hdr =? AGENTD_STATUS_SUCCESS) then Ok (hdr, node, []) else
  let? _ := check (negb (length resp <? response_packet_size + id_arr_size)%nat)
              AGENTD_ERROR_DATASERVICE_RESPONSE_PACKET_INVALID_SIZE in
  let bval := drop response_packet_size resp in
  let dat := dat_size resp (response_packet_size + id_arr_size) in
  let node := set_txn_node_key (sub 0 16 bval) node in
  let node := set_txn_node_prev (sub 16 16 bval) node in
  let node := set_txn_node_next (sub 32 16 bval) node in
  let node := set_txn_node_artifact_id (sub 48 16 bval) node in
  let node := set_txn_node_net_txn_state (le_dec (sub 64 4 bval)) node in
  let node := set_txn_node_net_txn_cert_size (htonll dat) node in
  Ok (hdr, node, take (Z.to_nat dat) (drop id_arr_size bval)).

Definition dataservice_decode_response_transaction_get
  : bytes → result (dataservice_response_header * bytes * bytes) :=
  decode_response_txn DATASERVICE_API_METHOD_APP_PQ_TRANSACTION_READ.
Definition dataservice_decode_response_transaction_get_first
  : bytes → result (dataservice_response_header * bytes * bytes) :=
  decode_response_txn DATASERVICE_API_METHOD_APP_PQ_TRANSACTION_FIRST_READ.

Definition dataservice_decode_response_canonized_transaction_get (resp : bytes)
  : result (dataservice_response_header * bytes * bytes) :=
  let id_arr_size := (5 * 16 + 4)%nat in
  let? hdr := decode_response_min DATASERVICE_API_METHOD_APP_TRANSACTION_READ resp in
  let node := memset Byte.x00 sizeof_txn_node in
  if negb (rh_status hdr =? AGENTD_STATUS_SUCCESS) then Ok (hdr, node, []) else
  let? _ := check (negb (length resp <? response_packet_size + id_arr_size)%nat)
              AGENTD_ERROR_DATASERVICE_RESPONSE_PACKET_INVALID_SIZE in
  let bval := drop response_packet_size resp in
  let dat := dat_size resp (response_packet_size + id_arr_size) in
  let node := set_txn_node_key (sub 0 16 bval) node in
  let node := set_txn_node_prev (sub 16 16 bval) node in
  let node := set_txn_node_next (sub 32 16 bval) node in
  let node := set_txn_node_artifact_id (sub 48 16 bval) node in
  let node := set_txn_node_block_id (sub 64 16 bval) node in
  let node := set_txn_node_net_txn_state (le_dec (sub 80 4 bval)) node in
  let node := set_txn_node_net_txn_cert_size (htonll dat) node in
  Ok (hdr, node, take (Z.to_nat dat) (drop id_arr_size bval)).
