(* ===== verification/ResponseSpec.v ===== *)
(** * Round trips of the response packets

    What the service's encoders put into a response, the client's decoders take
    out of it. *)

From S2P Require Import Prelude Inet StatusCodes Contexts Lmdb Records RequestCodec RequestSpec ResponseCodec.

(** ** Answers

    What a handler answers with after a success. *)
Inductive answer : Type :=
  | answer_nothing (method : Z)
  | answer_child (child : Z)
  | answer_setting (value : bytes)
  | answer_id_by_height (id : bytes)
  | answer_latest_id (id : bytes)
  | answer_artifact (a : data_artifact_record)
  | answer_block (n : data_block_node) (cert : bytes) (read_cert : bool)
  | answer_txn (n : data_transaction_node) (cert : bytes)
  | answer_first_txn (n : data_transaction_node) (cert : bytes)
  | answer_canonized_txn (n : data_transaction_node) (cert : bytes) (read_cert : bool).

(** The methods whose answer is only a status. *)
Definition status_methods : list Z :=
  [DATASERVICE_API_METHOD_LL_ROOT_CONTEXT_CREATE; DATASERVICE_API_METHOD_LL_ROOT_CONTEXT_REDUCE_CAPS;
   DATASERVICE_API_METHOD_LL_CHILD_CONTEXT_CLOSE; DATASERVICE_API_METHOD_APP_GLOBAL_SETTING_WRITE;
   DATASERVICE_API_METHOD_APP_PQ_TRANSACTION_SUBMIT; DATASERVICE_API_METHOD_APP_PQ_TRANSACTION_DROP;
   DATASERVICE_API_METHOD_APP_PQ_TRANSACTION_PROMOTE; DATASERVICE_API_METHOD_APP_BLOCK_WRITE].

Definition answer_method (a : answer) : Z :=
  match a with
  | answer_nothing m => m
  | answer_child _ => DATASERVICE_API_METHOD_LL_CHILD_CONTEXT_CREATE
  | answer_setting _ => DATASERVICE_API_METHOD_APP_GLOBAL_SETTING_READ
  | answer_id_by_height _ => DATASERVICE_API_METHOD_APP_BLOCK_ID_BY_HEIGHT_READ
  | answer_latest_id _ => DATASERVICE_API_METHOD_APP_BLOCK_ID_LATEST_READ
  | answer_artifact _ => DATASERVICE_API_METHOD_APP_ARTIFACT_READ
  | answer_block _ _ _ => DATASERVICE_API_METHOD_APP_BLOCK_READ
  | answer_txn _ _ => DATASERVICE_API_METHOD_APP_PQ_TRANSACTION_READ
  | answer_first_txn _ _ => DATASERVICE_API_METHOD_APP_PQ_TRANSACTION_FIRST_READ
  | answer_canonized_txn _ _ _ => DATASERVICE_API_METHOD_APP_TRANSACTION_READ
  end.

Definition fits_packet (b : bytes) : Prop := sizeof b < 2 ^ 30.

Definition answer_data (a : answer) : Prop :=
  match a with
  | answer_nothing m => m ∈ status_methods
  | answer_child c => u32 c
  | answer_setting v => True
  | answer_id_by_height id | answer_latest_id id => is_uuid id
  | answer_artifact a => wf_artifact a
  | answer_block n cert _ => wf_block_node n
  | answer_txn n cert | answer_first_txn n cert => wf_txn_node n
  | answer_canonized_txn n cert _ => wf_txn_node n
  end.

(** The payload can be sent. *)
Definition answer_fits (a : answer) : Prop :=
  match a with
  | answer_setting v => fits_packet v
  | answer_block _ cert _ | answer_txn _ cert | answer_first_txn _ cert
  | answer_canonized_txn _ cert _ => fits_packet cert
  | _ => True
  end.

Definition wf_answer (a : answer) : Prop := answer_data a ∧ answer_fits a.

(** The payload the handlers encode for an answer; [None] is a null payload. *)
Definition encode_answer {W : Type} `{L : LMDB W} (a : answer) : Eff W (option bytes) :=
  match a with
  | answer_nothing _ => ok None
  | answer_child c => let* p := dataservice_encode_response_child_context_create c in ok (Some p)
  | answer_setting v => ok (Some v)
  | answer_id_by_height id =>
      let* p := dataservice_encode_response_block_id_by_height_read id in ok (Some p)
  | answer_latest_id id =>
      let* p := dataservice_encode_response_block_id_latest_read id in ok (Some p)
  | answer_artifact a =>
      let* p := dataservice_encode_response_payload_artifact_read (ar_key a) (ar_txn_first a)
                  (ar_txn_latest a) (ar_height_first a) (ar_height_latest a) (ar_state_latest a) in
      ok (Some p)
  | answer_block n cert read_cert =>
      let* p := dataservice_encode_response_block_read (bn_key n) (bn_prev n) (bn_next n)
                  (bn_first_transaction_id n) (bn_height n) read_cert cert in
      ok (Some p)
  | answer_txn n cert =>
      let* p := dataservice_encode_response_transaction_get (tn_key n) (tn_prev n) (tn_next n)
                  (tn_artifact_id n) (htonl (tn_state n)) cert in
      ok (Some p)
  | answer_first_txn n cert =>
      let* p := dataservice_encode_response_transaction_get_first (tn_key n) (tn_prev n) (tn_next n)
                  (tn_artifact_id n) (htonl (tn_state n)) cert in
      ok (Some p)
  | answer_canonized_txn n cert read_cert =>
      let* p := dataservice_encode_response_canonized_transaction_get (tn_key n) (tn_prev n)
                  (tn_next n) (tn_artifact_id n) (tn_block_id n) (htonl (tn_state n)) read_cert cert in
      ok (Some p)
  end.

(** ** What a client sees *)

Inductive client_view : Type :=
  | view_status
  | view_child (child : option Z)
  | view_data (data : bytes)
  | view_node (node data : bytes).

Definition with_hdr {A} (f : A → client_view) (r : result (dataservice_response_header * A))
  : result (dataservice_response_header * client_view) :=
  result_map (λ p, (p.1, f p.2)) r.

(** The decoder the client of a method calls. *)
Definition decode_response (method : Z) (resp : bytes)
  : result (dataservice_response_header * client_view) :=
  let status f := result_map (λ h, (h, view_status)) (f resp) in
  let node f := result_map (λ '(h, n, d), (h, view_node n d)) (f resp) in
  if method =? DATASERVICE_API_METHOD_LL_ROOT_CONTEXT_CREATE then
    status dataservice_decode_response_root_context_init
  else if method =? DATASERVICE_API_METHOD_LL_ROOT_CONTEXT_REDUCE_CAPS then
    status dataservice_decode_response_root_context_reduce_caps
  else if method =? DATASERVICE_API_METHOD_LL_CHILD_CONTEXT_CREATE then
    with_hdr view_child (dataservice_decode_response_child_context_create resp)
  else if method =? DATASERVICE_API_METHOD_LL_CHILD_CONTEXT_CLOSE then
    status dataservice_decode_response_child_context_close
  else if method =? DATASERVICE_API_METHOD_APP_GLOBAL_SETTING_READ then
    with_hdr view_data (dataservice_decode_response_global_settings_get resp)
  else if method =? DATASERVICE_API_METHOD_APP_GLOBAL_SETTING_WRITE then
    status dataservice_decode_response_global_settings_set
  else if method =? DATASERVICE_API_METHOD_APP_PQ_TRANSACTION_SUBMIT then
    status dataservice_decode_response_transaction_submit
  else if method =? DATASERVICE_API_METHOD_APP_PQ_TRANSACTION_FIRST_READ then
    node dataservice_decode_response_transaction_get_first
  else if method =? DATASERVICE_API_METHOD_APP_PQ_TRANSACTION_READ then
    node dataservice_decode_response_transaction_get
  else if method =? DATASERVICE_API_METHOD_APP_PQ_TRANSACTION_DROP then
    status dataservice_decode_response_transaction_drop
  else if method =? DATASERVICE_API_METHOD_APP_PQ_TRANSACTION_PROMOTE then
    status dataservice_decode_response_transaction_promote
  else if method =? DATASERVICE_API_METHOD_APP_ARTIFACT_READ then
    with_hdr view_data (dataservice_decode_response_artifact_get resp)
  else if method =? DATASERVICE_API_METHOD_APP_BLOCK_WRITE then
    status dataservice_decode_response_block_make
  else if method =? DATASERVICE_API_METHOD_APP_BLOCK_READ then
    node dataservice_decode_response_block_get
  else if method =? DATASERVICE_API_METHOD_APP_BLOCK_ID_BY_HEIGHT_READ then
    with_hdr view_data (dataservice_decode_response_block_id_by_height_get resp)
  else if method =? DATASERVICE_API_METHOD_APP_BLOCK_ID_LATEST_READ then
    with_hdr view_data (dataservice_decode_response_latest_block_id_get resp)
  else
    node dataservice_decode_response_canonized_transaction_get.

(** The record a client gets for an answer.  The size of the certificate is that
    of the bytes sent, and a process queue entry has no block yet. *)
Definition txn_sent (n : data_transaction_node) (block_id : bytes) (cert : bytes)
  : data_transaction_node :=
  TxnNode (tn_key n) (tn_prev n) (tn_next n) (tn_artifact_id n) block_id (sizeof cert) (tn_state n).

Definition block_sent (n : data_block_node) (cert : bytes) : data_block_node :=
  BlockNode (bn_key n) (bn_prev n) (bn_next n) (bn_first_transaction_id n) (bn_height n) (sizeof cert).

Definition client_sees (a : answer) : client_view :=
  match a with
  | answer_nothing _ => view_status
  | answer_child c => view_child (Some c)
  | answer_setting v => view_data v
  | answer_id_by_height id | answer_latest_id id => view_data id
  | answer_artifact a => view_data (enc_artifact a)
  | answer_block n cert read_cert =>
      let sent := if read_cert then cert else [] in view_node (enc_block_node (block_sent n sent)) sent
  | answer_txn n cert | answer_first_txn n cert =>
      view_node (enc_txn_node (txn_sent n zero_uuid cert)) cert
  | answer_canonized_txn n cert read_cert =>
      let sent := if read_cert then cert else [] in
      view_node (enc_txn_node (txn_sent n (tn_block_id n) sent)) sent
  end.

(** ** The packet *)

Lemma status_packet_eq m off s data :
  status_packet m off s data =
  be_enc 4 m ++ be_enc 4 off ++ be_enc 4 s ++ default [] data.
Proof.
  unfold status_packet. rewrite !net32_be.
  rewrite !memset_add, <- !app_assoc. change (0 * 4)%nat with 0%nat.
  change (1 * 4)%nat with 4%nat. change (2 * 4)%nat with 8%nat. change (3 * 4)%nat with 12%nat.
  fields. destruct data as [d|]; simpl; [|by rewrite app_nil_r].
  rewrite <- (app_nil_r (memset _ _)). fields.
  rewrite splice_head, app_nil_r by (by rewrite length_memset). done.
Qed.

Lemma header_spec size_ok m off s rest :
  size_ok = true → u32 m → u32 off → u32 s →
  decode_response_header size_ok m (be_enc 4 m ++ be_enc 4 off ++ be_enc 4 s ++ rest)
  = Ok (ResponseHeader m off s).
Proof.
  intros -> Hm Ho Hs. unfold decode_response_header. cbn [check result_bind]. cbv zeta.
  fields. rewrite !ntohl_le_dec, !be_dec_enc by (done || flen). by rewrite check_ok by lia.
Qed.

Lemma packet_min m off s rest :
  u32 m → u32 off → u32 s →
  decode_response_min m (be_enc 4 m ++ be_enc 4 off ++ be_enc 4 s ++ rest)
  = Ok (ResponseHeader m off s).
Proof.
  intros. apply header_spec; [|done..].
  unfold response_packet_size. rewrite negb_true_iff, Nat.ltb_ge. len.
Qed.

Lemma packet_status m off s :
  u32 m → u32 off → u32 s →
  decode_response_status m (be_enc 4 m ++ be_enc 4 off ++ be_enc 4 s ++ [])
  = Ok (ResponseHeader m off s).
Proof.
  intros. apply header_spec; [|done..]. unfold response_packet_size. rewrite Nat.eqb_eq. len.
Qed.

Lemma packet_drop m off s rest :
  drop response_packet_size (be_enc 4 m ++ be_enc 4 off ++ be_enc 4 s ++ rest) = rest.
Proof.
  rewrite !app_assoc, drop_app_length'; [done|]. unfold response_packet_size. len.
Qed.

(** ** Structures rebuilt from their fields *)

Lemma rebuild_block key prev next first h size :
  is_uuid key → is_uuid prev → is_uuid next → is_uuid first → u64 h → u64 size →
  set_block_node_net_block_cert_size (htonll size)
    (set_block_node_net_block_height (htonll h)
       (set_block_node_first_transaction_id first
          (set_block_node_next next (set_block_node_prev prev
             (set_block_node_key key (memset Byte.x00 sizeof_block_node))))))
  = enc_block_node (BlockNode key prev next first h size).
Proof.
  intros Hk Hp Hn Hf Hh Hs. pose proof wf_zero_block_node as [].
  rewrite <- (app_nil_r (memset _ _)), block_node_zero.
  rewrite block_node_set_key, block_node_set_prev, block_node_set_next,
    block_node_set_first_transaction_id, block_node_set_height, block_node_set_cert_size; simpl.
  1: by rewrite app_nil_r.
  all: unfold u64, u32 in *; first [done|split; simpl in *; done].
Qed.

Lemma rebuild_txn key prev next art blk state size :
  is_uuid key → is_uuid prev → is_uuid next → is_uuid art → is_uuid blk → u32 state → u64 size →
  set_txn_node_net_txn_cert_size (htonll size)
    (set_txn_node_net_txn_state (htonl state)
       (set_txn_node_block_id blk (set_txn_node_artifact_id art
          (set_txn_node_next next (set_txn_node_prev prev
             (set_txn_node_key key (memset Byte.x00 sizeof_txn_node)))))))
  = enc_txn_node (TxnNode key prev next art blk size state).
Proof.
  intros Hk Hp Hn Ha Hb Hs Hz. pose proof wf_zero_txn_node as [].
  rewrite <- (app_nil_r (memset _ _)), txn_node_zero.
  rewrite txn_node_set_key, txn_node_set_prev, txn_node_set_next,
    txn_node_set_artifact_id, txn_node_set_block_id, txn_node_set_state, txn_node_set_cert_size; simpl.
  1: by rewrite app_nil_r.
  all: unfold u64, u32 in *; first [done|split; simpl in *; done].
Qed.

(** The same without a block identifier. *)
Lemma rebuild_pq_txn key prev next art state size :
  is_uuid key → is_uuid prev → is_uuid next → is_uuid art → u32 state → u64 size →
  set_txn_node_net_txn_cert_size (htonll size)
    (set_txn_node_net_txn_state (htonl state)
       (set_txn_node_artifact_id art (set_txn_node_next next (set_txn_node_prev prev
          (set_txn_node_key key (memset Byte.x00 sizeof_txn_node))))))
  = enc_txn_node (TxnNode key prev next art zero_uuid size state).
Proof.
  intros Hk Hp Hn Ha Hs Hz. pose proof wf_zero_txn_node as [].
  rewrite <- (app_nil_r (memset _ _)), txn_node_zero.
  rewrite txn_node_set_key, txn_node_set_prev, txn_node_set_next,
    txn_node_set_artifact_id, txn_node_set_state, txn_node_set_cert_size; simpl.
  1: by rewrite app_nil_r.
  all: unfold u64, u32 in *; first [done|split; simpl in *; done].
Qed.

(** ** Payloads *)

Definition answer_payload (a : answer) : option bytes :=
  match a with
  | answer_nothing _ => None
  | answer_child c => Some (be_enc 4 c)
  | answer_setting v => Some v
  | answer_id_by_height id | answer_latest_id id => Some id
  | answer_artifact a =>
      Some (ar_key a ++ ar_txn_first a ++ ar_txn_latest a ++ be_enc 8 (ar_height_first a) ++
            be_enc 8 (ar_height_latest a) ++ be_enc 4 (ar_state_latest a))
  | answer_block n cert read_cert =>
      Some (bn_key n ++ bn_prev n ++ bn_next n ++ bn_first_transaction_id n ++
            be_enc 8 (bn_height n) ++ if read_cert then cert else [])
  | answer_txn n cert | answer_first_txn n cert =>
      Some (tn_key n ++ tn_prev n ++ tn_next n ++ tn_artifact_id n ++ be_enc 4 (tn_state n) ++ cert)
  | answer_canonized_txn n cert read_cert =>
      Some (tn_key n ++ tn_prev n ++ tn_next n ++ tn_artifact_id n ++ tn_block_id n ++
            be_enc 4 (tn_state n) ++ if read_cert then cert else [])
  end.

Section encode.
Context {W : Type} {L : LMDB W}.

(** The allocator refused. *)
Definition out_of_memory : Prop := ∃ n w, 0 < n ∧ (malloc n w).1 = false.

Lemma encode_payload_spec n fields w :
  length (concat fields) = n → (0 < n)%nat →
  post (encode_payload n fields)
    (λ r _, r = Ok (concat fields) ∨
            r = Err AGENTD_ERROR_GENERAL_OUT_OF_MEMORY ∧ out_of_memory) w.
Proof.
  intros Hn Hpos. unfold encode_payload. apply post_act, post_run.
  destruct (malloc _ _) as [[] w'] eqn:E; simpl; post_steps; [left|right].
  - rewrite write_seq_full; [done|]. by rewrite length_memset.
  - split; [done|]. exists (Z.of_nat n), w. rewrite E. split; [lia|done].
Qed.

Lemma encode_answer_spec a w :
  answer_data a →
  post (encode_answer a)
    (λ r _, r = Ok (answer_payload a) ∨
            r = Err AGENTD_ERROR_GENERAL_OUT_OF_MEMORY ∧ out_of_memory) w.
Proof.
  intros Hwf. destruct a; cbn [encode_answer answer_payload]; try (by apply post_ret; left).
  all: repeat match goal with H : answer_data _ |- _ => cbn in H | H : _ ∧ _ |- _ => destruct H
         | H : wf_artifact _ |- _ => destruct H | H : wf_block_node _ |- _ => destruct H
         | H : wf_txn_node _ |- _ => destruct H end; unfold is_uuid in *.
  all: apply post_bind; eapply post_mono;
    [apply encode_payload_spec; try destruct read_cert; simpl concat; len|].
  all: intros r w' [-> | [-> ?]]; [apply post_ret; left|by right]; try destruct read_cert;
    simpl; by rewrite ?app_nil_r, ?net64_be, ?net32_be, ?le_enc_htonl.
Qed.
End encode.

(** ** Decoding *)

Lemma dat_size_spec resp consumed k :
  length resp = (consumed + k)%nat → sizeof resp < 2 ^ 32 → dat_size resp consumed = Z.of_nat k.
Proof.
  unfold dat_size, wrap32, sizeof. intros Hl Hs. rewrite (Z.mod_small (Z.of_nat _)) by lia.
  rewrite Z.mod_small by lia. lia.
Qed.

Lemma method_u32 a : answer_data a → u32 (answer_method a).
Proof.
  assert (Forall u32 status_methods) as Hall by (repeat constructor; by vm_compute).
  destruct a; cbn [answer_method answer_data]; [by apply Forall_forall|intros _..].
  all: split; by vm_compute.
Qed.

Lemma rebuild_artifact a :
  wf_artifact a →
  set_artifact_net_state_latest (htonl (ar_state_latest a))
    (set_artifact_net_height_latest (htonll (ar_height_latest a))
       (set_artifact_net_height_first (htonll (ar_height_first a))
          (set_artifact_txn_latest (ar_txn_latest a) (set_artifact_txn_first (ar_txn_first a)
             (set_artifact_key (ar_key a) (memset Byte.x00 sizeof_artifact))))))
  = enc_artifact a.
Proof.
  intros []. unfold is_uuid in *.
  replace (memset Byte.x00 sizeof_artifact) with
    (memset Byte.x00 16 ++ memset Byte.x00 16 ++ memset Byte.x00 16 ++ memset Byte.x00 8 ++
     memset Byte.x00 8 ++ memset Byte.x00 4 ++ memset Byte.x00 4) by by vm_compute.
  unfold set_artifact_net_state_latest, set_artifact_net_height_latest, set_artifact_net_height_first,
    set_artifact_txn_latest, set_artifact_txn_first, set_artifact_key.
  rewrite !le_enc_htonll, le_enc_htonl. by fields.
Qed.

(** The decoders of the structures, on a success packet. *)
Section structures.
Variables (off : Z) (Hoff : u32 off).

Local Ltac packet decoder :=
  rewrite status_packet_eq; unfold decoder; rewrite packet_min by done;
  cbn [result_bind rh_status]; change (0 =? AGENTD_STATUS_SUCCESS) with true; cbn [negb];
  cbn [answer_payload from_option id]; unfold is_uuid in *.
Local Ltac read_fields :=
  rewrite packet_drop; fields; rewrite ?le_dec_be_8, ?le_dec_be_4 by done.

Lemma decode_artifact_packet a :
  wf_artifact a →
  dataservice_decode_response_artifact_get
    (status_packet DATASERVICE_API_METHOD_APP_ARTIFACT_READ off 0 (answer_payload (answer_artifact a)))
  = Ok (ResponseHeader DATASERVICE_API_METHOD_APP_ARTIFACT_READ off 0, enc_artifact a).
Proof.
  intros Ha. pose proof Ha as []. packet dataservice_decode_response_artifact_get.
  rewrite (dat_size_spec _ _ 68) by (unfold response_packet_size, sizeof; len).
  cbn [check result_bind]. rewrite <- (app_nil_r (be_enc 4 (ar_state_latest a))).
  read_fields. simpl.
  by rewrite rebuild_artifact.
Qed.

Lemma decode_block_packet n cert (read_cert : bool) :
  wf_block_node n → fits_packet cert →
  let sent := if read_cert then cert else [] in
  dataservice_decode_response_block_get
    (status_packet DATASERVICE_API_METHOD_APP_BLOCK_READ off 0
       (answer_payload (answer_block n cert read_cert)))
  = Ok (ResponseHeader DATASERVICE_API_METHOD_APP_BLOCK_READ off 0,
        enc_block_node (block_sent n sent), sent).
Proof.
  intros Hn Hfit sent. pose proof Hn as []. packet dataservice_decode_response_block_get.
  fold sent. assert (fits_packet sent) as Hsent by (unfold sent; by destruct read_cert).
  unfold fits_packet, sizeof in *.
  rewrite (dat_size_spec _ _ (length sent)) by (unfold response_packet_size, sizeof; len).
  rewrite check_ok by (unfold response_packet_size; rewrite negb_true_iff, Nat.ltb_ge; len).
  cbn [result_bind]. read_fields.
  rewrite !app_assoc, drop_app_length', Nat2Z.id, take_ge by len.
  rewrite rebuild_block by (done || unfold u64; lia). done.
Qed.

Lemma decode_txn_packet m n cert :
  u32 m → wf_txn_node n → fits_packet cert →
  decode_response_txn m (status_packet m off 0 (answer_payload (answer_txn n cert)))
  = Ok (ResponseHeader m off 0, enc_txn_node (txn_sent n zero_uuid cert), cert).
Proof.
  intros Hm Hn Hfit. pose proof Hn as []. packet decode_response_txn.
  unfold fits_packet, sizeof in *.
  rewrite (dat_size_spec _ _ (length cert)) by (unfold response_packet_size, sizeof; len).
  rewrite check_ok by (unfold response_packet_size; rewrite negb_true_iff, Nat.ltb_ge; len).
  cbn [result_bind]. read_fields.
  rewrite !app_assoc, drop_app_length', Nat2Z.id, take_ge by len.
  rewrite rebuild_pq_txn by (done || unfold u64; lia). done.
Qed.

Lemma decode_canonized_packet n cert (read_cert : bool) :
  wf_txn_node n → fits_packet cert →
  let sent := if read_cert then cert else [] in
  dataservice_decode_response_canonized_transaction_get
    (status_packet DATASERVICE_API_METHOD_APP_TRANSACTION_READ off 0
       (answer_payload (answer_canonized_txn n cert read_cert)))
  = Ok (ResponseHeader DATASERVICE_API_METHOD_APP_TRANSACTION_READ off 0,
        enc_txn_node (txn_sent n (tn_block_id n) sent), sent).
Proof.
  intros Hn Hfit sent. pose proof Hn as [].
  packet dataservice_decode_response_canonized_transaction_get.
  fold sent. assert (fits_packet sent) as Hsent by (unfold sent; by destruct read_cert).
  unfold fits_packet, sizeof in *.
  rewrite (dat_size_spec _ _ (length sent)) by (unfold response_packet_size, sizeof; len).
  rewrite check_ok by (unfold response_packet_size; rewrite negb_true_iff, Nat.ltb_ge; len).
  cbn [result_bind]. read_fields.
  rewrite !app_assoc, drop_app_length', Nat2Z.id, take_ge by len.
  rewrite rebuild_txn by (done || unfold u64; lia). done.
Qed.

Lemma decode_child_packet c :
  u32 c →
  dataservice_decode_response_child_context_create
    (status_packet DATASERVICE_API_METHOD_LL_CHILD_CONTEXT_CREATE off 0 (Some (be_enc 4 c)))
  = Ok (ResponseHeader DATASERVICE_API_METHOD_LL_CHILD_CONTEXT_CREATE off 0, Some c).
Proof.
  intros Hc. packet dataservice_decode_response_child_context_create.
  rewrite check_ok by (unfold response_packet_size; rewrite negb_true_iff, Nat.ltb_ge; len).
  cbn [result_bind]. rewrite <- (app_nil_r (be_enc 4 c)). fields.
  by rewrite ntohl_le_dec, be_dec_enc by (done || flen).
Qed.

Lemma decode_id_packet m id :
  u32 m → is_uuid id →
  decode_response_block_id m (status_packet m off 0 (Some id)) = Ok (ResponseHeader m off 0, id).
Proof.
  intros Hm Hid. packet decode_response_block_id.
  rewrite check_ok by (unfold response_packet_size; rewrite negb_true_iff, Nat.ltb_ge; len).
  cbn [result_bind]. fields. by rewrite sub_exact.
Qed.

Lemma decode_setting_packet v :
  dataservice_decode_response_global_settings_get
    (status_packet DATASERVICE_API_METHOD_APP_GLOBAL_SETTING_READ off 0 (Some v))
  = Ok (ResponseHeader DATASERVICE_API_METHOD_APP_GLOBAL_SETTING_READ off 0, v).
Proof. packet dataservice_decode_response_global_settings_get. by rewrite packet_drop. Qed.

(** The same decoders on the packet of a failure. *)
Variables (s : Z) (Hs : u32 s) (Hne : s ≠ 0).

Local Ltac failed decoder :=
  rewrite status_packet_eq; unfold decoder; cbn [from_option]; rewrite packet_min by done;
  cbn [result_bind rh_status]; rewrite ?(proj2 (Z.eqb_neq s AGENTD_STATUS_SUCCESS)) by done;
  cbn [negb].

Lemma failed_child :
  dataservice_decode_response_child_context_create
    (status_packet DATASERVICE_API_METHOD_LL_CHILD_CONTEXT_CREATE off s None)
  = Ok (ResponseHeader DATASERVICE_API_METHOD_LL_CHILD_CONTEXT_CREATE off s, None).
Proof. by failed dataservice_decode_response_child_context_create. Qed.

Lemma failed_setting :
  dataservice_decode_response_global_settings_get
    (status_packet DATASERVICE_API_METHOD_APP_GLOBAL_SETTING_READ off s None)
  = Ok (ResponseHeader DATASERVICE_API_METHOD_APP_GLOBAL_SETTING_READ off s, []).
Proof. failed dataservice_decode_response_global_settings_get. by rewrite packet_drop. Qed.

Lemma failed_artifact :
  dataservice_decode_response_artifact_get
    (status_packet DATASERVICE_API_METHOD_APP_ARTIFACT_READ off s None)
  = Ok (ResponseHeader DATASERVICE_API_METHOD_APP_ARTIFACT_READ off s, memset Byte.x00 sizeof_artifact).
Proof. by failed dataservice_decode_response_artifact_get. Qed.

Lemma failed_id m :
  u32 m →
  decode_response_block_id m (status_packet m off s None) = Ok (ResponseHeader m off s, zero_uuid).
Proof. intros Hm. by failed decode_response_block_id. Qed.

Lemma failed_block :
  dataservice_decode_response_block_get
    (status_packet DATASERVICE_API_METHOD_APP_BLOCK_READ off s None)
  = Ok (ResponseHeader DATASERVICE_API_METHOD_APP_BLOCK_READ off s,
        memset Byte.x00 sizeof_block_node, []).
Proof. by failed dataservice_decode_response_block_get. Qed.

Lemma failed_txn m :
  u32 m →
  decode_response_txn m (status_packet m off s None)
  = Ok (ResponseHeader m off s, memset Byte.x00 sizeof_txn_node, []).
Proof. intros Hm. by failed decode_response_txn. Qed.

Lemma failed_canonized :
  dataservice_decode_response_canonized_transaction_get
    (status_packet DATASERVICE_API_METHOD_APP_TRANSACTION_READ off s None)
  = Ok (ResponseHeader DATASERVICE_API_METHOD_APP_TRANSACTION_READ off s,
        memset Byte.x00 sizeof_txn_node, []).
Proof. by failed dataservice_decode_response_canonized_transaction_get. Qed.
End structures.

(** ** The theorems *)

Local Ltac eval_methods :=
  repeat match goal with |- context [?a =? ?b] =>
    let v := eval vm_compute in (a =? b) in
    lazymatch v with true => idtac | false => idtac end;
    change (a =? b) with v; cbn iota end.

Lemma decode_status m off s :
  m ∈ status_methods → u32 off → u32 s →
  decode_response m (status_packet m off s None) = Ok (ResponseHeader m off s, view_status).
Proof.
  intros Hm Hoff Hs. rewrite status_packet_eq. cbn [from_option].
  assert (u32 m) as Hu by exact (method_u32 (answer_nothing m) Hm).
  unfold status_methods in Hm.
  repeat (apply elem_of_cons in Hm as [->|Hm]); [..|by apply elem_of_nil in Hm].
  all: unfold decode_response; cbv zeta; eval_methods; unfold result_map.
  all: match goal with |- result_bind (?f _) _ = _ => unfold f end; by rewrite packet_status.
Qed.

Lemma decode_answer a off :
  wf_answer a → u32 off →
  decode_response (answer_method a) (status_packet (answer_method a) off 0 (answer_payload a))
  = Ok (ResponseHeader (answer_method a) off 0, client_sees a).
Proof.
  intros [Hwf Hfits] Hoff. pose proof (method_u32 a Hwf) as Hm.
  destruct a as [m|c|v|id|id|a|n cert rc|n cert|n cert|n cert rc]; cbn [answer_data answer_fits answer_method] in *.
  1: by apply decode_status.
  all: unfold decode_response; cbv zeta; eval_methods; unfold with_hdr, result_map; cbn [answer_payload].
  - by rewrite decode_child_packet.
  - by rewrite decode_setting_packet.
  - unfold dataservice_decode_response_block_id_by_height_get. by rewrite decode_id_packet.
  - unfold dataservice_decode_response_latest_block_id_get. by rewrite decode_id_packet.
  - pose proof (decode_artifact_packet off Hoff a Hwf) as E. cbn [answer_payload] in E. by rewrite E.
  - pose proof (decode_block_packet off Hoff n cert rc Hwf Hfits) as E.
    cbn [answer_payload] in E. by rewrite E.
  - pose proof (decode_txn_packet off Hoff _ n cert Hm Hwf Hfits) as E.
    cbn [answer_payload] in E. unfold dataservice_decode_response_transaction_get. by rewrite E.
  - pose proof (decode_txn_packet off Hoff _ n cert Hm Hwf Hfits) as E.
    cbn [answer_payload] in E. unfold dataservice_decode_response_transaction_get_first. by rewrite E.
  - pose proof (decode_canonized_packet off Hoff n cert rc Hwf Hfits) as E.
    cbn [answer_payload] in E. by rewrite E.
Qed.

(** C28: An answer the service encodes and sends after a success is what the client
    decodes: the header with method, child index and status 0, and for each
    method the value, identifier, record or certificate that was answered.  The
    node of a block or transaction carries the size of the certificate sent. *)
Theorem response_roundtrip {W : Type} `{L : LMDB W} a off w :
  wf_answer a → u32 off →
  post (encode_answer a) (λ r _,
    match r with
    | Ok payload =>
        decode_response (answer_method a) (status_packet (answer_method a) off 0 payload)
        = Ok (ResponseHeader (answer_method a) off 0, client_sees a)
    | Err s => s = AGENTD_ERROR_GENERAL_OUT_OF_MEMORY
    end) w.
Proof.
  intros Hwf Hoff. eapply post_mono; [by apply encode_answer_spec, Hwf|].
  intros r w' [-> | [-> _]]; [by apply decode_answer|done].
Qed.

(** What a client sees of a failed request. *)
Definition client_sees_failure (method : Z) : client_view :=
  if existsb (Z.eqb method) status_methods then view_status
  else if method =? DATASERVICE_API_METHOD_LL_CHILD_CONTEXT_CREATE then view_child None
  else if method =? DATASERVICE_API_METHOD_APP_GLOBAL_SETTING_READ then view_data []
  else if method =? DATASERVICE_API_METHOD_APP_ARTIFACT_READ then
    view_data (memset Byte.x00 sizeof_artifact)
  else if (method =? DATASERVICE_API_METHOD_APP_BLOCK_ID_BY_HEIGHT_READ)
       || (method =? DATASERVICE_API_METHOD_APP_BLOCK_ID_LATEST_READ) then view_data zero_uuid
  else if method =? DATASERVICE_API_METHOD_APP_BLOCK_READ then
    view_node (memset Byte.x00 sizeof_block_node) []
  else view_node (memset Byte.x00 sizeof_txn_node) [].

(** The methods of the protocol with an answer of their own. *)
Definition query_methods : list Z :=
  [DATASERVICE_API_METHOD_LL_CHILD_CONTEXT_CREATE; DATASERVICE_API_METHOD_APP_GLOBAL_SETTING_READ;
   DATASERVICE_API_METHOD_APP_ARTIFACT_READ; DATASERVICE_API_METHOD_APP_BLOCK_ID_BY_HEIGHT_READ;
   DATASERVICE_API_METHOD_APP_BLOCK_ID_LATEST_READ; DATASERVICE_API_METHOD_APP_BLOCK_READ;
   DATASERVICE_API_METHOD_APP_PQ_TRANSACTION_READ; DATASERVICE_API_METHOD_APP_PQ_TRANSACTION_FIRST_READ;
   DATASERVICE_API_METHOD_APP_TRANSACTION_READ].

(** The selection of the decoders that return a node, and what a failure shows
    of them. *)
Lemma decode_response_node resp :
  let node := result_map (λ '(h, n, d), (h, view_node n d)) in
  decode_response DATASERVICE_API_METHOD_APP_BLOCK_READ resp
    = node (dataservice_decode_response_block_get resp) ∧
  decode_response DATASERVICE_API_METHOD_APP_PQ_TRANSACTION_READ resp
    = node (dataservice_decode_response_transaction_get resp) ∧
  decode_response DATASERVICE_API_METHOD_APP_PQ_TRANSACTION_FIRST_READ resp
    = node (dataservice_decode_response_transaction_get_first resp) ∧
  decode_response DATASERVICE_API_METHOD_APP_TRANSACTION_READ resp
    = node (dataservice_decode_response_canonized_transaction_get resp).
Proof. split_and!; reflexivity. Qed.

Lemma failure_node m size node (r : result (dataservice_response_header * bytes * bytes)) h :
  node = result_map (λ '(h, n, d), (h, view_node n d)) r →
  r = Ok (h, memset Byte.x00 size, []) →
  client_sees_failure m = view_node (memset Byte.x00 size) [] →
  node = Ok (h, client_sees_failure m).
Proof. intros -> -> Hm. by rewrite Hm. Qed.

Lemma query_methods_u32 : Forall u32 query_methods.
Proof. repeat constructor; by vm_compute. Qed.

Lemma decode_failure m off s :
  m ∈ status_methods ++ query_methods → u32 off → u32 s → s ≠ 0 →
  decode_response m (status_packet m off s None)
  = Ok (ResponseHeader m off s, client_sees_failure m).
Proof.
  intros Hm Hoff Hs Hne. apply elem_of_app in Hm as [Hm|Hm].
  { rewrite decode_status by done. unfold client_sees_failure.
    rewrite (proj2 (existsb_exists (Z.eqb m) status_methods)); [done|].
    exists m. split; [by apply list_elem_of_In|by apply Z.eqb_eq]. }
  assert (u32 m) as Hu by (revert m Hm; by apply Forall_forall, query_methods_u32).
  unfold query_methods in Hm.
  repeat (apply elem_of_cons in Hm as [->|Hm]); [..|by apply elem_of_nil in Hm].
  1-5: unfold decode_response; cbv zeta; eval_methods; unfold with_hdr, result_map.
  - by rewrite failed_child.
  - by rewrite failed_setting.
  - by rewrite failed_artifact.
  - unfold dataservice_decode_response_block_id_by_height_get. by rewrite failed_id.
  - unfold dataservice_decode_response_latest_block_id_get. by rewrite failed_id.
  - destruct (decode_response_node (status_packet DATASERVICE_API_METHOD_APP_BLOCK_READ off s None))
      as (E&_&_&_). eapply failure_node; [exact E|exact (failed_block off Hoff s Hs Hne)|reflexivity].
  - destruct (decode_response_node
      (status_packet DATASERVICE_API_METHOD_APP_PQ_TRANSACTION_READ off s None)) as (_&E&_&_).
    eapply failure_node; [exact E|exact (failed_txn off Hoff s Hs Hne _ Hu)|reflexivity].
  - destruct (decode_response_node
      (status_packet DATASERVICE_API_METHOD_APP_PQ_TRANSACTION_FIRST_READ off s None)) as (_&_&E&_).
    eapply failure_node; [exact E|exact (failed_txn off Hoff s Hs Hne _ Hu)|reflexivity].
  - destruct (decode_response_node
      (status_packet DATASERVICE_API_METHOD_APP_TRANSACTION_READ off s None)) as (_&_&_&E).
    eapply failure_node; [exact E|exact (failed_canonized off Hoff s Hs Hne)|reflexivity].
Qed.

(** C39: A failure reaches the client as such: for every method of the protocol the
    packet with a status other than success decodes without error to that
    status, with an empty answer; the client never reads a payload that is not
    there. *)
Theorem failure_roundtrip m off s :
  m ∈ status_methods ++ query_methods → u32 off → u32 s → s ≠ 0 →
  decode_response m (status_packet m off s None)
  = Ok (ResponseHeader m off s, client_sees_failure m).
Proof. apply decode_failure. Qed.
