(* ===== verification/Ipc.v ===== *)
(** * Inter-process communication

    The message layer of [src/src/ipc] between the isolated processes of the
    agent.  A message is a type word, for strings and data packets a size word,
    and the value, all in network byte order.  The [_block] functions work on a
    file descriptor with [read] and [write]; the [_noblock] functions work on the
    two buffers that libevent keeps for a socket. *)

From S2P Require Import Prelude Inet StatusCodes.

(** ** Message types *)

Definition IPC_DATA_TYPE_INT64 : Z := 0x10.
Definition IPC_DATA_TYPE_UINT64 : Z := 0x11.
Definition IPC_DATA_TYPE_INT8 : Z := 0x16.
Definition IPC_DATA_TYPE_UINT8 : Z := 0x17.
Definition IPC_DATA_TYPE_STRING : Z := 0x20.
Definition IPC_DATA_TYPE_DATA_PACKET : Z := 0x22.

(** ** Conversions between integer types

    A conversion to an unsigned type is a remainder; a conversion to a signed
    type of the same width reads the bits as two's complement. *)
Definition to_int8 (z : Z) : Z := (z + 2 ^ 7) mod 2 ^ 8 - 2 ^ 7.
Definition to_uint8 (z : Z) : Z := z mod 2 ^ 8.
Definition to_int64 (z : Z) : Z := (z + 2 ^ 63) mod 2 ^ 64 - 2 ^ 63.

(** ** The platform

    [read] and [write] on a blocking descriptor.  The result is the number of
    bytes, or a negative number; the bytes read come with it. *)
Class POSIX_IO (W : Type) := {
  sys_read : nat → Act W (Z * bytes);
  sys_write : bytes → Act W Z;
}.

(** The libevent calls on the read buffer and the write buffer of one socket.
    [evbuffer_read] also tells whether a failure was [EWOULDBLOCK] or [EAGAIN]. *)
Class LIBEVENT (W : Type) := {
  evbuffer_read : Act W (Z * bool);
  evbuffer_pullup : nat → Act W (option bytes);
  evbuffer_get_length : Act W Z;
  evbuffer_drain : nat → Act W Z;
  evbuffer_remove : nat → Act W (Z * bytes);
  evbuffer_add : bytes → Act W Z;
  evbuffer_write : Act W Z;
  evbuffer_get_write_length : Act W Z;
}.

(** ** Blocking functions *)

Section block.
Context {W : Type} {M : MALLOC W} {IO : POSIX_IO W}.

(** Write or read an object; anything but its full size is a failure. *)
Definition write_object (b : bytes) : Eff W unit :=
  let! n := sys_write b in
  if negb (sizeof b =? n) then throw AGENTD_ERROR_IPC_WRITE_BLOCK_FAILURE else ok tt.
Definition read_object (size : nat) : Eff W bytes :=
  let! '(n, b) := sys_read size in
  if negb (Z.of_nat size =? n) then throw AGENTD_ERROR_IPC_READ_BLOCK_FAILURE else ok b.

(** Read the type word and compare it. *)
Definition read_type (expected : Z) : Eff W unit :=
  let* type := read_object 4 in
  if negb (expected =? ntohl (le_dec type)) then throw AGENTD_ERROR_IPC_READ_UNEXPECTED_DATA_TYPE
  else ok tt.

Definition ipc_write_int64_block (val : Z) : Eff W unit :=
  let* _ := write_object (net32 IPC_DATA_TYPE_INT64) in
  write_object (net64 (wrap64 val)).
Definition ipc_write_uint64_block (val : Z) : Eff W unit :=
  let* _ := write_object (net32 IPC_DATA_TYPE_UINT64) in
  write_object (net64 val).
Definition ipc_write_int8_block (val : Z) : Eff W unit :=
  let* _ := write_object (net32 IPC_DATA_TYPE_INT8) in
  write_object (le_enc 1 (to_uint8 val)).
Definition ipc_write_uint8_block (val : Z) : Eff W unit :=
  let* _ := write_object (net32 IPC_DATA_TYPE_UINT8) in
  write_object (le_enc 1 val).
(** [val] is the string without its terminating zero. *)
Definition ipc_write_string_block (val : bytes) : Eff W unit :=
  let* _ := write_object (net32 IPC_DATA_TYPE_STRING) in
  let len := wrap32 (sizeof val) in
  let* _ := write_object (net32 len) in
  write_object (take (Z.to_nat len) val).
(** [val] are the [size] bytes at the pointer. *)
Definition ipc_write_data_block (val : bytes) : Eff W unit :=
  let* _ := write_object (net32 IPC_DATA_TYPE_DATA_PACKET) in
  let* _ := write_object (net32 (sizeof val)) in
  write_object val.

Definition ipc_read_int64_block : Eff W Z :=
  let* _ := read_type IPC_DATA_TYPE_INT64 in
  let* nval := read_object 8 in
  ok (to_int64 (ntohll (le_dec nval))).
Definition ipc_read_uint64_block : Eff W Z :=
  let* _ := read_type IPC_DATA_TYPE_UINT64 in
  let* nval := read_object 8 in
  ok (ntohll (le_dec nval)).
Definition ipc_read_int8_block : Eff W Z :=
  let* _ := read_type IPC_DATA_TYPE_INT8 in
  let* val := read_object 1 in
  ok (to_int8 (le_dec val)).
Definition ipc_read_uint8_block : Eff W Z :=
  let* _ := read_type IPC_DATA_TYPE_UINT8 in
  let* val := read_object 1 in
  ok (le_dec val).

Definition ipc_read_string_block : Eff W bytes :=
  let* _ := read_type IPC_DATA_TYPE_STRING in
  let* nsize := read_object 4 in
  let size := ntohl (le_dec nsize) in
  if 10 * 1024 * 1024 <? size then throw AGENTD_ERROR_IPC_READ_UNEXPECTED_DATA_SIZE else
  let! mem := malloc (size + 1) in
  if negb mem then throw AGENTD_ERROR_GENERAL_OUT_OF_MEMORY else
  read_object (Z.to_nat size).
Definition ipc_read_data_block : Eff W bytes :=
  let* _ := read_type IPC_DATA_TYPE_DATA_PACKET in
  let* nsize := read_object 4 in
  let size := ntohl (le_dec nsize) in
  let! mem := malloc size in
  if negb mem then throw AGENTD_ERROR_GENERAL_OUT_OF_MEMORY else
  read_object (Z.to_nat size).
End block.

(** ** Non-blocking functions *)

Section noblock.
Context {W : Type} {M : MALLOC W} {EV : LIBEVENT W}.

Definition ipc_socket_writebuffer_size : Act W Z := evbuffer_get_write_length.
Definition ipc_socket_readbuffer_size : Act W Z := evbuffer_get_length.
Definition ipc_socket_read_to_buffer : Act W (Z * bool) := evbuffer_read.
Definition ipc_socket_write_from_buffer : Act W Z := evbuffer_write.

(** Append to the write buffer. *)
Definition add_object (b : bytes) (err : Z) : Eff W unit :=
  let! rc := evbuffer_add b in
  if negb (rc =? 0) then throw err else ok tt.

Definition ipc_write_int64_noblock (val : Z) : Eff W unit :=
  let* _ := add_object (net32 IPC_DATA_TYPE_INT64) AGENTD_ERROR_IPC_WRITE_BUFFER_TYPE_ADD_FAILURE in
  add_object (net64 (wrap64 val)) AGENTD_ERROR_IPC_WRITE_BUFFER_PAYLOAD_ADD_FAILURE.
Definition ipc_write_uint64_noblock (val : Z) : Eff W unit :=
  let* _ := add_object (net32 IPC_DATA_TYPE_UINT64) AGENTD_ERROR_IPC_WRITE_BUFFER_TYPE_ADD_FAILURE in
  add_object (net64 val) AGENTD_ERROR_IPC_WRITE_BUFFER_PAYLOAD_ADD_FAILURE.

(** The type word is not converted, and the value byte is the low byte of the
    64-bit value in network order: [uint8_t oval = htonll(val)]. *)
Definition ipc_write_int8_noblock (val : Z) : Eff W unit :=
  let* _ := add_object (le_enc 4 IPC_DATA_TYPE_INT8) AGENTD_ERROR_IPC_WRITE_BUFFER_TYPE_ADD_FAILURE in
  let oval := to_uint8 (htonll (wrap64 val)) in
  add_object (le_enc 1 oval) AGENTD_ERROR_IPC_WRITE_BUFFER_PAYLOAD_ADD_FAILURE.
Definition ipc_write_uint8_noblock (val : Z) : Eff W unit :=
  let* _ := add_object (net32 IPC_DATA_TYPE_UINT8) AGENTD_ERROR_IPC_WRITE_BUFFER_TYPE_ADD_FAILURE in
  let oval := to_uint8 (htonll val) in
  add_object (le_enc 1 oval) AGENTD_ERROR_IPC_WRITE_BUFFER_PAYLOAD_ADD_FAILURE.

Definition ipc_write_string_noblock (val : bytes) : Eff W unit :=
  let* _ := add_object (net32 IPC_DATA_TYPE_STRING) AGENTD_ERROR_IPC_WRITE_BUFFER_TYPE_ADD_FAILURE in
  let size := wrap32 (sizeof val) in
  let* _ := add_object (net32 size) AGENTD_ERROR_IPC_WRITE_BUFFER_SIZE_ADD_FAILURE in
  add_object (take (Z.to_nat size) val) AGENTD_ERROR_IPC_WRITE_BUFFER_PAYLOAD_ADD_FAILURE.

(** The only writer that also starts the transfer; it reports a socket that
    would block as a failure, with the message in the buffer. *)
Definition ipc_write_data_noblock (val : bytes) : Eff W unit :=
  let* _ := add_object (net32 IPC_DATA_TYPE_DATA_PACKET)
              AGENTD_ERROR_IPC_WRITE_BUFFER_TYPE_ADD_FAILURE in
  let* _ := add_object (net32 (sizeof val)) AGENTD_ERROR_IPC_WRITE_BUFFER_SIZE_ADD_FAILURE in
  let* _ := add_object val AGENTD_ERROR_IPC_WRITE_BUFFER_PAYLOAD_ADD_FAILURE in
  let! retval := ipc_socket_write_from_buffer in
  if retval <? 0 then throw AGENTD_ERROR_IPC_WRITE_NONBLOCK_FAILURE else ok tt.

(** The integer readers fill the buffer from the socket first. *)
Definition fill_buffer : Eff W unit :=
  let! '(retval, _) := evbuffer_read in
  if retval <? 0 then throw AGENTD_ERROR_IPC_EVBUFFER_READ_FAILURE else ok tt.

(** Look at the header without removing it. *)
Definition peek (header_sz : nat) : Eff W bytes :=
  let! mem := evbuffer_pullup header_sz in
  match mem with Some b => ok b | None => throw AGENTD_ERROR_IPC_WOULD_BLOCK end.

Definition check_type (expected : Z) (mem : bytes) : Eff W unit :=
  if negb (expected =? ntohl (le_dec (sub 0 4 mem)))
  then throw AGENTD_ERROR_IPC_READ_UNEXPECTED_DATA_TYPE else ok tt.

(** Wait until [n] bytes are buffered. *)
Definition require_length (n : Z) : Eff W unit :=
  let! len := evbuffer_get_length in
  if len <? n then throw AGENTD_ERROR_IPC_WOULD_BLOCK else ok tt.

Definition drain_header (header_sz : nat) : Eff W unit :=
  let! rc := evbuffer_drain header_sz in
  if negb (rc =? 0) then throw AGENTD_ERROR_IPC_READ_BUFFER_DRAIN_FAILURE else ok tt.

Definition remove_value (size : nat) : Eff W bytes :=
  let! '(n, b) := evbuffer_remove size in
  if negb (Z.of_nat size =? n) then throw AGENTD_ERROR_IPC_READ_BUFFER_REMOVE_FAILURE else ok b.

Definition ipc_read_int64_noblock : Eff W Z :=
  let* _ := fill_buffer in
  let* mem := peek 4 in
  let* _ := check_type IPC_DATA_TYPE_INT64 mem in
  let* _ := require_length (8 + 4) in
  let* _ := drain_header 4 in
  let* nval := remove_value 8 in
  ok (to_int64 (ntohll (le_dec nval))).
Definition ipc_read_uint64_noblock : Eff W Z :=
  let* _ := fill_buffer in
  let* mem := peek 4 in
  let* _ := check_type IPC_DATA_TYPE_UINT64 mem in
  let* _ := require_length (8 + 4) in
  let* _ := drain_header 4 in
  let* nval := remove_value 8 in
  ok (ntohll (le_dec nval)).
(** This one does not look at the type. *)
Definition ipc_read_int8_noblock : Eff W Z :=
  let* _ := fill_buffer in
  let* mem := peek 4 in
  let* _ := require_length (1 + 4) in
  let* _ := drain_header 4 in
  let* val := remove_value 1 in
  ok (to_int8 (le_dec val)).
Definition ipc_read_uint8_noblock : Eff W Z :=
  let* _ := fill_buffer in
  let* mem := peek 4 in
  let* _ := check_type IPC_DATA_TYPE_UINT8 mem in
  let* _ := require_length (1 + 4) in
  let* _ := drain_header 4 in
  let* val := remove_value 1 in
  ok (le_dec val).

(** [if (size <= 0 || size >= 1024 * 1024 * 1024)]. *)
Definition packet_size (mem : bytes) : Eff W Z :=
  let size := ntohl (le_dec (sub 4 4 mem)) in
  if (size <=? 0) || (1024 * 1024 * 1024 <=? size)
  then throw AGENTD_ERROR_IPC_READ_UNEXPECTED_DATA_SIZE else ok size.

(** A string is only read from what is buffered.  The result of
    [evbuffer_drain] is compared with the header size, although it is 0 for a
    success. *)
Definition ipc_read_string_noblock : Eff W bytes :=
  let header_sz := (4 + 4)%nat in
  let* mem := peek header_sz in
  let* _ := check_type IPC_DATA_TYPE_STRING mem in
  let* size := packet_size mem in
  let* _ := require_length (size + Z.of_nat header_sz) in
  let! mem := malloc (size + 1) in
  if negb mem then throw AGENTD_ERROR_GENERAL_OUT_OF_MEMORY else
  let! rc := evbuffer_drain header_sz in
  if negb (Z.of_nat header_sz =? rc) then throw AGENTD_ERROR_IPC_READ_BUFFER_DRAIN_FAILURE else
  remove_value (Z.to_nat size).

(** A failed read that would block is not an error here, since a whole packet
    may be buffered already; the end of the stream is. *)
Definition ipc_read_data_noblock : Eff W bytes :=
  let header_sz := (4 + 4)%nat in
  let! '(retval, would_block) := evbuffer_read in
  if (retval <? 0) && negb would_block then throw AGENTD_ERROR_IPC_EVBUFFER_READ_FAILURE
  else if retval =? 0 then throw AGENTD_ERROR_IPC_EVBUFFER_EOF else
  let* mem := peek header_sz in
  let* _ := check_type IPC_DATA_TYPE_DATA_PACKET mem in
  let* size := packet_size mem in
  let* _ := require_length (size + Z.of_nat header_sz) in
  let! mem := malloc size in
  if negb mem then throw AGENTD_ERROR_GENERAL_OUT_OF_MEMORY else
  let* _ := drain_header header_sz in
  remove_value (Z.to_nat size).
End noblock.
