(* ===== verification/IpcSpec.v ===== *)
(** * Messages on a byte stream

    What the functions of [Ipc] promise: every message that is written can be
    read back, in order, by the functions of the same kind. *)

From S2P Require Import Prelude Inet StatusCodes Ipc.

(** ** Messages *)

Inductive message : Type :=
  | msg_int64 (v : Z) | msg_uint64 (v : Z) | msg_int8 (v : Z) | msg_uint8 (v : Z)
  | msg_string (s : bytes) | msg_data (d : bytes).

Inductive kind : Set := int64 | uint64 | int8 | uint8 | string | data.

Definition kind_of (m : message) : kind :=
  match m with
  | msg_int64 _ => int64 | msg_uint64 _ => uint64 | msg_int8 _ => int8 | msg_uint8 _ => uint8
  | msg_string _ => string | msg_data _ => data
  end.

(** The values of the C types, and the sizes a reader accepts. *)
Definition wf_message (m : message) : Prop :=
  match m with
  | msg_int64 v => - 2 ^ 63 ≤ v < 2 ^ 63
  | msg_uint64 v => u64 v
  | msg_int8 v => - 2 ^ 7 ≤ v < 2 ^ 7
  | msg_uint8 v => 0 ≤ v < 2 ^ 8
  | msg_string s => sizeof s ≤ 10 * 1024 * 1024
  | msg_data d => 0 < sizeof d < 2 ^ 30
  end.

(** The wire format. *)
Definition frame (m : message) : bytes :=
  match m with
  | msg_int64 v => be_enc 4 IPC_DATA_TYPE_INT64 ++ be_enc 8 (wrap64 v)
  | msg_uint64 v => be_enc 4 IPC_DATA_TYPE_UINT64 ++ be_enc 8 v
  | msg_int8 v => be_enc 4 IPC_DATA_TYPE_INT8 ++ le_enc 1 (to_uint8 v)
  | msg_uint8 v => be_enc 4 IPC_DATA_TYPE_UINT8 ++ le_enc 1 v
  | msg_string s => be_enc 4 IPC_DATA_TYPE_STRING ++ be_enc 4 (sizeof s) ++ s
  | msg_data d => be_enc 4 IPC_DATA_TYPE_DATA_PACKET ++ be_enc 4 (sizeof d) ++ d
  end.

Definition frames (ms : list message) : bytes := concat (frame <$> ms).

(** ** Integer conversions *)

Lemma to_int64_wrap v : - 2 ^ 63 ≤ v < 2 ^ 63 → to_int64 (wrap64 v) = v.
Proof. unfold to_int64, wrap64. intros. rewrite Zplus_mod_idemp_l, Z.mod_small; lia. Qed.

Lemma to_int8_uint8 v : - 2 ^ 7 ≤ v < 2 ^ 7 → to_int8 (to_uint8 v) = v.
Proof. unfold to_int8, to_uint8. intros. rewrite Zplus_mod_idemp_l, Z.mod_small; lia. Qed.

Lemma wrap64_range v : u64 (wrap64 v).
Proof. apply Z.mod_pos_bound. lia. Qed.

Lemma to_uint8_range v : 0 ≤ to_uint8 v < 2 ^ 8.
Proof. apply Z.mod_pos_bound. lia. Qed.

(** ** Blocking descriptors

    [rx w] are the bytes the peer sends that have not been read yet, [tx w] the
    bytes written so far. *)
Class POSIX_IO_laws (W : Type) `{M : MALLOC W} `{IO : POSIX_IO W} := {
  rx : W → bytes;
  tx : W → bytes;
  law_sys_read : ∀ n w k b w', sys_read n w = ((k, b), w') →
    tx w' = tx w ∧ (k < 0 → rx w' = rx w) ∧
    (0 ≤ k → k ≤ Z.of_nat n ∧ sizeof b = k ∧ rx w = b ++ rx w');
  law_sys_write : ∀ b w k w', sys_write b w = (k, w') →
    rx w' = rx w ∧ (k < 0 → tx w' = tx w) ∧
    (0 ≤ k → k ≤ sizeof b ∧ tx w' = tx w ++ take (Z.to_nat k) b);
  law_io_malloc : ∀ n w b w', malloc n w = (b, w') → rx w' = rx w ∧ tx w' = tx w;
}.

(** Nothing fails for a reason outside the program, and transfers are whole. *)
Record IO_reliable (W : Type) `{LL : POSIX_IO_laws W} : Prop := {
  reliable_sys_read : ∀ n w, (n ≤ length (rx w))%nat → (sys_read n w).1.1 = Z.of_nat n;
  reliable_sys_write : ∀ b w, (sys_write b w).1 = sizeof b;
  reliable_io_malloc : ∀ n w, 0 < n → (malloc n w).1 = true;
}.

Section block.
Context {W : Type} {M : MALLOC W} {IO : POSIX_IO W} {IOL : POSIX_IO_laws W}.

Definition io_faulty : Prop := IO_reliable W → False.

Definition write_block (m : message) : Eff W unit :=
  match m with
  | msg_int64 v => ipc_write_int64_block v
  | msg_uint64 v => ipc_write_uint64_block v
  | msg_int8 v => ipc_write_int8_block v
  | msg_uint8 v => ipc_write_uint8_block v
  | msg_string s => ipc_write_string_block s
  | msg_data d => ipc_write_data_block d
  end.

Definition read_block (k : kind) : Eff W message :=
  match k with
  | int64 => let* v := ipc_read_int64_block in ok (msg_int64 v)
  | uint64 => let* v := ipc_read_uint64_block in ok (msg_uint64 v)
  | int8 => let* v := ipc_read_int8_block in ok (msg_int8 v)
  | uint8 => let* v := ipc_read_uint8_block in ok (msg_uint8 v)
  | string => let* s := ipc_read_string_block in ok (msg_string s)
  | data => let* d := ipc_read_data_block in ok (msg_data d)
  end.

Fixpoint write_messages (ms : list message) : Eff W unit :=
  match ms with
  | [] => ok tt
  | m :: ms => let* _ := write_block m in write_messages ms
  end.

Fixpoint read_messages (ks : list kind) : Eff W (list message) :=
  match ks with
  | [] => ok []
  | k :: ks => let* m := read_block k in let* ms := read_messages ks in ok (m :: ms)
  end.

(** ** Rules for one object *)

Lemma post_write_object b (Q : result unit → W → Prop) w :
  (∀ w', rx w' = rx w → tx w' = tx w ++ b → Q (Ok tt) w') →
  (∀ w', io_faulty → Q (Err AGENTD_ERROR_IPC_WRITE_BLOCK_FAILURE) w') →
  post (write_object b) Q w.
Proof.
  intros Hok Herr. unfold write_object. apply post_act, post_run.
  destruct (sys_write b w) as [k w'] eqn:E. destruct (law_sys_write _ _ _ _ E) as (Hr&_&Hw). simpl.
  destruct (Z.eqb_spec (sizeof b) k) as [<-|Hne]; post_steps.
  - destruct Hw as [_ Hw]; [unfold sizeof; lia|]. apply Hok; [done|].
    unfold sizeof in Hw. by rewrite Hw, Nat2Z.id, take_ge by lia.
  - apply Herr. intros R. apply Hne. by rewrite <- (reliable_sys_write _ R b w), E.
Qed.

Lemma post_read_object n b rest (Q : result bytes → W → Prop) w :
  rx w = b ++ rest → length b = n →
  (∀ w', rx w' = rest → tx w' = tx w → Q (Ok b) w') →
  (∀ w', io_faulty → Q (Err AGENTD_ERROR_IPC_READ_BLOCK_FAILURE) w') →
  post (read_object n) Q w.
Proof.
  intros Hrx Hlen Hok Herr. unfold read_object. apply post_act, post_run.
  destruct (sys_read n w) as [[k b'] w'] eqn:E. destruct (law_sys_read _ _ _ _ _ E) as (Ht&_&Hr). simpl.
  destruct (Z.eqb_spec (Z.of_nat n) k) as [<-|Hne]; post_steps.
  - destruct Hr as (_&Hb'&Hr); [lia|]. unfold sizeof in Hb'. rewrite Hrx in Hr.
    apply app_inj_1 in Hr as [-> ->]; [by apply Hok|lia].
  - apply Herr. intros R. apply Hne.
    rewrite <- (reliable_sys_read _ R n w), E; [done|]. rewrite Hrx, length_app. lia.
Qed.

Lemma post_io_malloc n (Q : bool → W → Prop) w :
  (∀ w', rx w' = rx w → tx w' = tx w → Q true w') →
  (∀ w', n ≤ 0 ∨ io_faulty → Q false w') → post (malloc n) Q w.
Proof.
  intros Ht Hf. apply post_run. destruct (malloc n w) as [b w'] eqn:E.
  destruct (law_io_malloc _ _ _ _ E). destruct b; simpl; [by apply Ht|]. apply Hf.
  destruct (decide (0 < n)) as [Hn|]; [right|left; lia]. intros R.
  pose proof (reliable_io_malloc _ R n w Hn) as H'. by rewrite E in H'.
Qed.

(** ** One message *)

(** The outcome of a writer: the message is on the stream, or the platform
    failed. *)
Definition written (m : message) (w : W) (r : result unit) (w' : W) : Prop :=
  match r with
  | Ok _ => rx w' = rx w ∧ tx w' = tx w ++ frame m
  | Err s => s = AGENTD_ERROR_IPC_WRITE_BLOCK_FAILURE ∧ io_faulty
  end.

Lemma write_block_spec m w : wf_message m → post (write_block m) (written m w) w.
Proof.
  intros Hwf. unfold write_block.
  assert (∀ b, sizeof b ≤ 2 ^ 30 → wrap32 (sizeof b) = sizeof b) as Hsz
    by (intros b Hb; apply Z.mod_small; unfold sizeof in *; lia).
  destruct m; cbn [wf_message] in Hwf;
    unfold ipc_write_int64_block, ipc_write_uint64_block, ipc_write_int8_block,
      ipc_write_uint8_block, ipc_write_string_block, ipc_write_data_block;
    cbv zeta; rewrite ?Hsz, ?net32_be, ?net64_be by lia;
    repeat (apply post_bind || (apply post_write_object; [intros ? ?Hr ?Ht|by split])).
  all: split; [congruence|]; repeat match goal with H : tx _ = _ |- _ => rewrite H; clear H end.
  all: cbn [frame]; rewrite <- ?(assoc_L (++)); try done.
  unfold sizeof. by rewrite Nat2Z.id, take_ge by lia.
Qed.

(** The outcome of a reader. *)
Definition has_read {A} (a : A) (rest : bytes) (w : W) (r : result A) (w' : W) : Prop :=
  match r with
  | Ok a' => a' = a ∧ rx w' = rest ∧ tx w' = tx w
  | Err s => io_faulty
  end.

Lemma read_type_spec t rest w :
  u32 t → rx w = be_enc 4 t ++ rest → post (read_type t) (has_read tt rest w) w.
Proof.
  intros Ht Hrx. unfold read_type. apply post_bind.
  eapply post_read_object; [done|apply length_be_enc| |done]. intros w' Hr' Ht'.
  rewrite ntohl_le_dec, be_dec_enc by (done || apply length_be_enc).
  rewrite Z.eqb_refl. post_steps. done.
Qed.

(** Read the type and go on with the rest of the message. *)
Lemma post_read_typed {A} t rest (k : Eff W A) (Q : result A → W → Prop) w :
  u32 t → rx w = be_enc 4 t ++ rest →
  (∀ w', rx w' = rest → tx w' = tx w → post k Q w') →
  (∀ s w', io_faulty → Q (Err s) w') →
  post (bind (read_type t) (λ _, k)) Q w.
Proof.
  intros Ht Hrx Hok Herr. apply post_bind. eapply post_mono; [by apply read_type_spec|].
  intros [[]|s] w1; [intros (_&?&?); auto|by apply Herr].
Qed.

(** The value of a message with a size, once the size is known to be good. *)
Lemma read_value_spec b rest n w (Q : result bytes → W → Prop) :
  rx w = b ++ rest → 0 < n →
  (∀ w', rx w' = rest → tx w' = tx w → Q (Ok b) w') → (∀ s w', io_faulty → Q (Err s) w') →
  post (let! mem := malloc n in
        if negb mem then throw AGENTD_ERROR_GENERAL_OUT_OF_MEMORY
        else read_object (Z.to_nat (sizeof b))) Q w.
Proof.
  intros Hrx Hn Hok Herr. apply post_act, post_io_malloc.
  - intros w' Hr' Ht'. post_cbn.
    eapply (post_read_object _ b rest); [congruence|unfold sizeof; lia| |auto].
    intros w2 ? ?. apply Hok; congruence.
  - intros w' [?|?]; [lia|]. post_steps. auto.
Qed.

Lemma read_block_spec m rest w :
  wf_message m → rx w = frame m ++ rest → post (read_block (kind_of m)) (has_read m rest w) w.
Proof.
  intros Hwf Hrx. unfold read_block.
  destruct m; cbn [wf_message kind_of frame] in *; rewrite <- ?(assoc_L (++)) in Hrx;
    unfold ipc_read_int64_block, ipc_read_uint64_block, ipc_read_int8_block,
      ipc_read_uint8_block, ipc_read_string_block, ipc_read_data_block;
    apply post_bind; (eapply post_read_typed; [|exact Hrx|intros w1 Hr1 Ht1|done]; [split; by vm_compute|]).
  1-4: apply post_bind; (eapply post_read_object; [done|len| |done]);
    intros w2 Hr2 Ht2; post_steps; (split; [f_equal|split; congruence]).
  - rewrite ntohll_le_dec, be_dec_enc by (apply wrap64_range || apply length_be_enc).
    by apply to_int64_wrap.
  - by rewrite ntohll_le_dec, be_dec_enc by (done || apply length_be_enc).
  - rewrite le_dec_enc by apply to_uint8_range. by apply to_int8_uint8.
  - by rewrite le_dec_enc.
  - apply post_bind. eapply post_read_object; [done|len| |done]. intros w2 Hr2 Ht2.
    rewrite ntohl_le_dec, be_dec_enc by (apply length_be_enc || unfold sizeof in *; lia).
    rewrite (proj2 (Z.ltb_ge _ _)) by done.
    apply (read_value_spec _ rest); [done|unfold sizeof; lia| |done].
    intros w3 Hr3 Ht3. post_steps. split_and!; congruence.
  - apply post_bind. eapply post_read_object; [done|len| |done]. intros w2 Hr2 Ht2.
    rewrite ntohl_le_dec, be_dec_enc by (apply length_be_enc || unfold sizeof in *; lia).
    apply (read_value_spec _ rest); [done|lia| |done].
    intros w3 Hr3 Ht3. post_steps. split_and!; congruence.
Qed.

(** ** Streams of messages *)

(** C29: Messages written one after the other to a blocking descriptor put exactly
    their frames, in order, on the stream, and the peer that reads messages of
    the same kinds from such a stream gets back the same messages and consumes
    exactly their bytes.  Neither fails unless the platform does. *)
Theorem block_stream_roundtrip ms :
  Forall wf_message ms →
  (∀ w, post (write_messages ms) (λ r w',
     match r with
     | Ok _ => rx w' = rx w ∧ tx w' = tx w ++ frames ms
     | Err s => s = AGENTD_ERROR_IPC_WRITE_BLOCK_FAILURE ∧ io_faulty
     end) w) ∧
  (∀ w rest, rx w = frames ms ++ rest →
     post (read_messages (kind_of <$> ms)) (λ r w',
       match r with
       | Ok ms' => ms' = ms ∧ rx w' = rest ∧ tx w' = tx w
       | Err s => io_faulty
       end) w).
Proof.
  induction 1 as [|m ms Hm Hms [IHw IHr]]; split; unfold frames; simpl.
  - intros w. post_steps. by rewrite app_nil_r.
  - intros w rest Hrx. by post_steps.
  - intros w. apply post_bind. eapply post_mono; [by apply write_block_spec|].
    intros [[]|s] w1; [intros [Hr1 Ht1]|done]. eapply post_mono; [apply IHw|].
    intros [[]|s] w2; [intros [Hr2 Ht2]|done]. split; [congruence|].
    by rewrite Ht2, Ht1, <- (assoc_L (++)).
  - intros w rest Hrx. rewrite <- (assoc_L (++)) in Hrx. apply post_bind.
    eapply post_mono; [by apply read_block_spec|]. intros [m'|s] w1; [intros (->&Hr1&Ht1)|done].
    apply post_bind. eapply post_mono; [by apply (IHr w1 rest)|].
    intros [ms'|s] w2; [intros (->&Hr2&Ht2)|done]. post_steps. split_and!; congruence.
Qed.
End block.

(** ** Buffered sockets

    [rbuf w] and [wbuf w] are the contents of the two buffers of the socket,
    [incoming w] what the peer sends that is not in the read buffer yet, and
    [sent w] what has left the write buffer. *)
Record sock_view := SockView { v_rbuf : bytes; v_incoming : bytes; v_wbuf : bytes; v_sent : bytes }.

Class LIBEVENT_laws (W : Type) `{M : MALLOC W} `{EV : LIBEVENT W} := {
  sock : W → sock_view;
  (** A positive result is the number of bytes moved from the socket into the
      buffer, 0 the end of the stream, and a negative one a failure. *)
  law_ev_read : ∀ w k b w', evbuffer_read w = ((k, b), w') →
    (0 < k → ∃ d, sizeof d = k ∧ v_incoming (sock w) = d ++ v_incoming (sock w') ∧
       v_rbuf (sock w') = v_rbuf (sock w) ++ d ∧
       v_wbuf (sock w') = v_wbuf (sock w) ∧ v_sent (sock w') = v_sent (sock w)) ∧
    (k ≤ 0 → sock w' = sock w);
  (** The first [n] bytes, or a null pointer when there are fewer. *)
  law_pullup : ∀ n w m w', evbuffer_pullup n w = (m, w') →
    sock w' = sock w ∧
    ∀ b, m = Some b → (n ≤ length (v_rbuf (sock w)))%nat ∧ b = take n (v_rbuf (sock w));
  law_get_length : ∀ w k w', evbuffer_get_length w = (k, w') →
    sock w' = sock w ∧ k = sizeof (v_rbuf (sock w));
  law_get_write_length : ∀ w k w', evbuffer_get_write_length w = (k, w') →
    sock w' = sock w ∧ k = sizeof (v_wbuf (sock w));
  (** 0 on success, -1 on failure. *)
  law_drain : ∀ n w k w', evbuffer_drain n w = (k, w') →
    (k = 0 ∧ sock w' = SockView (drop n (v_rbuf (sock w))) (v_incoming (sock w))
                         (v_wbuf (sock w)) (v_sent (sock w))) ∨
    (k = -1 ∧ sock w' = sock w);
  (** The number of bytes removed, or -1. *)
  law_remove : ∀ n w k b w', evbuffer_remove n w = ((k, b), w') →
    (k = Z.of_nat (n `min` length (v_rbuf (sock w))) ∧ b = take n (v_rbuf (sock w)) ∧
     sock w' = SockView (drop n (v_rbuf (sock w))) (v_incoming (sock w))
                 (v_wbuf (sock w)) (v_sent (sock w))) ∨
    (k = -1 ∧ sock w' = sock w);
  law_add : ∀ b w k w', evbuffer_add b w = (k, w') →
    (k = 0 ∧ sock w' = SockView (v_rbuf (sock w)) (v_incoming (sock w))
                         (v_wbuf (sock w) ++ b) (v_sent (sock w))) ∨
    (k = -1 ∧ sock w' = sock w);
  (** The number of bytes moved from the buffer to the socket, or -1. *)
  law_ev_write : ∀ w k w', evbuffer_write w = (k, w') →
    (0 ≤ k ∧ sock w' = SockView (v_rbuf (sock w)) (v_incoming (sock w))
       (drop (Z.to_nat k) (v_wbuf (sock w)))
       (v_sent (sock w) ++ take (Z.to_nat k) (v_wbuf (sock w)))) ∨
    (k = -1 ∧ sock w' = sock w);
  law_ev_malloc : ∀ n w b w', malloc n w = (b, w') → sock w' = sock w;
}.

(** The buffer operations and the allocator do not fail. *)
Record EV_reliable (W : Type) `{EVL : LIBEVENT_laws W} : Prop := {
  reliable_pullup : ∀ n w, (n ≤ length (v_rbuf (sock w)))%nat → (evbuffer_pullup n w).1 ≠ None;
  reliable_drain : ∀ n w, (evbuffer_drain n w).1 = 0;
  reliable_remove : ∀ n w, 0 ≤ (evbuffer_remove n w).1.1;
  reliable_add : ∀ b w, (evbuffer_add b w).1 = 0;
  reliable_ev_malloc : ∀ n w, 0 < n → (malloc n w).1 = true;
}.

Section noblock.
Context {W : Type} {M : MALLOC W} {EV : LIBEVENT W} {EVL : LIBEVENT_laws W}.

Definition ev_faulty : Prop := EV_reliable W → False.

(** What the program will still read, and all it has written. *)
Definition instream (w : W) : bytes := v_rbuf (sock w) ++ v_incoming (sock w).
Definition outstream (w : W) : bytes := v_sent (sock w) ++ v_wbuf (sock w).

Definition write_noblock (m : message) : Eff W unit :=
  match m with
  | msg_int64 v => ipc_write_int64_noblock v
  | msg_uint64 v => ipc_write_uint64_noblock v
  | msg_int8 v => ipc_write_int8_noblock v
  | msg_uint8 v => ipc_write_uint8_noblock v
  | msg_string s => ipc_write_string_noblock s
  | msg_data d => ipc_write_data_noblock d
  end.

Lemma post_add_object b err (Q : result unit → W → Prop) w :
  (∀ w', instream w' = instream w → outstream w' = outstream w ++ b → Q (Ok tt) w') →
  (∀ w', instream w' = instream w → outstream w' = outstream w → Q (Err err) w') →
  post (add_object b err) Q w.
Proof.
  intros Hok Herr. unfold add_object. apply post_act, post_run.
  destruct (evbuffer_add b w) as [k w'] eqn:E. unfold instream, outstream in *.
  destruct (law_add _ _ _ _ E) as [[-> Hs]|[-> Hs]]; simpl; post_steps.
  - apply Hok; rewrite Hs; simpl; [done|]. by rewrite (assoc_L (++)).
  - apply Herr; by rewrite Hs.
Qed.

(** A read from the socket in [w] is the end of the stream or an error, other
    than that it would block; a transfer to the socket in [w] is an error. *)
Definition read_fails (w : W) : Prop :=
  let '(k, would_block) := (evbuffer_read w).1 in k = 0 ∨ (k < 0 ∧ would_block = false).
Definition write_fails (w : W) : Prop := (evbuffer_write w).1 < 0.

(** The socket took none of what is queued in [w']: the transfer was tried, and
    failed. *)
Definition transfer_failed (w' : W) : Prop :=
  ∃ w, write_fails w ∧ instream w = instream w' ∧ outstream w = outstream w'.

Lemma post_write_from_buffer (Q : Z → W → Prop) w :
  (∀ k w', instream w' = instream w → outstream w' = outstream w →
     (k < 0 → transfer_failed w') → Q k w') →
  post ipc_socket_write_from_buffer Q w.
Proof.
  intros HQ. apply post_run. unfold ipc_socket_write_from_buffer.
  destruct (evbuffer_write w) as [k w'] eqn:E. simpl.
  assert (instream w' = instream w ∧ outstream w' = outstream w) as [Hi Ho].
  { unfold instream, outstream.
    destruct (law_ev_write _ _ _ E) as [[_ Hs]|[_ Hs]]; rewrite Hs; simpl; [|done].
    by rewrite <- (assoc_L (++)), take_drop. }
  apply HQ; [done..|]. intros Hk. exists w. split; [|done]. unfold write_fails. by rewrite E.
Qed.

(** Whatever has been received, the buffered bytes are its front. *)
Lemma post_peek n (Q : result bytes → W → Prop) w :
  (∀ w', sock w' = sock w → (n ≤ length (v_rbuf (sock w)))%nat →
     Q (Ok (take n (v_rbuf (sock w)))) w') →
  (∀ w', sock w' = sock w → (length (v_rbuf (sock w)) < n)%nat ∨ ev_faulty →
     Q (Err AGENTD_ERROR_IPC_WOULD_BLOCK) w') →
  post (peek n) Q w.
Proof.
  intros Hok Herr. unfold peek. apply post_act, post_run.
  destruct (evbuffer_pullup n w) as [[b|] w'] eqn:E; destruct (law_pullup _ _ _ _ E) as [Hs Hb];
    simpl; post_steps.
  - destruct (Hb b eq_refl) as [? ->]. auto.
  - apply Herr; [done|]. destruct (decide (n ≤ length (v_rbuf (sock w)))%nat); [right|left; lia].
    intros R. by apply (reliable_pullup _ R n w); rewrite ?E.
Qed.

Lemma post_require_length n (Q : result unit → W → Prop) w :
  (∀ w', sock w' = sock w → n ≤ sizeof (v_rbuf (sock w)) → Q (Ok tt) w') →
  (∀ w', sock w' = sock w → sizeof (v_rbuf (sock w)) < n →
     Q (Err AGENTD_ERROR_IPC_WOULD_BLOCK) w') →
  post (require_length n) Q w.
Proof.
  intros Hok Herr. unfold require_length. apply post_act, post_run.
  destruct (evbuffer_get_length w) as [k w'] eqn:E. destruct (law_get_length _ _ _ E) as [Hs ->].
  simpl. apply post_if; intros H; post_steps; [apply Herr|apply Hok]; (done || lia).
Qed.

Lemma post_drain_header n (Q : result unit → W → Prop) w :
  (∀ w', instream w = take n (v_rbuf (sock w)) ++ instream w' → outstream w' = outstream w →
     v_rbuf (sock w') = drop n (v_rbuf (sock w)) → Q (Ok tt) w') →
  (∀ w', sock w' = sock w → ev_faulty → Q (Err AGENTD_ERROR_IPC_READ_BUFFER_DRAIN_FAILURE) w') →
  post (drain_header n) Q w.
Proof.
  intros Hok Herr. unfold drain_header. apply post_act, post_run.
  destruct (evbuffer_drain n w) as [k w'] eqn:E. unfold instream, outstream in *.
  destruct (law_drain _ _ _ _ E) as [[-> Hs]|[-> Hs]]; simpl; post_steps.
  - apply Hok; rewrite Hs; simpl; try done. by rewrite (assoc_L (++)), take_drop.
  - apply Herr; [done|]. intros R. pose proof (reliable_drain _ R n w) as H'. by rewrite E in H'.
Qed.

Lemma post_remove_value n (Q : result bytes → W → Prop) w :
  (n ≤ length (v_rbuf (sock w)))%nat →
  (∀ w', instream w = take n (v_rbuf (sock w)) ++ instream w' → outstream w' = outstream w →
     Q (Ok (take n (v_rbuf (sock w)))) w') →
  (∀ w', sock w' = sock w → ev_faulty → Q (Err AGENTD_ERROR_IPC_READ_BUFFER_REMOVE_FAILURE) w') →
  post (remove_value n) Q w.
Proof.
  intros Hn Hok Herr. unfold remove_value. apply post_act, post_run.
  destruct (evbuffer_remove n w) as [[k b] w'] eqn:E. unfold instream, outstream in *.
  destruct (law_remove _ _ _ _ _ E) as [(->&->&Hs)|[-> Hs]]; simpl.
  - rewrite Nat.min_l, Z.eqb_refl by done. post_steps.
    apply Hok; rewrite Hs; simpl; [|done]. by rewrite (assoc_L (++)), take_drop.
  - replace (Z.of_nat n =? -1) with false by (symmetry; apply Z.eqb_neq; lia). post_steps.
    apply Herr; [done|]. intros R. pose proof (reliable_remove _ R n w) as H'. rewrite E in H'.
    simpl in H'. lia.
Qed.

Lemma post_ev_malloc n (Q : bool → W → Prop) w :
  0 < n → (∀ w', sock w' = sock w → Q true w') → (∀ w', sock w' = sock w → ev_faulty → Q false w') →
  post (malloc n) Q w.
Proof.
  intros Hn Ht Hf. apply post_run. destruct (malloc n w) as [[] w'] eqn:E; simpl.
  - eauto using law_ev_malloc.
  - eapply Hf; [by eapply law_ev_malloc|]. intros R.
    pose proof (reliable_ev_malloc _ R n w Hn) as H'. by rewrite E in H'.
Qed.

(** A read from the socket only moves bytes of the input into the buffer. *)
Lemma post_evbuffer_read (Q : Z * bool → W → Prop) w :
  (∀ k b w', instream w' = instream w → outstream w' = outstream w →
     (k = 0 ∨ (k < 0 ∧ b = false) → read_fails w) → sock w' = sock (evbuffer_read w).2 →
     Q (k, b) w') →
  post evbuffer_read Q w.
Proof.
  intros HQ. apply post_run. destruct (evbuffer_read w) as [[k b] w'] eqn:E. simpl.
  assert (k = 0 ∨ (k < 0 ∧ b = false) → read_fails w) as Hf by (unfold read_fails; by rewrite E).
  assert (sock w' = sock (evbuffer_read w).2) as Ht by (by rewrite E).
  destruct (law_ev_read _ _ _ _ E) as [Hpos Hneg]. unfold instream, outstream in *.
  destruct (decide (0 < k)).
  - destruct Hpos as (d&_&Hi&Hr&Hw&Hs); [done|]. apply HQ; [| |done..].
    + by rewrite Hr, Hi, (assoc_L (++)).
    + by rewrite Hw, Hs.
  - apply HQ; [| |done..]; by rewrite Hneg by lia.
Qed.

(** ** Packets on a buffered socket *)

(** The frame of a data packet that is complete at the front of the buffer. *)
Definition buffered_packet (buf d : bytes) : Prop :=
  0 < sizeof d < 2 ^ 30 ∧ ∃ rest, buf = frame (msg_data d) ++ rest.

Lemma frame_data d : frame (msg_data d) = be_enc 4 IPC_DATA_TYPE_DATA_PACKET ++ be_enc 4 (sizeof d) ++ d.
Proof. done. Qed.

Lemma length_frame_data d : length (frame (msg_data d)) = (8 + length d)%nat.
Proof. rewrite frame_data. len. Qed.

(** The header and a payload of the size in it are a frame. *)
Lemma frame_of_header buf :
  (8 ≤ length buf)%nat → ntohl (le_dec (sub 0 4 buf)) = IPC_DATA_TYPE_DATA_PACKET →
  let size := ntohl (le_dec (sub 4 4 buf)) in
  Z.of_nat 8 + size ≤ sizeof buf →
  buf = frame (msg_data (take (Z.to_nat size) (drop 8 buf))) ++ drop (Z.to_nat size) (drop 8 buf).
Proof.
  intros Hlen Htype size Hsize. unfold sizeof in Hsize.
  assert (0 ≤ size) as Hpos by apply ntohl_u32.
  rewrite frame_data. rewrite <- !(assoc_L (++)), take_drop.
  assert (sizeof (take (Z.to_nat size) (drop 8 buf)) = size) as ->
    by (unfold sizeof; rewrite length_take, length_drop; lia).
  rewrite <- Htype. unfold size.
  assert (length (sub 0 4 buf) = 4%nat ∧ length (sub 4 4 buf) = 4%nat) as [H1 H2]
    by (split; apply length_sub; lia).
  rewrite !ntohl_le_dec by done.
  rewrite !be_enc_dec_length by done.
  by rewrite (sub_drop 4 4), (sub_drop 0 4), drop_0.
Qed.

Definition good_packet (d : bytes) : Prop := wf_message (msg_data d).

(** The header of a frame. *)
Lemma header_of_frame d rest :
  good_packet d →
  ntohl (le_dec (sub 0 4 (frame (msg_data d) ++ rest))) = IPC_DATA_TYPE_DATA_PACKET ∧
  ntohl (le_dec (sub 4 4 (frame (msg_data d) ++ rest))) = sizeof d.
Proof.
  intros [Hpos Hlt]. rewrite frame_data, <- !(assoc_L (++)). split.
  - apply read_net32. split; by vm_compute.
  - rewrite (sub_skip 4 4) by (apply length_be_enc || lia). apply read_net32. split; lia.
Qed.

(** When a frame is at the front of the input and its header is buffered, the
    header of the buffer is the frame's. *)
Lemma buffered_header w d rest :
  good_packet d → instream w = frame (msg_data d) ++ rest → (8 ≤ length (v_rbuf (sock w)))%nat →
  ntohl (le_dec (sub 0 4 (v_rbuf (sock w)))) = IPC_DATA_TYPE_DATA_PACKET ∧
  ntohl (le_dec (sub 4 4 (v_rbuf (sock w)))) = sizeof d.
Proof.
  intros Hd Hin Hlen. pose proof (header_of_frame d rest Hd) as H.
  unfold instream in Hin. rewrite <- Hin, !sub_app_l in H by lia. done.
Qed.

(** Reading one packet from [w]; [down]: the socket could not be read; [tried]: the
    buffers after the read from the socket. *)
Definition packet_outcome (down : Prop) (tried : sock_view) (w : W) (r : result bytes) (w' : W) : Prop :=
  outstream w' = outstream w ∧
  match r with
  | Ok d => good_packet d ∧ instream w = frame (msg_data d) ++ instream w'
  | Err s =>
      (s = AGENTD_ERROR_IPC_READ_BUFFER_REMOVE_FAILURE ∧ ev_faulty) ∨
      instream w' = instream w ∧
      ((s = AGENTD_ERROR_IPC_EVBUFFER_READ_FAILURE ∧ down) ∨
       (s = AGENTD_ERROR_IPC_EVBUFFER_EOF ∧ down) ∨ ev_faulty ∨
       (s = AGENTD_ERROR_IPC_WOULD_BLOCK ∧
        (∀ d rest, good_packet d → v_rbuf (sock w') ≠ frame (msg_data d) ++ rest) ∧ sock w' = tried) ∨
       ((8 ≤ length (instream w))%nat ∧
        ∀ d rest, good_packet d → instream w ≠ frame (msg_data d) ++ rest))
  end.

Lemma sock_streams w w' : sock w' = sock w → instream w' = instream w ∧ outstream w' = outstream w.
Proof. unfold instream, outstream. by intros ->. Qed.

Lemma packet_outcome_from down tried w w1 r w' :
  instream w1 = instream w → outstream w1 = outstream w →
  packet_outcome down tried w1 r w' → packet_outcome down tried w r w'.
Proof. unfold packet_outcome. by intros -> ->. Qed.

(** The failures that lose nothing. *)
Lemma outcome_faulty down tried w s w' : sock w' = sock w → ev_faulty → packet_outcome down tried w (Err s) w'.
Proof. intros [Hi Ho]%sock_streams Hf. split; [done|]. right. auto. Qed.

Lemma outcome_wait down w w' :
  sock w' = sock w →
  (∀ d rest, good_packet d → v_rbuf (sock w) ≠ frame (msg_data d) ++ rest) →
  packet_outcome down (sock w) w (Err AGENTD_ERROR_IPC_WOULD_BLOCK) w'.
Proof.
  intros Hs Hno. destruct (sock_streams _ _ Hs). split; [done|]. right. split; [done|].
  do 3 right; left. by rewrite Hs.
Qed.

Lemma outcome_bad down tried w s w' :
  sock w' = sock w → (8 ≤ length (v_rbuf (sock w)))%nat →
  (∀ d rest, good_packet d → instream w ≠ frame (msg_data d) ++ rest) → packet_outcome down tried w (Err s) w'.
Proof.
  intros [Hi Ho]%sock_streams Hlen Hno. split; [done|]. right. split; [done|]. do 4 right.
  split; [|done]. unfold instream. rewrite length_app. lia.
Qed.

(** The payload, once the header is known to be good. *)
Lemma read_payload_spec down w size :
  size = ntohl (le_dec (sub 4 4 (v_rbuf (sock w)))) →
  (8 ≤ length (v_rbuf (sock w)))%nat → 0 < size < 2 ^ 30 →
  ntohl (le_dec (sub 0 4 (v_rbuf (sock w)))) = IPC_DATA_TYPE_DATA_PACKET →
  post (let* _ := require_length (size + Z.of_nat 8) in
        let! mem := malloc size in
        if negb mem then throw AGENTD_ERROR_GENERAL_OUT_OF_MEMORY else
        let* _ := drain_header 8 in
        remove_value (Z.to_nat size)) (packet_outcome down (sock w) w) w.
Proof.
  intros Hsz Hlen Hsize Htype. apply post_bind, post_require_length; intros w1 Hs1 Hreq.
  2: { apply outcome_wait; [done|]. intros d rest Hd Hbuf.
       destruct (header_of_frame d rest Hd) as [_ E]. rewrite <- Hbuf, <- Hsz in E.
       rewrite Hbuf, E in Hreq. unfold sizeof in *. rewrite length_app, length_frame_data in Hreq. lia. }
  destruct (sock_streams _ _ Hs1) as [Hi1 Ho1]. rewrite <- Hs1 in *.
  apply post_act, post_ev_malloc; [lia| |]; intros w2 Hs2; post_cbn.
  2: { intros Hf. post_steps. apply outcome_faulty; congruence. }
  destruct (sock_streams _ _ Hs2) as [Hi2 Ho2]. rewrite <- Hs2 in *.
  apply post_bind, post_drain_header; intros w3.
  2: { intros Hs3 Hf. apply outcome_faulty; congruence. }
  intros Hi3 Ho3 Hb3. apply post_remove_value; rewrite ?Hb3.
  3: { intros w4 Hs4 Hf. destruct (sock_streams _ _ Hs4). split; [congruence|auto]. }
  - rewrite length_drop. unfold sizeof in Hreq. lia.
  - intros w4 Hi4 Ho4. split; [congruence|].
    pose proof (frame_of_header (v_rbuf (sock w2)) Hlen Htype) as Hf. cbv zeta in Hf.
    rewrite <- Hsz in Hf. specialize (Hf ltac:(lia)).
    set (d := take (Z.to_nat size) (drop 8 (v_rbuf (sock w2)))) in *.
    assert (length d = Z.to_nat size) as Hd
      by (unfold d, sizeof in *; rewrite length_take, length_drop; lia).
    split; [unfold good_packet; cbn [wf_message]; unfold sizeof; lia|].
    rewrite <- Hi1, <- Hi2, Hi3, Hi4, (assoc_L (++)). f_equal.
    replace (take 8 (v_rbuf (sock w2)) ++ d) with (take (8 + length d) (v_rbuf (sock w2)))
      by (rewrite Hd; symmetry; apply take_take_drop).
    by rewrite Hf, <- length_frame_data, take_app_length.
Qed.

Lemma read_data_noblock_spec w : post ipc_read_data_noblock (packet_outcome (read_fails w) (sock (evbuffer_read w).2) w) w.
Proof.
  unfold ipc_read_data_noblock. apply post_act, post_evbuffer_read. intros k b w1 Hi1 Ho1 Hdown Htried.
  apply post_if; intros Hk.
  { apply andb_true_iff in Hk as [Hk%Z.ltb_lt Hb%negb_true_iff]. post_steps. split; [done|]. right. auto 10. }
  apply post_if; intros Hk'.
  { apply Z.eqb_eq in Hk'. post_steps. split; [done|]. right. auto 10. }
  eapply post_mono; [|intros r w'; by apply packet_outcome_from].
  apply post_bind, post_peek; intros w2 Hs2 Hlen.
  2: { destruct Hlen as [Hlen|]; [|by apply outcome_faulty]. rewrite <- Htried. apply outcome_wait; [done|].
       intros d rest _ Hbuf. rewrite Hbuf, length_app, length_frame_data in Hlen. lia. }
  destruct (sock_streams _ _ Hs2) as [Hi2 Ho2].
  unfold check_type. rewrite sub_take by lia. apply post_bind, post_if; intros Ht; post_steps.
  { apply outcome_bad; [done|exact Hlen|]. intros d rest Hd Hin.
    destruct (buffered_header w1 d rest Hd Hin Hlen) as [E _]. by rewrite E in Ht. }
  unfold packet_size. rewrite sub_take by lia. apply post_if; intros Hsz; apply post_ret.
  { apply outcome_bad; [done|exact Hlen|]. intros d rest Hd Hin.
    destruct (buffered_header w1 d rest Hd Hin Hlen) as [_ E]. rewrite E in Hsz. destruct Hd. lia. }
  eapply post_mono; [|intros r w'; by apply packet_outcome_from].
  rewrite <- Htried, <- Hs2 in *. apply read_payload_spec; [done|done|lia|].
  rewrite negb_false_iff, Z.eqb_eq in Ht. done.
Qed.

(** ** Streams of packets *)

Lemma frame_data_inj d d' x y :
  good_packet d → good_packet d' →
  frame (msg_data d) ++ x = frame (msg_data d') ++ y → d = d' ∧ x = y.
Proof.
  intros Hd Hd' Heq.
  destruct (header_of_frame d x Hd) as [_ E]. destruct (header_of_frame d' y Hd') as [_ E'].
  rewrite Heq, E' in E. rewrite !frame_data, <- !(assoc_L (++)), E in Heq.
  apply app_inv_head, app_inv_head, app_inj_1 in Heq; [done|]. unfold sizeof in E. lia.
Qed.

(** What the loop of [dataservice_ipc_read] reads before it stops, and the
    status it stops with (0 after [n] packets). *)
Fixpoint read_packets (n : nat) : Act W (list bytes * Z) :=
  match n with
  | O => ret ([], 0)
  | S n =>
      let! r := ipc_read_data_noblock in
      match r with
      | Err s => ret ([], s)
      | Ok d => let! '(ds, s) := read_packets n in ret (d :: ds, s)
      end
  end.

Definition packets (ds : list bytes) : bytes := frames (msg_data <$> ds).

Lemma packets_cons d ds rest :
  packets (d :: ds) ++ rest = frame (msg_data d) ++ packets ds ++ rest.
Proof.
  unfold packets, frames. by rewrite !fmap_cons, concat_cons, <- (assoc_L (++)).
Qed.

(** C30: Packets are received whole and in order, however the stream is cut into
    reads.  When the input starts with the frames of the packets [ds], then
    reading up to that many times gives a prefix of [ds] and leaves the frames
    of the others; no packet is taken for malformed; and when the reader says it
    must wait, the next packet is not yet complete in the buffer. *)
Theorem noblock_packets_in_order ds rest n w :
  Forall good_packet ds → instream w = packets ds ++ rest → (n ≤ length ds)%nat →
  post (read_packets n) (λ '(got, s) w',
    outstream w' = outstream w ∧ ∃ left, ds = got ++ left ∧
    ((s = AGENTD_ERROR_IPC_READ_BUFFER_REMOVE_FAILURE ∧ ev_faulty) ∨
     instream w' = packets left ++ rest ∧
     (s = 0 ∧ length got = n ∨
      s = AGENTD_ERROR_IPC_EVBUFFER_READ_FAILURE ∨ s = AGENTD_ERROR_IPC_EVBUFFER_EOF ∨
      (s = AGENTD_ERROR_IPC_WOULD_BLOCK ∧
       ∀ d left' r, left = d :: left' → v_rbuf (sock w') ≠ frame (msg_data d) ++ r) ∨
      ev_faulty))) w.
Proof.
  revert ds w. induction n as [|n IH]; intros ds w Hds Hin Hn; simpl.
  { post_steps. split; [done|]. exists ds. split; [done|]. right. auto. }
  destruct ds as [|d ds]; simpl in Hn; [lia|]. inversion_clear Hds as [|?? Hd Hds'].
  rewrite packets_cons in Hin. apply post_act. eapply post_mono; [apply read_data_noblock_spec|].
  intros [d'|s] w1 [Ho1 H1].
  - destruct H1 as [Hd' H1]. rewrite Hin in H1.
    apply frame_data_inj in H1 as [<- Hin1]; [|done..].
    apply post_act. eapply post_mono; [apply (IH ds w1); [done|by symmetry|lia]|].
    intros [got s] w2 (Ho2&left&->&H2). apply post_ret. split; [congruence|].
    exists left. split; [done|]. simpl. naive_solver lia.
  - apply post_ret. split; [done|]. exists (d :: ds). split; [done|].
    destruct H1 as [?|[Hi1 H1]]; [by left|right]. split.
    { by rewrite Hi1, Hin, packets_cons. }
    destruct H1 as [[? _]|[[? _]|[?|[(?&Hno&_)|[_ Hbad]]]]]; [auto..| |]. 2: { by destruct (Hbad d _ Hd Hin). }
    right; right; right; left. split; [done|]. intros d' left' r [= <- <-]. by apply Hno.
Qed.

(** ** Writers *)

(** A message in several parts, appended one after the other. *)
Lemma post_add_part w pre b rest err (k : Eff W unit) (Q : result unit → W → Prop) w1 :
  instream w1 = instream w → outstream w1 = outstream w ++ pre →
  (∀ w2, instream w2 = instream w → outstream w2 = outstream w ++ pre ++ b → post k Q w2) →
  (∀ w2, instream w2 = instream w →
     (∃ sent, sent `prefix_of` pre ++ b ++ rest ∧ outstream w2 = outstream w ++ sent) →
     Q (Err err) w2) →
  post (bind (add_object b err) (λ _, k)) Q w1.
Proof.
  intros Hi Ho Hok Herr. apply post_bind, post_add_object; intros w2 Hi2 Ho2.
  - apply Hok; [congruence|]. by rewrite Ho2, Ho, (assoc_L (++)).
  - apply Herr; [congruence|]. exists pre. split; [by apply prefix_app_r|congruence].
Qed.

Lemma post_add_last w pre b err (Q : result unit → W → Prop) w1 :
  instream w1 = instream w → outstream w1 = outstream w ++ pre →
  (∀ w2, instream w2 = instream w → outstream w2 = outstream w ++ pre ++ b → Q (Ok tt) w2) →
  (∀ w2, instream w2 = instream w →
     (∃ sent, sent `prefix_of` pre ++ b ∧ outstream w2 = outstream w ++ sent) →
     Q (Err err) w2) →
  post (add_object b err) Q w1.
Proof.
  intros Hi Ho Hok Herr. apply post_add_object; intros w2 Hi2 Ho2.
  - apply Hok; [congruence|]. by rewrite Ho2, Ho, (assoc_L (++)).
  - apply Herr; [congruence|]. exists pre. split; [by apply prefix_app_r|congruence].
Qed.

(** One part of a message, with the reason of a failure. *)
Lemma post_add_sure b err (Q : result unit → W → Prop) w :
  (∀ w', instream w' = instream w → outstream w' = outstream w ++ b → Q (Ok tt) w') →
  (∀ w', ev_faulty → instream w' = instream w → outstream w' = outstream w → Q (Err err) w') →
  post (add_object b err) Q w.
Proof.
  intros Hok Herr. unfold add_object. apply post_act, post_run.
  destruct (evbuffer_add b w) as [k w'] eqn:E. unfold instream, outstream in *.
  destruct (law_add _ _ _ _ E) as [[-> Hs]|[-> Hs]]; simpl; post_steps.
  - apply Hok; rewrite Hs; simpl; [done|]. by rewrite (assoc_L (++)).
  - apply Herr; try by rewrite Hs. intros R.
    pose proof (reliable_add _ R b w) as H'. by rewrite E in H'.
Qed.

Lemma write_data_noblock_spec d w :
  sizeof d < 2 ^ 32 →
  post (ipc_write_data_noblock d) (λ r w', instream w' = instream w ∧
    ((r = Ok tt ∨ (r = Err AGENTD_ERROR_IPC_WRITE_NONBLOCK_FAILURE ∧ transfer_failed w')) ∧
     outstream w' = outstream w ++ frame (msg_data d) ∨
     (∃ s, r = Err s) ∧ ev_faulty ∧
     ∃ sent, sent `prefix_of` frame (msg_data d) ∧ outstream w' = outstream w ++ sent)) w.
Proof.
  intros Hd. unfold ipc_write_data_noblock. rewrite !net32_be, frame_data.
  set (t := be_enc 4 IPC_DATA_TYPE_DATA_PACKET). set (n := be_enc 4 (sizeof d)).
  apply post_bind, post_add_sure; intros w1; [intros Hi1 Ho1|intros Hf Hi1 Ho1].
  2: { split; [done|right]. split_and!; [eauto|done|]. exists []. rewrite app_nil_r.
       split; [apply prefix_nil|done]. }
  apply post_bind, post_add_sure; intros w2; [intros Hi2 Ho2|intros Hf Hi2 Ho2].
  2: { split; [congruence|right]. split_and!; [eauto|done|]. exists t. split; [by apply prefix_app_r|congruence]. }
  apply post_bind, post_add_sure; intros w3; [intros Hi3 Ho3|intros Hf Hi3 Ho3].
  2: { split; [congruence|right]. split_and!; [eauto|done|]. exists (t ++ n).
       split; [|by rewrite Ho3, Ho2, Ho1, (assoc_L (++))]. rewrite (assoc_L (++)). by apply prefix_app_r. }
  apply post_act, post_write_from_buffer. intros k w4 Hi4 Ho4 Hdown.
  apply post_if; intros Hk; post_steps; (split; [congruence|left]; split;
    [|by rewrite Ho4, Ho3, Ho2, Ho1, <- !(assoc_L (++))]); [right|by left].
  split; [done|]. by apply Hdown, Z.ltb_lt.
Qed.

(** The non-blocking writers of 64-bit integers, strings and data packets
    append exactly the frame of the message to what is sent; nothing is lost or
    reordered.  A data packet is queued as a whole also when the attempt to
    transfer it fails, and after any other failure what was appended is the
    front of the frame. *)
Theorem noblock_write_spec m w :
  wf_message m → (∀ v, m ≠ msg_int8 v ∧ m ≠ msg_uint8 v) →
  post (write_noblock m) (λ r w', instream w' = instream w ∧
    match r with
    | Ok _ => outstream w' = outstream w ++ frame m
    | Err s =>
        (s = AGENTD_ERROR_IPC_WRITE_NONBLOCK_FAILURE ∧ outstream w' = outstream w ++ frame m) ∨
        (∃ sent, sent `prefix_of` frame m ∧ outstream w' = outstream w ++ sent)
    end) w.
Proof.
  intros Hwf Hno.
  assert (∀ b, sizeof b ≤ 2 ^ 30 → wrap32 (sizeof b) = sizeof b) as Hsz
    by (intros b Hb; apply Z.mod_small; unfold sizeof in *; lia).
  assert (outstream w = outstream w ++ []) as Ho0 by (by rewrite app_nil_r).
  unfold write_noblock. destruct m as [v|v|v|v|s|d]; cbn [wf_message] in Hwf;
    try (exfalso; destruct (Hno v) as [H1 H2]; first [by apply H1|by apply H2]);
    unfold ipc_write_int64_noblock, ipc_write_uint64_noblock, ipc_write_string_noblock,
      ipc_write_data_noblock; cbv zeta; rewrite ?net32_be, ?net64_be; cbn [frame].
  3: rewrite Hsz by lia; replace (take (Z.to_nat (sizeof s)) s) with s
       by (unfold sizeof; by rewrite Nat2Z.id, take_ge).
  1-3: do 2 (try (eapply post_add_part; [done|eassumption| |by eauto]; intros ? ? ?)).
  1-3: eapply post_add_last; [done|eassumption| |by eauto]; intros ? ? ?; by split.
  eapply post_add_part; [done|eassumption| |by eauto]; intros w1 Hi1 Ho1.
  eapply post_add_part; [done|eassumption| |by eauto]; intros w2 Hi2 Ho2.
  apply post_bind. eapply post_add_last; [done|eassumption| |by eauto]; intros w3 Hi3 Ho3.
  apply post_act, post_write_from_buffer. intros k w4 Hi4 Ho4 _.
  apply post_if; intros _; post_steps; (split; [congruence|]); [left; split; [done|]|];
    rewrite Ho4, Ho3; done.
Qed.
(** The value of a non-blocking write of an 8-bit integer is lost: the low byte
    of the 64-bit value in network order is its top byte, which is the zero, or
    sign, extension. *)
Lemma ipc_write_uint8_noblock_value v :
  0 ≤ v < 2 ^ 8 → ipc_write_uint8_noblock v = ipc_write_uint8_noblock 0.
Proof.
  intros Hv. unfold ipc_write_uint8_noblock. do 2 f_equal.
  assert (to_uint8 (htonll v) = to_uint8 (htonll 0)) as ->; [|done].
  assert (forallb (λ n, to_uint8 (htonll (Z.of_nat n)) =? to_uint8 (htonll 0)) (seq 0 256) = true)
    as H by (by vm_compute).
  rewrite forallb_forall in H. apply Z.eqb_eq. rewrite <- (Z2Nat.id v) by lia.
  apply H, in_seq. lia.
Qed.

(** Running to a failure. *)
Definition fails {A} (m : Eff W A) : Prop := ∀ w, ∃ s, (m w).1 = Err s.

Lemma fails_act {A B} (m : Act W A) (k : A → Eff W B) : (∀ a, fails (k a)) → fails (act m k).
Proof. intros Hk w. unfold act. destruct (m w) as [a w']. apply Hk. Qed.

Lemma fails_bind {A B} (m : Eff W A) (k : A → Eff W B) : (∀ a, fails (k a)) → fails (bind m k).
Proof. intros Hk. apply fails_act. intros [a|s]; [apply Hk|]. intros w. by exists s. Qed.

(** The non-blocking string reader never succeeds: a drain returns 0 or -1, never
    the size of the header. *)
Lemma ipc_read_string_noblock_fails : fails ipc_read_string_noblock.
Proof.
  unfold ipc_read_string_noblock. do 4 (apply fails_bind; intros ?).
  apply fails_act. intros [|]; cbn [negb]; [|intros w; by eexists].
  intros w. unfold act. destruct (evbuffer_drain (4 + 4) w) as [k w'] eqn:E.
  destruct (law_drain _ _ _ _ E) as [[-> _]|[-> _]]; by eexists.
Qed.
End noblock.
