(* ===== verification/CodecExamples.v ===== *)
(** * Messages on a concrete platform

    A platform on which nothing fails, whose descriptor and socket are byte
    strings, and witnesses of the theorems of [RequestSpec], [ResponseSpec] and
    [IpcSpec] on it. *)

From S2P Require Import Prelude Inet StatusCodes Contexts Lmdb Records Sim RequestCodec RequestSpec ResponseCodec ResponseSpec Ipc IpcSpec.

#[local] Existing Instance sim_ok.

(** ** The platform *)

Record io_world := IoWorld { io_rx : bytes; io_tx : bytes; io_sock : sock_view }.

Definition set_sock (w : io_world) (s : sock_view) : io_world := IoWorld (io_rx w) (io_tx w) s.

#[local] Instance io_malloc : MALLOC io_world := {| malloc := λ n w, (true, w) |}.

#[local] Instance io_vccrypt : VCCRYPT_BUFFER io_world := {|
  vccrypt_buffer_init := λ n w, ((0, replicate n Byte.x00), w);
  allocate := λ n w, (true, w);
|}.

#[local] Instance io_vccrypt_laws : VCCRYPT_BUFFER_laws io_world.
Proof. split. intros n w b w' [= <- _]. apply length_replicate. Qed.

#[local] Instance io_posix : POSIX_IO io_world := {|
  sys_read := λ n w,
    let b := take n (io_rx w) in
    ((sizeof b, b), IoWorld (drop n (io_rx w)) (io_tx w) (io_sock w));
  sys_write := λ b w, (sizeof b, IoWorld (io_rx w) (io_tx w ++ b) (io_sock w));
|}.

#[local, refine] Instance io_posix_laws : POSIX_IO_laws io_world := {| rx := io_rx; tx := io_tx |}.
Proof.
  - intros n w k b w' [= <- <- <-]. simpl. split_and!; [done|unfold sizeof; lia|].
    intros _. rewrite take_drop. split_and!; [|done|done]. unfold sizeof. rewrite length_take. lia.
  - intros b w k w' [= <- <-]. simpl. split_and!; [done|unfold sizeof; lia|].
    intros _. split; [done|]. unfold sizeof. by rewrite Nat2Z.id, take_ge.
  - intros n w b w' [= <- <-]. done.
Defined.

(** Reading from the socket takes everything that has come; an empty socket
    would block. *)
#[local] Instance io_libevent : LIBEVENT io_world := {|
  evbuffer_read := λ w,
    let '(SockView r i o s) := io_sock w in
    match i with
    | [] => ((-1, true), w)
    | _ => ((sizeof i, false), set_sock w (SockView (r ++ i) [] o s))
    end;
  evbuffer_pullup := λ n w,
    let r := v_rbuf (io_sock w) in
    (if (n <=? length r)%nat then Some (take n r) else None, w);
  evbuffer_get_length := λ w, (sizeof (v_rbuf (io_sock w)), w);
  evbuffer_drain := λ n w,
    let '(SockView r i o s) := io_sock w in (0, set_sock w (SockView (drop n r) i o s));
  evbuffer_remove := λ n w,
    let '(SockView r i o s) := io_sock w in
    ((Z.of_nat (n `min` length r), take n r), set_sock w (SockView (drop n r) i o s));
  evbuffer_add := λ b w,
    let '(SockView r i o s) := io_sock w in (0, set_sock w (SockView r i (o ++ b) s));
  evbuffer_write := λ w,
    let '(SockView r i o s) := io_sock w in (sizeof o, set_sock w (SockView r i [] (s ++ o)));
  evbuffer_get_write_length := λ w, (sizeof (v_wbuf (io_sock w)), w);
|}.

#[local, refine] Instance io_libevent_laws : LIBEVENT_laws io_world := {| sock := io_sock |}.
Proof.
  all: intros; destruct w as [rx0 tx0 [r i o s]]; simpl in *; simplify_eq/=; try done.
  - destruct i as [|b0 i]; simplify_eq/=; [split; [lia|done]|].
    split; [|unfold sizeof; simpl; lia]. intros _. exists (b0 :: i). split_and!; try done.
    by rewrite app_nil_r.
  - split; [done|]. intros b. destruct (Nat.leb_spec n (length r)); [|done]. by intros [= <-].
  - left. split; done.
  - left. split_and!; done.
  - left. split; done.
  - left. split; [unfold sizeof; lia|]. unfold sizeof. by rewrite Nat2Z.id, drop_ge, take_ge.
Defined.

(** ** Streams of messages *)

Definition ex_packet : bytes := [Byte.x01; Byte.x02; Byte.x03].
Definition ex_messages : list message :=
  [msg_int64 (-5); msg_uint64 77; msg_int8 (-1); msg_uint8 200; msg_string ex_packet;
   msg_data ex_packet].

Lemma block_stream_roundtrip_witness :
  (∀ w, post (write_messages ex_messages) (λ r w',
     match r with
     | Ok _ => rx w' = rx w ∧ tx w' = tx w ++ frames ex_messages
     | Err s => s = AGENTD_ERROR_IPC_WRITE_BLOCK_FAILURE ∧ io_faulty
     end) w) ∧
  (∀ w rest, rx w = frames ex_messages ++ rest →
     post (read_messages (kind_of <$> ex_messages)) (λ r w',
       match r with
       | Ok ms' => ms' = ex_messages ∧ rx w' = rest ∧ tx w' = tx w
       | Err s => io_faulty
       end) w).
Proof.
  apply (block_stream_roundtrip (W := io_world)).
  repeat constructor; by vm_compute.
Defined.

Definition ex_socket (incoming : bytes) : io_world := IoWorld [] [] (SockView [] incoming [] []).

Lemma noblock_packets_in_order_witness :
  let ds := [ex_packet; [Byte.xff]] in
  let w := ex_socket (packets ds) in
  post (read_packets 1) (λ '(got, s) w',
    outstream w' = outstream w ∧ ∃ left, ds = got ++ left ∧
    ((s = AGENTD_ERROR_IPC_READ_BUFFER_REMOVE_FAILURE ∧ ev_faulty) ∨
     instream w' = packets left ++ [] ∧
     (s = 0 ∧ length got = 1%nat ∨
      s = AGENTD_ERROR_IPC_EVBUFFER_READ_FAILURE ∨ s = AGENTD_ERROR_IPC_EVBUFFER_EOF ∨
      (s = AGENTD_ERROR_IPC_WOULD_BLOCK ∧
       ∀ d left' r, left = d :: left' → v_rbuf (sock w') ≠ frame (msg_data d) ++ r) ∨
      ev_faulty))) w.
Proof.
  apply (noblock_packets_in_order (W := io_world)).
  - repeat constructor; by vm_compute.
  - by vm_compute.
  - simpl; lia.
Defined.

Lemma noblock_write_spec_witness :
  let w := ex_socket [] in
  post (write_noblock (msg_data ex_packet)) (λ r w', instream w' = instream w ∧
    match r with
    | Ok _ => outstream w' = outstream w ++ frame (msg_data ex_packet)
    | Err s =>
        (s = AGENTD_ERROR_IPC_WRITE_NONBLOCK_FAILURE ∧
         outstream w' = outstream w ++ frame (msg_data ex_packet)) ∨
        (∃ sent, sent `prefix_of` frame (msg_data ex_packet) ∧ outstream w' = outstream w ++ sent)
    end) w.
Proof.
  apply (noblock_write_spec (W := io_world)).
  - by vm_compute.
  - intros v. split; discriminate.
Defined.

(** Nothing fails on this platform. *)
Lemma io_reliable : IO_reliable io_world.
Proof.
  split; simpl; intros; [|done|done]. unfold sizeof. rewrite length_take. lia.
Qed.

Lemma ev_reliable : EV_reliable io_world.
Proof.
  split; simpl; intros; try destruct (io_sock w) as [r i o s]; simpl; try done.
  - by rewrite (proj2 (Nat.leb_le _ _)).
  - lia.
Qed.

(** ** Requests and responses *)

Definition ex_uuid (b : byte) : bytes := replicate 16 b.
Definition ex_request : api_request :=
  transaction_submit {|
  ts_child_index := 3; ts_txn_id := ex_uuid Byte.x01; ts_artifact_id := ex_uuid Byte.x02;
  ts_cert := ex_packet |}.

Lemma request_roundtrip_witness :
  post (encode_request ex_request) (λ enc _,
    match enc with
    | Ok packet =>
        ∃ payload, dispatch_header packet = Ok (request_method ex_request, payload) ∧
        ∀ w2, post (decode_request (request_method ex_request) payload)
          (λ d _, d = Ok ex_request ∨
             (∃ d', ex_request = root_context_create d') ∧
             d = Err AGENTD_ERROR_GENERAL_OUT_OF_MEMORY) w2
    | Err s => s ≠ 0 ∧ s = (vccrypt_buffer_init (length (request_packet ex_request)) (ex_socket [])).1.1
    end) (ex_socket []).
Proof. apply (request_roundtrip (W := io_world)). split_and!; (done || by vm_compute). Defined.

Lemma response_roundtrip_witness :
  let a := answer_block (BlockNode (ex_uuid Byte.x05) zero_uuid ff_uuid (ex_uuid Byte.x07) 1 3)
             ex_packet true in
  post (encode_answer (W := sim_world) a) (λ r _,
    match r with
    | Ok payload =>
        decode_response (answer_method a) (status_packet (answer_method a) 2 0 payload)
        = Ok (ResponseHeader (answer_method a) 2 0, client_sees a)
    | Err s => s = AGENTD_ERROR_GENERAL_OUT_OF_MEMORY
    end) sim_empty.
Proof.
  apply (response_roundtrip (W := sim_world)); [|by vm_compute].
  split; [|by vm_compute]. split; by vm_compute.
Defined.

Lemma failure_roundtrip_witness :
  let m := DATASERVICE_API_METHOD_APP_BLOCK_READ in
  let s := AGENTD_ERROR_DATASERVICE_NOT_FOUND in
  decode_response m (status_packet m 2 s None) = Ok (ResponseHeader m 2 s, client_sees_failure m).
Proof.
  apply failure_roundtrip; [|by vm_compute..|done].
  apply (bool_decide_unpack _). by vm_compute.
Defined.
