(* ===== verification/AuthedIpc.v ===== *)
(** * The crypto suite and authenticated packets

    The functions of the vccrypt library that the agent uses, and the packets of the
    message layer that are encrypted and authenticated with them. *)

From S2P Require Import Prelude Inet StatusCodes Lmdb RequestCodec Ipc.

(** The key sizes of the crypto suite, and the allocation of its key buffers: the
    status, and the buffer. *)
Class KEY_BUFFERS (W : Type) := {
  key_cipher_public_key_size : nat;
  key_cipher_private_key_size : nat;
  sign_public_key_size : nat;
  sign_private_key_size : nat;
  vccrypt_suite_buffer_init_for_cipher_key_agreement_public_key : Act W (Z * bytes);
  vccrypt_suite_buffer_init_for_cipher_key_agreement_private_key : Act W (Z * bytes);
  vccrypt_suite_buffer_init_for_signature_public_key : Act W (Z * bytes);
  vccrypt_suite_buffer_init_for_signature_private_key : Act W (Z * bytes);
}.

(** Key agreement.  The nonces and the shared secret have sizes of their own. *)
Class KEY_AGREEMENT (W : Type) := {
  nonce_size : nat;
  VCCRYPT_SUITE_VELO_V1 : Z;
  vccrypt_suite_buffer_init_for_cipher_key_agreement_nonce : Act W (Z * bytes);
  vccrypt_suite_buffer_init_for_cipher_key_agreement_shared_secret : Act W (Z * bytes);
  vccrypt_suite_cipher_key_agreement_init : Act W Z;
  (** The private key, the public key of the other side, and the nonces of the
      server and of the client. *)
  vccrypt_key_agreement_short_term_secret_create : bytes → bytes → bytes → bytes → Act W (Z * bytes);
  vccrypt_suite_prng_init : Act W Z;
  vccrypt_prng_read : nat → Act W (Z * bytes);
}.

(** ** Authenticated packets

    [ipc_write_authed_data_{block,noblock}.c] and
    [ipc_read_authed_data_{block,noblock}.c]: what the agent and its clients
    exchange once they share a secret.  A packet is an encrypted type and size, a
    message authentication code, and an encrypted payload.  The cipher and the
    code are those of the vccrypt library. *)

Definition IPC_DATA_TYPE_AUTHED_PACKET : Z := 0x30.

(** ** The crypto suite

    A status of 0 is success.  The contexts are opaque values: a call that
    changes one returns it. *)
Class VCCRYPT_SUITE (W : Type) := {
  stream_context : Type;
  mac_context : Type;
  (** [suite->mac_short_opts.mac_size] *)
  mac_size : nat;
  vccrypt_suite_stream_init : bytes → Act W (Z * stream_context);
  vccrypt_suite_mac_short_init : bytes → Act W (Z * mac_context);
  (** The initialization vector, and the position in the stream. *)
  vccrypt_stream_continue_encryption : stream_context → bytes → nat → Act W (Z * stream_context);
  vccrypt_stream_continue_decryption : stream_context → bytes → nat → Act W (Z * stream_context);
  vccrypt_stream_encrypt : stream_context → bytes → Act W (Z * (bytes * stream_context));
  vccrypt_stream_decrypt : stream_context → bytes → Act W (Z * (bytes * stream_context));
  vccrypt_mac_digest : mac_context → bytes → Act W (Z * mac_context);
  vccrypt_mac_finalize : mac_context → Act W (Z * bytes);
  crypto_memcmp : bytes → bytes → Z;
}.

(** [evbuffer_read] with a limit on the number of bytes. *)
Class EVBUFFER_READ_LIMIT (W : Type) := { evbuffer_read_limit : Z → Act W Z }.

Section authed.
Context {W : Type} {M : MALLOC W} {VB : VCCRYPT_BUFFER W} {VS : VCCRYPT_SUITE W}.

Definition init_buffer (size : nat) : Eff W bytes :=
  let! '(retval, b) := vccrypt_buffer_init size in
  if negb (retval =? 0) then throw AGENTD_ERROR_GENERAL_OUT_OF_MEMORY else ok b.

Definition crypto {A} (m : Act W (Z * A)) : Eff W A :=
  let! '(retval, a) := m in
  if negb (retval =? 0) then throw AGENTD_ERROR_IPC_CRYPTO_FAILURE else ok a.

(** ** Writing *)

(** The packet that both writers build.  [vccrypt_stream_encrypt] writes at the
    offset and advances it; for the payload the pointer is advanced by the size
    of the digest. *)
Definition authed_packet_create (iv val secret : bytes) : Eff W bytes :=
  let type := net32 IPC_DATA_TYPE_AUTHED_PACKET in
  let nsize := net32 (sizeof val) in
  let* digest := init_buffer mac_size in
  let packet_size := (length type + length nsize + length digest + length val)%nat in
  let* packet := init_buffer packet_size in
  let* stream := crypto (vccrypt_suite_stream_init secret) in
  let* mac := crypto (vccrypt_suite_mac_short_init secret) in
  let* stream := crypto (vccrypt_stream_continue_encryption stream iv 0) in
  let* '(c, stream) := crypto (vccrypt_stream_encrypt stream type) in
  let packet := splice 0 c packet in
  let* '(c, stream) := crypto (vccrypt_stream_encrypt stream nsize) in
  let packet := splice (length type) c packet in
  let header_size := (length type + length nsize)%nat in
  let* '(c, stream) := crypto (vccrypt_stream_encrypt stream val) in
  let packet := splice (length digest + header_size) c packet in
  let* mac := crypto (vccrypt_mac_digest mac (sub 0 header_size packet)) in
  let* mac := crypto (vccrypt_mac_digest mac (sub (header_size + length digest) (length val) packet)) in
  let* digest := crypto (vccrypt_mac_finalize mac) in
  ok (splice header_size digest packet).

Definition ipc_write_authed_data_block `{IO : POSIX_IO W} (iv : Z) (val secret : bytes) : Eff W unit :=
  let* packet := authed_packet_create (le_enc 8 iv) val secret in
  let! n := sys_write packet in
  if negb (sizeof packet =? n) then throw AGENTD_ERROR_IPC_WRITE_BLOCK_FAILURE else ok tt.

Definition ipc_write_authed_data_noblock `{EV : LIBEVENT W} (iv : Z) (val secret : bytes)
  : Eff W unit :=
  let* packet := authed_packet_create (le_enc 8 iv) val secret in
  add_object packet AGENTD_ERROR_IPC_WRITE_BUFFER_PAYLOAD_ADD_FAILURE.

(** ** Reading *)

Definition dheader_size : nat := 4 + 4.
Definition header_size : nat := 4 + 4 + mac_size.

(** Decrypt the type and the size of a packet: they must make sense. *)
Definition authed_header_read (iv secret header : bytes)
  : Eff W (stream_context * mac_context * Z) :=
  let* stream := crypto (vccrypt_suite_stream_init secret) in
  let* mac := crypto (vccrypt_suite_mac_short_init secret) in
  let* stream := crypto (vccrypt_stream_continue_decryption stream iv 0) in
  let* '(dheader, stream) := crypto (vccrypt_stream_decrypt stream (sub 0 dheader_size header)) in
  if negb (IPC_DATA_TYPE_AUTHED_PACKET =? ntohl (le_dec (sub 0 4 dheader)))
  then throw AGENTD_ERROR_IPC_UNAUTHORIZED_PACKET else
  let size := ntohl (le_dec (sub 4 4 dheader)) in
  if 10 * 1024 * 1024 <? size then throw AGENTD_ERROR_IPC_UNAUTHORIZED_PACKET
  else ok (stream, mac, size).

(** Compare the code of the encrypted bytes with the one in the header. *)
Definition authed_packet_verify (mac : mac_context) (header payload : bytes) : Eff W unit :=
  let* mac := crypto (vccrypt_mac_digest mac (sub 0 dheader_size header)) in
  let* mac := crypto (vccrypt_mac_digest mac payload) in
  let* digest := init_buffer mac_size in
  let* digest := crypto (vccrypt_mac_finalize mac) in
  if negb (crypto_memcmp digest (sub dheader_size (length digest) header) =? 0)
  then throw AGENTD_ERROR_IPC_UNAUTHORIZED_PACKET else ok tt.

(** Decrypt the payload, which follows the header in the stream. *)
Definition authed_payload_read (stream : stream_context) (iv payload : bytes) : Eff W bytes :=
  let! mem := malloc (sizeof payload) in
  if negb mem then throw AGENTD_ERROR_GENERAL_OUT_OF_MEMORY else
  let* stream := crypto (vccrypt_stream_continue_decryption stream iv dheader_size) in
  let* '(val, _) := crypto (vccrypt_stream_decrypt stream payload) in
  ok val.

Definition ipc_read_authed_data_block `{IO : POSIX_IO W} (iv : Z) (secret : bytes) : Eff W bytes :=
  let iv := le_enc 8 iv in
  let* _ := init_buffer header_size in
  let* _ := init_buffer dheader_size in
  let* header := read_object header_size in
  let* '(stream, mac, size) := authed_header_read iv secret header in
  let* _ := init_buffer (Z.to_nat size) in
  let* payload := read_object (Z.to_nat size) in
  let* _ := authed_packet_verify mac header payload in
  authed_payload_read stream iv payload.

(** Make sure that [n] bytes are buffered, reading at most the missing ones.
    [eof] tells whether the end of the stream is looked for. *)
Definition fill_to `{EV : LIBEVENT W} `{ER : EVBUFFER_READ_LIMIT W} (eof : bool) (n : Z)
  : Eff W unit :=
  let! buffer_size := evbuffer_get_length in
  if buffer_size <? n then
    let needed_bytes := n - buffer_size in
    let! retval := evbuffer_read_limit needed_bytes in
    if retval <? 0 then throw AGENTD_ERROR_IPC_EVBUFFER_READ_FAILURE
    else if eof && (retval =? 0) then throw AGENTD_ERROR_IPC_EVBUFFER_EOF
    else if retval <? needed_bytes then throw AGENTD_ERROR_IPC_WOULD_BLOCK
    else ok tt
  else ok tt.

Definition ipc_read_authed_data_noblock `{EV : LIBEVENT W} `{ER : EVBUFFER_READ_LIMIT W}
    (iv : Z) (secret : bytes) : Eff W bytes :=
  let iv := le_enc 8 iv in
  let* _ := fill_to true (Z.of_nat header_size) in
  let* _ := init_buffer dheader_size in
  let* header := peek header_size in
  let* '(stream, mac, size) := authed_header_read iv secret header in
  let packet_size := Z.of_nat header_size + size in
  let* _ := fill_to false packet_size in
  let* packet := peek (Z.to_nat packet_size) in
  let payload := sub header_size (Z.to_nat size) packet in
  let* _ := authed_packet_verify mac packet payload in
  let* val := authed_payload_read stream iv payload in
  let* _ := drain_header (Z.to_nat packet_size) in
  ok val.
End authed.
