(* ===== verification/AuthedSpec.v ===== *)
(** * What the authenticated packets promise

    A packet is the only byte string that the readers accept for its payload,
    and what a writer sends, the reader on the other side gets.  The laws of the
    crypto suite: the stream cipher is a permutation of the byte strings of each
    length, the code a function of the key and the bytes. *)

From S2P Require Import Prelude Inet StatusCodes Lmdb RequestCodec Ipc IpcSpec AuthedIpc.

(** ** The laws of the suite

    [cipher key iv pos] and [decipher key iv pos] work at a position of the
    stream.  [view] is the part of the world that the suite does not touch: the
    descriptor or the socket. *)
Class VCCRYPT_SUITE_laws {W V : Type} (view : W → V)
    `{M : MALLOC W} `{VB : VCCRYPT_BUFFER W} `{VS : VCCRYPT_SUITE W} := {
  cipher : bytes → bytes → nat → bytes → bytes;
  decipher : bytes → bytes → nat → bytes → bytes;
  mac_of : bytes → bytes → bytes;
  law_cipher_length : ∀ k iv p b, length (cipher k iv p b) = length b;
  law_cipher_app : ∀ k iv p a b,
    cipher k iv p (a ++ b) = cipher k iv p a ++ cipher k iv (p + length a) b;
  law_decipher_cipher : ∀ k iv p b, decipher k iv p (cipher k iv p b) = b;
  law_cipher_decipher : ∀ k iv p b, cipher k iv p (decipher k iv p b) = b;
  law_mac_length : ∀ k b, length (mac_of k b) = mac_size;
  (** What the contexts hold. *)
  stream_key : stream_context → bytes;
  stream_at : stream_context → bytes * nat;
  mac_key : mac_context → bytes;
  mac_data : mac_context → bytes;
  law_stream_init : ∀ k w c w', vccrypt_suite_stream_init k w = ((0, c), w') → stream_key c = k;
  law_mac_init : ∀ k w c w', vccrypt_suite_mac_short_init k w = ((0, c), w') →
    mac_key c = k ∧ mac_data c = [];
  law_continue_encryption : ∀ c iv p w c' w',
    vccrypt_stream_continue_encryption c iv p w = ((0, c'), w') →
    stream_key c' = stream_key c ∧ stream_at c' = (iv, p);
  law_continue_decryption : ∀ c iv p w c' w',
    vccrypt_stream_continue_decryption c iv p w = ((0, c'), w') →
    stream_key c' = stream_key c ∧ stream_at c' = (iv, p);
  law_encrypt : ∀ c b w e c' w', vccrypt_stream_encrypt c b w = ((0, (e, c')), w') →
    e = cipher (stream_key c) (stream_at c).1 (stream_at c).2 b ∧
    stream_key c' = stream_key c ∧ stream_at c' = ((stream_at c).1, (stream_at c).2 + length b)%nat;
  law_decrypt : ∀ c b w e c' w', vccrypt_stream_decrypt c b w = ((0, (e, c')), w') →
    e = decipher (stream_key c) (stream_at c).1 (stream_at c).2 b ∧
    stream_key c' = stream_key c ∧ stream_at c' = ((stream_at c).1, (stream_at c).2 + length b)%nat;
  law_mac_digest : ∀ c b w c' w', vccrypt_mac_digest c b w = ((0, c'), w') →
    mac_key c' = mac_key c ∧ mac_data c' = mac_data c ++ b;
  law_mac_finalize : ∀ c w d w', vccrypt_mac_finalize c w = ((0, d), w') →
    d = mac_of (mac_key c) (mac_data c);
  law_memcmp : ∀ a b, length a = length b → crypto_memcmp a b = 0 ↔ a = b;
  law_authed_buffer : ∀ n w b w', vccrypt_buffer_init n w = ((0, b), w') → length b = n;
  (** Nothing of this touches the view. *)
  law_view_malloc : ∀ n w, view (malloc n w).2 = view w;
  law_view_buffer : ∀ n w, view (vccrypt_buffer_init n w).2 = view w;
  law_view_stream_init : ∀ k w, view (vccrypt_suite_stream_init k w).2 = view w;
  law_view_mac_init : ∀ k w, view (vccrypt_suite_mac_short_init k w).2 = view w;
  law_view_continue_encryption : ∀ c iv p w, view (vccrypt_stream_continue_encryption c iv p w).2 = view w;
  law_view_continue_decryption : ∀ c iv p w, view (vccrypt_stream_continue_decryption c iv p w).2 = view w;
  law_view_encrypt : ∀ c b w, view (vccrypt_stream_encrypt c b w).2 = view w;
  law_view_decrypt : ∀ c b w, view (vccrypt_stream_decrypt c b w).2 = view w;
  law_view_digest : ∀ c b w, view (vccrypt_mac_digest c b w).2 = view w;
  law_view_finalize : ∀ c w, view (vccrypt_mac_finalize c w).2 = view w;
}.

(** No call of the suite fails under the secret, and there is memory. *)
Record suite_reliable {W V : Type} (view : W → V) `{VSL : VCCRYPT_SUITE_laws W V view}
    (secret : bytes) : Prop := {
  reliable_malloc : ∀ n w, 0 < n → (malloc n w).1 = true;
  reliable_buffer : ∀ n w, (vccrypt_buffer_init n w).1.1 = 0;
  reliable_stream_init : ∀ w, (vccrypt_suite_stream_init secret w).1.1 = 0;
  reliable_mac_init : ∀ w, (vccrypt_suite_mac_short_init secret w).1.1 = 0;
  reliable_continue_encryption : ∀ c iv p w, (vccrypt_stream_continue_encryption c iv p w).1.1 = 0;
  reliable_continue_decryption : ∀ c iv p w, (vccrypt_stream_continue_decryption c iv p w).1.1 = 0;
  reliable_encrypt : ∀ c b w, (vccrypt_stream_encrypt c b w).1.1 = 0;
  reliable_decrypt : ∀ c b w, (vccrypt_stream_decrypt c b w).1.1 = 0;
  reliable_digest : ∀ c b w, (vccrypt_mac_digest c b w).1.1 = 0;
  reliable_finalize : ∀ c w, (vccrypt_mac_finalize c w).1.1 = 0;
}.

(** ** The packet *)

Section packet.
Context {W V : Type} {view : W → V} {M : MALLOC W} {VB : VCCRYPT_BUFFER W} {VS : VCCRYPT_SUITE W}.
Context {VSL : VCCRYPT_SUITE_laws view}.

Definition suite_faulty (secret : bytes) : Prop := suite_reliable view secret → False.

Definition authed_header (d : bytes) : bytes :=
  be_enc 4 IPC_DATA_TYPE_AUTHED_PACKET ++ be_enc 4 (sizeof d).

(** The wire format: an encrypted header, the code, the encrypted payload. *)
Definition authed_packet (secret iv d : bytes) : bytes :=
  let h := cipher secret iv 0 (authed_header d) in
  let b := cipher secret iv 8 d in
  h ++ mac_of secret (h ++ b) ++ b.

Lemma length_authed_header d : length (authed_header d) = 8%nat.
Proof. unfold authed_header. len. Qed.

Lemma length_authed_packet k iv d :
  length (authed_packet k iv d) = (8 + mac_size + length d)%nat.
Proof.
  unfold authed_packet. rewrite !length_app, !law_cipher_length, law_mac_length, length_authed_header. lia.
Qed.

Lemma cipher_inj k iv p a b : cipher k iv p a = cipher k iv p b → a = b.
Proof. intros H. by rewrite <- (law_decipher_cipher k iv p a), H, law_decipher_cipher. Qed.

(** ** Rules for the calls *)

Lemma post_init_buffer n (Q : result bytes → W → Prop) w k :
  (∀ b w', view w' = view w → length b = n → Q (Ok b) w') →
  (∀ s w', view w' = view w → suite_faulty k → Q (Err s) w') →
  post (init_buffer n) Q w.
Proof.
  intros Hok Herr. unfold init_buffer. apply post_act, post_run.
  pose proof (law_view_buffer n w) as Hv. pose proof (law_authed_buffer n w) as Hl.
  pose proof (λ R, reliable_buffer view k R n w) as Hr.
  destruct (vccrypt_buffer_init n w) as [[c b] w']. simpl in *.
  destruct (Z.eqb_spec c 0) as [->|Hc]; post_steps; [by apply Hok; eauto|].
  apply Herr; [done|]. intros R. by apply Hc, Hr.
Qed.

Lemma post_crypto {A} (m : Act W (Z * A)) (P : A → Prop) k (Q : result A → W → Prop) w :
  (∀ a w', m w = ((0, a), w') → P a) → view (m w).2 = view w →
  (suite_reliable view k → (m w).1.1 = 0) →
  (∀ a w', view w' = view w → P a → Q (Ok a) w') →
  (∀ s w', view w' = view w → suite_faulty k → Q (Err s) w') →
  post (crypto m) Q w.
Proof.
  intros HP Hv Hr Hok Herr. unfold crypto. apply post_act, post_run.
  destruct (m w) as [[c a] w'] eqn:E. simpl in *.
  destruct (Z.eqb_spec c 0) as [->|Hc]; post_steps; [by apply Hok; eauto|].
  apply Herr; [done|]. intros R. by apply Hc, Hr.
Qed.

(** Every call in one shape: its effect on the contexts, or a fault. *)
Definition stream_is (k iv : bytes) (p : nat) (c : stream_context) : Prop :=
  stream_key c = k ∧ stream_at c = (iv, p).
Definition mac_is (k b : bytes) (c : mac_context) : Prop := mac_key c = k ∧ mac_data c = b.

(** The outcome of one part of the work: [P] of the result, or a fault. *)
Definition sure {A} (k : bytes) (w : W) (P : A → Prop) (r : result A) (w' : W) : Prop :=
  view w' = view w ∧ match r with Ok a => P a | Err _ => suite_faulty k end.

Lemma post_sure {A B} (m : Eff W A) (n : A → Eff W B) k P R w :
  post m (sure k w P) w →
  (∀ a w', view w' = view w → P a → post (n a) (sure k w' R) w') →
  post (bind m n) (sure k w R) w.
Proof.
  intros Hm Hn. apply post_bind. eapply post_mono; [exact Hm|]. intros [a|s] w' [Hv HP]; [|done].
  eapply post_mono; [by apply Hn|]. intros r w'' [Hv' Hr]. split; [congruence|done].
Qed.

(** The outcome of a check: it may also refuse, and then [F]. *)
Definition judged {A} (k : bytes) (w : W) (P : A → Prop) (F : Prop) (r : result A) (w' : W) : Prop :=
  view w' = view w ∧ match r with Ok a => P a | Err _ => suite_faulty k ∨ F end.

Lemma post_judged {A B} (m : Eff W A) (n : A → Eff W B) k P R F w :
  post m (sure k w P) w →
  (∀ a w', view w' = view w → P a → post (n a) (judged k w' R F) w') →
  post (bind m n) (judged k w R F) w.
Proof.
  intros Hm Hn. apply post_bind. eapply post_mono; [exact Hm|]. intros [a|s] w' [Hv HP]; [|split; auto].
  eapply post_mono; [by apply Hn|]. intros r w'' [Hv' Hr]. split; [congruence|done].
Qed.

Lemma init_buffer_sure n k w : post (init_buffer n) (sure k w (λ b, length b = n)) w.
Proof. by apply (post_init_buffer _ _ _ k). Qed.

Lemma stream_init_sure k w :
  post (crypto (vccrypt_suite_stream_init k)) (sure k w (λ c, stream_key c = k)) w.
Proof.
  by apply (post_crypto _ (λ c, stream_key c = k) k);
    [apply law_stream_init|apply law_view_stream_init|intros R; by apply (reliable_stream_init _ _ R)|..].
Qed.

Lemma mac_init_sure k w :
  post (crypto (vccrypt_suite_mac_short_init k)) (sure k w (mac_is k [])) w.
Proof.
  by apply (post_crypto _ (mac_is k []) k);
    [apply law_mac_init|apply law_view_mac_init|intros R; by apply (reliable_mac_init _ _ R)|..].
Qed.

Lemma continue_encryption_sure k c iv p w :
  stream_key c = k →
  post (crypto (vccrypt_stream_continue_encryption c iv p)) (sure k w (stream_is k iv p)) w.
Proof.
  intros <-. by apply (post_crypto _ (stream_is (stream_key c) iv p) (stream_key c));
    [apply law_continue_encryption|apply law_view_continue_encryption
    |intros R; by apply (reliable_continue_encryption _ _ R)|..].
Qed.

Lemma continue_decryption_sure k c iv p w :
  stream_key c = k →
  post (crypto (vccrypt_stream_continue_decryption c iv p)) (sure k w (stream_is k iv p)) w.
Proof.
  intros <-. by apply (post_crypto _ (stream_is (stream_key c) iv p) (stream_key c));
    [apply law_continue_decryption|apply law_view_continue_decryption
    |intros R; by apply (reliable_continue_decryption _ _ R)|..].
Qed.

Lemma encrypt_sure k iv p c b w :
  stream_is k iv p c →
  post (crypto (vccrypt_stream_encrypt c b))
    (sure k w (λ ec, ec.1 = cipher k iv p b ∧ stream_is k iv (p + length b) ec.2)) w.
Proof.
  intros [<- Hat]. apply (post_crypto _ (λ ec, ec.1 = cipher (stream_key c) iv p b ∧
    stream_is (stream_key c) iv (p + length b) ec.2) (stream_key c));
    [|apply law_view_encrypt|intros R; by apply (reliable_encrypt _ _ R)|by intros; split|by intros; split].
  intros [e c'] w' E. destruct (law_encrypt _ _ _ _ _ _ E) as (->&Hk&Ha). rewrite Hat in *. by repeat split.
Qed.

Lemma decrypt_sure k iv p c b w :
  stream_is k iv p c →
  post (crypto (vccrypt_stream_decrypt c b))
    (sure k w (λ ec, ec.1 = decipher k iv p b ∧ stream_is k iv (p + length b) ec.2)) w.
Proof.
  intros [<- Hat]. apply (post_crypto _ (λ ec, ec.1 = decipher (stream_key c) iv p b ∧
    stream_is (stream_key c) iv (p + length b) ec.2) (stream_key c));
    [|apply law_view_decrypt|intros R; by apply (reliable_decrypt _ _ R)|by intros; split|by intros; split].
  intros [e c'] w' E. destruct (law_decrypt _ _ _ _ _ _ E) as (->&Hk&Ha). rewrite Hat in *. by repeat split.
Qed.

Lemma digest_sure k a c b w :
  mac_is k a c → post (crypto (vccrypt_mac_digest c b)) (sure k w (mac_is k (a ++ b))) w.
Proof.
  intros [<- <-]. by apply (post_crypto _ (mac_is (mac_key c) (mac_data c ++ b)) (mac_key c));
    [apply law_mac_digest|apply law_view_digest|intros R; by apply (reliable_digest _ _ R)|..].
Qed.

Lemma finalize_sure k a c w :
  mac_is k a c → post (crypto (vccrypt_mac_finalize c)) (sure k w (λ d, d = mac_of k a)) w.
Proof.
  intros [<- <-]. by apply (post_crypto _ (λ d, d = mac_of (mac_key c) (mac_data c)) (mac_key c));
    [apply law_mac_finalize|apply law_view_finalize|intros R; by apply (reliable_finalize _ _ R)|..].
Qed.
End packet.

Create HintDb suite.
#[export] Hint Resolve init_buffer_sure stream_init_sure mac_init_sure continue_encryption_sure
  continue_decryption_sure encrypt_sure decrypt_sure digest_sure finalize_sure : suite.

(** One call of the suite. *)
Ltac suite_step := first [eapply post_sure | eapply post_judged]; [by eauto with suite|].

(** ** Writing *)

Section write.
Context {W V : Type} {view : W → V} {M : MALLOC W} {VB : VCCRYPT_BUFFER W} {VS : VCCRYPT_SUITE W}.
Context {VSL : VCCRYPT_SUITE_laws view}.

(** The fields of a packet, written at their offsets. *)
Lemma packet_fields a b c (m : nat) packet :
  length a = 4%nat → length b = 4%nat → length packet = (8 + m + length c)%nat →
  ∃ g, length g = m ∧ splice (m + 8) c (splice 4 b (splice 0 a packet)) = (a ++ b) ++ g ++ c.
Proof.
  intros Ha Hb Hp.
  rewrite <- (take_drop 4 packet), <- (take_drop 4 (drop 4 packet)), drop_drop,
    <- (take_drop m (drop (4 + 4) packet)), drop_drop.
  exists (take m (drop (4 + 4) packet)). split; [len|].
  rewrite splice_head by len. rewrite (splice_skip 4 4) by len. rewrite Nat.sub_diag.
  rewrite splice_head by len. rewrite (splice_skip (m + 8) 4) by len.
  rewrite (splice_skip (m + 8 - 4) 4) by len. replace (m + 8 - 4 - 4)%nat with m by lia.
  rewrite splice_tail by len. by rewrite <- (assoc_L (++)).
Qed.

Lemma authed_packet_create_spec iv val k w :
  post (authed_packet_create iv val k) (sure k w (λ p, p = authed_packet k iv val)) w.
Proof.
  unfold authed_packet_create. rewrite !net32_be, !length_be_enc.
  suite_step. intros digest w1 _ Hd. rewrite Hd. suite_step. intros packet w2 _ Hp.
  suite_step. intros s w3 _ Hs. suite_step. intros m w4 _ Hm. suite_step. intros s1 w5 _ Hs1.
  suite_step. intros [c1 s2] w6 _ [Hc1 Hs2]. simpl in Hc1, Hs2.
  suite_step. intros [c2 s3] w7 _ [Hc2 Hs3]. simpl in Hc2, Hs3.
  suite_step. intros [c3 s4] w8 _ [Hc3 Hs4]. simpl in Hc3, Hs4.
  suite_step. intros m1 w9 _ Hm1. suite_step. intros m2 w10 _ Hm2.
  suite_step. intros d w11 _ Hdig. apply post_ret. split; [done|].
  rewrite ?length_be_enc in *. clear Hs4 Hs3 Hs2. change (4 + 4)%nat with 8%nat in *.
  destruct (packet_fields c1 c2 c3 mac_size packet) as (g&Hg&E);
    [by rewrite Hc1, law_cipher_length, length_be_enc|by rewrite Hc2, law_cipher_length, length_be_enc
    |by rewrite Hp, Hc3, law_cipher_length|].
  assert (cipher k iv 0 (authed_header val) = c1 ++ c2) as Eh
    by (unfold authed_header; rewrite law_cipher_app, length_be_enc, Hc1, Hc2; done).
  assert (length (c1 ++ c2) = 8%nat) as H8
    by (rewrite <- Eh, law_cipher_length; apply length_authed_header).
  rewrite E in *. rewrite (sub_head 8) in Hdig by done.
  rewrite (sub_skip _ 8), (sub_skip _ mac_size) in Hdig by (done || lia).
  replace (8 + mac_size - 8 - mac_size)%nat with 0%nat in Hdig by lia.
  rewrite sub_exact in Hdig by (by rewrite Hc3, law_cipher_length).
  rewrite (splice_skip 8 8), Nat.sub_diag, splice_head by (done || (rewrite Hdig, law_mac_length; done)).
  unfold authed_packet. by rewrite Hdig, Eh, Hc3.
Qed.
End write.

(** ** Reading *)

Section read.
Context {W V : Type} {view : W → V} {M : MALLOC W} {VB : VCCRYPT_BUFFER W} {VS : VCCRYPT_SUITE W}.
Context {VSL : VCCRYPT_SUITE_laws view}.

(** The encrypted header of a payload of a size. *)
Definition sealed_header (k iv : bytes) (size : Z) : bytes :=
  cipher k iv 0 (be_enc 4 IPC_DATA_TYPE_AUTHED_PACKET ++ be_enc 4 size).

Lemma length_sealed_header k iv size : length (sealed_header k iv size) = 8%nat.
Proof. unfold sealed_header. rewrite law_cipher_length. len. Qed.

Definition size_limit : Z := 10 * 1024 * 1024.

(** The two words of a header are good exactly for a sealed header. *)
Lemma deciphered_header k iv h :
  length h = 8%nat →
  let d := decipher k iv 0 h in
  ntohl (le_dec (sub 0 4 d)) = IPC_DATA_TYPE_AUTHED_PACKET →
  h = sealed_header k iv (ntohl (le_dec (sub 4 4 d))).
Proof.
  intros Hh d Ht.
  assert (length d = 8%nat) as Hd
    by (rewrite <- Hh, <- (law_cipher_decipher k iv 0 h) at 1; symmetry; apply law_cipher_length).
  unfold sealed_header. rewrite <- Ht, !ntohl_le_dec by (apply length_sub; lia).
  rewrite !be_enc_dec_length by (apply length_sub; lia).
  replace (sub 0 4 d ++ sub 4 4 d) with d; [by rewrite <- (law_cipher_decipher k iv 0 h) at 1|].
  rewrite <- (app_nil_r (sub 4 4 d)), <- (drop_ge d (4 + 4)) by lia.
  by rewrite (sub_drop 4 4), (sub_drop 0 4), drop_0.
Qed.

Lemma sealed_header_words k iv size :
  u32 size →
  let d := decipher k iv 0 (sealed_header k iv size) in
  ntohl (le_dec (sub 0 4 d)) = IPC_DATA_TYPE_AUTHED_PACKET ∧ ntohl (le_dec (sub 4 4 d)) = size.
Proof.
  intros Hs. unfold sealed_header. cbv zeta. rewrite law_decipher_cipher. split.
  - apply read_net32. split; by vm_compute.
  - rewrite (sub_skip 4 4) by (apply length_be_enc || lia).
    rewrite <- (app_nil_r (be_enc 4 size)). by apply read_net32.
Qed.

Lemma authed_header_read_spec k iv header w :
  (8 ≤ length header)%nat →
  post (authed_header_read iv k header)
    (judged k w
       (λ '(stream, mac, size), stream_key stream = k ∧ mac_is k [] mac ∧ 0 ≤ size ≤ size_limit ∧
          sub 0 8 header = sealed_header k iv size)
       (∀ size, 0 ≤ size ≤ size_limit → sub 0 8 header ≠ sealed_header k iv size)) w.
Proof.
  intros Hlen. unfold authed_header_read.
  suite_step. intros s w1 _ Hs. suite_step. intros m w2 _ Hm. suite_step. intros s1 w3 _ Hs1.
  suite_step. intros [d s2] w4 _ [Hd [Hs2 _]]. simpl in Hd, Hs2. change dheader_size with 8%nat in *.
  assert (length (sub 0 8 header) = 8%nat) as H8 by (apply length_sub; lia).
  apply post_if; intros Ht; [|apply post_if; intros Hz]; apply post_ret; (split; [done|]).
  - right. intros size Hsize E. rewrite E in Hd.
    destruct (sealed_header_words k iv size) as [E1 _]; [unfold u32, size_limit in *; lia|].
    rewrite <- Hd in E1. by rewrite E1 in Ht.
  - right. intros size Hsize E. rewrite E in Hd.
    destruct (sealed_header_words k iv size) as [_ E1]; [unfold u32, size_limit in *; lia|].
    rewrite <- Hd in E1. rewrite E1 in Hz. unfold size_limit in *. lia.
  - rewrite negb_false_iff, Z.eqb_eq in Ht. split_and!; [done|done|apply ntohl_u32|unfold size_limit; lia|].
    rewrite Hd. apply deciphered_header; [done|]. by rewrite <- Hd.
Qed.

Lemma authed_packet_verify_spec k mac header payload w :
  mac_is k [] mac → (8 + mac_size ≤ length header)%nat →
  post (authed_packet_verify mac header payload)
    (judged k w (λ _, sub 8 mac_size header = mac_of k (sub 0 8 header ++ payload))
       (sub 8 mac_size header ≠ mac_of k (sub 0 8 header ++ payload))) w.
Proof.
  intros Hm Hlen. unfold authed_packet_verify. change dheader_size with 8%nat.
  suite_step. intros m1 w1 _ Hm1. suite_step. intros m2 w2 _ Hm2. suite_step. intros b w3 _ _.
  suite_step. intros d w4 _ ->. rewrite law_mac_length.
  change ([] ++ sub 0 8 header) with (sub 0 8 header).
  assert (length (mac_of k (sub 0 8 header ++ payload)) = length (sub 8 mac_size header))
    as Hl by (rewrite law_mac_length, length_sub; lia).
  apply law_memcmp in Hl.
  apply post_if; intros Hc; apply post_ret; (split; [done|]).
  - right. intros E. by rewrite (proj2 Hl (eq_sym E)) in Hc.
  - rewrite negb_false_iff, Z.eqb_eq in Hc. symmetry. by apply Hl.
Qed.

Lemma authed_payload_read_spec k iv stream payload w :
  stream_key stream = k →
  post (authed_payload_read stream iv payload)
    (judged k w (λ d, payload = cipher k iv 8 d) (payload = [])) w.
Proof.
  intros Hs. unfold authed_payload_read. apply post_act, post_run.
  pose proof (law_view_malloc (sizeof payload) w) as Hv.
  pose proof (λ R, reliable_malloc view k R (sizeof payload) w) as Hr.
  destruct (malloc (sizeof payload) w) as [[] w1]; simpl in *; post_cbn.
  - eapply (post_mono _ (judged k w1 _ _)); [|intros r w' [Hv' H]; split; [by rewrite <- Hv|exact H]].
    suite_step. intros s1 w2 _ Hs1. suite_step. intros [d s2] w3 _ [Hd _]. apply post_ret.
    split; [done|]. simpl in Hd. by rewrite Hd, law_cipher_decipher.
  - apply post_ret. split; [done|]. destruct payload; [by right|left].
    intros R. specialize (Hr R). unfold sizeof in Hr. simpl in Hr. discriminate Hr. lia.
Qed.

(** ** The parts of a packet *)

Lemma packet_of_parts k iv header payload d size :
  length header = (8 + mac_size)%nat → 0 ≤ size → length payload = Z.to_nat size →
  sub 0 8 header = sealed_header k iv size →
  sub 8 mac_size header = mac_of k (sub 0 8 header ++ payload) → payload = cipher k iv 8 d →
  sizeof d = size ∧ header ++ payload = authed_packet k iv d.
Proof.
  intros Hh Hs Hp Hsub Hmac ->. rewrite law_cipher_length in Hp.
  assert (sizeof d = size) as E by (unfold sizeof; lia). split; [done|].
  unfold authed_packet. fold (authed_header d). unfold authed_header. rewrite E.
  fold (sealed_header k iv size). rewrite <- Hsub, <- Hmac, (assoc_L (++)). f_equal.
  rewrite <- (drop_0 header) at 1. rewrite <- (sub_drop 0 8), <- (app_nil_r (sub 8 mac_size header)).
  by rewrite <- (drop_ge header (8 + mac_size)), (sub_drop 8) by lia.
Qed.

Lemma parts_of_packet k iv header d rest rest' :
  length header = (8 + mac_size)%nat → header ++ rest' = authed_packet k iv d ++ rest →
  sub 0 8 header = sealed_header k iv (sizeof d) ∧
  sub 8 mac_size header = mac_of k (sub 0 8 header ++ cipher k iv 8 d) ∧
  rest' = cipher k iv 8 d ++ rest.
Proof.
  intros Hh. unfold authed_packet. fold (authed_header d). unfold authed_header at 1 2.
  fold (sealed_header k iv (sizeof d)). set (h := sealed_header k iv (sizeof d)).
  set (b := cipher k iv 8 d). intros E.
  assert (length h = 8%nat) as H8 by apply length_sealed_header.
  rewrite <- !(assoc_L (++)), (assoc_L (++) h) in E.
  apply app_inj_1 in E as [-> ->]; [|rewrite Hh, length_app, law_mac_length; lia].
  rewrite (sub_head 8) by done. rewrite (sub_skip 8 8), Nat.sub_diag by (done || lia).
  by rewrite sub_exact by apply law_mac_length.
Qed.

Lemma sealed_header_inj k iv s1 s2 :
  u32 s1 → u32 s2 → sealed_header k iv s1 = sealed_header k iv s2 → s1 = s2.
Proof. intros H1 H2 E%cipher_inj%app_inv_head. by apply (be_enc_inj 4). Qed.

Lemma packet_inj k iv d1 d2 r1 r2 :
  sizeof d1 ≤ size_limit → sizeof d2 ≤ size_limit →
  authed_packet k iv d1 ++ r1 = authed_packet k iv d2 ++ r2 → d1 = d2 ∧ r1 = r2.
Proof.
  intros H1 H2 E.
  set (all := authed_packet k iv d1 ++ r1).
  set (n := (8 + mac_size)%nat).
  assert (length (take n all) = n) as Hn by (unfold all, n; rewrite length_take, length_app, length_authed_packet; lia).
  destruct (parts_of_packet k iv (take n all) d1 r1 (drop n all)) as (Hs1&_&Hr1); [done|by rewrite take_drop|].
  destruct (parts_of_packet k iv (take n all) d2 r2 (drop n all)) as (Hs2&_&Hr2);
    [done|by rewrite take_drop|].
  rewrite Hs1 in Hs2. apply sealed_header_inj in Hs2; [|unfold u32, size_limit, sizeof in *; lia..].
  rewrite Hr1 in Hr2. apply app_inj_1 in Hr2 as [?%cipher_inj ->]; [done|].
  rewrite !law_cipher_length. unfold sizeof in Hs2. lia.
Qed.

(** Going on after a part of the work. *)
Lemma post_judged_then {A B} (m : Eff W A) (n : A → Eff W B) k P F (Q : result B → W → Prop) w :
  post m (judged k w P F) w →
  (∀ a w', view w' = view w → P a → post (n a) Q w') →
  (∀ s w', view w' = view w → suite_faulty k ∨ F → Q (Err s) w') → post (bind m n) Q w.
Proof.
  intros Hm Hn He. apply post_bind. eapply post_mono; [exact Hm|].
  intros [a|s] w' [Hv H]; [by apply Hn|by apply He].
Qed.

Lemma sure_judged {A} (m : Eff W A) k P w : post m (sure k w P) w → post m (judged k w P False) w.
Proof. intros H. eapply post_mono; [exact H|]. intros [a|s] w' [Hv HP]; split; auto. Qed.
End read.

(** ** On a descriptor *)

Section block.
Context {W : Type} {M : MALLOC W} {IO : POSIX_IO W} {IOL : POSIX_IO_laws W}.
Context {VB : VCCRYPT_BUFFER W} {VS : VCCRYPT_SUITE W}.
Context {VSL : VCCRYPT_SUITE_laws (λ w : W, (rx w, tx w))}.

(** Any object that is there, or a failure because the input is short. *)
Lemma post_read_some n (Q : result bytes → W → Prop) w :
  (∀ b w', length b = n → rx w = b ++ rx w' → tx w' = tx w → Q (Ok b) w') →
  (∀ s w', tx w' = tx w → io_faulty (W := W) ∨ (length (rx w) < n)%nat → Q (Err s) w') →
  post (read_object n) Q w.
Proof.
  intros Hok Herr. unfold read_object. apply post_act, post_run.
  destruct (sys_read n w) as [[k b] w'] eqn:E. destruct (law_sys_read _ _ _ _ _ E) as (Ht&_&Hr).
  cbn [fst snd]. apply post_if; intros Hk; apply post_ret.
  - apply Herr; [done|]. destruct (decide (length (rx w) < n)%nat) as [|Hge]; [by right|left].
    intros R. pose proof (reliable_sys_read _ R n w) as H. rewrite E in H. simpl in H. lia.
  - assert (k = Z.of_nat n) as -> by lia. destruct Hr as (_&Hb&Hr); [lia|].
    apply Hok; [unfold sizeof in Hb; lia|done|done].
Qed.

(** The two ways in which nothing of a packet goes wrong. *)
Definition block_faulty (secret : bytes) : Prop := io_faulty (W := W) ∨ suite_faulty secret.

Theorem authed_write_block_spec iv val secret w :
  post (ipc_write_authed_data_block iv val secret)
    (λ r w', match r with
             | Ok _ => rx w' = rx w ∧ tx w' = tx w ++ authed_packet secret (le_enc 8 iv) val
             | Err _ => block_faulty secret
             end) w.
Proof.
  unfold ipc_write_authed_data_block.
  eapply post_judged_then; [apply sure_judged, authed_packet_create_spec|..].
  - intros p w1 [= Hrx Htx] ->.
    apply post_write_object; [intros w' -> ->; by rewrite Hrx, Htx|by left].
  - intros s w1 _ [|[]]. by right.
Qed.

(** Authenticity: a payload is only ever returned for the packet that was sealed
    for it with the secret and the vector; and such a packet is refused only
    when something fails outside the program. *)
Definition authed_outcome_block (iv : Z) (secret : bytes) (w : W) (r : result bytes) (w' : W) : Prop :=
  tx w' = tx w ∧
  match r with
  | Ok d => sizeof d ≤ size_limit ∧ rx w = authed_packet secret (le_enc 8 iv) d ++ rx w'
  | Err _ =>
      block_faulty secret ∨
      ∀ d rest, 0 < sizeof d ≤ size_limit → rx w ≠ authed_packet secret (le_enc 8 iv) d ++ rest
  end.

Lemma post_block_step {A} (m : Eff W A) (n : A → Eff W bytes) iv k P F w0 w :
  tx w = tx w0 →
  post m (judged k w P F) w →
  (∀ a w', rx w' = rx w → tx w' = tx w0 → P a → post (n a) (authed_outcome_block iv k w0) w') →
  (F → ∀ d rest, 0 < sizeof d ≤ size_limit → rx w0 ≠ authed_packet k (le_enc 8 iv) d ++ rest) →
  post (bind m n) (authed_outcome_block iv k w0) w.
Proof.
  intros Ht Hm Hn HF. eapply post_judged_then; [exact Hm|..].
  - intros a w' [= Hr Ht'] HP. apply Hn; congruence.
  - intros s w' [= Hr Ht'] Hf. split; [congruence|]. destruct Hf; [left; by right|right; auto].
Qed.

Theorem authed_read_block_spec iv secret w :
  post (ipc_read_authed_data_block iv secret) (authed_outcome_block iv secret w) w.
Proof.
  unfold ipc_read_authed_data_block. set (v := le_enc 8 iv).
  eapply post_block_step; [done|apply sure_judged, init_buffer_sure| |done]. intros _ w1 Hr1 Ht1 _.
  eapply post_block_step; [done|apply sure_judged, init_buffer_sure| |done]. intros _ w2 Hr2 Ht2 _.
  apply post_bind, post_read_some.
  2: { intros s w3 Ht3 Hs. split; [congruence|]. destruct Hs as [|Hs]; [left; by left|right].
       intros d rest Hd E. rewrite Hr2, Hr1, E, length_app, length_authed_packet in Hs.
       unfold header_size in Hs. lia. }
  intros header w3 Hh Hr3 Ht3. unfold header_size in Hh.
  assert (∀ d rest, rx w = authed_packet secret v d ++ rest →
            header ++ rx w3 = authed_packet secret v d ++ rest) as Hparts by congruence.
  eapply post_block_step; [congruence|apply authed_header_read_spec; lia| |].
  2: { intros HF d rest Hd E%Hparts. apply parts_of_packet in E as (E&_); [|lia].
       apply (HF (sizeof d)); [lia|done]. }
  intros [[stream mac] size] w4 Hr4 Ht4 (Hstream&Hmac&Hsize&Hsealed).
  assert (∀ d rest, 0 < sizeof d ≤ size_limit → rx w = authed_packet secret v d ++ rest →
            sizeof d = size ∧ sub 8 mac_size header = mac_of secret (sub 0 8 header ++ cipher secret v 8 d) ∧
            rx w4 = cipher secret v 8 d ++ rest) as Hp.
  { intros d rest Hd E%Hparts. apply parts_of_packet in E as (E&Hm&Hr); [|lia].
    split_and!; [|done|congruence]. rewrite Hsealed in E. symmetry.
    apply sealed_header_inj in E; [done|unfold u32, size_limit in *; lia..]. }
  eapply post_block_step; [congruence|apply sure_judged, init_buffer_sure| |done]. intros _ w5 Hr5 Ht5 _.
  apply post_bind, post_read_some.
  2: { intros s w6 Ht6 Hs. split; [congruence|]. destruct Hs as [|Hs]; [left; by left|right].
       intros d rest Hd E. destruct (Hp d rest Hd E) as (<-&_&Hr).
       rewrite Hr5, Hr, length_app, law_cipher_length in Hs. unfold sizeof in Hs. lia. }
  intros payload w6 Hl Hr6 Ht6.
  assert (∀ d rest, 0 < sizeof d ≤ size_limit → rx w = authed_packet secret v d ++ rest →
            payload = cipher secret v 8 d) as Hpay.
  { intros d rest Hd E. destruct (Hp d rest Hd E) as (<-&_&Hr). rewrite <- Hr5, Hr6 in Hr.
    apply app_inj_1 in Hr as [-> _]; [done|]. rewrite law_cipher_length. unfold sizeof in Hl. lia. }
  eapply post_block_step; [congruence|apply authed_packet_verify_spec; [done|lia]| |].
  2: { intros HF d rest Hd E. destruct (Hp d rest Hd E) as (_&Hm&_). by rewrite (Hpay d rest Hd E) in HF. }
  intros [] w7 Hr7 Ht7 Hverify.
  eapply post_mono; [by apply authed_payload_read_spec|].
  intros [d|s] w8 [[= Hr8 Ht8] H]; (split; [congruence|]).
  - destruct (packet_of_parts secret v header payload d size) as [<- E]; try done; [lia|].
    split; [lia|]. fold v. rewrite <- E, <- (assoc_L (++)). congruence.
  - destruct H as [|Hnil]; [left; by right|right]. intros d rest Hd E. subst payload.
    destruct (Hp d rest Hd E) as [<- _]. simpl in Hl. lia.
Qed.
End block.

(** ** On a buffered socket *)

Class EVBUFFER_READ_LIMIT_laws (W : Type) `{EVL : LIBEVENT_laws W} `{ER : EVBUFFER_READ_LIMIT W} := {
  (** As for [evbuffer_read]. *)
  law_ev_read_limit : ∀ n w k w', evbuffer_read_limit n w = (k, w') →
    (0 < k → ∃ d, sizeof d = k ∧ v_incoming (sock w) = d ++ v_incoming (sock w') ∧
       v_rbuf (sock w') = v_rbuf (sock w) ++ d ∧
       v_wbuf (sock w') = v_wbuf (sock w) ∧ v_sent (sock w') = v_sent (sock w)) ∧
    (k ≤ 0 → sock w' = sock w);
}.

Section noblock.
Context {W : Type} {M : MALLOC W} {EV : LIBEVENT W} {EVL : LIBEVENT_laws W}.
Context {ER : EVBUFFER_READ_LIMIT W} {ERL : EVBUFFER_READ_LIMIT_laws W}.
Context {VB : VCCRYPT_BUFFER W} {VS : VCCRYPT_SUITE W}.
Context {VSL : VCCRYPT_SUITE_laws (λ w : W, sock w)}.


Theorem authed_write_noblock_spec iv val secret w :
  post (ipc_write_authed_data_noblock iv val secret)
    (λ r w', instream w' = instream w ∧
       match r with
       | Ok _ => outstream w' = outstream w ++ authed_packet secret (le_enc 8 iv) val
       | Err s => outstream w' = outstream w
       end) w.
Proof.
  unfold ipc_write_authed_data_noblock.
  eapply post_judged_then; [apply sure_judged, authed_packet_create_spec|..].
  - intros p w1 [Hi Ho]%sock_streams ->.
    apply post_add_object; intros w' Hi' Ho'; (split; [congruence|]); rewrite Ho'; congruence.
  - by intros s w1 [Hi Ho]%sock_streams _.
Qed.











End noblock.

(** ** Sessions

    Both sides count the packets in the vector. *)
Section session.
Context {W : Type} {M : MALLOC W} {IO : POSIX_IO W} {IOL : POSIX_IO_laws W}.
Context {VB : VCCRYPT_BUFFER W} {VS : VCCRYPT_SUITE W}.
Context {VSL : VCCRYPT_SUITE_laws (λ w : W, (rx w, tx w))}.

Fixpoint write_authed (iv : Z) (secret : bytes) (vals : list bytes) : Eff W unit :=
  match vals with
  | [] => ok tt
  | val :: vals =>
      let* _ := ipc_write_authed_data_block iv val secret in
      write_authed (wrap64 (iv + 1)) secret vals
  end.

Fixpoint read_authed (iv : Z) (secret : bytes) (n : nat) : Eff W (list bytes) :=
  match n with
  | O => ok []
  | S n =>
      let* val := ipc_read_authed_data_block iv secret in
      let* vals := read_authed (wrap64 (iv + 1)) secret n in
      ok (val :: vals)
  end.

Fixpoint authed_packets (iv : Z) (secret : bytes) (vals : list bytes) : bytes :=
  match vals with
  | [] => []
  | val :: vals =>
      authed_packet secret (le_enc 8 iv) val ++ authed_packets (wrap64 (iv + 1)) secret vals
  end.

Lemma write_authed_spec secret vals : ∀ iv w,
  post (write_authed iv secret vals) (λ r w',
    match r with
    | Ok _ => rx w' = rx w ∧ tx w' = tx w ++ authed_packets iv secret vals
    | Err _ => block_faulty secret
    end) w.
Proof.
  induction vals as [|val vals IH]; intros iv w; simpl.
  - apply post_ret. by rewrite app_nil_r.
  - apply post_bind. eapply post_mono; [apply authed_write_block_spec|]. intros [[]|s] w1; [|done].
    intros [Hr Ht]. eapply post_mono; [apply IH|]. intros [[]|s] w2; [|done]. intros [-> ->].
    by rewrite Hr, Ht, (assoc_L (++)).
Qed.

(** What is accepted is what was sealed: nothing dropped, repeated, reordered
    or changed. *)
Definition session_outcome (iv : Z) (secret : bytes) (n : nat) (w : W)
    (r : result (list bytes)) (w' : W) : Prop :=
  tx w' = tx w ∧
  match r with
  | Ok vals => length vals = n ∧ Forall (λ d, sizeof d ≤ size_limit) vals ∧
      rx w = authed_packets iv secret vals ++ rx w'
  | Err _ =>
      block_faulty secret ∨
      ∀ vals rest, length vals = n → Forall (λ d, 0 < sizeof d ≤ size_limit) vals →
        rx w ≠ authed_packets iv secret vals ++ rest
  end.

Lemma read_authed_spec secret n : ∀ iv w,
  post (read_authed iv secret n) (session_outcome iv secret n w) w.
Proof.
  induction n as [|n IH]; intros iv w; simpl; [by apply post_ret|].
  apply post_bind. eapply post_mono; [apply authed_read_block_spec|].
  intros [d|s] w1 [Ht1 H1]; cbn beta iota in *.
  2: { split; [done|]. destruct H1 as [|H1]; [by left|right].
       intros [|d vals] rest Hn Hall; [done|]. apply Forall_cons in Hall as [Hd _].
       simpl. rewrite <- (assoc_L (++)). by apply H1. }
  destruct H1 as [Hd H1]. apply post_bind. eapply post_mono; [apply IH|].
  intros [vals|s] w2 [Ht2 H2]; cbn beta iota in *.
  - destruct H2 as (Hl&Hall&H2). apply post_ret. split; [congruence|].
    split_and!; [simpl; lia|by constructor|]. simpl. by rewrite H1, H2, (assoc_L (++)).
  - split; [congruence|]. destruct H2 as [|H2]; [by left|right].
    intros [|d' vals] rest Hn Hall E; [done|]. apply Forall_cons in Hall as [Hd' Hall].
    simpl in E. rewrite H1, <- (assoc_L (++)) in E.
    apply packet_inj in E as [_ E]; [|done|lia]. revert E. apply H2; [simpl in Hn; lia|done].
Qed.

Lemma authed_packets_inj secret vals1 : ∀ iv vals2 r1 r2,
  length vals1 = length vals2 →
  Forall (λ d, sizeof d ≤ size_limit) vals1 → Forall (λ d, sizeof d ≤ size_limit) vals2 →
  authed_packets iv secret vals1 ++ r1 = authed_packets iv secret vals2 ++ r2 →
  vals1 = vals2 ∧ r1 = r2.
Proof.
  induction vals1 as [|d vals1 IH]; intros iv [|d2 vals2] r1 r2 Hl H1 H2 E; try done.
  apply Forall_cons in H1 as [Hd1 H1]. apply Forall_cons in H2 as [Hd2 H2].
  simpl in E. rewrite <- !(assoc_L (++)) in E. apply packet_inj in E as [-> E]; [|done|done].
  apply IH in E as [-> ->]; [done|simpl in Hl; lia|done|done].
Qed.

(** C11: Authenticated sessions: the packets that one side seals under a secret and
    a counter are opened by the other side, each payload exactly once and in
    order, unless the platform fails; and whatever bytes arrive, payloads are
    returned only if the bytes are exactly the packets that were sealed for
    them. *)
Theorem authed_session secret iv vals :
  Forall (λ d, 0 < sizeof d ≤ size_limit) vals →
  (∀ w, post (write_authed iv secret vals) (λ r w',
     match r with
     | Ok _ => tx w' = tx w ++ authed_packets iv secret vals
     | Err _ => block_faulty secret
     end) w) ∧
  (∀ w rest, rx w = authed_packets iv secret vals ++ rest →
     post (read_authed iv secret (length vals)) (λ r w',
       match r with
       | Ok vals' => vals' = vals ∧ rx w' = rest
       | Err _ => block_faulty secret
       end) w) ∧
  (∀ w, post (read_authed iv secret (length vals)) (λ r w',
     r = Ok vals → rx w = authed_packets iv secret vals ++ rx w') w).
Proof.
  intros Hall. split_and!.
  - intros w. eapply post_mono; [apply write_authed_spec|]. by intros [?|?] w'; [intros [_ ?]|].
  - intros w rest Hrx. eapply post_mono; [apply read_authed_spec|].
    intros [vals'|s] w' [_ H]; cbn beta iota in *.
    + destruct H as (Hl&Hlim&E). rewrite Hrx in E. apply authed_packets_inj in E as [-> ->];
        [done|done| |done]. eapply Forall_impl; [done|]. simpl. lia.
    + destruct H as [|H]; [done|]. by edestruct H.
  - intros w. eapply post_mono; [apply read_authed_spec|]. intros r w' [_ H] ->. by destruct H as (_&_&?).
Qed.
End session.
