(* ===== verification/AuthedExamples.v ===== *)
(** * Authenticated packets at work

    A suite on which the laws hold: the cipher adds to each byte a number that
    depends on the key, the vector and the position; the code is a sum. *)

From S2P Require Import Prelude Inet StatusCodes Lmdb RequestCodec Ipc IpcSpec CodecExamples AuthedIpc AuthedSpec.

#[local] Existing Instance io_malloc.
#[local] Existing Instance io_vccrypt.
#[local] Existing Instance io_posix.
#[local] Existing Instance io_posix_laws.
#[local] Existing Instance io_libevent.
#[local] Existing Instance io_libevent_laws.

Fixpoint ex_shift (sign : Z) (k iv : bytes) (p : nat) (b : bytes) : bytes :=
  match b with
  | [] => []
  | x :: b =>
      byte_of_Z (Z_of_byte x + sign * (le_dec k + le_dec iv + Z.of_nat p)) :: ex_shift sign k iv (S p) b
  end.
Definition ex_mac (k b : bytes) : bytes := be_enc 4 (wrap32 (le_dec (k ++ b))).

#[local] Instance io_suite : VCCRYPT_SUITE io_world := {|
  stream_context := bytes * (bytes * nat);
  mac_context := bytes * bytes;
  mac_size := 4;
  vccrypt_suite_stream_init := λ k w, ((0, (k, ([], 0%nat))), w);
  vccrypt_suite_mac_short_init := λ k w, ((0, (k, [])), w);
  vccrypt_stream_continue_encryption := λ c iv p w, ((0, (c.1, (iv, p))), w);
  vccrypt_stream_continue_decryption := λ c iv p w, ((0, (c.1, (iv, p))), w);
  vccrypt_stream_encrypt := λ c b w,
    ((0, (ex_shift 1 c.1 c.2.1 c.2.2 b, (c.1, (c.2.1, (c.2.2 + length b)%nat)))), w);
  vccrypt_stream_decrypt := λ c b w,
    ((0, (ex_shift (-1) c.1 c.2.1 c.2.2 b, (c.1, (c.2.1, (c.2.2 + length b)%nat)))), w);
  vccrypt_mac_digest := λ c b w, ((0, (c.1, c.2 ++ b)), w);
  vccrypt_mac_finalize := λ c w, ((0, ex_mac c.1 c.2), w);
  crypto_memcmp := λ a b, if decide (a = b) then 0 else 1;
|}.

Lemma byte_of_Z_mod z : byte_of_Z (z mod 256) = byte_of_Z z.
Proof. unfold byte_of_Z. by rewrite Z.mod_mod by lia. Qed.

Lemma ex_shift_inverse s t k iv b : s + t = 0 → ∀ p, ex_shift t k iv p (ex_shift s k iv p b) = b.
Proof.
  intros Hst. induction b as [|x b IH]; intros p; simpl; [done|]. rewrite IH, Z_of_byte_of_Z. f_equal.
  set (o := le_dec k + le_dec iv + Z.of_nat p). rewrite <- (byte_of_Z_of_byte x) at 2.
  rewrite <- byte_of_Z_mod, Zplus_mod_idemp_l, byte_of_Z_mod. f_equal. nia.
Qed.

Lemma length_ex_shift s k iv b : ∀ p, length (ex_shift s k iv p b) = length b.
Proof. induction b; intros p; simpl; congruence. Qed.

Lemma ex_shift_app s k iv a b : ∀ p,
  ex_shift s k iv p (a ++ b) = ex_shift s k iv p a ++ ex_shift s k iv (p + length a) b.
Proof.
  induction a as [|x a IH]; intros p; simpl; [by rewrite Nat.add_0_r|].
  rewrite IH. by replace (p + S (length a))%nat with (S p + length a)%nat by lia.
Qed.

#[local] Instance io_read_limit : EVBUFFER_READ_LIMIT io_world := {|
  evbuffer_read_limit := λ n w,
    let '(SockView r i o s) := io_sock w in
    match i with
    | [] => (-1, w)
    | _ => let d := take (Z.to_nat n) i in
           (sizeof d, set_sock w (SockView (r ++ d) (drop (Z.to_nat n) i) o s))
    end;
|}.

#[local] Instance io_read_limit_laws : EVBUFFER_READ_LIMIT_laws io_world.
Proof.
  split. intros n [rx0 tx0 [r i o s]] k w' H. simpl in *. destruct i as [|b i]; simplify_eq/=.
  - split; [lia|done].
  - split.
    + intros _. exists (take (Z.to_nat n) (b :: i)). by rewrite take_drop.
    + intros Hk. assert (Z.to_nat n = 0%nat) as -> by (destruct (Z.to_nat n); [done|unfold sizeof in Hk; simpl in Hk; lia]).
      simpl. by rewrite app_nil_r.
Qed.

#[local] Instance io_suite_laws {V} (view : io_world → V) : VCCRYPT_SUITE_laws view.
Proof.
  refine {| cipher := ex_shift 1; decipher := ex_shift (-1); mac_of := ex_mac;
    stream_key := fst; stream_at := snd; mac_key := fst; mac_data := snd |}.
  all: intros; simpl in *; simplify_eq/=; try done.
  - apply length_ex_shift.
  - apply ex_shift_app.
  - by apply ex_shift_inverse.
  - by apply ex_shift_inverse.
  - case_decide; naive_solver.
  - apply length_replicate.
Defined.

Definition ex_secret : bytes := [Byte.x11; Byte.x22; Byte.x33].
Definition ex_vals : list bytes := [[Byte.x01; Byte.x02]; [Byte.xff]].

(** Two packets, sealed, sent and opened. *)
Example ex_session_bytes :
  let '(r, w) := write_authed 7 ex_secret ex_vals (IoWorld [] [] (SockView [] [] [] [])) in
  r = Ok tt ∧ length (io_tx w) = 27%nat ∧
  (read_authed 7 ex_secret 2 (IoWorld (io_tx w) [] (SockView [] [] [] []))).1 = Ok ex_vals ∧
  (read_authed 8 ex_secret 2 (IoWorld (io_tx w) [] (SockView [] [] [] []))).1
  = Err AGENTD_ERROR_IPC_UNAUTHORIZED_PACKET.
Proof. vm_compute. done. Qed.

Lemma authed_session_witness :
  (∀ w, post (write_authed 7 ex_secret ex_vals) (λ r w',
     match r with
     | Ok _ => tx w' = tx w ++ authed_packets 7 ex_secret ex_vals
     | Err _ => block_faulty ex_secret
     end) w) ∧
  (∀ w rest, rx w = authed_packets 7 ex_secret ex_vals ++ rest →
     post (read_authed 7 ex_secret (length ex_vals)) (λ r w',
       match r with
       | Ok vals' => vals' = ex_vals ∧ rx w' = rest
       | Err _ => block_faulty ex_secret
       end) w) ∧
  (∀ w, post (read_authed 7 ex_secret (length ex_vals)) (λ r w',
     r = Ok ex_vals → rx w = authed_packets 7 ex_secret ex_vals ++ rx w') w).
Proof. apply (authed_session (W := io_world)). repeat constructor; by vm_compute. Defined.



(** A socket on which the read would block is reported as a failure. *)
Example ex_would_block :
  (ipc_read_authed_data_noblock 7 ex_secret (ex_socket [])).1
  = Err AGENTD_ERROR_IPC_EVBUFFER_READ_FAILURE.
Proof. by vm_compute. Qed.

(** The suite is reliable, so the outcomes are not vacuous. *)
Lemma suite_ok {V} (view : io_world → V) : suite_reliable view ex_secret.
Proof. split; intros; simpl; try done. Qed.
