(* ===== verification/ConfigStream.v ===== *)
(** * The configuration on the wire

    A child process parses the configuration file and writes the result to a
    stream, [config_write_block.c]; the supervisor reads it, [config_read_block.c],
    and fills in what is not set, [config_set_defaults.c].  The structures are
    those of [src/include/agentd/config.h]. *)

From Stdlib Require Import String.
From S2P Require Import Prelude Inet StatusCodes Lmdb Ipc.

Close Scope string_scope.

(** ** The structures

    A pointer to a string is [None] when it is null; strings are without the
    terminating zero.  A linked list is a list, from its head on. *)

Record config_listen_address := ListenAddress { la_addr : bytes; la_port : Z }.
Record config_user_group := UserGroup { ug_user : bytes; ug_group : bytes }.

Record config_materialized_field_type := MaterializedField {
  mf_field_code : bytes; mf_short_code : Z; mf_field_crud_flags : Z }.
Record config_materialized_transaction_type := MaterializedTransaction {
  mt_transaction_type : bytes; mt_artifact_crud_flags : Z;
  mt_field_head : list config_materialized_field_type }.
Record config_materialized_artifact_type := MaterializedArtifact {
  ma_artifact_type : bytes; ma_transaction_head : list config_materialized_transaction_type }.
Record config_materialized_view := MaterializedView {
  mv_name : bytes; mv_artifact_head : list config_materialized_artifact_type }.

(** The entries of the private key, the endorser key and the public keys are
    their file names. *)
Record agent_config := AgentConfig {
  logdir : option bytes;
  loglevel_set : bool; loglevel : Z;
  database_max_size_set : bool; database_max_size : Z;
  block_max_milliseconds_set : bool; block_max_milliseconds : Z;
  block_max_transactions_set : bool; block_max_transactions : Z;
  secret : option bytes;
  rootblock : option bytes;
  datastore : option bytes;
  listen_head : list config_listen_address;
  chroot : option bytes;
  usergroup : option config_user_group;
  view_head : list config_materialized_view;
  private_key : option bytes;
  endorser_key : option bytes;
  public_key_head : list bytes }.

(** The cleared structure. *)
Definition zero_config : agent_config :=
  AgentConfig None false 0 false 0 false 0 false 0 None None None [] None None [] None None [].

(** Assignments to the fields. *)
Definition set_logdir (v : option bytes) (c : agent_config) : agent_config :=
  let 'AgentConfig _ b l e d g m i t s r a h o u w p k q := c in
  AgentConfig v b l e d g m i t s r a h o u w p k q.
Definition set_loglevel (b : bool) (l : Z) (c : agent_config) : agent_config :=
  let 'AgentConfig f _ _ e d g m i t s r a h o u w p k q := c in
  AgentConfig f b l e d g m i t s r a h o u w p k q.
Definition set_database_max_size (e : bool) (d : Z) (c : agent_config) : agent_config :=
  let 'AgentConfig f b l _ _ g m i t s r a h o u w p k q := c in
  AgentConfig f b l e d g m i t s r a h o u w p k q.
Definition set_block_max_milliseconds (g : bool) (m : Z) (c : agent_config) : agent_config :=
  let 'AgentConfig f b l e d _ _ i t s r a h o u w p k q := c in
  AgentConfig f b l e d g m i t s r a h o u w p k q.
Definition set_block_max_transactions (i : bool) (t : Z) (c : agent_config) : agent_config :=
  let 'AgentConfig f b l e d g m _ _ s r a h o u w p k q := c in
  AgentConfig f b l e d g m i t s r a h o u w p k q.
Definition set_secret (v : option bytes) (c : agent_config) : agent_config :=
  let 'AgentConfig f b l e d g m i t _ r a h o u w p k q := c in
  AgentConfig f b l e d g m i t v r a h o u w p k q.
Definition set_rootblock (v : option bytes) (c : agent_config) : agent_config :=
  let 'AgentConfig f b l e d g m i t s _ a h o u w p k q := c in
  AgentConfig f b l e d g m i t s v a h o u w p k q.
Definition set_datastore (v : option bytes) (c : agent_config) : agent_config :=
  let 'AgentConfig f b l e d g m i t s r _ h o u w p k q := c in
  AgentConfig f b l e d g m i t s r v h o u w p k q.
Definition set_listen_head (v : list config_listen_address) (c : agent_config) : agent_config :=
  let 'AgentConfig f b l e d g m i t s r a _ o u w p k q := c in
  AgentConfig f b l e d g m i t s r a v o u w p k q.
Definition set_chroot (v : option bytes) (c : agent_config) : agent_config :=
  let 'AgentConfig f b l e d g m i t s r a h _ u w p k q := c in
  AgentConfig f b l e d g m i t s r a h v u w p k q.
Definition set_usergroup (v : option config_user_group) (c : agent_config) : agent_config :=
  let 'AgentConfig f b l e d g m i t s r a h o _ w p k q := c in
  AgentConfig f b l e d g m i t s r a h o v w p k q.
Definition set_view_head (v : list config_materialized_view) (c : agent_config) : agent_config :=
  let 'AgentConfig f b l e d g m i t s r a h o u _ p k q := c in
  AgentConfig f b l e d g m i t s r a h o u v p k q.
Definition set_private_key (v : option bytes) (c : agent_config) : agent_config :=
  let 'AgentConfig f b l e d g m i t s r a h o u w _ k q := c in
  AgentConfig f b l e d g m i t s r a h o u w v k q.
Definition set_endorser_key (v : option bytes) (c : agent_config) : agent_config :=
  let 'AgentConfig f b l e d g m i t s r a h o u w p _ q := c in
  AgentConfig f b l e d g m i t s r a h o u w p v q.
Definition set_public_key_head (v : list bytes) (c : agent_config) : agent_config :=
  let 'AgentConfig f b l e d g m i t s r a h o u w p k _ := c in
  AgentConfig f b l e d g m i t s r a h o u w p k v.

Definition CONFIG_STREAM_TYPE_BOM : Z := 0x00.
Definition CONFIG_STREAM_TYPE_LOGDIR : Z := 0x01.
Definition CONFIG_STREAM_TYPE_LOGLEVEL : Z := 0x02.
Definition CONFIG_STREAM_TYPE_SECRET : Z := 0x03.
Definition CONFIG_STREAM_TYPE_ROOTBLOCK : Z := 0x04.
Definition CONFIG_STREAM_TYPE_DATASTORE : Z := 0x05.
Definition CONFIG_STREAM_TYPE_LISTEN_ADDR : Z := 0x06.
Definition CONFIG_STREAM_TYPE_CHROOT : Z := 0x07.
Definition CONFIG_STREAM_TYPE_USERGROUP : Z := 0x08.
Definition CONFIG_STREAM_TYPE_BLOCK_MAX_MILLISECONDS : Z := 0x09.
Definition CONFIG_STREAM_TYPE_BLOCK_MAX_TRANSACTIONS : Z := 0x0A.
Definition CONFIG_STREAM_TYPE_PRIVATE_KEY : Z := 0x0B.
Definition CONFIG_STREAM_TYPE_PUBLIC_KEY : Z := 0x0C.
Definition CONFIG_STREAM_TYPE_ENDORSER_KEY : Z := 0x0D.
Definition CONFIG_STREAM_TYPE_EOM : Z := 0x80.
Definition CONFIG_STREAM_TYPE_ERROR : Z := 0xFF.

Definition BLOCK_MILLISECONDS_MAXIMUM : Z := 43200000.
Definition BLOCK_TRANSACTIONS_MAXIMUM : Z := 100000.

(** ** Addresses as text

    [inet_ntop] and [inet_pton] of the C library, for [AF_INET]: four decimal
    numbers separated by dots, without leading zeros. *)

Definition string_bytes (s : string) : bytes := list_byte_of_string s.

Definition digit (d : Z) : byte := byte_of_Z (48 + d).
Definition decimal (n : Z) : bytes :=
  if n <? 10 then [digit n]
  else if n <? 100 then [digit (n / 10); digit (n mod 10)]
  else [digit (n / 100); digit (n / 10 mod 10); digit (n mod 10)].

(** The address text, or nothing when it does not fit in [size] bytes. *)
Definition inet_ntop (addr : bytes) (size : Z) : option bytes :=
  let octets := (λ b, decimal (Z_of_byte b)) <$> addr in
  let text := match octets with o :: os => o ++ (os ≫= λ o, Byte.x2e :: o) | [] => [] end in
  if sizeof text <? size then Some text else None.

(** [done] are the finished octets, [cur] the one being read, if it has a
    digit. *)
Fixpoint pton_loop (s : bytes) (done : bytes) (cur : option Z) : option bytes :=
  match s with
  | [] =>
      match cur with
      | Some v => if (length done =? 3)%nat then Some (done ++ [byte_of_Z v]) else None
      | None => None
      end
  | ch :: s =>
      let d := Z_of_byte ch - 48 in
      if (0 <=? d) && (d <=? 9) then
        match cur with
        | Some v =>
            if (v =? 0) || (255 <? v * 10 + d) then None
            else pton_loop s done (Some (v * 10 + d))
        | None => pton_loop s done (Some d)
        end
      else if bool_decide (ch = Byte.x2e) then
        match cur with
        | Some v =>
            if (length done =? 3)%nat then None else pton_loop s (done ++ [byte_of_Z v]) None
        | None => None
        end
      else None
  end.

(** The string that begins at a pointer ends before the first zero byte of the
    memory. *)
Fixpoint c_string (mem : bytes) : bytes :=
  match mem with
  | [] => []
  | ch :: mem => if bool_decide (ch = Byte.x00) then [] else ch :: c_string mem
  end.

Definition inet_pton (s : bytes) : option bytes := pton_loop s [] None.

Section stream.
Context {W : Type} {M : MALLOC W} {IO : POSIX_IO W}.

(** ** Writing *)

(** [if (AGENTD_STATUS_SUCCESS != ...) return ...]. *)
Definition config_ipc_write (m : Eff W unit) : Eff W unit :=
  let! r := m in
  if is_ok r then ok tt else throw AGENTD_ERROR_CONFIG_IPC_WRITE_DATA_FAILURE.

(** The type of an entry and a string. *)
Definition config_write_string (type : Z) (val : option bytes) : Eff W unit :=
  match val with
  | None => ok tt
  | Some val =>
      let* _ := config_ipc_write (ipc_write_uint8_block type) in
      config_ipc_write (ipc_write_string_block val)
  end.

(** The type of an entry and a number. *)
Definition config_write_int64 (type : Z) (is_set : bool) (val : Z) : Eff W unit :=
  if is_set then
    let* _ := config_ipc_write (ipc_write_uint8_block type) in
    config_ipc_write (ipc_write_int64_block val)
  else ok tt.

Definition config_write_logdir (conf : agent_config) : Eff W unit :=
  config_write_string CONFIG_STREAM_TYPE_LOGDIR (logdir conf).
Definition config_write_loglevel (conf : agent_config) : Eff W unit :=
  config_write_int64 CONFIG_STREAM_TYPE_LOGLEVEL (loglevel_set conf) (loglevel conf).
Definition config_write_block_max_milliseconds (conf : agent_config) : Eff W unit :=
  config_write_int64 CONFIG_STREAM_TYPE_BLOCK_MAX_MILLISECONDS
    (block_max_milliseconds_set conf) (block_max_milliseconds conf).
Definition config_write_block_max_transactions (conf : agent_config) : Eff W unit :=
  config_write_int64 CONFIG_STREAM_TYPE_BLOCK_MAX_TRANSACTIONS
    (block_max_transactions_set conf) (block_max_transactions conf).
Definition config_write_secret (conf : agent_config) : Eff W unit :=
  config_write_string CONFIG_STREAM_TYPE_SECRET (secret conf).
Definition config_write_rootblock (conf : agent_config) : Eff W unit :=
  config_write_string CONFIG_STREAM_TYPE_ROOTBLOCK (rootblock conf).
Definition config_write_datastore (conf : agent_config) : Eff W unit :=
  config_write_string CONFIG_STREAM_TYPE_DATASTORE (datastore conf).
Definition config_write_chroot (conf : agent_config) : Eff W unit :=
  config_write_string CONFIG_STREAM_TYPE_CHROOT (chroot conf).
Definition config_write_private_key (conf : agent_config) : Eff W unit :=
  config_write_string CONFIG_STREAM_TYPE_PRIVATE_KEY (private_key conf).
Definition config_write_endorser_key (conf : agent_config) : Eff W unit :=
  config_write_string CONFIG_STREAM_TYPE_ENDORSER_KEY (endorser_key conf).

Fixpoint config_write_listen_addr (ptr : list config_listen_address) : Eff W unit :=
  match ptr with
  | [] => ok tt
  | a :: ptr =>
      let* _ := config_ipc_write (ipc_write_uint8_block CONFIG_STREAM_TYPE_LISTEN_ADDR) in
      match inet_ntop (la_addr a) 100 with
      | None => throw AGENTD_ERROR_CONFIG_INET_NTOP_FAILURE
      | Some addr =>
          let* _ := config_ipc_write (ipc_write_string_block addr) in
          let* _ := config_ipc_write (ipc_write_uint64_block (la_port a)) in
          config_write_listen_addr ptr
      end
  end.

Definition config_write_usergroup (conf : agent_config) : Eff W unit :=
  match usergroup conf with
  | None => ok tt
  | Some ug =>
      let* _ := config_ipc_write (ipc_write_uint8_block CONFIG_STREAM_TYPE_USERGROUP) in
      let* _ := config_ipc_write (ipc_write_string_block (ug_user ug)) in
      config_ipc_write (ipc_write_string_block (ug_group ug))
  end.

Fixpoint config_write_public_key (ptr : list bytes) : Eff W unit :=
  match ptr with
  | [] => ok tt
  | filename :: ptr =>
      let* _ := config_ipc_write (ipc_write_uint8_block CONFIG_STREAM_TYPE_PUBLIC_KEY) in
      let* _ := config_ipc_write (ipc_write_string_block filename) in
      config_write_public_key ptr
  end.

Definition config_write_block (conf : agent_config) : Eff W unit :=
  let* _ := config_ipc_write (ipc_write_uint8_block CONFIG_STREAM_TYPE_BOM) in
  let* _ := config_write_logdir conf in
  let* _ := config_write_loglevel conf in
  let* _ := config_write_block_max_milliseconds conf in
  let* _ := config_write_block_max_transactions conf in
  let* _ := config_write_secret conf in
  let* _ := config_write_rootblock conf in
  let* _ := config_write_datastore conf in
  let* _ := config_write_listen_addr (listen_head conf) in
  let* _ := config_write_chroot conf in
  let* _ := config_write_usergroup conf in
  let* _ := config_write_private_key conf in
  let* _ := config_write_endorser_key conf in
  let* _ := config_write_public_key (public_key_head conf) in
  config_ipc_write (ipc_write_uint8_block CONFIG_STREAM_TYPE_EOM).

(** ** Reading

    The functions take the structure as it is and give back the structure as
    they leave it; when they fail the caller only disposes of it. *)

Definition config_ipc_read {A} (m : Eff W A) : Eff W A :=
  let! r := m in
  match r with Ok a => ok a | Err _ => throw AGENTD_ERROR_CONFIG_IPC_READ_DATA_FAILURE end.

(** [is_set] tells whether the entry has been read before. *)
Definition once (is_set : bool) (m : Eff W agent_config) : Eff W agent_config :=
  if is_set then throw AGENTD_ERROR_CONFIG_INVALID_STREAM else m.
Definition is_set {A} (p : option A) : bool := match p with Some _ => true | None => false end.

(** A string that may be given once. *)
Definition config_read_string (cur : option bytes) (set : option bytes → agent_config → agent_config)
    (conf : agent_config) : Eff W agent_config :=
  once (is_set cur) (
    let* val := config_ipc_read ipc_read_string_block in ok (set (Some val) conf)).

(** A number between 0 and [max] that may be given once. *)
Definition config_read_int64 (cur : bool) (max : Z) (set : bool → Z → agent_config → agent_config)
    (conf : agent_config) : Eff W agent_config :=
  once cur (
    let* val := config_ipc_read ipc_read_int64_block in
    if (val <? 0) || (max <? val) then throw AGENTD_ERROR_CONFIG_INVALID_STREAM
    else ok (set true val conf)).

Definition config_read_logdir (conf : agent_config) : Eff W agent_config :=
  config_read_string (logdir conf) set_logdir conf.
Definition config_read_loglevel (conf : agent_config) : Eff W agent_config :=
  config_read_int64 (loglevel_set conf) 9 set_loglevel conf.
Definition config_read_block_max_milliseconds (conf : agent_config) : Eff W agent_config :=
  config_read_int64 (block_max_milliseconds_set conf) BLOCK_MILLISECONDS_MAXIMUM
    set_block_max_milliseconds conf.
Definition config_read_block_max_transactions (conf : agent_config) : Eff W agent_config :=
  config_read_int64 (block_max_transactions_set conf) BLOCK_TRANSACTIONS_MAXIMUM
    set_block_max_transactions conf.
Definition config_read_secret (conf : agent_config) : Eff W agent_config :=
  config_read_string (secret conf) set_secret conf.
Definition config_read_rootblock (conf : agent_config) : Eff W agent_config :=
  config_read_string (rootblock conf) set_rootblock conf.
Definition config_read_datastore (conf : agent_config) : Eff W agent_config :=
  config_read_string (datastore conf) set_datastore conf.
Definition config_read_chroot (conf : agent_config) : Eff W agent_config :=
  config_read_string (chroot conf) set_chroot conf.

(** The sizes of the structures that the readers allocate. *)
Definition sizeof_config_user_group : Z := 16.
Definition sizeof_config_listen_address : Z := 24.
Definition sizeof_in_addr : Z := 4.
Definition sizeof_config_key_entry : Z := 16.
Definition sizeof_config_public_key_entry : Z := 24.

Definition config_read_usergroup (conf : agent_config) : Eff W agent_config :=
  once (is_set (usergroup conf)) (
    let! mem := malloc sizeof_config_user_group in
    if negb mem then throw AGENTD_ERROR_GENERAL_OUT_OF_MEMORY else
    let* user := config_ipc_read ipc_read_string_block in
    let* group := config_ipc_read ipc_read_string_block in
    ok (set_usergroup (Some (UserGroup user group)) conf)).

(** The address is put at the head of the list; its port is truncated to 16
    bits.  What follows a zero byte in the address that was read is not looked at. *)
Definition config_read_listen_addr (conf : agent_config) : Eff W agent_config :=
  let! mem := malloc sizeof_config_listen_address in
  if negb mem then throw AGENTD_ERROR_GENERAL_OUT_OF_MEMORY else
  let* paddr := config_ipc_read ipc_read_string_block in
  let! mem := malloc sizeof_in_addr in
  if negb mem then throw AGENTD_ERROR_GENERAL_OUT_OF_MEMORY else
  match inet_pton (c_string paddr) with
  | None => throw AGENTD_ERROR_CONFIG_INET_PTON_FAILURE
  | Some addr =>
      let* port := config_ipc_read ipc_read_uint64_block in
      ok (set_listen_head (ListenAddress addr (port mod 2 ^ 16) :: listen_head conf) conf)
  end.

(** The private key and the endorser key. *)
Definition config_read_key (cur : option bytes) (set : option bytes → agent_config → agent_config)
    (conf : agent_config) : Eff W agent_config :=
  once (is_set cur) (
    let! mem := malloc sizeof_config_key_entry in
    if negb mem then throw AGENTD_ERROR_GENERAL_OUT_OF_MEMORY else
    let* filename := config_ipc_read ipc_read_string_block in
    ok (set (Some filename) conf)).

Definition config_read_private_key (conf : agent_config) : Eff W agent_config :=
  config_read_key (private_key conf) set_private_key conf.
Definition config_read_endorser_key (conf : agent_config) : Eff W agent_config :=
  config_read_key (endorser_key conf) set_endorser_key conf.

Definition config_read_public_key (conf : agent_config) : Eff W agent_config :=
  let! mem := malloc sizeof_config_public_key_entry in
  if negb mem then throw AGENTD_ERROR_GENERAL_OUT_OF_MEMORY else
  let* filename := config_ipc_read ipc_read_string_block in
  ok (set_public_key_head (filename :: public_key_head conf) conf).

(** The [switch] on the type of an entry, but for the end of the stream. *)
Definition config_read_entry (type : Z) (conf : agent_config) : Eff W agent_config :=
  if type =? CONFIG_STREAM_TYPE_LOGDIR then config_read_logdir conf
  else if type =? CONFIG_STREAM_TYPE_LOGLEVEL then config_read_loglevel conf
  else if type =? CONFIG_STREAM_TYPE_SECRET then config_read_secret conf
  else if type =? CONFIG_STREAM_TYPE_ROOTBLOCK then config_read_rootblock conf
  else if type =? CONFIG_STREAM_TYPE_DATASTORE then config_read_datastore conf
  else if type =? CONFIG_STREAM_TYPE_LISTEN_ADDR then config_read_listen_addr conf
  else if type =? CONFIG_STREAM_TYPE_CHROOT then config_read_chroot conf
  else if type =? CONFIG_STREAM_TYPE_USERGROUP then config_read_usergroup conf
  else if type =? CONFIG_STREAM_TYPE_BLOCK_MAX_MILLISECONDS then
    config_read_block_max_milliseconds conf
  else if type =? CONFIG_STREAM_TYPE_BLOCK_MAX_TRANSACTIONS then
    config_read_block_max_transactions conf
  else if type =? CONFIG_STREAM_TYPE_PRIVATE_KEY then config_read_private_key conf
  else if type =? CONFIG_STREAM_TYPE_ENDORSER_KEY then config_read_endorser_key conf
  else if type =? CONFIG_STREAM_TYPE_PUBLIC_KEY then config_read_public_key conf
  else throw AGENTD_ERROR_CONFIG_INVALID_STREAM.

(** The [while] loop; every round takes at least the type of an entry from the
    stream ([config_read_terminates]). *)
Fixpoint config_read_loop (fuel : nat) (conf : agent_config) : Eff W agent_config :=
  match fuel with
  | O => throw AGENTD_ERROR_CONFIG_INVALID_STREAM
  | S fuel =>
      let! r := ipc_read_uint8_block in
      match r with
      | Ok type =>
          if type =? CONFIG_STREAM_TYPE_EOM then ok conf else
          let* conf := config_read_entry type conf in
          config_read_loop fuel conf
      | Err _ => throw AGENTD_ERROR_CONFIG_INVALID_STREAM
      end
  end.

Definition config_read_block (fuel : nat) : Eff W agent_config :=
  let* type := config_ipc_read ipc_read_uint8_block in
  if negb (CONFIG_STREAM_TYPE_BOM =? type) then throw AGENTD_ERROR_CONFIG_INVALID_STREAM
  else config_read_loop fuel zero_config.

(** ** Defaults

    The literals of [config_set_defaults]. *)
Definition lit_log : bytes := string_bytes "log".
Definition lit_secret : bytes := string_bytes "root/secret.cert".
Definition lit_rootblock : bytes := string_bytes "root/root.cert".
Definition lit_data : bytes := string_bytes "data".
Definition lit_any_addr : bytes := string_bytes "0.0.0.0".
Definition lit_veloagent : bytes := string_bytes "veloagent".

(** [strdup]: nothing when there is no memory. *)
Definition strdup (s : bytes) : Act W (option bytes) :=
  let! mem := malloc (sizeof s + 1) in ret (if mem then Some s else None).

(** A string that is not set gets a default, or the function returns [err]. *)
Definition default_string (cur : option bytes) (dflt : bytes) (err : Z)
    (set : option bytes → agent_config → agent_config) (conf : agent_config) : Eff W agent_config :=
  match cur with
  | Some _ => ok conf
  | None =>
      let! s := strdup dflt in
      match s with Some s => ok (set (Some s) conf) | None => throw err end
  end.

(** A number that is not set, or not between 0 and [max]. *)
Definition default_int64 (is_set : bool) (val max dflt : Z)
    (set : bool → Z → agent_config → agent_config) (conf : agent_config) : agent_config :=
  if negb is_set || (val <? 0) || (max <? val) then set true dflt conf else conf.

Definition default_loglevel (conf : agent_config) : agent_config :=
  default_int64 (loglevel_set conf) (loglevel conf) 9 4 set_loglevel conf.
Definition default_database_max_size (conf : agent_config) : agent_config :=
  if negb (database_max_size_set conf)
  then set_database_max_size true (16 * 1024 * 1024 * 1024 * 1024) conf else conf.
Definition default_block_max_milliseconds (conf : agent_config) : agent_config :=
  default_int64 (block_max_milliseconds_set conf) (block_max_milliseconds conf)
    BLOCK_MILLISECONDS_MAXIMUM 5000 set_block_max_milliseconds conf.
Definition default_block_max_transactions (conf : agent_config) : agent_config :=
  default_int64 (block_max_transactions_set conf) (block_max_transactions conf)
    BLOCK_TRANSACTIONS_MAXIMUM 500 set_block_max_transactions conf.

Definition default_listen_head (conf : agent_config) : Eff W agent_config :=
  match listen_head conf with
  | _ :: _ => ok conf
  | [] =>
      let! mem := malloc sizeof_config_listen_address in
      if negb mem then throw 5 else
      let! mem := malloc sizeof_in_addr in
      if negb mem then throw 6 else
      match inet_pton lit_any_addr with
      | None => throw 7
      | Some addr => ok (set_listen_head [ListenAddress addr 4891] conf)
      end
  end.

Definition default_usergroup (conf : agent_config) : Eff W agent_config :=
  match usergroup conf with
  | Some _ => ok conf
  | None =>
      let! mem := malloc sizeof_config_user_group in
      if negb mem then throw 9 else
      let! user := strdup lit_veloagent in
      match user with
      | None => throw 10
      | Some user =>
          let! group := strdup lit_veloagent in
          match group with
          | None => throw 11
          | Some group => ok (set_usergroup (Some (UserGroup user group)) conf)
          end
      end
  end.

(** [prefix_dir] is the field of the bootstrap configuration. *)
Definition config_set_defaults (conf : agent_config) (prefix_dir : bytes) : Eff W agent_config :=
  let* conf := default_string (logdir conf) lit_log 1 set_logdir conf in
  let conf := default_loglevel conf in
  let conf := default_database_max_size conf in
  let conf := default_block_max_milliseconds conf in
  let conf := default_block_max_transactions conf in
  let* conf := default_string (secret conf) lit_secret 2 set_secret conf in
  let* conf := default_string (rootblock conf) lit_rootblock 3 set_rootblock conf in
  let* conf := default_string (datastore conf) lit_data 4 set_datastore conf in
  let* conf := default_listen_head conf in
  let* conf := default_string (chroot conf) prefix_dir 8 set_chroot conf in
  default_usergroup conf.
End stream.
