(* ===== verification/ConfigSpec.v ===== *)
(** * The configuration arrives

    What [config_write_block] writes is a sequence of entries; [config_read_block]
    accepts exactly the sequences that give nothing twice and no number out of
    range, and turns them back into a configuration.  The loop of the reader ends
    on any input, and what it accepts is within bounds. *)

From S2P Require Import Prelude Inet StatusCodes Lmdb Ipc IpcSpec ConfigStream.

(** ** Addresses as text *)

Lemma decimal_pton b s done :
  pton_loop (decimal (Z_of_byte b) ++ s) done None = pton_loop s done (Some (Z_of_byte b)).
Proof. destruct b; reflexivity. Qed.

Lemma pton_dot v s done :
  (length done < 3)%nat → pton_loop (Byte.x2e :: s) done (Some v) = pton_loop s (done ++ [byte_of_Z v]) None.
Proof. intros Hl. simpl. by rewrite (proj2 (Nat.eqb_neq _ _)) by lia. Qed.

Lemma length_decimal b : (length (decimal (Z_of_byte b)) ≤ 3)%nat.
Proof. unfold decimal. repeat case_match; simpl; lia. Qed.

(** The text of an address has no zero byte. *)
Lemma pton_no_nul s octets cur addr : pton_loop s octets cur = Some addr → c_string s = s.
Proof.
  revert octets cur. induction s as [|ch s IH]; intros octets cur; [done|]. cbn [c_string].
  case_bool_decide as Hch; [subst ch; done|]. simpl. intros H. f_equal.
  repeat case_match; try done; by eapply IH.
Qed.

#[local] Arguments decimal : simpl never.

(** The text of an address is read back as the address. *)
Lemma inet_roundtrip addr :
  length addr = 4%nat → ∃ s, inet_ntop addr 100 = Some s ∧ sizeof s < 100 ∧ inet_pton (c_string s) = Some addr.
Proof.
  assert (∀ t, pton_loop t [] None = Some addr → inet_pton (c_string t) = Some addr) as Hc
    by (intros t Ht; unfold inet_pton; by rewrite (pton_no_nul _ _ _ _ Ht)).
  intros Hl. destruct addr as [|a [|b [|c [|d [|]]]]]; try done.
  unfold inet_ntop. simpl. rewrite app_nil_r. eexists. case_match eqn:E.
  2: { exfalso. apply Z.ltb_ge in E. unfold sizeof in E.
       repeat (rewrite length_app in E; simpl in E).
       pose proof (length_decimal a). pose proof (length_decimal b).
       pose proof (length_decimal c). pose proof (length_decimal d). lia. }
  split; [done|]. split; [by apply Z.ltb_lt|]. apply Hc. clear Hc.
  rewrite <- (app_nil_r (decimal (Z_of_byte d))).
  repeat (rewrite decimal_pton; try rewrite pton_dot by (simpl; lia)). simpl.
  by rewrite !byte_of_Z_of_byte.
Qed.

Lemma pton_loop_length s done cur addr : pton_loop s done cur = Some addr → length addr = 4%nat.
Proof.
  revert done cur. induction s as [|ch s IH]; intros done cur; simpl.
  - destruct cur; [|done]. destruct (length done =? 3)%nat eqn:E; [|done]. intros [= <-].
    apply Nat.eqb_eq in E. rewrite length_app. simpl. lia.
  - repeat case_match; try done; apply IH.
Qed.

(** ** Entries *)

Inductive config_entry :=
  | ELogdir (s : bytes) | ELoglevel (v : Z) | ESecret (s : bytes) | ERootblock (s : bytes)
  | EDatastore (s : bytes) | EListen (addr : bytes) (port : Z) | EChroot (s : bytes)
  | EUsergroup (user group : bytes) | EMilliseconds (v : Z) | ETransactions (v : Z)
  | EPrivateKey (s : bytes) | EEndorserKey (s : bytes) | EPublicKey (s : bytes).

(** The type of an entry and the messages that follow it. *)
Definition entry_type (e : config_entry) : Z :=
  match e with
  | ELogdir _ => CONFIG_STREAM_TYPE_LOGDIR
  | ELoglevel _ => CONFIG_STREAM_TYPE_LOGLEVEL
  | ESecret _ => CONFIG_STREAM_TYPE_SECRET
  | ERootblock _ => CONFIG_STREAM_TYPE_ROOTBLOCK
  | EDatastore _ => CONFIG_STREAM_TYPE_DATASTORE
  | EListen _ _ => CONFIG_STREAM_TYPE_LISTEN_ADDR
  | EChroot _ => CONFIG_STREAM_TYPE_CHROOT
  | EUsergroup _ _ => CONFIG_STREAM_TYPE_USERGROUP
  | EMilliseconds _ => CONFIG_STREAM_TYPE_BLOCK_MAX_MILLISECONDS
  | ETransactions _ => CONFIG_STREAM_TYPE_BLOCK_MAX_TRANSACTIONS
  | EPrivateKey _ => CONFIG_STREAM_TYPE_PRIVATE_KEY
  | EEndorserKey _ => CONFIG_STREAM_TYPE_ENDORSER_KEY
  | EPublicKey _ => CONFIG_STREAM_TYPE_PUBLIC_KEY
  end.

Definition entry_body (e : config_entry) : list message :=
  match e with
  | ELogdir s | ESecret s | ERootblock s | EDatastore s | EChroot s
  | EPrivateKey s | EEndorserKey s | EPublicKey s => [msg_string s]
  | ELoglevel v | EMilliseconds v | ETransactions v => [msg_int64 v]
  | EListen addr port => [msg_string addr; msg_uint64 port]
  | EUsergroup user group => [msg_string user; msg_string group]
  end.

Definition entry_messages (e : config_entry) : list message :=
  msg_uint8 (entry_type e) :: entry_body e.

Definition stream_messages (es : list config_entry) : list message :=
  msg_uint8 CONFIG_STREAM_TYPE_BOM :: (es ≫= entry_messages) ++ [msg_uint8 CONFIG_STREAM_TYPE_EOM].

(** ** What the entries mean *)

Definition give_once {A} (cur : bool) (a : A) : result A :=
  if cur then Err AGENTD_ERROR_CONFIG_INVALID_STREAM else Ok a.

Definition give_int64 (cur : bool) (v max : Z) (conf : agent_config) : result agent_config :=
  if cur then Err AGENTD_ERROR_CONFIG_INVALID_STREAM
  else if (v <? 0) || (max <? v) then Err AGENTD_ERROR_CONFIG_INVALID_STREAM else Ok conf.

Definition entry_apply (e : config_entry) (c : agent_config) : result agent_config :=
  match e with
  | ELogdir s => give_once (is_set (logdir c)) (set_logdir (Some s) c)
  | ELoglevel v => give_int64 (loglevel_set c) v 9 (set_loglevel true v c)
  | ESecret s => give_once (is_set (secret c)) (set_secret (Some s) c)
  | ERootblock s => give_once (is_set (rootblock c)) (set_rootblock (Some s) c)
  | EDatastore s => give_once (is_set (datastore c)) (set_datastore (Some s) c)
  | EListen addr port =>
      match inet_pton (c_string addr) with
      | None => Err AGENTD_ERROR_CONFIG_INET_PTON_FAILURE
      | Some a => Ok (set_listen_head (ListenAddress a (port mod 2 ^ 16) :: listen_head c) c)
      end
  | EChroot s => give_once (is_set (chroot c)) (set_chroot (Some s) c)
  | EUsergroup user group =>
      give_once (is_set (usergroup c)) (set_usergroup (Some (UserGroup user group)) c)
  | EMilliseconds v =>
      give_int64 (block_max_milliseconds_set c) v BLOCK_MILLISECONDS_MAXIMUM
        (set_block_max_milliseconds true v c)
  | ETransactions v =>
      give_int64 (block_max_transactions_set c) v BLOCK_TRANSACTIONS_MAXIMUM
        (set_block_max_transactions true v c)
  | EPrivateKey s => give_once (is_set (private_key c)) (set_private_key (Some s) c)
  | EEndorserKey s => give_once (is_set (endorser_key c)) (set_endorser_key (Some s) c)
  | EPublicKey s => Ok (set_public_key_head (s :: public_key_head c) c)
  end.

Fixpoint apply_all (es : list config_entry) (c : agent_config) : result agent_config :=
  match es with
  | [] => Ok c
  | e :: es => let? c := entry_apply e c in apply_all es c
  end.

Lemma apply_all_app es1 es2 c :
  apply_all (es1 ++ es2) c = let? c := apply_all es1 c in apply_all es2 c.
Proof.
  revert c. induction es1 as [|e es1 IH]; intros c; simpl; [done|].
  destruct (entry_apply e c); simpl; [apply IH|done].
Qed.

(** ** The entries of a configuration *)

Definition entry_opt {A} (f : A → config_entry) (o : option A) : list config_entry :=
  match o with Some a => [f a] | None => [] end.
Definition entry_if (b : bool) (e : config_entry) : list config_entry := if b then [e] else [].

Definition config_entries (c : agent_config) : list config_entry :=
  entry_opt ELogdir (logdir c) ++
  entry_if (loglevel_set c) (ELoglevel (loglevel c)) ++
  entry_if (block_max_milliseconds_set c) (EMilliseconds (block_max_milliseconds c)) ++
  entry_if (block_max_transactions_set c) (ETransactions (block_max_transactions c)) ++
  entry_opt ESecret (secret c) ++
  entry_opt ERootblock (rootblock c) ++
  entry_opt EDatastore (datastore c) ++
  ((λ a, EListen (default [] (inet_ntop (la_addr a) 100)) (la_port a)) <$> listen_head c) ++
  entry_opt EChroot (chroot c) ++
  entry_opt (λ ug, EUsergroup (ug_user ug) (ug_group ug)) (usergroup c) ++
  entry_opt EPrivateKey (private_key c) ++
  entry_opt EEndorserKey (endorser_key c) ++
  (EPublicKey <$> public_key_head c).

(** The configurations that can be sent. *)
Definition fits (s : bytes) : Prop := sizeof s ≤ 10 * 1024 * 1024.
Definition fits_opt (o : option bytes) : Prop := default True (fits <$> o).
Definition in_range (b : bool) (v max : Z) : Prop := b = true → 0 ≤ v ≤ max.

Record sane_config (c : agent_config) : Prop := {
  sane_logdir : fits_opt (logdir c);
  sane_loglevel : in_range (loglevel_set c) (loglevel c) 9;
  sane_milliseconds : in_range (block_max_milliseconds_set c) (block_max_milliseconds c)
                        BLOCK_MILLISECONDS_MAXIMUM;
  sane_transactions : in_range (block_max_transactions_set c) (block_max_transactions c)
                        BLOCK_TRANSACTIONS_MAXIMUM;
  sane_secret : fits_opt (secret c);
  sane_rootblock : fits_opt (rootblock c);
  sane_datastore : fits_opt (datastore c);
  sane_listen : Forall (λ a, length (la_addr a) = 4%nat ∧ 0 ≤ la_port a < 2 ^ 16) (listen_head c);
  sane_chroot : fits_opt (chroot c);
  sane_usergroup : default True ((λ ug, fits (ug_user ug) ∧ fits (ug_group ug)) <$> usergroup c);
  sane_private_key : fits_opt (private_key c);
  sane_endorser_key : fits_opt (endorser_key c);
  sane_public_keys : Forall fits (public_key_head c) }.

(** What the receiver gets: the lists are reversed, and the size of the database
    and the views are not sent. *)
Definition config_received (c : agent_config) : agent_config :=
  AgentConfig (logdir c) (loglevel_set c) (if loglevel_set c then loglevel c else 0) false 0
    (block_max_milliseconds_set c)
    (if block_max_milliseconds_set c then block_max_milliseconds c else 0)
    (block_max_transactions_set c)
    (if block_max_transactions_set c then block_max_transactions c else 0)
    (secret c) (rootblock c) (datastore c) (reverse (listen_head c)) (chroot c) (usergroup c) []
    (private_key c) (endorser_key c) (reverse (public_key_head c)).

Lemma apply_listen l c :
  Forall (λ a, length (la_addr a) = 4%nat ∧ 0 ≤ la_port a < 2 ^ 16) l →
  apply_all ((λ a, EListen (default [] (inet_ntop (la_addr a) 100)) (la_port a)) <$> l) c
  = Ok (set_listen_head (reverse l ++ listen_head c) c).
Proof.
  intros Hl. revert c. induction Hl as [|a l [Ha Hp] _ IH]; intros c; [by destruct c|].
  destruct (inet_roundtrip _ Ha) as (s&Hs&_&Hr). simpl. rewrite Hs. simpl. rewrite Hr. simpl.
  rewrite IH, Z.mod_small by lia. destruct c, a; simpl. by rewrite reverse_cons, <- app_assoc.
Qed.

Lemma apply_public_keys l c :
  apply_all (EPublicKey <$> l) c = Ok (set_public_key_head (reverse l ++ public_key_head c) c).
Proof.
  revert c. induction l as [|a l IH]; intros c; [by destruct c|]. simpl. rewrite IH.
  destruct c; simpl. by rewrite reverse_cons, <- app_assoc.
Qed.

Lemma give_int64_ok v max c : 0 ≤ v ≤ max → give_int64 false v max c = Ok c.
Proof.
  intros H. unfold give_int64. rewrite (proj2 (Z.ltb_ge _ _)), (proj2 (Z.ltb_ge _ _)) by lia. done.
Qed.

#[local] Arguments give_int64 : simpl never.

Lemma apply_opt {A} (f : A → config_entry) (set : option A → agent_config → agent_config) o c :
  (∀ a, entry_apply (f a) c = Ok (set (Some a) c)) → set None c = c →
  apply_all (entry_opt f o) c = Ok (set o c).
Proof. intros Hf Hn. destruct o as [a|]; simpl; [by rewrite Hf|by rewrite Hn]. Qed.

Lemma apply_if (f : Z → config_entry) (set : bool → Z → agent_config → agent_config) b v max c :
  in_range b v max →
  entry_apply (f v) c = give_int64 false v max (set true v c) → set false 0 c = c →
  apply_all (entry_if b (f v)) c = Ok (set b (if b then v else 0) c).
Proof.
  intros Hr Hf Hn. destruct b; simpl; [|by rewrite Hn]. by rewrite Hf, give_int64_ok by auto.
Qed.

(** The entries of a configuration mean the configuration. *)
Lemma apply_config_entries c :
  sane_config c → apply_all (config_entries c) zero_config = Ok (config_received c).
Proof.
  intros []. unfold config_entries, zero_config. destruct c; simpl in *.
  rewrite apply_all_app, (apply_opt ELogdir set_logdir) by done; simpl.
  rewrite apply_all_app, (apply_if ELoglevel set_loglevel _ _ 9) by done; simpl.
  rewrite apply_all_app, (apply_if EMilliseconds set_block_max_milliseconds _ _
    BLOCK_MILLISECONDS_MAXIMUM) by done; simpl.
  rewrite apply_all_app, (apply_if ETransactions set_block_max_transactions _ _
    BLOCK_TRANSACTIONS_MAXIMUM) by done; simpl.
  rewrite apply_all_app, (apply_opt ESecret set_secret) by done; simpl.
  rewrite apply_all_app, (apply_opt ERootblock set_rootblock) by done; simpl.
  rewrite apply_all_app, (apply_opt EDatastore set_datastore) by done; simpl.
  rewrite apply_all_app, apply_listen by done; simpl.
  rewrite apply_all_app, (apply_opt EChroot set_chroot) by done; simpl.
  rewrite apply_all_app, (apply_opt _ set_usergroup) by (done || by intros []); simpl.
  rewrite apply_all_app, (apply_opt EPrivateKey set_private_key) by done; simpl.
  rewrite apply_all_app, (apply_opt EEndorserKey set_endorser_key) by done; simpl.
  rewrite apply_public_keys. simpl. by rewrite !app_nil_r.
Qed.

Section spec.
Context {W : Type} {M : MALLOC W} {IO : POSIX_IO W} {IOL : POSIX_IO_laws W}.

(** ** Writing *)

(** [m] writes the messages [ms], unless the platform fails. *)
Definition writes (m : Eff W unit) (ms : list message) : Prop :=
  ∀ w, post m (λ r w',
    match r with
    | Ok _ => rx w' = rx w ∧ tx w' = tx w ++ frames ms
    | Err s => s = AGENTD_ERROR_CONFIG_IPC_WRITE_DATA_FAILURE ∧ io_faulty
    end) w.

Lemma frames_app ms1 ms2 : frames (ms1 ++ ms2) = frames ms1 ++ frames ms2.
Proof. unfold frames. by rewrite fmap_app, concat_app. Qed.

Lemma frames_cons m ms : frames (m :: ms) = frame m ++ frames ms.
Proof. done. Qed.

Lemma writes_ok : writes (ok tt) [].
Proof. intros w. post_steps. by rewrite app_nil_r. Qed.

Lemma writes_bind m1 m2 ms1 ms2 :
  writes m1 ms1 → writes m2 ms2 → writes (let* _ := m1 in m2) (ms1 ++ ms2).
Proof.
  intros H1 H2 w. apply post_bind. eapply post_mono; [apply H1|]. intros [[]|s] w1; [|done].
  intros [Hr Ht]. eapply post_mono; [apply H2|]. intros [[]|s] w2; [|done]. intros [Hr2 Ht2].
  by rewrite Ht2, Ht, Hr2, frames_app, <- app_assoc.
Qed.

Lemma writes_one m : wf_message m → writes (config_ipc_write (write_block m)) [m].
Proof.
  intros Hm w. unfold config_ipc_write. apply post_act. eapply post_mono; [by apply write_block_spec|].
  intros [[]|s] w1; simpl; [intros [Hr Ht]|intros [_ Hf]]; post_steps; [|done].
  split; [done|]. unfold frames. simpl. by rewrite app_nil_r.
Qed.

Lemma writes_uint8 v : 0 ≤ v < 2 ^ 8 → writes (config_ipc_write (ipc_write_uint8_block v)) [msg_uint8 v].
Proof. apply (writes_one (msg_uint8 v)). Qed.
Lemma writes_string s : fits s → writes (config_ipc_write (ipc_write_string_block s)) [msg_string s].
Proof. apply (writes_one (msg_string s)). Qed.
Lemma writes_int64 v :
  - 2 ^ 63 ≤ v < 2 ^ 63 → writes (config_ipc_write (ipc_write_int64_block v)) [msg_int64 v].
Proof. apply (writes_one (msg_int64 v)). Qed.
Lemma writes_uint64 v : u64 v → writes (config_ipc_write (ipc_write_uint64_block v)) [msg_uint64 v].
Proof. apply (writes_one (msg_uint64 v)). Qed.

Lemma writes_entry_string f type o :
  fits_opt o → 0 ≤ type < 2 ^ 8 → (∀ s, entry_messages (f s) = [msg_uint8 type; msg_string s]) →
  writes (config_write_string type o) (entry_opt f o ≫= entry_messages).
Proof.
  intros Ho Ht Hf. destruct o as [s|]; simpl; [|apply writes_ok].
  unfold entry_messages in Hf. rewrite app_nil_r, Hf.
  apply (writes_bind _ _ [_] [_]); [by apply writes_uint8|by apply writes_string].
Qed.

Lemma writes_entry_int64 f type b v max :
  in_range b v max → max < 2 ^ 63 → 0 ≤ type < 2 ^ 8 →
  (∀ v, entry_messages (f v) = [msg_uint8 type; msg_int64 v]) →
  writes (config_write_int64 type b v) (entry_if b (f v) ≫= entry_messages).
Proof.
  intros Hr Hmax Ht Hf. destruct b; simpl; [|apply writes_ok].
  unfold entry_messages in Hf. rewrite app_nil_r, Hf. specialize (Hr eq_refl).
  apply (writes_bind _ _ [_] [_]); [by apply writes_uint8|apply writes_int64; lia].
Qed.

Lemma writes_listen l :
  Forall (λ a, length (la_addr a) = 4%nat ∧ 0 ≤ la_port a < 2 ^ 16) l →
  writes (config_write_listen_addr l)
    (((λ a, EListen (default [] (inet_ntop (la_addr a) 100)) (la_port a)) <$> l) ≫= entry_messages).
Proof.
  induction 1 as [|a l [Ha Hp] _ IH]; simpl; [apply writes_ok|].
  apply (writes_bind _ _ [_] (_ :: _ :: _)); [by apply writes_uint8|].
  destruct (inet_roundtrip _ Ha) as (s&->&Hs&_).
  apply (writes_bind _ _ [_] (_ :: _)); [apply writes_string; unfold fits; simpl; lia|].
  apply (writes_bind _ _ [_]); [apply writes_uint64; unfold u64; lia|done].
Qed.

Lemma writes_usergroup c :
  default True ((λ ug, fits (ug_user ug) ∧ fits (ug_group ug)) <$> usergroup c) →
  writes (config_write_usergroup c)
    (entry_opt (λ ug, EUsergroup (ug_user ug) (ug_group ug)) (usergroup c) ≫= entry_messages).
Proof.
  intros H. unfold config_write_usergroup. destruct (usergroup c) as [ug|]; [|apply writes_ok].
  destruct H. apply (writes_bind _ _ [_] [_; _]); [by apply writes_uint8|].
  apply (writes_bind _ _ [_] [_]); by apply writes_string.
Qed.

Lemma writes_public_keys l :
  Forall fits l → writes (config_write_public_key l) ((EPublicKey <$> l) ≫= entry_messages).
Proof.
  induction 1 as [|s l Hs _ IH]; simpl; [apply writes_ok|].
  apply (writes_bind _ _ [_] (_ :: _)); [by apply writes_uint8|].
  apply (writes_bind _ _ [_]); [by apply writes_string|done].
Qed.

Lemma write_block_entries c :
  sane_config c → writes (config_write_block c) (stream_messages (config_entries c)).
Proof.
  intros []. unfold config_write_block, stream_messages, config_entries.
  rewrite !bind_app, <- !app_assoc.
  apply (writes_bind _ _ [_]); [by apply writes_uint8|].
  repeat (apply writes_bind;
    [first [by apply writes_entry_string | by apply writes_listen | by apply writes_usergroup
           |by apply writes_public_keys | (eapply writes_entry_int64; [eassumption|done..])]|]).
  by apply writes_uint8.
Qed.

(** ** Reading *)

(** A reader returns [v] and leaves [rest], unless the platform fails. *)
Definition gets {A} (m : Eff W A) (msg : A → message) : Prop :=
  ∀ v rest w, wf_message (msg v) → rx w = frame (msg v) ++ rest → post m (has_read v rest w) w.

Lemma read_value_gets {A} (m : Eff W A) (msg : A → message) k :
  (∀ a b, msg a = msg b → a = b) → (∀ v, kind_of (msg v) = k) →
  read_block k = (let* a := m in ok (msg a)) → gets m msg.
Proof.
  intros Hinj Hk Hm v rest w Hv Hrx. pose proof (read_block_spec _ _ _ Hv Hrx) as H.
  rewrite Hk, Hm in H. apply post_map_inv in H. eapply post_mono; [exact H|].
  intros [a|s] w'; simpl; [intros (Ha&?&?); split_and!; auto|done].
Qed.

Lemma gets_uint8 : gets ipc_read_uint8_block msg_uint8.
Proof. apply (read_value_gets _ _ uint8); [by intros ?? [= ->]|done..]. Qed.
Lemma gets_string : gets ipc_read_string_block msg_string.
Proof. apply (read_value_gets _ _ string); [by intros ?? [= ->]|done..]. Qed.
Lemma gets_int64 : gets ipc_read_int64_block msg_int64.
Proof. apply (read_value_gets _ _ int64); [by intros ?? [= ->]|done..]. Qed.
Lemma gets_uint64 : gets ipc_read_uint64_block msg_uint64.
Proof. apply (read_value_gets _ _ uint64); [by intros ?? [= ->]|done..]. Qed.

(** The reader's answer [r'] is what the stream means, [r]; after a success it
    has consumed exactly its messages. *)
Definition parsed {A} (r : result A) (rest : bytes) (w : W) (r' : result A) (w' : W) : Prop :=
  match r' with
  | Ok a => r = Ok a ∧ rx w' = rest ∧ tx w' = tx w
  | Err s => r = Err s ∨ io_faulty
  end.

Lemma post_gets {A B} (m : Eff W A) msg v ms rest (k : A → Eff W B) r w :
  gets m msg → wf_message (msg v) → rx w = frames (msg v :: ms) ++ rest →
  (∀ w', rx w' = frames ms ++ rest → post (k v) (parsed r rest w') w') →
  post (let* a := config_ipc_read m in k a) (parsed r rest w) w.
Proof.
  intros Hg Hv Hrx Hk. rewrite frames_cons, <- app_assoc in Hrx.
  apply post_bind. unfold config_ipc_read. apply post_act.
  eapply post_mono; [by eapply Hg|]. intros [a|s] w1; simpl; [intros (->&Hr&Ht)|intros ?]; post_steps; [|by right].
  eapply post_mono; [by apply Hk|]. intros [b|s] w2; simpl; [|done]. by rewrite Ht.
Qed.

Lemma post_config_malloc {B} n (k : Eff W B) r rest w :
  0 < n → (∀ w', rx w' = rx w → tx w' = tx w → post k (parsed r rest w) w') →
  post (let! mem := malloc n in if negb mem then throw AGENTD_ERROR_GENERAL_OUT_OF_MEMORY else k)
    (parsed r rest w) w.
Proof.
  intros Hn Hk. apply post_act, post_io_malloc; [intros w1 Hr Ht; post_cbn; by apply Hk|].
  intros w1 [?|?]; [lia|]. post_steps. by right.
Qed.

Lemma parsed_tx {A} (r : result A) rest w1 w2 r' w' :
  tx w1 = tx w2 → parsed r rest w1 r' w' → parsed r rest w2 r' w'.
Proof. intros Ht. destruct r'; simpl; [|done]. by rewrite Ht. Qed.

(** One entry. *)
Definition wf_entry (e : config_entry) : Prop := Forall wf_message (entry_body e).

(** What a handler of an entry does with the rest of the stream. *)
Definition handles (k : Eff W agent_config) (r : result agent_config) (ms : list message) : Prop :=
  ∀ rest w, rx w = frames ms ++ rest → post k (parsed r rest w) w.

Lemma handles_once b k c ms : handles k (Ok c) ms → handles (once b k) (give_once b c) ms.
Proof. intros H rest w Hrx. destruct b; simpl; [post_steps; by left|by apply H]. Qed.

Lemma handles_string s (set : option bytes → agent_config → agent_config) conf :
  fits s →
  handles (let* val := config_ipc_read ipc_read_string_block in ok (set (Some val) conf))
    (Ok (set (Some s) conf)) [msg_string s].
Proof.
  intros Hs rest w Hrx. eapply post_gets; [apply gets_string|by apply Hs|done|].
  intros w1 Hr. post_steps. done.
Qed.

Lemma handles_read_string s cur set conf :
  fits s →
  handles (config_read_string cur set conf) (give_once (is_set cur) (set (Some s) conf)) [msg_string s].
Proof.
  intros Hs. apply handles_once. by apply handles_string.
Qed.

Lemma handles_read_key s cur set conf :
  fits s →
  handles (config_read_key cur set conf) (give_once (is_set cur) (set (Some s) conf)) [msg_string s].
Proof.
  intros Hs. apply handles_once. intros rest w Hrx.
  apply post_config_malloc; [done|]. intros w1 Hr Ht. rewrite <- Hr in Hrx.
  eapply post_mono; [by eapply handles_string|]. intros r' w2. by apply parsed_tx.
Qed.

Lemma handles_read_int64 v cur max set conf :
  - 2 ^ 63 ≤ v < 2 ^ 63 →
  handles (config_read_int64 cur max set conf) (give_int64 cur v max (set true v conf)) [msg_int64 v].
Proof.
  intros Hv rest w Hrx. unfold config_read_int64, once, give_int64.
  destruct cur; [post_steps; by left|]. eapply post_gets; [apply gets_int64|done..|].
  intros w1 Hr. destruct (_ || _); post_steps; [by left|done].
Qed.

Lemma handles_listen addr port conf :
  fits addr → u64 port →
  handles (config_read_listen_addr conf) (entry_apply (EListen addr port) conf)
    [msg_string addr; msg_uint64 port].
Proof.
  intros Ha Hp rest w Hrx. unfold config_read_listen_addr. simpl.
  apply post_config_malloc; [done|]. intros w1 Hr Ht. rewrite <- Hr in Hrx.
  eapply post_mono; [|intros r' w'; by apply parsed_tx].
  eapply post_gets; [apply gets_string|by apply Ha|done|]. intros w2 Hr2.
  apply post_config_malloc; [done|]. intros w3 Hr3 Ht3. rewrite <- Hr3 in Hr2.
  destruct (inet_pton (c_string addr)); [|post_steps; by left].
  eapply post_mono; [|intros r' w'; by apply parsed_tx].
  eapply post_gets; [apply gets_uint64|done..|]. intros w4 Hr4. post_steps. done.
Qed.

Lemma handles_usergroup user group conf :
  fits user → fits group →
  handles (config_read_usergroup conf) (entry_apply (EUsergroup user group) conf)
    [msg_string user; msg_string group].
Proof.
  intros Hu Hg. apply handles_once. intros rest w Hrx.
  apply post_config_malloc; [done|]. intros w1 Hr Ht. rewrite <- Hr in Hrx.
  eapply post_mono; [|intros r' w'; by apply parsed_tx].
  eapply post_gets; [apply gets_string|by apply Hu|done|]. intros w2 Hr2.
  eapply post_gets; [apply gets_string|by apply Hg|done|]. intros w3 Hr3. post_steps. done.
Qed.

Lemma handles_public_key s conf :
  fits s → handles (config_read_public_key conf) (entry_apply (EPublicKey s) conf) [msg_string s].
Proof.
  intros Hs rest w Hrx. unfold config_read_public_key.
  apply post_config_malloc; [done|]. intros w1 Hr Ht. rewrite <- Hr in Hrx.
  eapply post_mono; [|intros r' w'; by apply parsed_tx].
  eapply post_gets; [apply gets_string|by apply Hs|done|]. intros w2 Hr2. post_steps. done.
Qed.

Lemma handles_entry e conf :
  wf_entry e → handles (config_read_entry (entry_type e) conf) (entry_apply e conf) (entry_body e).
Proof.
  unfold wf_entry. intros He.
  destruct e; cbn [entry_body] in *; apply Forall_cons in He as [H1 H2]; cbn [wf_message] in *;
    cbv [entry_type config_read_entry CONFIG_STREAM_TYPE_LOGDIR CONFIG_STREAM_TYPE_LOGLEVEL
         CONFIG_STREAM_TYPE_SECRET CONFIG_STREAM_TYPE_ROOTBLOCK CONFIG_STREAM_TYPE_DATASTORE
         CONFIG_STREAM_TYPE_LISTEN_ADDR CONFIG_STREAM_TYPE_CHROOT CONFIG_STREAM_TYPE_USERGROUP
         CONFIG_STREAM_TYPE_BLOCK_MAX_MILLISECONDS CONFIG_STREAM_TYPE_BLOCK_MAX_TRANSACTIONS
         CONFIG_STREAM_TYPE_PRIVATE_KEY CONFIG_STREAM_TYPE_ENDORSER_KEY
         CONFIG_STREAM_TYPE_PUBLIC_KEY Z.eqb Pos.eqb].
  - by apply (handles_read_string s).
  - by apply handles_read_int64.
  - by apply (handles_read_string s).
  - by apply (handles_read_string s).
  - by apply (handles_read_string s).
  - apply handles_listen; [done|by apply Forall_inv in H2].
  - by apply (handles_read_string s).
  - apply handles_usergroup; [done|by apply Forall_inv in H2].
  - by apply handles_read_int64.
  - by apply handles_read_int64.
  - by apply (handles_read_key s).
  - by apply (handles_read_key s).
  - by apply handles_public_key.
Qed.

(** The loop on a sequence of entries; it needs a round for each and one for the
    end. *)
Lemma entry_type_range e : 0 ≤ entry_type e < 2 ^ 8 ∧ entry_type e ≠ CONFIG_STREAM_TYPE_EOM.
Proof. by destruct e. Qed.

Lemma read_loop_entries es fuel conf rest w :
  Forall wf_entry es → (length es < fuel)%nat →
  rx w = frames ((es ≫= entry_messages) ++ [msg_uint8 CONFIG_STREAM_TYPE_EOM]) ++ rest →
  post (config_read_loop fuel conf) (parsed (apply_all es conf) rest w) w.
Proof.
  intros Hes. revert fuel conf w.
  induction Hes as [|e es He _ IH]; intros [|fuel] conf w Hf Hrx; simpl in *; try lia.
  - rewrite frames_cons, <- app_assoc in Hrx.
    apply post_act. eapply post_mono; [eapply (gets_uint8 CONFIG_STREAM_TYPE_EOM); [by vm_compute|exact Hrx]|].
    intros [t|s] w1; simpl; [intros (->&Hr&Ht); rewrite Z.eqb_refl|intros ?]; post_steps; [done|by right].
  - destruct (entry_type_range e) as [Ht Hne].
    rewrite frames_cons, <- !app_assoc in Hrx.
    apply post_act. eapply post_mono; [eapply (gets_uint8 (entry_type e)); [done|exact Hrx]|].
    intros [t|s] w1; simpl; [intros (->&Hr&Htx)|intros ?]; [|post_steps; by right].
    rewrite (proj2 (Z.eqb_neq _ _)) by done. apply post_bind.
    rewrite frames_app, <- app_assoc in Hr.
    eapply post_mono; [by apply handles_entry|]. intros [c|s] w2; simpl.
    + intros (->&Hr2&Ht2). simpl. eapply post_mono; [by apply IH; [lia|]|].
      intros r' w3. apply parsed_tx. congruence.
    + intros [->|?]; [by left|by right].
Qed.

Lemma read_block_entries es fuel rest w :
  Forall wf_entry es → (length es < fuel)%nat → rx w = frames (stream_messages es) ++ rest →
  post (config_read_block fuel) (parsed (apply_all es zero_config) rest w) w.
Proof.
  intros Hes Hf Hrx. unfold config_read_block.
  eapply (post_gets _ _ CONFIG_STREAM_TYPE_BOM); [apply gets_uint8|done|exact Hrx|]. intros w1 Hr. simpl.
  by apply read_loop_entries.
Qed.

(** Every entry takes at least a byte. *)
Lemma stream_length es : (S (length es) ≤ length (frames (stream_messages es)))%nat.
Proof.
  assert (∀ ms, (length ms ≤ length (frames ms))%nat) as H.
  { intros ms. induction ms as [|m ms IH]; [done|]. rewrite frames_cons, length_app.
    assert (0 < length (frame m))%nat by (destruct m; unfold frame; rewrite length_app, length_be_enc; lia).
    simpl. lia. }
  etrans; [|apply H]. unfold stream_messages. simpl. rewrite length_app. simpl.
  assert (length es ≤ length (es ≫= entry_messages))%nat; [|lia].
  induction es as [|e es IH]; [done|]. rewrite bind_cons, length_app. unfold entry_messages at 1. simpl in *. lia.
Qed.

Lemma config_entries_wf c : sane_config c → Forall wf_entry (config_entries c).
Proof.
  intros []. unfold config_entries.
  assert (∀ f o, (∀ s, entry_body (f s) = [msg_string s]) → fits_opt o →
    Forall wf_entry (entry_opt f o)) as Hopt.
  { intros f [s|] Hf Ho; simpl; [|done]. apply Forall_singleton. unfold wf_entry. rewrite Hf.
    by apply Forall_singleton. }
  assert (∀ f b v max, (∀ v, entry_body (f v) = [msg_int64 v]) → in_range b v max → max < 2 ^ 63 →
    Forall wf_entry (entry_if b (f v))) as Hif.
  { intros f [] v max Hf Hr Hm; simpl; [|done]. specialize (Hr eq_refl).
    apply Forall_singleton. unfold wf_entry. rewrite Hf. apply Forall_singleton. simpl. lia. }
  repeat (apply Forall_app; split);
    try (by apply Hopt); try (by eapply Hif; [done|eassumption|done]).
  - apply Forall_fmap. eapply Forall_impl; [exact sane_listen0|]. intros a [Ha Hp]. unfold compose.
    destruct (inet_roundtrip _ Ha) as (s&->&Hs&_). simpl. repeat constructor; simpl; [lia|unfold u64; lia..].
  - destruct (usergroup c) as [ug|]; simpl in *; [|done]. apply Forall_singleton.
    repeat constructor; apply sane_usergroup0.
  - apply Forall_fmap. eapply Forall_impl; [exact sane_public_keys0|]. intros s Hs. by repeat constructor.
Qed.
End spec.
