(* ===== verification/ConfigSafety.v ===== *)
(** * Reading a configuration is safe, and completing it works

    For any stream, also one that no writer produced: the loop of
    [config_read_block] ends, and a configuration it accepts is within bounds.
    [config_set_defaults] sets whatever is missing. *)

From S2P Require Import Prelude Inet StatusCodes Lmdb Ipc IpcSpec ConfigStream ConfigSpec.

Section safety.
Context {W : Type} {M : MALLOC W} {IO : POSIX_IO W} {IOL : POSIX_IO_laws W}.

(** ** Readers on any stream *)

(** [m] puts nothing back on the stream, and what it returns is [P]. *)
Definition yields {A} (m : Eff W A) (P : A → Prop) : Prop :=
  ∀ w, post m (λ r w', (length (rx w') ≤ length (rx w))%nat ∧
                       match r with Ok a => P a | Err _ => True end) w.

Lemma config_yields_ok {A} (a : A) (P : A → Prop) : P a → yields (ok a) P.
Proof. intros Ha w. by post_steps. Qed.

Lemma yields_throw {A} s (P : A → Prop) : yields (throw s) P.
Proof. intros w. by post_steps. Qed.

Lemma yields_bind {A B} (m : Eff W A) (k : A → Eff W B) P Q :
  yields m P → (∀ a, P a → yields (k a) Q) → yields (bind m k) Q.
Proof.
  intros Hm Hk w. apply post_bind. eapply post_mono; [apply Hm|]. intros [a|s] w1 [Hl Ha]; [|done].
  eapply post_mono; [by apply Hk|]. intros r w2 [? ?]. split; [lia|done].
Qed.

Lemma yields_malloc {B} n (k : bool → Eff W B) Q : (∀ b, yields (k b) Q) → yields (act (malloc n) k) Q.
Proof.
  intros Hk w. apply post_act, post_run. destruct (malloc n w) as [b w1] eqn:E.
  destruct (law_io_malloc _ _ _ _ E) as [Hr _]. rewrite <- Hr. apply Hk.
Qed.

Lemma yields_read_object n : yields (read_object n) (λ b, length b = n).
Proof.
  intros w. unfold read_object. apply post_act, post_run.
  destruct (sys_read n w) as [[k b] w1] eqn:E. destruct (law_sys_read _ _ _ _ _ E) as (_&Hneg&Hpos).
  cbn [fst snd]. destruct (Z.ltb_spec k 0) as [Hk|Hk].
  - specialize (Hneg Hk). destruct (Z.eqb_spec (Z.of_nat n) k); [lia|]. post_steps. by rewrite Hneg.
  - destruct (Hpos Hk) as (_&Hb&Hr). unfold sizeof in Hb.
    destruct (Z.eqb_spec (Z.of_nat n) k); post_steps; rewrite Hr, length_app; split; [lia|lia|lia|done].
Qed.

Lemma yields_read_type t : yields (read_type t) (λ _, True).
Proof.
  unfold read_type. eapply yields_bind; [apply yields_read_object|]. intros b _.
  destruct (negb _); [apply yields_throw|by apply config_yields_ok].
Qed.

Lemma yields_ipc_read {A} (m : Eff W A) P : yields m P → yields (config_ipc_read m) P.
Proof.
  intros Hm w. unfold config_ipc_read. apply post_act. eapply post_mono; [apply Hm|].
  intros [a|s] w1 H; by post_steps.
Qed.

Lemma yields_string : yields (config_ipc_read ipc_read_string_block) fits.
Proof.
  apply yields_ipc_read. unfold ipc_read_string_block.
  eapply yields_bind; [apply yields_read_type|intros _ _].
  eapply yields_bind; [apply yields_read_object|intros nsize Hn]. cbv zeta.
  pose proof (ntohl_u32 (le_dec nsize)) as Hs.
  destruct (_ <? _) eqn:El; [apply yields_throw|]. apply Z.ltb_ge in El.
  apply yields_malloc. intros []; [|apply yields_throw]. cbn beta iota delta [negb].
  intros w. eapply post_mono; [apply yields_read_object|]. intros [b|s] w1 [? Hb]; [|done].
  split; [done|]. unfold fits, sizeof. rewrite Hb. unfold u32 in Hs. lia.
Qed.

Lemma yields_int64 : yields (config_ipc_read ipc_read_int64_block) (λ _, True).
Proof.
  apply yields_ipc_read. eapply yields_bind; [apply yields_read_type|intros _ _].
  eapply yields_bind; [apply yields_read_object|intros b _]. by apply config_yields_ok.
Qed.

Lemma yields_uint64 : yields (config_ipc_read ipc_read_uint64_block) (λ _, True).
Proof.
  apply yields_ipc_read. eapply yields_bind; [apply yields_read_type|intros _ _].
  eapply yields_bind; [apply yields_read_object|intros b _]. by apply config_yields_ok.
Qed.

(** Reading a byte takes something from the stream. *)
Lemma uint8_shrinks w :
  post ipc_read_uint8_block (λ r w',
    match r with
    | Ok _ => (length (rx w') < length (rx w))%nat
    | Err _ => (length (rx w') ≤ length (rx w))%nat
    end) w.
Proof.
  unfold ipc_read_uint8_block. apply post_bind. eapply post_mono; [apply yields_read_type|].
  intros [[]|s] w1 [Hl _]; [|done]. apply post_bind. unfold read_object. apply post_act, post_run.
  destruct (sys_read 1 w1) as [[k b] w2] eqn:E. destruct (law_sys_read _ _ _ _ _ E) as (_&Hneg&Hpos).
  cbn [fst snd]. destruct (Z.ltb_spec k 0) as [Hk|Hk].
  - specialize (Hneg Hk). destruct (Z.eqb_spec (Z.of_nat 1) k); [lia|]. post_steps. by rewrite Hneg.
  - destruct (Hpos Hk) as (_&Hb&Hr). unfold sizeof in Hb. rewrite Hr, length_app in Hl.
    destruct (Z.eqb_spec (Z.of_nat 1) k); post_steps; lia.
Qed.

Lemma yields_uint8 : yields ipc_read_uint8_block (λ _, True).
Proof. intros w. eapply post_mono; [apply uint8_shrinks|]. intros [] w1 ?; split; [lia|done|lia|done]. Qed.

(** ** Entries on any stream *)

#[local] Hint Resolve yields_string yields_int64 yields_uint64 yields_throw : core.

Lemma yields_once b k P : yields k P → yields (once b k) P.
Proof. intros Hk. destruct b; [apply yields_throw|done]. Qed.

Lemma yields_read_string cur (set : option bytes → agent_config → agent_config) c :
  (∀ s, fits s → sane_config (set (Some s) c)) → yields (config_read_string cur set c) sane_config.
Proof.
  intros Hs. apply yields_once. eapply yields_bind; [auto|]. intros s ?. by apply config_yields_ok, Hs.
Qed.

Lemma yields_read_key cur (set : option bytes → agent_config → agent_config) c :
  (∀ s, fits s → sane_config (set (Some s) c)) → yields (config_read_key cur set c) sane_config.
Proof.
  intros Hs. apply yields_once, yields_malloc. intros []; [|apply yields_throw].
  eapply yields_bind; [auto|]. intros s ?. by apply config_yields_ok, Hs.
Qed.

Lemma yields_read_int64 cur max set c :
  (∀ v, 0 ≤ v ≤ max → sane_config (set true v c)) → yields (config_read_int64 cur max set c) sane_config.
Proof.
  intros Hs. apply yields_once. eapply yields_bind; [auto|]. intros v _.
  destruct (_ || _) eqn:E; [apply yields_throw|]. apply orb_false_iff in E as [?%Z.ltb_ge ?%Z.ltb_ge].
  apply config_yields_ok, Hs. lia.
Qed.

Lemma yields_read_listen_addr c : sane_config c → yields (config_read_listen_addr c) sane_config.
Proof.
  intros Hc. apply yields_malloc. intros []; [|apply yields_throw].
  eapply yields_bind; [auto|]. intros addr _. apply yields_malloc. intros []; [|apply yields_throw].
  cbn beta iota delta [negb]. destruct (inet_pton (c_string addr)) as [a|] eqn:Ea; [|apply yields_throw].
  eapply yields_bind; [auto|]. intros port _. apply config_yields_ok.
  apply pton_loop_length in Ea. destruct Hc, c; split; simpl in *; try done.
  constructor; [|done]. split; [done|]. apply Z.mod_pos_bound. lia.
Qed.

Lemma yields_read_usergroup c : sane_config c → yields (config_read_usergroup c) sane_config.
Proof.
  intros Hc. apply yields_once, yields_malloc. intros []; [|apply yields_throw].
  eapply yields_bind; [auto|]. intros user ?. eapply yields_bind; [auto|]. intros group ?.
  apply config_yields_ok. by destruct Hc, c; split.
Qed.

Lemma yields_read_public_key c : sane_config c → yields (config_read_public_key c) sane_config.
Proof.
  intros Hc. apply yields_malloc. intros []; [|apply yields_throw].
  eapply yields_bind; [auto|]. intros s ?. apply config_yields_ok.
  destruct Hc, c; split; simpl in *; try done. by constructor.
Qed.

Lemma yields_read_entry type c : sane_config c → yields (config_read_entry type c) sane_config.
Proof.
  intros Hc. unfold config_read_entry.
  repeat match goal with |- yields (if ?b then _ else _) _ => case b end;
    try (first [apply yields_read_string | apply yields_read_int64 | apply yields_read_key];
         intros; destruct Hc, c; split; unfold in_range, fits_opt in *; simpl in *; by auto).
  - by apply yields_read_listen_addr.
  - by apply yields_read_usergroup.
  - by apply yields_read_public_key.
  - apply yields_throw.
Qed.

(** Without the bounds. *)
Lemma yields_entry_any type c : yields (config_read_entry type c) (λ _, True).
Proof.
  unfold config_read_entry, config_read_logdir, config_read_loglevel, config_read_secret,
    config_read_rootblock, config_read_datastore, config_read_listen_addr, config_read_chroot,
    config_read_usergroup, config_read_block_max_milliseconds, config_read_block_max_transactions,
    config_read_private_key, config_read_endorser_key, config_read_public_key, config_read_string,
    config_read_int64, config_read_key.
  repeat first [ apply yields_once | apply yields_malloc; intros ? | apply yields_throw
    | apply config_yields_ok; exact I | eapply yields_bind; [solve [auto]|intros ? _]
    | match goal with |- yields (if ?b then _ else _) _ => case b
                    | |- yields (match ?x with _ => _ end) _ => destruct x end ].
Qed.

Lemma yields_read_loop fuel c : sane_config c → yields (config_read_loop fuel c) sane_config.
Proof.
  revert c. induction fuel as [|fuel IH]; intros c Hc; [apply yields_throw|]. simpl. intros w.
  apply post_act. eapply post_mono; [apply uint8_shrinks|]. intros [t|s] w1 Hl; [|by post_steps].
  destruct (t =? _); [post_steps; split; [lia|done]|].
  eapply post_mono; [eapply yields_bind; [by apply yields_read_entry|apply IH]|].
  intros r w2 [? ?]. split; [lia|done].
Qed.

Lemma zero_config_sane : sane_config zero_config.
Proof. by split. Qed.

(** ** Defaults *)

Definition default_if_unset (dflt : bytes) (o : option bytes) : option bytes := Some (default dflt o).
Definition default_if_bad (is_set : bool) (v max dflt : Z) : Z :=
  if negb is_set || (v <? 0) || (max <? v) then dflt else v.

(** The configuration with everything set. *)
Definition completed (prefix_dir : bytes) (c : agent_config) : agent_config :=
  AgentConfig (default_if_unset lit_log (logdir c))
    true (default_if_bad (loglevel_set c) (loglevel c) 9 4)
    true (if database_max_size_set c then database_max_size c else 2 ^ 44)
    true (default_if_bad (block_max_milliseconds_set c) (block_max_milliseconds c)
            BLOCK_MILLISECONDS_MAXIMUM 5000)
    true (default_if_bad (block_max_transactions_set c) (block_max_transactions c)
            BLOCK_TRANSACTIONS_MAXIMUM 500)
    (default_if_unset lit_secret (secret c))
    (default_if_unset lit_rootblock (rootblock c))
    (default_if_unset lit_data (datastore c))
    (match listen_head c with [] => [ListenAddress (replicate 4 Byte.x00) 4891] | l => l end)
    (default_if_unset prefix_dir (chroot c))
    (Some (default (UserGroup lit_veloagent lit_veloagent) (usergroup c)))
    (view_head c) (private_key c) (endorser_key c) (public_key_head c).

Definition config_outcome (c : agent_config) (r : result agent_config) (w : W) : Prop :=
  match r with Ok c' => c' = c | Err s => 1 ≤ s ≤ 11 ∧ io_faulty end.

Lemma default_string_spec cur dflt err (set : option bytes → agent_config → agent_config) c w
    (Q : result agent_config → W → Prop) :
  1 ≤ err ≤ 11 → set cur c = c → (∀ w', Q (Ok (set (default_if_unset dflt cur) c)) w') →
  (∀ s w', 1 ≤ s ≤ 11 → io_faulty → Q (Err s) w') →
  post (default_string cur dflt err set c) Q w.
Proof.
  intros He Hc Hok Hf. destruct cur as [s|]; simpl.
  - post_steps. specialize (Hok w). unfold default_if_unset in Hok. simpl in Hok. by rewrite Hc in Hok.
  - unfold strdup. apply post_act, post_act, post_io_malloc; intros w1; [intros _ _|intros [Hm|?]];
      post_steps; [apply Hok|unfold sizeof in Hm; lia|auto].
Qed.

Lemma default_int64_eq b v max dflt (set : bool → Z → agent_config → agent_config) c :
  (b = true → set true v c = c) →
  default_int64 b v max dflt set c = set true (default_if_bad b v max dflt) c.
Proof.
  intros H. unfold default_int64, default_if_bad. destruct b; simpl; [|done].
  destruct (_ || _); [done|by rewrite H].
Qed.

(** The numbers of a configuration, completed. *)
Definition completed_numbers (c : agent_config) : agent_config :=
  set_block_max_transactions true
    (default_if_bad (block_max_transactions_set c) (block_max_transactions c)
       BLOCK_TRANSACTIONS_MAXIMUM 500)
  (set_block_max_milliseconds true
    (default_if_bad (block_max_milliseconds_set c) (block_max_milliseconds c)
       BLOCK_MILLISECONDS_MAXIMUM 5000)
  (set_database_max_size true (if database_max_size_set c then database_max_size c else 2 ^ 44)
  (set_loglevel true (default_if_bad (loglevel_set c) (loglevel c) 9 4) c))).

Lemma default_numbers_eq c :
  default_block_max_transactions (default_block_max_milliseconds
    (default_database_max_size (default_loglevel c))) = completed_numbers c.
Proof.
  unfold default_loglevel. rewrite default_int64_eq by (destruct c; simpl; by intros ->).
  set (c1 := set_loglevel _ _ c).
  assert (default_database_max_size c1
    = set_database_max_size true (if database_max_size_set c then database_max_size c else 2 ^ 44) c1) as ->.
  { unfold default_database_max_size, c1. destruct c; simpl. by destruct database_max_size_set. }
  unfold default_block_max_milliseconds.
  rewrite default_int64_eq by (destruct c; simpl; by intros ->).
  unfold default_block_max_transactions.
  rewrite default_int64_eq by (destruct c; simpl; by intros ->).
  by destruct c.
Qed.

Lemma default_listen_head_spec c w (Q : result agent_config → W → Prop) :
  (∀ w', Q (Ok (set_listen_head
     (match listen_head c with [] => [ListenAddress (replicate 4 Byte.x00) 4891] | l => l end) c)) w') →
  (∀ s w', 1 ≤ s ≤ 11 → io_faulty → Q (Err s) w') →
  post (default_listen_head c) Q w.
Proof.
  intros Hok Hf. unfold default_listen_head. destruct (listen_head c) as [|a l] eqn:El.
  - apply post_act, post_io_malloc; intros w1; [intros _ _|intros [?|?]; [done|post_steps; apply Hf; done]].
    post_cbn. apply post_act, post_io_malloc; intros w2; [intros _ _|intros [?|?]; [done|post_steps; apply Hf; done]].
    post_cbn. change (inet_pton lit_any_addr) with (Some (replicate 4 Byte.x00)).
    post_steps. apply Hok.
  - post_steps. specialize (Hok w). rewrite <- El in Hok. by destruct c.
Qed.

Lemma default_usergroup_spec c w (Q : result agent_config → W → Prop) :
  (∀ w', Q (Ok (set_usergroup (Some (default (UserGroup lit_veloagent
     lit_veloagent) (usergroup c))) c)) w') →
  (∀ s w', 1 ≤ s ≤ 11 → io_faulty → Q (Err s) w') →
  post (default_usergroup c) Q w.
Proof.
  intros Hok Hf. unfold default_usergroup, strdup. destruct (usergroup c) as [ug|] eqn:El.
  - post_steps. specialize (Hok w). simpl in Hok. rewrite <- El in Hok. by destruct c.
  - apply post_act, post_io_malloc; intros w1; [intros _ _|intros [?|?]; [done|post_steps; apply Hf; done]].
    post_cbn. apply post_act, post_act, post_io_malloc; intros w2;
      [intros _ _|intros [?|?]; [done|post_steps; apply Hf; done]]. post_steps.
    apply post_io_malloc; intros w3;
      [intros _ _|intros [?|?]; [done|post_steps; apply Hf; done]]. post_steps. apply Hok.
Qed.

Lemma set_defaults_spec prefix_dir c w :
  post (config_set_defaults c prefix_dir) (config_outcome (completed prefix_dir c)) w.
Proof.
  unfold config_set_defaults.
  apply post_bind, default_string_spec; [lia|by destruct c|intros w1|by simpl; auto].
  cbv zeta. rewrite default_numbers_eq.
  apply post_bind, default_string_spec; [lia|by destruct c|intros w2|by simpl; auto].
  apply post_bind, default_string_spec; [lia|by destruct c|intros w3|by simpl; auto].
  apply post_bind, default_string_spec; [lia|by destruct c|intros w4|by simpl; auto].
  apply post_bind, default_listen_head_spec; [intros w5|by simpl; auto].
  apply post_bind, default_string_spec; [lia|by destruct c|intros w6|by simpl; auto].
  apply default_usergroup_spec; [intros w7|by simpl; auto]. by destruct c.
Qed.

(** The loop does not need more rounds than there are bytes. *)
Lemma read_loop_fuel fuel1 fuel2 c w :
  (length (rx w) < fuel1)%nat → (length (rx w) < fuel2)%nat →
  config_read_loop fuel1 c w = config_read_loop fuel2 c w.
Proof.
  revert fuel2 c w. induction fuel1 as [|fuel1 IH]; intros [|fuel2] c w H1 H2; try lia.
  simpl. unfold act. pose proof (uint8_shrinks w) as Hs. rewrite post_run in Hs.
  destruct (ipc_read_uint8_block w) as [[t|s] w1]; simpl in Hs; [|done].
  destruct (t =? _); [done|]. unfold bind, act.
  pose proof (yields_entry_any t c w1) as He. rewrite post_run in He.
  destruct (config_read_entry t c w1) as [[c1|s] w2]; simpl in He; [|done].
  apply IH; lia.
Qed.

(** ** The theorems *)

(** C26: Round trip of the configuration: whatever configuration within bounds the
    parser process writes to its stream, the process that reads the stream gets
    the same configuration, but for the size of the database and the views,
    which are not sent, and for the order of the listen addresses and of the
    public keys, which is reversed; it reads exactly what was written.  Neither
    fails unless the platform does. *)
Theorem config_roundtrip c :
  sane_config c →
  (∀ w, post (config_write_block c) (λ r w',
     match r with
     | Ok _ => rx w' = rx w ∧ tx w' = tx w ++ frames (stream_messages (config_entries c))
     | Err s => s = AGENTD_ERROR_CONFIG_IPC_WRITE_DATA_FAILURE ∧ io_faulty
     end) w) ∧
  (∀ w rest fuel,
     rx w = frames (stream_messages (config_entries c)) ++ rest →
     (length (rx w) < fuel)%nat →
     post (config_read_block fuel) (λ r w',
       match r with
       | Ok c' => c' = config_received c ∧ rx w' = rest ∧ tx w' = tx w
       | Err _ => io_faulty
       end) w).
Proof.
  intros Hc. split; [by apply write_block_entries|]. intros w rest fuel Hrx Hf.
  eapply post_mono; [eapply read_block_entries; [by apply config_entries_wf| |exact Hrx]|].
  - rewrite Hrx, length_app in Hf. pose proof (stream_length (config_entries c)). lia.
  - rewrite apply_config_entries by done. intros [c'|s] w' H; simpl in H; [naive_solver|].
    by destruct H.
Qed.

(** C34: The reader is equivalent to a reference: on a stream that holds a sequence of
    entries between its marks, in any order and with any values that have a frame
    ([wf_entry]: strings of at most 10 MiB, numbers of 64 bits), [config_read_block],
    with fuel for the bytes of the stream, computes what giving the entries to an
    empty configuration one after the other computes, and fails with the same status
    when an entry comes twice, a number is out of range or an address, up to its first
    zero byte, is not one; unless reading from the stream or allocating memory fails.
    *)
Theorem config_read_equiv es w rest fuel :
  Forall wf_entry es → rx w = frames (stream_messages es) ++ rest → (length (rx w) < fuel)%nat →
  post (config_read_block fuel) (λ r w',
    r = apply_all es zero_config ∧ (is_ok r = true → rx w' = rest) ∨
    is_ok r = false ∧ io_faulty) w.
Proof.
  intros Hes Hrx Hf. eapply post_mono; [apply read_block_entries; [done| |exact Hrx]|].
  - rewrite Hrx, length_app in Hf. pose proof (stream_length es). lia.
  - intros [c|s] w' H; simpl in H; [left; naive_solver|]. destruct H; [left; naive_solver|by right].
Qed.

(** C35: Any stream, also one that no writer produced, is read safely: the reader
    ends, with no more rounds than there are bytes; and a configuration it
    accepts has all its numbers in range, no string longer than 10 MiB, IPv4
    addresses of four bytes and ports of 16 bits. *)
Theorem config_read_safe fuel w :
  (length (rx w) < fuel)%nat →
  config_read_block fuel w = config_read_block (S (length (rx w))) w ∧
  post (config_read_block fuel) (λ r _, match r with Ok c => sane_config c | Err _ => True end) w.
Proof.
  intros Hf. split.
  - unfold config_read_block, bind, act.
    pose proof (yields_ipc_read _ _ yields_uint8 w) as Hs. rewrite post_run in Hs.
    destruct (config_ipc_read ipc_read_uint8_block w) as [[t|s] w1]; simpl in Hs; [|done].
    destruct (negb _); [done|]. apply read_loop_fuel; lia.
  - unfold config_read_block. eapply post_mono.
    + eapply yields_bind; [apply yields_ipc_read, yields_uint8|]. intros t _.
      destruct (negb _); [apply yields_throw|apply yields_read_loop, zero_config_sane].
    + simpl. intros r w' [_ H]. exact H.
Qed.

(** Everything has a value, and the numbers are in range. *)
Record complete_config (c : agent_config) : Prop := {
  complete_strings : Forall is_Some [logdir c; secret c; rootblock c; datastore c; chroot c];
  complete_flags : Forall (λ b, b = true) [loglevel_set c; database_max_size_set c;
                     block_max_milliseconds_set c; block_max_transactions_set c];
  complete_loglevel : 0 ≤ loglevel c ≤ 9;
  complete_milliseconds : 0 ≤ block_max_milliseconds c ≤ BLOCK_MILLISECONDS_MAXIMUM;
  complete_transactions : 0 ≤ block_max_transactions c ≤ BLOCK_TRANSACTIONS_MAXIMUM;
  complete_listen : listen_head c ≠ [];
  complete_usergroup : is_Some (usergroup c) }.

(** Nothing that has a proper value is changed. *)
Record keeps_values (c c' : agent_config) : Prop := {
  keeps_strings : Forall2 (λ o o', ∀ s, o = Some s → o' = Some s)
    [logdir c; secret c; rootblock c; datastore c; chroot c]
    [logdir c'; secret c'; rootblock c'; datastore c'; chroot c'];
  keeps_loglevel : loglevel_set c = true → 0 ≤ loglevel c ≤ 9 → loglevel c' = loglevel c;
  keeps_size : database_max_size_set c = true → database_max_size c' = database_max_size c;
  keeps_milliseconds : block_max_milliseconds_set c = true →
    0 ≤ block_max_milliseconds c ≤ BLOCK_MILLISECONDS_MAXIMUM →
    block_max_milliseconds c' = block_max_milliseconds c;
  keeps_transactions : block_max_transactions_set c = true →
    0 ≤ block_max_transactions c ≤ BLOCK_TRANSACTIONS_MAXIMUM →
    block_max_transactions c' = block_max_transactions c;
  keeps_listen : listen_head c ≠ [] → listen_head c' = listen_head c;
  keeps_usergroup : ∀ ug, usergroup c = Some ug → usergroup c' = Some ug;
  keeps_keys : (view_head c', private_key c', endorser_key c', public_key_head c')
             = (view_head c, private_key c, endorser_key c, public_key_head c) }.

Lemma default_if_bad_range b v max dflt :
  0 ≤ dflt ≤ max → 0 ≤ default_if_bad b v max dflt ≤ max.
Proof.
  intros H. unfold default_if_bad. destruct b; simpl; [|done].
  destruct (v <? 0) eqn:E1; [done|]. destruct (max <? v) eqn:E2; [done|].
  apply Z.ltb_ge in E1, E2. simpl. lia.
Qed.

Lemma default_if_bad_keeps v max dflt : 0 ≤ v ≤ max → default_if_bad true v max dflt = v.
Proof.
  intros H. unfold default_if_bad. rewrite (proj2 (Z.ltb_ge v 0)), (proj2 (Z.ltb_ge max v)) by lia. done.
Qed.

Lemma completed_complete prefix_dir c : complete_config (completed prefix_dir c).
Proof.
  unfold completed. destruct c. split; simpl; try (by repeat constructor; eauto);
    try (by apply default_if_bad_range; split; vm_compute). by destruct listen_head.
Qed.

Lemma completed_keeps prefix_dir c : keeps_values c (completed prefix_dir c).
Proof.
  unfold completed. destruct c. split; simpl; try done; try (by intros -> ?; apply default_if_bad_keeps).
  - repeat constructor; by intros s ->.
  - by intros ->.
  - by destruct listen_head.
  - by intros ug ->.
Qed.

(** [config_set_defaults] completes any configuration: afterwards everything has a
    value and every number is in range, and what had a proper value has kept
    it.  It fails only for want of memory. *)
Theorem config_defaults_complete prefix_dir c w :
  post (config_set_defaults c prefix_dir) (λ r w',
    match r with
    | Ok c' => complete_config c' ∧ keeps_values c c'
    | Err s => 1 ≤ s ≤ 11 ∧ io_faulty
    end) w.
Proof.
  eapply post_mono; [apply set_defaults_spec|]. intros [c'|s] w'; [intros ->|done].
  split; [apply completed_complete|apply completed_keeps].
Qed.
End safety.
