(* ===== verification/ConfigExamples.v ===== *)
(** * A configuration on a concrete platform

    Evaluations of the reader and the writer, the witnesses of the theorems of
    [ConfigSafety], and what the code does not do that its documentation leads
    one to expect. *)

From S2P Require Import Prelude Inet StatusCodes Lmdb Ipc IpcSpec CodecExamples ConfigStream ConfigSpec ConfigSafety.

#[local] Existing Instance io_malloc.
#[local] Existing Instance io_posix.
#[local] Existing Instance io_posix_laws.

Definition ex_addr (d : Z) : bytes := byte_of_Z <$> [10; 0; 255; d].

Definition ex_config : agent_config :=
  AgentConfig (Some lit_log) true 7 true 1024 true 250 false 0 None (Some lit_rootblock) None
    [ListenAddress (ex_addr 1) 4931; ListenAddress (ex_addr 2) 80] None
    (Some (UserGroup lit_veloagent lit_data))
    [MaterializedView lit_data []] (Some lit_secret) None [lit_data; lit_log].

Definition ex_stream : bytes := frames (stream_messages (config_entries ex_config)).

Lemma ex_config_sane : sane_config ex_config.
Proof. split; repeat constructor; by vm_compute. Qed.

Definition rx_world (b : bytes) : io_world := IoWorld b [] (SockView [] [] [] []).

(** What is written is read back, with both lists reversed. *)
Example ex_config_written : io_tx (config_write_block ex_config (rx_world [])).2 = ex_stream.
Proof. by vm_compute. Qed.

Example ex_config_read :
  let '(r, w) := config_read_block 100 (rx_world (ex_stream ++ [Byte.x2a])) in
  r = Ok (config_received ex_config) ∧ io_rx w = [Byte.x2a] ∧
  listen_head <$> Some (config_received ex_config)
  = Some [ListenAddress (ex_addr 2) 80; ListenAddress (ex_addr 1) 4931].
Proof. by vm_compute. Qed.

(** An entry that comes twice, and a number out of range. *)
Example ex_config_twice :
  (config_read_block 100 (rx_world (frames (stream_messages [ELogdir lit_log; ELogdir lit_log])))).1
  = Err AGENTD_ERROR_CONFIG_INVALID_STREAM.
Proof. by vm_compute. Qed.

Example ex_config_range :
  (config_read_block 100 (rx_world (frames (stream_messages [ELoglevel 10])))).1
  = Err AGENTD_ERROR_CONFIG_INVALID_STREAM.
Proof. by vm_compute. Qed.

(** A port of more than 16 bits is truncated, not refused. *)
Example ex_config_port :
  (config_read_block 100 (rx_world (frames (stream_messages [EListen lit_any_addr (2 ^ 16 + 80)])))).1
  = Ok (set_listen_head [ListenAddress (replicate 4 Byte.x00) 80] zero_config).
Proof. by vm_compute. Qed.

(** An address ends at its first zero byte. *)
Example ex_config_zero_byte :
  (config_read_block 100 (rx_world (frames (stream_messages
     [EListen (lit_any_addr ++ [Byte.x00; Byte.x78]) 80])))).1
  = Ok (set_listen_head [ListenAddress (replicate 4 Byte.x00) 80] zero_config) ∧
  (config_read_block 100 (rx_world (frames (stream_messages [EListen (lit_any_addr ++ [Byte.x78]) 80])))).1
  = Err AGENTD_ERROR_CONFIG_INET_PTON_FAILURE.
Proof. by vm_compute. Qed.

(** ** Witnesses *)

Lemma config_roundtrip_witness :
  (∀ w : io_world, post (config_write_block ex_config) (λ r w',
     match r with
     | Ok _ => rx w' = rx w ∧ tx w' = tx w ++ frames (stream_messages (config_entries ex_config))
     | Err s => s = AGENTD_ERROR_CONFIG_IPC_WRITE_DATA_FAILURE ∧ io_faulty
     end) w) ∧
  (∀ (w : io_world) rest fuel,
     rx w = frames (stream_messages (config_entries ex_config)) ++ rest →
     (length (rx w) < fuel)%nat →
     post (config_read_block fuel) (λ r w',
       match r with
       | Ok c' => c' = config_received ex_config ∧ rx w' = rest ∧ tx w' = tx w
       | Err _ => io_faulty
       end) w).
Proof. apply (config_roundtrip (W := io_world)), ex_config_sane. Defined.

Lemma config_read_equiv_witness :
  post (config_read_block 1000) (λ r w',
    r = apply_all [ELoglevel 3; ELoglevel 4] zero_config ∧ (is_ok r = true → rx w' = []) ∨
    is_ok r = false ∧ io_faulty) (rx_world (frames (stream_messages [ELoglevel 3; ELoglevel 4]))).
Proof.
  apply (config_read_equiv (W := io_world)); [by repeat constructor|by rewrite app_nil_r|].
  apply Nat.ltb_lt. by vm_compute.
Defined.

Lemma config_read_safe_witness :
  config_read_block 1000 (rx_world ex_stream)
  = config_read_block (S (length (rx (rx_world ex_stream)))) (rx_world ex_stream) ∧
  post (config_read_block 1000) (λ r _, match r with Ok c => sane_config c | Err _ => True end)
    (rx_world ex_stream).
Proof. apply (config_read_safe (W := io_world)). apply Nat.ltb_lt. by vm_compute. Defined.
