(* ===== verification/Dispatch.v ===== *)
(** * Decoding and dispatching requests

    [dataservice_decode_and_dispatch*.c] and [dataservice_ipc_read.c]: a packet
    from the socket is decoded, its child context looked up, the method called,
    and a response with the status and the payload written.  The handlers thread
    the instance that the requests about contexts change. *)

From S2P Require Import Prelude Inet StatusCodes Contexts Lmdb Txn Records Vccert Database ProcessQueue BlockMake Queries RequestCodec ResponseCodec Ipc.

Section dispatch.
Context {W : Type} {L : LMDB W} {VC : VCCERT W} {VB : VCCRYPT_BUFFER W} {EV : LIBEVENT W} {ME : MDB_ENV W}.
(** Whether the build has attestation ([submit_state]). *)
Context (ATTESTATION : bool).

(** ** Responses *)

(** The packet size is a [size_t]; [ipc_write_data_noblock] takes a [uint32_t]. *)
Definition dataservice_decode_and_dispatch_write_status (method offset status : Z)
    (data : option bytes) : Eff W unit :=
  let resp := status_packet method offset (wrap32 status) data in
  let! mem := malloc (sizeof resp) in
  if negb mem then throw AGENTD_ERROR_GENERAL_OUT_OF_MEMORY else
  let! retval := ipc_write_data_noblock (take (Z.to_nat (wrap32 (sizeof resp))) resp) in
  match retval with
  | Ok _ => ok tt
  | Err _ => throw AGENTD_ERROR_DATASERVICE_IPC_WRITE_DATA_FAILURE
  end.

(** The label [done] of a handler: [retval] is the status of the request, with
    the payload of a success. *)
Definition write_result (method offset : Z) (retval : result (option bytes)) : Eff W unit :=
  dataservice_decode_and_dispatch_write_status method offset (status_of retval)
    match retval with Ok payload => payload | Err _ => None end.

(** ** Requests on a child context

    Decode, look the child context up, call the method, respond. *)
Definition child_ctx (inst : dataservice_instance) (i : nat) : dataservice_child_context :=
  cd_ctx (default zero_details (children inst !! i)).

Definition on_child {A} (inst : dataservice_instance) (child : Z)
    (method : dataservice_child_context → Eff W A) : Eff W A :=
  match dataservice_child_context_lookup inst child with
  | Ok i => method (child_ctx inst i)
  | Err s => throw s
  end.

Definition child_request {D} (method : Z) (child_index : D → Z) (inst : dataservice_instance)
    (decoded : result D) (call : D → dataservice_child_context → Eff W (option bytes)) : Eff W unit :=
  let! retval :=
    let* dreq := ret decoded in on_child inst (child_index dreq) (call dreq) in
  write_result method (request_child child_index decoded) retval.

Definition dataservice_decode_and_dispatch_global_setting_get (inst : dataservice_instance)
    (req : bytes) : Eff W unit :=
  child_request DATASERVICE_API_METHOD_APP_GLOBAL_SETTING_READ gg_child_index inst
    (dataservice_decode_request_global_setting_get req) (λ dreq ctx,
      let! '(r, _) := dataservice_global_settings_get ctx (gg_key dreq) 16384 in
      ret (let? v := r in Ok (Some v))).

Definition dataservice_decode_and_dispatch_global_setting_set (inst : dataservice_instance)
    (req : bytes) : Eff W unit :=
  child_request DATASERVICE_API_METHOD_APP_GLOBAL_SETTING_WRITE gs_child_index inst
    (dataservice_decode_request_global_setting_set req) (λ dreq ctx,
      let* _ := dataservice_global_settings_set ctx (gs_key dreq) (gs_val dreq) in ok None).

Definition dataservice_decode_and_dispatch_transaction_submit (inst : dataservice_instance)
    (req : bytes) : Eff W unit :=
  child_request DATASERVICE_API_METHOD_APP_PQ_TRANSACTION_SUBMIT ts_child_index inst
    (dataservice_decode_request_transaction_submit req) (λ dreq ctx,
      let* _ := dataservice_transaction_submit ATTESTATION ctx None
                  (ts_txn_id dreq) (ts_artifact_id dreq) (ts_cert dreq) in ok None).

Definition dataservice_decode_and_dispatch_transaction_get_first (inst : dataservice_instance)
    (req : bytes) : Eff W unit :=
  child_request DATASERVICE_API_METHOD_APP_PQ_TRANSACTION_FIRST_READ tf_child_index inst
    (dataservice_decode_request_transaction_get_first req) (λ dreq ctx,
      let* '(node, txn_bytes) := dataservice_transaction_get_first ctx None in
      let* payload := dataservice_encode_response_transaction_get_first
        (txn_node_key node) (txn_node_prev node) (txn_node_next node) (txn_node_artifact_id node)
        (txn_node_net_txn_state node) txn_bytes in
      ok (Some payload)).

Definition dataservice_decode_and_dispatch_transaction_get (inst : dataservice_instance)
    (req : bytes) : Eff W unit :=
  child_request DATASERVICE_API_METHOD_APP_PQ_TRANSACTION_READ tg_child_index inst
    (dataservice_decode_request_transaction_get req) (λ dreq ctx,
      let* '(node, txn_bytes) := dataservice_transaction_get ctx None (tg_txn_id dreq) in
      let* payload := dataservice_encode_response_transaction_get
        (txn_node_key node) (txn_node_prev node) (txn_node_next node) (txn_node_artifact_id node)
        (txn_node_net_txn_state node) txn_bytes in
      ok (Some payload)).

Definition dataservice_decode_and_dispatch_transaction_drop (inst : dataservice_instance)
    (req : bytes) : Eff W unit :=
  child_request DATASERVICE_API_METHOD_APP_PQ_TRANSACTION_DROP td_child_index inst
    (dataservice_decode_request_transaction_drop req) (λ dreq ctx,
      let* _ := dataservice_transaction_drop ctx None (td_txn_id dreq) in ok None).

Definition dataservice_decode_and_dispatch_transaction_promote (inst : dataservice_instance)
    (req : bytes) : Eff W unit :=
  child_request DATASERVICE_API_METHOD_APP_PQ_TRANSACTION_PROMOTE tp_child_index inst
    (dataservice_decode_request_transaction_promote req) (λ dreq ctx,
      let* _ := dataservice_transaction_promote ctx None (tp_txn_id dreq) in ok None).

Definition dataservice_decode_and_dispatch_artifact_read (inst : dataservice_instance)
    (req : bytes) : Eff W unit :=
  child_request DATASERVICE_API_METHOD_APP_ARTIFACT_READ ar_child_index inst
    (dataservice_decode_request_payload_artifact_read req) (λ dreq ctx,
      let* record := dataservice_artifact_get ctx None (ar_artifact_id dreq) in
      let* payload := dataservice_encode_response_payload_artifact_read
        (artifact_key record) (artifact_txn_first record) (artifact_txn_latest record)
        (ntohll (artifact_net_height_first record)) (ntohll (artifact_net_height_latest record))
        (ntohl (artifact_net_state_latest record)) in
      ok (Some payload)).

Definition dataservice_decode_and_dispatch_block_make (inst : dataservice_instance)
    (req : bytes) : Eff W unit :=
  child_request DATASERVICE_API_METHOD_APP_BLOCK_WRITE bm_child_index inst
    (dataservice_decode_request_block_make req) (λ dreq ctx,
      let* _ := dataservice_block_make ctx None (bm_block_id dreq) (bm_cert dreq) in ok None).

Definition dataservice_decode_and_dispatch_block_read (inst : dataservice_instance)
    (req : bytes) : Eff W unit :=
  child_request DATASERVICE_API_METHOD_APP_BLOCK_READ br_child_index inst
    (dataservice_decode_request_block_read req) (λ dreq ctx,
      let* '(node, block_bytes) := dataservice_block_get ctx None (br_block_id dreq) in
      let* payload := dataservice_encode_response_block_read
        (block_node_key node) (block_node_prev node) (block_node_next node)
        (block_node_first_transaction_id node) (ntohll (block_node_net_block_height node))
        (br_read_cert dreq) block_bytes in
      ok (Some payload)).

Definition dataservice_decode_and_dispatch_block_id_by_height_read (inst : dataservice_instance)
    (req : bytes) : Eff W unit :=
  child_request DATASERVICE_API_METHOD_APP_BLOCK_ID_BY_HEIGHT_READ bh_child_index inst
    (dataservice_decode_request_block_id_by_height_read req) (λ dreq ctx,
      let* block_id := dataservice_block_id_by_height_get ctx None (bh_block_height dreq) in
      let* payload := dataservice_encode_response_block_id_by_height_read block_id in
      ok (Some payload)).

Definition dataservice_decode_and_dispatch_block_id_latest_read (inst : dataservice_instance)
    (req : bytes) : Eff W unit :=
  child_request DATASERVICE_API_METHOD_APP_BLOCK_ID_LATEST_READ bl_child_index inst
    (dataservice_decode_request_block_id_latest_read req) (λ dreq ctx,
      let* block_id := dataservice_latest_block_id_get ctx None in
      let* payload := dataservice_encode_response_block_id_latest_read block_id in
      ok (Some payload)).

Definition dataservice_decode_and_dispatch_canonized_transaction_get (inst : dataservice_instance)
    (req : bytes) : Eff W unit :=
  child_request DATASERVICE_API_METHOD_APP_TRANSACTION_READ cg_child_index inst
    (dataservice_decode_request_canonized_transaction_get req) (λ dreq ctx,
      let* '(node, txn_bytes) := dataservice_canonized_transaction_get ctx None (cg_txn_id dreq) in
      let* payload := dataservice_encode_response_canonized_transaction_get
        (txn_node_key node) (txn_node_prev node) (txn_node_next node) (txn_node_artifact_id node)
        (txn_node_block_id node) (txn_node_net_txn_state node) (cg_read_cert dreq) txn_bytes in
      ok (Some payload)).

(** ** Requests about contexts *)

Definition set_root (inst : dataservice_instance) (ctx : dataservice_root_context)
  : dataservice_instance :=
  Instance_ (inst_dispose inst) ctx (children inst) (child_head inst) (dataservice_force_exit inst).

(** A request that cannot be decoded gets no response. *)
Definition dataservice_decode_and_dispatch_root_context_create (inst : dataservice_instance)
    (req : bytes) : Act W (result unit * dataservice_instance) :=
  let! dreq := dataservice_decode_request_root_context_init req in
  match dreq with
  | Err s => ret (Err s, inst)
  | Ok dreq =>
      let! '(retval, ctx) :=
        dataservice_root_context_init (inst_ctx inst) (ri_max_database_size dreq) (ri_datadir dreq) in
      let! r := write_result DATASERVICE_API_METHOD_LL_ROOT_CONTEXT_CREATE 0
                  (let? _ := retval in Ok None) in
      ret (r, set_root inst ctx)
  end.

(** The decision on the request, without the response. *)
Definition root_context_reduce_caps_call (inst : dataservice_instance) (req : bytes)
  : result (option bytes) * dataservice_instance :=
  match (let? dreq := dataservice_decode_request_root_context_reduce_caps req in
         dataservice_root_context_reduce_capabilities (inst_ctx inst) (rc_caps dreq)) with
  | Ok ctx => (Ok None, set_root inst ctx)
  | Err s => (Err s, inst)
  end.

Definition dataservice_decode_and_dispatch_root_context_reduce_caps (inst : dataservice_instance)
    (req : bytes) : Act W (result unit * dataservice_instance) :=
  let '(retval, inst') := root_context_reduce_caps_call inst req in
  let! r := write_result DATASERVICE_API_METHOD_LL_ROOT_CONTEXT_REDUCE_CAPS 0 retval in
  ret (r, inst').

(** Assign the context of the child at an offset. *)
Definition set_child_ctx (inst : dataservice_instance) (i : nat) (ctx : dataservice_child_context)
  : dataservice_instance :=
  set_children inst (child_head inst)
    (alter (λ c, ChildDetails (cd_dispose c) (cd_next c) ctx) i (children inst)).

(** Take a child from the free list, let it be made a context, and encode its
    offset; the label [cleanup_child_instance] puts it back. *)
Definition child_context_create_call (inst : dataservice_instance) (caps : bitcap)
  : Act W (result (option bytes) * dataservice_instance) :=
  match dataservice_child_details_create inst with
  | (Err _, inst) => ret (Err AGENTD_ERROR_DATASERVICE_CHILD_CONTEXT_MAX_REACHED, inst)
  | (Ok child_offset, inst) =>
      let ctx := child_ctx inst child_offset in
      let ctx := ChildContext (child_root ctx)
        (BITCAP_SET_TRUE (childcaps ctx) DATASERVICE_API_CAP_LL_CHILD_CONTEXT_CREATE) in
      let inst := set_child_ctx inst child_offset ctx in
      match dataservice_child_context_create (inst_ctx inst) ctx caps with
      | Err _ =>
          ret (Err AGENTD_ERROR_DATASERVICE_CHILD_CONTEXT_CREATE_FAILURE,
               dataservice_child_details_delete inst child_offset)
      | Ok ctx =>
          let inst := set_child_ctx inst child_offset ctx in
          let! payload := dataservice_encode_response_child_context_create (Z.of_nat child_offset) in
          match payload with
          | Ok payload => ret (Ok (Some payload), inst)
          | Err s => ret (Err s, dataservice_child_details_delete inst child_offset)
          end
      end
  end.

Definition dataservice_decode_and_dispatch_child_context_create (inst : dataservice_instance)
    (req : bytes) : Act W (result unit * dataservice_instance) :=
  let! '(retval, inst') :=
    match dataservice_decode_request_child_context_create req with
    | Ok dreq => child_context_create_call inst (cr_caps dreq)
    | Err s => ret (Err s, inst)
    end in
  let! r := write_result DATASERVICE_API_METHOD_LL_CHILD_CONTEXT_CREATE 0 retval in
  ret (r, inst').

Definition child_context_close_call (inst : dataservice_instance) (child : Z)
  : result (option bytes) * dataservice_instance :=
  match dataservice_child_context_lookup inst child with
  | Err s => (Err s, inst)
  | Ok i =>
      match dataservice_child_context_close (child_ctx inst i) with
      | Err _ => (Err AGENTD_ERROR_DATASERVICE_CHILD_DETAILS_DELETE_FAILURE, inst)
      | Ok ctx => (Ok None, dataservice_child_details_delete (set_child_ctx inst i ctx) i)
      end
  end.

Definition dataservice_decode_and_dispatch_child_context_close (inst : dataservice_instance)
    (req : bytes) : Act W (result unit * dataservice_instance) :=
  let dreq := dataservice_decode_request_child_context_close req in
  let '(retval, inst') :=
    match dreq with
    | Ok d => child_context_close_call inst (cc_child_index d)
    | Err s => (Err s, inst)
    end in
  let! r := write_result DATASERVICE_API_METHOD_LL_CHILD_CONTEXT_CLOSE
              (request_child cc_child_index dreq) retval in
  ret (r, inst').

(** ** The dispatcher *)

(** A handler that does not change the instance. *)
Definition with_inst (inst : dataservice_instance) (m : Eff W unit)
  : Act W (result unit * dataservice_instance) :=
  let! r := m in ret (r, inst).

(** The [switch]. *)
Definition dispatch_method (inst : dataservice_instance) (method : Z) (breq : bytes)
  : Act W (result unit * dataservice_instance) :=
  if method =? DATASERVICE_API_METHOD_LL_ROOT_CONTEXT_CREATE then
    dataservice_decode_and_dispatch_root_context_create inst breq
  else if method =? DATASERVICE_API_METHOD_LL_ROOT_CONTEXT_REDUCE_CAPS then
    dataservice_decode_and_dispatch_root_context_reduce_caps inst breq
  else if method =? DATASERVICE_API_METHOD_LL_CHILD_CONTEXT_CREATE then
    dataservice_decode_and_dispatch_child_context_create inst breq
  else if method =? DATASERVICE_API_METHOD_LL_CHILD_CONTEXT_CLOSE then
    dataservice_decode_and_dispatch_child_context_close inst breq
  else with_inst inst (
  if method =? DATASERVICE_API_METHOD_APP_GLOBAL_SETTING_READ then
    dataservice_decode_and_dispatch_global_setting_get inst breq
  else if method =? DATASERVICE_API_METHOD_APP_GLOBAL_SETTING_WRITE then
    dataservice_decode_and_dispatch_global_setting_set inst breq
  else if method =? DATASERVICE_API_METHOD_APP_PQ_TRANSACTION_SUBMIT then
    dataservice_decode_and_dispatch_transaction_submit inst breq
  else if method =? DATASERVICE_API_METHOD_APP_PQ_TRANSACTION_FIRST_READ then
    dataservice_decode_and_dispatch_transaction_get_first inst breq
  else if method =? DATASERVICE_API_METHOD_APP_PQ_TRANSACTION_READ then
    dataservice_decode_and_dispatch_transaction_get inst breq
  else if method =? DATASERVICE_API_METHOD_APP_PQ_TRANSACTION_DROP then
    dataservice_decode_and_dispatch_transaction_drop inst breq
  else if method =? DATASERVICE_API_METHOD_APP_PQ_TRANSACTION_PROMOTE then
    dataservice_decode_and_dispatch_transaction_promote inst breq
  else if method =? DATASERVICE_API_METHOD_APP_ARTIFACT_READ then
    dataservice_decode_and_dispatch_artifact_read inst breq
  else if method =? DATASERVICE_API_METHOD_APP_BLOCK_WRITE then
    dataservice_decode_and_dispatch_block_make inst breq
  else if method =? DATASERVICE_API_METHOD_APP_BLOCK_READ then
    dataservice_decode_and_dispatch_block_read inst breq
  else if method =? DATASERVICE_API_METHOD_APP_BLOCK_ID_BY_HEIGHT_READ then
    dataservice_decode_and_dispatch_block_id_by_height_read inst breq
  else if method =? DATASERVICE_API_METHOD_APP_BLOCK_ID_LATEST_READ then
    dataservice_decode_and_dispatch_block_id_latest_read inst breq
  else if method =? DATASERVICE_API_METHOD_APP_TRANSACTION_READ then
    dataservice_decode_and_dispatch_canonized_transaction_get inst breq
  else
    let! _ := dataservice_decode_and_dispatch_write_status method 0
                AGENTD_ERROR_DATASERVICE_REQUEST_PACKET_BAD None in
    throw AGENTD_ERROR_DATASERVICE_REQUEST_PACKET_BAD).

Definition dataservice_decode_and_dispatch (inst : dataservice_instance) (req : bytes)
  : Act W (result unit * dataservice_instance) :=
  match dispatch_header req with
  | Err s => ret (Err s, inst)
  | Ok (method, breq) => dispatch_method inst method breq
  end.

(** ** The read callback *)

(** [dataservice_exit_event_loop]: the flag; the loop ends once the pending
    events are processed. *)
Definition dataservice_exit_event_loop (inst : dataservice_instance) : dataservice_instance :=
  Instance_ (inst_dispose inst) (inst_ctx inst) (children inst) (child_head inst) true.

(** The loop of [dataservice_ipc_read], with [fuel] for the number of packets.
    A request whose dispatch fails makes the service leave its event loop, but
    not this loop. *)
Fixpoint ipc_read_loop (fuel : nat) (inst : dataservice_instance) : Act W dataservice_instance :=
  match fuel with
  | O => ret inst
  | S fuel =>
      let! retval := ipc_read_data_noblock in
      match retval with
      | Ok req =>
          let! '(r, inst) := dataservice_decode_and_dispatch inst req in
          let inst := if is_ok r then inst else dataservice_exit_event_loop inst in
          let! len := ipc_socket_readbuffer_size in
          if 0 <? len then ipc_read_loop fuel inst else ret inst
      | Err s =>
          if s =? AGENTD_ERROR_IPC_WOULD_BLOCK then ret inst
          else ret (dataservice_exit_event_loop inst)
      end
  end.

(** The result tells whether the write callback is set at the end. *)
Definition dataservice_ipc_read (fuel : nat) (inst : dataservice_instance)
  : Act W (dataservice_instance * bool) :=
  if dataservice_force_exit inst then ret (inst, false) else
  let! inst := ipc_read_loop fuel inst in
  let! len := ipc_socket_writebuffer_size in
  ret (inst, 0 <? len).

(** [would_block] tells whether a failed write may be tried again. *)
Definition dataservice_ipc_write (inst : dataservice_instance) (would_block : bool)
  : Act W (dataservice_instance * bool) :=
  let! len := ipc_socket_writebuffer_size in
  if 0 <? len then
    let! bytes_written := ipc_socket_write_from_buffer in
    if bytes_written =? 0 then ret (dataservice_exit_event_loop inst, false)
    else if bytes_written <? 0 then
      if negb would_block then ret (dataservice_exit_event_loop inst, false) else ret (inst, false)
    else
      let! len := ipc_socket_writebuffer_size in
      ret (inst, 0 <? len)
  else ret (inst, false).
End dispatch.
