(* ===== verification/DispatchInv.v ===== *)
(** * What requests can do to the service instance

    The instance as a state machine: its transitions, that the dispatcher makes
    only these, and the invariant they preserve. *)

From S2P Require Import Prelude Inet StatusCodes Contexts Lmdb Txn Records Vccert Database ProcessQueue BlockMake Queries RequestCodec ResponseCodec Ipc Dispatch.

(** ** Transitions *)

Inductive inst_step (inst : dataservice_instance) : dataservice_instance → Prop :=
  | step_none : inst_step inst inst
  | step_root_init details :
      BITCAP_ISSET (apicaps (inst_ctx inst)) DATASERVICE_API_CAP_LL_ROOT_CONTEXT_CREATE = true →
      inst_step inst (set_root inst (RootContext true
        (BITCAP_SET_FALSE (BITCAP_INIT_TRUE cap_words) DATASERVICE_API_CAP_LL_ROOT_CONTEXT_CREATE)
        details))
  | step_reduce caps ctx :
      dataservice_root_context_reduce_capabilities (inst_ctx inst) caps = Ok ctx →
      inst_step inst (set_root inst ctx)
  | step_create i inst1 child ctx caps :
      dataservice_child_details_create inst = (Ok i, inst1) →
      dataservice_child_context_create (inst_ctx inst) child caps = Ok ctx →
      inst_step inst (set_child_ctx inst1 i ctx)
  | step_create_failed i inst1 ctx :
      dataservice_child_details_create inst = (Ok i, inst1) →
      inst_step inst (dataservice_child_details_delete (set_child_ctx inst1 i ctx) i)
  | step_close child i ctx :
      dataservice_child_context_lookup inst child = Ok i →
      dataservice_child_context_close (child_ctx inst i) = Ok ctx →
      inst_step inst (dataservice_child_details_delete (set_child_ctx inst i ctx) i).

Lemma set_child_ctx_twice inst i c c' :
  set_child_ctx (set_child_ctx inst i c) i c' = set_child_ctx inst i c'.
Proof.
  unfold set_child_ctx, set_children. simpl. f_equal. apply list_eq. intros j.
  rewrite !list_lookup_alter. repeat case_decide; [|done..]. by destruct (children inst !! i).
Qed.

Section dispatch.
Context {W : Type} {L : LMDB W} {VC : VCCERT W} {VB : VCCRYPT_BUFFER W} {EV : LIBEVENT W} {ME : MDB_ENV W}.
Context (ATTESTATION : bool).

(** A run that ends in a pair whose second component is in [P]. *)
Definition ends_in {A B} (P : B → Prop) (m : Act W (A * B)) : Prop := ∀ w, P (m w).1.2.

Lemma ends_in_ret {A B} (P : B → Prop) (a : A) b : P b → ends_in P (ret (a, b)).
Proof. by intros ? w. Qed.

Lemma ends_in_act {A B C} (P : B → Prop) (m : Act W C) (k : C → Act W (A * B)) :
  (∀ c, ends_in P (k c)) → ends_in P (act m k).
Proof. intros Hk w. unfold act. destruct (m w) as [c w']. apply Hk. Qed.

(** When the first effect yields the instance. *)
Lemma ends_in_bind {A B C} (P : B → Prop) (m : Act W (C * B)) (k : C * B → Act W (A * B)) :
  ends_in P m → (∀ c b, P b → ends_in P (k (c, b))) → ends_in P (act m k).
Proof.
  intros Hm Hk w. unfold act. specialize (Hm w). destruct (m w) as [[c b] w']. by apply Hk.
Qed.

Lemma reply_step inst inst' method offset retval :
  inst_step inst inst' →
  ends_in (inst_step inst) (let! r := write_result method offset retval in ret (r, inst')).
Proof. intros H. apply ends_in_act. intros r. by apply ends_in_ret. Qed.

Lemma root_context_create_step inst req :
  ends_in (inst_step inst) (dataservice_decode_and_dispatch_root_context_create inst req).
Proof.
  apply ends_in_act. intros [dreq|s]; [|apply ends_in_ret, step_none].
  unfold dataservice_root_context_init.
  destruct (BITCAP_ISSET (apicaps (inst_ctx inst)) _) eqn:E; cbn [negb].
  - intros w. unfold act at 1 2. destruct (dataservice_database_open _ _ w) as [[r d] w'].
    unfold ret at 1. revert w'. apply reply_step. by apply step_root_init.
  - intros w. revert w. apply (reply_step inst).
    replace (set_root inst (inst_ctx inst)) with inst by (by destruct inst). apply step_none.
Qed.

Lemma reduce_caps_step inst req : inst_step inst (root_context_reduce_caps_call inst req).2.
Proof.
  unfold root_context_reduce_caps_call.
  destruct (dataservice_decode_request_root_context_reduce_caps req) as [d|s]; simpl; [|constructor].
  destruct (dataservice_root_context_reduce_capabilities _ _) eqn:E; simpl; [|constructor].
  by eapply step_reduce.
Qed.

Lemma child_create_step inst caps : ends_in (inst_step inst) (child_context_create_call inst caps).
Proof.
  unfold child_context_create_call.
  destruct (dataservice_child_details_create inst) as [[i|s] inst1] eqn:E.
  2: { apply ends_in_ret. unfold dataservice_child_details_create in E.
       destruct (child_head inst); simplify_eq. constructor. }
  assert (inst_ctx inst1 = inst_ctx inst) as Hroot.
  { unfold dataservice_child_details_create in E. destruct (child_head inst); by simplify_eq/=. }
  cbv zeta. cbn [inst_ctx set_child_ctx set_children]. rewrite Hroot.
  set (child := ChildContext _ _).
  destruct (dataservice_child_context_create (inst_ctx inst) child caps) as [ctx|s] eqn:Ec.
  - apply ends_in_act. intros [payload|s]; apply ends_in_ret.
    + rewrite set_child_ctx_twice. by eapply step_create.
    + rewrite set_child_ctx_twice. by eapply step_create_failed.
  - apply ends_in_ret. by eapply step_create_failed.
Qed.

Lemma child_close_step inst child : inst_step inst (child_context_close_call inst child).2.
Proof.
  unfold child_context_close_call.
  destruct (dataservice_child_context_lookup inst child) as [i|] eqn:E; [|constructor].
  destruct (dataservice_child_context_close _) eqn:Ec; [|constructor]. by eapply step_close.
Qed.

(** The dispatcher only makes transitions of the state machine. *)
Lemma dispatch_step inst req :
  ends_in (inst_step inst) (dataservice_decode_and_dispatch ATTESTATION inst req).
Proof.
  unfold dataservice_decode_and_dispatch.
  destruct (dispatch_header req) as [[method breq]|s]; [|apply ends_in_ret; constructor].
  unfold dispatch_method.
  case (method =? _); [apply root_context_create_step|].
  case (method =? _).
  { unfold dataservice_decode_and_dispatch_root_context_reduce_caps.
    pose proof (reduce_caps_step inst breq) as H.
    destruct (root_context_reduce_caps_call inst breq). by apply reply_step. }
  case (method =? _).
  { apply (ends_in_bind (inst_step inst)); [|intros r inst'; apply reply_step].
    destruct (dataservice_decode_request_child_context_create breq); [apply child_create_step|].
    apply ends_in_ret. constructor. }
  case (method =? _).
  { unfold dataservice_decode_and_dispatch_child_context_close.
    destruct (dataservice_decode_request_child_context_close breq) as [d|s]; cbv zeta iota.
    - pose proof (child_close_step inst (cc_child_index d)) as H.
      destruct (child_context_close_call inst _). by apply reply_step.
    - apply reply_step. constructor. }
  apply ends_in_act. intros r. apply ends_in_ret. constructor.
Qed.
End dispatch.

(** ** The invariant *)

(** The free list is intact; no child context may create contexts; child contexts
    exist only after the root context was initialised; and until then the root
    context may do nothing else. *)
Record inst_inv (inst : dataservice_instance) : Prop := {
  ii_free : ∃ free, children_inv inst free;
  ii_child : ∀ i c, children inst !! i = Some c → cd_dispose c = true →
    BITCAP_ISSET (childcaps (cd_ctx c)) DATASERVICE_API_CAP_LL_CHILD_CONTEXT_CREATE = false ∧
    BITCAP_ISSET (apicaps (inst_ctx inst)) DATASERVICE_API_CAP_LL_ROOT_CONTEXT_CREATE = false;
  ii_root : BITCAP_ISSET (apicaps (inst_ctx inst)) DATASERVICE_API_CAP_LL_ROOT_CONTEXT_CREATE = true →
    ∀ bit, BITCAP_ISSET (apicaps (inst_ctx inst)) bit
           = bool_decide (bit = DATASERVICE_API_CAP_LL_ROOT_CONTEXT_CREATE) }.

Lemma inst_inv_create : inst_inv dataservice_instance_create.
Proof.
  destruct instance_create_spec as [Hfree Hcaps]. split.
  - eauto.
  - intros i c Hi Hd. destruct Hfree as (Hlen&_&_&Hin). exfalso.
    assert (cd_dispose c = false) as Hf; [|congruence].
    apply (Hin i c Hi), elem_of_reverse, elem_of_seq. apply lookup_lt_Some in Hi. lia.
  - intros _. exact Hcaps.
Qed.

(** Changing only the root context: when the service was initialised or is now. *)
Lemma inst_inv_set_root inst ctx :
  inst_inv inst →
  BITCAP_ISSET (apicaps ctx) DATASERVICE_API_CAP_LL_ROOT_CONTEXT_CREATE = false →
  inst_inv (set_root inst ctx).
Proof.
  intros [[free Hfree] Hch Hroot] Hctx. split; simpl.
  - by exists free.
  - intros i c Hi Hd. by destruct (Hch i c Hi Hd).
  - congruence.
Qed.

(** A context in a child that was just taken. *)
Lemma inst_inv_set_child inst i c free :
  children_inv inst free → children_inv (set_child_ctx inst i c) free.
Proof.
  intros (Hlen&Hch&Hnd&Hin).
  assert (∀ j d, children (set_child_ctx inst i c) !! j = Some d →
    ∃ d', children inst !! j = Some d' ∧ cd_dispose d = cd_dispose d') as Hsame.
  { intros j d. simpl. rewrite list_lookup_alter. case_decide; [|eauto].
    subst. intros (d'&?&->)%fmap_Some. eauto. }
  split_and!; simpl; [by rewrite length_alter| |done|].
  - assert (∀ l head, free_chain (children inst) head l →
      free_chain (children (set_child_ctx inst i c)) head l) as H; [|by apply H].
    intros l. induction l as [|j l IH]; intros head; simpl; [done|].
    intros (->&d&Hj&Hd&Hl). split; [done|]. rewrite list_lookup_alter. case_decide; subst.
    + rewrite Hj. eexists. split_and!; [done|done|by apply IH].
    + eauto.
  - intros j d Hj. destruct (Hsame j d Hj) as (d'&Hd'&->). by apply Hin.
Qed.

Lemma details_create_inst inst i inst1 :
  (∃ free, children_inv inst free) → dataservice_child_details_create inst = (Ok i, inst1) →
  (∃ free, children_inv inst1 free) ∧ inst_ctx inst1 = inst_ctx inst ∧
  children inst1 = <[i := ChildDetails true None zero_child]> (children inst) ∧
  (i < length (children inst))%nat.
Proof.
  intros [[|j free] Hfree] E; [by rewrite details_create_full in E|].
  assert (j < length (children inst))%nat as Hlt
    by (destruct Hfree as (_&Hch&_); eapply free_chain_lt; [exact Hch|set_solver]).
  destruct (details_create_inv inst j free Hfree) as (inst'&E'&?&?&?). rewrite E in E'.
  simplify_eq. eauto 10.
Qed.

(** Deleting a child that is in use. *)
Lemma inst_inv_delete inst i :
  (∃ free, children_inv inst free) → (∃ c, children inst !! i = Some c ∧ cd_dispose c = true) →
  ∃ free, children_inv (dataservice_child_details_delete inst i) free.
Proof. intros [free Hfree] (c&Hc&Hd). eexists. by eapply details_delete_inv. Qed.

(** The children in use after a transition, other than [i], were there before. *)
Definition keeps_others (inst inst' : dataservice_instance) (i : nat) : Prop :=
  ∀ j c, j ≠ i → children inst' !! j = Some c → children inst !! j = Some c.

Lemma keeps_others_create inst i inst1 ctx :
  children inst1 = <[i := ChildDetails true None zero_child]> (children inst) →
  keeps_others inst (set_child_ctx inst1 i ctx) i.
Proof.
  intros Hch j c Hj. simpl. rewrite Hch, list_lookup_alter, decide_False by congruence.
  by rewrite list_lookup_insert_ne by congruence.
Qed.

Lemma keeps_others_delete inst inst1 i :
  keeps_others inst inst1 i → keeps_others inst (dataservice_child_details_delete inst1 i) i.
Proof.
  intros H j c Hj. simpl. rewrite list_lookup_insert_ne by congruence. by apply H.
Qed.

(** An instance whose children but [i] are as before, and [i] is harmless. *)
Lemma inst_inv_children inst inst' i :
  inst_inv inst → (∃ free, children_inv inst' free) → inst_ctx inst' = inst_ctx inst →
  keeps_others inst inst' i →
  (∀ c, children inst' !! i = Some c → cd_dispose c = true →
     BITCAP_ISSET (childcaps (cd_ctx c)) DATASERVICE_API_CAP_LL_CHILD_CONTEXT_CREATE = false ∧
     BITCAP_ISSET (apicaps (inst_ctx inst)) DATASERVICE_API_CAP_LL_ROOT_CONTEXT_CREATE = false) →
  inst_inv inst'.
Proof.
  intros [_ Hch Hroot] Hfree Hctx Hk Hi. split; [done| |by rewrite Hctx].
  intros j c Hj Hd. rewrite Hctx. destruct (decide (j = i)) as [->|Hne]; [by apply Hi|].
  by eapply Hch; [apply Hk|].
Qed.

Lemma delete_unused inst i c :
  children (dataservice_child_details_delete inst i) !! i = Some c → cd_dispose c = false.
Proof. simpl. rewrite list_lookup_insert. case_decide as H; [by intros [= <-]|]. intros Hc.
  exfalso. apply H. split; [done|]. by eapply lookup_lt_Some. Qed.

(** ** Reachable instances *)

Lemma inst_step_inv inst inst' : inst_inv inst → inst_step inst inst' → inst_inv inst'.
Proof.
  intros Hinv Hstep. pose proof Hinv as [Hfree Hch Hroot].
  destruct Hstep as [|details Hr|caps ctx E|i inst1 child ctx caps E Ec|i inst1 ctx E|child i ctx El Ec].
  - done.
  - apply inst_inv_set_root; [done|]. simpl. by vm_compute.
  - unfold dataservice_root_context_reduce_capabilities in E.
    destruct (BITCAP_ISSET (apicaps (inst_ctx inst)) _) eqn:Er; simplify_eq/=.
    apply inst_inv_set_root; [done|]. simpl. rewrite ISSET_INTERSECT.
    destruct (BITCAP_ISSET _ DATASERVICE_API_CAP_LL_ROOT_CONTEXT_CREATE) eqn:E0; [|done].
    by rewrite (Hroot eq_refl) in Er.
  - destruct (details_create_inst _ _ _ Hfree E) as ([free Hf]&Hctx&Hc1&Hlt).
    eapply inst_inv_children; [done|eexists; by apply inst_inv_set_child|done|by apply keeps_others_create|].
    intros c. simpl. rewrite list_lookup_alter, decide_True by done.
    rewrite Hc1, list_lookup_insert_eq by done. intros [= <-] _. simpl.
    unfold dataservice_child_context_create in Ec.
    destruct (BITCAP_ISSET (apicaps (inst_ctx inst)) _) eqn:Er; [|done].
    destruct (BITCAP_ISSET (childcaps child) _); simplify_eq/=. split.
    + by rewrite ISSET_SET_FALSE, bool_decide_false by (by intros []).
    + destruct (BITCAP_ISSET (apicaps (inst_ctx inst)) DATASERVICE_API_CAP_LL_ROOT_CONTEXT_CREATE) eqn:E0;
        [|done]. by rewrite (Hroot eq_refl) in Er.
  - destruct (details_create_inst _ _ _ Hfree E) as ([free Hf]&Hctx&Hc1&Hlt).
    eapply inst_inv_children; [done| |done|by apply keeps_others_delete, keeps_others_create|].
    + apply inst_inv_delete; [eexists; by apply inst_inv_set_child|]. simpl.
      rewrite list_lookup_alter, decide_True, Hc1, list_lookup_insert_eq by done. by eexists.
    + intros c ?%delete_unused. congruence.
  - destruct Hfree as [free Hf].
    unfold dataservice_child_context_lookup in El. case_match; [done|].
    destruct (children inst !! Z.to_nat child) as [c|] eqn:Ech; simpl in El; [|done].
    destruct (cd_dispose c) eqn:Ed; simplify_eq.
    eapply inst_inv_children; [done| |done|apply keeps_others_delete|].
    + apply inst_inv_delete; [eexists; by apply inst_inv_set_child|]. simpl.
      rewrite list_lookup_alter, decide_True, Ech by done. by eexists.
    + intros j c' Hj. simpl. by rewrite list_lookup_alter, decide_False by congruence.
    + intros c' ?%delete_unused. congruence.
Qed.

(** ** Any sequence of packets *)

Section reachable.
Context {W : Type} {L : LMDB W} {VC : VCCERT W} {VB : VCCRYPT_BUFFER W} {EV : LIBEVENT W} {ME : MDB_ENV W}.
Context (ATTESTATION : bool).

Fixpoint dispatch_all (inst : dataservice_instance) (reqs : list bytes)
  : Act W (list (result unit) * dataservice_instance) :=
  match reqs with
  | [] => ret ([], inst)
  | req :: reqs =>
      let! '(r, inst) := dataservice_decode_and_dispatch ATTESTATION inst req in
      let! '(rs, inst) := dispatch_all inst reqs in
      ret (r :: rs, inst)
  end.

Lemma dispatch_inv inst req :
  inst_inv inst → ends_in inst_inv (dataservice_decode_and_dispatch ATTESTATION inst req).
Proof. intros Hinv w. by eapply inst_step_inv, dispatch_step. Qed.

Lemma dispatch_all_inv inst reqs :
  inst_inv inst → ends_in inst_inv (dispatch_all inst reqs).
Proof.
  revert inst. induction reqs as [|req reqs IH]; intros inst Hinv; [by apply ends_in_ret|].
  cbn [dispatch_all]. apply (ends_in_bind inst_inv); [by apply dispatch_inv|]. intros r inst1 H1.
  apply (ends_in_bind inst_inv); [by apply IH|]. intros rs inst2. apply ends_in_ret.
Qed.

Lemma ends_in_post {A B} (P : B → Prop) (m : Act W (A * B)) w :
  ends_in P m → post m (λ '(_, b) _, P b) w.
Proof. intros H. apply post_run. specialize (H w). by destruct (m w) as [[a b] w']. Qed.

(** C23: Whatever packets the service receives after its start, its instance
    stays intact: every one of the 1024 child contexts is either in use or on
    the free list once; no child context can create contexts; child contexts
    exist only after the root context was initialised, and until then the root
    context can do nothing else. *)
Theorem dispatch_safe reqs w :
  post (dispatch_all dataservice_instance_create reqs) (λ '(_, inst) _, inst_inv inst) w.
Proof. apply ends_in_post, dispatch_all_inv, inst_inv_create. Qed.
End reachable.
