(* ===== verification/Service.v ===== *)
(** * The service on its platform

    The database and the sockets of the service do not interfere: calls of LMDB
    and of the certificate library leave the buffers of the socket alone, calls
    of libevent leave the database alone.  From this interface the section derives
    what the operations of the service leave alone, and the effect of a
    response. *)

From S2P Require Import Prelude Inet StatusCodes Contexts Lmdb Txn Records Vccert Database ProcessQueue BlockMake Queries RequestCodec RequestSpec ResponseCodec ResponseSpec Ipc IpcSpec Dispatch.

(** A run that leaves the socket alone. *)
Definition silent {W : Type} `{EVL : LIBEVENT_laws W} {A : Type} (m : Act W A) : Prop :=
  ∀ w, sock (m w).2 = sock w.

Class SERVICE_laws (W : Type) `{L : LMDB W} `{LL : !LMDB_laws W} `{VC : !VCCERT W}
    `{EV : !LIBEVENT W} `{EVL : !LIBEVENT_laws W} := {
  silent_begin : ∀ p fl, silent (mdb_txn_begin p fl);
  silent_commit : ∀ t, silent (mdb_txn_commit t);
  silent_abort : ∀ t, silent (mdb_txn_abort t);
  silent_get : ∀ t d k, silent (mdb_get t d k);
  silent_put : ∀ t d k v fl, silent (mdb_put t d k v fl);
  silent_del : ∀ t d k, silent (mdb_del t d k);
  silent_suite_init : silent vccrypt_suite_options_init;
  silent_options_init : silent vccert_parser_options_simple_init;
  silent_parser_init : ∀ b, silent (vccert_parser_init b);
  db_silent_add : ∀ b, db_silent (evbuffer_add b);
  db_silent_write : db_silent evbuffer_write;
  db_silent_read : db_silent evbuffer_read;
  db_silent_pullup : ∀ n, db_silent (evbuffer_pullup n);
  db_silent_drain : ∀ n, db_silent (evbuffer_drain n);
  db_silent_remove : ∀ n, db_silent (evbuffer_remove n);
  db_silent_length : db_silent evbuffer_get_length;
  db_silent_write_length : db_silent evbuffer_get_write_length;
}.

Section service.
Context {W : Type} {L : LMDB W} {LL : LMDB_laws W} {VC : VCCERT W} {EV : LIBEVENT W} {EVL : LIBEVENT_laws W}.
Context {SL : SERVICE_laws W}.

(** ** Silence is compositional *)

Lemma silent_ret {A : Type} (a : A) : silent (ret a).
Proof. done. Qed.
Lemma silent_ok {A : Type} (a : A) : silent (ok a).
Proof. done. Qed.
Lemma silent_throw {A : Type} s : silent (throw s : Eff W A).
Proof. done. Qed.

Lemma silent_act {A B : Type} (m : Act W A) (k : A → Act W B) :
  silent m → (∀ a, silent (k a)) → silent (act m k).
Proof.
  intros Hm Hk w. unfold act. specialize (Hm w). destruct (m w) as [a w']. simpl in Hm.
  by rewrite (Hk a w').
Qed.

Lemma silent_bind {A B : Type} (m : Eff W A) (k : A → Eff W B) :
  silent m → (∀ a, silent (k a)) → silent (bind m k).
Proof. intros Hm Hk. apply silent_act; [done|]. intros []; [done|apply silent_throw]. Qed.

Lemma silent_malloc n : silent (malloc n).
Proof. intros w. destruct (malloc n w) as [b w'] eqn:E. by eapply law_ev_malloc. Qed.

Create HintDb silent.
Hint Resolve silent_begin silent_commit silent_abort silent_get silent_put silent_del
  silent_suite_init silent_options_init silent_parser_init silent_malloc silent_ret silent_ok
  silent_throw : silent.
Ltac silent_step :=
  match goal with
  | |- silent (act _ _) => apply silent_act; [|intros ?]
  | |- silent (bind _ _) => apply silent_bind; [|intros ?]
  | |- silent (if ?b then _ else _) => destruct b
  | |- silent (match ?x with _ => _ end) => destruct x
  | |- silent _ => solve [eauto with silent nocore]
  end.
Ltac silent := repeat (cbv zeta; silent_step).

Lemma silent_get_cleared t d k : silent (mdb_get_cleared t d k).
Proof. unfold mdb_get_cleared. silent. Qed.
Hint Resolve silent_get_cleared : silent.

Lemma silent_in_txn {A : Type} p (body : MDB_txn → Eff W A) : (∀ t, silent (body t)) → silent (in_txn p body).
Proof. intros H. unfold in_txn. silent. Qed.

Lemma silent_in_txn_or_parent {A : Type} p (body : MDB_txn → Eff W A) :
  (∀ t, silent (body t)) → silent (in_txn_or_parent p body).
Proof. intros H. destruct p; [apply H|by apply silent_in_txn]. Qed.

Lemma silent_in_query_txn {A : Type} p (body : MDB_txn → Eff W A) :
  (∀ t, silent (body t)) → silent (in_query_txn p body).
Proof. intros H. unfold in_query_txn. silent. Qed.

Ltac silent_op := repeat first
  [ apply silent_in_txn; intros ? | apply silent_in_txn_or_parent; intros ?
  | apply silent_in_query_txn; intros ? | cbv zeta; silent_step ].

(** ** The operations *)

Lemma silent_submit at_ ctx p id art cert : silent (dataservice_transaction_submit at_ ctx p id art cert).
Proof.
  unfold dataservice_transaction_submit, dataservice_transaction_submit_create_queue,
    dataservice_transaction_submit_update_prev, dataservice_transaction_submit_update_end. silent_op.
Qed.

Hint Resolve silent_submit : silent.

Lemma silent_drop_internal p id : silent (dataservice_transaction_drop_internal p id).
Proof.
  unfold dataservice_transaction_drop_internal, dataservice_transaction_drop_fixup_prev_next.
  silent_op.
Qed.
Hint Resolve silent_drop_internal : silent.

Lemma silent_drop ctx p id : silent (dataservice_transaction_drop ctx p id).
Proof. unfold dataservice_transaction_drop. silent_op. Qed.

Lemma silent_promote ctx p id : silent (dataservice_transaction_promote ctx p id).
Proof. unfold dataservice_transaction_promote, dataservice_transaction_promote_internal. silent_op. Qed.

Lemma silent_get_entry d p t id : silent (transaction_get_entry d p t id).
Proof. unfold transaction_get_entry. silent_op. Qed.
Hint Resolve silent_get_entry : silent.

Lemma silent_txn_get ctx p id : silent (dataservice_transaction_get ctx p id).
Proof. unfold dataservice_transaction_get. silent_op. Qed.

Lemma silent_txn_get_first ctx p : silent (dataservice_transaction_get_first ctx p).
Proof. unfold dataservice_transaction_get_first. silent_op. Qed.

Lemma silent_block_get ctx p id : silent (dataservice_block_get ctx p id).
Proof. unfold dataservice_block_get. silent_op. Qed.

Lemma silent_block_id_by_height ctx p h : silent (dataservice_block_id_by_height_get ctx p h).
Proof. unfold dataservice_block_id_by_height_get. silent_op. Qed.

Lemma silent_latest_block_id ctx p : silent (dataservice_latest_block_id_get ctx p).
Proof. unfold dataservice_latest_block_id_get. silent_op. Qed.

Lemma silent_artifact_get ctx p id : silent (dataservice_artifact_get ctx p id).
Proof. unfold dataservice_artifact_get. silent_op. Qed.

Lemma silent_canonized_get ctx p id : silent (dataservice_canonized_transaction_get ctx p id).
Proof. unfold dataservice_canonized_transaction_get. silent_op. Qed.

Lemma silent_settings_get ctx key n : silent (dataservice_global_settings_get ctx key n).
Proof. unfold dataservice_global_settings_get. silent_op. Qed.

Lemma silent_settings_set ctx key v : silent (dataservice_global_settings_set ctx key v).
Proof. unfold dataservice_global_settings_set. silent_op. Qed.

Lemma silent_process_child t h id cert : silent (dataservice_block_make_process_child t h id cert).
Proof.
  unfold dataservice_block_make_process_child, dataservice_block_make_update_prev_txn,
    dataservice_block_make_update_artifact. silent_op.
Qed.
Hint Resolve silent_process_child : silent.

Lemma silent_children fuel t h id parser raw : silent (block_make_children fuel t h id parser raw).
Proof.
  revert parser raw. induction fuel as [|fuel IH]; intros parser raw; cbn [block_make_children]; silent_op.
Qed.
Hint Resolve silent_children : silent.

Lemma silent_block_make ctx p id data : silent (dataservice_block_make ctx p id data).
Proof.
  unfold dataservice_block_make, block_make_body, query_end_node,
    dataservice_make_block_get_first_transaction_id, dataservice_make_block_insert_block,
    dataservice_block_make_create_queue, dataservice_block_make_update_prev,
    dataservice_block_make_update_end. silent_op.
Qed.

Lemma silent_encode_payload n fields : silent (encode_payload n fields).
Proof. unfold encode_payload. silent_op. Qed.

(** ** Calls that are not about the database *)

Lemma db_silent_ret {A : Type} (a : A) : db_silent (ret a).
Proof. intros w a' w' [= _ <-]. auto. Qed.

Lemma db_silent_act {A B : Type} (m : Act W A) (k : A → Act W B) :
  db_silent m → (∀ a, db_silent (k a)) → db_silent (act m k).
Proof.
  intros Hm Hk w b w2 E. unfold act in E. destruct (m w) as [a w1] eqn:Em.
  destruct (Hm _ _ _ Em) as (Hu1&Hp1&Hw1&Hv1). destruct (Hk a _ _ _ E) as (Hu2&Hp2&Hw2&Hv2).
  split_and!; auto; intros; [by rewrite Hp2|by rewrite Hv2].
Qed.

Lemma db_silent_bind {A B : Type} (m : Eff W A) (k : A → Eff W B) :
  db_silent m → (∀ a, db_silent (k a)) → db_silent (bind m k).
Proof. intros Hm Hk. apply db_silent_act; [done|]. intros []; [done|apply db_silent_ret]. Qed.

Lemma db_silent_malloc n : db_silent (malloc n).
Proof. intros w a w' E. by eapply law_malloc. Qed.

Ltac db_silent :=
  repeat first
    [ apply db_silent_add | apply db_silent_write | apply db_silent_read | apply db_silent_pullup
    | apply db_silent_drain | apply db_silent_remove | apply db_silent_length
    | apply db_silent_write_length | apply db_silent_malloc | apply db_silent_ret
    | apply db_silent_act; [|intros ?] | apply db_silent_bind; [|intros ?]
    | match goal with
      | |- db_silent (if ?b then _ else _) => destruct b
      | |- db_silent (match ?x with _ => _ end) => destruct x
      end ].

Lemma db_silent_write_status m off s data :
  db_silent (dataservice_decode_and_dispatch_write_status m off s data).
Proof.
  unfold dataservice_decode_and_dispatch_write_status, ipc_write_data_noblock, add_object,
    ipc_socket_write_from_buffer. db_silent.
Qed.

Lemma db_silent_read_data : db_silent ipc_read_data_noblock.
Proof.
  unfold ipc_read_data_noblock, peek, check_type, packet_size, require_length, drain_header,
    remove_value. db_silent.
Qed.

(** ** A response *)

(** What [write_status] appends: the frame of the packet; when it fails, the
    whole frame, which the socket did not take, or, after a fault of the buffer, a
    front of it. *)
Definition responded (packet : bytes) (w : W) (r : result unit) (w' : W) : Prop :=
  instream w' = instream w ∧
  ((r = Ok tt ∨ (r = Err AGENTD_ERROR_DATASERVICE_IPC_WRITE_DATA_FAILURE ∧ transfer_failed w')) ∧
   outstream w' = outstream w ++ frame (msg_data packet) ∨
   (∃ s, r = Err s) ∧ ev_faulty ∧
   ∃ sent, sent `prefix_of` frame (msg_data packet) ∧ outstream w' = outstream w ++ sent).

Lemma write_status_spec m off s data w :
  sizeof (status_packet m off (wrap32 s) data) < 2 ^ 32 →
  post (dataservice_decode_and_dispatch_write_status m off s data)
    (responded (status_packet m off (wrap32 s) data) w) w.
Proof.
  intros Hsize. unfold dataservice_decode_and_dispatch_write_status.
  set (packet := status_packet _ _ _ _) in *.
  assert (0 ≤ sizeof packet) as Hpos by (unfold sizeof; lia).
  unfold wrap32 at 1. rewrite Z.mod_small by lia.
  replace (take (Z.to_nat (sizeof packet)) packet) with packet
    by (unfold sizeof; by rewrite Nat2Z.id, take_ge).
  assert (0 < sizeof packet) as Hp.
  { unfold packet, sizeof. rewrite status_packet_eq, length_app, length_be_enc. lia. }
  apply post_act, post_ev_malloc; [done|intros w1 Hs1|intros w1 Hs1 Hf]; post_cbn.
  - destruct (sock_streams _ _ Hs1) as [Hi1 Ho1].
    apply post_act. eapply post_mono; [by apply write_data_noblock_spec|].
    intros r w2 (Hi2&H2). unfold responded. rewrite <- Hi1, <- Ho1.
    destruct H2 as [[Hr Ho2]|((s'&->)&Hf&H2)].
    + destruct Hr as [->|[-> Ht]]; post_steps; split; auto.
    + post_steps. split; [done|right]. eauto.
  - destruct (sock_streams _ _ Hs1) as [Hi1 Ho1]. post_steps. split; [done|right].
    split_and!; [eauto|done|]. exists []. rewrite app_nil_r. split; [apply prefix_nil|done].
Qed.
End service.

(** The calls of the handlers leave the socket alone. *)
Ltac call_silent :=
  intros ctx; repeat first
    [ apply silent_ok | apply silent_ret
    | apply silent_submit | apply silent_drop | apply silent_promote | apply silent_txn_get
    | apply silent_txn_get_first | apply silent_block_get | apply silent_block_id_by_height
    | apply silent_latest_block_id | apply silent_artifact_get | apply silent_canonized_get
    | apply silent_settings_get | apply silent_settings_set | apply silent_block_make
    | apply silent_encode_payload
    | apply silent_bind; [|intros ?] | apply silent_act; [|intros ?]
    | match goal with |- silent (match ?x with _ => _ end) => destruct x end ].
