(* ===== verification/ServiceRefine.v ===== *)
(** * The dispatcher refines the abstract service

    Each handler, on databases that represent the state of the abstract service,
    computes what [serve] says and answers it. *)

From S2P Require Import Prelude Inet StatusCodes Contexts Lmdb Txn Records Vccert Database PqRep ProcessQueue ProcessQueueSpec BlockMake Ledger BlockMakeSpec Queries QueriesSpec RequestCodec RequestSpec ResponseCodec ResponseSpec Ipc IpcSpec Dispatch DispatchInv Service ServiceSpec.

(** ** The records of a query, as the encoders read them *)

Lemma net_state_of n : wf_txn_node n → txn_node_net_txn_state (enc_txn_node n) = htonl (tn_state n).
Proof.
  intros Hn. destruct (txn_node_fields n [] Hn) as (_&_&_&_&_&_&Hs). rewrite app_nil_r in Hs.
  rewrite <- Hs. symmetry. apply (ntohl_htonl (txn_node_net_txn_state (enc_txn_node n))).
  unfold txn_node_net_txn_state. set (b := sub 88 4 _). pose proof (le_dec_range b) as Hr.
  pose proof (length_sub_le 88 4 (enc_txn_node n)) as Hl. fold b in Hl. split; [lia|].
  eapply Z.lt_le_trans; [apply Hr|]. change (2 ^ 32) with (256 ^ 4). apply Z.pow_le_mono_r; lia.
Qed.

Section encodings.
Context {W : Type} {L : LMDB W}.

Lemma encode_txn_answer n cert :
  wf_txn_node n →
  let node := enc_txn_node n in
  (let* payload := dataservice_encode_response_transaction_get
     (txn_node_key node) (txn_node_prev node) (txn_node_next node) (txn_node_artifact_id node)
     (txn_node_net_txn_state node) cert in ok (Some payload)) = encode_answer (answer_txn n cert) ∧
  (let* payload := dataservice_encode_response_transaction_get_first
     (txn_node_key node) (txn_node_prev node) (txn_node_next node) (txn_node_artifact_id node)
     (txn_node_net_txn_state node) cert in ok (Some payload)) = encode_answer (answer_first_txn n cert) ∧
  ∀ read_cert, (let* payload := dataservice_encode_response_canonized_transaction_get
     (txn_node_key node) (txn_node_prev node) (txn_node_next node) (txn_node_artifact_id node)
     (txn_node_block_id node) (txn_node_net_txn_state node) read_cert cert in ok (Some payload))
  = encode_answer (answer_canonized_txn n cert read_cert).
Proof.
  intros Hn node. destruct (txn_node_fields n [] Hn) as (Hk&Hp&Hx&Ha&Hb&_). rewrite app_nil_r in *.
  unfold node. rewrite Hk, Hp, Hx, Ha, Hb, net_state_of by done. done.
Qed.

Lemma encode_block_answer n cert read_cert :
  wf_block_node n →
  let node := enc_block_node n in
  (let* payload := dataservice_encode_response_block_read
     (block_node_key node) (block_node_prev node) (block_node_next node)
     (block_node_first_transaction_id node) (ntohll (block_node_net_block_height node))
     read_cert cert in ok (Some payload)) = encode_answer (answer_block n cert read_cert).
Proof.
  intros Hn node. destruct (block_node_fields n [] Hn) as (Hk&Hp&Hx&Ha&Hb&_). rewrite app_nil_r in *.
  unfold node. by rewrite Hk, Hp, Hx, Ha, Hb.
Qed.

Lemma encode_artifact_answer a :
  wf_artifact a →
  let record := enc_artifact a in
  (let* payload := dataservice_encode_response_payload_artifact_read
     (artifact_key record) (artifact_txn_first record) (artifact_txn_latest record)
     (ntohll (artifact_net_height_first record)) (ntohll (artifact_net_height_latest record))
     (ntohl (artifact_net_state_latest record)) in ok (Some payload)) = encode_answer (answer_artifact a).
Proof.
  intros Ha record. pose proof (dec_enc_artifact a Ha) as E. unfold record, dec_artifact in *.
  destruct a as [k f l hf hl st]. injection E as E1 E2 E3 E4 E5 E6. by rewrite E1, E2, E3, E4, E5, E6.
Qed.
End encodings.

Section refine.
Context {W : Type} {L : LMDB W} {LL : LMDB_laws W} {VC : VCCERT W} {VCL : VCCERT_laws W}.
Context {VB : VCCRYPT_BUFFER W} {EV : LIBEVENT W} {EVL : LIBEVENT_laws W} {ME : MDB_ENV W}.
Context {SL : SERVICE_laws W} (ATTESTATION : bool).
Context (R : LMDB_reliable W) (RV : VCCERT_reliable W) (RE : EV_reliable W).

(** ** Representation *)

Record sv_rep (V : dbs) (sv : service) : Prop := {
  sr_ledger : ledger_rep V (sv_ledger sv);
  sr_certs : Forall (λ e, pe_cert e ≠ []) (lg_queue (sv_ledger sv));
  sr_settings : ∀ key, u64 key → V global_db !! le_enc 8 key = sv_settings sv !! key;
  sr_children : ∃ free, children_inv (sv_inst sv) free }.

Definition service_rep (w : W) (sv : service) : Prop :=
  ∃ V, env_state w None V ∧ sv_rep V sv.

(** ** Answers *)

(** The result a handler hands to the label [done]. *)
Definition payload_of (res : result answer) : result (option bytes) :=
  match res with Ok a => Ok (answer_payload a) | Err s => Err s end.

(** What the client gets. *)
Definition client_result (m off : Z) (res : result answer) : dataservice_response_header * client_view :=
  match res with
  | Ok a => (ResponseHeader m off 0, client_sees a)
  | Err s => (ResponseHeader m off s, client_sees_failure m)
  end.

Definition result_fits (res : result answer) : Prop :=
  match res with Ok a => answer_fits a | Err _ => True end.

(** Answers and statuses that belong to the method. *)
Definition good_result (m : Z) (res : result answer) : Prop :=
  match res with Ok a => answer_method a = m ∧ answer_data a | Err s => 0 < s < 2 ^ 32 end.

(** The size of the response packet. *)
Definition response_length (res : result answer) : nat :=
  12 + length (default [] match res with Ok a => answer_payload a | Err _ => None end).

(** One response packet was written, which the client decodes to the result; it is
    a failure only when the socket did not take the packet at once. *)
Definition answered (m off : Z) (res : result answer) (w : W) (r : result unit) (w' : W) : Prop :=
  result_fits res →
  instream w' = instream w ∧
  (r = Ok tt ∨ (r = Err AGENTD_ERROR_DATASERVICE_IPC_WRITE_DATA_FAILURE ∧ transfer_failed w')) ∧
  ∃ packet, outstream w' = outstream w ++ frame (msg_data packet) ∧
    length packet = response_length res ∧
    decode_response m packet = Ok (client_result m off res).

Lemma payload_size a : answer_data a → answer_fits a → sizeof (default [] (answer_payload a)) < 2 ^ 31.
Proof.
  intros Hd Hf. destruct a as [m|c|v|id|id|a|n cert rc|n cert|n cert|n cert rc]; simpl in *;
    unfold fits_packet, sizeof in *;
    repeat match goal with H : wf_artifact _ |- _ => destruct H | H : wf_block_node _ |- _ => destruct H
    | H : wf_txn_node _ |- _ => destruct H end; unfold is_uuid in *; try destruct rc;
    rewrite ?length_app, ?length_be_enc; simpl length; lia.
Qed.

Lemma packet_size_ok m off s res :
  good_result m res → result_fits res →
  sizeof (status_packet m off s match payload_of res with Ok p => p | Err _ => None end) < 2 ^ 32.
Proof.
  intros Hres Hf. rewrite status_packet_eq. unfold sizeof. rewrite !length_app, !length_be_enc.
  destruct res as [a|s']; simpl in *; [|lia].
  pose proof (payload_size a (proj2 Hres) Hf) as H. unfold sizeof in H. lia.
Qed.

Lemma decode_result m off res :
  m ∈ status_methods ++ query_methods → u32 off → good_result m res → result_fits res →
  decode_response m (status_packet m off (wrap32 (status_of (payload_of res)))
                       match payload_of res with Ok p => p | Err _ => None end)
  = Ok (client_result m off res).
Proof.
  intros Hm Hoff Hres Hf. destruct res as [a|s]; simpl in *.
  - destruct Hres as [<- Hd]. by apply decode_answer.
  - unfold wrap32. rewrite Z.mod_small by lia. apply decode_failure; [done|done|split; lia|lia].
Qed.

Lemma write_result_answers m off res w sv :
  m ∈ status_methods ++ query_methods → u32 off → good_result m res → service_rep w sv →
  post (write_result m off (payload_of res)) (λ r w', service_rep w' sv ∧ answered m off res w r w') w.
Proof.
  intros Hm Hoff Hres (V&HV&Hsv). apply post_and.
  { eapply post_silent_env; [apply db_silent_write_status|done|]. intros r w' _ HV'. by exists V. }
  apply post_run. intros Hf. unfold write_result.
  set (m0 := dataservice_decode_and_dispatch_write_status _ _ _ _).
  assert (post m0 (responded (status_packet m off (wrap32 (status_of (payload_of res)))
            match payload_of res with Ok p => p | Err _ => None end) w) w) as H
    by (apply write_status_spec; by apply packet_size_ok).
  rewrite post_run in H. destruct H as [Hi [[Hr Ho]|(_&Hfa&_)]]; [|by destruct (Hfa RE)].
  split_and!; [done|done|]. eexists. split_and!; [exact Ho| |by apply decode_result].
  rewrite status_packet_eq, !length_app, !length_be_enc. by destruct res.
Qed.

(** ** Requests on a child context *)

(** A handler's computation agrees with a result of [serve]. *)
Definition computes (m : Act W (result (option bytes))) (w : W) (k : result answer * service) : Prop :=
  post m (λ r w', r = payload_of k.1 ∧ service_rep w' k.2) w.

Lemma silent_streams {A : Type} (m : Act W A) w :
  silent m → instream (m w).2 = instream w ∧ outstream (m w).2 = outstream w.
Proof. intros H. by apply sock_streams. Qed.

Lemma computes_answered {B : Type} m off (call : Act W (result (option bytes))) (b : B) w k :
  computes call w k → silent call →
  m ∈ status_methods ++ query_methods → u32 off → good_result m k.1 →
  post (let! retval := call in let! r := write_result m off retval in ret (r, b))
    (λ '(r, b') w', b' = b ∧ service_rep w' k.2 ∧ answered m off k.1 w r w') w.
Proof.
  intros Hc Hs Hm Hoff Hres. unfold computes in Hc. apply post_act, post_run.
  rewrite post_run in Hc. destruct (silent_streams call w Hs) as [Hi Ho].
  destruct (call w) as [r1 w1]. destruct Hc as [Hr1 Hrep]. simpl in Hr1, Hrep, Hi, Ho. subst r1.
  cbn [fst snd].
  apply post_act. eapply post_mono; [by apply write_result_answers|].
  intros r w' [Hrep' Hans]. apply post_ret. split_and!; [done..|].
  unfold answered in *. by rewrite <- Hi, <- Ho.
Qed.

Lemma on_child_authorized cap child sv call k w :
  service_rep w sv →
  (∀ ctx, BITCAP_ISSET (childcaps ctx) cap = false →
     call ctx w = (Err AGENTD_ERROR_DATASERVICE_NOT_AUTHORIZED, w)) →
  (∀ ctx, BITCAP_ISSET (childcaps ctx) cap = true → computes (call ctx) w k) →
  computes (on_child (sv_inst sv) child call) w (authorized sv child cap k).
Proof.
  intros Hrep Hno Hyes. unfold computes, on_child, authorized.
  destruct (dataservice_child_context_lookup _ _) as [i|s]; [|by apply post_ret].
  destruct (BITCAP_ISSET _ cap) eqn:E; [by apply Hyes|]. apply post_run. by rewrite Hno.
Qed.

(** ** Updates and queries *)

(** The children of the instance do not concern the databases. *)
Lemma sv_rep_intro V sv lg settings :
  ledger_rep V lg → Forall (λ e, pe_cert e ≠ []) (lg_queue lg) →
  (∀ key, u64 key → V global_db !! le_enc 8 key = settings !! key) →
  (∃ free, children_inv (sv_inst sv) free) → sv_rep V (Service (sv_inst sv) lg settings).
Proof. by split. Qed.

Lemma computes_update (m : Eff W unit) w V sv sv' m' (cond : Prop) `{Hdec : Decision cond} Rm E s :
  env_state w None V → sv_rep V sv →
  post m (outcome None V Rm E) w →
  (∀ V', Rm tt V' → cond ∧ sv_rep V' sv') → (∀ s', E s' → ¬ cond ∧ s' = s) →
  computes (let* _ := m in ok None) w
    (if bool_decide cond then (Ok (answer_nothing m'), sv') else (Err s, sv)).
Proof.
  intros HV Hsv Hm Hok Herr. unfold computes. apply post_bind.
  eapply post_mono; [exact Hm|]. intros [[]|s'] w' Ho%(outcome_reliable R).
  - destruct Ho as (V'&HV'&HR). destruct (Hok V' HR) as [Hc Hsv']. post_steps.
    rewrite bool_decide_true by done. split; [done|]. by exists V'.
  - destruct Ho as [HV' HE]. destruct (Herr s' HE) as [Hc ->].
    rewrite bool_decide_false by done. split; [done|]. by exists V.
Qed.

Lemma query_reliable {A : Type} p V (Q : result A → Prop) r w :
  query_outcome p V Q r w → env_state w p V ∧ Q r.
Proof. intros [? [?|[Hf _]]]; [done|]. by destruct (Hf R). Qed.

Lemma computes_encode a w V sv :
  env_state w None V → sv_rep V sv → answer_data a →
  computes (encode_answer a) w (Ok a, sv).
Proof.
  intros HV Hsv Ha. unfold computes.
  assert (db_silent (encode_answer (W := W) a)) as Hs.
  { destruct a; simpl; unfold dataservice_encode_response_child_context_create,
      dataservice_encode_response_block_id_by_height_read, dataservice_encode_response_block_id_latest_read,
      dataservice_encode_response_payload_artifact_read, dataservice_encode_response_block_read,
      dataservice_encode_response_transaction_get, dataservice_encode_response_transaction_get_first,
      dataservice_encode_response_canonized_transaction_get, encode_payload;
      repeat first [apply db_silent_ret|apply db_silent_bind; [|intros ?]|apply db_silent_act; [|intros ?]
        |apply db_silent_malloc|match goal with |- db_silent (if ?b then _ else _) => destruct b end]. }
  eapply post_mono; [apply post_and; [by apply encode_answer_spec|]|].
  - eapply (post_silent_env _ _ _ (λ _ w', env_state w' None V)); [done..|by intros].
  - intros r w' [[->|[_ (n&w0&Hn&Hmem)]] HV']; [split; [done|by exists V]|].
    by rewrite (reliable_malloc _ R n w0 Hn) in Hmem.
Qed.

Lemma computes_query {A : Type} (m : Eff W A) (k : A → Eff W (option bytes)) w V sv res Q :
  env_state w None V → sv_rep V sv → post m (query_outcome None V Q) w →
  (∀ r, Q r → match r with
              | Ok x => ∃ a, res = Ok a ∧ answer_data a ∧ k x = encode_answer a
              | Err s => res = Err s
              end) →
  computes (bind m k) w (res, sv).
Proof.
  intros HV Hsv Hm HQ. unfold computes. apply post_bind. eapply post_mono; [exact Hm|].
  intros r w' [HV' H%HQ]%query_reliable. destruct r as [x|s]; [|subst res; split; [done|by exists V]].
  destruct H as (a&->&Ha&->). by eapply computes_encode.
Qed.

(** ** The calls of the handlers *)

(** A refused call. *)
Ltac refused := intros ctx Hcap; unfold dataservice_transaction_submit, dataservice_transaction_drop,
  dataservice_transaction_promote, dataservice_transaction_get, dataservice_transaction_get_first,
  dataservice_artifact_get, dataservice_block_make, dataservice_block_get,
  dataservice_block_id_by_height_get, dataservice_latest_block_id_get,
  dataservice_canonized_transaction_get, dataservice_global_settings_get,
  dataservice_global_settings_set; rewrite Hcap; reflexivity.

Lemma queue_update V V' sv q :
  sv_rep V sv → pq_update V q V' → Forall (λ e, pe_cert e ≠ []) q → sv_rep V' (set_queue sv q).
Proof.
  intros [[] _ Hset Hch] [Hq Hd] Hc. apply sv_rep_intro; [|done| |done].
  - split; simpl; rewrite ?Hd by done; done.
  - intros key Hk. rewrite Hd by done. by apply Hset.
Qed.

Lemma submit_serves d sv w :
  service_rep w sv → wf_request (transaction_submit d) → serviceable sv (transaction_submit d) →
  computes (on_child (sv_inst sv) (ts_child_index d) (λ ctx,
      let* _ := dataservice_transaction_submit ATTESTATION ctx None
                  (ts_txn_id d) (ts_artifact_id d) (ts_cert d) in ok None)) w
    (serve ATTESTATION sv (transaction_submit d)).
Proof.
  intros Hrep (_&Hid&Hart&Hne) (Hz&Hf&Hsz). pose proof Hrep as (V&HV&Hsv).
  apply on_child_authorized; [done|refused|]. intros ctx Hcap.
  pose proof (lr_queue _ _ (sr_ledger _ _ Hsv)) as Hq.
  assert (sizeof (ts_cert d) < 2 ^ 63) as Hsz' by lia.
  pose proof (submit_ok ATTESTATION None V _ ctx _ _ (ts_cert d) w HV Hq Hid Hz Hf Hart Hsz' Hcap) as Hm.
  set (q' := _ ++ [_]) in Hm. unfold computes.
  eapply post_mono; [eapply (computes_update _ w V sv (set_queue sv q')
    DATASERVICE_API_METHOD_APP_PQ_TRANSACTION_SUBMIT (ts_txn_id d ∉ pe_id <$> lg_queue (sv_ledger sv)));
    [done|done|exact Hm| |]|].
  - intros V' [Hin HV']. split; [done|]. apply (queue_update V); [done..|].
    apply Forall_app; split; [apply (sr_certs _ _ Hsv)|by apply Forall_singleton].
  - intros s' [Hin ->]. split; [by intros []|done].
  - intros r w' [-> Hr]. case_bool_decide as H1; case_bool_decide as H2; done.
Qed.

Lemma drop_serves d sv w :
  service_rep w sv →
  computes (on_child (sv_inst sv) (td_child_index d) (λ ctx,
      let* _ := dataservice_transaction_drop ctx None (td_txn_id d) in ok None)) w
    (serve ATTESTATION sv (transaction_drop d)).
Proof.
  intros Hrep. pose proof Hrep as (V&HV&Hsv). apply on_child_authorized; [done|refused|]. intros ctx Hcap.
  pose proof (drop_ok V _ ctx (td_txn_id d) w HV (lr_queue _ _ (sr_ledger _ _ Hsv)) Hcap) as Hm.
  eapply (computes_update _ w V sv); [done|done|exact Hm| |].
  - intros V' [Hin HV']. split; [done|]. apply (queue_update V); [done..|].
    apply Forall_forall. intros e [_ He]%list_elem_of_filter.
    exact (proj1 (Forall_forall _ _) (sr_certs _ _ Hsv) e He).
  - intros s' [Hin ->]. done.
Qed.

Lemma promote_serves d sv w :
  service_rep w sv →
  computes (on_child (sv_inst sv) (tp_child_index d) (λ ctx,
      let* _ := dataservice_transaction_promote ctx None (tp_txn_id d) in ok None)) w
    (serve ATTESTATION sv (transaction_promote d)).
Proof.
  intros Hrep. pose proof Hrep as (V&HV&Hsv). apply on_child_authorized; [done|refused|]. intros ctx Hcap.
  pose proof (promote_ok V _ ctx (tp_txn_id d) w HV (lr_queue _ _ (sr_ledger _ _ Hsv)) Hcap) as Hm.
  eapply (computes_update _ w V sv); [done|done|exact Hm| |].
  - intros V' [Hin HV']. split; [done|]. apply (queue_update V); [done..|].
    apply Forall_fmap. eapply Forall_impl; [apply (sr_certs _ _ Hsv)|].
    intros e He. unfold compose. by case_decide.
  - intros s' [Hin ->]. done.
Qed.

(** The entry a query of the queue answers with. *)
Lemma queue_entry sv V a e b :
  sv_rep V sv → lg_queue (sv_ledger sv) = a ++ e :: b →
  wf_txn_node (entry_node (last_id a) (first_id b) e).
Proof.
  intros Hsv Hq. pose proof (pq_rep_wf _ _ (lr_queue _ _ (sr_ledger _ _ Hsv))) as [Hwf _].
  rewrite Hq in Hwf. apply Forall_app in Hwf as [Ha [He Hb]%Forall_cons].
  apply wf_entry_node; [by apply last_id_uuid|by apply first_id_uuid|done].
Qed.

Lemma get_first_serves d sv w :
  service_rep w sv →
  computes (on_child (sv_inst sv) (tf_child_index d) (λ ctx,
      let* '(node, txn_bytes) := dataservice_transaction_get_first ctx None in
      let* payload := dataservice_encode_response_transaction_get_first
        (txn_node_key node) (txn_node_prev node) (txn_node_next node) (txn_node_artifact_id node)
        (txn_node_net_txn_state node) txn_bytes in
      ok (Some payload))) w
    (serve ATTESTATION sv (transaction_get_first d)).
Proof.
  intros Hrep. pose proof Hrep as (V&HV&Hsv). apply on_child_authorized; [done|refused|]. intros ctx Hcap.
  eapply (computes_query _ _ w V sv); [done|done|by apply get_first_ok; [|apply (lr_queue _ _ (sr_ledger _ _ Hsv))
    |apply (sr_certs _ _ Hsv)|]|].
  intros r ->. destruct (lg_queue (sv_ledger sv)) as [|e b] eqn:Eq; [done|]. simpl.
  pose proof (queue_entry sv V [] e b Hsv Eq) as Hn.
  eexists. split_and!; [done|done|]. by apply encode_txn_answer.
Qed.

Lemma get_serves d sv w :
  service_rep w sv → serviceable sv (transaction_get d) →
  computes (on_child (sv_inst sv) (tg_child_index d) (λ ctx,
      let* '(node, txn_bytes) := dataservice_transaction_get ctx None (tg_txn_id d) in
      let* payload := dataservice_encode_response_transaction_get
        (txn_node_key node) (txn_node_prev node) (txn_node_next node) (txn_node_artifact_id node)
        (txn_node_net_txn_state node) txn_bytes in
      ok (Some payload))) w
    (serve ATTESTATION sv (transaction_get d)).
Proof.
  intros Hrep [Hz Hf]. pose proof Hrep as (V&HV&Hsv).
  apply on_child_authorized; [done|refused|]. intros ctx Hcap.
  pose proof (lr_queue _ _ (sr_ledger _ _ Hsv)) as Hq.
  eapply (computes_query _ _ w V sv); [done|done|by apply get_ok; [|exact Hq| | |apply (sr_certs _ _ Hsv)|]|].
  intros [x|s] Hr; simpl in Hr.
  - destruct Hr as (a&e&b&Hsplit&Hid&->).
    destruct (find_at _ _) as [[[a' e'] b']|] eqn:Ef.
    + apply find_at_Some in Ef as [Hs' He'%bool_decide_eq_true]. rewrite Hsplit in Hs'.
      pose proof (pq_rep_wf _ _ Hq) as Hwf. rewrite Hsplit in Hwf.
      destruct (split_unique a e b a' e' b') as (<-&<-&<-); [done|done|congruence|].
      pose proof (queue_entry sv V a e b Hsv Hsplit) as Hn.
      eexists. split_and!; [done|done|]. by apply encode_txn_answer.
    + pose proof (find_at_None _ _ Ef e ltac:(rewrite Hsplit; set_solver)) as Hn.
      by apply bool_decide_eq_false in Hn.
  - destruct Hr as [Hn ->]. destruct (find_at _ _) as [[[a e] b]|] eqn:Ef; [|done].
    apply find_at_Some in Ef as [Hs He%bool_decide_eq_true]. exfalso. apply Hn. rewrite Hs, <- He. set_solver.
Qed.

Lemma found_query {A B : Type} (m : Eff W A) (k : A → Eff W (option bytes)) w V sv
    (x : option B) (enc : B → A) (f : B → answer) :
  env_state w None V → sv_rep V sv →
  post m (query_outcome None V (λ r, r = lookup_answer (enc <$> x))) w →
  (∀ y, x = Some y → answer_data (f y) ∧ k (enc y) = encode_answer (f y)) →
  computes (bind m k) w (found sv x f).
Proof.
  intros HV Hsv Hm Hk. eapply (computes_query _ _ w V sv); [done|done|exact Hm|].
  intros r ->. destruct x as [y|]; simpl; [|done]. destruct (Hk y eq_refl). eauto.
Qed.

Lemma artifact_serves d sv w :
  service_rep w sv →
  computes (on_child (sv_inst sv) (ar_child_index d) (λ ctx,
      let* record := dataservice_artifact_get ctx None (ar_artifact_id d) in
      let* payload := dataservice_encode_response_payload_artifact_read
        (artifact_key record) (artifact_txn_first record) (artifact_txn_latest record)
        (ntohll (artifact_net_height_first record)) (ntohll (artifact_net_height_latest record))
        (ntohl (artifact_net_state_latest record)) in
      ok (Some payload))) w
    (serve ATTESTATION sv (artifact_read d)).
Proof.
  intros Hrep. pose proof Hrep as (V&HV&Hsv). pose proof (sr_ledger _ _ Hsv) as Hlg.
  apply on_child_authorized; [done|refused|]. intros ctx Hcap.
  apply (found_query _ _ w V sv _ enc_artifact); [done|done|by apply artifact_get_ok|].
  intros a Ha. destruct (lr_wf_artifacts _ _ Hlg _ _ Ha) as [Hwa _].
  split; [done|]. by apply encode_artifact_answer.
Qed.

Lemma canonized_serves d sv w :
  service_rep w sv →
  computes (on_child (sv_inst sv) (cg_child_index d) (λ ctx,
      let* '(node, txn_bytes) := dataservice_canonized_transaction_get ctx None (cg_txn_id d) in
      let* payload := dataservice_encode_response_canonized_transaction_get
        (txn_node_key node) (txn_node_prev node) (txn_node_next node) (txn_node_artifact_id node)
        (txn_node_block_id node) (txn_node_net_txn_state node) (cg_read_cert d) txn_bytes in
      ok (Some payload))) w
    (serve ATTESTATION sv (canonized_transaction_get d)).
Proof.
  intros Hrep. pose proof Hrep as (V&HV&Hsv). pose proof (sr_ledger _ _ Hsv) as Hlg.
  apply on_child_authorized; [done|refused|]. intros ctx Hcap.
  apply (found_query _ _ w V sv _ (λ x, (enc_txn_node x.1, x.2))); [done|done| |].
  - by apply (canonized_transaction_get_ok V _ Hlg).
  - intros [n cert] Hx. destruct (lr_wf_txns _ _ Hlg _ _ Hx) as [Hn _].
    split; [done|]. by apply (encode_txn_answer n cert Hn).
Qed.

(** The identifiers and nodes that queries about blocks answer with. *)
Lemma block_entry sv V bs1 b bs2 :
  sv_rep V sv → lg_blocks (sv_ledger sv) = bs1 ++ b :: bs2 → wf_block_node (block_node_of bs1 b bs2).
Proof.
  intros Hsv Hb. destruct (lr_chain _ _ (sr_ledger _ _ Hsv)) as [(Hfa&_&Hl) _]. rewrite Hb in Hfa, Hl.
  apply Forall_app in Hfa as [H1 [Hb' H2]%Forall_cons]. rewrite length_app in Hl. simpl in Hl.
  apply wf_block_node_of; (done || lia).
Qed.

Lemma height_entry sv V h id :
  sv_rep V sv →
  (if h =? 0 then None else bk_id <$> lg_blocks (sv_ledger sv) !! Z.to_nat (h - 1)) = Some id → is_uuid id.
Proof.
  intros Hsv. destruct (h =? 0); [done|]. intros (b&Hb&->)%fmap_Some.
  destruct (lr_chain _ _ (sr_ledger _ _ Hsv)) as [(Hwf&_) _]. by apply (Forall_lookup_1 _ _ _ _ Hwf Hb).
Qed.

Lemma latest_entry sv V : sv_rep V sv → is_uuid (last_block_id (lg_blocks (sv_ledger sv))).
Proof.
  intros Hsv. destruct (lr_chain _ _ (sr_ledger _ _ Hsv)) as [(Hwf&_) _]. unfold last_block_id.
  destruct (last _) as [b|] eqn:El; simpl; [|by apply law_root_block].
  rewrite last_lookup in El. by apply (Forall_lookup_1 _ _ _ _ Hwf El).
Qed.

Lemma block_id_by_height_serves d sv w :
  service_rep w sv → wf_request (block_id_by_height_read d) →
  computes (on_child (sv_inst sv) (bh_child_index d) (λ ctx,
      let* block_id := dataservice_block_id_by_height_get ctx None (bh_block_height d) in
      let* payload := dataservice_encode_response_block_id_by_height_read block_id in
      ok (Some payload))) w
    (serve ATTESTATION sv (block_id_by_height_read d)).
Proof.
  intros Hrep [_ Hh]. pose proof Hrep as (V&HV&Hsv). pose proof (sr_ledger _ _ Hsv) as Hlg.
  apply on_child_authorized; [done|refused|]. intros ctx Hcap.
  apply (found_query _ _ w V sv _ (λ x, x)); [done|done| |].
  - rewrite option_fmap_id. by apply (block_id_by_height_ok V _ Hlg).
  - intros id Hid. split; [|done]. by apply (height_entry sv V _ _ Hsv Hid).
Qed.

Lemma latest_serves d sv w :
  service_rep w sv →
  computes (on_child (sv_inst sv) (bl_child_index d) (λ ctx,
      let* block_id := dataservice_latest_block_id_get ctx None in
      let* payload := dataservice_encode_response_block_id_latest_read block_id in
      ok (Some payload))) w
    (serve ATTESTATION sv (block_id_latest_read d)).
Proof.
  intros Hrep. pose proof Hrep as (V&HV&Hsv). pose proof (sr_ledger _ _ Hsv) as Hlg.
  apply on_child_authorized; [done|refused|]. intros ctx Hcap.
  eapply (computes_query _ _ w V sv); [done|done|by apply (latest_block_id_ok V _ Hlg)|].
  intros r ->. eexists. split_and!; [done|by apply (latest_entry sv V)|done].
Qed.

Lemma block_read_serves d sv w :
  service_rep w sv → serviceable sv (block_read d) →
  computes (on_child (sv_inst sv) (br_child_index d) (λ ctx,
      let* '(node, block_bytes) := dataservice_block_get ctx None (br_block_id d) in
      let* payload := dataservice_encode_response_block_read
        (block_node_key node) (block_node_prev node) (block_node_next node)
        (block_node_first_transaction_id node) (ntohll (block_node_net_block_height node))
        (br_read_cert d) block_bytes in
      ok (Some payload))) w
    (serve ATTESTATION sv (block_read d)).
Proof.
  intros Hrep (Hz&Hf&Hroot). pose proof Hrep as (V&HV&Hsv). pose proof (sr_ledger _ _ Hsv) as Hlg.
  apply on_child_authorized; [done|refused|]. intros ctx Hcap.
  eapply (computes_query _ _ w V sv); [done|done|by apply (block_get_ok V _ Hlg)|].
  pose proof (lr_chain _ _ Hlg) as (Hwf&_).
  intros [x|s] Hr; simpl in Hr.
  - destruct Hr as (bs1&b&bs2&Hsplit&Hid&->).
    destruct (find_at _ _) as [[[a' e'] b']|] eqn:Ef.
    + apply find_at_Some in Ef as [Hs' He'%bool_decide_eq_true]. rewrite Hsplit in Hs'.
      pose proof Hwf as Hwf'. rewrite Hsplit in Hwf'.
      destruct (chain_split_unique bs1 b bs2 a' e' b') as (<-&<-&<-); [done|done|congruence|].
      pose proof (block_entry sv V bs1 b bs2 Hsv Hsplit) as Hn.
      eexists. split_and!; [done|done|]. by apply encode_block_answer.
    + pose proof (find_at_None _ _ Ef b ltac:(rewrite Hsplit; set_solver)) as Hn.
      by apply bool_decide_eq_false in Hn.
  - destruct Hr as [Hn ->]. destruct (find_at _ _) as [[[a e] b]|] eqn:Ef; [|done].
    apply find_at_Some in Ef as [Hs He%bool_decide_eq_true]. exfalso. apply Hn. rewrite Hs, <- He. set_solver.
Qed.

(** A block takes transactions from the queue, and adds none. *)
Lemma children_apply_queue h id lg certs lg' :
  children_apply h id lg certs = Ok lg' → ∀ e, e ∈ lg_queue lg' → e ∈ lg_queue lg.
Proof.
  revert lg. induction certs as [|cert certs IH]; intros lg; simpl; [by intros [= <-]|].
  destruct (child_apply h id lg cert) as [lg1|] eqn:E; [|done]. intros H e He%(IH _ H).
  unfold child_apply in E. repeat case_match; simplify_eq/=. by apply list_elem_of_filter in He as [_ ?].
Qed.

Lemma ledger_append_queue lg id data lg' :
  ledger_append lg id data = Ok lg' → ∀ e, e ∈ lg_queue lg' → e ∈ lg_queue lg.
Proof.
  unfold ledger_append. intros H. repeat (case_match; try done).
  by apply (children_apply_queue _ _ _ _ _ H).
Qed.

Lemma block_make_serves d sv w :
  service_rep w sv → serviceable sv (block_make d) →
  computes (on_child (sv_inst sv) (bm_child_index d) (λ ctx,
      let* _ := dataservice_block_make ctx None (bm_block_id d) (bm_cert d) in ok None)) w
    (serve ATTESTATION sv (block_make d)).
Proof.
  intros Hrep [Hsz Hh]. pose proof Hrep as (V&HV&Hsv). pose proof (sr_ledger _ _ Hsv) as Hlg.
  apply on_child_authorized; [done|refused|]. intros ctx Hcap. unfold computes. apply post_bind.
  assert (sizeof (bm_cert d) < 2 ^ 63) as Hsz' by lia.
  eapply post_mono; [by apply (block_make_ok None V _ ctx (bm_block_id d) _ w HV Hlg Hsz' Hh)|].
  intros [[]|s] w' Ho%(outcome_reliable R).
  - destruct Ho as (V'&HV'&lg'&Hap&Hlg'&Hglob). simpl serve. rewrite Hap. post_steps. split; [done|]. exists V'.
    split; [done|]. apply sv_rep_intro; [done| | |apply (sr_children _ _ Hsv)].
    + apply Forall_forall. intros e He. eapply ledger_append_queue in He; [|exact Hap].
      exact (proj1 (Forall_forall _ _) (sr_certs _ _ Hsv) e He).
    + intros key Hk. rewrite Hglob. by apply (sr_settings _ _ Hsv).
  - destruct Ho as [HV' [->|Hf]]; [|by destruct (Hf RV)]. split; [done|]. by exists V.
Qed.

Lemma le_enc_8_inj x y : u64 x → u64 y → le_enc 8 x = le_enc 8 y → x = y.
Proof. intros Hx Hy E%(f_equal le_dec). by rewrite !le_dec_enc in E. Qed.

Lemma setting_set_serves d sv w :
  service_rep w sv → wf_request (global_setting_set d) →
  computes (on_child (sv_inst sv) (gs_child_index d) (λ ctx,
      let* _ := dataservice_global_settings_set ctx (gs_key d) (gs_val d) in ok None)) w
    (serve ATTESTATION sv (global_setting_set d)).
Proof.
  intros Hrep (_&Hkey&_). pose proof Hrep as (V&HV&Hsv). pose proof (sr_ledger _ _ Hsv) as Hlg.
  apply on_child_authorized; [done|refused|]. intros ctx Hcap. unfold computes. apply post_bind.
  eapply post_mono; [by apply (global_settings_set_spec V)|].
  intros [[]|s] w' Ho; [|by destruct (Ho R)]. destruct Ho as (V'&HV'&Hg&Hd). post_steps.
  split; [done|]. exists V'. split; [done|]. apply sv_rep_intro.
  - destruct Hlg. split; rewrite ?Hd by done; done.
  - apply (sr_certs _ _ Hsv).
  - intros key Hk. rewrite Hg. destruct (decide (key = gs_key d)) as [->|Hne].
    + by rewrite !lookup_insert_eq.
    + rewrite !lookup_insert_ne; [by apply (sr_settings _ _ Hsv)|done|].
      intros E. by apply Hne, le_enc_8_inj.
  - apply (sr_children _ _ Hsv).
Qed.

Lemma setting_get_serves d sv w :
  service_rep w sv → wf_request (global_setting_get d) →
  computes (on_child (sv_inst sv) (gg_child_index d) (λ ctx,
      let! '(r, _) := dataservice_global_settings_get ctx (gg_key d) 16384 in
      ret (let? v := r in Ok (Some v)))) w
    (serve ATTESTATION sv (global_setting_get d)).
Proof.
  intros Hrep (_&Hkey). pose proof Hrep as (V&HV&Hsv).
  apply on_child_authorized; [done|refused|]. intros ctx Hcap. unfold computes. apply post_act.
  eapply post_mono; [by apply (global_settings_get_spec V)|].
  intros [r n] w' [HV' [E|[Hf _]]]; [|by destruct (Hf R)].
  rewrite (sr_settings _ _ Hsv _ Hkey) in E. apply post_ret. split; [|by exists V].
  destruct (sv_settings sv !! gg_key d) as [v|]; [|by simplify_eq].
  destruct (16384 <? sizeof v); by simplify_eq.
Qed.

(** ** Requests about contexts *)

(** The instance can change without the databases. *)
Lemma service_rep_inst w sv inst :
  service_rep w sv → (∃ free, children_inv inst free) → service_rep w (set_inst sv inst).
Proof. intros (V&HV&[]) Hf. exists V. by split. Qed.

Lemma children_inv_root inst ctx free : children_inv inst free → children_inv (set_root inst ctx) free.
Proof. done. Qed.

Lemma delete_set_child inst i c :
  dataservice_child_details_delete (set_child_ctx inst i c) i = dataservice_child_details_delete inst i.
Proof.
  unfold dataservice_child_details_delete, set_child_ctx, set_children. simpl. f_equal.
  apply list_eq. intros j. rewrite !list_lookup_insert, length_alter, list_lookup_alter.
  case_decide as H; [done|]. case_decide as Hi; [|done]. subst j.
  assert (children inst !! i = None) as ->; [|done].
  apply lookup_ge_None. apply not_and_l in H as [?|?]; [done|lia].
Qed.

(** A computation that also yields the instance. *)
Definition computes_inst (m : Act W (result (option bytes) * dataservice_instance)) (w : W)
    (k : result answer * service) : Prop :=
  post m (λ '(r, inst) w', r = payload_of k.1 ∧ inst = sv_inst k.2 ∧ service_rep w' k.2) w.

Lemma lookup_in_use inst child i :
  dataservice_child_context_lookup inst child = Ok i →
  ∃ c, children inst !! i = Some c ∧ cd_dispose c = true ∧ i = Z.to_nat child.
Proof.
  unfold dataservice_child_context_lookup. case_match; [done|].
  destruct (children inst !! Z.to_nat child) as [c|] eqn:E; simpl; [|done].
  destruct (cd_dispose c) eqn:Ed; [|done]. intros [= <-]. eauto.
Qed.

Lemma child_close_serves d sv w :
  service_rep w sv →
  computes_inst (ret (child_context_close_call (sv_inst sv) (cc_child_index d))) w
    (serve ATTESTATION sv (child_context_close d)).
Proof.
  intros Hrep. pose proof Hrep as (V&HV&Hsv). apply post_ret.
  unfold child_context_close_call, serve, serve_child_close. cbv zeta.
  destruct (dataservice_child_context_lookup _ _) as [i|s] eqn:El.
  2: { split_and!; [done..|]. by apply service_rep_inst, (sr_children _ _ Hsv). }
  unfold dataservice_child_context_close. destruct (BITCAP_ISSET _ _); cbn [negb].
  2: { split_and!; [done..|]. by apply service_rep_inst, (sr_children _ _ Hsv). }
  rewrite delete_set_child. split_and!; [done..|]. apply service_rep_inst; [done|].
  apply inst_inv_delete; [apply (sr_children _ _ Hsv)|].
  apply lookup_in_use in El as (c&?&?&_). eauto.
Qed.

Lemma child_create_serves caps sv w :
  service_rep w sv →
  computes_inst (child_context_create_call (sv_inst sv) caps) w
    (serve ATTESTATION sv (child_context_create (ReqChildCreate caps))).
Proof.
  intros Hrep. pose proof Hrep as (V&HV&Hsv). unfold child_context_create_call, computes_inst.
  unfold serve, serve_child_create. cbv zeta. cbn [cr_caps].
  destruct (dataservice_child_details_create (sv_inst sv)) as [[i|s] inst1] eqn:E.
  2: { apply post_ret. split_and!; [done..|]. apply service_rep_inst; [done|].
       unfold dataservice_child_details_create in E. destruct (child_head (sv_inst sv)); simplify_eq.
       apply (sr_children _ _ Hsv). }
  destruct (details_create_inst _ _ _ (sr_children _ _ Hsv) E) as ([free Hfree]&Hctx&Hch&Hlt).
  cbv zeta. cbn [inst_ctx set_child_ctx set_children]. rewrite Hctx.
  set (child := ChildContext _ _).
  assert (BITCAP_ISSET (childcaps child) DATASERVICE_API_CAP_LL_CHILD_CONTEXT_CREATE = true) as Hcap.
  { unfold child, child_ctx. rewrite Hch, list_lookup_insert_eq by done. by vm_compute. }
  unfold dataservice_child_context_create. rewrite Hcap.
  assert (∃ c, children (set_child_ctx inst1 i child) !! i = Some c ∧ cd_dispose c = true) as Hused.
  { simpl. rewrite list_lookup_alter, decide_True, Hch, list_lookup_insert_eq by done. by eexists. }
  destruct (BITCAP_ISSET (apicaps (inst_ctx (sv_inst sv))) _); cbn [negb].
  - apply post_act. set (ctx := ChildContext true _). rewrite set_child_ctx_twice.
    assert (length (children (sv_inst sv)) = DATASERVICE_MAX_CHILD_CONTEXTS) as Hlen
      by (destruct (sr_children _ _ Hsv) as (?&?&_); done).
    unfold DATASERVICE_MAX_CHILD_CONTEXTS in Hlen.
    assert (computes (encode_answer (answer_child (Z.of_nat i))) w
      (Ok (answer_child (Z.of_nat i)), set_inst sv (set_child_ctx inst1 i ctx))) as Henc.
    { apply (computes_encode _ _ V); [done| |simpl; unfold u32; lia].
      destruct Hsv. split; [done..|]. exists free. by apply inst_inv_set_child. }
    apply post_map_inv in Henc. eapply post_mono; [exact Henc|].
    intros [p|s] w' [Hp Hr]; [|done]. apply post_ret. by simplify_eq/=.
  - rewrite delete_set_child. apply post_ret. split_and!; [done..|]. apply service_rep_inst; [done|].
    rewrite <- (delete_set_child inst1 i child). apply inst_inv_delete; [|done].
    exists free. by apply inst_inv_set_child.
Qed.

Lemma reduce_caps_serves d breq sv w :
  service_rep w sv → dataservice_decode_request_root_context_reduce_caps breq = Ok d →
  computes_inst (ret (root_context_reduce_caps_call (sv_inst sv) breq)) w
    (serve ATTESTATION sv (root_context_reduce_caps d)).
Proof.
  intros Hrep Hdec. pose proof Hrep as (V&HV&Hsv). apply post_ret.
  unfold root_context_reduce_caps_call. rewrite Hdec. cbn [result_bind]. unfold serve. cbv zeta.
  destruct (dataservice_root_context_reduce_capabilities _ _) as [ctx|s].
  - split_and!; [done..|]. apply service_rep_inst; [done|]. apply (sr_children _ _ Hsv).
  - by split_and!.
Qed.
End refine.
