(* ===== verification/RpcSpec.v ===== *)
(** * Remote procedure calls, end to end

    A request that a client encodes is answered, after dispatch, by the packet
    the client decodes to the answer of the abstract service; and so is a sequence of
    requests. *)

From S2P Require Import Prelude Inet StatusCodes Contexts Lmdb Txn Records Vccert Database PqRep ProcessQueue ProcessQueueSpec BlockMake Ledger BlockMakeSpec Queries QueriesSpec RequestCodec RequestSpec ResponseCodec ResponseSpec Ipc IpcSpec Dispatch DispatchInv Service ServiceSpec ServiceRefine.

Section rpc.
Context {W : Type} {L : LMDB W} {LL : LMDB_laws W} {VC : VCCERT W} {VCL : VCCERT_laws W}.
Context {VB : VCCRYPT_BUFFER W} {EV : LIBEVENT W} {EVL : LIBEVENT_laws W} {ME : MDB_ENV W}.
Context {SL : SERVICE_laws W} (ATTESTATION : bool).
Context (R : LMDB_reliable W) (RV : VCCERT_reliable W) (RE : EV_reliable W).

(** ** Every result belongs to its method *)

Ltac status := split; by vm_compute.
Ltac listed_method := apply (bool_decide_unpack _); by vm_compute.

Lemma child_fields_status parser s : process_child_fields parser = Err s → 0 < s < 2 ^ 32.
Proof.
  unfold process_child_fields.
  assert (∀ p f n e, match (find_sized p f n e).1 with Ok _ => True | Err s => s = e end) as Hf.
  { intros p f n e. unfold find_sized. destruct (vccert_parser_find_short p f) as [[v|] p']; [|done].
    by destruct (_ =? _)%nat. }
  repeat match goal with
  | |- context [find_sized ?p ?f ?n ?e] =>
      pose proof (Hf p f n e); destruct (find_sized p f n e) as [[?|?] ?]; simpl in *
  end; intros; simplify_eq; status.
Qed.

Lemma children_apply_status h id lg certs s :
  children_apply h id lg certs = Err s → 0 < s < 2 ^ 32.
Proof.
  revert lg. induction certs as [|cert certs IH]; intros lg; simpl; [done|].
  destruct (child_apply h id lg cert) as [lg1|s1] eqn:E; [by apply IH|]. intros [= <-].
  unfold child_apply, link_prev in E.
  destruct (process_child_fields _) as [c|s2] eqn:Ec; [|simplify_eq; by eapply child_fields_status].
  repeat case_match; simplify_eq; status.
Qed.

Lemma ledger_append_status lg id data s : ledger_append lg id data = Err s → 0 < s < 2 ^ 32.
Proof.
  unfold ledger_append. cbv zeta.
  repeat case_match; try (intros [= <-]; status). apply children_apply_status.
Qed.

Lemma lookup_status inst child s :
  dataservice_child_context_lookup inst child = Err s → 0 < s < 2 ^ 32.
Proof. unfold dataservice_child_context_lookup. repeat case_match; intros; simplify_eq; status. Qed.

Lemma authorized_good m sv child cap k :
  good_result m k.1 → good_result m (authorized sv child cap k).1.
Proof.
  intros Hk. unfold authorized. destruct (dataservice_child_context_lookup _ _) eqn:E.
  - destruct (BITCAP_ISSET _ cap); [done|status].
  - by eapply lookup_status.
Qed.

Lemma found_good {A : Type} m sv (x : option A) f :
  (∀ a, x = Some a → answer_method (f a) = m ∧ answer_data (f a)) → good_result m (found sv x f).1.
Proof. intros H. destruct x as [a|]; simpl; [by apply H|status]. Qed.

Lemma status_method_good m : m ∈ status_methods → good_result m (Ok (answer_nothing m)).
Proof. done. Qed.

Lemma request_method_in r : request_method r ∈ status_methods ++ query_methods.
Proof. destruct r; apply (bool_decide_unpack _); by vm_compute. Qed.

Lemma serve_child_create_good inst caps :
  (∃ free, children_inv inst free) →
  good_result DATASERVICE_API_METHOD_LL_CHILD_CONTEXT_CREATE (serve_child_create inst caps).1.
Proof.
  intros Hch. unfold serve_child_create.
  destruct (dataservice_child_details_create inst) as [[i|s] inst1] eqn:E; [|status].
  destruct (details_create_inst _ _ _ Hch E) as (_&_&_&Hlt). destruct Hch as (?&Hlen&_).
  unfold DATASERVICE_MAX_CHILD_CONTEXTS in Hlen.
  destruct (BITCAP_ISSET _ _); [|status]. simpl. unfold u32. split; [done|lia].
Qed.

Lemma serve_good V sv r :
  sv_rep V sv → good_result (request_method r) (serve ATTESTATION sv r).1.
Proof.
  intros Hsv. pose proof (sr_ledger _ _ Hsv) as Hlg.
  assert (∀ m, m ∈ status_methods → good_result m (Ok (answer_nothing m))) as Hdone by done.
  destruct r as [d|d|d|d|d|d|d|d|d|d|d|d|d|d|d|d|d]; unfold serve; cbv zeta.
  - status.
  - unfold dataservice_root_context_reduce_capabilities. destruct (BITCAP_ISSET _ _); [|status].
    apply Hdone; listed_method.
  - pose proof (serve_child_create_good (sv_inst sv) (cr_caps d) (sr_children _ _ Hsv)) as H.
    by destruct (serve_child_create _ _).
  - unfold serve_child_close. destruct (dataservice_child_context_lookup _ _) eqn:E.
    2: by eapply lookup_status.
    destruct (BITCAP_ISSET _ _); [|status]. apply Hdone; listed_method.
  - apply authorized_good. simpl. by repeat case_match; try status.
  - apply authorized_good. apply Hdone; listed_method.
  - apply authorized_good. case_bool_decide; [status|]. apply Hdone; listed_method.
  - apply authorized_good, found_good. intros [[a e] b] [Hq _]%find_at_Some.
    split; [done|]. by apply (queue_entry sv V).
  - apply authorized_good, found_good. intros [[a e] b] [Hq _]%find_at_Some.
    split; [done|]. by apply (queue_entry sv V).
  - apply authorized_good. case_bool_decide; [|status]. apply Hdone; listed_method.
  - apply authorized_good. case_bool_decide; [|status]. apply Hdone; listed_method.
  - apply authorized_good, found_good. intros a Ha. split; [done|]. by apply (lr_wf_artifacts _ _ Hlg _ _ Ha).
  - apply authorized_good. destruct (ledger_append _ _ _) eqn:E; [|by eapply ledger_append_status].
    apply Hdone; listed_method.
  - apply authorized_good, found_good. intros [[a e] b] [Hq _]%find_at_Some.
    split; [done|]. by apply (block_entry sv V).
  - apply authorized_good, found_good. intros id Hid. split; [done|]. by apply (height_entry sv V _ _ Hsv Hid).
  - apply authorized_good. split; [done|]. by apply (latest_entry sv V).
  - apply authorized_good, found_good. intros [n cert] Hx. split; [done|].
    by destruct (lr_wf_txns _ _ Hlg _ _ Hx).
Qed.

(** ** Decoding *)

(** The decoder of each method returns the request. *)
Definition decodes_to (r : api_request) (breq : bytes) : Prop :=
  match r with
  | root_context_create d => True
  | root_context_reduce_caps d => dataservice_decode_request_root_context_reduce_caps breq = Ok d
  | child_context_create d => dataservice_decode_request_child_context_create breq = Ok d
  | child_context_close d => dataservice_decode_request_child_context_close breq = Ok d
  | global_setting_get d => dataservice_decode_request_global_setting_get breq = Ok d
  | global_setting_set d => dataservice_decode_request_global_setting_set breq = Ok d
  | transaction_submit d => dataservice_decode_request_transaction_submit breq = Ok d
  | transaction_get_first d => dataservice_decode_request_transaction_get_first breq = Ok d
  | transaction_get d => dataservice_decode_request_transaction_get breq = Ok d
  | transaction_drop d => dataservice_decode_request_transaction_drop breq = Ok d
  | transaction_promote d => dataservice_decode_request_transaction_promote breq = Ok d
  | artifact_read d => dataservice_decode_request_payload_artifact_read breq = Ok d
  | block_make d => dataservice_decode_request_block_make breq = Ok d
  | block_read d => dataservice_decode_request_block_read breq = Ok d
  | block_id_by_height_read d => dataservice_decode_request_block_id_by_height_read breq = Ok d
  | block_id_latest_read d => dataservice_decode_request_block_id_latest_read breq = Ok d
  | canonized_transaction_get d => dataservice_decode_request_canonized_transaction_get breq = Ok d
  end.

Lemma request_decodes r (w : W) : wf_request r → decodes_to r (concat (request_fields r)).
Proof.
  intros Hwf. pose proof (decode_request_spec r w Hwf) as H. unfold decode_request in H.
  generalize dependent (concat (request_fields r)). intros breq H.
  destruct r; [done|..]; cbn [request_method] in H; revert H; repeat eval_method;
    intros H%post_run; simpl fst in H; (destruct H as [H|[[? ?] _]]; [|done]);
    unfold decodes_to; unfold result_map in H;
    match type of H with result_bind ?x _ = _ => destruct x; [by simplify_eq/=|done] end.
Qed.

(** ** One handler *)

Lemma child_request_answered {D : Type} m (ci : D → Z) (d : D) decoded call w sv k :
  decoded = Ok d → service_rep w sv →
  computes (on_child (sv_inst sv) (ci d) (call d)) w k → (∀ ctx, silent (call d ctx)) →
  sv_inst k.2 = sv_inst sv →
  m ∈ status_methods ++ query_methods → u32 (ci d) → good_result m k.1 →
  post (with_inst (sv_inst sv) (child_request m ci (sv_inst sv) decoded call))
    (λ '(r, inst) w', inst = sv_inst k.2 ∧ service_rep w' k.2 ∧ answered m (ci d) k.1 w r w') w.
Proof.
  intros -> Hrep Hc Hs Hinst Hm Hoff Hres. unfold with_inst, child_request. cbn [request_child].
  apply post_act, post_act.
  change (bind (ret (Ok d)) _) with (on_child (sv_inst sv) (ci d) (call d)).
  pose proof (computes_answered RE m (ci d) _ (sv_inst sv) w k Hc) as H.
  specialize (H ltac:(unfold on_child; destruct (dataservice_child_context_lookup _ _); [apply Hs|apply silent_throw]) Hm Hoff Hres).
  rewrite Hinst. apply post_run in H. apply post_run. revert H. unfold act.
  destruct (on_child _ _ _ w) as [r1 w1]. simpl. intros H. rewrite post_run.
  destruct (write_result m (ci d) r1 w1) as [r2 w2]. done.
Qed.

Lemma authorized_inst sv child cap k :
  sv_inst k.2 = sv_inst sv → sv_inst (authorized sv child cap k).2 = sv_inst sv.
Proof.
  intros Hk. unfold authorized. destruct (dataservice_child_context_lookup _ _); [|done].
  by destruct (BITCAP_ISSET _ cap).
Qed.

Lemma silent_child_create inst caps : silent (child_context_create_call inst caps).
Proof.
  unfold child_context_create_call.
  destruct (dataservice_child_details_create inst) as [[i|s] inst1]; [|apply silent_ret].
  cbv zeta. destruct (dataservice_child_context_create _ _ _) as [ctx|s]; [|apply silent_ret].
  apply silent_act; [apply silent_encode_payload|]. intros [p|s]; apply silent_ret.
Qed.

(** ** The theorems *)

(** Only requests about contexts change the instance. *)
Definition changes_contexts (r : api_request) : bool :=
  match r with
  | root_context_create _ | root_context_reduce_caps _ | child_context_create _
  | child_context_close _ => true
  | _ => false
  end.

Lemma serve_inst sv r :
  changes_contexts r = false → sv_inst (serve ATTESTATION sv r).2 = sv_inst sv.
Proof.
  destruct r; (try done); intros _; apply authorized_inst; try done.
  all: by repeat case_match.
Qed.

(** What one request does, seen from outside. *)
Definition rpc_outcome (sv : service) (r : api_request) (w : W)
    (x : result unit * dataservice_instance) (w' : W) : Prop :=
  let k := serve ATTESTATION sv r in
  x.2 = sv_inst k.2 ∧ service_rep w' k.2 ∧
  answered (request_method r) (request_offset r) k.1 w x.1 w'.

Lemma dispatch_packet inst r :
  dataservice_decode_and_dispatch ATTESTATION inst (request_packet r)
  = dispatch_method ATTESTATION inst (request_method r) (concat (request_fields r)).
Proof.
  unfold dataservice_decode_and_dispatch, request_packet.
  assert (dispatch_header (be_enc 4 (request_method r) ++ concat (request_fields r))
          = Ok (request_method r, concat (request_fields r))) as ->; [|done].
  apply (request_init_spec _ (concat (request_fields r))), method_range.
Qed.

Lemma request_offset_u32 r : wf_request r → u32 (request_offset r).
Proof. destruct r; cbn; intros; destruct_and?; done. Qed.

Lemma inst_request_answered m off call w k :
  computes_inst call w k → silent call → m ∈ status_methods ++ query_methods → u32 off →
  good_result m k.1 →
  post (let! '(retval, inst) := call in let! r := write_result m off retval in ret (r, inst))
    (λ '(r, inst) w', inst = sv_inst k.2 ∧ service_rep w' k.2 ∧ answered m off k.1 w r w') w.
Proof.
  intros Hc Hs Hm Hoff Hres. unfold computes_inst in Hc. rewrite post_run in Hc. apply post_act, post_run.
  destruct (silent_streams call w Hs) as [Hi Ho]. destruct (call w) as [[r1 inst] w1].
  simpl in Hi, Ho. destruct Hc as (->&->&Hrep). cbn [fst snd] in *.
  apply post_act. eapply post_mono; [by apply write_result_answers|].
  intros r w' [Hrep' Hans]. apply post_ret. split_and!; [done..|].
  unfold answered in *. by rewrite <- Hi, <- Ho.
Qed.

Lemma rpc_ok sv r w :
  service_rep w sv → wf_request r → serviceable sv r →
  post (dataservice_decode_and_dispatch ATTESTATION (sv_inst sv) (request_packet r))
    (rpc_outcome sv r w) w.
Proof.
  intros Hrep Hwf Hser. rewrite dispatch_packet.
  pose proof (request_method_in r) as Hm. pose proof (request_offset_u32 r Hwf) as Hoff.
  pose proof (request_decodes r w Hwf) as Hdec. pose proof Hrep as (V&HV&Hsv).
  pose proof (serve_good V sv r Hsv) as Hgood. unfold rpc_outcome.
  generalize dependent (concat (request_fields r)). intros breq Hdec.
  apply (post_mono _ (λ '(x, inst) w', inst = sv_inst (serve ATTESTATION sv r).2 ∧
    service_rep w' (serve ATTESTATION sv r).2 ∧
    answered (request_method r) (request_offset r) (serve ATTESTATION sv r).1 w x w')).
  2: { intros [x inst] w'. done. }
  unfold dispatch_method.
  destruct r as [d|d|d|d|d|d|d|d|d|d|d|d|d|d|d|d|d]; [done|..];
    cbn [request_method request_offset decodes_to] in *; repeat eval_method.
  4-16: apply child_request_answered; [done|done| |call_silent|by apply serve_inst|done|done|done].
  4: by apply setting_get_serves. 4: by apply setting_set_serves. 4: by apply submit_serves.
  4: by apply get_first_serves. 4: by apply get_serves. 4: by apply drop_serves.
  4: by apply promote_serves. 4: by apply artifact_serves. 4: by apply block_make_serves.
  4: by apply block_read_serves. 4: by apply block_id_by_height_serves. 4: by apply latest_serves.
  4: by apply canonized_serves.
  - apply (inst_request_answered _ 0 (ret (root_context_reduce_caps_call (sv_inst sv) breq)));
      [by apply reduce_caps_serves|apply silent_ret|done..].
  - unfold dataservice_decode_and_dispatch_child_context_create. rewrite Hdec.
    apply inst_request_answered; [|apply silent_child_create|done..].
    destruct d as [caps]. by apply child_create_serves.
  - unfold dataservice_decode_and_dispatch_child_context_close. rewrite Hdec. cbv zeta iota.
    apply (inst_request_answered _ _ (ret (child_context_close_call (sv_inst sv) (cc_child_index d))));
      [by apply child_close_serves|apply silent_ret|done..].
Qed.

(** C7: End to end, on reliable libraries (the database, the certificate library, and
    the buffers and allocator of libevent do what is asked of them; the socket may
    fail): the packet that the encoder of a client builds for a well-formed request
    that the abstract service defines ([serviceable]: not the initialisation of the
    root context; a transaction that is submitted or read from the queue has no
    sentinel's identifier, a block that is read neither a sentinel's nor the root
    block's; certificates that are submitted or made a block are below 2^30 bytes, and
    the height of the chain stays below 2^64), dispatched on databases that represent
    the state of the abstract service, has the effect [serve] says on contexts and
    databases. And when the answer of [serve] fits a packet ([result_fits]: a setting
    or certificate below 2^30 bytes), exactly one response is appended to the socket,
    which the client's decoder turns into that answer: the value, block or transaction
    asked for, or the status of the error. The dispatcher then reports a failure only
    when the response is queued but the socket did not take it at once. *)
Theorem rpc_refines sv r w :
  service_rep w sv → wf_request r → serviceable sv r →
  post (dataservice_decode_and_dispatch ATTESTATION (sv_inst sv) (request_packet r))
    (rpc_outcome sv r w) w.
Proof. apply rpc_ok. Qed.
End rpc.

(** ** Sessions

    Sequences of requests: requests are answered one for one, in the order in
    which they were sent, as the abstract service answers them. *)

(** ** The exit flag

    [serve] does not look at the flag that makes the service leave its event
    loop. *)
Definition set_exit (b : bool) (inst : dataservice_instance) : dataservice_instance :=
  Instance_ (inst_dispose inst) (inst_ctx inst) (children inst) (child_head inst) b.

Section session.
Context {W : Type} {L : LMDB W} {LL : LMDB_laws W} {VC : VCCERT W} {VCL : VCCERT_laws W}.
Context {VB : VCCRYPT_BUFFER W} {EV : LIBEVENT W} {EVL : LIBEVENT_laws W} {ME : MDB_ENV W}.
Context {SL : SERVICE_laws W} (ATTESTATION : bool).
Context (R : LMDB_reliable W) (RV : VCCERT_reliable W) (RE : EV_reliable W).

Lemma serve_exit b sv r :
  serve ATTESTATION (set_inst sv (set_exit b (sv_inst sv))) r
  = let '(res, sv') := serve ATTESTATION sv r in (res, set_inst sv' (set_exit b (sv_inst sv'))).
Proof.
  destruct sv as [[di root ch hd ex] lg st].
  destruct r; unfold serve, authorized, found, serve_child_close, serve_child_create,
    dataservice_root_context_reduce_capabilities, dataservice_child_context_lookup,
    dataservice_child_details_create, dataservice_child_details_delete, set_inst, set_queue, set_ledger,
    set_exit, child_ctx, set_root, set_child_ctx, set_children; simpl;
    by repeat case_match; simplify_eq/=.
Qed.

(** ** Sequences of requests *)

Fixpoint serve_all (sv : service) (rs : list api_request) : list (result answer) * service :=
  match rs with
  | [] => ([], sv)
  | r :: rs =>
      let '(res, sv) := serve ATTESTATION sv r in
      let '(ress, sv) := serve_all sv rs in (res :: ress, sv)
  end.

Fixpoint serviceable_all (sv : service) (rs : list api_request) : Prop :=
  match rs with
  | [] => True
  | r :: rs => wf_request r ∧ serviceable sv r ∧ result_fits (serve ATTESTATION sv r).1 ∧
               serviceable_all (serve ATTESTATION sv r).2 rs
  end.

Lemma serviceable_cons sv r rs :
  wf_request r → serviceable sv r → result_fits (serve ATTESTATION sv r).1 →
  serviceable_all (serve ATTESTATION sv r).2 rs → serviceable_all sv (r :: rs).
Proof. done. Qed.

Definition decodes_answer (r : api_request) (res : result answer) (p : bytes) : Prop :=
  length p = response_length res ∧
  decode_response (request_method r) p
  = Ok (client_result (request_method r) (request_offset r) res).

Lemma packets_cons_nil d ds : packets (d :: ds) = frame (msg_data d) ++ packets ds.
Proof. done. Qed.

Lemma rpc_session_ok sv rs w :
  service_rep w sv → serviceable_all sv rs →
  post (dispatch_all ATTESTATION (sv_inst sv) (request_packet <$> rs))
    (λ '(_, inst) w',
       inst = sv_inst (serve_all sv rs).2 ∧ service_rep w' (serve_all sv rs).2 ∧
       instream w' = instream w ∧
       ∃ ps, outstream w' = outstream w ++ packets ps ∧
             Forall3 decodes_answer rs (serve_all sv rs).1 ps) w.
Proof.
  revert sv w. induction rs as [|r rs IH]; intros sv w Hrep Hser.
  { apply post_ret. split_and!; [done..|]. exists []. split; [symmetry; apply app_nil_r|constructor]. }
  destruct Hser as (Hwf&Hs&Hfit&Hser). rewrite fmap_cons. cbn [dispatch_all serve_all].
  apply post_act. eapply post_mono; [by apply (rpc_ok ATTESTATION R RV RE)|].
  intros [x inst] w1 (Hx&Hrep1&Hans). simpl in Hx. subst inst. destruct (Hans Hfit) as (Hi1&_&p&Ho1&Hp). cbn [fst snd] in *.
  apply post_act. destruct (serve ATTESTATION sv r) as [res sv1]. cbn [fst snd] in *.
  eapply post_mono; [by apply (IH sv1)|].
  destruct (serve_all sv1 rs) as [ress sv2]. intros [xs inst] w2 (->&Hrep2&Hi2&ps&Ho2&Hps).
  apply post_ret. split_and!; [done|done|congruence|]. exists (p :: ps). split; [|by constructor].
  by rewrite Ho2, Ho1, packets_cons_nil, (assoc_L (++)).
Qed.

(** C25: Requests are answered one for one and in order, on reliable libraries (the
    database, the certificate library, and the buffers and allocator of libevent do
    what is asked of them; the socket may fail): dispatching the packets of any
    sequence of requests that the service can serve ([serviceable_all]: in the state
    that the earlier ones lead to each is well formed, its answer fits a packet, and
    it is [serviceable]: no initialisation of the root context, no identifier of a
    sentinel where a transaction is submitted or read from the queue or a block is
    read, certificates below 2^30 bytes) appends one response for each, in the order
    of the requests, which the client decodes to the results of the abstract service
    run on the same sequence, and ends in the abstract state that run ends in. *)
Theorem rpc_session sv rs w :
  service_rep w sv → serviceable_all sv rs →
  post (dispatch_all ATTESTATION (sv_inst sv) (request_packet <$> rs))
    (λ '(_, inst) w',
       inst = sv_inst (serve_all sv rs).2 ∧ service_rep w' (serve_all sv rs).2 ∧
       instream w' = instream w ∧
       ∃ ps, outstream w' = outstream w ++ packets ps ∧
             Forall3 decodes_answer rs (serve_all sv rs).1 ps) w.
Proof. apply rpc_session_ok. Qed.
End session.
