(* ===== verification/ReadLoop.v ===== *)
(** * The read callback

    [dataservice_ipc_read] reads packets until the buffer is empty or a packet is
    incomplete, and dispatches each.  The loop ends; and what the peer gets are
    the answers of the abstract service to the requests it sent, in order, up to
    the first request that is not completely there. *)

From S2P Require Import Prelude Inet StatusCodes Contexts Lmdb Txn Records Vccert Database PqRep ProcessQueue ProcessQueueSpec BlockMake Ledger BlockMakeSpec Queries QueriesSpec RequestCodec RequestSpec ResponseCodec ResponseSpec Ipc IpcSpec Dispatch DispatchInv Service ServiceSpec ServiceRefine RpcSpec.

Definition with_exit (b : bool) (sv : service) : service := set_inst sv (set_exit b (sv_inst sv)).

Section loop.
Context {W : Type} {L : LMDB W} {LL : LMDB_laws W} {VC : VCCERT W} {VCL : VCCERT_laws W}.
Context {VB : VCCRYPT_BUFFER W} {EV : LIBEVENT W} {EVL : LIBEVENT_laws W} {ME : MDB_ENV W}.
Context {SL : SERVICE_laws W} (ATTESTATION : bool).

(** ** The exit flag *)

Lemma set_exit_self inst : set_exit (dataservice_force_exit inst) inst = inst.
Proof. by destruct inst. Qed.

Lemma serve_all_exit b sv rs :
  serve_all ATTESTATION (with_exit b sv) rs
  = ((serve_all ATTESTATION sv rs).1, with_exit b (serve_all ATTESTATION sv rs).2).
Proof.
  revert sv. induction rs as [|r rs IH]; intros sv; [done|]. cbn [serve_all].
  unfold with_exit. rewrite serve_exit. destruct (serve ATTESTATION sv r) as [res sv1].
  fold (with_exit b sv1). rewrite IH. by destruct (serve_all ATTESTATION sv1 rs).
Qed.

Lemma serviceable_exit b sv r : serviceable (with_exit b sv) r = serviceable sv r.
Proof. by destruct r. Qed.

Lemma serviceable_all_exit b sv rs :
  serviceable_all ATTESTATION sv rs → serviceable_all ATTESTATION (with_exit b sv) rs.
Proof.
  revert sv. induction rs as [|r rs IH]; intros sv; [done|]. cbn [serviceable_all].
  unfold with_exit at 2 3. rewrite serve_exit. rewrite serviceable_exit.
  destruct (serve ATTESTATION sv r) as [res sv1]. intros (?&?&?&?). split_and!; [done..|].
  by apply IH.
Qed.

Lemma service_rep_exit b w sv : service_rep w sv → service_rep w (with_exit b sv).
Proof. intros (V&HV&[]). exists V. by split. Qed.

Lemma service_rep_silent {A} (m : Act W A) w sv :
  db_silent m → service_rep w sv → service_rep (m w).2 sv.
Proof.
  intros Hm (V&HV&Hsv). exists V. split; [|done].
  pose proof (post_silent_env m _ _ (λ _ w', env_state w' None V) w Hm HV) as H.
  rewrite post_run in H. apply H. by intros.
Qed.

(** ** What is answered *)

Context (R : LMDB_reliable W) (RV : VCCERT_reliable W) (RE : EV_reliable W).

(** The requests [done] were served, one after the other, and answered; the
    requests [left] are still to be read; the exit flag is [b]. *)
Record served (sv : service) (done : list api_request) (b : bool) (w : W)
    (inst : dataservice_instance) (w' : W) : Prop := {
  served_inst : inst = set_exit b (sv_inst (serve_all ATTESTATION sv done).2);
  served_rep : service_rep w' (serve_all ATTESTATION sv done).2;
  served_out : ∃ ps, outstream w' = outstream w ++ packets ps ∧
                     Forall3 decodes_answer done (serve_all ATTESTATION sv done).1 ps }.

Lemma served_nil b sv w w' :
  service_rep w' sv → outstream w' = outstream w → served sv [] b w (set_exit b (sv_inst sv)) w'.
Proof.
  intros Hrep Ho. split; [done|done|]. exists []. rewrite Ho. split; [|constructor].
  symmetry. apply app_nil_r.
Qed.

(** Going on after the first request. *)
Lemma served_cons sv sv1 r res done b b1 w w1 inst w' p :
  serve ATTESTATION sv r = (res, sv1) → outstream w1 = outstream w ++ frame (msg_data p) →
  decodes_answer r res p →
  served (with_exit b1 sv1) done b w1 inst w' → served sv (r :: done) b w inst w'.
Proof.
  intros Es Ho Hp [Hi Hr (ps&Ho'&Hps)]. rewrite serve_all_exit in *. cbn [fst snd] in *.
  split; cbn [serve_all]; rewrite Es; destruct (serve_all ATTESTATION sv1 done) as [ress sv2]; cbn [fst snd] in *.
  - done.
  - destruct Hr as (V&HV&[]). exists V. by split.
  - exists (p :: ps). split; [|by constructor].
    by rewrite Ho', Ho, packets_cons_nil, (assoc_L (++)).
Qed.

(** The last thing that happened is a read from the socket, after [done] was served:
    it was the end of the stream or an error.  The socket did not take some response
    when it was queued. *)
Definition read_down (sv : service) (done : list api_request) (w' : W) : Prop :=
  ∃ w1, read_fails w1 ∧ service_rep w1 (serve_all ATTESTATION sv done).2 ∧
    instream w1 = instream w' ∧ outstream w1 = outstream w'.
Definition write_down (w w' : W) : Prop :=
  ∃ w1, transfer_failed w1 ∧ outstream w `prefix_of` outstream w1 ∧ outstream w1 `prefix_of` outstream w'.

(** The frame of the next request is not complete in the buffer; when none was
    served, it is not after what the socket had was read. *)
Definition incomplete (done : list api_request) (r : api_request) (w w' : W) : Prop :=
  (∀ rest, v_rbuf (sock w') ≠ frame (msg_data (request_packet r)) ++ rest) ∧
  (done = [] → sock w' = sock (evbuffer_read w).2).

(** Why the loop stopped: nothing is left, the next request is not complete in
    the buffer, or the socket could not be read and the service leaves its event
    loop. *)
Definition loop_stop (sv : service) (done left : list api_request) (b : bool) (w w' : W) : Prop :=
  match left with
  | [] => True
  | r :: _ => (b = true ∧ read_down sv done w') ∨ incomplete done r w w'
  end.

(** Why the service leaves its event loop. *)
Definition exit_reason (sv : service) (done : list api_request) (b : bool) (w w' : W) : Prop :=
  b = true → dataservice_force_exit (sv_inst sv) = true ∨ read_down sv done w' ∨ write_down w w'.

Definition loop_outcome (sv : service) (rs : list api_request) (w : W)
    (inst : dataservice_instance) (w' : W) : Prop :=
  ∃ done left b, rs = done ++ left ∧ served sv done b w inst w' ∧
    instream w' = packets (request_packet <$> left) ∧
    loop_stop sv done left b w w' ∧ exit_reason sv done b w w'.

Lemma served_prefix sv done b w inst w' : served sv done b w inst w' → outstream w `prefix_of` outstream w'.
Proof. intros [_ _ (ps&->&_)]. by apply prefix_app_r. Qed.

Lemma serve_keeps_exit sv r res sv1 :
  serve ATTESTATION sv r = (res, sv1) →
  dataservice_force_exit (sv_inst sv1) = dataservice_force_exit (sv_inst sv).
Proof.
  intros E. pose proof (serve_exit ATTESTATION (dataservice_force_exit (sv_inst sv)) sv r) as H.
  rewrite set_exit_self, E in H.
  replace (set_inst sv (sv_inst sv)) with sv in H by (by destruct sv). rewrite E in H.
  injection H as H. by rewrite H.
Qed.

(** After the first request. *)
Lemma read_down_cons sv sv1 r res done b1 w' :
  serve ATTESTATION sv r = (res, sv1) → read_down (with_exit b1 sv1) done w' → read_down sv (r :: done) w'.
Proof.
  intros Es (w1&Hf&Hr&Hs). exists w1. split_and!; [done| |apply Hs..].
  cbn [serve_all]. rewrite Es. rewrite serve_all_exit in Hr. cbn [snd] in Hr.
  destruct (serve_all ATTESTATION sv1 done) as [ress sv2]. cbn [snd] in *.
  destruct Hr as (V&HV&[]). exists V. by split.
Qed.

Lemma loop_stop_cons sv sv1 r res done left b b1 w w1 w' :
  serve ATTESTATION sv r = (res, sv1) → loop_stop (with_exit b1 sv1) done left b w1 w' →
  loop_stop sv (r :: done) left b w w'.
Proof.
  intros Es. destruct left; [done|].
  intros [[-> H]|[H _]]; [left; eauto using read_down_cons|by right].
Qed.

Lemma exit_reason_cons sv sv1 r res done b (x : result unit) w w1 w' p :
  serve ATTESTATION sv r = (res, sv1) →
  (x = Ok tt ∨ (x = Err AGENTD_ERROR_DATASERVICE_IPC_WRITE_DATA_FAILURE ∧ transfer_failed w1)) →
  outstream w1 = outstream w ++ p → outstream w1 `prefix_of` outstream w' →
  exit_reason (with_exit (if is_ok x then dataservice_force_exit (sv_inst sv1) else true) sv1) done b w1 w' →
  exit_reason sv (r :: done) b w w'.
Proof.
  intros Es Hx Ho Hpre H Hb. destruct (H Hb) as [He|[Hd|(w2&Hf&H1&H2)]].
  - cbn in He. destruct Hx as [->|[-> Ht]]; cbn [is_ok] in He.
    + left. by rewrite <- (serve_keeps_exit _ _ _ _ Es).
    + right; right. exists w1. split_and!; [done| |done]. rewrite Ho. by apply prefix_app_r.
  - right; left. by eapply read_down_cons.
  - right; right. exists w2. split_and!; [done| |done]. etrans; [|exact H1]. rewrite Ho. by apply prefix_app_r.
Qed.

(** A call that leaves the databases and the socket alone. *)
Lemma loop_outcome_same sv rs w inst w1 w2 :
  (∀ sv', service_rep w1 sv' → service_rep w2 sv') → sock w2 = sock w1 →
  loop_outcome sv rs w inst w1 → loop_outcome sv rs w inst w2.
Proof.
  intros Hkeep Hs (done&left&b&Hrs&[Hi Hr Ho]&Hin&Hstop&Hwhy). destruct (sock_streams _ _ Hs) as [Hi2 Ho2].
  assert (read_down sv done w1 → read_down sv done w2) as Hdown.
  { intros (w3&?&?&?&?). exists w3. split_and!; congruence. }
  exists done, left, b. split_and!; [done|split; [done|by apply Hkeep|by rewrite Ho2]|congruence| |].
  - destruct left; [done|]. destruct Hstop as [[-> H]|[H1 H2]]; [left; auto|right].
    unfold incomplete. by rewrite Hs.
  - intros Hb. destruct (Hwhy Hb) as [?|[?|(w3&?&?&?)]]; [by left|auto|].
    right; right. exists w3. by rewrite Ho2.
Qed.

Lemma request_packet_good r : wf_request r → sizeof (request_packet r) < 2 ^ 30 → good_packet (request_packet r).
Proof.
  intros _ Hs. split; [|done]. unfold request_packet, sizeof in *. rewrite length_app, length_be_enc in *. lia.
Qed.

Lemma frame_nonempty d : frame (msg_data d) ≠ [].
Proof. intros H%(f_equal length). rewrite length_frame_data in H. simpl in H. lia. Qed.

(** A read that fails: why, and that nothing is lost. *)
Lemma read_failed sv rs s w w1 :
  service_rep w1 sv → Forall (λ r, good_packet (request_packet r)) rs →
  service_rep w sv → instream w = packets (request_packet <$> rs) →
  packet_outcome (read_fails w) (sock (evbuffer_read w).2) w (Err s) w1 →
  loop_outcome sv rs w
    (if s =? AGENTD_ERROR_IPC_WOULD_BLOCK then sv_inst sv else set_exit true (sv_inst sv)) w1.
Proof.
  intros Hrep Hgood Hrep0 Hin [Ho H]. destruct H as [[_ Hf]|[Hi H]]; [by destruct (Hf RE)|].
  assert (read_fails w → read_down sv [] w1) as Hdown by (intros Hf; by exists w).
  exists [], rs, (if s =? AGENTD_ERROR_IPC_WOULD_BLOCK then dataservice_force_exit (sv_inst sv) else true).
  split_and!; [done| |congruence| |].
  - destruct (s =? AGENTD_ERROR_IPC_WOULD_BLOCK); [|by apply served_nil].
    rewrite <- (set_exit_self (sv_inst sv)) at 2. by apply served_nil.
  - destruct rs as [|r rs]; [done|]. inversion_clear Hgood as [|?? Hr _].
    destruct H as [[-> Hf]|[[-> Hf]|[Hf|[(->&Hno&Ht)|[_ Hno]]]]];
      [by left; split; [|apply Hdown]..|by destruct (Hf RE)| |].
    + right. split; [|done]. intros rest. by apply Hno.
    + destruct (Hno _ (packets (request_packet <$> rs)) Hr). by rewrite Hin, fmap_cons, packets_cons_nil.
  - destruct (s =? AGENTD_ERROR_IPC_WOULD_BLOCK) eqn:Es; [by left|]. intros _. right; left. apply Hdown.
    destruct H as [[-> Hf]|[[-> Hf]|[Hf|[[-> Hno]|[Hlen Hno]]]]]; [done|done|by destruct (Hf RE)|done|].
    destruct rs as [|r rs]; [by rewrite Hin in Hlen; simpl in Hlen; lia|]. inversion_clear Hgood as [|?? Hr _].
    destruct (Hno _ (packets (request_packet <$> rs)) Hr). by rewrite Hin, fmap_cons, packets_cons_nil.
Qed.

Lemma read_loop_spec fuel sv rs w :
  service_rep w sv → serviceable_all ATTESTATION sv rs →
  Forall (λ r, good_packet (request_packet r)) rs →
  instream w = packets (request_packet <$> rs) → (length rs < fuel)%nat →
  post (ipc_read_loop ATTESTATION fuel (sv_inst sv)) (loop_outcome sv rs w) w.
Proof.
  revert sv rs w. induction fuel as [|fuel IH]; intros sv rs w Hrep Hser Hgood Hin Hf; [lia|].
  cbn [ipc_read_loop]. apply post_act, post_run.
  pose proof (service_rep_silent _ w sv db_silent_read_data Hrep) as Hrep1.
  pose proof (read_data_noblock_spec w) as Hread. rewrite post_run in Hread.
  destruct (ipc_read_data_noblock w) as [[d|s] w1]; cbn [fst snd] in *.
  2: { apply (read_failed sv rs s w w1 Hrep1 Hgood Hrep Hin) in Hread.
       by destruct (s =? AGENTD_ERROR_IPC_WOULD_BLOCK); apply post_ret. }
  destruct Hread as (Ho1&Hd&Hin1). rewrite Hin in Hin1.
  destruct rs as [|r rs]; [by destruct (frame_nonempty d); symmetry in Hin1; apply app_nil in Hin1 as []|].
  inversion_clear Hgood as [|?? Hr Hgood']. rewrite fmap_cons, packets_cons_nil in Hin1.
  apply frame_data_inj in Hin1 as [<- Hin1]; [|done..].
  destruct Hser as (Hwf&Hs&Hfit&Hser). apply post_act. eapply post_mono; [by apply (rpc_ok ATTESTATION R RV RE)|].
  intros [x inst] w2 (Hx&Hrep2&Hans). destruct (Hans Hfit) as (Hi2&Hres&p&Ho2&Hp). cbn [fst snd] in *. subst inst.
  destruct (serve ATTESTATION sv r) as [res sv1] eqn:Es. cbn [fst snd] in *.
  set (b1 := if is_ok x then dataservice_force_exit (sv_inst sv1) else true).
  replace (if is_ok x then sv_inst sv1 else dataservice_exit_event_loop (sv_inst sv1))
    with (sv_inst (with_exit b1 sv1)) by (unfold b1; destruct (is_ok x); by destruct sv1 as [[] ? ?]).
  apply post_act, post_run. unfold ipc_socket_readbuffer_size.
  pose proof (service_rep_silent _ w2 sv1 db_silent_length Hrep2) as Hrep3.
  destruct (evbuffer_get_length w2) as [len w3] eqn:El. cbn [fst snd] in *.
  apply law_get_length in El as [Hs3 ->]. destruct (sock_streams _ _ Hs3) as [Hi3 Ho3].
  apply post_if; intros Hlen.
  - eapply post_mono; [apply (IH (with_exit b1 sv1) rs w3)|].
    + by apply service_rep_exit.
    + by apply serviceable_all_exit.
    + done.
    + congruence.
    + simpl in Hf. lia.
    + intros inst w' (done&left&b&->&Hserved&Hin'&Hstop&Hwhy). exists (r :: done), left, b.
      split_and!; [done| |done|by eapply loop_stop_cons|].
      * eapply served_cons; [done| |done|exact Hserved]. congruence.
      * eapply (exit_reason_cons sv sv1 r res done b x w w3); [done| | | |exact Hwhy].
        -- destruct Hres as [->|[-> (w4&?&?&?)]]; [by left|right]. split; [done|]. exists w4. split_and!; congruence.
        -- by rewrite Ho3, Ho2, Ho1.
        -- by eapply served_prefix.
  - apply post_ret. exists [r], rs, b1. split_and!; [done| |congruence| |].
    + apply (served_cons sv sv1 r res [] b1 b1 w w3 _ w3 p); [done|by rewrite Ho3, Ho2, Ho1|done|].
      apply (served_nil b1 (with_exit b1 sv1)); [by apply service_rep_exit|done].
    + destruct rs as [|r' rs]; [done|]. right. split; [|done]. intros rest Hb. rewrite Hs3 in Hb. rewrite Hb in Hlen.
      apply Z.ltb_ge in Hlen. unfold sizeof in Hlen. rewrite length_app, length_frame_data in Hlen. lia.
    + eapply (exit_reason_cons sv sv1 r res [] b1 x w w3); [done| | |done|by left].
      * destruct Hres as [->|[-> (w4&?&?&?)]]; [by left|right]. split; [done|]. exists w4. split_and!; congruence.
      * by rewrite Ho3, Ho2, Ho1.
Qed.

(** C20: The read callback of the service, on reliable libraries (the database, the
    certificate library, and the buffers and allocator of libevent do what is asked of
    them; the socket itself may fail), when the peer has sent the packets of the
    requests [rs], the databases represent the abstract service, and the service is
    not leaving its event loop. The requests, each in the state the earlier ones lead
    to, are ones the abstract service defines ([serviceable_all]: well formed, no
    initialisation of the root context, no identifier of a sentinel where a
    transaction is submitted or read from the queue or a block is read, certificates
    and results of a size that fits a packet), and their packets are ones the reader
    accepts ([good_packet]). Then the callback serves a front part [done] of them as
    the abstract service does and answers each; the packets of the others are still to
    be read, whole. It stops before the end only when the next packet is not complete
    in the buffer (if it served none: also not after the callback read what the socket
    had), or when the read that followed [done] was the end of the stream or an error.
    The service leaves its event loop only for that, or because the socket did not
    take a response when it was queued. At the end the write callback is set exactly
    when responses are waiting. *)
Theorem read_callback_serves fuel sv rs w :
  service_rep w sv → serviceable_all ATTESTATION sv rs →
  Forall (λ r, good_packet (request_packet r)) rs →
  instream w = packets (request_packet <$> rs) → (length rs < fuel)%nat →
  dataservice_force_exit (sv_inst sv) = false →
  post (dataservice_ipc_read ATTESTATION fuel (sv_inst sv)) (λ '(inst, writecb) w',
    loop_outcome sv rs w inst w' ∧ writecb = bool_decide (v_wbuf (sock w') ≠ [])) w.
Proof.
  intros Hrep Hser Hgood Hin Hf Hex. unfold dataservice_ipc_read. rewrite Hex.
  apply post_act. eapply post_mono; [by apply read_loop_spec|].
  intros inst w1 Hloop. apply post_act, post_run.
  unfold ipc_socket_writebuffer_size. pose proof (λ sv', service_rep_silent _ w1 sv' db_silent_write_length) as Hkeep.
  destruct (evbuffer_get_write_length w1) as [len w2] eqn:El.
  cbn [fst snd] in *. apply law_get_write_length in El as [Hs ->]. apply post_ret. split.
  - by eapply loop_outcome_same.
  - rewrite Hs. destruct (v_wbuf (sock w1)); [by vm_compute|].
    rewrite bool_decide_true by done. unfold sizeof. simpl. by apply Z.ltb_lt.
Qed.
End loop.

(** ** The loop of the read callback ends

    For any input, also one that is not a sequence of packets: every round either
    stops or takes a packet of at least nine bytes from the input, and nothing the
    service does while it handles a request puts bytes back. *)

(** The calls outside of the database and the socket. *)
Class QUIET_laws (W : Type) `{L : LMDB W} `{EV : !LIBEVENT W} `{EVL : !LIBEVENT_laws W}
    `{VB : !VCCRYPT_BUFFER W} `{ME : !MDB_ENV W} := {
  silent_allocate : ∀ n, silent (allocate n);
  silent_env_create : silent mdb_env_create;
  silent_set_mapsize : ∀ n, silent (mdb_env_set_mapsize n);
  silent_set_maxdbs : ∀ n, silent (mdb_env_set_maxdbs n);
  silent_env_open : ∀ d, silent (mdb_env_open d);
  silent_env_close : silent mdb_env_close;
  silent_dbi_open : ∀ t d, silent (mdb_dbi_open t d);
}.

Section termination.
Context {W : Type} {L : LMDB W} {LL : LMDB_laws W} {VC : VCCERT W}.
Context {VB : VCCRYPT_BUFFER W} {EV : LIBEVENT W} {EVL : LIBEVENT_laws W} {ME : MDB_ENV W}.
Context {SL : SERVICE_laws W} {QL : QUIET_laws W} (ATTESTATION : bool).

(** A run that reads nothing. *)
Definition reads_nothing {A : Type} (m : Act W A) : Prop := ∀ w, instream (m w).2 = instream w.

Lemma reads_nothing_silent {A} (m : Act W A) : silent m → reads_nothing m.
Proof. intros Hm w. apply (sock_streams w (m w).2), Hm. Qed.

Lemma reads_nothing_act {A B} (m : Act W A) (k : A → Act W B) :
  reads_nothing m → (∀ a, reads_nothing (k a)) → reads_nothing (act m k).
Proof.
  intros Hm Hk w. unfold act. specialize (Hm w). destruct (m w) as [a w1]. simpl in Hm.
  by rewrite (Hk a w1).
Qed.

Lemma reads_nothing_bind {A B} (m : Eff W A) (k : A → Eff W B) :
  reads_nothing m → (∀ a, reads_nothing (k a)) → reads_nothing (bind m k).
Proof. intros Hm Hk. apply reads_nothing_act; [done|]. intros []; [done|by intros w]. Qed.

Lemma reads_nothing_add b err : reads_nothing (add_object b err).
Proof.
  intros w. pose proof (post_add_object b err (λ _ w', instream w' = instream w) w) as H.
  rewrite post_run in H. apply H; auto.
Qed.

Lemma reads_nothing_write_data d : reads_nothing (ipc_write_data_noblock d).
Proof.
  unfold ipc_write_data_noblock. do 3 (apply reads_nothing_bind; [apply reads_nothing_add|intros _]).
  apply reads_nothing_act.
  - intros w. pose proof (post_write_from_buffer (λ _ w', instream w' = instream w) w) as H.
    rewrite post_run in H. apply H. auto.
  - intros k. by destruct (k <? 0).
Qed.

Lemma reads_nothing_write_status m off s data :
  reads_nothing (dataservice_decode_and_dispatch_write_status m off s data).
Proof.
  unfold dataservice_decode_and_dispatch_write_status. cbv zeta.
  apply reads_nothing_act; [apply reads_nothing_silent, silent_malloc|]. intros [|]; simpl; [|by intros w].
  apply reads_nothing_act; [apply reads_nothing_write_data|]. by intros [].
Qed.

Lemma reads_nothing_child {D : Type} m (ci : D → Z) inst decoded call :
  (∀ d ctx, silent (call d ctx)) → reads_nothing (child_request m ci inst decoded call).
Proof.
  intros Hc. apply reads_nothing_act; [|intros r; apply reads_nothing_write_status].
  apply reads_nothing_silent, silent_bind; [apply silent_ret|]. intros d. unfold on_child.
  destruct (dataservice_child_context_lookup inst (ci d)); [apply Hc|apply silent_throw].
Qed.

Lemma reads_nothing_reply {A : Type} (call : Act W (result (option bytes) * A)) m off :
  silent call →
  reads_nothing (let! '(retval, inst) := call in let! r := write_result m off retval in ret (r, inst)).
Proof.
  intros Hc. apply reads_nothing_act; [by apply reads_nothing_silent|]. intros [retval inst].
  apply reads_nothing_act; [apply reads_nothing_write_status|]. by intros r w.
Qed.

(** ** Initialising the root context *)

Lemma silent_open_dbis t ds : silent (open_dbis t ds).
Proof.
  induction ds as [|d ds IH]; [apply silent_ok|]. cbn [open_dbis].
  apply silent_act; [apply silent_dbi_open|]. intros rc. destruct (negb _); [apply silent_throw|done].
Qed.

Lemma silent_open_environment n d : silent (open_environment n d).
Proof.
  unfold open_environment.
  apply silent_act; [apply silent_set_mapsize|intros rc1]. destruct (negb _); [apply silent_throw|].
  apply silent_act; [apply silent_set_maxdbs|intros rc2]. destruct (negb _); [apply silent_throw|].
  apply silent_act; [apply silent_env_open|intros rc3]. destruct (negb _); [apply silent_throw|].
  apply silent_act; [apply silent_begin|intros [rc4 t]]. destruct (negb _); [apply silent_throw|].
  apply silent_act; [apply silent_open_dbis|intros [|]].
  - apply silent_act; [apply silent_commit|intros rc]. destruct (negb _); [apply silent_throw|apply silent_ok].
  - apply silent_act; [apply silent_abort|intros _; apply silent_throw].
Qed.

Lemma silent_root_init ctx n d : silent (dataservice_root_context_init ctx n d).
Proof.
  unfold dataservice_root_context_init, dataservice_database_open.
  destruct (negb _); [apply silent_ret|]. cbv zeta.
  apply silent_act; [|intros []; apply silent_ret].
  apply silent_act; [apply silent_malloc|intros mem]. destruct (negb mem); [apply silent_ret|].
  apply silent_act; [apply silent_env_create|intros rc]. destruct (negb _); [apply silent_ret|].
  apply silent_act; [apply silent_open_environment|intros [|]]; [apply silent_ret|].
  apply silent_act; [apply silent_env_close|intros _; apply silent_ret].
Qed.

Lemma silent_decode_root_init req : silent (dataservice_decode_request_root_context_init req).
Proof.
  unfold dataservice_decode_request_root_context_init.
  repeat first [ apply silent_allocate | apply silent_ret | apply silent_ok | apply silent_throw
    | apply silent_bind; [|intros ?] | apply silent_act; [|intros ?] | progress cbv zeta
    | match goal with |- silent (if ?b then _ else _) => destruct b
      | |- silent (match ?x with _ => _ end) => destruct x end ].
Qed.

(** ** The dispatcher *)

Lemma dispatch_reads_nothing inst req : reads_nothing (dataservice_decode_and_dispatch ATTESTATION inst req).
Proof.
  unfold dataservice_decode_and_dispatch.
  destruct (dispatch_header req) as [[m breq]|s]; [|by intros w]. unfold dispatch_method.
  case (m =? _).
  { apply reads_nothing_act; [apply reads_nothing_silent, silent_decode_root_init|].
    intros [dreq|s]; [|by intros w]. apply reads_nothing_act; [apply reads_nothing_silent, silent_root_init|].
    intros [retval ctx]. apply reads_nothing_act; [apply reads_nothing_write_status|]. by intros r w. }
  case (m =? _).
  { unfold dataservice_decode_and_dispatch_root_context_reduce_caps.
    destruct (root_context_reduce_caps_call inst breq) as [retval inst'].
    apply reads_nothing_act; [apply reads_nothing_write_status|]. by intros r w. }
  case (m =? _).
  { apply reads_nothing_reply.
    destruct (dataservice_decode_request_child_context_create breq); [apply silent_child_create|apply silent_ret]. }
  case (m =? _).
  { unfold dataservice_decode_and_dispatch_child_context_close. cbv zeta.
    match goal with |- reads_nothing (let '(_, _) := ?x in _) => destruct x as [retval inst'] end.
    apply reads_nothing_act; [apply reads_nothing_write_status|]. by intros r w. }
  unfold with_inst. apply reads_nothing_act; [|by intros r w].
  repeat (case (m =? _); [apply reads_nothing_child; intros d; call_silent|]).
  apply reads_nothing_act; [apply reads_nothing_write_status|]. by intros r w.
Qed.

(** ** The loop *)

(** C24: The loop of the read callback ends on any input: it runs at most once
    more than there are bytes to read, so any larger number of rounds gives the
    same result. *)
Theorem ipc_read_loop_terminates fuel inst w :
  (length (instream w) < fuel)%nat →
  ipc_read_loop ATTESTATION fuel inst w = ipc_read_loop ATTESTATION (S (length (instream w))) inst w.
Proof.
  remember (length (instream w)) as n eqn:Hn. revert fuel inst w Hn.
  induction n as [n IH] using (well_founded_induction lt_wf). intros [|fuel] inst w Hn Hf; [lia|].
  cbn [ipc_read_loop]. unfold act at 1 4.
  pose proof (read_data_noblock_spec w) as Hread. rewrite post_run in Hread.
  destruct (ipc_read_data_noblock w) as [[d|s] w1]; [|done].
  destruct Hread as (_&_&Hin). apply (f_equal length) in Hin.
  rewrite length_app, length_frame_data in Hin. cbn [snd] in Hin. unfold act at 1 3.
  pose proof (dispatch_reads_nothing inst d w1) as Hin1.
  destruct (dataservice_decode_and_dispatch ATTESTATION inst d w1) as [[r inst1] w2]. cbn [fst snd] in Hin1.
  unfold act, ipc_socket_readbuffer_size. destruct (evbuffer_get_length w2) as [len w3] eqn:El.
  apply law_get_length in El as [Hs _]. destruct (sock_streams _ _ Hs) as [Hin3 _].
  destruct (0 <? len); [|done].
  assert (length (instream w3) < n)%nat as Hlt by (rewrite Hin3, Hin1; lia).
  rewrite (IH _ Hlt fuel) by (done || lia). by rewrite (IH _ Hlt n) by (done || lia).
Qed.
End termination.
