(* ===== verification/ClientApi.v ===== *)
(** * The client API of the data service

    [dataservice_api_sendreq_*.c] and [dataservice_api_recvresp_*.c].  Every
    request has a function that encodes and sends it and one that receives and
    decodes the response, on up to three kinds of connection: a psock of the rcpr
    library, a buffered socket ([_old]) and a blocking descriptor ([_block]).  The
    functions of one kind differ in the encoder, the decoder and what they copy
    out, so each is written as an instance of two skeletons. *)

From S2P Require Import Prelude Inet StatusCodes Contexts Lmdb Records RequestCodec ResponseCodec Ipc.

(** The functions of rcpr: a status, and for a read the packet that came.  They
    send and receive the bytes as a data packet of the message layer. *)
Class PSOCK (W : Type) := {
  psock_write_boxed_data : bytes → Act W Z;
  psock_read_boxed_data : Act W (Z * bytes);
  rcpr_allocator_reclaim : Act W Z;
}.

(** A kind of connection: how a packet is sent and received, and the status of
    giving back the memory of a received packet. *)
Record transport (W : Type) := Transport {
  tr_send : bytes → Eff W unit;
  tr_recv : Eff W bytes;
  tr_release : Act W Z;
}.
Arguments Transport {W}.
Arguments tr_send {W}.
Arguments tr_recv {W}.
Arguments tr_release {W}.

Section transports.
Context {W : Type} {M : MALLOC W} {EV : LIBEVENT W} {IO : POSIX_IO W} {PS : PSOCK W}.

(** *** psock *)

Definition psock_send (reqbuf : bytes) : Eff W unit :=
  let! retval := psock_write_boxed_data reqbuf in
  if negb (retval =? 0) then throw AGENTD_ERROR_DATASERVICE_IPC_WRITE_DATA_FAILURE else ok tt.

Definition psock_send_pass (reqbuf : bytes) : Eff W unit :=
  let! retval := psock_write_boxed_data reqbuf in
  if negb (retval =? AGENTD_ERROR_IPC_WOULD_BLOCK) && negb (retval =? AGENTD_STATUS_SUCCESS)
  then throw AGENTD_ERROR_DATASERVICE_IPC_WRITE_DATA_FAILURE
  else if retval =? AGENTD_STATUS_SUCCESS then ok tt else throw retval.

Definition psock_recv : Eff W bytes :=
  let! '(retval, val) := psock_read_boxed_data in
  if negb (retval =? 0) then throw AGENTD_ERROR_DATASERVICE_IPC_READ_DATA_FAILURE else ok val.

Definition psock : transport W := Transport psock_send psock_recv rcpr_allocator_reclaim.
Definition psock_pass : transport W := Transport psock_send_pass psock_recv rcpr_allocator_reclaim.
Definition psock_lax : transport W :=
  Transport psock_send psock_recv (let! _ := rcpr_allocator_reclaim in ret 0).

(** *** Buffered sockets

    The size is converted to [uint32_t]. *)

Definition buffered_send (reqbuf : bytes) : Eff W unit :=
  let! retval := ipc_write_data_noblock (take (Z.to_nat (wrap32 (sizeof reqbuf))) reqbuf) in
  match retval with
  | Ok _ => ok tt
  | Err s =>
      throw (if s =? AGENTD_ERROR_IPC_WOULD_BLOCK then s
             else AGENTD_ERROR_DATASERVICE_IPC_WRITE_DATA_FAILURE)
  end.

Definition buffered_recv : Eff W bytes :=
  let! retval := ipc_read_data_noblock in
  match retval with
  | Ok val => ok val
  | Err s =>
      throw (if s =? AGENTD_ERROR_IPC_WOULD_BLOCK then s
             else AGENTD_ERROR_DATASERVICE_IPC_READ_DATA_FAILURE)
  end.

Definition buffered : transport W := Transport buffered_send buffered_recv (ret 0).

(** *** Blocking descriptors *)

Definition blocking_send (reqbuf : bytes) : Eff W unit :=
  let! retval := ipc_write_data_block (take (Z.to_nat (wrap32 (sizeof reqbuf))) reqbuf) in
  match retval with
  | Ok _ => ok tt
  | Err _ => throw AGENTD_ERROR_DATASERVICE_IPC_WRITE_DATA_FAILURE
  end.

Definition blocking_recv : Eff W bytes :=
  let! retval := ipc_read_data_block in
  match retval with
  | Ok val => ok val
  | Err _ => throw AGENTD_ERROR_DATASERVICE_IPC_READ_DATA_FAILURE
  end.

Definition blocking : transport W := Transport blocking_send blocking_recv (ret 0).
End transports.

Section skeletons.
Context {W : Type} {M : MALLOC W}.

Definition api_sendreq (T : transport W) (encoded : Eff W bytes) : Eff W unit :=
  let* reqbuf := encoded in tr_send T reqbuf.

(** [finish] sets what the caller gets; a failure to give the packet back
    replaces the status. *)
Definition api_recvresp {A B} (T : transport W) (decode : bytes → result A) (finish : A → Eff W B)
  : Eff W B :=
  let* val := tr_recv T in
  let! retval := (let* dresp := ret (decode val) in finish dresp) in
  let! release_retval := tr_release T in
  if negb (release_retval =? 0) then throw release_retval else ret retval.

(** ** What the caller gets

    The offset and the status always; the rest only for status success.  On a
    failure of the function itself the outputs are not used. *)

Definition finish_status (hdr : dataservice_response_header) : Eff W dataservice_response_header :=
  ok hdr.

Definition finish_child (dresp : dataservice_response_header * option Z)
  : Eff W (dataservice_response_header * option Z) :=
  let '(hdr, child) := dresp in
  if rh_status hdr =? AGENTD_STATUS_SUCCESS then ok (hdr, child) else ok (hdr, None).

(** The copied bytes of a block identifier or of an artifact record. *)
Definition finish_data (dresp : dataservice_response_header * bytes)
  : Eff W (dataservice_response_header * option bytes) :=
  let '(hdr, data) := dresp in
  if negb (rh_status hdr =? AGENTD_STATUS_SUCCESS) then ok (hdr, None) else ok (hdr, Some data).

(** [data_size] is the size of the caller's buffer. *)
Definition finish_setting (data_size : Z) (dresp : dataservice_response_header * bytes)
  : Eff W (dataservice_response_header * option bytes) :=
  let '(hdr, data) := dresp in
  if data_size <? sizeof data then throw AGENTD_ERROR_DATASERVICE_RECVRESP_MALFORMED_PAYLOAD_DATA
  else if rh_status hdr =? AGENTD_STATUS_SUCCESS then ok (hdr, Some data) else ok (hdr, None).

(** Copying the fields of a node into a cleared structure. *)
Definition copy_txn_node (n : bytes) : bytes :=
  let node := memset Byte.x00 sizeof_txn_node in
  let node := set_txn_node_key (txn_node_key n) node in
  let node := set_txn_node_prev (txn_node_prev n) node in
  let node := set_txn_node_next (txn_node_next n) node in
  let node := set_txn_node_artifact_id (txn_node_artifact_id n) node in
  let node := set_txn_node_net_txn_cert_size (txn_node_net_txn_cert_size n) node in
  set_txn_node_net_txn_state (txn_node_net_txn_state n) node.

Definition copy_canonized_node (n : bytes) : bytes :=
  let node := memset Byte.x00 sizeof_txn_node in
  let node := set_txn_node_key (txn_node_key n) node in
  let node := set_txn_node_prev (txn_node_prev n) node in
  let node := set_txn_node_next (txn_node_next n) node in
  let node := set_txn_node_artifact_id (txn_node_artifact_id n) node in
  let node := set_txn_node_block_id (txn_node_block_id n) node in
  let node := set_txn_node_net_txn_cert_size (txn_node_net_txn_cert_size n) node in
  set_txn_node_net_txn_state (txn_node_net_txn_state n) node.

Definition copy_block_node (n : bytes) : bytes :=
  let node := memset Byte.x00 sizeof_block_node in
  let node := set_block_node_key (block_node_key n) node in
  let node := set_block_node_prev (block_node_prev n) node in
  let node := set_block_node_next (block_node_next n) node in
  let node := set_block_node_first_transaction_id (block_node_first_transaction_id n) node in
  let node := set_block_node_net_block_height (block_node_net_block_height n) node in
  set_block_node_net_block_cert_size (block_node_net_block_cert_size n) node.

(** [*data = malloc(dresp.data_size)] and a copy; [optional]: only when there is
    data. *)
Definition copy_data (optional : bool) (data : bytes) : Eff W bytes :=
  if optional && negb (0 <? sizeof data) then ok [] else
  let! mem := malloc (sizeof data) in
  if negb mem then throw AGENTD_ERROR_GENERAL_OUT_OF_MEMORY else ok data.

(** [node] tells whether the caller's node pointer is not null. *)
Definition finish_node (copy : bytes → bytes) (optional node : bool)
    (dresp : dataservice_response_header * bytes * bytes)
  : Eff W (dataservice_response_header * option (option bytes * bytes)) :=
  let '(hdr, n, data) := dresp in
  if negb (rh_status hdr =? AGENTD_STATUS_SUCCESS) then ok (hdr, None) else
  let node := if node then Some (copy n) else None in
  let* data := copy_data optional data in
  ok (hdr, Some (node, data)).

Definition finish_txn_node (node : bool) := finish_node copy_txn_node false node.
Definition finish_canonized_node (node : bool) := finish_node copy_canonized_node true node.
Definition finish_block_node (node : bool) := finish_node copy_block_node true node.
End skeletons.

(** * The functions *)

Section client.
Context {W : Type} {M : MALLOC W} {VB : VCCRYPT_BUFFER W} {EV : LIBEVENT W} {IO : POSIX_IO W}.
Context {PS : PSOCK W}.

(** ** Requests on a psock

    [get_first] lets a socket that would block through. *)

Definition dataservice_api_sendreq_artifact_get (child : Z) (artifact_id : bytes) : Eff W unit :=
  api_sendreq psock (dataservice_encode_request_artifact_get child artifact_id).

Definition dataservice_api_sendreq_block_get (child : Z) (block_id : bytes) (read_cert : bool) : Eff W unit :=
  api_sendreq psock (dataservice_encode_request_block_get child block_id read_cert).

Definition dataservice_api_sendreq_block_id_by_height_get (child height : Z) : Eff W unit :=
  api_sendreq psock (dataservice_encode_request_block_id_by_height_get child height).

Definition dataservice_api_sendreq_block_make (child : Z) (block_id block_cert : bytes) : Eff W unit :=
  api_sendreq psock (dataservice_encode_request_block_make child block_id block_cert).

Definition dataservice_api_sendreq_canonized_transaction_get (child : Z) (txn_id : bytes) (read_cert : bool) : Eff W unit :=
  api_sendreq psock (dataservice_encode_request_canonized_transaction_get child txn_id read_cert).

Definition dataservice_api_sendreq_child_context_close (child : Z) : Eff W unit :=
  api_sendreq psock (dataservice_encode_request_child_context_close child).

Definition dataservice_api_sendreq_child_context_create (caps : bytes) : Eff W unit :=
  api_sendreq psock (dataservice_encode_request_child_context_create caps).

Definition dataservice_api_sendreq_global_settings_get (child key : Z) : Eff W unit :=
  api_sendreq psock (dataservice_encode_request_global_settings_get child key).

Definition dataservice_api_sendreq_global_settings_set (child key : Z) (val : bytes) : Eff W unit :=
  api_sendreq psock (dataservice_encode_request_global_settings_set child key val).

Definition dataservice_api_sendreq_latest_block_id_get (child : Z) : Eff W unit :=
  api_sendreq psock (dataservice_encode_request_latest_block_id_get child).

Definition dataservice_api_sendreq_root_context_init (max_database_size : Z) (datadir : bytes) : Eff W unit :=
  api_sendreq psock (dataservice_encode_request_root_context_init max_database_size datadir).

Definition dataservice_api_sendreq_root_context_reduce_caps (caps : bytes) : Eff W unit :=
  api_sendreq psock (dataservice_encode_request_root_context_reduce_caps caps).

Definition dataservice_api_sendreq_transaction_drop (child : Z) (txn_id : bytes) : Eff W unit :=
  api_sendreq psock (dataservice_encode_request_transaction_drop child txn_id).

Definition dataservice_api_sendreq_transaction_get (child : Z) (txn_id : bytes) : Eff W unit :=
  api_sendreq psock (dataservice_encode_request_transaction_get child txn_id).

Definition dataservice_api_sendreq_transaction_get_first (child : Z) : Eff W unit :=
  api_sendreq psock_pass (dataservice_encode_request_transaction_get_first child).

Definition dataservice_api_sendreq_transaction_promote (child : Z) (txn_id : bytes) : Eff W unit :=
  api_sendreq psock (dataservice_encode_request_transaction_promote child txn_id).

Definition dataservice_api_sendreq_transaction_submit (child : Z) (txn_id artifact_id val : bytes) : Eff W unit :=
  api_sendreq psock (dataservice_encode_request_transaction_submit child txn_id artifact_id val).

(** ** Requests on a buffered socket *)

Definition dataservice_api_sendreq_artifact_get_old (child : Z) (artifact_id : bytes) : Eff W unit :=
  api_sendreq buffered (dataservice_encode_request_artifact_get child artifact_id).

Definition dataservice_api_sendreq_block_get_old (child : Z) (block_id : bytes) (read_cert : bool) : Eff W unit :=
  api_sendreq buffered (dataservice_encode_request_block_get child block_id read_cert).

Definition dataservice_api_sendreq_block_id_by_height_get_old (child height : Z) : Eff W unit :=
  api_sendreq buffered (dataservice_encode_request_block_id_by_height_get child height).

Definition dataservice_api_sendreq_block_make_old (child : Z) (block_id block_cert : bytes) : Eff W unit :=
  api_sendreq buffered (dataservice_encode_request_block_make child block_id block_cert).

Definition dataservice_api_sendreq_canonized_transaction_get_old (child : Z) (txn_id : bytes) (read_cert : bool) : Eff W unit :=
  api_sendreq buffered (dataservice_encode_request_canonized_transaction_get child txn_id read_cert).

Definition dataservice_api_sendreq_child_context_close_old (child : Z) : Eff W unit :=
  api_sendreq buffered (dataservice_encode_request_child_context_close child).

Definition dataservice_api_sendreq_child_context_create_old (caps : bytes) : Eff W unit :=
  api_sendreq buffered (dataservice_encode_request_child_context_create caps).

Definition dataservice_api_sendreq_global_settings_get_old (child key : Z) : Eff W unit :=
  api_sendreq buffered (dataservice_encode_request_global_settings_get child key).

Definition dataservice_api_sendreq_global_settings_set_old (child key : Z) (val : bytes) : Eff W unit :=
  api_sendreq buffered (dataservice_encode_request_global_settings_set child key val).

Definition dataservice_api_sendreq_latest_block_id_get_old (child : Z) : Eff W unit :=
  api_sendreq buffered (dataservice_encode_request_latest_block_id_get child).

Definition dataservice_api_sendreq_root_context_init_old (max_database_size : Z) (datadir : bytes) : Eff W unit :=
  api_sendreq buffered (dataservice_encode_request_root_context_init max_database_size datadir).

Definition dataservice_api_sendreq_root_context_reduce_caps_old (caps : bytes) : Eff W unit :=
  api_sendreq buffered (dataservice_encode_request_root_context_reduce_caps caps).

Definition dataservice_api_sendreq_transaction_drop_old (child : Z) (txn_id : bytes) : Eff W unit :=
  api_sendreq buffered (dataservice_encode_request_transaction_drop child txn_id).

Definition dataservice_api_sendreq_transaction_get_old (child : Z) (txn_id : bytes) : Eff W unit :=
  api_sendreq buffered (dataservice_encode_request_transaction_get child txn_id).

Definition dataservice_api_sendreq_transaction_get_first_old (child : Z) : Eff W unit :=
  api_sendreq buffered (dataservice_encode_request_transaction_get_first child).

Definition dataservice_api_sendreq_transaction_promote_old (child : Z) (txn_id : bytes) : Eff W unit :=
  api_sendreq buffered (dataservice_encode_request_transaction_promote child txn_id).

Definition dataservice_api_sendreq_transaction_submit_old (child : Z) (txn_id artifact_id val : bytes) : Eff W unit :=
  api_sendreq buffered (dataservice_encode_request_transaction_submit child txn_id artifact_id val).

(** ** Requests on a blocking descriptor *)

Definition dataservice_api_sendreq_child_context_close_block (child : Z) : Eff W unit :=
  api_sendreq blocking (dataservice_encode_request_child_context_close child).

Definition dataservice_api_sendreq_child_context_create_block (caps : bytes) : Eff W unit :=
  api_sendreq blocking (dataservice_encode_request_child_context_create caps).

Definition dataservice_api_sendreq_global_settings_get_block (child key : Z) : Eff W unit :=
  api_sendreq blocking (dataservice_encode_request_global_settings_get child key).

Definition dataservice_api_sendreq_global_settings_set_block (child key : Z) (val : bytes) : Eff W unit :=
  api_sendreq blocking (dataservice_encode_request_global_settings_set child key val).

Definition dataservice_api_sendreq_root_context_init_block (max_database_size : Z) (datadir : bytes) : Eff W unit :=
  api_sendreq blocking (dataservice_encode_request_root_context_init max_database_size datadir).

Definition dataservice_api_sendreq_root_context_reduce_caps_block (caps : bytes) : Eff W unit :=
  api_sendreq blocking (dataservice_encode_request_root_context_reduce_caps caps).

(** ** Responses on a psock

    The receiver of [block_make] does not report that its buffer could not be
    reclaimed: [release_retval = retval]. *)

Definition dataservice_api_recvresp_artifact_get : Eff W (dataservice_response_header * option bytes) :=
  api_recvresp psock dataservice_decode_response_artifact_get finish_data.

Definition dataservice_api_recvresp_block_get (node : bool) : Eff W (dataservice_response_header * option (option bytes * bytes)) :=
  api_recvresp psock dataservice_decode_response_block_get (finish_block_node node).

Definition dataservice_api_recvresp_block_id_by_height_get : Eff W (dataservice_response_header * option bytes) :=
  api_recvresp psock dataservice_decode_response_block_id_by_height_get finish_data.

Definition dataservice_api_recvresp_block_make : Eff W dataservice_response_header :=
  api_recvresp psock_lax dataservice_decode_response_block_make finish_status.

Definition dataservice_api_recvresp_canonized_transaction_get (node : bool) : Eff W (dataservice_response_header * option (option bytes * bytes)) :=
  api_recvresp psock dataservice_decode_response_canonized_transaction_get (finish_canonized_node node).

Definition dataservice_api_recvresp_child_context_close : Eff W dataservice_response_header :=
  api_recvresp psock dataservice_decode_response_child_context_close finish_status.

Definition dataservice_api_recvresp_child_context_create : Eff W (dataservice_response_header * option Z) :=
  api_recvresp psock dataservice_decode_response_child_context_create finish_child.

Definition dataservice_api_recvresp_global_settings_get (data_size : Z) : Eff W (dataservice_response_header * option bytes) :=
  api_recvresp psock dataservice_decode_response_global_settings_get (finish_setting data_size).

Definition dataservice_api_recvresp_global_settings_set : Eff W dataservice_response_header :=
  api_recvresp psock dataservice_decode_response_global_settings_set finish_status.

Definition dataservice_api_recvresp_latest_block_id_get : Eff W (dataservice_response_header * option bytes) :=
  api_recvresp psock dataservice_decode_response_latest_block_id_get finish_data.

Definition dataservice_api_recvresp_root_context_init : Eff W dataservice_response_header :=
  api_recvresp psock dataservice_decode_response_root_context_init finish_status.

Definition dataservice_api_recvresp_root_context_reduce_caps : Eff W dataservice_response_header :=
  api_recvresp psock dataservice_decode_response_root_context_reduce_caps finish_status.

Definition dataservice_api_recvresp_transaction_drop : Eff W dataservice_response_header :=
  api_recvresp psock dataservice_decode_response_transaction_drop finish_status.

Definition dataservice_api_recvresp_transaction_get (node : bool) : Eff W (dataservice_response_header * option (option bytes * bytes)) :=
  api_recvresp psock dataservice_decode_response_transaction_get (finish_txn_node node).

Definition dataservice_api_recvresp_transaction_get_first (node : bool) : Eff W (dataservice_response_header * option (option bytes * bytes)) :=
  api_recvresp psock dataservice_decode_response_transaction_get_first (finish_txn_node node).

Definition dataservice_api_recvresp_transaction_promote : Eff W dataservice_response_header :=
  api_recvresp psock dataservice_decode_response_transaction_promote finish_status.

Definition dataservice_api_recvresp_transaction_submit : Eff W dataservice_response_header :=
  api_recvresp psock dataservice_decode_response_transaction_submit finish_status.

(** ** Responses on a buffered socket *)

Definition dataservice_api_recvresp_artifact_get_old : Eff W (dataservice_response_header * option bytes) :=
  api_recvresp buffered dataservice_decode_response_artifact_get finish_data.

Definition dataservice_api_recvresp_block_get_old (node : bool) : Eff W (dataservice_response_header * option (option bytes * bytes)) :=
  api_recvresp buffered dataservice_decode_response_block_get (finish_block_node node).

Definition dataservice_api_recvresp_block_id_by_height_get_old : Eff W (dataservice_response_header * option bytes) :=
  api_recvresp buffered dataservice_decode_response_block_id_by_height_get finish_data.

Definition dataservice_api_recvresp_block_make_old : Eff W dataservice_response_header :=
  api_recvresp buffered dataservice_decode_response_block_make finish_status.

Definition dataservice_api_recvresp_canonized_transaction_get_old (node : bool) : Eff W (dataservice_response_header * option (option bytes * bytes)) :=
  api_recvresp buffered dataservice_decode_response_canonized_transaction_get (finish_canonized_node node).

Definition dataservice_api_recvresp_child_context_close_old : Eff W dataservice_response_header :=
  api_recvresp buffered dataservice_decode_response_child_context_close finish_status.

Definition dataservice_api_recvresp_child_context_create_old : Eff W (dataservice_response_header * option Z) :=
  api_recvresp buffered dataservice_decode_response_child_context_create finish_child.

Definition dataservice_api_recvresp_global_settings_get_old (data_size : Z) : Eff W (dataservice_response_header * option bytes) :=
  api_recvresp buffered dataservice_decode_response_global_settings_get (finish_setting data_size).

Definition dataservice_api_recvresp_global_settings_set_old : Eff W dataservice_response_header :=
  api_recvresp buffered dataservice_decode_response_global_settings_set finish_status.

Definition dataservice_api_recvresp_latest_block_id_get_old : Eff W (dataservice_response_header * option bytes) :=
  api_recvresp buffered dataservice_decode_response_latest_block_id_get finish_data.

Definition dataservice_api_recvresp_root_context_init_old : Eff W dataservice_response_header :=
  api_recvresp buffered dataservice_decode_response_root_context_init finish_status.

Definition dataservice_api_recvresp_root_context_reduce_caps_old : Eff W dataservice_response_header :=
  api_recvresp buffered dataservice_decode_response_root_context_reduce_caps finish_status.

Definition dataservice_api_recvresp_transaction_drop_old : Eff W dataservice_response_header :=
  api_recvresp buffered dataservice_decode_response_transaction_drop finish_status.

Definition dataservice_api_recvresp_transaction_get_old (node : bool) : Eff W (dataservice_response_header * option (option bytes * bytes)) :=
  api_recvresp buffered dataservice_decode_response_transaction_get (finish_txn_node node).

Definition dataservice_api_recvresp_transaction_get_first_old (node : bool) : Eff W (dataservice_response_header * option (option bytes * bytes)) :=
  api_recvresp buffered dataservice_decode_response_transaction_get_first (finish_txn_node node).

Definition dataservice_api_recvresp_transaction_promote_old : Eff W dataservice_response_header :=
  api_recvresp buffered dataservice_decode_response_transaction_promote finish_status.

Definition dataservice_api_recvresp_transaction_submit_old : Eff W dataservice_response_header :=
  api_recvresp buffered dataservice_decode_response_transaction_submit finish_status.

(** ** Responses on a blocking descriptor *)

Definition dataservice_api_recvresp_child_context_close_block : Eff W dataservice_response_header :=
  api_recvresp blocking dataservice_decode_response_child_context_close finish_status.

Definition dataservice_api_recvresp_child_context_create_block : Eff W (dataservice_response_header * option Z) :=
  api_recvresp blocking dataservice_decode_response_child_context_create finish_child.

Definition dataservice_api_recvresp_global_settings_get_block (data_size : Z) : Eff W (dataservice_response_header * option bytes) :=
  api_recvresp blocking dataservice_decode_response_global_settings_get (finish_setting data_size).

Definition dataservice_api_recvresp_global_settings_set_block : Eff W dataservice_response_header :=
  api_recvresp blocking dataservice_decode_response_global_settings_set finish_status.

Definition dataservice_api_recvresp_root_context_init_block : Eff W dataservice_response_header :=
  api_recvresp blocking dataservice_decode_response_root_context_init finish_status.

Definition dataservice_api_recvresp_root_context_reduce_caps_block : Eff W dataservice_response_header :=
  api_recvresp blocking dataservice_decode_response_root_context_reduce_caps finish_status.

End client.
