(* ===== verification/ClientSpec.v ===== *)
(** * What the client API promises

    For every kind of connection: a request is sent as the packet that the
    dispatcher decodes, and the response to it is delivered as the answer of the
    service.  [RpcCall] composes them to the round trip of a call. *)

From S2P Require Import Prelude Inet StatusCodes Contexts Lmdb Txn Records Vccert Database PqRep ProcessQueue ProcessQueueSpec BlockMake Ledger BlockMakeSpec Queries QueriesSpec RequestCodec RequestSpec ResponseCodec ResponseSpec Ipc IpcSpec Dispatch DispatchInv Service ServiceSpec ServiceRefine RpcSpec ReadLoop ClientApi.

(** ** Connections

    [tr_in w] is what can still be received, [tr_out w] what was sent.  A packet
    that was sent is there with its frame, and the function fails only for
    [tr_send_fault].  A packet whose frame is in front is received whole; or the
    function would block, since the frame has not completely come ([tr_waits], of the
    packet and the world before and after), and nothing was taken; or it fails for
    [tr_recv_fault], of the world in which it was called. *)
Class transport_laws {W : Type} `{M : MALLOC W} (T : transport W) := {
  tr_in : W → bytes;
  tr_out : W → bytes;
  tr_send_fault : Prop;
  tr_waits : bytes → W → W → Prop;
  tr_recv_fault : W → Prop;
  law_send : ∀ d w, good_packet d →
    post (tr_send T d) (λ r w',
      match r with
      | Ok _ => tr_in w' = tr_in w ∧ tr_out w' = tr_out w ++ frame (msg_data d)
      | Err _ => tr_send_fault
      end) w;
  law_recv : ∀ d rest w, good_packet d → tr_in w = frame (msg_data d) ++ rest →
    post (tr_recv T) (λ r w',
      match r with
      | Ok d' => d' = d ∧ tr_in w' = rest ∧ tr_out w' = tr_out w
      | Err s =>
          (s = AGENTD_ERROR_IPC_WOULD_BLOCK ∧ tr_waits d w w' ∧ tr_in w' = tr_in w ∧ tr_out w' = tr_out w) ∨
          (s = AGENTD_ERROR_DATASERVICE_IPC_READ_DATA_FAILURE ∧ tr_recv_fault w)
      end) w;
  law_release : ∀ w rc w', tr_release T w = (rc, w') → tr_in w' = tr_in w ∧ tr_out w' = tr_out w;
  law_tr_malloc : ∀ n w b w', malloc n w = (b, w') → tr_in w' = tr_in w ∧ tr_out w' = tr_out w;
}.
Arguments tr_in {W M} T {_}.
Arguments tr_out {W M} T {_}.
Arguments tr_send_fault {W M} T {_}.
Arguments tr_waits {W M} T {_}.
Arguments tr_recv_fault {W M} T {_}.

Lemma wrapped_packet d :
  good_packet d → take (Z.to_nat (wrap32 (sizeof d))) d = d.
Proof.
  intros [Hpos Hlt]. unfold wrap32. rewrite Z.mod_small by lia.
  unfold sizeof. by rewrite Nat2Z.id, take_ge.
Qed.

Section buffered.
Context {W : Type} {M : MALLOC W} {EV : LIBEVENT W} {EVL : LIBEVENT_laws W}.

#[export, refine] Instance buffered_laws : transport_laws (W := W) buffered := {|
  tr_in := instream; tr_out := outstream;
  tr_send_fault := ev_faulty ∨ ∃ w : W, write_fails w;
  tr_waits d w w' := ev_faulty ∨
    ((∀ rest, v_rbuf (sock w') ≠ frame (msg_data d) ++ rest) ∧ sock w' = sock (evbuffer_read w).2);
  tr_recv_fault w := read_fails w ∨ ev_faulty |}.
Proof.
  - intros d w Hd. unfold buffered, buffered_send. cbn [tr_send]. rewrite wrapped_packet by done.
    apply post_act. eapply post_mono; [apply write_data_noblock_spec; by destruct Hd; lia|].
    intros [[]|s] w' [Hi Ho]; apply post_ret.
    + split; [done|]. destruct Ho as [[_ Ho]|((s&[=])&_)]. done.
    + destruct Ho as [[[[=]|(_&w1&Hw&_)] _]|(_&Hf&_)]; [right; by exists w1|by left].
  - intros d rest w Hd Hin. unfold buffered, buffered_recv. cbn [tr_recv].
    apply post_act. eapply post_mono; [apply read_data_noblock_spec|].
    intros [d'|s] w' [Ho H]; apply post_ret.
    { destruct H as [Hd' H]. rewrite Hin in H. apply frame_data_inj in H as [<- <-]; done. }
    destruct H as [[-> Hf]|[Hi H]]; [by right; split; [|right]|].
    destruct H as [[-> Hf]|[[-> Hf]|[Hf|[(->&Hno&Ht)|[_ Hno]]]]].
    5: by destruct (Hno d rest Hd).
    1,2: by right; split; [|left].
    + destruct (s =? AGENTD_ERROR_IPC_WOULD_BLOCK) eqn:Es.
      * left. apply Z.eqb_eq in Es. split_and!; [done|by left|done..].
      * right. split; [done|by right].
    + left. split_and!; [done| |done..]. right. split; [|done]. intros rest'. by apply Hno.
  - by intros w rc w' [= _ <-].
  - intros n w b w' E. apply law_ev_malloc in E. by apply sock_streams.
Defined.
End buffered.

Section blocking.
Context {W : Type} {M : MALLOC W} {IO : POSIX_IO W} {IOL : POSIX_IO_laws W}.

#[export, refine] Instance blocking_laws : transport_laws (W := W) blocking := {|
  tr_in := rx; tr_out := tx;
  tr_send_fault := io_faulty; tr_waits d w w' := False; tr_recv_fault w := io_faulty |}.
Proof.
  - intros d w Hd. unfold blocking, blocking_send. cbn [tr_send]. rewrite wrapped_packet by done.
    apply post_act. eapply post_mono; [by apply (write_block_spec (msg_data d))|].
    intros [[]|s] w' H; apply post_ret; [done|apply H].
  - intros d rest w Hd Hin. unfold blocking, blocking_recv. cbn [tr_recv].
    pose proof (read_block_spec (msg_data d) rest w Hd Hin) as H. unfold read_block in H. cbn [kind_of] in H.
    rewrite post_run in H. unfold bind, act in H. rewrite post_run. unfold act.
    destruct (ipc_read_data_block w) as [[d'|s] w']; simpl in *; [|by right].
    destruct H as ([= ->]&Hr&Ht). by split_and!.
  - by intros w rc w' [= _ <-].
  - intros n w b w' E. by apply law_io_malloc in E.
Defined.
End blocking.

(** The documented behaviour of a psock: boxed data travels in the frame of a data
    packet, and reclaiming memory touches no stream. *)
Class PSOCK_laws (W : Type) `{M : MALLOC W} `{PS : PSOCK W} := {
  ps_in : W → bytes;
  ps_out : W → bytes;
  law_ps_write : ∀ d w rc w', good_packet d → psock_write_boxed_data d w = (rc, w') → rc = 0 →
    ps_in w' = ps_in w ∧ ps_out w' = ps_out w ++ frame (msg_data d);
  law_ps_read : ∀ d rest w rc d' w', good_packet d → ps_in w = frame (msg_data d) ++ rest →
    psock_read_boxed_data w = ((rc, d'), w') → rc = 0 →
    d' = d ∧ ps_in w' = rest ∧ ps_out w' = ps_out w;
  law_ps_reclaim : ∀ w rc w', rcpr_allocator_reclaim w = (rc, w') →
    ps_in w' = ps_in w ∧ ps_out w' = ps_out w;
  law_ps_malloc : ∀ n w b w', malloc n w = (b, w') → ps_in w' = ps_in w ∧ ps_out w' = ps_out w;
}.

Section psock.
Context {W : Type} {M : MALLOC W} {PS : PSOCK W} {PSL : PSOCK_laws W}.

(** A write, or a read in [w], fails. *)
Definition psock_write_fault : Prop := ∃ d (w : W), (psock_write_boxed_data d w).1 ≠ 0.
Definition psock_read_fault (w : W) : Prop := (psock_read_boxed_data w).1.1 ≠ 0.

Definition psock_sent (d : bytes) (w : W) (r : result unit) (w' : W) : Prop :=
  match r with
  | Ok _ => ps_in w' = ps_in w ∧ ps_out w' = ps_out w ++ frame (msg_data d)
  | Err _ => psock_write_fault
  end.

Lemma psock_send_spec d w :
  good_packet d →
  post (psock_send d) (psock_sent d w) w.
Proof.
  intros Hd. unfold psock_send. apply post_act, post_run. destruct (psock_write_boxed_data d w) as [rc w1] eqn:E. simpl.
  destruct (Z.eqb_spec rc 0) as [->|Hne]; apply post_ret; [by eapply law_ps_write|].
  exists d, w. by rewrite E.
Qed.

Lemma psock_send_pass_spec d w :
  good_packet d →
  post (psock_send_pass d) (psock_sent d w) w.
Proof.
  intros Hd. unfold psock_send_pass. apply post_act, post_run. destruct (psock_write_boxed_data d w) as [rc w1] eqn:E.
  cbn [fst snd]. assert (rc ≠ 0 → psock_write_fault) as Hf by (intros Hne; exists d, w; by rewrite E).
  apply post_if; intros H.
  { apply andb_true_iff in H as [_ H%negb_true_iff%Z.eqb_neq]. by apply post_ret, Hf. }
  apply post_if; intros H'; apply post_ret.
  - apply Z.eqb_eq in H' as ->. by eapply law_ps_write.
  - apply Z.eqb_neq in H'. by apply Hf.
Qed.

Lemma psock_recv_spec d rest w :
  good_packet d → ps_in w = frame (msg_data d) ++ rest →
  post psock_recv (λ r w',
    match r with
    | Ok d' => d' = d ∧ ps_in w' = rest ∧ ps_out w' = ps_out w
    | Err s =>
        (s = AGENTD_ERROR_IPC_WOULD_BLOCK ∧ False ∧ ps_in w' = ps_in w ∧ ps_out w' = ps_out w) ∨
        (s = AGENTD_ERROR_DATASERVICE_IPC_READ_DATA_FAILURE ∧ psock_read_fault w)
    end) w.
Proof.
  intros Hd Hin. unfold psock_recv. apply post_act, post_run.
  destruct (psock_read_boxed_data w) as [[rc d'] w1] eqn:E. cbn [fst snd].
  destruct (Z.eqb_spec rc 0) as [->|Hne]; apply post_ret; [by eapply law_ps_read|].
  right. split; [done|]. unfold psock_read_fault. by rewrite E.
Qed.

#[export, refine] Instance psock_laws : transport_laws (W := W) psock := {|
  tr_in := ps_in; tr_out := ps_out; tr_send_fault := psock_write_fault;
  tr_waits d w w' := False; tr_recv_fault := psock_read_fault |}.
Proof.
  - intros d w. apply psock_send_spec.
  - intros d rest w. apply psock_recv_spec.
  - exact law_ps_reclaim.
  - exact law_ps_malloc.
Defined.

#[export, refine] Instance psock_pass_laws : transport_laws (W := W) psock_pass := {|
  tr_in := ps_in; tr_out := ps_out; tr_send_fault := psock_write_fault;
  tr_waits d w w' := False; tr_recv_fault := psock_read_fault |}.
Proof.
  - intros d w. apply psock_send_pass_spec.
  - intros d rest w. apply psock_recv_spec.
  - exact law_ps_reclaim.
  - exact law_ps_malloc.
Defined.

#[export, refine] Instance psock_lax_laws : transport_laws (W := W) psock_lax := {|
  tr_in := ps_in; tr_out := ps_out; tr_send_fault := psock_write_fault;
  tr_waits d w w' := False; tr_recv_fault := psock_read_fault |}.
Proof.
  - intros d w. apply psock_send_spec.
  - intros d rest w. apply psock_recv_spec.
  - intros w rc w'. cbn [tr_release psock_lax]. unfold act.
    destruct (rcpr_allocator_reclaim w) as [rc1 w1] eqn:E. intros [= _ <-].
    by apply law_ps_reclaim in E.
  - exact law_ps_malloc.
Defined.
End psock.

(** ** Replies *)

(** The header of the response and, for status success, what came with it. *)
Definition reply : Type := dataservice_response_header * option client_view.

Definition succeeded (hdr : dataservice_response_header) : bool := rh_status hdr =? AGENTD_STATUS_SUCCESS.

Definition as_status (hdr : dataservice_response_header) : reply :=
  (hdr, if succeeded hdr then Some view_status else None).
Definition as_child (x : dataservice_response_header * option Z) : reply :=
  (x.1, (λ c, view_child (Some c)) <$> x.2).
Definition as_data (x : dataservice_response_header * option bytes) : reply :=
  (x.1, view_data <$> x.2).
Definition as_node (x : dataservice_response_header * option (option bytes * bytes)) : reply :=
  (x.1, (λ '(n, d), view_node (default [] n) d) <$> x.2).

(** The reply for a result of the service. *)
Definition client_reply (m off : Z) (res : result answer) : reply :=
  match res with
  | Ok a => (ResponseHeader m off 0, Some (client_sees a))
  | Err s => (ResponseHeader m off s, None)
  end.

Section client.
Context {W : Type} {M : MALLOC W} {VB : VCCRYPT_BUFFER W} {EV : LIBEVENT W} {IO : POSIX_IO W}.
Context {PS : PSOCK W}.

Definition eff_map {A B} (f : A → B) (m : Eff W A) : Eff W B := let* a := m in ok (f a).

(** ** The functions of a request *)

Definition sendreq (r : api_request) : Eff W unit :=
  match r with
  | root_context_create d =>
      dataservice_api_sendreq_root_context_init (ri_max_database_size d) (ri_datadir d)
  | root_context_reduce_caps d =>
      dataservice_api_sendreq_root_context_reduce_caps (caps_bytes (rc_caps d))
  | child_context_create d => dataservice_api_sendreq_child_context_create (caps_bytes (cr_caps d))
  | child_context_close d => dataservice_api_sendreq_child_context_close (cc_child_index d)
  | global_setting_get d =>
      dataservice_api_sendreq_global_settings_get (gg_child_index d) (gg_key d)
  | global_setting_set d =>
      dataservice_api_sendreq_global_settings_set (gs_child_index d) (gs_key d) (gs_val d)
  | transaction_submit d =>
      dataservice_api_sendreq_transaction_submit (ts_child_index d) (ts_txn_id d) (ts_artifact_id d) (ts_cert d)
  | transaction_get_first d => dataservice_api_sendreq_transaction_get_first (tf_child_index d)
  | transaction_get d => dataservice_api_sendreq_transaction_get (tg_child_index d) (tg_txn_id d)
  | transaction_drop d => dataservice_api_sendreq_transaction_drop (td_child_index d) (td_txn_id d)
  | transaction_promote d =>
      dataservice_api_sendreq_transaction_promote (tp_child_index d) (tp_txn_id d)
  | artifact_read d => dataservice_api_sendreq_artifact_get (ar_child_index d) (ar_artifact_id d)
  | block_make d =>
      dataservice_api_sendreq_block_make (bm_child_index d) (bm_block_id d) (bm_cert d)
  | block_read d =>
      dataservice_api_sendreq_block_get (br_child_index d) (br_block_id d) (br_read_cert d)
  | block_id_by_height_read d =>
      dataservice_api_sendreq_block_id_by_height_get (bh_child_index d) (bh_block_height d)
  | block_id_latest_read d => dataservice_api_sendreq_latest_block_id_get (bl_child_index d)
  | canonized_transaction_get d =>
      dataservice_api_sendreq_canonized_transaction_get (cg_child_index d) (cg_txn_id d) (cg_read_cert d)
  end.

Definition sendreq_old (r : api_request) : Eff W unit :=
  match r with
  | root_context_create d =>
      dataservice_api_sendreq_root_context_init_old (ri_max_database_size d) (ri_datadir d)
  | root_context_reduce_caps d =>
      dataservice_api_sendreq_root_context_reduce_caps_old (caps_bytes (rc_caps d))
  | child_context_create d =>
      dataservice_api_sendreq_child_context_create_old (caps_bytes (cr_caps d))
  | child_context_close d => dataservice_api_sendreq_child_context_close_old (cc_child_index d)
  | global_setting_get d =>
      dataservice_api_sendreq_global_settings_get_old (gg_child_index d) (gg_key d)
  | global_setting_set d =>
      dataservice_api_sendreq_global_settings_set_old (gs_child_index d) (gs_key d) (gs_val d)
  | transaction_submit d =>
      dataservice_api_sendreq_transaction_submit_old (ts_child_index d) (ts_txn_id d) (ts_artifact_id d) (ts_cert d)
  | transaction_get_first d => dataservice_api_sendreq_transaction_get_first_old (tf_child_index d)
  | transaction_get d =>
      dataservice_api_sendreq_transaction_get_old (tg_child_index d) (tg_txn_id d)
  | transaction_drop d =>
      dataservice_api_sendreq_transaction_drop_old (td_child_index d) (td_txn_id d)
  | transaction_promote d =>
      dataservice_api_sendreq_transaction_promote_old (tp_child_index d) (tp_txn_id d)
  | artifact_read d =>
      dataservice_api_sendreq_artifact_get_old (ar_child_index d) (ar_artifact_id d)
  | block_make d =>
      dataservice_api_sendreq_block_make_old (bm_child_index d) (bm_block_id d) (bm_cert d)
  | block_read d =>
      dataservice_api_sendreq_block_get_old (br_child_index d) (br_block_id d) (br_read_cert d)
  | block_id_by_height_read d =>
      dataservice_api_sendreq_block_id_by_height_get_old (bh_child_index d) (bh_block_height d)
  | block_id_latest_read d => dataservice_api_sendreq_latest_block_id_get_old (bl_child_index d)
  | canonized_transaction_get d =>
      dataservice_api_sendreq_canonized_transaction_get_old (cg_child_index d) (cg_txn_id d) (cg_read_cert d)
  end.

Definition recvresp (data_size : Z) (r : api_request) : Eff W reply :=
  match r with
  | root_context_create _ => eff_map as_status dataservice_api_recvresp_root_context_init
  | root_context_reduce_caps _ =>
      eff_map as_status dataservice_api_recvresp_root_context_reduce_caps
  | child_context_create _ => eff_map as_child dataservice_api_recvresp_child_context_create
  | child_context_close _ => eff_map as_status dataservice_api_recvresp_child_context_close
  | global_setting_get _ => eff_map as_data (dataservice_api_recvresp_global_settings_get data_size)
  | global_setting_set _ => eff_map as_status dataservice_api_recvresp_global_settings_set
  | transaction_submit _ => eff_map as_status dataservice_api_recvresp_transaction_submit
  | transaction_get_first _ => eff_map as_node (dataservice_api_recvresp_transaction_get_first true)
  | transaction_get _ => eff_map as_node (dataservice_api_recvresp_transaction_get true)
  | transaction_drop _ => eff_map as_status dataservice_api_recvresp_transaction_drop
  | transaction_promote _ => eff_map as_status dataservice_api_recvresp_transaction_promote
  | artifact_read _ => eff_map as_data dataservice_api_recvresp_artifact_get
  | block_make _ => eff_map as_status dataservice_api_recvresp_block_make
  | block_read _ => eff_map as_node (dataservice_api_recvresp_block_get true)
  | block_id_by_height_read _ => eff_map as_data dataservice_api_recvresp_block_id_by_height_get
  | block_id_latest_read _ => eff_map as_data dataservice_api_recvresp_latest_block_id_get
  | canonized_transaction_get _ =>
      eff_map as_node (dataservice_api_recvresp_canonized_transaction_get true)
  end.

Definition recvresp_old (data_size : Z) (r : api_request) : Eff W reply :=
  match r with
  | root_context_create _ => eff_map as_status dataservice_api_recvresp_root_context_init_old
  | root_context_reduce_caps _ =>
      eff_map as_status dataservice_api_recvresp_root_context_reduce_caps_old
  | child_context_create _ => eff_map as_child dataservice_api_recvresp_child_context_create_old
  | child_context_close _ => eff_map as_status dataservice_api_recvresp_child_context_close_old
  | global_setting_get _ =>
      eff_map as_data (dataservice_api_recvresp_global_settings_get_old data_size)
  | global_setting_set _ => eff_map as_status dataservice_api_recvresp_global_settings_set_old
  | transaction_submit _ => eff_map as_status dataservice_api_recvresp_transaction_submit_old
  | transaction_get_first _ =>
      eff_map as_node (dataservice_api_recvresp_transaction_get_first_old true)
  | transaction_get _ => eff_map as_node (dataservice_api_recvresp_transaction_get_old true)
  | transaction_drop _ => eff_map as_status dataservice_api_recvresp_transaction_drop_old
  | transaction_promote _ => eff_map as_status dataservice_api_recvresp_transaction_promote_old
  | artifact_read _ => eff_map as_data dataservice_api_recvresp_artifact_get_old
  | block_make _ => eff_map as_status dataservice_api_recvresp_block_make_old
  | block_read _ => eff_map as_node (dataservice_api_recvresp_block_get_old true)
  | block_id_by_height_read _ => eff_map as_data dataservice_api_recvresp_block_id_by_height_get_old
  | block_id_latest_read _ => eff_map as_data dataservice_api_recvresp_latest_block_id_get_old
  | canonized_transaction_get _ =>
      eff_map as_node (dataservice_api_recvresp_canonized_transaction_get_old true)
  end.

Definition recvresp_with (T : transport W) (data_size : Z) (r : api_request) : Eff W reply :=
  match r with
  | root_context_create _ =>
      eff_map as_status (api_recvresp T dataservice_decode_response_root_context_init finish_status)
  | root_context_reduce_caps _ =>
      eff_map as_status
        (api_recvresp T dataservice_decode_response_root_context_reduce_caps finish_status)
  | child_context_create _ =>
      eff_map as_child
        (api_recvresp T dataservice_decode_response_child_context_create finish_child)
  | child_context_close _ =>
      eff_map as_status
        (api_recvresp T dataservice_decode_response_child_context_close finish_status)
  | global_setting_get _ =>
      eff_map as_data
        (api_recvresp T dataservice_decode_response_global_settings_get (finish_setting data_size))
  | global_setting_set _ =>
      eff_map as_status
        (api_recvresp T dataservice_decode_response_global_settings_set finish_status)
  | transaction_submit _ =>
      eff_map as_status
        (api_recvresp T dataservice_decode_response_transaction_submit finish_status)
  | transaction_get_first _ =>
      eff_map as_node
        (api_recvresp T dataservice_decode_response_transaction_get_first (finish_txn_node true))
  | transaction_get _ =>
      eff_map as_node
        (api_recvresp T dataservice_decode_response_transaction_get (finish_txn_node true))
  | transaction_drop _ =>
      eff_map as_status (api_recvresp T dataservice_decode_response_transaction_drop finish_status)
  | transaction_promote _ =>
      eff_map as_status
        (api_recvresp T dataservice_decode_response_transaction_promote finish_status)
  | artifact_read _ =>
      eff_map as_data (api_recvresp T dataservice_decode_response_artifact_get finish_data)
  | block_make _ =>
      eff_map as_status (api_recvresp T dataservice_decode_response_block_make finish_status)
  | block_read _ =>
      eff_map as_node
        (api_recvresp T dataservice_decode_response_block_get (finish_block_node true))
  | block_id_by_height_read _ =>
      eff_map as_data
        (api_recvresp T dataservice_decode_response_block_id_by_height_get finish_data)
  | block_id_latest_read _ =>
      eff_map as_data (api_recvresp T dataservice_decode_response_latest_block_id_get finish_data)
  | canonized_transaction_get _ =>
      eff_map as_node
        (api_recvresp T dataservice_decode_response_canonized_transaction_get (finish_canonized_node true))
  end.

(** The connection a request is sent on in the psock API. *)
Definition psock_of (r : api_request) : transport W :=
  match r with transaction_get_first _ => psock_pass | _ => psock end.
Definition psock_from (r : api_request) : transport W :=
  match r with block_make _ => psock_lax | _ => psock end.

Lemma sendreq_eq r : sendreq r = api_sendreq (psock_of r) (encode_request r).
Proof. by destruct r. Qed.
Lemma sendreq_old_eq r : sendreq_old r = api_sendreq buffered (encode_request r).
Proof. by destruct r. Qed.
Lemma recvresp_eq n r : recvresp n r = recvresp_with (psock_from r) n r.
Proof. by destruct r. Qed.
Lemma recvresp_old_eq n r : recvresp_old n r = recvresp_with buffered n r.
Proof. by destruct r. Qed.
End client.

(** ** Sending and receiving *)

Section calls.
Context {W : Type} {M : MALLOC W} {VB : VCCRYPT_BUFFER W} {VBL : VCCRYPT_BUFFER_laws W}.
Context (T : transport W) {TL : transport_laws T}.

(** A run that touches neither stream. *)
Definition keeps {A : Type} (m : Act W A) : Prop :=
  ∀ w, tr_in T (m w).2 = tr_in T w ∧ tr_out T (m w).2 = tr_out T w.

(** Allocating a buffer does not. *)
Context (HB : ∀ n, keeps (vccrypt_buffer_init n)).

Lemma keeps_ret {A : Type} (a : A) : keeps (ret a).
Proof. done. Qed.
Lemma keeps_throw {A : Type} s : keeps (throw s : Eff W A).
Proof. done. Qed.

Lemma keeps_act {A B : Type} (m : Act W A) (k : A → Act W B) :
  keeps m → (∀ a, keeps (k a)) → keeps (act m k).
Proof.
  intros Hm Hk w. unfold act. specialize (Hm w). destruct (m w) as [a w1]. destruct (Hk a w1).
  simpl in Hm. destruct Hm. split; congruence.
Qed.

Lemma keeps_malloc n : keeps (malloc n).
Proof. intros w. destruct (malloc n w) as [b w'] eqn:E. by eapply law_tr_malloc. Qed.

Lemma keeps_release : keeps (tr_release T).
Proof. intros w. destruct (tr_release T w) as [b w'] eqn:E. by eapply law_release. Qed.

Lemma keeps_encode n fields : keeps (encode_fields n fields).
Proof.
  apply keeps_act; [apply HB|]. intros [rc tmp]. destruct (negb _); [apply keeps_throw|apply keeps_ret].
Qed.

Lemma keeps_encode_request r : keeps (encode_request r).
Proof. destruct r; apply keeps_encode. Qed.

(** The crypto library has no buffer. *)
Definition buffer_fault : Prop := ∃ n (w : W), (vccrypt_buffer_init n w).1.1 ≠ 0.

Lemma api_sendreq_spec r w :
  wf_request r → good_packet (request_packet r) →
  post (api_sendreq T (encode_request r)) (λ res w',
    match res with
    | Ok _ => tr_in T w' = tr_in T w ∧ tr_out T w' = tr_out T w ++ frame (msg_data (request_packet r))
    | Err _ => buffer_fault ∨ tr_send_fault T
    end) w.
Proof.
  intros Hwf Hgood. unfold api_sendreq. apply post_bind, post_run.
  destruct (keeps_encode_request r w) as [Hi Ho]. pose proof (encode_request_spec r w Hwf) as He.
  destruct (encode_request r w) as [x w1]. cbn [fst snd] in *. cbv zeta in He. rewrite He.
  destruct (_ =? 0) eqn:Erc; [|left; eexists _, w; by apply Z.eqb_neq, Erc].
  eapply post_mono; [by apply law_send|]. intros [[]|s] w2 H; [|by right]. by rewrite <- Hi, <- Ho.
Qed.

(** There is no memory. *)
Definition no_memory : Prop := ∃ n (w : W), (malloc n w).1 = false.

(** The outcome of a receiver when the frame of the packet [d] is in front. *)
Definition received {A : Type} (d : bytes) (x : A) (rest : bytes) (w : W) (r : result A) (w' : W) : Prop :=
  match r with
  | Ok y => y = x ∧ tr_in T w' = rest ∧ tr_out T w' = tr_out T w
  | Err s =>
      (s = AGENTD_ERROR_IPC_WOULD_BLOCK ∧ tr_waits T d w w' ∧
       tr_in T w' = tr_in T w ∧ tr_out T w' = tr_out T w) ∨
      (s = AGENTD_ERROR_DATASERVICE_IPC_READ_DATA_FAILURE ∧ tr_recv_fault T w) ∨
      ((s = AGENTD_ERROR_GENERAL_OUT_OF_MEMORY ∧ no_memory) ∨ ∃ w1, s = (tr_release T w1).1 ∧ s ≠ 0) ∧
      tr_in T w' = rest
  end.

Definition yields {A : Type} (m : Eff W A) (x : A) : Prop :=
  keeps m ∧ ∀ w, (m w).1 = Ok x ∨ ((m w).1 = Err AGENTD_ERROR_GENERAL_OUT_OF_MEMORY ∧ no_memory).

Lemma yields_ok {A : Type} (x : A) : yields (ok x) x.
Proof. split; [apply keeps_ret|by left]. Qed.

Lemma yields_copy optional data : yields (copy_data optional data) data.
Proof.
  unfold copy_data. destruct (optional && _) eqn:E.
  - apply andb_true_iff in E as [_ E]. destruct data as [|b data]; [apply yields_ok|done].
  - split.
    + apply keeps_act; [apply keeps_malloc|]. intros [|]; [apply keeps_ret|apply keeps_throw].
    + intros w. unfold act. destruct (malloc _ w) as [[|] w'] eqn:Em; [by left|right].
      split; [done|]. eexists _, w. by rewrite Em.
Qed.

Lemma yields_map {A B : Type} (f : A → B) (m : Eff W A) x : yields m x → yields (eff_map f m) (f x).
Proof.
  intros [Hk Hm]. split.
  - apply keeps_act; [done|]. intros []; [apply keeps_ret|apply keeps_throw].
  - intros w. unfold eff_map, bind, act. specialize (Hm w). destruct (m w) as [r w'].
    simpl in Hm. destruct Hm as [->|[-> Hm]]; [by left|by right].
Qed.

Lemma bind_ret_ok {A B : Type} (v : A) (k : A → Eff W B) : bind (ret (Ok v)) k = k v.
Proof. done. Qed.

Lemma api_recvresp_spec {A B : Type} (decode : bytes → result A) (finish : A → Eff W B) d rest v x w :
  good_packet d → tr_in T w = frame (msg_data d) ++ rest → decode d = Ok v → yields (finish v) x →
  post (api_recvresp T decode finish) (received d x rest w) w.
Proof.
  intros Hd Hin Hdec [Hk Hf]. unfold api_recvresp. apply post_bind.
  eapply post_mono; [by apply law_recv|]. intros [d'|s] w1.
  2: { intros [H|H]; [by left|by right; left]. }
  intros (->&Hi1&Ho1). rewrite Hdec, bind_ret_ok. apply post_act, post_run.
  destruct (Hk w1) as [Hi2 Ho2]. specialize (Hf w1). destruct (finish v w1) as [r w2]. cbn [fst snd] in *.
  apply post_act, post_run. destruct (keeps_release w2) as [Hi3 Ho3].
  destruct (tr_release T w2) as [rc w3] eqn:E. cbn [fst snd] in *.
  destruct (Z.eqb_spec rc 0) as [->|Hne]; apply post_ret.
  - destruct Hf as [->|[-> Hm]]; [split_and!; congruence|]. right; right. split; [by left|congruence].
  - right; right. split; [|congruence]. right. exists w2. by rewrite E.
Qed.

End calls.

(** ** Copied nodes *)

(** A field of a record in host order, as it lies in memory. *)
Lemma net_field64 b x : length b = 8%nat → ntohll (le_dec b) = x → le_dec b = htonll x.
Proof.
  intros Hl <-. symmetry. apply htonll_ntohll. pose proof (le_dec_range b) as H. rewrite Hl in H.
  split; [apply H|]. eapply Z.lt_le_trans; [apply H|]. by apply Z.leb_le.
Qed.

Lemma net_field32 b x : length b = 4%nat → ntohl (le_dec b) = x → le_dec b = htonl x.
Proof.
  intros Hl <-. symmetry. apply htonl_ntohl. pose proof (le_dec_range b) as H. rewrite Hl in H.
  split; [apply H|]. eapply Z.lt_le_trans; [apply H|]. by apply Z.leb_le.
Qed.

Lemma txn_node_net_fields n :
  wf_txn_node n →
  txn_node_net_txn_cert_size (enc_txn_node n) = htonll (tn_cert_size n) ∧
  txn_node_net_txn_state (enc_txn_node n) = htonl (tn_state n).
Proof.
  intros Hn. pose proof (txn_node_fields n [] Hn) as (_&_&_&_&_&Hc&Hs). rewrite app_nil_r in *.
  pose proof (length_enc_txn_node n Hn) as Hl. unfold sizeof_txn_node in Hl.
  split; [apply net_field64|apply net_field32]; (done || (apply length_sub; lia)).
Qed.

Lemma copy_canonized_node_id n : wf_txn_node n → copy_canonized_node (enc_txn_node n) = enc_txn_node n.
Proof.
  intros Hn. pose proof (txn_node_fields n [] Hn) as (Hk&Hp&Hx&Ha&Hb&_). rewrite app_nil_r in *.
  destruct (txn_node_net_fields n Hn) as [Hc Hs].
  unfold copy_canonized_node. rewrite Hk, Hp, Hx, Ha, Hb, Hc, Hs. pose proof wf_zero_txn_node as [].
  destruct Hn. rewrite <- (app_nil_r (memset _ _)), txn_node_zero.
  rewrite txn_node_set_key, txn_node_set_prev, txn_node_set_next, txn_node_set_artifact_id,
    txn_node_set_block_id, txn_node_set_cert_size, txn_node_set_state; simpl.
  1: rewrite app_nil_r; by destruct n.
  all: unfold u64, u32 in *; first [done|split; simpl in *; done].
Qed.

Lemma copy_txn_node_id n :
  wf_txn_node n → tn_block_id n = zero_uuid → copy_txn_node (enc_txn_node n) = enc_txn_node n.
Proof.
  intros Hn Hz. pose proof (txn_node_fields n [] Hn) as (Hk&Hp&Hx&Ha&_&_). rewrite app_nil_r in *.
  destruct (txn_node_net_fields n Hn) as [Hc Hs].
  unfold copy_txn_node. rewrite Hk, Hp, Hx, Ha, Hc, Hs. pose proof wf_zero_txn_node as [].
  destruct Hn. rewrite <- (app_nil_r (memset _ _)), txn_node_zero.
  rewrite txn_node_set_key, txn_node_set_prev, txn_node_set_next, txn_node_set_artifact_id,
    txn_node_set_cert_size, txn_node_set_state; simpl.
  1: rewrite app_nil_r, <- Hz; by destruct n.
  all: unfold u64, u32 in *; first [done|split; simpl in *; done].
Qed.

Lemma copy_block_node_id n : wf_block_node n → copy_block_node (enc_block_node n) = enc_block_node n.
Proof.
  intros Hn. pose proof (block_node_fields n [] Hn) as (Hk&Hp&Hx&Hf&Hh&Hc). rewrite app_nil_r in *.
  pose proof (length_enc_block_node n Hn) as Hl. unfold sizeof_block_node in Hl.
  apply net_field64 in Hh, Hc; try (apply length_sub; lia).
  unfold copy_block_node. rewrite Hk, Hp, Hx, Hf. unfold block_node_net_block_height, block_node_net_block_cert_size.
  rewrite Hh, Hc. destruct Hn. rewrite rebuild_block by (unfold u64; done). by destruct n.
Qed.

(** ** Replies *)

Section replies.
Context {W : Type} {M : MALLOC W} {VB : VCCRYPT_BUFFER W} {VBL : VCCRYPT_BUFFER_laws W}.
Context {EV : LIBEVENT W} {IO : POSIX_IO W} {PS : PSOCK W}.
Context (T : transport W) {TL : transport_laws T}.

Lemma result_map_Ok {A B : Type} (f : A → B) r y : result_map f r = Ok y → ∃ x, r = Ok x ∧ f x = y.
Proof. destruct r; [intros [= <-]; eauto|done]. Qed.

Lemma received_map {A B : Type} (f : A → B) (m : Eff W A) d x rest w :
  post m (received T d x rest w) w → post (eff_map f m) (received T d (f x) rest w) w.
Proof.
  intros H. apply post_bind. eapply post_mono; [exact H|]. intros [y|s] w'; [|done].
  intros (->&?&?). by apply post_ret.
Qed.

Section one.
Variables (m off : Z) (res : result answer) (p rest : bytes) (w : W).
Hypotheses (Hgood : good_result m res) (Hp : good_packet p).
Hypothesis (Hin : tr_in T w = frame (msg_data p) ++ rest).

Lemma reply_hdr h v :
  (h, v) = client_result m off res →
  match res with
  | Ok a => h = ResponseHeader m off 0 ∧ v = client_sees a
  | Err s => h = ResponseHeader m off s ∧ v = client_sees_failure m ∧ rh_status h =? AGENTD_STATUS_SUCCESS = false
  end.
Proof.
  intros E. destruct res as [a|s]; simpl in *; [by simplify_eq|]. simplify_eq. split_and!; [done..|].
  apply Z.eqb_neq. simpl. unfold AGENTD_STATUS_SUCCESS. lia.
Qed.

Lemma reply_status decode :
  result_map (λ h, (h, view_status)) (decode p) = Ok (client_result m off res) →
  post (eff_map as_status (api_recvresp T decode finish_status)) (received T p (client_reply m off res) rest w) w.
Proof.
  intros (h&Hd&E)%result_map_Ok. cbn [fst snd] in E. apply reply_hdr in E.
  replace (client_reply m off res) with (as_status h).
  - apply received_map. eapply api_recvresp_spec; [done..|]. apply yields_ok.
  - unfold as_status, succeeded, client_reply. destruct res as [a|s]; [by destruct E as [-> <-]|].
    destruct E as (->&_&E). by rewrite E.
Qed.

Lemma reply_child decode :
  result_map (λ x, (x.1, view_child x.2)) (decode p) = Ok (client_result m off res) →
  post (eff_map as_child (api_recvresp T decode finish_child)) (received T p (client_reply m off res) rest w) w.
Proof.
  intros ([h c]&Hd&E)%result_map_Ok. cbn [fst snd] in E. apply reply_hdr in E.
  destruct res as [a|s].
  - destruct E as [-> E]. destruct a; simpl in E; try destruct read_cert; simplify_eq.
    apply (received_map as_child _ p (ResponseHeader m off 0, Some child)).
    eapply api_recvresp_spec; [done..|]. apply yields_ok.
  - destruct E as (->&_&E). apply (received_map as_child _ p (ResponseHeader m off s, None)).
    eapply api_recvresp_spec; [done..|]. unfold finish_child. rewrite E. apply yields_ok.
Qed.

Lemma reply_data decode :
  result_map (λ x, (x.1, view_data x.2)) (decode p) = Ok (client_result m off res) →
  post (eff_map as_data (api_recvresp T decode finish_data)) (received T p (client_reply m off res) rest w) w.
Proof.
  intros ([h d]&Hd&E)%result_map_Ok. cbn [fst snd] in E. apply reply_hdr in E.
  destruct res as [a|s].
  - destruct E as [-> E]. cbn [fst snd] in E. unfold client_reply. rewrite <- E.
    apply (received_map as_data _ p (ResponseHeader m off 0, Some d)).
    eapply api_recvresp_spec; [done..|]. apply yields_ok.
  - destruct E as (->&_&E). apply (received_map as_data _ p (ResponseHeader m off s, None)).
    eapply api_recvresp_spec; [done..|]. unfold finish_data. rewrite E. apply yields_ok.
Qed.

Lemma reply_setting decode data_size :
  0 ≤ data_size → client_sees_failure m = view_data [] →
  (∀ v, res = Ok (answer_setting v) → sizeof v ≤ data_size) → m = DATASERVICE_API_METHOD_APP_GLOBAL_SETTING_READ →
  result_map (λ x, (x.1, view_data x.2)) (decode p) = Ok (client_result m off res) →
  post (eff_map as_data (api_recvresp T decode (finish_setting data_size)))
    (received T p (client_reply m off res) rest w) w.
Proof.
  intros H0 Hfail Hfit Hm ([h d]&Hd&E)%result_map_Ok. cbn [fst snd] in E. apply reply_hdr in E.
  destruct res as [a|s].
  - destruct E as [-> E]. destruct Hgood as [Ha _]. rewrite Hm in Ha.
    cbn [fst snd] in E. unfold client_reply. rewrite <- E.
    assert (sizeof d ≤ data_size) as Hs by (destruct a; simplify_eq/=; by apply Hfit).
    clear Hm Ha. apply (received_map as_data _ p (ResponseHeader m off 0, Some d)).
    eapply api_recvresp_spec; [done..|]. unfold finish_setting.
    rewrite (proj2 (Z.ltb_ge _ _)) by done. apply yields_ok.
  - destruct E as (->&E'&E). rewrite Hfail in E'. simpl in E'. injection E' as ->.
    apply (received_map as_data _ p (ResponseHeader m off s, None)).
    eapply api_recvresp_spec; [done..|]. unfold finish_setting.
    rewrite (proj2 (Z.ltb_ge _ _)) by done. rewrite E. apply yields_ok.
Qed.

Lemma reply_node decode copy optional :
  (∀ a n d, res = Ok a → client_sees a = view_node n d → copy n = n) →
  result_map (λ '(h, n, d), (h, view_node n d)) (decode p) = Ok (client_result m off res) →
  post (eff_map as_node (api_recvresp T decode (finish_node copy optional true)))
    (received T p (client_reply m off res) rest w) w.
Proof.
  intros Hcopy ([[h n] d]&Hd&E)%result_map_Ok. cbn [fst snd] in E. apply reply_hdr in E.
  destruct res as [a|s].
  - destruct E as [-> E]. unfold client_reply. rewrite <- E.
    replace (view_node n d) with (view_node (copy n) d) by (by erewrite Hcopy).
    apply (received_map as_node _ p (ResponseHeader m off 0, Some (Some (copy n), d))).
    eapply api_recvresp_spec; [done..|]. unfold finish_node. simpl.
    apply (yields_map T (λ data, (ResponseHeader m off 0, Some (Some (copy n), data)))), yields_copy.
  - destruct E as (->&_&E). apply (received_map as_node _ p (ResponseHeader m off s, None)).
    eapply api_recvresp_spec; [done..|]. unfold finish_node. rewrite E. apply yields_ok.
Qed.
End one.
End replies.

(** ** Every request *)

Section every.
Context {W : Type} {M : MALLOC W} {VB : VCCRYPT_BUFFER W} {VBL : VCCRYPT_BUFFER_laws W}.
Context {EV : LIBEVENT W} {IO : POSIX_IO W} {PS : PSOCK W}.
Context (T : transport W) {TL : transport_laws T}.

(** The nodes of an answer survive the copy. *)
Lemma answer_txn_copy m a n d :
  m ∈ [DATASERVICE_API_METHOD_APP_PQ_TRANSACTION_READ; DATASERVICE_API_METHOD_APP_PQ_TRANSACTION_FIRST_READ] →
  good_result m (Ok a) → answer_fits a → client_sees a = view_node n d → copy_txn_node n = n.
Proof.
  intros Hm [Ha Hd] Hfit Hv.
  assert (∀ t cert, wf_txn_node t → fits_packet cert →
    copy_txn_node (enc_txn_node (txn_sent t zero_uuid cert)) = enc_txn_node (txn_sent t zero_uuid cert)) as Hc.
  { intros t cert [] Hf. apply copy_txn_node_id; [|done]. unfold fits_packet, sizeof in *.
    split; simpl; unfold sizeof; (done || lia). }
  destruct a; simpl in Ha, Hd, Hfit, Hv; simplify_eq; (try by apply Hc);
    apply (bool_decide_pack _) in Hm; by vm_compute in Hm.
Qed.

Lemma answer_canonized_copy a n d :
  good_result DATASERVICE_API_METHOD_APP_TRANSACTION_READ (Ok a) → answer_fits a →
  client_sees a = view_node n d → copy_canonized_node n = n.
Proof.
  intros [Ha Hd] Hfit Hv.
  destruct a; simpl in Ha, Hd, Hfit, Hv; simplify_eq; apply copy_canonized_node_id; destruct Hd;
    unfold fits_packet, sizeof in *; split; simpl; try destruct read_cert; unfold sizeof; simpl; (done || lia).
Qed.

Lemma answer_block_copy a n d :
  good_result DATASERVICE_API_METHOD_APP_BLOCK_READ (Ok a) → answer_fits a →
  client_sees a = view_node n d → copy_block_node n = n.
Proof.
  intros [Ha Hd] Hfit Hv.
  destruct a; simpl in Ha, Hd, Hfit, Hv; simplify_eq; apply copy_block_node_id; destruct Hd;
    unfold fits_packet, sizeof in *; split; simpl; try destruct read_cert; unfold sizeof; simpl; (done || lia).
Qed.

Lemma decode_response_eq r p :
  decode_response (request_method r) p =
  match r with
  | root_context_create _ =>
      result_map (λ h, (h, view_status)) (dataservice_decode_response_root_context_init p)
  | root_context_reduce_caps _ =>
      result_map (λ h, (h, view_status)) (dataservice_decode_response_root_context_reduce_caps p)
  | child_context_create _ =>
      result_map (λ x, (x.1, view_child x.2)) (dataservice_decode_response_child_context_create p)
  | child_context_close _ =>
      result_map (λ h, (h, view_status)) (dataservice_decode_response_child_context_close p)
  | global_setting_get _ =>
      result_map (λ x, (x.1, view_data x.2)) (dataservice_decode_response_global_settings_get p)
  | global_setting_set _ =>
      result_map (λ h, (h, view_status)) (dataservice_decode_response_global_settings_set p)
  | transaction_submit _ =>
      result_map (λ h, (h, view_status)) (dataservice_decode_response_transaction_submit p)
  | transaction_get_first _ =>
      result_map (λ '(h, n, d), (h, view_node n d)) (dataservice_decode_response_transaction_get_first p)
  | transaction_get _ =>
      result_map (λ '(h, n, d), (h, view_node n d)) (dataservice_decode_response_transaction_get p)
  | transaction_drop _ =>
      result_map (λ h, (h, view_status)) (dataservice_decode_response_transaction_drop p)
  | transaction_promote _ =>
      result_map (λ h, (h, view_status)) (dataservice_decode_response_transaction_promote p)
  | artifact_read _ =>
      result_map (λ x, (x.1, view_data x.2)) (dataservice_decode_response_artifact_get p)
  | block_make _ =>
      result_map (λ h, (h, view_status)) (dataservice_decode_response_block_make p)
  | block_read _ =>
      result_map (λ '(h, n, d), (h, view_node n d)) (dataservice_decode_response_block_get p)
  | block_id_by_height_read _ =>
      result_map (λ x, (x.1, view_data x.2)) (dataservice_decode_response_block_id_by_height_get p)
  | block_id_latest_read _ =>
      result_map (λ x, (x.1, view_data x.2)) (dataservice_decode_response_latest_block_id_get p)
  | canonized_transaction_get _ =>
      result_map (λ '(h, n, d), (h, view_node n d)) (dataservice_decode_response_canonized_transaction_get p)
  end.
Proof. destruct r; reflexivity. Qed.

Lemma recvresp_with_spec n r res p rest w :
  0 ≤ n → (∀ v, res = Ok (answer_setting v) → sizeof v ≤ n) →
  good_result (request_method r) res → result_fits res → good_packet p → decodes_answer r res p →
  tr_in T w = frame (msg_data p) ++ rest →
  post (recvresp_with T n r)
    (received T p (client_reply (request_method r) (request_offset r) res) rest w) w.
Proof.
  intros Hn Hset Hgood Hfit Hp [_ Hdec] Hin. rewrite decode_response_eq in Hdec.
  destruct r; cbn [recvresp_with].
  1,2,4,6,7,10,11,13: by eapply reply_status.
  - by eapply reply_child.
  - by eapply reply_setting.
  - eapply reply_node; [done..| |exact Hdec]. intros a t b ->.
    eapply answer_txn_copy; [|exact Hgood|done]. apply (bool_decide_unpack _); by vm_compute.
  - eapply reply_node; [done..| |exact Hdec]. intros a t b ->.
    eapply answer_txn_copy; [|exact Hgood|done]. apply (bool_decide_unpack _); by vm_compute.
  - by eapply reply_data.
  - eapply reply_node; [done..| |exact Hdec]. intros a t b ->. by apply answer_block_copy.
  - by eapply reply_data.
  - by eapply reply_data.
  - eapply reply_node; [done..| |exact Hdec]. intros a t b ->. by apply answer_canonized_copy.
Qed.
End every.
