(* ===== verification/RpcCall.v ===== *)
(** * A call, from the client and back

    The client API, the read callback of the service and the abstract service in
    one theorem.  The client and the service are two processes with a world each;
    what connects them is that the bytes one sent are the bytes the other has to
    read. *)

From S2P Require Import Prelude Inet StatusCodes Contexts Lmdb Txn Records Vccert Database PqRep ProcessQueue ProcessQueueSpec BlockMake Ledger BlockMakeSpec Queries QueriesSpec RequestCodec RequestSpec ResponseCodec ResponseSpec Ipc IpcSpec Dispatch DispatchInv Service ServiceSpec ServiceRefine RpcSpec ReadLoop ClientApi ClientSpec.

(** ** The functions of the client *)

(** The three families of functions: on a psock, on a buffered socket ([_old]),
    on a blocking descriptor ([_block]). *)
Inductive client_api : Set := api_psock | api_old | api_block.

Section functions.
Context {W : Type} {M : MALLOC W} {VB : VCCRYPT_BUFFER W} {EV : LIBEVENT W} {IO : POSIX_IO W}.
Context {PS : PSOCK W}.

Definition block_functions (data_size : Z) (r : api_request) : option (Eff W unit * Eff W reply) :=
  match r with
  | root_context_create d =>
      Some (dataservice_api_sendreq_root_context_init_block (ri_max_database_size d) (ri_datadir d),
            eff_map as_status dataservice_api_recvresp_root_context_init_block)
  | root_context_reduce_caps d =>
      Some (dataservice_api_sendreq_root_context_reduce_caps_block (caps_bytes (rc_caps d)),
            eff_map as_status dataservice_api_recvresp_root_context_reduce_caps_block)
  | child_context_create d =>
      Some (dataservice_api_sendreq_child_context_create_block (caps_bytes (cr_caps d)),
            eff_map as_child dataservice_api_recvresp_child_context_create_block)
  | child_context_close d =>
      Some (dataservice_api_sendreq_child_context_close_block (cc_child_index d),
            eff_map as_status dataservice_api_recvresp_child_context_close_block)
  | global_setting_get d =>
      Some (dataservice_api_sendreq_global_settings_get_block (gg_child_index d) (gg_key d),
            eff_map as_data (dataservice_api_recvresp_global_settings_get_block data_size))
  | global_setting_set d =>
      Some (dataservice_api_sendreq_global_settings_set_block (gs_child_index d) (gs_key d) (gs_val d),
            eff_map as_status dataservice_api_recvresp_global_settings_set_block)
  | _ => None
  end.

(** The function that sends a request and the one that receives the response. *)
Definition functions_of (api : client_api) (data_size : Z) (r : api_request)
  : option (Eff W unit * Eff W reply) :=
  match api with
  | api_psock => Some (sendreq r, recvresp data_size r)
  | api_old => Some (sendreq_old r, recvresp_old data_size r)
  | api_block => block_functions data_size r
  end.

Definition sender (api : client_api) (r : api_request) : transport W :=
  match api with api_psock => psock_of r | api_old => buffered | api_block => blocking end.
Definition receiver (api : client_api) (r : api_request) : transport W :=
  match api with api_psock => psock_from r | api_old => buffered | api_block => blocking end.

Lemma functions_of_eq api n r fs :
  functions_of api n r = Some fs →
  fs = (api_sendreq (sender api r) (encode_request r), recvresp_with (receiver api r) n r).
Proof. destruct api; [by intros [= <-]; destruct r..|]. by destruct r; intros [= <-]. Qed.

Context {VBL : VCCRYPT_BUFFER_laws W} {EVL : LIBEVENT_laws W} {IOL : POSIX_IO_laws W}.
Context {PSL : PSOCK_laws W}.

(** What the client can still receive and what it has sent. *)
Definition chan_in (api : client_api) : W → bytes :=
  match api with api_psock => ps_in | api_old => instream | api_block => rx end.
Definition chan_out (api : client_api) : W → bytes :=
  match api with api_psock => ps_out | api_old => outstream | api_block => tx end.

(** The library's buffers do not touch the connections. *)
Class quiet_buffers : Prop :=
  law_quiet_buffer : ∀ api n w,
    chan_in api (vccrypt_buffer_init n w).2 = chan_in api w ∧
    chan_out api (vccrypt_buffer_init n w).2 = chan_out api w.
Context {QB : quiet_buffers}.

(** What the library may do to the client: it has no buffer or the write fails; the
    read in [w] fails; or, on a buffered socket, the frame of [p] is not complete
    in the buffer after what the socket had was read. *)
Definition send_fault (api : client_api) : Prop :=
  buffer_fault (W := W) ∨
  match api with
  | api_psock => psock_write_fault (W := W)
  | api_old => ev_faulty (W := W) ∨ ∃ w : W, write_fails w
  | api_block => io_faulty (W := W)
  end.
Definition recv_fault (api : client_api) (w : W) : Prop :=
  match api with
  | api_psock => psock_read_fault w
  | api_old => read_fails w ∨ ev_faulty (W := W)
  | api_block => io_faulty (W := W)
  end.
Definition recv_waits (api : client_api) (p : bytes) (w w' : W) : Prop :=
  match api with
  | api_old => ev_faulty (W := W) ∨
      ((∀ rest, v_rbuf (sock w') ≠ frame (msg_data p) ++ rest) ∧ sock w' = sock (evbuffer_read w).2)
  | _ => False
  end.

(** The frame of the request is on the connection, or the library failed. *)
Definition request_sent (api : client_api) (r : api_request) (w : W) (res : result unit) (w' : W) : Prop :=
  match res with
  | Ok _ => chan_in api w' = chan_in api w ∧
            chan_out api w' = chan_out api w ++ frame (msg_data (request_packet r))
  | Err _ => send_fault api
  end.

Lemma send_spec api n r send recv w :
  functions_of api n r = Some (send, recv) → wf_request r → good_packet (request_packet r) →
  post send (request_sent api r w) w.
Proof.
  intros [= -> _]%functions_of_eq Hwf Hgood. destruct api; cbn [sender].
  - assert (∀ n, keeps psock (vccrypt_buffer_init n)) as HB by exact (law_quiet_buffer api_psock).
    assert (∀ n, keeps psock_pass (vccrypt_buffer_init n)) as HB' by exact (law_quiet_buffer api_psock).
    destruct r; first [by apply (api_sendreq_spec psock HB)|by apply (api_sendreq_spec psock_pass HB')].
  - assert (∀ n, keeps buffered (vccrypt_buffer_init n)) as HB by exact (law_quiet_buffer api_old).
    exact (api_sendreq_spec buffered HB r w Hwf Hgood).
  - assert (∀ n, keeps blocking (vccrypt_buffer_init n)) as HB by exact (law_quiet_buffer api_block).
    exact (api_sendreq_spec blocking HB r w Hwf Hgood).
Qed.

(** A received reply, or why there is none: the call would block and nothing was
    taken; the read failed; or the reply was taken but there was no memory for it,
    or its packet could not be given back.  [p] is the packet in front. *)
Definition delivered (api : client_api) (r : api_request) (p : bytes) (x : reply) (rest : bytes) (w : W)
    (res : result reply) (w' : W) : Prop :=
  match res with
  | Ok y => y = x ∧ chan_in api w' = rest ∧ chan_out api w' = chan_out api w
  | Err s =>
      (s = AGENTD_ERROR_IPC_WOULD_BLOCK ∧ recv_waits api p w w' ∧
       chan_in api w' = chan_in api w ∧ chan_out api w' = chan_out api w) ∨
      (s = AGENTD_ERROR_DATASERVICE_IPC_READ_DATA_FAILURE ∧ recv_fault api w) ∨
      ((s = AGENTD_ERROR_GENERAL_OUT_OF_MEMORY ∧ no_memory (W := W)) ∨
       ∃ w1, s = (tr_release (receiver api r) w1).1 ∧ s ≠ 0) ∧ chan_in api w' = rest
  end.

Lemma recv_spec api n r send recv res p rest w :
  functions_of api n r = Some (send, recv) →
  0 ≤ n → (∀ v, res = Ok (answer_setting v) → sizeof v ≤ n) →
  good_result (request_method r) res → result_fits res → good_packet p → decodes_answer r res p →
  chan_in api w = frame (msg_data p) ++ rest →
  post recv (delivered api r p (client_reply (request_method r) (request_offset r) res) rest w) w.
Proof.
  intros [= _ ->]%functions_of_eq Hn Hset Hgood Hfit Hp Hdec Hin. destruct api; cbn [receiver chan_in] in *.
  - pose proof (recvresp_with_spec psock n r res p rest w Hn Hset Hgood Hfit Hp Hdec Hin) as H.
    pose proof (recvresp_with_spec psock_lax n r res p rest w Hn Hset Hgood Hfit Hp Hdec Hin) as H'.
    destruct r; first [exact H|exact H'].
  - exact (recvresp_with_spec buffered n r res p rest w Hn Hset Hgood Hfit Hp Hdec Hin).
  - exact (recvresp_with_spec blocking n r res p rest w Hn Hset Hgood Hfit Hp Hdec Hin).
Qed.
End functions.

(** ** The call *)

Section call.
(** The world of the client. *)
Context {C : Type} {CM : MALLOC C} {CVB : VCCRYPT_BUFFER C} {CEV : LIBEVENT C} {CIO : POSIX_IO C}.
Context {CPS : PSOCK C} {CVBL : VCCRYPT_BUFFER_laws C} {CEVL : LIBEVENT_laws C}.
Context {CIOL : POSIX_IO_laws C} {CPSL : PSOCK_laws C} {QB : quiet_buffers (W := C)}.
(** The world of the service. *)
Context {W : Type} {L : LMDB W} {LL : LMDB_laws W} {VC : VCCERT W} {VCL : VCCERT_laws W}.
Context {VB : VCCRYPT_BUFFER W} {EV : LIBEVENT W} {EVL : LIBEVENT_laws W} {ME : MDB_ENV W}.
Context {SL : SERVICE_laws W} (ATTESTATION : bool).
Context (R : LMDB_reliable W) (RV : VCCERT_reliable W) (RE : EV_reliable W).

(** The packets of the request and of its result can be framed, and the caller's
    buffer has room for a setting. *)
Definition call_fits (r : api_request) (n : Z) (res : result answer) : Prop :=
  sizeof (request_packet r) < 2 ^ 30 ∧ Z.of_nat (response_length res) < 2 ^ 30 ∧ result_fits res ∧
  0 ≤ n ∧ ∀ v, res = Ok (answer_setting v) → sizeof v ≤ n.

(** The read callback did nothing yet: the frame is not complete in the buffer, even
    after what the socket had was read, or the read from the socket failed and the
    service leaves its loop. *)
Definition unserved (sv : service) (r : api_request) (w : W) (inst : dataservice_instance) (w' : W) : Prop :=
  service_rep w' sv ∧ instream w' = instream w ∧ outstream w' = outstream w ∧
  ((dataservice_force_exit inst = true ∧ read_down ATTESTATION sv [] w') ∨ incomplete [] r w w').

(** The service has answered with the packet [p]. *)
Definition served_with (sv : service) (r : api_request) (p : bytes) (w w' : W) : Prop :=
  service_rep w' (serve ATTESTATION sv r).2 ∧ instream w' = [] ∧
  outstream w' = outstream w ++ frame (msg_data p).

Lemma loop_outcome_one sv r w inst w' :
  instream w = frame (msg_data (request_packet r)) →
  loop_outcome ATTESTATION sv [r] w inst w' →
  unserved sv r w inst w' ∨
  ∃ p, served_with sv r p w w' ∧ decodes_answer r (serve ATTESTATION sv r).1 p.
Proof.
  intros Hin (done&left&b&Hd&[Hi Hr (ps&Ho&Hps)]&Hin'&Hstop&_).
  destruct done as [|r' done]; [left|right].
  - simpl in Hd, Hr, Hps. subst left. inversion Hps; subst ps. split_and!; [done| | |].
    + rewrite Hin'. rewrite Hin. apply app_nil_r.
    + rewrite Ho. apply app_nil_r.
    + destruct Hstop as [[-> Hdown]|Hstop]; [left; by rewrite Hi|by right].
  - injection Hd as <- Hd. symmetry in Hd. apply app_nil in Hd as [-> ->].
    cbn [serve_all] in *. destruct (serve ATTESTATION sv r) as [res sv1] eqn:Es. cbn [fst snd] in *.
    inversion Hps as [|? ? p ? ? ps' Hp Hps']; subst. inversion Hps'; subst. exists p. split; [|done].
    split_and!; [by rewrite Es|done|].
    rewrite Ho. by rewrite packets_cons_nil, app_nil_r.
Qed.

(** C1: A remote call is a call of the abstract service. The service runs on reliable
    libraries (the database, the certificate library, and the buffers and allocator of
    libevent do what is asked of them; its socket may fail), nothing of the client's
    platform is reliable. The request is well formed and one the abstract service
    defines ([serviceable]: not the initialisation of the root context; a transaction
    that is submitted or read from the queue has no sentinel's identifier, a block
    that is read neither a sentinel's nor the root block's; certificates that are
    submitted or made a block are below 2^30 bytes, and the height of the chain stays
    below 2^64), its packet and the response are below 2^30 bytes, and the caller's
    buffer has room for a setting. Then, whichever family of client functions is used:
    sending the request puts the frame of its packet on the connection, or the
    client's library failed; when the service, not leaving its event loop, finds that
    frame on its socket, its read callback serves the request as the abstract service
    does and answers with one packet, unless the frame is not complete in the buffer
    after what the socket had was read, or that read failed; and the receiving
    function, when that packet is next on the client's connection, gives the caller
    the answer of the abstract service: its status and offset and, for a success, the
    value, identifier, record or node with certificate. It does not only when the
    client's library failed to read, to allocate or to take the packet back, or when,
    on a buffered socket, the frame has not completely come. *)
Theorem rpc_call api send recv n sv r :
  functions_of api n r = Some (send, recv) → wf_request r → serviceable sv r →
  call_fits r n (serve ATTESTATION sv r).1 → dataservice_force_exit (sv_inst sv) = false →
  (∀ c : C, post send (request_sent api r c) c) ∧
  ∀ w fuel, service_rep w sv → instream w = frame (msg_data (request_packet r)) → (1 < fuel)%nat →
    post (dataservice_ipc_read ATTESTATION fuel (sv_inst sv)) (λ '(inst, _) w',
      unserved sv r w inst w' ∨
      ∃ p, served_with sv r p w w' ∧
        ∀ (c : C) rest, chan_in api c = frame (msg_data p) ++ rest →
          post recv (delivered api r p
            (client_reply (request_method r) (request_offset r) (serve ATTESTATION sv r).1) rest c) c) w.
Proof.
  intros Hf Hwf Hser (Hreq&Hresp&Hfit&Hn&Hset) Hex.
  assert (good_packet (request_packet r)) as Hgood.
  { split; [|done]. unfold request_packet, sizeof. rewrite length_app, length_be_enc. lia. }
  split; [intros c; by eapply send_spec|].
  intros w fuel Hrep Hin Hfuel. unfold dataservice_ipc_read. rewrite Hex. apply post_act.
  eapply post_mono; [apply (read_loop_spec ATTESTATION R RV RE fuel sv [r])|]; try done.
  { by constructor. } { rewrite Hin. symmetry. apply app_nil_r. }
  intros inst w1 Hloop.
  apply post_act, post_run. unfold ipc_socket_writebuffer_size.
  pose proof (λ sv', service_rep_silent _ w1 sv' db_silent_write_length) as Hkeep.
  destruct (evbuffer_get_write_length w1) as [len w2] eqn:El. cbn [fst snd] in *.
  apply law_get_write_length in El as [Hs _].
  apply (loop_outcome_same ATTESTATION _ _ _ _ _ w2) in Hloop; [|done..].
  apply loop_outcome_one in Hloop; [|done].
  apply post_ret. destruct Hloop as [Hloop|(p&Hserved&Hp)]; [by left|right].
  - exists p. split; [done|].
    intros c rest Hc. destruct Hrep as (V&HV&Hsv).
    eapply recv_spec; [done..|by eapply serve_good|done| |done|done].
    destruct Hp as [Hlen _]. unfold good_packet. cbn [wf_message]. unfold sizeof. rewrite Hlen.
    split; [|done]. unfold response_length. lia.
Qed.
End call.
