(* ===== verification/ServiceExamples.v ===== *)
(** * The service on a concrete platform

    The database platform of [Sim] and the socket of [CodecExamples] side by side,
    with an environment that can be created and opened: all the interfaces of the
    data service at once.  The laws that the theorems about the service assume hold
    on it, and the theorems are applied to an evaluated session. *)

From S2P Require Import Prelude Inet StatusCodes Contexts Lmdb Txn Records Vccert Sim Database PqRep ProcessQueue ProcessQueueSpec BlockMake Ledger BlockMakeSpec Queries QueriesSpec RequestCodec RequestSpec ResponseCodec ResponseSpec Ipc IpcSpec CodecExamples Dispatch DispatchInv Service ServiceSpec ServiceRefine RpcSpec ReadLoop ClientApi ClientSpec RpcCall.

Record svc_world := SvcWorld { sw_db : sim_world; sw_env : environment; sw_sock : sock_view }.

Definition on_db {A} (m : Act sim_world A) : Act svc_world A := λ w,
  let '(a, db) := m (sw_db w) in (a, SvcWorld db (sw_env w) (sw_sock w)).
Definition on_sock {A} (m : Act io_world A) : Act svc_world A := λ w,
  let '(a, io) := m (IoWorld [] [] (sw_sock w)) in (a, SvcWorld (sw_db w) (sw_env w) (io_sock io)).

#[local] Existing Instance sim_ok.
#[local] Existing Instance sim_ok_laws.
#[local] Existing Instance io_malloc.
#[local] Existing Instance io_libevent.
#[local] Existing Instance io_libevent_laws.

#[local] Instance svc_lmdb : LMDB svc_world := {|
  MDB_txn := nat;
  mdb_txn_begin p fl := on_db (mdb_txn_begin (W := sim_world) p fl);
  mdb_txn_commit t := on_db (mdb_txn_commit (W := sim_world) t);
  mdb_txn_abort t := on_db (mdb_txn_abort (W := sim_world) t);
  mdb_get t d k := on_db (mdb_get (W := sim_world) t d k);
  mdb_put t d k v fl := on_db (mdb_put (W := sim_world) t d k v fl);
  mdb_del t d k := on_db (mdb_del (W := sim_world) t d k);
  mdb_malloc := {| malloc n := on_db (malloc n) |} |}.

Lemma on_db_inv {A} (m : Act sim_world A) w a w' :
  on_db m w = (a, w') → ∃ db, m (sw_db w) = (a, db) ∧ w' = SvcWorld db (sw_env w) (sw_sock w).
Proof. unfold on_db. destruct (m (sw_db w)) as [x db]. intros [= <- <-]. eauto. Qed.

Lemma on_sock_inv {A} (m : Act io_world A) w a w' :
  on_sock m w = (a, w') →
  ∃ io, m (IoWorld [] [] (sw_sock w)) = (a, io) ∧ w' = SvcWorld (sw_db w) (sw_env w) (io_sock io).
Proof. unfold on_sock. destruct (m _) as [x io]. intros [= <- <-]. eauto. Qed.

#[local, refine] Instance svc_lmdb_laws : LMDB_laws svc_world := {|
  mdb_view w := mdb_view (W := sim_world) (sw_db w);
  mdb_usable w := mdb_usable (W := sim_world) (sw_db w);
  mdb_parent w := mdb_parent (W := sim_world) (sw_db w);
  mdb_writable w := mdb_writable (W := sim_world) (sw_db w) |}.
Proof.
  - intros p fl w rc t w' (db&E&->)%on_db_inv. exact (law_begin (W := sim_world) _ _ _ _ _ _ E).
  - intros t d k w rc v w' (db&E&->)%on_db_inv. exact (law_get (W := sim_world) _ _ _ _ _ _ _ E).
  - intros t d k v fl w rc w' (db&E&->)%on_db_inv. exact (law_put (W := sim_world) _ _ _ _ _ _ _ _ E).
  - intros t d k w rc w' (db&E&->)%on_db_inv. exact (law_del (W := sim_world) _ _ _ _ _ _ E).
  - intros t w rc w' p (db&E&->)%on_db_inv. exact (law_commit (W := sim_world) _ _ _ _ _ E).
  - intros t w w' p (db&E&->)%on_db_inv. exact (law_abort (W := sim_world) _ _ _ _ E).
  - intros n w b w' (db&E&->)%on_db_inv. exact (law_malloc (W := sim_world) _ _ _ _ E).
Defined.

Lemma svc_reliable : LMDB_reliable svc_world.
Proof.
  destruct sim_ok_reliable as [Hb Hg Hp Hd Hc Hm]. constructor; cbn; intros; unfold on_db.
  - specialize (Hb p fl (sw_db w) H). cbn in Hb. by destruct (sim_begin _ _ _ _) as [[] ?].
  - specialize (Hg t d k (sw_db w) H). cbn in Hg. by destruct (sim_get _ _ _ _ _) as [[] ?].
  - specialize (Hp t d k v fl (sw_db w) H H0 H1). cbn in Hp. by destruct (sim_put _ _ _ _ _ _ _).
  - specialize (Hd t d k (sw_db w) H H0). cbn in Hd. by destruct (sim_del _ _ _ _ _).
  - specialize (Hc t (sw_db w) H). cbn in Hc. by destruct (sim_commit _ _ _).
  - done.
Qed.

#[local] Existing Instance sim_vccert.
#[local] Existing Instance sim_vccert_laws.

#[local] Instance svc_vccert : VCCERT svc_world := {|
  vccrypt_suite_options_init := ret true;
  vccert_parser_options_simple_init := ret true;
  vccert_parser := sim_parser;
  vccert_parser_init := λ _, ret true;
  vccert_parser_of := vccert_parser_of (W := sim_world);
  vccert_parser_find_short := vccert_parser_find_short (W := sim_world);
  vccert_parser_find_next := vccert_parser_find_next (W := sim_world);
  vccert_certificate_type_uuid_root_block :=
    vccert_certificate_type_uuid_root_block (W := sim_world) |}.

#[local, refine] Instance svc_vccert_laws : VCCERT_laws svc_world := {|
  vccert_parser_remaining := λ p, (length (sim_cert_fields (sp_cert p)) - sp_pos p)%nat;
  vccert_parser_cert := sp_cert |}.
Proof.
  - by intros w a w' [= <- <-].
  - by intros w a w' [= <- <-].
  - by intros b w a w' [= <- <-].
  - exact (law_parser_of (W := sim_world)).
  - exact (law_find_short_any (W := sim_world)).
  - exact (law_find_short (W := sim_world)).
  - exact (law_find_next (W := sim_world)).
  - exact (law_remaining (W := sim_world)).
  - exact (law_root_block (W := sim_world)).
Defined.

Lemma svc_vccert_reliable : VCCERT_reliable svc_world.
Proof. by split. Qed.

#[local] Instance svc_vccrypt : VCCRYPT_BUFFER svc_world := {|
  vccrypt_buffer_init := λ n w, ((0, replicate n Byte.x00), w);
  allocate := λ n w, (true, w);
|}.

#[local] Instance svc_libevent : LIBEVENT svc_world := {|
  evbuffer_read := on_sock evbuffer_read;
  evbuffer_pullup n := on_sock (evbuffer_pullup n);
  evbuffer_get_length := on_sock evbuffer_get_length;
  evbuffer_drain n := on_sock (evbuffer_drain n);
  evbuffer_remove n := on_sock (evbuffer_remove n);
  evbuffer_add b := on_sock (evbuffer_add b);
  evbuffer_write := on_sock evbuffer_write;
  evbuffer_get_write_length := on_sock evbuffer_get_write_length;
|}.

#[local, refine] Instance svc_libevent_laws : LIBEVENT_laws svc_world := {| sock := sw_sock |}.
Proof.
  - intros w k b w' (io&E&->)%on_sock_inv. exact (law_ev_read (W := io_world) _ _ _ _ E).
  - intros n w m w' (io&E&->)%on_sock_inv. exact (law_pullup (W := io_world) _ _ _ _ E).
  - intros w k w' (io&E&->)%on_sock_inv. exact (law_get_length (W := io_world) _ _ _ E).
  - intros w k w' (io&E&->)%on_sock_inv. exact (law_get_write_length (W := io_world) _ _ _ E).
  - intros n w k w' (io&E&->)%on_sock_inv. exact (law_drain (W := io_world) _ _ _ _ E).
  - intros n w k b w' (io&E&->)%on_sock_inv. exact (law_remove (W := io_world) _ _ _ _ _ E).
  - intros b w k w' (io&E&->)%on_sock_inv. exact (law_add (W := io_world) _ _ _ _ E).
  - intros w k w' (io&E&->)%on_sock_inv. exact (law_ev_write (W := io_world) _ _ _ E).
  - by intros n w b w' [= _ <-].
Defined.

Lemma svc_ev_reliable : EV_reliable svc_world.
Proof.
  destruct ev_reliable as [Hp Hd Hr Ha Hm]. constructor; cbn [sock svc_libevent_laws]; intros.
  - specialize (Hp n (IoWorld [] [] (sw_sock w)) H). cbn in *. unfold on_sock. done.
  - specialize (Hd n (IoWorld [] [] (sw_sock w))). cbn in *. unfold on_sock. by destruct (sw_sock w).
  - specialize (Hr n (IoWorld [] [] (sw_sock w))). cbn in *. unfold on_sock. by destruct (sw_sock w).
  - specialize (Ha b (IoWorld [] [] (sw_sock w))). cbn in *. unfold on_sock. by destruct (sw_sock w).
  - done.
Qed.

Lemma silent_on_db {A} (m : Act sim_world A) : silent (on_db m).
Proof. intros w. unfold on_db. by destruct (m _). Qed.

Lemma db_silent_on_sock {A} (m : Act io_world A) : db_silent (on_sock m).
Proof. intros w a w' (io&E&->)%on_sock_inv. by split_and!. Qed.

#[local] Instance svc_service_laws : SERVICE_laws svc_world.
Proof. split; intros; (apply silent_on_db || apply db_silent_on_sock || done). Defined.

(** ** The environment *)

Definition change_env (f : environment → environment) (w : svc_world) : svc_world :=
  SvcWorld (sw_db w) (f (sw_env w)) (sw_sock w).
Definition set_phase (p : env_phase) (e : environment) : environment :=
  Environment p (ev_mapsize e) (ev_maxdbs e) (ev_dbis e).

(** A new environment allows no named databases; opening more than are allowed fails. *)
#[local] Instance svc_env : MDB_ENV svc_world := {|
  mdb_env_create := λ w, (0, change_env (λ _, Environment env_created 10485760 0 []) w);
  mdb_env_set_mapsize n := λ w,
    (0, change_env (λ e, Environment (ev_phase e) n (ev_maxdbs e) (ev_dbis e)) w);
  mdb_env_set_maxdbs n := λ w,
    (0, change_env (λ e, Environment (ev_phase e) (ev_mapsize e) n (ev_dbis e)) w);
  mdb_env_open d := λ w,
    (0, SvcWorld {| sim_base := sim_base (sw_db w); sim_stack := [] |} (set_phase env_opened (sw_env w)) (sw_sock w));
  mdb_env_sync := ret 0;
  mdb_env_close := λ w, (tt, change_env (set_phase env_none) w);
  mdb_dbi_open t d := λ w,
    if Z.of_nat (length (ev_dbis (sw_env w))) <? ev_maxdbs (sw_env w)
    then (0, change_env (add_dbi d) w) else (-30791, w);
  mdb_dbi_close d := ret tt;
|}.

#[local, refine] Instance svc_env_laws : MDB_ENV_laws svc_world := {| env := sw_env |}.
Proof.
  - by intros w rc w' [= <- <-] _.
  - by intros n w rc w' [= <- <-].
  - by intros n w rc w' [= <- <-].
  - intros d w rc w' [= <- <-] _. split; [done|]. eexists. by split_and!.
  - by intros w w' [= <-].
  - intros t d w rc w' wr p P V. simpl. destruct (_ <? _); by intros [= <- <-].
  - by intros p fl w r w' (db&_&->)%on_db_inv.
  - by intros t w rc w' (db&_&->)%on_db_inv.
  - by intros n w b w' (db&_&->)%on_db_inv.
Defined.

Lemma svc_env_reliable : MDB_ENV_reliable svc_world.
Proof.
  split; try done. intros t d w p P V _ H. simpl in *. by rewrite (proj2 (Z.ltb_lt _ _)).
Qed.

Definition ex_svc : svc_world := SvcWorld sim_empty no_environment (SockView [] [] [] []).
Definition ex_datadir : bytes := [Byte.x64; Byte.x62].


(** The library has no faults, so it is opened. *)
Example ex_database_opened :
  ¬ env_faulty (W := svc_world) ∧
  let '(r, d, w) := dataservice_database_open 4096 ex_datadir ex_svc in
  r = Ok tt ∧ env w = Environment env_opened 4096 6 [global_db; block_db; txn_db; pq_db; artifact_db; height_db].
Proof.
  split; [intros H; apply H; [exact svc_reliable|exact svc_env_reliable]|by vm_compute].
Qed.

Lemma root_context_init_once_witness :
  let ctx := inst_ctx dataservice_instance_create in
  post (dataservice_root_context_init ctx 4096 ex_datadir) (λ '(r, ctx') w',
    if BITCAP_ISSET (apicaps ctx) DATASERVICE_API_CAP_LL_ROOT_CONTEXT_CREATE then
      (∀ bit, (bit < DATASERVICE_API_CAP_BITS_MAX)%nat →
         BITCAP_ISSET (apicaps ctx') bit
         = bool_decide (bit ≠ DATASERVICE_API_CAP_LL_ROOT_CONTEXT_CREATE)) ∧
      (∀ n' d' w2, dataservice_root_context_init ctx' n' d' w2
         = (Err AGENTD_ERROR_DATASERVICE_NOT_AUTHORIZED, ctx', w2)) ∧
      (is_ok r = true → details ctx' = details_open ∧ ∃ P, env_state w' None P)
    else r = Err AGENTD_ERROR_DATASERVICE_NOT_AUTHORIZED ∧ ctx' = ctx ∧ w' = ex_svc) ex_svc.
Proof. by apply (root_context_init_once (W := svc_world)). Defined.

(** ** A session

    A service whose root context was initialised with an empty database; a client
    takes a child context with all capabilities, submits two transactions, drops
    the first and asks for the first in the queue. *)

Definition ex_instance : dataservice_instance :=
  set_root dataservice_instance_create
    (RootContext true
       (BITCAP_SET_FALSE (BITCAP_INIT_TRUE cap_words) DATASERVICE_API_CAP_LL_ROOT_CONTEXT_CREATE)
       details_open).
Definition ex_service : service := Service ex_instance (Ledger [] ∅ ∅ []) ∅.

Lemma ex_service_rep : service_rep ex_svc ex_service.
Proof.
  exists (λ _, ∅). split; [by split_and!|]. split; simpl; [|done|done|].
  - split; simpl; [|done|apply map_Forall_empty|done|apply map_Forall_empty|by left].
    split_and!; [|intros k v; rewrite lookup_empty; split; [done|]; intros (i&b&Hi&_); by rewrite lookup_nil in Hi|by left].
    split_and!; [done| |done]. apply wf_queue_nil.
  - eexists. exact (proj1 instance_create_spec).
Qed.

Definition ex_caps : bitcap := BITCAP_INIT_TRUE cap_words.
Lemma wf_ex_caps : wf_caps ex_caps.
Proof. split; [done|]. apply Forall_replicate. by vm_compute. Qed.

Definition ex_create : api_request :=
  child_context_create {| cr_caps := ex_caps |}.
Definition ex_session : list api_request :=
  [ex_create;
   transaction_submit {| ts_child_index := 1023; ts_txn_id := ex_uuid Byte.x01;
                         ts_artifact_id := ex_uuid Byte.x09; ts_cert := ex_packet |};
   transaction_submit {| ts_child_index := 1023; ts_txn_id := ex_uuid Byte.x02;
                         ts_artifact_id := ex_uuid Byte.x09; ts_cert := [Byte.xaa] |};
   transaction_drop {| td_child_index := 1023; td_txn_id := ex_uuid Byte.x01 |};
   transaction_get_first {| tf_child_index := 1023 |}].

Example ex_session_answers :
  (serve_all (W := svc_world) true ex_service ex_session).1
  = [Ok (answer_child 1023);
     Ok (answer_nothing DATASERVICE_API_METHOD_APP_PQ_TRANSACTION_SUBMIT);
     Ok (answer_nothing DATASERVICE_API_METHOD_APP_PQ_TRANSACTION_SUBMIT);
     Ok (answer_nothing DATASERVICE_API_METHOD_APP_PQ_TRANSACTION_DROP);
     Ok (answer_first_txn (entry_node zero_uuid ff_uuid
           (new_entry true (ex_uuid Byte.x02) (ex_uuid Byte.x09) [Byte.xaa])) [Byte.xaa])].
Proof. by vm_compute. Qed.

Lemma rpc_refines_witness :
  post (dataservice_decode_and_dispatch true (sv_inst ex_service) (request_packet ex_create))
    (rpc_outcome true ex_service ex_create ex_svc) ex_svc.
Proof.
  apply (rpc_refines (W := svc_world) true svc_reliable svc_vccert_reliable svc_ev_reliable).
  - exact ex_service_rep.
  - exact wf_ex_caps.
  - done.
Defined.

Lemma ex_session_serviceable : serviceable_all (W := svc_world) true ex_service ex_session.
Proof.
  unfold ex_session.
  apply serviceable_cons; [exact wf_ex_caps|exact I|by vm_compute|].
  apply serviceable_cons; [cbn [wf_request]; by split_and!|cbn [serviceable]; by split_and!|by vm_compute|].
  apply serviceable_cons; [cbn [wf_request]; by split_and!|cbn [serviceable]; by split_and!|by vm_compute|].
  apply serviceable_cons; [cbn [wf_request]; by split_and!|exact I|by vm_compute|].
  apply serviceable_cons; [by cbn [wf_request]|exact I|by vm_compute|exact I].
Qed.

Lemma rpc_session_witness :
  post (dispatch_all true (sv_inst ex_service) (request_packet <$> ex_session))
    (λ '(_, inst) w',
       inst = sv_inst (serve_all (W := svc_world) true ex_service ex_session).2 ∧
       service_rep w' (serve_all (W := svc_world) true ex_service ex_session).2 ∧
       instream w' = instream ex_svc ∧
       ∃ ps, outstream w' = outstream ex_svc ++ packets ps ∧
             Forall3 decodes_answer ex_session
               (serve_all (W := svc_world) true ex_service ex_session).1 ps) ex_svc.
Proof.
  apply (rpc_session (W := svc_world) true svc_reliable svc_vccert_reliable svc_ev_reliable).
  - exact ex_service_rep.
  - exact ex_session_serviceable.
Defined.

(** ** The read callback *)

#[local] Instance svc_quiet_laws : QUIET_laws svc_world.
Proof. split; try done. intros t d w. simpl. by destruct (_ <? _). Defined.

Definition ex_incoming (input : bytes) : svc_world := SvcWorld sim_empty no_environment (SockView [] input [] []).

Lemma read_callback_serves_witness :
  let w := ex_incoming (packets (request_packet <$> ex_session)) in
  post (dataservice_ipc_read true 6 (sv_inst ex_service)) (λ '(inst, writecb) w',
    loop_outcome true ex_service ex_session w inst w' ∧
    writecb = bool_decide (v_wbuf (sock w') ≠ [])) w.
Proof.
  apply (read_callback_serves (W := svc_world) true svc_reliable svc_vccert_reliable svc_ev_reliable).
  - destruct ex_service_rep as (V&HV&Hsv). exists V. by split.
  - exact ex_session_serviceable.
  - repeat constructor; by vm_compute.
  - done.
  - simpl. lia.
  - done.
Defined.

Lemma ipc_read_loop_terminates_witness :
  let w := ex_incoming [Byte.x00; Byte.x01] in
  ipc_read_loop true 100 ex_instance w = ipc_read_loop true 3 ex_instance w.
Proof.
  assert (length (instream (ex_incoming [Byte.x00; Byte.x01])) < 100)%nat as H
    by (apply Nat.ltb_lt; by vm_compute).
  exact (ipc_read_loop_terminates (W := svc_world) true 100 ex_instance _ H).
Defined.

(** ** A client *)

#[local] Existing Instance io_vccrypt.
#[local] Existing Instance io_vccrypt_laws.
#[local] Existing Instance io_posix.
#[local] Existing Instance io_posix_laws.

#[local] Instance io_psock : PSOCK io_world := {|
  psock_write_boxed_data := λ b w, (0, IoWorld (io_rx w) (io_tx w ++ frame (msg_data b)) (io_sock w));
  psock_read_boxed_data := λ w,
    let size := Z.to_nat (ntohl (le_dec (sub 4 4 (io_rx w)))) in
    ((0, take size (drop 8 (io_rx w))), IoWorld (drop (8 + size) (io_rx w)) (io_tx w) (io_sock w));
  rcpr_allocator_reclaim := ret 0;
|}.

#[local, refine] Instance io_psock_laws : PSOCK_laws io_world := {| ps_in := io_rx; ps_out := io_tx |}.
Proof.
  - by intros d w rc w' _ [= <- <-].
  - intros d rest w rc d' w' Hd Hin E _. unfold psock_read_boxed_data, io_psock in E. rewrite Hin in E.
    destruct (header_of_frame d rest Hd) as [_ Hs]. rewrite Hs in E. simplify_eq/=.
    unfold sizeof. rewrite Nat2Z.id. split_and!; [| |done].
    + change (take (length d) (d ++ rest) = d). by rewrite take_app_length.
    + change (drop (length d) (d ++ rest) = rest). by rewrite drop_app_length.
  - by intros w rc w' [= _ <-].
  - by intros n w b w' [= _ <-].
Defined.

#[local] Instance io_quiet : quiet_buffers (W := io_world).
Proof. by intros []. Defined.

Lemma rpc_call_witness :
  let fs := (sendreq (W := io_world) ex_create, recvresp (W := io_world) 16384 ex_create) in
  (∀ c : io_world, post fs.1 (request_sent api_psock ex_create c) c) ∧
  ∀ w fuel, service_rep (W := svc_world) w ex_service →
    instream w = frame (msg_data (request_packet ex_create)) → (1 < fuel)%nat →
    post (dataservice_ipc_read true fuel (sv_inst ex_service)) (λ '(inst, _) w',
      unserved true ex_service ex_create w inst w' ∨
      ∃ p, served_with true ex_service ex_create p w w' ∧
        ∀ (c : io_world) rest, chan_in api_psock c = frame (msg_data p) ++ rest →
          post fs.2 (delivered api_psock ex_create p
            (client_reply (request_method ex_create) (request_offset ex_create)
               (serve (W := svc_world) true ex_service ex_create).1) rest c) c) w.
Proof.
  apply (rpc_call (C := io_world) (W := svc_world) true svc_reliable svc_vccert_reliable svc_ev_reliable
           api_psock _ _ 16384).
  - reflexivity.
  - exact wf_ex_caps.
  - exact I.
  - split_and!; [by vm_compute|by vm_compute|by vm_compute|done|].
    intros v Hv. assert (match (serve (W := svc_world) true ex_service ex_create).1 with
      | Ok (answer_setting _) => false | _ => true end = true) as E by by vm_compute.
    rewrite Hv in E. discriminate.
  - reflexivity.
Defined.
