(* ===== verification/NotificationCodec.v ===== *)
(** * The notification service: packets and client functions

    [notificationservice_api_*.c]: a request is a method, a 64-bit offset that
    identifies it, and a payload; a response has a status between the offset and
    the payload.  A null payload is [None]. *)

From S2P Require Import Prelude Inet StatusCodes Contexts Lmdb RequestCodec Ipc ClientApi.

(** ** Methods and capabilities *)

Definition AGENTD_NOTIFICATIONSERVICE_API_METHOD_ID_REDUCE_CAPS : Z := 0x00.
Definition AGENTD_NOTIFICATIONSERVICE_API_METHOD_ID_BLOCK_UPDATE : Z := 0x01.
Definition AGENTD_NOTIFICATIONSERVICE_API_METHOD_ID_BLOCK_ASSERTION : Z := 0x02.
Definition AGENTD_NOTIFICATIONSERVICE_API_METHOD_ID_BLOCK_ASSERTION_CANCEL : Z := 0x03.

Definition NOTIFICATIONSERVICE_API_CAP_REDUCE_CAPS : nat := 0.
Definition NOTIFICATIONSERVICE_API_CAP_BLOCK_UPDATE : nat := 1.
Definition NOTIFICATIONSERVICE_API_CAP_BLOCK_ASSERTION : nat := 2.
Definition NOTIFICATIONSERVICE_API_CAP_BLOCK_ASSERTION_CANCEL : nat := 3.
Definition NOTIFICATIONSERVICE_API_CAP_BITS_MAX : nat := 4.

(** ** Decoding *)

Record notification_request := NotificationRequest {
  nq_method_id : Z; nq_offset : Z; nq_payload : option bytes }.
Record notification_response := NotificationResponse {
  np_method_id : Z; np_status_code : Z; np_offset : Z; np_payload : option bytes }.

Definition rest_payload (buf : bytes) : option bytes :=
  if (0 <? length buf)%nat then Some buf else None.

Definition notificationservice_api_decode_request (buf : bytes) : result notification_request :=
  let computed_header_size := (4 + 8)%nat in
  if (length buf <? computed_header_size)%nat
  then Err AGENTD_ERROR_NOTIFICATIONSERVICE_API_BAD_ARGUMENT else
  let method_id := ntohl (le_dec (sub 0 4 buf)) in
  let buf := drop 4 buf in
  let offset := ntohll (le_dec (sub 0 8 buf)) in
  let buf := drop 8 buf in
  Ok (NotificationRequest method_id offset (rest_payload buf)).

Definition notificationservice_api_decode_response (buf : bytes) : result notification_response :=
  let computed_header_size := (4 + 8 + 4)%nat in
  if (length buf <? computed_header_size)%nat
  then Err AGENTD_ERROR_NOTIFICATIONSERVICE_API_BAD_ARGUMENT else
  let method_id := ntohl (le_dec (sub 0 4 buf)) in
  let buf := drop 4 buf in
  let offset := ntohll (le_dec (sub 0 8 buf)) in
  let buf := drop 8 buf in
  let status_code := ntohl (le_dec (sub 0 4 buf)) in
  let buf := drop 4 buf in
  Ok (NotificationResponse method_id status_code offset (rest_payload buf)).

(** ** Encoding

    [rcpr_allocator_allocate] of the rcpr library: a status and, on success,
    memory of the size asked for, whose contents are not specified. *)
Class RCPR_ALLOCATOR (W : Type) := { rcpr_allocator_allocate : nat → Act W (Z * bytes) }.

Class RCPR_ALLOCATOR_laws (W : Type) `{RA : RCPR_ALLOCATOR W} := {
  law_allocate : ∀ n w b w', rcpr_allocator_allocate n w = ((0, b), w') → length b = n;
}.

(** The status that the exits of a function combine: a later failure hides an
    earlier status. *)
Definition or_else (release_retval retval : Z) : Z :=
  if negb (release_retval =? 0) then release_retval else retval.

Section encode.
Context {W : Type} {RA : RCPR_ALLOCATOR W}.

Definition notificationservice_api_encode_request (method_id offset : Z) (payload : option bytes)
  : Eff W bytes :=
  let buffer_size := (4 + 8 + length (default [] payload))%nat in
  let! '(retval, tmp) := rcpr_allocator_allocate buffer_size in
  if negb (retval =? 0) then throw retval else
  ok (write_seq 0 [net32 method_id; net64 offset; default [] payload] tmp).

Definition notificationservice_api_encode_response (method_id status_code offset : Z)
    (payload : option bytes) : Eff W bytes :=
  let buffer_size := (4 + 8 + 4 + length (default [] payload))%nat in
  let! '(retval, tmp) := rcpr_allocator_allocate buffer_size in
  if negb (retval =? 0) then throw retval else
  ok (write_seq 0 [net32 method_id; net64 offset; net32 status_code; default [] payload] tmp).

(** ** Client functions

    A status of the library is handed on as it is; a failure to reclaim the
    buffer hides the status of the write. *)
Context {PS : PSOCK W}.

Definition notification_send (request : Eff W bytes) : Eff W unit :=
  let* buf := request in
  let! retval := psock_write_boxed_data buf in
  let! release_retval := rcpr_allocator_reclaim in
  let retval := if negb (release_retval =? 0) then release_retval else retval in
  if negb (retval =? 0) then throw retval else ok tt.

Definition notificationservice_api_sendreq_assertion_cancel (offset : Z) : Eff W unit :=
  notification_send
    (notificationservice_api_encode_request
       AGENTD_NOTIFICATIONSERVICE_API_METHOD_ID_BLOCK_ASSERTION_CANCEL offset None).

Definition notificationservice_api_sendreq_block_assertion (offset : Z) (block_id : bytes) : Eff W unit :=
  notification_send
    (notificationservice_api_encode_request
       AGENTD_NOTIFICATIONSERVICE_API_METHOD_ID_BLOCK_ASSERTION offset (Some block_id)).

Definition notificationservice_api_sendreq_block_update (offset : Z) (block_id : bytes) : Eff W unit :=
  notification_send
    (notificationservice_api_encode_request
       AGENTD_NOTIFICATIONSERVICE_API_METHOD_ID_BLOCK_UPDATE offset (Some block_id)).

(** [caps] are the [size] bytes of the set. *)
Definition notificationservice_api_sendreq_reduce_caps (offset : Z) (caps : bytes) : Eff W unit :=
  if negb (sizeof caps =? 4 * Z.of_nat (BITCAP NOTIFICATIONSERVICE_API_CAP_BITS_MAX))
  then throw AGENTD_ERROR_NOTIFICATIONSERVICE_API_BAD_ARGUMENT else
  notification_send
    (notificationservice_api_encode_request
       AGENTD_NOTIFICATIONSERVICE_API_METHOD_ID_REDUCE_CAPS offset (Some caps)).

Definition notificationservice_api_recvresp : Eff W bytes :=
  let! '(retval, buf) := psock_read_boxed_data in
  if negb (retval =? 0) then throw retval else ok buf.
End encode.

(** ** Round trips *)

Definition wf_notification_request (q : notification_request) : Prop :=
  u32 (nq_method_id q) ∧ u64 (nq_offset q) ∧ nq_payload q ≠ Some [].
Definition wf_notification_response (p : notification_response) : Prop :=
  u32 (np_method_id p) ∧ u32 (np_status_code p) ∧ u64 (np_offset p) ∧ np_payload p ≠ Some [].

(** The packets. *)
Definition notification_request_packet (q : notification_request) : bytes :=
  be_enc 4 (nq_method_id q) ++ be_enc 8 (nq_offset q) ++ default [] (nq_payload q).
Definition notification_response_packet (p : notification_response) : bytes :=
  be_enc 4 (np_method_id p) ++ be_enc 8 (np_offset p) ++ be_enc 4 (np_status_code p)
  ++ default [] (np_payload p).

Lemma rest_payload_default x : x ≠ Some [] → rest_payload (default [] x) = x.
Proof. destruct x as [[|b l]|]; naive_solver. Qed.

Lemma decode_notification_request q :
  wf_notification_request q →
  notificationservice_api_decode_request (notification_request_packet q) = Ok q.
Proof.
  intros (Hm&Ho&Hp). unfold notificationservice_api_decode_request, notification_request_packet.
  replace (length _ <? 4 + 8)%nat with false by (symmetry; apply Nat.ltb_ge; len).
  rewrite read_net32, drop_app_length', read_net64, drop_app_length' by (done || apply length_be_enc).
  rewrite rest_payload_default by done. by destruct q.
Qed.

Lemma decode_notification_response p :
  wf_notification_response p →
  notificationservice_api_decode_response (notification_response_packet p) = Ok p.
Proof.
  intros (Hm&Hs&Ho&Hp). unfold notificationservice_api_decode_response, notification_response_packet.
  replace (length _ <? 4 + 8 + 4)%nat with false by (symmetry; apply Nat.ltb_ge; len).
  rewrite read_net32, drop_app_length', read_net64, drop_app_length', read_net32, drop_app_length'
    by (done || apply length_be_enc).
  rewrite rest_payload_default by done. by destruct p.
Qed.

Section roundtrip.
Context {W : Type} {RA : RCPR_ALLOCATOR W} {RAL : RCPR_ALLOCATOR_laws W}.

Lemma post_rcpr_allocate n (Q : Z * bytes → W → Prop) w :
  (∀ rc b w', w' = (rcpr_allocator_allocate n w).2 → (rc = 0 → length b = n) → Q (rc, b) w') →
  post (rcpr_allocator_allocate n) Q w.
Proof.
  intros HQ. apply post_run. destruct (rcpr_allocator_allocate n w) as [[rc b] w'] eqn:E. simpl.
  apply HQ; [done|]. intros ->. by eapply law_allocate.
Qed.

Lemma encode_notification_request_spec q w :
  post (notificationservice_api_encode_request (nq_method_id q) (nq_offset q) (nq_payload q))
    (λ r w', w' = (rcpr_allocator_allocate (length (notification_request_packet q)) w).2 ∧
       ∀ b, r = Ok b → b = notification_request_packet q) w.
Proof.
  unfold notificationservice_api_encode_request.
  replace (4 + 8 + length (default [] (nq_payload q)))%nat
    with (length (notification_request_packet q)) by (unfold notification_request_packet; len).
  apply post_act, post_rcpr_allocate. intros rc b w' Hw Hb. cbn beta iota.
  apply post_if; intros Hrc; apply post_ret; (split; [done|]); [done|]. intros b' <-%Ok_inj.
  rewrite write_seq_full; rewrite net32_be, net64_be; simpl; rewrite app_nil_r; [done|].
  apply Hb. rewrite negb_false_iff in Hrc. lia.
Qed.

Lemma encode_notification_response_spec p w :
  post (notificationservice_api_encode_response
          (np_method_id p) (np_status_code p) (np_offset p) (np_payload p))
    (λ r w', w' = (rcpr_allocator_allocate (length (notification_response_packet p)) w).2 ∧
       ∀ b, r = Ok b → b = notification_response_packet p) w.
Proof.
  unfold notificationservice_api_encode_response.
  replace (4 + 8 + 4 + length (default [] (np_payload p)))%nat
    with (length (notification_response_packet p)) by (unfold notification_response_packet; len).
  apply post_act, post_rcpr_allocate. intros rc b w' Hw Hb. cbn beta iota.
  apply post_if; intros Hrc; apply post_ret; (split; [done|]); [done|]. intros b' <-%Ok_inj.
  rewrite write_seq_full; rewrite !net32_be, net64_be; simpl; rewrite app_nil_r; [done|].
  apply Hb. rewrite negb_false_iff in Hrc. lia.
Qed.

(** C36: A request that the encoder writes decodes to the method, offset and payload it was
    made of, and a response to its method, status, offset and payload, whatever the
    allocator returned the memory with. *)
Theorem notification_roundtrip q p w :
  wf_notification_request q → wf_notification_response p →
  post (notificationservice_api_encode_request (nq_method_id q) (nq_offset q) (nq_payload q))
    (λ r _, ∀ b, r = Ok b → notificationservice_api_decode_request b = Ok q) w ∧
  post (notificationservice_api_encode_response
          (np_method_id p) (np_status_code p) (np_offset p) (np_payload p))
    (λ r _, ∀ b, r = Ok b → notificationservice_api_decode_response b = Ok p) w.
Proof.
  intros Hq Hp. split.
  - eapply post_mono; [apply encode_notification_request_spec|]. intros r w' [_ H] b ->.
    rewrite (H b eq_refl). by apply decode_notification_request.
  - eapply post_mono; [apply encode_notification_response_spec|]. intros r w' [_ H] b ->.
    rewrite (H b eq_refl). by apply decode_notification_response.
Qed.
End roundtrip.
