(* ===== verification/NotificationService.v ===== *)
(** * The notification service: fibers, dispatching and the shared context

    [src/src/notificationservice]: each client is served by two fibers, one that
    reads its requests and one that writes its responses.  The fibers share the
    context: the latest block id, and per client the capabilities and the tree of
    assertions that wait for a new block.  They are scheduled cooperatively: a
    fiber runs until it reads or sends a message, and then others may run.

    A program of a fiber is a value of [prog]: library calls and accesses to the
    context are steps that nothing comes between, a [Send] gives up control. *)

From S2P Require Import Prelude Inet StatusCodes Contexts Lmdb RequestCodec Ipc ClientApi NotificationCodec.

(** ** Assertions *)

(** The fiber context of an entry is that of the client it belongs to. *)
Record notificationservice_assertion_entry := AssertionEntry { ae_context : nat; ae_offset : Z }.

Definition notificationservice_assertion_entry_key (e : notificationservice_assertion_entry) : Z :=
  ae_offset e.

(** [RCPR_COMPARE_LT], [_GT] and [_EQ] are [Lt], [Gt] and [Eq]. *)
Definition notificationservice_assertion_entry_compare (lhs rhs : Z) : comparison :=
  if lhs <? rhs then Lt else if rhs <? lhs then Gt else Eq.

(** The library: red-black trees over the entries, by key, with their elements from
    the minimum by successors; lists, of which only the statuses matter; messages;
    and the comparison of memory. *)
Class RCPR (W : Type) := {
  rbtree : Type;
  rbtree_create : Act W (Z * rbtree);
  rbtree_insert : rbtree → notificationservice_assertion_entry → Act W (Z * rbtree);
  rbtree_delete : rbtree → Z → Act W (Z * rbtree);
  rbtree_elements : rbtree → list notificationservice_assertion_entry;
  ERROR_RBTREE_NOT_FOUND : Z;
  slist_create : Act W Z;
  slist_append_tail : Act W Z;
  slist_head : Act W Z;
  slist_node_child : Act W Z;
  slist_node_next : Act W Z;
  message_create : Act W Z;
  resource_release : Act W Z;
  uuid_memcmp : bytes → bytes → Z;
}.

Section service.
Context {W : Type} {RC : RCPR W} {RA : RCPR_ALLOCATOR W} {PS : PSOCK W}.
(** The sizes of the structures that are allocated. *)
Context (sizeof_message_payload sizeof_assertion_entry : nat).

(** ** The shared context *)

Record notificationservice_instance := NotificationInstance {
  ni_caps : bitcap; ni_assertions : rbtree }.

(** The instances are those of the consensus and the protocol socket; the client
    number is the position, and also the address of the outbound mailbox. *)
Record notificationservice_context := NotificationContext {
  nc_latest_block_id : bytes;
  nc_instances : list notificationservice_instance;
  nc_quiesce : bool; nc_terminate : bool }.

Definition set_latest (id : bytes) (c : notificationservice_context) : notificationservice_context :=
  NotificationContext id (nc_instances c) (nc_quiesce c) (nc_terminate c).
Definition set_instances (l : list notificationservice_instance) (c : notificationservice_context)
  : notificationservice_context :=
  NotificationContext (nc_latest_block_id c) l (nc_quiesce c) (nc_terminate c).
Definition set_quiesce (c : notificationservice_context) : notificationservice_context :=
  NotificationContext (nc_latest_block_id c) (nc_instances c) true (nc_terminate c).

Definition set_caps (i : nat) (caps : bitcap) (c : notificationservice_context)
  : notificationservice_context :=
  set_instances (alter (λ x, NotificationInstance caps (ni_assertions x)) i (nc_instances c)) c.
Definition set_assertions (i : nat) (t : rbtree) (c : notificationservice_context)
  : notificationservice_context :=
  set_instances (alter (λ x, NotificationInstance (ni_caps x) t) i (nc_instances c)) c.

(** ** Programs of fibers *)

Definition fiber_state : Type := notificationservice_context * W.

Inductive prog (A : Type) : Type :=
  | Done (a : A)
  | Atomic {B : Type} (m : Act fiber_state B) (k : B → prog A)
  | Send (addr : nat) (msg : bytes) (k : Z → prog A).
Arguments Done {A} _.
Arguments Atomic {A B} _ _.
Arguments Send {A} _ _ _.

Fixpoint pbind {A B} (p : prog A) (f : A → prog B) : prog B :=
  match p with
  | Done a => f a
  | Atomic m k => Atomic m (λ b, pbind (k b) f)
  | Send addr msg k => Send addr msg (λ rc, pbind (k rc) f)
  end.

Local Notation "'let@' x := p 'in' k" := (pbind p (λ x, k))
  (at level 10, x binder, p at level 100, k at level 200).

Definition lib {A} (m : Act W A) : prog A :=
  Atomic (λ s, let '(a, w) := m s.2 in (a, (s.1, w))) Done.
Definition get_instance (j : nat) : prog (option notificationservice_instance) :=
  Atomic (λ s, (nc_instances s.1 !! j, s)) Done.
Definition get_context : prog notificationservice_context := Atomic (λ s, (s.1, s)) Done.
Definition update (f : notificationservice_context → notificationservice_context) : prog unit :=
  Atomic (λ s, (tt, (f s.1, s.2))) Done.
Definition message_send (addr : nat) (msg : bytes) : prog Z := Send addr msg Done.

(** ** Responses *)

Definition notificationservice_protocol_outbound_endpoint_message_payload_resource_release : Act W Z :=
  let! payload_reclaim_retval := rcpr_allocator_reclaim in
  let! reclaim_retval := rcpr_allocator_reclaim in
  ret (or_else payload_reclaim_retval reclaim_retval).

(** The payload owns the buffer it is created with. *)
Definition notificationservice_protocol_outbound_endpoint_message_payload_create (data : bytes)
  : Eff W bytes :=
  let! '(retval, _) := rcpr_allocator_allocate sizeof_message_payload in
  if negb (retval =? 0) then throw retval else ok data.

(** To the outbound mailbox of the client [j]. *)
Definition notificationservice_protocol_send_response (j : nat) (method_id offset status_code : Z)
  : prog Z :=
  let@ buf := lib (notificationservice_api_encode_response method_id (wrap32 status_code) offset None) in
  match buf with
  | Err retval => Done retval
  | Ok buf =>
      let@ payload := lib (notificationservice_protocol_outbound_endpoint_message_payload_create buf) in
      match payload with
      | Err retval =>
          let@ release_retval := lib rcpr_allocator_reclaim in Done (or_else release_retval retval)
      | Ok payload =>
          let@ retval := lib message_create in
          if negb (retval =? 0) then
            let@ release_retval :=
              lib notificationservice_protocol_outbound_endpoint_message_payload_resource_release in
            Done (or_else release_retval retval)
          else
            let@ retval := message_send j payload in
            if negb (retval =? 0) then
              let@ release_retval := lib resource_release in Done (or_else release_retval retval)
            else Done 0
      end
  end.

(** The label [report_status] of a handler. *)
Definition report_status (j : nat) (method_id offset retval : Z) : prog Z :=
  let@ status_retval := notificationservice_protocol_send_response j method_id offset retval in
  Done (or_else status_retval retval).

(** Whether the client has a capability. *)
Definition permitted (j : nat) (cap : nat) : prog bool :=
  let@ inst := get_instance j in
  Done match inst with Some inst => BITCAP_ISSET (ni_caps inst) cap | None => false end.

(** ** The handlers *)

Definition notificationservice_protocol_dispatch_reduce_caps (j : nat) (offset : Z)
    (payload : option bytes) : prog Z :=
  let@ b := permitted j NOTIFICATIONSERVICE_API_CAP_REDUCE_CAPS in
  let@ retval :=
    if negb b then Done AGENTD_ERROR_NOTIFICATIONSERVICE_NOT_AUTHORIZED else
    match payload with
    | Some payload =>
        if negb (length payload =? 4 * BITCAP NOTIFICATIONSERVICE_API_CAP_BITS_MAX)%nat
        then Done AGENTD_ERROR_NOTIFICATIONSERVICE_MALFORMED_REQUEST else
        let intersect := caps_of_bytes (BITCAP NOTIFICATIONSERVICE_API_CAP_BITS_MAX) payload in
        let@ inst := get_instance j in
        let@ _ := update (set_caps j match inst with
                                     | Some inst => BITCAP_INTERSECT (ni_caps inst) intersect
                                     | None => []
                                     end) in
        Done 0
    | None => Done AGENTD_ERROR_NOTIFICATIONSERVICE_MALFORMED_REQUEST
    end in
  report_status j AGENTD_NOTIFICATIONSERVICE_API_METHOD_ID_REDUCE_CAPS offset retval.

(** The status of a failed insertion, after the entry was released. *)
Definition notificationservice_assertion_entry_add (j : nat) (offset : Z) : prog Z :=
  let@ '(retval, _) := lib (rcpr_allocator_allocate sizeof_assertion_entry) in
  if negb (retval =? 0) then Done retval else
  let@ inst := get_instance j in
  match inst with
  | None => Done 0
  | Some inst =>
      let@ '(retval, tree) := lib (rbtree_insert (ni_assertions inst) (AssertionEntry j offset)) in
      if negb (retval =? 0) then
        let@ release_retval := lib rcpr_allocator_reclaim in Done (or_else release_retval retval)
      else let@ _ := update (set_assertions j tree) in Done 0
  end.

(** A successful response is an invalidation; an assertion that waits gets none
    for now. *)
Definition notificationservice_protocol_dispatch_block_assertion (j : nat) (offset : Z)
    (payload : option bytes) : prog Z :=
  let report := report_status j AGENTD_NOTIFICATIONSERVICE_API_METHOD_ID_BLOCK_ASSERTION offset in
  let@ b := permitted j NOTIFICATIONSERVICE_API_CAP_BLOCK_ASSERTION in
  if negb b then report AGENTD_ERROR_NOTIFICATIONSERVICE_NOT_AUTHORIZED else
  let block_id := default [] payload in
  if negb (length block_id =? 16)%nat then report AGENTD_ERROR_NOTIFICATIONSERVICE_MALFORMED_REQUEST else
  let@ ctx := get_context in
  if negb (uuid_memcmp block_id (nc_latest_block_id ctx) =? 0) then report 0 else
  let@ retval := notificationservice_assertion_entry_add j offset in
  if negb (retval =? 0) then report retval else Done 0.

(** The capability that is checked is that of assertions. *)
Definition notificationservice_protocol_dispatch_block_assertion_cancel (j : nat) (offset : Z)
    (payload : option bytes) : prog Z :=
  let@ b := permitted j NOTIFICATIONSERVICE_API_CAP_BLOCK_ASSERTION in
  let@ retval :=
    if negb b then Done AGENTD_ERROR_NOTIFICATIONSERVICE_NOT_AUTHORIZED
    else if negb (length (default [] payload) =? 0)%nat
    then Done AGENTD_ERROR_NOTIFICATIONSERVICE_MALFORMED_REQUEST
    else
      let@ inst := get_instance j in
      match inst with
      | None => Done 0
      | Some inst =>
          let@ '(retval, tree) := lib (rbtree_delete (ni_assertions inst) offset) in
          let@ _ := update (set_assertions j tree) in
          if negb (retval =? 0) && negb (retval =? ERROR_RBTREE_NOT_FOUND) then Done retval else Done 0
      end in
  report_status j AGENTD_NOTIFICATIONSERVICE_API_METHOD_ID_BLOCK_ASSERTION_CANCEL offset retval.

(** *** A new block *)

(** Take the assertions of the instances [insts]: each gets an empty tree, and the old
    ones are collected. *)
Fixpoint take_assertions (insts : list nat) (work : list rbtree) : prog (result (list rbtree)) :=
  match insts with
  | [] => Done (Ok work)
  | i :: insts =>
      let@ retval := lib slist_node_child in
      if negb (retval =? 0) then Done (Err retval) else
      let@ '(retval, tree) := lib rbtree_create in
      if negb (retval =? 0) then Done (Err retval) else
      let@ inst := get_instance i in
      let@ _ := update (set_assertions i tree) in
      let@ retval := lib slist_append_tail in
      if negb (retval =? 0) then
        let@ release_retval := lib resource_release in Done (Err (or_else release_retval retval))
      else
        let@ retval := lib slist_node_next in
        if negb (retval =? 0) then Done (Err retval) else
        take_assertions insts (work ++ match inst with Some inst => [ni_assertions inst] | None => [] end)
  end.

Fixpoint notify_entries (es : list notificationservice_assertion_entry) : prog Z :=
  match es with
  | [] => Done 0
  | e :: es =>
      let@ retval := notificationservice_protocol_send_response (ae_context e)
                       AGENTD_NOTIFICATIONSERVICE_API_METHOD_ID_BLOCK_ASSERTION (ae_offset e) 0 in
      if negb (retval =? 0) then Done retval else notify_entries es
  end.

Fixpoint notify_trees (ts : list rbtree) : prog Z :=
  match ts with
  | [] => Done 0
  | t :: ts =>
      let@ retval := lib slist_node_child in
      if negb (retval =? 0) then Done retval else
      let@ retval := notify_entries (rbtree_elements t) in
      if negb (retval =? 0) then Done retval else
      let@ retval := lib slist_node_next in
      if negb (retval =? 0) then Done retval else notify_trees ts
  end.

Definition invalidate_assertions : prog Z :=
  let@ retval := lib slist_create in
  if negb (retval =? 0) then Done retval else
  let@ retval :=
    let@ retval := lib slist_head in
    if negb (retval =? 0) then Done retval else
    let@ ctx := get_context in
    let@ work := take_assertions (seq 0 (length (nc_instances ctx))) [] in
    match work with
    | Err retval => Done retval
    | Ok work =>
        let@ retval := lib slist_head in
        if negb (retval =? 0) then Done retval else notify_trees work
    end in
  let@ release_retval := lib resource_release in
  Done (or_else release_retval retval).

Definition notificationservice_protocol_dispatch_block_update (j : nat) (offset : Z)
    (payload : option bytes) : prog Z :=
  let@ b := permitted j NOTIFICATIONSERVICE_API_CAP_BLOCK_UPDATE in
  let@ retval :=
    if negb b then Done AGENTD_ERROR_NOTIFICATIONSERVICE_NOT_AUTHORIZED else
    match payload with
    | Some payload =>
        if negb (length payload =? 16)%nat
        then Done AGENTD_ERROR_NOTIFICATIONSERVICE_MALFORMED_REQUEST else
        let@ _ := update (set_latest payload) in
        invalidate_assertions
    | None => Done AGENTD_ERROR_NOTIFICATIONSERVICE_MALFORMED_REQUEST
    end in
  report_status j AGENTD_NOTIFICATIONSERVICE_API_METHOD_ID_BLOCK_UPDATE offset retval.

(** *** The packet *)

(** [read] is what [psock_read_boxed_data] returned: a status, and the packet. *)
Definition notificationservice_protocol_read_decode_and_dispatch_packet (j : nat) (read : Z * bytes)
  : prog Z :=
  let '(retval, buf) := read in
  if negb (retval =? 0) then Done retval else
  let@ retval :=
    match notificationservice_api_decode_request buf with
    | Err retval => Done retval
    | Ok req =>
        let m := nq_method_id req in
        let offset := nq_offset req in
        let payload := nq_payload req in
        if m =? AGENTD_NOTIFICATIONSERVICE_API_METHOD_ID_REDUCE_CAPS then
          notificationservice_protocol_dispatch_reduce_caps j offset payload
        else if m =? AGENTD_NOTIFICATIONSERVICE_API_METHOD_ID_BLOCK_UPDATE then
          notificationservice_protocol_dispatch_block_update j offset payload
        else if m =? AGENTD_NOTIFICATIONSERVICE_API_METHOD_ID_BLOCK_ASSERTION then
          notificationservice_protocol_dispatch_block_assertion j offset payload
        else if m =? AGENTD_NOTIFICATIONSERVICE_API_METHOD_ID_BLOCK_ASSERTION_CANCEL then
          notificationservice_protocol_dispatch_block_assertion_cancel j offset payload
        else
          let@ retval := notificationservice_protocol_send_response j m offset
                           AGENTD_ERROR_NOTIFICATIONSERVICE_INVALID_REQUEST_ID in
          Done (if retval =? 0 then AGENTD_ERROR_NOTIFICATIONSERVICE_INVALID_REQUEST_ID else retval)
    end in
  let@ release_retval := lib rcpr_allocator_reclaim in
  Done (or_else release_retval retval).

(** ** Start *)

(** [notificationservice_context_create], and for every socket
    [notificationservice_instance_create] and [notificationservice_context_add_instance]. *)
Definition notificationservice_context_create : notificationservice_context :=
  NotificationContext (memset Byte.x00 16) [] false false.
Definition notificationservice_instance_create (assertions : rbtree) : notificationservice_instance :=
  NotificationInstance (BITCAP_INIT_TRUE (BITCAP NOTIFICATIONSERVICE_API_CAP_BITS_MAX)) assertions.
Definition notificationservice_context_add_instance (c : notificationservice_context)
    (inst : notificationservice_instance) : notificationservice_context :=
  set_instances (nc_instances c ++ [inst]) c.

(** ** The scheduler *)

(** A fiber runs until it sends or its program ends. *)
Fixpoint run_prog {A} (p : prog A) (s : fiber_state) : (A + (nat * bytes * (Z → prog A))) * fiber_state :=
  match p with
  | Done a => (inl a, s)
  | Atomic m k => let '(b, s) := m s in run_prog (k b) s
  | Send addr msg k => (inr (addr, msg, k), s)
  end.

Inductive fiber : Type :=
  | Reading
  | Blocked (addr : nat) (msg : bytes) (k : Z → prog Z)
  | Ended (retval : Z).

(** The loop of [notificationservice_protocol_fiber_entry]. *)
Definition fiber_after (c : notificationservice_context)
    (r : Z + (nat * bytes * (Z → prog Z))) : fiber :=
  match r with
  | inr (addr, msg, k) => Blocked addr msg k
  | inl retval =>
      if negb (retval =? 0) then Ended retval
      else if nc_quiesce c || nc_terminate c then Ended 0 else Reading
  end.

(** The context, the library, the protocol fibers, the messages in the outbound
    mailboxes, and what the endpoint fibers have written. *)
Record config := Config {
  cf_context : notificationservice_context; cf_world : W; cf_fibers : list fiber;
  cf_mail : list (list bytes); cf_written : list (list bytes) }.

Definition resume (j : nat) (p : prog Z) (c : config) : config :=
  let '(r, (ctx, w)) := run_prog p (cf_context c, cf_world c) in
  Config ctx w (<[j := fiber_after ctx r]> (cf_fibers c)) (cf_mail c) (cf_written c).

(** What can be seen: a packet that is read or a failure to read, a message sent. *)
Inductive event : Type :=
  | ev_packet (j : nat) (buf : bytes)
  | ev_message (addr : nat) (msg : bytes)
  | ev_failure.

Inductive step : config → list event → config → Prop :=
  | step_read c j buf :
      cf_fibers c !! j = Some Reading →
      step c [ev_packet j buf]
        (resume j (notificationservice_protocol_read_decode_and_dispatch_packet j (0, buf)) c)
  | step_read_failed c j rc :
      cf_fibers c !! j = Some Reading → rc ≠ 0 →
      step c [ev_failure]
        (resume j (notificationservice_protocol_read_decode_and_dispatch_packet j (rc, [])) c)
  | step_send c j addr msg k :
      cf_fibers c !! j = Some (Blocked addr msg k) →
      step c [ev_message addr msg]
        (resume j (k 0) (Config (cf_context c) (cf_world c) (cf_fibers c)
                           (alter (λ l, l ++ [msg]) addr (cf_mail c)) (cf_written c)))
  | step_send_failed c j addr msg k rc :
      cf_fibers c !! j = Some (Blocked addr msg k) → rc ≠ 0 →
      step c [ev_failure] (resume j (k rc) c)
  | step_write c i msg l :
      cf_mail c !! i = Some (msg :: l) →
      step c [] (Config (cf_context c) (cf_world c) (cf_fibers c)
                   (<[i := l]> (cf_mail c)) (alter (λ x, x ++ [msg]) i (cf_written c)))
  | step_quiesce c :
      step c [] (Config (set_quiesce (cf_context c)) (cf_world c) (cf_fibers c) (cf_mail c) (cf_written c)).

Inductive steps : config → list event → config → Prop :=
  | steps_refl c : steps c [] c
  | steps_step c1 t1 c2 t2 c3 : steps c1 t1 c2 → step c2 t2 c3 → steps c1 (t1 ++ t2) c3.
End service.
Arguments Done {W RC A} _.
Arguments Atomic {W RC A B} _ _.
Arguments Send {W RC A} _ _ _.

(** The service as [notificationservice_run] starts it: an instance per socket, with
    the trees it was given, and a fiber that reads from each. *)
Definition notificationservice_start {W : Type} {RC : RCPR W} (trees : list rbtree) (w : W) : config :=
  let n := length trees in
  Config
    (foldl notificationservice_context_add_instance notificationservice_context_create
       (notificationservice_instance_create <$> trees))
    w (replicate n Reading) (replicate n []) (replicate n []).
