(* ===== verification/NotificationSpec.v ===== *)
(** * What the notification service does

    An abstract notifier that serves every request in one step, and the theorem
    that every interleaving of the fibers of the service is a behaviour of it.
    From it: every assertion is answered exactly once, unless it is cancelled, and
    none waits for a block that has already come. *)

From stdpp Require Import sorting.
From S2P Require Import Prelude Inet StatusCodes Contexts Lmdb RequestCodec Ipc ClientApi NotificationCodec NotificationService.

(** ** The abstract notifier *)

(** The offsets of the assertions of a client that wait for a new block. *)
Record client := Client { cl_caps : bitcap; cl_waiting : gset Z }.
Record notifier := Notifier { nt_latest : bytes; nt_clients : list client }.

Definition offsets (X : gset Z) : list Z := merge_sort Z.le (elements X).

Abbreviation responses := (list (nat * notification_response)).

Definition respond (i : nat) (method offset status : Z) : responses :=
  [(i, NotificationResponse method (wrap32 status) offset None)].

(** The responses to all assertions that wait: client by client, in the order of
    their offsets. *)
Definition invalidations (cs : list client) : responses :=
  concat (imap (λ i cl, offsets (cl_waiting cl) ≫= λ o,
    respond i AGENTD_NOTIFICATIONSERVICE_API_METHOD_ID_BLOCK_ASSERTION o 0) cs).

Section serve.
(** The status of inserting a key that is there. *)
Context (ERROR_RBTREE_DUPLICATE : Z).

(** What a request does: the notifier, the responses, and the status that is
    returned, which ends the service if it is an error. *)
Definition serve (n : notifier) (j : nat) (cl : client) (q : notification_request)
  : notifier * responses * Z :=
  let m := nq_method_id q in
  let o := nq_offset q in
  let payload := default [] (nq_payload q) in
  let fail s := (n, respond j m o s, s) in
  let change cl := Notifier (nt_latest n) (<[j := cl]> (nt_clients n)) in
  if m =? AGENTD_NOTIFICATIONSERVICE_API_METHOD_ID_REDUCE_CAPS then
    if negb (BITCAP_ISSET (cl_caps cl) NOTIFICATIONSERVICE_API_CAP_REDUCE_CAPS)
    then fail AGENTD_ERROR_NOTIFICATIONSERVICE_NOT_AUTHORIZED
    else if negb (length payload =? 4)%nat then fail AGENTD_ERROR_NOTIFICATIONSERVICE_MALFORMED_REQUEST
    else (change (Client (BITCAP_INTERSECT (cl_caps cl) (caps_of_bytes 1 payload)) (cl_waiting cl)),
          respond j m o 0, 0)
  else if m =? AGENTD_NOTIFICATIONSERVICE_API_METHOD_ID_BLOCK_UPDATE then
    if negb (BITCAP_ISSET (cl_caps cl) NOTIFICATIONSERVICE_API_CAP_BLOCK_UPDATE)
    then fail AGENTD_ERROR_NOTIFICATIONSERVICE_NOT_AUTHORIZED
    else if negb (length payload =? 16)%nat then fail AGENTD_ERROR_NOTIFICATIONSERVICE_MALFORMED_REQUEST
    else (Notifier payload ((λ cl, Client (cl_caps cl) ∅) <$> nt_clients n),
          invalidations (nt_clients n) ++ respond j m o 0, 0)
  else if m =? AGENTD_NOTIFICATIONSERVICE_API_METHOD_ID_BLOCK_ASSERTION then
    if negb (BITCAP_ISSET (cl_caps cl) NOTIFICATIONSERVICE_API_CAP_BLOCK_ASSERTION)
    then fail AGENTD_ERROR_NOTIFICATIONSERVICE_NOT_AUTHORIZED
    else if negb (length payload =? 16)%nat then fail AGENTD_ERROR_NOTIFICATIONSERVICE_MALFORMED_REQUEST
    else if negb (bool_decide (payload = nt_latest n)) then (n, respond j m o 0, 0)
    else if bool_decide (o ∈ cl_waiting cl) then fail ERROR_RBTREE_DUPLICATE
    else (change (Client (cl_caps cl) ({[o]} ∪ cl_waiting cl)), [], 0)
  else if m =? AGENTD_NOTIFICATIONSERVICE_API_METHOD_ID_BLOCK_ASSERTION_CANCEL then
    if negb (BITCAP_ISSET (cl_caps cl) NOTIFICATIONSERVICE_API_CAP_BLOCK_ASSERTION)
    then fail AGENTD_ERROR_NOTIFICATIONSERVICE_NOT_AUTHORIZED
    else if negb (length payload =? 0)%nat then fail AGENTD_ERROR_NOTIFICATIONSERVICE_MALFORMED_REQUEST
    else (change (Client (cl_caps cl) (cl_waiting cl ∖ {[o]})), respond j m o 0, 0)
  else fail AGENTD_ERROR_NOTIFICATIONSERVICE_INVALID_REQUEST_ID.

(** A worker per client: it answers what it has to before it reads again. *)
Inductive worker : Type :=
  | w_reading
  | w_answering (l : responses) (retval : Z)
  | w_ended (retval : Z).

Record notifier_state := NotifierState {
  as_notifier : notifier; as_quiesce : bool; as_workers : list worker }.

Definition settle (quiesce : bool) (l : responses) (retval : Z) : worker :=
  match l with
  | _ :: _ => w_answering l retval
  | [] => if negb (retval =? 0) then w_ended retval else if quiesce then w_ended 0 else w_reading
  end.

Inductive serves : notifier_state → list event → notifier_state → Prop :=
  | serves_request a j cl buf q n l s :
      as_workers a !! j = Some w_reading → nt_clients (as_notifier a) !! j = Some cl →
      notificationservice_api_decode_request buf = Ok q →
      serve (as_notifier a) j cl q = (n, l, s) →
      serves a [ev_packet j buf]
        (NotifierState n (as_quiesce a) (<[j := settle (as_quiesce a) l s]> (as_workers a)))
  | serves_garbage a j buf e :
      as_workers a !! j = Some w_reading →
      notificationservice_api_decode_request buf = Err e →
      serves a [ev_packet j buf]
        (NotifierState (as_notifier a) (as_quiesce a) (<[j := w_ended e]> (as_workers a)))
  | serves_response a j i r l s :
      as_workers a !! j = Some (w_answering ((i, r) :: l) s) →
      serves a [ev_message i (notification_response_packet r)]
        (NotifierState (as_notifier a) (as_quiesce a)
           (<[j := settle (as_quiesce a) l s]> (as_workers a)))
  | serves_nothing a : serves a [] a
  | serves_quiesce a : serves a [] (NotifierState (as_notifier a) true (as_workers a)).

Inductive serves_all : notifier_state → list event → notifier_state → Prop :=
  | serves_refl a : serves_all a [] a
  | serves_step a1 t1 a2 t2 a3 : serves_all a1 t1 a2 → serves a2 t2 a3 → serves_all a1 (t1 ++ t2) a3.
End serve.

(** [n] clients, no block yet. *)
Definition notifier_start (n : nat) : notifier_state :=
  NotifierState
    (Notifier (memset Byte.x00 16)
       (replicate n (Client (BITCAP_INIT_TRUE (BITCAP NOTIFICATIONSERVICE_API_CAP_BITS_MAX)) ∅)))
    false (replicate n w_reading).

(** ** The library *)

Definition entry_lt (x y : notificationservice_assertion_entry) : Prop :=
  notificationservice_assertion_entry_compare (notificationservice_assertion_entry_key x)
    (notificationservice_assertion_entry_key y) = Lt.

(** The library works as documented, and does not fail. *)
Class RCPR_reliable (W : Type) (ERROR_RBTREE_DUPLICATE : Z) `{RC : RCPR W} `{RA : RCPR_ALLOCATOR W}
    `{PS : PSOCK W} : Prop := {
  law_tree_sorted : ∀ t, StronglySorted entry_lt (rbtree_elements t);
  law_tree_create : ∀ w, (rbtree_create w).1.1 = 0 ∧ rbtree_elements (rbtree_create w).1.2 = [];
  law_tree_insert : ∀ t e w,
    ae_offset e ∉ ae_offset <$> rbtree_elements t →
    (rbtree_insert t e w).1.1 = 0 ∧
    rbtree_elements (rbtree_insert t e w).1.2 ≡ₚ e :: rbtree_elements t;
  law_tree_duplicate : ∀ t e w,
    ae_offset e ∈ ae_offset <$> rbtree_elements t →
    (rbtree_insert t e w).1.1 = ERROR_RBTREE_DUPLICATE;
  law_duplicate_code : ERROR_RBTREE_DUPLICATE ≠ 0;
  law_tree_delete : ∀ t o w,
    o ∈ ae_offset <$> rbtree_elements t →
    (rbtree_delete t o w).1.1 = 0 ∧
    ∃ e, ae_offset e = o ∧ rbtree_elements t ≡ₚ e :: rbtree_elements (rbtree_delete t o w).1.2;
  law_tree_not_found : ∀ t o w,
    o ∉ ae_offset <$> rbtree_elements t →
    (rbtree_delete t o w).1 = (ERROR_RBTREE_NOT_FOUND, t);
  law_memcmp : ∀ a b, uuid_memcmp a b = 0 ↔ a = b;
  sure_slist_create : ∀ w, (slist_create w).1 = 0;
  sure_slist_append : ∀ w, (slist_append_tail w).1 = 0;
  sure_slist_head : ∀ w, (slist_head w).1 = 0;
  sure_slist_child : ∀ w, (slist_node_child w).1 = 0;
  sure_slist_next : ∀ w, (slist_node_next w).1 = 0;
  sure_message_create : ∀ w, (message_create w).1 = 0;
  sure_release : ∀ w, (resource_release w).1 = 0;
  sure_allocate : ∀ n w, (rcpr_allocator_allocate n w).1.1 = 0;
  sure_reclaim : ∀ w, (rcpr_allocator_reclaim w).1 = 0;
}.

Lemma offsets_perm X : offsets X ≡ₚ elements X.
Proof. apply merge_sort_Permutation. Qed.

Lemma elem_of_offsets o X : o ∈ offsets X ↔ o ∈ X.
Proof. by rewrite (offsets_perm X), elem_of_elements. Qed.

Lemma offsets_sorted (f : Z → nat) X :
  StronglySorted entry_lt ((λ o, AssertionEntry (f o) o) <$> offsets X).
Proof.
  assert (NoDup (offsets X)) as Hnd by (rewrite offsets_perm; apply NoDup_elements).
  pose proof (StronglySorted_merge_sort Z.le (elements X)) as Hs. fold (offsets X) in Hs.
  revert Hnd. induction Hs as [|o l Hs IH Hall]; intros Hnd; [constructor|].
  apply NoDup_cons in Hnd as [Hno Hnd]. rewrite fmap_cons. constructor; [by apply IH|].
  apply Forall_fmap, Forall_forall. intros o' Ho'. unfold entry_lt, notificationservice_assertion_entry_compare. simpl.
  rewrite Forall_forall in Hall. specialize (Hall o' Ho').
  assert (o ≠ o') by (by intros ->). by rewrite (proj2 (Z.ltb_lt o o')) by lia.
Qed.

Section programs.
Context {W : Type} {RC : RCPR W} {RA : RCPR_ALLOCATOR W} {PS : PSOCK W} {RAL : RCPR_ALLOCATOR_laws W}.
Context {DUP : Z} {RR : RCPR_reliable W DUP}.
Context (sz1 sz2 : nat).

Abbreviation context := (notificationservice_context (W := W)).
Abbreviation prog := (prog (W := W)).

(** ** What a program does *)

Abbreviation messages := (list (nat * bytes)).

(** [owes l a p]: whatever the context is now and later, [p] sends exactly [l], in
    order, does not change the context, and returns [a]. *)
Fixpoint owes {A} (l : messages) (a : A) (p : prog A) : Prop :=
  match l with
  | [] => ∀ (c : context) w, ∃ w', run_prog p (c, w) = (inl a, (c, w'))
  | (addr, msg) :: l => ∀ (c : context) w, ∃ k w',
      run_prog p (c, w) = (inr (addr, msg, k), (c, w')) ∧ owes l a (k 0)
  end.

(** [does l p c Q]: from the context [c], [p] first changes the context, without
    giving up control, then sends [l] without touching it again; [Q] holds of the
    value it returns and the context it left. *)
Definition does {A} (l : messages) (p : prog A) (c : context) (Q : A → context → Prop) : Prop :=
  ∀ w, ∃ a c', Q a c' ∧
    match l with
    | [] => ∃ w', run_prog p (c, w) = (inl a, (c', w'))
    | (addr, msg) :: l => ∃ k w', run_prog p (c, w) = (inr (addr, msg, k), (c', w')) ∧ owes l a (k 0)
    end.

Lemma run_pbind {A B} (p : prog A) (f : A → prog B) s :
  run_prog (pbind p f) s =
    match run_prog p s with
    | (inl a, s) => run_prog (f a) s
    | (inr (addr, msg, k), s) => (inr (addr, msg, λ rc, pbind (k rc) f), s)
    end.
Proof. revert s. induction p as [a|B' m k IH|addr msg k IH]; intros s; simpl; [done| |done]. destruct (m s). apply IH. Qed.

Lemma owes_does {A} l (a : A) p c : owes l a p → does l p c (λ a' c', a' = a ∧ c' = c).
Proof. intros H w. exists a, c. split; [done|]. destruct l as [|[addr msg] l]; apply H. Qed.

Lemma owes_bind {A B} l1 l2 (a : A) (b : B) p f :
  owes l1 a p → owes l2 b (f a) → owes (l1 ++ l2) b (pbind p f).
Proof.
  revert p. induction l1 as [|[addr msg] l1 IH]; intros p Hp Hf.
  - simpl. destruct l2 as [|[addr msg] l2]; intros c w; rewrite run_pbind;
      destruct (Hp c w) as [w' ->]; apply Hf.
  - intros c w. rewrite run_pbind. destruct (Hp c w) as (k&w'&->&Hk). eexists _, w'. split; [done|]. by apply IH.
Qed.

Lemma does_bind {A B} l p c (Q : A → context → Prop) (f : A → prog B) R :
  does [] p c Q → (∀ a c', Q a c' → does l (f a) c' R) → does l (pbind p f) c R.
Proof.
  intros Hp Hf w. destruct (Hp w) as (a&c'&HQ&w'&E). destruct (Hf a c' HQ w') as (b&c2&HR&H).
  exists b, c2. split; [done|]. destruct l as [|[addr msg] l]; rewrite run_pbind, E; exact H.
Qed.

Lemma does_then {A B} l1 l2 p c (Q : A → context → Prop) (f : A → prog B) R :
  does l1 p c Q → (∀ a c', Q a c' → ∃ b, owes l2 b (f a) ∧ R b c') → does (l1 ++ l2) (pbind p f) c R.
Proof.
  intros Hp Hf w. destruct (Hp w) as (a&c'&HQ&H). destruct (Hf a c' HQ) as (b&Ho&HR).
  exists b, c'. split; [done|]. destruct l1 as [|[addr msg] l1].
  - destruct H as [w' E]. simpl. destruct l2 as [|[addr msg] l2]; rewrite run_pbind, E; apply Ho.
  - destruct H as (k&w'&E&Hk). simpl. rewrite run_pbind, E. eexists _, w'. split; [done|]. by eapply owes_bind.
Qed.

Lemma does_mono {A} l (p : prog A) c (Q R : A → context → Prop) :
  does l p c Q → (∀ a c', Q a c' → R a c') → does l p c R.
Proof. intros H HQ w. destruct (H w) as (a&c'&?&?). exists a, c'. auto. Qed.

Lemma does_done {A} (a : A) c (Q : A → context → Prop) : Q a c → does [] (Done a) c Q.
Proof. intros HQ w. exists a, c. split; [done|]. by exists w. Qed.
Lemma owes_done {A} (a : A) : owes [] a (Done a).
Proof. intros c w. by exists w. Qed.
Lemma does_get j c (Q : _ → context → Prop) : Q (nc_instances c !! j) c → does [] (get_instance j) c Q.
Proof. intros HQ w. eexists _, _. split; [exact HQ|]. by exists w. Qed.
Lemma does_context c (Q : _ → context → Prop) : Q c c → does [] get_context c Q.
Proof. intros HQ w. eexists _, _. split; [exact HQ|]. by exists w. Qed.
Lemma does_update f c (Q : _ → context → Prop) : Q tt (f c) → does [] (update f) c Q.
Proof. intros HQ w. eexists _, _. split; [exact HQ|]. by exists w. Qed.
Lemma does_lib {A} (m : Act W A) c (Q : A → context → Prop) :
  (∀ w, Q (m w).1 c) → does [] (lib m) c Q.
Proof.
  intros HQ w. specialize (HQ w). destruct (m w) as [a w'] eqn:E. exists a, c. split; [done|].
  exists w'. simpl. by rewrite E.
Qed.
Lemma owes_lib {A} (m : Act W A) a : (∀ w, (m w).1 = a) → owes [] a (lib m).
Proof.
  intros Hm c w. specialize (Hm w). destruct (m w) as [a' w'] eqn:E. simpl in *. subst a'. rewrite E. by exists w'.
Qed.
Lemma owes_send addr msg : owes [(addr, msg)] 0 (message_send addr msg).
Proof. intros c w. eexists _, w. split; [done|]. apply owes_done. Qed.

Lemma owes_lib_bind {A B} l (m : Act W A) a (b : B) f :
  (∀ w, (m w).1 = a) → owes l b (f a) → owes l b (pbind (lib m) f).
Proof. intros Hm Hf. apply (owes_bind [] l a); [by apply owes_lib|done]. Qed.

(** A library call that succeeds, at the front. *)
Lemma does_lib_bind {A B} l (m : Act W A) c (f : A → prog B) R a :
  (∀ w, (m w).1 = a) → does l (f a) c R → does l (pbind (lib m) f) c R.
Proof.
  intros Hm Hf. apply (does_bind _ _ _ (λ a' c', a' = a ∧ c' = c)); [apply does_lib; intros w; by rewrite Hm|].
  by intros ? ? [-> ->].
Qed.

(** ** Sending responses *)

Definition packed (l : responses) : messages := (λ x, (x.1, notification_response_packet x.2)) <$> l.

Lemma packed_app l1 l2 : packed (l1 ++ l2) = packed l1 ++ packed l2.
Proof. apply fmap_app. Qed.

Lemma response_encoded m off s w :
  (notificationservice_api_encode_response m s off None w).1
  = Ok (notification_response_packet (NotificationResponse m s off None)).
Proof.
  pose proof (encode_notification_response_spec (NotificationResponse m s off None) w) as H.
  rewrite post_run in H. simpl in H. destruct H as [_ H].
  destruct (notificationservice_api_encode_response m s off None w) as [[b|e] w'] eqn:E; simpl in *.
  - by rewrite (H b eq_refl).
  - exfalso. revert E. unfold notificationservice_api_encode_response, act.
    pose proof (sure_allocate (4 + 8 + 4 + length (default [] (None : option bytes))) w) as Ha.
    destruct (rcpr_allocator_allocate _ w) as [[rc b] w1]. simpl in Ha. subst rc. by intros [= ].
Qed.

Lemma payload_created (b : bytes) w :
  (notificationservice_protocol_outbound_endpoint_message_payload_create sz1 b w).1 = Ok b.
Proof.
  unfold notificationservice_protocol_outbound_endpoint_message_payload_create, act.
  pose proof (sure_allocate sz1 w) as Ha. destruct (rcpr_allocator_allocate sz1 w) as [[rc x] w1].
  simpl in Ha. by subst rc.
Qed.

Lemma send_response_owes j m off s :
  owes (packed (respond j m off s)) 0 (notificationservice_protocol_send_response sz1 j m off s).
Proof.
  unfold notificationservice_protocol_send_response.
  eapply owes_lib_bind; [intros w; apply response_encoded|]. cbv beta iota.
  eapply owes_lib_bind; [intros w; apply payload_created|]. cbv beta iota.
  eapply owes_lib_bind; [apply sure_message_create|]. cbn [negb Z.eqb].
  apply (owes_bind [_] [] 0); [apply owes_send|]. apply owes_done.
Qed.

Lemma report_status_owes j m off s :
  owes (packed (respond j m off s)) s (report_status sz1 j m off s).
Proof.
  unfold report_status. rewrite <- (app_nil_r (packed _)).
  eapply owes_bind; [apply send_response_owes|]. apply owes_done.
Qed.

Lemma notify_entries_owes es :
  owes (packed (es ≫= λ e, respond (ae_context e)
     AGENTD_NOTIFICATIONSERVICE_API_METHOD_ID_BLOCK_ASSERTION (ae_offset e) 0)) 0 (notify_entries sz1 es).
Proof.
  induction es as [|e es IH]; [apply owes_done|]. rewrite bind_cons, packed_app.
  eapply owes_bind; [apply send_response_owes|]. exact IH.
Qed.

Lemma notify_trees_owes ts :
  owes (packed (ts ≫= λ t, rbtree_elements t ≫= λ e, respond (ae_context e)
     AGENTD_NOTIFICATIONSERVICE_API_METHOD_ID_BLOCK_ASSERTION (ae_offset e) 0)) 0 (notify_trees sz1 ts).
Proof.
  induction ts as [|t ts IH]; [apply owes_done|]. rewrite bind_cons, packed_app. simpl notify_trees.
  eapply owes_lib_bind; [apply sure_slist_child|]. cbn [negb Z.eqb].
  eapply owes_bind; [apply notify_entries_owes|]. cbn [negb Z.eqb].
  eapply owes_lib_bind; [apply sure_slist_next|]. exact IH.
Qed.
(** ** The context and the notifier *)

Abbreviation instance := (notificationservice_instance (W := W)).

Definition shows_client (i : nat) (inst : instance) (cl : client) : Prop :=
  ni_caps inst = cl_caps cl ∧
  rbtree_elements (ni_assertions inst) = AssertionEntry i <$> offsets (cl_waiting cl).

Record shows (c : context) (n : notifier) : Prop := {
  sh_latest : nc_latest_block_id c = nt_latest n;
  sh_length : length (nc_instances c) = length (nt_clients n);
  sh_client : ∀ i inst cl, nc_instances c !! i = Some inst → nt_clients n !! i = Some cl →
    shows_client i inst cl;
}.

#[local] Instance entry_lt_antisymm : AntiSymm (=) entry_lt.
Proof.
  intros x y. unfold entry_lt, notificationservice_assertion_entry_compare.
  destruct (Z.ltb_spec (notificationservice_assertion_entry_key x) (notificationservice_assertion_entry_key y));
    repeat case_match; intros; try done; lia.
Qed.

Lemma tree_elements t i X :
  rbtree_elements t ≡ₚ AssertionEntry i <$> elements X → rbtree_elements t = AssertionEntry i <$> offsets X.
Proof.
  intros H. apply (StronglySorted_unique entry_lt); [apply law_tree_sorted|apply (offsets_sorted (λ _, i))|].
  by rewrite H, (offsets_perm X).
Qed.

Lemma keys_of_elements i X : ae_offset <$> (AssertionEntry i <$> offsets X) = offsets X.
Proof. rewrite <- list_fmap_compose. apply list_fmap_id. Qed.

Lemma elements_insert i t o X w :
  rbtree_elements t = AssertionEntry i <$> offsets X → o ∉ X →
  (rbtree_insert t (AssertionEntry i o) w).1.1 = 0 ∧
  rbtree_elements (rbtree_insert t (AssertionEntry i o) w).1.2 = AssertionEntry i <$> offsets ({[o]} ∪ X).
Proof.
  intros Ht Ho. destruct (law_tree_insert t (AssertionEntry i o) w) as [Hrc Hp].
  { rewrite Ht, keys_of_elements, elem_of_offsets. done. }
  split; [done|]. apply tree_elements. rewrite Hp, Ht, (offsets_perm X), elements_union_singleton by done. done.
Qed.

Lemma elements_delete i t o X w :
  rbtree_elements t = AssertionEntry i <$> offsets X → o ∈ X →
  (rbtree_delete t o w).1.1 = 0 ∧
  rbtree_elements (rbtree_delete t o w).1.2 = AssertionEntry i <$> offsets (X ∖ {[o]}).
Proof.
  intros Ht Ho. destruct (law_tree_delete t o w) as (Hrc&e&He&Hp).
  { rewrite Ht, keys_of_elements. by apply elem_of_offsets. }
  split; [done|]. apply tree_elements.
  assert (AssertionEntry i <$> elements X ≡ₚ e :: rbtree_elements (rbtree_delete t o w).1.2) as Hq.
  { by rewrite <- Hp, Ht, (offsets_perm X). }
  assert (e = AssertionEntry i o) as ->.
  { assert (e ∈ AssertionEntry i <$> elements X) as Hin by (rewrite Hq; left).
    apply list_elem_of_fmap in Hin as (o'&->&_). simpl in He. by subst o'. }
  apply (Permutation_cons_inv (a := AssertionEntry i o)). rewrite <- Hq, <- fmap_cons.
  apply fmap_Permutation. rewrite <- elements_union_singleton by set_solver.
  by rewrite <- union_difference_singleton_L.
Qed.

(** The instance of a client was changed. *)
Lemma shows_alter c n j inst cl inst' cl' :
  shows c n → nc_instances c !! j = Some inst → nt_clients n !! j = Some cl → shows_client j inst' cl' →
  ∀ f, f inst = inst' →
  shows (set_instances (alter f j (nc_instances c)) c) (Notifier (nt_latest n) (<[j := cl']> (nt_clients n))).
Proof.
  intros [Hl Hn Hc] Hi Hcl Hs f <-. split; simpl; [done|by rewrite length_alter, length_insert|].
  intros i inst2 cl2. rewrite list_lookup_alter. case_decide as Hij.
  - subst i. rewrite Hi. rewrite list_lookup_insert_eq by (by eapply lookup_lt_Some). by intros [= <-] [= <-].
  - rewrite list_lookup_insert_ne by congruence. apply Hc.
Qed.
(** ** A new block *)

(** The instances [insts] of [c] got empty trees in [c']; the others are as they
    were. *)
Record taken (insts : list nat) (c c' : context) : Prop := {
  tk_latest : nc_latest_block_id c' = nc_latest_block_id c;
  tk_length : length (nc_instances c') = length (nc_instances c);
  tk_flags : nc_quiesce c' = nc_quiesce c ∧ nc_terminate c' = nc_terminate c;
  tk_instance : ∀ i inst, nc_instances c !! i = Some inst →
    ∃ t, nc_instances c' !! i = Some (NotificationInstance (ni_caps inst) t) ∧
      (i ∈ insts → rbtree_elements t = []) ∧ (i ∉ insts → t = ni_assertions inst);
}.

Lemma take_assertions_does insts ts work c :
  NoDup insts →
  Forall2 (λ i t, ∃ inst, nc_instances c !! i = Some inst ∧ ni_assertions inst = t) insts ts →
  does [] (take_assertions insts work) c (λ r c', r = Ok (work ++ ts) ∧ taken insts c c').
Proof.
  intros Hnd Hts. revert c work Hnd Hts. revert ts. induction insts as [|i insts IH]; intros ts c work Hnd Hts.
  - inversion Hts. subst. apply does_done. rewrite app_nil_r. split; [done|]. split; try done.
    intros i [caps t] Hi. exists t. split_and!; [done|by intros ?%elem_of_nil|done].
  - apply NoDup_cons in Hnd as [Hi Hnd]. inversion Hts as [|? t ? ts' Hx Hts']. subst. cbn [take_assertions].
    destruct Hx as (inst&Hinst&Ht).
    eapply does_lib_bind; [apply sure_slist_child|]. cbn [negb Z.eqb].
    apply (does_bind _ _ _ (λ (r : Z * rbtree) c', r.1 = 0 ∧ rbtree_elements r.2 = [] ∧ c' = c)).
    { apply does_lib. intros w. destruct (law_tree_create w). done. }
    intros [rc tree] c' (Hrc&Htree&->). simpl in Hrc, Htree. subst rc. cbn [negb Z.eqb].
    apply (does_bind _ _ _ (λ r c', r = Some inst ∧ c' = c)); [by apply does_get|]. intros ? ? [-> ->].
    apply (does_bind _ _ _ (λ r c', c' = set_assertions i tree c)); [by apply does_update|]. intros [] ? ->.
    eapply does_lib_bind; [apply sure_slist_append|]. cbn [negb Z.eqb].
    eapply does_lib_bind; [apply sure_slist_next|]. cbn [negb Z.eqb].
    set (c1 := set_assertions i tree c).
    assert (∀ k, k ≠ i → nc_instances c1 !! k = nc_instances c !! k) as Hother.
    { intros k Hk. simpl. rewrite list_lookup_alter. by rewrite decide_False by congruence. }
    eapply does_mono; [apply (IH ts' c1); [done|]|].
    + assert (∀ k, k ∈ insts → k ≠ i) as Hne by (by intros k Hk ->).
      clear -Hts' Hne Hother. induction Hts' as [|k t insts ts (inst'&Hk&Ht) _ IH]; constructor.
      * exists inst'. rewrite Hother by (apply Hne; left). done.
      * apply IH. intros k' Hk'. apply Hne. by right.
    + intros r c' [-> [Hl Hn Hf Hc]]. rewrite Ht, <- (assoc_L (++)). split; [done|].
      split; [done|by rewrite Hn; simpl; rewrite length_alter|done|].
      intros k instk Hk. destruct (decide (k = i)) as [->|Hne].
      * rewrite Hinst in Hk. injection Hk as <-.
        destruct (Hc i (NotificationInstance (ni_caps inst) tree)) as (t'&Hk&_&Hsame).
        { simpl. rewrite list_lookup_alter, decide_True by done. by rewrite Hinst. }
        exists t'. split; [done|]. split; [intros _; by rewrite (Hsame Hi)|]. intros Hno. destruct Hno. left.
      * destruct (Hc k instk) as (t'&Hk'&H1&H2); [by rewrite Hother|]. exists t'. split; [done|]. split.
        -- intros [?|?]%elem_of_cons; [done|by apply H1].
        -- intros Hno. apply H2. intros ?. apply Hno. by right.
Qed.

(** All trees of the context, and the responses to their entries. *)
Lemma all_trees (c : context) :
  Forall2 (λ i t, ∃ inst, nc_instances c !! i = Some inst ∧ ni_assertions inst = t)
    (seq 0 (length (nc_instances c))) (ni_assertions <$> nc_instances c).
Proof.
  apply Forall2_same_length_lookup. split; [by rewrite length_seq, length_fmap|].
  intros k i t Hk Ht. apply lookup_seq in Hk as [-> Hlt]. apply list_lookup_fmap_Some in Ht as (inst&->&Hi).
  exists inst. done.
Qed.

Lemma invalidations_messages c n :
  shows c n →
  ((ni_assertions <$> nc_instances c) ≫= λ t, rbtree_elements t ≫= λ e, respond (ae_context e)
     AGENTD_NOTIFICATIONSERVICE_API_METHOD_ID_BLOCK_ASSERTION (ae_offset e) 0)
  = invalidations (nt_clients n).
Proof.
  intros [_ Hn Hc]. unfold invalidations.
  assert (∀ k insts cls, length insts = length cls →
    (∀ i inst cl, insts !! i = Some inst → cls !! i = Some cl → shows_client (k + i) inst cl) →
    ((ni_assertions <$> insts) ≫= λ t, rbtree_elements t ≫= λ e, respond (ae_context e)
       AGENTD_NOTIFICATIONSERVICE_API_METHOD_ID_BLOCK_ASSERTION (ae_offset e) 0)
    = concat (imap (λ i cl, offsets (cl_waiting cl) ≫= λ o,
        respond (k + i) AGENTD_NOTIFICATIONSERVICE_API_METHOD_ID_BLOCK_ASSERTION o 0) cls)) as H.
  { clear. intros k insts. revert k. induction insts as [|inst insts IH]; intros k [|cl cls] Hlen Hc; try done.
    rewrite fmap_cons, bind_cons, imap_cons. simpl concat. f_equal.
    - destruct (Hc 0%nat inst cl eq_refl eq_refl) as [_ ->].
      induction (offsets (cl_waiting cl)) as [|o l IHl]; [done|]. rewrite fmap_cons, !bind_cons, IHl. done.
    - rewrite (IH (S k) cls); [|by injection Hlen|].
      + f_equal. apply imap_ext. intros i x _. simpl. by rewrite Nat.add_succ_r.
      + intros i inst' cl' Hi Hcl. rewrite Nat.add_succ_comm. by apply (Hc (S i)). }
  exact (H 0%nat _ _ Hn Hc).
Qed.

Lemma invalidate_does c n :
  shows c n →
  does (packed (invalidations (nt_clients n))) (invalidate_assertions sz1) c (λ r c',
    r = 0 ∧ taken (seq 0 (length (nc_instances c))) c c').
Proof.
  intros Hs. unfold invalidate_assertions.
  eapply does_lib_bind; [apply sure_slist_create|]. cbn [negb Z.eqb].
  rewrite <- (app_nil_r (packed _)).
  eapply (does_then _ _ _ _ (λ r c', r = 0 ∧ taken (seq 0 (length (nc_instances c))) c c')).
  - eapply does_lib_bind; [apply sure_slist_head|]. cbn [negb Z.eqb].
    apply (does_bind _ _ _ (λ r c', r = c ∧ c' = c)); [by apply does_context|]. intros ? ? [-> ->].
    eapply does_bind; [apply (take_assertions_does _ (ni_assertions <$> nc_instances c)); [apply NoDup_seq|apply all_trees]|].
    intros r c' [-> Htk]. rewrite app_nil_l.
    eapply does_lib_bind; [apply sure_slist_head|]. cbn [negb Z.eqb].
    rewrite <- (invalidations_messages c n Hs).
    eapply does_mono; [apply owes_does, notify_trees_owes|]. intros ? ? [-> ->]. done.
  - intros r c' [-> Htk]. exists 0. split; [|done].
    eapply owes_lib_bind; [apply sure_release|]. apply owes_done.
Qed.

Lemma taken_shows c n id c' :
  shows c n → taken (seq 0 (length (nc_instances c))) c c' → nc_latest_block_id c = id →
  shows c' (Notifier id ((λ cl, Client (cl_caps cl) ∅) <$> nt_clients n)).
Proof.
  intros [Hl Hn Hc] [Hl' Hn' _ Hi] Hid. split; simpl; [congruence|by rewrite length_fmap, <- Hn|].
  intros i inst cl Hinst Hcl. apply list_lookup_fmap_Some in Hcl as (cl0&->&Hcl).
  destruct (lookup_lt_is_Some_2 (nc_instances c) i) as [inst0 H0].
  { apply lookup_lt_Some in Hinst. lia. }
  destruct (Hi i inst0 H0) as (t&Ht&He&_). rewrite Ht in Hinst. injection Hinst as <-.
  destruct (Hc i inst0 cl0 H0 Hcl) as [Hcaps _]. split; [done|]. simpl. rewrite He; [done|].
  apply elem_of_seq. apply lookup_lt_Some in H0. lia.
Qed.
(** ** The handlers *)

Abbreviation dispatch := (notificationservice_protocol_read_decode_and_dispatch_packet sz1 sz2).

(** The context shows [n], and the flags are those of [c]. *)
Definition left_as (c : context) (n : notifier) (c' : context) : Prop :=
  shows c' n ∧ nc_quiesce c' = nc_quiesce c ∧ nc_terminate c' = nc_terminate c.

Lemma left_refl c n : shows c n → left_as c n c.
Proof. done. Qed.

Lemma report_does l j m o p s c (P : context → Prop) :
  does l p c (λ r c', r = s ∧ P c') →
  does (l ++ packed (respond j m o s)) (pbind p (report_status sz1 j m o)) c (λ r c', r = s ∧ P c').
Proof.
  intros Hp. eapply does_then; [exact Hp|]. intros r c' [-> HP]. exists s. split; [apply report_status_owes|done].
Qed.

Lemma report_only j m o s c (P : context → Prop) :
  P c → does (packed (respond j m o s)) (report_status sz1 j m o s) c (λ r c', r = s ∧ P c').
Proof. intros HP. eapply does_mono; [apply owes_does, report_status_owes|]. by intros ? ? [-> ->]. Qed.

(** The handlers first look at the capability. *)
Lemma permitted_does c n j cl cap {A} l (f : bool → prog A) R :
  shows c n → nt_clients n !! j = Some cl →
  (∀ inst, nc_instances c !! j = Some inst → shows_client j inst cl →
     does l (f (BITCAP_ISSET (cl_caps cl) cap)) c R) →
  does l (pbind (permitted j cap) f) c R.
Proof.
  intros Hs Hcl Hf. destruct (lookup_lt_is_Some_2 (nc_instances c) j) as [inst Hi].
  { rewrite (sh_length _ _ Hs). by eapply lookup_lt_Some. }
  pose proof (sh_client _ _ Hs j inst cl Hi Hcl) as [Hcaps Ht].
  apply (does_bind _ _ _ (λ r c', r = BITCAP_ISSET (cl_caps cl) cap ∧ c' = c)).
  - unfold permitted. apply (does_bind _ _ _ (λ r c', r = Some inst ∧ c' = c)); [by apply does_get|].
    intros ? ? [-> ->]. apply does_done. by rewrite Hcaps.
  - intros ? ? [-> ->]. by eapply Hf.
Qed.

Lemma reduce_caps_does c n j cl q n' l s :
  shows c n → nt_clients n !! j = Some cl →
  nq_method_id q = AGENTD_NOTIFICATIONSERVICE_API_METHOD_ID_REDUCE_CAPS →
  serve DUP n j cl q = (n', l, s) →
  does (packed l) (notificationservice_protocol_dispatch_reduce_caps sz1 j (nq_offset q) (nq_payload q)) c
    (λ r c', r = s ∧ left_as c n' c').
Proof.
  intros Hs Hcl Hm Hserve. unfold serve in Hserve. rewrite Hm in Hserve. cbn [Z.eqb
    AGENTD_NOTIFICATIONSERVICE_API_METHOD_ID_REDUCE_CAPS] in Hserve.
  unfold notificationservice_protocol_dispatch_reduce_caps. eapply permitted_does; [done..|].
  intros inst Hi [Hcaps Ht]. destruct (BITCAP_ISSET _ _); cbn [negb] in *.
  2: { injection Hserve as <- <- <-. apply (report_does []). by apply does_done. }
  destruct (nq_payload q) as [payload|]; simpl default in Hserve;
    [|injection Hserve as <- <- <-; apply (report_does []); by apply does_done].
  change (4 * BITCAP NOTIFICATIONSERVICE_API_CAP_BITS_MAX)%nat with 4%nat.
  change (BITCAP NOTIFICATIONSERVICE_API_CAP_BITS_MAX) with 1%nat.
  destruct (length payload =? 4)%nat; cbn [negb] in *; injection Hserve as <- <- <-;
    apply (report_does []); [|by apply does_done].
  apply (does_bind _ _ _ (λ r c', r = Some inst ∧ c' = c)); [by apply does_get|]. intros ? ? [-> ->].
  apply (does_bind _ _ _ (λ _ c', left_as c (Notifier (nt_latest n) (<[j:=Client
    (BITCAP_INTERSECT (cl_caps cl) (caps_of_bytes 1 payload)) (cl_waiting cl)]> (nt_clients n))) c'));
    [|intros [] c' Hc'; by apply does_done].
  apply does_update. split; [|done]. eapply shows_alter; [done..| |reflexivity]. split; [|done].
  simpl. by rewrite Hcaps.
Qed.

Lemma block_update_does c n j cl q n' l s :
  shows c n → nt_clients n !! j = Some cl →
  nq_method_id q = AGENTD_NOTIFICATIONSERVICE_API_METHOD_ID_BLOCK_UPDATE →
  serve DUP n j cl q = (n', l, s) →
  does (packed l) (notificationservice_protocol_dispatch_block_update sz1 j (nq_offset q) (nq_payload q)) c
    (λ r c', r = s ∧ left_as c n' c').
Proof.
  intros Hs Hcl Hm Hserve. unfold serve in Hserve. rewrite Hm in Hserve. cbn [Z.eqb
    AGENTD_NOTIFICATIONSERVICE_API_METHOD_ID_REDUCE_CAPS AGENTD_NOTIFICATIONSERVICE_API_METHOD_ID_BLOCK_UPDATE]
    in Hserve.
  unfold notificationservice_protocol_dispatch_block_update. eapply permitted_does; [done..|].
  intros inst Hi [Hcaps Ht]. destruct (BITCAP_ISSET _ _); cbn [negb] in *.
  2: { injection Hserve as <- <- <-. apply (report_does []). by apply does_done. }
  destruct (nq_payload q) as [payload|]; simpl default in Hserve;
    [|injection Hserve as <- <- <-; apply (report_does []); by apply does_done].
  destruct (length payload =? 16)%nat; cbn [negb] in *; injection Hserve as <- <- <-;
    [|apply (report_does []); by apply does_done].
  rewrite packed_app. apply report_does.
  apply (does_bind _ _ _ (λ _ c', c' = set_latest payload c)); [by apply does_update|]. intros [] ? ->.
  assert (shows (set_latest payload c) (Notifier payload (nt_clients n))) as Hs1 by (destruct Hs; by split).
  eapply does_mono; [exact (invalidate_does _ _ Hs1)|]. intros r c' [-> Htk]. split; [done|].
  split; [|by destruct Htk as [_ _ [-> ->] _]]. exact (taken_shows _ _ payload c' Hs1 Htk eq_refl).
Qed.

Lemma assertion_does c n j cl q n' l s :
  shows c n → nt_clients n !! j = Some cl →
  nq_method_id q = AGENTD_NOTIFICATIONSERVICE_API_METHOD_ID_BLOCK_ASSERTION →
  serve DUP n j cl q = (n', l, s) →
  does (packed l) (notificationservice_protocol_dispatch_block_assertion sz1 sz2 j (nq_offset q) (nq_payload q)) c
    (λ r c', r = s ∧ left_as c n' c').
Proof.
  intros Hs Hcl Hm Hserve. unfold serve in Hserve. rewrite Hm in Hserve. cbn [Z.eqb
    AGENTD_NOTIFICATIONSERVICE_API_METHOD_ID_REDUCE_CAPS AGENTD_NOTIFICATIONSERVICE_API_METHOD_ID_BLOCK_UPDATE
    AGENTD_NOTIFICATIONSERVICE_API_METHOD_ID_BLOCK_ASSERTION Pos.eqb] in Hserve.
  unfold notificationservice_protocol_dispatch_block_assertion. eapply permitted_does; [done..|].
  intros inst Hi [Hcaps Ht]. cbv zeta. destruct (BITCAP_ISSET _ _); cbn [negb] in *.
  2: { injection Hserve as <- <- <-. by apply report_only. }
  set (payload := default [] (nq_payload q)) in *.
  destruct (length payload =? 16)%nat; cbn [negb] in *; [|injection Hserve as <- <- <-; by apply report_only].
  apply (does_bind _ _ _ (λ r c', r = c ∧ c' = c)); [by apply does_context|]. intros ? ? [-> ->].
  assert ((uuid_memcmp payload (nc_latest_block_id c) =? 0) = bool_decide (payload = nt_latest n)) as ->.
  { rewrite (sh_latest _ _ Hs). case_bool_decide as Hd; [by apply Z.eqb_eq, law_memcmp|].
    apply Z.eqb_neq. intros H. by apply Hd, law_memcmp. }
  destruct (bool_decide (payload = nt_latest n)); cbn [negb] in *;
    [|injection Hserve as <- <- <-; by apply report_only].
  case_bool_decide as Ho; injection Hserve as <- <- <-.
  - (* the offset is already there *)
    apply (does_bind _ _ _ (λ r c', r = DUP ∧ c' = c)).
    2: { intros ? ? [-> ->]. rewrite (proj2 (Z.eqb_neq _ _) law_duplicate_code). by apply report_only. }
    unfold notificationservice_assertion_entry_add.
    apply (does_bind _ _ _ (λ (r : Z * bytes) c', r.1 = 0 ∧ c' = c)).
    { apply does_lib. intros w. split; [apply sure_allocate|done]. }
    intros [rc b] ? [Hrc ->]. simpl in Hrc. subst rc. cbn [negb Z.eqb].
    apply (does_bind _ _ _ (λ r c', r = Some inst ∧ c' = c)); [by apply does_get|]. intros ? ? [-> ->].
    apply (does_bind _ _ _ (λ (r : Z * rbtree) c', r.1 = DUP ∧ c' = c)).
    { apply does_lib. intros w. split; [|done]. apply law_tree_duplicate.
      rewrite Ht, keys_of_elements. by apply elem_of_offsets. }
    intros [rc t] ? [Hrc ->]. simpl in Hrc. subst rc. rewrite (proj2 (Z.eqb_neq _ _) law_duplicate_code). cbn [negb].
    eapply does_lib_bind; [apply sure_reclaim|]. by apply does_done.
  - (* it waits *)
    set (n' := Notifier _ _). unfold notificationservice_assertion_entry_add.
    apply (does_bind _ _ _ (λ r c', r = 0 ∧ left_as c n' c')).
    2: { intros ? ? [-> Hl]. by apply does_done. }
    apply (does_bind _ _ _ (λ (r : Z * bytes) c', r.1 = 0 ∧ c' = c)).
    { apply does_lib. intros w. split; [apply sure_allocate|done]. }
    intros [rc b] ? [Hrc ->]. simpl in Hrc. subst rc. cbn [negb Z.eqb].
    apply (does_bind _ _ _ (λ r c', r = Some inst ∧ c' = c)); [by apply does_get|]. intros ? ? [-> ->].
    apply (does_bind _ _ _ (λ (r : Z * rbtree) c',
      r.1 = 0 ∧ rbtree_elements r.2 = AssertionEntry j <$> offsets ({[nq_offset q]} ∪ cl_waiting cl) ∧ c' = c)).
    { apply does_lib. intros w. destruct (elements_insert j (ni_assertions inst) (nq_offset q) (cl_waiting cl) w Ht Ho).
      done. }
    intros [rc t] ? (Hrc&Ht'&->). simpl in Hrc, Ht'. subst rc. cbn [negb Z.eqb].
    apply (does_bind _ _ _ (λ _ c', left_as c n' c')); [|intros [] c' Hc'; by apply does_done].
    apply does_update. split; [|done]. eapply shows_alter; [done..| |reflexivity]. by split.
Qed.

Lemma cancel_does c n j cl q n' l s :
  shows c n → nt_clients n !! j = Some cl →
  nq_method_id q = AGENTD_NOTIFICATIONSERVICE_API_METHOD_ID_BLOCK_ASSERTION_CANCEL →
  serve DUP n j cl q = (n', l, s) →
  does (packed l) (notificationservice_protocol_dispatch_block_assertion_cancel sz1 j (nq_offset q) (nq_payload q)) c
    (λ r c', r = s ∧ left_as c n' c').
Proof.
  intros Hs Hcl Hm Hserve. unfold serve in Hserve. rewrite Hm in Hserve. cbn [Z.eqb
    AGENTD_NOTIFICATIONSERVICE_API_METHOD_ID_REDUCE_CAPS AGENTD_NOTIFICATIONSERVICE_API_METHOD_ID_BLOCK_UPDATE
    AGENTD_NOTIFICATIONSERVICE_API_METHOD_ID_BLOCK_ASSERTION
    AGENTD_NOTIFICATIONSERVICE_API_METHOD_ID_BLOCK_ASSERTION_CANCEL Pos.eqb] in Hserve.
  unfold notificationservice_protocol_dispatch_block_assertion_cancel. eapply permitted_does; [done..|].
  intros inst Hi [Hcaps Ht]. destruct (BITCAP_ISSET _ _); cbn [negb] in *.
  2: { injection Hserve as <- <- <-. apply (report_does []). by apply does_done. }
  destruct (length (default [] (nq_payload q)) =? 0)%nat; cbn [negb] in *; injection Hserve as <- <- <-;
    apply (report_does []); [|by apply does_done].
  set (n' := Notifier _ _).
  apply (does_bind _ _ _ (λ r c', r = Some inst ∧ c' = c)); [by apply does_get|]. intros ? ? [-> ->].
  apply (does_bind _ _ _ (λ (r : Z * rbtree) c', (r.1 = 0 ∨ r.1 = ERROR_RBTREE_NOT_FOUND) ∧
    rbtree_elements r.2 = AssertionEntry j <$> offsets (cl_waiting cl ∖ {[nq_offset q]}) ∧ c' = c)).
  { apply does_lib. intros w. destruct (decide (nq_offset q ∈ cl_waiting cl)) as [Ho|Ho].
    - destruct (elements_delete j (ni_assertions inst) (nq_offset q) (cl_waiting cl) w Ht Ho) as [-> ->]. auto.
    - rewrite law_tree_not_found by (rewrite Ht, keys_of_elements, elem_of_offsets; done). simpl.
      split; [auto|]. split; [|done]. rewrite Ht. do 2 f_equal. set_solver. }
  intros [rc t] ? (Hrc&Ht'&->). simpl in Hrc, Ht'.
  apply (does_bind _ _ _ (λ _ c', left_as c n' c')).
  - apply does_update. split; [|done]. eapply shows_alter; [done..| |reflexivity]. by split.
  - intros [] c' Hc'. destruct Hrc as [->| ->]; rewrite ?Z.eqb_refl, ?andb_false_r; by apply does_done.
Qed.

Lemma dispatch_does c n j cl buf q n' l s :
  shows c n → nt_clients n !! j = Some cl →
  notificationservice_api_decode_request buf = Ok q → serve DUP n j cl q = (n', l, s) →
  does (packed l) (dispatch j (0, buf)) c (λ r c', r = s ∧ left_as c n' c').
Proof.
  intros Hs Hcl Hd Hserve. unfold notificationservice_protocol_read_decode_and_dispatch_packet.
  cbn [negb Z.eqb]. rewrite Hd. cbv zeta. rewrite <- (app_nil_r (packed l)).
  eapply (does_then _ _ _ _ (λ r c', r = s ∧ left_as c n' c')).
  2: { intros ? c' [-> Hc']. exists s. split; [|done]. eapply owes_lib_bind; [apply sure_reclaim|]. apply owes_done. }
  destruct (Z.eqb_spec (nq_method_id q) AGENTD_NOTIFICATIONSERVICE_API_METHOD_ID_REDUCE_CAPS) as [E0|E0];
    [by eapply reduce_caps_does|].
  destruct (Z.eqb_spec (nq_method_id q) AGENTD_NOTIFICATIONSERVICE_API_METHOD_ID_BLOCK_UPDATE) as [E1|E1];
    [by eapply block_update_does|].
  destruct (Z.eqb_spec (nq_method_id q) AGENTD_NOTIFICATIONSERVICE_API_METHOD_ID_BLOCK_ASSERTION) as [E2|E2];
    [by eapply assertion_does|].
  destruct (Z.eqb_spec (nq_method_id q) AGENTD_NOTIFICATIONSERVICE_API_METHOD_ID_BLOCK_ASSERTION_CANCEL) as [E3|E3];
    [by eapply cancel_does|].
  unfold serve in Hserve. cbv zeta in Hserve. rewrite !(proj2 (Z.eqb_neq _ _)) in Hserve by done.
  injection Hserve as <- <- <-. rewrite <- (app_nil_r (packed _)).
  eapply does_then; [apply owes_does, send_response_owes|]. intros ? ? [-> ->].
  eexists. split; [apply owes_done|]. by split.
Qed.

Lemma dispatch_garbage c j buf e :
  notificationservice_api_decode_request buf = Err e →
  does [] (dispatch j (0, buf)) c (λ r c', r = e ∧ c' = c).
Proof.
  intros Hd. unfold notificationservice_protocol_read_decode_and_dispatch_packet. cbn [negb Z.eqb]. rewrite Hd.
  apply (does_bind _ _ _ (λ r c', r = e ∧ c' = c)); [by apply does_done|]. intros ? ? [-> ->].
  eapply does_lib_bind; [apply sure_reclaim|]. by apply does_done.
Qed.
End programs.
