(* ===== verification/NotificationRefine.v ===== *)
(** * The notification service refines the abstract notifier

    A simulation between the interleaved fibers and [serves], and what it gives:
    the messages each client gets, and the assertions that wait. *)

From S2P Require Import Prelude Inet StatusCodes Contexts Lmdb RequestCodec RequestSpec Ipc ClientApi NotificationCodec NotificationService NotificationSpec.

(** The messages that were sent to a client. *)
Definition sent_to (i : nat) (tr : list event) : list bytes :=
  omap (λ e, match e with ev_message a msg => if (a =? i)%nat then Some msg else None | _ => None end) tr.

Lemma sent_to_app i t1 t2 : sent_to i (t1 ++ t2) = sent_to i t1 ++ sent_to i t2.
Proof. apply omap_app. Qed.

Section simulation.
Context {W : Type} {RC : RCPR W} {RA : RCPR_ALLOCATOR W} {PS : PSOCK W} {RAL : RCPR_ALLOCATOR_laws W}.
Context {DUP : Z} {RR : RCPR_reliable W DUP}.
Context (sz1 sz2 : nat).

Abbreviation steps := (steps (W := W) sz1 sz2).
Abbreviation dispatch := (notificationservice_protocol_read_decode_and_dispatch_packet sz1 sz2).

(** A fiber that is blocked owes exactly what the worker still has to answer. *)
Definition fiber_sim (f : fiber (W := W)) (v : worker) : Prop :=
  match f, v with
  | Reading, w_reading => True
  | Blocked addr msg k, w_answering l s =>
      ∃ l', packed l = (addr, msg) :: l' ∧ owes l' s (k 0)
  | Ended s, w_ended s' => s = s'
  | _, _ => False
  end.

Record sim (c : config (W := W)) (a : notifier_state) : Prop := {
  sim_shows : shows (cf_context c) (as_notifier a);
  sim_flags : nc_quiesce (cf_context c) = as_quiesce a ∧ nc_terminate (cf_context c) = false;
  sim_fibers : Forall2 fiber_sim (cf_fibers c) (as_workers a);
  sim_length : length (as_workers a) = length (nt_clients (as_notifier a));
}.

(** What a fiber does is what its worker does. *)
Lemma resume_sim c a j (p : prog Z) n l s :
  sim c a → length (nt_clients n) = length (nt_clients (as_notifier a)) →
  does (packed l) p (cf_context c) (λ r c', r = s ∧ left_as (cf_context c) n c') →
  sim (resume j p c)
    (NotifierState n (as_quiesce a) (<[j := settle (as_quiesce a) l s]> (as_workers a))).
Proof.
  intros [Hs [Hq Ht] Hf Hn] Hlen Hp. destruct (Hp (cf_world c)) as (r&c'&[-> (Hs'&Hq'&Ht')]&Hrun).
  assert (∃ w' r', run_prog p (cf_context c, cf_world c) = (r', (c', w')) ∧
            fiber_sim (fiber_after c' r') (settle (as_quiesce a) l s)) as (w'&r'&E&Hr').
  { destruct l as [|x l].
    - destruct Hrun as [w' E]. exists w', (inl s). split; [done|]. simpl. rewrite Hq', Ht', Hq, Ht, orb_false_r.
      destruct (s =? 0); simpl; [by destruct (as_quiesce a)|done].
    - simpl in Hrun. destruct Hrun as (k&w'&E&Hk). eexists w', (inr (_, _, k)). split; [exact E|].
      simpl. eexists. split; [reflexivity|done]. }
  unfold resume. rewrite E. split; simpl.
  - done.
  - by rewrite Hq', Ht'.
  - by apply Forall2_insert.
  - by rewrite length_insert, Hn.
Qed.

Lemma serve_length n j cl q n' l s :
  serve DUP n j cl q = (n', l, s) → length (nt_clients n') = length (nt_clients n).
Proof.
  unfold serve. cbv zeta. intros H. repeat case_match; simplify_eq/=; rewrite ?length_insert, ?length_fmap; done.
Qed.

Lemma fibers_lookup c a j f :
  sim c a → cf_fibers c !! j = Some f → ∃ v, as_workers a !! j = Some v ∧ fiber_sim f v.
Proof. intros Hs Hf. destruct (Forall2_lookup_l _ _ _ _ _ (sim_fibers _ _ Hs) Hf) as (v&?&?). eauto. Qed.

Lemma step_sim c a t c' :
  sim c a → step sz1 sz2 c t c' → ev_failure ∉ t → ∃ a', serves DUP a t a' ∧ sim c' a'.
Proof.
  intros Hs Hstep Ht. destruct Hstep as [c j buf Hf|c j rc Hf|c j addr msg k Hf|c j addr msg k rc Hf|c i msg l Hm|c];
    try (by destruct Ht; left).
  - destruct (fibers_lookup _ _ _ _ Hs Hf) as ([]&Hw&Hv); try done.
    destruct (lookup_lt_is_Some_2 (nt_clients (as_notifier a)) j) as [cl Hcl].
    { rewrite <- (sim_length _ _ Hs). by eapply lookup_lt_Some. }
    destruct (notificationservice_api_decode_request buf) as [q|e] eqn:Hd.
    + destruct (serve DUP (as_notifier a) j cl q) as [[n l] s] eqn:Hserve.
      eexists. split; [by eapply serves_request|].
      apply resume_sim; [done|by eapply serve_length|]. eapply dispatch_does; [apply Hs|done..].
    + eexists. split; [by eapply serves_garbage|].
      assert (w_ended e = settle (as_quiesce a) [] e) as ->.
      { simpl. unfold notificationservice_api_decode_request in Hd. revert Hd. case_match; [intros [= <-]; done|done]. }
      apply resume_sim; [done|done|]. eapply does_mono; [by apply dispatch_garbage|].
      intros ? ? [-> ->]. split; [done|]. apply left_refl, Hs.
  - destruct (fibers_lookup _ _ _ _ Hs Hf) as (v&Hw&Hv). destruct v as [|l s|]; try done.
    destruct Hv as (l'&Hl&Ho). destruct l as [|[i r] l]; [done|]. simpl in Hl. injection Hl as <- <- <-.
    eexists. split; [by eapply serves_response|].
    set (c1 := Config _ _ _ _ _). assert (sim c1 a) as Hs1 by (destruct Hs; by split).
    apply (resume_sim c1 a); [done|done|]. eapply does_mono; [by apply owes_does|].
    intros ? ? [-> ->]. split; [done|]. apply left_refl, Hs1.
  - eexists. split; [apply serves_nothing|]. destruct Hs. by split.
  - eexists. split; [apply serves_quiesce|]. destruct Hs as [[Hl Hn Hc] [_ Ht'] Hf Hlen]. split; [|done|done|done].
    by split.
Qed.

(** ** The start *)

Lemma start_context (trees : list rbtree) :
  foldl notificationservice_context_add_instance notificationservice_context_create
    (notificationservice_instance_create <$> trees)
  = NotificationContext (memset Byte.x00 16) (notificationservice_instance_create <$> trees) false false.
Proof.
  assert (∀ c insts, foldl notificationservice_context_add_instance c insts
    = set_instances (nc_instances c ++ insts) c) as H.
  { intros c insts. revert c. induction insts as [|x insts IH]; intros c; simpl.
    - rewrite app_nil_r. by destruct c.
    - rewrite IH. simpl. rewrite <- (assoc_L (++)). done. }
  by rewrite H.
Qed.

Lemma start_sim (trees : list rbtree) w :
  Forall (λ t, rbtree_elements t = []) trees →
  sim (notificationservice_start trees w) (notifier_start (length trees)).
Proof.
  intros Htrees. unfold notificationservice_start. rewrite start_context. split; simpl.
  - split; simpl; [done|by rewrite length_fmap, length_replicate|].
    intros i inst cl Hi Hcl. apply list_lookup_fmap_Some in Hi as (t&->&Hi).
    apply lookup_replicate in Hcl as [-> _]. split; [done|]. simpl. by eapply Forall_lookup_1 in Htrees.
  - done.
  - apply Forall2_replicate. done.
  - by rewrite !length_replicate.
Qed.

(** ** The mailboxes *)

Definition delivered (c : config (W := W)) (tr : list event) : Prop :=
  length (cf_written c) = length (cf_mail c) ∧
  ∀ i x l, cf_written c !! i = Some x → cf_mail c !! i = Some l → x ++ l = sent_to i tr.

Lemma step_delivered c tr t c' : delivered c tr → step sz1 sz2 c t c' → delivered c' (tr ++ t).
Proof.
  intros [Hlen Hd] Hstep. assert (∀ c1 j p, delivered c1 (tr ++ t) → delivered (resume j p c1) (tr ++ t)) as Hresume.
  { intros c1 j p [H1 H2]. unfold resume. destruct (run_prog _ _) as [r [ctx w]]. by split. }
  destruct Hstep as [c j buf|c j rc|c j addr msg k|c j addr msg k rc|c i msg l Hm|c]; try apply Hresume.
  - split; [done|]. intros i x l Hx Hl. rewrite sent_to_app. simpl. rewrite app_nil_r. by apply Hd.
  - split; [done|]. intros i x l Hx Hl. rewrite sent_to_app. simpl. rewrite app_nil_r. by apply Hd.
  - split; [by simpl; rewrite length_alter|]. intros i x l Hx. simpl. rewrite list_lookup_alter, sent_to_app. simpl.
    destruct (decide (addr = i)) as [->|Hne].
    + rewrite Nat.eqb_refl. intros (l'&Hl&->)%fmap_Some. rewrite (assoc_L (++)). f_equal. by apply Hd.
    + rewrite (proj2 (Nat.eqb_neq addr i)) by congruence. simpl. rewrite app_nil_r. by apply Hd.
  - split; [done|]. intros i x l Hx Hl. rewrite sent_to_app. simpl. rewrite app_nil_r. by apply Hd.
  - split; [by simpl; rewrite length_alter, length_insert|]. intros k x l' Hx Hl. rewrite app_nil_r. simpl in *.
    rewrite list_lookup_alter in Hx. rewrite list_lookup_insert in Hl.
    destruct (decide (i = k)) as [->|Hne].
    + apply fmap_Some in Hx as (x'&Hx&->). rewrite decide_True in Hl by (split; [done|by eapply lookup_lt_Some]).
      injection Hl as <-. rewrite <- (assoc_L (++)). by apply Hd.
    + rewrite decide_False in Hl by naive_solver. by apply Hd.
  - rewrite app_nil_r. by split.
Qed.

Lemma notification_simulated trees w tr c :
  Forall (λ t, rbtree_elements t = []) trees →
  steps (notificationservice_start trees w) tr c → ev_failure ∉ tr →
  ∃ a, serves_all DUP (notifier_start (length trees)) tr a ∧ sim c a ∧ delivered c tr.
Proof.
  intros Htrees Hsteps. remember (notificationservice_start trees w) as c0 eqn:E.
  induction Hsteps as [c|c1 t1 c2 t2 c3 Hsteps IH Hstep]; subst; intros Hok.
  - exists (notifier_start (length trees)). split; [constructor|]. split; [by apply start_sim|].
    split; simpl; [done|]. by intros i x l [-> _]%lookup_replicate [-> _]%lookup_replicate.
  - rewrite elem_of_app in Hok. destruct IH as (a&Ha&Hs&Hd); [done|naive_solver|].
    destruct (step_sim _ _ _ _ Hs Hstep) as (a'&Ha'&Hs'); [naive_solver|].
    exists a'. split; [by eapply serves_step|]. split; [done|]. by eapply step_delivered.
Qed.
(** C8: Suppose that the trees, lists and memory of the RCPR library do what is asked
    of them ([RCPR_reliable]), that the assertion trees are empty at the start, and
    that no call that reads a packet from a client or sends a message to a mailbox
    fails ([ev_failure] is not in the trace; so no client disconnects in the
    execution). Then every such execution of the notification service, however its
    fibers are interleaved and whatever packets the clients send, is a behaviour of
    the abstract notifier, which serves each request in a single step: it reads the
    same packets and sends the same messages to the same clients in the same order.
    Its capabilities, latest block and waiting assertions are those of the shared
    context at every moment, a blocked fiber has exactly the messages of its worker
    left to send, and what a client has been written, followed by what is in its
    mailbox, is what was sent to it, in order. *)
Theorem notification_refines trees w tr c :
  Forall (λ t, rbtree_elements t = []) trees →
  steps (notificationservice_start trees w) tr c → ev_failure ∉ tr →
  ∃ a, serves_all DUP (notifier_start (length trees)) tr a ∧ sim c a ∧ delivered c tr.
Proof. apply notification_simulated. Qed.
End simulation.

(** ** Counting *)

Section counting.
Context (DUP : Z).

(** The assertions of client [i] with offset [o] that were read, their
    cancellations, and the responses to them. *)
Definition requests (m : Z) (i : nat) (o : Z) (e : event) : bool :=
  match e with
  | ev_packet j buf =>
      (j =? i)%nat &&
      match notificationservice_api_decode_request buf with
      | Ok q => (nq_method_id q =? m) && (nq_offset q =? o)
      | Err _ => false
      end
  | _ => false
  end.
Definition asks := requests AGENTD_NOTIFICATIONSERVICE_API_METHOD_ID_BLOCK_ASSERTION.
Definition cancels := requests AGENTD_NOTIFICATIONSERVICE_API_METHOD_ID_BLOCK_ASSERTION_CANCEL.

Definition is_answer (i : nat) (o : Z) (x : nat * notification_response) : bool :=
  (x.1 =? i)%nat && ((np_method_id x.2 =? AGENTD_NOTIFICATIONSERVICE_API_METHOD_ID_BLOCK_ASSERTION)
                     && (np_offset x.2 =? o)).
Definition answers (i : nat) (o : Z) (e : event) : bool :=
  match e with
  | ev_message a msg =>
      match notificationservice_api_decode_response msg with
      | Ok r => is_answer i o (a, r)
      | Err _ => false
      end
  | _ => false
  end.

Definition count {A} (f : A → bool) (l : list A) : nat := length (filter f l).

Lemma count_app {A} (f : A → bool) l1 l2 : count f (l1 ++ l2) = (count f l1 + count f l2)%nat.
Proof. unfold count. by rewrite filter_app, length_app. Qed.
Lemma count_cons {A} (f : A → bool) x l : count f (x :: l) = (Nat.b2n (f x) + count f l)%nat.
Proof. unfold count. rewrite filter_cons. by destruct (f x). Qed.
Lemma count_nil {A} (f : A → bool) : count f [] = 0%nat.
Proof. done. Qed.

Definition due (i : nat) (o : Z) (v : worker) : nat :=
  match v with w_answering l _ => count (is_answer i o) l | _ => 0 end.
Definition waits (n : notifier) (i : nat) (o : Z) : nat :=
  match nt_clients n !! i with Some cl => if decide (o ∈ cl_waiting cl) then 1 else 0 | None => 0 end.

Lemma due_settle i o b l s : due i o (settle b l s) = count (is_answer i o) l.
Proof. destruct l; simpl; [|done]. by repeat case_match. Qed.

Lemma sum_insert (f : worker → nat) ws j v v' :
  ws !! j = Some v →
  (sum_list_with f (<[j := v']> ws) + f v = sum_list_with f ws + f v')%nat.
Proof.
  intros Hv. rewrite <- (take_drop_middle _ _ _ Hv) at 2. rewrite insert_take_drop by (by eapply lookup_lt_Some).
  rewrite !sum_list_with_app. simpl. lia.
Qed.

(** ** Serving a request *)

Lemma count_respond i o j m o' s :
  count (is_answer i o) (respond j m o' s)
  = Nat.b2n ((j =? i)%nat && ((m =? AGENTD_NOTIFICATIONSERVICE_API_METHOD_ID_BLOCK_ASSERTION) && (o' =? o))).
Proof. unfold respond. rewrite count_cons. simpl. by rewrite Nat.add_0_r. Qed.

Lemma count_offsets i k o l :
  NoDup l →
  count (is_answer i o) (l ≫= λ o',
    respond k AGENTD_NOTIFICATIONSERVICE_API_METHOD_ID_BLOCK_ASSERTION o' 0)
  = if decide (k = i ∧ o ∈ l) then 1%nat else 0%nat.
Proof.
  induction 1 as [|o' l Ho Hnd IH]; [by rewrite decide_False by (by intros [_ ?%elem_of_nil])|].
  rewrite bind_cons, count_app, IH, count_respond, Z.eqb_refl. cbn [andb].
  destruct (Nat.eqb_spec k i) as [->|Hk]; cbn [andb Nat.b2n].
  2: { rewrite !decide_False by naive_solver. done. }
  destruct (Z.eqb_spec o' o) as [->|Hne]; cbn [Nat.b2n].
  - rewrite decide_False by naive_solver. by rewrite decide_True by (split; [done|left]).
  - destruct (decide (i = i ∧ o ∈ l)) as [[_ Hin]|Hin].
    + by rewrite decide_True by (split; [done|by right]).
    + rewrite decide_False; [done|]. intros [_ [->|?]%elem_of_cons]; [done|]. by apply Hin.
Qed.

Lemma count_invalidations n i o :
  count (is_answer i o) (invalidations (nt_clients n)) = waits n i o.
Proof.
  unfold invalidations, waits. generalize (nt_clients n). intros cls.
  assert (∀ k, count (is_answer i o) (concat (imap (λ x cl, offsets (cl_waiting cl) ≫= λ o',
      respond (k + x) AGENTD_NOTIFICATIONSERVICE_API_METHOD_ID_BLOCK_ASSERTION o' 0) cls))
    = if decide (k ≤ i)%nat then
        match cls !! (i - k)%nat with Some cl => if decide (o ∈ cl_waiting cl) then 1%nat else 0%nat | None => 0%nat end
      else 0%nat) as H.
  { induction cls as [|cl cls IH]; intros k; [by case_decide|]. rewrite imap_cons. simpl concat. rewrite count_app.
    rewrite count_offsets by (rewrite (offsets_perm (cl_waiting cl)); apply NoDup_elements).
    replace (imap _ cls) with (imap (λ x cl, offsets (cl_waiting cl) ≫= λ o',
      respond (S k + x) AGENTD_NOTIFICATIONSERVICE_API_METHOD_ID_BLOCK_ASSERTION o' 0) cls).
    2: { apply imap_ext. intros x y _. simpl. by rewrite Nat.add_succ_r. }
    rewrite IH, Nat.add_0_r. destruct (decide (k = i)) as [->|Hki].
    - rewrite (decide_False (P := (S i ≤ i)%nat)) by lia. rewrite (decide_True (P := (i ≤ i)%nat)) by lia.
      rewrite Nat.sub_diag. simpl. rewrite Nat.add_0_r.
      apply decide_ext. rewrite elem_of_offsets. naive_solver.
    - rewrite (decide_False (P := (k = i ∧ _))) by naive_solver. simpl. destruct (decide (k ≤ i)%nat) as [Hle|Hle].
      + rewrite decide_True by lia. replace (i - k)%nat with (S (i - S k)) by lia. done.
      + by rewrite decide_False by lia. }
  specialize (H 0%nat). rewrite decide_True, Nat.sub_0_r in H by lia. exact H.
Qed.

Lemma waits_insert n j cl cl' i o :
  nt_clients n !! j = Some cl →
  waits (Notifier (nt_latest n) (<[j:=cl']> (nt_clients n))) i o
  = if decide (j = i) then (if decide (o ∈ cl_waiting cl') then 1%nat else 0%nat) else waits n i o.
Proof.
  intros Hcl. unfold waits. cbn [nt_clients]. destruct (decide (j = i)) as [->|Hne].
  - by rewrite list_lookup_insert_eq by (by eapply lookup_lt_Some).
  - by rewrite list_lookup_insert_ne by done.
Qed.

(** A request adds one assertion to those that wait or are to be answered, and
    takes away at most the one it cancels. *)
Lemma serve_count n j cl buf q n' l s i o :
  nt_clients n !! j = Some cl → notificationservice_api_decode_request buf = Ok q →
  serve DUP n j cl q = (n', l, s) →
  let a := Nat.b2n (asks i o (ev_packet j buf)) in
  let c := Nat.b2n (cancels i o (ev_packet j buf)) in
  (count (is_answer i o) l + waits n' i o ≤ waits n i o + a ∧
   waits n i o + a ≤ count (is_answer i o) l + waits n' i o + c)%nat.
Proof.
  intros Hcl Hd Hserve. cbv zeta. unfold asks, cancels, requests. rewrite Hd.
  assert (∀ l' s', l' = respond j (nq_method_id q) (nq_offset q) s' →
    count (is_answer i o) l' = Nat.b2n ((j =? i)%nat &&
      ((nq_method_id q =? AGENTD_NOTIFICATIONSERVICE_API_METHOD_ID_BLOCK_ASSERTION) && (nq_offset q =? o)))) as Hr.
  { intros l' s' ->. apply count_respond. }
  unfold serve in Hserve. cbv zeta in Hserve.
  destruct (Z.eqb_spec (nq_method_id q) AGENTD_NOTIFICATIONSERVICE_API_METHOD_ID_REDUCE_CAPS) as [E|E].
  { rewrite E in *. repeat case_match; simplify_eq; rewrite ?(Hr _ _ eq_refl), ?(waits_insert _ _ _ _ _ _ Hcl); simpl;
      rewrite ?andb_false_r; simpl; [lia|lia|]. case_decide as Hji; [|lia]. subst j. unfold waits. rewrite Hcl. lia. }
  destruct (Z.eqb_spec (nq_method_id q) AGENTD_NOTIFICATIONSERVICE_API_METHOD_ID_BLOCK_UPDATE) as [E1|E1].
  { rewrite E1 in *. repeat case_match; simplify_eq; rewrite ?count_app, ?(Hr _ _ eq_refl); simpl;
      rewrite ?andb_false_r; simpl; [lia|lia|]. rewrite count_invalidations.
    assert (waits (Notifier (default [] (nq_payload q)) ((λ cl, Client (cl_caps cl) ∅) <$> nt_clients n)) i o = 0%nat) as ->.
    { unfold waits. simpl. rewrite list_lookup_fmap. by destruct (nt_clients n !! i). }
    lia. }
  destruct (Z.eqb_spec (nq_method_id q) AGENTD_NOTIFICATIONSERVICE_API_METHOD_ID_BLOCK_ASSERTION) as [E2|E2].
  { rewrite E2 in *. destruct (BITCAP_ISSET _ _); simpl in Hserve; [|injection Hserve as <- <- <-; rewrite (Hr _ _ eq_refl); lia].
    destruct (_ =? 16)%nat; simpl in Hserve; [|injection Hserve as <- <- <-; rewrite (Hr _ _ eq_refl); lia].
    destruct (bool_decide (_ = nt_latest n)); simpl in Hserve; [|injection Hserve as <- <- <-; rewrite (Hr _ _ eq_refl); lia].
    case_bool_decide as Ho; simpl in Hserve; injection Hserve as <- <- <-; [rewrite (Hr _ _ eq_refl); lia|].
    rewrite count_nil, (waits_insert _ _ _ _ _ _ Hcl).
    simpl.
    destruct (Nat.eqb_spec j i) as [->|Hji]; [rewrite decide_True by done|rewrite decide_False by done; simpl; lia].
    assert (waits n i o = if decide (o ∈ cl_waiting cl) then 1%nat else 0%nat) as -> by (unfold waits; by rewrite Hcl).
    destruct (Z.eqb_spec (nq_offset q) o) as [<-|Hoo]; simpl.
    - rewrite decide_True by set_solver. rewrite decide_False by done. lia.
    - rewrite (decide_ext _ (o ∈ cl_waiting cl)) by set_solver. lia. }
  destruct (Z.eqb_spec (nq_method_id q) AGENTD_NOTIFICATIONSERVICE_API_METHOD_ID_BLOCK_ASSERTION_CANCEL) as [E3|E3].
  { rewrite E3 in *. repeat case_match; simplify_eq; rewrite ?(Hr _ _ eq_refl), ?(waits_insert _ _ _ _ _ _ Hcl); simpl;
      rewrite ?andb_false_r; simpl; [lia|lia|]. destruct (Nat.eqb_spec j i) as [->|Hji];
      [rewrite decide_True by done|rewrite decide_False by done; simpl; lia].
    assert (waits n i o = if decide (o ∈ cl_waiting cl) then 1%nat else 0%nat) as -> by (unfold waits; by rewrite Hcl).
    destruct (Z.eqb_spec (nq_offset q) o) as [<-|Hoo]; simpl.
    - rewrite decide_False by set_solver. case_decide; lia.
    - rewrite (decide_ext _ (o ∈ cl_waiting cl)) by set_solver. lia. }
  injection Hserve as <- <- <-. rewrite (Hr _ _ eq_refl). simpl. rewrite !andb_false_r. simpl. lia.
Qed.
(** ** What holds of every behaviour *)

Lemma decode_notification_wf buf q :
  notificationservice_api_decode_request buf = Ok q → u32 (nq_method_id q) ∧ u64 (nq_offset q).
Proof.
  unfold notificationservice_api_decode_request. case_match; [done|]. intros [= <-].
  split; [apply ntohl_u32|apply ntohll_u64].
Qed.

Lemma respond_wf i m o s x : u32 m → u64 o → x ∈ respond i m o s → wf_notification_response x.2.
Proof.
  intros Hm Ho ->%list_elem_of_singleton. split_and!; simpl; [done| |done|done].
  unfold u32, wrap32. apply Z.mod_pos_bound. lia.
Qed.

(** The responses that are due can be decoded. *)
Definition due_wf (v : worker) : Prop :=
  match v with w_answering l _ => ∀ x, x ∈ l → wf_notification_response x.2 | _ => True end.
Definition waiting_wf (n : notifier) : Prop :=
  ∀ i cl o, nt_clients n !! i = Some cl → o ∈ cl_waiting cl → u64 o.

(** An assertion of client [i] with offset [o] for the block [id] was read. *)
Definition asserted (tr : list event) (i : nat) (o : Z) (id : bytes) : Prop :=
  ∃ buf q, ev_packet i buf ∈ tr ∧ notificationservice_api_decode_request buf = Ok q ∧
    nq_method_id q = AGENTD_NOTIFICATIONSERVICE_API_METHOD_ID_BLOCK_ASSERTION ∧
    nq_offset q = o ∧ nq_payload q = Some id.

Record accounts (tr : list event) (a : notifier_state) : Prop := {
  ac_count : ∀ i o,
    (count (answers i o) tr + sum_list_with (due i o) (as_workers a) + waits (as_notifier a) i o
       ≤ count (asks i o) tr ∧
     count (asks i o) tr ≤ count (answers i o) tr + sum_list_with (due i o) (as_workers a)
       + waits (as_notifier a) i o + count (cancels i o) tr)%nat;
  ac_due : Forall due_wf (as_workers a);
  ac_waiting : waiting_wf (as_notifier a);
  ac_fresh : ∀ i cl o, nt_clients (as_notifier a) !! i = Some cl → o ∈ cl_waiting cl →
    asserted tr i o (nt_latest (as_notifier a));
}.

Lemma settle_wf b l s : (∀ x, x ∈ l → wf_notification_response x.2) → due_wf (settle b l s).
Proof. destruct l; simpl; [|done]. intros _. by repeat case_match. Qed.

Lemma invalidations_wf n x :
  waiting_wf n → x ∈ invalidations (nt_clients n) → wf_notification_response x.2.
Proof.
  intros Hw. unfold invalidations. rewrite list_elem_of_In, in_concat. intros (l&Hl&Hx).
  apply list_elem_of_In, elem_of_lookup_imap in Hl as (i&cl&->&Hcl).
  apply list_elem_of_In, list_elem_of_bind in Hx as (o&Hx&Ho). eapply respond_wf; [|by apply (Hw i cl), elem_of_offsets|exact Hx].
  by vm_compute.
Qed.

Lemma serve_keeps n j cl buf q n' l s tr :
  nt_clients n !! j = Some cl → notificationservice_api_decode_request buf = Ok q →
  serve DUP n j cl q = (n', l, s) →
  waiting_wf n →
  (∀ i cl o, nt_clients n !! i = Some cl → o ∈ cl_waiting cl → asserted tr i o (nt_latest n)) →
  (∀ x, x ∈ l → wf_notification_response x.2) ∧ waiting_wf n' ∧
  (∀ i cl o, nt_clients n' !! i = Some cl → o ∈ cl_waiting cl →
     asserted (tr ++ [ev_packet j buf]) i o (nt_latest n')).
Proof.
  intros Hcl Hd Hserve Hw Hf. destruct (decode_notification_wf _ _ Hd) as [Hm Ho].
  assert (∀ i o id, asserted tr i o id → asserted (tr ++ [ev_packet j buf]) i o id) as Hmono.
  { intros i o id (buf'&q'&Hin&H). exists buf', q'. split; [apply elem_of_app; by left|done]. }
  assert (∀ s' x, x ∈ respond j (nq_method_id q) (nq_offset q) s' → wf_notification_response x.2) as Hr.
  { intros s' x. by apply respond_wf. }
  (* the waiting assertions of the changed client are among the old ones *)
  assert (∀ cl', cl_waiting cl' ⊆ cl_waiting cl →
    let n' := Notifier (nt_latest n) (<[j:=cl']> (nt_clients n)) in
    waiting_wf n' ∧ (∀ i cl o, nt_clients n' !! i = Some cl → o ∈ cl_waiting cl →
      asserted (tr ++ [ev_packet j buf]) i o (nt_latest n'))) as Hless.
  { intros cl' Hsub n1. assert (∀ i cl1 o, nt_clients n1 !! i = Some cl1 → o ∈ cl_waiting cl1 →
      ∃ cl0, nt_clients n !! i = Some cl0 ∧ o ∈ cl_waiting cl0) as H.
    { intros i cl1 o. simpl. rewrite list_lookup_insert. case_decide as Hij; [|eauto].
      destruct Hij as [<- _]. intros [= <-] Hin. exists cl. split; [done|]. by apply Hsub. }
    split; intros i cl1 o Hi Hin; destruct (H _ _ _ Hi Hin) as (cl0&H0&Hin0); [by eapply Hw|].
    eapply Hmono, Hf; done. }
  assert (∀ l' s', (n', l, s) = (n, l', s') → waiting_wf n' ∧ (∀ i cl o, nt_clients n' !! i = Some cl →
    o ∈ cl_waiting cl → asserted (tr ++ [ev_packet j buf]) i o (nt_latest n'))) as Hsame.
  { intros l' s' [= -> _ _]. split; [done|]. eauto. }
  unfold serve in Hserve. cbv zeta in Hserve.
  repeat match type of Hserve with
  | (if ?b then _ else _) = _ => destruct b eqn:?
  end; injection Hserve as <- <- <-;
    try (split; [intros x Hx; by eapply Hr|by eapply Hsame]);
    try (split; [intros x Hx; by eapply Hr|apply Hless; simpl; set_solver]).
  - (* a new block *)
    split; [intros x [Hx|Hx]%elem_of_app; [by eapply invalidations_wf|by eapply Hr]|].
    split; intros i cl1 o (cl0&->&_)%list_lookup_fmap_Some; simpl; set_solver.
  - (* it waits *)
    split; [by intros x ?%elem_of_nil|].
    assert (nq_payload q = Some (nt_latest n)) as Hp.
    { destruct (nq_payload q) as [p|]; simpl in *; [|done].
      f_equal. by match goal with H : negb (bool_decide _) = false |- _ =>
        apply negb_false_iff, bool_decide_eq_true in H end. }
    assert (∀ i cl1 o, <[j:=Client (cl_caps cl) ({[nq_offset q]} ∪ cl_waiting cl)]> (nt_clients n) !! i = Some cl1 →
      o ∈ cl_waiting cl1 → (i = j ∧ o = nq_offset q) ∨ ∃ cl0, nt_clients n !! i = Some cl0 ∧ o ∈ cl_waiting cl0) as H.
    { intros i cl1 o Hi Hin. rewrite list_lookup_insert in Hi. destruct (decide _) as [[<- _]|_] in Hi; [|by eauto].
      injection Hi as <-. apply elem_of_union in Hin as [->%elem_of_singleton|Hin]; [by left|by eauto]. }
    split; intros i cl1 o Hi Hin; destruct (H _ _ _ Hi Hin) as [[-> ->]|(cl0&H0&Hin0)].
    + done.
    + by eapply Hw.
    + exists buf, q. split_and!; [apply elem_of_app; right; left|done|by apply Z.eqb_eq|done|done].
    + by eapply Hmono, Hf.
Qed.

Lemma serves_accounts tr a t a' :
  accounts tr a → serves DUP a t a' → accounts (tr ++ t) a'.
Proof.
  intros [Hc Hdw Hw Hf] Hs.
  assert (∀ i o id t', asserted tr i o id → asserted (tr ++ t') i o id) as Hmono.
  { intros i o id t' (buf'&q'&Hin&H). exists buf', q'. split; [apply elem_of_app; by left|done]. }
  destruct Hs as [a j cl buf q n l s Hv Hcl Hd Hserve|a j buf e Hv Hd|a j i r l s Hv|a|a].
  - destruct (serve_keeps _ _ _ _ _ _ _ _ tr Hcl Hd Hserve Hw Hf) as (Hl&Hw'&Hf'). split; simpl; [|..|done|done].
    + intros i o. rewrite !count_app. pose proof (serve_count _ _ _ _ _ _ _ _ i o Hcl Hd Hserve) as Hsc.
      pose proof (sum_insert (due i o) (as_workers a) j w_reading (settle (as_quiesce a) l s) Hv) as Hsum.
      rewrite due_settle in Hsum. rewrite !(count_cons _ _ []), !count_nil. simpl answers. specialize (Hc i o).
      cbn [due Nat.b2n] in *. cbv zeta in Hsc. lia.
    + apply Forall_insert; [done|]. by apply settle_wf.
  - split; simpl; [|by apply Forall_insert|done|eauto].
    intros i o. rewrite !count_app. pose proof (sum_insert (due i o) (as_workers a) j w_reading (w_ended e) Hv) as Hsum.
    assert (∀ m, requests m i o (ev_packet j buf) = false) as Hno by (intros m; simpl; by rewrite Hd, andb_false_r).
    rewrite !(count_cons _ _ []), !count_nil. unfold asks at 2 4, cancels at 2. rewrite !Hno.
    specialize (Hc i o). simpl in *. lia.
  - rewrite Forall_forall in Hdw. assert (due_wf (w_answering ((i, r) :: l) s)) as Hwf
      by (apply Hdw; by eapply list_elem_of_lookup_2). simpl in Hwf.
    split; simpl; [|..|done|eauto].
    + intros k o. rewrite !count_app.
      pose proof (sum_insert (due k o) (as_workers a) j _ (settle (as_quiesce a) l s) Hv) as Hsum.
      rewrite due_settle in Hsum. cbn [due] in Hsum. rewrite count_cons in Hsum.
      rewrite !(count_cons _ _ []), !count_nil. cbn [asks cancels requests answers Nat.b2n].
      rewrite decode_notification_response by (apply (Hwf (i, r)); left).
      specialize (Hc k o). lia.
    + apply Forall_insert; [by apply Forall_forall|]. apply settle_wf. intros x Hx. apply Hwf. by right.
  - rewrite app_nil_r. by split.
  - rewrite app_nil_r. by split.
Qed.

Lemma behaviours_account n tr a : serves_all DUP (notifier_start n) tr a → accounts tr a.
Proof.
  intros H. remember (notifier_start n) as a0 eqn:E. induction H as [a|a1 t1 a2 t2 a3 H IH Hs]; subst.
  - assert (∀ i o, waits (as_notifier (notifier_start n)) i o = 0%nat) as Hno.
    { intros i o. unfold waits. simpl. destruct (replicate n _ !! i) as [cl|] eqn:Hi; [|done].
      apply lookup_replicate in Hi as [-> _]. done. }
    split.
    + intros i o. rewrite Hno. simpl. assert (sum_list_with (due i o) (replicate n w_reading) = 0%nat) as ->; [|done].
      clear. induction n; [done|]. done.
    + apply Forall_replicate. done.
    + intros i cl o [-> _]%lookup_replicate. simpl. set_solver.
    + intros i cl o [-> _]%lookup_replicate. simpl. set_solver.
  - eapply serves_accounts; [by apply IH|done].
Qed.
End counting.

(** ** Delivery *)

Section delivery.
Context {W : Type} {RC : RCPR W} {RA : RCPR_ALLOCATOR W} {PS : PSOCK W} {RAL : RCPR_ALLOCATOR_laws W}.
Context {DUP : Z} {RR : RCPR_reliable W DUP}.
Context (sz1 sz2 : nat).

(** Whether the assertion [o] is in the tree of client [i]. *)
Definition registered (c : config (W := W)) (i : nat) (o : Z) : bool :=
  match nc_instances (cf_context c) !! i with
  | Some inst => bool_decide (o ∈ ae_offset <$> rbtree_elements (ni_assertions inst))
  | None => false
  end.

Lemma registered_waits c a i o : sim c a → Nat.b2n (registered c i o) = waits (as_notifier a) i o.
Proof.
  intros [[_ Hn Hc] _ _ _]. unfold registered, waits.
  destruct (nc_instances (cf_context c) !! i) as [inst|] eqn:Hi.
  - destruct (lookup_lt_is_Some_2 (nt_clients (as_notifier a)) i) as [cl Hcl].
    { rewrite <- Hn. by eapply lookup_lt_Some. }
    rewrite Hcl. destruct (Hc i inst cl Hi Hcl) as [_ ->]. rewrite keys_of_elements.
    destruct (decide (o ∈ cl_waiting cl)) as [H|H].
    + by rewrite bool_decide_true by by apply elem_of_offsets.
    + by rewrite bool_decide_false by by rewrite elem_of_offsets.
  - apply lookup_ge_None in Hi. by rewrite lookup_ge_None_2 by lia.
Qed.

(** C12: No notification is lost or sent twice, whatever packets the clients send and
    however the fibers are interleaved, as long as the trees, lists and memory of the
    RCPR library do what is asked of them ([RCPR_reliable]), the assertion trees are
    empty at the start, and no call that reads a packet or sends a message fails
    ([ev_failure] is not in the trace; so no client disconnects). Every assertion that
    was read has been answered once, or its answer is about to be sent by a fiber, or
    it waits in the tree of its client, or it was cancelled; when all fibers are
    reading again nothing is about to be sent, so that an offset that was never
    cancelled has exactly as many answers as assertions, but for the one that waits.
    And an assertion only waits while the block it was made for is the latest block:
    none is left behind by a new block. *)
Theorem notification_delivery trees w tr c i o :
  Forall (λ t, rbtree_elements t = []) trees →
  steps sz1 sz2 (notificationservice_start trees w) tr c → ev_failure ∉ tr →
  (∃ pending : nat,
     (Forall (λ f, f = Reading) (cf_fibers c) → pending = 0%nat) ∧
     (count (answers i o) tr + pending + Nat.b2n (registered c i o) ≤ count (asks i o) tr)%nat ∧
     (count (asks i o) tr
        ≤ count (answers i o) tr + pending + Nat.b2n (registered c i o) + count (cancels i o) tr)%nat) ∧
  (registered c i o = true → asserted tr i o (nc_latest_block_id (cf_context c))).
Proof.
  intros Htrees Hsteps Hok.
  destruct (notification_simulated sz1 sz2 _ _ _ _ Htrees Hsteps Hok) as (a&Ha&Hs&_).
  pose proof (behaviours_account DUP _ _ _ Ha) as [Hc _ _ Hf]. split.
  - exists (sum_list_with (due i o) (as_workers a)). rewrite (registered_waits _ _ _ _ Hs). split; [|apply Hc].
    intros Hidle. pose proof (sim_fibers _ _ Hs) as Hfs. clear -Hidle Hfs.
    induction Hfs as [|f v fs vs Hfv _ IH]; [done|]. apply Forall_cons in Hidle as [-> Hidle].
    destruct v; try done. simpl. by apply IH.
  - intros Hreg. pose proof (registered_waits _ _ i o Hs) as Hw. rewrite Hreg in Hw. unfold waits in Hw.
    destruct (nt_clients (as_notifier a) !! i) as [cl|] eqn:Hcl; [|done].
    destruct (decide (o ∈ cl_waiting cl)) as [Hin|]; [|done].
    rewrite (sh_latest _ _ (sim_shows _ _ Hs)). by eapply Hf.
Qed.
End delivery.
