(* ===== verification/NotificationExamples.v ===== *)
(** * The notification service on a concrete library

    Trees as finite maps, an allocator that does not fail, and a scheduler that
    follows a list of actions. *)

From S2P Require Import Prelude Inet StatusCodes Contexts Lmdb RequestCodec Ipc ClientApi NotificationCodec NotificationService NotificationSpec NotificationRefine.

(** ** The library *)

Definition ex_duplicate : Z := 77.

Definition map_elements (t : gmap Z nat) : list notificationservice_assertion_entry :=
  (λ o, AssertionEntry (default 0%nat (t !! o)) o) <$> offsets (dom t).

#[local] Instance ex_rcpr : RCPR unit := {|
  rbtree := gmap Z nat;
  rbtree_create := ret (0, ∅);
  rbtree_insert t e :=
    ret (if decide (is_Some (t !! ae_offset e)) then (ex_duplicate, t)
         else (0, <[ae_offset e := ae_context e]> t));
  rbtree_delete t o := ret (if decide (is_Some (t !! o)) then (0, delete o t) else (78, t));
  rbtree_elements := map_elements;
  ERROR_RBTREE_NOT_FOUND := 78;
  slist_create := ret 0; slist_append_tail := ret 0; slist_head := ret 0;
  slist_node_child := ret 0; slist_node_next := ret 0;
  message_create := ret 0; resource_release := ret 0;
  uuid_memcmp a b := if bool_decide (a = b) then 0 else 1;
|}.
#[local] Instance ex_allocator : RCPR_ALLOCATOR unit := {|
  rcpr_allocator_allocate n := ret (0, replicate n Byte.x00) |}.
#[local] Instance ex_allocator_laws : RCPR_ALLOCATOR_laws unit.
Proof. split. intros n w b w' [= <- _]. apply length_replicate. Qed.
#[local] Instance ex_psock : PSOCK unit := {|
  psock_write_boxed_data b := ret 0; psock_read_boxed_data := ret (0, []); rcpr_allocator_reclaim := ret 0 |}.

Lemma map_elements_keys t o : o ∈ ae_offset <$> map_elements t ↔ is_Some (t !! o).
Proof.
  unfold map_elements. rewrite <- list_fmap_compose, list_fmap_id, elem_of_offsets. apply elem_of_dom.
Qed.

Lemma map_elements_insert t o n :
  t !! o = None → map_elements (<[o:=n]> t) ≡ₚ AssertionEntry n o :: map_elements t.
Proof.
  intros Ho. unfold map_elements. rewrite !(offsets_perm (dom _)), dom_insert_L.
  rewrite elements_union_singleton by by apply not_elem_of_dom. rewrite fmap_cons.
  rewrite lookup_insert_eq. f_equiv. apply Permutation_refl', list_fmap_ext. intros k x Hx.
  rewrite lookup_insert_ne; [done|]. intros <-.
  apply list_elem_of_lookup_2, elem_of_elements, elem_of_dom in Hx. rewrite Ho in Hx. by destruct Hx.
Qed.

Lemma map_elements_delete t o n :
  t !! o = Some n → map_elements t ≡ₚ AssertionEntry n o :: map_elements (delete o t).
Proof.
  intros Hn. pose proof (map_elements_insert (delete o t) o n (lookup_delete_eq _ _)) as H.
  by rewrite insert_delete_id in H.
Qed.

#[local] Instance ex_rcpr_reliable : RCPR_reliable unit ex_duplicate.
Proof.
  split; try done.
  - intros t. apply (offsets_sorted (λ o, default 0%nat (t !! o))).
  - intros t e w Hin. rewrite map_elements_keys in Hin. simpl. rewrite decide_False by done. split; [done|].
    destruct e as [n o]. apply map_elements_insert. simpl in *. by apply eq_None_not_Some.
  - intros t e w Hin. rewrite map_elements_keys in Hin. simpl. by rewrite decide_True.
  - intros t o w Hin. rewrite map_elements_keys in Hin. simpl. rewrite decide_True by done. split; [done|].
    destruct Hin as [n Hn]. exists (AssertionEntry n o). split; [done|].
    by apply map_elements_delete.
  - intros t o w Hin. rewrite map_elements_keys in Hin. simpl. by rewrite decide_False.
  - intros a b. simpl. by case_bool_decide.
Qed.

(** ** A scheduler *)

Inductive action : Set :=
  | do_read (j : nat) (buf : bytes) | do_send (j : nat) | do_write (i : nat).

Abbreviation state := (config (W := unit)).

Definition act_on (c : state) (x : action) : option (state * list event) :=
  match x with
  | do_read j buf =>
      match cf_fibers c !! j with
      | Some Reading =>
          Some (resume j (notificationservice_protocol_read_decode_and_dispatch_packet 32 40 j (0, buf)) c,
                [ev_packet j buf])
      | _ => None
      end
  | do_send j =>
      match cf_fibers c !! j with
      | Some (Blocked addr msg k) =>
          Some (resume j (k 0) (Config (cf_context c) (cf_world c) (cf_fibers c)
                                  (alter (λ l, l ++ [msg]) addr (cf_mail c)) (cf_written c)),
                [ev_message addr msg])
      | _ => None
      end
  | do_write i =>
      match cf_mail c !! i with
      | Some (msg :: l) =>
          Some (Config (cf_context c) (cf_world c) (cf_fibers c)
                  (<[i := l]> (cf_mail c)) (alter (λ x, x ++ [msg]) i (cf_written c)), [])
      | _ => None
      end
  end.

Fixpoint schedule (xs : list action) (c : state) (tr : list event) : option (state * list event) :=
  match xs with
  | [] => Some (c, tr)
  | x :: xs => '(c, t) ← act_on c x; schedule xs c (tr ++ t)
  end.

Lemma act_on_step c x c' t : act_on c x = Some (c', t) → step 32 40 c t c'.
Proof.
  destruct x as [j buf|j|i]; cbn [act_on].
  - destruct (cf_fibers c !! j) as [[| |]|] eqn:Hf; try done. intros E%(inj Some). apply pair_equal_spec in E as [<- <-]. by apply step_read.
  - destruct (cf_fibers c !! j) as [[| |]|] eqn:Hf; try done. intros [= <- <-]. by apply step_send.
  - destruct (cf_mail c !! i) as [[|msg l]|] eqn:Hm; try done. intros [= <- <-]. by apply step_write.
Qed.

Lemma schedule_steps xs c0 c tr c' tr' :
  steps 32 40 c0 tr c → schedule xs c tr = Some (c', tr') → steps 32 40 c0 tr' c'.
Proof.
  revert c tr. induction xs as [|x xs IH]; intros c tr Hs; simpl; [by intros [= <- <-]|].
  destruct (act_on c x) as [[c1 t]|] eqn:E; [|done]. simpl. apply IH. eapply steps_step; [done|].
  by apply act_on_step in E.
Qed.

(** ** An execution

    Client 0 announces blocks, client 1 asserts.  Assertion 5 waits for the block
    after 1; assertion 6 is for another block and answered; while client 0 is still
    answering for block 2, client 1 asserts block 2 with offset 7, which waits. *)
Definition ex_block (n : Z) : bytes := be_enc 16 n.
Definition ex_req (m o : Z) (payload : option bytes) : bytes :=
  notification_request_packet (NotificationRequest m o payload).

Definition ex_actions : list action :=
  [do_read 0 (ex_req 1 100 (Some (ex_block 1))); do_send 0;
   do_read 1 (ex_req 2 5 (Some (ex_block 1)));
   do_read 1 (ex_req 2 6 (Some (ex_block 9))); do_send 1;
   do_read 0 (ex_req 1 101 (Some (ex_block 2)));
   do_read 1 (ex_req 2 7 (Some (ex_block 2)));
   do_send 0; do_send 0; do_write 1; do_write 1].

Definition ex_start : state := notificationservice_start [∅; ∅] tt.

Definition ex_end : state * list event := default (ex_start, []) (schedule ex_actions ex_start []).

Example ex_schedule_runs :
  (cf_written ex_end.1,
   (λ inst, ae_offset <$> rbtree_elements (ni_assertions inst)) <$> nc_instances (cf_context ex_end.1),
   nc_latest_block_id (cf_context ex_end.1))
  = ([[]; [notification_response_packet (NotificationResponse 2 0 6 None);
           notification_response_packet (NotificationResponse 2 0 5 None)]],
     [[]; [7]], ex_block 2).
Proof. by vm_compute. Qed.

Lemma ex_end_steps : steps 32 40 ex_start ex_end.2 ex_end.1.
Proof.
  apply (schedule_steps ex_actions ex_start ex_start []); [constructor|].
  assert (match schedule ex_actions ex_start [] with Some _ => true | None => false end = true) as H
    by by vm_compute.
  unfold ex_end. by destruct (schedule ex_actions ex_start []) as [[c tr]|].
Qed.

Definition is_failure (e : event) : bool := match e with ev_failure => true | _ => false end.
Lemma no_failure tr : forallb (λ e, negb (is_failure e)) tr = true → ev_failure ∉ tr.
Proof.
  induction tr as [|e tr IH]; [by intros _ ?%elem_of_nil|]. simpl. intros [He Htr]%andb_prop.
  intros [<-|Hin]%elem_of_cons; [done|by apply IH].
Qed.

Lemma notification_refines_witness :
  ∃ a, serves_all ex_duplicate (notifier_start 2) ex_end.2 a ∧ sim ex_end.1 a ∧ delivered ex_end.1 ex_end.2.
Proof.
  refine (notification_refines 32 40 [∅; ∅] tt ex_end.2 ex_end.1 _ ex_end_steps _).
  - by repeat constructor.
  - apply no_failure. by vm_compute.
Defined.

Lemma notification_delivery_witness :
  (∃ pending : nat,
     (Forall (λ f, f = Reading) (cf_fibers ex_end.1) → pending = 0%nat) ∧
     (count (answers 1 5) ex_end.2 + pending + Nat.b2n (registered ex_end.1 1 5) ≤ count (asks 1 5) ex_end.2)%nat ∧
     (count (asks 1 5) ex_end.2
        ≤ count (answers 1 5) ex_end.2 + pending + Nat.b2n (registered ex_end.1 1 5)
          + count (cancels 1 5) ex_end.2)%nat) ∧
  (registered ex_end.1 1 5 = true → asserted ex_end.2 1 5 (nc_latest_block_id (cf_context ex_end.1))).
Proof.
  refine (notification_delivery 32 40 [∅; ∅] tt ex_end.2 ex_end.1 1 5 _ ex_end_steps _).
  - by repeat constructor.
  - apply no_failure. by vm_compute.
Defined.

(** The round trip of the packets. *)
Lemma notification_roundtrip_witness :
  let q := NotificationRequest 2 7 (Some (ex_block 2)) in
  let p := NotificationResponse 2 0 7 None in
  post (notificationservice_api_encode_request (nq_method_id q) (nq_offset q) (nq_payload q))
    (λ r _, ∀ b, r = Ok b → notificationservice_api_decode_request b = Ok q) tt ∧
  post (notificationservice_api_encode_response
          (np_method_id p) (np_status_code p) (np_offset p) (np_payload p))
    (λ r _, ∀ b, r = Ok b → notificationservice_api_decode_response b = Ok p) tt.
Proof. intros q p. refine (notification_roundtrip q p tt _ _); by split_and!. Defined.
