(* ===== verification/Canonization.v ===== *)
(** * The canonization service

    [src/src/canonization]: a process that makes blocks.  A timer starts a round:
    the service asks the random service for a block id, opens a child context of
    the data service, reads the latest block and the attested transactions at the
    front of the process queue, builds and signs a block certificate, has it
    written, announces it to the notification service, closes the context and
    sets the timer again.  Every step is a callback of the event loop that reads
    one response and sends the next request.

    A callback that would follow a null pointer ends in [None]. *)

From S2P Require Import Prelude Inet StatusCodes Contexts Lmdb Records Vccert RequestCodec ResponseCodec Ipc ClientApi NotificationCodec.

Definition RANDOMSERVICE_API_METHOD_GET_RANDOM_BYTES : Z := 1.

(** ** Data *)

Inductive canonizationservice_state : Set :=
  | CANONIZATIONSERVICE_STATE_IDLE
  | CANONIZATIONSERVICE_STATE_WAITRESP_GET_RANDOM_BYTES
  | CANONIZATIONSERVICE_STATE_WAITRESP_CHILD_CONTEXT_CREATE
  | CANONIZATIONSERVICE_STATE_WAITRESP_LATEST_BLOCK_ID_GET
  | CANONIZATIONSERVICE_STATE_WAITRESP_BLOCK_GET
  | CANONIZATIONSERVICE_STATE_WAITRESP_PQ_TXN_FIRST_GET
  | CANONIZATIONSERVICE_STATE_WAITRESP_PQ_TXN_GET
  | CANONIZATIONSERVICE_STATE_WAITRESP_BLOCK_MAKE
  | CANONIZATIONSERVICE_STATE_WAITRESP_NOTIFY_BLOCK_UPDATE
  | CANONIZATIONSERVICE_STATE_WAITRESP_CHILD_CONTEXT_CLOSE.

#[global] Instance canonizationservice_state_eq_dec : EqDecision canonizationservice_state.
Proof. solve_decision. Defined.

(** The node is the bytes of a [data_transaction_node_t]. *)
Record canonizationservice_transaction := CanonizationTransaction { ct_node : bytes; ct_cert : bytes }.

Record canonizationservice_private_key := CanonizationPrivateKey {
  pk_id : bytes; pk_enc_pubkey : bytes; pk_enc_privkey : bytes;
  pk_sign_pubkey : bytes; pk_sign_privkey : bytes }.

(** [transaction_list] is [None] for a null pointer. *)
Record canonizationservice_instance := CanonizationInstance {
  ci_configured : bool; ci_running : bool; ci_force_exit : bool; ci_first_time : bool;
  ci_block_max_milliseconds : Z; ci_block_max_transactions : Z;
  ci_private_key : option canonizationservice_private_key;
  ci_data_child_context : Z;
  ci_state : canonizationservice_state;
  ci_block_id : bytes; ci_previous_block_id : bytes; ci_previous_block_signature : bytes;
  ci_block_height : Z;
  ci_transaction_list : option (list canonizationservice_transaction) }.

Definition set_configured (ms txns : Z) (i : canonizationservice_instance) :=
  CanonizationInstance true (ci_running i) (ci_force_exit i) (ci_first_time i) ms txns
    (ci_private_key i) (ci_data_child_context i) (ci_state i) (ci_block_id i)
    (ci_previous_block_id i) (ci_previous_block_signature i) (ci_block_height i) (ci_transaction_list i).
Definition set_private_key (k : canonizationservice_private_key) (i : canonizationservice_instance) :=
  CanonizationInstance (ci_configured i) (ci_running i) (ci_force_exit i) (ci_first_time i)
    (ci_block_max_milliseconds i) (ci_block_max_transactions i)
    (Some k) (ci_data_child_context i) (ci_state i) (ci_block_id i)
    (ci_previous_block_id i) (ci_previous_block_signature i) (ci_block_height i) (ci_transaction_list i).
Definition set_running (i : canonizationservice_instance) :=
  CanonizationInstance (ci_configured i) true (ci_force_exit i) true
    (ci_block_max_milliseconds i) (ci_block_max_transactions i)
    (ci_private_key i) (ci_data_child_context i) (ci_state i) (ci_block_id i)
    (ci_previous_block_id i) (ci_previous_block_signature i) (ci_block_height i) (ci_transaction_list i).
Definition set_force_exit (i : canonizationservice_instance) :=
  CanonizationInstance (ci_configured i) (ci_running i) true (ci_first_time i)
    (ci_block_max_milliseconds i) (ci_block_max_transactions i)
    (ci_private_key i) (ci_data_child_context i) (ci_state i) (ci_block_id i)
    (ci_previous_block_id i) (ci_previous_block_signature i) (ci_block_height i) (ci_transaction_list i).
Definition set_first_time (b : bool) (i : canonizationservice_instance) :=
  CanonizationInstance (ci_configured i) (ci_running i) (ci_force_exit i) b
    (ci_block_max_milliseconds i) (ci_block_max_transactions i)
    (ci_private_key i) (ci_data_child_context i) (ci_state i) (ci_block_id i)
    (ci_previous_block_id i) (ci_previous_block_signature i) (ci_block_height i) (ci_transaction_list i).
Definition set_state (s : canonizationservice_state) (i : canonizationservice_instance) :=
  CanonizationInstance (ci_configured i) (ci_running i) (ci_force_exit i) (ci_first_time i)
    (ci_block_max_milliseconds i) (ci_block_max_transactions i)
    (ci_private_key i) (ci_data_child_context i) s (ci_block_id i)
    (ci_previous_block_id i) (ci_previous_block_signature i) (ci_block_height i) (ci_transaction_list i).
Definition set_data_child_context (c : Z) (i : canonizationservice_instance) :=
  CanonizationInstance (ci_configured i) (ci_running i) (ci_force_exit i) (ci_first_time i)
    (ci_block_max_milliseconds i) (ci_block_max_transactions i)
    (ci_private_key i) c (ci_state i) (ci_block_id i)
    (ci_previous_block_id i) (ci_previous_block_signature i) (ci_block_height i) (ci_transaction_list i).
Definition set_block_id (id : bytes) (i : canonizationservice_instance) :=
  CanonizationInstance (ci_configured i) (ci_running i) (ci_force_exit i) (ci_first_time i)
    (ci_block_max_milliseconds i) (ci_block_max_transactions i)
    (ci_private_key i) (ci_data_child_context i) (ci_state i) id
    (ci_previous_block_id i) (ci_previous_block_signature i) (ci_block_height i) (ci_transaction_list i).
Definition set_previous_block_id (id : bytes) (i : canonizationservice_instance) :=
  CanonizationInstance (ci_configured i) (ci_running i) (ci_force_exit i) (ci_first_time i)
    (ci_block_max_milliseconds i) (ci_block_max_transactions i)
    (ci_private_key i) (ci_data_child_context i) (ci_state i) (ci_block_id i)
    id (ci_previous_block_signature i) (ci_block_height i) (ci_transaction_list i).
Definition set_previous_block_signature (sig : bytes) (i : canonizationservice_instance) :=
  CanonizationInstance (ci_configured i) (ci_running i) (ci_force_exit i) (ci_first_time i)
    (ci_block_max_milliseconds i) (ci_block_max_transactions i)
    (ci_private_key i) (ci_data_child_context i) (ci_state i) (ci_block_id i)
    (ci_previous_block_id i) sig (ci_block_height i) (ci_transaction_list i).
Definition set_block_height (h : Z) (i : canonizationservice_instance) :=
  CanonizationInstance (ci_configured i) (ci_running i) (ci_force_exit i) (ci_first_time i)
    (ci_block_max_milliseconds i) (ci_block_max_transactions i)
    (ci_private_key i) (ci_data_child_context i) (ci_state i) (ci_block_id i)
    (ci_previous_block_id i) (ci_previous_block_signature i) h (ci_transaction_list i).
Definition set_transaction_list (l : option (list canonizationservice_transaction))
    (i : canonizationservice_instance) :=
  CanonizationInstance (ci_configured i) (ci_running i) (ci_force_exit i) (ci_first_time i)
    (ci_block_max_milliseconds i) (ci_block_max_transactions i)
    (ci_private_key i) (ci_data_child_context i) (ci_state i) (ci_block_id i)
    (ci_previous_block_id i) (ci_previous_block_signature i) (ci_block_height i) l.

(** ** The platform *)

(** The sockets of the service. *)
Inductive sock_id : Set := data_sock | random_sock | notify_sock | control_sock.
#[global] Instance sock_id_eq_dec : EqDecision sock_id.
Proof. solve_decision. Defined.

Class SOCKETS (W : Type) := sockets : sock_id → LIBEVENT W.

(** The event loop of libevent behind [ipc_set_writecb_noblock] (true: the write
    callback of the service for this socket, false: none), [ipc_exit_loop],
    [ipc_timer_init] and [ipc_event_loop_add_timer].  A status of 0 is success. *)
Class EVENT_LOOP (W : Type) := {
  ipc_set_writecb_noblock : sock_id → bool → Act W unit;
  ipc_exit_loop : Act W unit;
  ipc_timer_init : Z → Act W Z;
  ipc_event_loop_add_timer : Act W Z;
}.

(** The lists of the vpr library: the operations that allocate, and the sizes of
    its structures. *)
Class LINKED_LIST (W : Type) := {
  sizeof_linked_list : nat;
  sizeof_disposable : nat;
  linked_list_init : Act W Z;
  linked_list_insert_end : Act W Z;
}.

(** The certificate builder of vccert, and [time]. *)
Class VCCERT_BUILDER (W : Type) := {
  vccert_builder : Type;
  FIELD_TYPE_SIZE : nat;
  FIELD_SIZE_SIZE : nat;
  signature_size : nat;
  vccert_certificate_type_uuid_txn_block : bytes;
  vccert_builder_init : nat → Act W (Z * vccert_builder);
  vccert_builder_add_short_uint16 : vccert_builder → cert_field → Z → Act W (Z * vccert_builder);
  vccert_builder_add_short_uint32 : vccert_builder → cert_field → Z → Act W (Z * vccert_builder);
  vccert_builder_add_short_uint64 : vccert_builder → cert_field → Z → Act W (Z * vccert_builder);
  vccert_builder_add_short_buffer : vccert_builder → cert_field → bytes → Act W (Z * vccert_builder);
  vccert_builder_sign : vccert_builder → bytes → bytes → Act W (Z * vccert_builder);
  vccert_builder_emit : vccert_builder → option bytes;
  time : Act W Z;
}.

Section canonization.
Context {W : Type} {M : MALLOC W} {VB : VCCRYPT_BUFFER W} {VC : VCCERT W} {BLD : VCCERT_BUILDER W}.
Context {LIST : LINKED_LIST W} {LOOP : EVENT_LOOP W} {RA : RCPR_ALLOCATOR W} {PS : PSOCK W}.
Context {SK : SOCKETS W}.

Abbreviation instance := canonizationservice_instance.
Abbreviation data := (sockets data_sock).
Abbreviation random := (sockets random_sock).
Abbreviation notify := (sockets notify_sock).

(** A callback returns the changed instance. *)
Definition done (inst : instance) : Act W (option instance) := ret (Some inst).
Definition null_pointer : Act W (option instance) := ret None.

Definition canonizationservice_exit_event_loop (inst : instance) : Act W (option instance) :=
  let! _ := ipc_exit_loop in done (set_force_exit inst).

(** Wait for a response: the state, and the write callback that sends the
    request. *)
Definition await (sock : sock_id) (s : canonizationservice_state) (inst : instance)
  : Act W (option instance) :=
  let! _ := ipc_set_writecb_noblock sock true in done (set_state s inst).

(** ** The timer *)

(** The packet [payload] of three words is written as it lies in memory. *)
Definition block_id_request : bytes :=
  net32 RANDOMSERVICE_API_METHOD_GET_RANDOM_BYTES ++ net32 0 ++ net32 16.

(** The status, and the changed instance after a success. *)
Definition canonizationservice_write_block_id_request (inst : instance) : Eff W instance :=
  let* _ := ipc_write_data_noblock (EV := random) block_id_request in
  let inst := set_state CANONIZATIONSERVICE_STATE_WAITRESP_GET_RANDOM_BYTES inst in
  let! _ := ipc_set_writecb_noblock random_sock true in
  ok inst.

Definition canonizationservice_timer_cb (inst : instance) : Act W (option instance) :=
  if ci_force_exit inst then done inst else
  let! mem := malloc (Z.of_nat sizeof_linked_list) in
  if negb mem then canonizationservice_exit_event_loop (set_transaction_list None inst) else
  let! retval := linked_list_init in
  if negb (retval =? AGENTD_STATUS_SUCCESS)
  then canonizationservice_exit_event_loop (set_transaction_list None inst) else
  let inst := set_transaction_list (Some []) inst in
  let! retval := canonizationservice_write_block_id_request inst in
  match retval with
  | Err _ => canonizationservice_exit_event_loop (set_transaction_list None inst)
  | Ok inst => done inst
  end.

(** A null list pointer would be disposed. *)
Definition canonizationservice_reset (inst : instance) (should_sleep : bool)
  : Act W (option instance) :=
  let inst := set_state CANONIZATIONSERVICE_STATE_IDLE inst in
  let inst := set_block_id (memset Byte.x00 16) inst in
  match ci_transaction_list inst with
  | None => null_pointer
  | Some _ =>
      let inst := set_transaction_list None inst in
      if should_sleep then
        let! retval := ipc_timer_init (ci_block_max_milliseconds inst) in
        if negb (retval =? AGENTD_STATUS_SUCCESS) then canonizationservice_exit_event_loop inst else
        let! retval := ipc_event_loop_add_timer in
        if negb (retval =? AGENTD_STATUS_SUCCESS) then canonizationservice_exit_event_loop inst else
        done inst
      else canonizationservice_timer_cb inst
  end.

(** ** Requests *)

(** The requests to the data service: the state is set before the request is
    sent in most of them. *)
Definition send_request (s : canonizationservice_state) (send : Eff W unit) (inst : instance)
  : Act W (option instance) :=
  let inst := set_state s inst in
  let! retval := send in
  match retval with
  | Err _ => canonizationservice_exit_event_loop inst
  | Ok _ => let! _ := ipc_set_writecb_noblock data_sock true in done inst
  end.

Definition canonization_caps : bitcap :=
  let caps := BITCAP_INIT_FALSE (BITCAP DATASERVICE_API_CAP_BITS_MAX) in
  let caps := BITCAP_SET_TRUE caps DATASERVICE_API_CAP_APP_PQ_TRANSACTION_FIRST_READ in
  let caps := BITCAP_SET_TRUE caps DATASERVICE_API_CAP_APP_PQ_TRANSACTION_READ in
  let caps := BITCAP_SET_TRUE caps DATASERVICE_API_CAP_APP_BLOCK_ID_LATEST_READ in
  let caps := BITCAP_SET_TRUE caps DATASERVICE_API_CAP_APP_BLOCK_READ in
  let caps := BITCAP_SET_TRUE caps DATASERVICE_API_CAP_APP_BLOCK_WRITE in
  BITCAP_SET_TRUE caps DATASERVICE_API_CAP_LL_CHILD_CONTEXT_CLOSE.

Definition canonizationservice_dataservice_sendreq_child_context_create (inst : instance)
  : Act W (option instance) :=
  send_request CANONIZATIONSERVICE_STATE_WAITRESP_CHILD_CONTEXT_CREATE
    (dataservice_api_sendreq_child_context_create_old (EV := data) (caps_bytes canonization_caps)) inst.

Definition canonizationservice_dataservice_sendreq_block_id_latest_get (inst : instance)
  : Act W (option instance) :=
  send_request CANONIZATIONSERVICE_STATE_WAITRESP_LATEST_BLOCK_ID_GET
    (dataservice_api_sendreq_latest_block_id_get_old (EV := data) (ci_data_child_context inst)) inst.

Definition canonizationservice_dataservice_sendreq_block_get (inst : instance)
  : Act W (option instance) :=
  send_request CANONIZATIONSERVICE_STATE_WAITRESP_BLOCK_GET
    (dataservice_api_sendreq_block_get_old (EV := data) (ci_data_child_context inst)
       (ci_previous_block_id inst) true) inst.

Definition canonizationservice_dataservice_sendreq_transaction_get_first (inst : instance)
  : Act W (option instance) :=
  send_request CANONIZATIONSERVICE_STATE_WAITRESP_PQ_TXN_FIRST_GET
    (dataservice_api_sendreq_transaction_get_first_old (EV := data) (ci_data_child_context inst)) inst.

(** This one sets the state only once the request is sent. *)
Definition canonizationservice_child_context_close (inst : instance) : Act W (option instance) :=
  let! retval :=
    dataservice_api_sendreq_child_context_close_old (EV := data) (ci_data_child_context inst) in
  match retval with
  | Err _ => canonizationservice_exit_event_loop inst
  | Ok _ => await data_sock CANONIZATIONSERVICE_STATE_WAITRESP_CHILD_CONTEXT_CLOSE inst
  end.

(** ** Notification *)

Definition canonizationservice_notify_block_update (inst : instance) : Act W (option instance) :=
  let! retval :=
    notificationservice_api_encode_request AGENTD_NOTIFICATIONSERVICE_API_METHOD_ID_BLOCK_UPDATE
      7474 (Some (ci_block_id inst)) in
  match retval with
  | Err _ => canonizationservice_exit_event_loop inst
  | Ok buf =>
      let! retval := ipc_write_data_noblock (EV := notify) buf in
      let! inst :=
        match retval with
        | Err _ => canonizationservice_exit_event_loop inst
        | Ok _ => await notify_sock CANONIZATIONSERVICE_STATE_WAITRESP_NOTIFY_BLOCK_UPDATE inst
        end in
      let! _ := rcpr_allocator_reclaim in
      ret inst
  end.

Definition canonizationservice_complete_update (inst : instance) : Act W (option instance) :=
  if ci_first_time inst then
    let inst := set_first_time false inst in
    let inst := set_block_id (ci_previous_block_id inst) inst in
    canonizationservice_notify_block_update inst
  else canonizationservice_child_context_close inst.

(** ** Making the block *)

(** The size of the fields of a block certificate, without the transactions. *)
Definition field_size (n : nat) : nat := (FIELD_TYPE_SIZE + FIELD_SIZE_SIZE + n)%nat.
Definition block_header_size : nat :=
  (field_size 4 + field_size 8 + field_size 2 + field_size 16 + field_size 16 + field_size 16
   + field_size signature_size + field_size 8 + field_size 16 + field_size signature_size)%nat.
Definition block_size (txns : list canonizationservice_transaction) : nat :=
  foldl (λ size txn, (size + field_size (length (ct_cert txn)))%nat) block_header_size txns.

(** One field; a failure leaves the function. *)
Definition add (m : Act W (Z * vccert_builder)) : Eff W vccert_builder :=
  let! '(retval, builder) := m in
  if negb (retval =? AGENTD_STATUS_SUCCESS) then throw retval else ok builder.

Fixpoint add_transactions (builder : vccert_builder) (txns : list canonizationservice_transaction)
  : Eff W vccert_builder :=
  match txns with
  | [] => ok builder
  | txn :: txns =>
      let* builder := add (vccert_builder_add_short_buffer builder
                             VCCERT_FIELD_TYPE_WRAPPED_TRANSACTION_TUPLE (ct_cert txn)) in
      add_transactions builder txns
  end.

(** The fields.  A failure of [time] leaves with the status of the last success;
    the callers only look at the event loop, which ends then too. *)
Definition block_fields (inst : instance) (txns : list canonizationservice_transaction)
  : Eff W vccert_builder :=
  let* builder := add (vccert_builder_init (block_size txns)) in
  let* builder := add (vccert_builder_add_short_uint32 builder
                         VCCERT_FIELD_TYPE_CERTIFICATE_VERSION 0x00010000) in
  let! timestamp := time in
  if timestamp <? 0 then throw AGENTD_STATUS_SUCCESS else
  let* builder := add (vccert_builder_add_short_uint64 builder
                         VCCERT_FIELD_TYPE_CERTIFICATE_VALID_FROM timestamp) in
  let* builder := add (vccert_builder_add_short_uint16 builder
                         VCCERT_FIELD_TYPE_CERTIFICATE_CRYPTO_SUITE 0x0001) in
  let* builder := add (vccert_builder_add_short_buffer builder
                         VCCERT_FIELD_TYPE_CERTIFICATE_TYPE vccert_certificate_type_uuid_txn_block) in
  let* builder := add (vccert_builder_add_short_buffer builder
                         VCCERT_FIELD_TYPE_BLOCK_UUID (ci_block_id inst)) in
  let* builder := add (vccert_builder_add_short_buffer builder
                         VCCERT_FIELD_TYPE_PREVIOUS_BLOCK_UUID (ci_previous_block_id inst)) in
  let* builder := add (vccert_builder_add_short_buffer builder
                         VCCERT_FIELD_TYPE_PREVIOUS_BLOCK_HASH (ci_previous_block_signature inst)) in
  let* builder := add (vccert_builder_add_short_uint64 builder
                         VCCERT_FIELD_TYPE_BLOCK_HEIGHT (ci_block_height inst)) in
  add_transactions builder txns.

Definition sign_block (builder : vccert_builder) (key : canonizationservice_private_key)
  : Eff W bytes :=
  let* builder := add (vccert_builder_sign builder (pk_id key) (pk_sign_privkey key)) in
  match vccert_builder_emit builder with
  | Some block_cert_bytes => ok block_cert_bytes
  | None => throw AGENTD_STATUS_SUCCESS
  end.

(** A null [instance->private_key] would be followed to sign. *)
Definition canonizationservice_block_make (inst : instance) : Act W (option instance) :=
  match ci_transaction_list inst with
  | None => null_pointer
  | Some [] => canonizationservice_complete_update inst
  | Some txns =>
      let! retval := block_fields inst txns in
      match retval, ci_private_key inst with
      | Err _, _ => canonizationservice_exit_event_loop inst
      | Ok builder, None => null_pointer
      | Ok builder, Some key =>
          let! retval :=
            let* cert := sign_block builder key in
            dataservice_api_sendreq_block_make_old (EV := data) (ci_data_child_context inst)
              (ci_block_id inst) cert in
          match retval with
          | Err _ => canonizationservice_exit_event_loop inst
          | Ok _ => await data_sock CANONIZATIONSERVICE_STATE_WAITRESP_BLOCK_MAKE inst
          end
      end
  end.

(** ** Responses of the data service *)

(** A response that does not decode, or whose status the handler does not
    expect, ends the service. *)
Definition canonizationservice_dataservice_response_child_context_create (inst : instance) (resp : bytes)
  : Act W (option instance) :=
  match dataservice_decode_response_child_context_create resp with
  | Ok (hdr, Some child) =>
      if negb (rh_status hdr =? AGENTD_STATUS_SUCCESS) then canonizationservice_exit_event_loop inst else
      canonizationservice_dataservice_sendreq_block_id_latest_get (set_data_child_context child inst)
  | _ => canonizationservice_exit_event_loop inst
  end.

(** The response is not looked at. *)
Definition canonizationservice_dataservice_response_child_context_close (inst : instance) (resp : bytes)
  : Act W (option instance) :=
  match ci_transaction_list inst with
  | None => null_pointer
  | Some txns =>
      let should_sleep := negb (Z.of_nat (length txns) =? ci_block_max_transactions inst) in
      canonizationservice_reset inst should_sleep
  end.

Definition canonizationservice_dataservice_response_latest_block_id_read (inst : instance) (resp : bytes)
  : Act W (option instance) :=
  match dataservice_decode_response_latest_block_id_get resp with
  | Ok (hdr, block_id) =>
      if negb (rh_status hdr =? AGENTD_STATUS_SUCCESS) then canonizationservice_exit_event_loop inst else
      let inst := set_previous_block_id block_id inst in
      if bool_decide (block_id = vccert_certificate_type_uuid_root_block) then
        canonizationservice_dataservice_sendreq_transaction_get_first (set_block_height 1 inst)
      else canonizationservice_dataservice_sendreq_block_get inst
  | Err _ => canonizationservice_exit_event_loop inst
  end.

(** [parse_block]: the status and the changed instance.  A signature of another
    size is not copied, and the status is that of the search, success. *)
Definition parse_block (inst : instance) (cert : bytes) : Eff W instance :=
  let! b := vccert_parser_options_simple_init in
  if negb b then throw 1 else
  let! b := vccert_parser_init cert in
  if negb b then throw 1 else
  match (vccert_parser_find_short (vccert_parser_of cert) VCCERT_FIELD_TYPE_SIGNATURE).1 with
  | None => throw 1
  | Some signature =>
      if negb (length signature =? 64)%nat then ok inst
      else ok (set_previous_block_signature signature inst)
  end.

Definition canonizationservice_dataservice_response_block_read (inst : instance) (resp : bytes)
  : Act W (option instance) :=
  match dataservice_decode_response_block_get resp with
  | Ok (hdr, node, cert) =>
      if negb (rh_status hdr =? AGENTD_STATUS_SUCCESS) then canonizationservice_exit_event_loop inst else
      let inst := set_block_height (wrap64 (ntohll (block_node_net_block_height node) + 1)) inst in
      let! retval := parse_block inst cert in
      match retval with
      | Err _ => canonizationservice_exit_event_loop inst
      | Ok inst => canonizationservice_dataservice_sendreq_transaction_get_first inst
      end
  | Err _ => canonizationservice_exit_event_loop inst
  end.

(** [dataservice_api_node_ref_is_end]. *)
Definition dataservice_api_node_ref_is_end (idref : bytes) : bool :=
  bool_decide (idref = memset Byte.xff 16).

Definition sizeof_canonizationservice_transaction : nat := sizeof_disposable + sizeof_txn_node + 8.

(** What both transaction handlers do with an answer; [finish] is what they do
    when there is no attested transaction. *)
Definition transaction_response (inst : instance) (finish : instance → Act W (option instance))
    (dresp : result (dataservice_response_header * bytes * bytes)) : Act W (option instance) :=
  match dresp with
  | Err _ => canonizationservice_exit_event_loop inst
  | Ok (hdr, node, cert) =>
      if rh_status hdr =? AGENTD_ERROR_DATASERVICE_NOT_FOUND then finish inst
      else if negb (rh_status hdr =? AGENTD_STATUS_SUCCESS) then canonizationservice_exit_event_loop inst
      else if negb (DATASERVICE_TRANSACTION_NODE_STATE_ATTESTED =? ntohl (txn_node_net_txn_state node))
      then finish inst
      else
        let! mem := malloc (Z.of_nat (sizeof_canonizationservice_transaction + length cert)) in
        if negb mem then canonizationservice_exit_event_loop inst else
        let txn := CanonizationTransaction node cert in
        match ci_transaction_list inst with
        | None => null_pointer
        | Some txns =>
            let! retval := linked_list_insert_end in
            if negb (retval =? AGENTD_STATUS_SUCCESS) then canonizationservice_exit_event_loop inst else
            let txns := txns ++ [txn] in
            let inst := set_transaction_list (Some txns) inst in
            if Z.of_nat (length txns) =? ci_block_max_transactions inst
            then canonizationservice_block_make inst
            else if dataservice_api_node_ref_is_end (txn_node_next node)
            then canonizationservice_block_make inst
            else send_request (ci_state inst)
                   (dataservice_api_sendreq_transaction_get_old (EV := data)
                      (ci_data_child_context inst) (txn_node_next node)) inst
        end
  end.

Definition canonizationservice_dataservice_response_transaction_first_read (inst : instance) (resp : bytes)
  : Act W (option instance) :=
  transaction_response inst canonizationservice_complete_update
    (dataservice_decode_response_transaction_get_first resp).

Definition canonizationservice_dataservice_response_transaction_read (inst : instance) (resp : bytes)
  : Act W (option instance) :=
  transaction_response inst canonizationservice_block_make
    (dataservice_decode_response_transaction_get resp).

(** The response, and so its status, is not looked at. *)
Definition canonizationservice_dataservice_response_block_write (inst : instance) (resp : bytes)
  : Act W (option instance) :=
  canonizationservice_notify_block_update inst.

(** ** The sockets *)

(** A read callback: nothing once the loop is being left; a packet that is not
    complete is waited for. *)
Definition read_packet (sock : sock_id) (inst : instance)
    (react : bytes → Act W (option instance)) : Act W (option instance) :=
  if ci_force_exit inst then done inst else
  let! retval := ipc_read_data_noblock (EV := sockets sock) in
  match retval with
  | Ok resp => react resp
  | Err s =>
      if s =? AGENTD_ERROR_IPC_WOULD_BLOCK then done inst else canonizationservice_exit_event_loop inst
  end.

(** The state is not compared with the method of the response. *)
Definition canonizationservice_data_packet (inst : instance) (resp : bytes) : Act W (option instance) :=
  if (length resp <? 4)%nat then canonizationservice_exit_event_loop inst else
  let method := ntohl (le_dec (sub 0 4 resp)) in
  if method =? DATASERVICE_API_METHOD_LL_CHILD_CONTEXT_CREATE then
    canonizationservice_dataservice_response_child_context_create inst resp
  else if method =? DATASERVICE_API_METHOD_LL_CHILD_CONTEXT_CLOSE then
    canonizationservice_dataservice_response_child_context_close inst resp
  else if method =? DATASERVICE_API_METHOD_APP_PQ_TRANSACTION_FIRST_READ then
    canonizationservice_dataservice_response_transaction_first_read inst resp
  else if method =? DATASERVICE_API_METHOD_APP_PQ_TRANSACTION_READ then
    canonizationservice_dataservice_response_transaction_read inst resp
  else if method =? DATASERVICE_API_METHOD_APP_BLOCK_ID_LATEST_READ then
    canonizationservice_dataservice_response_latest_block_id_read inst resp
  else if method =? DATASERVICE_API_METHOD_APP_BLOCK_READ then
    canonizationservice_dataservice_response_block_read inst resp
  else if method =? DATASERVICE_API_METHOD_APP_BLOCK_WRITE then
    canonizationservice_dataservice_response_block_write inst resp
  else canonizationservice_exit_event_loop inst.

Definition canonizationservice_data_read (inst : instance) : Act W (option instance) :=
  read_packet data_sock inst (canonizationservice_data_packet inst).

Definition canonizationservice_random_read (inst : instance) : Act W (option instance) :=
  read_packet random_sock inst (λ resp,
    if negb (bool_decide (ci_state inst = CANONIZATIONSERVICE_STATE_WAITRESP_GET_RANDOM_BYTES))
    then canonizationservice_exit_event_loop inst else
    if (length resp <? 3 * 4)%nat then canonizationservice_exit_event_loop inst else
    let method_id := ntohl (le_dec (sub 0 4 resp)) in
    let status := ntohl (le_dec (sub 8 4 resp)) in
    let data := drop 12 resp in
    if negb (method_id =? RANDOMSERVICE_API_METHOD_GET_RANDOM_BYTES)
       || negb (status =? AGENTD_STATUS_SUCCESS) || negb (length data =? 16)%nat
    then canonizationservice_exit_event_loop inst else
    canonizationservice_dataservice_sendreq_child_context_create (set_block_id data inst)).

(** The method is compared with the capability [BLOCK_UPDATE], whose value is the
    same. *)
Definition canonizationservice_notify_read (inst : instance) : Act W (option instance) :=
  read_packet notify_sock inst (λ resp,
    if negb (bool_decide (ci_state inst = CANONIZATIONSERVICE_STATE_WAITRESP_NOTIFY_BLOCK_UPDATE))
    then canonizationservice_exit_event_loop inst else
    match notificationservice_api_decode_response resp with
    | Err _ => canonizationservice_exit_event_loop inst
    | Ok dresp =>
        if negb (np_method_id dresp =? Z.of_nat NOTIFICATIONSERVICE_API_CAP_BLOCK_UPDATE)
           || negb (np_status_code dresp =? AGENTD_STATUS_SUCCESS)
        then canonizationservice_exit_event_loop inst
        else canonizationservice_child_context_close inst
    end).

(** The three write callbacks.  [would_block] tells whether a failed write may be
    tried again. *)
Definition write_callback (sock : sock_id) (inst : instance) (would_block : bool)
  : Act W (option instance) :=
  let! len := ipc_socket_writebuffer_size (EV := sockets sock) in
  if 0 <? len then
    let! bytes_written := ipc_socket_write_from_buffer (EV := sockets sock) in
    if (bytes_written =? 0) || (bytes_written <? 0) && negb would_block
    then canonizationservice_exit_event_loop inst
    else
      let! len := ipc_socket_writebuffer_size (EV := sockets sock) in
      if 0 <? len then let! _ := ipc_set_writecb_noblock sock true in done inst else done inst
  else let! _ := ipc_set_writecb_noblock sock false in done inst.

Definition canonizationservice_data_write := write_callback data_sock.
Definition canonizationservice_random_write := write_callback random_sock.
Definition canonizationservice_notify_write := write_callback notify_sock.
End canonization.
