(* ===== verification/BlockCert.v ===== *)
(** * The block certificate

    What [canonizationservice_block_make] puts into a block, and that the data
    service finds in it what was put there.  The builder of the vccert library is
    described by the fields it holds; the parser finds the fields of a
    certificate that the builder emitted. *)

From S2P Require Import Prelude Inet StatusCodes Lmdb Records Vccert PqRep BlockMake Ledger Canonization.

(** ** Fields *)

Abbreviation field := (cert_field * bytes)%type.

(** The values of a type, in order. *)
Definition values (f : cert_field) (fs : list field) : list bytes := (filter (λ x, x.1 = f) fs).*2.

Section parser.
Context {W : Type} {VC : VCCERT W}.

(** A search and the searches that go on from it find exactly these values. *)
Fixpoint finds (x : option bytes * vccert_parser) (vs : list bytes) : Prop :=
  match vs with
  | [] => x.1 = None
  | v :: vs => x.1 = Some v ∧ finds (vccert_parser_find_next x.2) vs
  end.
End parser.

Definition fields_size `{BLD : VCCERT_BUILDER W} (fs : list field) : nat :=
  sum_list_with (λ x, field_size (length x.2)) fs.

(** [built b] are the fields added so far and [capacity b] the size the builder
    was made with; a field has at most [field_max] bytes.  Signing adds the
    identifier of the signer and a signature of all fields before it;
    [signed_by key fs sig] says that [sig] is one. *)
Class VCCERT_BUILDER_laws (W : Type) `{VC : VCCERT W} `{BLD : VCCERT_BUILDER W} := {
  built : vccert_builder → list field;
  capacity : vccert_builder → nat;
  field_max : nat;
  signed_by : bytes → list field → bytes → Prop;
  law_field_overhead : (0 < FIELD_TYPE_SIZE + FIELD_SIZE_SIZE)%nat;
  law_signature_size : signature_size = 64%nat;
  law_field_max : (64 ≤ field_max)%nat;
  law_txn_block_uuid : is_uuid vccert_certificate_type_uuid_txn_block;
  law_builder_init : ∀ n w b w', vccert_builder_init n w = ((0, b), w') → built b = [] ∧ capacity b = n;
  law_add_uint16 : ∀ b f v w b' w', vccert_builder_add_short_uint16 b f v w = ((0, b'), w') →
    built b' = built b ++ [(f, be_enc 2 v)] ∧ capacity b' = capacity b;
  law_add_uint32 : ∀ b f v w b' w', vccert_builder_add_short_uint32 b f v w = ((0, b'), w') →
    built b' = built b ++ [(f, be_enc 4 v)] ∧ capacity b' = capacity b;
  law_add_uint64 : ∀ b f v w b' w', vccert_builder_add_short_uint64 b f v w = ((0, b'), w') →
    built b' = built b ++ [(f, be_enc 8 v)] ∧ capacity b' = capacity b;
  law_add_buffer : ∀ b f v w b' w', vccert_builder_add_short_buffer b f v w = ((0, b'), w') →
    built b' = built b ++ [(f, v)] ∧ capacity b' = capacity b;
  law_builder_sign : ∀ b id key w b' w', vccert_builder_sign b id key w = ((0, b'), w') →
    ∃ sig, length sig = signature_size ∧
      signed_by key (built b ++ [(VCCERT_FIELD_TYPE_SIGNER_ID, id)]) sig ∧
      built b' = built b ++ [(VCCERT_FIELD_TYPE_SIGNER_ID, id); (VCCERT_FIELD_TYPE_SIGNATURE, sig)];
  law_emit : ∀ b cert, vccert_builder_emit b = Some cert →
    length cert = fields_size (built b) ∧
    ∀ f, finds (vccert_parser_find_short (vccert_parser_of cert) f) (values f (built b));
}.

(** Nothing fails as long as there is room in the builder and fields are not too
    large. *)
Record BUILDER_reliable (W : Type) `{BL : VCCERT_BUILDER_laws W} : Prop := {
  reliable_builder_init : ∀ n w, (vccert_builder_init n w).1.1 = 0;
  reliable_add_uint16 : ∀ b f v w, (fields_size (built b) + field_size 2 ≤ capacity b)%nat →
    (vccert_builder_add_short_uint16 b f v w).1.1 = 0;
  reliable_add_uint32 : ∀ b f v w, (fields_size (built b) + field_size 4 ≤ capacity b)%nat →
    (vccert_builder_add_short_uint32 b f v w).1.1 = 0;
  reliable_add_uint64 : ∀ b f v w, (fields_size (built b) + field_size 8 ≤ capacity b)%nat →
    (vccert_builder_add_short_uint64 b f v w).1.1 = 0;
  reliable_add_buffer : ∀ b f v w, (length v ≤ field_max)%nat → (fields_size (built b) + field_size (length v) ≤ capacity b)%nat →
    (vccert_builder_add_short_buffer b f v w).1.1 = 0;
  reliable_sign : ∀ b id key w, (length id ≤ field_max)%nat →
    (fields_size (built b) + field_size (length id) + field_size signature_size ≤ capacity b)%nat →
    (vccert_builder_sign b id key w).1.1 = 0;
  reliable_emit : ∀ b, vccert_builder_emit b ≠ None;
  reliable_time : ∀ w, 0 ≤ (time w).1;
}.

Section cert.
Context {W : Type} {VC : VCCERT W} {BLD : VCCERT_BUILDER W} {BL : VCCERT_BUILDER_laws W}.

Abbreviation instance := canonizationservice_instance.

Definition builder_faulty : Prop := BUILDER_reliable W → False.

(** ** The contents of a block *)

Definition block_header (inst : instance) (t : Z) : list field :=
  [ (VCCERT_FIELD_TYPE_CERTIFICATE_VERSION, be_enc 4 0x00010000);
    (VCCERT_FIELD_TYPE_CERTIFICATE_VALID_FROM, be_enc 8 t);
    (VCCERT_FIELD_TYPE_CERTIFICATE_CRYPTO_SUITE, be_enc 2 0x0001);
    (VCCERT_FIELD_TYPE_CERTIFICATE_TYPE, vccert_certificate_type_uuid_txn_block);
    (VCCERT_FIELD_TYPE_BLOCK_UUID, ci_block_id inst);
    (VCCERT_FIELD_TYPE_PREVIOUS_BLOCK_UUID, ci_previous_block_id inst);
    (VCCERT_FIELD_TYPE_PREVIOUS_BLOCK_HASH, ci_previous_block_signature inst);
    (VCCERT_FIELD_TYPE_BLOCK_HEIGHT, be_enc 8 (ci_block_height inst)) ].

Definition wrapped (txns : list canonizationservice_transaction) : list field :=
  (λ txn, (VCCERT_FIELD_TYPE_WRAPPED_TRANSACTION_TUPLE, ct_cert txn)) <$> txns.

Definition block_contents (inst : instance) (t : Z) (txns : list canonizationservice_transaction) : list field :=
  block_header inst t ++ wrapped txns.

(** [cert] is a block of these transactions, signed with the key of the service. *)
Definition block_certificate (inst : instance) (cert : bytes) : Prop :=
  ∃ txns key t sig b,
    ci_transaction_list inst = Some txns ∧ ci_private_key inst = Some key ∧ 0 ≤ t ∧
    length sig = signature_size ∧
    signed_by (pk_sign_privkey key)
      (block_contents inst t txns ++ [(VCCERT_FIELD_TYPE_SIGNER_ID, pk_id key)]) sig ∧
    vccert_builder_emit b = Some cert ∧
    built b = block_contents inst t txns ++
      [(VCCERT_FIELD_TYPE_SIGNER_ID, pk_id key); (VCCERT_FIELD_TYPE_SIGNATURE, sig)].

(** The sizes of the fields of the structure. *)
Definition wf_block_fields (inst : instance) : Prop :=
  is_uuid (ci_block_id inst) ∧ is_uuid (ci_previous_block_id inst) ∧
  length (ci_previous_block_signature inst) = 64%nat ∧
  ∀ key, ci_private_key inst = Some key → is_uuid (pk_id key).

(** ** The size of a block *)

Lemma fields_size_app fs gs : fields_size (fs ++ gs) = (fields_size fs + fields_size gs)%nat.
Proof. apply sum_list_with_app. Qed.

Lemma fields_size_one f v : fields_size [(f, v)] = field_size (length v).
Proof. unfold fields_size. simpl. lia. Qed.

Lemma block_size_header txns : block_size txns = (block_header_size + fields_size (wrapped txns))%nat.
Proof.
  unfold block_size, fields_size, wrapped. generalize block_header_size.
  induction txns as [|txn txns IH]; intros n; [simpl; lia|].
  rewrite fmap_cons. cbn [foldl sum_list_with snd]. rewrite IH. lia.
Qed.

(** The size that is computed before the block is built is exactly the size of
    the block. *)
Lemma block_size_exact inst t txns key sig :
  wf_block_fields inst → ci_private_key inst = Some key → length sig = signature_size →
  block_size txns = fields_size (block_contents inst t txns ++
    [(VCCERT_FIELD_TYPE_SIGNER_ID, pk_id key); (VCCERT_FIELD_TYPE_SIGNATURE, sig)]).
Proof.
  intros (Hid&Hprev&Hsig&Hkey) Hk Hlen. rewrite block_size_header. unfold block_contents.
  rewrite !fields_size_app. enough (block_header_size = (fields_size (block_header inst t) +
    fields_size [(VCCERT_FIELD_TYPE_SIGNER_ID, pk_id key); (VCCERT_FIELD_TYPE_SIGNATURE, sig)])%nat) by lia.
  unfold block_header_size, fields_size, block_header, is_uuid in *. simpl.
  rewrite !length_be_enc, Hid, Hprev, Hsig, (Hkey _ Hk), Hlen, law_txn_block_uuid.
  pose proof law_signature_size. unfold field_size. lia.
Qed.

(** ** Building *)

Definition small (x : field) : Prop := (length x.2 ≤ field_max)%nat.

(** Adding a field that the library accepts when there is room. *)
Definition adds (m : Act W (Z * vccert_builder)) (b : vccert_builder) (fs : list field) : Prop :=
  (∀ w b' w', m w = ((0, b'), w') → built b' = built b ++ fs ∧ capacity b' = capacity b) ∧
  (BUILDER_reliable W → Forall small fs → (fields_size (built b) + fields_size fs ≤ capacity b)%nat →
   ∀ w, (m w).1.1 = 0).

Lemma adds_uint16 b f v : adds (vccert_builder_add_short_uint16 b f v) b [(f, be_enc 2 v)].
Proof.
  split; [intros *; apply law_add_uint16|]. intros R _ Hroom w. apply (reliable_add_uint16 _ R).
  by rewrite fields_size_one, length_be_enc in Hroom.
Qed.
Lemma adds_uint32 b f v : adds (vccert_builder_add_short_uint32 b f v) b [(f, be_enc 4 v)].
Proof.
  split; [intros *; apply law_add_uint32|]. intros R _ Hroom w. apply (reliable_add_uint32 _ R).
  by rewrite fields_size_one, length_be_enc in Hroom.
Qed.
Lemma adds_uint64 b f v : adds (vccert_builder_add_short_uint64 b f v) b [(f, be_enc 8 v)].
Proof.
  split; [intros *; apply law_add_uint64|]. intros R _ Hroom w. apply (reliable_add_uint64 _ R).
  by rewrite fields_size_one, length_be_enc in Hroom.
Qed.
Lemma adds_buffer b f v : adds (vccert_builder_add_short_buffer b f v) b [(f, v)].
Proof.
  split; [intros *; apply law_add_buffer|]. intros R [Hv _]%Forall_cons Hroom w.
  apply (reliable_add_buffer _ R); [done|]. by rewrite fields_size_one in Hroom.
Qed.

(** The builder so far: it holds [fs], and what is still to come, [rest], fits. *)
Definition holds (n : nat) (fs rest : list field) (b : vccert_builder) : Prop :=
  built b = fs ∧ capacity b = n ∧ (fields_size fs + fields_size rest ≤ n)%nat ∧ Forall small rest.

Lemma post_adds m b fs x rest n (Q : result vccert_builder → W → Prop) w :
  adds m b [x] → holds n fs (x :: rest) b →
  (∀ b' w', holds n (fs ++ [x]) rest b' → Q (Ok b') w') →
  (∀ s w', builder_faulty → Q (Err s) w') →
  post (add m) Q w.
Proof.
  intros [Hadd Hrel] (Hb&Hc&Hn&[Hx Hrest]%Forall_cons) Hok Herr. change (x :: rest) with ([x] ++ rest) in Hn.
  rewrite fields_size_app in Hn. unfold add. apply post_act, post_run.
  destruct (m w) as [[rc b'] w'] eqn:E. cbn [fst snd]. apply post_if; intros Hrc; apply post_ret.
  - apply Herr. intros R. specialize (Hrel R). rewrite Hb, Hc in Hrel. specialize (Hrel ltac:(by constructor) ltac:(lia) w).
    rewrite E in Hrel. simpl in Hrel. by subst rc.
  - apply negb_false_iff, Z.eqb_eq in Hrc as ->. destruct (Hadd _ _ _ E) as [Hb' Hc'].
    apply Hok. split_and!; [congruence..| |done]. rewrite fields_size_app. lia.
Qed.

Lemma add_transactions_spec txns b n fs w :
  holds n fs (wrapped txns) b →
  post (add_transactions b txns) (λ r w',
    match r with
    | Ok b' => built b' = fs ++ wrapped txns ∧ capacity b' = n
    | Err _ => builder_faulty
    end) w.
Proof.
  revert b fs w. induction txns as [|txn txns IH]; intros b fs w Hb; simpl.
  - post_steps. destruct Hb as (?&?&_&_). by rewrite app_nil_r.
  - apply post_bind. eapply post_adds; [apply adds_buffer|exact Hb| |done].
    intros b' w' Hb'. eapply post_mono; [by eapply IH|]. intros [b2|s] w2; [|done].
    by rewrite <- (assoc_L (++)).
Qed.

Lemma block_fields_spec inst txns w :
  wf_block_fields inst → is_Some (ci_private_key inst) → Forall small (wrapped txns) →
  post (block_fields inst txns) (λ r w',
    match r with
    | Ok b => ∃ t, 0 ≤ t ∧ built b = block_contents inst t txns ∧ capacity b = block_size txns
    | Err _ => builder_faulty
    end) w.
Proof.
  intros Hwf [key Hkey] Hsmall. unfold block_fields.
  assert (∀ t, Forall small (block_contents inst t txns)) as Hall.
  { intros t. apply Forall_app. split; [|done]. destruct Hwf as (Hid&Hprev&Hsig&_).
    pose proof law_field_max. pose proof law_txn_block_uuid. unfold is_uuid, small in *.
    repeat constructor; simpl; rewrite ?length_be_enc; lia. }
  assert (∀ t, fields_size (block_contents inst t txns) ≤ block_size txns)%nat as Hsz.
  { intros t. rewrite (block_size_exact inst t txns key (memset Byte.x00 signature_size))
      by (done || apply length_memset). rewrite fields_size_app. lia. }
  apply post_bind. unfold add at 1. apply post_act, post_run.
  destruct (vccert_builder_init _ w) as [[rc b0] w0] eqn:E. cbn [fst snd].
  apply post_if; intros Hrc; post_steps.
  { intros R. pose proof (reliable_builder_init _ R (block_size txns) w) as H. rewrite E in H.
    simpl in H. by subst rc. }
  apply negb_false_iff, Z.eqb_eq in Hrc as ->. destruct (law_builder_init _ _ _ _ E) as [Hb0 Hc0].
  pose proof (λ t, Hsz t) as Hroom. unfold block_contents, block_header in Hroom. cbn [app] in Hroom.
  (* the version is added before the time is known; the sizes do not depend on it *)
  eapply (post_adds _ _ [] _ _ (block_size txns)); [apply adds_uint32| | |done].
  { split_and!; [done..|exact (Hroom 0)|exact (Hall 0)]. }
  intros b1 w1 Hb1. apply post_act, post_run. destruct (time w1) as [t w2] eqn:Et. cbn [fst snd].
  apply post_if; intros Ht; post_steps.
  { intros R. pose proof (reliable_time _ R w1) as H. rewrite Et in H. simpl in H. lia. }
  assert (holds (block_size txns) (take 1 (block_header inst t)) (drop 1 (block_contents inst t txns)) b1) as Hb1'.
  { destruct Hb1 as (?&?&_). split_and!; [done..| |by apply Forall_drop]. specialize (Hsz t).
    unfold block_contents, block_header in *. cbn [app take drop] in *.
    change (?x :: ?l) with ([x] ++ l) in Hsz at 1. by rewrite fields_size_app in Hsz. }
  clear Hb1. unfold block_contents, block_header in Hb1'. cbn [app take drop] in Hb1'.
  do 7 (eapply post_adds; [first [apply adds_uint64|apply adds_uint16|apply adds_buffer]| | |done];
        [eassumption|]; intros ? ? ?; try apply post_bind).
  all: try (eapply post_mono; [eapply add_transactions_spec; eassumption|]).
  intros [b9|s] w9; [|done]. intros [Hb9 Hc9]. exists t. split_and!; [lia| |done]. by rewrite Hb9.
Qed.

Lemma sign_block_spec inst txns key t b w :
  wf_block_fields inst → ci_transaction_list inst = Some txns → ci_private_key inst = Some key →
  0 ≤ t → built b = block_contents inst t txns → capacity b = block_size txns →
  post (sign_block b key) (λ r w',
    match r with
    | Ok cert => block_certificate inst cert ∧ length cert = block_size txns
    | Err _ => builder_faulty
    end) w.
Proof.
  intros Hwf Htx Hkey Ht Hb Hc. unfold sign_block. apply post_bind. unfold add.
  apply post_act, post_run. destruct (vccert_builder_sign _ _ _ w) as [[rc b'] w'] eqn:E. cbn [fst snd].
  apply post_if; intros Hrc; post_steps.
  { intros R. pose proof (reliable_sign _ R b (pk_id key) (pk_sign_privkey key) w) as H. rewrite E in H.
    simpl in H. pose proof Hwf as (_&_&_&Hkid). specialize (Hkid key Hkey) as Hkl.
    pose proof law_field_max. unfold is_uuid in Hkl. rewrite H in Hrc; [done|lia|]. rewrite Hb, Hc.
    rewrite (block_size_exact inst t txns key (memset Byte.x00 signature_size))
      by (done || apply length_memset). rewrite fields_size_app. unfold fields_size. simpl. rewrite length_memset. lia. }
  apply negb_false_iff, Z.eqb_eq in Hrc as ->.
  destruct (law_builder_sign _ _ _ _ _ _ E) as (sig&Hl&Hs&Hb'). rewrite Hb in Hs, Hb'.
  destruct (vccert_builder_emit b') as [cert|] eqn:Ec; post_steps.
  - split; [by exists txns, key, t, sig, b'|]. destruct (law_emit _ _ Ec) as [-> _].
    rewrite Hb'. symmetry. by apply block_size_exact.
  - intros R. by destruct (reliable_emit _ R b').
Qed.

(** ** Reading the block back *)

Lemma values_app f fs gs : values f (fs ++ gs) = values f fs ++ values f gs.
Proof. unfold values. by rewrite filter_app, fmap_app. Qed.

Lemma values_wrapped f txns :
  values f (wrapped txns)
  = if decide (f = VCCERT_FIELD_TYPE_WRAPPED_TRANSACTION_TUPLE) then ct_cert <$> txns else [].
Proof.
  unfold values, wrapped. destruct (decide _) as [->|Hne]; induction txns as [|txn txns IH]; try done;
    rewrite fmap_cons, filter_cons; cbn [fst].
  - by rewrite decide_True, !fmap_cons, IH.
  - by rewrite decide_False by congruence.
Qed.

Lemma finds_first x v vs : finds x (v :: vs) → x.1 = Some v.
Proof. by intros [? _]. Qed.

Lemma wrapped_size txns : (length txns ≤ fields_size (wrapped txns))%nat.
Proof.
  unfold fields_size, wrapped, field_size. pose proof law_field_overhead.
  induction txns as [|txn txns IH]; [done|]. rewrite fmap_cons. cbn [length sum_list_with snd]. lia.
Qed.

(** All the fields of a block. *)
Lemma block_certificate_finds inst cert :
  block_certificate inst cert →
  ∃ txns t tail, ci_transaction_list inst = Some txns ∧
    values VCCERT_FIELD_TYPE_WRAPPED_TRANSACTION_TUPLE tail = [] ∧
    (length txns ≤ length cert)%nat ∧
    ∀ f, finds (vccert_parser_find_short (vccert_parser_of cert) f)
           (values f (block_header inst t) ++ values f (wrapped txns) ++ values f tail).
Proof.
  intros (txns&key&t&sig&b&Htx&_&_&_&_&He&Hb). destruct (law_emit _ _ He) as [Hlen Hf].
  exists txns, t, [(VCCERT_FIELD_TYPE_SIGNER_ID, pk_id key); (VCCERT_FIELD_TYPE_SIGNATURE, sig)].
  split_and!; [done|done| |].
  - rewrite Hlen, Hb. unfold block_contents. rewrite !fields_size_app.
    pose proof (wrapped_size txns). lia.
  - intros f. specialize (Hf f). rewrite Hb in Hf. unfold block_contents in Hf.
    rewrite !values_app, <- (assoc_L (++)) in Hf. exact Hf.
Qed.

Lemma block_cert_get inst cert f v size :
  block_certificate inst cert → length v = size →
  (∀ t, ∃ vs, values f (block_header inst t) = v :: vs) → cert_get cert f size = Some v.
Proof.
  intros (txns&t&tail&_&_&_&Hf)%block_certificate_finds Hlen Hv. destruct (Hv t) as [vs Hvs].
  specialize (Hf f). rewrite Hvs in Hf. apply finds_first in Hf. unfold cert_get.
  rewrite Hf, Hlen. by rewrite Nat.eqb_refl.
Qed.

Lemma finds_wrapped_list x v vs fuel :
  finds x (v :: vs) → (length vs ≤ fuel)%nat → wrapped_list fuel x.2 v = v :: vs.
Proof.
  revert x v fuel. induction vs as [|v' vs IH]; intros x v fuel [Hx Hn] Hfuel; simpl in Hn.
  - destruct fuel; simpl; destruct (vccert_parser_find_next x.2) as [[?|] ?]; done.
  - destruct fuel as [|fuel]; [simpl in *; lia|]. simpl. destruct Hn as [Hv Hn].
    specialize (IH (vccert_parser_find_next x.2) v' fuel). simpl in Hfuel.
    destruct (vccert_parser_find_next x.2) as [y p] eqn:E. simpl in Hv. subst y. f_equal.
    apply IH; [by split|lia].
Qed.

Lemma block_cert_children inst cert txns :
  block_certificate inst cert → ci_transaction_list inst = Some txns → block_children cert = ct_cert <$> txns.
Proof.
  intros (txns'&t&tail&Htx&Htail&Hlen&Hf)%block_certificate_finds Htx'. rewrite Htx' in Htx. injection Htx as <-.
  specialize (Hf VCCERT_FIELD_TYPE_WRAPPED_TRANSACTION_TUPLE).
  rewrite values_wrapped, decide_True, Htail, app_nil_r in Hf by done. cbn in Hf.
  unfold block_children. destruct (vccert_parser_find_short _ _) as [x p].
  destruct txns as [|txn txns]; simpl in Hf; [by subst x|]. destruct Hf as [Hx Hf]. simpl in Hx. subst x.
  apply (finds_wrapped_list (Some (ct_cert txn), p)); [by split|]. change (length (ct_cert <$> txns) ≤ length cert)%nat. rewrite length_fmap. simpl in Hlen. lia.
Qed.

(** The data service accepts a block of the canonization service: when the
    instance names the block after the latest one, whatever time it was made at
    and whoever signed it, appending its certificate to the ledger passes every
    check of the block itself, and is exactly the canonization of the listed
    transactions, in their order; it can only fail for a first transaction
    without an identifier, a block identifier that was used before, or one of the
    transactions. *)
Lemma block_appends inst cert lg txn txns :
  block_certificate inst cert → wf_block_fields inst →
  ci_transaction_list inst = Some (txn :: txns) →
  ci_block_height inst = block_height lg + 1 → block_height lg + 1 < 2 ^ 64 →
  ci_previous_block_id inst = last_block_id (lg_blocks lg) →
  ci_block_id inst ∉ [vccert_certificate_type_uuid_root_block; zero_uuid; ff_uuid] →
  ledger_append lg (ci_block_id inst) cert =
    match cert_get (ct_cert txn) VCCERT_FIELD_TYPE_CERTIFICATE_ID 16 with
    | None => Err AGENTD_ERROR_DATASERVICE_MISSING_CHILD_TRANSACTION_UUID
    | Some first =>
        if bool_decide (ci_block_id inst ∈ bk_id <$> lg_blocks lg)
        then Err AGENTD_ERROR_DATASERVICE_MDB_PUT_FAILURE
        else children_apply (block_height lg + 1) (ci_block_id inst)
               (Ledger (lg_blocks lg ++ [Blk (ci_block_id inst) first cert])
                  (lg_txns lg) (lg_artifacts lg) (lg_queue lg))
               (ct_cert <$> txn :: txns)
    end.
Proof.
  intros Hc (Hid&Hprev&_) Htx Hh Hmax Hp Hsent. unfold ledger_append.
  rewrite (block_cert_get inst cert _ (be_enc 8 (ci_block_height inst)) 8 Hc)
    by (first [apply length_be_enc|intros t; by eexists]).
  assert (u64 (ci_block_height inst)) as Hu by (rewrite Hh; unfold u64, block_height in *; lia).
  rewrite be_dec_enc by exact Hu. rewrite Hh, Z.eqb_refl. cbn [negb].
  rewrite (block_cert_get inst cert _ (ci_previous_block_id inst) 16 Hc) by (first [done|intros t; by eexists]).
  rewrite bool_decide_true by done. cbn [negb].
  rewrite (block_cert_get inst cert _ (ci_block_id inst) 16 Hc) by (first [done|intros t; by eexists]).
  rewrite bool_decide_true by done. cbn [negb].
  by rewrite (block_cert_children inst cert _ Hc Htx).
Qed.
End cert.
