(* ===== verification/CanonizationSpec.v ===== *)
(** * What the canonization service does

    The reactions of the service as a pure function on its instance, and the
    theorem that every callback performs one of them: it changes the instance and
    sends exactly one message, or sets the timer, or ends the event loop. *)

From S2P Require Import Prelude Inet StatusCodes Contexts Lmdb Records Vccert PqRep BlockMake Ledger RequestCodec RequestSpec ResponseCodec ResponseSpec Ipc IpcSpec Dispatch DispatchInv Service ServiceSpec ServiceRefine RpcSpec ClientApi ClientSpec NotificationCodec Canonization BlockCert.

(** ** The platform

    Every socket has the buffers of [LIBEVENT_laws], and an operation on one does
    not touch the others.  [sleeps w] are the timers that were set so far, in
    milliseconds.  All other library functions touch neither. *)

Class CANON_view (W : Type) `{M : MALLOC W} `{SK : SOCKETS W} := {
  #[global] canon_sock :: ∀ s, LIBEVENT_laws W (EV := sockets s);
  sleeps : W → list Z;
}.

Section view.
Context {W : Type} {M : MALLOC W} {SK : SOCKETS W} {CV : CANON_view W}.

Definition view (s : sock_id) : W → sock_view := sock (LIBEVENT_laws := canon_sock s).

(** [apart X m]: running [m] leaves the sockets that are not in [X], and the
    timers. *)
Definition apart {A} (X : sock_id → Prop) (m : Act W A) : Prop :=
  ∀ w, (∀ s, ¬ X s → view s (m w).2 = view s w) ∧ sleeps (m w).2 = sleeps w.
Definition quiet {A} (m : Act W A) : Prop := apart (λ _, False) m.

Lemma apart_ret {A} X (a : A) : apart X (ret a).
Proof. done. Qed.
Lemma apart_throw {A} X s : apart X (throw s : Eff W A).
Proof. done. Qed.
Lemma apart_ok {A} X (a : A) : apart X (ok a : Eff W A).
Proof. done. Qed.
Lemma apart_act {A B} X (m : Act W A) (k : A → Act W B) :
  apart X m → (∀ a, apart X (k a)) → apart X (act m k).
Proof.
  intros Hm Hk w. unfold act. specialize (Hm w). destruct (m w) as [a w1]. simpl in Hm.
  destruct Hm as [Hv Hs]. destruct (Hk a w1) as [Hv' Hs']. split; [|congruence].
  intros s Hx. rewrite Hv' by done. by apply Hv.
Qed.
Lemma apart_bind {A B} X (m : Eff W A) (k : A → Eff W B) :
  apart X m → (∀ a, apart X (k a)) → apart X (bind m k).
Proof. intros Hm Hk. apply apart_act; [done|]. intros [a|s]; [apply Hk|apply apart_throw]. Qed.
Lemma apart_if {A} X (b : bool) (m1 m2 : Act W A) : apart X m1 → apart X m2 → apart X (if b then m1 else m2).
Proof. by destruct b. Qed.
Lemma quiet_apart {A} X (m : Act W A) : quiet m → apart X m.
Proof. intros H w. destruct (H w) as [Hv Hs]. split; [|done]. intros s _. apply Hv. by intros []. Qed.
End view.
#[global] Hint Resolve @apart_ret @apart_throw @apart_ok @apart_act @apart_bind @apart_if : apart.
#[global] Hint Extern 5 (apart _ _) => (apply quiet_apart) : apart.

Class CANON_laws (W : Type) `{CV : CANON_view W} `{VB : VCCRYPT_BUFFER W} `{VC : VCCERT W}
    `{BLD : VCCERT_BUILDER W} `{LIST : LINKED_LIST W} `{LOOP : EVENT_LOOP W} `{RA : RCPR_ALLOCATOR W}
    `{PS : PSOCK W} := {
  law_own_read : ∀ s, apart (eq s) (evbuffer_read (LIBEVENT := sockets s));
  law_own_pullup : ∀ s n, apart (eq s) (evbuffer_pullup (LIBEVENT := sockets s) n);
  law_own_length : ∀ s, apart (eq s) (evbuffer_get_length (LIBEVENT := sockets s));
  law_own_write_length : ∀ s, apart (eq s) (evbuffer_get_write_length (LIBEVENT := sockets s));
  law_own_drain : ∀ s n, apart (eq s) (evbuffer_drain (LIBEVENT := sockets s) n);
  law_own_remove : ∀ s n, apart (eq s) (evbuffer_remove (LIBEVENT := sockets s) n);
  law_own_add : ∀ s b, apart (eq s) (evbuffer_add (LIBEVENT := sockets s) b);
  law_own_write : ∀ s, apart (eq s) (evbuffer_write (LIBEVENT := sockets s));
  law_quiet_malloc : ∀ n, quiet (malloc n);
  law_quiet_buffer_init : ∀ n, quiet (vccrypt_buffer_init n);
  law_quiet_options : quiet vccert_parser_options_simple_init;
  law_quiet_parser : ∀ b, quiet (vccert_parser_init b);
  law_quiet_builder : ∀ n, quiet (vccert_builder_init n);
  law_quiet_uint16 : ∀ b f v, quiet (vccert_builder_add_short_uint16 b f v);
  law_quiet_uint32 : ∀ b f v, quiet (vccert_builder_add_short_uint32 b f v);
  law_quiet_uint64 : ∀ b f v, quiet (vccert_builder_add_short_uint64 b f v);
  law_quiet_add_buffer : ∀ b f v, quiet (vccert_builder_add_short_buffer b f v);
  law_quiet_sign : ∀ b id key, quiet (vccert_builder_sign b id key);
  law_quiet_time : quiet time;
  law_quiet_list_init : quiet linked_list_init;
  law_quiet_insert : quiet linked_list_insert_end;
  law_quiet_allocate : ∀ n, quiet (rcpr_allocator_allocate n);
  law_quiet_reclaim : quiet rcpr_allocator_reclaim;
  law_quiet_writecb : ∀ s b, quiet (ipc_set_writecb_noblock s b);
  law_quiet_exit : quiet ipc_exit_loop;
  law_list_size : (0 < sizeof_linked_list)%nat;
  (** The timer that was prepared is the one that is set. *)
  law_timer_init : ∀ ms w rc w', ipc_timer_init ms w = (rc, w') →
    (∀ s, view s w' = view s w) ∧ sleeps w' = sleeps w ∧
    (rc = 0 → ∀ w2, ipc_event_loop_add_timer w' = (0, w2) →
       (∀ s, view s w2 = view s w) ∧ sleeps w2 = sleeps w ++ [ms]);
}.
#[global] Hint Resolve law_own_read law_own_pullup law_own_length law_own_write_length law_own_drain law_own_remove
  law_own_add law_own_write law_quiet_malloc law_quiet_buffer_init law_quiet_options law_quiet_parser
  law_quiet_builder law_quiet_uint16 law_quiet_uint32 law_quiet_uint64 law_quiet_add_buffer
  law_quiet_sign law_quiet_time law_quiet_list_init law_quiet_insert law_quiet_allocate
  law_quiet_reclaim law_quiet_writecb law_quiet_exit : apart.

Ltac apart_tac :=
  repeat match goal with
  | |- apart _ (act _ _) => apply apart_act; [|intros ?]
  | |- apart _ (bind _ _) => apply apart_bind; [|intros ?]
  | |- apart _ (if _ then _ else _) => apply apart_if
  | |- apart _ (match ?x with _ => _ end) => destruct x
  end; eauto with apart.

(** On a reliable socket whose transfers do not fail, a packet is written. *)
Lemma write_data_noblock_sure {W : Type} `{EVL : LIBEVENT_laws W} d w :
  EV_reliable W → (∀ w, 0 ≤ (evbuffer_write w).1) → (ipc_write_data_noblock d w).1 = Ok tt.
Proof.
  intros R Hw. change ((λ r (_ : W), r = Ok tt) (ipc_write_data_noblock d w).1 (ipc_write_data_noblock d w).2).
  apply post_run. unfold ipc_write_data_noblock.
  do 3 (apply post_bind, post_add_sure; [intros ? _ _|intros ? Hf; by destruct (Hf R)]).
  apply post_act, post_run, post_if; intros Hk; [|by apply post_ret].
  unfold ipc_socket_write_from_buffer in Hk. match type of Hk with ((evbuffer_write ?w).1 <? 0) = _ => pose proof (Hw w) end. lia.
Qed.

(** The peer has not closed the connection, and reading from it does not fail. *)
Definition readable `{EV : LIBEVENT W} (w : W) : Prop :=
  0 < (evbuffer_read w).1.1 ∨ (evbuffer_read w).1.1 < 0 ∧ (evbuffer_read w).1.2 = true.

Section read_errors.
Context {W : Type} {M : MALLOC W} {EV : LIBEVENT W}.

Definition not_closed {A} (r : result A) : Prop :=
  r ≠ Err AGENTD_ERROR_IPC_EVBUFFER_READ_FAILURE ∧ r ≠ Err AGENTD_ERROR_IPC_EVBUFFER_EOF.

(** Once the socket has been read, nothing fails for a closed connection. *)
Lemma read_data_noblock_closed w :
  readable w → post ipc_read_data_noblock (λ r _, not_closed r) w.
Proof.
  intros Hr. unfold ipc_read_data_noblock, peek, check_type, packet_size, require_length, drain_header,
    remove_value. apply post_act, post_run. destruct (evbuffer_read w) as [[k b] w1] eqn:E. cbn [fst snd].
  unfold readable in Hr. rewrite E in Hr. simpl in Hr.
  replace ((k <? 0) && negb b) with false by (destruct Hr as [?|[_ ->]]; [|by rewrite andb_false_r];
    symmetry; apply andb_false_iff; left; lia).
  replace (k =? 0) with false by lia.
  repeat match goal with
  | |- post (bind _ _) _ _ => apply post_bind
  | |- post (act _ _) _ _ => apply post_act
  | |- post (if _ then _ else _) _ _ => apply post_if; intros _
  | |- post (throw _) _ _ => apply post_ret; by split
  | |- post (ok _) _ _ => apply post_ret
  | |- post (match ?x with _ => _ end) _ _ => destruct x
  | |- post _ _ _ => apply post_run
  | |- not_closed _ => by split
  end.
Qed.
End read_errors.

(** Nothing outside the program fails. *)
Record CANON_reliable (W : Type) `{CL : CANON_laws W} `{BL : !VCCERT_BUILDER_laws W} : Prop := {
  cr_socket : ∀ s, EV_reliable W (EVL := canon_sock s);
  cr_write : ∀ s w, 0 ≤ (evbuffer_write (LIBEVENT := sockets s) w).1;
  cr_buffer : ∀ n w, (vccrypt_buffer_init n w).1.1 = 0;
  cr_allocate : ∀ n w, (rcpr_allocator_allocate n w).1.1 = 0;
  cr_list_init : ∀ w, (linked_list_init w).1 = 0;
  cr_insert : ∀ w, (linked_list_insert_end w).1 = 0;
  cr_options : ∀ w, (vccert_parser_options_simple_init w).1 = true;
  cr_parser : ∀ b w, (vccert_parser_init b w).1 = true;
  cr_builder : BUILDER_reliable W;
  cr_timer_init : ∀ ms w, (ipc_timer_init ms w).1 = 0;
  cr_add_timer : ∀ w, (ipc_event_loop_add_timer w).1 = 0;
}.

(** ** Reactions *)

(** What the service sends: a request to the data service, the block it has made,
    a request for a block identifier, the announcement of a block; or the timer
    it sets. *)
Inductive output : Type :=
  | out_request (r : api_request)
  | out_block
  | out_random
  | out_notify (id : bytes)
  | out_sleep (milliseconds : Z).

(** What it reacts to: the timer, a block identifier, the answer to a request, the
    answer to an announcement. *)
Inductive input : Type :=
  | in_timer
  | in_random (id : bytes)
  | in_answer (r : api_request) (res : result answer)
  | in_notified.

Section react.
Context {W : Type} {VC : VCCERT W}.

Abbreviation instance := canonizationservice_instance.
Abbreviation reaction := (instance * output)%type.

Definition start_round (i : instance) : reaction :=
  (set_state CANONIZATIONSERVICE_STATE_WAITRESP_GET_RANDOM_BYTES (set_transaction_list (Some []) i), out_random).

Definition close_context (i : instance) : reaction :=
  (set_state CANONIZATIONSERVICE_STATE_WAITRESP_CHILD_CONTEXT_CLOSE i,
   out_request (child_context_close (ReqChildClose (ci_data_child_context i)))).

Definition announce (i : instance) : reaction :=
  (set_state CANONIZATIONSERVICE_STATE_WAITRESP_NOTIFY_BLOCK_UPDATE i, out_notify (ci_block_id i)).

(** Nothing to canonize: the first time, announce the latest block. *)
Definition nothing_to_make (i : instance) : reaction :=
  if ci_first_time i then announce (set_block_id (ci_previous_block_id i) (set_first_time false i))
  else close_context i.

Definition make_block (i : instance) : reaction :=
  match ci_transaction_list i with
  | Some (_ :: _) => (set_state CANONIZATIONSERVICE_STATE_WAITRESP_BLOCK_MAKE i, out_block)
  | _ => nothing_to_make i
  end.

Definition ask_first (i : instance) : reaction :=
  (set_state CANONIZATIONSERVICE_STATE_WAITRESP_PQ_TXN_FIRST_GET i,
   out_request (transaction_get_first (ReqTxnGetFirst (ci_data_child_context i)))).

(** Take an attested transaction, and ask for the next one unless the block is
    full or the queue ends. *)
Definition take_transaction (i : instance) (n : data_transaction_node) (cert : bytes) : reaction :=
  let txns := default [] (ci_transaction_list i) ++
              [CanonizationTransaction (enc_txn_node (txn_sent n zero_uuid cert)) cert] in
  let i := set_transaction_list (Some txns) i in
  if (Z.of_nat (length txns) =? ci_block_max_transactions i) || bool_decide (tn_next n = ff_uuid)
  then make_block i
  else (i, out_request (transaction_get (ReqTxnGet (ci_data_child_context i) (tn_next n)))).

Definition react_transaction (i : instance) (finish : reaction) (n : data_transaction_node) (cert : bytes)
  : reaction :=
  if tn_state n =? DATASERVICE_TRANSACTION_NODE_STATE_ATTESTED then take_transaction i n cert else finish.

(** The signature of the latest block is kept if it has the size of one. *)
Definition note_signature (cert : bytes) (i : instance) : option instance :=
  match (vccert_parser_find_short (vccert_parser_of cert) VCCERT_FIELD_TYPE_SIGNATURE).1 with
  | None => None
  | Some sig => Some (if (length sig =? 64)%nat then set_previous_block_signature sig i else i)
  end.

(** The reaction to an answer of the data service; [None]: leave the event
    loop. *)
Definition react_answer (i : instance) (r : api_request) (res : result answer) : option reaction :=
  match r, res with
  | child_context_create _, Ok (answer_child child) =>
      let i := set_state CANONIZATIONSERVICE_STATE_WAITRESP_LATEST_BLOCK_ID_GET (set_data_child_context child i) in
      Some (i, out_request (block_id_latest_read (ReqBlockIdLatest child)))
  | block_id_latest_read _, Ok (answer_latest_id id) =>
      let i := set_previous_block_id id i in
      if bool_decide (id = vccert_certificate_type_uuid_root_block)
      then Some (ask_first (set_block_height 1 i))
      else Some (set_state CANONIZATIONSERVICE_STATE_WAITRESP_BLOCK_GET i,
                 out_request (block_read (ReqBlockRead (ci_data_child_context i) id true)))
  | block_read _, Ok (answer_block n cert read_cert) =>
      ask_first <$> note_signature (if read_cert then cert else []) (set_block_height (wrap64 (bn_height n + 1)) i)
  | transaction_get_first _, Ok (answer_first_txn n cert) =>
      Some (react_transaction i (nothing_to_make i) n cert)
  | transaction_get_first _, Err s =>
      if s =? AGENTD_ERROR_DATASERVICE_NOT_FOUND then Some (nothing_to_make i) else None
  | transaction_get _, Ok (answer_txn n cert) => Some (react_transaction i (make_block i) n cert)
  | transaction_get _, Err s =>
      if s =? AGENTD_ERROR_DATASERVICE_NOT_FOUND then Some (make_block i) else None
  | block_make _, _ => Some (announce i)
  | child_context_close _, _ =>
      let txns := default [] (ci_transaction_list i) in
      let i := set_transaction_list None
                 (set_block_id (memset Byte.x00 16) (set_state CANONIZATIONSERVICE_STATE_IDLE i)) in
      if Z.of_nat (length txns) =? ci_block_max_transactions i then Some (start_round i)
      else Some (i, out_sleep (ci_block_max_milliseconds i))
  | _, _ => None
  end.

Definition react (i : instance) (x : input) : option reaction :=
  match x with
  | in_timer => Some (start_round i)
  | in_random id =>
      if bool_decide (ci_state i = CANONIZATIONSERVICE_STATE_WAITRESP_GET_RANDOM_BYTES) then
        Some (set_state CANONIZATIONSERVICE_STATE_WAITRESP_CHILD_CONTEXT_CREATE (set_block_id id i),
              out_request (child_context_create (ReqChildCreate canonization_caps)))
      else None
  | in_answer r res => react_answer i r res
  | in_notified =>
      if bool_decide (ci_state i = CANONIZATIONSERVICE_STATE_WAITRESP_NOTIFY_BLOCK_UPDATE)
      then Some (close_context i) else None
  end.
End react.

(** ** Outcomes *)

Definition block_update_request (id : bytes) : notification_request :=
  NotificationRequest AGENTD_NOTIFICATIONSERVICE_API_METHOD_ID_BLOCK_UPDATE 7474 (Some id).

Definition block_request (i : canonizationservice_instance) (cert : bytes) : api_request :=
  block_make (ReqBlockMake (ci_data_child_context i) (ci_block_id i) cert).

Section outcome.
Context {W : Type} {M : MALLOC W} {VB : VCCRYPT_BUFFER W} {VC : VCCERT W} {BLD : VCCERT_BUILDER W}.
Context {LIST : LINKED_LIST W} {LOOP : EVENT_LOOP W} {RA : RCPR_ALLOCATOR W} {PS : PSOCK W}.
Context {SK : SOCKETS W} {CV : CANON_view W} {CL : CANON_laws W} {BL : VCCERT_BUILDER_laws W}.
Context {VBL : VCCRYPT_BUFFER_laws W} {RAL : RCPR_ALLOCATOR_laws W}.

Abbreviation instance := canonizationservice_instance.

Definition canon_faulty : Prop := CANON_reliable W → False.

(** What can still be read from a socket, and all that was written to it. *)
Definition wire_in (s : sock_id) (w : W) : bytes := instream (EVL := canon_sock s) w.
Definition wire_out (s : sock_id) (w : W) : bytes := outstream (EVL := canon_sock s) w.

(** The world after sending [d] on socket [s], or after doing nothing. *)
Definition same (w w' : W) : Prop :=
  (∀ s, wire_in s w' = wire_in s w ∧ wire_out s w' = wire_out s w) ∧ sleeps w' = sleeps w.
Definition sends (s : sock_id) (d : bytes) (w w' : W) : Prop :=
  (∀ s', wire_in s' w' = wire_in s' w) ∧
  (∀ s', wire_out s' w' = wire_out s' w ++ if decide (s' = s) then frame (msg_data d) else []) ∧
  sleeps w' = sleeps w.

Definition emitted (i : instance) (o : output) (w w' : W) : Prop :=
  match o with
  | out_request r => sends data_sock (request_packet r) w w'
  | out_block => ∃ cert, block_certificate i cert ∧ sends data_sock (request_packet (block_request i cert)) w w'
  | out_random => sends random_sock block_id_request w w'
  | out_notify id => sends notify_sock (notification_request_packet (block_update_request id)) w w'
  | out_sleep ms =>
      (∀ s, wire_in s w' = wire_in s w ∧ wire_out s w' = wire_out s w) ∧ sleeps w' = sleeps w ++ [ms]
  end.

(** The callback leaves the event loop. *)
Definition exits (r : option instance) : Prop := ∃ i, r = Some i ∧ ci_force_exit i = true.

(** A callback performs the reaction, or leaves the loop because there is none or
    because the platform failed. *)
Definition performs (x : option (instance * output)) (w : W) (r : option instance) (w' : W) : Prop :=
  (∃ i o, x = Some (i, o) ∧ r = Some i ∧ emitted i o w w') ∨ exits r ∧ (x = None ∨ canon_faulty).

Lemma same_refl w : same w w.
Proof. done. Qed.
Lemma same_trans w1 w2 w3 : same w1 w2 → same w2 w3 → same w1 w3.
Proof.
  intros [H1 Hs1] [H2 Hs2]. split; [|congruence]. intros s. destruct (H1 s), (H2 s). split; congruence.
Qed.

Lemma sends_from w1 w2 w3 s d : same w1 w2 → sends s d w2 w3 → sends s d w1 w3.
Proof.
  intros [H1 Hs1] (Hi&Ho&Hs). split_and!; [| |congruence]; intros s'; destruct (H1 s') as [Hi1 Ho1].
  - by rewrite Hi.
  - by rewrite Ho, Ho1.
Qed.
Lemma sends_to w1 w2 w3 s d : sends s d w1 w2 → same w2 w3 → sends s d w1 w3.
Proof.
  intros (Hi&Ho&Hs) [H1 Hs1]. split_and!; [| |congruence]; intros s'; destruct (H1 s') as [Hi1 Ho1].
  - by rewrite Hi1.
  - by rewrite Ho1, Ho.
Qed.

Lemma view_streams s w w' : view s w' = view s w → wire_in s w' = wire_in s w ∧ wire_out s w' = wire_out s w.
Proof. apply (sock_streams (EVL := canon_sock s)). Qed.

Lemma quiet_same {A} (m : Act W A) w : quiet m → same w (m w).2.
Proof. intros H. destruct (H w) as [Hv Hs]. split; [|done]. intros s. apply view_streams, Hv. by intros []. Qed.

(** A library call that touches nothing here. *)
Lemma post_quiet {A} (m : Act W A) (Q : A → W → Prop) w :
  quiet m → (∀ w', same w w' → Q (m w).1 w') → post m Q w.
Proof. intros Hm HQ. apply post_run, HQ. by apply quiet_same. Qed.

Lemma performs_from x w1 w2 r w3 : same w1 w2 → performs x w2 r w3 → performs x w1 r w3.
Proof.
  intros Hs [(i&o&Hx&Hr&He)|?]; [left|by right]. exists i, o. split_and!; [done..|].
  destruct o as [q| | |id|ms]; simpl in *; try by eapply sends_from.
  - destruct He as (cert&Hc&He). exists cert. split; [done|]. by eapply sends_from.
  - destruct He as [He Hz]. destruct Hs as [Hs Hz']. split; [|congruence]. intros s.
    destruct (He s), (Hs s). split; congruence.
Qed.

Lemma post_performs_from x (m : Act W (option instance)) w1 w2 :
  same w1 w2 → post m (performs x w2) w2 → post m (performs x w1) w2.
Proof. intros Hs H. eapply post_mono; [exact H|]. intros r w'. by apply performs_from. Qed.

Lemma post_exit i (Q : option instance → W → Prop) w :
  (∀ w', Q (Some (set_force_exit i)) w') → post (canonizationservice_exit_event_loop i) Q w.
Proof. intros HQ. unfold canonizationservice_exit_event_loop. apply post_act, post_run, post_ret, HQ. Qed.

Lemma exits_force i : exits (Some (set_force_exit i)).
Proof. by eexists. Qed.

Lemma post_exit_performs x i w0 w :
  x = None ∨ canon_faulty → post (canonizationservice_exit_event_loop i) (performs x w0) w.
Proof. intros H. apply post_exit. intros w'. right. split; [apply exits_force|done]. Qed.

(** ** Sending *)

Lemma apart_write_data s d : apart (eq s) (ipc_write_data_noblock (EV := sockets s) d).
Proof.
  unfold ipc_write_data_noblock, add_object, ipc_socket_write_from_buffer. apart_tac.
Qed.

Lemma apart_read_data s : apart (eq s) (ipc_read_data_noblock (EV := sockets s)).
Proof.
  unfold ipc_read_data_noblock, peek, check_type, packet_size, require_length, drain_header, remove_value.
  apart_tac.
Qed.

Lemma apart_others {A} s (m : Act W A) w s' :
  apart (eq s) m → s' ≠ s → wire_in s' (m w).2 = wire_in s' w ∧ wire_out s' (m w).2 = wire_out s' w.
Proof. intros H Hs. apply view_streams. destruct (H w) as [Hv _]. apply Hv. congruence. Qed.

(** A packet is sent, or the platform failed. *)
Lemma post_write_data s d (Q : result unit → W → Prop) w :
  sizeof d < 2 ^ 32 →
  (∀ w', sends s d w w' → Q (Ok tt) w') → (∀ e w', canon_faulty → Q (Err e) w') →
  post (ipc_write_data_noblock (EV := sockets s) d) Q w.
Proof.
  intros Hd Hok Herr.
  pose proof (write_data_noblock_spec (EVL := canon_sock s) d w Hd) as Hspec.
  pose proof (apart_write_data s d) as Ha. pose proof (λ s', apart_others s _ w s' Ha) as Hother.
  destruct (Ha w) as [_ Hz]. rewrite post_run in Hspec |- *.
  assert (CANON_reliable W → (ipc_write_data_noblock (EV := sockets s) d w).1 = Ok tt) as Hrel.
  { intros R. destruct Hspec as [_ [[[H|[H _]] _]|(_&Hf&_)]]; [done| |by destruct (Hf (cr_socket _ R s))].
    apply (write_data_noblock_sure (EVL := canon_sock s)); [apply (cr_socket _ R)|apply (cr_write _ R)]. }
  destruct (ipc_write_data_noblock d w) as [[[]|e] w']; simpl in *; [apply Hok|apply Herr].
  - destruct Hspec as [Hi [[_ Ho]|((e&[=])&_)]]. split_and!; [..|done]; intros s'.
    + destruct (decide (s' = s)) as [->|Hne]; [done|by apply Hother].
    + case_decide as Hs; [by subst s'|]. rewrite app_nil_r. by apply Hother.
  - intros R. by specialize (Hrel R).
Qed.

(** ** Requests *)

(** The request of a reaction can be put into a packet. *)
Definition sendable (i : instance) (o : output) : Prop :=
  match o with
  | out_request r => wf_request r ∧ sizeof (request_packet r) < 2 ^ 30
  | out_block =>
      u32 (ci_data_child_context i) ∧ wf_block_fields i ∧ is_Some (ci_private_key i) ∧
      Z.of_nat (block_size (default [] (ci_transaction_list i))) + 64 < 2 ^ 30 ∧
      Forall small (wrapped (default [] (ci_transaction_list i)))
  | out_notify id => is_uuid id
  | _ => True
  end.

Lemma quiet_encode_fields n fields : quiet (encode_fields n fields).
Proof. unfold encode_fields, quiet. apart_tac. Qed.
Lemma quiet_encode_request r : quiet (encode_request r).
Proof. destruct r; apply quiet_encode_fields. Qed.

Lemma post_sendreq r (Q : result unit → W → Prop) w :
  wf_request r → sizeof (request_packet r) < 2 ^ 30 →
  (∀ w', sends data_sock (request_packet r) w w' → Q (Ok tt) w') → (∀ e w', canon_faulty → Q (Err e) w') →
  post (api_sendreq (buffered (EV := sockets data_sock)) (encode_request r)) Q w.
Proof.
  intros Hwf Hsz Hok Herr. unfold api_sendreq. apply post_bind, post_quiet; [apply quiet_encode_request|].
  intros w1 Hs1. rewrite encode_request_spec by done. simpl.
  destruct (Z.eqb_spec (vccrypt_buffer_init (length (request_packet r)) w).1.1 0) as [E|E].
  2: { apply Herr. intros R. apply E, (cr_buffer _ R). }
  cbn [buffered tr_send]. unfold buffered_send. rewrite wrapped_packet.
  2: { split; [|lia]. unfold request_packet, sizeof. rewrite length_app, length_be_enc. lia. }
  apply post_act, post_write_data; [lia|intros w2 Hs2|intros e w2 Hf]; apply post_ret; [|by apply Herr].
  apply Hok. by eapply sends_from.
Qed.

Lemma send_request_performs s r i w :
  sendable (set_state s i) (out_request r) →
  post (send_request s (api_sendreq (buffered (EV := sockets data_sock)) (encode_request r)) i)
    (performs (Some (set_state s i, out_request r)) w) w.
Proof.
  intros [Hwf Hsz]. unfold send_request.
  apply post_act, post_sendreq; [done|done|intros w1 Hw1|intros e w1 Hf].
  - apply post_act, post_quiet; [eauto with apart|]. intros w2 Hw2. apply post_ret. left.
    exists (set_state s i), (out_request r). split_and!; [done..|]. by eapply sends_to.
  - apply post_exit_performs. by right.
Qed.

Lemma close_context_performs i w :
  u32 (ci_data_child_context i) →
  post (canonizationservice_child_context_close i) (performs (Some (close_context i)) w) w.
Proof.
  intros Hc. unfold canonizationservice_child_context_close.
  set (r := child_context_close (ReqChildClose (ci_data_child_context i))).
  apply post_act, (post_sendreq r); [done|by vm_compute|intros w1 Hw1|intros e w1 Hf].
  - apply post_act, post_quiet; [eauto with apart|]. intros w2 Hw2. apply post_ret. left.
    eexists _, _. split_and!; [done..|]. by eapply sends_to.
  - apply post_exit_performs. by right.
Qed.

Lemma announce_performs i w :
  is_uuid (ci_block_id i) →
  post (canonizationservice_notify_block_update i) (performs (Some (announce i)) w) w.
Proof.
  intros Hid. unfold canonizationservice_notify_block_update. set (q := block_update_request (ci_block_id i)).
  apply post_act.
  assert (quiet (notificationservice_api_encode_request (nq_method_id q) (nq_offset q) (nq_payload q))) as Hq.
  { unfold notificationservice_api_encode_request, quiet. apart_tac. }
  pose proof (encode_notification_request_spec q w) as He. rewrite post_run in He.
  apply post_quiet; [exact Hq|]. intros w1 Hw1. fold q.
  change (AGENTD_NOTIFICATIONSERVICE_API_METHOD_ID_BLOCK_UPDATE) with (nq_method_id q).
  change (Some (ci_block_id i)) with (nq_payload q). change 7474 with (nq_offset q).
  destruct He as [_ He]. assert (sizeof (notification_request_packet q) < 2 ^ 32) as Hsz.
  { unfold notification_request_packet, sizeof, is_uuid in *. simpl. len. }
  destruct (notificationservice_api_encode_request _ _ _ w).1 as [buf|e] eqn:E.
  - rewrite (He buf eq_refl). apply post_act, post_write_data; [done|intros w2 Hw2|intros e w2 Hf].
    + apply post_act. unfold await. apply post_act, post_quiet; [eauto with apart|]. intros w3 Hw3.
      apply post_ret, post_act, post_quiet; [eauto with apart|]. intros w4 Hw4. apply post_ret. left.
      eexists _, _. split_and!; [done..|]. eapply sends_from; [exact Hw1|].
      eapply sends_to; [exact Hw2|]. by eapply same_trans.
    + apply post_act, post_exit. intros w3. apply post_act, post_run, post_ret. right.
      split; [apply exits_force|by right].
  - apply post_exit_performs. right. intros R.
    pose proof (cr_allocate _ R (4 + 8 + length (default [] (nq_payload q))) w) as Ha. revert E.
    unfold notificationservice_api_encode_request, act.
    destruct (rcpr_allocator_allocate _ w) as [[rc b] w']. simpl in Ha. by subst rc.
Qed.

Lemma nothing_to_make_performs i w :
  u32 (ci_data_child_context i) → is_uuid (ci_block_id i) → is_uuid (ci_previous_block_id i) →
  post (canonizationservice_complete_update i) (performs (Some (nothing_to_make i)) w) w.
Proof.
  intros Hc Hid Hp. unfold canonizationservice_complete_update, nothing_to_make.
  destruct (ci_first_time i); [by apply announce_performs|by apply close_context_performs].
Qed.

(** ** The block *)

Lemma quiet_add m : quiet m → quiet (add m).
Proof. intros H. unfold quiet, add in *. apply apart_act; [exact H|]. intros [rc b]. apart_tac. Qed.

Lemma quiet_block_fields i txns : quiet (block_fields i txns).
Proof.
  assert (∀ b, quiet (add_transactions b txns)) as Htx.
  { induction txns as [|txn txns IH]; intros b; simpl; [apply apart_ok|].
    apply apart_bind; [apply quiet_add, law_quiet_add_buffer|exact IH]. }
  unfold block_fields. apply apart_bind; [apply quiet_add, law_quiet_builder|intros b].
  apply apart_bind; [apply quiet_add, law_quiet_uint32|intros b1].
  apply apart_act; [apply law_quiet_time|intros t]. apply apart_if; [apply apart_throw|].
  repeat (apply apart_bind; [apply quiet_add;
    first [apply law_quiet_uint64|apply law_quiet_uint16|apply law_quiet_add_buffer]|intros ?]).
  apply Htx.
Qed.

Lemma quiet_sign_block b key : quiet (sign_block b key).
Proof.
  unfold sign_block. apply apart_bind; [apply quiet_add, law_quiet_sign|]. intros b'.
  destruct (vccert_builder_emit b'); [apply apart_ok|apply apart_throw].
Qed.

(** A step that only works on the builder. *)
Lemma post_quiet_spec {A} (m : Act W A) (P Q : A → W → Prop) w :
  quiet m → post m P w → (∀ a w', same w w' → P a w' → Q a w') → post m Q w.
Proof. intros Hm HP HQ. rewrite post_run in HP |- *. apply HQ; [by apply quiet_same|done]. Qed.

Lemma make_block_performs i w :
  is_Some (ci_transaction_list i) → sendable i out_block →
  post (canonizationservice_block_make i) (performs (Some (make_block i)) w) w.
Proof.
  intros [txns Htx] (Hc&Hwf&[key Hkey]&Hsz&Hsmall). rewrite Htx in Hsz, Hsmall. simpl in Hsz, Hsmall.
  pose proof Hwf as (Hid&Hp&_). unfold canonizationservice_block_make, make_block. rewrite Htx.
  destruct txns as [|txn txns]; [by apply nothing_to_make_performs|]. set (l := txn :: txns) in *.
  apply post_act. eapply post_quiet_spec; [apply quiet_block_fields| |].
  { apply block_fields_spec; [done|by eexists|exact Hsmall]. }
  intros [b|e] w1 Hw1; [|intros Hf; apply post_exit_performs; right; intros R; apply Hf, (cr_builder _ R)].
  intros (t&Ht&Hb&Hcap). rewrite Hkey. apply post_act, post_bind.
  eapply post_quiet_spec; [apply quiet_sign_block| |].
  { by eapply sign_block_spec. }
  intros [cert|e] w2 Hw2; [|intros Hf; apply post_exit_performs; right; intros R; apply Hf, (cr_builder _ R)].
  intros [Hcert Hlen]. apply (post_sendreq (block_request i cert)).
  - by split.
  - unfold block_request, request_packet, sizeof. cbn [request_method request_fields concat].
    unfold is_uuid in Hid. cbn [bm_child_index bm_block_id bm_cert]. len.
  - intros w3 Hw3. unfold await. apply post_act, post_quiet; [eauto with apart|]. intros w4 Hw4. apply post_ret.
    left. eexists _, _. split_and!; [done..|]. exists cert. split; [exact Hcert|].
    eapply sends_from; [eapply same_trans; [exact Hw1|exact Hw2]|]. by eapply sends_to.
  - intros e w3 Hf. apply post_exit_performs. by right.
Qed.

(** ** The timer *)

Lemma timer_performs i w :
  ci_force_exit i = false →
  post (canonizationservice_timer_cb i) (performs (Some (start_round i)) w) w.
Proof.
  intros Hex. unfold canonizationservice_timer_cb. rewrite Hex.
  apply post_act, post_quiet; [eauto with apart|]. intros w1 Hw1. apply post_if; intros Hm.
  { apply post_exit_performs. right. intros R.
    pose proof (reliable_ev_malloc _ (cr_socket _ R data_sock) (Z.of_nat sizeof_linked_list) w) as Hr.
    pose proof law_list_size. rewrite Hr in Hm by lia. done. }
  apply post_act, post_quiet; [eauto with apart|]. intros w2 Hw2. apply post_if; intros Hl.
  { apply post_exit_performs. right. intros R. by rewrite (cr_list_init _ R w1) in Hl. }
  unfold canonizationservice_write_block_id_request.
  apply post_act, post_bind, post_write_data; [by vm_compute|intros w3 Hw3|intros e w3 Hf].
  - apply post_act, post_quiet; [eauto with apart|]. intros w4 Hw4. apply post_ret, post_ret. left.
    eexists _, _. split_and!; [done..|]. eapply sends_from; [eapply same_trans; [exact Hw1|exact Hw2]|].
    by eapply sends_to.
  - apply post_exit_performs. by right.
Qed.

(** The end of a round. *)
Definition end_round (i : instance) (should_sleep : bool) : instance * output :=
  let i := set_transaction_list None
             (set_block_id (memset Byte.x00 16) (set_state CANONIZATIONSERVICE_STATE_IDLE i)) in
  if should_sleep then (i, out_sleep (ci_block_max_milliseconds i)) else start_round i.

Lemma reset_performs i should_sleep w :
  ci_force_exit i = false → is_Some (ci_transaction_list i) →
  post (canonizationservice_reset i should_sleep) (performs (Some (end_round i should_sleep)) w) w.
Proof.
  intros Hex [txns Htx]. unfold canonizationservice_reset. cbn [ci_transaction_list set_block_id set_state].
  rewrite Htx. unfold end_round. destruct should_sleep; [|by apply timer_performs].
  apply post_act, post_run. destruct (ipc_timer_init _ w) as [rc w1] eqn:E1. cbn [fst snd].
  destruct (law_timer_init _ _ _ _ E1) as (Hv1&Hz1&Hadd). apply post_if; intros Hrc.
  { apply post_exit_performs. right. intros R.
    match type of E1 with ipc_timer_init ?ms _ = _ => pose proof (cr_timer_init _ R ms w) as Hr end.
    rewrite E1 in Hr. simpl in Hr. by subst rc. }
  apply negb_false_iff, Z.eqb_eq in Hrc as ->.
  apply post_act, post_run. destruct (ipc_event_loop_add_timer w1) as [rc w2] eqn:E2. cbn [fst snd].
  apply post_if; intros Hrc.
  { apply post_exit_performs. right. intros R. pose proof (cr_add_timer _ R w1) as Hr. rewrite E2 in Hr.
    simpl in Hr. by subst rc. }
  apply negb_false_iff, Z.eqb_eq in Hrc as ->. destruct (Hadd eq_refl w2 eq_refl) as [Hv2 Hz2].
  apply post_ret. left. eexists _, _. split_and!; [done..|]. split; [|done].
  intros s. by apply view_streams.
Qed.

(** ** Answers of the data service *)

(** The fields of the instance have their sizes, and there is a key to sign
    with. *)
Definition wf_canon (i : instance) : Prop :=
  u32 (ci_data_child_context i) ∧ wf_block_fields i ∧ is_Some (ci_private_key i).

(** A block of the transactions fits into a packet, and each into a field. *)
Definition block_fits (i : instance) : Prop :=
  Z.of_nat (block_size (default [] (ci_transaction_list i))) + 64 < 2 ^ 30 ∧
  Forall small (wrapped (default [] (ci_transaction_list i))).

Lemma block_sendable i : wf_canon i → block_fits i → sendable i out_block.
Proof. by intros (?&?&?) ?. Qed.

Lemma make_block_list i : ci_transaction_list (make_block i).1 = ci_transaction_list i.
Proof.
  unfold make_block, nothing_to_make. destruct (ci_transaction_list i) as [[|? ?]|] eqn:E; simpl;
    try destruct (ci_first_time i); done.
Qed.

Lemma take_transaction_list i n cert :
  ci_transaction_list (take_transaction i n cert).1
  = Some (default [] (ci_transaction_list i) ++
          [CanonizationTransaction (enc_txn_node (txn_sent n zero_uuid cert)) cert]).
Proof. unfold take_transaction. destruct (_ || _); [by rewrite make_block_list|done]. Qed.

Lemma txn_sent_fields n cert :
  wf_txn_node n → fits_packet cert →
  txn_node_next (enc_txn_node (txn_sent n zero_uuid cert)) = tn_next n ∧
  ntohl (txn_node_net_txn_state (enc_txn_node (txn_sent n zero_uuid cert))) = tn_state n.
Proof.
  intros Hn Hc. assert (wf_txn_node (txn_sent n zero_uuid cert)) as Hwf.
  { destruct Hn. unfold fits_packet, sizeof in *. split; simpl; unfold sizeof; (done || lia). }
  pose proof (txn_node_fields _ [] Hwf) as (_&_&Hx&_&_&_&Hs). by rewrite app_nil_r in *.
Qed.

Lemma set_state_same i : set_state (ci_state i) i = i.
Proof. by destruct i. Qed.

(** Taking a transaction of the queue. *)
Lemma transaction_performs i finish fin h n cert w :
  wf_txn_node n → fits_packet cert → wf_canon i → is_Some (ci_transaction_list i) →
  (tn_state n =? DATASERVICE_TRANSACTION_NODE_STATE_ATTESTED = true → block_fits (take_transaction i n cert).1) →
  (∀ w, post (finish i) (performs (Some fin) w) w) →
  post (transaction_response i finish
          (Ok (ResponseHeader h.1 h.2 0, enc_txn_node (txn_sent n zero_uuid cert), cert)))
    (performs (Some (react_transaction i fin n cert)) w) w.
Proof.
  intros Hn Hc Hwf [txns Htx] Hfit Hfin. destruct (txn_sent_fields n cert Hn Hc) as [Hnext Hstate].
  unfold transaction_response, react_transaction. cbn [rh_status].
  change (0 =? AGENTD_ERROR_DATASERVICE_NOT_FOUND) with false. cbn [negb].
  change (0 =? AGENTD_STATUS_SUCCESS) with true. cbn [negb].
  rewrite Hstate, Hnext, Z.eqb_sym. destruct (tn_state n =? _); cbn [negb]; [|apply Hfin]. specialize (Hfit eq_refl).
  apply post_act, post_quiet; [eauto with apart|]. intros w1 Hw1. apply post_if; intros Hm.
  { apply post_exit_performs. right. intros R.
    rewrite (reliable_ev_malloc _ (cr_socket _ R data_sock)) in Hm; [done|].
    unfold sizeof_canonizationservice_transaction, sizeof_txn_node. lia. }
  rewrite Htx. apply post_act, post_quiet; [eauto with apart|]. intros w2 Hw2. apply post_if; intros Hl.
  { apply post_exit_performs. right. intros R. by rewrite (cr_insert _ R w1) in Hl. }
  pose proof (same_trans _ _ _ Hw1 Hw2) as Hw.
  unfold take_transaction. rewrite Htx. change (default [] (Some txns)) with txns.
  unfold dataservice_api_node_ref_is_end. change (memset Byte.xff 16) with ff_uuid.
  unfold block_fits in Hfit. rewrite take_transaction_list, Htx in Hfit. simpl in Hfit.
  set (l := txns ++ _) in *. set (i' := set_transaction_list (Some l) i).
  change (ci_block_max_transactions i') with (ci_block_max_transactions i).
  assert (post (canonizationservice_block_make i') (performs (Some (make_block i')) w) w2) as Hmake.
  { eapply post_performs_from; [exact Hw|]. apply make_block_performs; [by eexists|].
    by apply block_sendable. }
  destruct (Z.of_nat (length l) =? _); [exact Hmake|]. destruct (bool_decide _); [exact Hmake|]. cbn [orb].
  eapply post_performs_from; [exact Hw|].
  rewrite <- (set_state_same i') at 2.
  apply (send_request_performs (ci_state i') (transaction_get (ReqTxnGet (ci_data_child_context i') (tn_next n)))).
  destruct Hwf as (Hchild&_). destruct Hn. split; [by split|].
  unfold request_packet, sizeof, is_uuid in *. cbn. len.
Qed.

(** The queue has no such transaction, or the query failed. *)
Lemma no_transaction_performs i finish fin h node cert s w :
  s ≠ 0 → (∀ w, post (finish i) (performs (Some fin) w) w) →
  post (transaction_response i finish (Ok (ResponseHeader h.1 h.2 s, node, cert)))
    (performs (if s =? AGENTD_ERROR_DATASERVICE_NOT_FOUND then Some fin else None) w) w.
Proof.
  intros Hs Hfin. unfold transaction_response. cbn [rh_status]. destruct (s =? _); [apply Hfin|].
  rewrite (proj2 (Z.eqb_neq _ _)) by done. cbn [negb]. apply post_exit_performs. by left.
Qed.

(** ** Decoding the answers *)

Lemma header_bind_method {A : Type} ok m p (k : dataservice_response_header → result A) x :
  (let? hdr := decode_response_header ok m p in k hdr) = Ok x → ntohl (le_dec (sub 0 4 p)) = m.
Proof.
  unfold decode_response_header, check. destruct ok; [|done]. cbn [result_bind].
  destruct (Z.eqb_spec m (ntohl (le_dec (sub 0 4 p)))); done.
Qed.
Lemma header_method ok m p x : decode_response_header ok m p = Ok x → ntohl (le_dec (sub 0 4 p)) = m.
Proof. intros H. apply (header_bind_method ok m p Ok x). by rewrite H. Qed.

Lemma answer_method_word r res p :
  decodes_answer r res p → (4 ≤ length p)%nat ∧ ntohl (le_dec (sub 0 4 p)) = request_method r.
Proof.
  intros [Hl Hd]. split; [rewrite Hl; unfold response_length; lia|].
  rewrite decode_response_eq in Hd.
  destruct r; apply result_map_Ok in Hd as (y&Hy&_);
    first [exact (header_method _ _ _ _ Hy)|exact (header_bind_method _ _ _ _ _ Hy)].
Qed.

(** The answers to a method are of its kind. *)
Ltac kinds Hg E :=
  let Hm := fresh in destruct Hg as [Hm _];
  match goal with a : answer |- _ => destruct a end; simpl in E;
  first [discriminate E | vm_compute in Hm; discriminate Hm | injection E as; subst].

Lemma decodes_child d res p :
  decodes_answer (child_context_create d) res p →
  good_result (request_method (child_context_create d)) res →
  ∃ h, match res with
  | Ok a => ∃ c, a = answer_child c ∧ u32 c ∧
      dataservice_decode_response_child_context_create p = Ok (ResponseHeader h.1 h.2 0, Some c)
  | Err s => s ≠ 0 ∧ dataservice_decode_response_child_context_create p = Ok (ResponseHeader h.1 h.2 s, None)
  end.
Proof.
  intros [_ Hd] Hg. rewrite decode_response_eq in Hd. apply result_map_Ok in Hd as ([h c]&Hd&E).
  eexists (_, _). destruct res as [a|s]; simpl in E.
  - pose proof (proj2 Hg) as Hdata. kinds Hg E. by eexists.
  - injection E as; subst. split; [simpl in Hg; lia|exact Hd].
Qed.

Lemma decodes_latest d res p :
  decodes_answer (block_id_latest_read d) res p →
  good_result (request_method (block_id_latest_read d)) res →
  ∃ h, match res with
  | Ok a => ∃ id, a = answer_latest_id id ∧ is_uuid id ∧
      dataservice_decode_response_latest_block_id_get p = Ok (ResponseHeader h.1 h.2 0, id)
  | Err s => s ≠ 0 ∧ ∃ x, dataservice_decode_response_latest_block_id_get p = Ok (ResponseHeader h.1 h.2 s, x)
  end.
Proof.
  intros [_ Hd] Hg. rewrite decode_response_eq in Hd. apply result_map_Ok in Hd as ([h c]&Hd&E).
  eexists (_, _). destruct res as [a|s]; simpl in E.
  - pose proof (proj2 Hg) as Hdata. kinds Hg E. by eexists.
  - injection E as; subst. split; [simpl in Hg; lia|]. eexists. exact Hd.
Qed.

Lemma decodes_block d res p :
  decodes_answer (block_read d) res p → good_result (request_method (block_read d)) res →
  ∃ h, match res with
  | Ok a => ∃ n cert rc, a = answer_block n cert rc ∧ wf_block_node n ∧
      let sent := if rc : bool then cert else [] in
      dataservice_decode_response_block_get p
      = Ok (ResponseHeader h.1 h.2 0, enc_block_node (block_sent n sent), sent)
  | Err s => s ≠ 0 ∧ ∃ x y, dataservice_decode_response_block_get p = Ok (ResponseHeader h.1 h.2 s, x, y)
  end.
Proof.
  intros [_ Hd] Hg. rewrite decode_response_eq in Hd. apply result_map_Ok in Hd as ([[h c] v]&Hd&E).
  eexists (_, _). destruct res as [a|s]; simpl in E.
  - pose proof (proj2 Hg) as Hdata. kinds Hg E. by eexists _, _, _.
  - injection E as; subst. split; [simpl in Hg; lia|]. eexists _, _. exact Hd.
Qed.

Lemma decodes_first d res p :
  decodes_answer (transaction_get_first d) res p → good_result (request_method (transaction_get_first d)) res →
  ∃ h, match res with
  | Ok a => ∃ n cert, a = answer_first_txn n cert ∧ wf_txn_node n ∧
      dataservice_decode_response_transaction_get_first p
      = Ok (ResponseHeader h.1 h.2 0, enc_txn_node (txn_sent n zero_uuid cert), cert)
  | Err s => s ≠ 0 ∧ ∃ x y, dataservice_decode_response_transaction_get_first p = Ok (ResponseHeader h.1 h.2 s, x, y)
  end.
Proof.
  intros [_ Hd] Hg. rewrite decode_response_eq in Hd. apply result_map_Ok in Hd as ([[h c] v]&Hd&E).
  eexists (_, _). destruct res as [a|s]; simpl in E.
  - pose proof (proj2 Hg) as Hdata. kinds Hg E. by eexists _, _.
  - injection E as; subst. split; [simpl in Hg; lia|]. eexists _, _. exact Hd.
Qed.

Lemma decodes_txn d res p :
  decodes_answer (transaction_get d) res p → good_result (request_method (transaction_get d)) res →
  ∃ h, match res with
  | Ok a => ∃ n cert, a = answer_txn n cert ∧ wf_txn_node n ∧
      dataservice_decode_response_transaction_get p
      = Ok (ResponseHeader h.1 h.2 0, enc_txn_node (txn_sent n zero_uuid cert), cert)
  | Err s => s ≠ 0 ∧ ∃ x y, dataservice_decode_response_transaction_get p = Ok (ResponseHeader h.1 h.2 s, x, y)
  end.
Proof.
  intros [_ Hd] Hg. rewrite decode_response_eq in Hd. apply result_map_Ok in Hd as ([[h c] v]&Hd&E).
  eexists (_, _). destruct res as [a|s]; simpl in E.
  - pose proof (proj2 Hg) as Hdata. kinds Hg E. by eexists _, _.
  - injection E as; subst. split; [simpl in Hg; lia|]. eexists _, _. exact Hd.
Qed.

(** ** The handlers *)

Lemma child_created_performs i d res p w :
  decodes_answer (child_context_create d) res p → good_result (request_method (child_context_create d)) res →
  post (canonizationservice_dataservice_response_child_context_create i p)
    (performs (react_answer i (child_context_create d) res) w) w.
Proof.
  intros Hd Hg. destruct (decodes_child _ _ _ Hd Hg) as [h H].
  unfold canonizationservice_dataservice_response_child_context_create. destruct res as [a|s].
  - destruct H as (c&->&Hc&->). cbn [rh_status negb]. change (0 =? AGENTD_STATUS_SUCCESS) with true. cbn [negb].
    apply (send_request_performs _ (block_id_latest_read (ReqBlockIdLatest c)) (set_data_child_context c i)).
    split; [done|by vm_compute].
  - destruct H as [Hs ->]. by apply post_exit_performs; left.
Qed.

Lemma ask_first_performs i w :
  u32 (ci_data_child_context i) →
  post (canonizationservice_dataservice_sendreq_transaction_get_first i) (performs (Some (ask_first i)) w) w.
Proof.
  intros Hc. apply (send_request_performs _ (transaction_get_first (ReqTxnGetFirst (ci_data_child_context i)))).
  split; [done|by vm_compute].
Qed.

Lemma latest_read_performs i d res p w :
  u32 (ci_data_child_context i) →
  decodes_answer (block_id_latest_read d) res p → good_result (request_method (block_id_latest_read d)) res →
  post (canonizationservice_dataservice_response_latest_block_id_read i p)
    (performs (react_answer i (block_id_latest_read d) res) w) w.
Proof.
  intros Hc Hd Hg. destruct (decodes_latest _ _ _ Hd Hg) as [h H].
  unfold canonizationservice_dataservice_response_latest_block_id_read. destruct res as [a|s].
  - destruct H as (id&->&Hid&->). cbn [rh_status]. change (0 =? AGENTD_STATUS_SUCCESS) with true. cbn [negb].
    unfold react_answer. destruct (bool_decide _); [by apply ask_first_performs|].
    apply (send_request_performs _ (block_read (ReqBlockRead (ci_data_child_context i) id true))
             (set_previous_block_id id i)).
    split; [by split|]. unfold request_packet, sizeof, is_uuid in *. cbn. len.
  - destruct H as (Hs&x&->). cbn [rh_status]. rewrite (proj2 (Z.eqb_neq _ _)) by done. cbn [negb].
    by apply post_exit_performs; left.
Qed.

Lemma block_sent_fields n cert :
  wf_block_node n → fits_packet cert →
  ntohll (block_node_net_block_height (enc_block_node (block_sent n cert))) = bn_height n.
Proof.
  intros Hn Hc. assert (wf_block_node (block_sent n cert)) as Hwf.
  { destruct Hn. unfold fits_packet, sizeof in *. split; simpl; unfold sizeof; (done || lia). }
  pose proof (block_node_fields _ [] Hwf) as (_&_&_&_&Hh&_). by rewrite app_nil_r in *.
Qed.

Lemma block_read_performs i d res p w :
  u32 (ci_data_child_context i) → result_fits res →
  decodes_answer (block_read d) res p → good_result (request_method (block_read d)) res →
  post (canonizationservice_dataservice_response_block_read i p)
    (performs (react_answer i (block_read d) res) w) w.
Proof.
  intros Hc Hfit Hd Hg. destruct (decodes_block _ _ _ Hd Hg) as [h H].
  unfold canonizationservice_dataservice_response_block_read. destruct res as [a|s].
  - destruct H as (n&cert&rc&->&Hn&->). cbn [rh_status]. change (0 =? AGENTD_STATUS_SUCCESS) with true.
    cbn [negb]. cbn [react_answer]. rewrite block_sent_fields; [|done|by destruct rc].
    set (sent := if rc : bool then cert else []). set (i' := set_block_height _ i).
    unfold parse_block. apply post_act, post_act, post_quiet; [eauto with apart|]. intros w1 Hw1.
    destruct (vccert_parser_options_simple_init w).1 eqn:E1; cbn [negb].
    2: { apply post_ret, post_exit_performs. right. intros R. by rewrite (cr_options _ R w) in E1. }
    apply post_act, post_quiet; [eauto with apart|]. intros w2 Hw2.
    destruct (vccert_parser_init sent w1).1 eqn:E2; cbn [negb].
    2: { apply post_ret, post_exit_performs. right. intros R. by rewrite (cr_parser _ R sent w1) in E2. }
    unfold note_signature. destruct (vccert_parser_find_short _ _).1 as [sig|].
    2: { apply post_ret, post_exit_performs. by left. }
    destruct (length sig =? 64)%nat; cbn [negb]; apply post_ret; cbn [fmap option_fmap option_map];
      (eapply post_performs_from; [eapply same_trans; [exact Hw1|exact Hw2]|]); by apply ask_first_performs.
  - destruct H as (Hs&x&y&->). cbn [rh_status]. rewrite (proj2 (Z.eqb_neq _ _)) by done. cbn [negb].
    by apply post_exit_performs; left.
Qed.

(** Conditions of the reactions that may make a block. *)
Definition can_react (i : instance) : Prop :=
  wf_canon i ∧ is_Some (ci_transaction_list i) ∧ ci_force_exit i = false ∧ block_fits i.

Lemma nothing_performs i : can_react i → ∀ w,
  post (canonizationservice_complete_update i) (performs (Some (nothing_to_make i)) w) w.
Proof. intros ((?&(?&?&_)&_)&_) w. by apply nothing_to_make_performs. Qed.

Lemma making_performs i : can_react i → ∀ w,
  post (canonizationservice_block_make i) (performs (Some (make_block i)) w) w.
Proof. intros (?&?&_&?) w. apply make_block_performs; [done|by apply block_sendable]. Qed.

Lemma react_transaction_fits i fin n cert :
  (tn_state n =? DATASERVICE_TRANSACTION_NODE_STATE_ATTESTED = true →
   block_fits (react_transaction i fin n cert).1) →
  tn_state n =? DATASERVICE_TRANSACTION_NODE_STATE_ATTESTED = true → block_fits (take_transaction i n cert).1.
Proof. unfold react_transaction. intros H E. rewrite E in H. auto. Qed.

Lemma first_read_performs i d res p w :
  can_react i → result_fits res →
  (∀ i' o, react_answer i (transaction_get_first d) res = Some (i', o) → block_fits i') →
  decodes_answer (transaction_get_first d) res p → good_result (request_method (transaction_get_first d)) res →
  post (canonizationservice_dataservice_response_transaction_first_read i p)
    (performs (react_answer i (transaction_get_first d) res) w) w.
Proof.
  intros Hi Hfit Hbf Hd Hg. destruct (decodes_first _ _ _ Hd Hg) as [h H]. pose proof Hi as (Hwf&Htx&_).
  unfold canonizationservice_dataservice_response_transaction_first_read. destruct res as [a|s].
  - destruct H as (n&cert&->&Hn&->). cbn [react_answer] in *.
    apply transaction_performs; [done..| |by apply nothing_performs]. intros Hat.
    apply (react_transaction_fits i (nothing_to_make i)); [|done]. intros _.
    destruct (react_transaction _ _ _ _) as [i' o]. by eapply Hbf.
  - destruct H as (Hs&x&y&->). apply no_transaction_performs; [done|by apply nothing_performs].
Qed.

Lemma txn_read_performs i d res p w :
  can_react i → result_fits res →
  (∀ i' o, react_answer i (transaction_get d) res = Some (i', o) → block_fits i') →
  decodes_answer (transaction_get d) res p → good_result (request_method (transaction_get d)) res →
  post (canonizationservice_dataservice_response_transaction_read i p)
    (performs (react_answer i (transaction_get d) res) w) w.
Proof.
  intros Hi Hfit Hbf Hd Hg. destruct (decodes_txn _ _ _ Hd Hg) as [h H]. pose proof Hi as (Hwf&Htx&_).
  unfold canonizationservice_dataservice_response_transaction_read. destruct res as [a|s].
  - destruct H as (n&cert&->&Hn&->). cbn [react_answer] in *.
    apply transaction_performs; [done..| |by apply making_performs]. intros Hat.
    apply (react_transaction_fits i (make_block i)); [|done]. intros _.
    destruct (react_transaction _ _ _ _) as [i' o]. by eapply Hbf.
  - destruct H as (Hs&x&y&->). apply no_transaction_performs; [done|by apply making_performs].
Qed.

Lemma answer_performs i r res p w :
  can_react i → result_fits res →
  (∀ i' o, react_answer i r res = Some (i', o) → block_fits i') →
  decodes_answer r res p → good_result (request_method r) res →
  post (canonizationservice_data_packet i p) (performs (react_answer i r res) w) w.
Proof.
  intros Hi Hfit Hbf Hd Hg. pose proof Hi as ((Hc&(Hid&_)&_)&[txns Htx]&Hex&_).
  destruct (answer_method_word _ _ _ Hd) as [Hlen Hm]. unfold canonizationservice_data_packet.
  rewrite (proj2 (Nat.ltb_ge _ _)) by lia. cbv zeta. rewrite Hm.
  destruct r; cbn [request_method]; cbn [Z.eqb Pos.eqb
    DATASERVICE_API_METHOD_LL_CHILD_CONTEXT_CREATE]; try (by apply post_exit_performs; left).
  all: first [by apply child_created_performs|by eapply latest_read_performs|by eapply block_read_performs
             |by eapply first_read_performs|by eapply txn_read_performs
             |by apply announce_performs|idtac].
  unfold canonizationservice_dataservice_response_child_context_close. rewrite Htx. cbn [react_answer].
  rewrite Htx. change (default [] (Some txns)) with txns. cbv zeta.
  pose proof (reset_performs i (negb (Z.of_nat (length txns) =? ci_block_max_transactions i)) w Hex) as H.
  unfold end_round in H. change (ci_block_max_transactions (set_transaction_list _ _))
    with (ci_block_max_transactions i). destruct (_ =? _); apply H; by eexists.
Qed.

(** ** The sockets *)

(** A packet has been taken from a socket. *)
Definition received (s : sock_id) (p : bytes) (w w' : W) : Prop :=
  wire_in s w = frame (msg_data p) ++ wire_in s w' ∧ (∀ s', s' ≠ s → wire_in s' w' = wire_in s' w) ∧
  (∀ s', wire_out s' w' = wire_out s' w) ∧ sleeps w' = sleeps w.

(** The frame of the packet is not complete in the buffer after what the socket had
    in [w] was read. *)
Definition partly (s : sock_id) (p : bytes) (w w' : W) : Prop :=
  (∀ rest, v_rbuf (view s w') ≠ frame (msg_data p) ++ rest) ∧
  view s w' = view s (evbuffer_read (LIBEVENT := sockets s) w).2.

(** What a read callback does when a packet is next on its socket: it waits for
    the rest of the packet, it takes the packet and reacts, or the socket or the
    platform failed. *)
Definition reads (s : sock_id) (p : bytes) (i : instance) (x : option (instance * output)) (w : W)
    (r : option instance) (w' : W) : Prop :=
  (r = Some i ∧ same w w' ∧ (partly s p w w' ∨ canon_faulty)) ∨
  (∃ w1, received s p w w1 ∧ performs x w1 r w') ∨
  exits r ∧ (¬ readable (EV := sockets s) w ∨ canon_faulty).

(** A packet that is next on a socket is taken, waited for, or the socket or the
    platform failed. *)
Lemma post_read_data s p rest (Q : result bytes → W → Prop) w :
  good_packet p → wire_in s w = frame (msg_data p) ++ rest →
  (∀ w1, received s p w w1 → Q (Ok p) w1) →
  (∀ w1, same w w1 → partly s p w w1 ∨ canon_faulty →
     Q (Err AGENTD_ERROR_IPC_WOULD_BLOCK) w1) →
  (∀ e w1, e ≠ AGENTD_ERROR_IPC_WOULD_BLOCK → ¬ readable (EV := sockets s) w ∨ canon_faulty → Q (Err e) w1) →
  post (ipc_read_data_noblock (EV := sockets s)) Q w.
Proof.
  intros Hp Hin Hok Hwait Herr. apply post_run.
  pose proof (read_data_noblock_spec (EVL := canon_sock s) w) as Hspec. rewrite post_run in Hspec.
  pose proof (apart_read_data s) as Ha. pose proof (λ s', apart_others s _ w s' Ha) as Hother.
  destruct (Ha w) as [_ Hz]. destruct Hspec as [Ho Hspec].
  assert (∀ s', wire_out s' (ipc_read_data_noblock (EV := sockets s) w).2 = wire_out s' w) as Hout.
  { intros s'. destruct (decide (s' = s)) as [->|Hne]; [exact Ho|by apply Hother]. }
  assert (readable (EV := sockets s) w → not_closed (ipc_read_data_noblock (EV := sockets s) w).1) as Hcl.
  { intros Hr. pose proof (read_data_noblock_closed (EV := sockets s) w Hr) as H. by rewrite post_run in H. }
  assert ((instream (EVL := canon_sock s) (ipc_read_data_noblock (EV := sockets s) w).2
           = instream (EVL := canon_sock s) w) →
          same w (ipc_read_data_noblock (EV := sockets s) w).2) as Hsame.
  { intros Hi. split; [|done]. intros s'. split; [|done].
    destruct (decide (s' = s)) as [->|Hne]; [exact Hi|by apply Hother]. }
  destruct (ipc_read_data_noblock w) as [[d|e] w1]; cbn [fst snd] in *.
  - destruct Hspec as [Hd Hi]. change (wire_in s w = frame (msg_data d) ++ wire_in s w1) in Hi.
    pose proof Hi as Hi'. rewrite Hin in Hi. apply frame_data_inj in Hi as [<- _]; [|done..].
    apply Hok. split_and!; [done| |done|done]. intros s' Hne. by apply Hother.
  - destruct (Z.eq_dec e AGENTD_ERROR_IPC_WOULD_BLOCK) as [->|He].
    + destruct Hspec as [[[=] _]|[Hi Hspec]]. apply Hwait; [by apply Hsame|].
      destruct Hspec as [[[=] _]|[[[=] _]|[Hf|[(_&Hb&Ht)|[_ Hb]]]]].
      * right. intros R. apply Hf, (cr_socket _ R).
      * left. split; [|exact Ht]. intros rest'. by apply Hb.
      * by destruct (Hb p rest Hp Hin).
    + apply Herr; [done|].
      destruct Hspec as [[_ Hf]|[Hi Hspec]]; [right; intros R; apply Hf, (cr_socket _ R)|].
      destruct Hspec as [[-> _]|[[-> _]|[Hf|[(->&_)|[_ Hb]]]]].
      * left. intros Hr. by destruct (Hcl Hr) as [? _].
      * left. intros Hr. by destruct (Hcl Hr) as [_ ?].
      * right. intros R. apply Hf, (cr_socket _ R).
      * done.
      * by destruct (Hb p rest Hp Hin).
Qed.

Lemma read_packet_spec s p rest i x react w :
  ci_force_exit i = false → good_packet p → wire_in s w = frame (msg_data p) ++ rest →
  (∀ w1, post (react p) (performs x w1) w1) →
  post (read_packet s i react) (reads s p i x w) w.
Proof.
  intros Hex Hp Hin Hreact. unfold read_packet. rewrite Hex.
  eapply post_act, post_read_data; [done|exact Hin|intros w1 Hr|intros w1 Hs Hw|intros e w1 He Hf].
  - eapply post_mono; [apply Hreact|]. intros r w' H. right; left. by exists w1.
  - apply post_if; intros He; [|by rewrite Z.eqb_refl in He]. apply post_ret. by left.
  - apply post_if; intros He'; [by apply Z.eqb_eq in He'|].
    apply post_exit. intros w2. right; right. split; [apply exits_force|done].
Qed.

(** ** Every callback *)

(** The response of the random service with an identifier; its offset is not
    looked at. *)
Definition random_response (offset : Z) (id : bytes) : bytes :=
  be_enc 4 RANDOMSERVICE_API_METHOD_GET_RANDOM_BYTES ++ be_enc 4 offset ++ be_enc 4 0 ++ id.

(** The callback for an input and the packet that brings it. *)
Definition callback (x : input) : instance → Act W (option instance) :=
  match x with
  | in_timer => canonizationservice_timer_cb
  | in_random _ => canonizationservice_random_read
  | in_answer _ _ => canonizationservice_data_read
  | in_notified => canonizationservice_notify_read
  end.

Definition brings (p : bytes) (x : input) : Prop :=
  match x with
  | in_timer => False
  | in_random id => is_uuid id ∧ ∃ offset, p = random_response offset id
  | in_answer r res =>
      decodes_answer r res p ∧ good_result (request_method r) res ∧ result_fits res ∧ sizeof p < 2 ^ 30
  | in_notified =>
      ∃ offset payload, u64 offset ∧ payload ≠ Some [] ∧ sizeof p < 2 ^ 30 ∧
        p = notification_response_packet
              (NotificationResponse AGENTD_NOTIFICATIONSERVICE_API_METHOD_ID_BLOCK_UPDATE 0 offset payload)
  end.

Definition input_sock (x : input) : sock_id :=
  match x with in_random _ => random_sock | in_notified => notify_sock | _ => data_sock end.

Lemma random_read_spec i id offset rest w :
  ci_force_exit i = false → is_uuid id →
  wire_in random_sock w = frame (msg_data (random_response offset id)) ++ rest →
  post (canonizationservice_random_read i)
    (reads random_sock (random_response offset id) i (react i (in_random id)) w) w.
Proof.
  intros Hex Hid Hin. unfold is_uuid in Hid. unfold canonizationservice_random_read.
  assert (length (random_response offset id) = 28%nat) as Hlen by (unfold random_response; len).
  apply (read_packet_spec _ _ rest); [done| |done|].
  { unfold good_packet. simpl. unfold sizeof. rewrite Hlen. lia. }
  intros w1. unfold react. destruct (bool_decide _); cbn [negb]; [|by apply post_exit_performs; left].
  rewrite Hlen. unfold random_response.
  assert (∀ a b c (d : bytes), length a = 4%nat → length b = 4%nat → length c = 4%nat →
    sub 0 4 (a ++ b ++ c ++ d) = a ∧ sub 8 4 (a ++ b ++ c ++ d) = c ∧ drop 12 (a ++ b ++ c ++ d) = d) as Hf.
  { intros a b c d Ha Hb Hc. split_and!; [by apply sub_head| |].
    - rewrite (sub_skip 8 4 4 a), (sub_skip 4 4 4 b) by (done || lia). by apply sub_head.
    - rewrite !(assoc_L (++)). apply drop_app_length'. len. }
  edestruct Hf as (E1&E2&E3); [apply length_be_enc..|]. rewrite E1, E2, E3.
  rewrite !ntohl_le_dec by apply length_be_enc. rewrite !be_dec_enc by (by vm_compute).
  rewrite Hid. change (28 <? 3 * 4)%nat with false. cbv zeta.
  change (negb _ || negb _ || negb _) with false. cbv iota.
  apply (send_request_performs _ (child_context_create (ReqChildCreate canonization_caps)) (set_block_id id i)).
  split; [|by vm_compute]. split; [by vm_compute|]. repeat constructor; by vm_compute.
Qed.

Lemma notify_read_spec i p rest w :
  ci_force_exit i = false → u32 (ci_data_child_context i) → brings p in_notified →
  wire_in notify_sock w = frame (msg_data p) ++ rest →
  post (canonizationservice_notify_read i) (reads notify_sock p i (react i in_notified) w) w.
Proof.
  intros Hex Hc (offset&payload&Ho&Hp&Hsz&->) Hin. unfold canonizationservice_notify_read.
  apply (read_packet_spec _ _ rest); [done| |done|].
  { split; [|exact Hsz]. unfold notification_response_packet, sizeof. len. }
  intros w1. unfold react. destruct (bool_decide _); cbn [negb]; [|by apply post_exit_performs; left].
  rewrite decode_notification_response by (split_and!; done || by vm_compute).
  cbn [np_method_id np_status_code]. change (negb _ || negb _) with false. cbv iota.
  by apply close_context_performs.
Qed.

(** C22: While a round is under way, the timer callback and the three read callbacks
    of the canonization service (for the data, random and notification services)
    perform the reaction of the abstract machine [react] to what came. Under way
    means: the list of transactions was created (for the timer it need not have been),
    the service has its private key and fields of the proper sizes ([wf_canon]), the
    block fits a packet before and after the reaction ([block_fits]), and the event
    loop is not being left. When the packet of an answer, an identifier or an
    acknowledgement is next on its socket, the read callback takes exactly that
    packet, changes the instance as [react] says and sends exactly the one message of
    the reaction, a block only with a certificate signed over exactly the fields of
    that block, and nothing else on any socket; or it waits, which it does only when
    the frame of the packet is not complete in the buffer after what the socket had
    was read; the timer callback does the same without a packet. The event loop is
    left only when there is no reaction, the peer has closed the socket, or the
    platform has failed, and no null pointer is followed. (An idle service, the write
    callbacks and the control socket are the matter of [canonization_life_cycle] and
    [control_read_obeys].) *)
Theorem canonization_reacts i x w :
  ci_force_exit i = false → wf_canon i → block_fits i →
  (∀ i' o, react i x = Some (i', o) → block_fits i') →
  match x with
  | in_timer => post (callback x i) (performs (react i x) w) w
  | _ => ∀ p rest,
      is_Some (ci_transaction_list i) → brings p x →
      wire_in (input_sock x) w = frame (msg_data p) ++ rest →
      post (callback x i) (reads (input_sock x) p i (react i x) w) w
  end.
Proof.
  intros Hex Hwf Hfit Hfit'. destruct x as [|id|r res|].
  - by apply timer_performs.
  - intros p rest _ [Hid [offset ->]]. by apply random_read_spec.
  - intros p rest Htx (Hd&Hg&Hf&Hsz) Hin. apply (read_packet_spec _ _ rest); [done| |done|].
    + split; [|exact Hsz]. destruct Hd as [Hl _]. unfold sizeof. rewrite Hl. unfold response_length. lia.
    + intros w1. by apply answer_performs.
  - intros p rest _ Hp Hin. destruct Hwf as (?&_). by eapply notify_read_spec.
Qed.
End outcome.
