(* ===== verification/CanonizationRound.v ===== *)
(** * A round of canonization

    The canonization service and the data service together: the reactions of
    [CanonizationSpec] run against the abstract service of [ServiceSpec], the
    random service and the notification service being peers that answer.  A whole
    round, from the timer to the next one, moves exactly the attested
    transactions at the front of the process queue into one new block. *)

From S2P Require Import Prelude Inet StatusCodes Contexts Lmdb Records Vccert PqRep ProcessQueueSpec BlockMake Ledger BlockMakeSpec RequestCodec RequestSpec ResponseCodec ResponseSpec Dispatch DispatchInv Service ServiceSpec NotificationCodec Canonization BlockCert CanonizationSpec.

(** ** Which transactions *)

Definition attested (e : pq_entry) : bool := pe_state e =? DATASERVICE_TRANSACTION_NODE_STATE_ATTESTED.

Fixpoint attested_prefix (q : list pq_entry) : list pq_entry :=
  match q with
  | [] => []
  | e :: q => if attested e then e :: attested_prefix q else []
  end.

(** The attested transactions at the front, at most [max] of them; a maximum of 0
    is no bound. *)
Definition canonizable (max : Z) (q : list pq_entry) : list pq_entry :=
  if max =? 0 then attested_prefix q else take (Z.to_nat max) (attested_prefix q).

(** Where collecting transactions stops. *)
Definition stops (max : Z) (txns rest : list pq_entry) : Prop :=
  Forall (λ e, attested e = true) txns ∧
  (∀ a e b, txns = a ++ e :: b → Z.of_nat (length a) ≠ max ∨ a = []) ∧
  (Z.of_nat (length txns) = max ∧ txns ≠ [] ∨ ∀ e r, rest = e :: r → attested e = false).

Lemma attested_prefix_split q :
  ∃ rest, q = attested_prefix q ++ rest ∧ Forall (λ e, attested e = true) (attested_prefix q) ∧
    ∀ e r, rest = e :: r → attested e = false.
Proof.
  induction q as [|e q (rest&Hq&Hat&Hstop)]; simpl; [by exists []|].
  destruct (attested e) eqn:E; simpl.
  - exists rest. split_and!; [by f_equal|by constructor|done].
  - exists (e :: q). split_and!; [done|done|]. by intros e' r [= <- <-].
Qed.

Lemma canonizable_stops max q :
  0 ≤ max → ∃ rest, q = canonizable max q ++ rest ∧ stops max (canonizable max q) rest.
Proof.
  intros Hmax. destruct (attested_prefix_split q) as (rest&Hq&Hat&Hstop).
  unfold canonizable. destruct (Z.eqb_spec max 0) as [->|Hne].
  - exists rest. split; [done|]. split_and!; [done| |by right].
    intros a e b _. destruct a; [by right|left; simpl; lia].
  - set (p := attested_prefix q) in *. exists (drop (Z.to_nat max) p ++ rest). split.
    { by rewrite (assoc_L (++)), take_drop. }
    split_and!; [by apply Forall_take| |].
    + intros a e b Ha. left. assert (length (take (Z.to_nat max) p) ≤ Z.to_nat max)%nat as Hl
        by (rewrite length_take; lia). rewrite Ha, length_app in Hl. simpl in Hl. lia.
    + destruct (decide (Z.to_nat max ≤ length p)%nat).
      * left. split; [rewrite length_take; lia|]. intros E%(f_equal length). rewrite length_take in E.
        simpl in E. lia.
      * right. by rewrite drop_ge by lia.
Qed.

(** ** The other services *)

Section round.
Context {W : Type} {VC : VCCERT W} {BLD : VCCERT_BUILDER W} {BL : VCCERT_BUILDER_laws W}.
Context (ATTESTATION : bool).

Abbreviation instance := canonizationservice_instance.
Abbreviation state := (instance * output * service)%type.

(** The identifier the random service gives out, and the certificate that the
    library makes of a block. *)
Record peers := Peers { peer_id : bytes; peer_block : instance → bytes }.

Definition peers_ok (P : peers) : Prop :=
  is_uuid vccert_certificate_type_uuid_root_block ∧ is_uuid (peer_id P) ∧
  peer_id P ∉ [vccert_certificate_type_uuid_root_block; zero_uuid; ff_uuid].

(** The input that a message is answered with. *)
Definition respond (P : peers) (i : instance) (o : output) (sv : service) : input * service :=
  let ask r := let '(res, sv) := serve ATTESTATION sv r in (in_answer r res, sv) in
  match o with
  | out_request r => ask r
  | out_block => ask (block_request i (peer_block P i))
  | out_random => (in_random (peer_id P), sv)
  | out_notify _ => (in_notified, sv)
  | out_sleep _ => (in_timer, sv)
  end.

(** One message, its answer and the reaction to it. *)
Definition round_step (P : peers) (s : state) : option state :=
  let '(i, o, sv) := s in
  let '(x, sv) := respond P i o sv in
  (λ s, (s, sv)) <$> react i x.

Fixpoint run (P : peers) (n : nat) (s : state) : option (list output * state) :=
  match n with
  | O => Some ([], s)
  | S n =>
      match round_step P s with
      | None => None
      | Some s' => match run P n s' with Some (tr, s'') => Some (s.1.2 :: tr, s'') | None => None end
      end
  end.

(** Some number of steps lead from one state to another; [tr] are the messages
    that were sent and answered on the way. *)
Definition runs (P : peers) (s : state) (tr : list output) (s' : state) : Prop :=
  ∃ n, run P n s = Some (tr, s').

Lemma runs_nil P s : runs P s [] s.
Proof. by exists 0%nat. Qed.

Lemma runs_step P r sv x sv1 r1 tr s' :
  respond P r.1 r.2 sv = (x, sv1) → react r.1 x = Some r1 → runs P (r1, sv1) tr s' →
  runs P (r, sv) (r.2 :: tr) s'.
Proof.
  destruct r as [i o]. intros Hr Hx [n Hn]. exists (S n). cbn [run]. unfold round_step.
  cbn [fst snd] in *. rewrite Hr, Hx. cbn [fmap option_fmap option_map]. by rewrite Hn.
Qed.

Lemma runs_trans P s1 tr1 s2 tr2 s3 : runs P s1 tr1 s2 → runs P s2 tr2 s3 → runs P s1 (tr1 ++ tr2) s3.
Proof.
  intros [n Hn] H2. revert s1 tr1 Hn. induction n as [|n IH]; intros s1 tr1; simpl.
  - by intros [= <- <-].
  - destruct (round_step P s1) as [s|] eqn:E; [|done]. destruct (run P n s) as [[tr s']|] eqn:Er; [|done].
    intros [= <- <-]. destruct (IH s tr Er) as [m Hm]. exists (S m). simpl. by rewrite E, Hm.
Qed.

(** The messages before the block is made, and those after. *)
Definition asking (o : output) : Prop :=
  match o with
  | out_random => True
  | out_request (child_context_close _) => False
  | out_request _ => True
  | _ => False
  end.
Definition ending (o : output) : Prop :=
  match o with
  | out_request (child_context_close _) | out_notify _ | out_sleep _ => True
  | _ => False
  end.

(** The announcements and the pauses among the messages. *)
Definition announced (tr : list output) : list bytes :=
  omap (λ o, match o with out_notify id => Some id | _ => None end) tr.
Definition pauses (tr : list output) : list Z :=
  omap (λ o, match o with out_sleep ms => Some ms | _ => None end) tr.

(** ** The child context of a round *)

Definition round_caps : list nat :=
  [DATASERVICE_API_CAP_APP_PQ_TRANSACTION_FIRST_READ; DATASERVICE_API_CAP_APP_PQ_TRANSACTION_READ;
   DATASERVICE_API_CAP_APP_BLOCK_ID_LATEST_READ; DATASERVICE_API_CAP_APP_BLOCK_READ;
   DATASERVICE_API_CAP_APP_BLOCK_WRITE; DATASERVICE_API_CAP_LL_CHILD_CONTEXT_CLOSE].

(** The context [k] is open with the capabilities of a round. *)
Record opened (inst inst' : dataservice_instance) (k : nat) (free : list nat) : Prop := {
  op_ctx : inst_ctx inst' = inst_ctx inst;
  op_free : children_inv inst' free;
  op_lookup : dataservice_child_context_lookup inst' (Z.of_nat k) = Ok k;
  op_used : ∃ c, children inst' !! k = Some c ∧ cd_dispose c = true;
  op_caps : ∀ cap, cap ∈ round_caps → BITCAP_ISSET (childcaps (child_ctx inst' k)) cap = true }.

Lemma context_opens sv k free :
  children_inv (sv_inst sv) (k :: free) →
  (∀ cap, cap ∈ DATASERVICE_API_CAP_LL_CHILD_CONTEXT_CREATE :: round_caps →
     BITCAP_ISSET (apicaps (inst_ctx (sv_inst sv))) cap = true) →
  ∃ inst', serve ATTESTATION sv (child_context_create (ReqChildCreate canonization_caps))
           = (Ok (answer_child (Z.of_nat k)), set_inst sv inst') ∧
    opened (sv_inst sv) inst' k free.
Proof.
  intros Hinv Hcaps. pose proof Hinv as (Hlen&Hch&_).
  assert (k < DATASERVICE_MAX_CHILD_CONTEXTS)%nat as Hk
    by (rewrite <- Hlen; eapply free_chain_lt; [exact Hch|by left]).
  destruct (details_create_inv _ _ _ Hinv) as (inst1&E&Hinv1&Hc1&Hctx1).
  cbn [serve cr_caps]. unfold serve_child_create. rewrite E, Hcaps by by left.
  eexists. split; [done|].
  assert (∀ ctx, children (set_child_ctx inst1 k ctx) !! k = Some (ChildDetails true None ctx)) as Hlk.
  { intros ctx. simpl. rewrite list_lookup_alter_eq, Hc1, list_lookup_insert_eq by lia. done. }
  split; [done|by apply inst_inv_set_child| |by eexists|].
  - unfold dataservice_child_context_lookup. rewrite Nat2Z.id, Hlk. simpl.
    by rewrite (proj2 (Z.leb_gt _ _)) by lia.
  - intros cap Hcap. unfold child_ctx. rewrite Hlk. cbn [default cd_ctx childcaps].
    change (id ?x) with x. simpl. rewrite ISSET_SET_FALSE, ISSET_INTERSECT, Hcaps by by right.
    unfold round_caps in Hcap. repeat (apply elem_of_cons in Hcap as [->|Hcap]; [by vm_compute|]).
    by apply elem_of_nil in Hcap.
Qed.

Lemma opened_authorized inst sv k free cap r :
  opened inst (sv_inst sv) k free → cap ∈ round_caps → authorized sv (Z.of_nat k) cap r = r.
Proof. intros Ho Hc. unfold authorized. by rewrite (op_lookup _ _ _ _ Ho), (op_caps _ _ _ _ Ho). Qed.

Lemma context_closes inst sv k free :
  opened inst (sv_inst sv) k free →
  ∃ inst', serve ATTESTATION sv (child_context_close (ReqChildClose (Z.of_nat k)))
           = (Ok (answer_nothing DATASERVICE_API_METHOD_LL_CHILD_CONTEXT_CLOSE), set_inst sv inst') ∧
    inst_ctx inst' = inst_ctx inst ∧ children_inv inst' (k :: free).
Proof.
  intros [Hctx Hfree Hl (c&Hc&Hd) Hcaps]. cbn [serve cc_child_index]. unfold serve_child_close.
  rewrite Hl, Hcaps by (unfold round_caps; set_solver). eexists. split; [done|]. split; [done|].
  by eapply details_delete_inv.
Qed.

(** ** Collecting the transactions *)

(** The instance [j] in the round that started with [i]: [txns] have been taken. *)
Record collecting (i : instance) (id : bytes) (k : nat) (lg : ledger) (txns : list pq_entry) (j : instance)
  : Prop := {
  cg_configured : ci_configured j = ci_configured i;
  cg_running : ci_running j = ci_running i;
  cg_exit : ci_force_exit j = ci_force_exit i;
  cg_first : ci_first_time j = ci_first_time i;
  cg_ms : ci_block_max_milliseconds j = ci_block_max_milliseconds i;
  cg_max : ci_block_max_transactions j = ci_block_max_transactions i;
  cg_key : ci_private_key j = ci_private_key i;
  cg_child : ci_data_child_context j = Z.of_nat k;
  cg_id : ci_block_id j = id;
  cg_prev : ci_previous_block_id j = last_block_id (lg_blocks lg);
  cg_sig : length (ci_previous_block_signature j) = 64%nat;
  cg_height : ci_block_height j = block_height lg + 1;
  cg_list : ∃ l, ci_transaction_list j = Some l ∧ ct_cert <$> l = pe_cert <$> txns }.

Lemma collecting_state i id k lg txns j s :
  collecting i id k lg txns j → collecting i id k lg txns (set_state s j).
Proof. intros []. by split. Qed.

Lemma collecting_list i id k lg txns txns' j l :
  collecting i id k lg txns j → ct_cert <$> l = pe_cert <$> txns' →
  collecting i id k lg txns' (set_transaction_list (Some l) j).
Proof. intros [] Hl. split; try done. by eexists. Qed.

(** Finding an entry of a queue, and the last block of a chain. *)
Lemma find_at_here {A} (f : A → bool) a x b :
  f x = true → (∀ y, y ∈ a → f y = false) → find_at f (a ++ x :: b) = Some (a, x, b).
Proof.
  intros Hx Ha. induction a as [|y a IH]; simpl; [by rewrite Hx|].
  rewrite (Ha y) by by left. rewrite IH; [done|]. intros z Hz. apply Ha. by right.
Qed.

Lemma find_entry_here a e b :
  NoDup (pe_id <$> (a ++ e :: b)) → find_at (λ x, bool_decide (pe_id x = pe_id e)) (a ++ e :: b) = Some (a, e, b).
Proof.
  intros Hnd. apply find_at_here; [by apply bool_decide_eq_true|].
  intros y Hy. apply bool_decide_eq_false. rewrite fmap_app, NoDup_app in Hnd. destruct Hnd as (_&Hd&_).
  intros E. apply (Hd (pe_id y)); [by apply list_elem_of_fmap_2|]. rewrite E, fmap_cons. by left.
Qed.

Section round_of.
Variables (P : peers) (inst : dataservice_instance) (k : nat) (free : list nat).
Variables (i : instance) (lg : ledger) (settings : gmap Z bytes).
Hypothesis (Hqueue : wf_queue (lg_queue lg)).

(** The service while the context is open and no block has been made. *)
Definition serving (sv : service) : Prop :=
  opened inst (sv_inst sv) k free ∧ sv_ledger sv = lg ∧ sv_settings sv = settings.

Lemma take_transaction_collects j txns e n cert :
  collecting i (peer_id P) k lg txns j → cert = pe_cert e →
  ∃ j', collecting i (peer_id P) k lg (txns ++ [e]) j' ∧
    take_transaction j n cert =
      if (Z.of_nat (length txns) + 1 =? ci_block_max_transactions i) || bool_decide (tn_next n = ff_uuid)
      then make_block j' else (j', out_request (transaction_get (ReqTxnGet (Z.of_nat k) (tn_next n)))).
Proof.
  intros Hj ->. pose proof (cg_list _ _ _ _ _ _ Hj) as (l&Hl&Hc). unfold take_transaction. rewrite Hl.
  change (default [] (Some l)) with l.
  exists (set_transaction_list (Some (l ++
    [CanonizationTransaction (enc_txn_node (txn_sent n zero_uuid (pe_cert e))) (pe_cert e)])) j). split.
  - eapply collecting_list; [exact Hj|]. by rewrite !fmap_app, Hc.
  - assert (length l = length txns) as El.
    { apply (f_equal length) in Hc. by rewrite !length_fmap in Hc. }
    rewrite length_app, El. cbn [ci_block_max_transactions ci_data_child_context set_transaction_list].
    rewrite (cg_max _ _ _ _ _ _ Hj), (cg_child _ _ _ _ _ _ Hj). by rewrite Nat2Z.inj_add.
Qed.

Lemma next_entry txns e2 b sv :
  serving sv → lg_queue lg = txns ++ e2 :: b →
  respond P i (out_request (transaction_get (ReqTxnGet (Z.of_nat k) (pe_id e2)))) sv
  = (in_answer (transaction_get (ReqTxnGet (Z.of_nat k) (pe_id e2)))
       (Ok (answer_txn (entry_node (last_id txns) (first_id b) e2) (pe_cert e2))), sv).
Proof.
  intros (Ho&Hlg&_) Hq. unfold respond, serve. cbn [tg_child_index tg_txn_id].
  rewrite (opened_authorized _ _ _ _ _ _ Ho) by (unfold round_caps; set_solver). rewrite Hlg, Hq.
  rewrite find_entry_here; [done|]. destruct Hqueue as [_ Hnd]. rewrite Hq in Hnd.
  by apply NoDup_cons in Hnd as [_ [_ ?]%NoDup_cons].
Qed.

Lemma attested_collects j txns e b finish :
  collecting i (peer_id P) k lg txns j → attested e = true →
  ∃ j', collecting i (peer_id P) k lg (txns ++ [e]) j' ∧
    react_transaction j finish (entry_node (last_id txns) (first_id b) e) (pe_cert e) =
      if (Z.of_nat (length txns) + 1 =? ci_block_max_transactions i) || bool_decide (first_id b = ff_uuid)
      then make_block j' else (j', out_request (transaction_get (ReqTxnGet (Z.of_nat k) (first_id b)))).
Proof.
  intros Hj He. unfold react_transaction. cbn [tn_state entry_node]. unfold attested in He. rewrite He.
  by apply (take_transaction_collects j txns e (entry_node (last_id txns) (first_id b) e)).
Qed.

Lemma first_id_end a b : lg_queue lg = a ++ b → first_id b = ff_uuid → b = [].
Proof.
  intros Hq Hb. destruct b as [|e b]; [done|]. exfalso. rewrite Hq in Hqueue.
  by destruct (wf_queue_id_ne _ _ _ Hqueue).
Qed.

(** From the reaction to the first transaction [e] that is left, to the block. *)
Lemma collect_from more : ∀ txns j e rest finish sv,
  serving sv → collecting i (peer_id P) k lg txns j →
  stops (ci_block_max_transactions i) (txns ++ e :: more) rest →
  lg_queue lg = txns ++ e :: more ++ rest →
  ∃ tr j', collecting i (peer_id P) k lg (txns ++ e :: more) j' ∧ Forall asking tr ∧
    runs P (react_transaction j finish (entry_node (last_id txns) (first_id (more ++ rest)) e) (pe_cert e), sv)
      tr (make_block j', sv).
Proof.
  induction more as [|e2 more IH]; intros txns j e rest finish sv Hsv Hj Hstop Hq;
    pose proof Hstop as (Hat&Hbelow&Hend); apply Forall_app in Hat as [_ [He _]%Forall_cons].
  - destruct (attested_collects j txns e rest finish Hj He) as (j1&Hj1&E). simpl app in *. rewrite E.
    destruct (_ || _) eqn:Ecase.
    { exists [], j1. split_and!; [done|constructor|apply runs_nil]. }
    apply orb_false_iff in Ecase as [Emax Eff]. apply Z.eqb_neq in Emax. apply bool_decide_eq_false in Eff.
    destruct rest as [|e2 rest]; [done|].
    destruct Hend as [[Hlen _]|Hend]; [rewrite length_app in Hlen; simpl in Hlen; lia|].
    specialize (Hend e2 rest eq_refl).
    assert (lg_queue lg = (txns ++ [e]) ++ e2 :: rest) as Hq' by (by rewrite <- (assoc_L (++))).
    eexists [_], j1. split; [exact Hj1|]. split; [|eapply runs_step].
    2: { exact (next_entry _ _ _ sv Hsv Hq'). }
    2: { simpl. unfold react_transaction. cbn [tn_state entry_node]. unfold attested in Hend. by rewrite Hend. }
    2: apply runs_nil. by repeat constructor.
  - destruct (attested_collects j txns e ((e2 :: more) ++ rest) finish Hj He) as (j1&Hj1&E). rewrite E.
    assert (lg_queue lg = (txns ++ [e]) ++ e2 :: more ++ rest) as Hq' by (by rewrite <- (assoc_L (++))).
    assert (txns ++ e :: e2 :: more = (txns ++ [e]) ++ e2 :: more) as Ht by (by rewrite <- (assoc_L (++))).
    rewrite Ht in Hstop, Hbelow |- *.
    destruct (IH (txns ++ [e]) j1 e2 rest (make_block j1) sv Hsv Hj1 Hstop Hq') as (tr&j'&Hj'&Ha&Hrun).
    replace (_ || _) with false.
    2: { symmetry. apply orb_false_iff. split.
         - apply Z.eqb_neq. destruct (Hbelow _ _ _ eq_refl) as [Hne|Hnil]; [|by destruct txns].
           rewrite length_app in Hne. simpl in Hne. lia.
         - apply bool_decide_eq_false. intros Hff. apply (first_id_end (txns ++ [e])) in Hff; done. }
    exists (out_request (transaction_get (ReqTxnGet (Z.of_nat k) (pe_id e2))) :: tr), j'.
    split_and!; [done|by constructor|]. eapply runs_step; [exact (next_entry _ _ _ sv Hsv Hq')|done|exact Hrun].
Qed.
End round_of.

(** ** What a round needs *)

Record ledger_ready (lg : ledger) : Prop := {
  lr_wf : wf_queue (lg_queue lg);
  lr_nodup : NoDup (bk_id <$> lg_blocks lg);
  lr_ids : ∀ id, id ∈ bk_id <$> lg_blocks lg →
    is_uuid id ∧ id ≠ vccert_certificate_type_uuid_root_block;
  (** Every block is signed. *)
  lr_signed : ∀ b, b ∈ lg_blocks lg →
    (vccert_parser_find_short (vccert_parser_of (bk_cert b)) VCCERT_FIELD_TYPE_SIGNATURE).1 ≠ None }.

(** The canonization service has its key, and the data service lets it open a
    context with what it needs. *)
Record round_ready (i : instance) (sv : service) : Prop := {
  rr_key : ∃ key, ci_private_key i = Some key ∧ is_uuid (pk_id key);
  rr_sig : length (ci_previous_block_signature i) = 64%nat;
  rr_max : 0 ≤ ci_block_max_transactions i;
  rr_free : ∃ k free, children_inv (sv_inst sv) (k :: free);
  rr_caps : ∀ cap, cap ∈ DATASERVICE_API_CAP_LL_CHILD_CONTEXT_CREATE :: round_caps →
    BITCAP_ISSET (apicaps (inst_ctx (sv_inst sv))) cap = true;
  rr_ledger : ledger_ready (sv_ledger sv) }.

(** The ledger after the block [id] of the transactions [front]: if one of them
    cannot be canonized, the data service refuses the block. *)
Definition block_result (lg : ledger) (id cert : bytes) (front : list pq_entry) : ledger :=
  match front with
  | [] => lg
  | e :: _ =>
      match cert_get (pe_cert e) VCCERT_FIELD_TYPE_CERTIFICATE_ID 16 with
      | None => lg
      | Some first =>
          if bool_decide (id ∈ bk_id <$> lg_blocks lg) then lg else
          match children_apply (block_height lg + 1) id
                  (Ledger (lg_blocks lg ++ [Blk id first cert]) (lg_txns lg) (lg_artifacts lg) (lg_queue lg))
                  (pe_cert <$> front) with
          | Ok lg' => lg'
          | Err _ => lg
          end
      end
  end.

Lemma sublist_fmap {A B} (f : A → B) l k : l `sublist_of` k → (f <$> l) `sublist_of` (f <$> k).
Proof. induction 1; rewrite ?fmap_cons; by constructor. Qed.

Lemma ledger_append_ready lg id cert lg' :
  ledger_ready lg → is_uuid id →
  (vccert_parser_find_short (vccert_parser_of cert) VCCERT_FIELD_TYPE_SIGNATURE).1 ≠ None →
  ledger_append lg id cert = Ok lg' → ledger_ready lg'.
Proof.
  intros [Hwf Hnd Hids Hsig] Hid Hs Ha. pose proof Ha as (_&_&_&Hsent&Hin&_)%ledger_append_ok.
  apply ledger_append_moves in Ha as (first&ids&Hb&_&_&M). split.
  - rewrite (moved_queue _ _ _ _ M). simpl. destruct Hwf as [Hwf Hq]. split.
    + apply Forall_forall. intros e [_ He]%list_elem_of_filter. by eapply Forall_forall in Hwf.
    + eapply sublist_NoDup; [exact Hq|]. do 2 apply sublist_skip. apply sublist_fmap, sublist_filter.
  - rewrite Hb, fmap_app. apply NoDup_app. split_and!; [done| |apply NoDup_singleton].
    intros x Hx ->%list_elem_of_singleton. done.
  - intros x. rewrite Hb, fmap_app, elem_of_app. intros [Hx| ->%list_elem_of_singleton]; [by apply Hids|].
    split; [done|]. intros E. apply Hsent. simpl in E. rewrite E. by left.
  - intros b. rewrite Hb, elem_of_app. intros [Hx| ->%list_elem_of_singleton]; [by apply Hsig|done].
Qed.

(** A block that the service makes is signed. *)
Lemma block_certificate_signed i cert :
  block_certificate i cert →
  (vccert_parser_find_short (vccert_parser_of cert) VCCERT_FIELD_TYPE_SIGNATURE).1 ≠ None.
Proof.
  intros (txns&key&t&sig&b&_&_&_&_&_&He&Hb). destruct (law_emit _ _ He) as [_ Hf].
  specialize (Hf VCCERT_FIELD_TYPE_SIGNATURE). rewrite Hb in Hf. unfold block_contents in Hf.
  rewrite !values_app, values_wrapped, decide_False in Hf by done. apply finds_first in Hf. by rewrite Hf.
Qed.

Definition fit_fields (front : list pq_entry) : Prop :=
  Forall (λ e, (length (pe_cert e) ≤ field_max)%nat) front.

(** ** The steps of a round *)

Section steps.
Variables (P : peers) (i : instance) (sv : service) (k : nat) (free : list nat).
Hypotheses (HP : peers_ok P) (Hready : round_ready i sv) (Hfree : children_inv (sv_inst sv) (k :: free)).

Abbreviation serving0 := (serving (sv_inst sv) k free (sv_ledger sv) (sv_settings sv)).
Abbreviation collecting0 := (collecting i (peer_id P) k (sv_ledger sv)).

Lemma ask_latest sv1 :
  serving0 sv1 →
  respond P i (out_request (block_id_latest_read (ReqBlockIdLatest (Z.of_nat k)))) sv1
  = (in_answer (block_id_latest_read (ReqBlockIdLatest (Z.of_nat k)))
       (Ok (answer_latest_id (last_block_id (lg_blocks (sv_ledger sv))))), sv1).
Proof.
  intros (Ho&Hlg&_). unfold respond, serve. cbn [bl_child_index].
  rewrite (opened_authorized _ _ _ _ _ _ Ho) by (unfold round_caps; set_solver). by rewrite Hlg.
Qed.

Lemma ask_block sv1 bs b :
  serving0 sv1 → lg_blocks (sv_ledger sv) = bs ++ [b] →
  respond P i (out_request (block_read (ReqBlockRead (Z.of_nat k) (bk_id b) true))) sv1
  = (in_answer (block_read (ReqBlockRead (Z.of_nat k) (bk_id b) true))
       (Ok (answer_block (block_node_of bs b []) (bk_cert b) true)), sv1).
Proof.
  intros (Ho&Hlg&_) Hb. unfold respond, serve. cbn [br_child_index br_block_id br_read_cert].
  rewrite (opened_authorized _ _ _ _ _ _ Ho) by (unfold round_caps; set_solver). rewrite Hlg, Hb.
  rewrite find_at_here; [done|by apply bool_decide_eq_true|]. intros y Hy. apply bool_decide_eq_false.
  pose proof (lr_nodup _ (rr_ledger _ _ Hready)) as Hnd. rewrite Hb, fmap_app, NoDup_app in Hnd.
  destruct Hnd as (_&Hd&_). intros E. apply (Hd (bk_id y)); [by apply list_elem_of_fmap_2|].
  rewrite E. by left.
Qed.

(** From the timer to the question for the first transaction. *)
Lemma round_opens :
  block_height (sv_ledger sv) + 1 < 2 ^ 64 →
  ∃ tr j sv1, serving0 sv1 ∧ collecting0 [] j ∧ Forall asking tr ∧
    runs P (start_round i, sv) tr (ask_first j, sv1).
Proof.
  intros Hmax. destruct (context_opens sv k free Hfree (rr_caps _ _ Hready)) as (inst'&Hserve&Hop).
  set (sv1 := set_inst sv inst'). assert (serving0 sv1) as Hsv by done.
  pose proof (rr_ledger _ _ Hready) as Hlg.
  destruct (lg_blocks (sv_ledger sv)) as [|b bs _] eqn:Eb using rev_ind.
  - exists [out_random; out_request (child_context_create (ReqChildCreate canonization_caps));
            out_request (block_id_latest_read (ReqBlockIdLatest (Z.of_nat k)))].
    eexists _, sv1. split; [exact Hsv|]. split; [|split; [by repeat constructor|]].
    2: { eapply runs_step; [done|done|]. eapply runs_step; [cbn [fst snd respond]; by rewrite Hserve|done|].
         eapply runs_step; [exact (ask_latest sv1 Hsv)| |apply runs_nil].
         cbn [react react_answer]. rewrite Eb. by rewrite bool_decide_true. }
    pose proof (rr_sig _ _ Hready). split; try done; simpl; [by rewrite Eb| |by exists []].
    unfold block_height. by rewrite Eb.
  - assert (bk_id b ∈ bk_id <$> lg_blocks (sv_ledger sv)) as Hin.
    { apply list_elem_of_fmap_2. rewrite Eb. set_solver. }
    destruct (lr_ids _ Hlg _ Hin) as [Hid Hroot].
    assert (last_block_id (lg_blocks (sv_ledger sv)) = bk_id b) as Hlast.
    { rewrite Eb. unfold last_block_id. by rewrite last_snoc. }
    assert (block_height (sv_ledger sv) = Z.of_nat (length bs) + 1) as Hh.
    { unfold block_height. rewrite Eb, length_app. simpl. lia. }
    assert (b ∈ lg_blocks (sv_ledger sv)) as Hb by (rewrite Eb; set_solver).
    pose proof (lr_signed _ Hlg b Hb) as Hsig.
    destruct (vccert_parser_find_short (vccert_parser_of (bk_cert b)) VCCERT_FIELD_TYPE_SIGNATURE).1
      as [sig|] eqn:Es; [|done].
    exists [out_random; out_request (child_context_create (ReqChildCreate canonization_caps));
            out_request (block_id_latest_read (ReqBlockIdLatest (Z.of_nat k)));
            out_request (block_read (ReqBlockRead (Z.of_nat k) (bk_id b) true))].
    eexists _, sv1. split; [exact Hsv|]. split; [|split; [by repeat constructor|]].
    2: { eapply runs_step; [done|done|]. eapply runs_step; [cbn [fst snd respond]; by rewrite Hserve|done|].
         eapply runs_step; [exact (ask_latest sv1 Hsv)| |].
         { cbn [react react_answer]. rewrite Hlast. by rewrite bool_decide_false. }
         eapply runs_step; [exact (ask_block sv1 bs b Hsv Eb)| |apply runs_nil].
         cbn [react react_answer]. unfold note_signature. rewrite Es. done. }
    pose proof (rr_sig _ _ Hready).
    assert (wrap64 (Z.of_nat (length bs) + 1 + 1) = block_height (sv_ledger sv) + 1) as Hw.
    { unfold wrap64. rewrite Hh. apply Z.mod_small. lia. }
    destruct (Nat.eqb_spec (length sig) 64); split; try done; simpl; try by rewrite Hlast.
    all: try by exists []. all: exact Hw.
Qed.

(** From the first transaction to the block. *)
Lemma round_collects j sv1 :
  serving0 sv1 → collecting0 [] j →
  ∃ tr j', collecting0 (canonizable (ci_block_max_transactions i) (lg_queue (sv_ledger sv))) j' ∧
    Forall asking tr ∧ runs P (ask_first j, sv1) tr (make_block j', sv1).
Proof.
  intros Hsv Hj. pose proof Hsv as (Ho&Hlg&_).
  pose proof (lr_wf _ (rr_ledger _ _ Hready)) as Hwf.
  destruct (canonizable_stops _ (lg_queue (sv_ledger sv)) (rr_max _ _ Hready)) as (rest&Hq&Hstop).
  set (front := canonizable _ _) in *. set (q := transaction_get_first (ReqTxnGetFirst (Z.of_nat k))).
  assert (∀ x, found sv1 (find_at (λ _, true) (lg_queue (sv_ledger sv)))
      (λ '(a, e, b), answer_first_txn (entry_node (last_id a) (first_id b) e) (pe_cert e)) = x →
    respond P (ask_first j).1 (ask_first j).2 sv1 = (in_answer q x.1, x.2)) as Hask.
  { intros x <-. unfold ask_first, respond, serve. cbn [fst snd tf_child_index].
    rewrite (cg_child _ _ _ _ _ _ Hj), (opened_authorized _ _ _ _ _ _ Ho) by (unfold round_caps; set_solver).
    by rewrite Hlg. }
  set (j1 := set_state CANONIZATIONSERVICE_STATE_WAITRESP_PQ_TXN_FIRST_GET j) in *.
  assert (collecting0 [] j1) as Hj1 by by apply collecting_state.
  assert (make_block j1 = nothing_to_make j1) as Hmake.
  { destruct (cg_list _ _ _ _ _ _ Hj1) as (l&Hl&Hc). unfold make_block. rewrite Hl.
    by destruct l. }
  destruct front as [|e more] eqn:Ef.
  - exists [out_request q], j1. split_and!; [done|by repeat constructor|].
    assert (q = transaction_get_first (ReqTxnGetFirst (ci_data_child_context j))) as Eq
      by (by rewrite (cg_child _ _ _ _ _ _ Hj)).
    rewrite Eq at 1. rewrite Hmake. simpl in Hq. rewrite Hq in Hask. destruct rest as [|e r].
    + eapply runs_step; [by apply Hask|done|apply runs_nil].
    + destruct Hstop as (_&_&[[_ ?]|Hstop]); [done|]. specialize (Hstop e r eq_refl).
      eapply runs_step; [by apply Hask| |apply runs_nil]. cbn [found find_at react react_answer ask_first fst snd].
      unfold q, react_answer, react_transaction. cbn [tn_state entry_node]. unfold attested in Hstop. by rewrite Hstop.
  - destruct (collect_from P (sv_inst sv) k free i (sv_ledger sv) (sv_settings sv) Hwf more [] j1 e rest
      (nothing_to_make j1) sv1 Hsv Hj1 Hstop Hq) as (tr&j'&Hj'&Ha&Hrun).
    exists (out_request q :: tr), j'. split_and!; [done|by constructor|].
    assert (q = transaction_get_first (ReqTxnGetFirst (ci_data_child_context j))) as Eq
      by (by rewrite (cg_child _ _ _ _ _ _ Hj)).
    rewrite Eq. eapply runs_step; [apply Hask; by rewrite Hq|done|exact Hrun].
Qed.

(** From closing the context to the next round. *)
Lemma round_closes j sv2 l :
  opened (sv_inst sv) (sv_inst sv2) k free → ci_data_child_context j = Z.of_nat k →
  ci_transaction_list j = Some l →
  let pause := negb (Z.of_nat (length l) =? ci_block_max_transactions j) in
  let i' := set_transaction_list None (set_block_id (memset Byte.x00 16)
              (set_state CANONIZATIONSERVICE_STATE_IDLE
                (set_state CANONIZATIONSERVICE_STATE_WAITRESP_CHILD_CONTEXT_CLOSE j))) in
  ∃ tr inst', inst_ctx inst' = inst_ctx (sv_inst sv) ∧ children_inv inst' (k :: free) ∧
    Forall ending tr ∧ announced tr = [] ∧ pauses tr = (if pause then [ci_block_max_milliseconds j] else []) ∧
    runs P (close_context j, sv2) tr (start_round i', set_inst sv2 inst').
Proof.
  intros Ho Hc Hl pause i'. destruct (context_closes _ _ _ _ Ho) as (inst'&Hserve&Hctx&Hinv).
  set (q := child_context_close (ReqChildClose (Z.of_nat k))).
  assert (respond P (close_context j).1 (close_context j).2 sv2
    = (in_answer q (Ok (answer_nothing DATASERVICE_API_METHOD_LL_CHILD_CONTEXT_CLOSE)), set_inst sv2 inst')) as Hr.
  { unfold close_context. cbn [fst snd respond]. rewrite Hc, Hserve. done. }
  assert (react (close_context j).1 (in_answer q (Ok (answer_nothing DATASERVICE_API_METHOD_LL_CHILD_CONTEXT_CLOSE)))
    = Some (if pause then (i', out_sleep (ci_block_max_milliseconds j)) else start_round i')) as Hx.
  { unfold q, close_context. cbn [react react_answer fst]. cbn [ci_transaction_list set_state]. rewrite Hl.
    change (default [] (Some l)) with l. unfold pause. by destruct (_ =? _). }
  destruct pause.
  - exists [(close_context j).2; out_sleep (ci_block_max_milliseconds j)], inst'.
    split_and!; [done|done|by repeat constructor|done|done|].
    eapply runs_step; [exact Hr|exact Hx|]. eapply runs_step; [done|done|apply runs_nil].
  - exists [(close_context j).2], inst'. split_and!; [done|done|by repeat constructor|done|done|].
    eapply runs_step; [exact Hr|exact Hx|apply runs_nil].
Qed.

(** From the announcement to closing the context. *)
Lemma round_announces j sv2 :
  runs P (announce j, sv2) [out_notify (ci_block_id j)]
    (close_context (set_state CANONIZATIONSERVICE_STATE_WAITRESP_NOTIFY_BLOCK_UPDATE j), sv2).
Proof.
  change (out_notify (ci_block_id j)) with (announce j).2.
  eapply runs_step; [done| |apply runs_nil]. by cbn.
Qed.
(** Each transaction fits into a field of a certificate. *)
Lemma fit_fields_wrapped l front :
  ct_cert <$> l = pe_cert <$> front → fit_fields front → Forall small (wrapped l).
Proof.
  intros Hc Hfit. unfold wrapped. apply Forall_fmap. unfold compose, small. simpl.
  assert (Forall (λ c : bytes, (length c ≤ field_max)%nat) (ct_cert <$> l)) as H.
  { rewrite Hc. by apply Forall_fmap. }
  by apply Forall_fmap in H.
Qed.

(** Writing the block: the service is told it, whatever the answer is. *)
Lemma round_writes j sv1 front :
  serving0 sv1 → collecting0 front j → front ≠ [] → block_height (sv_ledger sv) + 1 < 2 ^ 64 →
  let jm := set_state CANONIZATIONSERVICE_STATE_WAITRESP_BLOCK_MAKE j in
  let sv2 := set_ledger sv1 (block_result (sv_ledger sv) (peer_id P) (peer_block P jm) front) in
  block_certificate jm (peer_block P jm) →
  runs P (make_block j, sv1) [out_block] (announce jm, sv2) ∧ ledger_ready (sv_ledger sv2).
Proof.
  intros (Ho&Hlg&Hset) Hj Hne Hmax jm sv2 Hbc.
  assert (collecting0 front jm) as Hjm by by apply collecting_state.
  pose proof (rr_ledger _ _ Hready) as Hledger.
  destruct (rr_key _ _ Hready) as (key&Hkey&Hkid). destruct HP as (Hroot&Hid&Hsent).
  destruct (cg_list _ _ _ _ _ _ Hjm) as (l&Hl&Hc). destruct l as [|txn txns].
  { symmetry in Hc. by apply fmap_nil_inv in Hc. }
  assert (wf_block_fields jm) as Hwf.
  { split_and!; rewrite ?(cg_id _ _ _ _ _ _ Hjm), ?(cg_prev _ _ _ _ _ _ Hjm); [done| |by eapply cg_sig|].
    - unfold last_block_id. destruct (last (lg_blocks _)) as [b|] eqn:El; simpl; [|exact Hroot].
      apply last_Some in El as [bs El]. apply (lr_ids _ Hledger). rewrite El. set_solver.
    - intros key'. rewrite (cg_key _ _ _ _ _ _ Hjm), Hkey. by intros [= <-]. }
  assert (ledger_append (sv_ledger sv) (peer_id P) (peer_block P jm)
    = match ledger_append (sv_ledger sv) (peer_id P) (peer_block P jm) with Ok x => Ok x | Err s => Err s end ∧
    block_result (sv_ledger sv) (peer_id P) (peer_block P jm) front
    = match ledger_append (sv_ledger sv) (peer_id P) (peer_block P jm) with Ok x => x | Err _ => sv_ledger sv end)
    as [_ Hres].
  { split; [by destruct (ledger_append _ _ _)|].
    pose proof (block_appends jm (peer_block P jm) (sv_ledger sv) txn txns Hbc Hwf Hl) as Happ.
    rewrite (cg_id _ _ _ _ _ _ Hjm) in Happ. rewrite Happ; clear Happ;
      [|by eapply cg_height|done|by eapply cg_prev|done].
    unfold block_result. destruct front as [|e more]; [done|]. rewrite Hc.
    assert (ct_cert txn = pe_cert e) as -> by (by injection Hc). destruct (cert_get _ _ _); [|done]. by destruct (bool_decide _). }
  split.
  - unfold make_block. replace (ci_transaction_list j) with (Some (txn :: txns)) by (by rewrite <- Hl).
    change [out_block] with [(jm, out_block).2].
    eapply (runs_step P (jm, out_block) sv1 (in_answer (block_request jm (peer_block P jm))
      match ledger_append (sv_ledger sv) (peer_id P) (peer_block P jm) with
      | Ok _ => Ok (answer_nothing DATASERVICE_API_METHOD_APP_BLOCK_WRITE) | Err s => Err s
      end) sv2); [| |apply runs_nil].
    + cbn [fst snd respond]. unfold block_request. rewrite (cg_child _ _ _ _ _ _ Hjm), (cg_id _ _ _ _ _ _ Hjm).
      cbn [serve bm_child_index bm_block_id bm_cert].
      rewrite (opened_authorized _ _ _ _ _ _ Ho) by (unfold round_caps; set_solver). rewrite Hlg.
      unfold sv2. rewrite Hres. destruct (ledger_append _ _ _) as [lg'|s]; [done|].
      rewrite <- Hlg. by destruct sv1.
    + done.
  - unfold sv2. cbn [sv_ledger set_ledger]. rewrite Hres.
    destruct (ledger_append _ _ _) as [lg'|s] eqn:Ea; [|done].
    eapply ledger_append_ready; [done..| |exact Ea]. by eapply block_certificate_signed.
Qed.

Lemma round_ready_after j inst' sv2 :
  ci_private_key j = ci_private_key i → length (ci_previous_block_signature j) = 64%nat →
  ci_block_max_transactions j = ci_block_max_transactions i →
  inst_ctx inst' = inst_ctx (sv_inst sv) → children_inv inst' (k :: free) → ledger_ready (sv_ledger sv2) →
  round_ready j (set_inst sv2 inst').
Proof.
  intros Hk Hs Hm Hctx Hinv Hlg. destruct Hready. split; simpl; rewrite ?Hk, ?Hm, ?Hctx; try done.
  by eexists _, _.
Qed.
End steps.

(** The settings of the service that a round does not change. *)
Definition same_settings (i i' : instance) : Prop :=
  ci_configured i' = ci_configured i ∧ ci_running i' = ci_running i ∧ ci_force_exit i' = ci_force_exit i ∧
  ci_block_max_milliseconds i' = ci_block_max_milliseconds i ∧
  ci_block_max_transactions i' = ci_block_max_transactions i ∧ ci_private_key i' = ci_private_key i.

End round.
