(* ===== verification/CanonizationSystem.v ===== *)
(** * The canonization service among its peers

    The callbacks of the canonization service, run with the services it talks to.  A
    peer reads what a callback wrote to its socket and sends its reply, which comes to
    the read callback as a packet; a timer that was set calls the timer callback.  From
    the timer the service always comes to its next round, with one block of exactly the
    attested transactions at the front of the process queue ([canonization_round]).

    The proof runs the callbacks along the abstract rounds of [CanonizationRound]. *)

From S2P Require Import Prelude Inet StatusCodes Contexts Lmdb Records Vccert PqRep ProcessQueueSpec BlockMake Ledger BlockMakeSpec RequestCodec RequestSpec ResponseCodec ResponseSpec Ipc IpcSpec Dispatch DispatchInv Service ServiceSpec ServiceRefine RpcSpec ClientApi ClientSpec NotificationCodec Canonization BlockCert CanonizationSpec CanonizationRound.

Section system.
Context {W : Type} {M : MALLOC W} {VB : VCCRYPT_BUFFER W} {VC : VCCERT W} {BLD : VCCERT_BUILDER W}.
Context {LIST : LINKED_LIST W} {LOOP : EVENT_LOOP W} {RA : RCPR_ALLOCATOR W} {PS : PSOCK W}.
Context {SK : SOCKETS W} {CV : CANON_view W} {CL : CANON_laws W} {BL : VCCERT_BUILDER_laws W}.
Context {VBL : VCCRYPT_BUFFER_laws W} {RAL : RCPR_ALLOCATOR_laws W}.

(** The identifier that the random service gives out. *)
Context (ATTESTATION : bool) (id : bytes).

Abbreviation instance := canonizationservice_instance.

(** ** The system *)

(** One packet, and nothing else, was written from [w] to [w']. *)
Definition speaks (s : sock_id) (d : bytes) (w w' : W) : Prop :=
  (∀ s', wire_out s' w' = wire_out s' w ++ if decide (s' = s) then frame (msg_data d) else []) ∧
  sleeps w' = sleeps w.

(** What follows from what was written: the data service serves the request of the
    packet, the random service gives an identifier, the notification service
    acknowledges an announcement; a timer expires. *)
Inductive replied (w w' : W) (sv : service) : input → service → Prop :=
  | replied_data r :
      wf_request r → good_packet (request_packet r) → speaks data_sock (request_packet r) w w' →
      replied w w' sv (in_answer r (serve ATTESTATION sv r).1) (serve ATTESTATION sv r).2
  | replied_random : speaks random_sock block_id_request w w' → replied w w' sv (in_random id) sv
  | replied_notify b :
      is_uuid b → speaks notify_sock (notification_request_packet (block_update_request b)) w w' →
      replied w w' sv in_notified sv
  | replied_timer ms :
      (∀ s, wire_out s w' = wire_out s w) → sleeps w' = sleeps w ++ [ms] → replied w w' sv in_timer sv.

(** The reply comes to its callback: its packet can be read, whole, from the socket. *)
Definition arrives (x : input) (w w' : W) : Prop :=
  match x with
  | in_timer => w' = w
  | _ =>
      ∃ p, brings p x ∧
        (∀ s, wire_in s w' = wire_in s w ++ if decide (s = input_sock x) then frame (msg_data p) else []) ∧
        (∀ s, wire_out s w' = wire_out s w) ∧ sleeps w' = sleeps w ∧
        readable (EV := sockets (input_sock x)) w' ∧
        ∃ rest, v_rbuf (view (input_sock x) (evbuffer_read (LIBEVENT := sockets (input_sock x)) w').2)
                = frame (msg_data p) ++ rest
  end.

(** Something replies, and after every reply that arrives [R] holds.  A state is the
    world before and after a callback, the instance that the callback left, and the data
    service. *)
Definition on_reply (R : W → option instance → W → service → Prop) (w0 : W) (i : instance) (w1 : W) (sv : service)
  : Prop :=
  (∃ x sv', replied w0 w1 sv x sv') ∧
  ∀ x sv' w2, replied w0 w1 sv x sv' → arrives x w1 w2 → R w2 (callback x i w2).1 (callback x i w2).2 sv'.

(** However the replies arrive, the service comes to a state in [Q], and does not leave
    its event loop on the way. *)
Inductive inevitably (Q : W → instance → W → service → Prop) : W → option instance → W → service → Prop :=
  | inevitably_now w0 i w1 sv : Q w0 i w1 sv → inevitably Q w0 (Some i) w1 sv
  | inevitably_later w0 i w1 sv :
      ci_force_exit i = false → on_reply (inevitably Q) w0 i w1 sv → inevitably Q w0 (Some i) w1 sv.

(** ** What was written *)

Definition spoken (i : instance) (o : output) (w w' : W) : Prop :=
  match o with
  | out_request r => speaks data_sock (request_packet r) w w'
  | out_block => ∃ cert, block_certificate i cert ∧ speaks data_sock (request_packet (block_request i cert)) w w'
  | out_random => speaks random_sock block_id_request w w'
  | out_notify b => speaks notify_sock (notification_request_packet (block_update_request b)) w w'
  | out_sleep ms => (∀ s, wire_out s w' = wire_out s w) ∧ sleeps w' = sleeps w ++ [ms]
  end.

Lemma sends_speaks s d w0 w w' :
  (∀ s, wire_out s w = wire_out s w0) → sleeps w = sleeps w0 → sends s d w w' → speaks s d w0 w'.
Proof. intros Ho Hs (_&Ho'&Hs'). split; [|congruence]. intros s'. by rewrite Ho', Ho. Qed.

Lemma emitted_spoken i o w0 w w' :
  (∀ s, wire_out s w = wire_out s w0) → sleeps w = sleeps w0 → emitted i o w w' → spoken i o w0 w'.
Proof.
  intros Ho Hs. destruct o; simpl; try by apply sends_speaks.
  - intros (cert&Hc&H). exists cert. split; [done|]. by eapply sends_speaks.
  - intros [H Hz]. split; [|congruence]. intros s. destruct (H s) as [_ ->]. apply Ho.
Qed.

Lemma emitted_wires i o w w' s : emitted i o w w' → wire_in s w' = wire_in s w.
Proof. destruct o; simpl; [by intros [H _]|by intros (?&_&H&_)|by intros [H _]|by intros [H _]|intros [H _]; apply H]. Qed.

(** The announcements as they lie on the socket. *)
Definition announcement (b : bytes) : bytes :=
  frame (msg_data (notification_request_packet (block_update_request b))).
Definition notices (tr : list output) : bytes := concat (announcement <$> announced tr).

(** Two readings of what was written are the same. *)
Lemma frame_not_nil d : frame (msg_data d) ≠ [].
Proof. done. Qed.

Lemma speaks_inj s1 d1 s2 d2 w w' :
  good_packet d1 → good_packet d2 → speaks s1 d1 w w' → speaks s2 d2 w w' → s1 = s2 ∧ d1 = d2.
Proof.
  intros Hd1 Hd2 [H1 _] [H2 _]. specialize (H1 s1). rewrite H2 in H1. apply app_inv_head in H1.
  rewrite (decide_True (P := s1 = s1)) in H1 by done.
  case_decide as E; [subst|by destruct (frame_not_nil d1)]. split; [done|].
  symmetry. eapply (frame_data_inj d2 d1 [] []); [done..|by rewrite !app_nil_r].
Qed.

Lemma speaks_output s d w w' : speaks s d w w' → ¬ ∀ s', wire_out s' w' = wire_out s' w.
Proof.
  intros [H _] H'. specialize (H s). rewrite H', decide_True in H by done.
  apply (f_equal length) in H. rewrite length_app in H. pose proof (frame_not_nil d).
  destruct (frame (msg_data d)); [done|simpl in H; lia].
Qed.

(** The packet of a request is the packet of no other. *)
Lemma request_packet_inj (w : W) r1 r2 :
  wf_request r1 → wf_request r2 → request_method r1 ≠ DATASERVICE_API_METHOD_LL_ROOT_CONTEXT_CREATE →
  request_packet r1 = request_packet r2 → r1 = r2.
Proof.
  intros H1 H2 Hroot E. unfold request_packet in E.
  apply app_inj_1 in E as [Em Ef]; [|by rewrite !length_be_enc].
  assert (∀ r, 0 ≤ request_method r < 2 ^ 32) as Hm by (by intros []).
  apply (f_equal be_dec) in Em. rewrite !be_dec_enc in Em by apply Hm.
  apply (request_decodes _ w) in H1, H2. rewrite Ef in H1.
  destruct r1, r2; try (exfalso; vm_compute in Em; congruence); simpl in *; try congruence.
  all: by rewrite H1 in H2; injection H2 as ->.
Qed.

(** ** Reactions are well formed *)

(** The packet of the output can be sent. *)
Definition proper (i : instance) (o : output) : Prop :=
  match o with
  | out_request r =>
      wf_request r ∧ good_packet (request_packet r) ∧
      request_method r ≠ DATASERVICE_API_METHOD_LL_ROOT_CONTEXT_CREATE
  | out_notify b => is_uuid b
  | _ => True
  end.
Definition sound (exit : bool) (i : instance) (o : output) : Prop :=
  wf_canon i ∧ ci_force_exit i = exit ∧ proper i o.

Ltac small_request :=
  split; [done || by split|split; [split; unfold request_packet, sizeof, is_uuid in *; cbn; len|done]].

Lemma close_sound i : wf_canon i → sound (ci_force_exit i) (close_context i).1 (close_context i).2.
Proof. intros (Hc&Hf&Hk). split; [done|]. split; [done|]. simpl. small_request. Qed.

Lemma announce_sound i : wf_canon i → sound (ci_force_exit i) (announce i).1 (announce i).2.
Proof. intros (Hc&Hf&Hk). split; [done|]. split; [done|]. apply Hf. Qed.

Lemma nothing_sound i : wf_canon i → sound (ci_force_exit i) (nothing_to_make i).1 (nothing_to_make i).2.
Proof.
  intros Hi. unfold nothing_to_make. destruct (ci_first_time i); [|by apply close_sound].
  apply (announce_sound (set_block_id (ci_previous_block_id i) (set_first_time false i))). destruct Hi as (Hc&(Hid&Hp&Hf)&Hk). by split_and!.
Qed.

Lemma make_block_sound i : wf_canon i → sound (ci_force_exit i) (make_block i).1 (make_block i).2.
Proof.
  intros Hi. unfold make_block. destruct (ci_transaction_list i) as [[|? ?]|]; [by apply nothing_sound| |by apply nothing_sound].
  by split_and!.
Qed.

Lemma ask_first_sound i : wf_canon i → sound (ci_force_exit i) (ask_first i).1 (ask_first i).2.
Proof. intros (Hc&Hf&Hk). split; [done|]. split; [done|]. simpl. small_request. Qed.

Lemma take_sound i n cert : wf_canon i → wf_txn_node n → sound (ci_force_exit i) (take_transaction i n cert).1 (take_transaction i n cert).2.
Proof.
  intros Hi Hn. unfold take_transaction. destruct (_ || _); [by apply (make_block_sound (set_transaction_list _ _))|].
  split; [exact Hi|]. split; [done|]. destruct Hi as (Hc&_). destruct Hn. simpl in *. small_request.
Qed.

Lemma react_transaction_sound i fin n cert :
  wf_canon i → wf_txn_node n → sound (ci_force_exit i) fin.1 fin.2 →
  sound (ci_force_exit i) (react_transaction i fin n cert).1 (react_transaction i fin n cert).2.
Proof. intros Hi Hn Hf. unfold react_transaction. destruct (_ =? _); [by apply take_sound|done]. Qed.

Lemma react_answer_sound i r res i' o :
  wf_canon i → good_result (request_method r) res → react_answer i r res = Some (i', o) → sound (ci_force_exit i) i' o.
Proof.
  intros Hi Hg E. pose proof Hi as (Hc&(Hid&Hp&Hf)&Hk).
  assert (∀ x, Some x = Some (i', o) → sound (ci_force_exit i) x.1 x.2 → sound (ci_force_exit i) i' o) as Hx by (by intros x [= ->]).
  destruct r; cbn [react_answer] in E; try done.
  - destruct res as [[]|]; try done. destruct Hg as [_ Hg]. simpl in Hg. injection E as <- <-.
    split; [by split|]. split; [done|]. small_request.
  - assert (wf_canon (set_transaction_list None (set_block_id (memset Byte.x00 16)
      (set_state CANONIZATIONSERVICE_STATE_IDLE i)))) as Hi'.
    { split; [done|]. split; [|done]. split_and!; [apply length_memset|done|apply Hf..]. }
    case_match; injection E as <- <-; by split_and!.
  - destruct res as [[]|e]; try done; [|case_match; [|done]]; apply (Hx _ E); [|by apply nothing_sound].
    destruct Hg as [_ Hg]. apply react_transaction_sound; [done..|by apply nothing_sound].
  - destruct res as [[]|e]; try done; [|case_match; [|done]]; apply (Hx _ E); [|by apply make_block_sound].
    destruct Hg as [_ Hg]. apply react_transaction_sound; [done..|by apply make_block_sound].
  - apply (Hx _ E), announce_sound, Hi.
  - destruct res as [[]|e]; try done. unfold note_signature in E.
    destruct (vccert_parser_find_short _ _).1 as [sig|]; [|done]. cbn [fmap option_fmap option_map] in E.
    apply (Hx _ E). destruct (Nat.eqb_spec (length sig) 64).
    + apply (ask_first_sound (set_previous_block_signature sig (set_block_height _ i))).
      split; [done|]. split; [|done]. split_and!; try done; apply Hf.
    + by apply (ask_first_sound (set_block_height _ i)).
  - destruct res as [[]|e]; try done. destruct Hg as [_ Hg]. simpl in Hg.
    case_bool_decide; apply (Hx _ E).
    + apply (ask_first_sound (set_block_height 1 (set_previous_block_id _ i))).
      split; [done|]. split; [|done]. split_and!; try done; apply Hf.
    + split; [|split; [done|]]; [split; [done|]; split; [|done]; split_and!; try done; apply Hf|]. simpl. small_request.
Qed.

Lemma react_sound i x i' o :
  wf_canon i → x = in_timer ∨ (∃ p, brings p x) → react i x = Some (i', o) → sound (ci_force_exit i) i' o.
Proof.
  intros Hi Hx E. destruct x as [|b|r res|]; cbn [react] in E.
  - by injection E as <- <-.
  - destruct Hx as [|[p [Hb _]]]; [done|]. case_bool_decide; [|done]. injection E as <- <-.
    destruct Hi as (Hc&(Hid&Hp&Hf)&Hk). split; [split_and!; try done; apply Hf|]. split; [done|].
    split; [|split; [|done]].
    + split; [by vm_compute|]. repeat constructor; by vm_compute.
    + split; by vm_compute.
  - destruct Hx as [|[p (_&Hg&_)]]; [done|]. by eapply react_answer_sound.
  - case_bool_decide; [|done]. injection E as <- <-. by apply close_sound.
Qed.

(** ** Replies *)

Lemma block_packet i cert :
  wf_canon i → block_fits i → block_certificate i cert →
  wf_request (block_request i cert) ∧ good_packet (request_packet (block_request i cert)).
Proof.
  intros (Hc&Hf&_) [Hsz _] (txns&key&t&sig&b&Hl&Hkey&_&Hsig&_&He&Hb).
  destruct (law_emit _ _ He) as [Hlen _]. rewrite Hb, <- (block_size_exact i t txns key sig Hf Hkey Hsig) in Hlen.
  rewrite Hl in Hsz. simpl in Hsz. destruct Hf as (Hid&_).
  split; [by split|]. split; unfold request_packet, block_request, sizeof, is_uuid in *; cbn; len.
Qed.

(** What was written, the block with the certificate that [P] says. *)
Definition said (P : peers) (i : instance) (o : output) (w w' : W) : Prop :=
  match o with
  | out_block => block_certificate i (peer_block P i) ∧
      speaks data_sock (request_packet (block_request i (peer_block P i))) w w'
  | _ => spoken i o w w'
  end.

Lemma random_good : good_packet block_id_request.
Proof. split; by vm_compute. Qed.
Lemma notify_good b : is_uuid b → good_packet (notification_request_packet (block_update_request b)).
Proof. intros Hb. split; unfold notification_request_packet, block_update_request, sizeof, is_uuid in *; simpl; len. Qed.

Lemma replied_respond P i o w w' sv x sv' :
  peer_id P = id → wf_canon i → block_fits i → proper i o → said P i o w w' →
  replied w w' sv x sv' → respond ATTESTATION P i o sv = (x, sv').
Proof.
  intros Hid Hwf Hfit Hp Hs Hr.
  assert (∀ r0 r, wf_request r0 → good_packet (request_packet r0) →
    request_method r0 ≠ DATASERVICE_API_METHOD_LL_ROOT_CONTEXT_CREATE → speaks data_sock (request_packet r0) w w' →
    wf_request r → good_packet (request_packet r) → speaks data_sock (request_packet r) w w' → r0 = r) as Hdata.
  { intros r0 r H0 Hg0 Hm0 Hs0 Hw Hg Hsp. destruct (speaks_inj _ _ _ _ _ _ Hg0 Hg Hs0 Hsp) as [_ E].
    by apply (request_packet_inj w). }
  destruct o as [r0| | |b0|ms0]; unfold said, spoken, proper in *.
  - destruct Hp as (Hw&Hg&Hm). destruct Hr as [r Hr Hgr Hsr|Hsr|b Hb Hsr|ms Ho Hz].
    + rewrite <- (Hdata r0 r) by done. simpl. by destruct (serve ATTESTATION sv r0).
    + by destruct (speaks_inj _ _ _ _ _ _ Hg random_good Hs Hsr).
    + by destruct (speaks_inj _ _ _ _ _ _ Hg (notify_good _ Hb) Hs Hsr).
    + by destruct (speaks_output _ _ _ _ Hs).
  - destruct Hs as [Hcert Hs]. destruct (block_packet _ _ Hwf Hfit Hcert) as [Hw Hg].
    destruct Hr as [r Hr Hgr Hsr|Hsr|b Hb Hsr|ms Ho Hz].
    + rewrite <- (Hdata (block_request i (peer_block P i)) r) by done. cbn [respond].
      by destruct (serve ATTESTATION sv _).
    + by destruct (speaks_inj _ _ _ _ _ _ Hg random_good Hs Hsr).
    + by destruct (speaks_inj _ _ _ _ _ _ Hg (notify_good _ Hb) Hs Hsr).
    + by destruct (speaks_output _ _ _ _ Hs).
  - destruct Hr as [r Hr Hgr Hsr|Hsr|b Hb Hsr|ms Ho Hz].
    + by destruct (speaks_inj _ _ _ _ _ _ random_good Hgr Hs Hsr).
    + simpl. by rewrite Hid.
    + by destruct (speaks_inj _ _ _ _ _ _ random_good (notify_good _ Hb) Hs Hsr).
    + by destruct (speaks_output _ _ _ _ Hs).
  - destruct Hr as [r Hr Hgr Hsr|Hsr|b Hb Hsr|ms Ho Hz].
    + by destruct (speaks_inj _ _ _ _ _ _ (notify_good _ Hp) Hgr Hs Hsr).
    + by destruct (speaks_inj _ _ _ _ _ _ (notify_good _ Hp) random_good Hs Hsr).
    + done.
    + by destruct (speaks_output _ _ _ _ Hs).
  - destruct Hs as [Hs Hz0]. destruct Hr as [r Hr Hgr Hsr|Hsr|b Hb Hsr|ms Ho Hz];
      [by destruct (speaks_output _ _ _ _ Hsr)..|done].
Qed.

Lemma replied_exists P i o w w' sv :
  wf_canon i → block_fits i → proper i o → said P i o w w' → ∃ x sv', replied w w' sv x sv'.
Proof.
  intros Hwf Hfit Hp Hs. destruct o as [r0| | |b0|ms0]; unfold said, spoken, proper in *.
  - destruct Hp as (Hw&Hg&_). eexists _, _. by apply (replied_data w w' sv r0).
  - destruct Hs as [Hcert Hs]. destruct (block_packet _ _ Hwf Hfit Hcert). eexists _, _.
    by apply (replied_data w w' sv (block_request i (peer_block P i))).
  - eexists _, _. by apply replied_random.
  - eexists _, _. by apply (replied_notify w w' sv b0).
  - destruct Hs. eexists _, _. by apply (replied_timer w w' sv ms0).
Qed.

(** ** Callbacks *)

(** A callback to which its packet has come performs the reaction. *)
Lemma callback_performs i x i2 o2 w w2 :
  CANON_reliable W → wf_canon i → ci_force_exit i = false → block_fits i → block_fits i2 →
  react i x = Some (i2, o2) → (∀ s, wire_in s w = []) → arrives x w w2 → x = in_timer ∨ is_Some (ci_transaction_list i) →
  (callback x i w2).1 = Some i2 ∧ spoken i2 o2 w2 (callback x i w2).2 ∧ ∀ s, wire_in s (callback x i w2).2 = [].
Proof.
  intros R Hwf Hex Hfit Hfit2 Hx Hin Ha Hl.
  assert (∀ r w3 w4, (∀ s, wire_out s w3 = wire_out s w2) → sleeps w3 = sleeps w2 → (∀ s, wire_in s w3 = []) →
    performs (Some (i2, o2)) w3 r w4 → r = Some i2 ∧ spoken i2 o2 w2 w4 ∧ ∀ s, wire_in s w4 = []) as Hperf.
  { intros r w3 w4 Ho Hz Hi [(i'&o'&[= <- <-]&->&He)|[_ [[=]|F]]]; [|by destruct (F R)].
    split; [done|]. split; [by eapply emitted_spoken|]. intros s. by rewrite (emitted_wires _ _ _ _ s He). }
  assert (∀ p, (∀ s, wire_in s w2 = wire_in s w ++ if decide (s = input_sock x) then frame (msg_data p) else []) →
    readable (EV := sockets (input_sock x)) w2 →
    (∃ rest, v_rbuf (view (input_sock x) (evbuffer_read (LIBEVENT := sockets (input_sock x)) w2).2)
      = frame (msg_data p) ++ rest) →
    (wire_in (input_sock x) w2 = frame (msg_data p) ++ [] →
     post (callback x i) (reads (input_sock x) p i (Some (i2, o2)) w2) w2) →
    (callback x i w2).1 = Some i2 ∧ spoken i2 o2 w2 (callback x i w2).2 ∧ ∀ s, wire_in s (callback x i w2).2 = [])
    as Hread.
  { intros p Hw Hrd (rest&Hwhole) Hpost.
    assert (∀ s, wire_in s w2 = if decide (s = input_sock x) then frame (msg_data p) else []) as Hw2
      by (intros s; by rewrite Hw, Hin).
    assert (wire_in (input_sock x) w2 = frame (msg_data p) ++ []) as Hp
      by (by rewrite Hw2, decide_True, app_nil_r).
    specialize (Hpost Hp). rewrite post_run in Hpost. destruct Hpost as [(_&_&[[Hpart Hv]|F])|[(w3&(Hi&Hi'&Ho&Hz)&Hpf)|[_ [Hc|F]]]].
    - rewrite <- Hv in Hwhole. by destruct (Hpart rest).
    - by destruct (F R).
    - eapply Hperf; [exact Ho|exact Hz| |exact Hpf]. intros s. destruct (decide (s = input_sock x)) as [->|Hne].
      + rewrite Hp in Hi. by apply app_inv_head in Hi.
      + by rewrite Hi', Hw2, decide_False.
    - done.
    - by destruct (F R). }
  destruct x as [|b|r res|]; cbn [arrives] in Ha.
  - subst w2. injection Hx as <- <-. pose proof (timer_performs i w Hex) as H. rewrite post_run in H.
    by apply (Hperf _ w).
  - destruct Ha as (p&Hb&Hw&_&_&Hrd&Hwhole). apply (Hread p Hw Hrd Hwhole). intros Hp.
    destruct Hb as [Hb [offset ->]]. rewrite <- Hx. by apply (random_read_spec i b offset []).
  - destruct Ha as (p&(Hd&Hg&Hf&Hsz)&Hw&_&_&Hrd&Hwhole). apply (Hread p Hw Hrd Hwhole). intros Hp.
    destruct Hl as [|Hl]; [done|]. rewrite <- Hx. apply (read_packet_spec _ _ []); [done| |done|].
    + split; [|exact Hsz]. destruct Hd as [Hlen _]. unfold sizeof. rewrite Hlen. unfold response_length. lia.
    + intros w1. apply answer_performs; try done. intros i' o E. cbn [react] in Hx. rewrite Hx in E. by injection E as <- <-.
  - destruct Ha as (p&Hb&Hw&_&_&Hrd&Hwhole). apply (Hread p Hw Hrd Hwhole). intros Hp.
    rewrite <- Hx. apply (notify_read_spec i p []); [done|by destruct Hwf|done|done].
Qed.

(** ** Along an abstract round *)

Abbreviation state := (instance * output * service)%type.

(** A part of an abstract round whose blocks fit, and that keeps the list while it is
    needed. *)
Inductive leads (P : peers) : state → list output → state → Prop :=
  | leads_nil s : leads P s [] s
  | leads_step i o sv x sv1 i2 o2 tr s :
      respond ATTESTATION P i o sv = (x, sv1) → react i x = Some (i2, o2) → block_fits i → block_fits i2 →
      x = in_timer ∨ is_Some (ci_transaction_list i) →
      leads P (i2, o2, sv1) tr s → leads P (i, o, sv) (o :: tr) s.

(** The log of the announcements and the pauses. *)
Definition logs (tr : list output) (w w' : W) : Prop :=
  wire_out notify_sock w' = wire_out notify_sock w ++ notices tr ∧ sleeps w' = sleeps w ++ pauses tr.

Lemma notices_app tr1 tr2 : notices (tr1 ++ tr2) = notices tr1 ++ notices tr2.
Proof. unfold notices, announced. by rewrite omap_app, fmap_app, concat_app. Qed.
Lemma logs_nil w w' : (∀ s, wire_out s w' = wire_out s w) → sleeps w' = sleeps w → logs [] w w'.
Proof. intros Ho Hz. split; [by rewrite Ho, app_nil_r|by rewrite Hz, app_nil_r]. Qed.
Lemma logs_app tr1 tr2 w1 w2 w3 : logs tr1 w1 w2 → logs tr2 w2 w3 → logs (tr1 ++ tr2) w1 w3.
Proof.
  intros [H1 Hz1] [H2 Hz2]. split; [by rewrite H2, H1, notices_app, (assoc_L (++))|].
  unfold pauses in *. by rewrite Hz2, Hz1, omap_app, (assoc_L (++)).
Qed.

Lemma speaks_logs s d o w w' :
  speaks s d w w' → s ≠ notify_sock → notices [o] = [] → pauses [o] = [] → logs [o] w w'.
Proof.
  intros [Ho Hz] Hs Hn Hp. split; [|by rewrite Hz, Hp, app_nil_r]. by rewrite Ho, decide_False, Hn by congruence.
Qed.
Lemma spoken_logs i o w w' : spoken i o w w' → logs [o] w w'.
Proof.
  destruct o; simpl.
  - intros H. by eapply speaks_logs.
  - intros (cert&_&H). by eapply speaks_logs.
  - intros H. by eapply speaks_logs.
  - intros [Ho Hz]. split; [|by rewrite Hz, app_nil_r]. rewrite Ho, decide_True by done.
    unfold notices. simpl. by rewrite app_nil_r.
  - intros [Ho Hz]. split; [by rewrite Ho, app_nil_r|]. by rewrite Hz.
Qed.
Lemma said_spoken P i o w w' : said P i o w w' → spoken i o w w'.
Proof. destruct o; simpl; try done. intros [Hc H]. by eexists. Qed.

Definition is_block (o : output) : Prop := match o with out_block => True | _ => False end.

(** Where the run of [tr] begins: with the last state at once, else after a reply. *)
Definition follows Q (tr : list output) (w0 : W) (i : instance) (w1 : W) (sv : service) : Prop :=
  match tr with
  | [] => inevitably Q w0 (Some i) w1 sv
  | _ => on_reply (inevitably Q) w0 i w1 sv
  end.

Lemma follows_inevitably Q tr w0 i w1 sv :
  ci_force_exit i = false → follows Q tr w0 i w1 sv → inevitably Q w0 (Some i) w1 sv.
Proof. destruct tr; [done|]. by apply inevitably_later. Qed.

(** The callbacks follow it, when the peer's block is the one that was written. *)
Lemma leads_follows Q P s tr s' :
  CANON_reliable W → leads P s tr s' → peer_id P = id → Forall (λ o, ¬ is_block o) (tail tr) →
  ∀ w0 w1, wf_canon s.1.1 → ci_force_exit s.1.1 = false → proper s.1.1 s.1.2 → (∀ sk, wire_in sk w1 = []) →
  match tr with [] => spoken s.1.1 s.1.2 w0 w1 | _ => said P s.1.1 s.1.2 w0 w1 end →
  (∀ w2 w3, wf_canon s'.1.1 → ci_force_exit s'.1.1 = false → proper s'.1.1 s'.1.2 → (∀ sk, wire_in sk w3 = []) →
     logs tr w0 w2 → spoken s'.1.1 s'.1.2 w2 w3 → inevitably Q w2 (Some s'.1.1) w3 s'.2) →
  follows Q tr w0 s.1.1 w1 s.2.
Proof.
  intros R Hl HP Hnb. induction Hl as [s|i o sv x sv1 i2 o2 tr s Hr Hx Hf Hf2 Hlist Hl IH];
    intros w0 w1 Hwf Hex Hp Hin Hsp HK; cbn [fst snd] in *.
  - apply HK; try done. by apply logs_nil.
  - split; [by eapply replied_exists|]. intros x' sv' w2 Hrep Ha.
    rewrite (replied_respond P i o w0 w1 sv x' sv') in Hr by done. injection Hr as -> ->.
    destruct (callback_performs i x i2 o2 w1 w2 R Hwf Hex Hf Hf2 Hx Hin Ha Hlist) as (E&Hs2&Hin2). rewrite E.
    assert (logs [] w1 w2) as Hlog1.
    { destruct x; cbn [arrives] in Ha; [subst w2; by apply logs_nil|..];
        destruct Ha as (p&_&_&Ho&Hz&_); by apply logs_nil. }
    destruct (react_sound i x i2 o2 Hwf) as (Hwf2&Hex2&Hp2); [|done|].
    { destruct x; cbn [arrives] in Ha; [by left|..]; right; destruct Ha as (p&Hb&_); by exists p. }
    assert (∀ tr w3, logs tr w2 w3 → logs (o :: tr) w0 w3) as Hlogs.
    { intros tr' w3 H. apply (logs_app [o] tr' w0 w1); [by apply (spoken_logs i), (said_spoken P)|].
      by apply (logs_app [] tr' w1 w2). }
    eapply follows_inevitably; [congruence|]. apply IH; try done; try congruence.
    + simpl in Hnb. by destruct Hnb.
    + destruct tr as [|o3 tr]; [done|]. inversion Hl; subst. apply Forall_cons in Hnb as [Hb _].
      by destruct o3.
    + intros w3 w4 Hwf' Hex' Hp' Hin' Hlg Hsp'. by apply HK; [..|apply Hlogs|].
Qed.

(** ** The two parts of a round *)

Lemma runs_cons P i o sv o' tr s' :
  runs ATTESTATION P (i, o, sv) (o' :: tr) s' →
  o' = o ∧ ∃ x sv1 i2 o2, respond ATTESTATION P i o sv = (x, sv1) ∧ react i x = Some (i2, o2) ∧
    runs ATTESTATION P (i2, o2, sv1) tr s'.
Proof.
  intros [[|n] Hn]; [done|]. cbn [run] in Hn. unfold round_step in Hn.
  destruct (respond ATTESTATION P i o sv) as [x sv1]. destruct (react i x) as [[i2 o2]|] eqn:Hx; [|done].
  cbn [fmap option_fmap option_map] in Hn.
  destruct (run ATTESTATION P n (i2, o2, sv1)) as [[tr1 s1]|] eqn:Hr; [|done]. injection Hn as <- <- <-.
  split; [done|]. exists x, sv1, i2, o2. split_and!; try done. by exists n.
Qed.

Lemma runs_done P s s' : runs ATTESTATION P s [] s' → s' = s.
Proof.
  intros [[|n] Hn]; simpl in Hn; [by injection Hn as <-|].
  destruct (round_step _ _ _); [|done]. by destruct (run _ _ _ _) as [[]|].
Qed.

(** The transactions of [i] are the first ones of [i']. *)
Definition grows (i i' : instance) : Prop :=
  ∃ l m, ci_transaction_list i = Some l ∧ ci_transaction_list i' = Some (l ++ m).

Lemma grows_same i i' l : ci_transaction_list i = Some l → ci_transaction_list i' = Some l → grows i i'.
Proof. intros H H'. exists l, []. by rewrite app_nil_r. Qed.

Lemma grows_fits i i' : grows i i' → block_fits i' → block_fits i.
Proof.
  intros (l&m&Hl&Hm) [Hsz Hsm]. unfold block_fits in *. rewrite Hl. rewrite Hm in Hsz, Hsm.
  change (default [] (Some ?l)) with l in *. unfold wrapped in *. rewrite !block_size_header in *. unfold wrapped in *.
  rewrite fmap_app in Hsz, Hsm. rewrite fields_size_app in Hsz. apply Forall_app in Hsm as [? _].
  split; [lia|done].
Qed.

Lemma make_block_grows i l : ci_transaction_list i = Some l → ci_transaction_list (make_block i).1 = Some l.
Proof. by rewrite make_block_list. Qed.
Lemma nothing_list i : ci_transaction_list (nothing_to_make i).1 = ci_transaction_list i.
Proof. unfold nothing_to_make. by destruct (ci_first_time i). Qed.

Lemma react_transaction_grows i fin n cert l :
  ci_transaction_list i = Some l → ci_transaction_list fin.1 = Some l → grows i (react_transaction i fin n cert).1.
Proof.
  intros Hl Hf. unfold react_transaction. destruct (_ =? _); [|by eapply grows_same].
  eexists l, _. split; [done|]. rewrite take_transaction_list, Hl. done.
Qed.

(** Until the block is made the list of transactions only grows. *)
Lemma asking_grows P i o sv x sv1 i2 o2 :
  asking o → is_Some (ci_transaction_list i) → respond ATTESTATION P i o sv = (x, sv1) → react i x = Some (i2, o2) →
  grows i i2.
Proof.
  intros Ho [l Hl] Hr Hx. destruct o as [r| | | |]; try done; cbn [respond] in Hr.
  - destruct (serve ATTESTATION sv r) as [res sv2]. injection Hr as <- <-. cbn [react] in Hx.
    assert (∀ y, Some y = Some (i2, o2) → grows i y.1 → grows i i2) as Hy by (by intros y [= ->]).
    assert (∀ j, ci_transaction_list j = ci_transaction_list i → grows i j) as Hsame
      by (intros j Hj; eapply grows_same; [exact Hl|congruence]).
    destruct r; cbn [react_answer] in Hx; try done.
    + destruct res as [[]|]; try done. apply (Hy _ Hx). by apply Hsame.
    + destruct res as [[]|]; try done; [|case_match; [|done]]; apply (Hy _ Hx);
        [|by apply Hsame, nothing_list]. eapply react_transaction_grows; [done|by rewrite nothing_list].
    + destruct res as [[]|]; try done; [|case_match; [|done]]; apply (Hy _ Hx);
        [|by apply Hsame, make_block_list]. eapply react_transaction_grows; [done|by rewrite make_block_list].
    + apply (Hy _ Hx). by apply Hsame.
    + destruct res as [[]|]; try done. unfold note_signature in Hx.
      destruct (vccert_parser_find_short _ _).1 as [sig|]; [|done]. apply (Hy _ Hx), Hsame.
      by destruct (_ =? _)%nat.
    + destruct res as [[]|]; try done. case_bool_decide; apply (Hy _ Hx); by apply Hsame.
  - injection Hr as <- <-. cbn [react] in Hx. case_bool_decide; [|done]. injection Hx as <- <-.
    by eapply grows_same.
Qed.

Lemma runs_asking P tr : ∀ s s',
  runs ATTESTATION P s tr s' → Forall asking tr → is_Some (ci_transaction_list s.1.1) → block_fits s'.1.1 →
  block_fits s.1.1 ∧ leads P s tr s'.
Proof.
  induction tr as [|o' tr IH]; intros [[i o] sv] s' Hr Ha Hl Hf.
  { apply runs_done in Hr as ->. split; [done|constructor]. }
  apply runs_cons in Hr as (->&x&sv1&i2&o2&Hrsp&Hx&Hr). apply Forall_cons in Ha as [Ha Hat].
  pose proof (asking_grows _ _ _ _ _ _ _ _ Ha Hl Hrsp Hx) as Hg.
  destruct (IH _ _ Hr Hat) as [Hf2 Hlead]; [|done|].
  { destruct Hg as (l&m&_&E). by exists (l ++ m). }
  pose proof (grows_fits _ _ Hg Hf2). split; [done|]. eapply leads_step; try done. by right.
Qed.

(** From the block on the list is kept until the context is closed. *)
Lemma ending_keeps P i o sv x sv1 i2 o2 :
  ending o ∨ is_block o → respond ATTESTATION P i o sv = (x, sv1) → react i x = Some (i2, o2) →
  ci_transaction_list i2 = ci_transaction_list i ∨
  ci_transaction_list i2 = Some [] ∨ ci_transaction_list i2 = None ∧ ∃ ms, o2 = out_sleep ms.
Proof.
  intros Ho Hr Hx. destruct o as [r| | |b|ms]; cbn [respond] in Hr; try (by destruct Ho).
  - destruct Ho as [Ho|]; [|done]. destruct r; try done.
    destruct (serve ATTESTATION sv _) as [res sv2]. injection Hr as <- <-. cbn [react react_answer] in Hx.
    destruct (_ =? _); injection Hx as <- <-; [by right; left|right; right; by eauto].
  - destruct (serve ATTESTATION sv _) as [res sv2]. injection Hr as <- <-. cbn [react] in Hx.
    unfold block_request in Hx. cbn [react_answer] in Hx. injection Hx as <- <-. by left.
  - injection Hr as <- <-. cbn [react] in Hx. case_bool_decide; [|done]. injection Hx as <- <-. by left.
  - injection Hr as <- <-. cbn [react] in Hx. injection Hx as <- <-. by right; left.
Qed.

Definition lists (s : state) : Prop := is_Some (ci_transaction_list s.1.1) ∨ ∃ ms, s.1.2 = out_sleep ms.

Lemma runs_ending P tr : ∀ s s',
  runs ATTESTATION P s tr s' → Forall (λ o, ending o ∨ is_block o) tr → lists s → block_fits s.1.1 →
  block_fits (set_transaction_list (Some []) s.1.1) → leads P s tr s'.
Proof.
  induction tr as [|o' tr IH]; intros [[i o] sv] s' Hr Ha Hl Hf Hemp.
  { apply runs_done in Hr as ->. constructor. }
  apply runs_cons in Hr as (->&x&sv1&i2&o2&Hrsp&Hx&Hr). apply Forall_cons in Ha as [Ha Hat].
  pose proof (ending_keeps _ _ _ _ _ _ _ _ Ha Hrsp Hx) as Hk.
  assert (block_fits i2) as Hf2.
  { unfold block_fits in *. simpl in *. by destruct Hk as [->|[->|[-> _]]]. }
  assert (x = in_timer ∨ is_Some (ci_transaction_list i)) as Hin.
  { destruct Hl as [|[ms Hms]]; [by right|]. simpl in Hms. subst o. left. cbn [respond] in Hrsp. congruence. }
  eapply leads_step; try done. apply IH; try done.
  unfold lists. cbn [fst snd]. destruct Hk as [E|[E|[_ [ms E]]]]; [|left; by exists []|right; by exists ms].
  destruct Hin as [->|Hs]; [|left; by rewrite E]. injection Hx as <- <-. left. by exists [].
Qed.
Lemma asking_silent tr : Forall asking tr → announced tr = [] ∧ pauses tr = [] ∧ Forall (λ o, ¬ is_block o) tr.
Proof.
  induction 1 as [|o tr Ho _ (IHa&IHp&IHb)]; [by split_and!|]. unfold announced, pauses in *.
  destruct o; try done; simpl; (split_and!; [done|done|by constructor; [intros []|]]).
Qed.

Lemma ending_no_block tr : Forall ending tr → Forall (λ o, ending o ∨ is_block o) tr ∧ Forall (λ o, ¬ is_block o) tr.
Proof. intros H. split; (eapply Forall_impl; [exact H|]); intros []; simpl; auto. Qed.

(** ** What a round comes to *)

(** The block of the transactions fits a packet, and each fits a field. *)
Definition front_fits (front : list pq_entry) : Prop :=
  Z.of_nat (block_header_size
    + fields_size ((λ e, (VCCERT_FIELD_TYPE_WRAPPED_TRANSACTION_TUPLE, pe_cert e)) <$> front)) + 64 < 2 ^ 30 ∧
  fit_fields front.

Lemma front_block_fits i l front :
  ci_transaction_list i = Some l → ct_cert <$> l = pe_cert <$> front → front_fits front → block_fits i.
Proof.
  intros Hl Hc [Hsz Hfit]. unfold block_fits. rewrite Hl. change (default [] (Some l)) with l.
  split; [|by eapply fit_fields_wrapped]. rewrite block_size_header.
  replace (wrapped l) with ((λ e, (VCCERT_FIELD_TYPE_WRAPPED_TRANSACTION_TUPLE, pe_cert e)) <$> front); [done|].
  unfold wrapped. change (λ e, (?t, pe_cert e)) with (pair t ∘ pe_cert). change (λ x, (?t, ct_cert x)) with (pair t ∘ ct_cert).
  by rewrite !list_fmap_compose, Hc.
Qed.

(** [cert] is a block certificate for [front], the next block of the chain. *)
Definition block_of (i : instance) (lg : ledger) (front : list pq_entry) (cert : bytes) : Prop :=
  ∃ j l, block_certificate j cert ∧ ci_block_id j = id ∧
    ci_previous_block_id j = last_block_id (lg_blocks lg) ∧ ci_block_height j = block_height lg + 1 ∧
    ci_private_key j = ci_private_key i ∧ ci_transaction_list j = Some l ∧ ct_cert <$> l = pe_cert <$> front.

(** The identifiers a round announces, and the pause it makes. *)
Definition round_announces_ids (i : instance) (lg : ledger) (front : list pq_entry) : list bytes :=
  match front with
  | [] => if ci_first_time i then [last_block_id (lg_blocks lg)] else []
  | _ => [id]
  end.
Definition round_pauses (i : instance) (front : list pq_entry) : list Z :=
  if Z.of_nat (length front) =? ci_block_max_transactions i then [] else [ci_block_max_milliseconds i].

(** A service between two rounds. *)
Definition between_rounds (i : instance) (w : W) (sv : service) : Prop :=
  round_ready i sv ∧ wf_canon i ∧ ci_force_exit i = false ∧ ∀ s, wire_in s w = [].

(** The next round has begun, after the one that began with [i], [w] and [sv]. *)
Definition round_done (i : instance) (w : W) (sv : service) (w0 : W) (i1 : instance) (w1 : W) (sv1 : service) : Prop :=
  let front := canonizable (ci_block_max_transactions i) (lg_queue (sv_ledger sv)) in
  ∃ i2 cert,
    i1 = (start_round i2).1 ∧ speaks random_sock block_id_request w0 w1 ∧ between_rounds i2 w1 sv1 ∧
    sv_ledger sv1 = block_result (sv_ledger sv) id cert front ∧
    (front ≠ [] → block_of i (sv_ledger sv) front cert) ∧
    sv_settings sv1 = sv_settings sv ∧ inst_ctx (sv_inst sv1) = inst_ctx (sv_inst sv) ∧ same_settings i i2 ∧
    wire_out notify_sock w1
    = wire_out notify_sock w ++ concat (announcement <$> round_announces_ids i (sv_ledger sv) front) ∧
    sleeps w1 = sleeps w ++ round_pauses i front.

(** A run to the next round, after which the ledger is [lg'] and [ids] were announced. *)
Definition finishes (P : peers) (i : instance) (sv : service) (front : list pq_entry) (s : state) (lg' : ledger)
    (ids : list bytes) : Prop :=
  ∃ tr i' sv', runs ATTESTATION P s tr (start_round i', sv') ∧
    Forall (λ o, ending o ∨ is_block o) tr ∧ Forall (λ o, ¬ is_block o) (tail tr) ∧ sv_ledger sv' = lg' ∧
    sv_settings sv' = sv_settings sv ∧ inst_ctx (sv_inst sv') = inst_ctx (sv_inst sv) ∧
    announced tr = ids ∧ pauses tr = round_pauses i front ∧ same_settings i i' ∧ round_ready i' sv'.

(** From closing the context. *)
Lemma closing_finishes P i sv k free front s j sv2 l tr :
  round_ready i sv → opened (sv_inst sv) (sv_inst sv2) k free → sv_settings sv2 = sv_settings sv →
  ledger_ready (sv_ledger sv2) → ci_transaction_list j = Some l → length l = length front →
  ci_data_child_context j = Z.of_nat k → same_settings i j → length (ci_previous_block_signature j) = 64%nat →
  pauses tr = [] → Forall (λ o, ending o ∨ is_block o) tr → Forall (λ o, ¬ is_block o) (tail tr) →
  runs ATTESTATION P s tr (close_context j, sv2) →
  finishes P i sv front s (sv_ledger sv2) (announced tr).
Proof.
  intros Hready Ho Hst Hlr Hl Hlen Hk Hset Hsig Hp He Hb Hr.
  destruct (round_closes ATTESTATION P sv k free j sv2 l Ho Hk Hl) as (tr4&inst'&Hctx&Hinv&He4&Ha4&Hp4&Hr4).
  destruct (ending_no_block _ He4) as [He4' Hb4].
  eexists (tr ++ tr4), _, (set_inst sv2 inst').
  split; [eapply runs_trans; [exact Hr|exact Hr4]|].
  split; [by apply Forall_app|]. split.
  { destruct tr; simpl in *; [|by apply Forall_app]. by destruct Hb4. }
  do 3 (split; [done|]). unfold announced, pauses in *. rewrite !omap_app, Ha4, Hp, Hp4, app_nil_r. simpl app.
  destruct Hset as (?&?&?&Hms&Hm&Hkey). unfold round_pauses. rewrite Hlen, Hm, Hms. split; [done|].
  split; [by case (Z.of_nat (length front) =? ci_block_max_transactions i)|].
  split; [by split_and!|]. apply (round_ready_after i sv k free Hready); simpl; (done || congruence).
Qed.

(** From the end of collecting. *)
Lemma collected_finishes P i sv k free j sv1 front :
  peers_ok P → peer_id P = id → round_ready i sv → children_inv (sv_inst sv) (k :: free) →
  serving (sv_inst sv) k free (sv_ledger sv) (sv_settings sv) sv1 →
  collecting i id k (sv_ledger sv) front j → block_height (sv_ledger sv) + 1 < 2 ^ 64 →
  let jm := set_state CANONIZATIONSERVICE_STATE_WAITRESP_BLOCK_MAKE j in
  (front ≠ [] → block_certificate jm (peer_block P jm)) →
  finishes P i sv front (make_block j, sv1) (block_result (sv_ledger sv) id (peer_block P jm) front)
    (round_announces_ids i (sv_ledger sv) front).
Proof.
  intros HP Hid Hready Hfree Hsv Hj Hmax jm Hcert. rewrite <- Hid in Hj |- *.
  destruct (cg_list _ _ _ _ _ _ Hj) as (l&Hl&Hc). pose proof (f_equal length Hc) as Hlen. rewrite !length_fmap in Hlen.
  assert (same_settings i j) as Hset by (destruct Hj; by split_and!).
  pose proof Hsv as (Ho&Hlg&Hst). pose proof (cg_sig _ _ _ _ _ _ Hj) as Hsig. pose proof (cg_child _ _ _ _ _ _ Hj) as Hk.
  pose proof (rr_ledger _ _ Hready) as Hlr0. unfold round_announces_ids. destruct front as [|e more].
  - rewrite <- Hlg in Hlr0 |- *. destruct l; [|done].
    assert (make_block j = nothing_to_make j) as -> by (unfold make_block; by rewrite Hl).
    unfold nothing_to_make. rewrite (cg_first _ _ _ _ _ _ Hj). destruct (ci_first_time i).
    + pose proof (round_announces ATTESTATION P (set_block_id (ci_previous_block_id j) (set_first_time false j)) sv1) as Hn.
      replace [last_block_id _] with (announced [out_notify (ci_previous_block_id j)])
        by (simpl; by rewrite (cg_prev _ _ _ _ _ _ Hj), Hlg).
      eapply (closing_finishes _ _ _ _ _ _ _ _ _ []); [..|exact Hn]; try done. all: repeat constructor.
    + apply (closing_finishes _ _ _ k free _ _ j sv1 [] []); try done. apply runs_nil.
  - destruct (round_writes ATTESTATION P i sv k free HP Hready Hfree j sv1 (e :: more) Hsv Hj) as [Hw Hlr];
      [done|done|by apply Hcert|].
    pose proof (runs_trans _ P _ _ _ _ _ Hw (round_announces ATTESTATION P jm _)) as Hn.
    replace [id] with (announced ([out_block] ++ [out_notify (ci_block_id jm)]))
      by (simpl; by rewrite (cg_id _ _ _ _ _ _ Hj), Hid).
    match type of Hn with runs _ _ _ _ (_, ?sv2) => change (block_result _ _ _ _) with (sv_ledger sv2) end.
    eapply closing_finishes; [..|exact Hn]; try done. all: repeat constructor; by auto.
Qed.

(** What is written at the end of collecting: the block, when there is one. *)
Lemma make_block_cert i k lg front j w0 w1 :
  collecting i id k lg front j →
  spoken (make_block j).1 (make_block j).2 w0 w1 →
  ∃ cert, (front ≠ [] →
      block_certificate (set_state CANONIZATIONSERVICE_STATE_WAITRESP_BLOCK_MAKE j) cert ∧ block_of i lg front cert) ∧
    said (Peers id (λ _, cert)) (make_block j).1 (make_block j).2 w0 w1.
Proof.
  intros Hj Hsp. destruct (cg_list _ _ _ _ _ _ Hj) as (l&Hl&Hc). destruct front as [|e more].
  - exists []. split; [done|]. destruct l; [|done]. unfold make_block in *. rewrite Hl in *.
    unfold nothing_to_make in *. by destruct (ci_first_time j).
  - destruct l as [|x l]; [done|]. assert (make_block j
      = (set_state CANONIZATIONSERVICE_STATE_WAITRESP_BLOCK_MAKE j, out_block)) as Hm
      by (unfold make_block; by rewrite Hl).
    rewrite Hm in *. destruct Hsp as (cert&Hcert&Hsp). exists cert. split; [|done]. intros _. split; [done|].
    exists (set_state CANONIZATIONSERVICE_STATE_WAITRESP_BLOCK_MAKE j), (x :: l). destruct Hj. by split_and!.
Qed.

(** The messages at the front of a round, and the first of them. *)
Lemma round_begins P i sv k free :
  peers_ok P → round_ready i sv → children_inv (sv_inst sv) (k :: free) → block_height (sv_ledger sv) + 1 < 2 ^ 64 →
  ∃ o tr j sv1, serving (sv_inst sv) k free (sv_ledger sv) (sv_settings sv) sv1 ∧
    collecting i (peer_id P) k (sv_ledger sv)
      (canonizable (ci_block_max_transactions i) (lg_queue (sv_ledger sv))) j ∧
    Forall asking (o :: tr) ∧ runs ATTESTATION P (start_round i, sv) (o :: tr) (make_block j, sv1).
Proof.
  intros HP Hready Hfree Hmax.
  destruct (round_opens ATTESTATION P i sv k free HP Hready Hfree Hmax) as (tr1&j1&sv1&Hsv&Hj1&Ha1&Hr1).
  destruct (round_collects ATTESTATION P i sv k free HP Hready Hfree j1 sv1 Hsv Hj1) as (tr2&j&Hj&Ha2&Hr2).
  destruct tr1 as [|o tr1]; [by apply runs_done in Hr1|].
  exists o, (tr1 ++ tr2), j, sv1. split_and!; [done|done| |by apply (runs_trans _ _ _ (o :: tr1) _ tr2 _ Hr1 Hr2)].
  apply (Forall_app _ (o :: tr1)). by split.
Qed.

(** C6: The canonization service makes blocks of the process queue.  When the timer
    calls the service between two rounds, the callback asks the random service for an
    identifier, and then, however the replies come, the callbacks come to the beginning
    of the next round, [round_done]: a reply always exists, and whatever reply arrives,
    its callback does not leave the event loop.  The block that is announced has the
    identifier that was given out, and its certificate is signed over the right
    predecessor, the right height and exactly the attested transactions at the front of
    the process queue, in order and as many as the configuration allows; the ledger
    becomes the one in which these are canonized in that block, or stays as it is when
    the data service refuses one of them (the block is announced all the same). If there
    are none, the ledger is unchanged, and nothing is announced but the latest block
    the first time. The service pauses unless the block was full. The child context is
    closed again, the settings of both services are kept, and both are ready for the
    next round.

    Assumed: the platform and the certificate library do not fail ([CANON_reliable]);
    the data service is the abstract one of [ServiceSpec], which the code refines
    ([rpc_refines]), and it, the random and the notification service each answer the
    packet that was written, the answer coming whole ([arrives]); the identifier
    is not one of the sentinels; between rounds ([between_rounds]) the service has its
    key and fields of the proper sizes, is not leaving its loop and has nothing to read,
    and the data service lets it open a context, holds no unsigned block and a
    well-formed queue; the height does not overflow; the block fits a packet
    ([front_fits]). *)
Theorem canonization_round i w sv :
  CANON_reliable W → is_uuid vccert_certificate_type_uuid_root_block → is_uuid id →
  id ∉ [vccert_certificate_type_uuid_root_block; zero_uuid; ff_uuid] →
  between_rounds i w sv → block_height (sv_ledger sv) + 1 < 2 ^ 64 →
  front_fits (canonizable (ci_block_max_transactions i) (lg_queue (sv_ledger sv))) →
  ∃ i1 w1, canonizationservice_timer_cb i w = (Some i1, w1) ∧ speaks random_sock block_id_request w w1 ∧
    on_reply (inevitably (round_done i w sv)) w i1 w1 sv.
Proof.
  intros R Hroot Hid Hsent (Hready&Hwf&Hex&Hin) Hmax Hfit. set (front := canonizable _ _) in Hfit.
  destruct (rr_free _ _ Hready) as (k&free&Hfree). set (P := Peers id (λ _, [])).
  destruct (round_begins P i sv k free) as (o&tr&j&sv1&Hsv&Hj&Ha&Hr); [by split_and!|done..|]. fold front in Hj.
  destruct (cg_list _ _ _ _ _ _ Hj) as (l&Hl&Hc).
  assert (block_fits (make_block j).1) as Hf
    by (apply (front_block_fits _ l front); [by rewrite make_block_list|done..]).
  destruct (runs_asking _ _ _ _ Hr Ha) as [_ Hlead]; [by eexists|exact Hf|].
  destruct (asking_silent _ Ha) as (Hann&Hpau&Hnb). apply Forall_cons in Ha as [Ho _].
  pose proof (timer_performs i w Hex) as Ht. rewrite post_run in Ht.
  destruct (canonizationservice_timer_cb i w) as [r w1]. cbn [fst snd] in Ht.
  destruct Ht as [(i1&o1&[= <- <-]&->&Hem)|[_ [[=]|F]]]; [|by destruct (F R)].
  assert (speaks random_sock block_id_request w w1) as Hsp by (by eapply sends_speaks).
  eexists _, w1. split; [done|]. split; [exact Hsp|].
  apply (leads_follows _ P (start_round i, sv) (o :: tr) (make_block j, sv1)); try done.
  { by inversion Hnb. }
  { intros s. by rewrite (emitted_wires _ _ _ _ s Hem). }
  intros w2 w3 Hwf2 Hex2 Hp2 Hin2 Hlog Hsp2. cbn [fst snd] in *.
  destruct (make_block_cert _ _ _ _ _ _ _ Hj Hsp2) as (cert&Hcert&Hsaid).
  destruct (collected_finishes (Peers id (λ _, cert)) i sv k free j sv1 front) as (tr2&i'&sv'&Hr2&He&Hnb2&Hres);
    [by split_and!|done..|by intros [? _]%Hcert|].
  assert (leads (Peers id (λ _, cert)) (make_block j, sv1) tr2 (start_round i', sv')) as Hlead2.
  { apply runs_ending; [done..| |done|].
    - left. exists l. cbn [fst]. by rewrite make_block_list.
    - eapply grows_fits; [|exact Hf]. exists [], l. split; [done|]. by rewrite make_block_list. }
  apply (follows_inevitably _ tr2); [done|].
  apply (leads_follows _ _ _ _ _ R Hlead2 eq_refl Hnb2); [done..|by destruct tr2; [|]|].
  intros w4 w5 Hwf5 Hex5 _ Hin5 [Hn5 Hz5] Hsp5. apply inevitably_now.
  destruct Hres as (Hlg&Hst&Hctx&Han&Hpa&Hset&Hrd), Hlog as [Hn2 Hz2], Hsp5 as [Hs5 Hz5'].
  exists i', cert. split_and!; try done.
  - by intros [_ ?]%Hcert.
  - rewrite Hs5, decide_False, app_nil_r, Hn5, Hn2 by done. unfold notices. by rewrite Hann, Han, app_nil_r.
  - by rewrite Hz5', Hz5, Hz2, Hpau, Hpa, app_nil_r.
Qed.
End system.
