(* ===== verification/CanonizationControl.v ===== *)
(** * Controlling the canonization service

    [canonizationservice_control_*.c], [canonizationservice_decode_and_dispatch_*.c]
    and the functions [canonization_api_*.c] by which the supervisor configures the
    service, gives it its private key and starts it. *)

From S2P Require Import Prelude Inet StatusCodes Records Vccert RequestCodec Ipc AuthedIpc ConfigStream Canonization.

(** ** Methods *)

Definition CANONIZATIONSERVICE_API_METHOD_CONFIGURE : Z := 0x00000000.
Definition CANONIZATIONSERVICE_API_METHOD_PRIVATE_KEY_SET : Z := 0x00000001.
Definition CANONIZATIONSERVICE_API_METHOD_START : Z := 0x00000002.

Section control.
Context {W : Type} {M : MALLOC W} {VC : VCCERT W} {LIST : LINKED_LIST W} {LOOP : EVENT_LOOP W}.
Context {SK : SOCKETS W} {KB : KEY_BUFFERS W}.
(** [sizeof(canonizationservice_private_key_t)] *)
Context (sizeof_private_key : Z).

Abbreviation instance := canonizationservice_instance.
Abbreviation control := (sockets control_sock).

(** The cleared instance, in the state the event loop gives it. *)
Definition canonizationservice_instance_create : instance :=
  CanonizationInstance false false false false 0 0 None 0 CANONIZATIONSERVICE_STATE_IDLE
    (memset Byte.x00 16) (memset Byte.x00 16) (memset Byte.x00 64) 0 None.

(** ** The response *)

Definition control_response (method offset status : Z) (data : option bytes) : bytes :=
  net32 method ++ net32 offset ++ net32 status ++ default [] data.

Definition canonizationservice_decode_and_dispatch_write_status
    (method offset status : Z) (data : option bytes) : Act W Z :=
  let resp := control_response method offset (wrap32 status) data in
  let! mem := malloc (sizeof resp) in
  if negb mem then ret AGENTD_ERROR_GENERAL_OUT_OF_MEMORY else
  let! retval := ipc_write_data_noblock (EV := control) (take (Z.to_nat (wrap32 (sizeof resp))) resp) in
  ret match retval with
      | Ok _ => AGENTD_STATUS_SUCCESS
      | Err _ => AGENTD_ERROR_CANONIZATIONSERVICE_IPC_WRITE_DATA_FAILURE
      end.

(** ** The commands

    A command returns its status and the changed instance. *)

(** Write the status of a command; how that goes is ignored. *)
Definition reply_and (method retval : Z) (inst : instance) : Act W (Z * instance) :=
  let! _ := canonizationservice_decode_and_dispatch_write_status method 0 retval None in
  ret (retval, inst).

Definition canonizationservice_decode_and_dispatch_control_command_configure
    (inst : instance) (req : bytes) : Act W (Z * instance) :=
  if ci_configured inst then
    let! _ := canonizationservice_decode_and_dispatch_write_status
                CANONIZATIONSERVICE_API_METHOD_CONFIGURE 0
                AGENTD_ERROR_CANONIZATIONSERVICE_ALREADY_CONFIGURED None in
    ret (AGENTD_STATUS_SUCCESS, inst)
  else if negb (length req =? 16)%nat then
    reply_and CANONIZATIONSERVICE_API_METHOD_CONFIGURE
      AGENTD_ERROR_CANONIZATIONSERVICE_REQUEST_PACKET_INVALID_SIZE inst
  else
    let net_sleep_milliseconds := le_dec (sub 0 8 req) in
    let net_max_transactions := le_dec (sub 8 8 req) in
    reply_and CANONIZATIONSERVICE_API_METHOD_CONFIGURE AGENTD_STATUS_SUCCESS
      (set_configured (ntohll net_sleep_milliseconds) (ntohll net_max_transactions) inst).

(** A key buffer is filled to its size. *)
Definition key_buffer (m : Act W (Z * bytes)) (key : bytes) : Eff W bytes :=
  let! '(retval, buffer) := m in
  if negb (retval =? 0) then throw retval else ok (take (length buffer) key).

(** The static [canonizationservice_private_key_set]: the changed instance. *)
Definition canonizationservice_private_key_set (inst : instance)
    (entity_id encpub encpriv signpub signpriv : bytes) : Eff W instance :=
  if bool_decide (is_Some (ci_private_key inst))
  then throw AGENTD_ERROR_CANONIZATIONSERVICE_PRIVATE_KEY_ALREADY_SET else
  let! mem := malloc sizeof_private_key in
  if negb mem then throw AGENTD_ERROR_GENERAL_OUT_OF_MEMORY else
  let* enc_pubkey := key_buffer vccrypt_suite_buffer_init_for_cipher_key_agreement_public_key encpub in
  let* enc_privkey := key_buffer vccrypt_suite_buffer_init_for_cipher_key_agreement_private_key encpriv in
  let* sign_pubkey := key_buffer vccrypt_suite_buffer_init_for_signature_public_key signpub in
  let* sign_privkey := key_buffer vccrypt_suite_buffer_init_for_signature_private_key signpriv in
  ok (set_private_key (CanonizationPrivateKey (take 16 entity_id) enc_pubkey enc_privkey
                         sign_pubkey sign_privkey) inst).

Definition canonizationservice_decode_and_dispatch_control_command_private_key_set
    (inst : instance) (req : bytes) : Act W (Z * instance) :=
  let invalid := reply_and CANONIZATIONSERVICE_API_METHOD_PRIVATE_KEY_SET
                   AGENTD_ERROR_CANONIZATIONSERVICE_REQUEST_PACKET_INVALID_SIZE inst in
  if (length req <? 20)%nat then invalid else
  let enc_pubkey_size := ntohl (le_dec (sub 4 4 req)) in
  let enc_privkey_size := ntohl (le_dec (sub 8 4 req)) in
  let sign_pubkey_size := ntohl (le_dec (sub 12 4 req)) in
  let sign_privkey_size := ntohl (le_dec (sub 16 4 req)) in
  if negb ((Z.of_nat key_cipher_public_key_size =? enc_pubkey_size)
           && (Z.of_nat key_cipher_private_key_size =? enc_privkey_size)
           && (Z.of_nat sign_public_key_size =? sign_pubkey_size)
           && (Z.of_nat sign_private_key_size =? sign_privkey_size))
  then invalid else
  let breq := drop 20 req in
  if sizeof breq <? 16 + enc_pubkey_size + enc_privkey_size + sign_pubkey_size + sign_privkey_size
  then invalid else
  let enc_pubkey := drop 16 breq in
  let enc_privkey := drop (Z.to_nat enc_pubkey_size) enc_pubkey in
  let sign_pubkey := drop (Z.to_nat enc_privkey_size) enc_privkey in
  let sign_privkey := drop (Z.to_nat sign_pubkey_size) sign_pubkey in
  let! retval := canonizationservice_private_key_set inst breq enc_pubkey enc_privkey
                   sign_pubkey sign_privkey in
  match retval with
  | Ok inst => reply_and CANONIZATIONSERVICE_API_METHOD_PRIVATE_KEY_SET AGENTD_STATUS_SUCCESS inst
  | Err retval => reply_and CANONIZATIONSERVICE_API_METHOD_PRIVATE_KEY_SET retval inst
  end.

(** The status of [start] is that of its response; a timer that cannot be set
    leaves the instance running, without a response. *)
Definition canonizationservice_decode_and_dispatch_control_command_start
    (inst : instance) (req : bytes) : Act W (Z * instance) :=
  let respond status inst :=
    let! retval := canonizationservice_decode_and_dispatch_write_status
                     CANONIZATIONSERVICE_API_METHOD_START 0 status None in
    ret (retval, inst) in
  if negb (ci_configured inst)
  then respond AGENTD_ERROR_CANONIZATIONSERVICE_START_BEFORE_CONFIGURE inst
  else if negb (bool_decide (is_Some (ci_private_key inst)))
  then respond AGENTD_ERROR_CANONIZATIONSERVICE_START_BEFORE_PRIVATE_KEY_SET inst
  else if ci_running inst
  then respond AGENTD_ERROR_CANONIZATIONSERVICE_ALREADY_RUNNING inst
  else
    let inst := set_running inst in
    let! retval := ipc_timer_init 10 in
    if negb (retval =? AGENTD_STATUS_SUCCESS) then ret (retval, inst) else
    let! retval := ipc_event_loop_add_timer in
    if negb (retval =? AGENTD_STATUS_SUCCESS) then ret (retval, inst) else
    respond AGENTD_STATUS_SUCCESS inst.

Definition canonizationservice_decode_and_dispatch_control_command (inst : instance) (req : bytes)
  : Act W (Z * instance) :=
  if (length req <? 4)%nat
  then ret (AGENTD_ERROR_CANONIZATIONSERVICE_REQUEST_PACKET_INVALID_SIZE, inst) else
  let method := ntohl (le_dec (sub 0 4 req)) in
  let breq := drop 4 req in
  if method =? CANONIZATIONSERVICE_API_METHOD_CONFIGURE then
    canonizationservice_decode_and_dispatch_control_command_configure inst breq
  else if method =? CANONIZATIONSERVICE_API_METHOD_PRIVATE_KEY_SET then
    canonizationservice_decode_and_dispatch_control_command_private_key_set inst breq
  else if method =? CANONIZATIONSERVICE_API_METHOD_START then
    canonizationservice_decode_and_dispatch_control_command_start inst breq
  else reply_and method AGENTD_ERROR_CANONIZATIONSERVICE_REQUEST_PACKET_BAD inst.

(** ** The socket *)

Definition canonizationservice_control_read (inst : instance) : Act W (option instance) :=
  if ci_force_exit inst then done inst else
  let! retval := ipc_read_data_noblock (EV := control) in
  let! inst :=
    match retval with
    | Ok req =>
        let! '(retval, inst) := canonizationservice_decode_and_dispatch_control_command inst req in
        if negb (retval =? AGENTD_STATUS_SUCCESS) then canonizationservice_exit_event_loop inst
        else done inst
    | Err s =>
        if s =? AGENTD_ERROR_IPC_WOULD_BLOCK then done inst
        else canonizationservice_exit_event_loop inst
    end in
  let! len := ipc_socket_writebuffer_size (EV := control) in
  if 0 <? len then let! _ := ipc_set_writecb_noblock control_sock true in ret inst else ret inst.

(** Unlike the other write callbacks, this one is not set again after a write that
    would block. *)
Definition canonizationservice_control_write (inst : instance) (would_block : bool)
  : Act W (option instance) :=
  let! len := ipc_socket_writebuffer_size (EV := control) in
  if 0 <? len then
    let! bytes_written := ipc_socket_write_from_buffer (EV := control) in
    if bytes_written =? 0 then canonizationservice_exit_event_loop inst
    else if bytes_written <? 0 then
      if negb would_block then canonizationservice_exit_event_loop inst else done inst
    else
      let! len := ipc_socket_writebuffer_size (EV := control) in
      if 0 <? len then let! _ := ipc_set_writecb_noblock control_sock true in done inst else done inst
  else let! _ := ipc_set_writecb_noblock control_sock false in done inst.
End control.

(** ** The client *)

Section client.
Context {W : Type} {M : MALLOC W} {IO : POSIX_IO W} {VB : VCCRYPT_BUFFER W}.

(** The request of a function that allocates it and writes it to the control
    socket. *)
Definition control_send (reqbuf : bytes) : Eff W unit :=
  let! mem := malloc (sizeof reqbuf) in
  if negb mem then throw AGENTD_ERROR_GENERAL_OUT_OF_MEMORY else
  let! retval := ipc_write_data_block reqbuf in
  match retval with
  | Ok _ => ok tt
  | Err _ => throw AGENTD_ERROR_CANONIZATIONSERVICE_IPC_WRITE_DATA_FAILURE
  end.

(** [None] is a null pointer. *)
Definition canonization_api_sendreq_configure (conf : option agent_config) : Eff W unit :=
  match conf with
  | None => throw AGENTD_ERROR_CANONIZATIONSERVICE_BAD_PARAMETER
  | Some conf =>
      if negb (block_max_milliseconds_set conf) || negb (block_max_transactions_set conf)
      then throw AGENTD_ERROR_CANONIZATIONSERVICE_BAD_PARAMETER
      else control_send (net32 CANONIZATIONSERVICE_API_METHOD_CONFIGURE
                         ++ net64 (wrap64 (block_max_milliseconds conf))
                         ++ net64 (wrap64 (block_max_transactions conf)))
  end.

Definition canonization_api_sendreq_private_key_set
    (entity_id enc_pubkey enc_privkey sign_pubkey sign_privkey : bytes) : Eff W unit :=
  let fields :=
    net32 CANONIZATIONSERVICE_API_METHOD_PRIVATE_KEY_SET ++ net32 0
    ++ net32 (wrap32 (sizeof enc_pubkey)) ++ net32 (wrap32 (sizeof enc_privkey))
    ++ net32 (wrap32 (sizeof sign_pubkey)) ++ net32 (wrap32 (sizeof sign_privkey))
    ++ take 16 entity_id ++ enc_pubkey ++ enc_privkey ++ sign_pubkey ++ sign_privkey in
  let req_size := (6 * 4 + 16 + length enc_pubkey + length enc_privkey
                   + length sign_pubkey + length sign_privkey)%nat in
  let! '(retval, req) := vccrypt_buffer_init req_size in
  if negb (retval =? 0) then throw AGENTD_ERROR_GENERAL_OUT_OF_MEMORY else
  let req := fields ++ drop (length fields) req in
  ipc_write_data_block (take (Z.to_nat (wrap32 (sizeof req))) req).

Definition canonization_api_sendreq_start : Eff W unit :=
  control_send (net32 CANONIZATIONSERVICE_API_METHOD_START).

(** What both checks fail with in the first group of functions. *)
Definition control_recv (expected_method : Z) : Eff W (Z * Z) :=
  let! retval := ipc_read_data_block in
  match retval with
  | Err _ => throw AGENTD_ERROR_CANONIZATIONSERVICE_IPC_READ_DATA_FAILURE
  | Ok val =>
      if negb (length val =? 12)%nat
      then throw AGENTD_ERROR_CANONIZATIONSERVICE_RESPONSE_PACKET_INVALID_SIZE
      else if negb (expected_method =? ntohl (le_dec (sub 0 4 val)))
      then throw AGENTD_ERROR_CANONIZATIONSERVICE_RECVRESP_UNEXPECTED_METHOD_CODE
      else ok (ntohl (le_dec (sub 4 4 val)), ntohl (le_dec (sub 8 4 val)))
  end.

(** The offset and the status of a response.  A packet of another size is refused;
    the twelve bytes that are then cleared may be more than it has. *)
Definition canonization_api_recvresp_configure : Eff W (Z * Z) :=
  control_recv CANONIZATIONSERVICE_API_METHOD_CONFIGURE.
Definition canonization_api_recvresp_start : Eff W (Z * Z) :=
  control_recv CANONIZATIONSERVICE_API_METHOD_START.

Definition canonization_api_recvresp_private_key_set : Eff W (Z * Z) :=
  let* val := ipc_read_data_block in
  if negb (length val =? 12)%nat then throw AGENTD_ERROR_IPC_READ_UNEXPECTED_DATA_SIZE
  else if negb (CANONIZATIONSERVICE_API_METHOD_PRIVATE_KEY_SET =? ntohl (le_dec (sub 0 4 val)))
  then throw AGENTD_ERROR_IPC_READ_UNEXPECTED_DATA_TYPE
  else ok (ntohl (le_dec (sub 4 4 val)), ntohl (le_dec (sub 8 4 val))).
End client.
