(* ===== verification/CanonizationControlSpec.v ===== *)
(** * The control of the canonization service

    What every packet on the control socket does to the service, the commands the
    supervisor sends, and the life cycle of the service under all of its
    callbacks. *)

From S2P Require Import Prelude Inet StatusCodes Contexts Lmdb Records Vccert RequestCodec RequestSpec ResponseCodec Ipc IpcSpec AuthedIpc ConfigStream ClientApi NotificationCodec Canonization BlockCert CanonizationSpec CanonizationControl.

(** ** Commands *)

(** [cmd_configure None] and [cmd_private_key_set None] stand for packets that are
    not of the size they should have. *)
Inductive control_command : Type :=
  | cmd_configure (v : option (Z * Z))
  | cmd_private_key_set (v : option canonizationservice_private_key)
  | cmd_start
  | cmd_unknown (method : Z).

Definition command_method (c : control_command) : Z :=
  match c with
  | cmd_configure _ => CANONIZATIONSERVICE_API_METHOD_CONFIGURE
  | cmd_private_key_set _ => CANONIZATIONSERVICE_API_METHOD_PRIVATE_KEY_SET
  | cmd_start => CANONIZATIONSERVICE_API_METHOD_START
  | cmd_unknown method => method
  end.

(** What a command does: the status of the response, the instance, whether the
    service goes on, and the timer. *)
Record control_effect := ControlEffect {
  ce_status : Z; ce_inst : canonizationservice_instance; ce_stays : bool; ce_sleep : list Z }.

Definition obey (i : canonizationservice_instance) (c : control_command) : control_effect :=
  match c with
  | cmd_configure v =>
      if ci_configured i then ControlEffect AGENTD_ERROR_CANONIZATIONSERVICE_ALREADY_CONFIGURED i true []
      else match v with
           | Some (ms, txns) => ControlEffect AGENTD_STATUS_SUCCESS (set_configured ms txns i) true []
           | None => ControlEffect AGENTD_ERROR_CANONIZATIONSERVICE_REQUEST_PACKET_INVALID_SIZE i false []
           end
  | cmd_private_key_set None =>
      ControlEffect AGENTD_ERROR_CANONIZATIONSERVICE_REQUEST_PACKET_INVALID_SIZE i false []
  | cmd_private_key_set (Some k) =>
      match ci_private_key i with
      | Some _ => ControlEffect AGENTD_ERROR_CANONIZATIONSERVICE_PRIVATE_KEY_ALREADY_SET i false []
      | None => ControlEffect AGENTD_STATUS_SUCCESS (set_private_key k i) true []
      end
  | cmd_start =>
      if negb (ci_configured i)
      then ControlEffect AGENTD_ERROR_CANONIZATIONSERVICE_START_BEFORE_CONFIGURE i true []
      else match ci_private_key i with
           | None => ControlEffect AGENTD_ERROR_CANONIZATIONSERVICE_START_BEFORE_PRIVATE_KEY_SET i true []
           | Some _ =>
               if ci_running i then ControlEffect AGENTD_ERROR_CANONIZATIONSERVICE_ALREADY_RUNNING i true []
               else ControlEffect AGENTD_STATUS_SUCCESS (set_running i) true [10]
           end
  | cmd_unknown _ => ControlEffect AGENTD_ERROR_CANONIZATIONSERVICE_REQUEST_PACKET_BAD i false []
  end.

(** ** Packets *)

Section packets.
Context {W : Type} {KB : KEY_BUFFERS W}.

Definition key_of (body : bytes) : option canonizationservice_private_key :=
  let keys := drop 20 body in
  let n1 := key_cipher_public_key_size in let n2 := key_cipher_private_key_size in
  let n3 := sign_public_key_size in let n4 := sign_private_key_size in
  if (20 <=? length body)%nat
     && ((be_dec (sub 4 4 body) =? Z.of_nat n1) && (be_dec (sub 8 4 body) =? Z.of_nat n2)
         && (be_dec (sub 12 4 body) =? Z.of_nat n3) && (be_dec (sub 16 4 body) =? Z.of_nat n4))
     && (16 + n1 + n2 + n3 + n4 <=? length keys)%nat
  then Some (CanonizationPrivateKey (sub 0 16 keys) (sub 16 n1 keys) (sub (16 + n1) n2 keys)
               (sub (16 + n1 + n2) n3 keys) (sub (16 + n1 + n2 + n3) n4 keys))
  else None.

(** The command of a packet; none if there is not even a method. *)
Definition command_of (req : bytes) : option control_command :=
  if (length req <? 4)%nat then None else
  let method := be_dec (sub 0 4 req) in
  let body := drop 4 req in
  Some (if method =? CANONIZATIONSERVICE_API_METHOD_CONFIGURE then
          cmd_configure (if (length body =? 16)%nat
                         then Some (be_dec (sub 0 8 body), be_dec (sub 8 8 body)) else None)
        else if method =? CANONIZATIONSERVICE_API_METHOD_PRIVATE_KEY_SET then
          cmd_private_key_set (key_of body)
        else if method =? CANONIZATIONSERVICE_API_METHOD_START then cmd_start
        else cmd_unknown method).

Definition key_fits (k : canonizationservice_private_key) : Prop :=
  is_uuid (pk_id k) ∧
  length (pk_enc_pubkey k) = key_cipher_public_key_size ∧
  length (pk_enc_privkey k) = key_cipher_private_key_size ∧
  length (pk_sign_pubkey k) = sign_public_key_size ∧
  length (pk_sign_privkey k) = sign_private_key_size ∧
  sizeof (pk_enc_pubkey k) + sizeof (pk_enc_privkey k)
  + sizeof (pk_sign_pubkey k) + sizeof (pk_sign_privkey k) + 40 < 2 ^ 30.

Definition configure_packet (ms txns : Z) : bytes :=
  be_enc 4 CANONIZATIONSERVICE_API_METHOD_CONFIGURE ++ be_enc 8 ms ++ be_enc 8 txns.
Definition private_key_packet (k : canonizationservice_private_key) : bytes :=
  be_enc 4 CANONIZATIONSERVICE_API_METHOD_PRIVATE_KEY_SET ++ be_enc 4 0
  ++ be_enc 4 (sizeof (pk_enc_pubkey k)) ++ be_enc 4 (sizeof (pk_enc_privkey k))
  ++ be_enc 4 (sizeof (pk_sign_pubkey k)) ++ be_enc 4 (sizeof (pk_sign_privkey k))
  ++ pk_id k ++ pk_enc_pubkey k ++ pk_enc_privkey k ++ pk_sign_pubkey k ++ pk_sign_privkey k.
Definition start_packet : bytes := be_enc 4 CANONIZATIONSERVICE_API_METHOD_START.

Lemma command_of_configure ms txns :
  u64 ms → u64 txns → command_of (configure_packet ms txns) = Some (cmd_configure (Some (ms, txns))).
Proof.
  intros Hm Ht. unfold command_of, configure_packet.
  rewrite (proj2 (Nat.ltb_ge _ _)) by len.
  rewrite sub_head by len. rewrite drop_app_length' by len. rewrite be_dec_enc by (by vm_compute).
  cbv zeta. cbn [Z.eqb CANONIZATIONSERVICE_API_METHOD_CONFIGURE].
  replace (length _ =? 16)%nat with true by (symmetry; apply Nat.eqb_eq; len).
  rewrite sub_head, (sub_skip 8 8) by len. rewrite sub_exact by len. by rewrite !be_dec_enc.
Qed.

Lemma command_of_start extra : command_of (start_packet ++ extra) = Some cmd_start.
Proof.
  unfold command_of, start_packet. rewrite (proj2 (Nat.ltb_ge _ _)) by len.
  rewrite sub_head by len. by rewrite be_dec_enc by (by vm_compute).
Qed.

Lemma be_dec_field off pre v rest :
  length pre = off → u32 v → be_dec (sub off 4 (pre ++ be_enc 4 v ++ rest)) = v.
Proof. intros <- Hv. rewrite sub_between by len. by apply be_dec_enc. Qed.

Lemma command_of_private_key k extra :
  key_fits k → command_of (private_key_packet k ++ extra) = Some (cmd_private_key_set (Some k)).
Proof.
  destruct k as [id k1 k2 k3 k4]. intros (Hid&H1&H2&H3&H4&Hsz).
  unfold is_uuid, command_of, private_key_packet in *. cbn [pk_id pk_enc_pubkey pk_enc_privkey
    pk_sign_pubkey pk_sign_privkey] in *.
  rewrite (proj2 (Nat.ltb_ge _ _)) by len. rewrite <- !(assoc_L (++)).
  rewrite sub_head, drop_app_length' by len. rewrite be_dec_enc by (by vm_compute). cbv zeta.
  cbn [Z.eqb CANONIZATIONSERVICE_API_METHOD_CONFIGURE CANONIZATIONSERVICE_API_METHOD_PRIVATE_KEY_SET Pos.eqb].
  do 2 f_equal. unfold key_of, sizeof in *. rewrite <- H1, <- H2, <- H3, <- H4.
  rewrite (be_dec_field 4) by (unfold u32; len).
  rewrite !(assoc_L (++) (be_enc 4 0)), (be_dec_field 8) by (unfold u32; len).
  rewrite !(assoc_L (++) (be_enc 4 0 ++ _)), (be_dec_field 12) by (unfold u32; len).
  rewrite !(assoc_L (++) ((be_enc 4 0 ++ _) ++ _)), (be_dec_field 16) by (unfold u32; len).
  rewrite !Z.eqb_refl. rewrite (proj2 (Nat.leb_le _ _)) by len.
  rewrite !(assoc_L (++) (((be_enc 4 0 ++ _) ++ _) ++ _)). rewrite drop_app_length' by len.
  rewrite (proj2 (Nat.leb_le _ _)) by len. cbn [andb]. do 2 f_equal.
  - by apply sub_head.
  - apply sub_between; len.
  - rewrite (assoc_L (++)). apply sub_between; len.
  - rewrite 2!(assoc_L (++)). apply sub_between; len.
  - rewrite 3!(assoc_L (++)). apply sub_between; len.
Qed.
End packets.

(** ** The service *)

Class KEY_BUFFERS_laws (W : Type) `{CV : CANON_view W} `{KB : KEY_BUFFERS W} := {
  law_quiet_enc_public : quiet vccrypt_suite_buffer_init_for_cipher_key_agreement_public_key;
  law_quiet_enc_private : quiet vccrypt_suite_buffer_init_for_cipher_key_agreement_private_key;
  law_quiet_sign_public : quiet vccrypt_suite_buffer_init_for_signature_public_key;
  law_quiet_sign_private : quiet vccrypt_suite_buffer_init_for_signature_private_key;
  law_enc_public : ∀ w b w',
    vccrypt_suite_buffer_init_for_cipher_key_agreement_public_key w = ((0, b), w') →
    length b = key_cipher_public_key_size;
  law_enc_private : ∀ w b w',
    vccrypt_suite_buffer_init_for_cipher_key_agreement_private_key w = ((0, b), w') →
    length b = key_cipher_private_key_size;
  law_sign_public : ∀ w b w',
    vccrypt_suite_buffer_init_for_signature_public_key w = ((0, b), w') → length b = sign_public_key_size;
  law_sign_private : ∀ w b w',
    vccrypt_suite_buffer_init_for_signature_private_key w = ((0, b), w') → length b = sign_private_key_size;
}.

Record KEY_BUFFERS_reliable (W : Type) `{KB : KEY_BUFFERS W} : Prop := {
  kr_enc_public : ∀ w, (vccrypt_suite_buffer_init_for_cipher_key_agreement_public_key w).1.1 = 0;
  kr_enc_private : ∀ w, (vccrypt_suite_buffer_init_for_cipher_key_agreement_private_key w).1.1 = 0;
  kr_sign_public : ∀ w, (vccrypt_suite_buffer_init_for_signature_public_key w).1.1 = 0;
  kr_sign_private : ∀ w, (vccrypt_suite_buffer_init_for_signature_private_key w).1.1 = 0;
}.

Section control.
Context {W : Type} {M : MALLOC W} {VB : VCCRYPT_BUFFER W} {VC : VCCERT W} {BLD : VCCERT_BUILDER W}.
Context {LIST : LINKED_LIST W} {LOOP : EVENT_LOOP W} {RA : RCPR_ALLOCATOR W} {PS : PSOCK W}.
Context {SK : SOCKETS W} {CV : CANON_view W} {CL : CANON_laws W} {BL : VCCERT_BUILDER_laws W}.
Context {KB : KEY_BUFFERS W} {KL : KEY_BUFFERS_laws W}.
Context (sizeof_private_key : Z) (Hsizeof : 0 < sizeof_private_key).

Abbreviation instance := canonizationservice_instance.
Abbreviation write_status := canonizationservice_decode_and_dispatch_write_status.

Definition control_faulty : Prop := CANON_reliable W → KEY_BUFFERS_reliable W → False.

Lemma canon_control_faulty : canon_faulty → control_faulty.
Proof. by intros H R _. Qed.

(** The world after the response [d] on the control socket, and the timers. *)
Definition responds (d : bytes) (z : list Z) (w w' : W) : Prop :=
  (∀ s, wire_in s w' = wire_in s w) ∧
  (∀ s, wire_out s w' = wire_out s w ++ if decide (s = control_sock) then frame (msg_data d) else []) ∧
  sleeps w' = sleeps w ++ z.

Definition status_response (c : control_command) (e : control_effect) : bytes :=
  control_response (command_method c) 0 (ce_status e) None.

(** The service obeys a command: the status a command returns, and the instance. *)
Definition obeys (i : instance) (c : control_command) (w : W) (r : Z * instance) (w' : W) : Prop :=
  let e := obey i c in
  (r.2 = ce_inst e ∧ (r.1 =? AGENTD_STATUS_SUCCESS) = ce_stays e ∧
   responds (status_response c e) (ce_sleep e) w w') ∨ control_faulty.

Lemma post_write_status method status (Q : Z → W → Prop) w :
  u32 status →
  (∀ w', responds (control_response method 0 status None) [] w w' → Q 0 w') →
  (∀ e w', control_faulty → Q e w') →
  post (write_status method 0 status None) Q w.
Proof.
  intros Hst Hok Hf. unfold write_status. assert (wrap32 status = status) as -> by (by apply Z.mod_small). cbv zeta.
  assert (sizeof (control_response method 0 status None) = 12) as Hsz by done.
  rewrite Hsz. apply post_act, post_quiet; [eauto with apart|]. intros w1 Hw1. apply post_if; intros Hm.
  { apply post_ret, Hf. intros R _.
    by rewrite (reliable_ev_malloc _ (cr_socket _ R control_sock)) in Hm. }
  rewrite take_ge by (change (Z.to_nat (wrap32 12)) with 12%nat; done).
  apply post_act, post_write_data; [by rewrite Hsz|intros w2 Hw2|intros e w2 Hc]; apply post_ret.
  - apply Hok. destruct (sends_from _ _ _ _ _ Hw1 Hw2) as (Hi&Ho&Hs). split_and!; [done..|].
    by rewrite app_nil_r.
  - by apply Hf, canon_control_faulty.
Qed.

(** A command that writes its status. *)
Lemma reply_obeys i c w0 w s i' z :
  u32 s → ce_status (obey i c) = s → ce_inst (obey i c) = i' → ce_sleep (obey i c) = z →
  (∀ s, wire_in s w = wire_in s w0 ∧ wire_out s w = wire_out s w0) → sleeps w = sleeps w0 ++ z →
  ∀ st, (st =? AGENTD_STATUS_SUCCESS) = ce_stays (obey i c) →
  post (let! _ := write_status (command_method c) 0 s None in ret (st, i')) (obeys i c w0) w.
Proof.
  intros Hs Hst Hi Hz Hw Hsl st Hb.
  apply post_act, post_write_status; [done|intros w1 (Hin&Hout&Hs1)|intros e w1 Hf]; apply post_ret; [left|by right].
  split_and!; [done..|]. unfold status_response. rewrite Hst, Hz. split_and!.
  - intros s'. rewrite Hin. apply Hw.
  - intros s'. rewrite Hout. by rewrite (proj2 (Hw s')).
  - rewrite Hs1, app_nil_r. done.
Qed.

Lemma configure_obeys i body w :
  let c := cmd_configure (if (length body =? 16)%nat
                          then Some (be_dec (sub 0 8 body), be_dec (sub 8 8 body)) else None) in
  post (canonizationservice_decode_and_dispatch_control_command_configure i body) (obeys i c w) w.
Proof.
  intros c. unfold canonizationservice_decode_and_dispatch_control_command_configure.
  assert (∀ s i' st, u32 s → ce_status (obey i c) = s → ce_inst (obey i c) = i' → ce_sleep (obey i c) = [] →
    (st =? AGENTD_STATUS_SUCCESS) = ce_stays (obey i c) →
    post (let! _ := write_status (command_method c) 0 s None in ret (st, i')) (obeys i c w) w) as H.
  { intros. eapply reply_obeys; try done. by rewrite app_nil_r. }
  unfold reply_and. subst c. destruct (ci_configured i) eqn:Hc.
  { apply H; simpl; rewrite ?Hc; done. }
  destruct (length body =? 16)%nat eqn:Hl; simpl; [|apply H; simpl; rewrite ?Hc; done].
  apply Nat.eqb_eq in Hl.
  rewrite !ntohll_le_dec by (rewrite length_sub; [done|lia]).
  apply H; simpl; rewrite ?Hc; done.
Qed.

Lemma post_key_buffer m n key (Q : result bytes → W → Prop) w :
  quiet m → (∀ w b w', m w = ((0, b), w') → length b = n) → (KEY_BUFFERS_reliable W → (m w).1.1 = 0) →
  (∀ w', same w w' → Q (Ok (take n key)) w') → (∀ e w', control_faulty → Q (Err e) w') →
  post (key_buffer m key) Q w.
Proof.
  intros Hq Hlen Hrel Hok Hf. apply post_act. eapply post_quiet; [exact Hq|]. intros w1 Hw1.
  specialize (Hlen w). destruct (m w) as [[rc b] w'] eqn:E. cbn [fst snd] in *.
  apply post_if; intros Hrc; apply post_ret.
  - apply Hf. intros _ R. rewrite (Hrel R) in Hrc. done.
  - apply negb_false_iff, Z.eqb_eq in Hrc as ->. rewrite (Hlen b w' eq_refl). by apply Hok.
Qed.

(** The five fields of the key, as the handler cuts them out of the packet. *)
Definition key_in (keys : bytes) : canonizationservice_private_key :=
  let n1 := key_cipher_public_key_size in let n2 := key_cipher_private_key_size in
  let n3 := sign_public_key_size in let n4 := sign_private_key_size in
  CanonizationPrivateKey (sub 0 16 keys) (sub 16 n1 keys) (sub (16 + n1) n2 keys)
    (sub (16 + n1 + n2) n3 keys) (sub (16 + n1 + n2 + n3) n4 keys).

Lemma private_key_set_spec i keys k1 k2 k3 k4 w :
  k1 = drop 16 keys → k2 = drop key_cipher_public_key_size k1 →
  k3 = drop key_cipher_private_key_size k2 → k4 = drop sign_public_key_size k3 →
  ci_private_key i = None →
  post (canonizationservice_private_key_set sizeof_private_key i keys k1 k2 k3 k4) (λ r w',
    r = Ok (set_private_key (key_in keys) i) ∧ same w w' ∨ (∃ e, r = Err e) ∧ control_faulty) w.
Proof.
  intros -> -> -> -> Hnone. rewrite !drop_drop. unfold canonizationservice_private_key_set.
  rewrite Hnone. cbn [bool_decide]. rewrite bool_decide_false by by intros [? [=]].
  apply post_act, post_quiet; [eauto with apart|]. intros w1 Hw1. apply post_if; intros Hm.
  { apply post_ret. right. split; [by eexists|]. intros R _.
    by rewrite (reliable_ev_malloc _ (cr_socket _ R control_sock)) in Hm. }
  apply post_bind, (post_key_buffer _ _ _ _ _ law_quiet_enc_public law_enc_public);
    [intros R; apply kr_enc_public, R|intros w2 Hw2|intros e w2 Hf; right; by eauto].
  apply post_bind, (post_key_buffer _ _ _ _ _ law_quiet_enc_private law_enc_private);
    [intros R; apply kr_enc_private, R|intros w3 Hw3|intros e w3 Hf; right; by eauto].
  apply post_bind, (post_key_buffer _ _ _ _ _ law_quiet_sign_public law_sign_public);
    [intros R; apply kr_sign_public, R|intros w4 Hw4|intros e w4 Hf; right; by eauto].
  apply post_bind, (post_key_buffer _ _ _ _ _ law_quiet_sign_private law_sign_private);
    [intros R; apply kr_sign_private, R|intros w5 Hw5|intros e w5 Hf; right; by eauto].
  apply post_ret. left. split; [done|]. eauto using same_trans.
Qed.

Lemma private_key_obeys i body w :
  let c := cmd_private_key_set (key_of body) in
  post (canonizationservice_decode_and_dispatch_control_command_private_key_set sizeof_private_key i body)
    (obeys i c w) w.
Proof.
  intros c. unfold canonizationservice_decode_and_dispatch_control_command_private_key_set.
  assert (∀ s i' w1, u32 s → ce_status (obey i c) = s → ce_inst (obey i c) = i' → ce_sleep (obey i c) = [] →
    (s =? AGENTD_STATUS_SUCCESS) = ce_stays (obey i c) → same w w1 →
    post (reply_and (command_method c) s i') (obeys i c w) w1) as H.
  { intros s i' w1 ????? [Hw1 Hs1]. eapply reply_obeys; try done. by rewrite app_nil_r. }
  change CANONIZATIONSERVICE_API_METHOD_PRIVATE_KEY_SET with (command_method c).
  assert (key_of body = None → post (reply_and (command_method c)
            AGENTD_ERROR_CANONIZATIONSERVICE_REQUEST_PACKET_INVALID_SIZE i) (obeys i c w) w) as Hbad.
  { intros E. apply H; subst c; rewrite ?E; done. }
  cbv zeta. rewrite Nat.ltb_antisym.
  destruct (20 <=? length body)%nat eqn:Hl; cbn [negb]; [|apply Hbad; unfold key_of; by rewrite Hl].
  apply Nat.leb_le in Hl. rewrite !ntohl_le_dec by (rewrite length_sub; [done|lia]). apply Nat.leb_le in Hl.
  rewrite !(Z.eqb_sym (Z.of_nat _)).
  match goal with |- context [if negb (?a && ?b && ?c && ?d) then _ else _] =>
    destruct (a && b && c && d) eqn:Hsizes end; cbn [negb];
    [|apply Hbad; unfold key_of; by rewrite Hl, Hsizes].
  pose proof Hsizes as [[[H1%Z.eqb_eq H2%Z.eqb_eq]%andb_prop H3%Z.eqb_eq]%andb_prop H4%Z.eqb_eq]%andb_prop.
  rewrite H1, H2, H3, H4, !Nat2Z.id. unfold sizeof.
  destruct (16 + key_cipher_public_key_size + key_cipher_private_key_size + sign_public_key_size
            + sign_private_key_size <=? length (drop 20 body))%nat eqn:Hk.
  2: { apply Nat.leb_gt in Hk as Hk'. rewrite (proj2 (Z.ltb_lt _ _)) by lia. apply Hbad.
       unfold key_of. by rewrite Hl, Hsizes, Hk. }
  assert (key_of body = Some (key_in (drop 20 body))) as Hkey by (unfold key_of; by rewrite Hl, Hsizes, Hk).
  apply Nat.leb_le in Hk. rewrite (proj2 (Z.ltb_ge _ _)) by lia. apply post_act.
  destruct (ci_private_key i) as [k|] eqn:Hset.
  - unfold canonizationservice_private_key_set. rewrite Hset, bool_decide_true by by eexists.
    apply post_ret, H; subst c; rewrite ?Hkey; cbn [obey]; rewrite ?Hset; done.
  - eapply post_mono; [by apply private_key_set_spec|]. intros r w1 [[-> Hw1]|[[e ->] Hf]].
    + apply H; subst c; rewrite ?Hkey; cbn [obey]; rewrite ?Hset; done.
    + apply post_run. by right.
Qed.

Lemma start_obeys i body w :
  post (canonizationservice_decode_and_dispatch_control_command_start i body) (obeys i cmd_start w) w.
Proof.
  unfold canonizationservice_decode_and_dispatch_control_command_start. cbv zeta.
  assert (∀ s i' z w1, u32 s → ce_status (obey i cmd_start) = s → ce_inst (obey i cmd_start) = i' →
    ce_sleep (obey i cmd_start) = z → ce_stays (obey i cmd_start) = true →
    (∀ s, wire_in s w1 = wire_in s w ∧ wire_out s w1 = wire_out s w) → sleeps w1 = sleeps w ++ z →
    post (let! retval := write_status CANONIZATIONSERVICE_API_METHOD_START 0 s None in ret (retval, i'))
      (obeys i cmd_start w) w1) as H.
  { intros s i' z w1 Hs Hst Hi Hz Hb Hw1 Hs1.
    apply post_act, post_write_status; [done|intros w2 (Hin&Hout&Hs2)|intros e w2 Hf]; apply post_ret; [left|by right].
    split_and!; [done..|]. unfold status_response. rewrite Hst, Hz. split_and!.
    - intros s'. rewrite Hin. apply Hw1.
    - intros s'. rewrite Hout. by rewrite (proj2 (Hw1 s')).
    - by rewrite Hs2, app_nil_r. }
  assert (∀ w1, same w w1 → sleeps w1 = sleeps w ++ []) as Hno by (intros w1 [_ ->]; by rewrite app_nil_r).
  cbn [obey] in H. destruct (ci_configured i); cbn [negb] in *; [|eapply H; try done; by apply Hno].
  destruct (ci_private_key i) as [k|]; [rewrite bool_decide_true by by eexists
    |rewrite bool_decide_false by (by intros [? [=]]); eapply H; try done; by apply Hno].
  cbn [negb]. destruct (ci_running i); [eapply H; try done; by apply Hno|].
  apply post_act, post_run. destruct (ipc_timer_init 10 w) as [rc w1] eqn:E1. cbn [fst snd].
  destruct (law_timer_init _ _ _ _ E1) as (Hv1&Hz1&Hadd). apply post_if; intros Hrc.
  { apply post_ret. right. intros R _. pose proof (cr_timer_init _ R 10 w) as Hr. rewrite E1 in Hr. simpl in Hr. by subst rc. }
  apply negb_false_iff, Z.eqb_eq in Hrc as ->.
  apply post_act, post_run. destruct (ipc_event_loop_add_timer w1) as [rc w2] eqn:E2. cbn [fst snd].
  apply post_if; intros Hrc.
  { apply post_ret. right. intros R _. pose proof (cr_add_timer _ R w1) as Hr. rewrite E2 in Hr. simpl in Hr. by subst rc. }
  apply negb_false_iff, Z.eqb_eq in Hrc as ->. destruct (Hadd eq_refl w2 eq_refl) as [Hv2 Hz2].
  eapply H; try done. intros s. by apply view_streams.
Qed.

Lemma command_obeys i p c w :
  command_of p = Some c →
  post (canonizationservice_decode_and_dispatch_control_command sizeof_private_key i p) (obeys i c w) w.
Proof.
  unfold command_of, canonizationservice_decode_and_dispatch_control_command.
  destruct (Nat.ltb_spec (length p) 4) as [?|Hl]; [done|]. intros [= <-]. cbv zeta.
  rewrite ntohl_le_dec by (rewrite length_sub; [done|lia]). set (m := be_dec (sub 0 4 p)).
  destruct (m =? CANONIZATIONSERVICE_API_METHOD_CONFIGURE); [apply configure_obeys|].
  destruct (m =? CANONIZATIONSERVICE_API_METHOD_PRIVATE_KEY_SET); [apply private_key_obeys|].
  destruct (m =? CANONIZATIONSERVICE_API_METHOD_START); [apply start_obeys|].
  by apply (reply_obeys i (cmd_unknown m) w w _ _ []); rewrite ?app_nil_r.
Qed.

(** The outcome of reading a command: wait for the rest of the packet; take the
    packet, obey, and respond; or the socket or the platform failed. *)
Definition controls (p : bytes) (i : instance) (w : W) (r : option instance) (w' : W) : Prop :=
  (r = Some i ∧ same w w' ∧ (partly control_sock p w w' ∨ canon_faulty)) ∨
  (∃ w1, received control_sock p w w1 ∧
     match command_of p with
     | None => r = Some (set_force_exit i) ∧ same w1 w'
     | Some c =>
         let e := obey i c in
         r = Some (if ce_stays e then ce_inst e else set_force_exit (ce_inst e)) ∧
         responds (status_response c e) (ce_sleep e) w1 w'
     end) ∨
  (∃ i', r = Some i') ∧ (¬ readable (EV := sockets control_sock) w ∨ control_faulty).

(** The write callback that follows. *)
Lemma post_enable_write s r (Q : option instance → W → Prop) w :
  (∀ w', same w w' → view s w' = view s w → Q r w') →
  post (let! len := ipc_socket_writebuffer_size (EV := sockets s) in
        if 0 <? len then let! _ := ipc_set_writecb_noblock s true in ret r else ret r) Q w.
Proof.
  intros HQ. unfold ipc_socket_writebuffer_size. apply post_act, post_run.
  destruct (law_own_write_length s w) as [Hother Hz].
  destruct (evbuffer_get_write_length (LIBEVENT := sockets s) w) as [k w1] eqn:E. cbn [fst snd] in *.
  apply (law_get_write_length (LIBEVENT_laws := canon_sock s)) in E as [E _].
  assert (∀ s', view s' w1 = view s' w) as Hv.
  { intros s'. destruct (decide (s' = s)) as [->|Hne]; [exact E|apply Hother; congruence]. }
  assert (same w w1) as Hs by (split; [intros s'; by apply view_streams|done]).
  apply post_if; intros Hk; [|by apply post_ret, HQ].
  apply post_act, post_run. pose proof (quiet_same _ w1 (law_quiet_writecb s true)) as Hs2.
  destruct (law_quiet_writecb s true w1) as [Hv2 _]. apply post_ret, HQ; [by eapply same_trans|].
  rewrite Hv2 by by intros []. apply Hv.
Qed.

Lemma responds_to w1 w2 w3 d z : responds d z w1 w2 → same w2 w3 → responds d z w1 w3.
Proof.
  intros (Hi&Ho&Hs) [H1 Hs1]. split_and!; [| |congruence]; intros s'; destruct (H1 s') as [Hi1 Ho1].
  - by rewrite Hi1.
  - by rewrite Ho1, Ho.
Qed.

Lemma control_read_spec p rest i w :
  ci_force_exit i = false → good_packet p → wire_in control_sock w = frame (msg_data p) ++ rest →
  post (canonizationservice_control_read sizeof_private_key i) (controls p i w) w.
Proof.
  intros Hex Hp Hin. unfold canonizationservice_control_read. rewrite Hex.
  assert (∀ w1 r (Q : option instance → W → Prop), (∀ w', same w1 w' → Q (Some (set_force_exit r)) w') →
    post (canonizationservice_exit_event_loop r) Q w1) as Hexit.
  { intros w1 r Q HQ. apply post_act, post_quiet; [eauto with apart|]. intros. by apply post_ret, HQ. }
  apply post_act. eapply post_read_data; [done|exact Hin|intros w1 Hr|intros w1 Hs Hw|intros e w1 He Hf].
  - destruct (command_of p) as [c|] eqn:Hc.
    + apply post_act, post_act. eapply post_mono; [by apply command_obeys|].
      intros [st i1] w2 [(Hi&Hst&Hw2)|Hf].
      2: { destruct (negb _); [apply Hexit; intros ? _|apply post_ret]; apply post_enable_write; intros w3 _ _;
             right; right; (split; [by eexists|by right]). }
      cbn [fst snd] in *. subst i1.
      assert (∀ w3, same w2 w3 → controls p i w (Some (if ce_stays (obey i c) then ce_inst (obey i c)
                else set_force_exit (ce_inst (obey i c)))) w3) as Hdone.
      { intros w3 Hw3. right; left. exists w1. split; [done|]. rewrite Hc. split; [done|]. by eapply responds_to. }
      rewrite Hst. destruct (ce_stays (obey i c)); cbn [negb].
      * apply post_ret, post_enable_write. intros w3 Hw3 _. by apply Hdone.
      * apply Hexit. intros w3 Hw3. apply post_enable_write. intros w4 Hw4 _. apply Hdone. by eapply same_trans.
    + unfold canonizationservice_decode_and_dispatch_control_command.
      assert ((length p <? 4)%nat = true) as -> by (unfold command_of in Hc; by destruct (_ <? _)%nat).
      apply post_act, post_act, post_ret, Hexit. intros w2 Hw2. apply post_enable_write. intros w3 Hw3 _.
      right; left. exists w1. split; [done|]. rewrite Hc. split; [done|]. by eapply same_trans.
  - rewrite Z.eqb_refl. apply post_act, post_ret, post_enable_write. intros w2 Hw2 Hv. left.
    split_and!; [done|by eapply same_trans|]. unfold partly. by rewrite Hv.
  - apply post_act. rewrite (proj2 (Z.eqb_neq _ _)) by done. apply Hexit. intros w2 Hw2.
    apply post_enable_write. intros w3 _ _. right; right. split; [by eexists|].
    destruct Hf as [?|?]; [by left|right; by apply canon_control_faulty].
Qed.
(** C31: Every packet that is next on the control socket, of 1 to 2^30 - 1 bytes
    and whatever they are, has exactly the effect of its command on a service that
    is not leaving its event loop.  The service is configured once, gets its private
    key once, and starts, with the timer set to ten milliseconds, only after both;
    the response on the control socket has the method of the packet and the status of
    that effect, and nothing is sent anywhere else; every other command leaves the
    instance unchanged.  The service goes on after a second configuration (of any
    size), a start that is too early and a second start; it leaves its event loop
    after the response to a first configuration or a key of a wrong size, a second
    key and an unknown method, and without a response when the packet is too short for
    a method.  Otherwise the packet is not complete in the buffer after what the
    socket had was read, and is waited for; or the socket cannot be read; or a
    library call failed. *)
Theorem control_read_obeys p rest i w :
  ci_force_exit i = false → good_packet p → wire_in control_sock w = frame (msg_data p) ++ rest →
  post (canonizationservice_control_read sizeof_private_key i) (controls p i w) w.
Proof. apply control_read_spec. Qed.
End control.

(** ** A call *)

(** The calls of the client API. *)
Inductive control_call : Type :=
  | call_configure (conf : agent_config)
  | call_private_key_set (k : canonizationservice_private_key)
  | call_start.

Definition call_command (c : control_call) : control_command :=
  match c with
  | call_configure conf =>
      cmd_configure (Some (wrap64 (block_max_milliseconds conf), wrap64 (block_max_transactions conf)))
  | call_private_key_set k => cmd_private_key_set (Some k)
  | call_start => cmd_start
  end.

Definition call_packet (c : control_call) : bytes :=
  match c with
  | call_configure conf =>
      configure_packet (wrap64 (block_max_milliseconds conf)) (wrap64 (block_max_transactions conf))
  | call_private_key_set k => private_key_packet k
  | call_start => start_packet
  end.

Definition call_ok `{KB : KEY_BUFFERS W} (c : control_call) : Prop :=
  match c with
  | call_configure conf => block_max_milliseconds_set conf = true ∧ block_max_transactions_set conf = true
  | call_private_key_set k => key_fits k
  | call_start => True
  end.

Lemma call_packet_command `{KB : KEY_BUFFERS W} c :
  call_ok c → command_of (call_packet c) = Some (call_command c).
Proof.
  destruct c as [conf|k|]; intros Hok; simpl.
  - apply command_of_configure; apply wrap64_range.
  - rewrite <- (app_nil_r (private_key_packet k)). by apply command_of_private_key.
  - exact (command_of_start []).
Qed.

Lemma call_packet_good `{KB : KEY_BUFFERS W} c : call_ok c → good_packet (call_packet c).
Proof.
  destruct c as [conf|k|]; intros Hok; simpl; unfold good_packet, wf_message.
  - unfold configure_packet, sizeof. len.
  - destruct Hok as (Hid&_&_&_&_&Hsz). unfold private_key_packet, sizeof, is_uuid in *. len.
  - done.
Qed.

Section client.
Context {W : Type} {M : MALLOC W} {IO : POSIX_IO W} {VB : VCCRYPT_BUFFER W} {IOL : POSIX_IO_laws W}.
Context {VBL : VCCRYPT_BUFFER_laws W}.
(** The buffers of vccrypt do not touch the descriptor. *)
Context (Hquiet : ∀ n w, rx (vccrypt_buffer_init n w).2 = rx w ∧ tx (vccrypt_buffer_init n w).2 = tx w).

Definition client_faulty : Prop := IO_reliable W → (∀ n w, (vccrypt_buffer_init n w).1.1 = 0) → False.

Definition control_sendreq (c : control_call) : Eff W unit :=
  match c with
  | call_configure conf => canonization_api_sendreq_configure (Some conf)
  | call_private_key_set k =>
      canonization_api_sendreq_private_key_set (pk_id k) (pk_enc_pubkey k) (pk_enc_privkey k)
        (pk_sign_pubkey k) (pk_sign_privkey k)
  | call_start => canonization_api_sendreq_start
  end.

Definition control_recvresp (c : control_call) : Eff W (Z * Z) :=
  match c with
  | call_configure _ => canonization_api_recvresp_configure
  | call_private_key_set _ => canonization_api_recvresp_private_key_set
  | call_start => canonization_api_recvresp_start
  end.

Definition sent (p : bytes) (w : W) (r : result unit) (w' : W) : Prop :=
  (r = Ok tt ∧ rx w' = rx w ∧ tx w' = tx w ++ frame (msg_data p)) ∨ (∃ e, r = Err e) ∧ client_faulty.

Lemma write_data_sent p w0 w :
  good_packet p → rx w = rx w0 → tx w = tx w0 → post (ipc_write_data_block p) (sent p w0) w.
Proof.
  intros Hp Hr Ht. eapply post_mono; [apply (write_block_spec (msg_data p)), Hp|].
  intros [[]|e] w'; cbn [written].
  - intros [Hr' Ht']. left. rewrite Hr', Ht'. split_and!; [done|done|congruence].
  - intros [_ Hf]. right. split; [by eexists|]. intros R _. by apply Hf.
Qed.

Lemma control_send_spec p w : good_packet p → 0 < sizeof p → post (control_send p) (sent p w) w.
Proof.
  intros Hp Hpos. unfold control_send. apply post_act, post_run.
  destruct (malloc _ w) as [b w1] eqn:E. apply law_io_malloc in E as Hq. cbn [fst snd].
  apply post_if; intros Hb.
  { apply post_ret. right. split; [by eexists|]. intros R _.
    pose proof (reliable_io_malloc _ R (sizeof p) w Hpos) as H. rewrite E in H. simpl in H. by subst b. }
  apply post_act. eapply post_mono; [by apply (write_data_sent p w); [done|apply Hq..]|].
  intros r w2 [(->&?&?)|[[e ->] Hf]]; apply post_ret; [by left|right; by eauto].
Qed.

Lemma control_sendreq_spec {V : Type} {KB : KEY_BUFFERS V} c w :
  call_ok c → post (control_sendreq c) (sent (call_packet c) w) w.
Proof.
  intros Hok. pose proof (call_packet_good c Hok) as Hp. destruct c as [conf|k|]; simpl in *.
  - destruct Hok as [H1 H2]. unfold canonization_api_sendreq_configure. rewrite H1, H2. cbn [negb orb].
    unfold configure_packet in *. rewrite net32_be, !net64_be. apply control_send_spec; [done|].
    unfold sizeof. len.
  - destruct k as [id k1 k2 k3 k4]. destruct Hok as (Hid&_&_&_&_&Hsz).
    unfold private_key_packet, canonization_api_sendreq_private_key_set in *. cbn [pk_id pk_enc_pubkey
      pk_enc_privkey pk_sign_pubkey pk_sign_privkey] in *. cbv zeta.
    rewrite !net32_be, (take_ge id) by (unfold is_uuid in Hid; lia).
    assert (∀ x, sizeof x < 2 ^ 30 → wrap32 (sizeof x) = sizeof x) as Hwrap
      by (intros; apply Z.mod_small; unfold sizeof in *; lia).
    rewrite !Hwrap by (unfold sizeof in *; lia).
    match goal with |- post (act (vccrypt_buffer_init ?n) _) (sent ?x w) w => set (p := x) in *; set (sz := n) end.
    assert (length p = sz) as Hlen by (subst p sz; unfold is_uuid in Hid; len).
    apply post_act, post_run. destruct (Hquiet sz w) as [Hr Ht].
    pose proof (law_buffer_init sz w) as Hb. destruct (vccrypt_buffer_init sz w) as [[rc b] w1] eqn:E.
    cbn [fst snd] in *. apply post_if; intros Hrc.
    { apply post_ret. right. split; [by eexists|]. intros _ R. specialize (R sz w). rewrite E in R. simpl in R. by subst rc. }
    apply negb_false_iff, Z.eqb_eq in Hrc as ->.
    rewrite (drop_ge b), app_nil_r by (rewrite (Hb _ _ eq_refl); lia).
    pose proof Hp as [_ Hp']. rewrite Hwrap, take_ge by (unfold sizeof in *; lia).
    by apply write_data_sent.
  - unfold canonization_api_sendreq_start. rewrite net32_be. by apply control_send_spec.
Qed.

Lemma control_recvresp_spec c s rest w :
  u32 s → rx w = frame (msg_data (control_response (command_method (call_command c)) 0 s None)) ++ rest →
  post (control_recvresp c) (λ r w', (r = Ok (0, s) ∧ rx w' = rest ∧ tx w' = tx w) ∨ client_faulty) w.
Proof.
  intros Hs Hrx. set (m := command_method _) in *. set (p := control_response m 0 s None) in *.
  assert (u32 m) as Hm by (subst m; destruct c; by vm_compute).
  assert (p = be_enc 4 m ++ be_enc 4 0 ++ be_enc 4 s) as Hp.
  { subst p. unfold control_response. by rewrite !net32_be, app_nil_r. }
  assert (good_packet p) as Hgood by (rewrite Hp; unfold good_packet, wf_message, sizeof; len).
  assert (length p = 12%nat) as Hlen by (rewrite Hp; len).
  assert (ntohl (le_dec (sub 0 4 p)) = m ∧ ntohl (le_dec (sub 4 4 p)) = 0 ∧ ntohl (le_dec (sub 8 4 p)) = s)
    as (E1&E2&E3).
  { rewrite Hp. split_and!.
    - by apply read_net32.
    - rewrite (sub_skip 4 4) by len. by apply read_net32.
    - rewrite (sub_skip 8 4), (sub_skip _ 4) by len. rewrite <- (app_nil_r (be_enc 4 s)). by apply read_net32. }
  assert (post ipc_read_data_block (λ r w', (r = Ok p ∧ rx w' = rest ∧ tx w' = tx w) ∨ client_faulty) w) as Hread.
  { pose proof (read_block_spec (msg_data p) rest w Hgood Hrx) as H. simpl in H.
    apply post_run. apply post_run in H. unfold bind, act in H.
    destruct (ipc_read_data_block w) as [[d|e] w1]; simpl in *.
    - destruct H as ([= ->]&?&?). by left.
    - right. intros R _. by apply H. }
  destruct c; simpl in *; unfold canonization_api_recvresp_configure, canonization_api_recvresp_start,
    canonization_api_recvresp_private_key_set, control_recv;
    (first [apply post_bind|apply post_act]); (eapply post_mono; [exact Hread|]);
    (intros r w' [(->&Hr&Ht)|Hf]; [|destruct r; solve [apply post_run; by right|by right]]);
    rewrite Hlen, E1, E2, E3; apply post_ret; by left.
Qed.
End client.

(** The client is one process and the service another, each with its world. *)
Section call.
Context {W' : Type} {M' : MALLOC W'} {IO : POSIX_IO W'} {VB' : VCCRYPT_BUFFER W'} {IOL : POSIX_IO_laws W'}.
Context {VBL' : VCCRYPT_BUFFER_laws W'}.
Context {W : Type} {M : MALLOC W} {VB : VCCRYPT_BUFFER W} {VC : VCCERT W} {BLD : VCCERT_BUILDER W}.
Context {LIST : LINKED_LIST W} {LOOP : EVENT_LOOP W} {RA : RCPR_ALLOCATOR W} {PS : PSOCK W}.
Context {SK : SOCKETS W} {CV : CANON_view W} {CL : CANON_laws W} {BL : VCCERT_BUILDER_laws W}.
Context {KB : KEY_BUFFERS W} {KL : KEY_BUFFERS_laws W}.

Lemma obey_status_u32 i c : u32 (ce_status (obey i c)).
Proof.
  destruct c as [[[]|]|[k|]| |m]; simpl;
    repeat match goal with |- context [if ?b then _ else _] => destruct b | |- context [match ci_private_key i with _ => _ end] => destruct (ci_private_key i) end;
    by vm_compute.
Qed.

(** C19: A call of the supervisor to the canonization service, from the client
    function and back: when the bytes that the request function wrote are what the
    service finds on its control socket, the service takes the call's command with
    exactly the arguments of the client, obeys it and answers; and when the bytes
    it answered are what the client finds, the response function returns offset 0
    and the status of the command.  Neither fails, unless its platform does, the
    service's socket has been closed, or the packet has not arrived in full. *)
Theorem control_call_served sizeof_private_key i c wc ws :
  (∀ n w, rx (vccrypt_buffer_init (W := W') n w).2 = rx w ∧ tx (vccrypt_buffer_init n w).2 = tx w) →
  0 < sizeof_private_key → ci_force_exit i = false → call_ok (W := W) c →
  post (control_sendreq c) (λ r wc1,
    ((∃ e, r = Err e) ∧ client_faulty (W := W')) ∨
    r = Ok tt ∧ ∃ request, tx wc1 = tx wc ++ request ∧
      (wire_in control_sock ws = request →
       post (canonizationservice_control_read sizeof_private_key i) (λ r ws1,
         let e := obey i (call_command c) in
         (r = Some i ∧ same ws ws1 ∧
           ((∀ rest, v_rbuf (view control_sock ws1) ≠ request ++ rest) ∨ canon_faulty (W := W))) ∨
         ((∃ i', r = Some i') ∧ (¬ readable (EV := sockets control_sock) ws ∨ control_faulty (W := W))) ∨
         r = Some (if ce_stays e then ce_inst e else set_force_exit (ce_inst e)) ∧
         wire_in control_sock ws1 = [] ∧ sleeps ws1 = sleeps ws ++ ce_sleep e ∧
         ∃ response, wire_out control_sock ws1 = wire_out control_sock ws ++ response ∧
           ∀ wc2 rest, rx wc2 = response ++ rest →
             post (control_recvresp c) (λ r wc3,
               (r = Ok (0, ce_status e) ∧ rx wc3 = rest) ∨ client_faulty (W := W')) wc2) ws)) wc.
Proof.
  intros Hquiet Hsz Hex Hok. eapply post_mono; [by apply (control_sendreq_spec Hquiet (V := W))|].
  intros r wc1 [(->&_&Ht)|?]; [right|by left]. split; [done|]. exists (frame (msg_data (call_packet c))).
  split; [done|]. intros Hin.
  eapply post_mono.
  { apply (control_read_spec sizeof_private_key Hsz (call_packet c) []); [done|by apply (call_packet_good (W := W))|].
    by rewrite app_nil_r. }
  intros r ws1 [(->&Hs&Hw)|[(w1&(Hin1&_&Hout1&Hz1)&He)|Hf]];
    [left; split_and!; [done..|destruct Hw as [[? _]|?]; auto]|right; right|right; by left].
  rewrite call_packet_command in He by done. destruct He as (->&Hi&Ho&Hz).
  split; [done|]. split.
  { rewrite Hi. rewrite Hin in Hin1. rewrite <- (app_nil_r (frame _)) in Hin1 at 1. by apply app_inv_head in Hin1. }
  split; [by rewrite Hz, Hz1|].
  exists (frame (msg_data (status_response (call_command c) (obey i (call_command c))))).
  split; [rewrite Ho, Hout1; by rewrite decide_True|].
  intros wc2 rest Hrx. eapply post_mono; [eapply (control_recvresp_spec c _ rest); [apply obey_status_u32|exact Hrx]|].
  intros r wc3 [(->&?&_)|?]; [by left|by right].
Qed.
End call.
