(* ===== verification/CanonizationLife.v ===== *)
(** * The life cycle of the canonization service

    An invariant of the service under any sequence of its callbacks, in any order
    and on any platform: whatever the sockets bring and whichever library call
    fails. *)

From S2P Require Import Prelude Inet StatusCodes Contexts Lmdb Records Vccert RequestCodec ResponseCodec Ipc AuthedIpc ClientApi NotificationCodec Canonization CanonizationControl.

(** The callbacks that the event loop calls. *)
Inductive callback : Set :=
  | cb_control_read | cb_data_read | cb_random_read | cb_notify_read
  | cb_control_write (would_block : bool)
  | cb_write (sock : sock_id) (would_block : bool)
  | cb_timer.

#[global] Instance callback_eq_dec : EqDecision callback.
Proof. solve_decision. Defined.

Section life.
Context {W : Type} {M : MALLOC W} {VB : VCCRYPT_BUFFER W} {VC : VCCERT W} {BLD : VCCERT_BUILDER W}.
Context {LIST : LINKED_LIST W} {LOOP : EVENT_LOOP W} {RA : RCPR_ALLOCATOR W} {PS : PSOCK W}.
Context {SK : SOCKETS W} {KB : KEY_BUFFERS W}.
Context (sizeof_private_key : Z).

Abbreviation instance := canonizationservice_instance.

Definition run_callback (cb : callback) : instance → Act W (option instance) :=
  match cb with
  | cb_control_read => canonizationservice_control_read sizeof_private_key
  | cb_data_read => canonizationservice_data_read
  | cb_random_read => canonizationservice_random_read
  | cb_notify_read => canonizationservice_notify_read
  | cb_control_write b => λ i, canonizationservice_control_write i b
  | cb_write s b => λ i, write_callback s i b
  | cb_timer => canonizationservice_timer_cb
  end.

(** The timer only exists once the service was started. *)
Definition enabled (cb : callback) (i : instance) : Prop :=
  match cb with cb_timer => ci_running i = true | _ => True end.

(** The instances the event loop can come to.  The world a callback finds is
    arbitrary: the other processes act in between. *)
Inductive reachable : instance → Prop :=
  | reachable_create : reachable canonizationservice_instance_create
  | reachable_callback i cb w i' w' :
      reachable i → enabled cb i → run_callback cb i w = (Some i', w') → reachable i'.

(** ** What the callbacks keep *)

Definition has_list (i : instance) : Prop := is_Some (ci_transaction_list i).

(** The configuration and the key. *)
Definition steady (i i' : instance) : Prop :=
  ci_configured i' = ci_configured i ∧ ci_running i' = ci_running i ∧
  ci_block_max_milliseconds i' = ci_block_max_milliseconds i ∧
  ci_block_max_transactions i' = ci_block_max_transactions i ∧
  ci_private_key i' = ci_private_key i ∧
  (ci_force_exit i = true → ci_force_exit i' = true) ∧
  (has_list i' → has_list i ∨ ci_running i = true).

Section fine.
(** Whether the callback may follow a null pointer; then only a missing list leads
    to it. *)
Context (may_be_null : Prop).

Definition evolves (i : instance) (r : option instance) : Prop :=
  match r with Some i' => steady i i' | None => may_be_null ∧ ¬ has_list i end.

Definition fine (i : instance) (m : Act W (option instance)) : Prop :=
  ∀ w, post m (λ r _, evolves i r) w.

(** A key, if there are transactions to sign for. *)
Definition keyed (i : instance) : Prop := has_list i → is_Some (ci_private_key i).

Lemma steady_refl i : steady i i.
Proof. split_and!; auto. Qed.

Lemma fine_done i i' : steady i i' → fine i (done i').
Proof. intros H w. by apply post_ret. Qed.
Lemma fine_ret i r : evolves i r → fine i (ret r).
Proof. intros H w. by apply post_ret. Qed.
Lemma fine_null i : may_be_null → ¬ has_list i → fine i null_pointer.
Proof. intros Hn H w. by apply post_ret. Qed.
Lemma fine_act {A} i (m : Act W A) k : (∀ a, fine i (k a)) → fine i (act m k).
Proof. intros H w. apply post_act, post_run, H. Qed.
Lemma fine_then i (m : Act W (option instance)) k :
  fine i m → (∀ r, evolves i r → fine i (k r)) → fine i (act m k).
Proof.
  intros Hm Hk w. apply post_act. eapply post_mono; [apply Hm|]. intros r w' Hr. by apply Hk.
Qed.
Lemma fine_if i (b : bool) m1 m2 : fine i m1 → fine i m2 → fine i (if b then m1 else m2).
Proof. by destruct b. Qed.

(** Going on from an instance that has a list if the first one has. *)
Lemma fine_from i i' m : steady i i' → (has_list i → has_list i') → fine i' m → fine i m.
Proof.
  intros (Hc&Hr&Hms&Hmx&Hk&?&?) Hl Hm w. eapply post_mono; [apply Hm|]. intros [i2|] w'; simpl; [|naive_solver].
  intros (?&Hr2&?&?&?&?&?). rewrite Hr in *. split_and!; (congruence || naive_solver).
Qed.

Lemma fine_exit i i' : steady i i' → fine i (canonizationservice_exit_event_loop i').
Proof.
  intros (?&?&?&?&?&?&?). unfold canonizationservice_exit_event_loop. apply fine_act. intros _.
  apply fine_done. split_and!; done.
Qed.
Lemma fine_await i sock s i' : steady i i' → fine i (await sock s i').
Proof. intros (?&?&?&?&?&?&?). apply fine_act. intros _. apply fine_done. split_and!; done. Qed.
Lemma fine_send i s send i' : steady i i' → fine i (send_request s send i').
Proof.
  intros H. pose proof H as (?&?&?&?&?&?&?). apply fine_act. intros [[]|e].
  - apply fine_act. intros _. apply fine_done. split_and!; done.
  - apply fine_exit. split_and!; done.
Qed.

(** A change of the fields of a round. *)
Ltac steady_tac :=
  repeat match goal with H : steady _ _ |- _ => destruct H as (?&?&?&?&?&?&?) end;
  split_and!; try done; unfold has_list in *; simpl; try (by intros [? [=]]); naive_solver.

Ltac fine_tac :=
  repeat match goal with
  | |- fine _ (act _ _) => apply fine_act; intros ?
  | |- fine _ (if _ then _ else _) => apply fine_if
  | |- fine _ (canonizationservice_exit_event_loop _) => apply fine_exit
  | |- fine _ (await _ _ _) => apply fine_await
  | |- fine _ (send_request _ _ _) => apply fine_send
  | |- fine _ (done _) => apply fine_done
  | |- fine _ (match ?x with _ => _ end) => destruct x eqn:?
  | |- steady _ _ => steady_tac
  end.

Lemma fine_eff {A} i (m : Eff W A) (P : A → Prop) k :
  (∀ w, post m (λ r _, match r with Ok a => P a | Err _ => True end) w) →
  (∀ a, P a → fine i (k (Ok a))) → (∀ e, fine i (k (Err e))) → fine i (act m k).
Proof.
  intros Hm Hok Herr w. apply post_act. eapply post_mono; [apply Hm|].
  intros [a|e] w' Ha; [by apply Hok|apply Herr].
Qed.

Lemma timer_fine i0 i :
  steady i0 i → has_list i0 ∨ ci_running i0 = true → fine i0 (canonizationservice_timer_cb i).
Proof.
  intros Hs Hr. unfold canonizationservice_timer_cb. apply fine_if; [by apply fine_done|].
  apply fine_act; intros mem. apply fine_if; [fine_tac|].
  apply fine_act; intros rc. apply fine_if; [fine_tac|].
  apply (fine_eff _ _ (steady i0)); [|intros i' ?; fine_tac|intros e; fine_tac].
  intros w. unfold canonizationservice_write_block_id_request.
  apply post_bind, post_run. destruct (ipc_write_data_noblock _ w) as [[[]|e] w1]; [|done].
  apply post_act, post_run, post_ret. steady_tac.
Qed.

Lemma reset_fine i b : may_be_null → has_list i → fine i (canonizationservice_reset i b).
Proof.
  intros Hn [l Hl]. unfold canonizationservice_reset. cbn [ci_transaction_list set_block_id set_state]. rewrite Hl.
  destruct b; [fine_tac|]. apply timer_fine; [steady_tac|]. left. by eexists.
Qed.

Lemma close_fine i0 i : steady i0 i → fine i0 (canonizationservice_child_context_close i).
Proof. intros H. unfold canonizationservice_child_context_close. fine_tac. Qed.

Lemma notify_fine i0 i : steady i0 i → fine i0 (canonizationservice_notify_block_update i).
Proof.
  intros H. unfold canonizationservice_notify_block_update. apply fine_act. intros [buf|e]; [|fine_tac].
  apply fine_act. intros r. apply fine_then; [destruct r; fine_tac|].
  intros r' Hr'. apply fine_act. intros _. by apply fine_ret.
Qed.

Lemma complete_fine i0 i : steady i0 i → fine i0 (canonizationservice_complete_update i).
Proof.
  intros H. unfold canonizationservice_complete_update. cbv zeta.
  destruct (ci_first_time i); [apply notify_fine; steady_tac|by apply close_fine].
Qed.

Lemma block_make_fine i : may_be_null → keyed i → fine i (canonizationservice_block_make i).
Proof.
  intros Hn Hk. unfold canonizationservice_block_make.
  destruct (ci_transaction_list i) as [[|txn txns]|] eqn:Hl.
  - apply complete_fine, steady_refl.
  - pose proof (steady_refl i). destruct Hk as [key ->]; [by eexists|]. apply fine_act. intros [b|e]; [|fine_tac].
    apply fine_act. intros [r|e]; fine_tac.
  - apply fine_null; [done|]. unfold has_list. rewrite Hl. by intros [].
Qed.

Lemma transaction_fine i finish r :
  may_be_null → keyed i → fine i (finish i) → fine i (transaction_response i finish r).
Proof.
  intros Hn Hk Hf. pose proof (steady_refl i). unfold transaction_response. destruct r as [[[h n] c]|e]; [|fine_tac].
  apply fine_if; [done|]. apply fine_if; [fine_tac|]. apply fine_if; [done|].
  apply fine_act; intros mem. apply fine_if; [fine_tac|].
  destruct (ci_transaction_list i) as [l|] eqn:Hl; [|apply fine_null; [done|]; unfold has_list; rewrite Hl; by intros []].
  apply fine_act; intros rc. apply fine_if; [fine_tac|]. cbv zeta.
  set (i' := set_transaction_list _ i).
  assert (fine i (canonizationservice_block_make i')) as Hmake.
  { apply (fine_from _ i'); [subst i'; steady_tac|by eexists|].
    apply block_make_fine; [done|]. intros _. apply Hk. by eexists. }
  apply fine_if; [done|]. apply fine_if; [done|]. apply fine_send. subst i'. steady_tac.
Qed.

Lemma data_packet_fine i p : may_be_null → keyed i → fine i (canonizationservice_data_packet i p).
Proof.
  intros Hn Hk. pose proof (steady_refl i) as Hs. unfold canonizationservice_data_packet.
  apply fine_if; [fine_tac|]. cbv zeta. repeat (apply fine_if; [|]).
  - unfold canonizationservice_dataservice_response_child_context_create,
      canonizationservice_dataservice_sendreq_block_id_latest_get. fine_tac.
  - unfold canonizationservice_dataservice_response_child_context_close.
    destruct (ci_transaction_list i) eqn:Hl; [apply reset_fine; [done|by eexists]|apply fine_null; [done|]].
    unfold has_list. rewrite Hl. by intros [].
  - apply transaction_fine; [done|done|by apply complete_fine].
  - apply transaction_fine; [done|done|by apply block_make_fine].
  - unfold canonizationservice_dataservice_response_latest_block_id_read,
      canonizationservice_dataservice_sendreq_transaction_get_first,
      canonizationservice_dataservice_sendreq_block_get. fine_tac.
  - unfold canonizationservice_dataservice_response_block_read.
    destruct (dataservice_decode_response_block_get p) as [[[h n] c]|e]; [|fine_tac].
    apply fine_if; [fine_tac|]. cbv zeta. set (i' := set_block_height _ i).
    assert (steady i i') as Hs' by (subst i'; fine_tac).
    apply (fine_eff _ _ (steady i)); [|intros i2 H2|intros e; fine_tac].
    + intros w. unfold parse_block. do 2 (apply post_act, post_run, post_if; intros ?; [done|]).
      destruct (vccert_parser_find_short _ _).1 as [sig|]; [|done]. apply post_if; intros _; apply post_ret; steady_tac.
    + unfold canonizationservice_dataservice_sendreq_transaction_get_first. fine_tac.
  - by apply notify_fine.
  - by apply fine_exit.
Qed.

Lemma read_packet_fine i s react : (∀ p, fine i (react p)) → fine i (read_packet s i react).
Proof.
  intros H. pose proof (steady_refl i). unfold read_packet. apply fine_if; [fine_tac|].
  apply fine_act. intros [p|e]; [done|fine_tac].
Qed.

Lemma write_fine s i b : fine i (write_callback s i b).
Proof. pose proof (steady_refl i). unfold write_callback. fine_tac. Qed.

Lemma control_write_fine i b : fine i (canonizationservice_control_write i b).
Proof. pose proof (steady_refl i). unfold canonizationservice_control_write. fine_tac. Qed.

(** Every callback but the one of the control socket. *)
Lemma callback_fine cb i :
  keyed i → enabled cb i → cb ≠ cb_control_read → (cb = cb_data_read → may_be_null) →
  fine i (run_callback cb i).
Proof.
  intros Hk He Hne Hn. pose proof (steady_refl i). destruct cb; [done|..]; simpl.
  - apply read_packet_fine. intros p. apply data_packet_fine; [by apply Hn|done].
  - apply read_packet_fine. intros p. unfold canonizationservice_dataservice_sendreq_child_context_create.
    cbv zeta. fine_tac.
  - apply read_packet_fine. intros p. apply fine_if; [fine_tac|].
    destruct (notificationservice_api_decode_response p); [|fine_tac].
    apply fine_if; [fine_tac|by apply close_fine].
  - apply control_write_fine.
  - apply write_fine.
  - apply timer_fine; [done|by right].
Qed.

End fine.

(** ** Commands *)

(** Once set, the configuration and the key stay; the service runs only with
    both. *)
Definition progresses (i i' : instance) : Prop :=
  (ci_configured i = true → ci_configured i' = true ∧
     ci_block_max_milliseconds i' = ci_block_max_milliseconds i ∧
     ci_block_max_transactions i' = ci_block_max_transactions i) ∧
  (is_Some (ci_private_key i) → ci_private_key i' = ci_private_key i) ∧
  (ci_running i = true → ci_running i' = true) ∧
  (ci_force_exit i = true → ci_force_exit i' = true).

(** What holds of every reachable instance. *)
Definition lawful (i : instance) : Prop :=
  (ci_running i = true → ci_configured i = true ∧ is_Some (ci_private_key i)) ∧
  (has_list i → ci_running i = true).

Lemma steady_progresses i i' : steady i i' → progresses i i'.
Proof. unfold progresses. intros (->&->&->&->&->&?&_). naive_solver. Qed.

Lemma steady_lawful i i' : steady i i' → lawful i → lawful i'.
Proof. intros (Hc&Hr&_&_&Hk&_&Hl) [H1 H2]. unfold lawful. rewrite Hc, Hr, Hk. naive_solver. Qed.

Definition commands (i : instance) (m : Act W (Z * instance)) : Prop :=
  ∀ w, post m (λ r _, lawful r.2 ∧ progresses i r.2) w.

Lemma commands_act {A} i (m : Act W A) k : (∀ a, commands i (k a)) → commands i (act m k).
Proof. intros H w. apply post_act, post_run, H. Qed.
Lemma commands_ret i s i' : lawful i' → progresses i i' → commands i (ret (s, i')).
Proof. intros Hl Hp w. by apply post_ret. Qed.
Lemma commands_if i (b : bool) m1 m2 : commands i m1 → commands i m2 → commands i (if b then m1 else m2).
Proof. by destruct b. Qed.

Lemma progresses_refl i : progresses i i.
Proof. split_and!; auto. Qed.

Lemma reply_commands i m s i' : lawful i' → progresses i i' → commands i (reply_and m s i').
Proof. intros Hl Hp. apply commands_act. intros _. by apply commands_ret. Qed.

Lemma configure_commands i p :
  lawful i → commands i (canonizationservice_decode_and_dispatch_control_command_configure i p).
Proof.
  intros Hl. pose proof (progresses_refl i). unfold canonizationservice_decode_and_dispatch_control_command_configure.
  destruct (ci_configured i) eqn:Hc; [apply commands_act; intros _; by apply commands_ret|].
  apply commands_if; [by apply reply_commands|]. cbv zeta. apply reply_commands.
  - destruct Hl as [H1 H2]. split; [|exact H2]. simpl. intros Hr. by destruct (H1 Hr).
  - split_and!; simpl; try done. by rewrite Hc.
Qed.

Lemma private_key_commands i p :
  lawful i → commands i (canonizationservice_decode_and_dispatch_control_command_private_key_set sizeof_private_key i p).
Proof.
  intros Hl. pose proof (progresses_refl i).
  unfold canonizationservice_decode_and_dispatch_control_command_private_key_set. cbv zeta.
  do 3 (apply commands_if; [by apply reply_commands|]). intros w. apply post_act.
  apply (post_mono _ (λ r _, match r with Ok i' => lawful i' ∧ progresses i i' | Err _ => True end)).
  2: { intros [i'|e] w' H'; apply reply_commands; naive_solver. }
  unfold canonizationservice_private_key_set. case_bool_decide as Hk; [done|].
  apply post_act, post_run. destruct (negb _); [done|].
  do 4 (apply post_bind, post_run; destruct (key_buffer _ _ _).1; [|done]).
  apply post_ret. destruct Hl as [H1 H2]. split; [split|].
  - simpl. intros Hr. destruct (H1 Hr). split; [done|by eexists].
  - exact H2.
  - split_and!; simpl; done.
Qed.

Lemma start_commands i p :
  lawful i → commands i (canonizationservice_decode_and_dispatch_control_command_start i p).
Proof.
  intros Hl. pose proof (progresses_refl i). unfold canonizationservice_decode_and_dispatch_control_command_start.
  cbv zeta. destruct (ci_configured i) eqn:Hc; simpl; [|apply commands_act; intros ?; by apply commands_ret].
  case_bool_decide as Hk; simpl; [|apply commands_act; intros ?; by apply commands_ret].
  destruct (ci_running i) eqn:Hr; [apply commands_act; intros ?; by apply commands_ret|].
  assert (lawful (set_running i)) by (split; simpl; [done|by intros ?]).
  assert (progresses i (set_running i)) by (split_and!; simpl; done).
  apply commands_act; intros rc. apply commands_if; [by apply commands_ret|].
  apply commands_act; intros rc2. apply commands_if; [by apply commands_ret|].
  apply commands_act; intros ?; by apply commands_ret.
Qed.

Lemma control_read_life i w :
  lawful i → post (canonizationservice_control_read sizeof_private_key i) (λ r _,
    ∃ i', r = Some i' ∧ lawful i' ∧ progresses i i') w.
Proof.
  intros Hl. pose proof (progresses_refl i) as Hp. unfold canonizationservice_control_read.
  apply post_if; intros Hex; [apply post_ret; by eauto|].
  assert (∀ i' (Q : option instance → W → Prop) w, (∀ w', Q (Some (set_force_exit i')) w') →
    post (canonizationservice_exit_event_loop i') Q w) as Hexit.
  { intros i' Q w' HQ. apply post_act, post_run, post_ret, HQ. }
  assert (∀ i', lawful i' ∧ progresses i i' → lawful (set_force_exit i') ∧ progresses i (set_force_exit i')) as Hforce.
  { intros i' [H1 (?&?&?&?)]. split; [exact H1|]. split_and!; simpl; done. }
  apply post_act, post_run, post_act.
  apply (post_mono _ (λ r _, ∃ i', r = Some i' ∧ lawful i' ∧ progresses i i')).
  2: { intros r w' H'. apply post_act, post_run, post_if; intros _; [apply post_act, post_run|];
       by apply post_ret. }
  destruct (ipc_read_data_noblock w).1 as [p|e].
  - apply post_act. apply (post_mono _ (λ r _, lawful r.2 ∧ progresses i r.2)).
    + apply (commands_if i _ _ _ (commands_ret _ _ _ Hl Hp)). cbv zeta.
      do 3 (apply commands_if; [by first [apply configure_commands|apply private_key_commands|apply start_commands]|]).
      by apply reply_commands.
    + intros [st i'] w' H'. simpl in H'. apply post_if; intros _; [apply Hexit|apply post_ret]; eauto.
  - apply post_if; intros _; [apply post_ret; by eauto|apply Hexit; eauto].
Qed.

(** C18: The life cycle of the canonization service, under any sequence of its
    callbacks, whatever the sockets bring, whichever packet comes when, and
    whichever library call fails.  The service runs only after it was configured
    and given its private key, and collects transactions only while it runs.  The
    configuration and the key are never changed once they are set, and a running
    service or a pending exit are never taken back.  A callback follows a null
    pointer only when the data service answers although no round is under way;
    the private key that signs a block is never missing. *)
Theorem canonization_life_cycle i :
  reachable i →
  lawful i ∧
  ∀ cb w r w', enabled cb i → run_callback cb i w = (r, w') →
    match r with
    | Some i' => progresses i i'
    | None => cb = cb_data_read ∧ ci_transaction_list i = None
    end.
Proof.
  assert (∀ i cb w, lawful i → enabled cb i → post (run_callback cb i) (λ r _,
    match r with
    | Some i' => lawful i' ∧ progresses i i'
    | None => cb = cb_data_read ∧ ci_transaction_list i = None
    end) w) as Hstep.
  { clear i. intros i cb w Hl He. destruct (decide (cb = cb_control_read)) as [->|Hne].
    - eapply post_mono; [by apply control_read_life|]. intros r w' (i'&->&?). done.
    - eapply post_mono; [apply (callback_fine (cb = cb_data_read)); try done|].
      + intros Hlist. by apply Hl, Hl.
      + intros [i'|] w'; simpl; [eauto using steady_lawful, steady_progresses|].
        intros [-> Hn]. split; [done|]. unfold has_list in Hn. destruct (ci_transaction_list i); [|done].
        by destruct Hn. }
  intros Hr. assert (lawful i) as Hl.
  { induction Hr as [|i cb w i' w' Hr IH He E]; [split; [done|by intros []]|].
    pose proof (Hstep i cb w IH He) as H. apply post_run in H. rewrite E in H. apply H. }
  split; [done|]. intros cb w r w' He E. pose proof (Hstep i cb w Hl He) as H. apply post_run in H. rewrite E in H.
  simpl in H. destruct r; [apply H|done].
Qed.
End life.
