(* ===== verification/CanonizationExamples.v ===== *)
(** * The canonization service on a concrete platform

    A world with the four sockets of the service, a builder for the certificate
    format of [Sim], and timers.  The laws of [BlockCert] and
    [CanonizationSpec] hold on it, and a round is evaluated. *)

From S2P Require Import Prelude Inet StatusCodes Contexts Lmdb Records Vccert Sim PqRep ProcessQueueSpec BlockMake Ledger DataserviceExamples RequestCodec RequestSpec ResponseCodec ResponseSpec Ipc IpcSpec CodecExamples AuthedIpc ConfigStream Dispatch Service ServiceSpec ServiceRefine RpcSpec ClientApi NotificationCodec Canonization BlockCert CanonizationSpec CanonizationRound CanonizationSystem CanonizationControl CanonizationControlSpec CanonizationLife.

#[local] Existing Instance io_malloc.
#[local] Existing Instance io_libevent.
#[local] Existing Instance io_libevent_laws.
#[local] Existing Instance sim_vccert.

(** ** Certificates *)

(** A builder: its fields and its size. *)
Record sim_builder := SimBuilder { sb_fields : list (cert_field * bytes); sb_capacity : nat }.

(** The format has one byte for the size of a field. *)
Definition clip (x : cert_field * bytes) : cert_field * bytes := (x.1, take 255 x.2).
Definition sim_built (b : sim_builder) : list (cert_field * bytes) := clip <$> sb_fields b.
Definition sim_size (fs : list (cert_field * bytes)) : nat := sum_list_with (λ x, 2 + length x.2)%nat fs.
Definition sim_sig (key : bytes) : bytes := take 64 (key ++ memset Byte.x00 64).

Definition sim_add {W} (b : sim_builder) (f : cert_field) (v : bytes) : Act W (Z * sim_builder) :=
  if (length v <=? 255)%nat && (sim_size (sim_built b) + (2 + length v) <=? sb_capacity b)%nat
  then ret (0, SimBuilder (sb_fields b ++ [(f, v)]) (sb_capacity b)) else ret (1, b).

Definition sim_emit (b : sim_builder) : bytes := concat ((λ x, sim_field x.1 x.2) <$> sim_built b).

Lemma sim_fields_concat fs fuel :
  Forall (λ x : cert_field * bytes, (length x.2 ≤ 255)%nat) fs →
  (length (concat ((λ x, sim_field x.1 x.2) <$> fs)) ≤ fuel)%nat →
  sim_fields fuel (concat ((λ x, sim_field x.1 x.2) <$> fs)) = (λ x, (sim_tag x.1, x.2)) <$> fs.
Proof.
  intros Hfs. revert fuel. induction Hfs as [|[f v] fs Hv Hfs IH]; intros fuel Hfuel; [by destruct fuel|].
  rewrite !fmap_cons in *. cbn [concat fst snd] in *. unfold sim_field in *. simpl app in *.
  destruct fuel as [|fuel]; [simpl in *; lia|]. cbn [sim_fields].
  rewrite !Z_of_byte_of_Z, (Z.mod_small (sizeof v)) by (unfold sizeof; simpl in Hv; lia).
  unfold sizeof. rewrite Nat2Z.id, take_app_length, drop_app_length.
  f_equal; [by destruct f|]. apply IH. simpl in Hfuel. rewrite length_app in Hfuel. lia.
Qed.

Lemma sim_tag_inj f g : sim_tag f = sim_tag g → f = g.
Proof. by destruct f, g. Qed.

Lemma filter_none {A} (P : A → Prop) `{!∀ x, Decision (P x)} l : Forall (λ x, ¬ P x) l → filter P l = [].
Proof. induction 1; [done|]. by rewrite filter_cons_False. Qed.

(** Searching from a position on finds the values of the tag that follow. *)
Lemma sim_finds cert p t :
  finds (sim_find (SimParser cert p t)) (filter (λ x, x.1 = t) (drop p (sim_cert_fields cert))).*2.
Proof.
  set (l := sim_cert_fields cert). remember (length l - p)%nat as n eqn:Hn.
  revert p Hn. induction (lt_wf n) as [n _ IH]. intros p Hn. unfold sim_find. cbn [sp_cert sp_pos sp_tag].
  fold l. destruct (list_find _ (drop p l)) as [[i [t' v]]|] eqn:E.
  - apply list_find_Some in E as (Hi&Ht&Hbefore). simpl in Ht. subst t'.
    pose proof (lookup_lt_Some _ _ _ Hi) as Hlt. rewrite length_drop in Hlt.
    assert (drop p l = take i (drop p l) ++ (t, v) :: drop (p + i + 1) l) as ->.
    { rewrite <- (take_drop_middle _ _ _ Hi) at 1. rewrite drop_drop. do 3 f_equal. lia. }
    rewrite filter_app, (filter_none _ (take i (drop p l))).
    + rewrite app_nil_l, filter_cons_True by done. split; [done|]. eapply IH; [|reflexivity]. lia.
    + apply Forall_forall. intros x Hx. apply list_elem_of_lookup in Hx as [k Hk].
      apply lookup_take_Some in Hk as [Hk Hki]. by eapply Hbefore.
  - apply list_find_None in E. by rewrite filter_none.
Qed.

(** ** The world *)

Record canon_world := CanonWorld {
  cw_socks : sock_id → sock_view; cw_prepared : Z; cw_sleeps : list Z }.

Definition set_cw_sock (s : sock_id) (v : sock_view) (w : canon_world) : canon_world :=
  CanonWorld (λ s', if decide (s' = s) then v else cw_socks w s') (cw_prepared w) (cw_sleeps w).

Definition on_sock {A} (s : sock_id) (m : Act io_world A) : Act canon_world A := λ w,
  let '(a, io) := m (IoWorld [] [] (cw_socks w s)) in (a, set_cw_sock s (io_sock io) w).

Lemma canon_on_sock_inv {A} s (m : Act io_world A) w a w' :
  on_sock s m w = (a, w') →
  ∃ io, m (IoWorld [] [] (cw_socks w s)) = (a, io) ∧ w' = set_cw_sock s (io_sock io) w.
Proof. unfold on_sock. destruct (m _) as [x io]. intros [= <- <-]. eauto. Qed.

Lemma cw_sock_same s v w : cw_socks (set_cw_sock s v w) s = v.
Proof. simpl. by rewrite decide_True. Qed.

#[local] Instance canon_malloc : MALLOC canon_world := {| malloc := λ n w, (true, w) |}.

#[local] Instance canon_sockets : SOCKETS canon_world := λ s, {|
  evbuffer_read := on_sock s evbuffer_read;
  evbuffer_pullup n := on_sock s (evbuffer_pullup n);
  evbuffer_get_length := on_sock s evbuffer_get_length;
  evbuffer_drain n := on_sock s (evbuffer_drain n);
  evbuffer_remove n := on_sock s (evbuffer_remove n);
  evbuffer_add b := on_sock s (evbuffer_add b);
  evbuffer_write := on_sock s evbuffer_write;
  evbuffer_get_write_length := on_sock s evbuffer_get_write_length;
|}.

#[local, refine] Instance canon_sock_laws (s : sock_id) : LIBEVENT_laws canon_world (EV := sockets s) :=
  {| sock := λ w, cw_socks w s |}.
Proof.
  - intros w k b w' (io&E&->)%canon_on_sock_inv. rewrite cw_sock_same. exact (law_ev_read (W := io_world) _ _ _ _ E).
  - intros n w m w' (io&E&->)%canon_on_sock_inv. rewrite cw_sock_same. exact (law_pullup (W := io_world) _ _ _ _ E).
  - intros w k w' (io&E&->)%canon_on_sock_inv. rewrite cw_sock_same. exact (law_get_length (W := io_world) _ _ _ E).
  - intros w k w' (io&E&->)%canon_on_sock_inv. rewrite cw_sock_same. exact (law_get_write_length (W := io_world) _ _ _ E).
  - intros n w k w' (io&E&->)%canon_on_sock_inv. rewrite cw_sock_same. exact (law_drain (W := io_world) _ _ _ _ E).
  - intros n w k b w' (io&E&->)%canon_on_sock_inv. rewrite cw_sock_same. exact (law_remove (W := io_world) _ _ _ _ _ E).
  - intros b w k w' (io&E&->)%canon_on_sock_inv. rewrite cw_sock_same. exact (law_add (W := io_world) _ _ _ _ E).
  - intros w k w' (io&E&->)%canon_on_sock_inv. rewrite cw_sock_same. exact (law_ev_write (W := io_world) _ _ _ E).
  - by intros n w b w' [= _ <-].
Defined.

#[local] Instance canon_view : CANON_view canon_world := {|
  canon_sock := canon_sock_laws; sleeps := cw_sleeps |}.

#[local] Instance canon_vccrypt : VCCRYPT_BUFFER canon_world := {|
  vccrypt_buffer_init := λ n w, ((0, replicate n Byte.x00), w);
  allocate := λ n w, (true, w);
|}.
#[local] Instance canon_vccrypt_laws : VCCRYPT_BUFFER_laws canon_world.
Proof. split. intros n w b w' [= <- _]. apply length_replicate. Qed.

#[local] Instance canon_vccert : VCCERT canon_world := {|
  vccrypt_suite_options_init := ret true;
  vccert_parser_options_simple_init := ret true;
  vccert_parser := sim_parser;
  vccert_parser_init := λ _, ret true;
  vccert_parser_of := vccert_parser_of (W := sim_world);
  vccert_parser_find_short := vccert_parser_find_short (W := sim_world);
  vccert_parser_find_next := vccert_parser_find_next (W := sim_world);
  vccert_certificate_type_uuid_root_block :=
    vccert_certificate_type_uuid_root_block (W := sim_world) |}.

#[local] Instance canon_builder : VCCERT_BUILDER canon_world := {|
  vccert_builder := sim_builder;
  FIELD_TYPE_SIZE := 1; FIELD_SIZE_SIZE := 1; signature_size := 64;
  vccert_certificate_type_uuid_txn_block := memset Byte.x7f 16;
  vccert_builder_init n := ret (0, SimBuilder [] n);
  vccert_builder_add_short_uint16 b f v := sim_add b f (be_enc 2 v);
  vccert_builder_add_short_uint32 b f v := sim_add b f (be_enc 4 v);
  vccert_builder_add_short_uint64 b f v := sim_add b f (be_enc 8 v);
  vccert_builder_add_short_buffer b f v := sim_add b f v;
  vccert_builder_sign b id key :=
    if (length id <=? 255)%nat && (sim_size (sim_built b) + (2 + length id) + 66 <=? sb_capacity b)%nat then
      ret (0, SimBuilder (sb_fields b ++ [(VCCERT_FIELD_TYPE_SIGNER_ID, id);
                                          (VCCERT_FIELD_TYPE_SIGNATURE, sim_sig key)]) (sb_capacity b))
    else ret (1, b);
  vccert_builder_emit b := Some (sim_emit b);
  time := ret 1700000000;
|}.

Lemma sim_built_app b fs n :
  Forall (λ x : cert_field * bytes, (length x.2 ≤ 255)%nat) fs →
  sim_built (SimBuilder (sb_fields b ++ fs) n) = sim_built b ++ fs.
Proof.
  intros Hfs. unfold sim_built. simpl. rewrite fmap_app. f_equal.
  induction Hfs as [|[f v] fs Hv _ IH]; [done|]. rewrite fmap_cons, IH. unfold clip. simpl in *.
  by rewrite take_ge.
Qed.

Lemma sim_add_ok {W} b f v (w : W) b' w' :
  sim_add b f v w = ((0, b'), w') →
  sim_built b' = sim_built b ++ [(f, v)] ∧ sb_capacity b' = sb_capacity b.
Proof.
  unfold sim_add. destruct (Nat.leb_spec (length v) 255); simpl; [|by intros [= ]].
  destruct (_ <=? _)%nat; [|by intros [= ]]. intros [= <- <-]. split; [|done].
  apply sim_built_app. by constructor.
Qed.

Lemma sim_sig_length key : length (sim_sig key) = 64%nat.
Proof. unfold sim_sig. len. Qed.

Lemma sim_built_small b : Forall (λ x : cert_field * bytes, (length x.2 ≤ 255)%nat) (sim_built b).
Proof.
  apply Forall_forall. intros x (y&->&_)%list_elem_of_fmap. simpl. rewrite length_take. lia.
Qed.

Lemma sim_emit_finds b f :
  finds (W := canon_world) (vccert_parser_find_short (VCCERT := canon_vccert) (vccert_parser_of (sim_emit b)) f)
    (values f (sim_built b)).
Proof.
  pose proof (sim_finds (sim_emit b) 0 (sim_tag f)) as H. rewrite drop_0 in H. unfold sim_cert_fields in H.
  assert (sim_fields (length (sim_emit b)) (sim_emit b) = (λ x, (sim_tag x.1, x.2)) <$> sim_built b) as E
    by exact (sim_fields_concat (sim_built b) (length (sim_emit b)) (sim_built_small b) (Nat.le_refl _)).
  rewrite E in H.
  replace (filter _ _).*2 with (values f (sim_built b)) in H; [exact H|].
  clear H E. unfold values. induction (sim_built b) as [|[g v] fs IH]; [done|].
  rewrite fmap_cons, !filter_cons. cbn [fst snd].
  destruct (decide (g = f)) as [->|Hne]; [rewrite decide_True by done|
    rewrite decide_False by (intros ?%sim_tag_inj; congruence)]; [|exact IH].
  rewrite !fmap_cons. by rewrite IH.
Qed.

#[local, refine] Instance canon_builder_laws : VCCERT_BUILDER_laws canon_world := {|
  built := sim_built; capacity := sb_capacity; field_max := 255;
  signed_by key fs sig := sig = sim_sig key |}.
Proof.
  - simpl. lia.
  - done.
  - simpl. lia.
  - by apply length_memset.
  - by intros n w b w' [= <- _].
  - intros *; apply sim_add_ok.
  - intros *; apply sim_add_ok.
  - intros *; apply sim_add_ok.
  - intros *; apply sim_add_ok.
  - intros b id key w b' w'. simpl. destruct (Nat.leb_spec (length id) 255); simpl; [|by intros [= ]].
    destruct (_ <=? _)%nat; [|by intros [= ]]. intros [= <- _]. exists (sim_sig key).
    split_and!; [apply sim_sig_length|done|]. apply sim_built_app. pose proof (sim_sig_length key).
    apply Forall_cons; split; [simpl; lia|]. apply Forall_singleton. simpl. lia.
  - intros b cert [= <-]. split; [|intros f; apply sim_emit_finds].
    unfold sim_emit, fields_size, field_size. simpl. induction (sim_built b) as [|[g v] fs IH]; [done|].
    rewrite fmap_cons. cbn [concat sum_list_with fst snd]. rewrite length_app, IH. unfold sim_field. simpl. lia.
Defined.

Lemma canon_builder_reliable : BUILDER_reliable canon_world.
Proof.
  assert (∀ b f v w, (length v ≤ 255)%nat →
    (fields_size (W := canon_world) (sim_built b) + field_size (W := canon_world) (length v) ≤ sb_capacity b)%nat →
    (sim_add b f v w : (Z * sim_builder) * canon_world).1.1 = 0) as Hadd.
  { intros b f v w Hv Hroom. unfold sim_add. rewrite (proj2 (Nat.leb_le _ _)) by done.
    rewrite (proj2 (Nat.leb_le _ _)); [done|]. exact Hroom. }
  split.
  - done.
  - intros b f v w Hroom. apply Hadd; rewrite length_be_enc; [lia|done].
  - intros b f v w Hroom. apply Hadd; rewrite length_be_enc; [lia|done].
  - intros b f v w Hroom. apply Hadd; rewrite length_be_enc; [lia|done].
  - intros b f v w Hv Hroom. by apply Hadd.
  - intros b id key w Hid Hroom. simpl in *. rewrite (proj2 (Nat.leb_le _ _)) by done.
    rewrite (proj2 (Nat.leb_le _ _)); [done|]. exact Hroom.
  - done.
  - by intros w.
Qed.

#[local] Instance canon_list : LINKED_LIST canon_world := {|
  sizeof_linked_list := 40; sizeof_disposable := 8;
  linked_list_init := ret 0; linked_list_insert_end := ret 0 |}.

#[local] Instance canon_loop : EVENT_LOOP canon_world := {|
  ipc_set_writecb_noblock s b := ret tt;
  ipc_exit_loop := ret tt;
  ipc_timer_init ms := λ w, (0, CanonWorld (cw_socks w) ms (cw_sleeps w));
  ipc_event_loop_add_timer := λ w, (0, CanonWorld (cw_socks w) (cw_prepared w) (cw_sleeps w ++ [cw_prepared w]));
|}.

#[local] Instance canon_rcpr : RCPR_ALLOCATOR canon_world := {|
  rcpr_allocator_allocate n := ret (0, replicate n Byte.x00) |}.
#[local] Instance canon_rcpr_laws : RCPR_ALLOCATOR_laws canon_world.
Proof. split. intros n w b w' [= <- _]. apply length_replicate. Qed.

(** The service uses no psock, only the allocator of the same library. *)
#[local] Instance canon_psock : PSOCK canon_world := {|
  psock_write_boxed_data b := ret 0; psock_read_boxed_data := ret (0, []); rcpr_allocator_reclaim := ret 0 |}.

Lemma apart_on_sock {A} s (m : Act io_world A) : apart (eq s) (on_sock s m).
Proof.
  intros w. destruct (on_sock s m w) as [a w'] eqn:E. apply canon_on_sock_inv in E as (io&_&->). split; [|done].
  intros s' Hs. unfold view. simpl. by rewrite decide_False by congruence.
Qed.

Lemma quiet_const {A} (f : canon_world → A) : quiet (λ w, (f w, w)).
Proof. done. Qed.

Lemma quiet_sim_add (b : sim_builder) f v : quiet (sim_add (W := canon_world) b f v).
Proof. intros w. unfold sim_add. by destruct (_ && _). Qed.

#[local] Instance canon_laws : CANON_laws canon_world.
Proof.
  split; intros; try apply apart_on_sock; try apply quiet_const; try apply quiet_sim_add; try done.
  - intros w. simpl. by destruct (_ && _).
  - simpl. lia.
  - simpl in *. simplify_eq/=. split_and!; [done|done|]. intros _ w2 [= <-]. done.
Defined.

Lemma canon_world_reliable : CANON_reliable canon_world.
Proof.
  destruct ev_reliable as [Hp Hd Hr Ha Hm].
  split; try done; [|intros s w|apply canon_builder_reliable].
  - intros s. split; cbn; intros; try done.
    + specialize (Hp n (IoWorld [] [] (cw_socks w s)) H). cbn in *. unfold on_sock. done.
    + specialize (Hd n (IoWorld [] [] (cw_socks w s))). cbn in *. unfold on_sock. simpl in *. by destruct (cw_socks w s).
    + specialize (Hr n (IoWorld [] [] (cw_socks w s))). cbn in *. unfold on_sock. simpl in *. by destruct (cw_socks w s).
    + specialize (Ha b (IoWorld [] [] (cw_socks w s))). cbn in *. unfold on_sock. simpl in *. by destruct (cw_socks w s).
  - simpl. unfold on_sock. simpl. destruct (cw_socks w s) as [r i o sn]. simpl. unfold sizeof. lia.
Qed.

(** ** A round *)

Definition ex_key : canonizationservice_private_key :=
  CanonizationPrivateKey (ex_id 90) [] [] [] (memset Byte.x11 32).

Definition ex_canon : canonizationservice_instance :=
  CanonizationInstance true true false false 5000 2 (Some ex_key) 0 CANONIZATIONSERVICE_STATE_IDLE
    (memset Byte.x00 16) (memset Byte.x00 16) (memset Byte.x00 64) 0 None.

(** Two attested transactions wait, then one that is not. *)
Definition ex_queue : list pq_entry :=
  [new_entry false (ex_id 1) (ex_id 9) ex_txn_1; new_entry false (ex_id 2) (ex_id 9) ex_txn_2;
   new_entry true (ex_id 3) (ex_id 9) ex_txn_2].

Definition ex_sv : service :=
  Service (set_root dataservice_instance_create
             (RootContext true
                (BITCAP_SET_FALSE (BITCAP_INIT_TRUE cap_words) DATASERVICE_API_CAP_LL_ROOT_CONTEXT_CREATE)
                details_open))
    (Ledger [] ∅ ∅ ex_queue) ∅.

(** The peers: the random service gives out identifier 51, and blocks are made at
    second 1700000000. *)
Definition ex_cert (i : canonizationservice_instance) : bytes :=
  match ci_transaction_list i, ci_private_key i with
  | Some txns, Some key =>
      sim_emit (SimBuilder (block_contents (W := canon_world) i 1700000000 txns ++
        [(VCCERT_FIELD_TYPE_SIGNER_ID, pk_id key);
         (VCCERT_FIELD_TYPE_SIGNATURE, sim_sig (pk_sign_privkey key))]) 0)
  | _, _ => []
  end.
Definition ex_peers : peers := Peers (ex_id 51) ex_cert.

(** The whole round, evaluated: a full block of the two attested transactions, its
    announcement, and the next round at once. *)
Example ex_round_run :
  match run (W := canon_world) true ex_peers 8 (start_round ex_canon, ex_sv) with
  | Some (tr, (i', o', sv')) =>
      (bk_id <$> lg_blocks (sv_ledger sv'), pe_id <$> lg_queue (sv_ledger sv'), announced tr, pauses tr, o')
      = ([ex_id 51], [ex_id 3], [ex_id 51], [], out_random)
  | None => False
  end.
Proof. by vm_compute. Qed.

Lemma ex_round_ready : round_ready (W := canon_world) ex_canon ex_sv.
Proof.
  split.
  - by exists ex_key.
  - done.
  - done.
  - destruct instance_create_spec as [Hinv _]. change (seq 0 DATASERVICE_MAX_CHILD_CONTEXTS) with (seq 0 (1023 + 1)) in Hinv.
    rewrite seq_app, reverse_app in Hinv. simpl in Hinv. by eexists _, _.
  - intros cap Hcap. apply (bool_decide_unpack (BITCAP_ISSET _ cap = true)).
    unfold round_caps in Hcap. repeat (apply elem_of_cons in Hcap as [->|Hcap]; [by vm_compute|]).
    by apply elem_of_nil in Hcap.
  - split; simpl.
    + split; [|by apply (bool_decide_unpack _); vm_compute].
      repeat constructor; by vm_compute.
    + constructor.
    + by intros id ?%elem_of_nil.
    + by intros b ?%elem_of_nil.
Qed.

(** A packet comes to a socket: the assumption that replies arrive can be met. *)
Definition deliver (s : sock_id) (p : bytes) (w : canon_world) : canon_world :=
  let v := cw_socks w s in
  set_cw_sock s (SockView (v_rbuf v) (v_incoming v ++ frame (msg_data p)) (v_wbuf v) (v_sent v)) w.

Lemma deliver_arrives x p w :
  brings p x → (∀ s, wire_in s w = []) → arrives x w (deliver (input_sock x) p w).
Proof.
  intros Hb Hin. pose proof (Hin (input_sock x)) as Hs. unfold wire_in, instream in Hs. simpl in Hs.
  apply app_eq_nil in Hs as [Hr Hi].
  assert ((∀ s, wire_in s (deliver (input_sock x) p w)
      = wire_in s w ++ if decide (s = input_sock x) then frame (msg_data p) else []) ∧
    (∀ s, wire_out s (deliver (input_sock x) p w) = wire_out s w)) as [Hw Ho].
  { split; intros s; unfold wire_in, instream, wire_out, outstream, deliver, set_cw_sock; simpl;
      (destruct (decide (s = input_sock x)) as [->|]; [|by rewrite ?app_nil_r]); simpl; [by rewrite (assoc_L (++))|done]. }
  assert (evbuffer_read (LIBEVENT := canon_sockets (input_sock x)) (deliver (input_sock x) p w)
    = ((sizeof (frame (msg_data p)), false),
       set_cw_sock (input_sock x) (SockView (frame (msg_data p)) [] (v_wbuf (cw_socks w (input_sock x)))
         (v_sent (cw_socks w (input_sock x)))) (deliver (input_sock x) p w))) as E.
  { cbn [evbuffer_read canon_sockets]. unfold on_sock, deliver. rewrite cw_sock_same, Hr, Hi. done. }
  assert (readable (EV := canon_sockets (input_sock x)) (deliver (input_sock x) p w)) as Hread.
  { left. rewrite E. reflexivity. }
  destruct x; [done|..]; exists p; split_and!; try done; exists []; rewrite app_nil_r; simpl in E |- *;
    by rewrite E.
Qed.

Definition ex_idle_world : canon_world := CanonWorld (λ _, SockView [] [] [] []) 0 [].

Lemma canonization_round_witness :
  ∃ i1 w1, canonizationservice_timer_cb (W := canon_world) ex_canon ex_idle_world = (Some i1, w1) ∧
    speaks random_sock block_id_request ex_idle_world w1 ∧
    on_reply true (ex_id 51) (inevitably true (ex_id 51) (round_done (ex_id 51) ex_canon ex_idle_world ex_sv))
      ex_idle_world i1 w1 ex_sv.
Proof.
  refine (canonization_round (W := canon_world) true (ex_id 51) ex_canon ex_idle_world ex_sv canon_world_reliable
    _ _ _ _ _ _).
  - by apply length_memset.
  - done.
  - by apply (bool_decide_unpack _); vm_compute.
  - split; [exact ex_round_ready|]. split; [|by split].
    split; [done|]. split; [|by eexists]. split; [by apply length_memset|].
    split; [by apply length_memset|]. split; [by apply length_memset|]. by intros key [= <-].
  - done.
  - split; [by vm_compute|]. repeat constructor; by vm_compute.
Defined.

(** ** A callback *)

Definition ex_started : canonizationservice_instance := (start_round ex_canon).1.

Definition ex_canon_world (s : sock_id) (incoming : bytes) : canon_world :=
  CanonWorld (λ s', SockView [] (if decide (s' = s) then incoming else []) [] []) 0 [].

Definition ex_random_packet : bytes := random_response 0 (ex_id 51).

Lemma canonization_reacts_witness :
  let w := ex_canon_world random_sock (frame (msg_data ex_random_packet)) in
  post (canonizationservice_random_read (W := canon_world) ex_started)
    (reads random_sock ex_random_packet ex_started
       (Some (set_state CANONIZATIONSERVICE_STATE_WAITRESP_CHILD_CONTEXT_CREATE (set_block_id (ex_id 51) ex_started),
              out_request (child_context_create (ReqChildCreate canonization_caps)))) w) w.
Proof.
  intros w.
  refine (canonization_reacts (W := canon_world) ex_started (in_random (ex_id 51)) w _ _ _ _
            ex_random_packet [] _ _ _).
  - done.
  - split; [done|]. split; [|by eexists]. split; [by apply length_memset|].
    split; [by apply length_memset|]. split; [by apply length_memset|]. by intros key [= <-].
  - split; [by vm_compute|constructor].
  - intros i' o [= <- <-]. split; [by vm_compute|constructor].
  - by eexists.
  - split; [done|]. by exists 0.
  - by vm_compute.
Defined.

(** ** The control of the canonization service on a concrete platform *)

#[local] Existing Instance io_malloc.
#[local] Existing Instance io_posix.
#[local] Existing Instance io_posix_laws.
#[local] Existing Instance io_vccrypt.
#[local] Existing Instance io_vccrypt_laws.
#[local] Existing Instance canon_malloc.
#[local] Existing Instance canon_sockets.
#[local] Existing Instance canon_view.
#[local] Existing Instance canon_vccrypt.
#[local] Existing Instance canon_vccert.
#[local] Existing Instance canon_builder.
#[local] Existing Instance canon_builder_laws.
#[local] Existing Instance canon_list.
#[local] Existing Instance canon_loop.
#[local] Existing Instance canon_rcpr.
#[local] Existing Instance canon_psock.
#[local] Existing Instance canon_laws.

(** Keys of four sizes. *)
#[local] Instance canon_keys : KEY_BUFFERS canon_world := {|
  key_cipher_public_key_size := 3; key_cipher_private_key_size := 4;
  sign_public_key_size := 5; sign_private_key_size := 6;
  vccrypt_suite_buffer_init_for_cipher_key_agreement_public_key := ret (0, replicate 3 Byte.x00);
  vccrypt_suite_buffer_init_for_cipher_key_agreement_private_key := ret (0, replicate 4 Byte.x00);
  vccrypt_suite_buffer_init_for_signature_public_key := ret (0, replicate 5 Byte.x00);
  vccrypt_suite_buffer_init_for_signature_private_key := ret (0, replicate 6 Byte.x00);
|}.
#[local] Instance canon_keys_laws : KEY_BUFFERS_laws canon_world.
Proof. split; try done; by intros w b w' [= <- _]. Defined.

Definition ex_priv : canonizationservice_private_key :=
  CanonizationPrivateKey (memset Byte.x05 16) (memset Byte.x01 3) (memset Byte.x02 4)
    (memset Byte.x03 5) (memset Byte.x04 6).

Definition ex_conf : agent_config :=
  set_block_max_transactions true 500 (set_block_max_milliseconds true 5000 zero_config).

Definition ex_calls : list control_call :=
  [call_start; call_configure ex_conf; call_start; call_private_key_set ex_priv; call_start; call_configure ex_conf].

(** The calls, served one after the other: the instance, the statuses the client
    reads, and the timers. *)
Fixpoint serve_calls (cs : list control_call) (i : canonizationservice_instance)
  : option (canonizationservice_instance * list Z) :=
  match cs with
  | [] => Some (i, [])
  | c :: cs =>
      let '(r, wc) := control_sendreq c (IoWorld [] [] (SockView [] [] [] [])) in
      let ws := CanonWorld (λ s, SockView [] (if decide (s = control_sock) then io_tx wc else []) [] []) 0 [] in
      match canonizationservice_control_read 64 i ws with
      | (Some i, ws) =>
          match (control_recvresp c (IoWorld (v_sent (cw_socks ws control_sock)) [] (SockView [] [] [] []))).1 with
          | Ok (0, status) => '(i, l) ← serve_calls cs i; Some (i, status :: l)
          | _ => None
          end
      | _ => None
      end
  end.

(** The service starts only once it is configured and has its key, and is
    configured once. *)
Example ex_calls_served :
  match serve_calls ex_calls canonizationservice_instance_create with
  | Some (i, statuses) =>
      (statuses, ci_running i, ci_configured i, ci_block_max_milliseconds i, ci_block_max_transactions i,
       ci_private_key i)
      = ([AGENTD_ERROR_CANONIZATIONSERVICE_START_BEFORE_CONFIGURE; AGENTD_STATUS_SUCCESS;
          AGENTD_ERROR_CANONIZATIONSERVICE_START_BEFORE_PRIVATE_KEY_SET; AGENTD_STATUS_SUCCESS;
          AGENTD_STATUS_SUCCESS; AGENTD_ERROR_CANONIZATIONSERVICE_ALREADY_CONFIGURED],
         true, true, 5000, 500, Some ex_priv)
  | None => False
  end.
Proof. by vm_compute. Qed.

Definition ex_fresh := canonizationservice_instance_create.
Definition ex_configure : bytes := configure_packet 5000 500.

Lemma control_read_obeys_witness :
  let w := ex_canon_world control_sock (frame (msg_data ex_configure)) in
  post (canonizationservice_control_read 64 ex_fresh) (controls ex_configure ex_fresh w) w.
Proof.
  intros w. refine (control_read_obeys 64 eq_refl ex_configure [] ex_fresh w eq_refl _ _).
  - by vm_compute.
  - by vm_compute.
Defined.

Lemma control_call_served_witness :
  let c := call_private_key_set ex_priv in
  let wc := IoWorld [] [] (SockView [] [] [] []) in
  let ws := ex_canon_world control_sock (frame (msg_data (private_key_packet ex_priv))) in
  post (control_sendreq c) (λ r wc1,
    ((∃ e, r = Err e) ∧ client_faulty (W := io_world)) ∨
    r = Ok tt ∧ ∃ request, tx wc1 = tx wc ++ request ∧
      (wire_in control_sock ws = request →
       post (canonizationservice_control_read 64 ex_fresh) (λ r ws1,
         let e := obey ex_fresh (call_command c) in
         (r = Some ex_fresh ∧ same ws ws1 ∧
           ((∀ rest, v_rbuf (view control_sock ws1) ≠ request ++ rest) ∨ canon_faulty (W := canon_world))) ∨
         ((∃ i', r = Some i') ∧
           (¬ readable (EV := sockets control_sock) ws ∨ control_faulty (W := canon_world))) ∨
         r = Some (if ce_stays e then ce_inst e else set_force_exit (ce_inst e)) ∧
         wire_in control_sock ws1 = [] ∧ sleeps ws1 = sleeps ws ++ ce_sleep e ∧
         ∃ response, wire_out control_sock ws1 = wire_out control_sock ws ++ response ∧
           ∀ wc2 rest, rx wc2 = response ++ rest →
             post (control_recvresp c) (λ r wc3,
               (r = Ok (0, ce_status e) ∧ rx wc3 = rest) ∨ client_faulty (W := io_world)) wc2) ws)) wc.
Proof.
  intros c wc ws. refine (control_call_served 64 ex_fresh c wc ws _ eq_refl eq_refl _).
  - done.
  - by split_and!.
Defined.

(** A configured service: a configuration came first. *)
Definition ex_configured : canonizationservice_instance := set_configured 5000 500 ex_fresh.

Lemma ex_configured_reachable : reachable (W := canon_world) 64 ex_configured.
Proof.
  eapply (reachable_callback (W := canon_world) 64 ex_fresh cb_control_read
           (ex_canon_world control_sock (frame (msg_data ex_configure)))); [constructor|done|].
  vm_compute. reflexivity.
Qed.

(** The data service answers although nothing was asked: closing a context. *)
Definition ex_unasked : canon_world :=
  ex_canon_world data_sock
    (frame (msg_data (status_packet DATASERVICE_API_METHOD_LL_CHILD_CONTEXT_CLOSE 0 0 None))).

Lemma canonization_life_cycle_witness :
  lawful ex_configured ∧
  (∀ w r w', canonizationservice_control_read (W := canon_world) 64 ex_configured w = (r, w') →
     match r with
     | Some i' => progresses ex_configured i'
     | None => cb_control_read = cb_data_read ∧ ci_transaction_list ex_configured = None
     end) ∧
  (canonizationservice_data_read (W := canon_world) ex_configured ex_unasked).1 = None.
Proof.
  destruct (canonization_life_cycle (W := canon_world) 64 ex_configured ex_configured_reachable) as [Hl Hs].
  split; [exact Hl|]. split; [exact (λ w r w', Hs cb_control_read w r w' I)|]. by vm_compute.
Defined.
