(* ===== verification/ProtocolService.v ===== *)
(** * The protocol service: entities, keys and the control socket

    [src/src/protocolservice]: the supervisor gives the service its private key and
    registers the entities that may connect, each with its keys and the
    capabilities it has ([protocolservice_control_*.c]).  A capability is a
    triple: the subject may do the verb to the object. *)

From S2P Require Import Prelude Inet StatusCodes Lmdb RequestCodec Ipc AuthedIpc ClientApi NotificationCodec.

(** ** Methods *)

Definition UNAUTH_PROTOCOL_CONTROL_REQ_ID_AUTH_ENTITY_ADD : Z := 0x00000000.
Definition UNAUTH_PROTOCOL_CONTROL_REQ_ID_AUTH_ENTITY_CAP_ADD : Z := 0x00000001.
Definition UNAUTH_PROTOCOL_CONTROL_REQ_ID_PRIVATE_KEY_SET : Z := 0x00000002.
Definition UNAUTH_PROTOCOL_CONTROL_REQ_ID_FINALIZE : Z := 0x00000003.

(** ** The library

    Red-black trees of rcpr, by key: the keys are compared with memcmp.  What an
    operation changes it returns. *)
Class RCPR_RBTREE (W : Type) := {
  rbtree : Type → Type;
  rbtree_create : ∀ V, Act W (Z * rbtree V);
  rbtree_insert : ∀ {V}, rbtree V → bytes → V → Act W (Z * rbtree V);
  rbtree_find : ∀ {V}, rbtree V → bytes → Eff W V;
  rbtree_release : ∀ {V}, rbtree V → Act W Z;
  ERROR_RBTREE_DUPLICATE : Z;
}.

(** ** Data *)

Record protocolservice_authorized_entity_capability_key := CapabilityKey {
  cap_subject_id : bytes; cap_verb_id : bytes; cap_object_id : bytes }.

(** The bytes of the structure, which are compared. *)
Definition capability_key_bytes (k : protocolservice_authorized_entity_capability_key) : bytes :=
  cap_subject_id k ++ cap_verb_id k ++ cap_object_id k.

Section data.
Context {W : Type} {RB : RCPR_RBTREE W}.

Record protocolservice_authorized_entity := AuthorizedEntity {
  ae_entity_uuid : bytes; ae_encryption_pubkey : bytes; ae_signing_pubkey : bytes;
  ae_capabilities : rbtree protocolservice_authorized_entity_capability_key }.

(** The entities are objects that the dictionary, and the contexts of connections,
    point to: [pc_heap] has them in the order of their creation, and a pointer is a
    position. *)
Record protocolservice_context := ProtocolContext {
  pc_heap : list protocolservice_authorized_entity;
  pc_authorized_entity_dict : rbtree nat;
  pc_agentd_uuid : bytes;
  pc_agentd_enc_pubkey : bytes; pc_agentd_enc_privkey : bytes;
  pc_agentd_sign_pubkey : bytes; pc_agentd_sign_privkey : bytes;
  pc_private_key_set : bool }.

Definition set_entities (heap : list protocolservice_authorized_entity) (dict : rbtree nat)
    (ctx : protocolservice_context) : protocolservice_context :=
  ProtocolContext heap dict (pc_agentd_uuid ctx) (pc_agentd_enc_pubkey ctx) (pc_agentd_enc_privkey ctx)
    (pc_agentd_sign_pubkey ctx) (pc_agentd_sign_privkey ctx) (pc_private_key_set ctx).

Definition set_capabilities (p : nat) (t : rbtree protocolservice_authorized_entity_capability_key)
    (ctx : protocolservice_context) : protocolservice_context :=
  set_entities
    (alter (λ e, AuthorizedEntity (ae_entity_uuid e) (ae_encryption_pubkey e) (ae_signing_pubkey e) t)
       p (pc_heap ctx))
    (pc_authorized_entity_dict ctx) ctx.

Definition set_agentd_keys (id enc_pubkey enc_privkey sign_pubkey sign_privkey : bytes)
    (ctx : protocolservice_context) : protocolservice_context :=
  ProtocolContext (pc_heap ctx) (pc_authorized_entity_dict ctx)
    id enc_pubkey enc_privkey sign_pubkey sign_privkey true.

Record protocolservice_control_fiber_context := ControlFiberContext {
  pcf_ctx : protocolservice_context; pcf_should_exit : bool }.
End data.

(** ** Entities *)

Section control.
Context {W : Type} {RB : RCPR_RBTREE W} {RA : RCPR_ALLOCATOR W} {PS : PSOCK W}.
Context {VB : VCCRYPT_BUFFER W} {KB : KEY_BUFFERS W}.
(** The sizes of the structures that are allocated. *)
Context (sizeof_entity sizeof_capability : nat).

Abbreviation context := (protocolservice_context (W := W)).
Abbreviation fiber_context := (protocolservice_control_fiber_context (W := W)).

Definition protocolservice_authorized_entity_release (capabilities : option (rbtree protocolservice_authorized_entity_capability_key))
  : Act W Z :=
  let! capabilities_release_retval :=
    match capabilities with Some t => rbtree_release t | None => ret 0 end in
  let! reclaim_retval := rcpr_allocator_reclaim in
  ret (or_else capabilities_release_retval reclaim_retval).

(** The status, and the changed context. *)
Definition protocolservice_authorized_entity_add (ctx : context)
    (entity_uuid encryption_pubkey signing_pubkey : bytes) : Act W (Z * context) :=
  let! '(retval, _) := rcpr_allocator_allocate sizeof_entity in
  if negb (retval =? 0) then ret (retval, ctx) else
  let! '(retval, capabilities) := rbtree_create _ in
  if negb (retval =? 0) then
    let! release_retval := protocolservice_authorized_entity_release None in
    ret (or_else release_retval retval, ctx)
  else
    let tmp := AuthorizedEntity entity_uuid encryption_pubkey signing_pubkey capabilities in
    let! '(retval, dict) :=
      rbtree_insert (pc_authorized_entity_dict ctx) entity_uuid (length (pc_heap ctx)) in
    if negb (retval =? 0) then
      let! release_retval := protocolservice_authorized_entity_release (Some capabilities) in
      ret (or_else release_retval retval, set_entities (pc_heap ctx) dict ctx)
    else ret (0, set_entities (pc_heap ctx ++ [tmp]) dict ctx).

Definition protocolservice_authorized_entity_capability_create (subject_id verb_id object_id : bytes)
  : Eff W protocolservice_authorized_entity_capability_key :=
  let! '(retval, _) := rcpr_allocator_allocate sizeof_capability in
  if negb (retval =? 0) then throw retval else ok (CapabilityKey subject_id verb_id object_id).

Definition protocolservice_authorized_entity_capability_check
    (entity : protocolservice_authorized_entity) (subject_id verb_id object_id : bytes) : Act W bool :=
  let! cap := rbtree_find (ae_capabilities entity)
                (capability_key_bytes (CapabilityKey subject_id verb_id object_id)) in
  ret match cap with Ok _ => true | Err _ => false end.

(** ** The control socket *)

Definition protocolservice_control_write_response (request_id status : Z) : Act W Z :=
  let! '(retval, _) := rcpr_allocator_allocate 12 in
  if negb (retval =? 0) then ret AGENTD_ERROR_GENERAL_OUT_OF_MEMORY else
  let resp := net32 (wrap32 request_id) ++ net32 0 ++ net32 (wrap32 status) in
  let! retval := psock_write_boxed_data resp in
  let retval := if negb (retval =? 0) then AGENTD_ERROR_PROTOCOLSERVICE_IPC_WRITE_DATA_FAILURE else retval in
  let! release_retval := rcpr_allocator_reclaim in
  ret (or_else release_retval retval).

(** Respond with a failure and leave with it, or with the failure to respond. *)
Definition control_refuse (method status : Z) (ctx : fiber_context) : Act W (Z * fiber_context) :=
  let! retval := protocolservice_control_write_response method status in
  ret (if retval =? 0 then status else retval, ctx).

Definition control_accept (method : Z) (ctx : fiber_context) : Act W (Z * fiber_context) :=
  let! retval := protocolservice_control_write_response method 0 in ret (retval, ctx).

(** When the entity cannot be added and the response can be sent, the status of the
    response hides the failure. *)
Definition protocolservice_control_dispatch_auth_entity_add (ctx : fiber_context) (payload : bytes)
  : Act W (Z * fiber_context) :=
  let method := UNAUTH_PROTOCOL_CONTROL_REQ_ID_AUTH_ENTITY_ADD in
  let invalid := control_refuse method AGENTD_ERROR_PROTOCOLSERVICE_REQUEST_PACKET_INVALID_SIZE ctx in
  if (length payload <? 12)%nat then invalid else
  let enc_pubkey_size := ntohl (le_dec (sub 4 4 payload)) in
  let sig_pubkey_size := ntohl (le_dec (sub 8 4 payload)) in
  if negb ((Z.of_nat key_cipher_public_key_size =? enc_pubkey_size)
           && (Z.of_nat sign_public_key_size =? sig_pubkey_size)) then invalid else
  let breq := drop 12 payload in
  if sizeof breq <? 16 + enc_pubkey_size + sig_pubkey_size then invalid else
  let entity_id := sub 0 16 breq in
  let! '(retval, enc_pubkey) := vccrypt_buffer_init (Z.to_nat enc_pubkey_size) in
  if negb (retval =? 0) then control_refuse method AGENTD_ERROR_GENERAL_OUT_OF_MEMORY ctx else
  let enc_pubkey := splice 0 (sub 16 (Z.to_nat enc_pubkey_size) breq) enc_pubkey in
  let! '(retval, sign_pubkey) := vccrypt_buffer_init (Z.to_nat sig_pubkey_size) in
  if negb (retval =? 0) then control_refuse method AGENTD_ERROR_GENERAL_OUT_OF_MEMORY ctx else
  let sign_pubkey :=
    splice 0 (sub (16 + Z.to_nat enc_pubkey_size) (Z.to_nat sig_pubkey_size) breq) sign_pubkey in
  let! '(retval, pctx) :=
    protocolservice_authorized_entity_add (pcf_ctx ctx) entity_id enc_pubkey sign_pubkey in
  let ctx := ControlFiberContext pctx (pcf_should_exit ctx) in
  if negb (retval =? 0) then
    let! release_retval := protocolservice_control_write_response method retval in
    ret (if release_retval =? 0 then release_retval else retval, ctx)
  else control_accept method ctx.

(** There is no response when this fails after the size was checked. *)
Definition protocolservice_control_dispatch_auth_entity_capability_add (ctx : fiber_context)
    (payload : bytes) : Act W (Z * fiber_context) :=
  let method := UNAUTH_PROTOCOL_CONTROL_REQ_ID_AUTH_ENTITY_CAP_ADD in
  if (length payload <? 4 + 4 * 16)%nat
  then control_refuse method AGENTD_ERROR_PROTOCOLSERVICE_REQUEST_PACKET_INVALID_SIZE ctx else
  let entity_id := sub 4 16 payload in
  let subject_id := sub 20 16 payload in
  let verb_id := sub 36 16 payload in
  let object_id := sub 52 16 payload in
  let! entity := rbtree_find (pc_authorized_entity_dict (pcf_ctx ctx)) entity_id in
  match entity with
  | Err _ => ret (AGENTD_ERROR_PROTOCOLSERVICE_CONTROL_ENTITY_NOT_FOUND, ctx)
  | Ok p =>
      let! cap := protocolservice_authorized_entity_capability_create subject_id verb_id object_id in
      match cap, pc_heap (pcf_ctx ctx) !! p with
      | Err retval, _ => ret (retval, ctx)
      | Ok cap, Some entity =>
          let! '(retval, t) := rbtree_insert (ae_capabilities entity) (capability_key_bytes cap) cap in
          let ctx := ControlFiberContext (set_capabilities p t (pcf_ctx ctx)) (pcf_should_exit ctx) in
          if negb (retval =? 0) then
            let! release_retval := rcpr_allocator_reclaim in ret (or_else release_retval retval, ctx)
          else control_accept method ctx
      | Ok cap, None => ret (AGENTD_ERROR_PROTOCOLSERVICE_CONTROL_ENTITY_NOT_FOUND, ctx)
      end
  end.

Definition protocolservice_control_dispatch_private_key_set (ctx : fiber_context) (payload : bytes)
  : Act W (Z * fiber_context) :=
  let method := UNAUTH_PROTOCOL_CONTROL_REQ_ID_PRIVATE_KEY_SET in
  let invalid := control_refuse method AGENTD_ERROR_PROTOCOLSERVICE_REQUEST_PACKET_INVALID_SIZE ctx in
  if (length payload <? 20)%nat then invalid else
  let enc_pubkey_size := ntohl (le_dec (sub 4 4 payload)) in
  let enc_privkey_size := ntohl (le_dec (sub 8 4 payload)) in
  let sig_pubkey_size := ntohl (le_dec (sub 12 4 payload)) in
  let sig_privkey_size := ntohl (le_dec (sub 16 4 payload)) in
  if negb ((Z.of_nat key_cipher_public_key_size =? enc_pubkey_size)
           && (Z.of_nat key_cipher_private_key_size =? enc_privkey_size)
           && (Z.of_nat sign_public_key_size =? sig_pubkey_size)
           && (Z.of_nat sign_private_key_size =? sig_privkey_size)) then invalid else
  let breq := drop 20 payload in
  if sizeof breq <? 16 + enc_pubkey_size + enc_privkey_size + sig_pubkey_size + sig_privkey_size
  then invalid else
  let id := sub 0 16 breq in
  let enc_pubkey := drop 16 breq in
  let enc_privkey := drop (Z.to_nat enc_pubkey_size) enc_pubkey in
  let sig_pubkey := drop (Z.to_nat enc_privkey_size) enc_privkey in
  let sig_privkey := drop (Z.to_nat sig_pubkey_size) sig_pubkey in
  let pctx :=
    set_agentd_keys id
      (splice 0 (take (Z.to_nat enc_pubkey_size) enc_pubkey) (pc_agentd_enc_pubkey (pcf_ctx ctx)))
      (splice 0 (take (Z.to_nat enc_privkey_size) enc_privkey) (pc_agentd_enc_privkey (pcf_ctx ctx)))
      (splice 0 (take (Z.to_nat sig_pubkey_size) sig_pubkey) (pc_agentd_sign_pubkey (pcf_ctx ctx)))
      (splice 0 (take (Z.to_nat sig_privkey_size) sig_privkey) (pc_agentd_sign_privkey (pcf_ctx ctx)))
      (pcf_ctx ctx) in
  control_accept method (ControlFiberContext pctx (pcf_should_exit ctx)).

Definition protocolservice_control_dispatch_finalize (ctx : fiber_context) (payload : bytes)
  : Act W (Z * fiber_context) :=
  control_accept UNAUTH_PROTOCOL_CONTROL_REQ_ID_FINALIZE (ControlFiberContext (pcf_ctx ctx) true).

Definition protocolservice_control_decode_and_dispatch (ctx : fiber_context) (req : bytes)
  : Act W (Z * fiber_context) :=
  if (length req <? 4)%nat then ret (AGENTD_ERROR_PROTOCOLSERVICE_REQUEST_PACKET_INVALID_SIZE, ctx) else
  let method := ntohl (le_dec (sub 0 4 req)) in
  let breq := drop 4 req in
  if method =? UNAUTH_PROTOCOL_CONTROL_REQ_ID_AUTH_ENTITY_ADD then
    protocolservice_control_dispatch_auth_entity_add ctx breq
  else if method =? UNAUTH_PROTOCOL_CONTROL_REQ_ID_AUTH_ENTITY_CAP_ADD then
    protocolservice_control_dispatch_auth_entity_capability_add ctx breq
  else if method =? UNAUTH_PROTOCOL_CONTROL_REQ_ID_PRIVATE_KEY_SET then
    protocolservice_control_dispatch_private_key_set ctx breq
  else if method =? UNAUTH_PROTOCOL_CONTROL_REQ_ID_FINALIZE then
    protocolservice_control_dispatch_finalize ctx breq
  else control_refuse method AGENTD_ERROR_PROTOCOLSERVICE_REQUEST_PACKET_BAD ctx.

(** The loop of [protocolservice_control_fiber_entry]: it ends well when it was told
    to exit, and everything else, with its status, forces the service to exit.
    [None] when there is no fuel left. *)
Fixpoint control_fiber_loop (fuel : nat) (ctx : fiber_context)
  : Act W (option (result unit) * fiber_context) :=
  if pcf_should_exit ctx then ret (Some (Ok tt), ctx) else
  match fuel with
  | O => ret (None, ctx)
  | S fuel =>
      let! '(retval, req) := psock_read_boxed_data in
      if negb (retval =? 0) then ret (Some (Err retval), ctx) else
      let! '(retval, ctx) := protocolservice_control_decode_and_dispatch ctx req in
      let! release_retval := rcpr_allocator_reclaim in
      if negb (release_retval =? 0) then ret (Some (Err retval), ctx) else
      if negb (retval =? 0) then ret (Some (Err retval), ctx) else
      control_fiber_loop fuel ctx
  end.
End control.

(** ** The client *)

Section client.
Context {W : Type} {M : MALLOC W} {IO : POSIX_IO W} {VB : VCCRYPT_BUFFER W}.

(** A request whose fields fill a buffer of their size. *)
Definition protocol_control_send (fields : list bytes) : Eff W unit :=
  let! '(retval, req) := vccrypt_buffer_init (sum_list (length <$> fields)) in
  if negb (retval =? 0) then throw AGENTD_ERROR_GENERAL_OUT_OF_MEMORY else
  let req := write_seq 0 fields req in
  ipc_write_data_block (take (Z.to_nat (wrap32 (sizeof req))) req).

Definition protocolservice_control_api_sendreq_authorized_entity_add
    (entity_id entity_enc_pubkey entity_sign_pubkey : bytes) : Eff W unit :=
  protocol_control_send
    [net32 UNAUTH_PROTOCOL_CONTROL_REQ_ID_AUTH_ENTITY_ADD; net32 0;
     net32 (wrap32 (sizeof entity_enc_pubkey)); net32 (wrap32 (sizeof entity_sign_pubkey));
     take 16 entity_id; entity_enc_pubkey; entity_sign_pubkey].

Definition protocolservice_control_api_sendreq_authorized_entity_capability_add
    (entity_id subject_id verb_id object_id : bytes) : Eff W unit :=
  protocol_control_send
    [net32 UNAUTH_PROTOCOL_CONTROL_REQ_ID_AUTH_ENTITY_CAP_ADD; net32 0;
     take 16 entity_id; take 16 subject_id; take 16 verb_id; take 16 object_id].

Definition protocolservice_control_api_sendreq_private_key_set
    (entity_id enc_pubkey enc_privkey sign_pubkey sign_privkey : bytes) : Eff W unit :=
  protocol_control_send
    [net32 UNAUTH_PROTOCOL_CONTROL_REQ_ID_PRIVATE_KEY_SET; net32 0;
     net32 (wrap32 (sizeof enc_pubkey)); net32 (wrap32 (sizeof enc_privkey));
     net32 (wrap32 (sizeof sign_pubkey)); net32 (wrap32 (sizeof sign_privkey));
     take 16 entity_id; enc_pubkey; enc_privkey; sign_pubkey; sign_privkey].

(** The offset and the status. *)
Definition protocol_control_recv (method : Z) : Eff W (Z * Z) :=
  let* val := ipc_read_data_block in
  if negb (length val =? 12)%nat then throw AGENTD_ERROR_IPC_READ_UNEXPECTED_DATA_SIZE
  else if negb (method =? ntohl (le_dec (sub 0 4 val)))
  then throw AGENTD_ERROR_IPC_READ_UNEXPECTED_DATA_TYPE
  else ok (ntohl (le_dec (sub 4 4 val)), ntohl (le_dec (sub 8 4 val))).

Definition protocolservice_control_api_recvresp_authorized_entity_add : Eff W (Z * Z) :=
  protocol_control_recv UNAUTH_PROTOCOL_CONTROL_REQ_ID_AUTH_ENTITY_ADD.
Definition protocolservice_control_api_recvresp_authorized_entity_capability_add : Eff W (Z * Z) :=
  protocol_control_recv UNAUTH_PROTOCOL_CONTROL_REQ_ID_AUTH_ENTITY_CAP_ADD.
Definition protocolservice_control_api_recvresp_private_key_set : Eff W (Z * Z) :=
  protocol_control_recv UNAUTH_PROTOCOL_CONTROL_REQ_ID_PRIVATE_KEY_SET.
End client.
