(* ===== verification/ProtocolSpec.v ===== *)
(** * What the protocol service relies on

    The laws of the rcpr library as the protocol service uses it, over the byte
    streams of a socket, and a small logic for functions that read and write one:
    [runs F i o m Q] says that [m], where [i] is still to be read and [o] was
    written, ends with a result and streams that satisfy [Q], unless [F]. *)

From S2P Require Import Prelude Inet StatusCodes Lmdb RequestCodec Ipc IpcSpec AuthedIpc ClientApi NotificationCodec ProtocolService.

(** ** The logic *)

Section runs.
Context {W : Type} {M : MALLOC W} {IO : POSIX_IO W} {IOL : POSIX_IO_laws W}.
Context {F : Prop}.

Definition runs {A} (i o : bytes) (m : Act W A) (Q : A → bytes → bytes → Prop) : Prop :=
  ∀ w, rx w = i → tx w = o → post m (λ a w', F ∨ Q a (rx w') (tx w')) w.

(** A call that leaves the streams alone. *)
Definition still {A} (m : Act W A) : Prop := ∀ w, rx (m w).2 = rx w ∧ tx (m w).2 = tx w.

Lemma runs_ret {A} i o (a : A) (Q : A → bytes → bytes → Prop) : Q a i o → runs i o (ret a) Q.
Proof. intros H w <- <-. apply post_ret. by right. Qed.

Lemma runs_fault {A} i o (m : Act W A) Q : F → runs i o m Q.
Proof. intros H w _ _. apply post_run. by left. Qed.

(** What a run ends with. *)
Lemma runs_run {A} i o (m : Act W A) Q w :
  runs i o m Q → rx w = i → tx w = o → F ∨ Q (m w).1 (rx (m w).2) (tx (m w).2).
Proof. intros H Hi Ho. by apply post_run, H. Qed.

Lemma runs_act {A B} i o (m : Act W A) (k : A → Act W B) P Q :
  runs i o m P → (∀ a i' o', P a i' o' → runs i' o' (k a) Q) → runs i o (act m k) Q.
Proof.
  intros Hm Hk w Hi Ho. apply post_act. eapply post_mono; [by apply Hm|].
  intros a w' [HF|HP]; [by apply (runs_fault (rx w') (tx w') (k a) Q HF)|]. by eapply Hk.
Qed.

Lemma runs_bind {A B} i o (m : Eff W A) (k : A → Eff W B) P (Q : result B → bytes → bytes → Prop) :
  runs i o m P → (∀ a i' o', P (Ok a) i' o' → runs i' o' (k a) Q) →
  (∀ s i' o', P (Err s) i' o' → Q (Err s) i' o') → runs i o (bind m k) Q.
Proof.
  intros Hm Hk He. eapply runs_act; [exact Hm|]. intros [a|s] i' o' HP; [by apply Hk|].
  by apply runs_ret, He.
Qed.

Lemma runs_mono {A} i o (m : Act W A) P Q :
  runs i o m P → (∀ a i' o', P a i' o' → Q a i' o') → runs i o m Q.
Proof.
  intros Hm H w Hi Ho. eapply post_mono; [by apply Hm|]. intros a w' [HF|HP]; [by left|right; auto].
Qed.

Lemma runs_if {A} i o (b : bool) (m1 m2 : Act W A) Q :
  (b = true → runs i o m1 Q) → (b = false → runs i o m2 Q) → runs i o (if b then m1 else m2) Q.
Proof. destruct b; auto. Qed.

Lemma runs_call {A} i o (m : Act W A) (Q : A → bytes → bytes → Prop) :
  still m → (∀ w, F ∨ Q (m w).1 i o) → runs i o m Q.
Proof.
  intros Hs HP w <- <-. apply post_run. destruct (Hs w) as [-> ->]. apply HP.
Qed.

Lemma runs_still {A B} i o (m : Act W A) (k : A → Act W B) (P : A → Prop) Q :
  still m → (∀ w, F ∨ P (m w).1) → (∀ a, P a → runs i o (k a) Q) → runs i o (act m k) Q.
Proof.
  intros Hs HP Hk. eapply (runs_act i o m k (λ a i' o', P a ∧ i' = i ∧ o' = o)).
  - apply runs_call; [done|]. intros w. destruct (HP w); auto.
  - intros a i' o' (Ha&->&->). by apply Hk.
Qed.
End runs.
Arguments runs {W M IO IOL} F {A} i o m Q.

(** A function of the message layer, by its own specification. *)
Lemma runs_post `{IOL : POSIX_IO_laws W} {A} (F : Prop) i o (m : Act W A) (Q : A → bytes → bytes → Prop) :
  (∀ w, rx w = i → tx w = o → post m (λ a w', F ∨ Q a (rx w') (tx w')) w) → runs F i o m Q.
Proof. done. Qed.

(** A buffer that is filled to its size. *)
Lemma splice_whole v b : length v = length b → splice 0 v b = v.
Proof. intros H. by rewrite <- (app_nil_r b), splice_head, app_nil_r. Qed.

(** ** The library *)

Class RCPR_laws (W : Type) `{IOL : POSIX_IO_laws W} `{PS : PSOCK W} `{RA : RCPR_ALLOCATOR W}
    `{VB : VCCRYPT_BUFFER W} `{RB : RCPR_RBTREE W} := {
  (** A psock carries the frames of data packets. *)
  law_boxed_read : ∀ w d w', psock_read_boxed_data w = ((0, d), w') →
    good_packet d ∧ rx w = frame (msg_data d) ++ rx w' ∧ tx w' = tx w;
  law_boxed_read_failed : ∀ w rc d w', psock_read_boxed_data w = ((rc, d), w') → rc ≠ 0 → tx w' = tx w;
  law_boxed_write : ∀ d w w', psock_write_boxed_data d w = (0, w') →
    rx w' = rx w ∧ tx w' = tx w ++ frame (msg_data d);
  law_still_reclaim : still rcpr_allocator_reclaim;
  law_still_allocate : ∀ n, still (rcpr_allocator_allocate n);
  law_still_buffer : ∀ n, still (vccrypt_buffer_init n);
  law_buffer_size : ∀ n w b w', vccrypt_buffer_init n w = ((0, b), w') → length b = n;
  (** Trees are finite maps; nothing is inserted twice. *)
  tree_map : ∀ {V}, rbtree V → gmap bytes V;
  law_duplicate : u32 ERROR_RBTREE_DUPLICATE ∧ ERROR_RBTREE_DUPLICATE ≠ 0;
  law_tree_create : ∀ V w t w', rbtree_create V w = ((0, t), w') → tree_map t = ∅;
  law_tree_insert : ∀ V (t : rbtree V) k v w rc t' w', rbtree_insert t k v w = ((rc, t'), w') →
    if rc =? 0 then tree_map t !! k = None ∧ tree_map t' = <[k := v]> (tree_map t)
    else tree_map t' = tree_map t;
  law_tree_find : ∀ V (t : rbtree V) k w v w', rbtree_find t k w = (Ok v, w') → tree_map t !! k = Some v;
  law_still_create : ∀ V, still (rbtree_create V);
  law_still_insert : ∀ V (t : rbtree V) k v, still (rbtree_insert t k v);
  law_still_find : ∀ V (t : rbtree V) k, still (rbtree_find t k);
  law_still_release : ∀ V (t : rbtree V), still (rbtree_release t);
}.

(** Nothing fails for a reason outside the program. *)
Record RCPR_reliable (W : Type) `{RL : RCPR_laws W} : Prop := {
  reliable_boxed_read : ∀ d rest w, good_packet d → rx w = frame (msg_data d) ++ rest →
    (psock_read_boxed_data w).1.1 = 0;
  reliable_boxed_write : ∀ d w, (psock_write_boxed_data d w).1 = 0;
  reliable_reclaim : ∀ w, (rcpr_allocator_reclaim w).1 = 0;
  reliable_allocate : ∀ n w, (rcpr_allocator_allocate n w).1.1 = 0;
  reliable_buffer_init : ∀ n w, (vccrypt_buffer_init n w).1.1 = 0;
  reliable_create : ∀ V w, (rbtree_create V w).1.1 = 0;
  reliable_insert : ∀ V (t : rbtree V) k v w, (rbtree_insert t k v w).1.1 =
    match tree_map t !! k with None => 0 | Some _ => ERROR_RBTREE_DUPLICATE end;
  reliable_find : ∀ V (t : rbtree V) k v w, tree_map t !! k = Some v → (rbtree_find t k w).1 = Ok v;
  reliable_release : ∀ V (t : rbtree V) w, (rbtree_release t w).1 = 0;
}.

Create HintDb still.
#[export] Hint Resolve law_still_reclaim law_still_allocate law_still_buffer law_still_create
  law_still_insert law_still_find law_still_release : still.
