(* ===== verification/ProtocolControlSpec.v ===== *)
(** * The control socket of the protocol service, specified

    The registry: who may connect with which keys and capabilities, and the keys of
    the agent.  The commands of the supervisor change it one after the other
    ([obey_commands]); the control fiber does exactly that to the objects and
    trees of the service, and its responses are what the client functions read
    ([protocol_configured]). *)

From S2P Require Import Prelude Inet StatusCodes Lmdb RequestCodec RequestSpec Ipc IpcSpec AuthedIpc ClientApi NotificationCodec ProtocolService ProtocolSpec.

(** ** The registry *)

Record entity_info := EntityInfo { ei_enc_pubkey : bytes; ei_sign_pubkey : bytes; ei_capabilities : gset bytes }.

Record agent_keys := AgentKeys {
  ak_id : bytes; ak_enc_pubkey : bytes; ak_enc_privkey : bytes; ak_sign_pubkey : bytes; ak_sign_privkey : bytes }.

Record registry := Registry { rg_entities : gmap bytes entity_info; rg_keys : option agent_keys }.

Inductive protocol_command :=
  | cmd_entity (id enc_pubkey sign_pubkey : bytes)
  | cmd_capability (id : bytes) (cap : protocolservice_authorized_entity_capability_key)
  | cmd_private_key (keys : agent_keys)
  | cmd_finalize.

(** A command changes the registry, is answered with a status or not at all, and
    may end the fiber, well or not. *)
Record command_effect := CommandEffect {
  ef_registry : registry; ef_status : option Z; ef_end : option (result unit) }.

Definition grant (cap : bytes) (i : entity_info) : entity_info :=
  EntityInfo (ei_enc_pubkey i) (ei_sign_pubkey i) ({[cap]} ∪ ei_capabilities i).

Section obey.
Context {W : Type} {RB : RCPR_RBTREE W}.

Definition obey_command (rg : registry) (c : protocol_command) : command_effect :=
  match c with
  | cmd_entity id e s =>
      match rg_entities rg !! id with
      | None => CommandEffect (Registry (<[id := EntityInfo e s ∅]> (rg_entities rg)) (rg_keys rg)) (Some 0) None
      | Some _ => CommandEffect rg (Some ERROR_RBTREE_DUPLICATE) None
      end
  | cmd_capability id cap =>
      let k := capability_key_bytes cap in
      match rg_entities rg !! id with
      | None => CommandEffect rg None (Some (Err AGENTD_ERROR_PROTOCOLSERVICE_CONTROL_ENTITY_NOT_FOUND))
      | Some i =>
          if decide (k ∈ ei_capabilities i)
          then CommandEffect rg None (Some (Err ERROR_RBTREE_DUPLICATE))
          else CommandEffect (Registry (<[id := grant k i]> (rg_entities rg)) (rg_keys rg)) (Some 0) None
      end
  | cmd_private_key keys => CommandEffect (Registry (rg_entities rg) (Some keys)) (Some 0) None
  | cmd_finalize => CommandEffect rg (Some 0) (Some (Ok tt))
  end.

Definition command_method (c : protocol_command) : Z :=
  match c with
  | cmd_entity _ _ _ => UNAUTH_PROTOCOL_CONTROL_REQ_ID_AUTH_ENTITY_ADD
  | cmd_capability _ _ => UNAUTH_PROTOCOL_CONTROL_REQ_ID_AUTH_ENTITY_CAP_ADD
  | cmd_private_key _ => UNAUTH_PROTOCOL_CONTROL_REQ_ID_PRIVATE_KEY_SET
  | cmd_finalize => UNAUTH_PROTOCOL_CONTROL_REQ_ID_FINALIZE
  end.

Definition control_response_packet (method status : Z) : bytes :=
  be_enc 4 method ++ be_enc 4 0 ++ be_enc 4 status.

Definition command_response (c : protocol_command) (e : command_effect) : list bytes :=
  match ef_status e with Some s => [control_response_packet (command_method c) s] | None => [] end.

(** The registry, the responses, how it ended, and the commands that were not
    looked at. *)
Fixpoint obey_commands (rg : registry) (cs : list protocol_command)
  : registry * list bytes * option (result unit) * list protocol_command :=
  match cs with
  | [] => (rg, [], None, [])
  | c :: cs =>
      let e := obey_command rg c in
      match ef_end e with
      | Some end_ => (ef_registry e, command_response c e, Some end_, cs)
      | None =>
          let '(rg', rs, end_, rest) := obey_commands (ef_registry e) cs in
          (rg', command_response c e ++ rs, end_, rest)
      end
  end.
End obey.

(** ** Packets *)

Section packets.
Context {W : Type} {KB : KEY_BUFFERS W}.

Definition is_id (b : bytes) : Prop := length b = 16%nat.

Definition keys_fit (k : agent_keys) : Prop :=
  is_id (ak_id k) ∧
  length (ak_enc_pubkey k) = key_cipher_public_key_size ∧
  length (ak_enc_privkey k) = key_cipher_private_key_size ∧
  length (ak_sign_pubkey k) = sign_public_key_size ∧
  length (ak_sign_privkey k) = sign_private_key_size.

(** The sizes of keys are sizes of keys. *)
Definition sizes_fit : Prop :=
  Z.of_nat (key_cipher_public_key_size + key_cipher_private_key_size
            + sign_public_key_size + sign_private_key_size) + 40 < 2 ^ 30.

Definition command_fits (c : protocol_command) : Prop :=
  match c with
  | cmd_entity id e s =>
      is_id id ∧ length e = key_cipher_public_key_size ∧ length s = sign_public_key_size
  | cmd_capability id cap =>
      is_id id ∧ is_id (cap_subject_id cap) ∧ is_id (cap_verb_id cap) ∧ is_id (cap_object_id cap)
  | cmd_private_key keys => keys_fit keys
  | cmd_finalize => True
  end.

(** A packet is its method, the number of the request, and the rest. *)
Definition command_body (c : protocol_command) : bytes :=
  match c with
  | cmd_entity id e s => be_enc 4 0 ++ be_enc 4 (sizeof e) ++ be_enc 4 (sizeof s) ++ id ++ e ++ s
  | cmd_capability id cap => be_enc 4 0 ++ id ++ capability_key_bytes cap
  | cmd_private_key k =>
      be_enc 4 0 ++ be_enc 4 (sizeof (ak_enc_pubkey k)) ++ be_enc 4 (sizeof (ak_enc_privkey k))
      ++ be_enc 4 (sizeof (ak_sign_pubkey k)) ++ be_enc 4 (sizeof (ak_sign_privkey k))
      ++ ak_id k ++ ak_enc_pubkey k ++ ak_enc_privkey k ++ ak_sign_pubkey k ++ ak_sign_privkey k
  | cmd_finalize => []
  end.
Definition command_packet (c : protocol_command) : bytes := be_enc 4 (command_method c) ++ command_body c.

Lemma command_packet_good c : sizes_fit → command_fits c → good_packet (command_packet c).
Proof.
  unfold sizes_fit, command_packet, good_packet, wf_message, sizeof. intros Hs Hc.
  destruct c as [id e s|id cap|k|]; cbn [command_fits command_body command_method] in *;
    unfold capability_key_bytes, keys_fit, is_id in *; len.
Qed.
End packets.

(** ** What the context represents *)

Section represents.
Context {W : Type} {M : MALLOC W} {IO : POSIX_IO W} {IOL : POSIX_IO_laws W}.
Context {PS : PSOCK W} {RA : RCPR_ALLOCATOR W} {VB : VCCRYPT_BUFFER W} {RB : RCPR_RBTREE W}.
Context {RL : RCPR_laws W} {KB : KEY_BUFFERS W}.

Abbreviation context := (protocolservice_context (W := W)).

Definition info_of (e : protocolservice_authorized_entity (W := W)) : entity_info :=
  EntityInfo (ae_encryption_pubkey e) (ae_signing_pubkey e) (dom (tree_map (ae_capabilities e))).

(** The dictionary points to the objects of its entities, and the buffers of the keys
    have their sizes. *)
Record represents (ctx : context) (rg : registry) : Prop := {
  rep_pointer : ∀ id p, tree_map (pc_authorized_entity_dict ctx) !! id = Some p →
    ∃ e, pc_heap ctx !! p = Some e ∧ ae_entity_uuid e = id ∧ rg_entities rg !! id = Some (info_of e);
  rep_domain : ∀ id, tree_map (pc_authorized_entity_dict ctx) !! id = None → rg_entities rg !! id = None;
  rep_private_key : pc_private_key_set ctx = bool_decide (is_Some (rg_keys rg));
  rep_keys : ∀ k, rg_keys rg = Some k →
    AgentKeys (pc_agentd_uuid ctx) (pc_agentd_enc_pubkey ctx) (pc_agentd_enc_privkey ctx)
      (pc_agentd_sign_pubkey ctx) (pc_agentd_sign_privkey ctx) = k;
  rep_sizes : length (pc_agentd_enc_pubkey ctx) = key_cipher_public_key_size ∧
    length (pc_agentd_enc_privkey ctx) = key_cipher_private_key_size ∧
    length (pc_agentd_sign_pubkey ctx) = sign_public_key_size ∧
    length (pc_agentd_sign_privkey ctx) = sign_private_key_size;
}.

(** The tree may be another one with the same contents. *)
Lemma represents_dict ctx rg t :
  represents ctx rg → tree_map t = tree_map (pc_authorized_entity_dict ctx) →
  represents (set_entities (pc_heap ctx) t ctx) rg.
Proof. intros [] E. split; simpl; rewrite ?E; auto. Qed.

Lemma represents_entity ctx rg id e s caps t :
  represents ctx rg → tree_map (pc_authorized_entity_dict ctx) !! id = None → tree_map caps = ∅ →
  tree_map t = <[id := length (pc_heap ctx)]> (tree_map (pc_authorized_entity_dict ctx)) →
  represents (set_entities (pc_heap ctx ++ [AuthorizedEntity id e s caps]) t ctx)
    (Registry (<[id := EntityInfo e s ∅]> (rg_entities rg)) (rg_keys rg)).
Proof.
  intros [Hp Hd] Hnone Hcaps E. split; simpl; rewrite ?E; auto.
  - intros id' p. rewrite lookup_insert_Some. intros [[<- <-]|[Hne Hid]].
    + eexists. split; [by apply list_lookup_middle|]. split; [done|]. rewrite lookup_insert_eq.
      unfold info_of. simpl. by rewrite Hcaps, dom_empty_L.
    + destruct (Hp _ _ Hid) as (e'&He&?&?). exists e'.
      rewrite lookup_insert_ne by done. split; [|done]. by apply lookup_app_l_Some.
  - intros id'. rewrite lookup_insert_None. intros [??]. rewrite lookup_insert_ne by done. auto.
Qed.

(** No two entries of the dictionary share an object. *)
Lemma represents_capability ctx rg id p e k t (cap : protocolservice_authorized_entity_capability_key) :
  represents ctx rg → tree_map (pc_authorized_entity_dict ctx) !! id = Some p →
  pc_heap ctx !! p = Some e → tree_map t = <[k := cap]> (tree_map (ae_capabilities e)) →
  represents (set_capabilities p t ctx) (Registry (<[id := grant k (info_of e)]> (rg_entities rg)) (rg_keys rg)).
Proof.
  intros [Hp Hd] Hid He E. split; simpl; auto.
  - intros id' p' Hid'. destruct (Hp _ _ Hid') as (e'&He'&<-&Hrg). destruct (Hp _ _ Hid) as (e2&He2&Hu&_).
    rewrite He in He2. injection He2 as <-.
    destruct (decide (p' = p)) as [->|Hne].
    + rewrite He in He'. injection He' as <-. rewrite list_lookup_alter_eq, He. simpl.
      eexists. split; [done|]. split; [done|]. simpl. rewrite <- Hu, lookup_insert_eq. unfold grant, info_of.
      simpl. by rewrite E, dom_insert_L.
    + rewrite list_lookup_alter_ne by done. exists e'. split_and!; [done..|].
      rewrite lookup_insert_ne; [done|]. intros ->. rewrite Hid in Hid'. congruence.
  - intros id' Hnone. rewrite lookup_insert_ne; [auto|]. congruence.
Qed.

(** Objects keep their place. *)
Lemma represents_same_capabilities ctx rg id p e t :
  represents ctx rg → tree_map (pc_authorized_entity_dict ctx) !! id = Some p →
  pc_heap ctx !! p = Some e → tree_map t = tree_map (ae_capabilities e) →
  represents (set_capabilities p t ctx) rg.
Proof.
  intros [Hp Hd] Hid He E. split; simpl; auto.
  intros id' p' Hid'. destruct (Hp _ _ Hid') as (e'&He'&Hu&Hrg).
  destruct (decide (p' = p)) as [->|Hne].
  - rewrite He in He'. injection He' as <-. rewrite list_lookup_alter_eq, He. simpl.
    eexists. split; [done|]. split; [done|]. rewrite Hrg. unfold info_of. simpl. by rewrite E.
  - rewrite list_lookup_alter_ne by done. eauto.
Qed.
End represents.

(** ** The handlers *)

Definition data_frames (ds : list bytes) : bytes := concat ((λ d, frame (msg_data d)) <$> ds).

Section handlers.
Context {W : Type} {M : MALLOC W} {IO : POSIX_IO W} {IOL : POSIX_IO_laws W}.
Context {PS : PSOCK W} {RA : RCPR_ALLOCATOR W} {VB : VCCRYPT_BUFFER W} {RB : RCPR_RBTREE W}.
Context {RL : RCPR_laws W} {KB : KEY_BUFFERS W}.
Context (sizeof_entity sizeof_capability : nat).

Definition rcpr_faulty : Prop := RCPR_reliable W → False.
Abbreviation runs := (runs rcpr_faulty).
Abbreviation fiber_context := (protocolservice_control_fiber_context (W := W)).

(** A call that must succeed, and one that also gives something. *)
Lemma runs_status {B} i o (m : Act W Z) (k : Z → Act W B) Q :
  still m → (RCPR_reliable W → ∀ w, (m w).1 = 0) → runs i o (k 0) Q → runs i o (act m k) Q.
Proof.
  intros Hs Hr Hk. eapply (runs_still _ _ _ _ (λ rc, rc = 0)); [done| |by intros ? ->].
  intros w. destruct (decide ((m w).1 = 0)) as [|Hne]; [by right|left]. intros R. by apply Hne, Hr.
Qed.

Lemma runs_pair {A B} i o (m : Act W (Z * A)) (k : Z * A → Act W B) (P : A → Prop) Q :
  still m → (RCPR_reliable W → ∀ w, (m w).1.1 = 0) → (∀ w a w', m w = ((0, a), w') → P a) →
  (∀ a, P a → runs i o (k (0, a)) Q) → runs i o (act m k) Q.
Proof.
  intros Hs Hr HP Hk. eapply (runs_still _ _ _ _ (λ x, x.1 = 0 ∧ P x.2)); [done| |].
  - intros w. specialize (HP w). destruct (m w) as [[rc a] w'] eqn:E. simpl.
    destruct (decide (rc = 0)) as [->|Hne]; [right; by eauto|left]. intros R. apply Hne.
    specialize (Hr R w). by rewrite E in Hr.
  - intros [rc a] [Hrc Ha]. simpl in *. subst rc. by apply Hk.
Qed.

Lemma write_response_runs method status i o :
  u32 method → u32 status →
  runs i o (protocolservice_control_write_response method status) (λ rc i' o',
    rc = 0 ∧ i' = i ∧ o' = o ++ frame (msg_data (control_response_packet method status))).
Proof.
  intros Hm Hs. unfold protocolservice_control_write_response.
  apply (runs_pair _ _ _ _ (λ _, True)); [eauto with still|intros R; eapply reliable_allocate, R|done|].
  intros _ _. cbn [negb Z.eqb]. unfold wrap32. rewrite !Z.mod_small by (unfold u32 in *; lia).
  rewrite !net32_be. fold (control_response_packet method status).
  eapply (runs_act _ _ _ _ (λ rc i' o', rc = 0 ∧ i' = i ∧ o' = o ++ frame _)).
  - intros w <- <-. apply post_run.
    destruct (psock_write_boxed_data (control_response_packet method status) w) as [rc w'] eqn:E. simpl.
    destruct (decide (rc = 0)) as [->|Hne].
    + apply law_boxed_write in E as [-> ->]. by right.
    + left. intros R. apply Hne. by rewrite <- (reliable_boxed_write _ R (control_response_packet method status) w), E.
  - intros rc i' o' (->&->&->). cbn [negb Z.eqb].
    apply runs_status; [eauto with still|intros R; eapply reliable_reclaim, R|]. by apply runs_ret.
Qed.

(** What a command has led to. *)
Definition obeyed (rg : registry) (c : protocol_command) (i o : bytes)
    (r : Z * fiber_context) (i' o' : bytes) : Prop :=
  let e := obey_command rg c in
  i' = i ∧ o' = o ++ data_frames (command_response c e) ∧
  represents (pcf_ctx r.2) (ef_registry e) ∧
  match ef_end e with
  | None => r.1 = 0 ∧ pcf_should_exit r.2 = false
  | Some (Ok _) => r.1 = 0 ∧ pcf_should_exit r.2 = true
  | Some (Err s) => r.1 = s ∧ s ≠ 0
  end.

(** A command that was done, and gets the response. *)
Lemma accept_obeys rg c ctx i o :
  ef_status (obey_command rg c) = Some 0 →
  represents (pcf_ctx ctx) (ef_registry (obey_command rg c)) →
  ef_end (obey_command rg c) = (if pcf_should_exit ctx then Some (Ok tt) else None) →
  runs i o (control_accept (command_method c) ctx) (obeyed rg c i o).
Proof.
  intros Hs Hr He. unfold control_accept.
  eapply runs_act; [apply write_response_runs; [by destruct c|done]|].
  intros rc i' o' (->&->&->). apply runs_ret. unfold obeyed, command_response, data_frames.
  rewrite Hs, He. cbn [fmap list_fmap concat]. rewrite app_nil_r. split_and!; [done..|].
  by destruct (pcf_should_exit ctx) eqn:E.
Qed.

(** An insertion, by what the tree had. *)
Lemma runs_insert {V B} i o (t : rbtree V) k v (f : Z * rbtree V → Act W B) Q :
  (tree_map t !! k = None → ∀ t', tree_map t' = <[k := v]> (tree_map t) → runs i o (f (0, t')) Q) →
  (is_Some (tree_map t !! k) → ∀ t', tree_map t' = tree_map t → runs i o (f (ERROR_RBTREE_DUPLICATE, t')) Q) →
  runs i o (act (rbtree_insert t k v) f) Q.
Proof.
  intros Hnone Hsome.
  eapply (runs_still _ _ _ _ (λ x, (x.1 = match tree_map t !! k with None => 0 | Some _ => ERROR_RBTREE_DUPLICATE end) ∧
    if x.1 =? 0 then tree_map t !! k = None ∧ tree_map x.2 = <[k := v]> (tree_map t)
    else tree_map x.2 = tree_map t)); [eauto with still| |].
  - intros w. destruct (rbtree_insert t k v w) as [[rc t'] w'] eqn:E. simpl.
    destruct (decide (rc = match tree_map t !! k with None => 0 | Some _ => ERROR_RBTREE_DUPLICATE end)) as [Hrc|Hrc].
    + right. split; [done|]. by apply law_tree_insert in E.
    + left. intros R. apply Hrc. by rewrite <- (reliable_insert _ R _ t k v w), E.
  - intros [rc t'] [Hrc Ht]. simpl in *. subst rc. destruct law_duplicate as [_ Hd].
    destruct (tree_map t !! k) eqn:E.
    + rewrite (proj2 (Z.eqb_neq _ _)) in Ht by done. by apply Hsome.
    + destruct Ht. by apply Hnone.
Qed.

Lemma runs_find {V B} i o (t : rbtree V) k (f : result V → Act W B) Q :
  (∀ v, tree_map t !! k = Some v → runs i o (f (Ok v)) Q) →
  (tree_map t !! k = None → ∀ s, runs i o (f (Err s)) Q) →
  runs i o (act (rbtree_find t k) f) Q.
Proof.
  intros Hsome Hnone.
  eapply (runs_still _ _ _ _ (λ r, match r with Ok v => tree_map t !! k = Some v | Err _ => tree_map t !! k = None end));
    [eauto with still| |intros [v|s]; auto].
  intros w. destruct (rbtree_find t k w) as [[v|s] w'] eqn:E; simpl.
  - right. by eapply law_tree_find.
  - destruct (tree_map t !! k) as [v|] eqn:Ek; [left|by right]. intros R.
    pose proof (reliable_find _ R _ t k v w Ek) as H. by rewrite E in H.
Qed.

(** The dictionary has the entities of the registry. *)
Lemma represents_none ctx rg id :
  represents ctx rg → tree_map (pc_authorized_entity_dict ctx) !! id = None ↔ rg_entities rg !! id = None.
Proof.
  intros [Hp Hd]. split; [apply Hd|]. intros Hn.
  destruct (tree_map _ !! id) as [p|] eqn:E; [|done]. destruct (Hp _ _ E) as (e&_&_&H). congruence.
Qed.

Lemma entity_add_runs rg ctx id e s i o :
  represents ctx rg →
  runs i o (protocolservice_authorized_entity_add sizeof_entity ctx id e s) (λ r i' o',
    i' = i ∧ o' = o ∧
    match rg_entities rg !! id with
    | None => r.1 = 0 ∧ represents r.2 (Registry (<[id := EntityInfo e s ∅]> (rg_entities rg)) (rg_keys rg))
    | Some _ => r.1 = ERROR_RBTREE_DUPLICATE ∧ represents r.2 rg
    end).
Proof.
  intros Hrep. unfold protocolservice_authorized_entity_add.
  apply (runs_pair _ _ _ _ (λ _, True)); [eauto with still|intros R; eapply reliable_allocate, R|done|].
  intros _ _. cbn [negb Z.eqb].
  apply (runs_pair _ _ _ _ (λ t, tree_map t = ∅));
    [eauto with still|intros R; eapply reliable_create, R|intros w t w'; eapply law_tree_create|].
  intros caps Hcaps. cbn [negb Z.eqb]. destruct law_duplicate as [_ Hd].
  apply runs_insert; intros Hk t Ht; cbn [negb Z.eqb].
  - apply runs_ret. rewrite (proj1 (represents_none _ _ _ Hrep) Hk). eauto using represents_entity.
  - rewrite (proj2 (Z.eqb_neq _ _)) by done. cbn [negb]. unfold protocolservice_authorized_entity_release.
    eapply (runs_act _ _ _ _ (λ rc i' o', rc = 0 ∧ i' = i ∧ o' = o)).
    + apply runs_status; [eauto with still|intros R; eapply reliable_release, R|].
      apply runs_status; [eauto with still|intros R; eapply reliable_reclaim, R|]. by apply runs_ret.
    + intros rc i' o' (->&->&->). apply runs_ret. unfold or_else. cbn [negb Z.eqb].
      destruct (rg_entities rg !! id) eqn:E; [eauto using represents_dict|].
      apply (represents_none _ _ _ Hrep) in E. rewrite E in Hk. by destruct Hk.
Qed.

(** The fields of the packet that registers an entity. *)
Lemma entity_fields id e s :
  is_id id → sizeof e < 2 ^ 30 → sizeof s < 2 ^ 30 →
  let p := command_body (cmd_entity id e s) in
  ntohl (le_dec (sub 4 4 p)) = sizeof e ∧ ntohl (le_dec (sub 8 4 p)) = sizeof s ∧
  drop 12 p = id ++ e ++ s.
Proof.
  intros Hid He Hs p. subst p. unfold command_body, is_id, sizeof in *. split_and!.
  - rewrite (sub_skip 4 4) by len. apply read_net32. unfold u32. lia.
  - rewrite (sub_skip 8 4), (sub_skip _ 4) by len. apply read_net32. unfold u32. lia.
  - rewrite !(assoc_L (++)), <- (assoc_L (++) _ id), <- (assoc_L (++) _ _ s). apply drop_app_length'. len.
Qed.

Lemma entity_obeys rg ctx id e s i o :
  sizes_fit → represents (pcf_ctx ctx) rg → pcf_should_exit ctx = false →
  command_fits (cmd_entity id e s) →
  runs i o (protocolservice_control_dispatch_auth_entity_add sizeof_entity ctx
              (command_body (cmd_entity id e s))) (obeyed rg (cmd_entity id e s) i o).
Proof.
  intros Hsz Hrep Hexit (Hid&He&Hs). unfold protocolservice_control_dispatch_auth_entity_add.
  destruct (entity_fields id e s) as (E1&E2&E3);
    [done|unfold sizeof; unfold sizes_fit in Hsz; lia|unfold sizeof; unfold sizes_fit in Hsz; lia|].
  rewrite E1, E2, E3. unfold is_id, sizeof in *. rewrite (proj2 (Nat.ltb_ge _ _)) by (unfold command_body; len).
  rewrite He, Hs, !Z.eqb_refl. cbn [negb andb]. rewrite (proj2 (Z.ltb_ge _ _)) by len. rewrite <- He, <- Hs, !Nat2Z.id.
  apply (runs_pair _ _ _ _ (λ b, length b = length e));
    [eauto with still|intros R; eapply reliable_buffer_init, R|intros w b w'; eapply law_buffer_size|].
  intros b1 Hb1. cbn [negb Z.eqb].
  apply (runs_pair _ _ _ _ (λ b, length b = length s));
    [eauto with still|intros R; eapply reliable_buffer_init, R|intros w b w'; eapply law_buffer_size|].
  intros b2 Hb2. cbn [negb Z.eqb].
  unfold is_id in *. rewrite sub_head by done.
  rewrite (sub_skip 16 16), Nat.sub_diag, sub_head by (done || lia).
  rewrite (sub_skip _ 16), (sub_skip _ (length e)) by lia.
  replace (16 + length e - 16 - length e)%nat with 0%nat by lia.
  rewrite sub_exact, !splice_whole by done.
  eapply runs_act; [by apply entity_add_runs|]. intros [rc pctx] i' o' (->&->&H). cbn [fst snd] in H.
  destruct (rg_entities rg !! id) as [x|] eqn:E; destruct H as [-> Hrep'].
  - destruct law_duplicate as [Hu Hd]. rewrite (proj2 (Z.eqb_neq _ _)) by done. cbn [negb].
    eapply runs_act; [by apply write_response_runs|]. intros rc i' o' (->&->&->). apply runs_ret.
    unfold obeyed, command_response, data_frames. cbn [obey_command]. rewrite E. cbn. by rewrite app_nil_r.
  - cbn [negb Z.eqb]. apply (accept_obeys rg (cmd_entity id e s)); cbn [obey_command]; rewrite E; [done..|].
    simpl. by rewrite Hexit.
Qed.

Lemma capability_fields id cap :
  command_fits (cmd_capability id cap) →
  let p := command_body (cmd_capability id cap) in
  length p = 68%nat ∧ sub 4 16 p = id ∧ sub 20 16 p = cap_subject_id cap ∧
  sub 36 16 p = cap_verb_id cap ∧ sub 52 16 p = cap_object_id cap.
Proof.
  intros (H1&H2&H3&H4) p. subst p. unfold command_body, capability_key_bytes, is_id in *.
  split_and!; [len|..].
  - rewrite (sub_skip 4 4) by len. by apply sub_head.
  - rewrite (sub_skip 20 4), (sub_skip _ 16) by len. by apply sub_head.
  - rewrite (sub_skip 36 4), !(sub_skip _ 16) by len. by apply sub_head.
  - rewrite (sub_skip 52 4), !(sub_skip _ 16) by len. by apply sub_exact.
Qed.

Lemma capability_obeys rg ctx id cap i o :
  represents (pcf_ctx ctx) rg → pcf_should_exit ctx = false → command_fits (cmd_capability id cap) →
  runs i o (protocolservice_control_dispatch_auth_entity_capability_add sizeof_capability ctx
              (command_body (cmd_capability id cap))) (obeyed rg (cmd_capability id cap) i o).
Proof.
  intros Hrep Hexit Hfit. destruct (capability_fields id cap Hfit) as (El&E1&E2&E3&E4).
  unfold protocolservice_control_dispatch_auth_entity_capability_add.
  rewrite El, E1, E2, E3, E4. cbn [Nat.ltb Nat.leb Nat.add Nat.mul].
  apply runs_find.
  2: { intros Hn s. apply runs_ret. apply (represents_none _ _ _ Hrep) in Hn.
       unfold obeyed, command_response, data_frames. cbn [obey_command]. rewrite Hn. cbn.
       by rewrite app_nil_r. }
  intros ptr Hptr. unfold protocolservice_authorized_entity_capability_create.
  eapply (runs_act _ _ _ _ (λ r i' o', r = Ok cap ∧ i' = i ∧ o' = o)).
  { apply (runs_pair _ _ _ _ (λ _, True)); [eauto with still|intros R; eapply reliable_allocate, R|done|].
    intros _ _. cbn [negb Z.eqb]. apply runs_ret. by destruct cap. }
  intros r i' o' (->&->&->). destruct (rep_pointer _ _ Hrep _ _ Hptr) as (e&He&Hid&Hrg). rewrite He.
  destruct law_duplicate as [_ Hd].
  apply runs_insert; intros Hk t Ht; cbn [negb Z.eqb].
  - apply (accept_obeys rg (cmd_capability id cap)); cbn [obey_command]; rewrite Hrg;
      rewrite decide_False by (unfold info_of; simpl; by rewrite not_elem_of_dom); cbn;
      [done|by eapply represents_capability|by rewrite Hexit].
  - rewrite (proj2 (Z.eqb_neq _ _)) by done. cbn [negb].
    apply runs_status; [eauto with still|intros R; eapply reliable_reclaim, R|]. apply runs_ret.
    unfold obeyed, command_response, data_frames. cbn [obey_command]. rewrite Hrg.
    rewrite decide_True by (unfold info_of; simpl; by apply elem_of_dom). cbn. rewrite app_nil_r.
    split_and!; [done..|by eapply represents_same_capabilities|done|done].
Qed.

(** The size of a field that starts after the fields [pre]. *)
Lemma size_field off pre b rest :
  length pre = off → sizeof b < 2 ^ 30 → ntohl (le_dec (sub off 4 (pre ++ be_enc 4 (sizeof b) ++ rest))) = sizeof b.
Proof.
  intros <- Hb. rewrite sub_app_r, Nat.sub_diag by lia. apply read_net32. unfold u32, sizeof in *. lia.
Qed.

Lemma key_fields k :
  sizes_fit → keys_fit k →
  let p := command_body (cmd_private_key k) in
  ntohl (le_dec (sub 4 4 p)) = sizeof (ak_enc_pubkey k) ∧
  ntohl (le_dec (sub 8 4 p)) = sizeof (ak_enc_privkey k) ∧
  ntohl (le_dec (sub 12 4 p)) = sizeof (ak_sign_pubkey k) ∧
  ntohl (le_dec (sub 16 4 p)) = sizeof (ak_sign_privkey k) ∧
  drop 20 p = ak_id k ++ ak_enc_pubkey k ++ ak_enc_privkey k ++ ak_sign_pubkey k ++ ak_sign_privkey k.
Proof.
  intros Hsz (Hid&H1&H2&H3&H4) p. subst p. unfold sizes_fit, command_body, is_id in *.
  assert (∀ b n, length b = n → Z.of_nat n < 2 ^ 30 → sizeof b < 2 ^ 30) as Hs by (intros b n <- ?; done).
  split_and!.
  - apply size_field; [len|eapply Hs; [done|lia]].
  - rewrite (assoc_L (++)). apply size_field; [len|eapply Hs; [done|lia]].
  - rewrite !(assoc_L (++) (be_enc 4 0)), (assoc_L (++) (be_enc 4 0 ++ _)).
    apply size_field; [len|eapply Hs; [done|lia]].
  - rewrite !(assoc_L (++) (be_enc 4 0)), !(assoc_L (++) (be_enc 4 0 ++ _)),
      (assoc_L (++) ((be_enc 4 0 ++ _) ++ _)). apply size_field; [len|eapply Hs; [done|lia]].
  - rewrite !(assoc_L (++) (be_enc 4 0)), !(assoc_L (++) (be_enc 4 0 ++ _)),
      !(assoc_L (++) ((be_enc 4 0 ++ _) ++ _)), (assoc_L (++) (((be_enc 4 0 ++ _) ++ _) ++ _)).
    apply drop_app_length'. len.
Qed.

Lemma protocol_key_obeys rg ctx k i o :
  sizes_fit → represents (pcf_ctx ctx) rg → pcf_should_exit ctx = false → keys_fit k →
  runs i o (protocolservice_control_dispatch_private_key_set ctx (command_body (cmd_private_key k)))
    (obeyed rg (cmd_private_key k) i o).
Proof.
  intros Hsz Hrep Hexit Hk. destruct (key_fields k Hsz Hk) as (E1&E2&E3&E4&E5).
  unfold protocolservice_control_dispatch_private_key_set. rewrite E1, E2, E3, E4, E5.
  destruct k as [id k1 k2 k3 k4]. destruct Hk as (Hid&H1&H2&H3&H4). unfold is_id, sizeof in *.
  cbn [ak_id ak_enc_pubkey ak_enc_privkey ak_sign_pubkey ak_sign_privkey] in *.
  rewrite (proj2 (Nat.ltb_ge _ _)) by (unfold command_body, sizeof; cbn [ak_id ak_enc_pubkey
    ak_enc_privkey ak_sign_pubkey ak_sign_privkey]; len).
  rewrite H1, H2, H3, H4, !Z.eqb_refl. cbn [negb andb]. rewrite (proj2 (Z.ltb_ge _ _)) by len.
  rewrite <- H1, <- H2, <- H3, <- H4, !Nat2Z.id.
  rewrite sub_head, !drop_app_length' by done. rewrite !take_app_length' by done. rewrite (take_ge k4) by lia.
  destruct Hrep as [Hp Hd Hs Hkeys (S1&S2&S3&S4)]. rewrite !splice_whole by congruence.
  apply (accept_obeys rg (cmd_private_key (AgentKeys id k1 k2 k3 k4))); cbn; [done| |by rewrite Hexit].
  split; cbn; auto. by intros ? [= <-].
Qed.

Lemma protocol_command_obeys rg ctx c i o :
  sizes_fit → represents (pcf_ctx ctx) rg → pcf_should_exit ctx = false → command_fits c →
  runs i o (protocolservice_control_decode_and_dispatch sizeof_entity sizeof_capability ctx (command_packet c))
    (obeyed rg c i o).
Proof.
  intros Hsz Hrep Hexit Hfit. unfold protocolservice_control_decode_and_dispatch, command_packet.
  rewrite (proj2 (Nat.ltb_ge _ _)) by len. rewrite drop_app_length' by len.
  replace (ntohl (le_dec (sub 0 4 (be_enc 4 (command_method c) ++ command_body c)))) with (command_method c)
    by (symmetry; apply read_net32; by destruct c).
  destruct c as [id e s|id cap|k|]; cbn [command_method];
    [by apply entity_obeys|by apply capability_obeys|by apply protocol_key_obeys|].
  apply (accept_obeys rg cmd_finalize); done.
Qed.

(** ** The loop *)

Definition loop_ends (cs : list protocol_command) (rg : registry) (o : bytes)
    (r : option (result unit) * fiber_context) (i' o' : bytes) : Prop :=
  let '(rg', rs, end_, rest) := obey_commands rg cs in
  o' = o ++ data_frames rs ∧ represents (pcf_ctx r.2) rg' ∧
  match end_ with
  | Some e => r.1 = Some e ∧ i' = data_frames (command_packet <$> rest)
  | None => ∃ s, r.1 = Some (Err s)
  end.

Lemma control_loop_runs cs : ∀ fuel rg ctx o,
  sizes_fit → Forall command_fits cs → represents (pcf_ctx ctx) rg → pcf_should_exit ctx = false →
  (length cs < fuel)%nat →
  runs (data_frames (command_packet <$> cs)) o
    (control_fiber_loop sizeof_entity sizeof_capability fuel ctx) (loop_ends cs rg o).
Proof.
  induction cs as [|c cs IH]; intros fuel rg ctx o Hsz Hfits Hrep Hexit Hfuel;
    (destruct fuel as [|fuel]; [simpl in Hfuel; lia|]); cbn [control_fiber_loop]; rewrite Hexit.
  - intros w Hi Ho. apply post_act, post_run. destruct (psock_read_boxed_data w) as [[rc d] w'] eqn:E. cbn [fst snd].
    apply post_if; intros Hrc.
    + apply post_ret. right. unfold loop_ends. cbn. apply negb_true_iff, Z.eqb_neq in Hrc.
      rewrite app_nil_r. split_and!; [|done|by eexists]. rewrite <- Ho. by eapply law_boxed_read_failed.
    + apply negb_false_iff, Z.eqb_eq in Hrc as ->. apply law_boxed_read in E as (_&E&_).
      rewrite Hi in E. by destruct (frame (msg_data d)) eqn:Ef.
  - apply Forall_cons in Hfits as [Hfit Hfits].
    assert (good_packet (command_packet c)) as Hgood by (by apply command_packet_good).
    eapply (runs_act _ _ _ _ (λ x i' o', x = (0, command_packet c) ∧ i' = data_frames (command_packet <$> cs) ∧ o' = o)).
    { intros w Hi Ho. apply post_run. destruct (psock_read_boxed_data w) as [[rc d] w'] eqn:E. cbn [fst snd].
      destruct (decide (rc = 0)) as [->|Hne].
      - right. apply law_boxed_read in E as (Hg&E&Ht). rewrite Hi in E.
        destruct (frame_data_inj _ _ _ _ Hgood Hg E) as [<- <-]. by rewrite Ht.
      - left. intros R. apply Hne.
        by rewrite <- (reliable_boxed_read _ R (command_packet c) (data_frames (command_packet <$> cs)) w), E. }
    intros x i' o' (->&->&->). cbn [negb Z.eqb].
    eapply runs_act; [by apply protocol_command_obeys|]. intros [rc ctx'] i' o' (->&->&Hrep'&Hend). cbn [fst snd] in *.
    apply runs_status; [eauto with still|intros R; eapply reliable_reclaim, R|]. cbn [negb Z.eqb].
    unfold loop_ends. cbn [obey_commands]. destruct (ef_end (obey_command rg c)) as [[[]|s]|] eqn:Eend.
    + destruct Hend as [-> Hex]. cbn [negb Z.eqb]. destruct fuel; cbn [control_fiber_loop]; rewrite Hex; by apply runs_ret.
    + destruct Hend as [-> Hne]. rewrite (proj2 (Z.eqb_neq _ _)) by done. cbn [negb]. by apply runs_ret.
    + destruct Hend as [-> Hex]. cbn [negb Z.eqb].
      eapply runs_mono; [apply (IH fuel (ef_registry (obey_command rg c))); try done; simpl in Hfuel; lia|].
      intros r i' o'. unfold loop_ends.
      destruct (obey_commands (ef_registry (obey_command rg c)) cs) as [[[rg' rs] end_] rest].
      intros (->&?&?). unfold data_frames. rewrite fmap_app, concat_app, <- (assoc_L (++)). done.
Qed.
End handlers.

(** ** The client, and the whole *)

Section configured.
Context {W : Type} {M : MALLOC W} {IO : POSIX_IO W} {IOL : POSIX_IO_laws W}.
Context {PS : PSOCK W} {RA : RCPR_ALLOCATOR W} {VB : VCCRYPT_BUFFER W} {RB : RCPR_RBTREE W}.
Context {RL : RCPR_laws W} {KB : KEY_BUFFERS W}.
Context (sizeof_entity sizeof_capability : nat).

Definition protocol_faulty : Prop := IO_reliable W → RCPR_reliable W → False.

Lemma runs_weaken {A} (F G : Prop) i o (m : Act W A) Q : (F → G) → runs F i o m Q → runs G i o m Q.
Proof.
  intros HFG H w Hi Ho. eapply post_mono; [by apply H|]. intros a w' [HF|HQ]; [left|right]; auto.
Qed.

Lemma rcpr_protocol_faulty : rcpr_faulty → protocol_faulty.
Proof. by intros H _ R. Qed.

(** There is no client function that closes the control socket. *)
Definition control_sendreq (c : protocol_command) : Eff W unit :=
  match c with
  | cmd_entity id e s => protocolservice_control_api_sendreq_authorized_entity_add id e s
  | cmd_capability id cap =>
      protocolservice_control_api_sendreq_authorized_entity_capability_add id
        (cap_subject_id cap) (cap_verb_id cap) (cap_object_id cap)
  | cmd_private_key k =>
      protocolservice_control_api_sendreq_private_key_set (ak_id k) (ak_enc_pubkey k)
        (ak_enc_privkey k) (ak_sign_pubkey k) (ak_sign_privkey k)
  | cmd_finalize => ok tt
  end.

Definition control_recvresp (c : protocol_command) : Eff W (Z * Z) :=
  match c with
  | cmd_entity _ _ _ => protocolservice_control_api_recvresp_authorized_entity_add
  | cmd_capability _ _ => protocolservice_control_api_recvresp_authorized_entity_capability_add
  | cmd_private_key _ => protocolservice_control_api_recvresp_private_key_set
  | cmd_finalize => throw 0
  end.

Lemma protocol_send_runs fields i o :
  good_packet (concat fields) →
  runs protocol_faulty i o (protocol_control_send fields) (λ r i' o',
    r = Ok tt ∧ i' = i ∧ o' = o ++ frame (msg_data (concat fields))).
Proof.
  intros Hgood. unfold protocol_control_send.
  eapply (runs_still _ _ _ _ (λ x, x.1 = 0 ∧ length x.2 = sum_list (length <$> fields))); [eauto with still|..].
  - intros w. pose proof (law_buffer_size (sum_list (length <$> fields)) w) as Hl.
    destruct (vccrypt_buffer_init _ w) as [[rc b] w'] eqn:E. simpl.
    destruct (decide (rc = 0)) as [->|Hne]; [right; by eauto|left]. intros _ R. apply Hne.
    by rewrite <- (reliable_buffer_init _ R (sum_list (length <$> fields)) w), E.
  - intros [rc b] [Hrc Hb]. simpl in *. subst rc. cbn [negb Z.eqb].
    rewrite write_seq_full by (rewrite Hb; by rewrite length_concat).
    pose proof Hgood as [_ Hlt]. rewrite take_ge.
    2: { unfold wrap32, sizeof in *. rewrite Z.mod_small; lia. }
    intros w <- <-. eapply post_mono; [by apply (write_block_spec (msg_data (concat fields)))|].
    intros [[]|e] w'; cbn [written].
    + intros [Hr Ht]. right. by rewrite Hr, Ht.
    + intros [_ Hf]. left. intros R _. by apply Hf.
Qed.

Lemma sendreq_runs c i o :
  sizes_fit → command_fits c → c ≠ cmd_finalize →
  runs protocol_faulty i o (control_sendreq c) (λ r i' o',
    r = Ok tt ∧ i' = i ∧ o' = o ++ data_frames [command_packet c]).
Proof.
  intros Hsz Hfit Hc. pose proof (command_packet_good c Hsz Hfit) as Hgood.
  unfold data_frames. cbn [fmap list_fmap concat]. rewrite app_nil_r.
  assert (∀ fields, concat fields = command_packet c →
    runs protocol_faulty i o (protocol_control_send fields) (λ r i' o',
      r = Ok tt ∧ i' = i ∧ o' = o ++ frame (msg_data (command_packet c)))) as H.
  { intros fields E. rewrite <- E in *. by apply protocol_send_runs. }
  unfold sizes_fit in Hsz.
  destruct c as [id e s|id [a b d]|[id k1 k2 k3 k4]|]; [..|done]; apply H;
    unfold command_packet; cbn [command_body command_method command_fits] in *;
    unfold keys_fit, is_id, capability_key_bytes, wrap32, sizeof in *;
    cbn [ak_id ak_enc_pubkey ak_enc_privkey ak_sign_pubkey ak_sign_privkey
         cap_subject_id cap_verb_id cap_object_id] in *.
  all: rewrite ?Z.mod_small by lia; rewrite ?take_ge by lia; rewrite !net32_be; cbn [concat];
    by rewrite app_nil_r, <- ?(assoc_L (++)).
Qed.

Lemma recvresp_runs c s rest o :
  u32 s → c ≠ cmd_finalize →
  runs protocol_faulty (data_frames [control_response_packet (command_method c) s] ++ rest) o
    (control_recvresp c) (λ r i' o', r = Ok (0, s) ∧ i' = rest ∧ o' = o).
Proof.
  intros Hs Hc. set (m := command_method c). set (p := control_response_packet m s).
  assert (u32 m) as Hm by (by destruct c).
  assert (good_packet p ∧ length p = 12%nat) as [Hgood Hlen]
    by (split; unfold p, control_response_packet, good_packet, wf_message, sizeof; len).
  assert (runs protocol_faulty (data_frames [p] ++ rest) o (protocol_control_recv m)
    (λ r i' o', r = Ok (0, s) ∧ i' = rest ∧ o' = o)) as H; [|by destruct c].
  unfold protocol_control_recv.
  eapply (runs_bind _ _ _ _ (λ r i' o', r = Ok p ∧ i' = rest ∧ o' = o)); [| |by intros ??? [[=] _]].
  - unfold data_frames. cbn [fmap list_fmap concat]. rewrite app_nil_r. intros w Hi Ho.
    pose proof (read_block_spec (msg_data p) rest w Hgood Hi) as Hread. simpl in Hread.
    apply post_run. apply post_run in Hread. unfold bind, act in Hread.
    destruct (ipc_read_data_block w) as [[d|e] w1]; simpl in *.
    + destruct Hread as ([= ->]&?&?). right. split_and!; [done|done|congruence].
    + left. intros R _. by apply Hread.
  - intros a i' o' ([= ->]&->&->). rewrite Hlen. cbn [Nat.eqb negb].
    assert (ntohl (le_dec (sub 0 4 p)) = m) as -> by (by apply read_net32).
    assert (ntohl (le_dec (sub 4 4 p)) = 0) as ->
      by (unfold p, control_response_packet; rewrite (sub_skip 4 4) by len; by apply read_net32).
    assert (ntohl (le_dec (sub 8 4 p)) = s) as ->.
    { unfold p, control_response_packet. rewrite (sub_skip 8 4), (sub_skip _ 4) by len.
      rewrite <- (app_nil_r (be_enc 4 s)). by apply read_net32. }
    rewrite Z.eqb_refl. by apply runs_ret.
Qed.

(** C16: The supervisor configures the protocol service: a client function writes the
    packet of its command; the control fiber, reading the packets of any commands,
    does to the entities, capabilities and keys what the registry says, answers
    each command as it says, and ends where it says, at the latest when the stream
    ends; and a client function reads the status of its response.  Unless the
    platform fails. *)
Theorem protocol_configured cs rg ctx fuel o :
  sizes_fit → Forall command_fits cs → represents (pcf_ctx ctx) rg → pcf_should_exit ctx = false →
  (length cs < fuel)%nat →
  (∀ c i o, c ∈ cs → c ≠ cmd_finalize →
     runs protocol_faulty i o (control_sendreq c) (λ r i' o',
       r = Ok tt ∧ i' = i ∧ o' = o ++ data_frames [command_packet c])) ∧
  runs protocol_faulty (data_frames (command_packet <$> cs)) o
    (control_fiber_loop sizeof_entity sizeof_capability fuel ctx) (loop_ends cs rg o) ∧
  (∀ c s rest o, c ∈ cs → c ≠ cmd_finalize → u32 s →
     runs protocol_faulty (data_frames [control_response_packet (command_method c) s] ++ rest) o
       (control_recvresp c) (λ r i' o', r = Ok (0, s) ∧ i' = rest ∧ o' = o)).
Proof.
  intros Hsz Hfits Hrep Hexit Hfuel. rewrite Forall_forall in Hfits. split_and!.
  - intros c i o' Hc Hne. apply sendreq_runs; auto.
  - eapply runs_weaken; [apply rcpr_protocol_faulty|]. apply control_loop_runs; try done. by apply Forall_forall.
  - intros c s rest o' Hc Hne Hs. by apply recvresp_runs.
Qed.
End configured.
