(* ===== verification/Handshake.v ===== *)
(** * The handshake of the protocol service

    [protocolservice_protocol_handle_handshake.c] with the functions it calls, and
    the client functions [protocolservice_api_*_handshake_*_block.c].  The client
    names itself and sends two nonces; the service looks up its key, derives a
    short term secret, and answers with nonces of its own and a code of the whole
    under the secret; the client derives the same secret, checks the code, and
    both acknowledge with an authenticated packet.

    The entities and keys of the service do not change while a handshake runs. *)

From S2P Require Import Prelude Inet StatusCodes Lmdb RequestCodec Ipc AuthedIpc ClientApi NotificationCodec ProtocolService.

Definition UNAUTH_PROTOCOL_REQ_ID_HANDSHAKE_INITIATE : Z := 0x00000000.
Definition UNAUTH_PROTOCOL_REQ_ID_HANDSHAKE_ACKNOWLEDGE : Z := 0x00000001.

(** ** The libraries

    Authenticated packets on a psock: the initialization vector and the secret.  A
    null packet is [None]. *)
Class PSOCK_AUTHED (W : Type) := {
  psock_read_authed_data : Z → bytes → Act W (Z * option bytes);
  psock_write_authed_data : Z → bytes → bytes → Act W Z;
}.

(** The messages to the endpoint of the random service: a request for a number of
    bytes, and its answer. *)
Class RANDOM_ENDPOINT (W : Type) := {
  message_create : Act W Z;
  message_send : nat → Act W Z;
  message_receive : Act W (Z * bytes);
  resource_release : Act W Z;
}.

(** The code that the service takes from the suite, and the client from the options
    of [VCCRYPT_MAC_ALGORITHM_SHA_2_512_256_HMAC]: its size. *)
Class MAC_OPTIONS (W : Type) `{VS : VCCRYPT_SUITE W} := {
  vccrypt_suite_buffer_init_for_mac_authentication_code : Act W (Z * bytes);
  vccrypt_mac_options_init : Act W (Z * nat);
  vccrypt_mac_init : bytes → Act W (Z * mac_context);
}.

(** ** Data *)

(** The part of the structure that the handshake uses; [entity] is a pointer. *)
Record protocolservice_protocol_fiber_context := ProtocolFiberContext {
  pf_client_key_nonce : bytes; pf_client_challenge_nonce : bytes;
  pf_server_key_nonce : bytes; pf_server_challenge_nonce : bytes;
  pf_shared_secret : bytes; pf_client_iv : Z; pf_server_iv : Z;
  pf_entity_uuid : bytes; pf_entity : option nat }.

Definition set_client_hello (uuid key_nonce challenge_nonce : bytes)
    (c : protocolservice_protocol_fiber_context) : protocolservice_protocol_fiber_context :=
  ProtocolFiberContext key_nonce challenge_nonce (pf_server_key_nonce c) (pf_server_challenge_nonce c)
    (pf_shared_secret c) (pf_client_iv c) (pf_server_iv c) uuid (pf_entity c).
Definition set_entity (p : nat) (c : protocolservice_protocol_fiber_context)
  : protocolservice_protocol_fiber_context :=
  ProtocolFiberContext (pf_client_key_nonce c) (pf_client_challenge_nonce c) (pf_server_key_nonce c)
    (pf_server_challenge_nonce c) (pf_shared_secret c) (pf_client_iv c) (pf_server_iv c)
    (pf_entity_uuid c) (Some p).
Definition set_server_nonces (key_nonce challenge_nonce : bytes)
    (c : protocolservice_protocol_fiber_context) : protocolservice_protocol_fiber_context :=
  ProtocolFiberContext (pf_client_key_nonce c) (pf_client_challenge_nonce c) key_nonce challenge_nonce
    (pf_shared_secret c) (pf_client_iv c) (pf_server_iv c) (pf_entity_uuid c) (pf_entity c).
Definition set_secret (secret : bytes) (client_iv server_iv : Z)
    (c : protocolservice_protocol_fiber_context) : protocolservice_protocol_fiber_context :=
  ProtocolFiberContext (pf_client_key_nonce c) (pf_client_challenge_nonce c) (pf_server_key_nonce c)
    (pf_server_challenge_nonce c) secret client_iv server_iv (pf_entity_uuid c) (pf_entity c).
(** [++client_iv] and [++server_iv]. *)
Definition next_client_iv (c : protocolservice_protocol_fiber_context)
  : protocolservice_protocol_fiber_context :=
  set_secret (pf_shared_secret c) (wrap64 (pf_client_iv c + 1)) (pf_server_iv c) c.
Definition next_server_iv (c : protocolservice_protocol_fiber_context)
  : protocolservice_protocol_fiber_context :=
  set_secret (pf_shared_secret c) (pf_client_iv c) (wrap64 (pf_server_iv c + 1)) c.

(** ** The service *)

Section service.
Context {W : Type} {RB : RCPR_RBTREE W} {RA : RCPR_ALLOCATOR W} {PS : PSOCK W} {PA : PSOCK_AUTHED W}.
Context {VB : VCCRYPT_BUFFER W} {KB : KEY_BUFFERS W} {KA : KEY_AGREEMENT W} {VS : VCCRYPT_SUITE W}.
Context {MO : MAC_OPTIONS W} {RE : RANDOM_ENDPOINT W}.
(** The size of the structure of a random request. *)
Context (sizeof_random_request : nat).
(** The context of the service. *)
Context (pctx : protocolservice_context (W := W)).

Abbreviation fiber_context := protocolservice_protocol_fiber_context.

(** The functions return their status and the changed context. *)
Definition protocolservice_write_error_response (ctx : fiber_context) (request_id status offset : Z)
    (encrypted : bool) : Act W (Z * fiber_context) :=
  let payload := net32 (wrap32 request_id) ++ net32 (wrap32 status) ++ net32 offset in
  if encrypted then
    let! retval := psock_write_authed_data (pf_server_iv ctx) payload (pf_shared_secret ctx) in
    ret (retval, next_server_iv ctx)
  else let! retval := psock_write_boxed_data payload in ret (retval, ctx).

(** Respond with a failure and leave with [status], or with the failure to respond. *)
Definition reject (ctx : fiber_context) (request_id response status : Z) : Act W (Z * fiber_context) :=
  let! '(retval, ctx) := protocolservice_write_error_response ctx request_id response 0 false in
  ret (if retval =? 0 then status else retval, ctx).

Definition unauthorized (ctx : fiber_context) : Act W (Z * fiber_context) :=
  reject ctx UNAUTH_PROTOCOL_REQ_ID_HANDSHAKE_INITIATE
    AGENTD_ERROR_PROTOCOLSERVICE_UNAUTHORIZED AGENTD_ERROR_PROTOCOLSERVICE_UNAUTHORIZED.

Definition protocolservice_protocol_read_handshake_req (ctx : fiber_context)
  : Act W (Z * fiber_context) :=
  let! '(retval, req) := psock_read_boxed_data in
  if negb (retval =? 0) then ret (AGENTD_ERROR_PROTOCOLSERVICE_REQUEST_PACKET_BAD, ctx) else
  let malformed request_id :=
    reject ctx request_id AGENTD_ERROR_PROTOCOLSERVICE_MALFORMED_REQUEST
      AGENTD_ERROR_PROTOCOLSERVICE_MALFORMED_REQUEST in
  let key_nonce_size := length (pf_client_key_nonce ctx) in
  let challenge_nonce_size := length (pf_client_challenge_nonce ctx) in
  let! '(retval, ctx) :=
    if negb (length req =? 4 + 4 + 4 + 4 + 16 + key_nonce_size + challenge_nonce_size)%nat then malformed 0
    else if negb (UNAUTH_PROTOCOL_REQ_ID_HANDSHAKE_INITIATE =? ntohl (le_dec (sub 0 4 req))) then malformed 0
    else if negb (0 =? ntohl (le_dec (sub 4 4 req)))
    then malformed UNAUTH_PROTOCOL_REQ_ID_HANDSHAKE_INITIATE
    else if negb (1 =? ntohl (le_dec (sub 8 4 req)))
    then malformed UNAUTH_PROTOCOL_REQ_ID_HANDSHAKE_INITIATE
    else if negb (VCCRYPT_SUITE_VELO_V1 =? ntohl (le_dec (sub 12 4 req)))
    then malformed UNAUTH_PROTOCOL_REQ_ID_HANDSHAKE_INITIATE
    else
      ret (0, set_client_hello (sub 16 16 req)
                (sub 32 key_nonce_size req) (sub (32 + key_nonce_size) challenge_nonce_size req) ctx) in
  let! release_retval := rcpr_allocator_reclaim in
  ret (or_else release_retval retval, ctx).

Definition protocolservice_authorized_entity_lookup (ctx : fiber_context) : Act W (Z * fiber_context) :=
  let! entity := rbtree_find (pc_authorized_entity_dict pctx) (pf_entity_uuid ctx) in
  match entity with
  | Ok p => ret (0, set_entity p ctx)
  | Err _ => unauthorized ctx
  end.

(** The request message owns its payload, and the endpoint the message it was sent;
    the failure of a release is overwritten like the failure before it. *)
Definition protocolservice_read_random_bytes (ctx : fiber_context) : Act W (Z * fiber_context) :=
  let challenge_nonce_size := length (pf_server_challenge_nonce ctx) in
  let key_nonce_size := length (pf_server_key_nonce ctx) in
  let! '(retval, ctx) :=
    let! '(retval, _) := rcpr_allocator_allocate sizeof_random_request in
    if negb (retval =? 0) then ret (retval, ctx) else
    let! retval := message_create in
    if negb (retval =? 0) then let! _ := resource_release in ret (retval, ctx) else
    let! retval := message_send (challenge_nonce_size + key_nonce_size) in
    if negb (retval =? 0) then let! _ := resource_release in ret (retval, ctx) else
    let! '(retval, bdata) := message_receive in
    if negb (retval =? 0) then ret (retval, ctx) else
    let ctx := set_server_nonces (sub challenge_nonce_size key_nonce_size bdata)
                 (sub 0 challenge_nonce_size bdata) ctx in
    let! retval := resource_release in ret (retval, ctx) in
  if negb (retval =? 0) then
    reject ctx UNAUTH_PROTOCOL_REQ_ID_HANDSHAKE_INITIATE
      AGENTD_ERROR_PROTOCOLSERVICE_PRNG_REQUEST_FAILURE
      AGENTD_ERROR_PROTOCOLSERVICE_PRNG_REQUEST_FAILURE
  else ret (0, ctx).

(** The public key of the entity that the context points to. *)
Definition encryption_pubkey (ctx : fiber_context) : bytes :=
  match pf_entity ctx ≫= λ p, pc_heap pctx !! p with
  | Some e => ae_encryption_pubkey e
  | None => []
  end.

Definition protocolservice_compute_shared_secret (ctx : fiber_context) : Act W (Z * fiber_context) :=
  let! retval := vccrypt_suite_cipher_key_agreement_init in
  if negb (retval =? 0) then unauthorized ctx else
  let! '(retval, secret) :=
    vccrypt_key_agreement_short_term_secret_create (pc_agentd_enc_privkey pctx)
      (encryption_pubkey ctx) (pf_server_key_nonce ctx) (pf_client_key_nonce ctx) in
  if negb (retval =? 0) then unauthorized ctx else
  ret (0, set_secret secret 0x0000000000000001 0x8000000000000001 ctx).

(** What leads to the label [write_error_response], whatever the status. *)
Definition succeeds {A} (m : Act W (Z * A)) : Eff W A :=
  let! '(retval, a) := m in if negb (retval =? 0) then throw retval else ok a.

Definition protocolservice_protocol_write_handshake_req_resp (ctx : fiber_context)
  : Act W (Z * fiber_context) :=
  let fields :=
    [net32 UNAUTH_PROTOCOL_REQ_ID_HANDSHAKE_INITIATE; net32 0; net32 0; net32 1;
     net32 VCCRYPT_SUITE_VELO_V1; pc_agentd_uuid pctx; pc_agentd_enc_pubkey pctx;
     pf_server_key_nonce ctx; pf_server_challenge_nonce ctx] in
  let! r :=
    let* payload := succeeds (vccrypt_buffer_init (length (concat fields) + mac_size)) in
    let* mac := succeeds (vccrypt_suite_mac_short_init (pf_shared_secret ctx)) in
    let* _ := succeeds vccrypt_suite_buffer_init_for_mac_authentication_code in
    let* mac := succeeds (vccrypt_mac_digest mac (concat fields)) in
    let* mac := succeeds (vccrypt_mac_digest mac (pf_client_challenge_nonce ctx)) in
    let* mac_buffer := succeeds (vccrypt_mac_finalize mac) in
    let! retval := psock_write_boxed_data (write_seq 0 (fields ++ [mac_buffer]) payload) in
    if negb (retval =? 0) then throw retval else ok tt in
  match r with Ok _ => ret (0, ctx) | Err _ => unauthorized ctx end.

(** The payload of the packet is not looked at. *)
Definition protocolservice_protocol_read_handshake_ack_req (ctx : fiber_context)
  : Act W (Z * fiber_context) :=
  let! '(retval, req) := psock_read_authed_data (pf_client_iv ctx) (pf_shared_secret ctx) in
  let! '(retval, ctx) :=
    if negb (retval =? 0) then
      let! '(release_retval, ctx) :=
        protocolservice_write_error_response ctx 0 AGENTD_ERROR_PROTOCOLSERVICE_MALFORMED_REQUEST 0 true in
      ret (or_else release_retval AGENTD_ERROR_PROTOCOLSERVICE_MALFORMED_REQUEST, ctx)
    else ret (0, next_client_iv ctx) in
  match req with
  | Some _ =>
      let! release_retval := rcpr_allocator_reclaim in
      ret (if negb (retval =? 0) then release_retval else retval, ctx)
  | None => ret (retval, ctx)
  end.

Definition protocolservice_protocol_write_handshake_ack_resp (ctx : fiber_context)
  : Act W (Z * fiber_context) :=
  let payload := net32 UNAUTH_PROTOCOL_REQ_ID_HANDSHAKE_ACKNOWLEDGE
                 ++ net32 AGENTD_STATUS_SUCCESS ++ net32 0 in
  let! retval := psock_write_authed_data (pf_server_iv ctx) payload (pf_shared_secret ctx) in
  if negb (retval =? 0) then
    let! '(release_retval, ctx) :=
      protocolservice_write_error_response ctx UNAUTH_PROTOCOL_REQ_ID_HANDSHAKE_ACKNOWLEDGE retval 0 true in
    ret (or_else release_retval retval, ctx)
  else ret (0, next_server_iv ctx).

(** A step after a step that succeeded. *)
Definition and_then (m : Act W (Z * fiber_context)) (k : fiber_context → Act W (Z * fiber_context))
  : Act W (Z * fiber_context) :=
  let! '(retval, ctx) := m in if negb (retval =? 0) then ret (retval, ctx) else k ctx.

Definition protocolservice_protocol_handle_handshake (ctx : fiber_context) : Act W (Z * fiber_context) :=
  if negb (pc_private_key_set pctx) then ret (AGENTD_ERROR_PROTOCOLSERVICE_MISSING_PRIVATE_KEY, ctx) else
  and_then (protocolservice_protocol_read_handshake_req ctx) (λ ctx,
  and_then (protocolservice_authorized_entity_lookup ctx) (λ ctx,
  and_then (protocolservice_read_random_bytes ctx) (λ ctx,
  and_then (protocolservice_compute_shared_secret ctx) (λ ctx,
  and_then (protocolservice_protocol_write_handshake_req_resp ctx) (λ ctx,
  and_then (protocolservice_protocol_read_handshake_ack_req ctx)
    protocolservice_protocol_write_handshake_ack_resp))))).
End service.

(** ** The client *)

Section client.
Context {W : Type} {M : MALLOC W} {IO : POSIX_IO W}.
Context {VB : VCCRYPT_BUFFER W} {KB : KEY_BUFFERS W} {KA : KEY_AGREEMENT W} {VS : VCCRYPT_SUITE W}.
Context {MO : MAC_OPTIONS W}.

(** The nonces. *)
Definition protocolservice_api_sendreq_handshake_request_block (entity_id : bytes)
  : Eff W (bytes * bytes) :=
  let! retval := vccrypt_suite_prng_init in
  if negb (retval =? 0) then throw retval else
  let* key_nonce := succeeds vccrypt_suite_buffer_init_for_cipher_key_agreement_nonce in
  let* key_nonce := succeeds (vccrypt_prng_read (length key_nonce)) in
  let* challenge_nonce := succeeds vccrypt_suite_buffer_init_for_cipher_key_agreement_nonce in
  let* challenge_nonce := succeeds (vccrypt_prng_read (length challenge_nonce)) in
  let fields :=
    [net32 UNAUTH_PROTOCOL_REQ_ID_HANDSHAKE_INITIATE; net32 0; net32 1; net32 VCCRYPT_SUITE_VELO_V1;
     take 16 entity_id; key_nonce; challenge_nonce] in
  let* payload := succeeds (vccrypt_buffer_init (4 + 4 + 4 + 4 + 16 + length key_nonce + length challenge_nonce)) in
  let payload := write_seq 0 fields payload in
  let* _ := ipc_write_data_block (take (Z.to_nat (wrap32 (sizeof payload))) payload) in
  ok (key_nonce, challenge_nonce).

Record handshake_response := HandshakeResponse {
  hr_server_id : bytes; hr_server_public_key : bytes; hr_server_challenge_nonce : bytes;
  hr_shared_secret : bytes; hr_offset : Z; hr_status : Z }.

(** A buffer filled from an offset of the packet. *)
Definition filled (m : Act W (Z * bytes)) (off : nat) (val : bytes) : Eff W bytes :=
  let* b := succeeds m in ok (splice 0 (sub off (length b) val) b).

(** The offsets of the fields are constants, for keys and nonces of 32 bytes. *)
Definition protocolservice_api_recvresp_handshake_request_block
    (client_private_key client_key_nonce client_challenge_nonce : bytes) : Eff W handshake_response :=
  let* val := ipc_read_data_block in
  if (length val <? 12)%nat then throw AGENTD_ERROR_PROTOCOLSERVICE_MALFORMED_RESPONSE else
  let status := ntohl (le_dec (sub 4 4 val)) in
  let offset := ntohl (le_dec (sub 8 4 val)) in
  if negb (status =? AGENTD_STATUS_SUCCESS) then throw status else
  let* options_mac_size := succeeds vccrypt_mac_options_init in
  let payload_size := (4 + 4 + 4 + 4 + 4 + 16 + key_cipher_public_key_size + nonce_size + nonce_size
                       + options_mac_size)%nat in
  if negb (length val =? payload_size)%nat then throw AGENTD_ERROR_PROTOCOLSERVICE_MALFORMED_RESPONSE else
  if negb (1 =? ntohl (le_dec (sub 12 4 val))) then throw AGENTD_ERROR_PROTOCOLSERVICE_MALFORMED_RESPONSE else
  if negb (VCCRYPT_SUITE_VELO_V1 =? ntohl (le_dec (sub 16 4 val)))
  then throw AGENTD_ERROR_PROTOCOLSERVICE_MALFORMED_RESPONSE else
  let* server_id := filled (vccrypt_buffer_init 16) 20 val in
  let* server_public_key := filled vccrypt_suite_buffer_init_for_cipher_key_agreement_public_key 36 val in
  let* server_key_nonce := filled vccrypt_suite_buffer_init_for_cipher_key_agreement_nonce 68 val in
  let* server_challenge_nonce := filled vccrypt_suite_buffer_init_for_cipher_key_agreement_nonce 100 val in
  let* _ := succeeds vccrypt_suite_buffer_init_for_cipher_key_agreement_shared_secret in
  let! retval := vccrypt_suite_cipher_key_agreement_init in
  if negb (retval =? 0) then throw retval else
  let* shared_secret :=
    succeeds (vccrypt_key_agreement_short_term_secret_create client_private_key server_public_key
                server_key_nonce client_key_nonce) in
  let* mac := succeeds (vccrypt_mac_init shared_secret) in
  let* mac := succeeds (vccrypt_mac_digest mac (take (payload_size - options_mac_size) val)) in
  let* mac := succeeds (vccrypt_mac_digest mac client_challenge_nonce) in
  let* _ := succeeds (vccrypt_buffer_init options_mac_size) in
  let* mac_buffer := succeeds (vccrypt_mac_finalize mac) in
  if negb (crypto_memcmp mac_buffer (drop (payload_size - options_mac_size) val) =? 0)
  then throw AGENTD_ERROR_PROTOCOLSERVICE_MALFORMED_RESPONSE
  else ok (HandshakeResponse server_id server_public_key server_challenge_nonce shared_secret offset status).

(** The vector of the next packet of the client. *)
Definition protocolservice_api_sendreq_handshake_ack_block (shared_secret server_challenge_nonce : bytes)
  : Eff W Z :=
  let! '(retval, _) := vccrypt_buffer_init mac_size in
  if negb (retval =? 0) then throw AGENTD_ERROR_GENERAL_OUT_OF_MEMORY else
  let* mac := succeeds (vccrypt_suite_mac_short_init shared_secret) in
  let* mac := succeeds (vccrypt_mac_digest mac server_challenge_nonce) in
  let* digest := succeeds (vccrypt_mac_finalize mac) in
  let client_iv := 0x0000000000000001 in
  let* _ := ipc_write_authed_data_block client_iv digest shared_secret in
  ok (wrap64 (client_iv + 1)).

(** The vector of the next packet of the service, the offset and the status. *)
Definition protocolservice_api_recvresp_handshake_ack_block (shared_secret : bytes)
  : Eff W (Z * Z * Z) :=
  let server_iv := 0x8000000000000001 in
  let* val := ipc_read_authed_data_block server_iv shared_secret in
  if negb (length val =? 12)%nat then throw AGENTD_ERROR_IPC_READ_UNEXPECTED_DATA_SIZE else
  if negb (UNAUTH_PROTOCOL_REQ_ID_HANDSHAKE_ACKNOWLEDGE =? ntohl (le_dec (sub 0 4 val)))
  then throw AGENTD_ERROR_IPC_READ_UNEXPECTED_DATA_TYPE else
  ok (wrap64 (server_iv + 1), ntohl (le_dec (sub 8 4 val)), ntohl (le_dec (sub 4 4 val))).
End client.
