(* ===== verification/HandshakeLaws.v ===== *)
(** * What the handshake relies on

    The packets of the handshake, the laws of the libraries that it uses, and the rules
    for their calls in the logic of [ProtocolSpec]. *)

From S2P Require Import Prelude Inet StatusCodes Lmdb RequestCodec Ipc IpcSpec AuthedIpc AuthedSpec ClientApi NotificationCodec ProtocolService ProtocolSpec Handshake.

(** ** The packets *)

Record hello := Hello { he_entity : bytes; he_key_nonce : bytes; he_challenge : bytes }.
Record answer := Answer { an_server : bytes; an_pubkey : bytes; an_key_nonce : bytes; an_challenge : bytes }.

Section packets.
Context {W : Type} {KB : KEY_BUFFERS W} {KA : KEY_AGREEMENT W}.

Definition hello_packet (h : hello) : bytes :=
  be_enc 4 UNAUTH_PROTOCOL_REQ_ID_HANDSHAKE_INITIATE ++ be_enc 4 0 ++ be_enc 4 1
  ++ be_enc 4 VCCRYPT_SUITE_VELO_V1 ++ he_entity h ++ he_key_nonce h ++ he_challenge h.

Definition answer_fields (a : answer) : bytes :=
  be_enc 4 UNAUTH_PROTOCOL_REQ_ID_HANDSHAKE_INITIATE ++ be_enc 4 0 ++ be_enc 4 0 ++ be_enc 4 1
  ++ be_enc 4 VCCRYPT_SUITE_VELO_V1 ++ an_server a ++ an_pubkey a ++ an_key_nonce a ++ an_challenge a.

(** The acknowledgement of the service. *)
Definition ack_packet : bytes :=
  be_enc 4 UNAUTH_PROTOCOL_REQ_ID_HANDSHAKE_ACKNOWLEDGE ++ be_enc 4 AGENTD_STATUS_SUCCESS ++ be_enc 4 0.

Definition hello_fits (h : hello) : Prop :=
  length (he_entity h) = 16%nat ∧ length (he_key_nonce h) = nonce_size ∧ length (he_challenge h) = nonce_size.

Definition answer_fits (a : answer) : Prop :=
  length (an_server a) = 16%nat ∧ length (an_pubkey a) = key_cipher_public_key_size ∧
  length (an_key_nonce a) = nonce_size ∧ length (an_challenge a) = nonce_size.
End packets.

(** ** The libraries *)

(** What a call is worth: it leaves the streams alone, it does not fail when [R], and
    what it gives satisfies [P]. *)
Section calls.
Context {W : Type} {M : MALLOC W} {IO : POSIX_IO W} {IOL : POSIX_IO_laws W}.

Record gives {A} (R : Prop) (m : Act W (Z * A)) (P : A → Prop) : Prop := {
  gives_still : still m;
  gives_sure : R → ∀ w, (m w).1.1 = 0;
  gives_good : ∀ w a w', m w = ((0, a), w') → P a;
}.

Record works (R : Prop) (m : Act W Z) : Prop := {
  works_still : still m;
  works_sure : R → ∀ w, (m w).1 = 0;
}.

Lemma runs_gives {A B} (R : Prop) i o (m : Act W (Z * A)) (k : Z * A → Act W B) (P : A → Prop) Q :
  gives R m P →
  (∀ a, P a → runs False i o (k (0, a)) Q) →
  (∀ rc a, rc ≠ 0 → (R → False) → runs False i o (k (rc, a)) Q) →
  runs False i o (act m k) Q.
Proof.
  intros [Hs Hr HP] Hk Hf.
  eapply (runs_still _ _ _ _ (λ x, (x.1 = 0 → P x.2) ∧ (x.1 ≠ 0 → R → False))); [done| |].
  - intros w. right. specialize (HP w). split; [|by intros Hne HR; apply Hne, Hr].
    destruct (m w) as [[rc a] w']. simpl. intros ->. by eapply HP.
  - intros [rc a] [H0 Hne]. simpl in *. destruct (decide (rc = 0)) as [->|]; auto.
Qed.

Lemma runs_works {B} (R : Prop) i o (m : Act W Z) (k : Z → Act W B) Q :
  works R m →
  runs False i o (k 0) Q →
  (∀ rc, rc ≠ 0 → (R → False) → runs False i o (k rc) Q) →
  runs False i o (act m k) Q.
Proof.
  intros [Hs Hr] Hk Hf.
  eapply (runs_still _ _ _ _ (λ rc, rc ≠ 0 → R → False)); [done| |].
  - intros w. right. intros Hne HR. by apply Hne, Hr.
  - intros rc Hne. destruct (decide (rc = 0)) as [->|]; auto.
Qed.

(** The same for a call whose failure is passed on. *)
Lemma runs_succeeds {A B} (R : Prop) i o (m : Act W (Z * A)) (k : A → Eff W B) (P : A → Prop) Q :
  gives R m P →
  (∀ a, P a → runs False i o (k a) Q) →
  (∀ s, (R → False) → Q (Err s) i o) →
  runs False i o (bind (succeeds m) k) Q.
Proof.
  intros Hm Hk Hf.
  eapply (runs_bind _ _ _ _ (λ r i' o', i' = i ∧ o' = o ∧ match r with Ok a => P a | Err _ => R → False end)).
  - unfold succeeds. eapply runs_gives; [exact Hm|..].
    + intros a Ha. cbn [negb Z.eqb]. by apply runs_ret.
    + intros rc a Hne HR. rewrite (proj2 (Z.eqb_neq _ _)) by done. cbn [negb]. by apply runs_ret.
  - intros a i' o' (->&->&Ha). by apply Hk.
  - intros s i' o' (->&->&Hs). by apply Hf.
Qed.

(** A buffer that is filled from a packet. *)
Lemma runs_filled {B} (R : Prop) i o (m : Act W (Z * bytes)) off n val (k : bytes → Eff W B) Q :
  gives R m (λ b, length b = n) → (off + n ≤ length val)%nat →
  runs False i o (k (sub off n val)) Q →
  (∀ s, (R → False) → Q (Err s) i o) →
  runs False i o (bind (filled m off val) k) Q.
Proof.
  intros Hm Hl Hk Hf.
  eapply (runs_bind _ _ _ _ (λ r i' o', i' = i ∧ o' = o ∧
    match r with Ok b => b = sub off n val | Err _ => R → False end)).
  - unfold filled. eapply runs_succeeds; [exact Hm| |done].
    intros b <-. apply runs_ret. rewrite splice_whole; [done|]. by apply length_sub.
  - by intros b i' o' (->&->&->).
  - intros s i' o' (->&->&Hs). by apply Hf.
Qed.

(** A step that ends the sequence when it fails. *)
Lemma runs_and_then i o (m : Act W (Z * protocolservice_protocol_fiber_context)) k P Q :
  runs False i o m P →
  (∀ rc c i' o', P (rc, c) i' o' → rc ≠ 0 → Q (rc, c) i' o') →
  (∀ c i' o', P (0, c) i' o' → runs False i' o' (k c) Q) →
  runs False i o (and_then m k) Q.
Proof.
  intros Hm Hf Hk. unfold and_then. eapply runs_act; [exact Hm|]. intros [rc c] i' o' HP.
  destruct (Z.eqb_spec rc 0) as [->|Hne]; cbn [negb]; [by apply Hk|]. by apply runs_ret, Hf.
Qed.
End calls.

(** The service's authenticated packets are those of [AuthedSpec].  The random service
    answers with as many bytes as it was asked for.  Key agreement gives both sides
    the same secret, and the code of the client's options is that of the suite. *)
Class HANDSHAKE_laws (W : Type) `{RL : RCPR_laws W} `{VS : VCCRYPT_SUITE W}
    {VSL : VCCRYPT_SUITE_laws (λ w : W, (rx w, tx w))} {PA : PSOCK_AUTHED W} {RE : RANDOM_ENDPOINT W}
    {KB : KEY_BUFFERS W} {KA : KEY_AGREEMENT W} {MO : MAC_OPTIONS W} := {
  law_authed_read : ∀ iv k w d w', psock_read_authed_data iv k w = ((0, d), w') →
    ∃ p, d = Some p ∧ sizeof p ≤ size_limit ∧ rx w = authed_packet k (le_enc 8 iv) p ++ rx w' ∧ tx w' = tx w;
  law_authed_read_failed : ∀ iv k w rc d w', psock_read_authed_data iv k w = ((rc, d), w') → rc ≠ 0 →
    d = None ∧ tx w' = tx w;
  law_authed_write : ∀ iv d k w w', psock_write_authed_data iv d k w = (0, w') →
    rx w' = rx w ∧ tx w' = tx w ++ authed_packet k (le_enc 8 iv) d;
  (** A failure may leave a part of the packet behind. *)
  law_authed_append : ∀ iv d k w rc w', psock_write_authed_data iv d k w = (rc, w') → tx w `prefix_of` tx w';
  law_boxed_append : ∀ d w rc w', psock_write_boxed_data d w = (rc, w') → tx w `prefix_of` tx w';
  law_random : ∀ n w w1 b w2, message_send n w = (0, w1) → message_receive w1 = ((0, b), w2) → length b = n;
  law_still_message : still message_create ∧ (∀ n, still (message_send n)) ∧ still message_receive ∧ still resource_release;
  (** The sizes of the suite. *)
  law_sizes : key_cipher_public_key_size = 32%nat ∧ nonce_size = 32%nat ∧ u32 VCCRYPT_SUITE_VELO_V1 ∧
    0 < Z.of_nat mac_size < 2 ^ 20;
  short_secret : bytes → bytes → bytes → bytes → bytes;
  key_pair : bytes → bytes → Prop;
  law_agreement : ∀ a pa b pb s c, key_pair a pa → key_pair b pb →
    short_secret a pb s c = short_secret b pa s c;
  law_secret : ∀ a p s c w k w', vccrypt_key_agreement_short_term_secret_create a p s c w = ((0, k), w') →
    k = short_secret a p s c;
  law_mac_options : ∀ w n w', vccrypt_mac_options_init w = ((0, n), w') → n = mac_size;
  law_mac_options_init : ∀ k w c w', vccrypt_mac_init k w = ((0, c), w') → mac_is k [] c;
  law_prng : ∀ n w b w', vccrypt_prng_read n w = ((0, b), w') → length b = n;
  law_nonce_buffer : ∀ w b w', vccrypt_suite_buffer_init_for_cipher_key_agreement_nonce w = ((0, b), w') →
    length b = nonce_size;
  law_pubkey_buffer : ∀ w b w',
    vccrypt_suite_buffer_init_for_cipher_key_agreement_public_key w = ((0, b), w') →
    length b = key_cipher_public_key_size;
  law_still_keys : still vccrypt_suite_cipher_key_agreement_init ∧ still vccrypt_suite_prng_init ∧
    still vccrypt_suite_buffer_init_for_cipher_key_agreement_nonce ∧
    still vccrypt_suite_buffer_init_for_cipher_key_agreement_public_key ∧
    still vccrypt_suite_buffer_init_for_cipher_key_agreement_shared_secret ∧
    still vccrypt_suite_buffer_init_for_mac_authentication_code ∧
    (∀ a p s c, still (vccrypt_key_agreement_short_term_secret_create a p s c)) ∧
    (∀ n, still (vccrypt_prng_read n));
  law_still_options : still vccrypt_mac_options_init ∧ ∀ k, still (vccrypt_mac_init k);
}.

(** Nothing fails for a reason outside the program. *)
Record HANDSHAKE_reliable (W : Type) `{HL : HANDSHAKE_laws W} : Prop := {
  reliable_io : IO_reliable W;
  reliable_rcpr : RCPR_reliable W;
  reliable_suite : ∀ k, suite_reliable (λ w : W, (rx w, tx w)) k;
  reliable_authed_read : ∀ iv k d rest w, 0 < sizeof d ≤ size_limit →
    rx w = authed_packet k (le_enc 8 iv) d ++ rest → (psock_read_authed_data iv k w).1.1 = 0;
  reliable_authed_write : ∀ iv d k w, (psock_write_authed_data iv d k w).1 = 0;
  reliable_message : ∀ w, (message_create w).1 = 0 ∧ (∀ n, (message_send n w).1 = 0) ∧
    (message_receive w).1.1 = 0 ∧ (resource_release w).1 = 0;
  reliable_keys : ∀ w, (vccrypt_suite_cipher_key_agreement_init w).1 = 0 ∧
    (vccrypt_suite_prng_init w).1 = 0 ∧
    (vccrypt_suite_buffer_init_for_cipher_key_agreement_nonce w).1.1 = 0 ∧
    (vccrypt_suite_buffer_init_for_cipher_key_agreement_public_key w).1.1 = 0 ∧
    (vccrypt_suite_buffer_init_for_cipher_key_agreement_shared_secret w).1.1 = 0 ∧
    (vccrypt_suite_buffer_init_for_mac_authentication_code w).1.1 = 0 ∧
    (∀ a p s c, (vccrypt_key_agreement_short_term_secret_create a p s c w).1.1 = 0) ∧
    (∀ n, (vccrypt_prng_read n w).1.1 = 0);
  reliable_options : ∀ w, (vccrypt_mac_options_init w).1.1 = 0 ∧ (∀ k, (vccrypt_mac_init k w).1.1 = 0);
}.

Section library.
Context {W : Type} {M : MALLOC W} {IO : POSIX_IO W} {IOL : POSIX_IO_laws W}.
Context {PS : PSOCK W} {RA : RCPR_ALLOCATOR W} {VB : VCCRYPT_BUFFER W} {RB : RCPR_RBTREE W}.
Context {RL : RCPR_laws W} {VS : VCCRYPT_SUITE W} {VSL : VCCRYPT_SUITE_laws (λ w : W, (rx w, tx w))}.
Context {PA : PSOCK_AUTHED W} {RE : RANDOM_ENDPOINT W} {KB : KEY_BUFFERS W} {KA : KEY_AGREEMENT W}.
Context {MO : MAC_OPTIONS W} {HL : HANDSHAKE_laws W}.

Abbreviation R := (HANDSHAKE_reliable W).

Abbreviation streams := (λ w : W, (rx w, tx w)).

Lemma view_still {A} (m : Act W A) : (∀ w, (rx (m w).2, tx (m w).2) = (rx w, tx w)) → still m.
Proof. intros H w. by injection (H w). Qed.

(** The calls of the handshake. *)
Lemma gives_buffer n : gives R (vccrypt_buffer_init n) (λ b, length b = n).
Proof.
  split; [eauto with still| |apply law_buffer_size].
  intros HR w. apply (reliable_buffer_init _ (reliable_rcpr _ HR)).
Qed.
Lemma gives_allocate n : gives R (rcpr_allocator_allocate n) (λ _, True).
Proof. split; [eauto with still|intros HR w; apply (reliable_allocate _ (reliable_rcpr _ HR))|done]. Qed.
Lemma gives_short_mac k : gives R (vccrypt_suite_mac_short_init k) (mac_is k []).
Proof.
  split; [apply view_still, (law_view_mac_init (view := streams))| |apply law_mac_init].
  intros HR w. apply (reliable_mac_init _ _ (reliable_suite _ HR k)).
Qed.
Lemma gives_options_mac k : gives R (vccrypt_mac_init k) (mac_is k []).
Proof.
  split; [apply law_still_options|intros HR w; by apply (reliable_options _ HR w)|apply law_mac_options_init].
Qed.
Lemma gives_digest k a c b : mac_is k a c → gives R (vccrypt_mac_digest c b) (mac_is k (a ++ b)).
Proof.
  intros [<- <-]. split; [apply view_still, (law_view_digest (view := streams))| |apply law_mac_digest].
  intros HR w. apply (reliable_digest _ _ (reliable_suite _ HR (mac_key c))).
Qed.
Lemma gives_finalize k a c : mac_is k a c → gives R (vccrypt_mac_finalize c) (λ d, d = mac_of k a).
Proof.
  intros [<- <-]. split; [apply view_still, (law_view_finalize (view := streams))| |apply law_mac_finalize].
  intros HR w. apply (reliable_finalize _ _ (reliable_suite _ HR (mac_key c))).
Qed.
Lemma gives_mac_options : gives R vccrypt_mac_options_init (λ n, n = mac_size).
Proof.
  split; [apply law_still_options|intros HR w; by apply (reliable_options _ HR w)|apply law_mac_options].
Qed.
Lemma gives_mac_buffer : gives R vccrypt_suite_buffer_init_for_mac_authentication_code (λ _, True).
Proof. split; [apply law_still_keys|intros HR w; by apply (reliable_keys _ HR w)|done]. Qed.
Lemma gives_secret_buffer :
  gives R vccrypt_suite_buffer_init_for_cipher_key_agreement_shared_secret (λ _, True).
Proof. split; [apply law_still_keys|intros HR w; by apply (reliable_keys _ HR w)|done]. Qed.
Lemma gives_nonce_buffer :
  gives R vccrypt_suite_buffer_init_for_cipher_key_agreement_nonce (λ b, length b = nonce_size).
Proof. split; [apply law_still_keys|intros HR w; by apply (reliable_keys _ HR w)|apply law_nonce_buffer]. Qed.
Lemma gives_pubkey_buffer :
  gives R vccrypt_suite_buffer_init_for_cipher_key_agreement_public_key
    (λ b, length b = key_cipher_public_key_size).
Proof. split; [apply law_still_keys|intros HR w; by apply (reliable_keys _ HR w)|apply law_pubkey_buffer]. Qed.
Lemma gives_secret a p s c :
  gives R (vccrypt_key_agreement_short_term_secret_create a p s c) (λ k, k = short_secret a p s c).
Proof. split; [apply law_still_keys|intros HR w; by apply (reliable_keys _ HR w)|apply law_secret]. Qed.
Lemma gives_prng n : gives R (vccrypt_prng_read n) (λ b, length b = n).
Proof. split; [apply law_still_keys|intros HR w; by apply (reliable_keys _ HR w)|apply law_prng]. Qed.

Lemma works_agreement : works R vccrypt_suite_cipher_key_agreement_init.
Proof. split; [apply law_still_keys|intros HR w; by apply (reliable_keys _ HR w)]. Qed.
Lemma works_prng : works R vccrypt_suite_prng_init.
Proof. split; [apply law_still_keys|intros HR w; by apply (reliable_keys _ HR w)]. Qed.
Lemma works_reclaim : works R rcpr_allocator_reclaim.
Proof. split; [eauto with still|intros HR w; apply (reliable_reclaim _ (reliable_rcpr _ HR))]. Qed.
Lemma works_message : works R message_create.
Proof. split; [apply law_still_message|intros HR w; apply (reliable_message _ HR w)]. Qed.
Lemma works_release : works R resource_release.
Proof. split; [apply law_still_message|intros HR w; apply (reliable_message _ HR w)]. Qed.
End library.

Create HintDb handshake.
#[export] Hint Resolve gives_buffer gives_allocate gives_short_mac gives_options_mac gives_digest gives_finalize
  gives_mac_options gives_mac_buffer gives_secret_buffer gives_nonce_buffer gives_pubkey_buffer gives_secret
  gives_prng works_agreement works_prng works_reclaim works_message works_release : handshake.

(** One call of a library. *)
Ltac handshake_call :=
  first [eapply runs_succeeds | eapply runs_gives | eapply runs_works]; [by eauto with handshake|..].

(** ** Packets and messages *)

Section streams.
Context {W : Type} {M : MALLOC W} {IO : POSIX_IO W} {IOL : POSIX_IO_laws W}.
Context {PS : PSOCK W} {RA : RCPR_ALLOCATOR W} {VB : VCCRYPT_BUFFER W} {RB : RCPR_RBTREE W}.
Context {RL : RCPR_laws W} {VS : VCCRYPT_SUITE W} {VSL : VCCRYPT_SUITE_laws (λ w : W, (rx w, tx w))}.
Context {PA : PSOCK_AUTHED W} {RE : RANDOM_ENDPOINT W} {KB : KEY_BUFFERS W} {KA : KEY_AGREEMENT W}.
Context {MO : MAC_OPTIONS W} {HL : HANDSHAKE_laws W}.

Abbreviation R := (HANDSHAKE_reliable W).

Lemma runs_boxed_read {B} i o (k : Z * bytes → Act W B) Q :
  (∀ d i', good_packet d → i = frame (msg_data d) ++ i' → runs False i' o (k (0, d)) Q) →
  (∀ rc d i', rc ≠ 0 → (R → ∀ d rest, good_packet d → i ≠ frame (msg_data d) ++ rest) →
     runs False i' o (k (rc, d)) Q) →
  runs False i o (act psock_read_boxed_data k) Q.
Proof.
  intros Hok Hf w <- <-. apply post_act, post_run.
  destruct (psock_read_boxed_data w) as [[rc d] w'] eqn:E. simpl. destruct (decide (rc = 0)) as [->|Hne].
  - apply law_boxed_read in E as (Hd&Hr&Ht). by apply (Hok d (rx w')).
  - apply (Hf rc d (rx w') Hne); [|done|by eapply law_boxed_read_failed].
    intros HR d' rest Hd' Hr. apply Hne. pose proof (reliable_boxed_read _ (reliable_rcpr _ HR) d' rest w Hd' Hr) as H.
    by rewrite E in H.
Qed.

Lemma runs_boxed_write {B} i o d (k : Z → Act W B) Q :
  runs False i (o ++ frame (msg_data d)) (k 0) Q →
  (∀ rc i' o', rc ≠ 0 → (R → False) → o `prefix_of` o' → runs False i' o' (k rc) Q) →
  runs False i o (act (psock_write_boxed_data d) k) Q.
Proof.
  intros Hok Hf w <- <-. apply post_act, post_run.
  destruct (psock_write_boxed_data d w) as [rc w'] eqn:E. simpl. destruct (decide (rc = 0)) as [->|Hne].
  - apply law_boxed_write in E as [Hr Ht]. by apply Hok.
  - apply (Hf rc (rx w') (tx w') Hne); [|by eapply law_boxed_append|done..].
    intros HR. apply Hne. pose proof (reliable_boxed_write _ (reliable_rcpr _ HR) d w) as H. by rewrite E in H.
Qed.

Lemma runs_authed_read {B} i o iv s (k : Z * option bytes → Act W B) Q :
  (∀ d i', sizeof d ≤ size_limit → i = authed_packet s (le_enc 8 iv) d ++ i' → runs False i' o (k (0, Some d)) Q) →
  (∀ rc i', rc ≠ 0 →
     (R → ∀ d rest, 0 < sizeof d ≤ size_limit → i ≠ authed_packet s (le_enc 8 iv) d ++ rest) →
     runs False i' o (k (rc, None)) Q) →
  runs False i o (act (psock_read_authed_data iv s) k) Q.
Proof.
  intros Hok Hf w <- <-. apply post_act, post_run.
  destruct (psock_read_authed_data iv s w) as [[rc d] w'] eqn:E. simpl. destruct (decide (rc = 0)) as [->|Hne].
  - apply law_authed_read in E as (p&->&Hp&Hr&Ht). by apply (Hok p (rx w')).
  - pose proof (law_authed_read_failed _ _ _ _ _ _ E Hne) as [-> Ht].
    apply (Hf rc (rx w') Hne); [|done|done].
    intros HR d' rest Hd' Hr. apply Hne. pose proof (reliable_authed_read _ HR iv s d' rest w Hd' Hr) as H.
    by rewrite E in H.
Qed.

Lemma runs_authed_write {B} i o iv d s (k : Z → Act W B) Q :
  runs False i (o ++ authed_packet s (le_enc 8 iv) d) (k 0) Q →
  (∀ rc i' o', rc ≠ 0 → (R → False) → o `prefix_of` o' → runs False i' o' (k rc) Q) →
  runs False i o (act (psock_write_authed_data iv d s) k) Q.
Proof.
  intros Hok Hf w <- <-. apply post_act, post_run.
  destruct (psock_write_authed_data iv d s w) as [rc w'] eqn:E. simpl. destruct (decide (rc = 0)) as [->|Hne].
  - apply law_authed_write in E as [Hr Ht]. by apply Hok.
  - apply (Hf rc (rx w') (tx w') Hne); [|by eapply law_authed_append|done..].
    intros HR. apply Hne. pose proof (reliable_authed_write _ HR iv d s w) as H. by rewrite E in H.
Qed.

(** A request to the random service and its answer. *)
Lemma runs_random {B} i o n (g : Z → Act W B) (k : Z * bytes → Act W B) Q :
  (∀ b, length b = n → runs False i o (k (0, b)) Q) →
  (∀ rc b, rc ≠ 0 → (R → False) → runs False i o (k (rc, b)) Q) →
  (∀ rc, rc ≠ 0 → (R → False) → runs False i o (g rc) Q) →
  runs False i o (act (message_send n) (λ rc, if negb (rc =? 0) then g rc else act message_receive k)) Q.
Proof.
  intros Hok Hf Hg w <- <-. destruct law_still_message as (_&Hs&Hr&_).
  apply post_act, post_run. destruct (Hs n w) as [Hi Ho].
  destruct (message_send n w) as [rc w1] eqn:E. simpl in *.
  apply post_if; intros Hrc.
  - assert (rc ≠ 0) as Hne by (intros ->; done).
    apply (Hg rc Hne); [|done|done]. intros HR. apply Hne.
    destruct (reliable_message _ HR w) as (_&H&_). specialize (H n). by rewrite E in H.
  - rewrite negb_false_iff, Z.eqb_eq in Hrc. subst rc.
    apply post_act, post_run. destruct (Hr w1) as [Hi1 Ho1].
    destruct (message_receive w1) as [[rc b] w2] eqn:E2. simpl in *. destruct (decide (rc = 0)) as [->|Hne].
    + apply (Hok b); [by eapply law_random|congruence..].
    + apply (Hf rc b Hne); [|congruence..]. intros HR. apply Hne.
      destruct (reliable_message _ HR w1) as (_&_&H&_). by rewrite E2 in H.
Qed.
End streams.
