(* ===== verification/HandshakeServer.v ===== *)
(** * The service's side of the handshake

    What the service does when a peer starts a handshake ([server_runs]): whatever the
    peer sends, the handshake succeeds only if the peer named a registered entity and
    answered with a packet under the secret that is derived from the key of this
    entity ([handshake_authenticates]). *)

From S2P Require Import Prelude Inet StatusCodes Lmdb RequestCodec Ipc IpcSpec AuthedIpc AuthedSpec ClientApi NotificationCodec ProtocolService ProtocolSpec ProtocolControlSpec Handshake HandshakeLaws.

(** ** Reading packets *)

Section words.
Context {W : Type} {KB : KEY_BUFFERS W} {KA : KEY_AGREEMENT W}.

Lemma word_at off v d :
  (off + 4 ≤ length d)%nat → v = ntohl (le_dec (sub off 4 d)) → sub off 4 d = be_enc 4 v.
Proof.
  intros Hl ->. assert (length (sub off 4 d) = 4%nat) as H by (by apply length_sub).
  by rewrite ntohl_le_dec, be_enc_dec_length.
Qed.

(** A packet with the right words is the greeting of what it holds. *)
Lemma hello_of_words n d :
  u32 VCCRYPT_SUITE_VELO_V1 → length d = (4 + 4 + 4 + 4 + 16 + n + n)%nat →
  UNAUTH_PROTOCOL_REQ_ID_HANDSHAKE_INITIATE = ntohl (le_dec (sub 0 4 d)) →
  0 = ntohl (le_dec (sub 4 4 d)) → 1 = ntohl (le_dec (sub 8 4 d)) →
  VCCRYPT_SUITE_VELO_V1 = ntohl (le_dec (sub 12 4 d)) →
  d = hello_packet (Hello (sub 16 16 d) (sub 32 n d) (sub (32 + n) n d)).
Proof.
  intros Hv Hl H0 H4 H8 H12. unfold hello_packet. cbn [he_entity he_key_nonce he_challenge].
  rewrite <- (word_at 0 _ d), <- (word_at 4 _ d), <- (word_at 8 _ d), <- (word_at 12 _ d) by (done || lia).
  assert (∀ off m off', off' = (off + m)%nat → sub off m d ++ drop off' d = drop off d) as cut
    by (intros ??? ->; apply sub_drop).
  rewrite <- (app_nil_r (sub (32 + n) n d)), <- (drop_ge d (32 + n + n)) by lia.
  rewrite (cut (32 + n)%nat n), (cut 32%nat n), !cut by lia.
  by rewrite drop_0.
Qed.

Lemma hello_words h n :
  u32 VCCRYPT_SUITE_VELO_V1 → nonce_size = n → hello_fits h →
  let d := hello_packet h in
  length d = (4 + 4 + 4 + 4 + 16 + n + n)%nat ∧
  ntohl (le_dec (sub 0 4 d)) = UNAUTH_PROTOCOL_REQ_ID_HANDSHAKE_INITIATE ∧
  ntohl (le_dec (sub 4 4 d)) = 0 ∧ ntohl (le_dec (sub 8 4 d)) = 1 ∧
  ntohl (le_dec (sub 12 4 d)) = VCCRYPT_SUITE_VELO_V1 ∧
  sub 16 16 d = he_entity h ∧ sub 32 n d = he_key_nonce h ∧ sub (32 + n) n d = he_challenge h.
Proof.
  intros Hv Hn (He&Hk&Hc). rewrite Hn in *. unfold hello_packet. cbv zeta.
  split_and!; [len|by apply read_net32|..].
  - rewrite (sub_skip 4 4) by len. by apply read_net32.
  - rewrite 2!(sub_skip _ 4) by len. by apply read_net32.
  - rewrite 3!(sub_skip _ 4) by len. by apply read_net32.
  - rewrite 4!(sub_skip _ 4) by len. by apply sub_head.
  - rewrite 4!(sub_skip _ 4), (sub_skip _ 16) by len. by apply sub_head.
  - rewrite 4!(sub_skip _ 4), (sub_skip _ 16), (sub_skip _ n) by len.
    replace (32 + n - 4 - 4 - 4 - 4 - 16 - n)%nat with 0%nat by lia. by apply sub_exact.
Qed.

Lemma hello_good h :
  nonce_size = 32%nat → hello_fits h → good_packet (hello_packet h).
Proof.
  intros Hn (He&Hk&Hc). rewrite Hn in *. unfold good_packet, wf_message, hello_packet, sizeof. len.
Qed.
End words.

(** ** The steps *)

Section steps.
Context {W : Type} {M : MALLOC W} {IO : POSIX_IO W} {IOL : POSIX_IO_laws W}.
Context {PS : PSOCK W} {RA : RCPR_ALLOCATOR W} {VB : VCCRYPT_BUFFER W} {RB : RCPR_RBTREE W}.
Context {RL : RCPR_laws W} {VS : VCCRYPT_SUITE W} {VSL : VCCRYPT_SUITE_laws (λ w : W, (rx w, tx w))}.
Context {PA : PSOCK_AUTHED W} {RE : RANDOM_ENDPOINT W} {KB : KEY_BUFFERS W} {KA : KEY_AGREEMENT W}.
Context {MO : MAC_OPTIONS W} {HL : HANDSHAKE_laws W}.
Context (sizeof_random_request : nat) (pctx : protocolservice_context (W := W)).

Abbreviation R := (HANDSHAKE_reliable W).
Abbreviation fiber_context := protocolservice_protocol_fiber_context.

(** A step goes on with [P] or ends the handshake, and then [Why].  What was written
    before stays. *)
Definition step (o : bytes) (Why : Prop) (P : fiber_context → bytes → bytes → Prop)
    (r : Z * fiber_context) (i' o' : bytes) : Prop :=
  o `prefix_of` o' ∧ if r.1 =? 0 then P r.2 i' o' else Why.

Lemma step_ends o (Why : Prop) P rc c i' o' :
  rc ≠ 0 → Why → o `prefix_of` o' → step o Why P (rc, c) i' o'.
Proof. intros Hne HW Ho. split; [done|]. simpl. by rewrite (proj2 (Z.eqb_neq _ _)). Qed.

Lemma step_goes o Why (P : fiber_context → bytes → bytes → Prop) c i' o' :
  P c i' o' → o `prefix_of` o' → step o Why P (0, c) i' o'.
Proof. by split. Qed.

Lemma error_response_runs ctx id s off enc i o Q :
  (∀ rc c i' o', o `prefix_of` o' → Q (rc, c) i' o') →
  runs False i o (protocolservice_write_error_response ctx id s off enc) Q.
Proof.
  intros HQ. unfold protocolservice_write_error_response. destruct enc.
  - apply runs_authed_write; [|intros rc i' o' _ _ Ho]; apply runs_ret, HQ; [by apply prefix_app_r|done].
  - apply runs_boxed_write; [|intros rc i' o' _ _ Ho]; apply runs_ret, HQ; [by apply prefix_app_r|done].
Qed.

Lemma reject_runs ctx id resp s i o0 o (Why : Prop) P :
  s ≠ 0 → Why → o0 `prefix_of` o → runs False i o (reject ctx id resp s) (step o0 Why P).
Proof.
  intros Hs HW Ho. unfold reject. eapply runs_act; [apply (error_response_runs _ _ _ _ _ _ _ (λ _ _ o', o `prefix_of` o')); auto|].
  intros [rc c] i' o' Ho'. apply runs_ret, step_ends; [|done|by etrans].
  destruct (Z.eqb_spec rc 0); done.
Qed.

Lemma unauthorized_runs ctx i o0 o (Why : Prop) P :
  Why → o0 `prefix_of` o → runs False i o (unauthorized ctx) (step o0 Why P).
Proof. by apply reject_runs. Qed.

(** The buffers of the nonces. *)
Definition fiber_fits (c : fiber_context) : Prop :=
  length (pf_client_key_nonce c) = nonce_size ∧ length (pf_client_challenge_nonce c) = nonce_size ∧
  length (pf_server_key_nonce c) = nonce_size ∧ length (pf_server_challenge_nonce c) = nonce_size.

Definition greeted (h : hello) (c : fiber_context) : fiber_context :=
  set_client_hello (he_entity h) (he_key_nonce h) (he_challenge h) c.

Lemma read_hello_runs ctx i o :
  fiber_fits ctx →
  runs False i o (protocolservice_protocol_read_handshake_req ctx)
    (step o (R → ∀ h rest, hello_fits h → i ≠ frame (msg_data (hello_packet h)) ++ rest)
       (λ c i' o', ∃ h, hello_fits h ∧ i = frame (msg_data (hello_packet h)) ++ i' ∧ o' = o ∧ c = greeted h ctx)).
Proof.
  intros (Hk&Hc&_). destruct (law_sizes (W := W)) as (_&Hn&Hv&_).
  unfold protocolservice_protocol_read_handshake_req. rewrite Hk, Hc.
  apply runs_boxed_read.
  2: { intros rc d i' Hne HR. rewrite (proj2 (Z.eqb_neq _ _)) by done. cbn [negb].
       apply runs_ret, step_ends; [done| |done]. intros HR' h rest Hh. apply HR; [done|by apply hello_good]. }
  intros d i' Hd ->. change (negb (0 =? 0)) with false. cbv iota.
  assert (∀ (b : bool) s m P, (∀ h, hello_fits h → d = hello_packet h → b = false) →
    (b = false → runs False i' o m (step o (R → ∀ h rest, hello_fits h →
       frame (msg_data d) ++ i' ≠ frame (msg_data (hello_packet h)) ++ rest) P)) →
    runs False i' o (if b then reject ctx s AGENTD_ERROR_PROTOCOLSERVICE_MALFORMED_REQUEST
      AGENTD_ERROR_PROTOCOLSERVICE_MALFORMED_REQUEST else m)
      (step o (R → ∀ h rest, hello_fits h →
       frame (msg_data d) ++ i' ≠ frame (msg_data (hello_packet h)) ++ rest) P)) as Hif.
  { intros [] s m P Hb Hm; [|by apply Hm]. apply reject_runs; [done| |done].
    intros _ h rest Hh E. apply frame_data_inj in E as [-> _]; [|done|by apply hello_good].
    by specialize (Hb h Hh eq_refl). }
  pose proof (λ h, hello_words h nonce_size Hv eq_refl) as Hwords.
  eapply (runs_act _ _ _ _ (step o _ (λ c i1 o1, i1 = i' ∧ o1 = o ∧ ∃ h, hello_fits h ∧ d = hello_packet h ∧ c = greeted h ctx))).
  - apply Hif; [intros h Hh ->; by rewrite (proj1 (Hwords h Hh)), Nat.eqb_refl|intros Hb1].
    do 4 (apply Hif; [intros h Hh ->; destruct (Hwords h Hh) as (_&E0&E4&E8&E12&_);
                      by rewrite ?E0, ?E4, ?E8, ?E12, ?Z.eqb_refl|intro]).
    apply runs_ret, step_goes; [|done]. split_and!; [done..|].
    rewrite !negb_false_iff, ?Nat.eqb_eq, ?Z.eqb_eq in *.
    exists (Hello (sub 16 16 d) (sub 32 nonce_size d) (sub (32 + nonce_size) nonce_size d)). split_and!.
    + unfold hello_fits. cbn. rewrite !length_sub by lia. done.
    + by apply hello_of_words.
    + done.
  - intros [rc c] i1 o1 [Ho H]. simpl in H.
    handshake_call; [unfold or_else; cbn [negb Z.eqb]|].
    + apply runs_ret. split; [done|]. simpl. destruct (rc =? 0); [|done].
      destruct H as (->&->&h&Hh&->&->). by exists h.
    + intros rc' Hne HR. apply runs_ret. unfold or_else. rewrite (proj2 (Z.eqb_neq _ _)) by done.
      cbn [negb]. apply step_ends; [done|by intros ?%HR|done].
Qed.

Abbreviation entity_at id := (tree_map (pc_authorized_entity_dict pctx) !! id).

Lemma lookup_runs ctx i o :
  runs False i o (protocolservice_authorized_entity_lookup pctx ctx)
    (step o (R → entity_at (pf_entity_uuid ctx) = None)
       (λ c i' o', i' = i ∧ o' = o ∧ ∃ p, entity_at (pf_entity_uuid ctx) = Some p ∧ c = set_entity p ctx)).
Proof.
  unfold protocolservice_authorized_entity_lookup.
  eapply (runs_still _ _ _ _ (λ r, match r with Ok p => entity_at (pf_entity_uuid ctx) = Some p
    | Err _ => R → entity_at (pf_entity_uuid ctx) = None end)); [eauto with still|..].
  - intros w. right. destruct (rbtree_find _ _ w) as [[p|s] w'] eqn:E; simpl; [by eapply law_tree_find|].
    intros HR. destruct (entity_at (pf_entity_uuid ctx)) as [p|] eqn:Ep; [|done].
    pose proof (reliable_find _ (reliable_rcpr _ HR) _ _ _ _ w Ep) as H. by rewrite E in H.
  - intros [p|s] H; [|by apply unauthorized_runs]. apply runs_ret, step_goes; [|done]. by eauto.
Qed.

Lemma random_runs ctx i o :
  fiber_fits ctx →
  runs False i o (protocolservice_read_random_bytes sizeof_random_request ctx)
    (step o (R → False) (λ c i' o', i' = i ∧ o' = o ∧
       ∃ kn cn, length kn = nonce_size ∧ length cn = nonce_size ∧ c = set_server_nonces kn cn ctx)).
Proof.
  intros (_&_&Hk&Hc). unfold protocolservice_read_random_bytes. rewrite Hk, Hc.
  eapply (runs_act _ _ _ _ (λ r i' o', i' = i ∧ o' = o ∧ if r.1 =? 0 then
    ∃ kn cn, length kn = nonce_size ∧ length cn = nonce_size ∧ r.2 = set_server_nonces kn cn ctx else R → False)).
  - assert (∀ rc c, rc ≠ 0 → (R → False) → runs False i o (ret (rc, c)) (λ r i' o', i' = i ∧ o' = o ∧
      if r.1 =? 0 then ∃ kn cn, length kn = nonce_size ∧ length cn = nonce_size ∧ r.2 = set_server_nonces kn cn ctx
      else R → False)) as Hfail
      by (intros rc c Hne HR; apply runs_ret; simpl; by rewrite (proj2 (Z.eqb_neq _ _))).
    handshake_call; cbv beta iota.
    2: { intros rc a Hne HR. rewrite (proj2 (Z.eqb_neq _ _)) by done. by apply Hfail. }
    intros _ _. change (negb (0 =? 0)) with false. cbv iota.
    handshake_call; change (negb (0 =? 0)) with false; cbv iota.
    2: { intros rc Hne HR. rewrite (proj2 (Z.eqb_neq _ _)) by done. cbn [negb]. handshake_call; intros; by apply Hfail. }
    apply runs_random; cbv beta iota.
    + intros b Hb. change (negb (0 =? 0)) with false. cbv iota. handshake_call.
      * apply runs_ret. split_and!; [done..|]. simpl. do 2 eexists. split_and!; [| |done]; rewrite length_sub; lia.
      * intros rc Hne HR. by apply Hfail.
    + intros rc b Hne HR. rewrite (proj2 (Z.eqb_neq _ _)) by done. by apply Hfail.
    + intros rc Hne HR. handshake_call; intros; by apply Hfail.
  - intros [rc c] i' o' (->&->&H). simpl in H. destruct (rc =? 0); cbn [negb].
    + apply runs_ret, step_goes; [|done]. by split_and!.
    + by apply reject_runs.
Qed.

(** The context once the secret is there: the first packets have the vectors 1 and
    0x8000000000000001. *)
Definition agreed (c : fiber_context) : fiber_context :=
  set_secret (short_secret (pc_agentd_enc_privkey pctx) (encryption_pubkey pctx c)
                (pf_server_key_nonce c) (pf_client_key_nonce c)) 1 0x8000000000000001 c.

Lemma secret_runs ctx i o :
  runs False i o (protocolservice_compute_shared_secret pctx ctx)
    (step o (R → False) (λ c i' o', i' = i ∧ o' = o ∧ c = agreed ctx)).
Proof.
  unfold protocolservice_compute_shared_secret.
  handshake_call; change (negb (0 =? 0)) with false; cbv iota.
  2: { intros rc Hne HR. rewrite (proj2 (Z.eqb_neq _ _)) by done. by apply unauthorized_runs. }
  handshake_call; cbv beta iota; [intros s ->|intros rc a Hne HR].
  - change (negb (0 =? 0)) with false. by apply runs_ret, step_goes.
  - rewrite (proj2 (Z.eqb_neq _ _)) by done. by apply unauthorized_runs.
Qed.

(** What the service tells of itself, and the packet that tells it. *)
Definition answer_of (c : fiber_context) : answer :=
  Answer (pc_agentd_uuid pctx) (pc_agentd_enc_pubkey pctx) (pf_server_key_nonce c) (pf_server_challenge_nonce c).
Definition answer_packet (secret challenge : bytes) (a : answer) : bytes :=
  answer_fields a ++ mac_of secret (answer_fields a ++ challenge).

Lemma write_answer_runs ctx i o :
  runs False i o (protocolservice_protocol_write_handshake_req_resp pctx ctx)
    (step o (R → False) (λ c i' o', i' = i ∧ c = ctx ∧
       o' = o ++ frame (msg_data (answer_packet (pf_shared_secret ctx) (pf_client_challenge_nonce ctx) (answer_of ctx))))).
Proof.
  unfold protocolservice_protocol_write_handshake_req_resp. cbv zeta.
  set (fields := [_; _; _; _; _; _; _; _; _]).
  assert (concat fields = answer_fields (answer_of ctx)) as Hfields.
  { unfold fields. cbn [concat]. rewrite !net32_be, app_nil_r. done. }
  eapply (runs_act _ _ _ _ (λ r i' o', o `prefix_of` o' ∧
    match r with Ok _ => i' = i ∧ o' = o ++ frame (msg_data (answer_packet _ _ _)) | Err _ => R → False end)).
  - assert (∀ (s : Z), (R → False) → o `prefix_of` o ∧ (R → False)) as Hfail by done.
    handshake_call; [intros payload Hp|done]. handshake_call; [intros mac Hm|done].
    handshake_call; [intros _ _|done]. handshake_call; [intros mac1 Hm1|done].
    handshake_call; [intros mac2 Hm2|done]. handshake_call; [intros digest Hd|done].
    change ([] ++ concat fields) with (concat fields) in Hd. rewrite Hfields in Hd, Hp.
    assert (write_seq 0 (fields ++ [digest]) payload = answer_packet (pf_shared_secret ctx)
      (pf_client_challenge_nonce ctx) (answer_of ctx)) as ->.
    { rewrite write_seq_full; rewrite concat_app, Hfields, Hd; cbn [concat]; rewrite app_nil_r; [done|].
      by rewrite Hp, length_app, law_mac_length. }
    apply runs_boxed_write.
    + apply runs_ret. split; [by apply prefix_app_r|done].
    + intros rc i' o' Hne HR Ho. rewrite (proj2 (Z.eqb_neq _ _)) by done. by apply runs_ret.
  - intros [[]|s] i' o' [Ho H]; [|by apply unauthorized_runs].
    destruct H as [-> ->]. apply runs_ret, step_goes; [done|]. by apply prefix_app_r.
Qed.

Lemma read_ack_runs ctx i o :
  let s := pf_shared_secret ctx in let iv := le_enc 8 (pf_client_iv ctx) in
  runs False i o (protocolservice_protocol_read_handshake_ack_req ctx)
    (step o (R → ∀ d rest, 0 < sizeof d ≤ size_limit → i ≠ authed_packet s iv d ++ rest)
       (λ c i' o', o' = o ∧ c = next_client_iv ctx ∧ ∃ d, sizeof d ≤ size_limit ∧ i = authed_packet s iv d ++ i')).
Proof.
  intros s iv. unfold protocolservice_protocol_read_handshake_ack_req.
  apply runs_authed_read; cbv beta iota.
  - intros d i' Hd ->. change (negb (0 =? 0)) with false. cbv iota.
    eapply (runs_act _ _ _ _ (λ r i1 o1, r = (0, next_client_iv ctx) ∧ i1 = i' ∧ o1 = o)); [by apply runs_ret|].
    intros [rc c] i1 o1 ([= -> ->]&->&->). change (negb (0 =? 0)) with false. cbv iota.
    handshake_call; [|intros rc' _ _]; apply runs_ret, step_goes; eauto.
  - intros rc i' Hne HW. rewrite (proj2 (Z.eqb_neq _ _)) by done. cbn [negb].
    eapply (runs_act _ _ _ _ (λ r _ o', r.1 ≠ 0 ∧ o `prefix_of` o')).
    + eapply runs_act; [apply (error_response_runs _ _ _ _ _ _ _ (λ _ _ o', o `prefix_of` o')); auto|].
      intros [rc' c] i1 o1 Ho. apply runs_ret. split; [|done]. unfold or_else. simpl.
      by destruct (Z.eqb_spec rc' 0).
    + intros [rc' c] i1 o1 [Hne' Ho]. by apply runs_ret, step_ends.
Qed.

Lemma write_ack_runs ctx i o :
  let s := pf_shared_secret ctx in let iv := le_enc 8 (pf_server_iv ctx) in
  runs False i o (protocolservice_protocol_write_handshake_ack_resp ctx)
    (step o (R → False) (λ c i' o', i' = i ∧ c = next_server_iv ctx ∧ o' = o ++ authed_packet s iv ack_packet)).
Proof.
  intros s iv. unfold protocolservice_protocol_write_handshake_ack_resp. cbv zeta. rewrite !net32_be.
  fold ack_packet. apply runs_authed_write.
  - apply runs_ret, step_goes; [done|by apply prefix_app_r].
  - intros rc i' o' Hne HR Ho. rewrite (proj2 (Z.eqb_neq _ _)) by done. cbn [negb].
    eapply runs_act; [apply (error_response_runs _ _ _ _ _ _ _ (λ _ _ o1, o' `prefix_of` o1)); auto|].
    intros [rc' c] i1 o1 Ho1. apply runs_ret, step_ends; [|done|by etrans]. unfold or_else.
    by destruct (Z.eqb_spec rc' 0).
Qed.

(** ** The whole *)

Lemma hello_packet_inj h h' : hello_fits h → hello_fits h' → hello_packet h = hello_packet h' → h = h'.
Proof.
  intros Hh Hh' E. destruct (law_sizes (W := W)) as (_&_&Hv&_).
  destruct (hello_words h nonce_size Hv eq_refl Hh) as (_&_&_&_&_&E1&E2&E3).
  destruct (hello_words h' nonce_size Hv eq_refl Hh') as (_&_&_&_&_&E1'&E2'&E3').
  rewrite E in *. destruct h, h'. simpl in *. congruence.
Qed.

(** No registered entity greets. *)
Definition no_greeting (i : bytes) : Prop :=
  R → pc_private_key_set pctx = true → ∀ h p rest, hello_fits h → entity_at (he_entity h) = Some p →
  i ≠ frame (msg_data (hello_packet h)) ++ rest.

(** The context after a greeting, once the service has chosen its nonces. *)
Definition hears (h : hello) (p : nat) (kn cn : bytes) (ctx : fiber_context) : fiber_context :=
  agreed (set_server_nonces kn cn (set_entity p (greeted h ctx))).

(** The end of a handshake in which the answer was sent. *)
Definition answered (c : fiber_context) (i1 o1 : bytes) (r : Z * fiber_context) (i' o' : bytes) : Prop :=
  step o1 (R → ∀ d rest, 0 < sizeof d ≤ size_limit →
             i1 ≠ authed_packet (pf_shared_secret c) (le_enc 8 1) d ++ rest)
    (λ c' i' o', c' = next_server_iv (next_client_iv c) ∧
       (∃ d, sizeof d ≤ size_limit ∧ i1 = authed_packet (pf_shared_secret c) (le_enc 8 1) d ++ i') ∧
       o' = o1 ++ authed_packet (pf_shared_secret c) (le_enc 8 0x8000000000000001) ack_packet) r i' o'.

Definition server_outcome (ctx : fiber_context) (i o : bytes) (r : Z * fiber_context) (i' o' : bytes) : Prop :=
  (r.1 ≠ 0 ∧ o `prefix_of` o' ∧ no_greeting i) ∨
  ∃ h p kn cn i1,
    hello_fits h ∧ entity_at (he_entity h) = Some p ∧ pc_private_key_set pctx = true ∧
    length kn = nonce_size ∧ length cn = nonce_size ∧ i = frame (msg_data (hello_packet h)) ++ i1 ∧
    let c := hears h p kn cn ctx in
    answered c i1 (o ++ frame (msg_data (answer_packet (pf_shared_secret c) (he_challenge h) (answer_of c)))) r i' o'.

(** A step before the answer. *)
Lemma runs_before ctx i o i0 o0 m k (Why : Prop) P :
  (Why → no_greeting i) →
  runs False i0 o0 m (step o Why P) →
  (∀ c i' o', P c i' o' → runs False i' o' (k c) (server_outcome ctx i o)) →
  runs False i0 o0 (and_then m k) (server_outcome ctx i o).
Proof.
  intros HW Hm Hk. eapply runs_and_then; [exact Hm|..].
  - intros rc c i' o' [Ho H] Hne. left. simpl in H. rewrite (proj2 (Z.eqb_neq _ _)) in H by done. auto.
  - intros c i' o' [_ H]. by apply Hk.
Qed.

(** The steps after it. *)
Lemma finish_runs c i o :
  pf_client_iv c = 1 → pf_server_iv c = 0x8000000000000001 →
  runs False i o
    (and_then (protocolservice_protocol_read_handshake_ack_req c) protocolservice_protocol_write_handshake_ack_resp)
    (answered c i o).
Proof.
  intros Hc Hs. eapply runs_and_then; [apply read_ack_runs|..].
  - intros rc c' i' o' [Ho H] Hne. simpl in H. rewrite Hc, (proj2 (Z.eqb_neq _ _)) in H by done.
    by apply step_ends.
  - intros c' i' o' [_ H]. simpl in H. destruct H as (->&->&d&Hd&->).
    eapply runs_mono; [apply write_ack_runs|]. intros [rc c'] i1 o1 [Ho H]. split; [done|]. simpl in H |- *.
    rewrite Hc, Hs in *. destruct (rc =? 0).
    + destruct H as (->&->&->). by eauto.
    + by intros ?%H.
Qed.

Lemma server_runs ctx i o :
  fiber_fits ctx →
  runs False i o (protocolservice_protocol_handle_handshake sizeof_random_request pctx ctx)
    (server_outcome ctx i o).
Proof.
  intros Hfits. unfold protocolservice_protocol_handle_handshake.
  destruct (pc_private_key_set pctx) eqn:Hset; cbn [negb].
  2: { apply runs_ret. left. split_and!; [done|done|]. intros _ Hset'. congruence. }
  eapply runs_before; [|by apply read_hello_runs|]. { intros H HR _ h p rest Hh _. by apply H. }
  intros c0 i1 o0 (h&Hh&->&->&->).
  eapply runs_before; [|by apply lookup_runs|].
  { intros H HR _ h' p rest Hh' Hp E. destruct (law_sizes (W := W)) as (_&Hn&_).
    apply frame_data_inj in E as [E _]; [|by apply hello_good..].
    apply hello_packet_inj in E as ->; [|done..]. specialize (H HR). simpl in H. congruence. }
  intros c1 i2 o1 (->&->&p&Hp&->). simpl in Hp.
  destruct Hfits as (Hf1&Hf2&Hf3&Hf4). pose proof Hh as (_&Hk&Hc).
  eapply runs_before; [|apply random_runs; by split_and!|]. { by intros H HR%H. }
  intros c2 i3 o2 (->&->&kn&cn&Hkn&Hcn&->).
  eapply runs_before; [|by apply secret_runs|]. { by intros H HR%H. }
  intros c3 i4 o3 (->&->&->).
  eapply runs_before; [|by apply write_answer_runs|]. { by intros H HR%H. }
  intros c4 i5 o4 (->&->&->).
  eapply runs_mono; [by apply finish_runs|]. intros r i' o' H. right.
  exists h, p, kn, cn, i1. by split_and!.
Qed.

(** C15: A handshake succeeds only with a registered entity: the agent has its private
    key; the peer sent the greeting of an entity of the registry and then a packet
    under the secret derived from the key of this entity and both key nonces; the
    service answered with its own identity, its nonces and the code of the answer and
    the challenge under this secret, and acknowledged; both sides go on with the
    next packets of the session. *)
Theorem handshake_authenticates ctx rg w :
  fiber_fits ctx → represents pctx rg →
  post (protocolservice_protocol_handle_handshake sizeof_random_request pctx ctx) (λ '(retval, c) w',
    retval = 0 →
    ∃ keys h info d,
      let secret := short_secret (ak_enc_privkey keys) (ei_enc_pubkey info) (pf_server_key_nonce c) (he_key_nonce h) in
      rg_keys rg = Some keys ∧ rg_entities rg !! he_entity h = Some info ∧ hello_fits h ∧
      rx w = frame (msg_data (hello_packet h)) ++ authed_packet secret (le_enc 8 1) d ++ rx w' ∧
      tx w' = tx w
        ++ frame (msg_data (answer_packet secret (he_challenge h)
             (Answer (ak_id keys) (ak_enc_pubkey keys) (pf_server_key_nonce c) (pf_server_challenge_nonce c))))
        ++ authed_packet secret (le_enc 8 0x8000000000000001) ack_packet ∧
      pf_entity_uuid c = he_entity h ∧ pf_shared_secret c = secret ∧
      pf_client_iv c = 2 ∧ pf_server_iv c = 0x8000000000000002) w.
Proof.
  intros Hfits Hrep. eapply post_mono; [by apply (server_runs ctx (rx w) (tx w))|].
  intros [rc c] w' [[]|[[Hne _]|H]] Hrc; [done|]. simpl in Hrc. subst rc.
  destruct H as (h&p&kn&cn&i1&Hh&Hp&Hset&_&_&Hrx&_&H). simpl in H. destruct H as (->&(d&_&->)&Htx).
  destruct (rep_pointer _ _ Hrep _ _ Hp) as (e&He&_&Hinfo).
  rewrite (rep_private_key _ _ Hrep), bool_decide_eq_true in Hset. destruct Hset as [keys Hkeys].
  assert (encryption_pubkey pctx (set_server_nonces kn cn (set_entity p (greeted h ctx))) = ei_enc_pubkey (info_of e))
    as Hpub by (unfold encryption_pubkey; simpl; by rewrite He).
  rewrite Hpub in *.
  exists keys, h, (info_of e), d. cbn zeta. split; [done|].
  rewrite <- (rep_keys _ _ Hrep _ Hkeys). simpl. rewrite Hpub.
  split_and!; [done|done|exact Hrx|by rewrite Htx, <- (assoc_L (++))|done..].
Qed.
End steps.
