(* ===== verification/HandshakeAgreement.v ===== *)
(** * The client's side of the handshake, and both sides together

    What the four functions of the client do.  The client takes an answer only if its
    code is the one of the answer and of the client's own challenge under the secret
    that the client derives ([handshake_response_verified]).  Then both sides are
    connected ([handshake_agreement]). *)

From S2P Require Import Prelude Inet StatusCodes Lmdb RequestCodec Ipc IpcSpec AuthedIpc AuthedSpec ClientApi NotificationCodec ProtocolService ProtocolSpec ProtocolControlSpec Handshake HandshakeLaws HandshakeServer.

Section client.
Context {W : Type} {M : MALLOC W} {IO : POSIX_IO W} {IOL : POSIX_IO_laws W}.
Context {PS : PSOCK W} {RA : RCPR_ALLOCATOR W} {VB : VCCRYPT_BUFFER W} {RB : RCPR_RBTREE W}.
Context {RL : RCPR_laws W} {VS : VCCRYPT_SUITE W} {VSL : VCCRYPT_SUITE_laws (λ w : W, (rx w, tx w))}.
Context {PA : PSOCK_AUTHED W} {RE : RANDOM_ENDPOINT W} {KB : KEY_BUFFERS W} {KA : KEY_AGREEMENT W}.
Context {MO : MAC_OPTIONS W} {HL : HANDSHAKE_laws W}.

Abbreviation R := (HANDSHAKE_reliable W).

(** ** The message layer *)

Lemma runs_write_data {B} i o d (k : unit → Eff W B) Q :
  good_packet d →
  runs False i (o ++ frame (msg_data d)) (k tt) Q →
  (∀ s i' o', (R → False) → Q (Err s) i' o') →
  runs False i o (bind (ipc_write_data_block d) k) Q.
Proof.
  intros Hd Hok Hf.
  eapply (runs_bind _ _ _ _ (λ r i' o', match r with Ok _ => i' = i ∧ o' = o ++ frame (msg_data d) | Err _ => R → False end)).
  - intros w <- <-. eapply post_mono; [by apply (write_block_spec (msg_data d))|].
    intros [[]|e] w'; cbn [written]; [by right|]. intros [_ Hio]. right. intros HR. apply Hio, (reliable_io _ HR).
  - by intros [] i' o' [-> ->].
  - intros s i' o' HR. by apply Hf.
Qed.

(** An object of a size, whatever the input. *)
Lemma runs_read_object {B} i o n (k : bytes → Eff W B) Q :
  (∀ b i', length b = n → i = b ++ i' → runs False i' o (k b) Q) →
  (∀ s i', (R → (length i < n)%nat) → Q (Err s) i' o) →
  runs False i o (bind (read_object n) k) Q.
Proof.
  intros Hok Hf w <- <-. apply post_bind, post_read_some.
  - intros b w' Hb Hr Ht. by apply (Hok b (rx w')).
  - intros s w' Ht Hs. right. rewrite Ht. apply Hf. intros HR. destruct Hs as [Hs|Hs]; [|done].
    destruct Hs. apply (reliable_io _ HR).
Qed.

Lemma frame_parts d rest :
  frame (msg_data d) ++ rest = be_enc 4 IPC_DATA_TYPE_DATA_PACKET ++ be_enc 4 (sizeof d) ++ d ++ rest.
Proof. by rewrite frame_data, <- !(assoc_L (++)). Qed.

Lemma runs_read_type {B} i o t (k : unit → Eff W B) Q :
  u32 t →
  (∀ i', i = be_enc 4 t ++ i' → runs False i' o (k tt) Q) →
  (∀ s i', (R → ∀ rest, i ≠ be_enc 4 t ++ rest) → Q (Err s) i' o) →
  runs False i o (bind (read_type t) k) Q.
Proof.
  intros Hu Hok Hf.
  eapply (runs_bind _ _ _ _ (λ r i' o', o' = o ∧ match r with
    | Ok _ => i = be_enc 4 t ++ i' | Err _ => R → ∀ rest, i ≠ be_enc 4 t ++ rest end)).
  2: { intros [] i' o' [-> H]. by apply Hok. }
  2: { intros s i' o' [-> H]. by apply Hf. }
  unfold read_type. apply runs_read_object.
  - intros b i' Hb ->. apply runs_if; intros Hc; apply runs_ret; (split; [done|]).
    + intros _ rest E. apply app_inj_1 in E as [-> _]; [|by rewrite length_be_enc].
      rewrite ntohl_le_dec, be_dec_enc in Hc by (done || apply length_be_enc). by rewrite Z.eqb_refl in Hc.
    + rewrite negb_false_iff, Z.eqb_eq in Hc. by rewrite Hc, ntohl_le_dec, be_enc_dec_length.
  - intros s i' Hs. split; [done|]. intros HR rest ->. specialize (Hs HR).
    rewrite length_app, length_be_enc in Hs. lia.
Qed.

(** The value after its size, which is 0 only in a bad packet. *)
Lemma read_sized_runs i o size :
  0 ≤ size →
  runs False i o
    (let! mem := malloc size in
     if negb mem then throw AGENTD_ERROR_GENERAL_OUT_OF_MEMORY else read_object (Z.to_nat size))
    (λ r i' o', o' = o ∧ match r with
     | Ok d => sizeof d = size ∧ i = d ++ i'
     | Err _ => R → ∀ d rest, 0 < sizeof d → sizeof d = size → i ≠ d ++ rest end).
Proof.
  intros Hpos w <- <-. apply post_act, post_run.
  pose proof (law_io_malloc size w) as Hm. pose proof (λ HR : R, reliable_io_malloc _ (reliable_io _ HR) size w) as Hr.
  destruct (malloc size w) as [mem w1]. destruct (Hm mem w1 eq_refl) as [Hr1 Ht1]. cbn [fst snd] in *.
  destruct mem; cbn [negb].
  - apply post_read_some.
    + intros d w' Hl Hrx Htx. right. split; [congruence|]. split; [unfold sizeof; lia|congruence].
    + intros s w' Htx Hs. right. split; [congruence|]. intros HR d rest _ Hd E.
      rewrite Hr1, E, length_app in Hs. unfold sizeof in Hd.
      destruct Hs as [Hs|Hs]; [apply Hs, (reliable_io _ HR)|lia].
  - apply post_ret. right. split; [congruence|]. intros HR d rest Hd Hs. specialize (Hr HR).
    discriminate Hr. lia.
Qed.

Lemma runs_read_data {B} i o (k : bytes → Eff W B) Q :
  (∀ d i', i = frame (msg_data d) ++ i' → u32 (sizeof d) → runs False i' o (k d) Q) →
  (∀ s i', (R → ∀ d rest, good_packet d → i ≠ frame (msg_data d) ++ rest) → Q (Err s) i' o) →
  runs False i o (bind ipc_read_data_block k) Q.
Proof.
  intros Hok Hf.
  eapply (runs_bind _ _ _ _ (λ r i' o', o' = o ∧ match r with
    | Ok d => i = frame (msg_data d) ++ i' ∧ u32 (sizeof d)
    | Err _ => R → ∀ d rest, good_packet d → i ≠ frame (msg_data d) ++ rest end)).
  2: { intros d i' o' [-> [H Hu]]. by apply Hok. }
  2: { intros s i' o' [-> H]. by apply Hf. }
  unfold ipc_read_data_block. apply runs_read_type; [done|..].
  2: { intros s i' H. split; [done|]. intros HR d rest _. rewrite frame_parts. by apply H. }
  intros i1 ->. apply runs_read_object.
  2: { intros s i' Hs. split; [done|]. intros HR d rest _. rewrite frame_parts. intros ->%app_inv_head.
       specialize (Hs HR). rewrite !length_app, length_be_enc in Hs. lia. }
  intros nsize i2 Hn ->. set (size := ntohl (le_dec nsize)).
  assert (nsize = be_enc 4 size) as Hsize by (unfold size; by rewrite ntohl_le_dec, be_enc_dec_length).
  eapply runs_mono; [apply read_sized_runs, ntohl_u32|].
  intros [d|s] i' o' [-> H]; (split; [done|]).
  - destruct H as [E ->]. rewrite E, frame_parts, Hsize. split; [congruence|apply ntohl_u32].
  - intros HR d rest [Hd Hlt]. rewrite frame_parts. intros E%app_inv_head. rewrite Hsize in E.
    apply app_inj_1 in E as [E ->]; [|by rewrite !length_be_enc].
    apply (be_enc_inj 4) in E; [|apply ntohl_u32|change (256 ^ Z.of_nat 4) with (2 ^ 32); lia].
    by apply (H HR d rest).
Qed.

Lemma runs_read_authed {B} i o iv s (k : bytes → Eff W B) Q :
  (∀ d i', sizeof d ≤ size_limit → i = authed_packet s (le_enc 8 iv) d ++ i' → runs False i' o (k d) Q) →
  (∀ e i', (R → ∀ d rest, 0 < sizeof d ≤ size_limit → i ≠ authed_packet s (le_enc 8 iv) d ++ rest) → Q (Err e) i' o) →
  runs False i o (bind (ipc_read_authed_data_block iv s) k) Q.
Proof.
  intros Hok Hf w <- <-. apply post_bind. eapply post_mono; [apply authed_read_block_spec|].
  intros [d|e] w' [Ht H]; cbn beta iota in H.
  - destruct H as [Hd H]. by apply (Hok d (rx w')).
  - right. rewrite Ht. apply Hf. intros HR. destruct H as [[H|H]|H]; [|destruct H; by apply (reliable_suite _ HR)|done].
    destruct H. apply (reliable_io _ HR).
Qed.

Lemma runs_write_authed {B} i o iv d s (k : unit → Eff W B) Q :
  runs False i (o ++ authed_packet s (le_enc 8 iv) d) (k tt) Q →
  (∀ e i' o', (R → False) → Q (Err e) i' o') →
  runs False i o (bind (ipc_write_authed_data_block iv d s) k) Q.
Proof.
  intros Hok Hf w <- <-. apply post_bind. eapply post_mono; [apply authed_write_block_spec|].
  intros [[]|e] w' H; [destruct H as [Hr Ht]; by apply Hok|].
  right. apply Hf. intros HR. destruct H as [H|H]; destruct H; [apply (reliable_io _ HR)|by apply (reliable_suite _ HR)].
Qed.

(** ** The functions *)

Lemma sendreq_handshake_runs id i o :
  length id = 16%nat →
  runs False i o (protocolservice_api_sendreq_handshake_request_block id) (λ r i' o',
    match r with
    | Ok (kn, cn) => i' = i ∧ hello_fits (Hello id kn cn) ∧ o' = o ++ frame (msg_data (hello_packet (Hello id kn cn)))
    | Err _ => R → False
    end).
Proof.
  intros Hid. destruct (law_sizes (W := W)) as (_&Hn&_).
  unfold protocolservice_api_sendreq_handshake_request_block.
  handshake_call; [|intros rc Hne HR; rewrite (proj2 (Z.eqb_neq _ _)) by done; by apply runs_ret].
  change (negb (0 =? 0)) with false. cbv iota.
  handshake_call; [intros b1 Hb1|done]. handshake_call; [intros kn Hkn|done].
  handshake_call; [intros b2 Hb2|done]. handshake_call; [intros cn Hcn|done].
  handshake_call; [intros payload Hp|done]. cbv zeta.
  assert (hello_fits (Hello id kn cn)) as Hfits by (split_and!; simpl; congruence).
  pose proof (hello_good _ Hn Hfits) as Hgood.
  set (fields := [_; _; _; _; _; _; _]).
  assert (concat fields = hello_packet (Hello id kn cn)) as Hf
    by (unfold fields; cbn [concat]; rewrite !net32_be, app_nil_r, take_ge by lia; done).
  rewrite write_seq_full, Hf.
  2: { rewrite Hf, Hp. unfold hello_packet. cbn [he_entity he_key_nonce he_challenge]. len. }
  rewrite take_ge by (destruct Hgood; unfold wrap32, sizeof in *; rewrite Z.mod_small; lia).
  apply runs_write_data; [done| |done]. apply runs_ret. by split_and!.
Qed.

(** An answer that the client with these values takes, and what it learns. *)
Definition accepts (privkey kn cn d : bytes) (r : handshake_response) : Prop :=
  let fields := take 132 d in
  let secret := short_secret privkey (sub 36 32 d) (sub 68 32 d) kn in
  length d = (132 + mac_size)%nat ∧
  ntohl (le_dec (sub 4 4 d)) = 0 ∧ ntohl (le_dec (sub 12 4 d)) = 1 ∧
  ntohl (le_dec (sub 16 4 d)) = VCCRYPT_SUITE_VELO_V1 ∧
  drop 132 d = mac_of secret (fields ++ cn) ∧
  r = HandshakeResponse (sub 20 16 d) (sub 36 32 d) (sub 100 32 d) secret (ntohl (le_dec (sub 8 4 d))) 0.

(** The answer of a service that has this secret is accepted. *)
Lemma answer_parts s cn a :
  answer_fits a →
  let d := answer_packet s cn a in
  length (answer_fields a) = 132%nat ∧ length d = (132 + mac_size)%nat ∧
  take 132 d = answer_fields a ∧ drop 132 d = mac_of s (answer_fields a ++ cn) ∧
  ntohl (le_dec (sub 4 4 d)) = 0 ∧ ntohl (le_dec (sub 8 4 d)) = 0 ∧ ntohl (le_dec (sub 12 4 d)) = 1 ∧
  ntohl (le_dec (sub 16 4 d)) = VCCRYPT_SUITE_VELO_V1 ∧
  sub 20 16 d = an_server a ∧ sub 36 32 d = an_pubkey a ∧ sub 68 32 d = an_key_nonce a ∧
  sub 100 32 d = an_challenge a.
Proof.
  intros (H1&H2&H3&H4). destruct (law_sizes (W := W)) as (Hp&Hn&Hv&_). rewrite Hp, Hn in *.
  assert (length (answer_fields a) = 132%nat) as Hl by (unfold answer_fields; len).
  cbv zeta. unfold answer_packet at 1. rewrite length_app, Hl, law_mac_length.
  assert (take 132 (answer_packet s cn a) = answer_fields a) as Ht
    by (unfold answer_packet; rewrite <- Hl; apply take_app_length).
  split; [done|]. split; [done|]. split; [done|].
  split; [unfold answer_packet; rewrite <- Hl at 1; apply drop_app_length|].
  assert (∀ off n, (off + n ≤ 132)%nat → sub off n (answer_packet s cn a) = sub off n (answer_fields a)) as Hs
    by (intros; rewrite <- Ht, sub_take by lia; done).
  rewrite !Hs by lia. unfold answer_fields.
  split_and!.
  - rewrite (sub_skip _ 4) by len. by apply read_net32.
  - rewrite 2!(sub_skip _ 4) by len. by apply read_net32.
  - rewrite 3!(sub_skip _ 4) by len. by apply read_net32.
  - rewrite 4!(sub_skip _ 4) by len. by apply read_net32.
  - rewrite 5!(sub_skip _ 4) by len. by apply sub_head.
  - rewrite 5!(sub_skip _ 4), (sub_skip _ 16) by len. by apply sub_head.
  - rewrite 5!(sub_skip _ 4), (sub_skip _ 16), (sub_skip _ 32) by len. by apply sub_head.
  - rewrite 5!(sub_skip _ 4), (sub_skip _ 16), 2!(sub_skip _ 32) by len. by apply sub_exact.
Qed.

Lemma answer_good s cn a : answer_fits a → good_packet (answer_packet s cn a).
Proof.
  intros Ha. destruct (answer_parts s cn a Ha) as (_&Hl&_). destruct (law_sizes (W := W)) as (_&_&_&Hm).
  unfold good_packet, wf_message, sizeof. rewrite Hl. lia.
Qed.

Lemma frame_inj_u32 d d' x y :
  u32 (sizeof d) → good_packet d' →
  frame (msg_data d) ++ x = frame (msg_data d') ++ y → d = d' ∧ x = y.
Proof.
  intros Hu [Hpos Hlt]. rewrite !frame_parts. intros E%app_inv_head.
  apply app_inj_1 in E as [E Ed]; [|by rewrite !length_be_enc].
  apply (be_enc_inj 4) in E; [|done|change (256 ^ Z.of_nat 4) with (2 ^ 32); lia].
  apply app_inj_1 in Ed; [done|]. unfold sizeof in E. lia.
Qed.

(** The answers that this client is meant to get. *)
Definition no_answer (privkey kn cn i : bytes) : Prop :=
  R → ∀ a rest, answer_fits a →
  i ≠ frame (msg_data (answer_packet (short_secret privkey (an_pubkey a) (an_key_nonce a) kn) cn a)) ++ rest.

(** The outcome of reading an answer. *)
Definition answer_read (privkey kn cn i o : bytes) (r : result handshake_response) (i' o' : bytes) : Prop :=
  o' = o ∧
  match r with
  | Ok resp => ∃ d, i = frame (msg_data d) ++ i' ∧ accepts privkey kn cn d resp
  | Err _ => no_answer privkey kn cn i
  end.

(** A check of the packet, which a good answer passes. *)
Lemma runs_check privkey kn cn d i' o (b : bool) s m :
  u32 (sizeof d) →
  (∀ secret a, answer_fits a → secret = short_secret privkey (an_pubkey a) (an_key_nonce a) kn →
     d = answer_packet secret cn a → b = false) →
  (b = false → runs False i' o m (answer_read privkey kn cn (frame (msg_data d) ++ i') o)) →
  runs False i' o (if b then throw s else m) (answer_read privkey kn cn (frame (msg_data d) ++ i') o).
Proof.
  intros Hu Hb Hm. destruct b; [|by apply Hm]. apply runs_ret. split; [done|].
  intros HR a rest Ha E. apply frame_inj_u32 in E as [E _]; [|done|by apply answer_good].
  by specialize (Hb _ a Ha eq_refl E).
Qed.

Lemma recvresp_handshake_runs privkey kn cn i o :
  runs False i o (protocolservice_api_recvresp_handshake_request_block privkey kn cn)
    (answer_read privkey kn cn i o).
Proof.
  unfold protocolservice_api_recvresp_handshake_request_block.
  destruct (law_sizes (W := W)) as (Hpk&Hns&_). pose proof answer_parts as Hparts. cbv zeta in Hparts.
  apply runs_read_data.
  2: { intros s i' H. split; [done|]. intros HR a rest Ha. apply H; [done|by apply answer_good]. }
  intros d i' -> Hu.
  assert (∀ s : Z, (R → False) → answer_read privkey kn cn (frame (msg_data d) ++ i') o (Err s) i' o) as Hfault
    by (intros s HR; split; [done|by intros ?%HR]).
  apply runs_check; [done| |intros _].
  { intros s a Ha _ ->. destruct (Hparts s cn a Ha) as (_&El&_). rewrite El. by apply Nat.ltb_ge; lia. }
  apply runs_check; [done| |intros H4%negb_false_iff%Z.eqb_eq].
  { intros s a Ha _ ->. by destruct (Hparts s cn a Ha) as (_&_&_&_&->&_). }
  handshake_call; [intros n ->|by auto]. rewrite Hpk, Hns.
  change (4 + 4 + 4 + 4 + 4 + 16 + 32 + 32 + 32 + mac_size)%nat with (132 + mac_size)%nat.
  replace (132 + mac_size - mac_size)%nat with 132%nat by lia.
  apply runs_check; [done| |intros Hl%negb_false_iff%Nat.eqb_eq].
  { intros s a Ha _ ->. destruct (Hparts s cn a Ha) as (_&->&_). by rewrite Nat.eqb_refl. }
  apply runs_check; [done| |intros H12%negb_false_iff%Z.eqb_eq].
  { intros s a Ha _ ->. by destruct (Hparts s cn a Ha) as (_&_&_&_&_&_&->&_). }
  apply runs_check; [done| |intros H16%negb_false_iff%Z.eqb_eq].
  { intros s a Ha _ ->. destruct (Hparts s cn a Ha) as (_&_&_&_&_&_&_&->&_). by rewrite Z.eqb_refl. }
  pose proof gives_pubkey_buffer as Hgp. rewrite Hpk in Hgp. pose proof gives_nonce_buffer as Hgn. rewrite Hns in Hgn.
  eapply runs_filled; [apply gives_buffer|lia| |by auto].
  eapply runs_filled; [exact Hgp|lia| |by auto].
  eapply runs_filled; [exact Hgn|lia| |by auto].
  eapply runs_filled; [exact Hgn|lia| |by auto].
  handshake_call; [intros _ _|by auto].
  handshake_call; [|intros rc Hne HR; rewrite (proj2 (Z.eqb_neq _ _)) by done; by apply runs_ret, Hfault].
  change (negb (0 =? 0)) with false. cbv iota.
  handshake_call; [intros secret ->|by auto]. handshake_call; [intros mac Hm|by auto].
  handshake_call; [intros mac1 Hm1|by auto]. handshake_call; [intros mac2 Hm2|by auto].
  handshake_call; [intros b _|by auto]. handshake_call; [intros digest Hd|by auto].
  change ([] ++ take 132 d) with (take 132 d) in Hd.
  assert (length digest = length (drop 132 d)) as Hlen by (rewrite Hd, law_mac_length, length_drop; lia).
  apply law_memcmp in Hlen.
  apply runs_check; [done| |intros Hc%negb_false_iff%Z.eqb_eq].
  { intros s a Ha -> ->. destruct (Hparts (short_secret privkey (an_pubkey a) (an_key_nonce a) kn) cn a Ha)
      as (_&_&Et&Ed&_&_&_&_&_&E36&E68&_).
    rewrite negb_false_iff, Z.eqb_eq. apply Hlen. by rewrite Hd, Et, Ed, E36, E68. }
  apply runs_ret. split; [done|]. exists d. split; [done|]. apply Hlen in Hc.
  unfold accepts. cbv zeta. split_and!; try done; [by rewrite <- Hc|]. unfold AGENTD_STATUS_SUCCESS in H4. by rewrite H4.
Qed.

Lemma sendreq_ack_runs s sn i o :
  runs False i o (protocolservice_api_sendreq_handshake_ack_block s sn) (λ r i' o',
    match r with
    | Ok iv => i' = i ∧ iv = 2 ∧ o' = o ++ authed_packet s (le_enc 8 1) (mac_of s sn)
    | Err _ => R → False
    end).
Proof.
  unfold protocolservice_api_sendreq_handshake_ack_block.
  handshake_call; [intros b _|intros rc a Hne HR; rewrite (proj2 (Z.eqb_neq _ _)) by done; by apply runs_ret].
  change (negb (0 =? 0)) with false. cbv iota.
  handshake_call; [intros mac Hm|done]. handshake_call; [intros mac1 Hm1|done].
  handshake_call; [intros digest ->|done].
  apply runs_write_authed; [|done]. by apply runs_ret.
Qed.

(** The acknowledgement of the service, with any status and offset. *)
Definition ack_of (status offset : Z) : bytes :=
  be_enc 4 UNAUTH_PROTOCOL_REQ_ID_HANDSHAKE_ACKNOWLEDGE ++ be_enc 4 status ++ be_enc 4 offset.

Definition ack_read (s i o : bytes) (r : result (Z * Z * Z)) (i' o' : bytes) : Prop :=
  o' = o ∧
  match r with
  | Ok (iv, offset, status) => iv = 0x8000000000000002 ∧ u32 status ∧ u32 offset ∧
      i = authed_packet s (le_enc 8 0x8000000000000001) (ack_of status offset) ++ i'
  | Err _ => R → ∀ status offset rest,
      i ≠ authed_packet s (le_enc 8 0x8000000000000001) (ack_of status offset) ++ rest
  end.

Lemma length_ack_of status offset : length (ack_of status offset) = 12%nat.
Proof. unfold ack_of. len. Qed.

Lemma ack_of_words d :
  length d = 12%nat → UNAUTH_PROTOCOL_REQ_ID_HANDSHAKE_ACKNOWLEDGE = ntohl (le_dec (sub 0 4 d)) →
  d = ack_of (ntohl (le_dec (sub 4 4 d))) (ntohl (le_dec (sub 8 4 d))).
Proof.
  intros Hl H0. unfold ack_of.
  rewrite <- (word_at 0 _ d), <- (word_at 4 _ d), <- (word_at 8 _ d) by (done || lia).
  rewrite <- (app_nil_r (sub 8 4 d)), <- (drop_ge d (8 + 4)) by lia.
  by rewrite (sub_drop 8 4), (sub_drop 4 4), (sub_drop 0 4), drop_0.
Qed.

Lemma recvresp_ack_runs s i o :
  runs False i o (protocolservice_api_recvresp_handshake_ack_block s) (ack_read s i o).
Proof.
  unfold protocolservice_api_recvresp_handshake_ack_block. cbv zeta.
  assert (∀ st off, sizeof (ack_of st off) = 12) as Hsz by (intros; unfold sizeof; by rewrite length_ack_of).
  apply runs_read_authed.
  2: { intros e i' H. split; [done|]. intros HR st off rest. apply H; [done|]. by rewrite Hsz. }
  intros d i' Hd ->.
  assert (∀ (b : bool) e m, (∀ st off, d = ack_of st off → b = false) →
    (b = false → runs False i' o m (ack_read s (authed_packet s (le_enc 8 0x8000000000000001) d ++ i') o)) →
    runs False i' o (if b then throw e else m)
      (ack_read s (authed_packet s (le_enc 8 0x8000000000000001) d ++ i') o)) as Hif.
  { intros b e m Hb Hm. destruct b; [|by apply Hm]. apply runs_ret. split; [done|].
    intros _ st off rest E. apply packet_inj in E as [-> _]; [|done|by rewrite Hsz].
    by specialize (Hb st off eq_refl). }
  apply Hif; [|intros Hl%negb_false_iff%Nat.eqb_eq].
  { intros st off ->. by rewrite length_ack_of. }
  apply Hif; [|intros H0%negb_false_iff%Z.eqb_eq].
  { intros st off ->. unfold ack_of. by rewrite read_net32. }
  apply runs_ret. split_and!; [done|done|apply ntohl_u32..|]. by rewrite <- ack_of_words.
Qed.

(** C17: The client takes an answer only if it verifies: whatever bytes arrive, a
    response is returned only for a packet whose code is the code of the packet and
    of the client's own challenge under the secret that the client derives from its
    private key and the packet, and what is returned are the fields of the packet;
    nothing is written. *)
Theorem handshake_response_verified privkey kn cn w :
  post (protocolservice_api_recvresp_handshake_request_block privkey kn cn) (λ r w',
    tx w' = tx w ∧ ∀ resp, r = Ok resp →
    ∃ fields code,
      rx w = frame (msg_data (fields ++ code)) ++ rx w' ∧ length fields = 132%nat ∧
      hr_server_id resp = sub 20 16 fields ∧ hr_server_public_key resp = sub 36 32 fields ∧
      hr_server_challenge_nonce resp = sub 100 32 fields ∧
      hr_shared_secret resp = short_secret privkey (sub 36 32 fields) (sub 68 32 fields) kn ∧
      code = mac_of (hr_shared_secret resp) (fields ++ cn)) w.
Proof.
  eapply post_mono; [by apply (recvresp_handshake_runs privkey kn cn (rx w) (tx w))|].
  intros r w' [[]|[Ho H]]. split; [done|]. intros resp ->.
  destruct H as (d&Hrx&Hl&_&_&_&Hcode&->). exists (take 132 d), (drop 132 d). rewrite take_drop. cbn.
  rewrite !sub_take by lia. split_and!; try done. rewrite length_take. lia.
Qed.
End client.

(** ** Both sides of the handshake

    The client calls its four functions one after the other, as the tests of the
    repository do; the service handles a handshake; each reads what the other writes.
    Then both succeed and hold the same secret ([handshake_agreement]). *)

Section agreement.
Context {W : Type} {M : MALLOC W} {IO : POSIX_IO W} {IOL : POSIX_IO_laws W}.
Context {PS : PSOCK W} {RA : RCPR_ALLOCATOR W} {VB : VCCRYPT_BUFFER W} {RB : RCPR_RBTREE W}.
Context {RL : RCPR_laws W} {VS : VCCRYPT_SUITE W} {VSL : VCCRYPT_SUITE_laws (λ w : W, (rx w, tx w))}.
Context {PA : PSOCK_AUTHED W} {RE : RANDOM_ENDPOINT W} {KB : KEY_BUFFERS W} {KA : KEY_AGREEMENT W}.
Context {MO : MAC_OPTIONS W} {HL : HANDSHAKE_laws W}.
Context (sizeof_random_request : nat).

Abbreviation R := (HANDSHAKE_reliable W).

(** What the client learns of the service, the vectors of the next packets, and the
    status of the acknowledgement. *)
Definition client_handshake (entity_id privkey : bytes) : Eff W (handshake_response * Z * Z * Z) :=
  let* '(key_nonce, challenge_nonce) := protocolservice_api_sendreq_handshake_request_block entity_id in
  let* resp := protocolservice_api_recvresp_handshake_request_block privkey key_nonce challenge_nonce in
  let* client_iv :=
    protocolservice_api_sendreq_handshake_ack_block (hr_shared_secret resp) (hr_server_challenge_nonce resp) in
  let* '(server_iv, _, status) := protocolservice_api_recvresp_handshake_ack_block (hr_shared_secret resp) in
  ok (resp, client_iv, server_iv, status).

(** After an answer. *)
Definition acknowledged (resp : handshake_response) (i1 o1 : bytes) (r : result (handshake_response * Z * Z * Z))
    (i' o' : bytes) : Prop :=
  let s := hr_shared_secret resp in
  o' = o1 ++ authed_packet s (le_enc 8 1) (mac_of s (hr_server_challenge_nonce resp)) ∧
  match r with
  | Ok (resp', client_iv, server_iv, status) =>
      resp' = resp ∧ client_iv = 2 ∧ server_iv = 0x8000000000000002 ∧ u32 status ∧
      ∃ offset, i1 = authed_packet s (le_enc 8 0x8000000000000001) (ack_of status offset) ++ i' ∧ u32 offset
  | Err _ => R → ∀ rest, i1 ≠ authed_packet s (le_enc 8 0x8000000000000001) ack_packet ++ rest
  end.

Definition client_outcome (id privkey i o : bytes) (r : result (handshake_response * Z * Z * Z)) (i' o' : bytes) : Prop :=
  (R → False) ∨
  ∃ kn cn, hello_fits (Hello id kn cn) ∧
    let o1 := o ++ frame (msg_data (hello_packet (Hello id kn cn))) in
    (no_answer privkey kn cn i ∧ o' = o1) ∨
    ∃ d resp i1, i = frame (msg_data d) ++ i1 ∧ accepts privkey kn cn d resp ∧ acknowledged resp i1 o1 r i' o'.

Lemma client_runs id privkey i o :
  length id = 16%nat →
  runs False i o (client_handshake id privkey) (client_outcome id privkey i o).
Proof.
  intros Hid. unfold client_handshake.
  eapply runs_bind; [by apply sendreq_handshake_runs| |by intros s i' o' H; left].
  intros [kn cn] i0 o0 (->&Hh&->).
  eapply runs_bind; [apply recvresp_handshake_runs| |].
  2: { intros s i' o' [-> H]. right. exists kn, cn. split; [done|]. by left. }
  intros resp i1 o1 [-> (d&->&Hacc)].
  eapply runs_bind; [apply sendreq_ack_runs| |by intros s i' o' H; left].
  intros civ i2 o2 (->&->&->).
  eapply (runs_bind _ _ _ _ (ack_read _ _ _)); [apply recvresp_ack_runs|..].
  - intros [[siv off] st] i3 o3 (->&->&Hst&Hoff&->). apply runs_ret. right. exists kn, cn. split; [done|]. right.
    exists d, resp. eexists. split; [done|]. split; [done|]. split; [done|]. by eauto 10.
  - intros s i3 o3 (->&H). right. exists kn, cn. split; [done|]. right.
    exists d, resp. eexists. split; [done|]. split; [done|]. split; [done|]. intros HR rest. by apply (H HR 0 0).
Qed.

(** The service hears the client. *)
Lemma server_hears pctx ctx rg keys info h x o r i' o' :
  represents pctx rg → rg_keys rg = Some keys → rg_entities rg !! he_entity h = Some info → hello_fits h →
  server_outcome pctx ctx (frame (msg_data (hello_packet h)) ++ x) o r i' o' →
  (R → False) ∨
  ∃ c, pf_entity_uuid c = he_entity h ∧ pf_client_iv c = 1 ∧ pf_server_iv c = 0x8000000000000001 ∧
    pf_shared_secret c
    = short_secret (ak_enc_privkey keys) (ei_enc_pubkey info) (pf_server_key_nonce c) (he_key_nonce h) ∧
    length (pf_server_key_nonce c) = nonce_size ∧ length (pf_server_challenge_nonce c) = nonce_size ∧
    answered c x (o ++ frame (msg_data (answer_packet (pf_shared_secret c) (he_challenge h) (answer_of pctx c))))
      r i' o'.
Proof.
  intros Hrep Hkeys Hinfo Hh Hs. destruct (law_sizes (W := W)) as (_&Hn&_).
  assert (pc_private_key_set pctx = true) as Hset
    by (rewrite (rep_private_key _ _ Hrep), Hkeys; by apply bool_decide_eq_true_2).
  destruct (tree_map (pc_authorized_entity_dict pctx) !! he_entity h) as [p|] eqn:Hp.
  2: { apply (rep_domain _ _ Hrep) in Hp. congruence. }
  destruct Hs as [(_&_&Hno)|(h'&p'&kn&cn&i1&Hh'&Hp'&_&Hkn&Hcn&E&Hans)].
  - left. intros HR. by apply (Hno HR Hset h p x).
  - right. apply frame_data_inj in E as [E <-]; [|by apply hello_good..].
    apply hello_packet_inj in E as <-; [|done..].
    eexists. split_and!; [..|exact Hans]; try done. simpl.
    destruct (rep_pointer _ _ Hrep _ _ Hp') as (e&He&_&Hrg). rewrite Hinfo in Hrg. injection Hrg as ->.
    rewrite <- (rep_keys _ _ Hrep _ Hkeys). unfold encryption_pubkey. simpl. by rewrite He.
Qed.

(** The answer of the service is for the client. *)
Lemma client_hears pctx c rg keys info privkey kn cn :
  represents pctx rg → rg_keys rg = Some keys → length (ak_id keys) = 16%nat →
  key_pair (ak_enc_privkey keys) (ak_enc_pubkey keys) → key_pair privkey (ei_enc_pubkey info) →
  pf_shared_secret c = short_secret (ak_enc_privkey keys) (ei_enc_pubkey info) (pf_server_key_nonce c) kn →
  length (pf_server_key_nonce c) = nonce_size → length (pf_server_challenge_nonce c) = nonce_size →
  let a := answer_of pctx c in
  answer_fits a ∧ an_server a = ak_id keys ∧ an_pubkey a = ak_enc_pubkey keys ∧
  short_secret privkey (an_pubkey a) (an_key_nonce a) kn = pf_shared_secret c ∧
  ∀ d resp, d = answer_packet (pf_shared_secret c) cn a → accepts privkey kn cn d resp →
    resp = HandshakeResponse (ak_id keys) (ak_enc_pubkey keys) (pf_server_challenge_nonce c) (pf_shared_secret c) 0 0.
Proof.
  intros Hrep Hkeys Hid Hp1 Hp2 Hs Hkn Hcn a.
  assert (an_server a = ak_id keys ∧ an_pubkey a = ak_enc_pubkey keys) as [Ha1 Ha2]
    by (rewrite <- (rep_keys _ _ Hrep _ Hkeys); done).
  assert (answer_fits a) as Hfits.
  { split_and!; [congruence|apply (rep_sizes _ _ Hrep)|done..]. }
  assert (short_secret privkey (an_pubkey a) (an_key_nonce a) kn = pf_shared_secret c) as Hsec
    by (rewrite Ha2, Hs; symmetry; by apply law_agreement).
  split_and!; try done. intros d resp -> (_&_&_&_&_&->).
  destruct (answer_parts (pf_shared_secret c) cn a Hfits) as (_&_&_&_&_&->&_&_&->&->&->&->).
  by rewrite Hsec, Ha1, Ha2.
Qed.

(** C2: Client and service agree: when a client with the private key of a registered
    entity and the configured service are connected to each other, and the platform
    does not fail, then both end the handshake well; the client has the identity and
    the public key of the agent, the service the identity of the client; both have
    the same secret and the same vectors for the next packets; and the handshake
    leaves on the streams what does not belong to it. *)
Theorem handshake_agreement pctx ctx rg keys info id privkey ws wc cs ss si ci :
  fiber_fits ctx → represents pctx rg →
  rg_keys rg = Some keys → length (ak_id keys) = 16%nat → key_pair (ak_enc_privkey keys) (ak_enc_pubkey keys) →
  rg_entities rg !! id = Some info → length id = 16%nat → key_pair privkey (ei_enc_pubkey info) →
  let '((retval, c), ws') := protocolservice_protocol_handle_handshake sizeof_random_request pctx ctx ws in
  let '(r, wc') := client_handshake id privkey wc in
  tx wc' = tx wc ++ cs → rx ws = cs ++ si → tx ws' = tx ws ++ ss → rx wc = ss ++ ci →
  (R → False) ∨
  retval = 0 ∧ pf_entity_uuid c = id ∧ pf_client_iv c = 2 ∧ pf_server_iv c = 0x8000000000000002 ∧
  (∃ resp, r = Ok (resp, 2, 0x8000000000000002, AGENTD_STATUS_SUCCESS) ∧
     hr_server_id resp = ak_id keys ∧ hr_server_public_key resp = ak_enc_pubkey keys ∧
     hr_shared_secret resp = pf_shared_secret c) ∧
  rx ws' = si ∧ rx wc' = ci.
Proof.
  intros Hctx Hrep Hkeys Hid Hpair Hinfo Hlen Hcpair.
  pose proof (server_runs sizeof_random_request pctx ctx (rx ws) (tx ws) Hctx ws eq_refl eq_refl) as Hs.
  pose proof (client_runs id privkey (rx wc) (tx wc) Hlen wc eq_refl eq_refl) as Hc.
  apply post_run in Hs, Hc.
  destruct (protocolservice_protocol_handle_handshake _ _ _ ws) as [[rc c'] ws'].
  destruct (client_handshake id privkey wc) as [r wc']. cbn [fst snd] in *.
  destruct Hs as [[]|Hs]. destruct Hc as [[]|[Hc|(kn&cn&Hh&Hc)]]; [by left|].
  intros Hcs Hrxs Hss Hrxc. set (h := Hello id kn cn) in *.
  assert (∃ x, cs = frame (msg_data (hello_packet h)) ++ x) as [x ->].
  { destruct Hc as [[_ Ho]|(d&resp&i1&_&_&Ho&_)]; rewrite Hcs in Ho; [exists []|eexists];
      rewrite <- ?(assoc_L (++)) in Ho; apply app_inv_head in Ho as ->; [by rewrite app_nil_r|done]. }
  rewrite Hrxs, <- (assoc_L (++)) in Hs.
  destruct (server_hears _ _ _ _ _ h _ _ _ _ _ Hrep Hkeys Hinfo Hh Hs) as [|(c&Hc1&Hc2&Hc3&Hsec&Hkn&Hcn&Hans)]; [by left|].
  destruct (client_hears pctx c rg keys info privkey kn cn) as (Hfits&_&_&Hsec'&Hresp); try done.
  destruct Hans as [[y Hy] Hans]. rewrite Hss, <- (assoc_L (++)) in Hy. apply app_inv_head in Hy as ->.
  rewrite Hrxc, <- (assoc_L (++)) in Hc.
  destruct Hc as [[Hno _]|(d&resp&i1&E&Hacc&Ho&Hr)].
  { left. intros HR. apply (Hno HR (answer_of pctx c) (y ++ ci) Hfits). by rewrite Hsec'. }
  symmetry in E. apply frame_inj_u32 in E as [Ed ->]; [|unfold u32, sizeof; rewrite (proj1 Hacc)|by apply answer_good].
  2: { destruct (law_sizes (W := W)) as (_&_&_&?&?). lia. }
  rewrite (Hresp d resp Ed Hacc) in *. clear Hresp Hacc Ed d resp. cbn [hr_shared_secret hr_server_challenge_nonce] in *.
  rewrite Hcs, <- (assoc_L (++)) in Ho. apply app_inv_head, app_inv_head in Ho as ->.
  destruct (law_sizes (W := W)) as (_&_&_&Hm0&Hm1).
  assert (0 < sizeof (mac_of (pf_shared_secret c) (pf_server_challenge_nonce c)) ≤ size_limit) as Hsize
    by (unfold sizeof, size_limit; rewrite law_mac_length; lia).
  cbn [fst snd] in Hans. destruct (Z.eqb_spec rc 0) as [->|Hne].
  2: { left. intros HR. by apply (Hans HR _ si Hsize). }
  destruct Hans as (->&(d&Hd&E)&Hy). rewrite Hss, <- (assoc_L (++)) in Hy. apply app_inv_head, app_inv_head in Hy as ->.
  apply packet_inj in E as [<- Hsi]; [|lia|done].
  assert (∀ st off, sizeof (ack_of st off) ≤ size_limit) as Hsz by (intros; unfold sizeof; by rewrite length_ack_of).
  destruct r as [[[[resp civ] siv] st]|e]; [|left; intros HR; by apply (Hr HR ci)].
  destruct Hr as (->&->&->&Hst&off&E&Hoff).
  apply packet_inj in E as [E Hci]; [|by apply (Hsz 0 0)|done].
  apply app_inv_head, app_inj_1 in E as [E _]; [|by rewrite !length_be_enc].
  apply (be_enc_inj 4) in E as <-; [|done|done].
  right. simpl. rewrite Hc1, Hc2, Hc3. split_and!; try done. eexists. by split_and!.
Qed.
End agreement.
