(* ===== verification/ProtocolExamples.v ===== *)
(** * The protocol service on a concrete platform

    The platform of [CodecExamples] with finite maps as trees, a psock that reads and
    writes the descriptor, the suite of [AuthedExamples], and a key agreement that
    multiplies.  Nothing fails on it. *)

From S2P Require Import Prelude Inet StatusCodes Lmdb RequestCodec Ipc IpcSpec CodecExamples AuthedIpc AuthedSpec AuthedExamples ClientApi NotificationCodec ProtocolService ProtocolSpec ProtocolControlSpec Handshake HandshakeLaws HandshakeServer HandshakeAgreement.

#[local] Existing Instance io_malloc.
#[local] Existing Instance io_vccrypt.
#[local] Existing Instance io_posix.
#[local] Existing Instance io_posix_laws.
#[local] Existing Instance io_suite.
#[local] Instance proto_suite_laws : VCCRYPT_SUITE_laws (λ w : io_world, (rx w, tx w)) := io_suite_laws _.

(** ** The platform *)

#[local] Instance proto_tree : RCPR_RBTREE io_world := {|
  rbtree V := gmap bytes V;
  rbtree_create V := ret (0, ∅);
  rbtree_insert V t k v := ret (match t !! k with None => (0, <[k := v]> t) | Some _ => (77, t) end);
  rbtree_find V t k := ret (match t !! k with None => Err 78 | Some v => Ok v end);
  rbtree_release V t := ret 0;
  ERROR_RBTREE_DUPLICATE := 77;
|}.

#[local] Instance proto_allocator : RCPR_ALLOCATOR io_world := {|
  rcpr_allocator_allocate n := ret (0, replicate n Byte.x00) |}.

(** A packet in front of the input, if it is there. *)
Definition front_packet (i : bytes) : option (bytes * bytes) :=
  let size := ntohl (le_dec (sub 4 4 i)) in
  if ((8 <=? length i)%nat && (ntohl (le_dec (sub 0 4 i)) =? IPC_DATA_TYPE_DATA_PACKET)
      && (0 <? size) && (size <? 2 ^ 30) && (8 + size <=? sizeof i))
  then Some (take (Z.to_nat size) (drop 8 i), drop (Z.to_nat size) (drop 8 i)) else None.

#[local] Instance proto_psock : PSOCK io_world := {|
  psock_write_boxed_data d w := (0, IoWorld (io_rx w) (io_tx w ++ frame (msg_data d)) (io_sock w));
  psock_read_boxed_data w :=
    match front_packet (io_rx w) with
    | Some (d, i) => ((0, d), IoWorld i (io_tx w) (io_sock w))
    | None => ((1, []), w)
    end;
  rcpr_allocator_reclaim := ret 0;
|}.

Lemma front_packet_spec i d rest :
  front_packet i = Some (d, rest) ↔ good_packet d ∧ i = frame (msg_data d) ++ rest.
Proof.
  unfold front_packet. set (size := ntohl (le_dec (sub 4 4 i))). split.
  - destruct (_ && _) eqn:E; [|done]. intros [= <- <-].
    rewrite !andb_true_iff, Nat.leb_le, Z.eqb_eq, !Z.ltb_lt, Z.leb_le in E. destruct E as [[[[H1 H2] H3] H4] H5].
    split; [|by apply frame_of_header].
    unfold good_packet, wf_message, sizeof. rewrite length_take, length_drop. unfold sizeof in H5. lia.
  - intros [Hd ->]. destruct (header_of_frame d rest Hd) as [E1 E2]. unfold size. rewrite E1, E2, Z.eqb_refl.
    pose proof Hd as [Hpos Hlt]. rewrite length_app, length_frame_data.
    assert ((8 <=? 8 + length d + length rest)%nat = true) as -> by (apply Nat.leb_le; lia).
    assert ((0 <? sizeof d) = true) as -> by lia. assert ((sizeof d <? 2 ^ 30) = true) as -> by lia.
    assert ((8 + sizeof d <=? sizeof (frame (msg_data d) ++ rest)) = true) as ->
      by (apply Z.leb_le; unfold sizeof; rewrite length_app, length_frame_data; lia).
    cbn [andb]. rewrite frame_data, (assoc_L (++)), <- (assoc_L (++)).
    rewrite drop_app_length' by (rewrite length_app, !length_be_enc; done).
    unfold sizeof. rewrite Nat2Z.id. by rewrite take_app_length, drop_app_length.
Qed.

#[local] Instance proto_laws : RCPR_laws io_world.
Proof.
  refine {| tree_map V t := t |}; try done.
  - intros w d w' E. simpl in E. destruct (front_packet (io_rx w)) as [[d1 i]|] eqn:Ef; [|done].
    injection E as <- <-. apply front_packet_spec in Ef as [Hd Hi]. by split_and!.
  - intros w rc d w' E Hne. simpl in E. destruct (front_packet (io_rx w)) as [[d1 i]|]; by injection E as <- <- <-.
  - by intros d w w' [= <-].
  - intros n w b w' [= <- _]. apply length_replicate.
  - by intros V w t w' [= <- _].
  - intros V t k v w rc t' w' E. simpl in E. unfold ret in E. repeat case_match; simplify_eq/=; done.
  - intros V t k w v w' E. simpl in E. unfold ret in E. repeat case_match; simplify_eq/=; done.
Defined.

Lemma proto_reliable : RCPR_reliable io_world.
Proof.
  split; try done.
  - intros d rest w Hd Hw. simpl in *.
    assert (front_packet (io_rx w) = Some (d, rest)) as -> by (by apply front_packet_spec). done.
  - intros V t k v w. cbn -[lookup]. unfold ret. repeat case_match; simplify_eq/=; congruence.
  - intros V t k v w E. cbn -[lookup]. unfold ret. repeat case_match; simplify_eq/=; congruence.
Qed.

(** ** Keys and the handshake *)

#[local] Instance proto_keys : KEY_BUFFERS io_world := {|
  key_cipher_public_key_size := 32; key_cipher_private_key_size := 32;
  sign_public_key_size := 3; sign_private_key_size := 5;
  vccrypt_suite_buffer_init_for_cipher_key_agreement_public_key := ret (0, replicate 32 Byte.x00);
  vccrypt_suite_buffer_init_for_cipher_key_agreement_private_key := ret (0, replicate 32 Byte.x00);
  vccrypt_suite_buffer_init_for_signature_public_key := ret (0, replicate 3 Byte.x00);
  vccrypt_suite_buffer_init_for_signature_private_key := ret (0, replicate 5 Byte.x00);
|}.

(** A private key multiplies. *)
Definition ex_pubkey (a : bytes) : bytes := le_enc 32 (3 * le_dec a).
Definition ex_agree (a p s c : bytes) : bytes := le_enc 8 (le_dec a * le_dec p + le_dec s + le_dec c).
Definition ex_key_pair (a p : bytes) : Prop := le_dec p = 3 * le_dec a.

#[local] Instance proto_agreement : KEY_AGREEMENT io_world := {|
  nonce_size := 32; VCCRYPT_SUITE_VELO_V1 := 1;
  vccrypt_suite_buffer_init_for_cipher_key_agreement_nonce := ret (0, replicate 32 Byte.x00);
  vccrypt_suite_buffer_init_for_cipher_key_agreement_shared_secret := ret (0, replicate 32 Byte.x00);
  vccrypt_suite_cipher_key_agreement_init := ret 0;
  vccrypt_key_agreement_short_term_secret_create a p s c := ret (0, ex_agree a p s c);
  vccrypt_suite_prng_init := ret 0;
  vccrypt_prng_read n := ret (0, replicate n Byte.x09);
|}.

#[local] Instance proto_mac : MAC_OPTIONS io_world := {|
  vccrypt_suite_buffer_init_for_mac_authentication_code := ret (0, replicate 4 Byte.x00);
  vccrypt_mac_options_init := ret (0, 4%nat);
  vccrypt_mac_init k := ret (0, (k, []));
|}.

#[local] Instance proto_authed : PSOCK_AUTHED io_world := {|
  psock_read_authed_data iv k w :=
    match ipc_read_authed_data_block iv k w with
    | (Ok d, w') => ((0, Some d), w')
    | (Err _, w') => ((1, None), w')
    end;
  psock_write_authed_data iv d k w :=
    match ipc_write_authed_data_block iv d k w with
    | (Ok _, w') => (0, w')
    | (Err _, _) => (1, w)
    end;
|}.

(** The random service answers with a byte per byte asked for. *)
#[local] Instance proto_random : RANDOM_ENDPOINT io_world := {|
  message_create := ret 0;
  message_send n w := (0, set_sock w (SockView (replicate n Byte.x07) [] [] []));
  message_receive w := ((0, v_rbuf (io_sock w)), w);
  resource_release := ret 0;
|}.

Lemma ex_suite_reliable k : suite_reliable (λ w : io_world, (rx w, tx w)) k.
Proof. by split. Qed.

Lemma ex_not_faulty k : block_faulty (W := io_world) k → False.
Proof. intros [H|H]; apply H; [apply io_reliable|apply ex_suite_reliable]. Qed.

#[local] Instance proto_handshake : HANDSHAKE_laws io_world.
Proof.
  refine {| short_secret := ex_agree; key_pair := ex_key_pair |}; try done.
  - intros iv k w d w' E. pose proof (authed_read_block_spec iv k w) as H. apply post_run in H. simpl in E.
    destruct (ipc_read_authed_data_block iv k w) as [[p|s] w1]; [|done]. injection E as <- <-. destruct H as (Ht&Hp&Hr). exists p. by split_and!.
  - intros iv k w rc d w' E Hne. pose proof (authed_read_block_spec iv k w) as H. apply post_run in H. simpl in E.
    destruct (ipc_read_authed_data_block iv k w) as [[p|s] w1]; injection E as <- <- <-; [done|]. by destruct H.
  - intros iv d k w w' E. pose proof (authed_write_block_spec iv d k w) as H. apply post_run in H. simpl in E.
    destruct (ipc_write_authed_data_block iv d k w) as [[p|s] w1]; [|done]. by injection E as <-.
  - intros iv d k w rc w' E. pose proof (authed_write_block_spec iv d k w) as H. apply post_run in H. simpl in E.
    destruct (ipc_write_authed_data_block iv d k w) as [[p|s] w1]; injection E as <- <-; [|done].
    destruct H as [_ H]. cbn [snd] in H. rewrite H. by apply prefix_app_r.
  - intros d w rc w' [= <- <-]. by apply prefix_app_r.
  - intros n w w1 b w2 [= <-] [= <- _]. apply length_replicate.
  - intros a pa b pb s c Ha Hb. unfold ex_agree, ex_key_pair in *. f_equal. rewrite Ha, Hb. lia.
  - by intros a p s c w k w' [= <- _].
  - by intros w n w' [= <- _].
  - by intros k w c w' [= <- _].
  - intros n w b w' [= <- _]. apply length_replicate.
  - by intros w b w' [= <- _].
  - by intros w b w' [= <- _].
Defined.

Lemma proto_handshake_reliable : HANDSHAKE_reliable io_world.
Proof.
  split; try done.
  - apply io_reliable.
  - apply proto_reliable.
  - intros iv k d rest w Hd Hw. pose proof (authed_read_block_spec iv k w) as H. apply post_run in H. simpl.
    destruct (ipc_read_authed_data_block iv k w) as [[p|s] w1]; [done|]. destruct H as [_ [H|H]].
    + by apply ex_not_faulty in H.
    + by destruct (H d rest Hd).
  - intros iv d k w. pose proof (authed_write_block_spec iv d k w) as H. apply post_run in H. simpl.
    destruct (ipc_write_authed_data_block iv d k w) as [[p|s] w1]; [done|]. by apply ex_not_faulty in H.
Qed.

(** ** The service is configured *)

Definition ex_client_priv : bytes := le_enc 32 11.
Definition ex_client_id : bytes := memset Byte.x0c 16.
Definition ex_agent : agent_keys :=
  AgentKeys (memset Byte.x0a 16) (ex_pubkey (le_enc 32 7)) (le_enc 32 7) (memset Byte.x03 3) (memset Byte.x05 5).
Definition ex_capability : protocolservice_authorized_entity_capability_key :=
  CapabilityKey ex_client_id (memset Byte.x01 16) (memset Byte.x02 16).

Definition ex_commands : list protocol_command :=
  [cmd_entity ex_client_id (ex_pubkey ex_client_priv) (memset Byte.x04 3);
   cmd_capability ex_client_id ex_capability;
   cmd_private_key ex_agent;
   cmd_entity ex_client_id (memset Byte.x00 32) (memset Byte.x00 3);
   cmd_finalize].

Definition ex_fresh_service : protocolservice_context (W := io_world) :=
  ProtocolContext [] ∅ (memset Byte.x00 16) (memset Byte.x00 32) (memset Byte.x00 32) (memset Byte.x00 3)
    (memset Byte.x00 5) false.
Definition ex_no_registry : registry := Registry ∅ None.

Definition ex_input (i : bytes) : io_world := IoWorld i [] (SockView [] [] [] []).

(** The control fiber on the packets of the commands. *)
Definition ex_control_run :=
  control_fiber_loop (W := io_world) 96 48 10 (ControlFiberContext ex_fresh_service false)
    (ex_input (data_frames (command_packet <$> ex_commands))).
Definition ex_service : protocolservice_context (W := io_world) := pcf_ctx ex_control_run.1.2.

(** The second registration of the entity is refused, and nothing changes. *)
Example ex_control_responses :
  ex_control_run.1.1 = Some (Ok tt) ∧
  io_tx ex_control_run.2 = data_frames
    [control_response_packet 0 0; control_response_packet 1 0; control_response_packet 2 0;
     control_response_packet 0 77; control_response_packet 3 0] ∧
  length (pc_heap ex_service) = 1%nat ∧ pc_private_key_set ex_service = true.
Proof. by vm_compute. Qed.

Lemma ex_fresh_represents : represents ex_fresh_service ex_no_registry.
Proof. by split. Qed.

Lemma ex_commands_fit : Forall command_fits ex_commands.
Proof. repeat constructor. Qed.

Lemma protocol_configured_witness :
  let rg := ex_no_registry in
  let ctx := ControlFiberContext ex_fresh_service false in
  (∀ c i o, c ∈ ex_commands → c ≠ cmd_finalize →
     runs protocol_faulty i o (control_sendreq c) (λ r i' o',
       r = Ok tt ∧ i' = i ∧ o' = o ++ data_frames [command_packet c])) ∧
  runs protocol_faulty (data_frames (command_packet <$> ex_commands)) []
    (control_fiber_loop 96 48 10 ctx) (loop_ends ex_commands rg []) ∧
  (∀ c s rest o, c ∈ ex_commands → c ≠ cmd_finalize → u32 s →
     runs protocol_faulty (data_frames [control_response_packet (command_method c) s] ++ rest) o
       (control_recvresp c) (λ r i' o', r = Ok (0, s) ∧ i' = rest ∧ o' = o)).
Proof.
  intros rg ctx.
  refine (protocol_configured (W := io_world) 96 48 ex_commands rg ctx 10 [] _ ex_commands_fit ex_fresh_represents eq_refl _).
  - done.
  - simpl. lia.
Defined.

(** ** A handshake *)

Definition ex_fiber : protocolservice_protocol_fiber_context :=
  ProtocolFiberContext (memset Byte.x00 32) (memset Byte.x00 32) (memset Byte.x00 32) (memset Byte.x00 32)
    [] 0 0 (memset Byte.x00 16) None.

Definition ex_serve (i : bytes) :=
  protocolservice_protocol_handle_handshake (W := io_world) 24 ex_service ex_fiber (ex_input i).
Definition ex_connect (i : bytes) := client_handshake (W := io_world) ex_client_id ex_client_priv (ex_input i).

(** What both sides write when each reads what the other has written so far. *)
Definition ex_to_client : bytes :=
  take (8 + 136) (io_tx (ex_serve (io_tx (ex_connect []).2)).2).
Definition ex_from_client : bytes := io_tx (ex_connect ex_to_client).2.
Definition ex_from_service : bytes := io_tx (ex_serve ex_from_client).2.

Definition ex_registry : registry := (obey_commands ex_no_registry ex_commands).1.1.1.
Definition ex_entity : entity_info :=
  EntityInfo (ex_pubkey ex_client_priv) (memset Byte.x04 3) {[capability_key_bytes ex_capability]}.

Lemma ex_service_represents : represents ex_service ex_registry.
Proof.
  assert (length ex_commands < 10)%nat as Hfuel by (simpl; lia).
  pose proof (control_loop_runs (W := io_world) 96 48 ex_commands 10 ex_no_registry
    (ControlFiberContext ex_fresh_service false) [] eq_refl ex_commands_fit ex_fresh_represents eq_refl Hfuel) as H.
  apply (runs_run _ _ _ _ (ex_input (data_frames (command_packet <$> ex_commands)))) in H as [H|H]; [|..|done|done].
  - by destruct (H proto_reliable).
  - unfold loop_ends in H. unfold ex_registry.
    destruct (obey_commands ex_no_registry ex_commands) as [[[rg rs] e] rest]. by destruct H as (_&H&_).
Qed.

Lemma ex_registry_keys : rg_keys ex_registry = Some ex_agent.
Proof. by vm_compute. Qed.
Lemma ex_registry_entity : rg_entities ex_registry !! ex_client_id = Some ex_entity.
Proof. by vm_compute. Qed.

(** A peer that is not registered is refused, one without the key does not get past
    the answer, and a client refuses a changed answer. *)
Example ex_handshakes_refused :
  (ex_serve (frame (msg_data (hello_packet (Hello (memset Byte.xee 16) (memset Byte.x09 32) (memset Byte.x09 32)))))).1.1
    = AGENTD_ERROR_PROTOCOLSERVICE_UNAUTHORIZED ∧
  (ex_serve (io_tx (client_handshake (W := io_world) ex_client_id (le_enc 32 12) (ex_input [])).2 ++ memset Byte.x00 64)).1.1
    = AGENTD_ERROR_PROTOCOLSERVICE_MALFORMED_REQUEST ∧
  (ex_connect (take 76 ex_to_client ++ [Byte.xff] ++ drop 77 ex_to_client)).1
    = Err AGENTD_ERROR_PROTOCOLSERVICE_MALFORMED_RESPONSE.
Proof. by vm_compute. Qed.

(** Both wires are consistent. *)
Example ex_wires :
  io_tx (ex_connect (ex_from_service ++ [Byte.x01])).2 = ex_from_client ∧
  (ex_serve (ex_from_client ++ [Byte.x02])).1.1 = 0 ∧ io_rx (ex_serve (ex_from_client ++ [Byte.x02])).2 = [Byte.x02].
Proof. by vm_compute. Qed.

Lemma handshake_authenticates_witness :
  represents ex_service ex_registry ∧ (ex_serve ex_from_client).1.1 = 0 ∧
  post (protocolservice_protocol_handle_handshake 24 ex_service ex_fiber) (λ '(retval, c) w',
    retval = 0 →
    ∃ keys h info d,
      let secret := short_secret (ak_enc_privkey keys) (ei_enc_pubkey info) (pf_server_key_nonce c) (he_key_nonce h) in
      rg_keys ex_registry = Some keys ∧ rg_entities ex_registry !! he_entity h = Some info ∧ hello_fits h ∧
      rx (ex_input ex_from_client)
        = frame (msg_data (hello_packet h)) ++ authed_packet secret (le_enc 8 1) d ++ rx w' ∧
      tx w' = tx (ex_input ex_from_client)
        ++ frame (msg_data (answer_packet secret (he_challenge h)
             (Answer (ak_id keys) (ak_enc_pubkey keys) (pf_server_key_nonce c) (pf_server_challenge_nonce c))))
        ++ authed_packet secret (le_enc 8 0x8000000000000001) ack_packet ∧
      pf_entity_uuid c = he_entity h ∧ pf_shared_secret c = secret ∧
      pf_client_iv c = 2 ∧ pf_server_iv c = 0x8000000000000002) (ex_input ex_from_client).
Proof.
  split; [exact ex_service_represents|]. split; [by vm_compute|].
  refine (handshake_authenticates (W := io_world) 24 ex_service ex_fiber ex_registry _ _ ex_service_represents).
  by split_and!.
Defined.

Lemma handshake_agreement_witness :
  let '((retval, c), ws') := ex_serve (ex_from_client ++ [Byte.x02]) in
  let '(r, wc') := ex_connect (ex_from_service ++ [Byte.x01]) in
  (HANDSHAKE_reliable io_world → False) ∨
  retval = 0 ∧ pf_entity_uuid c = ex_client_id ∧ pf_client_iv c = 2 ∧ pf_server_iv c = 0x8000000000000002 ∧
  (∃ resp, r = Ok (resp, 2, 0x8000000000000002, AGENTD_STATUS_SUCCESS) ∧
     hr_server_id resp = ak_id ex_agent ∧ hr_server_public_key resp = ak_enc_pubkey ex_agent ∧
     hr_shared_secret resp = pf_shared_secret c) ∧
  rx ws' = [Byte.x02] ∧ rx wc' = [Byte.x01].
Proof.
  assert (ex_key_pair (ak_enc_privkey ex_agent) (ak_enc_pubkey ex_agent)) as Ha by (by vm_compute).
  assert (ex_key_pair ex_client_priv (ei_enc_pubkey ex_entity)) as Hc by (by vm_compute).
  assert (fiber_fits ex_fiber) as Hf by (by split_and!).
  pose proof (handshake_agreement (W := io_world) 24 ex_service ex_fiber ex_registry ex_agent ex_entity ex_client_id
    ex_client_priv (ex_input (ex_from_client ++ [Byte.x02])) (ex_input (ex_from_service ++ [Byte.x01]))
    ex_from_client ex_from_service [Byte.x02] [Byte.x01] Hf ex_service_represents ex_registry_keys eq_refl Ha
    ex_registry_entity eq_refl Hc) as H.
  assert (io_tx (ex_connect (ex_from_service ++ [Byte.x01])).2 = ex_from_client) as E1 by (by vm_compute).
  assert (io_tx (ex_serve (ex_from_client ++ [Byte.x02])).2 = ex_from_service) as E2 by (by vm_compute).
  unfold ex_serve, ex_connect in *.
  destruct (protocolservice_protocol_handle_handshake _ _ _ _) as [[rc c] ws'].
  destruct (client_handshake _ _ _) as [r wc']. by apply H.
Defined.
