(* ===== verification/ProtocolFibers.v ===== *)
(** * The protocol service after the handshake: what its fibers share

    Every connection has a fiber that reads its requests and one that writes its
    responses; an endpoint fiber exchanges packets with the data service for all of
    them, and two fibers do so with the notification service.  The fibers share the
    context of the service, and send each other messages through mailboxes.

    A fiber is a value of [prog]: accesses to memory and calls that do not wait are
    steps that nothing comes between; reading from and writing to sockets and
    mailboxes are calls ([op]) at which other fibers may run. *)

From S2P Require Import Prelude Inet StatusCodes Contexts Lmdb RequestCodec Ipc AuthedIpc ClientApi NotificationCodec ProtocolService Handshake.

(** ** Messages *)

Definition PROTOCOLSERVICE_DATASERVICE_ENDPOINT_REQ_CONTEXT_OPEN : Z := 0.
Definition PROTOCOLSERVICE_DATASERVICE_ENDPOINT_REQ_CONTEXT_CLOSE : Z := 1.
Definition PROTOCOLSERVICE_DATASERVICE_ENDPOINT_REQ_DATASERVICE_REQ : Z := 2.

Definition PROTOCOLSERVICE_PROTOCOL_WRITE_ENDPOINT_MESSAGE_SHUTDOWN : Z := 0.
Definition PROTOCOLSERVICE_PROTOCOL_WRITE_ENDPOINT_DATASERVICE_CONTEXT_CREATE_MSG : Z := 1.
Definition PROTOCOLSERVICE_PROTOCOL_WRITE_ENDPOINT_DATASERVICE_MSG : Z := 2.
Definition PROTOCOLSERVICE_PROTOCOL_WRITE_ENDPOINT_NOTIFICATION_MSG : Z := 3.
Definition PROTOCOLSERVICE_PROTOCOL_WRITE_ENDPOINT_PACKET : Z := 4.
Definition PROTOCOLSERVICE_PROTOCOL_WRITE_ENDPOINT_ERROR_MESSAGE : Z := 5.

(** A buffer that was not initialized is [None]. *)
Record protocolservice_dataservice_request_message := DataserviceRequestMessage {
  dm_protocol_request_id : Z; dm_request_id : Z; dm_offset : Z; dm_data : Z;
  dm_payload : option bytes }.

Record protocolservice_protocol_write_endpoint_message := WriteEndpointMessage {
  wm_message_type : Z; wm_original_request_id : Z; wm_offset : Z; wm_payload : option bytes }.

Record protocolservice_notificationservice_block_assertion_request := BlockAssertionRequest {
  br_req_offset : Z; br_block_id : bytes; br_reply_addr : Z; br_cancel : bool }.

Record protocolservice_notificationservice_block_assertion_response := BlockAssertionResponse {
  bs_success : bool; bs_offset : Z }.

(** What a message points to; the receiver casts the pointer. *)
Inductive message_payload :=
  | mp_dataservice_request (p : protocolservice_dataservice_request_message)
  | mp_write_endpoint (p : protocolservice_protocol_write_endpoint_message)
  | mp_assertion_request (p : protocolservice_notificationservice_block_assertion_request)
  | mp_assertion_response (p : protocolservice_notificationservice_block_assertion_response).

Record message := Message { message_return_address : Z; message_body : message_payload }.

Definition as_dataservice_request (m : message) : option protocolservice_dataservice_request_message :=
  match message_body m with mp_dataservice_request p => Some p | _ => None end.
Definition as_write_endpoint (m : message) : option protocolservice_protocol_write_endpoint_message :=
  match message_body m with mp_write_endpoint p => Some p | _ => None end.
Definition as_assertion_request (m : message)
  : option protocolservice_notificationservice_block_assertion_request :=
  match message_body m with mp_assertion_request p => Some p | _ => None end.
Definition as_assertion_response (m : message)
  : option protocolservice_notificationservice_block_assertion_response :=
  match message_body m with mp_assertion_response p => Some p | _ => None end.

(** ** The library *)

(** Trees whose keys are unsigned integers: mailbox addresses, contexts, offsets; and
    deletion from the trees of [RCPR_RBTREE]. *)
Class RCPR_TREES (W : Type) `{RB : RCPR_RBTREE W} := {
  rbtree_delete : ∀ {V}, rbtree V → bytes → Act W (Z * rbtree V);
  utree : Type → Type;
  utree_insert : ∀ {V}, utree V → Z → V → Act W (Z * utree V);
  utree_find : ∀ {V}, utree V → Z → Eff W V;
  utree_delete : ∀ {V}, utree V → Z → Act W (Z * utree V);
  utree_release : ∀ {V}, utree V → Act W Z;
}.

Class RCPR_FIBER (W : Type) := {
  fiber_create : Act W Z;
  fiber_unexpected_event_callback_add : Act W Z;
}.

(** The socket of each connection during the handshake, the reclaiming of memory, and
    the sizes of the structures that are allocated. *)
Class PROTOCOL_PLATFORM (W : Type) := {
  connection_psock : nat → PSOCK W;
  connection_authed : nat → PSOCK_AUTHED W;
  memory_reclaim : Act W Z;
  sizeof_random_request : nat;
  sizeof_request_message : nat;
  sizeof_write_message : nat;
  sizeof_assertion_request : nat;
  sizeof_assertion_response : nat;
  sizeof_dict_entry : nat;
  sizeof_response_xlat_entry : nat;
  sizeof_mailbox_context_entry : nat;
  sizeof_notification_xlat_entry : nat;
}.

(** The codec of the client protocol, of the vcblockchain library: what the service
    uses of a decoded request, and the packets of the responses. *)
Class VCBLOCKCHAIN_PROTOCOL (W : Type) := {
  vcblockchain_protocol_decode_req_block_get : bytes → result (Z * bytes);
  vcblockchain_protocol_decode_req_block_next_id_get : bytes → result (Z * bytes);
  vcblockchain_protocol_decode_req_block_prev_id_get : bytes → result (Z * bytes);
  vcblockchain_protocol_decode_req_block_id_by_height_get : bytes → result (Z * Z);
  vcblockchain_protocol_decode_req_txn_get : bytes → result (Z * bytes);
  vcblockchain_protocol_decode_req_txn_next_id_get : bytes → result (Z * bytes);
  vcblockchain_protocol_decode_req_txn_prev_id_get : bytes → result (Z * bytes);
  vcblockchain_protocol_decode_req_txn_block_id_get : bytes → result (Z * bytes);
  vcblockchain_protocol_decode_req_artifact_first_txn_id_get : bytes → result (Z * bytes);
  vcblockchain_protocol_decode_req_artifact_last_txn_id_get : bytes → result (Z * bytes);
  vcblockchain_protocol_decode_req_status_get : bytes → result Z;
  (** The request, and the transaction, artifact and certificate. *)
  vcblockchain_protocol_decode_req_transaction_submit : bytes → Eff W (Z * bytes * bytes * bytes);
  (** The offset and the block. *)
  vcblockchain_protocol_decode_req_assert_latest_block_id : bytes → result (Z * bytes);
  vcblockchain_protocol_decode_req_assert_latest_block_id_cancel : bytes → result unit;
  vcblockchain_protocol_decode_req_extended_api_enable : bytes → result Z;
  (** The offset, the entity, the verb and the body. *)
  vcblockchain_protocol_decode_req_extended_api : bytes → Eff W (Z * bytes * bytes * bytes);
  (** The offset, the status and the body. *)
  vcblockchain_protocol_decode_req_extended_api_response : bytes → Eff W (Z * Z * bytes);
  (** The request, the offset and the status. *)
  vcblockchain_protocol_encode_error_resp : Z → Z → Z → Eff W bytes;
  (** The request, the offset, the status and the payload. *)
  vcblockchain_protocol_encode_resp_generic : Z → Z → Z → bytes → Eff W bytes;
  (** The offset, the status and an identifier. *)
  vcblockchain_protocol_encode_resp_latest_block_id_get : Z → Z → bytes → Eff W bytes;
  vcblockchain_protocol_encode_resp_block_id_by_height_get : Z → Z → bytes → Eff W bytes;
  vcblockchain_protocol_encode_resp_block_next_id_get : Z → Z → bytes → Eff W bytes;
  vcblockchain_protocol_encode_resp_block_prev_id_get : Z → Z → bytes → Eff W bytes;
  vcblockchain_protocol_encode_resp_txn_next_id_get : Z → Z → bytes → Eff W bytes;
  vcblockchain_protocol_encode_resp_txn_prev_id_get : Z → Z → bytes → Eff W bytes;
  vcblockchain_protocol_encode_resp_txn_block_id_get : Z → Z → bytes → Eff W bytes;
  vcblockchain_protocol_encode_resp_artifact_first_txn_id_get : Z → Z → bytes → Eff W bytes;
  vcblockchain_protocol_encode_resp_artifact_last_txn_id_get : Z → Z → bytes → Eff W bytes;
  vcblockchain_protocol_encode_resp_transaction_submit : Z → Z → Eff W bytes;
  (** The offset, the status, four identifiers, the height, and the certificate
      with its size in the record. *)
  vcblockchain_protocol_encode_resp_block_get :
    Z → Z → bytes → bytes → bytes → bytes → Z → Z → bytes → Eff W bytes;
  (** The offset, the status, five identifiers, the certificate with its size in
      the record, and the state. *)
  vcblockchain_protocol_encode_resp_txn_get :
    Z → Z → bytes → bytes → bytes → bytes → bytes → Z → bytes → Z → Eff W bytes;
  (** The offset, the status and the body. *)
  vcblockchain_protocol_encode_resp_extended_api : Z → Z → bytes → Eff W bytes;
  (** The offset, the client, the verb, the two public keys and the body. *)
  vcblockchain_protocol_encode_resp_extended_api_client_request :
    Z → bytes → bytes → bytes → bytes → bytes → Eff W bytes;
}.

(** ** The shared context *)

Section data.
Context {W : Type} {RB : RCPR_RBTREE W} {RT : RCPR_TREES W}.

Record protocolservice_extended_api_response_xlat_entry := ResponseXlatEntry {
  xr_server_offset : Z; xr_client_offset : Z; xr_client_return_address : Z }.

(** The assertion of the latest block of a connection, and its part in the extended
    API. *)
Record assertion_state := AssertionState {
  la_set : bool; la_client_offset : Z; la_server_offset : Z }.
Record extended_api_state := ExtendedApiState {
  xa_enabled : bool; xa_can_respond : bool; xa_offset : Z;
  xa_offset_dict : utree protocolservice_extended_api_response_xlat_entry }.

(** [protocolservice_protocol_fiber_context]: the fields of the handshake, and the
    others. *)
Record protocol_connection := Connection {
  pn_fiber : protocolservice_protocol_fiber_context;
  pn_return_addr : Z; pn_fiber_addr : Z; pn_reference_count : Z;
  pn_req_shutdown : bool; pn_shutdown : bool; pn_dataservice_context_opened : bool;
  pn_assertion : assertion_state; pn_extended : extended_api_state }.

Definition set_fiber (f : protocolservice_protocol_fiber_context) (c : protocol_connection) :=
  Connection f (pn_return_addr c) (pn_fiber_addr c) (pn_reference_count c) (pn_req_shutdown c)
    (pn_shutdown c) (pn_dataservice_context_opened c) (pn_assertion c) (pn_extended c).
Definition add_reference (n : Z) (c : protocol_connection) :=
  Connection (pn_fiber c) (pn_return_addr c) (pn_fiber_addr c) (pn_reference_count c + n)
    (pn_req_shutdown c) (pn_shutdown c) (pn_dataservice_context_opened c) (pn_assertion c) (pn_extended c).
Definition set_req_shutdown (c : protocol_connection) :=
  Connection (pn_fiber c) (pn_return_addr c) (pn_fiber_addr c) (pn_reference_count c) true
    (pn_shutdown c) (pn_dataservice_context_opened c) (pn_assertion c) (pn_extended c).
Definition set_shutdown (c : protocol_connection) :=
  Connection (pn_fiber c) (pn_return_addr c) (pn_fiber_addr c) (pn_reference_count c) (pn_req_shutdown c)
    true (pn_dataservice_context_opened c) (pn_assertion c) (pn_extended c).
Definition set_context_opened (b : bool) (c : protocol_connection) :=
  Connection (pn_fiber c) (pn_return_addr c) (pn_fiber_addr c) (pn_reference_count c) (pn_req_shutdown c)
    (pn_shutdown c) b (pn_assertion c) (pn_extended c).
Definition set_assertion (a : assertion_state) (c : protocol_connection) :=
  Connection (pn_fiber c) (pn_return_addr c) (pn_fiber_addr c) (pn_reference_count c) (pn_req_shutdown c)
    (pn_shutdown c) (pn_dataservice_context_opened c) a (pn_extended c).
Definition set_extended (x : extended_api_state) (c : protocol_connection) :=
  Connection (pn_fiber c) (pn_return_addr c) (pn_fiber_addr c) (pn_reference_count c) (pn_req_shutdown c)
    (pn_shutdown c) (pn_dataservice_context_opened c) (pn_assertion c) x.

(** An entry of both trees of the data endpoint; entries do not change. *)
Record protocolservice_dataservice_mailbox_context_entry := MailboxContextEntry {
  me_addr : Z; me_context : Z }.

Record protocolservice_dataservice_endpoint_context := DataserviceEndpointContext {
  de_addr : Z;
  de_mailbox_context_tree : utree protocolservice_dataservice_mailbox_context_entry;
  de_context_mailbox_tree : utree protocolservice_dataservice_mailbox_context_entry }.

Record protocolservice_notificationservice_xlat_entry := XlatEntry {
  xe_client_addr : Z; xe_server_offset : Z; xe_client_offset : Z }.

Record protocolservice_notificationservice_fiber_context := NotificationFiberContext {
  ne_notify_addr : Z;
  ne_client_xlat_map : utree protocolservice_notificationservice_xlat_entry;
  ne_server_xlat_map : utree protocolservice_notificationservice_xlat_entry;
  ne_reference_count : Z; ne_request_offset_counter : Z }.

(** The context of the service, the connections and the endpoints, whose addresses are
    those of their mailboxes.  A connection is named by its position; a pointer to its
    context is that position. *)
Record service := Service {
  sv_ctx : protocolservice_context (W := W);
  sv_extended_api_dict : rbtree nat;
  sv_quiesce : bool;
  sv_connections : list protocol_connection;
  sv_data : protocolservice_dataservice_endpoint_context;
  sv_notify : protocolservice_notificationservice_fiber_context }.

Definition set_connections (l : list protocol_connection) (s : service) :=
  Service (sv_ctx s) (sv_extended_api_dict s) (sv_quiesce s) l (sv_data s) (sv_notify s).
Definition set_connection (j : nat) (f : protocol_connection → protocol_connection) (s : service) :=
  set_connections (alter f j (sv_connections s)) s.
Definition set_extended_api_dict (t : rbtree nat) (s : service) :=
  Service (sv_ctx s) t (sv_quiesce s) (sv_connections s) (sv_data s) (sv_notify s).
Definition set_service_quiesce (s : service) :=
  Service (sv_ctx s) (sv_extended_api_dict s) true (sv_connections s) (sv_data s) (sv_notify s).
Definition set_data_trees (mc cm : utree protocolservice_dataservice_mailbox_context_entry) (s : service) :=
  Service (sv_ctx s) (sv_extended_api_dict s) (sv_quiesce s) (sv_connections s)
    (DataserviceEndpointContext (de_addr (sv_data s)) mc cm) (sv_notify s).
Definition set_notify (n : protocolservice_notificationservice_fiber_context) (s : service) :=
  Service (sv_ctx s) (sv_extended_api_dict s) (sv_quiesce s) (sv_connections s) (sv_data s) n.
End data.
Arguments protocol_connection W {_ _}.
Arguments service W {_ _}.
Arguments extended_api_state W {_ _}.

(** ** Programs *)

(** A connection is served with its own vectors and secret.  The handshake, which
    shares nothing with the other fibers, is a single call. *)
Inductive op : Type :=
  | op_handshake (j : nat) (ctx : protocolservice_protocol_fiber_context)
  | op_message_send (addr : Z) (m : message)
  | op_message_receive (addr : Z)
  | op_mailbox_close (addr : Z)
  | op_fiber_scheduler_add (j : nat)
  | op_client_read (j : nat) (iv : Z) (secret : bytes)
  | op_client_write (j : nat) (iv : Z) (data : bytes) (secret : bytes)
  | op_data_write (data : bytes)
  | op_data_read
  | op_notify_write (data : bytes)
  | op_notify_read.

(** A status, and what was received or read. *)
Definition answer (o : op) : Type :=
  match o with
  | op_handshake _ _ => Z * protocolservice_protocol_fiber_context
  | op_message_receive _ => Z * message
  | op_client_read _ _ _ => Z * option bytes
  | op_data_read | op_notify_read => Z * bytes
  | _ => Z
  end.

(** [Undefined]: the code reads memory that was never written, or that is of another
    type. *)
Inductive prog (S A : Type) : Type :=
  | Done (a : A)
  | Undefined
  | Atomic {B : Type} (m : Act S B) (k : B → prog S A)
  | Call (o : op) (k : answer o → prog S A).
Arguments Done {S A} _.
Arguments Undefined {S A}.
Arguments Atomic {S A B} _ _.
Arguments Call {S A} _ _.

Fixpoint pbind {S A B} (p : prog S A) (f : A → prog S B) : prog S B :=
  match p with
  | Done a => f a
  | Undefined => Undefined
  | Atomic m k => Atomic m (λ b, pbind (k b) f)
  | Call o k => Call o (λ a, pbind (k a) f)
  end.

Notation "'let@' x := p 'in' k" := (pbind p (λ x, k))
  (at level 10, x binder, p at level 100, k at level 200) : agentd_scope.

(** What a fiber does when the body of its loop is done. *)
Inductive next := again | finished (status : Z).

Section programs.
Context {W : Type} {RB : RCPR_RBTREE W} {RT : RCPR_TREES W}.

Abbreviation program := (prog (service W * W)).

Definition lib {A} (m : Act W A) : program A :=
  Atomic (λ s, let '(a, w) := m s.2 in (a, (s.1, w))) Done.
Definition get_service : program (service W) := Atomic (λ s, (s.1, s)) Done.
Definition update (f : service W → service W) : program unit := Atomic (λ s, (tt, (f s.1, s.2))) Done.
Definition call (o : op) : program (answer o) := Call o Done.

(** The context that a fiber of the connection [j] points to. *)
Definition with_connection {A} (j : nat) (k : service W → protocol_connection W → program A) : program A :=
  let@ s := get_service in
  match sv_connections s !! j with Some c => k s c | None => Undefined end.

(** A program that fails, like [bind]. *)
Definition pcheck {A} (p : program (result A)) (k : A → program Z) : program Z :=
  let@ r := p in match r with Ok a => k a | Err retval => Done retval end.

Context {RE : RANDOM_ENDPOINT W}.

(** Put a payload in a message and send it; whoever owns what was not sent releases
    it.  The exits [cleanup_message] and [cleanup_payload] of the functions that
    send. *)
Definition send_payload (addr return_addr : Z) (payload : message_payload) : program Z :=
  let@ retval := lib message_create in
  if negb (retval =? 0) then
    let@ release_retval := lib resource_release in Done (or_else release_retval retval)
  else
    let@ retval := call (op_message_send addr (Message return_addr payload)) in
    if negb (retval =? 0) then
      let@ release_retval := lib resource_release in Done (or_else release_retval retval)
    else Done 0.
End programs.
