(* ===== verification/ProtocolRequests.v ===== *)
(** * The protocol service: the fiber that reads requests

    [protocolservice_protocol_fiber_entry.c]: the handshake, a child context of the
    data service with the capabilities of the entity, and a loop that reads a packet,
    decodes it and dispatches it ([protocolservice_protocol_dnd_*.c]).  Most requests
    become a request to the data service; the rest are answered at once, go to the
    notification service, or to another client that extends the API. *)

From S2P Require Import Prelude Inet StatusCodes Contexts Lmdb RequestCodec Ipc AuthedIpc ClientApi NotificationCodec ProtocolService Handshake ProtocolFibers.

(** ** Requests *)

Definition UNAUTH_PROTOCOL_REQ_ID_LATEST_BLOCK_ID_GET : Z := 0x00000002.
Definition UNAUTH_PROTOCOL_REQ_ID_TRANSACTION_SUBMIT : Z := 0x00000003.
Definition UNAUTH_PROTOCOL_REQ_ID_BLOCK_BY_ID_GET : Z := 0x00000004.
Definition UNAUTH_PROTOCOL_REQ_ID_BLOCK_ID_GET_NEXT : Z := 0x00000005.
Definition UNAUTH_PROTOCOL_REQ_ID_BLOCK_ID_GET_PREV : Z := 0x00000006.
Definition UNAUTH_PROTOCOL_REQ_ID_BLOCK_ID_BY_HEIGHT_GET : Z := 0x00000007.
Definition UNAUTH_PROTOCOL_REQ_ID_TRANSACTION_BY_ID_GET : Z := 0x00000010.
Definition UNAUTH_PROTOCOL_REQ_ID_TRANSACTION_ID_GET_NEXT : Z := 0x00000011.
Definition UNAUTH_PROTOCOL_REQ_ID_TRANSACTION_ID_GET_PREV : Z := 0x00000012.
Definition UNAUTH_PROTOCOL_REQ_ID_TRANSACTION_ID_GET_BLOCK_ID : Z := 0x00000013.
Definition UNAUTH_PROTOCOL_REQ_ID_ARTIFACT_FIRST_TXN_BY_ID_GET : Z := 0x00000020.
Definition UNAUTH_PROTOCOL_REQ_ID_ARTIFACT_LAST_TXN_BY_ID_GET : Z := 0x00000021.
Definition UNAUTH_PROTOCOL_REQ_ID_ASSERT_LATEST_BLOCK_ID : Z := 0x00000030.
Definition UNAUTH_PROTOCOL_REQ_ID_ASSERT_LATEST_BLOCK_ID_CANCEL : Z := 0x00000031.
Definition UNAUTH_PROTOCOL_REQ_ID_EXTENDED_API_ENABLE : Z := 0x00000050.
Definition UNAUTH_PROTOCOL_REQ_ID_EXTENDED_API_SENDRECV : Z := 0x00000051.
Definition UNAUTH_PROTOCOL_REQ_ID_EXTENDED_API_SENDRESP : Z := 0x00000053.
Definition UNAUTH_PROTOCOL_REQ_ID_STATUS_GET : Z := 0x0000A000.
Definition UNAUTH_PROTOCOL_REQ_ID_CLOSE : Z := 0x0000FFFF.

(** ** Capabilities *)

Definition uuid_of (hi lo : Z) : bytes := be_enc 8 hi ++ be_enc 8 lo.

Definition PROTOCOLSERVICE_API_CAPABILITY_BLOCK_ID_LATEST_READ : bytes :=
  uuid_of 0xc5b0eb046b2448be 0xb7d9bf9083a4be5d.
Definition PROTOCOLSERVICE_API_CAPABILITY_TRANSACTION_SUBMIT : bytes :=
  uuid_of 0xef560d24eea64847 0x9009464b127f249b.
Definition PROTOCOLSERVICE_API_CAPABILITY_BLOCK_READ : bytes :=
  uuid_of 0xf382e365122443b4 0x924a1de4d9f4cf25.
Definition PROTOCOLSERVICE_API_CAPABILITY_BLOCK_ID_BY_HEIGHT_READ : bytes :=
  uuid_of 0x915a5ef48f964ef5 0x95880a75b1cae68d.
Definition PROTOCOLSERVICE_API_CAPABILITY_TRANSACTION_READ : bytes :=
  uuid_of 0x7df210d6f00b47c4 0xa6086f3f1df7511a.
Definition PROTOCOLSERVICE_API_CAPABILITY_ARTIFACT_READ : bytes :=
  uuid_of 0xfc0e22ea1e774ea4 0xa2ae08be5ff73ccc.
Definition PROTOCOLSERVICE_API_CAPABILITY_ASSERT_LATEST_BLOCK_ID : bytes :=
  uuid_of 0x447617b4a847437c 0xb62b5bc6a94206fa.
Definition PROTOCOLSERVICE_API_CAPABILITY_ASSERT_LATEST_BLOCK_ID_CANCEL : bytes :=
  uuid_of 0xd848b1187c3446c5 0x80dbd4ffd921bb50.
Definition PROTOCOLSERVICE_API_CAPABILITY_EXTENDED_API_ENABLE : bytes :=
  uuid_of 0xc41b053c6b4a40a1 0x981b882bdeffe978.
Definition PROTOCOLSERVICE_API_CAPABILITY_EXTENDED_API_RESP : bytes :=
  uuid_of 0x25795b47b0f0456f 0xaac422131f4eace2.
Definition PROTOCOLSERVICE_API_CAPABILITY_EXTENDED_API_SENDRECV : bytes :=
  uuid_of 0x51b9e4240c45491b 0x9bda690e10873c1c.

(** The capabilities that give a capability of the data service. *)
Definition user_capabilities : list (bytes * nat) :=
  [(PROTOCOLSERVICE_API_CAPABILITY_BLOCK_ID_LATEST_READ, DATASERVICE_API_CAP_APP_BLOCK_ID_LATEST_READ);
   (PROTOCOLSERVICE_API_CAPABILITY_TRANSACTION_SUBMIT, DATASERVICE_API_CAP_APP_PQ_TRANSACTION_SUBMIT);
   (PROTOCOLSERVICE_API_CAPABILITY_BLOCK_READ, DATASERVICE_API_CAP_APP_BLOCK_READ);
   (PROTOCOLSERVICE_API_CAPABILITY_BLOCK_ID_BY_HEIGHT_READ, DATASERVICE_API_CAP_APP_BLOCK_ID_BY_HEIGHT_READ);
   (PROTOCOLSERVICE_API_CAPABILITY_TRANSACTION_READ, DATASERVICE_API_CAP_APP_TRANSACTION_READ);
   (PROTOCOLSERVICE_API_CAPABILITY_ARTIFACT_READ, DATASERVICE_API_CAP_APP_ARTIFACT_READ)].

Section requests.
Context {W : Type} {RB : RCPR_RBTREE W} {RT : RCPR_TREES W} {RA : RCPR_ALLOCATOR W}.
Context {VB : VCCRYPT_BUFFER W} {RE : RANDOM_ENDPOINT W} {RF : RCPR_FIBER W} {VP : VCBLOCKCHAIN_PROTOCOL W}.
Context {PP : PROTOCOL_PLATFORM W}.

Abbreviation program := (prog (service W * W)).

(** *** Objects *)

(** The entity of the connection. *)
Definition entity_of (s : service W) (c : protocol_connection W)
  : option (protocolservice_authorized_entity (W := W)) :=
  pf_entity (pn_fiber c) ≫= λ p, pc_heap (sv_ctx s) !! p.

Definition protocolservice_dataservice_request_message_create
    (protocol_req_id request_id offset data : Z) (payload : option bytes)
  : Eff W protocolservice_dataservice_request_message :=
  let! '(retval, _) := rcpr_allocator_allocate sizeof_request_message in
  if negb (retval =? 0) then throw retval else
  ok (DataserviceRequestMessage protocol_req_id request_id offset data payload).

Definition protocolservice_notificationservice_block_assertion_request_create
    (req_offset : Z) (block_id : bytes) (return_addr : Z)
  : Eff W protocolservice_notificationservice_block_assertion_request :=
  let! '(retval, _) := rcpr_allocator_allocate sizeof_assertion_request in
  if negb (retval =? 0) then throw retval else
  ok (BlockAssertionRequest req_offset block_id return_addr false).

(** [protocolservice_*_message_release]. *)
Definition payload_release : Act W Z := memory_reclaim.

(** *** Responses *)

Definition protocolservice_send_error_response_message (j : nat) (request_id status_ offset : Z)
  : program Z :=
  with_connection j (λ s c,
  let response := net32 (wrap32 request_id) ++ net32 (wrap32 status_) ++ net32 offset in
  let@ '(retval, _) := lib (rcpr_allocator_allocate sizeof_write_message) in
  if negb (retval =? 0) then Done retval else
  let@ '(retval, buffer) := lib (vccrypt_buffer_init (length response)) in
  if negb (retval =? 0) then
    let@ release_retval := lib payload_release in Done (or_else release_retval retval)
  else
    send_payload (pn_return_addr c) (pn_return_addr c)
      (mp_write_endpoint
         (WriteEndpointMessage PROTOCOLSERVICE_PROTOCOL_WRITE_ENDPOINT_PACKET 0 0
            (Some (splice 0 response buffer))))).

(** Whether the entity has a capability for an object. *)
Definition connection_capability_check (j : nat) (verb_id : bytes) (object_id : option bytes)
  : program bool :=
  with_connection j (λ s c,
  match entity_of s c with
  | Some entity =>
      lib (protocolservice_authorized_entity_capability_check entity (pf_entity_uuid (pn_fiber c)) verb_id
             (default (pc_agentd_uuid (sv_ctx s)) object_id))
  | None => Undefined
  end).

Definition authorized (j : nat) (verb_id : bytes) (k : program Z) : program Z :=
  let@ b := connection_capability_check j verb_id None in
  if negb b then Done AGENTD_ERROR_PROTOCOLSERVICE_UNAUTHORIZED else k.

(** ** Requests for the data service *)

Definition protocolservice_dataservice_send_request (j : nat) (protocol_req_id request_offset : Z)
    (request_buffer : bytes) : program Z :=
  with_connection j (λ s c,
  pcheck (lib (protocolservice_dataservice_request_message_create protocol_req_id
                 PROTOCOLSERVICE_DATASERVICE_ENDPOINT_REQ_DATASERVICE_REQ request_offset 0
                 (Some request_buffer)))
    (λ req, send_payload (de_addr (sv_data s)) (pn_return_addr c) (mp_dataservice_request req))).

(** Encode and send; a failure to encode leaves the buffer without a value, which most
    handlers do not see: they set their status and then call the encoder for its
    effect. *)
Definition encode_and_send (j : nat) (request_id request_offset : Z) (encoded : Eff W bytes)
    (checked : bool) : program Z :=
  let@ reqbuf := lib encoded in
  match reqbuf with
  | Ok reqbuf => protocolservice_dataservice_send_request j request_id request_offset reqbuf
  | Err retval => if checked then Done retval else Undefined
  end.

(** Decode, encode and send. *)
Definition decode_and_send {A} (j : nat) (request_offset : Z) (decoded : result (Z * A))
    (encode : A → Eff W bytes) (checked : bool) : program Z :=
  match decoded with
  | Err retval => Done retval
  | Ok (request_id, a) => encode_and_send j request_id request_offset (encode a) checked
  end.

Definition protocolservice_protocol_dnd_latest_block_id_get (j : nat) (request_offset : Z) : program Z :=
  encode_and_send j UNAUTH_PROTOCOL_REQ_ID_LATEST_BLOCK_ID_GET request_offset
    (dataservice_encode_request_latest_block_id_get 0) true.

Definition protocolservice_protocol_dnd_block_by_id_get (j : nat) (request_offset : Z) (payload : bytes)
  : program Z :=
  decode_and_send j request_offset (vcblockchain_protocol_decode_req_block_get payload)
    (λ block_id, dataservice_encode_request_block_get 0 block_id true) false.

Definition protocolservice_protocol_dnd_block_id_next_get (j : nat) (request_offset : Z) (payload : bytes)
  : program Z :=
  decode_and_send j request_offset (vcblockchain_protocol_decode_req_block_next_id_get payload)
    (λ block_id, dataservice_encode_request_block_get 0 block_id false) false.

Definition protocolservice_protocol_dnd_block_id_prev_get (j : nat) (request_offset : Z) (payload : bytes)
  : program Z :=
  decode_and_send j request_offset (vcblockchain_protocol_decode_req_block_prev_id_get payload)
    (λ block_id, dataservice_encode_request_block_get 0 block_id false) false.

Definition protocolservice_protocol_dnd_block_id_by_height_get (j : nat) (request_offset : Z)
    (payload : bytes) : program Z :=
  decode_and_send j request_offset (vcblockchain_protocol_decode_req_block_id_by_height_get payload)
    (λ height, dataservice_encode_request_block_id_by_height_get 0 height) true.

Definition protocolservice_protocol_dnd_transaction_by_id_get (j : nat) (request_offset : Z)
    (payload : bytes) : program Z :=
  decode_and_send j request_offset (vcblockchain_protocol_decode_req_txn_get payload)
    (λ txn_id, dataservice_encode_request_canonized_transaction_get 0 txn_id true) false.

Definition protocolservice_protocol_dnd_transaction_id_next_get (j : nat) (request_offset : Z)
    (payload : bytes) : program Z :=
  decode_and_send j request_offset (vcblockchain_protocol_decode_req_txn_next_id_get payload)
    (λ txn_id, dataservice_encode_request_canonized_transaction_get 0 txn_id false) false.

Definition protocolservice_protocol_dnd_transaction_id_prev_get (j : nat) (request_offset : Z)
    (payload : bytes) : program Z :=
  decode_and_send j request_offset (vcblockchain_protocol_decode_req_txn_prev_id_get payload)
    (λ txn_id, dataservice_encode_request_canonized_transaction_get 0 txn_id false) false.

Definition protocolservice_protocol_dnd_transaction_block_id_get (j : nat) (request_offset : Z)
    (payload : bytes) : program Z :=
  decode_and_send j request_offset (vcblockchain_protocol_decode_req_txn_block_id_get payload)
    (λ txn_id, dataservice_encode_request_canonized_transaction_get 0 txn_id false) false.

Definition protocolservice_protocol_dnd_artifact_first_transaction_id_get (j : nat) (request_offset : Z)
    (payload : bytes) : program Z :=
  decode_and_send j request_offset (vcblockchain_protocol_decode_req_artifact_first_txn_id_get payload)
    (λ artifact_id, dataservice_encode_request_artifact_get 0 artifact_id) false.

Definition protocolservice_protocol_dnd_artifact_last_transaction_id_get (j : nat) (request_offset : Z)
    (payload : bytes) : program Z :=
  decode_and_send j request_offset (vcblockchain_protocol_decode_req_artifact_last_txn_id_get payload)
    (λ artifact_id, dataservice_encode_request_artifact_get 0 artifact_id) false.

Definition MAX_TRANSACTION_CERTIFICATE_SIZE : nat := Z.to_nat 32767.

Definition protocolservice_protocol_dnd_transaction_submit (j : nat) (request_offset : Z)
    (payload : bytes) : program Z :=
  pcheck (lib (vcblockchain_protocol_decode_req_transaction_submit payload))
    (λ '(request_id, txn_id, artifact_id, cert),
     if (MAX_TRANSACTION_CERTIFICATE_SIZE <? length cert)%nat
     then Done AGENTD_ERROR_PROTOCOLSERVICE_TRANSACTION_VERIFICATION
     else
       encode_and_send j request_id request_offset
         (dataservice_encode_request_transaction_submit 0 txn_id artifact_id cert) false).

(** ** Requests that are answered at once *)

Definition protocolservice_protocol_dnd_status_get (j : nat) (request_offset : Z) (payload : bytes)
  : program Z :=
  match vcblockchain_protocol_decode_req_status_get payload with
  | Err retval => Done retval
  | Ok request_id => protocolservice_send_error_response_message j request_id 0 request_offset
  end.

Definition protocolservice_protocol_dnd_close (j : nat) (request_offset : Z) : program Z :=
  let@ _ := update (set_connection j set_req_shutdown) in
  protocolservice_send_error_response_message j UNAUTH_PROTOCOL_REQ_ID_CLOSE 0 request_offset.

(** ** Requests for the notification service *)

(** Send the request to the endpoint and wait for its answer. *)
Definition notification_exchange (j : nat)
    (req : protocolservice_notificationservice_block_assertion_request)
    (k : message → program Z) : program Z :=
  with_connection j (λ s c,
  let@ retval := send_payload (ne_notify_addr (sv_notify s)) (pn_fiber_addr c) (mp_assertion_request req) in
  if negb (retval =? 0) then Done retval else
  let@ '(retval, resp_message) := call (op_message_receive (pn_fiber_addr c)) in
  if negb (retval =? 0) then Done retval else k resp_message).

(** The status, and the offset if it was set. *)
Definition protocolservice_notificationservice_handle_assert_block_request (j : nat) (req_offset : Z)
    (block_id : bytes) (set_offset : Z → service W → service W) : program Z :=
  with_connection j (λ s c,
  pcheck (lib (protocolservice_notificationservice_block_assertion_request_create req_offset block_id
                 (pn_return_addr c)))
    (λ req, notification_exchange j req (λ resp_message,
     match as_assertion_response resp_message with
     | Some resp => let@ _ := update (set_offset (bs_offset resp)) in lib resource_release
     | None => Undefined
     end))).

Definition protocolservice_notificationservice_handle_assert_block_cancel_request (j : nat)
    (req_offset : Z) : program Z :=
  with_connection j (λ s c,
  pcheck (lib (protocolservice_notificationservice_block_assertion_request_create req_offset
                 (memset Byte.x00 16) (pn_return_addr c)))
    (λ req, notification_exchange j
              (BlockAssertionRequest (br_req_offset req) (br_block_id req) (br_reply_addr req) true)
              (λ resp_message, lib resource_release))).

Definition protocolservice_protocol_dnd_assert_latest_block_id (j : nat) (request_offset : Z)
    (payload : bytes) : program Z :=
  authorized j PROTOCOLSERVICE_API_CAPABILITY_ASSERT_LATEST_BLOCK_ID
  match vcblockchain_protocol_decode_req_assert_latest_block_id payload with
  | Err retval => Done retval
  | Ok (offset, latest_block_id) =>
      with_connection j (λ s c,
      if la_set (pn_assertion c) then Done AGENTD_ERROR_PROTOCOLSERVICE_BLOCK_ASSERTION_ALREADY_SET else
      let@ retval := protocolservice_notificationservice_handle_assert_block_request j offset latest_block_id
                       (λ o, set_connection j (λ c, set_assertion
                          (AssertionState (la_set (pn_assertion c)) (la_client_offset (pn_assertion c)) o) c)) in
      if negb (retval =? 0) then Done retval else
      let@ _ := update (set_connection j (λ c, set_assertion
                  (AssertionState true request_offset (la_server_offset (pn_assertion c))) c)) in
      Done 0)
  end.

Definition protocolservice_protocol_dnd_assert_latest_block_id_cancel (j : nat) (request_offset : Z)
    (payload : bytes) : program Z :=
  authorized j PROTOCOLSERVICE_API_CAPABILITY_ASSERT_LATEST_BLOCK_ID_CANCEL
  match vcblockchain_protocol_decode_req_assert_latest_block_id_cancel payload with
  | Err retval => Done retval
  | Ok _ =>
      with_connection j (λ s c,
      if negb (la_set (pn_assertion c)) then Done AGENTD_ERROR_PROTOCOLSERVICE_BLOCK_ASSERTION_NOT_SET else
      protocolservice_notificationservice_handle_assert_block_cancel_request j request_offset)
  end.

(** ** The extended API *)

Definition protocolservice_extended_api_dict_entry_create : Eff W unit :=
  let! '(retval, _) := rcpr_allocator_allocate sizeof_dict_entry in
  if negb (retval =? 0) then throw retval else ok tt.

Definition protocolservice_protocol_route_extended_api_for_entity (j : nat) : program Z :=
  with_connection j (λ s c,
  let id := pf_entity_uuid (pn_fiber c) in
  let@ found := lib (rbtree_find (sv_extended_api_dict s) id) in
  match found with
  | Ok _ => Done AGENTD_ERROR_PROTOCOLSERVICE_EXTENDED_API_ALREADY_ENABLED
  | Err _ =>
      pcheck (lib protocolservice_extended_api_dict_entry_create) (λ _,
      let@ '(retval, dict) := lib (rbtree_insert (sv_extended_api_dict s) id j) in
      let@ _ := update (set_extended_api_dict dict) in
      if negb (retval =? 0) then
        let@ release_retval := lib memory_reclaim in Done (or_else release_retval retval)
      else Done 0)
  end).

Definition protocolservice_protocol_unroute_extended_api_for_entity (j : nat) : program Z :=
  with_connection j (λ s c,
  let@ '(retval, dict) := lib (rbtree_delete (sv_extended_api_dict s) (pf_entity_uuid (pn_fiber c))) in
  let@ _ := update (set_extended_api_dict dict) in
  Done retval).

Definition change_extended (j : nat) (f : extended_api_state W → extended_api_state W) : program unit :=
  update (set_connection j (λ c, set_extended (f (pn_extended c)) c)).

Definition protocolservice_protocol_dnd_extended_api_enable (j : nat) (request_offset : Z)
    (payload : bytes) : program Z :=
  authorized j PROTOCOLSERVICE_API_CAPABILITY_EXTENDED_API_ENABLE
  match vcblockchain_protocol_decode_req_extended_api_enable payload with
  | Err retval => Done retval
  | Ok request_id =>
      let@ can_respond := connection_capability_check j PROTOCOLSERVICE_API_CAPABILITY_EXTENDED_API_RESP None in
      let@ _ := change_extended j (λ x,
        ExtendedApiState (xa_enabled x) can_respond (xa_offset x) (xa_offset_dict x)) in
      let@ retval := protocolservice_protocol_route_extended_api_for_entity j in
      if negb (retval =? 0) then Done retval else
      let@ _ := change_extended j (λ x,
        ExtendedApiState true (xa_can_respond x) (xa_offset x) (xa_offset_dict x)) in
      protocolservice_send_error_response_message j request_id 0 request_offset
  end.

Definition protocolservice_extended_api_response_xlat_entry_add (i : nat)
    (server_offset client_offset return_addr : Z) : program Z :=
  let@ '(retval, _) := lib (rcpr_allocator_allocate sizeof_response_xlat_entry) in
  if negb (retval =? 0) then Done retval else
  with_connection i (λ s c,
  let@ '(retval, dict) :=
    lib (utree_insert (xa_offset_dict (pn_extended c)) server_offset
           (ResponseXlatEntry server_offset client_offset return_addr)) in
  let@ _ := change_extended i (λ x,
    ExtendedApiState (xa_enabled x) (xa_can_respond x) (xa_offset x) dict) in
  if negb (retval =? 0) then
    let@ release_retval := lib memory_reclaim in Done (or_else release_retval retval)
  else Done 0).

(** The packet for the client [i] that extends the API, and its offset. *)
Definition protocolservice_protocol_create_extended_api_clientreq_payload (j i : nat)
    (verb_id request_body : bytes) : program (result (bytes * Z)) :=
  with_connection i (λ s x,
  let offset := wrap64 (xa_offset (pn_extended x) + 1) in
  let@ _ := change_extended i (λ x, ExtendedApiState (xa_enabled x) (xa_can_respond x) offset (xa_offset_dict x)) in
  with_connection j (λ s c,
  match entity_of s c with
  | Some entity =>
      let@ buffer := lib (vcblockchain_protocol_encode_resp_extended_api_client_request offset
                            (pf_entity_uuid (pn_fiber c)) verb_id (ae_encryption_pubkey entity)
                            (ae_signing_pubkey entity) request_body) in
      Done match buffer with Ok buffer => Ok (buffer, offset) | Err retval => Err retval end
  | None => Undefined
  end)).

Definition protocolservice_protocol_extended_api_send_req (j : nat) (offset : Z)
    (entity_id verb_id request_body : bytes) : program Z :=
  let@ b := connection_capability_check j verb_id (Some entity_id) in
  if negb b then Done AGENTD_ERROR_PROTOCOLSERVICE_UNAUTHORIZED else
  with_connection j (λ s c,
  let@ entry := lib (rbtree_find (sv_extended_api_dict s) entity_id) in
  match entry with
  | Err _ => Done AGENTD_ERROR_PROTOCOLSERVICE_EXTENDED_API_UNKNOWN_ENTITY
  | Ok i =>
      let@ '(retval, _) := lib (rcpr_allocator_allocate sizeof_write_message) in
      if negb (retval =? 0) then Done retval else
      let@ created := protocolservice_protocol_create_extended_api_clientreq_payload j i verb_id request_body in
      match created with
      | Err retval => let@ release_retval := lib payload_release in Done (or_else release_retval retval)
      | Ok (payload, clientreq_offset) =>
          let@ retval := lib message_create in
          if negb (retval =? 0) then
            let@ release_retval := lib payload_release in Done (or_else release_retval retval)
          else
            with_connection i (λ s x,
            let@ retval :=
              if xa_can_respond (pn_extended x) then
                protocolservice_extended_api_response_xlat_entry_add i clientreq_offset offset (pn_return_addr c)
              else Done 0 in
            if negb (retval =? 0) then
              let@ release_retval := lib resource_release in Done (or_else release_retval retval)
            else
              let@ retval := call (op_message_send (pn_return_addr x)
                (Message (pn_return_addr c) (mp_write_endpoint
                   (WriteEndpointMessage PROTOCOLSERVICE_PROTOCOL_WRITE_ENDPOINT_PACKET 0 0 (Some payload))))) in
              if negb (retval =? 0) then
                let@ release_retval := lib resource_release in Done (or_else release_retval retval)
              else
                with_connection i (λ s x,
                if negb (xa_can_respond (pn_extended x)) then
                  protocolservice_send_error_response_message j UNAUTH_PROTOCOL_REQ_ID_EXTENDED_API_SENDRECV 0 offset
                else Done 0))
      end
  end).

Definition protocolservice_protocol_dnd_extended_api_sendrecv (j : nat) (payload : bytes) : program Z :=
  authorized j PROTOCOLSERVICE_API_CAPABILITY_EXTENDED_API_SENDRECV
  (pcheck (lib (vcblockchain_protocol_decode_req_extended_api payload)) (λ '(offset, entity_id, verb_id, body),
   protocolservice_protocol_extended_api_send_req j offset entity_id verb_id body)).

(** The offset of the response is truncated to 32 bits. *)
Definition protocolservice_protocol_dnd_extended_api_sendresp (j : nat) (payload : bytes) : program Z :=
  authorized j PROTOCOLSERVICE_API_CAPABILITY_EXTENDED_API_RESP
  (pcheck (lib (vcblockchain_protocol_decode_req_extended_api_response payload)) (λ '(offset, status, body),
   with_connection j (λ s c,
   pcheck (lib (utree_find (xa_offset_dict (pn_extended c)) offset)) (λ entry,
   let@ '(retval, _) := lib (rcpr_allocator_allocate sizeof_write_message) in
   if negb (retval =? 0) then Done retval else
   let@ encoded := lib (vcblockchain_protocol_encode_resp_extended_api (xr_client_offset entry) status body) in
   match encoded with
   | Err retval => let@ release_retval := lib payload_release in Done (or_else release_retval retval)
   | Ok buffer =>
       let@ retval := send_payload (xr_client_return_address entry) (pn_return_addr c)
         (mp_write_endpoint
            (WriteEndpointMessage PROTOCOLSERVICE_PROTOCOL_WRITE_ENDPOINT_PACKET 0 0 (Some buffer))) in
       if negb (retval =? 0) then Done retval else
       with_connection j (λ s c,
       let@ '(retval, dict) := lib (utree_delete (xa_offset_dict (pn_extended c)) offset) in
       let@ _ := change_extended j (λ x,
         ExtendedApiState (xa_enabled x) (xa_can_respond x) (xa_offset x) dict) in
       if negb (retval =? 0) then Done retval else
       protocolservice_send_error_response_message j UNAUTH_PROTOCOL_REQ_ID_EXTENDED_API_SENDRESP 0
         (wrap32 offset))
   end)))).

(** ** Dispatching *)

Definition protocolservice_protocol_dispatch (j : nat) (request_id request_offset : Z) (payload : bytes)
  : program Z :=
  if request_id =? UNAUTH_PROTOCOL_REQ_ID_LATEST_BLOCK_ID_GET then
    protocolservice_protocol_dnd_latest_block_id_get j request_offset
  else if request_id =? UNAUTH_PROTOCOL_REQ_ID_TRANSACTION_SUBMIT then
    protocolservice_protocol_dnd_transaction_submit j request_offset payload
  else if request_id =? UNAUTH_PROTOCOL_REQ_ID_BLOCK_BY_ID_GET then
    protocolservice_protocol_dnd_block_by_id_get j request_offset payload
  else if request_id =? UNAUTH_PROTOCOL_REQ_ID_BLOCK_ID_GET_NEXT then
    protocolservice_protocol_dnd_block_id_next_get j request_offset payload
  else if request_id =? UNAUTH_PROTOCOL_REQ_ID_BLOCK_ID_GET_PREV then
    protocolservice_protocol_dnd_block_id_prev_get j request_offset payload
  else if request_id =? UNAUTH_PROTOCOL_REQ_ID_BLOCK_ID_BY_HEIGHT_GET then
    protocolservice_protocol_dnd_block_id_by_height_get j request_offset payload
  else if request_id =? UNAUTH_PROTOCOL_REQ_ID_TRANSACTION_BY_ID_GET then
    protocolservice_protocol_dnd_transaction_by_id_get j request_offset payload
  else if request_id =? UNAUTH_PROTOCOL_REQ_ID_TRANSACTION_ID_GET_NEXT then
    protocolservice_protocol_dnd_transaction_id_next_get j request_offset payload
  else if request_id =? UNAUTH_PROTOCOL_REQ_ID_TRANSACTION_ID_GET_PREV then
    protocolservice_protocol_dnd_transaction_id_prev_get j request_offset payload
  else if request_id =? UNAUTH_PROTOCOL_REQ_ID_TRANSACTION_ID_GET_BLOCK_ID then
    protocolservice_protocol_dnd_transaction_block_id_get j request_offset payload
  else if request_id =? UNAUTH_PROTOCOL_REQ_ID_ARTIFACT_FIRST_TXN_BY_ID_GET then
    protocolservice_protocol_dnd_artifact_first_transaction_id_get j request_offset payload
  else if request_id =? UNAUTH_PROTOCOL_REQ_ID_ARTIFACT_LAST_TXN_BY_ID_GET then
    protocolservice_protocol_dnd_artifact_last_transaction_id_get j request_offset payload
  else if request_id =? UNAUTH_PROTOCOL_REQ_ID_ASSERT_LATEST_BLOCK_ID then
    protocolservice_protocol_dnd_assert_latest_block_id j request_offset payload
  else if request_id =? UNAUTH_PROTOCOL_REQ_ID_ASSERT_LATEST_BLOCK_ID_CANCEL then
    protocolservice_protocol_dnd_assert_latest_block_id_cancel j request_offset payload
  else if request_id =? UNAUTH_PROTOCOL_REQ_ID_EXTENDED_API_ENABLE then
    protocolservice_protocol_dnd_extended_api_enable j request_offset payload
  else if request_id =? UNAUTH_PROTOCOL_REQ_ID_EXTENDED_API_SENDRECV then
    protocolservice_protocol_dnd_extended_api_sendrecv j payload
  else if request_id =? UNAUTH_PROTOCOL_REQ_ID_EXTENDED_API_SENDRESP then
    protocolservice_protocol_dnd_extended_api_sendresp j payload
  else if request_id =? UNAUTH_PROTOCOL_REQ_ID_STATUS_GET then
    protocolservice_protocol_dnd_status_get j request_offset payload
  else if request_id =? UNAUTH_PROTOCOL_REQ_ID_CLOSE then
    protocolservice_protocol_dnd_close j request_offset
  else Done AGENTD_ERROR_PROTOCOLSERVICE_INVALID_REQUEST_ID.

(** A failure is reported to the client and is not one of the fiber. *)
Definition protocolservice_protocol_decode_and_dispatch (j : nat) (request_id request_offset : Z)
    (payload : bytes) : program Z :=
  let@ retval := protocolservice_protocol_dispatch j request_id request_offset payload in
  if negb (retval =? 0) then protocolservice_send_error_response_message j request_id retval request_offset
  else Done 0.

Definition protocolservice_protocol_read_decode_and_dispatch_packet (j : nat) : program Z :=
  with_connection j (λ s c,
  let@ '(retval, req) := call (op_client_read j (pf_client_iv (pn_fiber c)) (pf_shared_secret (pn_fiber c))) in
  let report retval :=
    let@ release_retval := protocolservice_send_error_response_message j 0 retval 0 in
    Done (or_else release_retval retval) in
  let@ retval :=
    if negb (retval =? 0) then report retval else
    let@ _ := update (set_connection j (λ c, set_fiber (next_client_iv (pn_fiber c)) c)) in
    match req with
    | None => Undefined
    | Some req =>
        if (length req <? 4 + 4)%nat then report AGENTD_ERROR_PROTOCOLSERVICE_MALFORMED_REQUEST else
        protocolservice_protocol_decode_and_dispatch j (ntohl (le_dec (sub 0 4 req)))
          (ntohl (le_dec (sub 4 4 req))) req
    end in
  match req with
  | Some _ => let@ release_retval := lib memory_reclaim in Done (or_else release_retval retval)
  | None => Done retval
  end).

(** ** The context of the data service *)

Fixpoint check_capabilities (entity : protocolservice_authorized_entity (W := W)) (id agentd_id : bytes)
    (l : list (bytes * nat)) (caps : bitcap) : Act W bitcap :=
  match l with
  | [] => ret caps
  | (verb, cap) :: l =>
      let! b := protocolservice_authorized_entity_capability_check entity id verb agentd_id in
      check_capabilities entity id agentd_id l (if b then BITCAP_SET_TRUE caps cap else caps)
  end.

(** The entity is looked up again. *)
Definition protocolservice_dataservice_map_user_capabilities (ctx : protocolservice_context (W := W))
    (entity_uuid : bytes) : Eff W bytes :=
  let! entity := rbtree_find (pc_authorized_entity_dict ctx) entity_uuid in
  match entity with
  | Err _ => throw AGENTD_ERROR_PROTOCOLSERVICE_UNAUTHORIZED
  | Ok p =>
      match pc_heap ctx !! p with
      | None => throw AGENTD_ERROR_PROTOCOLSERVICE_UNAUTHORIZED
      | Some entity =>
          let caps := BITCAP_SET_TRUE (BITCAP_INIT_FALSE cap_words) DATASERVICE_API_CAP_LL_CHILD_CONTEXT_CLOSE in
          let! caps := check_capabilities entity entity_uuid (pc_agentd_uuid ctx) user_capabilities caps in
          let! '(retval, datacap_buffer) := vccrypt_buffer_init (length (caps_bytes caps)) in
          if negb (retval =? 0) then throw AGENTD_ERROR_GENERAL_OUT_OF_MEMORY
          else ok (splice 0 (caps_bytes caps) datacap_buffer)
      end
  end.

(** Send a request of the connection itself to the data endpoint, and wait for the
    answer, whose contents do not matter. *)
Definition endpoint_exchange (j : nat) (req : protocolservice_dataservice_request_message) (opened : bool)
  : program Z :=
  with_connection j (λ s c,
  let@ retval := send_payload (de_addr (sv_data s)) (pn_fiber_addr c) (mp_dataservice_request req) in
  if negb (retval =? 0) then Done retval else
  let@ '(retval, _) := call (op_message_receive (pn_fiber_addr c)) in
  if negb (retval =? 0) then Done retval else
  let@ _ := update (set_connection j (set_context_opened opened)) in
  lib resource_release).

Definition protocolservice_protocol_request_data_service_context (j : nat) : program Z :=
  with_connection j (λ s c,
  pcheck (lib (protocolservice_dataservice_request_message_create 0
                 PROTOCOLSERVICE_DATASERVICE_ENDPOINT_REQ_CONTEXT_OPEN 0 (pn_return_addr c) None)) (λ req,
  let@ caps := lib (protocolservice_dataservice_map_user_capabilities (sv_ctx s) (pf_entity_uuid (pn_fiber c))) in
  match caps with
  | Err retval => let@ release_retval := lib payload_release in Done (or_else release_retval retval)
  | Ok caps =>
      endpoint_exchange j
        (DataserviceRequestMessage (dm_protocol_request_id req) (dm_request_id req) (dm_offset req)
           (dm_data req) (Some caps)) true
  end)).

Definition protocolservice_protocol_close_data_service_context (j : nat) : program Z :=
  with_connection j (λ s c,
  pcheck (lib (protocolservice_dataservice_request_message_create 0
                 PROTOCOLSERVICE_DATASERVICE_ENDPOINT_REQ_CONTEXT_CLOSE 0 (pn_return_addr c) None))
    (λ req, endpoint_exchange j req false)).

(** ** Start and end of a connection *)

(** The last of the two fibers releases the context. *)
Definition protocolservice_protocol_fiber_context_release (j : nat) : program Z :=
  let@ _ := update (set_connection j (add_reference (-1))) in
  with_connection j (λ s c,
  if 0 <? pn_reference_count c then Done 0 else
  let@ extended_api_disable_retval :=
    if xa_enabled (pn_extended c) then protocolservice_protocol_unroute_extended_api_for_entity j else Done 0 in
  let@ dataservice_context_release_retval :=
    if pn_dataservice_context_opened c then protocolservice_protocol_close_data_service_context j else Done 0 in
  let@ protosock_release_retval := lib resource_release in
  with_connection j (λ s c,
  let@ extended_api_offset_dict_release_retval := lib (utree_release (xa_offset_dict (pn_extended c))) in
  let@ mailbox_close_retval :=
    if 0 <? pn_return_addr c then call (op_mailbox_close (pn_return_addr c)) else Done 0 in
  let@ fiber_mailbox_close_retval :=
    if 0 <? pn_fiber_addr c then call (op_mailbox_close (pn_fiber_addr c)) else Done 0 in
  let@ context_release_retval := lib memory_reclaim in
  Done (or_else extended_api_disable_retval (or_else dataservice_context_release_retval
         (or_else protosock_release_retval (or_else mailbox_close_retval
         (or_else fiber_mailbox_close_retval (or_else extended_api_offset_dict_release_retval
            context_release_retval)))))))).

Definition protocolservice_protocol_shutdown_write_endpoint (j : nat) : program Z :=
  with_connection j (λ s c,
  let@ '(retval, _) := lib (rcpr_allocator_allocate sizeof_write_message) in
  if negb (retval =? 0) then Done retval else
  send_payload (pn_return_addr c) (pn_return_addr c)
    (mp_write_endpoint
       (WriteEndpointMessage PROTOCOLSERVICE_PROTOCOL_WRITE_ENDPOINT_MESSAGE_SHUTDOWN 0 0 None))).

Definition protocolservice_protocol_write_endpoint_add (j : nat) : program Z :=
  let@ _ := update (set_connection j (add_reference 1)) in
  let release_context retval :=
    let@ release_retval := protocolservice_protocol_fiber_context_release j in
    Done (or_else release_retval retval) in
  let release_fiber retval :=
    let@ release_retval := lib resource_release in release_context (or_else release_retval retval) in
  let@ retval := lib fiber_create in
  if negb (retval =? 0) then release_context retval else
  let@ retval := lib fiber_unexpected_event_callback_add in
  if negb (retval =? 0) then release_fiber retval else
  let@ retval := call (op_fiber_scheduler_add j) in
  if negb (retval =? 0) then release_fiber retval else Done 0.

Definition cleanup_context (j : nat) (retval : Z) : program next :=
  let@ release_retval := protocolservice_protocol_fiber_context_release j in
  Done (finished (or_else release_retval retval)).

Definition shutdown_write_endpoint (j : nat) (retval : Z) : program next :=
  let@ release_retval := protocolservice_protocol_shutdown_write_endpoint j in
  cleanup_context j (or_else release_retval retval).

(** [protocolservice_protocol_fiber_entry]: what comes before the loop, and its
    body. *)
Definition protocolservice_protocol_fiber_start (j : nat) : program next :=
  with_connection j (λ s c,
  let@ '(retval, f) := call (op_handshake j (pn_fiber c)) in
  let@ _ := update (set_connection j (set_fiber f)) in
  if negb (retval =? 0) then cleanup_context j retval else
  let@ retval := protocolservice_protocol_request_data_service_context j in
  if negb (retval =? 0) then cleanup_context j retval else
  let@ retval := protocolservice_protocol_write_endpoint_add j in
  if negb (retval =? 0) then cleanup_context j retval else Done again).

Definition protocolservice_protocol_fiber_loop (j : nat) : program next :=
  with_connection j (λ s c,
  if sv_quiesce s || pn_shutdown c || pn_req_shutdown c then shutdown_write_endpoint j 0 else
  let@ retval := protocolservice_protocol_read_decode_and_dispatch_packet j in
  if negb (retval =? 0) then shutdown_write_endpoint j retval else Done again).
End requests.
