(* ===== verification/ProtocolResponses.v ===== *)
(** * The protocol service: the fiber that writes responses

    [protocolservice_protocol_write_endpoint_entry.c]: it takes the messages from the
    return mailbox of the connection and writes a packet for each.  A response of the
    data service becomes a response to the request that the client had made
    ([protocolservice_pwe_dnd_dataservice_*.c]). *)

From S2P Require Import Prelude Inet StatusCodes Contexts Lmdb Records RequestCodec ResponseCodec Ipc AuthedIpc ClientApi NotificationCodec ProtocolService Handshake ProtocolFibers ProtocolRequests.

Section responses.
Context {W : Type} {RB : RCPR_RBTREE W} {RT : RCPR_TREES W} {RA : RCPR_ALLOCATOR W}.
Context {VB : VCCRYPT_BUFFER W} {RE : RANDOM_ENDPOINT W} {RF : RCPR_FIBER W} {VP : VCBLOCKCHAIN_PROTOCOL W}.
Context {KB : KEY_BUFFERS W} {KA : KEY_AGREEMENT W} {VS : VCCRYPT_SUITE W} {MO : MAC_OPTIONS W}.
Context {PP : PROTOCOL_PLATFORM W}.

Abbreviation program := (prog (service W * W)).
Abbreviation write_message := protocolservice_protocol_write_endpoint_message.

(** ** Packets

    The handlers differ in the packet, which they write in the end; [resp] is what the
    data service responded. *)

Definition decoded {A B} (r : result A) (k : A → Eff W B) : Eff W B :=
  match r with Ok a => k a | Err s => throw s end.

(** The packet for a failed request. *)
Definition error_packet (payload : write_message) (status : Z) : Eff W bytes :=
  vcblockchain_protocol_encode_error_resp (wm_original_request_id payload) (wm_offset payload) status.

(** An identifier, unless it is a sentinel. *)
Definition id_packet (payload : write_message) (id sentinel : bytes) (encode : Z → Z → bytes → Eff W bytes)
    (status : Z) : Eff W bytes :=
  if crypto_memcmp id sentinel =? 0 then error_packet payload AGENTD_ERROR_DATASERVICE_NOT_FOUND
  else encode (wm_offset payload) status id.

Definition protocolservice_pwe_dnd_dataservice_block_id_latest_get (payload : write_message) (resp : bytes)
  : Eff W bytes :=
  decoded (dataservice_decode_response_latest_block_id_get resp) (λ '(hdr, block_id),
  vcblockchain_protocol_encode_resp_latest_block_id_get (wm_offset payload) (rh_status hdr) block_id).

Definition protocolservice_pwe_dnd_dataservice_block_id_by_height_get (payload : write_message)
    (resp : bytes) : Eff W bytes :=
  decoded (dataservice_decode_response_block_id_by_height_get resp) (λ '(hdr, block_id),
  vcblockchain_protocol_encode_resp_block_id_by_height_get (wm_offset payload) (rh_status hdr) block_id).

Definition protocolservice_pwe_dnd_dataservice_transaction_submit (payload : write_message) (resp : bytes)
  : Eff W bytes :=
  decoded (dataservice_decode_response_transaction_submit resp) (λ hdr,
  vcblockchain_protocol_encode_resp_transaction_submit (wm_offset payload) (rh_status hdr)).

Definition protocolservice_pwe_dnd_dataservice_artifact_get (payload : write_message) (resp : bytes)
  : Eff W bytes :=
  decoded (dataservice_decode_response_artifact_get resp) (λ '(hdr, record),
  if negb (rh_status hdr =? 0) then error_packet payload (rh_status hdr)
  else if wm_original_request_id payload =? UNAUTH_PROTOCOL_REQ_ID_ARTIFACT_LAST_TXN_BY_ID_GET then
    vcblockchain_protocol_encode_resp_artifact_last_txn_id_get (wm_offset payload) (rh_status hdr)
      (artifact_txn_latest record)
  else
    vcblockchain_protocol_encode_resp_artifact_first_txn_id_get (wm_offset payload) (rh_status hdr)
      (artifact_txn_first record)).

Definition protocolservice_pwe_dnd_encode_protocol_block_get (payload : write_message)
    (status : Z) (node data : bytes) : Eff W bytes :=
  vcblockchain_protocol_encode_resp_block_get (wm_offset payload) status (block_node_key node)
    (block_node_prev node) (block_node_next node) (block_node_first_transaction_id node)
    (ntohll (block_node_net_block_height node)) (ntohll (block_node_net_block_cert_size node)) data.

Definition protocolservice_pwe_dnd_dataservice_block_get (payload : write_message) (resp : bytes)
  : Eff W bytes :=
  decoded (dataservice_decode_response_block_get resp) (λ '(hdr, node, data),
  if negb (rh_status hdr =? 0) then error_packet payload (rh_status hdr)
  else if wm_original_request_id payload =? UNAUTH_PROTOCOL_REQ_ID_BLOCK_ID_GET_NEXT then
    id_packet payload (block_node_next node) ff_uuid vcblockchain_protocol_encode_resp_block_next_id_get
      (rh_status hdr)
  else if wm_original_request_id payload =? UNAUTH_PROTOCOL_REQ_ID_BLOCK_ID_GET_PREV then
    id_packet payload (block_node_prev node) zero_uuid vcblockchain_protocol_encode_resp_block_prev_id_get
      (rh_status hdr)
  else protocolservice_pwe_dnd_encode_protocol_block_get payload (rh_status hdr) node data).

Definition protocolservice_pwe_dnd_encode_protocol_transaction_get (payload : write_message)
    (status : Z) (node data : bytes) : Eff W bytes :=
  vcblockchain_protocol_encode_resp_txn_get (wm_offset payload) status (txn_node_key node)
    (txn_node_prev node) (txn_node_next node) (txn_node_artifact_id node) (txn_node_block_id node)
    (ntohll (txn_node_net_txn_cert_size node)) data (ntohl (txn_node_net_txn_state node)).

Definition protocolservice_pwe_dnd_dataservice_transaction_get (payload : write_message) (resp : bytes)
  : Eff W bytes :=
  decoded (dataservice_decode_response_canonized_transaction_get resp) (λ '(hdr, node, data),
  if negb (rh_status hdr =? 0) then error_packet payload (rh_status hdr)
  else if wm_original_request_id payload =? UNAUTH_PROTOCOL_REQ_ID_TRANSACTION_ID_GET_NEXT then
    id_packet payload (txn_node_next node) ff_uuid vcblockchain_protocol_encode_resp_txn_next_id_get
      (rh_status hdr)
  else if wm_original_request_id payload =? UNAUTH_PROTOCOL_REQ_ID_TRANSACTION_ID_GET_PREV then
    id_packet payload (txn_node_prev node) zero_uuid vcblockchain_protocol_encode_resp_txn_prev_id_get
      (rh_status hdr)
  else if wm_original_request_id payload =? UNAUTH_PROTOCOL_REQ_ID_TRANSACTION_ID_GET_BLOCK_ID then
    vcblockchain_protocol_encode_resp_txn_block_id_get (wm_offset payload) (rh_status hdr)
      (txn_node_block_id node)
  else protocolservice_pwe_dnd_encode_protocol_transaction_get payload (rh_status hdr) node data).

(** By the method of the response. *)
Definition protocolservice_pwe_dnd_dataservice_message (payload : write_message) (resp : bytes)
  : Eff W bytes :=
  let method := ntohl (le_dec (sub 0 4 resp)) in
  if method =? DATASERVICE_API_METHOD_APP_BLOCK_ID_LATEST_READ then
    protocolservice_pwe_dnd_dataservice_block_id_latest_get payload resp
  else if method =? DATASERVICE_API_METHOD_APP_BLOCK_READ then
    protocolservice_pwe_dnd_dataservice_block_get payload resp
  else if method =? DATASERVICE_API_METHOD_APP_TRANSACTION_READ then
    protocolservice_pwe_dnd_dataservice_transaction_get payload resp
  else if method =? DATASERVICE_API_METHOD_APP_ARTIFACT_READ then
    protocolservice_pwe_dnd_dataservice_artifact_get payload resp
  else if method =? DATASERVICE_API_METHOD_APP_PQ_TRANSACTION_SUBMIT then
    protocolservice_pwe_dnd_dataservice_transaction_submit payload resp
  else if method =? DATASERVICE_API_METHOD_APP_BLOCK_ID_BY_HEIGHT_READ then
    protocolservice_pwe_dnd_dataservice_block_id_by_height_get payload resp
  else throw AGENTD_ERROR_PROTOCOLSERVICE_DATASERVICE_INVALID_RESPONSE_ID.

(** ** Writing *)

(** Each packet has the next vector of the service, also if it could not be written. *)
Definition protocolservice_protocol_write_endpoint_write_raw_packet (j : nat) (msg : bytes) : program Z :=
  with_connection j (λ s c,
  let@ retval := call (op_client_write j (pf_server_iv (pn_fiber c)) msg (pf_shared_secret (pn_fiber c))) in
  let@ _ := update (set_connection j (λ c, set_fiber (next_server_iv (pn_fiber c)) c)) in
  Done retval).

Definition protocolservice_protocol_write_endpoint_write_packet (j : nat) (payload : write_message)
  : program Z :=
  protocolservice_protocol_write_endpoint_write_raw_packet j (default [] (wm_payload payload)).

Definition protocolservice_pwe_dnd_notificationservice_message (j : nat) (payload : write_message)
  : program Z :=
  pcheck (lib (vcblockchain_protocol_encode_resp_generic (wm_original_request_id payload)
                 (wm_offset payload) 0 [])) (λ respbuf,
  let@ retval := protocolservice_protocol_write_endpoint_write_raw_packet j respbuf in
  if negb (retval =? 0) then Done retval else
  let@ _ := update (set_connection j (λ c, set_assertion
              (AssertionState false (la_client_offset (pn_assertion c)) (la_server_offset (pn_assertion c))) c)) in
  Done 0).

Definition protocolservice_protocol_write_endpoint_decode_and_dispatch (j : nat) (msg : message)
  : program Z :=
  match as_write_endpoint msg with
  | None => Undefined
  | Some payload =>
      if wm_message_type payload =? PROTOCOLSERVICE_PROTOCOL_WRITE_ENDPOINT_MESSAGE_SHUTDOWN then
        let@ _ := update (set_connection j set_shutdown) in Done 0
      else if wm_message_type payload =? PROTOCOLSERVICE_PROTOCOL_WRITE_ENDPOINT_DATASERVICE_MSG then
        match wm_payload payload with
        | Some resp =>
            if (length resp <? 4)%nat then Undefined else
            pcheck (lib (protocolservice_pwe_dnd_dataservice_message payload resp))
              (protocolservice_protocol_write_endpoint_write_raw_packet j)
        | None => Undefined
        end
      else if wm_message_type payload =? PROTOCOLSERVICE_PROTOCOL_WRITE_ENDPOINT_NOTIFICATION_MSG then
        protocolservice_pwe_dnd_notificationservice_message j payload
      else if wm_message_type payload =? PROTOCOLSERVICE_PROTOCOL_WRITE_ENDPOINT_PACKET then
        protocolservice_protocol_write_endpoint_write_packet j payload
      else Done AGENTD_ERROR_PROTOCOLSERVICE_MALFORMED_RESPONSE
  end.

(** The body of the loop of [protocolservice_protocol_write_endpoint_entry]. *)
Definition protocolservice_protocol_write_endpoint_loop (j : nat) : program next :=
  with_connection j (λ s c,
  if sv_quiesce s || pn_shutdown c then cleanup_context j 0 else
  let@ '(retval, msg) := call (op_message_receive (pn_return_addr c)) in
  if negb (retval =? 0) then cleanup_context j retval else
  let@ retval := protocolservice_protocol_write_endpoint_decode_and_dispatch j msg in
  if negb (retval =? 0) then
    let@ release_retval := lib resource_release in cleanup_context j (or_else release_retval retval)
  else
    let@ retval := lib resource_release in
    if negb (retval =? 0) then cleanup_context j retval else Done again).
End responses.
