(* ===== verification/ProtocolEndpoints.v ===== *)
(** * The protocol service: the endpoints of the other services

    [protocolservice_dataservice_endpoint_fiber_entry.c] takes the requests of all
    connections, one by one, to the data service and its responses back.  The
    notification service has an endpoint for requests and one for responses, which
    may come at any time ([protocolservice_notificationservice_*_fiber_entry.c]). *)

From S2P Require Import Prelude Inet StatusCodes Contexts Lmdb Records RequestCodec ResponseCodec Ipc AuthedIpc ClientApi NotificationCodec ProtocolService Handshake ProtocolFibers ProtocolRequests.

Section endpoints.
Context {W : Type} {RB : RCPR_RBTREE W} {RT : RCPR_TREES W} {RA : RCPR_ALLOCATOR W}.
Context {VB : VCCRYPT_BUFFER W} {RE : RANDOM_ENDPOINT W} {PP : PROTOCOL_PLATFORM W}.

Abbreviation program := (prog (service W * W)).
Abbreviation write_message := protocolservice_protocol_write_endpoint_message.

(** The endpoint has its own copy of the payload. *)
Definition protocolservice_protocol_write_endpoint_message_create
    (message_type original_req_id offset : Z) (payload : option bytes) : Eff W write_message :=
  let! '(retval, _) := rcpr_allocator_allocate sizeof_write_message in
  if negb (retval =? 0) then throw retval else
  match payload with
  | None => ok (WriteEndpointMessage message_type original_req_id offset None)
  | Some payload =>
      let! '(retval, buffer) := vccrypt_buffer_init (length payload) in
      if negb (retval =? 0) then
        let! release_retval := memory_reclaim in throw (or_else release_retval retval)
      else ok (WriteEndpointMessage message_type original_req_id offset (Some (splice 0 payload buffer)))
  end.

(** ** The data service *)

(** The functions of the client API, on the socket of the endpoint. *)
Definition data_sendreq (encoded : Eff W bytes) : program Z :=
  pcheck (lib encoded) (λ reqbuf,
  let@ retval := call (op_data_write reqbuf) in
  Done (if negb (retval =? 0) then AGENTD_ERROR_DATASERVICE_IPC_WRITE_DATA_FAILURE else 0)).

Definition data_recvresp {A} (decode : bytes → result A) : program (result A) :=
  let@ '(retval, val) := call op_data_read in
  if negb (retval =? 0) then Done (Err AGENTD_ERROR_DATASERVICE_IPC_READ_DATA_FAILURE) else
  let@ release_retval := lib memory_reclaim in
  Done (if negb (release_retval =? 0) then Err release_retval else decode val).

Abbreviation trees := (utree protocolservice_dataservice_mailbox_context_entry).

Definition update_trees (f : trees → trees → trees * trees) : program unit :=
  update (λ s, let '(mc, cm) := f (de_mailbox_context_tree (sv_data s)) (de_context_mailbox_tree (sv_data s)) in
               set_data_trees mc cm s).

Definition insert_mailbox_context (entry : protocolservice_dataservice_mailbox_context_entry) : program Z :=
  let@ s := get_service in
  let@ '(retval, mc) := lib (utree_insert (de_mailbox_context_tree (sv_data s)) (me_addr entry) entry) in
  let@ _ := update_trees (λ _ cm, (mc, cm)) in Done retval.
Definition insert_context_mailbox (entry : protocolservice_dataservice_mailbox_context_entry) : program Z :=
  let@ s := get_service in
  let@ '(retval, cm) := lib (utree_insert (de_context_mailbox_tree (sv_data s)) (me_context entry) entry) in
  let@ _ := update_trees (λ mc _, (mc, cm)) in Done retval.
Definition delete_mailbox_context (addr : Z) : program Z :=
  let@ s := get_service in
  let@ '(retval, mc) := lib (utree_delete (de_mailbox_context_tree (sv_data s)) addr) in
  let@ _ := update_trees (λ _ cm, (mc, cm)) in Done retval.
Definition delete_context_mailbox (context : Z) : program Z :=
  let@ s := get_service in
  let@ '(retval, cm) := lib (utree_delete (de_context_mailbox_tree (sv_data s)) context) in
  let@ _ := update_trees (λ mc _, (mc, cm)) in Done retval.
Definition find_mailbox_context (addr : Z)
  : program (result protocolservice_dataservice_mailbox_context_entry) :=
  let@ s := get_service in lib (utree_find (de_mailbox_context_tree (sv_data s)) addr).

(** The reply, or the status with which the fiber ends.  A request that the data service
    refuses leaves the reply without a value, and the status is that of success.  An
    entry that could be inserted in one tree only is looked for by another address than
    its own, so it stays in that tree, and is not reclaimed. *)
Definition pde_decode_and_dispatch_req_context_open
    (req_payload : protocolservice_dataservice_request_message) (return_address : Z)
  : program (result write_message) :=
  let@ '(retval, _) := lib (rcpr_allocator_allocate sizeof_mailbox_context_entry) in
  if negb (retval =? 0) then Done (Err retval) else
  let addr := dm_data req_payload in
  let fails retval := if retval =? 0 then Undefined else Done (Err retval) in
  let cleanup_mailbox_context retval :=
    let@ release_retval := lib memory_reclaim in fails (or_else release_retval retval) in
  let@ retval := data_sendreq (dataservice_encode_request_child_context_create (default [] (dm_payload req_payload))) in
  if negb (retval =? 0) then cleanup_mailbox_context retval else
  let@ resp := data_recvresp dataservice_decode_response_child_context_create in
  match resp with
  | Err retval => cleanup_mailbox_context retval
  | Ok (hdr, None) => cleanup_mailbox_context 0
  | Ok (hdr, Some child) =>
      let entry := MailboxContextEntry addr child in
      let@ retval := insert_mailbox_context entry in
      if negb (retval =? 0) then cleanup_mailbox_context retval else
      let@ retval := insert_context_mailbox entry in
      if negb (retval =? 0) then
        let@ release_retval := delete_mailbox_context return_address in
        let retval := or_else release_retval retval in
        if (release_retval =? 0) && (return_address =? addr) then cleanup_mailbox_context retval else fails retval
      else
      let@ reply := lib (protocolservice_protocol_write_endpoint_message_create
                           PROTOCOLSERVICE_PROTOCOL_WRITE_ENDPOINT_DATASERVICE_CONTEXT_CREATE_MSG 0 0 None) in
      match reply with
      | Ok reply => Done (Ok reply)
      | Err retval =>
          let@ context_retval := delete_context_mailbox child in
          let@ mailbox_retval := delete_mailbox_context return_address in
          fails (or_else mailbox_retval (or_else context_retval retval))
      end
  end.

(** Whatever fails, the connection gets a reply. *)
Definition pde_decode_and_dispatch_req_context_close
    (req_payload : protocolservice_dataservice_request_message) : program (result write_message) :=
  let@ _ :=
    pcheck (find_mailbox_context (dm_data req_payload)) (λ entry,
    let@ retval := data_sendreq (dataservice_encode_request_child_context_close (me_context entry)) in
    if negb (retval =? 0) then Done retval else
    pcheck (data_recvresp dataservice_decode_response_child_context_close) (λ hdr,
    if negb (rh_status hdr =? 0) then Done (rh_status hdr) else
    let@ retval := delete_mailbox_context (me_addr entry) in
    if negb (retval =? 0) then Done retval else
    delete_context_mailbox (me_context entry))) in
  lib (protocolservice_protocol_write_endpoint_message_create
         PROTOCOLSERVICE_PROTOCOL_WRITE_ENDPOINT_DATASERVICE_CONTEXT_CREATE_MSG 0 (dm_offset req_payload) None).

(** The context of the connection is put in the request. *)
Definition pde_decode_and_dispatch_req_dataservice_req
    (req_payload : protocolservice_dataservice_request_message) (return_address : Z)
  : program (result write_message) :=
  let@ context_entry := find_mailbox_context return_address in
  match context_entry, dm_payload req_payload with
  | Err retval, _ => Done (Err retval)
  | Ok _, None => Undefined
  | Ok context_entry, Some breq =>
      if (length breq <? 8)%nat then Undefined else
      let@ retval := call (op_data_write (splice 4 (net32 (me_context context_entry)) breq)) in
      if negb (retval =? 0) then Done (Err retval) else
      let@ '(retval, reply_data) := call op_data_read in
      if negb (retval =? 0) then Done (Err retval) else
      let@ reply := lib (protocolservice_protocol_write_endpoint_message_create
                           PROTOCOLSERVICE_PROTOCOL_WRITE_ENDPOINT_DATASERVICE_MSG
                           (dm_protocol_request_id req_payload) (dm_offset req_payload) (Some reply_data)) in
      let@ release_retval := lib memory_reclaim in
      Done (if negb (release_retval =? 0) then Err release_retval else reply)
  end.

(** The type and the request of the reply are interchanged. *)
Definition pde_decode_and_dispatch_invalid_req
    (req_payload : protocolservice_dataservice_request_message) : program (result write_message) :=
  lib (protocolservice_protocol_write_endpoint_message_create 0
         PROTOCOLSERVICE_PROTOCOL_WRITE_ENDPOINT_ERROR_MESSAGE (dm_offset req_payload) None).

Definition protocolservice_dataservice_endpoint_decode_and_dispatch
    (req_payload : protocolservice_dataservice_request_message) (return_address : Z)
  : program (result write_message) :=
  if dm_request_id req_payload =? PROTOCOLSERVICE_DATASERVICE_ENDPOINT_REQ_CONTEXT_OPEN then
    pde_decode_and_dispatch_req_context_open req_payload return_address
  else if dm_request_id req_payload =? PROTOCOLSERVICE_DATASERVICE_ENDPOINT_REQ_CONTEXT_CLOSE then
    pde_decode_and_dispatch_req_context_close req_payload
  else if dm_request_id req_payload =? PROTOCOLSERVICE_DATASERVICE_ENDPOINT_REQ_DATASERVICE_REQ then
    pde_decode_and_dispatch_req_dataservice_req req_payload return_address
  else pde_decode_and_dispatch_invalid_req req_payload.

Definition protocolservice_dataservice_endpoint_context_release : program Z :=
  let@ s := get_service in
  let@ mailbox_close_retval :=
    if 0 <? de_addr (sv_data s) then call (op_mailbox_close (de_addr (sv_data s))) else Done 0 in
  let@ datasock_release_retval := lib resource_release in
  let@ mailbox_context_tree_release_retval := lib (utree_release (de_mailbox_context_tree (sv_data s))) in
  let@ context_mailbox_tree_release_retval := lib (utree_release (de_context_mailbox_tree (sv_data s))) in
  let@ reclaim_retval := lib memory_reclaim in
  Done (or_else mailbox_close_retval (or_else datasock_release_retval
         (or_else mailbox_context_tree_release_retval (or_else context_mailbox_tree_release_retval
            reclaim_retval)))).

Definition data_endpoint_ends (retval : Z) : program next :=
  let@ release_retval := protocolservice_dataservice_endpoint_context_release in
  Done (finished (or_else release_retval retval)).

(** The body of the loop of [protocolservice_dataservice_endpoint_fiber_entry]. *)
Definition protocolservice_dataservice_endpoint_fiber_loop : program next :=
  let@ s := get_service in
  let@ '(retval, req_msg) := call (op_message_receive (de_addr (sv_data s))) in
  if negb (retval =? 0) then data_endpoint_ends retval else
  let cleanup_req_msg retval :=
    let@ release_retval := lib resource_release in data_endpoint_ends (or_else release_retval retval) in
  match as_dataservice_request req_msg with
  | None => Undefined
  | Some req_payload =>
      let return_address := message_return_address req_msg in
      let@ reply_payload :=
        protocolservice_dataservice_endpoint_decode_and_dispatch req_payload return_address in
      match reply_payload with
      | Err retval => cleanup_req_msg retval
      | Ok reply_payload =>
          let@ retval := send_payload return_address (de_addr (sv_data s)) (mp_write_endpoint reply_payload) in
          if negb (retval =? 0) then cleanup_req_msg retval else
          let@ retval := lib resource_release in
          if negb (retval =? 0) then data_endpoint_ends retval else Done again
      end
  end.

(** ** The notification service *)

Abbreviation notify_context := (protocolservice_notificationservice_fiber_context (W := W)).

Definition update_notify (f : notify_context → notify_context) : program unit :=
  update (λ s, set_notify (f (sv_notify s)) s).

Definition set_client_xlat_map (t : utree protocolservice_notificationservice_xlat_entry) (n : notify_context) :=
  NotificationFiberContext (ne_notify_addr n) t (ne_server_xlat_map n) (ne_reference_count n)
    (ne_request_offset_counter n).
Definition set_server_xlat_map (t : utree protocolservice_notificationservice_xlat_entry) (n : notify_context) :=
  NotificationFiberContext (ne_notify_addr n) (ne_client_xlat_map n) t (ne_reference_count n)
    (ne_request_offset_counter n).
Definition set_request_offset_counter (o : Z) (n : notify_context) :=
  NotificationFiberContext (ne_notify_addr n) (ne_client_xlat_map n) (ne_server_xlat_map n)
    (ne_reference_count n) o.
Definition drop_notify_reference (n : notify_context) :=
  NotificationFiberContext (ne_notify_addr n) (ne_client_xlat_map n) (ne_server_xlat_map n)
    (ne_reference_count n - 1) (ne_request_offset_counter n).

(** The entry belongs to both maps. *)
Definition protocolservice_notificationservice_xlat_map_add (msg_offset client_addr req_offset : Z)
  : program Z :=
  let@ '(retval, _) := lib (rcpr_allocator_allocate sizeof_notification_xlat_entry) in
  if negb (retval =? 0) then Done retval else
  let tmp := XlatEntry client_addr msg_offset req_offset in
  let@ s := get_service in
  let@ '(retval, clients) := lib (utree_insert (ne_client_xlat_map (sv_notify s)) client_addr tmp) in
  let@ _ := update_notify (set_client_xlat_map clients) in
  if negb (retval =? 0) then
    let@ release_retval := lib memory_reclaim in Done (or_else release_retval retval)
  else
    let@ '(retval, servers) := lib (utree_insert (ne_server_xlat_map (sv_notify s)) msg_offset tmp) in
    let@ _ := update_notify (set_server_xlat_map servers) in
    Done retval.

(** The address and the offset of the client; the statuses of the deletions are ignored. *)
Definition protocolservice_notificationservice_lookup_return_address_from_offset (offset : Z)
  : program (result (Z * Z)) :=
  let@ s := get_service in
  let@ found := lib (utree_find (ne_server_xlat_map (sv_notify s)) offset) in
  match found with
  | Err retval => Done (Err retval)
  | Ok entry =>
      let@ '(_, servers) := lib (utree_delete (ne_server_xlat_map (sv_notify s)) (xe_server_offset entry)) in
      let@ _ := update_notify (set_server_xlat_map servers) in
      let@ '(_, clients) := lib (utree_delete (ne_client_xlat_map (sv_notify s)) (xe_client_addr entry)) in
      let@ _ := update_notify (set_client_xlat_map clients) in
      Done (Ok (xe_client_addr entry, wrap32 (xe_client_offset entry)))
  end.

Definition protocolservice_notificationservice_endpoint_send_request_response
    (reply_addr msg_offset : Z) (success : bool) : program Z :=
  let@ s := get_service in
  let@ '(retval, _) := lib (rcpr_allocator_allocate sizeof_assertion_response) in
  if negb (retval =? 0) then Done retval else
  send_payload reply_addr (ne_notify_addr (sv_notify s))
    (mp_assertion_response (BlockAssertionResponse success msg_offset)).

(** The functions of the client API, on the socket of the endpoint. *)
Definition notify_sendreq (request : Eff W bytes) : program Z :=
  pcheck (lib request) (λ buf,
  let@ retval := call (op_notify_write buf) in
  let@ release_retval := lib memory_reclaim in
  Done (or_else release_retval retval)).

Definition protocolservice_notificationservice_fiber_context_release : program Z :=
  let@ _ := update_notify drop_notify_reference in
  let@ s := get_service in
  if 0 <? ne_reference_count (sv_notify s) then Done 0 else
  let@ notify_addr_close_retval :=
    if 0 <? ne_notify_addr (sv_notify s) then call (op_mailbox_close (ne_notify_addr (sv_notify s))) else Done 0 in
  let@ notifysock_release_retval := lib resource_release in
  let@ client_xlat_map_release_retval := lib (utree_release (ne_client_xlat_map (sv_notify s))) in
  let@ server_xlat_map_release_retval := lib (utree_release (ne_server_xlat_map (sv_notify s))) in
  let@ reclaim_retval := lib memory_reclaim in
  Done (or_else notify_addr_close_retval (or_else notifysock_release_retval
         (or_else client_xlat_map_release_retval (or_else server_xlat_map_release_retval reclaim_retval)))).

Definition notify_ends (retval : Z) : program next :=
  let@ release_retval := protocolservice_notificationservice_fiber_context_release in
  Done (finished (or_else release_retval retval)).

(** The offset of the message for a request, or the status of a failure and whether it
    is replied to. *)
Definition notification_request_offset (req : protocolservice_notificationservice_block_assertion_request)
  : program (Z + (Z * bool)) :=
  if negb (br_cancel req) then
    let@ _ := update_notify (λ n, set_request_offset_counter (wrap64 (ne_request_offset_counter n + 1)) n) in
    let@ s := get_service in
    let msg_offset := ne_request_offset_counter (sv_notify s) in
    let@ retval := protocolservice_notificationservice_xlat_map_add msg_offset (br_reply_addr req) (br_req_offset req) in
    if negb (retval =? 0) then Done (inr (retval, false)) else
    let@ retval := notify_sendreq (notificationservice_api_encode_request
                     AGENTD_NOTIFICATIONSERVICE_API_METHOD_ID_BLOCK_ASSERTION msg_offset
                     (Some (br_block_id req))) in
    Done (if negb (retval =? 0) then inr (retval, true) else inl msg_offset)
  else
    let@ s := get_service in
    let@ entry := lib (utree_find (ne_client_xlat_map (sv_notify s)) (br_reply_addr req)) in
    match entry with
    | Err retval => Done (inr (retval, true))
    | Ok entry =>
        let msg_offset := xe_server_offset entry in
        let@ retval := notify_sendreq (notificationservice_api_encode_request
                         AGENTD_NOTIFICATIONSERVICE_API_METHOD_ID_BLOCK_ASSERTION_CANCEL msg_offset None) in
        Done (if negb (retval =? 0) then inr (retval, true) else inl msg_offset)
    end.

(** The body of the loop of [protocolservice_notificationservice_endpoint_fiber_entry].
    After a failure, also of a single request, the fiber ends. *)
Definition protocolservice_notificationservice_endpoint_fiber_loop : program next :=
  let@ s := get_service in
  let@ '(retval, req_msg) := call (op_message_receive (ne_notify_addr (sv_notify s))) in
  if negb (retval =? 0) then notify_ends retval else
  let cleanup_req_msg retval :=
    let@ release_retval := lib resource_release in notify_ends (or_else release_retval retval) in
  match as_assertion_request req_msg with
  | None => Undefined
  | Some req =>
      let respond := protocolservice_notificationservice_endpoint_send_request_response
                       (message_return_address req_msg) in
      let@ offset := notification_request_offset req in
      match offset with
      | inl msg_offset =>
          let@ retval := respond msg_offset true in
          if negb (retval =? 0) then cleanup_req_msg retval else
          let@ retval := lib resource_release in
          if negb (retval =? 0) then notify_ends retval else Done again
      | inr (retval, false) => cleanup_req_msg retval
      | inr (retval, true) =>
          let@ release_retval := respond 0 false in cleanup_req_msg (or_else release_retval retval)
      end
  end.

(** The body of the loop of [protocolservice_notificationservice_write_endpoint_fiber_entry].
    When the service quiesces, what follows the loop releases variables that have no
    value, or none any more. *)
Definition protocolservice_notificationservice_write_endpoint_fiber_loop : program next :=
  let@ s := get_service in
  if sv_quiesce s then Undefined else
  let@ '(retval, buf) := call op_notify_read in
  if negb (retval =? 0) then notify_ends retval else
  let cleanup_buf retval :=
    let@ release_retval := lib memory_reclaim in notify_ends (or_else release_retval retval) in
  match notificationservice_api_decode_response buf with
  | Err retval => cleanup_buf retval
  | Ok resp =>
      let@ found := protocolservice_notificationservice_lookup_return_address_from_offset (np_offset resp) in
      let return_method_id :=
        if np_method_id resp =? AGENTD_NOTIFICATIONSERVICE_API_METHOD_ID_BLOCK_ASSERTION_CANCEL
        then UNAUTH_PROTOCOL_REQ_ID_ASSERT_LATEST_BLOCK_ID_CANCEL
        else UNAUTH_PROTOCOL_REQ_ID_ASSERT_LATEST_BLOCK_ID in
      let@ retval :=
        match found with
        | Err _ => Done 0
        | Ok (return_address, return_offset) =>
            pcheck (lib (protocolservice_protocol_write_endpoint_message_create
                           PROTOCOLSERVICE_PROTOCOL_WRITE_ENDPOINT_NOTIFICATION_MSG return_method_id
                           return_offset None)) (λ reply,
            send_payload return_address (ne_notify_addr (sv_notify s)) (mp_write_endpoint reply))
        end in
      if negb (retval =? 0) then cleanup_buf retval else
      let@ retval := lib memory_reclaim in
      if negb (retval =? 0) then notify_ends retval else Done again
  end.
End endpoints.
