(* ===== verification/ProtocolScheduler.v ===== *)
(** * The protocol service: its fibers together

    The scheduler as a step relation.  A fiber runs until it waits; what it waits for
    may succeed or fail at any time, and the sockets may deliver anything.  Mailboxes
    are queues.  Then what an observer of the calls sees. *)

From S2P Require Import Prelude Inet StatusCodes Contexts Lmdb Records RequestCodec RequestSpec ResponseCodec Ipc IpcSpec AuthedIpc ClientApi NotificationCodec ProtocolService ProtocolSpec ProtocolControlSpec Handshake ProtocolFibers ProtocolRequests ProtocolResponses ProtocolEndpoints.

Inductive role : Type :=
  | reader (j : nat)
  | writer (j : nat)
  | data_endpoint
  | notification_endpoint
  | notification_writer.

#[global] Instance role_eq_dec : EqDecision role.
Proof. solve_decision. Defined.

(** What a program comes to. *)
Inductive progress (S A : Type) : Type :=
  | Returned (a : A)
  | Waits (o : op) (k : answer o → prog S A)
  | Faulted.
Arguments Returned {S A} _.
Arguments Waits {S A} _ _.
Arguments Faulted {S A}.

Fixpoint run_prog {S A} (p : prog S A) (s : S) : progress S A * S :=
  match p with
  | Done a => (Returned a, s)
  | Undefined => (Faulted, s)
  | Atomic m k => let '(b, s) := m s in run_prog (k b) s
  | Call o k => (Waits o k, s)
  end.

(** A fiber that was not started, is at the top of its loop, waits, has done something
    undefined, or has ended. *)
Inductive fiber (S : Type) : Type :=
  | Absent
  | Ready
  | Blocked (o : op) (k : answer o → prog S next)
  | Stuck
  | Ended (status : Z).
Arguments Absent {S}.
Arguments Ready {S}.
Arguments Blocked {S} _ _.
Arguments Stuck {S}.
Arguments Ended {S} _.

Definition fiber_after {S} (r : progress S next) : fiber S :=
  match r with
  | Returned again => Ready
  | Returned (finished status) => Ended status
  | Waits o k => Blocked o k
  | Faulted => Stuck
  end.

(** What a fiber waited for, and what it got. *)
Inductive event : Type := Event (r : role) (o : op) (a : answer o).

Section scheduler.
Context {W : Type} {RB : RCPR_RBTREE W} {RT : RCPR_TREES W} {RA : RCPR_ALLOCATOR W}.
Context {VB : VCCRYPT_BUFFER W} {RE : RANDOM_ENDPOINT W} {RF : RCPR_FIBER W} {VP : VCBLOCKCHAIN_PROTOCOL W}.
Context {KB : KEY_BUFFERS W} {KA : KEY_AGREEMENT W} {VS : VCCRYPT_SUITE W} {MO : MAC_OPTIONS W}.
Context {PP : PROTOCOL_PLATFORM W}.

Abbreviation machine := (service W * W)%type.

Definition body (r : role) : prog machine next :=
  match r with
  | reader j => protocolservice_protocol_fiber_loop j
  | writer j => protocolservice_protocol_write_endpoint_loop j
  | data_endpoint => protocolservice_dataservice_endpoint_fiber_loop
  | notification_endpoint => protocolservice_notificationservice_endpoint_fiber_loop
  | notification_writer => protocolservice_notificationservice_write_endpoint_fiber_loop
  end.

Record config := Config {
  cf_machine : machine; cf_fibers : role → fiber machine; cf_mail : gmap Z (list message) }.

Definition set_mail (f : gmap Z (list message) → gmap Z (list message)) (c : config) : config :=
  Config (cf_machine c) (cf_fibers c) (f (cf_mail c)).
Definition set_fiber_state (r : role) (x : fiber machine) (c : config) : config :=
  Config (cf_machine c) (λ r', if decide (r' = r) then x else cf_fibers c r') (cf_mail c).

Definition resume (r : role) (p : prog machine next) (c : config) : config :=
  let '(x, s) := run_prog p (cf_machine c) in
  set_fiber_state r (fiber_after x) (Config s (cf_fibers c) (cf_mail c)).

(** What a call may return, and what it changes. *)
Definition replies (c : config) (o : op) : answer o → config → Prop :=
  match o with
  | op_handshake j ctx => λ r c',
      let _ := connection_psock j in
      let _ := connection_authed j in
      let s := (cf_machine c).1 in
      ∃ w, protocolservice_protocol_handle_handshake sizeof_random_request (sv_ctx s) ctx (cf_machine c).2
           = (r, w) ∧
        c' = Config (s, w) (cf_fibers c) (cf_mail c)
  | op_message_send addr m => λ rc c',
      (rc = 0 ∧ ∃ l, cf_mail c !! addr = Some l ∧ c' = set_mail <[addr := l ++ [m]]> c)
      ∨ (rc ≠ 0 ∧ c' = c)
  | op_message_receive addr => λ '(rc, m) c',
      (rc = 0 ∧ ∃ l, cf_mail c !! addr = Some (m :: l) ∧ c' = set_mail <[addr := l]> c)
      ∨ (rc ≠ 0 ∧ c' = c)
  | op_mailbox_close addr => λ rc c',
      (rc = 0 ∧ c' = set_mail (delete addr) c) ∨ (rc ≠ 0 ∧ c' = c)
  | op_fiber_scheduler_add j => λ rc c',
      (rc = 0 ∧ cf_fibers c (writer j) = Absent ∧ c' = set_fiber_state (writer j) Ready c)
      ∨ (rc ≠ 0 ∧ c' = c)
  | op_client_read _ _ _ => λ '(rc, req) c', (rc = 0 ↔ is_Some req) ∧ c' = c
  | op_client_write _ _ _ _ | op_data_write _ | op_notify_write _ => λ _ c', c' = c
  | op_data_read | op_notify_read => λ _ c', c' = c
  end.

(** *** Connections *)

(** The addresses of the mailboxes of the service; none is used twice. *)
Definition addresses (s : service W) : list Z :=
  de_addr (sv_data s) :: ne_notify_addr (sv_notify s) ::
  flat_map (λ c, [pn_return_addr c; pn_fiber_addr c]) (sv_connections s).

(** The connection that [protocolservice_protocol_fiber_add] adds, with the buffers
    and the tree it has created. *)
Definition new_connection (client_key_nonce client_challenge_nonce server_key_nonce
    server_challenge_nonce shared_secret : bytes) (return_addr fiber_addr : Z)
    (offsets : utree protocolservice_extended_api_response_xlat_entry) : protocol_connection W :=
  Connection
    (ProtocolFiberContext client_key_nonce client_challenge_nonce server_key_nonce server_challenge_nonce
       shared_secret 0 0 (memset Byte.x00 16) None)
    return_addr fiber_addr 1 false false false (AssertionState false 0 0)
    (ExtendedApiState false false 0 offsets).

Definition add_connection (n : protocol_connection W) (c : config) : config :=
  let s := (cf_machine c).1 in
  let j := length (sv_connections s) in
  resume (reader j) (protocolservice_protocol_fiber_start j)
    (Config (set_connections (sv_connections s ++ [n]) s, (cf_machine c).2) (cf_fibers c)
       (<[pn_fiber_addr n := []]> (<[pn_return_addr n := []]> (cf_mail c)))).

Inductive step : config → list event → config → Prop :=
  | step_loop c r : cf_fibers c r = Ready → step c [] (resume r (body r) c)
  | step_call c r o k a c' :
      cf_fibers c r = Blocked o k → replies c o a c' → step c [Event r o a] (resume r (k a) c')
  | step_connect c ckn ccn skn scn ss ra fa offsets :
      ra ≠ fa → ra ∉ addresses (cf_machine c).1 → fa ∉ addresses (cf_machine c).1 →
      step c [] (add_connection (new_connection ckn ccn skn scn ss ra fa offsets) c)
  | step_quiesce c :
      step c [] (Config (set_service_quiesce (cf_machine c).1, (cf_machine c).2) (cf_fibers c) (cf_mail c)).

Inductive steps : config → list event → config → Prop :=
  | steps_refl c : steps c [] c
  | steps_step c1 t1 c2 t2 c3 : steps c1 t1 c2 → step c2 t2 c3 → steps c1 (t1 ++ t2) c3.

(** The service as [protocolservice_run] starts it: the endpoints, with their mailboxes
    and trees. *)
Definition protocol_start (ctx : protocolservice_context (W := W)) (dict : rbtree nat)
    (d : protocolservice_dataservice_endpoint_context) (n : protocolservice_notificationservice_fiber_context)
    (w : W) : config :=
  Config (Service ctx dict false [] d n, w)
    (λ r, match r with reader _ | writer _ => Absent | _ => Ready end)
    (<[ne_notify_addr n := []]> {[de_addr d := []]}).
End scheduler.
Arguments config W {_ _}.

(** ** What the protocol service does, as seen from its traffic

    The requests of clients as values, what the fibers have read, sent and written in a
    trace, and what it means that this is right: for which packet a request was made,
    in which context of the data service it was forwarded, and how it was answered. *)

(** ** Requests *)

(** What a client can ask of the data service. *)
Inductive client_request : Type :=
  | ask_latest_block_id
  | ask_block (block_id : bytes) (read_cert : bool)
  | ask_block_id_by_height (height : Z)
  | ask_transaction (txn_id : bytes) (read_cert : bool)
  | ask_artifact (artifact_id : bytes)
  | ask_submit (txn_id artifact_id cert : bytes).

Definition in_context (child : Z) (q : client_request) : api_request :=
  match q with
  | ask_latest_block_id => block_id_latest_read (ReqBlockIdLatest child)
  | ask_block id b => block_read (ReqBlockRead child id b)
  | ask_block_id_by_height h => block_id_by_height_read (ReqBlockIdByHeight child h)
  | ask_transaction id b => canonized_transaction_get (ReqCanonizedGet child id b)
  | ask_artifact id => artifact_read (ReqArtifactRead child id)
  | ask_submit id art cert => transaction_submit (ReqTxnSubmit child id art cert)
  end.

(** With the request and the offset of the packet. *)
Record asked := Asked { as_id : Z; as_offset : Z; as_request : client_request }.

(** The message by which the connection with the return address [a] sends it. *)
Definition ask_message (a : Z) (q : asked) : message :=
  Message a (mp_dataservice_request
    (DataserviceRequestMessage (as_id q) PROTOCOLSERVICE_DATASERVICE_ENDPOINT_REQ_DATASERVICE_REQ
       (as_offset q) 0 (Some (request_packet (in_context 0 (as_request q)))))).

Definition data_request (m : message) : bool :=
  match message_body m with
  | mp_dataservice_request p =>
      dm_request_id p =? PROTOCOLSERVICE_DATASERVICE_ENDPOINT_REQ_DATASERVICE_REQ
  | _ => false
  end.
Definition request_from (a : Z) (m : message) : bool := data_request m && (message_return_address m =? a).
Definition data_reply (m : message) : bool :=
  match message_body m with
  | mp_write_endpoint p => wm_message_type p =? PROTOCOLSERVICE_PROTOCOL_WRITE_ENDPOINT_DATASERVICE_MSG
  | _ => false
  end.

(** ** Views of a trace *)

(** A request of the endpoint to the data service, for which message it was made, and
    the response. *)
Record exchange := Exchange { ex_message : message; ex_out : bytes; ex_in : bytes }.

Inductive endpoint_phase : Type :=
  | ep_idle
  | ep_got (m : message)
  | ep_asked (m : message) (out : bytes)
  | ep_answered (x : exchange)
  | ep_dead.
Record endpoint_view := EndpointView { ev_phase : endpoint_phase; ev_log : list exchange }.

Definition endpoint_step (t : endpoint_view) (o : op) : answer o → endpoint_view :=
  match o with
  | op_message_receive _ => λ '(rc, m), if rc =? 0 then EndpointView (ep_got m) (ev_log t) else t
  | op_data_write out => λ rc,
      match ev_phase t with
      | ep_got m => if rc =? 0 then EndpointView (ep_asked m out) (ev_log t) else t
      | _ => t
      end
  | op_data_read => λ '(rc, resp),
      match ev_phase t with
      | ep_asked m out =>
          if rc =? 0 then
            let x := Exchange m out resp in EndpointView (ep_answered x) (ev_log t ++ [x])
          else t
      | _ => t
      end
  | op_message_send _ m => λ rc,
      if data_reply m then EndpointView (if rc =? 0 then ep_idle else ep_dead) (ev_log t) else t
  | _ => λ _, t
  end.

(** A reader: what the handshake left, whether the writer was started, the packet that
    is served, and the requests with the packets they were made for. *)
Record reader_view := ReaderView {
  rv_user : option protocolservice_protocol_fiber_context; rv_started : bool;
  rv_current : option bytes; rv_log : list (bytes * message) }.

Definition reader_step (t : reader_view) (o : op) : answer o → reader_view :=
  match o with
  | op_handshake _ _ => λ '(rc, f),
      if rc =? 0 then ReaderView (Some f) (rv_started t) (rv_current t) (rv_log t) else t
  | op_fiber_scheduler_add _ => λ rc,
      if rc =? 0 then ReaderView (rv_user t) true (rv_current t) (rv_log t) else t
  | op_client_read _ _ _ => λ '(rc, req),
      ReaderView (rv_user t) (rv_started t) (if rc =? 0 then req else None) (rv_log t)
  | op_message_send _ m => λ rc,
      if (rc =? 0) && data_request m then
        ReaderView (rv_user t) (rv_started t) None (rv_log t ++ [(default [] (rv_current t), m)])
      else t
  | _ => λ _, t
  end.

(** A writer: the message that is served, and the packets with their messages and
    vectors. *)
Record written := Written { wr_message : message; wr_iv : Z; wr_packet : bytes }.
Record writer_view := WriterView { wv_current : option message; wv_log : list written }.

Definition writer_step (return_addr : Z) (t : writer_view) (o : op) : answer o → writer_view :=
  match o return answer o → writer_view with
  | op_message_receive a => λ '(rc, m),
      if (rc =? 0) && (a =? return_addr) then WriterView (Some m) (wv_log t) else t
  | op_client_write _ iv buf _ => λ _,
      match wv_current t with
      | Some m => WriterView None (wv_log t ++ [Written m iv buf])
      | None => t
      end
  | _ => λ _, t
  end.

Definition observe {T} (step : T → ∀ o, answer o → T) (r : role) (t : T) (tr : list event) : T :=
  foldl (λ t '(Event r' o a), if decide (r' = r) then step t o a else t) t tr.

Definition reader_seen (j : nat) (tr : list event) : reader_view :=
  observe reader_step (reader j) (ReaderView None false None []) tr.
Definition writer_seen (j : nat) (return_addr : Z) (tr : list event) : writer_view :=
  observe (writer_step return_addr) (writer j) (WriterView None []) tr.
Definition endpoint_seen (tr : list event) : endpoint_view :=
  observe endpoint_step data_endpoint (EndpointView ep_idle []) tr.

(** What the handshake of a connection left, the exchanges with the data service, and
    the packets written to a client. *)
Definition user_of (j : nat) (tr : list event) : option protocolservice_protocol_fiber_context :=
  rv_user (reader_seen j tr).
Definition exchanges (tr : list event) : list exchange := ev_log (endpoint_seen tr).
Definition packets_written (j : nat) (return_addr : Z) (tr : list event) : list written :=
  wv_log (writer_seen j return_addr tr).

(** The packets read from a client; the messages sent to a mailbox and received from
    it. *)
Definition packets_read (j : nat) (tr : list event) : list bytes :=
  omap (λ '(Event r o a), if decide (r = reader j) then
    match o return answer o → option bytes with
    | op_client_read _ _ _ => λ '(rc, req), if rc =? 0 then req else None
    | _ => λ _, None
    end a else None) tr.
Definition sent (addr : Z) (tr : list event) : list message :=
  omap (λ '(Event r o a),
    match o return answer o → option message with
    | op_message_send to m => λ rc, if (rc =? 0) && (to =? addr) then Some m else None
    | _ => λ _, None
    end a) tr.
Definition received (addr : Z) (tr : list event) : list message :=
  omap (λ '(Event r o a),
    match o return answer o → option message with
    | op_message_receive from => λ '(rc, m), if (rc =? 0) && (from =? addr) then Some m else None
    | _ => λ _, None
    end a) tr.

(** How many packets were written to a client so far. *)
Definition writes_to (j : nat) (e : event) : bool :=
  let 'Event _ o _ := e in match o with op_client_write i _ _ _ => (i =? j)%nat | _ => false end.
Definition client_writes (j : nat) (tr : list event) : nat := length (filter (writes_to j) tr).

(** ** Contexts of the data service *)

(** In this exchange the context [child] was opened, or closed, for the connection with
    the return address [a]. *)
Definition opens (a child : Z) (x : exchange) : Prop :=
  ∃ p hdr, message_body (ex_message x) = mp_dataservice_request p ∧
    dm_request_id p = PROTOCOLSERVICE_DATASERVICE_ENDPOINT_REQ_CONTEXT_OPEN ∧ dm_data p = a ∧
    dataservice_decode_response_child_context_create (ex_in x) = Ok (hdr, Some child).
Definition closes (a : Z) (x : exchange) : Prop :=
  ∃ p hdr, message_body (ex_message x) = mp_dataservice_request p ∧
    dm_request_id p = PROTOCOLSERVICE_DATASERVICE_ENDPOINT_REQ_CONTEXT_CLOSE ∧ dm_data p = a ∧
    dataservice_decode_response_child_context_close (ex_in x) = Ok hdr ∧ rh_status hdr = 0.

(** The connection has the context [child] after the exchanges [log]. *)
Definition holds (log : list exchange) (a child : Z) : Prop :=
  ∃ l1 x l2, log = l1 ++ x :: l2 ∧ opens a child x ∧ Forall (λ y, ¬ closes a y) l2.

(** ** Capabilities *)

(** The registry lets the user [id] do to the agent what the capability [n] of the data
    service allows. *)
Definition granted (rg : registry) (agent id : bytes) (n : nat) : Prop :=
  n = DATASERVICE_API_CAP_LL_CHILD_CONTEXT_CLOSE ∨
  ∃ verb info, (verb, n) ∈ user_capabilities ∧ rg_entities rg !! id = Some info ∧
    capability_key_bytes (CapabilityKey id verb agent) ∈ ei_capabilities info.

Definition only_granted (rg : registry) (agent id : bytes) (caps : bitcap) : Prop :=
  wf_caps caps ∧ ∀ n, BITCAP_ISSET caps n = true → granted rg agent id n.

(** ** The packets of clients *)

Section packets.
Context {W : Type} {VP : VCBLOCKCHAIN_PROTOCOL W} {VS : VCCRYPT_SUITE W}.

(** Which request a packet of the client makes. *)
Inductive asks_for (buf : bytes) : Z → Z → client_request → Prop :=
  | asks_latest_block_id :
      asks_for buf UNAUTH_PROTOCOL_REQ_ID_LATEST_BLOCK_ID_GET
        UNAUTH_PROTOCOL_REQ_ID_LATEST_BLOCK_ID_GET ask_latest_block_id
  | asks_block id b :
      vcblockchain_protocol_decode_req_block_get buf = Ok (id, b) →
      asks_for buf UNAUTH_PROTOCOL_REQ_ID_BLOCK_BY_ID_GET id (ask_block b true)
  | asks_block_next id b :
      vcblockchain_protocol_decode_req_block_next_id_get buf = Ok (id, b) →
      asks_for buf UNAUTH_PROTOCOL_REQ_ID_BLOCK_ID_GET_NEXT id (ask_block b false)
  | asks_block_prev id b :
      vcblockchain_protocol_decode_req_block_prev_id_get buf = Ok (id, b) →
      asks_for buf UNAUTH_PROTOCOL_REQ_ID_BLOCK_ID_GET_PREV id (ask_block b false)
  | asks_height id h :
      vcblockchain_protocol_decode_req_block_id_by_height_get buf = Ok (id, h) →
      asks_for buf UNAUTH_PROTOCOL_REQ_ID_BLOCK_ID_BY_HEIGHT_GET id (ask_block_id_by_height h)
  | asks_transaction id t :
      vcblockchain_protocol_decode_req_txn_get buf = Ok (id, t) →
      asks_for buf UNAUTH_PROTOCOL_REQ_ID_TRANSACTION_BY_ID_GET id (ask_transaction t true)
  | asks_transaction_next id t :
      vcblockchain_protocol_decode_req_txn_next_id_get buf = Ok (id, t) →
      asks_for buf UNAUTH_PROTOCOL_REQ_ID_TRANSACTION_ID_GET_NEXT id (ask_transaction t false)
  | asks_transaction_prev id t :
      vcblockchain_protocol_decode_req_txn_prev_id_get buf = Ok (id, t) →
      asks_for buf UNAUTH_PROTOCOL_REQ_ID_TRANSACTION_ID_GET_PREV id (ask_transaction t false)
  | asks_transaction_block id t :
      vcblockchain_protocol_decode_req_txn_block_id_get buf = Ok (id, t) →
      asks_for buf UNAUTH_PROTOCOL_REQ_ID_TRANSACTION_ID_GET_BLOCK_ID id (ask_transaction t false)
  | asks_artifact_first id a :
      vcblockchain_protocol_decode_req_artifact_first_txn_id_get buf = Ok (id, a) →
      asks_for buf UNAUTH_PROTOCOL_REQ_ID_ARTIFACT_FIRST_TXN_BY_ID_GET id (ask_artifact a)
  | asks_artifact_last id a :
      vcblockchain_protocol_decode_req_artifact_last_txn_id_get buf = Ok (id, a) →
      asks_for buf UNAUTH_PROTOCOL_REQ_ID_ARTIFACT_LAST_TXN_BY_ID_GET id (ask_artifact a)
  | asks_submit w w' id t a cert :
      vcblockchain_protocol_decode_req_transaction_submit buf w = (Ok (id, t, a, cert), w') →
      (length cert ≤ MAX_TRANSACTION_CERTIFICATE_SIZE)%nat →
      asks_for buf UNAUTH_PROTOCOL_REQ_ID_TRANSACTION_SUBMIT id (ask_submit t a cert).

Definition asks (buf : bytes) (q : asked) : Prop :=
  asks_for buf (ntohl (le_dec (sub 0 4 buf))) (as_id q) (as_request q) ∧
  as_offset q = ntohl (le_dec (sub 4 4 buf)).

(** The packet [buf] answers the request, to which the data service responded [resp]. *)
Definition answers (q : asked) (resp buf : bytes) : Prop :=
  ∃ w w' : W, protocolservice_pwe_dnd_dataservice_message
    (WriteEndpointMessage PROTOCOLSERVICE_PROTOCOL_WRITE_ENDPOINT_DATASERVICE_MSG (as_id q) (as_offset q)
       (Some resp)) resp w = (Ok buf, w').
End packets.
