(* ===== verification/ProtocolContracts.v ===== *)
(** * Contracts of the fibers of the protocol service

    A contract says what a fiber knows of the shared context, how it may change it,
    and which calls it may make after the calls it has made; what a trace shows of the
    fiber is part of its state.  [conforms] says that a program keeps a contract
    whatever the other fibers, the library and the sockets do, and has the rules to
    prove it; then what the fibers do without effect on a contract.  The contracts of
    readers, writers and endpoints are in the files that follow. *)

From S2P Require Import Prelude Inet StatusCodes Contexts Lmdb Records RequestCodec RequestSpec ResponseCodec Ipc IpcSpec AuthedIpc ClientApi NotificationCodec ProtocolService ProtocolSpec ProtocolControlSpec Handshake ProtocolFibers ProtocolRequests ProtocolResponses ProtocolEndpoints ProtocolScheduler.

(** ** The logic *)

Section logic.
Context {W : Type} {RB : RCPR_RBTREE W} {RT : RCPR_TREES W}.
Context {T X : Type}.

Abbreviation machine := (service W * W)%type.

Record contract := Contract {
  ct_step : T → ∀ o, answer o → T;
  ct_pre : T → X → service W → Prop;
  ct_moves : X → service W → X → service W → Prop;
  ct_may : T → X → op → Prop }.

Class good_contract (C : contract) : Prop := {
  gc_refl : ∀ x s, ct_moves C x s x s;
  gc_trans : ∀ x1 s1 x2 s2 x3 s3, ct_moves C x1 s1 x2 s2 → ct_moves C x2 s2 x3 s3 → ct_moves C x1 s1 x3 s3;
  gc_step : ∀ t x s o a, ct_pre C t x s → ct_may C t x o → ct_pre C (ct_step C t o a) x s }.

Context {C : contract} {GC : good_contract C}.

Fixpoint conforms {A} (t : T) (x : X) (p : prog machine A) (Q : T → X → A → Prop) : Prop :=
  match p with
  | Done a => Q t x a
  | Undefined => True
  | Atomic m k => ∀ s w, ct_pre C t x s →
      let '(b, (s', w')) := m (s, w) in
      ∃ x', ct_moves C x s x' s' ∧ ct_pre C t x' s' ∧ conforms t x' (k b) Q
  | Call o k => ct_may C t x o ∧ ∀ a, conforms (ct_step C t o a) x (k a) Q
  end.

Lemma conforms_mono {A} t x (p : prog machine A) (P Q : T → X → A → Prop) :
  conforms t x p P → (∀ t x a, P t x a → Q t x a) → conforms t x p Q.
Proof.
  intros Hp HPQ. revert t x Hp. induction p as [a| |B m k IH|o k IH]; intros t x; simpl; [auto|done| |].
  - intros Hp s w Hs. specialize (Hp s w Hs). destruct (m (s, w)) as [b [s' w']].
    destruct Hp as (x'&?&?&?). exists x'. auto.
  - intros [Ho Hk]. split; [done|]. auto.
Qed.

Lemma conforms_bind {A B} t x (p : prog machine A) (f : A → prog machine B) Q :
  conforms t x p (λ t x a, conforms t x (f a) Q) → conforms t x (pbind p f) Q.
Proof.
  revert t x. induction p as [a| |D m k IH|o k IH]; intros t x; simpl; [auto|done| |].
  - intros Hp s w Hs. specialize (Hp s w Hs). destruct (m (s, w)) as [b [s' w']].
    destruct Hp as (x'&?&?&?). exists x'. auto.
  - intros [Ho Hk]. split; [done|]. auto.
Qed.

Lemma conforms_done {A} t x (a : A) (Q : T → X → A → Prop) : Q t x a → conforms t x (Done a) Q.
Proof. done. Qed.

Lemma conforms_undefined {A} t x (Q : T → X → A → Prop) : conforms t x Undefined Q.
Proof. done. Qed.

Lemma conforms_lib {A} t x (m : Act W A) (Q : T → X → A → Prop) :
  (∀ w a w', m w = (a, w') → Q t x a) → conforms t x (lib m) Q.
Proof.
  intros H s w Hs. simpl. destruct (m w) as [a w'] eqn:E. exists x. split_and!; [apply GC|done|]. simpl. eauto.
Qed.

Lemma conforms_get t x (Q : T → X → service W → Prop) :
  (∀ s, ct_pre C t x s → Q t x s) → conforms t x get_service Q.
Proof. intros H s w Hs. simpl. exists x. split_and!; [apply GC|done|]. auto. Qed.

Lemma conforms_update t x f (Q : T → X → unit → Prop) :
  (∀ s, ct_pre C t x s → ∃ x', ct_moves C x s x' (f s) ∧ ct_pre C t x' (f s) ∧ Q t x' tt) →
  conforms t x (update f) Q.
Proof. intros H s w Hs. simpl. destruct (H s Hs) as (x'&?&?&?). by exists x'. Qed.

Lemma conforms_call t x o (Q : T → X → answer o → Prop) :
  ct_may C t x o → (∀ a, Q (ct_step C t o a) x a) → conforms t x (call o) Q.
Proof. done. Qed.

(** ** Running *)

Lemma conforms_run {A} t x (p : prog machine A) Q s w r s' w' :
  conforms t x p Q → ct_pre C t x s → run_prog p (s, w) = (r, (s', w')) →
  ∃ x', ct_moves C x s x' s' ∧ ct_pre C t x' s' ∧
    match r with
    | Returned a => Q t x' a
    | Waits o k => ct_may C t x' o ∧ ∀ a, conforms (ct_step C t o a) x' (k a) Q
    | Faulted => True
    end.
Proof.
  revert x s w. induction p as [a| |B m k IH|o k IH]; intros x s w Hp Hs E; simpl in E.
  - injection E as <- <- <-. exists x. split_and!; [apply GC|done|done].
  - injection E as <- <- <-. exists x. split_and!; [apply GC|done|done].
  - simpl in Hp. specialize (Hp s w Hs). destruct (m (s, w)) as [b [s1 w1]].
    destruct Hp as (x1&Hm&Hs1&Hk). destruct (IH b x1 s1 w1 Hk Hs1 E) as (x'&Hm'&?&?).
    exists x'. split; [by eapply gc_trans|done].
  - injection E as <- <- <-. exists x. split; [apply GC|by split].
Qed.

Definition loops (top : T → X → Prop) (t : T) (x : X) (n : next) : Prop :=
  match n with again => top t x | finished _ => True end.

Definition fiber_conforms (top : T → X → Prop) (t : T) (x : X) (f : fiber machine) : Prop :=
  match f with
  | Ready => top t x
  | Blocked o k => ct_may C t x o ∧ ∀ a, conforms (ct_step C t o a) x (k a) (loops top)
  | _ => True
  end.

Lemma run_fiber top t x p s w r s' w' :
  conforms t x p (loops top) → ct_pre C t x s → run_prog p (s, w) = (r, (s', w')) →
  ∃ x', ct_moves C x s x' s' ∧ ct_pre C t x' s' ∧ fiber_conforms top t x' (fiber_after r).
Proof.
  intros Hp Hs E. destruct (conforms_run _ _ _ _ _ _ _ _ _ Hp Hs E) as (x'&?&?&Hr).
  exists x'. split_and!; [done..|]. destruct r as [[|st]|o k|]; done.
Qed.
End logic.
Arguments contract W {_ _} T X.
Arguments good_contract {W RB RT T X} C.
Arguments conforms {W RB RT T X} C {A} t x p Q.
Arguments fiber_conforms {W RB RT T X} C top t x f.

(** ** What fibers keep *)

Section keeps.
Context {W : Type} {RB : RCPR_RBTREE W} {RT : RCPR_TREES W}.

Definition links (c : protocol_connection W) : Z * Z := (pn_return_addr c, pn_fiber_addr c).

(** Of a connection: its mailboxes, the user, the secret and the next vector. *)
Definition conn_view (c : protocol_connection W) : Z * Z * (bytes * bytes * Z) :=
  (links c, (pf_entity_uuid (pn_fiber c), pf_shared_secret (pn_fiber c), pf_server_iv (pn_fiber c))).

Record core_same (s s' : service W) : Prop := {
  cs_ctx : sv_ctx s' = sv_ctx s;
  cs_data : de_addr (sv_data s') = de_addr (sv_data s);
  cs_notify : ne_notify_addr (sv_notify s') = ne_notify_addr (sv_notify s);
  cs_links : ∀ i, links <$> sv_connections s' !! i = links <$> sv_connections s !! i }.

Record keeps (s s' : service W) : Prop := {
  kp_core : core_same s s';
  kp_tree : de_mailbox_context_tree (sv_data s') = de_mailbox_context_tree (sv_data s);
  kp_views : ∀ i, conn_view <$> sv_connections s' !! i = conn_view <$> sv_connections s !! i }.

Lemma core_same_refl s : core_same s s.
Proof. by split. Qed.
Lemma core_same_trans s1 s2 s3 : core_same s1 s2 → core_same s2 s3 → core_same s1 s3.
Proof. intros [? ? ? L1] [? ? ? L2]. split; [congruence..|]. intros i. by rewrite L2. Qed.

Lemma keeps_refl s : keeps s s.
Proof. by split. Qed.
Lemma keeps_trans s1 s2 s3 : keeps s1 s2 → keeps s2 s3 → keeps s1 s3.
Proof.
  intros [? ? V1] [? ? V2]. split; [by eapply core_same_trans|congruence|]. intros i. by rewrite V2.
Qed.

Lemma view_links (l l' : list (protocol_connection W)) i :
  conn_view <$> l' !! i = conn_view <$> l !! i → links <$> l' !! i = links <$> l !! i.
Proof. destruct (l' !! i), (l !! i); simpl; unfold conn_view; congruence. Qed.

Lemma alter_view {B} (v : protocol_connection W → B) (f : protocol_connection W → protocol_connection W) j
    (l : list (protocol_connection W)) i :
  (∀ c, v (f c) = v c) → v <$> alter f j l !! i = v <$> l !! i.
Proof.
  intros Hv. destruct (decide (i = j)) as [->|Hne].
  - rewrite list_lookup_alter_eq. destruct (l !! j); simpl; [by rewrite Hv|done].
  - by rewrite list_lookup_alter_ne by done.
Qed.

Lemma keeps_connection j f (s : service W) : (∀ c, conn_view (f c) = conn_view c) → keeps s (set_connection j f s).
Proof.
  intros Hf. assert (∀ i, conn_view <$> sv_connections (set_connection j f s) !! i = conn_view <$> sv_connections s !! i).
  { intros i. by apply alter_view. }
  split; [split|..]; try done. intros i. by apply view_links.
Qed.

Lemma keeps_dict t (s : service W) : keeps s (set_extended_api_dict t s).
Proof. by split. Qed.

Lemma keeps_quiesce (s : service W) : keeps s (set_service_quiesce s).
Proof. by split. Qed.

Lemma keeps_notify f (s : service W) :
  ne_notify_addr (f (sv_notify s)) = ne_notify_addr (sv_notify s) → keeps s (set_notify (f (sv_notify s)) s).
Proof. intros H. by split; [split|..]. Qed.
End keeps.

#[export] Hint Resolve keeps_refl keeps_dict keeps_quiesce : core.

(** ** The fibers of a connection keep their contracts

    The reader makes at most the request that a packet asks for, opens a context with
    no more than the capabilities of its user, and sends no response of the data
    service; the writer writes one packet for a message, each with the next vector.
    What both do besides is [quiet]. *)

(** ** Quiet programs *)

Section quiet.
Context {W : Type} {RB : RCPR_RBTREE W} {RT : RCPR_TREES W} {RA : RCPR_ALLOCATOR W}.
Context {VB : VCCRYPT_BUFFER W} {RE : RANDOM_ENDPOINT W} {RF : RCPR_FIBER W} {VP : VCBLOCKCHAIN_PROTOCOL W}.
Context {PP : PROTOCOL_PLATFORM W}.
Context {j : nat} {ra fa da na : Z} {ctx : protocolservice_context (W := W)}.

Record knows (s : service W) : Prop := {
  kn_ctx : sv_ctx s = ctx;
  kn_data : de_addr (sv_data s) = da;
  kn_notify : ne_notify_addr (sv_notify s) = na;
  kn_links : links <$> sv_connections s !! j = Some (ra, fa) }.

Lemma knows_same s s' : core_same s s' → knows s → knows s'.
Proof. intros [? ? ? Hl] [? ? ? Hj]. split; [congruence..|]. by rewrite Hl. Qed.

Definition close_message : message :=
  Message fa (mp_dataservice_request
    (DataserviceRequestMessage 0 PROTOCOLSERVICE_DATASERVICE_ENDPOINT_REQ_CONTEXT_CLOSE 0 ra None)).
Definition open_message (caps : bitcap) : message :=
  Message fa (mp_dataservice_request
    (DataserviceRequestMessage 0 PROTOCOLSERVICE_DATASERVICE_ENDPOINT_REQ_CONTEXT_OPEN 0 ra
       (Some (caps_bytes caps)))).

(** Messages that are not for or from the data service, but for the closing of the
    context. *)
Definition harmless_message (m : message) : Prop :=
  match message_body m with
  | mp_dataservice_request _ => m = close_message
  | mp_write_endpoint _ => data_reply m = false
  | _ => True
  end.
Definition harmless (o : op) : Prop :=
  match o with
  | op_message_send _ m => harmless_message m
  | op_message_receive a => a = fa
  | op_mailbox_close _ => True
  | _ => False
  end.

Context {T X : Type} {C : contract W T X} {GC : good_contract C}.

Class quiet_contract : Prop := {
  qc_knows : ∀ t x s, ct_pre C t x s → knows s;
  qc_keeps : ∀ t x s s', ct_pre C t x s → keeps s s' → ct_moves C x s x s' ∧ ct_pre C t x s';
  qc_may : ∀ t x o, harmless o → ct_may C t x o;
  qc_step : ∀ t o a, harmless o → ct_step C t o a = t }.

Context {QC : quiet_contract}.

Abbreviation program := (prog (service W * W)).

Definition quiet {A} (p : program A) : Prop :=
  ∀ t x, conforms C t x p (λ t' x' _, t' = t ∧ x' = x).

Lemma quiet_done {A} (a : A) : quiet (Done a).
Proof. by intros t x. Qed.
Lemma quiet_undefined {A} : quiet (Undefined (A := A)).
Proof. by intros t x. Qed.
Lemma quiet_bind {A B} (p : program A) (f : A → program B) :
  quiet p → (∀ a, quiet (f a)) → quiet (pbind p f).
Proof.
  intros Hp Hf t x. apply conforms_bind. eapply conforms_mono; [apply Hp|]. intros t' x' a [-> ->]. apply Hf.
Qed.
Lemma quiet_then {A B} t x (p : program A) (k : A → program B) Q :
  quiet p → (∀ a, conforms C t x (k a) Q) → conforms C t x (pbind p k) Q.
Proof.
  intros Hp Hk. apply conforms_bind. eapply conforms_mono; [apply Hp|]. intros t' x' a [-> ->]. apply Hk.
Qed.
Lemma quiet_lib {A} (m : Act W A) : quiet (lib m).
Proof. intros t x. by apply conforms_lib. Qed.
Lemma quiet_update f : (∀ s, keeps s (f s)) → quiet (update f).
Proof.
  intros Hf t x. apply conforms_update. intros s Hs. exists x.
  destruct (qc_keeps _ _ _ _ Hs (Hf s)). auto.
Qed.
Lemma quiet_call o : harmless o → quiet (call o).
Proof.
  intros Ho t x. apply conforms_call; [by apply QC|]. intros a. by rewrite qc_step by done.
Qed.
Lemma quiet_get {A} (k : service W → program A) :
  (∀ s, knows s → quiet (k s)) → quiet (pbind get_service k).
Proof.
  intros Hk t x. apply conforms_bind, conforms_get. intros s Hs. apply Hk. by eapply qc_knows.
Qed.
Lemma quiet_own {A} (k : service W → protocol_connection W → program A) :
  (∀ s c, knows s → sv_connections s !! j = Some c → pn_return_addr c = ra → pn_fiber_addr c = fa → quiet (k s c)) →
  quiet (with_connection j k).
Proof.
  intros Hk. apply quiet_get. intros s Hs. pose proof (kn_links s Hs) as Hl.
  destruct (sv_connections s !! j) as [c|] eqn:E; [|done]. simpl in Hl. injection Hl as <- <-. by apply Hk.
Qed.
Lemma quiet_connection {A} i (k : service W → protocol_connection W → program A) :
  (∀ s c, knows s → quiet (k s c)) → quiet (with_connection i k).
Proof.
  intros Hk. apply quiet_get. intros s Hs. destruct (_ !! i); [by apply Hk|apply quiet_undefined].
Qed.
Lemma quiet_pcheck {A} (p : program (result A)) (k : A → program Z) :
  quiet p → (∀ a, quiet (k a)) → quiet (pcheck p k).
Proof. intros Hp Hk. apply quiet_bind; [done|]. intros [a|s]; [done|apply quiet_done]. Qed.
Lemma quiet_send addr ret_addr payload :
  harmless_message (Message ret_addr payload) → quiet (send_payload addr ret_addr payload).
Proof.
  intros Hm. unfold send_payload. apply quiet_bind; [apply quiet_lib|]. intros rc.
  destruct (negb _); [apply quiet_bind; [apply quiet_lib|by intros; apply quiet_done]|].
  apply quiet_bind; [by apply quiet_call|]. intros rc'. destruct (negb _); [|apply quiet_done].
  apply quiet_bind; [apply quiet_lib|by intros; apply quiet_done].
Qed.
Lemma quiet_extended i f : quiet (change_extended i f).
Proof. apply quiet_update. intros s. by apply keeps_connection. Qed.
End quiet.
Arguments knows {W RB RT} j ra fa da na ctx s.
Arguments close_message ra fa : clear implicits.
Arguments open_message ra fa caps : clear implicits.
Arguments harmless_message ra fa m : clear implicits.
Arguments harmless ra fa o : clear implicits.
Arguments quiet_contract {W RB RT} j ra fa da na ctx {T X} C.
Arguments quiet {W RB RT T X} C {A} p.

Create HintDb quiet.

Ltac quiet_step :=
  match goal with
  | |- quiet _ (Done _) => apply quiet_done
  | |- quiet _ Undefined => apply quiet_undefined
  | |- quiet _ (lib _) => apply quiet_lib
  | |- quiet _ (pbind get_service _) => apply quiet_get; intros ? ?
  | |- quiet _ (pbind _ _) => apply quiet_bind; [|intros ?]
  | |- quiet _ (pcheck _ _) => apply quiet_pcheck; [|intros ?]
  | |- quiet _ (change_extended _ _) => apply quiet_extended
  | |- quiet _ (update (set_extended_api_dict _)) => apply quiet_update; intros ?; apply keeps_dict
  | |- quiet _ (update (set_connection _ _)) => apply quiet_update; intros ?; by apply keeps_connection
  | |- quiet _ (with_connection _ _) => apply quiet_own; intros ? ? ? ? ? ?
  | |- quiet _ (with_connection _ _) => apply quiet_connection; intros ? ? ?
  | |- quiet _ (send_payload _ _ _) => apply quiet_send; try done
  | |- quiet _ (call _) => apply quiet_call; try done
  | |- quiet _ (if ?b then _ else _) => destruct b
  | |- quiet _ (let '(_, _) := ?x in _) => destruct x
  | |- quiet _ (match ?x with _ => _ end) => destruct x
  | |- quiet _ _ => assumption || solve [eauto with quiet]
  end; cbv beta zeta.
Ltac quiet := repeat quiet_step.

(** ** What is quiet *)

Section programs.
Context {W : Type} {RB : RCPR_RBTREE W} {RT : RCPR_TREES W} {RA : RCPR_ALLOCATOR W}.
Context {VB : VCCRYPT_BUFFER W} {RE : RANDOM_ENDPOINT W} {RF : RCPR_FIBER W} {VP : VCBLOCKCHAIN_PROTOCOL W}.
Context {PP : PROTOCOL_PLATFORM W}.
Context {j : nat} {ra fa da na : Z} {ctx : protocolservice_context (W := W)}.
Context {T X : Type} {C : contract W T X} {GC : good_contract C} {QC : quiet_contract j ra fa da na ctx C}.

Abbreviation program := (prog (service W * W)).
Abbreviation quiet := (quiet C).
Abbreviation close_message := (close_message ra fa).

Lemma quiet_error_response id st offset : quiet (protocolservice_send_error_response_message j id st offset).
Proof. unfold protocolservice_send_error_response_message. quiet. Qed.
Hint Resolve quiet_error_response : quiet.

Lemma quiet_capability verb obj : quiet (connection_capability_check j verb obj).
Proof. unfold connection_capability_check. quiet. Qed.
Hint Resolve quiet_capability : quiet.

Lemma quiet_authorized verb p : quiet p → quiet (authorized j verb p).
Proof. intros Hp. unfold authorized. quiet. Qed.

(** *** Handlers *)

Lemma quiet_status offset payload : quiet (protocolservice_protocol_dnd_status_get j offset payload).
Proof. unfold protocolservice_protocol_dnd_status_get. quiet. Qed.

Lemma quiet_close offset : quiet (protocolservice_protocol_dnd_close j offset).
Proof. unfold protocolservice_protocol_dnd_close. quiet. Qed.

Lemma quiet_notification_exchange req k :
  (∀ m, quiet (k m)) → quiet (notification_exchange j req k).
Proof. intros Hk. unfold notification_exchange. quiet. Qed.

Lemma quiet_assert offset payload : quiet (protocolservice_protocol_dnd_assert_latest_block_id j offset payload).
Proof.
  apply quiet_authorized. unfold protocolservice_notificationservice_handle_assert_block_request. quiet.
  apply quiet_notification_exchange. intros m. quiet.
Qed.

Lemma quiet_assert_cancel offset payload :
  quiet (protocolservice_protocol_dnd_assert_latest_block_id_cancel j offset payload).
Proof.
  apply quiet_authorized. unfold protocolservice_notificationservice_handle_assert_block_cancel_request. quiet.
  apply quiet_notification_exchange. intros m. quiet.
Qed.

Lemma quiet_extended_enable offset payload :
  quiet (protocolservice_protocol_dnd_extended_api_enable j offset payload).
Proof.
  apply quiet_authorized. unfold protocolservice_protocol_route_extended_api_for_entity. quiet.
Qed.

Lemma quiet_sendrecv payload : quiet (protocolservice_protocol_dnd_extended_api_sendrecv j payload).
Proof.
  apply quiet_authorized. quiet.
  unfold protocolservice_protocol_extended_api_send_req, protocolservice_protocol_create_extended_api_clientreq_payload,
    protocolservice_extended_api_response_xlat_entry_add. quiet.
Qed.

Lemma quiet_sendresp payload : quiet (protocolservice_protocol_dnd_extended_api_sendresp j payload).
Proof. apply quiet_authorized. quiet. Qed.

(** *** The end of a connection *)

Lemma quiet_endpoint_exchange req opened :
  Message fa (mp_dataservice_request req) = close_message → quiet (endpoint_exchange j req opened).
Proof. intros Hm. unfold endpoint_exchange. quiet. unfold harmless_message. simpl. congruence. Qed.

(** The fields of a created request. *)
Lemma request_message_create_fields a b o d p w m w' :
  protocolservice_dataservice_request_message_create a b o d p w = (Ok m, w') →
  m = DataserviceRequestMessage a b o d p.
Proof.
  unfold protocolservice_dataservice_request_message_create, act. destruct (rcpr_allocator_allocate _ w) as [[rc x] w1].
  destruct (negb _); [done|]. by intros [= <- _].
Qed.

Lemma quiet_lib_pcheck {A} (m : Act W (result A)) (k : A → program Z) :
  (∀ w a w', m w = (Ok a, w') → quiet (k a)) → quiet (pcheck (lib m) k).
Proof.
  intros Hk t x. apply conforms_bind, conforms_lib. intros w [a|s] w' E; [by eapply Hk|done].
Qed.

Lemma quiet_close_context : quiet (protocolservice_protocol_close_data_service_context j).
Proof.
  apply quiet_own. intros s c _ _ Hra Hfa. apply quiet_lib_pcheck.
  intros w req w' E. apply request_message_create_fields in E as ->. apply quiet_endpoint_exchange.
  unfold close_message. by rewrite Hra.
Qed.
Hint Resolve quiet_close_context : quiet.

Lemma quiet_release : quiet (protocolservice_protocol_fiber_context_release j).
Proof.
  unfold protocolservice_protocol_fiber_context_release, protocolservice_protocol_unroute_extended_api_for_entity.
  quiet.
Qed.
Hint Resolve quiet_release : quiet.

Lemma quiet_cleanup retval : quiet (cleanup_context j retval).
Proof. unfold cleanup_context. quiet. Qed.

Lemma quiet_shutdown retval : quiet (shutdown_write_endpoint j retval).
Proof.
  unfold shutdown_write_endpoint, protocolservice_protocol_shutdown_write_endpoint, cleanup_context. quiet.
Qed.
End programs.
#[export] Hint Resolve quiet_error_response quiet_capability quiet_close_context quiet_release quiet_cleanup
  quiet_shutdown : quiet.
#[export] Hint Extern 1 (good_contract _) => typeclasses eauto : quiet.
#[export] Hint Extern 1 (quiet_contract _ _ _ _ _ _ _) => typeclasses eauto : quiet.
