(* ===== verification/ProtocolConnection.v ===== *)
(** * The fibers of a connection keep their contracts

    First the reader.  A packet that asks for something of the data service becomes the message of that
    request, any other none; the context is opened with capabilities that the registry
    gives the user. *)

From S2P Require Import Prelude Inet StatusCodes Contexts Lmdb Records RequestCodec RequestSpec ResponseCodec Ipc IpcSpec AuthedIpc ClientApi NotificationCodec ProtocolService ProtocolSpec ProtocolControlSpec Handshake ProtocolFibers ProtocolRequests ProtocolResponses ProtocolEndpoints ProtocolScheduler ProtocolContracts.

(** ** What is relied on *)

(** Identifiers are 16 bytes. *)
Class VCBLOCKCHAIN_laws (W : Type) `{VP : VCBLOCKCHAIN_PROTOCOL W} := {
  law_block_get : ∀ p id b, vcblockchain_protocol_decode_req_block_get p = Ok (id, b) → is_uuid b;
  law_block_next : ∀ p id b, vcblockchain_protocol_decode_req_block_next_id_get p = Ok (id, b) → is_uuid b;
  law_block_prev : ∀ p id b, vcblockchain_protocol_decode_req_block_prev_id_get p = Ok (id, b) → is_uuid b;
  law_txn_get : ∀ p id t, vcblockchain_protocol_decode_req_txn_get p = Ok (id, t) → is_uuid t;
  law_txn_next : ∀ p id t, vcblockchain_protocol_decode_req_txn_next_id_get p = Ok (id, t) → is_uuid t;
  law_txn_prev : ∀ p id t, vcblockchain_protocol_decode_req_txn_prev_id_get p = Ok (id, t) → is_uuid t;
  law_txn_block : ∀ p id t, vcblockchain_protocol_decode_req_txn_block_id_get p = Ok (id, t) → is_uuid t;
  law_artifact_first : ∀ p id a,
    vcblockchain_protocol_decode_req_artifact_first_txn_id_get p = Ok (id, a) → is_uuid a;
  law_artifact_last : ∀ p id a,
    vcblockchain_protocol_decode_req_artifact_last_txn_id_get p = Ok (id, a) → is_uuid a;
  law_submit : ∀ p w id t a cert w',
    vcblockchain_protocol_decode_req_transaction_submit p w = (Ok (id, t, a, cert), w') →
    is_uuid t ∧ is_uuid a;
}.

Section reader.
Context {W : Type} {M : MALLOC W} {IO : POSIX_IO W} {IOL : POSIX_IO_laws W} {PS : PSOCK W}.
Context {RA : RCPR_ALLOCATOR W} {VB : VCCRYPT_BUFFER W} {RB : RCPR_RBTREE W} {RL : RCPR_laws W}.
Context {RT : RCPR_TREES W} {RE : RANDOM_ENDPOINT W} {RF : RCPR_FIBER W} {KB : KEY_BUFFERS W}.
Context {VP : VCBLOCKCHAIN_PROTOCOL W} {VPL : VCBLOCKCHAIN_laws W} {PP : PROTOCOL_PLATFORM W}.
Context (rg : registry) (ctx : protocolservice_context (W := W)) (REP : represents ctx rg).
Context (j : nat) (ra fa da na : Z).

#[local] Instance rcpr_buffer_laws : VCCRYPT_BUFFER_laws W := {| law_buffer_init := law_buffer_size |}.

(** ** The contract *)

(** The connection has what the handshake left; the writer, once it was started,
    advances the vector. *)
Definition installed (t : reader_view) (s : service W) : Prop :=
  ∃ f c, rv_user t = Some f ∧ sv_connections s !! j = Some c ∧
    pf_entity_uuid (pn_fiber c) = pf_entity_uuid f ∧ pf_shared_secret (pn_fiber c) = pf_shared_secret f ∧
    (rv_started t = false → pf_server_iv (pn_fiber c) = pf_server_iv f).

Definition reader_pre (t : reader_view) (x : bool) (s : service W) : Prop :=
  knows j ra fa da na ctx s ∧ (x = true → installed t s).

Record reader_moves (x : bool) (s : service W) (x' : bool) (s' : service W) : Prop := {
  rm_core : core_same s s';
  rm_tree : de_mailbox_context_tree (sv_data s') = de_mailbox_context_tree (sv_data s);
  rm_views : ∀ i, x = true ∨ i ≠ j → conn_view <$> sv_connections s' !! i = conn_view <$> sv_connections s !! i;
  rm_installed : x = true → x' = true }.

(** The messages for the data endpoint. *)
Definition reader_asks (t : reader_view) (m : message) : Prop :=
  (∃ buf q, rv_current t = Some buf ∧ asks buf q ∧ m = ask_message ra q) ∨
  (∃ f caps, rv_user t = Some f ∧ only_granted rg (pc_agentd_uuid ctx) (pf_entity_uuid f) caps ∧
     m = open_message ra fa caps).

Definition reader_may (t : reader_view) (x : bool) (o : op) : Prop :=
  match o with
  | op_handshake i _ => i = j ∧ rv_user t = None
  | op_fiber_scheduler_add i => i = j ∧ x = true
  | op_client_read i _ secret => i = j ∧ ∃ f, rv_user t = Some f ∧ secret = pf_shared_secret f
  | op_message_send a m => harmless_message ra fa m ∨ (a = da ∧ reader_asks t m)
  | _ => harmless ra fa o
  end.

Definition reader_contract : contract W reader_view bool :=
  Contract reader_step reader_pre reader_moves reader_may.

Lemma reader_step_user t x o a :
  reader_may t x o → is_Some (rv_user t) → rv_user (reader_step t o a) = rv_user t.
Proof.
  destruct o; simpl; repeat (case_match; simpl); try done. intros [_ ->] [? [=]].
Qed.
Lemma reader_step_started t o a : rv_started (reader_step t o a) = false → rv_started t = false.
Proof. destruct o; simpl; repeat (case_match; simpl); done. Qed.

#[export] Instance reader_good : good_contract reader_contract.
Proof.
  split; simpl.
  - intros x s. by split; [apply core_same_refl|..].
  - intros x1 s1 x2 s2 x3 s3 [C1 T1 V1 I1] [C2 T2 V2 I2]. split; [by eapply core_same_trans|congruence|..|auto].
    intros i Hi. rewrite V2, V1 by naive_solver. done.
  - intros t x s o a [Hk Hx] Ho. split; [done|]. intros Ex. destruct (Hx Ex) as (f&c&Hf&Hc&?&?&Hiv).
    exists f, c. rewrite (reader_step_user t x) by (rewrite ?Hf; done). split_and!; try done.
    intros Hs. by apply Hiv, (reader_step_started t o a).
Qed.

Lemma installed_same t (s s' : service W) :
  conn_view <$> sv_connections s' !! j = conn_view <$> sv_connections s !! j → installed t s → installed t s'.
Proof.
  intros E (f&c&Hf&Hc&Hu&Hs&Hiv). rewrite Hc in E. destruct (sv_connections s' !! j) as [c'|] eqn:Hc'; [|done].
  simpl in E. unfold conn_view in E. simplify_eq/=. exists f, c'. split_and!; try done; [congruence..|].
  intros ?. by rewrite <- Hiv.
Qed.

#[export] Instance reader_quiet : quiet_contract j ra fa da na ctx reader_contract.
Proof.
  split; simpl.
  - by intros t x s [].
  - intros t x s s' [Hk Hx] [K T V]. split.
    + split; auto.
    + split; [by eapply knows_same|]. intros Ex. eapply installed_same; [apply V|auto].
  - intros t x [] Ho; try done. by left.
  - intros t [] a Ho; simpl in *; try done.
    unfold data_request. destruct m as [ret [p| | |]]; simpl; rewrite ?andb_false_r; try done.
    injection Ho as _ ->. simpl. by rewrite andb_false_r.
Qed.

Abbreviation program := (prog (service W * W)).
Abbreviation conforms := (conforms reader_contract).

Lemma quiet_conforms {A} t (p : program A) :
  quiet reader_contract p → conforms t true p (λ _ x _, x = true).
Proof. intros Hp. eapply conforms_mono; [apply Hp|]. by intros t' x' a [_ ->]. Qed.

(** A program after one that leaves nothing to say but that the handshake was done. *)
Lemma conforms_then {A B} t (p : program A) (k : A → program B) Q :
  conforms t true p (λ _ x _, x = true) → (∀ t' a, conforms t' true (k a) Q) → conforms t true (pbind p k) Q.
Proof.
  intros Hp Hk. apply conforms_bind. eapply conforms_mono; [apply Hp|]. intros t' x' a ->. apply Hk.
Qed.

Lemma conforms_own {A} t x (k : service W → protocol_connection W → program A) Q :
  (∀ s c, knows j ra fa da na ctx s → sv_connections s !! j = Some c → pn_return_addr c = ra → pn_fiber_addr c = fa →
     (x = true → ∃ f, rv_user t = Some f ∧ pf_entity_uuid (pn_fiber c) = pf_entity_uuid f ∧
                      pf_shared_secret (pn_fiber c) = pf_shared_secret f) → conforms t x (k s c) Q) →
  conforms t x (with_connection j k) Q.
Proof.
  intros Hk. apply conforms_bind, conforms_get. intros s [Hs Hx].
  pose proof (kn_links _ Hs) as Hl.
  destruct (sv_connections s !! j) as [c|] eqn:E; [|done]. simpl in Hl. injection Hl as <- <-.
  apply Hk; [done..|]. intros Ex. destruct (Hx Ex) as (f&c'&Hf&Hc&?&?&_). naive_solver.
Qed.

Lemma conforms_pcheck {A} t (m : Act W (result A)) (k : A → program Z) :
  (∀ w a w', m w = (Ok a, w') → conforms t true (k a) (λ _ x _, x = true)) →
  conforms t true (pcheck (lib m) k) (λ _ x _, x = true).
Proof.
  intros Hk. apply conforms_bind, conforms_lib. intros w [a|s] w' E; [by eapply Hk|done].
Qed.

Lemma conforms_send t m : reader_asks t m →
  conforms t true (send_payload da (message_return_address m) (message_body m)) (λ _ x _, x = true).
Proof.
  intros Hm. destruct m as [ret body]. cbn [message_return_address message_body]. unfold send_payload. apply conforms_bind, conforms_lib.
  intros w rc w' _. destruct (negb _); [apply quiet_conforms; quiet|].
  apply conforms_bind, conforms_call; [by right|]. intros rc'. apply quiet_conforms. quiet.
Qed.

(** ** Requests for the data service *)

Definition sized (q : client_request) : Prop :=
  match q with
  | ask_block id _ | ask_transaction id _ | ask_artifact id => is_uuid id
  | ask_submit id art _ => is_uuid id ∧ is_uuid art
  | _ => True
  end.

Lemma encode_in_context child q w buf w' :
  sized q → encode_request (in_context child q) w = (Ok buf, w') → buf = request_packet (in_context child q).
Proof.
  intros Hq E. apply (f_equal fst) in E. simpl in E. unfold request_packet.
  destruct q; cbn [in_context encode_request request_method request_fields sized] in *.
  all: rewrite <- !net32_be, <- ?net64_be, <- concat_cons.
  all: match goal with |- _ = concat ?l =>
    assert ((encode_fields (length (concat l)) l w).1 = Ok buf) as E';
    [rewrite <- E; apply (f_equal (λ n, (encode_fields n _ w).1)); cbn [concat];
     unfold is_uuid in *; destruct_and?; len
    |rewrite encode_fields_spec in E' by done; simpl in E'; by case_match; simplify_eq] end.
Qed.

Lemma encode_and_send_conforms t buf id off q checked :
  rv_current t = Some buf → asks buf (Asked id off q) → sized q →
  conforms t true (encode_and_send j id off (encode_request (in_context 0 q)) checked) (λ _ x _, x = true).
Proof.
  intros Hbuf Ha Hq. apply conforms_bind, conforms_lib. intros w r w' E.
  destruct r as [packet|s]; [|apply quiet_conforms; destruct checked; quiet].
  apply encode_in_context in E as ->; [|done]. apply conforms_own. intros s c Hs _ Hra _ _.
  apply conforms_pcheck. intros w1 req w1' E. apply request_message_create_fields in E as ->.
  rewrite (kn_data _ Hs), Hra. apply (conforms_send t (ask_message ra (Asked id off q))).
  left. by exists buf, (Asked id off q).
Qed.

Lemma decode_and_send_conforms {A} t buf off (decoded : result (Z * A)) q checked :
  rv_current t = Some buf →
  (∀ id a, decoded = Ok (id, a) → asks buf (Asked id off (q a)) ∧ sized (q a)) →
  conforms t true (decode_and_send j off decoded (λ a, encode_request (in_context 0 (q a))) checked)
    (λ _ x _, x = true).
Proof.
  intros Hbuf Hq. destruct decoded as [[id a]|s]; [|done].
  destruct (Hq id a eq_refl). by eapply encode_and_send_conforms.
Qed.
(** The request in the header of a packet, and its offset. *)
Definition header_of (buf : bytes) (id off : Z) : Prop :=
  id = ntohl (le_dec (sub 0 4 buf)) ∧ off = ntohl (le_dec (sub 4 4 buf)).

Lemma asks_header buf id off rid q :
  header_of buf id off → asks_for buf id rid q → asks buf (Asked rid off q).
Proof. by intros [-> ->] H. Qed.

Ltac serve_request q :=
  lazymatch goal with
  | Hbuf : rv_current _ = Some _, Hh : header_of _ _ _ |- _ =>
      apply (decode_and_send_conforms _ _ _ _ q _ Hbuf); intros ? ? E;
      split; [eapply asks_header; [exact Hh|by econstructor]|];
      first [done | eapply law_block_get, E | eapply law_block_next, E | eapply law_block_prev, E
            | eapply law_txn_get, E | eapply law_txn_next, E | eapply law_txn_prev, E | eapply law_txn_block, E
            | eapply law_artifact_first, E | eapply law_artifact_last, E]
  end.

Lemma submit_conforms t buf off :
  rv_current t = Some buf → header_of buf UNAUTH_PROTOCOL_REQ_ID_TRANSACTION_SUBMIT off →
  conforms t true (protocolservice_protocol_dnd_transaction_submit j off buf) (λ _ x _, x = true).
Proof.
  intros Hbuf Hh. apply conforms_pcheck. intros w [[[id txn] art] cert] w' E.
  destruct (Nat.ltb_spec MAX_TRANSACTION_CERTIFICATE_SIZE (length cert)); [done|].
  apply (encode_and_send_conforms _ _ _ _ (ask_submit txn art cert) _ Hbuf); [|by eapply law_submit].
  eapply asks_header; [done|]. by econstructor.
Qed.

Lemma dispatch_conforms t buf id off :
  rv_current t = Some buf → header_of buf id off →
  conforms t true (protocolservice_protocol_dispatch j id off buf) (λ _ x _, x = true).
Proof.
  intros Hbuf Hh. unfold protocolservice_protocol_dispatch.
  repeat match goal with |- conforms _ _ (if ?a =? ?b then _ else _) _ => destruct (Z.eqb_spec a b) as [->|_] end.
  - apply (encode_and_send_conforms _ _ _ _ ask_latest_block_id _ Hbuf); [|done].
    eapply asks_header; [done|constructor].
  - by apply submit_conforms.
  - serve_request (λ b, ask_block b true).
  - serve_request (λ b, ask_block b false).
  - serve_request (λ b, ask_block b false).
  - serve_request ask_block_id_by_height.
  - serve_request (λ b, ask_transaction b true).
  - serve_request (λ b, ask_transaction b false).
  - serve_request (λ b, ask_transaction b false).
  - serve_request (λ b, ask_transaction b false).
  - serve_request ask_artifact.
  - serve_request ask_artifact.
  - apply quiet_conforms, quiet_assert.
  - apply quiet_conforms, quiet_assert_cancel.
  - apply quiet_conforms, quiet_extended_enable.
  - apply quiet_conforms, quiet_sendrecv.
  - apply quiet_conforms, quiet_sendresp.
  - apply quiet_conforms, quiet_status.
  - apply quiet_conforms, quiet_close.
  - done.
Qed.

(** ** Reading *)

Lemma read_conforms t :
  conforms t true (protocolservice_protocol_read_decode_and_dispatch_packet j) (λ _ x _, x = true).
Proof.
  apply conforms_own. intros s c _ _ _ _ Hf. destruct (Hf eq_refl) as (f&Hu&_&Hsec).
  apply conforms_bind, conforms_call; [split; [done|]; by exists f|]. intros [rc req].
  assert (∀ retval t, conforms t true (let@ r := protocolservice_send_error_response_message j 0 retval 0 in
    Done (or_else r retval)) (λ _ x _, x = true)) as Hreport by (intros; apply quiet_conforms; quiet).
  apply conforms_then.
  - destruct (Z.eqb_spec rc 0) as [->|_]; cbn [negb]; [|apply Hreport].
    apply quiet_then; [quiet|]. intros _. destruct req as [buf|]; [|done].
    destruct (length buf <? 4 + 4)%nat; [apply Hreport|].
    apply conforms_then; [by apply dispatch_conforms|]. intros t' retval. apply quiet_conforms. quiet.
  - intros t' retval. apply quiet_conforms. destruct req; quiet.
Qed.

Lemma reader_loop_conforms t :
  conforms t true (protocolservice_protocol_fiber_loop j) (loops (λ _ x, x = true)).
Proof.
  apply conforms_own. intros s c _ _ _ _ _. destruct (_ || _).
  - eapply conforms_mono; [apply quiet_conforms, quiet_shutdown|]. by intros ? ? [].
  - apply conforms_then; [apply read_conforms|]. intros t' retval. destruct (negb _); [|done].
    eapply conforms_mono; [apply quiet_conforms, quiet_shutdown|]. by intros ? ? [].
Qed.

(** ** The context of the data service *)

Lemma set_true_wf caps n : wf_caps caps → wf_caps (BITCAP_SET_TRUE caps n).
Proof.
  intros [Hl Hu]. split; [by rewrite length_SET_TRUE|]. apply Forall_lookup_2. intros i w Hw.
  unfold BITCAP_SET_TRUE in Hw. rewrite list_lookup_alter in Hw.
  pose proof (BITCAP_SHIFT_range n). rewrite Forall_lookup in Hu. case_decide as Hi; [|by eapply Hu].
  apply fmap_Some in Hw as (w0&Hw0&->). rewrite shift_one_wrap by done.
  apply lor_range; [done|by eapply Hu|]. split; [lia|]. apply Z.pow_lt_mono_r; lia.
Qed.

Definition bits_fit (l : list (bytes * nat)) : Prop := Forall (λ p, (BITCAP_OFFSET p.2 < cap_words)%nat) l.

Lemma check_capabilities_spec entity id agent l caps w :
  wf_caps caps → bits_fit l →
  let caps' := (check_capabilities entity id agent l caps w).1 in
  wf_caps caps' ∧ ∀ n, BITCAP_ISSET caps' n = true → BITCAP_ISSET caps n = true ∨
    ∃ verb, (verb, n) ∈ l ∧ is_Some (tree_map (ae_capabilities entity) !! capability_key_bytes (CapabilityKey id verb agent)).
Proof.
  revert caps w. induction l as [|[verb cap] l IH]; intros caps w Hwf Hfit; [simpl; by auto|].
  apply Forall_cons in Hfit as [Hcap Hfit]. simpl in Hcap. cbn [check_capabilities].
  unfold protocolservice_authorized_entity_capability_check, act.
  destruct (rbtree_find _ _ w) as [[k|s] w1] eqn:E; cbn [ret].
  - destruct (IH (BITCAP_SET_TRUE caps cap) w1 (set_true_wf _ _ Hwf) Hfit) as [Hwf' Hbits]. split; [done|].
    intros n Hn. destruct (Hbits n Hn) as [Hn1|(v&Hv&Hin)]; [|right; exists v; by rewrite elem_of_cons; auto].
    rewrite ISSET_SET_TRUE in Hn1 by (unfold bit_in; by destruct Hwf as [-> _]).
    apply orb_true_iff in Hn1 as [Hn1|]; [|by left]. apply bool_decide_eq_true in Hn1 as ->.
    right. exists verb. split; [by left|]. apply law_tree_find in E. by eexists.
  - destruct (IH caps w1 Hwf Hfit) as [Hwf' Hbits]. split; [done|]. intros n Hn.
    destruct (Hbits n Hn) as [|(v&Hv&Hin)]; [by left|]. right. exists v. by rewrite elem_of_cons; auto.
Qed.

Lemma map_user_granted uuid w buf w' :
  protocolservice_dataservice_map_user_capabilities ctx uuid w = (Ok buf, w') →
  ∃ caps, buf = caps_bytes caps ∧ only_granted rg (pc_agentd_uuid ctx) uuid caps.
Proof.
  unfold protocolservice_dataservice_map_user_capabilities, act.
  destruct (rbtree_find _ _ w) as [[p|s] w1] eqn:Ef; [|done]. apply law_tree_find in Ef.
  destruct (rep_pointer _ _ REP _ _ Ef) as (e&He&_&Hrg). rewrite He.
  set (caps0 := BITCAP_SET_TRUE _ _).
  assert (wf_caps caps0) as Hwf0.
  { apply set_true_wf. split; [apply length_replicate|]. by apply Forall_replicate. }
  pose proof (check_capabilities_spec e uuid (pc_agentd_uuid ctx) user_capabilities caps0 w1 Hwf0) as H.
  destruct (check_capabilities _ _ _ _ _ w1) as [caps w2]. destruct H as [Hwf Hbits]; [by repeat constructor|].
  cbn [fst] in *. destruct (vccrypt_buffer_init _ w2) as [[rc b] w3] eqn:Eb.
  destruct (Z.eqb_spec rc 0) as [->|]; [|done]. intros [= <- _]. exists caps.
  apply law_buffer_size in Eb.
  split; [by rewrite splice_whole|]. split; [done|]. intros n Hn.
  destruct (Hbits n Hn) as [H0|(verb&Hv&Hk)].
  - left. subst caps0. rewrite ISSET_SET_TRUE, ISSET_INIT_FALSE, orb_false_r in H0 by (vm_compute; lia).
    by apply bool_decide_eq_true in H0.
  - right. exists verb, (info_of e). split_and!; [done..|]. simpl. by apply elem_of_dom.
Qed.

(** ** The start of a connection *)

Lemma request_context_conforms t :
  conforms t true (protocolservice_protocol_request_data_service_context j) (λ _ x _, x = true).
Proof.
  apply conforms_own. intros s c Hs _ Hra _ Hf. destruct (Hf eq_refl) as (f&Hu&Huuid&_).
  apply conforms_pcheck. intros w req w' E. apply request_message_create_fields in E as ->.
  apply conforms_bind, conforms_lib. intros w1 r w1' E. destruct r as [buf|st]; [|apply quiet_conforms; quiet].
  rewrite (kn_ctx _ Hs) in E. apply map_user_granted in E as (caps&->&Hg). rewrite Hra, Huuid in *.
  cbn [dm_protocol_request_id dm_request_id dm_offset dm_data].
  apply conforms_own. intros s2 c2 Hs2 _ _ Hfa _. rewrite (kn_data _ Hs2), Hfa. apply conforms_then.
  - apply (conforms_send t (open_message ra fa caps)). right. by exists f, caps.
  - intros t' rc. apply quiet_conforms. destruct (negb _); quiet.
Qed.

Lemma write_endpoint_add_conforms t :
  conforms t true (protocolservice_protocol_write_endpoint_add j) (λ _ x _, x = true).
Proof.
  apply conforms_bind, conforms_update. intros s [Hs Hx].
  assert (keeps s (set_connection j (add_reference 1) s)) as Hk by (by apply keeps_connection).
  destruct (qc_keeps (C := reader_contract) t true s _ (conj Hs Hx) Hk) as [Hm Hp]. exists true. split_and!; [done..|].
  assert (∀ retval t, conforms t true (let@ r := protocolservice_protocol_fiber_context_release j in
    Done (or_else r retval)) (λ _ x _, x = true)) as Hrelease by (intros; apply quiet_conforms; quiet).
  assert (∀ retval t, conforms t true (let@ r := lib resource_release in
    let@ r' := protocolservice_protocol_fiber_context_release j in Done (or_else r' (or_else r retval)))
    (λ _ x _, x = true)) as Hfiber by (intros; apply quiet_conforms; quiet).
  apply quiet_then; [quiet|]. intros rc. destruct (negb _); [apply Hrelease|].
  apply quiet_then; [quiet|]. intros rc'. destruct (negb _); [apply Hfiber|].
  apply conforms_bind, conforms_call; [by split|]. intros rc2. destruct (negb _); [apply Hfiber|done].
Qed.

Lemma cleanup_conforms t x retval : conforms t x (cleanup_context j retval) (loops (λ _ x, x = true)).
Proof. apply quiet_then; [quiet|done]. Qed.

Lemma reader_start_conforms log :
  conforms (ReaderView None false None log) false (protocolservice_protocol_fiber_start j)
    (loops (λ _ x, x = true)).
Proof.
  apply conforms_own. intros s c _ _ _ _ _.
  apply conforms_bind, conforms_call; [done|]. intros [rc f].
  apply conforms_bind, conforms_update. intros s2 [Hs2 _].
  set (s3 := set_connection j _ s2).
  pose proof (kn_links _ Hs2) as Hl. destruct (sv_connections s2 !! j) as [c2|] eqn:Hc2; [|done].
  assert (sv_connections s3 !! j = Some (set_fiber f c2)) as Hc3 by (simpl; by rewrite list_lookup_alter_eq, Hc2).
  assert (core_same s2 s3) as Hcore.
  { split; try done. intros i. by apply alter_view. }
  exists (rc =? 0). split_and!.
  - split; try done. intros i [|Hi]; [done|]. simpl. by rewrite list_lookup_alter_ne.
  - split; [by eapply knows_same|]. intros E. exists f, (set_fiber f c2). simpl. by rewrite E.
  - destruct (Z.eqb_spec rc 0) as [->|_]; cbn [negb]; [|apply cleanup_conforms].
    apply conforms_then; [apply request_context_conforms|]. intros t rc2. destruct (negb _); [apply cleanup_conforms|].
    apply conforms_then; [apply write_endpoint_add_conforms|]. intros t' rc3.
    destruct (negb _); [apply cleanup_conforms|done].
Qed.
End reader.

(** ** The fiber that writes responses keeps its contract

    A message is taken when the one before is done with; it is written as the packet
    it stands for, at most once, with the next vector of the service. *)

(** ** Failures *)

(** A failure has a status other than that of success. *)
Definition fails {W A} (m : Eff W A) : Prop := ∀ w s w', m w = (Err s, w') → s ≠ 0.
Definition result_fails {A} (r : result A) : Prop := ∀ s, r = Err s → s ≠ 0.

Class VCBLOCKCHAIN_encode_laws (W : Type) `{VP : VCBLOCKCHAIN_PROTOCOL W} := {
  law_encode_error_resp : ∀ a b c, fails (vcblockchain_protocol_encode_error_resp a b c);
  law_encode_resp_generic : ∀ a b c d, fails (vcblockchain_protocol_encode_resp_generic a b c d);
  law_encode_resp_latest_block_id_get : ∀ a b c, fails (vcblockchain_protocol_encode_resp_latest_block_id_get a b c);
  law_encode_resp_block_id_by_height_get : ∀ a b c, fails (vcblockchain_protocol_encode_resp_block_id_by_height_get a b c);
  law_encode_resp_block_next_id_get : ∀ a b c, fails (vcblockchain_protocol_encode_resp_block_next_id_get a b c);
  law_encode_resp_block_prev_id_get : ∀ a b c, fails (vcblockchain_protocol_encode_resp_block_prev_id_get a b c);
  law_encode_resp_txn_next_id_get : ∀ a b c, fails (vcblockchain_protocol_encode_resp_txn_next_id_get a b c);
  law_encode_resp_txn_prev_id_get : ∀ a b c, fails (vcblockchain_protocol_encode_resp_txn_prev_id_get a b c);
  law_encode_resp_txn_block_id_get : ∀ a b c, fails (vcblockchain_protocol_encode_resp_txn_block_id_get a b c);
  law_encode_resp_artifact_first_txn_id_get : ∀ a b c, fails (vcblockchain_protocol_encode_resp_artifact_first_txn_id_get a b c);
  law_encode_resp_artifact_last_txn_id_get : ∀ a b c, fails (vcblockchain_protocol_encode_resp_artifact_last_txn_id_get a b c);
  law_encode_resp_transaction_submit : ∀ a b, fails (vcblockchain_protocol_encode_resp_transaction_submit a b);
  law_encode_resp_block_get : ∀ a b c d e f g h i, fails (vcblockchain_protocol_encode_resp_block_get a b c d e f g h i);
  law_encode_resp_txn_get : ∀ a b c d e f g h i j, fails (vcblockchain_protocol_encode_resp_txn_get a b c d e f g h i j);
}.

Section failures.
Context {W : Type} {VP : VCBLOCKCHAIN_PROTOCOL W} {VEL : VCBLOCKCHAIN_encode_laws W} {VS : VCCRYPT_SUITE W}.

Lemma fails_decoded {A B} (r : result A) (k : A → Eff W B) :
  result_fails r → (∀ a, fails (k a)) → fails (decoded r k).
Proof. intros Hr Hk. destruct r as [a|s]; simpl; [apply Hk|]. intros w s' w' [= <- _]. by apply Hr. Qed.

Lemma result_fails_bind {A B} (r : result A) (k : A → result B) :
  result_fails r → (∀ a, result_fails (k a)) → result_fails (result_bind r k).
Proof. intros Hr Hk. destruct r as [a|s]; simpl; [apply Hk|]. intros s' [= <-]. by apply Hr. Qed.
Lemma result_fails_check c s : s ≠ 0 → result_fails (check c s).
Proof. intros Hs. destruct c; by intros s' [= <-]. Qed.
Lemma result_fails_ok {A} (a : A) : result_fails (Ok a).
Proof. done. Qed.

Ltac result_fails :=
  repeat first
    [ apply result_fails_ok
    | apply result_fails_check; done
    | apply result_fails_bind; [|intros ?]
    | match goal with |- result_fails (if ?b then _ else _) => destruct b end
    | progress cbv zeta ].

Lemma header_fails c method resp : result_fails (decode_response_header c method resp).
Proof. unfold decode_response_header. result_fails. Qed.

Lemma responses_fail resp :
  result_fails (dataservice_decode_response_latest_block_id_get resp) ∧
  result_fails (dataservice_decode_response_block_id_by_height_get resp) ∧
  result_fails (dataservice_decode_response_transaction_submit resp) ∧
  result_fails (dataservice_decode_response_artifact_get resp) ∧
  result_fails (dataservice_decode_response_block_get resp) ∧
  result_fails (dataservice_decode_response_canonized_transaction_get resp).
Proof.
  split_and!; [..|]; first [apply header_fails | apply result_fails_bind; [apply header_fails|intros hdr]; result_fails].
Qed.

Lemma message_fails p resp : fails (protocolservice_pwe_dnd_dataservice_message p resp).
Proof.
  destruct (responses_fail resp) as (?&?&?&?&?&?). unfold protocolservice_pwe_dnd_dataservice_message.
  repeat case_match; [..|by intros w s w' [= <- _]].
  all: apply fails_decoded; [done|]; intros a; repeat case_match; unfold error_packet, id_packet; try case_match.
  all: first [apply law_encode_error_resp | apply law_encode_resp_latest_block_id_get
    | apply law_encode_resp_block_id_by_height_get | apply law_encode_resp_block_next_id_get
    | apply law_encode_resp_block_prev_id_get | apply law_encode_resp_txn_next_id_get
    | apply law_encode_resp_txn_prev_id_get | apply law_encode_resp_txn_block_id_get
    | apply law_encode_resp_artifact_first_txn_id_get | apply law_encode_resp_artifact_last_txn_id_get
    | apply law_encode_resp_transaction_submit | apply law_encode_resp_block_get | apply law_encode_resp_txn_get].
Qed.
End failures.

Section writer.
Context {W : Type} {RB : RCPR_RBTREE W} {RT : RCPR_TREES W} {RA : RCPR_ALLOCATOR W}.
Context {VB : VCCRYPT_BUFFER W} {RE : RANDOM_ENDPOINT W} {RF : RCPR_FIBER W} {VP : VCBLOCKCHAIN_PROTOCOL W}.
Context {VEL : VCBLOCKCHAIN_encode_laws W}.
Context {KB : KEY_BUFFERS W} {KA : KEY_AGREEMENT W} {VS : VCCRYPT_SUITE W} {MO : MAC_OPTIONS W}.
Context {PP : PROTOCOL_PLATFORM W}.
Context (j : nat) (ra fa da na : Z) (Hra : ra ≠ fa) (ctx : protocolservice_context (W := W)).
Context (f : protocolservice_protocol_fiber_context).

(** ** The contract *)

(** The packet that a message stands for. *)
Inductive renders (m : message) (buf : bytes) : Prop :=
  | renders_response p resp w w' :
      message_body m = mp_write_endpoint p →
      wm_message_type p = PROTOCOLSERVICE_PROTOCOL_WRITE_ENDPOINT_DATASERVICE_MSG →
      wm_payload p = Some resp → protocolservice_pwe_dnd_dataservice_message p resp w = (Ok buf, w') →
      renders m buf
  | renders_notification p w w' :
      message_body m = mp_write_endpoint p →
      wm_message_type p = PROTOCOLSERVICE_PROTOCOL_WRITE_ENDPOINT_NOTIFICATION_MSG →
      vcblockchain_protocol_encode_resp_generic (wm_original_request_id p) (wm_offset p) 0 [] w = (Ok buf, w') →
      renders m buf
  | renders_packet p :
      message_body m = mp_write_endpoint p →
      wm_message_type p = PROTOCOLSERVICE_PROTOCOL_WRITE_ENDPOINT_PACKET →
      buf = default [] (wm_payload p) → renders m buf.

(** The vector of the next packet. *)
Definition next_vector (t : writer_view) : Z := wrap64 (pf_server_iv f + Z.of_nat (length (wv_log t))).

Definition writer_pre (t : writer_view) (iv : Z) (s : service W) : Prop :=
  knows j ra fa da na ctx s ∧
  ∃ c, sv_connections s !! j = Some c ∧ pf_shared_secret (pn_fiber c) = pf_shared_secret f ∧
    pf_server_iv (pn_fiber c) = iv.

(** What a writer leaves of its connection. *)
Definition user_view (c : protocol_connection W) : Z * Z * (bytes * bytes) :=
  (links c, (pf_entity_uuid (pn_fiber c), pf_shared_secret (pn_fiber c))).

Record writer_moves (iv : Z) (s : service W) (iv' : Z) (s' : service W) : Prop := {
  wm_core : core_same s s';
  wm_tree : de_mailbox_context_tree (sv_data s') = de_mailbox_context_tree (sv_data s);
  wm_views : ∀ i, i ≠ j → conn_view <$> sv_connections s' !! i = conn_view <$> sv_connections s !! i;
  wm_user : user_view <$> sv_connections s' !! j = user_view <$> sv_connections s !! j }.

Definition writer_may (t : writer_view) (x : Z) (o : op) : Prop :=
  match o with
  | op_message_receive a => a = fa ∨ (a = ra ∧ ∀ m, wv_current t = Some m → data_reply m = false)
  | op_client_write i iv buf secret =>
      i = j ∧ secret = pf_shared_secret f ∧ iv = next_vector t ∧
      ∃ m, wv_current t = Some m ∧ renders m buf
  | _ => harmless ra fa o
  end.

Definition writer_contract : contract W writer_view Z :=
  Contract (writer_step ra) writer_pre writer_moves writer_may.

#[export] Instance writer_good : good_contract writer_contract.
Proof.
  split; simpl.
  - intros iv s. by split; [apply core_same_refl|..].
  - intros i1 s1 i2 s2 i3 s3 [C1 T1 V1 U1] [C2 T2 V2 U2]. split; [by eapply core_same_trans|congruence|..|congruence].
    intros i Hi. by rewrite V2, V1.
  - by intros t iv s o a H _.
Qed.

Lemma conn_user_view (l l' : list (protocol_connection W)) i :
  conn_view <$> l' !! i = conn_view <$> l !! i → user_view <$> l' !! i = user_view <$> l !! i.
Proof. destruct (l' !! i), (l !! i); simpl; unfold conn_view, user_view; congruence. Qed.

#[export] Instance writer_quiet : quiet_contract j ra fa da na ctx writer_contract.
Proof.
  split; simpl.
  - by intros t iv s [].
  - intros t iv s s' [Hk (c&Hc&Hsec&Hiv)] [K T V]. split.
    + split; auto using conn_user_view.
    + split; [by eapply knows_same|]. specialize (V j). rewrite Hc in V.
      destruct (sv_connections s' !! j) as [c'|]; [|done]. exists c'. unfold conn_view in V. simpl in V.
      split; [done|]. split; congruence.
  - intros t x [] Ho; try done. by left.
  - intros t [] a Ho; simpl in *; try done. destruct a as [rc m]. subst.
    rewrite (proj2 (Z.eqb_neq fa ra)) by done. by rewrite andb_false_r.
Qed.

Abbreviation program := (prog (service W * W)).
Abbreviation conforms := (conforms writer_contract).

(** The vector is that of the packets so far. *)
Definition in_step (t : writer_view) (iv : Z) : Prop := iv = next_vector t.

Lemma write_raw_conforms t iv m buf :
  in_step t iv → wv_current t = Some m → renders m buf →
  conforms t iv (protocolservice_protocol_write_endpoint_write_raw_packet j buf)
    (λ t' iv' _, in_step t' iv' ∧ wv_current t' = None).
Proof.
  intros Hiv Hm Hbuf. apply conforms_bind, conforms_get. intros s [Hs (c&Hc&Hsec&Hi)]. rewrite Hc.
  apply conforms_bind, conforms_call; [split_and!; [done..|by rewrite Hi|by exists m]|]. intros rc.
  apply conforms_bind, conforms_update. intros s2 [Hs2 (c2&Hc2&Hsec2&Hi2)].
  set (s3 := set_connection j _ s2).
  assert (sv_connections s3 !! j = Some (set_fiber (next_server_iv (pn_fiber c2)) c2)) as Hc3
    by (simpl; by rewrite list_lookup_alter_eq, Hc2).
  assert (core_same s2 s3) as Hcore.
  { split; try done. intros i. by apply alter_view. }
  exists (wrap64 (iv + 1)). split_and!.
  - split; try done.
    + intros i Hi3. simpl. by rewrite list_lookup_alter_ne.
    + by rewrite Hc3, Hc2.
  - split; [by eapply knows_same|]. eexists. split_and!; [done..|]. simpl. by rewrite Hi2.
  - simpl. rewrite Hm. split; [|done]. rewrite Hiv. unfold in_step, next_vector, wrap64. simpl.
    rewrite length_app, Zplus_mod_idemp_l. f_equal. simpl. lia.
Qed.

(** The message was written, or need not be. *)
Definition done_with (t : writer_view) : Prop := ∀ m, wv_current t = Some m → data_reply m = false.
Definition writer_top (t : writer_view) (iv : Z) : Prop := in_step t iv ∧ done_with t.

Lemma message_conforms t iv m :
  in_step t iv → wv_current t = Some m →
  conforms t iv (protocolservice_protocol_write_endpoint_decode_and_dispatch j m)
    (λ t' iv' rc, rc = 0 → writer_top t' iv').
Proof.
  intros Hiv Hm. unfold protocolservice_protocol_write_endpoint_decode_and_dispatch, as_write_endpoint.
  destruct (message_body m) as [|p| |] eqn:Hp; [done| |done|done].
  assert (∀ buf, renders m buf →
    conforms t iv (protocolservice_protocol_write_endpoint_write_raw_packet j buf) (λ t' iv' _, writer_top t' iv')) as Hwrite.
  { intros buf Hbuf. eapply conforms_mono; [by eapply write_raw_conforms|]. intros t' iv' rc [Hi Hn].
    split; [done|]. intros m'. by rewrite Hn. }
  assert (wm_message_type p ≠ PROTOCOLSERVICE_PROTOCOL_WRITE_ENDPOINT_DATASERVICE_MSG → done_with t) as Hdone.
  { intros Hne m' E. rewrite Hm in E. injection E as <-. unfold data_reply. rewrite Hp. by apply Z.eqb_neq. }
  repeat match goal with |- conforms _ _ (if ?a =? ?b then _ else _) _ => destruct (Z.eqb_spec a b) as [E|Hne]; [|try clear Hne] end.
  - apply quiet_then; [quiet|]. intros _ _. split; [done|]. apply Hdone. by rewrite E.
  - destruct (wm_payload p) as [resp|] eqn:Hpl; [|done]. destruct (_ <? _)%nat; [done|].
    apply conforms_bind, conforms_lib. intros w [buf|s] w' Er; [|apply message_fails in Er; by intros].
    eapply conforms_mono; [apply Hwrite; by eapply renders_response|]. auto.
  - apply conforms_bind, conforms_lib. intros w [buf|s] w' Er; [|apply law_encode_resp_generic in Er; by intros].
    apply conforms_bind. eapply conforms_mono; [apply Hwrite; by eapply renders_notification|].
    intros t' iv' rc Ht. destruct (negb _); [by simpl; intros|]. apply quiet_then; [quiet|]. by simpl; intros _ _.
  - eapply conforms_mono; [apply Hwrite; by eapply renders_packet|]. auto.
  - by intros [=].
Qed.

Lemma writer_cleanup_conforms t iv retval : conforms t iv (cleanup_context j retval) (loops writer_top).
Proof. apply quiet_then; [quiet|done]. Qed.

Lemma writer_loop_conforms t iv :
  writer_top t iv → conforms t iv (protocolservice_protocol_write_endpoint_loop j) (loops writer_top).
Proof.
  intros [Hiv Hd]. apply conforms_bind, conforms_get. intros s [Hs (c&Hc&_)]. rewrite Hc.
  destruct (_ || _); [apply writer_cleanup_conforms|].
  pose proof (kn_links _ Hs) as Hl. rewrite Hc in Hl. injection Hl as -> _.
  apply conforms_bind, conforms_call; [by right|]. intros [rc m].
  destruct (Z.eqb_spec rc 0) as [->|_]; cbn [negb]; [|apply writer_cleanup_conforms].
  assert (ct_step writer_contract t (op_message_receive ra) (0, m) = WriterView (Some m) (wv_log t)) as ->
    by (simpl; by rewrite Z.eqb_refl).
  apply conforms_bind. eapply conforms_mono; [by apply message_conforms|].
  intros t' iv' rc Ht. destruct (Z.eqb_spec rc 0) as [->|_]; cbn [negb].
  - apply quiet_then; [quiet|]. intros rc. destruct (negb _); [apply writer_cleanup_conforms|by apply Ht].
  - apply quiet_then; [quiet|]. intros rc'. apply writer_cleanup_conforms.
Qed.
End writer.
