(* ===== verification/ProtocolEndpointContracts.v ===== *)
(** * The endpoints keep their contracts

    First that of the data service.  A message is served before the next is taken; a request is sent to the data service
    only in the context that its connection holds, and the response goes back to where
    the request came from. *)

From S2P Require Import Prelude Inet StatusCodes Contexts Lmdb Records RequestCodec RequestSpec ResponseCodec Ipc IpcSpec AuthedIpc ClientApi NotificationCodec ProtocolService ProtocolSpec ProtocolControlSpec Handshake ProtocolFibers ProtocolRequests ProtocolResponses ProtocolEndpoints ProtocolScheduler ProtocolContracts.

(** ** What is relied on *)

(** Trees are finite maps; nothing is inserted twice, and only what is not there cannot
    be deleted.  Memory can be reclaimed. *)
Class RCPR_TREES_laws (W : Type) `{RT : RCPR_TREES W} `{PP : PROTOCOL_PLATFORM W} := {
  utree_map : ∀ {V}, utree V → gmap Z V;
  law_utree_insert : ∀ V (t : utree V) k v w rc t' w', utree_insert t k v w = ((rc, t'), w') →
    if rc =? 0 then utree_map t !! k = None ∧ utree_map t' = <[k := v]> (utree_map t)
    else utree_map t' = utree_map t;
  law_utree_find : ∀ V (t : utree V) k w v w', utree_find t k w = (Ok v, w') → utree_map t !! k = Some v;
  law_utree_delete : ∀ V (t : utree V) k w rc t' w', utree_delete t k w = ((rc, t'), w') →
    utree_map t' = delete k (utree_map t);
  law_memory_reclaim : ∀ w, (memory_reclaim w).1 = 0;
}.

Section endpoint.
Context {W : Type} {RB : RCPR_RBTREE W} {RT : RCPR_TREES W} {RA : RCPR_ALLOCATOR W} {PP : PROTOCOL_PLATFORM W}.
Context {TL : RCPR_TREES_laws W} {VB : VCCRYPT_BUFFER W} {VL : VCCRYPT_BUFFER_laws W} {RE : RANDOM_ENDPOINT W}.
Context (da na : Z).

Abbreviation tree := (utree protocolservice_dataservice_mailbox_context_entry).
Abbreviation write_message := protocolservice_protocol_write_endpoint_message.

(** ** The contract *)

(** What is sent to the data service for a message. *)
Inductive valid_out (log : list exchange) (m : message) (out : bytes) : Prop :=
  | out_open p :
      message_body m = mp_dataservice_request p →
      dm_request_id p = PROTOCOLSERVICE_DATASERVICE_ENDPOINT_REQ_CONTEXT_OPEN →
      out = net32 DATASERVICE_API_METHOD_LL_CHILD_CONTEXT_CREATE ++ default [] (dm_payload p) →
      valid_out log m out
  | out_close p child :
      message_body m = mp_dataservice_request p →
      dm_request_id p = PROTOCOLSERVICE_DATASERVICE_ENDPOINT_REQ_CONTEXT_CLOSE →
      holds log (dm_data p) child →
      out = request_packet (child_context_close (ReqChildClose child)) → valid_out log m out
  | out_request p breq child :
      message_body m = mp_dataservice_request p →
      dm_request_id p = PROTOCOLSERVICE_DATASERVICE_ENDPOINT_REQ_DATASERVICE_REQ →
      dm_payload p = Some breq → holds log (message_return_address m) child →
      out = splice 4 (net32 child) breq → valid_out log m out.

(** The message before was served. *)
Definition served (t : endpoint_view) : Prop :=
  match ev_phase t with
  | ep_idle => True
  | ep_got m | ep_asked m _ => data_request m = false
  | ep_answered x => data_request (ex_message x) = false
  | ep_dead => False
  end.

(** The reply to a request after an exchange. *)
Definition reply_of (x : exchange) (m : message) : Prop :=
  ∃ p, message_body (ex_message x) = mp_dataservice_request p ∧
    message_body m = mp_write_endpoint
      (WriteEndpointMessage PROTOCOLSERVICE_PROTOCOL_WRITE_ENDPOINT_DATASERVICE_MSG
         (dm_protocol_request_id p) (dm_offset p) (Some (ex_in x))).

Definition endpoint_pre (t : endpoint_view) (x : tree) (s : service W) : Prop :=
  de_addr (sv_data s) = da ∧ de_mailbox_context_tree (sv_data s) = x.

Record endpoint_moves (x : tree) (s : service W) (x' : tree) (s' : service W) : Prop := {
  em_core : core_same s s';
  em_views : ∀ i, conn_view <$> sv_connections s' !! i = conn_view <$> sv_connections s !! i }.

Definition endpoint_may (t : endpoint_view) (x : tree) (o : op) : Prop :=
  match o with
  | op_message_receive a => a = da ∧ served t
  | op_data_write out => ∃ m, ev_phase t = ep_got m ∧ valid_out (ev_log t) m out
  | op_data_read => ∃ m out, ev_phase t = ep_asked m out
  | op_message_send a m =>
      as_dataservice_request m = None ∧
      (data_reply m = true → ∃ x, ev_phase t = ep_answered x ∧ data_request (ex_message x) = true ∧
         a = message_return_address (ex_message x) ∧ reply_of x m)
  | op_mailbox_close _ => True
  | _ => False
  end.

Definition endpoint_contract : contract W endpoint_view tree :=
  Contract endpoint_step endpoint_pre endpoint_moves endpoint_may.

#[export] Instance endpoint_good : good_contract endpoint_contract.
Proof.
  split; simpl.
  - intros x s. by split; [apply core_same_refl|].
  - intros x1 s1 x2 s2 x3 s3 [C1 V1] [C2 V2]. split; [by eapply core_same_trans|]. intros i. by rewrite V2.
  - by intros t x s o a H _.
Qed.

Abbreviation program := (prog (service W * W)).
Abbreviation conforms := (conforms endpoint_contract).

(** ** Trees *)

(** The entries are the contexts that the connections hold. *)
Definition entries_hold (log : list exchange) (x : tree) : Prop :=
  ∀ a e, utree_map x !! a = Some e → me_addr e = a ∧ holds log a (me_context e).

Lemma update_trees_conforms t x f (Q : endpoint_view → tree → unit → Prop) :
  (∀ s, endpoint_pre t x s → Q t (f x (de_context_mailbox_tree (sv_data s))).1 tt) →
  conforms t x (update_trees f) Q.
Proof.
  intros HQ. apply conforms_update. intros s [Hda Hx]. rewrite Hx.
  specialize (HQ s (conj Hda Hx)). destruct (f x _) as [mc cm] eqn:E. exists mc.
  split_and!; [by split|by split|done].
Qed.

Lemma insert_mailbox_conforms t x e :
  conforms t x (insert_mailbox_context e) (λ t' x' rc, t' = t ∧
    if rc =? 0 then utree_map x !! me_addr e = None ∧ utree_map x' = <[me_addr e := e]> (utree_map x)
    else utree_map x' = utree_map x).
Proof.
  apply conforms_bind, conforms_get. intros s [_ ->]. apply conforms_bind, conforms_lib.
  intros w [rc mc] w' E. apply law_utree_insert in E. apply conforms_bind, update_trees_conforms. by intros s2 _.
Qed.

Lemma delete_mailbox_conforms t x a :
  conforms t x (delete_mailbox_context a) (λ t' x' _, t' = t ∧ utree_map x' = delete a (utree_map x)).
Proof.
  apply conforms_bind, conforms_get. intros s [_ ->]. apply conforms_bind, conforms_lib.
  intros w [rc mc] w' E. apply law_utree_delete in E. apply conforms_bind, update_trees_conforms. by intros s2 _.
Qed.

Lemma insert_context_conforms t x e :
  conforms t x (insert_context_mailbox e) (λ t' x' _, t' = t ∧ x' = x).
Proof.
  apply conforms_bind, conforms_get. intros s _. apply conforms_bind, conforms_lib.
  intros w [rc cm] w' _. apply conforms_bind, update_trees_conforms. by intros s2 _.
Qed.

Lemma delete_context_conforms t x a :
  conforms t x (delete_context_mailbox a) (λ t' x' _, t' = t ∧ x' = x).
Proof.
  apply conforms_bind, conforms_get. intros s _. apply conforms_bind, conforms_lib.
  intros w [rc cm] w' _. apply conforms_bind, update_trees_conforms. by intros s2 _.
Qed.

Lemma find_conforms t x a :
  conforms t x (find_mailbox_context a) (λ t' x' r, t' = t ∧ x' = x ∧ ∀ e, r = Ok e → utree_map x !! a = Some e).
Proof.
  apply conforms_bind, conforms_get. intros s [_ ->]. apply conforms_lib.
  intros w r w' E. split_and!; [done..|]. intros e ->. by apply law_utree_find in E.
Qed.

(** ** Contexts *)

Lemma holds_opened log a child x : opens a child x → holds (log ++ [x]) a child.
Proof. intros Hx. by exists log, x, []. Qed.

Lemma holds_snoc log a child x : holds log a child → ¬ closes a x → holds (log ++ [x]) a child.
Proof.
  intros (l1&y&l2&->&Hy&Hl) Hx. exists l1, y, (l2 ++ [x]). rewrite <- app_assoc. split; [done|]. split; [done|].
  apply Forall_app. split; [done|]. by constructor.
Qed.

Lemma entries_snoc log x y :
  entries_hold log x → (∀ a, is_Some (utree_map x !! a) → ¬ closes a y) → entries_hold (log ++ [y]) x.
Proof. intros H Hy a e He. destruct (H a e He). split; [done|]. apply holds_snoc; eauto. Qed.

(** A message of another kind closes nothing. *)
Lemma closes_kind a m out resp p :
  message_body m = mp_dataservice_request p →
  dm_request_id p ≠ PROTOCOLSERVICE_DATASERVICE_ENDPOINT_REQ_CONTEXT_CLOSE → ¬ closes a (Exchange m out resp).
Proof. intros Hp Hne (p'&hdr&Hp'&Hid&_). simpl in Hp'. congruence. Qed.

(** ** Requests and responses *)

Lemma conforms_lib_then {A B} t x (m : Act W A) (k : A → program B) Q :
  (∀ w a w', m w = (a, w') → conforms t x (k a) Q) → conforms t x (pbind (lib m) k) Q.
Proof. intros Hk. apply conforms_bind, conforms_lib. eauto. Qed.

Lemma sendreq_conforms m log x (encoded : Eff W bytes) :
  (∀ w s w', encoded w = (Err s, w') → s ≠ 0) → (∀ w out w', encoded w = (Ok out, w') → valid_out log m out) →
  conforms (EndpointView (ep_got m) log) x (data_sendreq encoded) (λ t' x' rc, x' = x ∧
    if rc =? 0 then ∃ out, t' = EndpointView (ep_asked m out) log else t' = EndpointView (ep_got m) log).
Proof.
  intros Herr Hok. apply conforms_lib_then. intros w [out|s] w' E.
  - apply conforms_bind, conforms_call; [exists m; eauto|]. intros rc. simpl.
    destruct (Z.eqb_spec rc 0) as [->|_]; simpl; [|done]. split; [done|]. by exists out.
  - apply Herr in E. apply conforms_done. split; [done|]. by rewrite (proj2 (Z.eqb_neq s 0)).
Qed.

Definition answered (log : list exchange) (m : message) (out resp : bytes) : endpoint_view :=
  EndpointView (ep_answered (Exchange m out resp)) (log ++ [Exchange m out resp]).

Lemma recvresp_conforms {A} m out log x (decode : bytes → result A) :
  conforms (EndpointView (ep_asked m out) log) x (data_recvresp decode) (λ t' x' r, x' = x ∧
    ((t' = EndpointView (ep_asked m out) log ∧ ∃ s, r = Err s) ∨
     (∃ resp, t' = answered log m out resp ∧ r = decode resp))).
Proof.
  apply conforms_bind, conforms_call; [by exists m, out|]. intros [rc resp]. simpl.
  destruct (Z.eqb_spec rc 0) as [->|_]; [|split; [done|]; left; by eauto].
  apply conforms_lib_then. intros w rc w' E. pose proof (law_memory_reclaim w) as Hr. rewrite E in Hr. simpl in Hr.
  rewrite Hr. split; [done|]. right. by exists resp.
Qed.

(** ** The reply *)

Lemma write_message_create_fields ty id off payload w m w' :
  protocolservice_protocol_write_endpoint_message_create ty id off payload w = (Ok m, w') →
  m = WriteEndpointMessage ty id off payload.
Proof.
  unfold protocolservice_protocol_write_endpoint_message_create, act.
  destruct (rcpr_allocator_allocate _ w) as [[rc b] w1]. destruct (negb _); [done|].
  destruct payload as [v|]; [|by intros [= <- _]].
  destruct (vccrypt_buffer_init _ w1) as [[rc2 b2] w2] eqn:E. destruct (Z.eqb_spec rc2 0) as [->|]; simpl.
  - intros [= <- _]. apply law_buffer_init in E. by rewrite splice_whole.
  - by destruct (memory_reclaim w2).
Qed.

(** After the message was served. *)
Definition reply_ready (m : message) (t : endpoint_view) (x : tree) (r : result write_message) : Prop :=
  match r with
  | Err _ => True
  | Ok reply =>
      entries_hold (ev_log t) x ∧
      ((served t ∧ wm_message_type reply ≠ PROTOCOLSERVICE_PROTOCOL_WRITE_ENDPOINT_DATASERVICE_MSG) ∨
       (∃ y, ev_phase t = ep_answered y ∧ ex_message y = m ∧ data_request m = true ∧
          reply_of y (Message da (mp_write_endpoint reply))))
  end.

(** ** The handlers *)

Lemma encode_fields_fails n fields w s w' :
  length (concat fields) = n → encode_fields n fields w = (Err s, w') → s ≠ 0.
Proof.
  intros Hn E. apply (f_equal fst) in E. rewrite encode_fields_spec in E by done. simpl in E.
  destruct (Z.eqb_spec (vccrypt_buffer_init n w).1.1 0); congruence.
Qed.
Lemma encode_fields_is n fields w out w' :
  length (concat fields) = n → encode_fields n fields w = (Ok out, w') → out = concat fields.
Proof.
  intros Hn E. apply (f_equal fst) in E. rewrite encode_fields_spec in E by done. simpl in E.
  destruct (_ =? 0); congruence.
Qed.

Lemma other_kind m p :
  message_body m = mp_dataservice_request p →
  dm_request_id p ≠ PROTOCOLSERVICE_DATASERVICE_ENDPOINT_REQ_DATASERVICE_REQ → data_request m = false.
Proof. intros Hp Hid. unfold data_request. rewrite Hp. by apply Z.eqb_neq. Qed.

Lemma fails_conforms m t x retval : conforms t x (if retval =? 0 then Undefined else Done (Err retval)) (reply_ready m).
Proof. by destruct (_ =? _). Qed.
Hint Resolve fails_conforms : core.

Lemma open_conforms m p log x :
  message_body m = mp_dataservice_request p →
  dm_request_id p = PROTOCOLSERVICE_DATASERVICE_ENDPOINT_REQ_CONTEXT_OPEN → entries_hold log x →
  conforms (EndpointView (ep_got m) log) x
    (pde_decode_and_dispatch_req_context_open p (message_return_address m)) (reply_ready m).
Proof.
  intros Hp Hid Hx. assert (data_request m = false) as Hm by (eapply other_kind; [done|by rewrite Hid]).
  apply conforms_lib_then. intros w [rc b] w' _. destruct (negb _); [done|].
  assert (∀ t x retval, conforms t x (let@ r := lib memory_reclaim in
    if or_else r retval =? 0 then Undefined else Done (Err (or_else r retval))) (reply_ready m)) as Hclean.
  { intros t x0 retval. apply conforms_lib_then. auto. }
  apply conforms_bind. eapply conforms_mono; [apply (sendreq_conforms m)|].
  { intros w1 s w1'. apply encode_fields_fails. simpl. by rewrite app_nil_r, length_app, length_net32. }
  { intros w1 out w1' E. apply encode_fields_is in E as ->; [|simpl; by rewrite app_nil_r, length_app, length_net32].
    eapply out_open; [done..|]. simpl. by rewrite app_nil_r. }
  intros t1 x1 rc1 [-> Ht1]. destruct (rc1 =? 0); cbn [negb]; [destruct Ht1 as [out ->]|apply Hclean].
  apply conforms_bind. eapply conforms_mono; [apply recvresp_conforms|].
  intros t2 x2 r [-> [[-> [s ->]]|(resp&->&->)]]; [apply Hclean|].
  destruct (dataservice_decode_response_child_context_create resp) as [[hdr [child|]]|s] eqn:Er; [|apply Hclean..].
  apply conforms_bind. eapply conforms_mono; [apply insert_mailbox_conforms|].
  intros t3 x3 rc3 [-> Hx3]. destruct (rc3 =? 0); cbn [negb]; [|apply Hclean]. destruct Hx3 as [Hnone Hx3]. simpl in Hnone, Hx3.
  apply conforms_bind. eapply conforms_mono; [apply insert_context_conforms|].
  intros t4 x4 rc4 [-> ->]. destruct (negb _).
  { apply conforms_bind. eapply conforms_mono; [apply delete_mailbox_conforms|].
    intros t5 x5 rc5 [-> _]. destruct (_ && _); [apply Hclean|apply fails_conforms]. }
  apply conforms_lib_then. intros w5 [reply|s] w5' E.
  - apply write_message_create_fields in E as ->. split; [|by left].
    intros a e. rewrite Hx3, lookup_insert_Some. intros [[<- <-]|[Hne He]].
    + split; [done|]. apply holds_opened. by exists p, hdr.
    + destruct (Hx a e He). split; [done|]. apply holds_snoc; [done|].
      eapply closes_kind; [done|]. by rewrite Hid.
  - apply conforms_bind. eapply conforms_mono; [apply delete_context_conforms|]. intros t5 x5 rc5 [-> ->].
    apply conforms_bind. eapply conforms_mono; [apply delete_mailbox_conforms|]. intros t6 x6 rc6 [-> _].
    apply fails_conforms.
Qed.

Lemma close_conforms m p log x :
  message_body m = mp_dataservice_request p →
  dm_request_id p = PROTOCOLSERVICE_DATASERVICE_ENDPOINT_REQ_CONTEXT_CLOSE → entries_hold log x →
  conforms (EndpointView (ep_got m) log) x (pde_decode_and_dispatch_req_context_close p)
    (reply_ready m).
Proof.
  intros Hp Hid Hx. assert (data_request m = false) as Hm by (eapply other_kind; [done|by rewrite Hid]).
  apply conforms_bind. eapply (conforms_mono _ _ _ (λ t x _, served t ∧ entries_hold (ev_log t) x)).
  2: { intros t1 x1 _ [Hs1 Hx1]. apply conforms_lib. intros w [reply|s] w' E; [|done].
       apply write_message_create_fields in E as ->. split; [done|by left]. }
  apply conforms_bind. eapply conforms_mono; [apply find_conforms|].
  intros t1 x1 [e|s] (->&->&He); [|done]. specialize (He e eq_refl). destruct (Hx _ _ He) as [Ha Hholds].
  apply conforms_bind. eapply conforms_mono; [apply (sendreq_conforms m)|].
  { intros w1 s w1'. by apply encode_fields_fails. }
  { intros w1 out w1' E. apply encode_fields_is in E as ->; [|done]. eapply out_close; [done..|].
    unfold request_packet. simpl. by rewrite <- !net32_be. }
  intros t1 x1 rc1 [-> Ht1]. destruct (rc1 =? 0); cbn [negb]; [destruct Ht1 as [out ->]|by subst].
  apply conforms_bind. eapply conforms_mono; [apply recvresp_conforms|].
  intros t2 x2 r [-> [[-> [s ->]]|(resp&->&->)]]; [done|].
  assert (∀ b, closes b (Exchange m out resp) →
    b = dm_data p ∧ ∃ hdr, dataservice_decode_response_child_context_close resp = Ok hdr ∧ rh_status hdr = 0) as Hcl.
  { intros b (p'&hdr&Hp'&_&<-&Hdec&Hst). simpl in *. split; [congruence|eauto]. }
  destruct (dataservice_decode_response_child_context_close resp) as [hdr|s].
  2: { split; [done|]. apply entries_snoc; [done|]. by intros b _ (_&?&?&_)%Hcl. }
  destruct (Z.eqb_spec (rh_status hdr) 0) as [Hst|Hst]; cbn [negb].
  2: { split; [done|]. apply entries_snoc; [done|]. intros b _ (_&hdr'&[= <-]&?)%Hcl. done. }
  apply conforms_bind. eapply conforms_mono; [apply delete_mailbox_conforms|]. intros t3 x3 rc3 [-> Hx3].
  assert (entries_hold (log ++ [Exchange m out resp]) x3) as Hx'.
  { intros b e'. rewrite Hx3, lookup_delete_Some. intros [Hne He']. destruct (Hx b e' He'). split; [done|].
    apply holds_snoc; [done|]. intros [-> _]%Hcl. by rewrite Ha in Hne. }
  destruct (negb _); [done|]. eapply conforms_mono; [apply delete_context_conforms|]. by intros t4 x4 rc4 [-> ->].
Qed.

Lemma request_conforms m p log x :
  message_body m = mp_dataservice_request p →
  dm_request_id p = PROTOCOLSERVICE_DATASERVICE_ENDPOINT_REQ_DATASERVICE_REQ → entries_hold log x →
  conforms (EndpointView (ep_got m) log) x
    (pde_decode_and_dispatch_req_dataservice_req p (message_return_address m)) (reply_ready m).
Proof.
  intros Hp Hid Hx. apply conforms_bind. eapply conforms_mono; [apply find_conforms|].
  intros t1 x1 [e|s] (->&->&He); [|done]. specialize (He e eq_refl). destruct (Hx _ _ He) as [Ha Hholds].
  destruct (dm_payload p) as [breq|] eqn:Hb; [|done]. destruct (_ <? _)%nat; [done|].
  set (out := splice 4 _ breq).
  apply conforms_bind, conforms_call; [exists m; split; [done|]; by eapply out_request|]. intros rc.
  destruct (Z.eqb_spec rc 0) as [->|_]; [|done]. cbn [negb].
  apply conforms_bind, conforms_call; [by exists m, out|]. intros [rc2 resp].
  destruct (Z.eqb_spec rc2 0) as [->|_]; [|done]. cbn [negb].
  change (ct_step _ _ _ _) with (answered log m out resp).
  apply conforms_lib_then. intros w reply w' E. apply conforms_lib_then. intros w2 rc3 w2' _.
  destruct (negb _); [done|]. destruct reply as [reply|]; [|done]. apply write_message_create_fields in E as ->.
  split.
  - apply entries_snoc; [done|]. intros b _. eapply closes_kind; [done|]. by rewrite Hid.
  - right. exists (Exchange m out resp). split_and!; [done..|unfold data_request; by rewrite Hp, Hid|by exists p].
Qed.

Lemma endpoint_dispatch_conforms m p log x :
  message_body m = mp_dataservice_request p → entries_hold log x →
  conforms (EndpointView (ep_got m) log) x
    (protocolservice_dataservice_endpoint_decode_and_dispatch p (message_return_address m)) (reply_ready m).
Proof.
  intros Hp Hx. unfold protocolservice_dataservice_endpoint_decode_and_dispatch.
  destruct (Z.eqb_spec (dm_request_id p) PROTOCOLSERVICE_DATASERVICE_ENDPOINT_REQ_CONTEXT_OPEN); [by apply open_conforms|].
  destruct (Z.eqb_spec (dm_request_id p) PROTOCOLSERVICE_DATASERVICE_ENDPOINT_REQ_CONTEXT_CLOSE); [by apply close_conforms|].
  destruct (Z.eqb_spec (dm_request_id p) PROTOCOLSERVICE_DATASERVICE_ENDPOINT_REQ_DATASERVICE_REQ); [by apply request_conforms|].
  apply conforms_lib. intros w [reply|s] w' E; [|done]. apply write_message_create_fields in E as ->.
  split; [done|]. left. split; [by eapply other_kind|done].
Qed.

(** ** The loop *)

Definition endpoint_top (t : endpoint_view) (x : tree) : Prop := served t ∧ entries_hold (ev_log t) x.

Lemma or_else_nonzero a b : b ≠ 0 → or_else a b ≠ 0.
Proof. unfold or_else. by destruct (Z.eqb_spec a 0). Qed.

Lemma send_reply_conforms t x m reply :
  reply_ready m t x (Ok reply) →
  conforms t x (send_payload (message_return_address m) da (mp_write_endpoint reply))
    (λ t' x' rc, rc = 0 → endpoint_top t' x').
Proof.
  intros [Hx Hr]. apply conforms_lib_then. intros w rc w' _.
  destruct (Z.eqb_spec rc 0) as [->|Hrc]; cbn [negb].
  2: { apply conforms_lib_then. intros w1 r w1' _ H. by apply or_else_nonzero in H. }
  assert (∀ t x rc, rc ≠ 0 → conforms t x (let@ r := lib resource_release in Done (or_else r rc))
    (λ t' x' rc, rc = 0 → endpoint_top t' x')) as Hfail.
  { intros t2 x2 rc2 Hrc. apply conforms_lib_then. intros w1 r w1' _ H. by apply or_else_nonzero in H. }
  destruct Hr as [[Hs Hty]|(y&Hy&<-&Hreq&Hreply)].
  - assert (data_reply (Message da (mp_write_endpoint reply)) = false) as Hd by (by apply Z.eqb_neq).
    apply conforms_bind, conforms_call; [split; [done|]; by rewrite Hd|]. intros rc.
    destruct (Z.eqb_spec rc 0) as [->|Hne]; cbn [negb]; [|by apply Hfail]. intros _. simpl. rewrite Hd. by split.
  - assert (data_reply (Message da (mp_write_endpoint reply)) = true) as Hd.
    { destruct Hreply as (p&_&E). unfold data_reply. by rewrite E. }
    apply conforms_bind, conforms_call; [split; [done|]; intros _; by exists y|]. intros rc.
    destruct (Z.eqb_spec rc 0) as [->|Hne]; cbn [negb]; [|by apply Hfail]. intros _. simpl. rewrite Hd. by split.
Qed.

Lemma endpoint_release_conforms t x :
  conforms t x protocolservice_dataservice_endpoint_context_release (λ _ _ _, True).
Proof.
  apply conforms_bind, conforms_get. intros s _. apply conforms_bind.
  apply (conforms_mono _ _ _ (λ _ _ _, True)).
  - destruct (_ <? _); [by apply conforms_call|done].
  - intros t' x' rc _. by repeat (apply conforms_lib_then; intros).
Qed.

Lemma endpoint_ends_conforms t x retval : conforms t x (data_endpoint_ends retval) (loops endpoint_top).
Proof. apply conforms_bind. eapply conforms_mono; [apply endpoint_release_conforms|]. done. Qed.

Lemma endpoint_loop_conforms t x :
  endpoint_top t x → conforms t x protocolservice_dataservice_endpoint_fiber_loop (loops endpoint_top).
Proof.
  intros [Hs Hx]. apply conforms_bind, conforms_get. intros s [-> _].
  apply conforms_bind, conforms_call; [by split|]. intros [rc m].
  destruct (Z.eqb_spec rc 0) as [->|_]; cbn [negb]; [|apply endpoint_ends_conforms].
  change (ct_step _ _ _ _) with (EndpointView (ep_got m) (ev_log t)).
  destruct (as_dataservice_request m) as [p|] eqn:Hp; [|done].
  assert (message_body m = mp_dataservice_request p) as Hb by (unfold as_dataservice_request in Hp; case_match; naive_solver).
  assert (∀ t x retval, conforms t x (let@ r := lib resource_release in data_endpoint_ends (or_else r retval))
    (loops endpoint_top)) as Hclean by (intros; apply conforms_lib_then; intros; apply endpoint_ends_conforms).
  apply conforms_bind. eapply conforms_mono; [by apply endpoint_dispatch_conforms|].
  intros t1 x1 [reply|st] Hr; [|apply Hclean].
  apply conforms_bind. eapply conforms_mono; [by apply send_reply_conforms|]. intros t2 x2 rc Ht.
  destruct (Z.eqb_spec rc 0) as [->|_]; cbn [negb]; [|apply Hclean].
  apply conforms_lib_then. intros w rc w' _. destruct (negb _); [apply endpoint_ends_conforms|by apply Ht].
Qed.
End endpoint.

(** ** The fibers of the notification service keep their contract

    They take messages from their own mailbox only, and send none that is for or from
    the data service. *)

Section notification.
Context {W : Type} {RB : RCPR_RBTREE W} {RT : RCPR_TREES W} {RA : RCPR_ALLOCATOR W} {PP : PROTOCOL_PLATFORM W}.
Context {VB : VCCRYPT_BUFFER W} {VL : VCCRYPT_BUFFER_laws W} {RE : RANDOM_ENDPOINT W}.
Context (na : Z).

Definition notification_may (o : op) : Prop :=
  match o with
  | op_message_receive a => a = na
  | op_message_send _ m => as_dataservice_request m = None ∧ data_reply m = false
  | op_mailbox_close _ | op_notify_write _ | op_notify_read => True
  | _ => False
  end.

Definition notification_contract : contract W unit unit :=
  Contract (λ t _ _, t) (λ _ _ s, ne_notify_addr (sv_notify s) = na) (λ _ s _ s', keeps s s')
    (λ _ _, notification_may).

#[export] Instance notification_good : good_contract notification_contract.
Proof.
  split; simpl; [done| |done]. intros _ s1 _ s2 _ s3. apply keeps_trans.
Qed.

Abbreviation program := (prog (service W * W)).

(** The program keeps the contract. *)
Definition minds {A} (p : program A) : Prop := conforms notification_contract tt tt p (λ _ _ _, True).

Lemma minds_done {A} (a : A) : minds (Done a).
Proof. done. Qed.
Lemma minds_undefined {A} : minds (Undefined (A := A)).
Proof. done. Qed.
Lemma minds_bind {A B} (p : program A) (k : A → program B) : minds p → (∀ a, minds (k a)) → minds (pbind p k).
Proof.
  intros Hp Hk. apply conforms_bind. eapply conforms_mono; [exact Hp|]. intros [] [] a _. apply Hk.
Qed.
Lemma minds_get {A} (k : service W → program A) :
  (∀ s, ne_notify_addr (sv_notify s) = na → minds (k s)) → minds (pbind get_service k).
Proof. intros Hk. apply conforms_bind, conforms_get, Hk. Qed.
Lemma minds_lib {A} (m : Act W A) : minds (lib m).
Proof. by apply conforms_lib. Qed.
Lemma minds_call o : notification_may o → minds (call o).
Proof. intros Ho. by apply conforms_call. Qed.
Lemma minds_update f :
  (∀ n, ne_notify_addr (f n) = ne_notify_addr n) → minds (update_notify f).
Proof.
  intros Hf. apply conforms_update. intros s Hs. exists tt. split_and!; [by apply keeps_notify|simpl; by rewrite Hf|done].
Qed.
Lemma minds_pcheck {A} (p : program (result A)) (k : A → program Z) :
  minds p → (∀ a, minds (k a)) → minds (pcheck p k).
Proof. intros Hp Hk. apply minds_bind; [done|]. intros [a|s]; [done|apply minds_done]. Qed.

Create HintDb minds.

Ltac minds_step :=
  match goal with
  | |- minds (Done _) => apply minds_done
  | |- minds Undefined => apply minds_undefined
  | |- minds (lib _) => apply minds_lib
  | |- minds (update_notify _) => by apply minds_update
  | |- minds (call _) => by apply minds_call
  | |- minds (pbind get_service _) => apply minds_get; intros ? ?
  | |- minds (pbind _ _) => apply minds_bind; [|intros ?]
  | |- minds _ => assumption || solve [auto with minds nocore]
  | |- minds (pcheck _ _) => apply minds_pcheck; [|intros ?]
  | |- minds (if ?b then _ else _) => destruct b
  | |- minds (let '(_, _) := ?x in _) => destruct x
  | |- minds (match ?x with _ => _ end) => destruct x eqn:?
  end; cbv beta zeta.
Ltac minds := repeat minds_step.

Lemma minds_send addr ret_addr payload :
  notification_may (op_message_send addr (Message ret_addr payload)) → minds (send_payload addr ret_addr payload).
Proof. intros Hm. unfold send_payload. minds. Qed.

Lemma minds_release : minds protocolservice_notificationservice_fiber_context_release.
Proof. unfold protocolservice_notificationservice_fiber_context_release. minds. Qed.
Hint Resolve minds_release : minds.

Lemma minds_ends retval : minds (notify_ends retval).
Proof. unfold notify_ends. minds. Qed.
Hint Resolve minds_ends : minds.

Lemma minds_respond addr offset success :
  minds (protocolservice_notificationservice_endpoint_send_request_response addr offset success).
Proof. unfold protocolservice_notificationservice_endpoint_send_request_response. minds. by apply minds_send. Qed.
Hint Resolve minds_respond : minds.

Lemma minds_request_offset req : minds (notification_request_offset req).
Proof.
  unfold notification_request_offset, protocolservice_notificationservice_xlat_map_add, notify_sendreq. minds.
Qed.
Hint Resolve minds_request_offset : minds.

Lemma minds_lookup offset : minds (protocolservice_notificationservice_lookup_return_address_from_offset offset).
Proof. unfold protocolservice_notificationservice_lookup_return_address_from_offset. minds. Qed.
Hint Resolve minds_lookup : minds.

Lemma notification_endpoint_conforms : minds protocolservice_notificationservice_endpoint_fiber_loop.
Proof.
  apply minds_get. intros s ->. unfold protocolservice_notificationservice_endpoint_fiber_loop. minds.
Qed.

Lemma minds_reply id offset addr ret_addr :
  minds (pcheck (lib (protocolservice_protocol_write_endpoint_message_create
                        PROTOCOLSERVICE_PROTOCOL_WRITE_ENDPOINT_NOTIFICATION_MSG id offset None))
           (λ reply, send_payload addr ret_addr (mp_write_endpoint reply))).
Proof.
  apply conforms_bind, conforms_lib. intros w [reply|s] w' E; [|done].
  apply write_message_create_fields in E as ->. by apply minds_send.
Qed.
Hint Resolve minds_reply : minds.

Lemma notification_writer_conforms : minds protocolservice_notificationservice_write_endpoint_fiber_loop.
Proof.
  unfold protocolservice_notificationservice_write_endpoint_fiber_loop. minds.
Qed.
End notification.
