(* ===== verification/ProtocolInvariant.v ===== *)
(** * The fibers together: an invariant

    Every fiber keeps its contract, whatever the others do: what one of them knows of
    the shared context the others leave alone.  So every call in a trace was allowed by
    the contract of its fiber, and the mailboxes deliver what was sent, in order. *)

From S2P Require Import Prelude Inet StatusCodes Contexts Lmdb Records RequestCodec RequestSpec ResponseCodec Ipc IpcSpec AuthedIpc ClientApi NotificationCodec ProtocolService ProtocolSpec ProtocolControlSpec Handshake ProtocolFibers ProtocolRequests ProtocolResponses ProtocolEndpoints ProtocolScheduler ProtocolContracts ProtocolConnection ProtocolEndpointContracts.

Section invariant.
Context {W : Type} {M : MALLOC W} {IO : POSIX_IO W} {IOL : POSIX_IO_laws W} {PS : PSOCK W}.
Context {RA : RCPR_ALLOCATOR W} {VB : VCCRYPT_BUFFER W} {RB : RCPR_RBTREE W} {RL : RCPR_laws W}.
Context {RT : RCPR_TREES W} {RE : RANDOM_ENDPOINT W} {RF : RCPR_FIBER W} {KB : KEY_BUFFERS W}.
Context {KA : KEY_AGREEMENT W} {VS : VCCRYPT_SUITE W} {MO : MAC_OPTIONS W}.
Context {VP : VCBLOCKCHAIN_PROTOCOL W} {VPL : VCBLOCKCHAIN_laws W} {VEL : VCBLOCKCHAIN_encode_laws W}.
Context {PP : PROTOCOL_PLATFORM W} {TL : RCPR_TREES_laws W}.
Context (rg : registry) (ctx : protocolservice_context (W := W)) (REP : represents ctx rg).
Context (da na : Z).

#[local] Existing Instance rcpr_buffer_laws.

Abbreviation machine := (service W * W)%type.
Abbreviation mailboxes := (gmap Z (list message)).

(** ** What every fiber may do *)

(** The mailboxes of the connections. *)
Definition mailboxes_of (s : service W) : list (Z * Z) := links <$> sv_connections s.

Definition role_may (l : list (Z * Z)) (tr : list event) (r : role) (o : op) : Prop :=
  match r with
  | reader j => ∃ ra fa x, l !! j = Some (ra, fa) ∧ reader_may rg ctx j ra fa da (reader_seen j tr) x o
  | writer j => ∃ ra fa f iv, l !! j = Some (ra, fa) ∧ user_of j tr = Some f ∧
      writer_may j ra fa f (writer_seen j ra tr) iv o
  | data_endpoint => ∃ x, endpoint_may (W := W) da (endpoint_seen tr) x o
  | _ => notification_may na o
  end.

Definition legal (l : list (Z * Z)) (tr : list event) : Prop :=
  ∀ tr1 r o a tr2, tr = tr1 ++ Event r o a :: tr2 → role_may l tr1 r o.

(** The handshake of the connection gave this. *)
Definition shook (j : nat) (f : protocolservice_protocol_fiber_context) : Prop :=
  let _ := connection_psock j in
  let _ := connection_authed j in
  ∃ f0 w w', protocolservice_protocol_handle_handshake sizeof_random_request ctx f0 w = ((0, f), w').

(** ** The invariant *)

(** A fiber that waits or has ended, or runs a program. *)
Inductive activity : Type :=
  | At (f : fiber machine)
  | In (p : prog machine next).

Definition act_conforms {T X} (C : contract W T X) (top : T → X → Prop) (t : T) (x : X) (a : activity) : Prop :=
  match a with At f => fiber_conforms C top t x f | In p => conforms C t x p (loops top) end.

Definition writer_ok (s : service W) (tr : list event) (acts : role → activity) (j : nat) (ra fa : Z) (x : bool)
  : Prop :=
  (acts (writer j) = At Absent ∧ writer_seen j ra tr = WriterView None [] ∧
     rv_started (reader_seen j tr) = false) ∨
  (∃ f iv, x = true ∧ user_of j tr = Some f ∧ rv_started (reader_seen j tr) = true ∧
     acts (writer j) ≠ At Absent ∧ writer_pre j ra fa da na ctx f (writer_seen j ra tr) iv s ∧
     act_conforms (writer_contract j ra fa da na ctx f) (writer_top f) (writer_seen j ra tr) iv (acts (writer j))).

Definition connection_ok (s : service W) (tr : list event) (acts : role → activity) (j : nat) (ra fa : Z) : Prop :=
  ∃ x, reader_pre ctx j ra fa da na (reader_seen j tr) x s ∧
    act_conforms (reader_contract rg ctx j ra fa da na) (λ _ x, x = true) (reader_seen j tr) x (acts (reader j)) ∧
    writer_ok s tr acts j ra fa x.

Record invariant (s : service W) (mail : mailboxes) (tr : list event) (acts : role → activity) : Prop := {
  in_ctx : sv_ctx s = ctx;
  in_data : de_addr (sv_data s) = da;
  in_notify : ne_notify_addr (sv_notify s) = na;
  in_addresses : NoDup (addresses s);
  in_legal : legal (mailboxes_of s) tr;
  in_mail : ∀ a l, mail !! a = Some l → sent a tr = received a tr ++ l;
  in_received : ∀ a, received a tr `prefix_of` sent a tr;
  in_unused : ∀ a, a ∉ addresses s → mail !! a = None ∧ sent a tr = [];
  in_user : ∀ j f, user_of j tr = Some f → shook j f;
  in_connection : ∀ j ra fa, mailboxes_of s !! j = Some (ra, fa) → connection_ok s tr acts j ra fa;
  in_absent : ∀ j, mailboxes_of s !! j = None → acts (reader j) = At Absent ∧ acts (writer j) = At Absent;
  in_endpoint : act_conforms (endpoint_contract da) endpoint_top (endpoint_seen tr)
    (de_mailbox_context_tree (sv_data s)) (acts data_endpoint);
  in_notifications : ∀ r, r = notification_endpoint ∨ r = notification_writer →
    act_conforms (notification_contract na) (λ _ _, True) tt tt (acts r) }.

(** The vector after a handshake is that of an increment. *)
Lemma and_then_done (m : Act W (Z * protocolservice_protocol_fiber_context)) k w f w' :
  and_then m k w = ((0, f), w') → ∃ c w1, k c w1 = ((0, f), w').
Proof.
  unfold and_then, act. destruct (m w) as [[rc c] w1]. destruct (Z.eqb_spec rc 0); simpl; [by eauto|].
  intros [= ? _ _]. done.
Qed.

Lemma shook_vector j f : shook j f → u64 (pf_server_iv f).
Proof.
  intros (f0&w&w'&H). unfold protocolservice_protocol_handle_handshake in H.
  destruct (negb _); [by injection H|].
  do 6 apply and_then_done in H as (?&?&H).
  unfold protocolservice_protocol_write_handshake_ack_resp, act in H.
  destruct (psock_write_authed_data _ _ _ _) as [rc w1]. destruct (Z.eqb_spec rc 0) as [->|Hne]; cbn [negb] in H.
  - injection H as <- _. apply Z.mod_pos_bound. lia.
  - destruct (protocolservice_write_error_response _ _ _ _ _ w1) as [[rr c] w2].
    injection H as H _ _. by apply or_else_nonzero in H.
Qed.

(** ** Running *)

Definition set_act (r : role) (a : activity) (acts : role → activity) : role → activity :=
  λ r', if decide (r' = r) then a else acts r'.

Lemma set_act_eq r a acts : set_act r a acts r = a.
Proof. unfold set_act. by rewrite decide_True. Qed.
Lemma set_act_ne r r' a acts : r' ≠ r → set_act r a acts r' = acts r'.
Proof. intros H. unfold set_act. by rewrite decide_False. Qed.

Lemma same_mailboxes s s' : core_same s s' → mailboxes_of s' = mailboxes_of s.
Proof. intros H. apply list_eq. intros i. unfold mailboxes_of. rewrite !list_lookup_fmap. apply H. Qed.

Lemma addresses_mailboxes (s : service W) :
  addresses s = de_addr (sv_data s) :: ne_notify_addr (sv_notify s) :: flat_map (λ p, [p.1; p.2]) (mailboxes_of s).
Proof.
  unfold addresses, mailboxes_of. do 2 f_equal. induction (sv_connections s) as [|c l IH]; [done|]. simpl. by rewrite IH.
Qed.

Lemma same_addresses s s' : core_same s s' → addresses s' = addresses s.
Proof. intros H. rewrite !addresses_mailboxes, (same_mailboxes _ _ H). by destruct H as [_ -> -> _]. Qed.

(** What a connection knows is the same. *)
Record same_at (j : nat) (s s' : service W) : Prop := {
  sa_ctx : sv_ctx s' = sv_ctx s;
  sa_data : de_addr (sv_data s') = de_addr (sv_data s);
  sa_notify : ne_notify_addr (sv_notify s') = ne_notify_addr (sv_notify s);
  sa_view : conn_view <$> sv_connections s' !! j = conn_view <$> sv_connections s !! j }.

Lemma core_same_at j s s' :
  core_same s s' → conn_view <$> sv_connections s' !! j = conn_view <$> sv_connections s !! j → same_at j s s'.
Proof. by intros [] ?. Qed.

Lemma knows_same_at j ra fa s s' : same_at j s s' → knows j ra fa da na ctx s → knows j ra fa da na ctx s'.
Proof. intros [? ? ? Hv] [? ? ? Hl]. split; [congruence..|]. rewrite <- Hl. by apply view_links. Qed.

Lemma reader_pre_same j ra fa t x s s' :
  same_at j s s' → reader_pre ctx j ra fa da na t x s → reader_pre ctx j ra fa da na t x s'.
Proof.
  intros Hs [Hk Hx]. split; [by eapply knows_same_at|]. intros E. eapply installed_same; [by apply Hs|auto].
Qed.

Lemma writer_pre_same j ra fa f t iv s s' :
  same_at j s s' → writer_pre j ra fa da na ctx f t iv s → writer_pre j ra fa da na ctx f t iv s'.
Proof.
  intros Hs [Hk (c&Hc&Hsec&Hiv)]. split; [by eapply knows_same_at|]. pose proof (sa_view _ _ _ Hs) as Hv.
  rewrite Hc in Hv. destruct (sv_connections s' !! j) as [c'|]; [|done]. exists c'.
  unfold conn_view in Hv. simpl in Hv. split; [done|]. split; congruence.
Qed.

(** What others do to a connection that they leave alone. *)
Lemma connection_ok_same s s' tr acts acts' j ra fa :
  same_at j s s' → acts' (reader j) = acts (reader j) → acts' (writer j) = acts (writer j) →
  connection_ok s tr acts j ra fa → connection_ok s' tr acts' j ra fa.
Proof.
  intros Hs Er Ew (x&Hp&Ha&Hw). exists x. split; [by eapply reader_pre_same|]. rewrite Er. split; [done|].
  unfold writer_ok in *. rewrite Ew. destruct Hw as [Hw|(f&iv&?&?&?&?&Hpre&?)]; [by left|].
  right. exists f, iv. split_and!; [done..|by eapply writer_pre_same|done].
Qed.

Lemma invariant_moves s s' mail tr acts acts' :
  invariant s mail tr acts → core_same s s' →
  (∀ j ra fa, mailboxes_of s !! j = Some (ra, fa) → connection_ok s tr acts j ra fa → connection_ok s' tr acts' j ra fa) →
  (∀ j, mailboxes_of s !! j = None → acts' (reader j) = acts (reader j) ∧ acts' (writer j) = acts (writer j)) →
  act_conforms (endpoint_contract da) endpoint_top (endpoint_seen tr)
    (de_mailbox_context_tree (sv_data s')) (acts' data_endpoint) →
  (∀ r, r = notification_endpoint ∨ r = notification_writer →
     act_conforms (notification_contract na) (λ _ _, True) tt tt (acts' r)) →
  invariant s' mail tr acts'.
Proof.
  intros [] Hc Hconn Habs Hend Hnot. pose proof (same_mailboxes _ _ Hc) as Hmb. pose proof (same_addresses _ _ Hc) as Had.
  split; rewrite ?Hmb, ?Had; try done; try (destruct Hc; congruence).
  - intros j ra fa Hj. by apply Hconn; [|apply in_connection0].
  - intros j Hj. destruct (Habs j Hj) as [-> ->]. auto.
Qed.

(** *** The fiber that runs *)

(** What a fiber leaves alone, but for its own part. *)
Record others_same (r : role) (s s' : service W) : Prop := {
  os_core : core_same s s';
  os_tree : r ≠ data_endpoint → de_mailbox_context_tree (sv_data s') = de_mailbox_context_tree (sv_data s);
  os_views : ∀ i, r ≠ reader i → r ≠ writer i →
    conn_view <$> sv_connections s' !! i = conn_view <$> sv_connections s !! i }.

Definition run_ok (r : role) (s : service W) (tr : list event) (acts : role → activity) (s' : service W)
    (acts' : role → activity) : Prop :=
  others_same r s s' ∧
  (∀ j ra fa, r = reader j ∨ r = writer j → mailboxes_of s !! j = Some (ra, fa) →
     connection_ok s' tr acts' j ra fa) ∧
  (r = data_endpoint → act_conforms (endpoint_contract da) endpoint_top (endpoint_seen tr)
     (de_mailbox_context_tree (sv_data s')) (acts' data_endpoint)) ∧
  (r = notification_endpoint ∨ r = notification_writer →
     act_conforms (notification_contract na) (λ _ _, True) tt tt (acts' r)).

Context (s : service W) (mail : mailboxes) (tr : list event) (acts : role → activity).
Context (INV : invariant s mail tr acts).

Lemma reader_runs j ra fa p w res s' w' :
  mailboxes_of s !! j = Some (ra, fa) → acts (reader j) = In p → run_prog p (s, w) = (res, (s', w')) →
  run_ok (reader j) s tr acts s' (set_act (reader j) (At (fiber_after res)) acts).
Proof.
  intros Hj Ha Er. destruct (in_connection _ _ _ _ INV _ _ _ Hj) as (x&Hp&Hr&Hw). rewrite Ha in Hr.
  destruct (run_fiber (C := reader_contract rg ctx j ra fa da na) _ _ _ _ _ _ _ _ _ Hr Hp Er)
    as (x'&[Hc Ht Hv Hx]&Hp'&Hf).
  split_and!; [split; try done; intros i Hi _; apply Hv; right; congruence| |done|by intros []].
  intros j' ra' fa' [[= <-]|] Hj'; [|done]. rewrite Hj in Hj'. injection Hj' as <- <-.
  exists x'. split; [done|]. rewrite set_act_eq. split; [done|].
  destruct Hw as [(?&?&?)|(f&iv&->&Hu&Hst&Hna&Hpw&Hfw)]; [left; by rewrite set_act_ne|].
  right. exists f, iv. rewrite set_act_ne by done. split_and!; [by apply Hx|done..| |done].
  eapply writer_pre_same; [|done]. apply core_same_at; [done|]. apply Hv. by left.
Qed.

Lemma writer_runs j ra fa p w res s' w' :
  mailboxes_of s !! j = Some (ra, fa) → acts (writer j) = In p → run_prog p (s, w) = (res, (s', w')) →
  run_ok (writer j) s tr acts s' (set_act (writer j) (At (fiber_after res)) acts).
Proof.
  intros Hj Ha Er. destruct (in_connection _ _ _ _ INV _ _ _ Hj) as (x&Hp&Hr&Hw).
  destruct Hw as [(Habs&_)|(f&iv&->&Hu&Hst&_&Hpw&Hfw)]; [by rewrite Ha in Habs|]. rewrite Ha in Hfw.
  destruct (run_fiber (C := writer_contract j ra fa da na ctx f) _ _ _ _ _ _ _ _ _ Hfw Hpw Er)
    as (iv'&[Hc Ht Hv Hus]&Hp'&Hf).
  split_and!; [split; try done; intros i _ Hi; apply Hv; congruence| |done|by intros []].
  intros j' ra' fa' [|[= <-]] Hj'; [done|]. rewrite Hj in Hj'. injection Hj' as <- <-.
  exists true. rewrite set_act_ne by done. split_and!; [|done|].
  - destruct Hp as [Hk Hx]. split; [by eapply knows_same|]. intros _.
    destruct (Hx eq_refl) as (f'&c&Hf'&Hc'&Huu&Hsec&_). rewrite Hc' in Hus.
    destruct (sv_connections s' !! j) as [c'|] eqn:E; [|done]. unfold user_view in Hus. simpl in Hus.
    exists f', c'. rewrite E. split_and!; [done|done|congruence|congruence|]. by rewrite Hst.
  - right. exists f, iv'. rewrite set_act_eq. split_and!; try done. by destruct res as [[]| |].
Qed.

Lemma endpoint_runs p w res s' w' :
  acts data_endpoint = In p → run_prog p (s, w) = (res, (s', w')) →
  run_ok data_endpoint s tr acts s' (set_act data_endpoint (At (fiber_after res)) acts).
Proof.
  intros Ha Er. pose proof (in_endpoint _ _ _ _ INV) as Hr. rewrite Ha in Hr.
  destruct (run_fiber (C := endpoint_contract da) _ _ _ _ _ _ _ _ _ Hr (conj (in_data _ _ _ _ INV) eq_refl) Er)
    as (x'&[Hc Hv]&[_ Hx']&Hf).
  split_and!; [by split|by intros j ra fa []| |by intros []].
  intros _. rewrite set_act_eq. by subst x'.
Qed.

Lemma notification_runs r p w res s' w' :
  r = notification_endpoint ∨ r = notification_writer →
  acts r = In p → run_prog p (s, w) = (res, (s', w')) →
  run_ok r s tr acts s' (set_act r (At (fiber_after res)) acts).
Proof.
  intros Hro Ha Er. pose proof (in_notifications _ _ _ _ INV _ Hro) as Hr. rewrite Ha in Hr.
  destruct (run_fiber (C := notification_contract na) _ _ _ _ _ _ _ _ _ Hr (in_notify _ _ _ _ INV) Er)
    as (x'&[Hc Ht Hv]&_&Hf).
  split_and!; [by split|by intros j ra fa [-> | ->] ?; destruct Hro|by intros ->; destruct Hro|].
  intros _. rewrite set_act_eq. by destruct x'.
Qed.

Lemma any_runs r p w res s' w' :
  acts r = In p → run_prog p (s, w) = (res, (s', w')) →
  run_ok r s tr acts s' (set_act r (At (fiber_after res)) acts).
Proof.
  intros Ha Er. destruct r as [j|j| | |].
  - destruct (mailboxes_of s !! j) as [[ra fa]|] eqn:Hj; [by eapply reader_runs|].
    destruct (in_absent _ _ _ _ INV _ Hj) as [H _]. congruence.
  - destruct (mailboxes_of s !! j) as [[ra fa]|] eqn:Hj; [by eapply writer_runs|].
    destruct (in_absent _ _ _ _ INV _ Hj) as [_ H]. congruence.
  - by eapply endpoint_runs.
  - eapply notification_runs; eauto.
  - eapply notification_runs; eauto.
Qed.

Lemma invariant_run r p w res s' w' :
  acts r = In p → run_prog p (s, w) = (res, (s', w')) →
  invariant s' mail tr (set_act r (At (fiber_after res)) acts).
Proof.
  intros Ha Er. destruct (any_runs _ _ _ _ _ _ Ha Er) as ([Hc Ht Hv]&Hconn&Hend&Hnot).
  apply (invariant_moves s s' mail tr acts); [done|done|..].
  - intros j ra fa Hj Hok. destruct (decide (r = reader j ∨ r = writer j)) as [Hr|Hr]; [by apply Hconn|].
    eapply connection_ok_same; [|apply set_act_ne; naive_solver..|done].
    apply core_same_at; [done|apply Hv; naive_solver].
  - intros j Hj. destruct (in_absent _ _ _ _ INV _ Hj) as [Hjr Hjw].
    split; apply set_act_ne; intros E; rewrite <- E in Ha; congruence.
  - destruct (decide (r = data_endpoint)) as [Hr|Hr]; [by apply Hend|].
    rewrite set_act_ne, Ht by done. apply INV.
  - intros r' Hr'. destruct (decide (r' = r)) as [->|Hne]; [by apply Hnot|].
    rewrite set_act_ne by done. by apply INV.
Qed.

(** ** Calls *)

Lemma observe_snoc {T} (step : T → ∀ o, answer o → T) r t tr' r' o a :
  observe step r t (tr' ++ [Event r' o a]) =
    if decide (r' = r) then step (observe step r t tr') o a else observe step r t tr'.
Proof. unfold observe. by rewrite foldl_app. Qed.

Lemma legal_snoc l tr' r o a : legal l tr' → role_may l tr' r o → legal l (tr' ++ [Event r o a]).
Proof.
  intros Hl Hr tr1 r1 o1 a1 tr2 E. destruct tr2 as [|e tr2] using rev_ind.
  - apply app_inj_tail in E as [-> E]. injection E as <- <- _. done.
  - rewrite app_comm_cons, app_assoc in E. apply app_inj_tail in E as [-> _]. by eapply Hl.
Qed.

(** The call that a fiber waits for is one that it may make. *)
Lemma blocked_may r o k : acts r = At (Blocked o k) → role_may (mailboxes_of s) tr r o.
Proof.
  intros Ha. destruct r as [j|j| | |].
  - destruct (mailboxes_of s !! j) as [[ra fa]|] eqn:Hj.
    + destruct (in_connection _ _ _ _ INV _ _ _ Hj) as (x&_&Hr&_). rewrite Ha in Hr. destruct Hr as [Hr _].
      by exists ra, fa, x.
    + destruct (in_absent _ _ _ _ INV _ Hj) as [H _]. congruence.
  - destruct (mailboxes_of s !! j) as [[ra fa]|] eqn:Hj.
    + destruct (in_connection _ _ _ _ INV _ _ _ Hj) as (x&_&_&[(H&_)|(f&iv&_&Hu&_&_&_&Hw)]); [congruence|].
      rewrite Ha in Hw. destruct Hw as [Hw _]. by exists ra, fa, f, iv.
    + destruct (in_absent _ _ _ _ INV _ Hj) as [_ H]. congruence.
  - pose proof (in_endpoint _ _ _ _ INV) as Hr. rewrite Ha in Hr. destruct Hr as [Hr _].
    by exists (de_mailbox_context_tree (sv_data s)).
  - pose proof (in_notifications _ _ _ _ INV notification_endpoint (or_introl eq_refl)) as Hr.
    rewrite Ha in Hr. by destruct Hr.
  - pose proof (in_notifications _ _ _ _ INV notification_writer (or_intror eq_refl)) as Hr.
    rewrite Ha in Hr. by destruct Hr.
Qed.

(** The mailboxes after a call. *)
Lemma sent_snoc a tr' e : sent a (tr' ++ [e]) = sent a tr' ++ sent a [e].
Proof. apply omap_app. Qed.
Lemma received_snoc a tr' e : received a (tr' ++ [e]) = received a tr' ++ received a [e].
Proof. apply omap_app. Qed.

Record mail_ok (mail' : mailboxes) (tr' : list event) : Prop := {
  mo_mail : ∀ a l, mail' !! a = Some l → sent a tr' = received a tr' ++ l;
  mo_received : ∀ a, received a tr' `prefix_of` sent a tr';
  mo_unused : ∀ a, a ∉ addresses s → mail' !! a = None ∧ sent a tr' = [] }.

(** A call that moves no message. *)
Lemma mail_same e mail' :
  (∀ a, sent a [e] = [] ∧ received a [e] = []) → (∀ a l, mail' !! a = Some l → mail !! a = Some l) →
  mail_ok mail' (tr ++ [e]).
Proof.
  intros He Hm. destruct INV. split; intros a; destruct (He a) as [Hs Hr];
    rewrite sent_snoc, ?received_snoc, Hs, ?Hr, !app_nil_r; try done.
  - intros l Hl. by apply in_mail0, Hm.
  - intros Ha. destruct (in_unused0 a Ha). split; [|done]. destruct (mail' !! a) eqn:E; [|done]. apply Hm in E. congruence.
Qed.

Lemma mail_sent r addr m l :
  mail !! addr = Some l → mail_ok (<[addr := l ++ [m]]> mail) (tr ++ [Event r (op_message_send addr m) 0]).
Proof.
  intros Hl. destruct INV. split; intros a; rewrite sent_snoc, ?received_snoc; simpl;
    destruct (Z.eqb_spec addr a) as [->|Hne]; rewrite ?app_nil_r.
  - rewrite lookup_insert_eq. intros l' [= <-]. by rewrite (in_mail0 _ _ Hl), app_assoc.
  - rewrite lookup_insert_ne by done. apply in_mail0.
  - apply prefix_app_r, in_received0.
  - apply in_received0.
  - intros Ha. destruct (in_unused0 a Ha). congruence.
  - rewrite lookup_insert_ne by done. apply in_unused0.
Qed.

Lemma mail_received r addr m l :
  mail !! addr = Some (m :: l) → mail_ok (<[addr := l]> mail) (tr ++ [Event r (op_message_receive addr) (0, m)]).
Proof.
  intros Hl. destruct INV. split; intros a; rewrite sent_snoc, ?received_snoc; simpl;
    destruct (Z.eqb_spec addr a) as [->|Hne]; rewrite ?app_nil_r.
  - rewrite lookup_insert_eq. intros l' [= <-]. by rewrite (in_mail0 _ _ Hl), <- app_assoc.
  - rewrite lookup_insert_ne by done. apply in_mail0.
  - rewrite (in_mail0 _ _ Hl). apply prefix_app, prefix_cons, prefix_nil.
  - apply in_received0.
  - intros Ha. destruct (in_unused0 a Ha). congruence.
  - rewrite lookup_insert_ne by done. apply in_unused0.
Qed.

Lemma replies_mail r o a w fibers c' :
  replies (Config (s, w) fibers mail) o a c' →
  (cf_machine c').1 = s ∧ mail_ok (cf_mail c') (tr ++ [Event r o a]).
Proof.
  destruct o; simpl in *.
  - intros (w'&_&->). simpl. split; [done|]. by apply mail_same.
  - intros [(->&l&Hl&->)|(Hne&->)]; (split; [done|]); [by apply mail_sent|]. apply mail_same; [|done].
    intros a'. simpl. by rewrite (proj2 (Z.eqb_neq a 0)).
  - destruct a as [rc m]. intros [(->&l&Hl&->)|(Hne&->)]; (split; [done|]); [by apply mail_received|].
    apply mail_same; [|done]. intros a'. simpl. by rewrite (proj2 (Z.eqb_neq rc 0)).
  - intros [(->&->)|(Hne&->)]; (split; [done|]); apply mail_same; try done. intros a l. simpl.
    rewrite lookup_delete_Some. by intros [].
  - intros [(->&_&->)|(Hne&->)]; (split; [done|]); by apply mail_same.
  - destruct a as [rc req]. intros [_ ->]. split; [done|]. by apply mail_same.
  - intros ->. split; [done|]. by apply mail_same.
  - intros ->. split; [done|]. by apply mail_same.
  - intros ->. split; [done|]. by apply mail_same.
  - intros ->. split; [done|]. by apply mail_same.
  - intros ->. split; [done|]. by apply mail_same.
Qed.

(** A writer that is added runs; the fiber that called goes on. *)
Definition after_call (r : role) (o : op) (k : answer o → prog machine next) (a : answer o)
    (acts : role → activity) : role → activity :=
  set_act r (In (k a))
    (match o return answer o → role → activity with
     | op_fiber_scheduler_add j => λ rc, if rc =? 0 then set_act (writer j) (At Ready) acts else acts
     | _ => λ _, acts
     end a).

Lemma after_call_ne r o k a r' :
  r' ≠ r → (∀ i, o = op_fiber_scheduler_add i → r' ≠ writer i) → after_call r o k a acts r' = acts r'.
Proof.
  intros Hne Hw. unfold after_call. rewrite set_act_ne by done. destruct o; try done.
  destruct (_ =? _); [|done]. rewrite set_act_ne; [done|]. by apply Hw.
Qed.

Lemma reader_started_same t o a :
  (∀ i, o ≠ op_fiber_scheduler_add i) → rv_started (reader_step t o a) = rv_started t.
Proof. intros Ho. destruct o; simpl; repeat (case_match; simpl); try done. by destruct (Ho j). Qed.

Lemma adds_or_not o : (∃ i, o = op_fiber_scheduler_add i) ∨ (∀ i, o ≠ op_fiber_scheduler_add i).
Proof. destruct o; eauto. Qed.

Lemma writer_ok_kept tr' acts' j ra fa x :
  writer_ok s tr acts j ra fa x → acts' (writer j) = acts (writer j) →
  writer_seen j ra tr' = writer_seen j ra tr →
  rv_started (reader_seen j tr') = rv_started (reader_seen j tr) →
  (is_Some (user_of j tr) → user_of j tr' = user_of j tr) → writer_ok s tr' acts' j ra fa x.
Proof.
  intros Hw Ea Es Est Hu. unfold writer_ok. rewrite Ea, Es, Est. destruct Hw as [Hw|(f&iv&Hx&Huf&Hw)]; [by left|].
  right. exists f, iv. rewrite Hu by done. done.
Qed.

(** The vector of the connection is still that of the handshake. *)
Lemma writer_ok_starts tr' acts' j ra fa :
  writer_ok s tr acts j ra fa true → acts (writer j) = At Absent →
  reader_pre ctx j ra fa da na (reader_seen j tr) true s → acts' (writer j) = At Ready →
  writer_seen j ra tr' = writer_seen j ra tr → rv_started (reader_seen j tr') = true →
  user_of j tr' = user_of j tr → writer_ok s tr' acts' j ra fa true.
Proof.
  intros [(_&Hws&Hst)|(f&iv&_&_&_&Hna&_)] Habs [Hk Hx] Er Es Est Hu; [|done].
  destruct (Hx eq_refl) as (f&c&Hf&Hc&_&Hsec&Hiv). right. exists f, (pf_server_iv f).
  rewrite Er, Es, Hu, Hws. split_and!; try done.
  - split; [done|]. exists c. by auto.
  - split; [|done]. unfold in_step, next_vector. simpl. rewrite Z.add_0_r. symmetry. apply Z.mod_small.
    by eapply shook_vector, (in_user _ _ _ _ INV).
Qed.

(** The part of the connection whose reader made the call. *)
Lemma reader_called j ra fa o k a w fibers c' :
  mailboxes_of s !! j = Some (ra, fa) → acts (reader j) = At (Blocked o k) →
  (∀ r, acts r = At (fibers r)) → replies (Config (s, w) fibers mail) o a c' →
  connection_ok s (tr ++ [Event (reader j) o a]) (after_call (reader j) o k a acts) j ra fa.
Proof.
  intros Hj Ha Hf Hrep. destruct (in_connection _ _ _ _ INV _ _ _ Hj) as (x&Hp&Hr&Hw). rewrite Ha in Hr.
  destruct Hr as [Hmay Hk]. set (tr' := tr ++ _).
  assert (reader_seen j tr' = reader_step (reader_seen j tr) o a) as Hseen.
  { unfold tr', reader_seen. rewrite observe_snoc. by rewrite decide_True. }
  assert (writer_seen j ra tr' = writer_seen j ra tr) as Hwseen.
  { unfold tr', writer_seen. rewrite observe_snoc. by rewrite decide_False. }
  exists x. split_and!.
  - rewrite Hseen. by apply (gc_step (C := reader_contract rg ctx j ra fa da na)).
  - rewrite Hseen. unfold after_call. rewrite set_act_eq. apply Hk.
  - destruct (adds_or_not o) as [(i&->)|Hno].
    + destruct Hmay as [-> ->]. unfold after_call. simpl in Hseen. destruct Hrep as [(->&Habs&_)|(Hne&_)].
      * simpl in Habs. apply writer_ok_starts; [done|by rewrite Hf, Habs|done|..]; [|done|by rewrite Hseen|by unfold user_of; rewrite Hseen].
        rewrite set_act_ne by done. apply set_act_eq.
      * rewrite (proj2 (Z.eqb_neq a 0)) in * by done.
        apply writer_ok_kept; [done|by apply set_act_ne|done|by rewrite Hseen|by unfold user_of; rewrite Hseen].
    + apply writer_ok_kept; [done| |done|rewrite Hseen; by apply reader_started_same|].
      * apply after_call_ne; [done|]. intros i ->. by destruct (Hno i).
      * unfold user_of. rewrite Hseen. intros Hu. by apply (reader_step_user rg ctx j ra fa da _ x).
Qed.

(** The part of the connection whose writer made the call. *)
Lemma writer_called j ra fa o k a :
  mailboxes_of s !! j = Some (ra, fa) → acts (writer j) = At (Blocked o k) →
  connection_ok s (tr ++ [Event (writer j) o a]) (after_call (writer j) o k a acts) j ra fa.
Proof.
  intros Hj Ha. destruct (in_connection _ _ _ _ INV _ _ _ Hj) as (x&Hp&Hr&Hw). set (tr' := tr ++ _).
  assert (reader_seen j tr' = reader_seen j tr) as Hseen.
  { unfold tr', reader_seen. rewrite observe_snoc. by rewrite decide_False. }
  assert (writer_seen j ra tr' = writer_step ra (writer_seen j ra tr) o a) as Hwseen.
  { unfold tr', writer_seen. rewrite observe_snoc. by rewrite decide_True. }
  destruct Hw as [(Habs&_)|(f&iv&->&Hu&Hst&_&Hpw&Hfw)]; [congruence|]. rewrite Ha in Hfw. destruct Hfw as [Hmay Hk].
  exists true. unfold writer_ok, user_of. rewrite Hseen, Hwseen. split_and!; [done| |].
  - rewrite after_call_ne; [done|done|]. by intros i ->.
  - right. exists f, iv. unfold after_call. rewrite set_act_eq. split_and!; [done|exact Hu|done|done|exact Hpw|apply Hk].
Qed.

(** Only the reader of a connection adds its writer. *)
Lemma adds_own l r i : role_may l tr r (op_fiber_scheduler_add i) → r = reader i.
Proof.
  destruct r as [j|j| | |]; simpl; [|naive_solver..]. intros (ra&fa&x&_&->&_). done.
Qed.

Lemma user_called r o a j f w fibers c' :
  role_may (mailboxes_of s) tr r o → replies (Config (s, w) fibers mail) o a c' →
  user_of j (tr ++ [Event r o a]) = Some f → shook j f.
Proof.
  intros Hmay Hrep. unfold user_of, reader_seen. rewrite observe_snoc.
  case_decide as Hr; [subst r|by apply (in_user _ _ _ _ INV)]. fold (reader_seen j tr).
  destruct o; simpl; intros Hu; try (repeat case_match; by apply (in_user _ _ _ _ INV)).
  destruct a as [rc g]. destruct (Z.eqb_spec rc 0) as [->|]; [|by apply (in_user _ _ _ _ INV)].
  simpl in Hu. injection Hu as ->. destruct Hmay as (ra&fa&x&_&->&_). destruct Hrep as (w'&Hh&_).
  simpl in Hh. rewrite (in_ctx _ _ _ _ INV) in Hh. by exists ctx0, w, w'.
Qed.

Lemma connection_ok_trace tr' acts' j ra fa :
  connection_ok s tr acts j ra fa → reader_seen j tr' = reader_seen j tr → writer_seen j ra tr' = writer_seen j ra tr →
  acts' (reader j) = acts (reader j) → acts' (writer j) = acts (writer j) → connection_ok s tr' acts' j ra fa.
Proof.
  intros (x&Hp&Hr&Hw) Er Ew Ear Eaw. exists x. unfold writer_ok, user_of. by rewrite Er, Ew, Ear, Eaw.
Qed.

Lemma connection_called r o k a j ra fa w fibers c' :
  mailboxes_of s !! j = Some (ra, fa) → acts r = At (Blocked o k) →
  (∀ r, acts r = At (fibers r)) → replies (Config (s, w) fibers mail) o a c' →
  connection_ok s (tr ++ [Event r o a]) (after_call r o k a acts) j ra fa.
Proof.
  intros Hj Ha Hf Hrep. destruct (decide (r = reader j)) as [->|Hr]; [by eapply reader_called|].
  destruct (decide (r = writer j)) as [->|Hw]; [by apply writer_called|].
  apply connection_ok_trace; [by eapply in_connection|..].
  - unfold reader_seen. rewrite observe_snoc. by rewrite decide_False.
  - unfold writer_seen. rewrite observe_snoc. by rewrite decide_False.
  - apply after_call_ne; [congruence|]. by intros i _.
  - apply after_call_ne; [congruence|]. intros i -> [= <-]. apply blocked_may, adds_own in Ha. done.
Qed.

Lemma invariant_call r o k a w fibers c' :
  acts r = At (Blocked o k) → (∀ r, acts r = At (fibers r)) → replies (Config (s, w) fibers mail) o a c' →
  invariant s (cf_mail c') (tr ++ [Event r o a]) (after_call r o k a acts).
Proof.
  intros Ha Hf Hrep. pose proof (blocked_may _ _ _ Ha) as Hmay.
  destruct (replies_mail r o a w fibers c' Hrep) as [_ [Hm1 Hm2 Hm3]].
  split; try apply INV; try done.
  - apply legal_snoc; [apply INV|done].
  - intros j f. by eapply user_called.
  - intros j ra fa Hj. by eapply connection_called.
  - intros j Hj. destruct (in_absent _ _ _ _ INV _ Hj) as [Hjr Hjw].
    assert (r ≠ reader j ∧ r ≠ writer j) as [Hr Hw] by (split; intros ->; congruence).
    rewrite !after_call_ne; [done|congruence| |congruence|by intros i _].
    intros i -> [= <-]. by apply adds_own in Hmay.
  - unfold endpoint_seen. rewrite observe_snoc. fold (endpoint_seen tr). case_decide as Hr.
    + subst r. unfold after_call. rewrite set_act_eq. pose proof (in_endpoint _ _ _ _ INV) as He.
      rewrite Ha in He. destruct He as [_ He]. apply He.
    + rewrite after_call_ne; [apply INV|congruence|by intros i _].
  - intros r' Hr'. destruct (decide (r' = r)) as [->|Hne].
    + unfold after_call. rewrite set_act_eq. pose proof (in_notifications _ _ _ _ INV _ Hr') as Hn.
      rewrite Ha in Hn. destruct Hn as [_ Hn]. apply Hn.
    + rewrite after_call_ne; [by apply INV|done|]. intros i _. by destruct Hr' as [-> | ->].
Qed.

(** ** The top of a loop *)

Lemma mailboxes_apart j ra fa : mailboxes_of s !! j = Some (ra, fa) → ra ≠ fa.
Proof.
  intros Hj. pose proof (in_addresses _ _ _ _ INV) as Hnd. rewrite addresses_mailboxes in Hnd.
  apply list_elem_of_split_length in Hj as (l1&l2&E&_). rewrite E, flat_map_app in Hnd. simpl in Hnd.
  do 2 apply NoDup_cons in Hnd as [_ Hnd]. apply NoDup_app in Hnd as (_&_&Hnd).
  apply NoDup_cons in Hnd as [Hnd _]. intros ->. apply Hnd. by left.
Qed.

(** A change of what fibers do that is no move. *)
Lemma invariant_loop r :
  acts r = At Ready → invariant s mail tr (set_act r (In (body r)) acts).
Proof.
  intros Ha. apply (invariant_moves s s mail tr acts); [done|apply core_same_refl|..].
  - intros j ra fa Hj (x&Hp&Hr&Hw). exists x. split; [done|].
    destruct (decide (r = reader j)) as [->|Hnr]; [|destruct (decide (r = writer j)) as [->|Hnw]].
    + rewrite set_act_eq. unfold writer_ok. rewrite set_act_ne by done. split; [|done].
      rewrite Ha in Hr. simpl in Hr. subst x. by apply reader_loop_conforms.
    + rewrite set_act_ne by done. split; [done|]. unfold writer_ok in *. rewrite set_act_eq.
      destruct Hw as [(E&_)|(f&iv&?&?&?&_&?&Hfw)]; [congruence|]. right. exists f, iv. split_and!; [done..|].
      rewrite Ha in Hfw. apply writer_loop_conforms; [by eapply mailboxes_apart|done].
    + unfold writer_ok. rewrite !set_act_ne by congruence. done.
  - intros j Hj. destruct (in_absent _ _ _ _ INV _ Hj) as [Hjr Hjw].
    split; apply set_act_ne; intros E; rewrite <- E in Ha; congruence.
  - destruct (decide (r = data_endpoint)) as [->|Hr]; [|rewrite set_act_ne by done; apply INV].
    rewrite set_act_eq. pose proof (in_endpoint _ _ _ _ INV) as He. rewrite Ha in He. by apply endpoint_loop_conforms.
  - intros r' Hr'. destruct (decide (r' = r)) as [->|Hne]; [|rewrite set_act_ne by done; by apply INV].
    rewrite set_act_eq. destruct Hr' as [-> | ->].
    + eapply conforms_mono; [apply notification_endpoint_conforms|]. by intros ? ? [].
    + eapply conforms_mono; [apply notification_writer_conforms|]. by intros ? ? [].
Qed.

Lemma invariant_quiesce : invariant (set_service_quiesce s) mail tr acts.
Proof.
  apply (invariant_moves s _ mail tr acts); try done; [|apply INV..].
  intros j ra fa _. by apply connection_ok_same.
Qed.

(** ** New connections *)

Lemma unseen {T} (step : T → ∀ o, answer o → T) r t :
  (∀ e, e ∈ tr → match e with Event r' _ _ => r' ≠ r end) → observe step r t tr = t.
Proof.
  intros H. clear INV. induction tr as [|[r' o a] tr' IH] using rev_ind; [done|]. rewrite observe_snoc.
  rewrite decide_False; [|by apply (H (Event r' o a)), elem_of_app; right; left].
  apply IH. intros e He. apply H, elem_of_app. by left.
Qed.

Lemma fresh_role r j :
  mailboxes_of s !! j = None → r = reader j ∨ r = writer j →
  ∀ e, e ∈ tr → match e with Event r' _ _ => r' ≠ r end.
Proof.
  intros Hj Hr [r' o a] He ->. apply list_elem_of_split in He as (tr1&tr2&E).
  pose proof (in_legal _ _ _ _ INV _ _ _ _ _ E) as Hm.
  destruct Hr as [-> | ->]; simpl in Hm; destruct Hm as (?&?&Hm); [destruct Hm as (?&?&_)|destruct Hm as (?&?&?&_)];
    congruence.
Qed.

Lemma role_may_app l l' tr' r o : role_may l tr' r o → role_may (l ++ l') tr' r o.
Proof.
  destruct r; simpl; try done.
  - intros (ra&fa&x&Hl&H). exists ra, fa, x. split; [by apply lookup_app_l_Some|done].
  - intros (ra&fa&f&iv&Hl&H). exists ra, fa, f, iv. split; [by apply lookup_app_l_Some|done].
Qed.

Lemma connection_new ckn ccn skn scn ss ra fa offsets :
  let n := new_connection ckn ccn skn scn ss ra fa offsets in
  let s' := set_connections (sv_connections s ++ [n]) s in
  let j := length (sv_connections s) in
  connection_ok s' tr (set_act (reader j) (In (protocolservice_protocol_fiber_start j)) acts) j ra fa.
Proof.
  intros n s' j.
  assert (mailboxes_of s !! j = None) as Hj by (apply lookup_ge_None; unfold mailboxes_of; by rewrite length_fmap).
  assert (reader_seen j tr = ReaderView None false None []) as Er by (apply unseen, (fresh_role _ _ Hj); by left).
  assert (writer_seen j ra tr = WriterView None []) as Ew by (apply unseen, (fresh_role _ _ Hj); by right).
  exists false. rewrite set_act_eq. unfold writer_ok. rewrite set_act_ne by done. rewrite Er, Ew. split_and!.
  - split; [|done]. split; try apply INV. simpl. by rewrite list_lookup_middle.
  - by apply reader_start_conforms.
  - left. destruct (in_absent _ _ _ _ INV _ Hj). by split_and!.
Qed.

Lemma mail_new ra fa :
  ra ∉ addresses s → fa ∉ addresses s →
  ∀ a l, <[fa := []]> (<[ra := []]> mail) !! a = Some l → sent a tr = received a tr ++ l.
Proof.
  intros Hra Hfa a l. assert (∀ b, b ∉ addresses s → sent b tr = received b tr ++ []) as Hnew.
  { intros b Hb. destruct (in_unused _ _ _ _ INV b Hb) as [_ E]. pose proof (in_received _ _ _ _ INV b) as Hp.
    rewrite E in *. apply prefix_nil_inv in Hp. by rewrite Hp. }
  rewrite !lookup_insert_Some. intros [[<- <-]|[_ [[<- <-]|[_ Hl]]]]; [auto..|]. by apply INV.
Qed.

Lemma invariant_connect ckn ccn skn scn ss ra fa offsets :
  let n := new_connection ckn ccn skn scn ss ra fa offsets in
  let j := length (sv_connections s) in
  ra ≠ fa → ra ∉ addresses s → fa ∉ addresses s →
  invariant (set_connections (sv_connections s ++ [n]) s) (<[fa := []]> (<[ra := []]> mail)) tr
    (set_act (reader j) (In (protocolservice_protocol_fiber_start j)) acts).
Proof.
  intros n j Hne Hra Hfa. set (s' := set_connections _ s).
  assert (mailboxes_of s' = mailboxes_of s ++ [(ra, fa)]) as Hmb by (unfold mailboxes_of; simpl; by rewrite fmap_app).
  assert (addresses s' = addresses s ++ [ra; fa]) as Had
    by (rewrite !addresses_mailboxes, Hmb, flat_map_app; done).
  assert (length (mailboxes_of s) = j) as Hlen by apply length_fmap.
  split; rewrite ?Hmb, ?Had; try apply INV.
  - apply NoDup_app. split_and!; [apply INV| |].
    + intros a Ha. rewrite !list_elem_of_In. simpl. intros [<-|[<-|[]]]; done.
    + apply NoDup_cons. split; [by rewrite list_elem_of_singleton|apply NoDup_singleton].
  - intros tr1 r o a tr2 E. eapply role_may_app, INV, E.
  - by apply mail_new.
  - intros a. rewrite not_elem_of_app, !not_elem_of_cons. intros (Ha&?&?&_).
    rewrite !lookup_insert_ne by done. by apply INV.
  - intros i ra' fa' Hi. apply lookup_app_Some in Hi as [Hi|[Hi E]].
    + pose proof (lookup_lt_Some _ _ _ Hi).
      apply (connection_ok_same s s' tr acts); [|apply set_act_ne; intros [= ->]; lia|by apply set_act_ne|by apply INV].
      split; try done. simpl. rewrite lookup_app_l; [done|]. unfold mailboxes_of in *. rewrite length_fmap in *. lia.
    + apply list_lookup_singleton_Some in E as [E [= <- <-]]. assert (i = j) as -> by lia. apply connection_new.
  - intros i Hi. apply lookup_ge_None in Hi. rewrite length_app in Hi. simpl in Hi.
    destruct (in_absent _ _ _ _ INV i) as [Hir Hiw]; [apply lookup_ge_None; lia|].
    rewrite !set_act_ne; [done|done|]. intros [= ->]. lia.
  - intros r Hr. rewrite set_act_ne by (by destruct Hr as [-> | ->]). by apply INV.
Qed.

Lemma invariant_ext acts' : (∀ r, acts' r = acts r) → invariant s mail tr acts'.
Proof.
  intros E. apply (invariant_moves s s mail tr acts); rewrite ?E; try apply INV; [apply core_same_refl|..].
  - intros j ra fa _. by apply connection_ok_same.
  - by intros j _.
  - intros r Hr. rewrite E. by apply INV.
Qed.
End invariant.

(** ** Steps *)

Section steps.
Context {W : Type} {M : MALLOC W} {IO : POSIX_IO W} {IOL : POSIX_IO_laws W} {PS : PSOCK W}.
Context {RA : RCPR_ALLOCATOR W} {VB : VCCRYPT_BUFFER W} {RB : RCPR_RBTREE W} {RL : RCPR_laws W}.
Context {RT : RCPR_TREES W} {RE : RANDOM_ENDPOINT W} {RF : RCPR_FIBER W} {KB : KEY_BUFFERS W}.
Context {KA : KEY_AGREEMENT W} {VS : VCCRYPT_SUITE W} {MO : MAC_OPTIONS W}.
Context {VP : VCBLOCKCHAIN_PROTOCOL W} {VPL : VCBLOCKCHAIN_laws W} {VEL : VCBLOCKCHAIN_encode_laws W}.
Context {PP : PROTOCOL_PLATFORM W} {TL : RCPR_TREES_laws W}.
Context (rg : registry) (ctx : protocolservice_context (W := W)) (REP : represents ctx rg).
Context (da na : Z).

#[local] Existing Instance rcpr_buffer_laws.

Abbreviation machine := (service W * W)%type.

Definition sound (c : config W) (tr : list event) : Prop :=
  invariant rg ctx da na (cf_machine c).1 (cf_mail c) tr (λ r, At (cf_fibers c r)).

Lemma sound_resume c tr acts r p :
  invariant rg ctx da na (cf_machine c).1 (cf_mail c) tr acts → acts r = In p →
  (∀ r', r' ≠ r → acts r' = At (cf_fibers c r')) → sound (resume r p c) tr.
Proof.
  intros INV Hr Ho. unfold resume. destruct c as [[s w] fibers mail]. simpl in *.
  destruct (run_prog p (s, w)) as [res [s' w']] eqn:E. simpl.
  eapply invariant_ext; [by eapply invariant_run|]. intros r'. unfold set_act. simpl.
  case_decide; [done|]. by rewrite Ho.
Qed.

Lemma replies_fibers c r o k a c' acts r' :
  replies c o a c' → (∀ r, acts r = At (cf_fibers c r)) → r' ≠ r →
  after_call r o k a acts r' = At (cf_fibers c' r').
Proof.
  intros Hrep Ha Hne. unfold after_call. rewrite set_act_ne by done. destruct o; simpl in *.
  - by destruct Hrep as (w'&_&->).
  - by destruct Hrep as [(_&l&_&->)|(_&->)].
  - destruct a as [rc m]. by destruct Hrep as [(_&l&_&->)|(_&->)].
  - by destruct Hrep as [(_&->)|(_&->)].
  - destruct Hrep as [(->&_&->)|(Hrc&->)]; simpl; [|by rewrite (proj2 (Z.eqb_neq a 0))].
    unfold set_act. by case_decide.
  - destruct a as [rc req]. by destruct Hrep as [_ ->].
  - by rewrite Hrep.
  - by rewrite Hrep.
  - by rewrite Hrep.
  - by rewrite Hrep.
  - by rewrite Hrep.
Qed.

Lemma sound_step c tr t c' : sound c tr → step c t c' → sound c' (tr ++ t).
Proof.
  intros INV. destruct 1 as [c r Hr|c r o k a c' Hr Hrep|c ckn ccn skn scn ss ra fa offsets Hne Hra Hfa|c].
  - rewrite app_nil_r. eapply sound_resume; [apply (invariant_loop rg ctx da na _ _ _ _ INV r); by rewrite Hr|apply set_act_eq|].
    intros r' Hne. by rewrite set_act_ne.
  - destruct c as [[s w] fibers mail]. simpl in Hr.
    assert ((cf_machine c').1 = s) as Hs by (by eapply (replies_mail rg ctx da na s mail tr _ INV r)).
    eapply sound_resume; [|apply set_act_eq|].
    + rewrite Hs. eapply (invariant_call rg ctx da na s mail tr _ INV); [by f_equal|done|exact Hrep].
    + intros r' Hne. by eapply replies_fibers.
  - rewrite app_nil_r. unfold add_connection. eapply sound_resume; [|apply set_act_eq|].
    + simpl. by apply (invariant_connect rg ctx REP da na _ _ _ _ INV).
    + intros r' Hne'. by rewrite set_act_ne.
  - rewrite app_nil_r. by apply invariant_quiesce.
Qed.

Lemma sound_steps c tr t c' : sound c tr → steps c t c' → sound c' (tr ++ t).
Proof.
  intros INV. induction 1 as [c|c1 t1 c2 t2 c3 _ IH Hstep]; [by rewrite app_nil_r|].
  rewrite app_assoc. eapply sound_step; [by apply IH|done].
Qed.

Lemma sound_start dict d n w :
  de_addr d = da → ne_notify_addr n = na → da ≠ na → utree_map (de_mailbox_context_tree d) = ∅ →
  sound (protocol_start ctx dict d n w) [].
Proof.
  intros Hda Hna Hne Ht. split; simpl; try done.
  - unfold addresses. simpl. rewrite Hda, Hna. apply NoDup_cons. split; [by rewrite list_elem_of_singleton|apply NoDup_singleton].
  - by intros tr1 r o a tr2 E%app_cons_not_nil.
  - intros a l. rewrite lookup_insert_Some, lookup_singleton_Some. intros [[_ <-]|[_ [_ <-]]]; done.
  - intros a. unfold addresses. simpl. rewrite !not_elem_of_cons. intros (?&?&_). rewrite lookup_insert_ne, lookup_singleton_ne by congruence. done.
  - split; [done|]. intros a e. rewrite Ht. done.
  - by intros r [-> | ->].
Qed.
End steps.
