(* ===== verification/ProtocolSafety.v ===== *)
(** * The protocol service serves its clients

    First what legal traces show.  When every call was allowed by the contract of its fiber, the views of a trace fit
    together: what readers sent, what the endpoint did for it, what writers wrote. *)

From S2P Require Import Prelude Inet StatusCodes Contexts Lmdb Records RequestCodec RequestSpec ResponseCodec Ipc IpcSpec AuthedIpc ClientApi NotificationCodec ProtocolService ProtocolSpec ProtocolControlSpec Handshake ProtocolFibers ProtocolRequests ProtocolResponses ProtocolEndpoints ProtocolScheduler ProtocolContracts ProtocolConnection ProtocolEndpointContracts ProtocolInvariant.

(** ** Lists *)

Lemma filter_bool_snoc {A} (P : A → bool) l x : filter P (l ++ [x]) = filter P l ++ if P x then [x] else [].
Proof. rewrite filter_app. f_equal. rewrite filter_cons. by destruct (P x). Qed.

Section traces.
Context {W : Type} {M : MALLOC W} {IO : POSIX_IO W} {IOL : POSIX_IO_laws W} {PS : PSOCK W}.
Context {RA : RCPR_ALLOCATOR W} {VB : VCCRYPT_BUFFER W} {RB : RCPR_RBTREE W} {RL : RCPR_laws W}.
Context {RT : RCPR_TREES W} {RE : RANDOM_ENDPOINT W} {RF : RCPR_FIBER W} {KB : KEY_BUFFERS W}.
Context {KA : KEY_AGREEMENT W} {VS : VCCRYPT_SUITE W} {MO : MAC_OPTIONS W}.
Context {VP : VCBLOCKCHAIN_PROTOCOL W} {PP : PROTOCOL_PLATFORM W} {TL : RCPR_TREES_laws W}.
Context (rg : registry) (ctx : protocolservice_context (W := W)) (da na : Z) (l : list (Z * Z)).

Abbreviation legal := (legal rg ctx da na l).
Abbreviation role_may := (role_may rg ctx da na l).

(** No two mailboxes have the same address. *)
Definition apart : Prop := NoDup (da :: na :: flat_map (λ p, [p.1; p.2]) l).

Lemma legal_prefix tr1 tr2 : legal (tr1 ++ tr2) → legal tr1.
Proof. intros H tr r o a tr3 ->. apply (H tr r o a (tr3 ++ tr2)). by rewrite <- app_assoc. Qed.

Lemma legal_last tr r o a : legal (tr ++ [Event r o a]) → role_may tr r o.
Proof. intros H. by apply (H tr r o a []). Qed.

(** Induction over a legal trace. *)
Lemma legal_ind (P : list event → Prop) :
  P [] → (∀ tr r o a, legal tr → role_may tr r o → P tr → P (tr ++ [Event r o a])) → ∀ tr, legal tr → P tr.
Proof.
  intros H0 Hs tr. induction tr as [|[r o a] tr IH] using rev_ind; intros Hl; [done|].
  apply Hs; [by eapply legal_prefix|by eapply legal_last|]. apply IH. by eapply legal_prefix.
Qed.

Section distinct.
Context (AP : apart).

Lemma flat_lookup j ra fa : l !! j = Some (ra, fa) → ra ∈ flat_map (λ p, [p.1; p.2]) l ∧ fa ∈ flat_map (λ p, [p.1; p.2]) l.
Proof.
  intros Hj. apply list_elem_of_lookup_2 in Hj. rewrite !list_elem_of_In in *. split; apply in_flat_map;
    exists (ra, fa); simpl; auto.
Qed.

Lemma apart_endpoints j ra fa : l !! j = Some (ra, fa) → da ≠ na ∧ ra ≠ da ∧ fa ≠ da ∧ ra ≠ na ∧ fa ≠ na.
Proof.
  intros Hj. destruct (flat_lookup _ _ _ Hj). pose proof AP as H1. apply NoDup_cons in H1 as [Hda H1].
  apply NoDup_cons in H1 as [Hna _]. rewrite not_elem_of_cons in Hda. destruct Hda. split_and!; congruence.
Qed.

Lemma apart_same i j ra fa ra' fa' :
  l !! i = Some (ra, fa) → l !! j = Some (ra', fa') → (ra = ra' → i = j) ∧ ra ≠ fa'.
Proof.
  intros Hi Hj. pose proof AP as H1. do 2 apply NoDup_cons in H1 as [_ H1]. clear AP.
  revert i j Hi Hj. induction l as [|[a b] l' IH]; intros i j Hi Hj; [done|]. simpl in H1.
  apply NoDup_cons in H1 as [Ha H1]. apply NoDup_cons in H1 as [Hb H1]. rewrite not_elem_of_cons in Ha. destruct Ha as [Hab Ha].
  assert (∀ k c d, l' !! k = Some (c, d) → c ∈ flat_map (λ p, [p.1; p.2]) l' ∧ d ∈ flat_map (λ p, [p.1; p.2]) l') as Hin.
  { intros k c d Hk. apply list_elem_of_lookup_2 in Hk. rewrite !list_elem_of_In in *.
    split; apply in_flat_map; exists (c, d); simpl; auto. }
  destruct i as [|i], j as [|j]; simpl in Hi, Hj; simplify_eq.
  - done.
  - destruct (Hin _ _ _ Hj). split; congruence.
  - destruct (Hin _ _ _ Hi). split; congruence.
  - destruct (IH H1 i j Hi Hj) as [H2 H3]. split; [|done]. intros E. by rewrite (H2 E).
Qed.

(** ** Who calls what *)

Lemma harmless_kinds ra fa m : harmless_message ra fa m → data_request m = false ∧ data_reply m = false.
Proof.
  unfold harmless_message, data_request, data_reply. destruct m as [ret [p|p| |]]; simpl; try done.
  intros [= _ ->]. done.
Qed.

Lemma no_request m : as_dataservice_request m = None → data_request m = false.
Proof. unfold as_dataservice_request, data_request. by destruct (message_body m). Qed.

Lemma sends_request tr r a m :
  role_may tr r (op_message_send a m) → data_request m = true →
  ∃ j ra fa buf q, r = reader j ∧ l !! j = Some (ra, fa) ∧ a = da ∧ rv_current (reader_seen j tr) = Some buf ∧
    asks buf q ∧ m = ask_message ra q.
Proof.
  intros Hm Hr. destruct r as [j|j| | |]; simpl in Hm.
  - destruct Hm as (ra&fa&x&Hj&[Hm|[-> [(buf&q&Hb&Hq&->)|(f&caps&_&_&->)]]]).
    + apply harmless_kinds in Hm as [Hm _]. congruence.
    + by exists j, ra, fa, buf, q.
    + done.
  - destruct Hm as (ra&fa&f&iv&Hj&_&Hm). apply harmless_kinds in Hm as [Hm _]. congruence.
  - destruct Hm as (x&Hm&_). apply no_request in Hm. congruence.
  - destruct Hm as [Hm _]. apply no_request in Hm. congruence.
  - destruct Hm as [Hm _]. apply no_request in Hm. congruence.
Qed.

Lemma sends_reply tr r a m :
  role_may tr r (op_message_send a m) → data_reply m = true →
  r = data_endpoint ∧ ∃ x, ev_phase (endpoint_seen tr) = ep_answered x ∧ data_request (ex_message x) = true ∧
    a = message_return_address (ex_message x) ∧ reply_of x m.
Proof.
  intros Hm Hr. destruct r as [j|j| | |]; simpl in Hm.
  - destruct Hm as (ra&fa&x&Hj&[Hm|[-> [(buf&q&Hb&Hq&->)|(f&caps&_&_&->)]]]); [|done..].
    apply harmless_kinds in Hm as [_ Hm]. congruence.
  - destruct Hm as (ra&fa&f&iv&Hj&_&Hm). apply harmless_kinds in Hm as [_ Hm]. congruence.
  - destruct Hm as (x&_&Hm). auto.
  - destruct Hm as [_ Hm]. congruence.
  - destruct Hm as [_ Hm]. congruence.
Qed.

Lemma receives_data tr r : da ≠ na → role_may tr r (op_message_receive da) → r = data_endpoint.
Proof.
  intros Hne. destruct r as [j|j| | |]; simpl; try done.
  - intros (ra&fa&x&Hj&->). by destruct (apart_endpoints _ _ _ Hj) as (_&_&?&_).
  - intros (ra&fa&f&iv&Hj&_&H). destruct (apart_endpoints _ _ _ Hj) as (_&?&?&_). naive_solver.
Qed.

Lemma receives_return tr r j ra fa :
  l !! j = Some (ra, fa) → role_may tr r (op_message_receive ra) → r = writer j.
Proof.
  intros Hj. destruct (apart_endpoints _ _ _ Hj) as (_&Hda&_&Hna&_). destruct r as [i|i| | |]; simpl.
  - intros (ra'&fa'&x&Hi&E). by destruct (apart_same _ _ _ _ _ _ Hj Hi) as [_ []].
  - intros (ra'&fa'&f&iv&Hi&_&[E|[E _]]).
    + by destruct (apart_same _ _ _ _ _ _ Hj Hi) as [_ []].
    + destruct (apart_same _ _ _ _ _ _ Hj Hi) as [H _]. by rewrite (H E).
  - by intros (x&->&_).
  - by intros ->.
  - by intros ->.
Qed.

(** ** The requests of a reader *)

Definition pending_packet (t : reader_view) : list bytes :=
  match rv_current t with Some buf => [buf] | None => [] end.

Lemma packets_read_snoc j tr e : packets_read j (tr ++ [e]) = packets_read j tr ++ packets_read j [e].
Proof. apply omap_app. Qed.

Lemma reader_seen_snoc j tr r o a :
  reader_seen j (tr ++ [Event r o a]) =
    if decide (r = reader j) then reader_step (reader_seen j tr) o a else reader_seen j tr.
Proof. apply observe_snoc. Qed.
Lemma writer_seen_snoc j ra tr r o a :
  writer_seen j ra (tr ++ [Event r o a]) =
    if decide (r = writer j) then writer_step ra (writer_seen j ra tr) o a else writer_seen j ra tr.
Proof. apply observe_snoc. Qed.
Lemma endpoint_seen_snoc tr r o a :
  endpoint_seen (tr ++ [Event r o a]) =
    if decide (r = data_endpoint) then endpoint_step (endpoint_seen tr) o a else endpoint_seen tr.
Proof. apply observe_snoc. Qed.

(** Its packets are read one after the other, and at most one request is made for
    each. *)
Lemma reader_packets j tr :
  legal tr → (rv_log (reader_seen j tr)).*1 ++ pending_packet (reader_seen j tr) `sublist_of` packets_read j tr.
Proof.
  revert tr. apply legal_ind; [constructor|]. intros tr r o a Hl Hm IH.
  rewrite packets_read_snoc, reader_seen_snoc. simpl. case_decide as Hr.
  2: { simpl. by rewrite app_nil_r. }
  subst r. destruct o; simpl; rewrite ?app_nil_r; try done.
  - by destruct a as [rc f]; destruct (rc =? 0).
  - destruct (Z.eqb_spec a 0) as [->|]; [|done]. destruct (data_request m) eqn:Hd; [|done]. simpl.
    destruct (sends_request _ _ _ _ Hm Hd) as (j'&ra&fa&buf&q&[= <-]&_&_&Hb&_). unfold pending_packet in *.
    rewrite Hb in *. simpl. by rewrite fmap_app, app_nil_r.
  - by destruct (a =? 0).
  - destruct a as [rc req]. unfold pending_packet. simpl.
    assert ((rv_log (reader_seen j tr)).*1 `sublist_of` packets_read j tr) as Hs.
    { etrans; [|exact IH]. by apply sublist_inserts_r. }
    destruct (rc =? 0); [|by rewrite !app_nil_r]. destruct req as [buf|]; simpl; [|by rewrite !app_nil_r].
    by apply sublist_app.
Qed.

Lemma sent_other a r o b : (∀ to m, o ≠ op_message_send to m) → sent a [Event r o b] = [].
Proof. intros Ho. destruct o; simpl; try done. by destruct (Ho addr m). Qed.
Lemma reader_log_same t o a : (∀ to m, o ≠ op_message_send to m) → rv_log (reader_step t o a) = rv_log t.
Proof. intros Ho. destruct o; simpl; repeat (case_match; simpl); try done. by destruct (Ho addr m). Qed.
Lemma sends_or_not o : (∃ to m, o = op_message_send to m) ∨ (∀ to m, o ≠ op_message_send to m).
Proof. destruct o; naive_solver. Qed.

(** What a reader sent are its requests. *)
Lemma reader_requests j ra fa tr :
  l !! j = Some (ra, fa) → legal tr →
  filter (request_from ra) (sent da tr) = (rv_log (reader_seen j tr)).*2 ∧
  Forall (λ '(buf, m), ∃ q, asks buf q ∧ m = ask_message ra q) (rv_log (reader_seen j tr)).
Proof.
  intros Hj. revert tr. apply legal_ind; [done|]. intros tr r o a Hl Hm [IH1 IH2].
  rewrite sent_snoc, filter_app, IH1, reader_seen_snoc.
  destruct (sends_or_not o) as [(to&m&->)|Ho].
  2: { rewrite sent_other by done. case_decide; rewrite ?reader_log_same by done; by rewrite app_nil_r. }
  destruct (data_request m) eqn:Hd.
  - destruct (sends_request _ _ _ _ Hm Hd) as (i&ra'&fa'&buf&q&->&Hi&->&Hb&Hq&->). simpl. rewrite Z.eqb_refl, andb_true_r.
    destruct (decide (i = j)) as [->|Hne].
    + rewrite Hi in Hj. injection Hj as -> ->. rewrite decide_True by done. destruct (a =? 0); simpl.
      * rewrite Hb, fmap_app. simpl. split; [f_equal; rewrite filter_cons_True; [done|]|].
        { unfold request_from. simpl. by rewrite Z.eqb_refl. }
        apply Forall_app. split; [done|]. constructor; [by exists q|done].
      * by rewrite app_nil_r.
    + rewrite decide_False by congruence. destruct (a =? 0); simpl; [|by rewrite app_nil_r].
      rewrite filter_cons_False; [by rewrite app_nil_r|]. unfold request_from. simpl.
      rewrite (proj2 (Z.eqb_neq ra' ra)); [by intros []|]. intros E.
      by apply Hne, (apart_same _ _ _ _ _ _ Hi Hj).
  - assert (rv_log (reader_step (reader_seen j tr) (op_message_send to m) a) = rv_log (reader_seen j tr)) as Elog.
    { simpl. by rewrite Hd, andb_false_r. }
    assert (filter (request_from ra) (sent da [Event r (op_message_send to m) a]) = []) as Ef.
    { simpl. destruct (_ && _); [|done]. rewrite filter_cons_False; [done|]. unfold request_from. rewrite Hd. by intros []. }
    rewrite Ef, app_nil_r. case_decide; rewrite ?Elog; done.
Qed.

(** ** The exchanges of the endpoint *)

Definition phase_message (t : endpoint_view) : list message :=
  match ev_phase t with ep_got m | ep_asked m _ => [m] | _ => [] end.

Lemma served_phase t a : served t → filter (request_from a) (phase_message t) = [].
Proof.
  unfold served, phase_message. destruct (ev_phase t) as [|m|m out|x|]; try done; intros H;
    (rewrite filter_cons_False; [done|]); unfold request_from; rewrite H; by intros [].
Qed.

Lemma receives_or_not o : (∃ from, o = op_message_receive from) ∨ (∀ from, o ≠ op_message_receive from).
Proof. destruct o; naive_solver. Qed.
Lemma received_other b r o a : (∀ from, o ≠ op_message_receive from) → received b [Event r o a] = [].
Proof. intros Ho. destruct o; simpl; try done. by destruct (Ho addr). Qed.

(** Nobody else takes from a mailbox. *)
Lemma received_not_own b tr r r' o a :
  role_may tr r o → (role_may tr r (op_message_receive b) → r = r') → r ≠ r' → received b [Event r o a] = [].
Proof.
  intros Hm Hb Hr. destruct (receives_or_not o) as [[from ->]|]; [|by apply received_other].
  simpl. destruct a as [rc m]. destruct (Z.eqb_spec from b) as [->|]; [by destruct Hr; apply Hb|].
  by rewrite andb_false_r.
Qed.

(** The requests of a connection are served in order. *)
Lemma endpoint_requests ra tr :
  da ≠ na → legal tr →
  filter (request_from ra) (received da tr) =
    filter (request_from ra) ((ex_message <$> exchanges tr) ++ phase_message (endpoint_seen tr)).
Proof.
  intros Hne. revert tr. apply legal_ind; [done|]. intros tr r o a Hl Hm IH. unfold exchanges in *.
  rewrite received_snoc, filter_app, IH, endpoint_seen_snoc. clear IH. set (t := endpoint_seen tr) in *.
  case_decide as Hr.
  2: { rewrite (received_not_own da tr r data_endpoint); [by rewrite app_nil_r|done|by apply receives_data|done]. }
  subst r. destruct Hm as [x Hm]. fold t in Hm. destruct o; simpl in Hm |- *; rewrite ?app_nil_r; try done.
  - destruct (data_reply m) eqn:Hd; [|done]. destruct Hm as [_ Hm]. destruct (Hm eq_refl) as (y&Hy&_).
    unfold phase_message. rewrite Hy. by destruct (a =? 0).
  - destruct a as [rc m]. destruct Hm as [-> Hs]. destruct (Z.eqb_spec rc 0) as [->|]; simpl; [|by rewrite app_nil_r].
    rewrite Z.eqb_refl, !filter_app, served_phase by done. simpl. by rewrite app_nil_r.
  - destruct Hm as (m&Hp&_). rewrite Hp. unfold phase_message. rewrite Hp. destruct (a =? 0); [done|by rewrite Hp].
  - destruct Hm as (m&out&Hp). rewrite Hp. unfold phase_message. rewrite Hp. destruct a as [rc resp].
    destruct (rc =? 0); [|by rewrite Hp]. simpl. by rewrite fmap_app, app_nil_r.
Qed.

(** ** The replies of the endpoint *)

(** The exchanges that were replied to. *)
Definition replied (t : endpoint_view) : list exchange :=
  match ev_phase t with ep_answered _ | ep_dead => removelast (ev_log t) | _ => ev_log t end.

(** The exchange that is replied to is the last. *)
Lemma answered_last tr :
  legal tr → match ev_phase (endpoint_seen tr) with
             | ep_answered x => ∃ log, ev_log (endpoint_seen tr) = log ++ [x]
             | ep_dead => ∃ log x, ev_log (endpoint_seen tr) = log ++ [x]
             | _ => True end.
Proof.
  revert tr. apply legal_ind; [done|]. intros tr r o a Hl Hm IH. rewrite endpoint_seen_snoc.
  set (t := endpoint_seen tr) in *. case_decide as Hr; [|done]. subst r. destruct Hm as [x Hm]. fold t in Hm.
  destruct o; simpl in Hm |- *; try done.
  - destruct (data_reply m) eqn:Hd; [|done]. destruct Hm as [_ Hm]. destruct (Hm eq_refl) as (y&Hy&_).
    rewrite Hy in IH. destruct IH as [log IH]. destruct (a =? 0); [done|]. by exists log, y.
  - destruct a as [rc m]. by destruct (rc =? 0).
  - destruct Hm as (m&Hp&_). rewrite Hp in *. destruct (a =? 0); [done|]. by rewrite Hp.
  - destruct Hm as (m&out&Hp). rewrite Hp in *. destruct a as [rc resp]. destruct (rc =? 0); [|by rewrite Hp]. by eexists.
Qed.

Lemma no_reply_sent tr r o a b : role_may tr r o → r ≠ data_endpoint → filter data_reply (sent b [Event r o a]) = [].
Proof.
  intros Hm Hr. destruct (sends_or_not o) as [(to&m&->)|Ho]; [|by rewrite sent_other].
  simpl. destruct (_ && _); [|done]. rewrite filter_cons_False; [done|].
  intros Hd%Is_true_true. by destruct (sends_reply _ _ _ _ Hm Hd).
Qed.

(** A message is taken when the exchange before was replied to, or needs no reply. *)
Lemma served_replied ra tr :
  legal tr → served (endpoint_seen tr) →
  filter (λ x, request_from ra (ex_message x)) (replied (endpoint_seen tr)) =
  filter (λ x, request_from ra (ex_message x)) (ev_log (endpoint_seen tr)).
Proof.
  intros Hl Hs. pose proof (answered_last tr Hl) as Hlast. unfold served, replied in *.
  destruct (ev_phase (endpoint_seen tr)) as [| | |x|]; try done. destruct Hlast as [log ->].
  rewrite removelast_last, filter_app, (filter_cons_False _ x); [by rewrite app_nil_r|].
  unfold request_from. rewrite Hs. by intros [].
Qed.

(** Each goes to where the request came from. *)
Lemma endpoint_replies ra tr :
  legal tr →
  Forall2 reply_of (filter (λ x, request_from ra (ex_message x)) (replied (endpoint_seen tr)))
    (filter data_reply (sent ra tr)).
Proof.
  revert tr. apply legal_ind; [constructor|]. intros tr r o a Hl Hm IH.
  pose proof (answered_last tr Hl) as Hlast. pose proof (served_replied ra tr Hl) as Hserved.
  rewrite sent_snoc, filter_app, endpoint_seen_snoc. set (t := endpoint_seen tr) in *.
  case_decide as Hr; [|by rewrite (no_reply_sent tr), app_nil_r].
  subst r. destruct Hm as [x Hm]. fold t in Hm. destruct (sends_or_not o) as [(to&m&->)|Ho].
  - simpl in Hm |- *. destruct Hm as [_ Hm]. destruct (data_reply m) eqn:Hd.
    + destruct (Hm eq_refl) as (y&Hy&Hreq&->&Hrep). rewrite Hy in Hlast. destruct Hlast as [log Hlog].
      unfold replied in *. rewrite Hy in IH. simpl. rewrite Hlog, removelast_last in *.
      destruct (Z.eqb_spec a 0) as [->|]; simpl; [|by rewrite app_nil_r].
      assert (request_from ra (ex_message y) = (message_return_address (ex_message y) =? ra)) as E
        by (unfold request_from; by rewrite Hreq).
      rewrite filter_app. apply Forall2_app; [done|].
      destruct (message_return_address (ex_message y) =? ra); simpl.
      * rewrite !filter_cons_True by (by rewrite ?E, ?Hd). by constructor.
      * rewrite filter_cons_False; [constructor|]. rewrite E. by intros [].
    + assert (filter data_reply (sent ra [Event data_endpoint (op_message_send to m) a]) = []) as Hn.
      { simpl. destruct (_ && _); [|done]. rewrite filter_cons_False; [done|]. rewrite Hd. by intros []. }
      simpl in Hn. by rewrite Hn, app_nil_r.
  - rewrite sent_other, app_nil_r by done. destruct o; simpl in Hm |- *; try done.
    + by destruct (Ho addr m).
    + destruct a as [rc m]. destruct Hm as [-> Hs]. destruct (rc =? 0); [|done].
      unfold replied at 1. simpl. by rewrite <- Hserved.
    + destruct Hm as (m&Hp&_). rewrite Hp. unfold replied in *. rewrite Hp in IH. destruct (a =? 0); [done|by rewrite Hp].
    + destruct Hm as (m&out&Hp). rewrite Hp. unfold replied in *. rewrite Hp in IH. destruct a as [rc resp].
      destruct (rc =? 0); [|by rewrite Hp]. simpl. by rewrite removelast_last.
Qed.

(** ** The packets of a writer *)

Definition taken (t : writer_view) : list message :=
  match wv_current t with Some m => [m] | None => [] end.

Lemma writer_replies j ra fa tr :
  l !! j = Some (ra, fa) → legal tr →
  filter data_reply (received ra tr) =
    filter data_reply ((wr_message <$> packets_written j ra tr) ++ taken (writer_seen j ra tr)) ∧
  Forall (λ w, renders (W := W) (wr_message w) (wr_packet w)) (packets_written j ra tr).
Proof.
  intros Hj. revert tr. apply legal_ind; [done|]. intros tr r o a Hl Hm [IH1 IH2]. unfold packets_written in *.
  rewrite received_snoc, filter_app, IH1, writer_seen_snoc. clear IH1. set (t := writer_seen j ra tr) in *.
  case_decide as Hr.
  2: { rewrite (received_not_own ra tr r (writer j)); [by rewrite app_nil_r|done|by eapply receives_return|done]. }
  subst r. destruct Hm as (ra'&fa'&f&iv&Hj'&_&Hm). rewrite Hj in Hj'. injection Hj' as <- <-. fold t in Hm.
  destruct o; simpl in Hm |- *; rewrite ?app_nil_r; try done.
  - destruct a as [rc m]. destruct (Z.eqb_spec rc 0) as [->|]; simpl; [|by rewrite app_nil_r].
    destruct (Z.eqb_spec addr ra) as [->|]; simpl; [|by rewrite app_nil_r]. split; [|done].
    destruct Hm as [->|[_ Hdone]]; [by destruct (apart_same _ _ _ _ _ _ Hj Hj) as [_ []]|].
    assert (filter data_reply (taken t) = []) as E.
    { unfold taken. destruct (wv_current t) as [m'|] eqn:Hc; [|done]. rewrite filter_cons_False; [done|].
      rewrite (Hdone m' eq_refl). by intros []. }
    by rewrite !filter_app, E, app_nil_r.
  - destruct Hm as (->&_&_&m&Hc&Hrender). unfold taken. rewrite Hc. simpl. rewrite fmap_app, app_nil_r. split; [done|].
    apply Forall_app. split; [done|]. by constructor.
Qed.

(** A packet is written for a message that was taken. *)
Lemma writer_messages j ra fa tr :
  l !! j = Some (ra, fa) → legal tr →
  (wr_message <$> packets_written j ra tr) ++ taken (writer_seen j ra tr) `sublist_of` received ra tr.
Proof.
  intros Hj. revert tr. apply legal_ind; [constructor|]. intros tr r o a Hl Hm IH. unfold packets_written in *.
  rewrite received_snoc, writer_seen_snoc. set (t := writer_seen j ra tr) in *.
  case_decide as Hr; [|by apply sublist_inserts_r].
  subst r. destruct Hm as (ra'&fa'&f&iv&Hj'&_&Hm). rewrite Hj in Hj'. injection Hj' as <- <-. fold t in Hm.
  destruct o; simpl in Hm |- *; rewrite ?app_nil_r; try done.
  - destruct a as [rc m]. destruct (Z.eqb_spec rc 0) as [->|]; simpl; [|by rewrite app_nil_r].
    destruct (Z.eqb_spec addr ra) as [->|]; simpl; [|by rewrite app_nil_r].
    apply sublist_app; [|done]. etrans; [|exact IH]. by apply sublist_inserts_r.
  - destruct Hm as (->&_&_&m&Hc&_). unfold taken in *. rewrite Hc in *. simpl. by rewrite fmap_app, app_nil_r.
Qed.

Lemma writes_counted j ra fa tr :
  l !! j = Some (ra, fa) → legal tr → client_writes j tr = length (packets_written j ra tr).
Proof.
  intros Hj. revert tr. apply legal_ind; [done|]. intros tr r o a Hl Hm IH. unfold packets_written, client_writes in *.
  rewrite filter_app, length_app, IH, writer_seen_snoc. set (t := writer_seen j ra tr) in *.
  destruct (writes_to j (Event r o a)) eqn:Hw.
  - destruct o; try done. simpl in Hw. apply Nat.eqb_eq in Hw as ->.
    destruct r as [i|i| | |]; simpl in Hm; [naive_solver| |naive_solver..].
    destruct Hm as (ra'&fa'&f&iv'&Hj'&_&->&_&_&m&Hc&_). rewrite Hj in Hj'. injection Hj' as <- <-. fold t in Hc.
    rewrite filter_cons_True by (simpl; by rewrite Nat.eqb_refl). rewrite decide_True by done. simpl. rewrite Hc. simpl.
    by rewrite length_app.
  - rewrite filter_cons_False by (rewrite Hw; by intros []). case_decide as Hr; [|simpl; lia]. subst r.
    destruct Hm as (ra'&fa'&f&iv'&Hj'&_&Hm). rewrite Hj in Hj'. injection Hj' as <- <-.
    destruct o; simpl in Hm, Hw |- *; try lia.
    + destruct a as [rc m]. destruct (_ && _); simpl; lia.
    + destruct Hm as [-> _]. by rewrite Nat.eqb_refl in Hw.
Qed.

(** *** The user stays *)

Lemma user_stays j f tr1 tr2 : legal (tr1 ++ tr2) → user_of j tr1 = Some f → user_of j (tr1 ++ tr2) = Some f.
Proof.
  intros Hl Hu. induction tr2 as [|[r o a] tr2 IH] using rev_ind; [by rewrite app_nil_r|].
  rewrite app_assoc in *. pose proof (legal_last _ _ _ _ Hl) as Hm. specialize (IH (legal_prefix _ _ Hl)).
  unfold user_of in *. rewrite reader_seen_snoc. case_decide as Hr; [|done]. subst r.
  destruct Hm as (ra&fa&x&_&Hm). by rewrite (reader_step_user rg ctx j ra fa da _ x) by (rewrite ?IH; done).
Qed.

(** ** Exchanges *)

(** What the endpoint wrote or will write was right for the contexts at the time, and
    is for a message it took. *)
Lemma exchanges_valid tr :
  da ≠ na → legal tr →
  (∀ log1 x log2, exchanges tr = log1 ++ x :: log2 → valid_out log1 (ex_message x) (ex_out x)) ∧
  (∀ x, x ∈ exchanges tr → ex_message x ∈ received da tr) ∧
  match ev_phase (endpoint_seen tr) with
  | ep_got m => m ∈ received da tr
  | ep_asked m out => m ∈ received da tr ∧ valid_out (exchanges tr) m out
  | _ => True
  end.
Proof.
  intros Hne. revert tr. apply legal_ind; [split_and!; [by intros []|by intros x ?%not_elem_of_nil|done]|].
  intros tr r o a Hl Hm (IH1&IH2&IH3). unfold exchanges in *.
  rewrite received_snoc, endpoint_seen_snoc. set (t := endpoint_seen tr) in *.
  case_decide as Hr.
  2: { rewrite (received_not_own da tr r data_endpoint); [by rewrite app_nil_r|done|by apply receives_data|done]. }
  subst r. destruct Hm as [y Hm]. fold t in Hm. destruct o; simpl in Hm |- *; rewrite ?app_nil_r; try done.
  - destruct (data_reply m) eqn:Hd; [|done]. by destruct (a =? 0).
  - destruct a as [rc m]. destruct Hm as [-> Hs]. destruct (Z.eqb_spec rc 0) as [->|]; simpl; [|by rewrite app_nil_r].
    rewrite Z.eqb_refl. split_and!; [done| |by apply elem_of_app; right; left].
    intros x Hx. apply elem_of_app. left. auto.
  - destruct Hm as (m&Hp&Hv). rewrite Hp in *. destruct (a =? 0); [done|by rewrite Hp].
  - destruct Hm as (m&out&Hp). rewrite Hp in *. destruct IH3 as [Hin Hv]. destruct a as [rc resp].
    destruct (rc =? 0); [|by rewrite Hp]. simpl. split_and!; [| |done].
    + intros log1 x log2 E. destruct log2 as [|z log2 _] using rev_ind.
      * apply app_inj_tail in E as [<- <-]. done.
      * rewrite app_comm_cons, app_assoc in E. apply app_inj_tail in E as [E _]. by eapply IH1.
    + intros x [Hx|Hx%list_elem_of_singleton]%elem_of_app; [auto|by subst x].
Qed.

Lemma harmless_data ra fa m : harmless_message ra fa m → is_Some (as_dataservice_request m) → m = close_message ra fa.
Proof.
  unfold harmless_message, as_dataservice_request. destruct (message_body m); [done|by intros _ []..].
Qed.

Lemma packet_was_read j tr tr2 buf : legal tr → rv_current (reader_seen j tr) = Some buf → buf ∈ packets_read j (tr ++ tr2).
Proof.
  intros Hl Hc. unfold packets_read. rewrite omap_app. apply elem_of_app. left.
  eapply elem_of_sublist; [|by apply reader_packets]. apply elem_of_app. right. unfold pending_packet. rewrite Hc. by left.
Qed.

(** Who sent a message of the data service. *)
Lemma sent_origin tr m :
  legal tr → m ∈ sent da tr → is_Some (as_dataservice_request m) →
  ∃ j ra fa, l !! j = Some (ra, fa) ∧
    (m = close_message ra fa ∨
     (∃ buf q, buf ∈ packets_read j tr ∧ asks buf q ∧ m = ask_message ra q) ∨
     (∃ f caps, user_of j tr = Some f ∧ only_granted rg (pc_agentd_uuid ctx) (pf_entity_uuid f) caps ∧
        m = open_message ra fa caps)).
Proof.
  intros Hl Hm Hd. revert Hl. apply list_elem_of_omap in Hm as ([r o a]&He&Hs).
  apply list_elem_of_split in He as (tr1&tr2&->). intros Hl. pose proof (Hl tr1 r o a tr2 eq_refl) as Hmay.
  destruct o; try done. destruct ((a =? 0) && (addr =? da)); [|done]. injection Hs as ->.
  destruct r as [j|j| | |]; simpl in Hmay.
  - destruct Hmay as (ra&fa&x&Hj&Hmay). exists j, ra, fa. split; [done|].
    destruct Hmay as [Hh|[-> [(buf&q&Hb&Hq&->)|(f&caps&Hu&Hg&->)]]].
    + left. by apply harmless_data.
    + right. left. exists buf, q. split; [|done]. by eapply packet_was_read; [eapply legal_prefix|].
    + right. right. exists f, caps. split; [by apply user_stays|done].
  - destruct Hmay as (ra&fa&f&iv&Hj&_&Hh). exists j, ra, fa. split; [done|]. left. by apply harmless_data.
  - destruct Hmay as (x&E&_). rewrite E in Hd. by destruct Hd.
  - destruct Hmay as [E _]. rewrite E in Hd. by destruct Hd.
  - destruct Hmay as [E _]. rewrite E in Hd. by destruct Hd.
Qed.
End distinct.
End traces.

(** ** Safety

    However its fibers run, and whatever arrives on its sockets: the requests of a
    client are served in order and each answer is to the request it is for; the service
    asks of the data service only what a client asked, in a context that has no more
    capabilities than the client was given; and no two packets of a session share a
    vector. *)

(** ** Lists *)

Lemma filter_map {A B} (f : A → B) (P : B → bool) (l : list A) : filter P (f <$> l) = f <$> filter (λ x, P (f x)) l.
Proof.
  induction l as [|x l IH]; [done|]. rewrite fmap_cons, !filter_cons. destruct (P (f x)); simpl; [|done].
  by rewrite IH.
Qed.

Lemma filter_prefix {A} (P : A → bool) (l1 l2 : list A) : l1 `prefix_of` l2 → filter P l1 `prefix_of` filter P l2.
Proof. intros [k ->]. rewrite filter_app. by apply prefix_app_r. Qed.

Lemma removelast_prefix {A} (l : list A) : removelast l `prefix_of` l.
Proof. destruct l as [|x l _] using rev_ind; [done|]. rewrite removelast_last. by apply prefix_app_r. Qed.

Section safety.
Context {W : Type} {M : MALLOC W} {IO : POSIX_IO W} {IOL : POSIX_IO_laws W} {PS : PSOCK W}.
Context {RA : RCPR_ALLOCATOR W} {VB : VCCRYPT_BUFFER W} {RB : RCPR_RBTREE W} {RL : RCPR_laws W}.
Context {RT : RCPR_TREES W} {RE : RANDOM_ENDPOINT W} {RF : RCPR_FIBER W} {KB : KEY_BUFFERS W}.
Context {KA : KEY_AGREEMENT W} {VS : VCCRYPT_SUITE W} {MO : MAC_OPTIONS W}.
Context {VP : VCBLOCKCHAIN_PROTOCOL W} {VPL : VCBLOCKCHAIN_laws W} {VEL : VCBLOCKCHAIN_encode_laws W}.
Context {PP : PROTOCOL_PLATFORM W} {TL : RCPR_TREES_laws W}.
Context (rg : registry) (ctx : protocolservice_context (W := W)).
Context (dict : rbtree nat) (d : protocolservice_dataservice_endpoint_context (W := W))
  (n : protocolservice_notificationservice_fiber_context (W := W)) (w : W).

(** The service starts with the registry, two mailboxes and no context. *)
Definition starts : Prop :=
  represents ctx rg ∧ de_addr d ≠ ne_notify_addr n ∧ utree_map (de_mailbox_context_tree d) = ∅.

Abbreviation sound := (sound rg ctx (de_addr d) (ne_notify_addr n)).
Abbreviation mailboxes c := (mailboxes_of (cf_machine c).1).

Lemma reached tr c : starts → steps (protocol_start ctx dict d n w) tr c → sound c tr.
Proof.
  intros (Hrep&Hne&Ht) Hs. apply (sound_steps _ _ Hrep _ _ (protocol_start ctx dict d n w) [] tr c); [|done].
  by apply sound_start.
Qed.

Lemma sound_apart c tr : sound c tr → apart (de_addr d) (ne_notify_addr n) (mailboxes c).
Proof.
  intros H. pose proof (in_addresses _ _ _ _ _ _ _ _ H) as Hnd. rewrite addresses_mailboxes in Hnd.
  by rewrite (in_data _ _ _ _ _ _ _ _ H), (in_notify _ _ _ _ _ _ _ _ H) in Hnd.
Qed.

Lemma connection_links c j cn :
  sv_connections (cf_machine c).1 !! j = Some cn → mailboxes c !! j = Some (pn_return_addr cn, pn_fiber_addr cn).
Proof. intros Hj. unfold mailboxes_of. by rewrite list_lookup_fmap, Hj. Qed.

(** ** Requests and answers *)

Lemma log_requests ra (log : list (bytes * message)) :
  Forall (λ '(buf, m), ∃ q, asks buf q ∧ m = ask_message ra q) log →
  ∃ l, l.*1 = log.*1 ∧ log.*2 = ask_message ra <$> l.*2 ∧ Forall (λ '(buf, q), asks buf q) l.
Proof.
  induction 1 as [|[buf m] log (q&Hq&->) _ (l&E1&E2&Hl)]; [by exists []|].
  exists ((buf, q) :: l). rewrite !fmap_cons, E1, E2. split_and!; [done..|by constructor].
Qed.

(** The answer to a request is made of the response in its exchange. *)
Lemma answer_of ra q x m packet :
  ex_message x = ask_message ra q → reply_of x m → renders (W := W) m packet → answers q (ex_in x) packet.
Proof.
  intros Hx (p&Hp&Hm) Hr. rewrite Hx in Hp. simpl in Hp. injection Hp as <-. simpl in Hm.
  destruct Hr as [p resp w1 w1' Hb _ Hpl Hrun|p w1 w1' Hb Hty _|p Hb Hty _]; rewrite Hm in Hb; injection Hb as <-; try done.
  simpl in Hpl. injection Hpl as <-. by exists w1, w1'.
Qed.

(** The exchanges for the requests of a connection, and the packets that answer. *)
Definition served_for (ra : Z) (tr : list event) : list exchange :=
  filter (λ x, request_from ra (ex_message x)) (exchanges tr).
Definition answers_written (j : nat) (ra : Z) (tr : list event) : list written :=
  filter (λ p, data_reply (wr_message p)) (packets_written j ra tr).

Lemma served_in_order c tr j ra fa :
  sound c tr → mailboxes c !! j = Some (ra, fa) →
  (ex_message <$> served_for ra tr) `prefix_of` (rv_log (reader_seen j tr)).*2.
Proof.
  intros HS Hj. pose proof (sound_apart _ _ HS) as HA. pose proof (in_legal _ _ _ _ _ _ _ _ HS) as HL.
  destruct (reader_requests _ _ _ _ _ HA _ _ _ _ Hj HL) as [Hreq _].
  destruct (apart_endpoints _ _ _ HA _ _ _ Hj) as [Hne _].
  pose proof (endpoint_requests _ _ _ _ _ HA ra tr Hne HL) as Hend.
  rewrite <- Hreq. etrans; [|apply filter_prefix, (in_received _ _ _ _ _ _ _ _ HS)]. rewrite Hend, filter_app.
  unfold served_for. rewrite filter_map. by apply prefix_app_r.
Qed.

Lemma answers_in_order c tr j ra fa :
  sound c tr → mailboxes c !! j = Some (ra, fa) →
  (length (answers_written j ra tr) ≤ length (served_for ra tr))%nat ∧
  ∀ k p x, answers_written j ra tr !! k = Some p → served_for ra tr !! k = Some x →
    reply_of x (wr_message p) ∧ renders (W := W) (wr_message p) (wr_packet p).
Proof.
  intros HS Hj. pose proof (sound_apart _ _ HS) as HA. pose proof (in_legal _ _ _ _ _ _ _ _ HS) as HL.
  destruct (writer_replies _ _ _ _ _ HA _ _ _ _ Hj HL) as [Hw Hr].
  pose proof (endpoint_replies _ _ _ _ _ ra tr HL) as Hrep.
  set (replied_for := filter (λ x, request_from ra (ex_message x)) (replied (endpoint_seen tr))) in *.
  assert (replied_for `prefix_of` served_for ra tr) as Hpre.
  { apply filter_prefix. unfold replied, exchanges. destruct (ev_phase _); try done; apply removelast_prefix. }
  assert ((wr_message <$> answers_written j ra tr) `prefix_of` filter data_reply (sent ra tr)) as Hmsg.
  { etrans; [|apply filter_prefix, (in_received _ _ _ _ _ _ _ _ HS)]. rewrite Hw, filter_app.
    unfold answers_written. rewrite filter_map. by apply prefix_app_r. }
  split.
  - apply prefix_length in Hpre, Hmsg. apply Forall2_length in Hrep. rewrite length_fmap in Hmsg. lia.
  - intros k p x Hp Hx.
    assert (filter data_reply (sent ra tr) !! k = Some (wr_message p)) as Hm.
    { eapply prefix_lookup_Some; [|done]. by rewrite list_lookup_fmap, Hp. }
    destruct (Forall2_lookup_r _ _ _ _ _ Hrep Hm) as (x'&Hx'&Hxm).
    rewrite (prefix_lookup_Some _ _ _ _ Hx' Hpre) in Hx. injection Hx as <-. split; [done|].
    rewrite Forall_forall in Hr. apply Hr. apply list_elem_of_lookup_2 in Hp. by apply list_elem_of_filter in Hp as [_ Hp].
Qed.

(** C3: Clients are served in order, however the fibers of the service run, and
    whatever clients, services and sockets do.  The requests of a connection, which are
    all the messages that were put into the mailbox of the data endpoint with its return
    address, each come from a packet that was read from this client and asks for
    precisely that, at most one from a packet and in the order of the packets.  The
    exchanges with the data service for this connection are exactly for the first of
    these requests, in order: none is dropped between two that are served, none is
    served twice or changed.  And the packets written in answer are, in order, the
    answers to the first of these exchanges: the [k]th is made of the response of the
    data service in the [k]th exchange, with the request and the offset of its packet,
    and no answer goes to another client.  (Which packets become a request is said in
    [client_requests_arrive].) *)
Theorem requests_served_in_order tr c j cn :
  starts → steps (protocol_start ctx dict d n w) tr c → sv_connections (cf_machine c).1 !! j = Some cn →
  let ra := pn_return_addr cn in
  ∃ l : list (bytes * asked),
    l.*1 `sublist_of` packets_read j tr ∧ Forall (λ '(buf, q), asks buf q) l ∧
    filter (request_from ra) (sent (de_addr d) tr) = ask_message ra <$> l.*2 ∧
    (ex_message <$> served_for ra tr) `prefix_of` (ask_message ra <$> l.*2) ∧
    (length (answers_written j ra tr) ≤ length (served_for ra tr))%nat ∧
    ∀ k p x buf q, answers_written j ra tr !! k = Some p → served_for ra tr !! k = Some x → l !! k = Some (buf, q) →
      answers q (ex_in x) (wr_packet p).
Proof.
  intros Hst Hs Hcn ra. pose proof (reached _ _ Hst Hs) as HS. apply connection_links in Hcn as Hj. fold ra in Hj.
  pose proof (sound_apart _ _ HS) as HA. pose proof (in_legal _ _ _ _ _ _ _ _ HS) as HL.
  destruct (reader_requests _ _ _ _ _ HA _ _ _ _ Hj HL) as [Hsent Hlog].
  destruct (log_requests _ _ Hlog) as (l&E1&E2&Hl). pose proof (served_in_order _ _ _ _ _ HS Hj) as Hserved.
  destruct (answers_in_order _ _ _ _ _ HS Hj) as [Hlen Hans].
  exists l. split_and!; [|done|by rewrite <- E2|by rewrite <- E2|done|].
  - rewrite E1. etrans; [|by eapply reader_packets]. by apply sublist_inserts_r.
  - intros k p x buf q Hp Hx Hq. destruct (Hans _ _ _ Hp Hx) as [Hrep Hren].
    eapply answer_of; [|exact Hrep|exact Hren]. rewrite E2 in Hserved.
    assert ((ask_message ra <$> l.*2) !! k = Some (ex_message x)) as Hk
      by (eapply prefix_lookup_Some; [|exact Hserved]; by rewrite list_lookup_fmap, Hx).
    rewrite !list_lookup_fmap, Hq in Hk. by injection Hk.
Qed.

(** ** Contexts *)

(** The context [child] was opened for the connection, with no capability that its user
    was not given, and was not closed since. *)
Definition may_use (tr : list event) (log : list exchange) (j : nat) (ra fa child : Z) : Prop :=
  ∃ f caps l1 y l2,
    user_of j tr = Some f ∧ shook ctx j f ∧ only_granted rg (pc_agentd_uuid ctx) (pf_entity_uuid f) caps ∧
    log = l1 ++ y :: l2 ∧ ex_message y = open_message ra fa caps ∧
    ex_out y = request_packet (child_context_create (ReqChildCreate caps)) ∧
    opens ra child y ∧ Forall (λ z, ¬ closes ra z) l2.

(** The exchange [x], after those of [log], is one that the connection [j] may make. *)
Inductive permitted (tr : list event) (log : list exchange) (j : nat) (ra fa : Z) (x : exchange) : Prop :=
  | permitted_open f caps :
      user_of j tr = Some f → shook ctx j f → only_granted rg (pc_agentd_uuid ctx) (pf_entity_uuid f) caps →
      ex_message x = open_message ra fa caps →
      ex_out x = request_packet (child_context_create (ReqChildCreate caps)) → permitted tr log j ra fa x
  | permitted_close child :
      ex_message x = close_message ra fa → may_use tr log j ra fa child →
      ex_out x = request_packet (child_context_close (ReqChildClose child)) → permitted tr log j ra fa x
  | permitted_request buf q child :
      buf ∈ packets_read j tr → asks buf q → ex_message x = ask_message ra q → may_use tr log j ra fa child →
      ex_out x = request_packet (in_context child (as_request q)) → permitted tr log j ra fa x.

Lemma in_context_child child q :
  splice 4 (net32 child) (request_packet (in_context 0 q)) = request_packet (in_context child q).
Proof.
  rewrite net32_be. destruct q; cbn [in_context]; unfold request_packet; cbn [request_method request_fields concat];
    rewrite !(splice_skip 4 4) by (try apply length_be_enc; lia); f_equal; rewrite Nat.sub_diag;
    by rewrite splice_head by (by rewrite !length_be_enc).
Qed.

(** What the endpoint wrote was right, and whom it was for. *)
Lemma exchange_origin c tr log1 x log2 :
  sound c tr → exchanges tr = log1 ++ x :: log2 →
  valid_out log1 (ex_message x) (ex_out x) ∧
  ∃ j ra fa, mailboxes c !! j = Some (ra, fa) ∧
    (ex_message x = close_message ra fa ∨
     (∃ buf q, buf ∈ packets_read j tr ∧ asks buf q ∧ ex_message x = ask_message ra q) ∨
     (∃ f caps, user_of j tr = Some f ∧ only_granted rg (pc_agentd_uuid ctx) (pf_entity_uuid f) caps ∧
        ex_message x = open_message ra fa caps)).
Proof.
  intros HS Hx. pose proof (sound_apart _ _ HS) as HA. pose proof (in_legal _ _ _ _ _ _ _ _ HS) as HL.
  assert (de_addr d ≠ ne_notify_addr n) as Hne.
  { pose proof HA as H. apply NoDup_cons in H as [H _]. rewrite not_elem_of_cons in H. by destruct H. }
  destruct (exchanges_valid _ _ _ _ _ HA tr Hne HL) as (Hv&Hin&_). specialize (Hv _ _ _ Hx). split; [done|].
  apply (sent_origin _ _ _ _ _ tr _ HL).
  - destruct (in_received _ _ _ _ _ _ _ _ HS (de_addr d)) as [k ->]. apply elem_of_app. left. apply Hin.
    rewrite Hx. apply elem_of_app. right. by left.
  - unfold as_dataservice_request. destruct Hv as [p E|p child E|p breq child E]; by rewrite E.
Qed.

(** The packet for a message that opens a context. *)
Lemma opening_packet log ra fa caps out :
  valid_out log (open_message ra fa caps) out → out = request_packet (child_context_create (ReqChildCreate caps)).
Proof.
  intros [p [= <-] _ ->|p child [= <-] Hid|p breq child [= <-] Hid]; [|done..].
  unfold request_packet. simpl. by rewrite net32_be, app_nil_r.
Qed.

(** A context that a connection holds was opened for it. *)
Lemma holds_may_use c tr log1 log2 j ra fa child :
  sound c tr → mailboxes c !! j = Some (ra, fa) → exchanges tr = log1 ++ log2 → holds log1 ra child →
  may_use tr log1 j ra fa child.
Proof.
  intros HS Hj Hx (l1&y&l2&->&Hopen&Hl2). rewrite <- app_assoc in Hx. simpl in Hx.
  destruct (exchange_origin _ _ _ _ _ HS Hx) as (Hv&i&ra'&fa'&Hi&Horigin).
  destruct Hopen as (p&hdr&Hp&Hid&Hda&Hdec).
  destruct Horigin as [E|[(buf&q&_&_&E)|(f&caps&Hu&Hg&E)]]; rewrite E in Hp; injection Hp as <-; try done.
  simpl in Hda. subst ra'. destruct (apart_same _ _ _ (sound_apart _ _ HS) _ _ _ _ _ _ Hi Hj) as [Hij _].
  specialize (Hij eq_refl) as ->. rewrite Hi in Hj. injection Hj as ->.
  exists f, caps, l1, y, l2. rewrite E in Hv. apply opening_packet in Hv.
  split_and!; try done; [by eapply (in_user _ _ _ _ _ _ _ _ HS)|].
  eexists _, hdr. rewrite E. by split_and!.
Qed.

(** C4: The service never asks of the data service what a client may not: every exchange
    with the data service is made for a connection and is one of three.  It opens a
    context with capabilities each of which the registry gives the user that the
    handshake of this connection identified; or it closes the context that was opened
    for this connection; or it is the request that a packet of this client asked for,
    unchanged, in the context that was opened for this connection with no more than
    the capabilities of its user, and not closed since.  So no client acts in the
    context of another, whatever it sends and however the fibers run. *)
Theorem contexts_keep_clients_apart tr c log1 x log2 :
  starts → steps (protocol_start ctx dict d n w) tr c → exchanges tr = log1 ++ x :: log2 →
  ∃ j cn, sv_connections (cf_machine c).1 !! j = Some cn ∧
    permitted tr log1 j (pn_return_addr cn) (pn_fiber_addr cn) x.
Proof.
  intros Hst Hs Hx. pose proof (reached _ _ Hst Hs) as HS.
  destruct (exchange_origin _ _ _ _ _ HS Hx) as (Hv&j&ra&fa&Hj&Horigin).
  pose proof Hj as Hcn. unfold mailboxes_of in Hcn. rewrite list_lookup_fmap in Hcn.
  destruct (sv_connections _ !! j) as [cn|] eqn:Ecn; [|done]. injection Hcn as Hra Hfa.
  exists j, cn. split; [done|]. rewrite Hra, Hfa.
  destruct Horigin as [E|[(buf&q&Hbuf&Hq&E)|(f&caps&Hu&Hg&E)]]; pose proof Hv as Hv'; rewrite E in Hv'.
  - destruct Hv' as [p [= <-] Hid|p child [= <-] Hid Hh Hout|p breq child [= <-] Hid]; try done.
    eapply permitted_close; [done|by eapply holds_may_use|done].
  - destruct Hv' as [p [= <-] Hid|p child [= <-] Hid|p breq child [= <-] Hid Hb Hh Hout]; try done.
    injection Hb as <-. rewrite in_context_child in Hout.
    eapply permitted_request; [done..|by eapply holds_may_use|done].
  - eapply permitted_open; [done|by eapply (in_user _ _ _ _ _ _ _ _ HS)|done..|by eapply opening_packet].
Qed.

(** ** Vectors *)

(** A step is at most one event. *)
Lemma step_event c1 t c2 : step (W := W) c1 t c2 → t = [] ∨ ∃ e, t = [e].
Proof. destruct 1; eauto. Qed.

Lemma steps_prefix c0 tr1 tr2 c : steps (W := W) c0 (tr1 ++ tr2) c → ∃ c1, steps c0 tr1 c1.
Proof.
  intros Hs. remember (tr1 ++ tr2) as tr eqn:E. revert tr1 tr2 E.
  induction Hs as [c|c1 t1 c2 t2 c3 Hs IH Hstep]; intros tr1 tr2 E.
  - symmetry in E. apply app_nil in E as [-> _]. exists c. constructor.
  - destruct (step_event _ _ _ Hstep) as [->|[e ->]]; [rewrite app_nil_r in E; by eapply IH|].
    destruct tr2 as [|e' tr2 _] using rev_ind.
    + rewrite app_nil_r in E. subst tr1. exists c3. by econstructor.
    + rewrite app_assoc in E. apply app_inj_tail in E as [E _]. by eapply IH.
Qed.

(** C13: No vector is used twice: every packet that is written to a client is written by
    the writer of its connection under the secret of the handshake of the connection,
    with the vector that follows that of the packet before, and the first with the
    vector that the handshake left; and it is the packet of a message that was sent to
    this connection.  Two packets have the same vector only if 2^64 packets lie between
    them. *)
Theorem vectors_never_reused tr1 r j iv buf secret a tr2 c :
  starts → steps (protocol_start ctx dict d n w) (tr1 ++ Event r (op_client_write j iv buf secret) a :: tr2) c →
  ∃ cn f m, sv_connections (cf_machine c).1 !! j = Some cn ∧ r = writer j ∧
    user_of j tr1 = Some f ∧ shook ctx j f ∧ secret = pf_shared_secret f ∧
    iv = wrap64 (pf_server_iv f + Z.of_nat (client_writes j tr1)) ∧
    m ∈ sent (pn_return_addr cn) tr1 ∧ renders (W := W) m buf.
Proof.
  intros Hst Hs. pose proof (reached _ _ Hst Hs) as HS. pose proof (sound_apart _ _ HS) as HA.
  pose proof (in_legal _ _ _ _ _ _ _ _ HS) as HL. pose proof (HL _ _ _ _ _ eq_refl) as Hm.
  destruct r as [i|i| | |]; simpl in Hm; [naive_solver| |naive_solver..].
  destruct Hm as (ra&fa&f&iv'&Hj&Hu&<-&->&->&m&Hc&Hr).
  pose proof Hj as Hcn. unfold mailboxes_of in Hcn. rewrite list_lookup_fmap in Hcn.
  destruct (sv_connections _ !! j) as [cn|] eqn:Ecn; [|done]. injection Hcn as Hra Hfa.
  apply legal_prefix in HL as HL1. exists cn, f, m. rewrite Hra. split_and!; try done.
  - eapply (in_user _ _ _ _ _ _ _ _ HS). by eapply user_stays.
  - unfold next_vector, packets_written in *. by erewrite writes_counted.
  - destruct (steps_prefix _ _ _ _ Hs) as (c1&Hs1). pose proof (reached _ _ Hst Hs1) as HS1.
    destruct (in_received _ _ _ _ _ _ _ _ HS1 ra) as [k ->]. apply elem_of_app. left.
    eapply elem_of_sublist; [|eapply writer_messages; [exact Hj|exact HL1]].
    apply elem_of_app. right. unfold taken. rewrite Hc. by left.
Qed.
End safety.
