(* ===== verification/ProtocolClient.v ===== *)
(** * The client library of the protocol service

    The functions [protocolservice_api_sendreq_*.c] and
    [protocolservice_api_recvresp_*.c] by which a client uses a connection after the
    handshake: each request is an authenticated packet with the next vector of the
    client, each response one with the next vector of the service. *)

From S2P Require Import Prelude Inet StatusCodes Contexts Lmdb Records RequestCodec Ipc AuthedIpc ClientApi NotificationCodec ProtocolService Handshake ProtocolFibers ProtocolRequests.

Section client.
Context {W : Type} {M : MALLOC W} {IO : POSIX_IO W} {VB : VCCRYPT_BUFFER W} {VS : VCCRYPT_SUITE W}.

(** ** Requests *)

(** Put the fields in a buffer of their size and write it; the vector is advanced when
    it was written. *)
Definition sendreq (req_size : nat) (fields : list bytes) (client_iv : Z) (shared_secret : bytes) : Eff W Z :=
  let! '(retval, req) := vccrypt_buffer_init req_size in
  if negb (retval =? 0) then throw AGENTD_ERROR_GENERAL_OUT_OF_MEMORY else
  let* _ := ipc_write_authed_data_block client_iv (write_seq 0 fields req) shared_secret in
  ok (wrap64 (client_iv + 1)).

(** A request without parameters, and one with an identifier.  The request offset is
    always 0. *)
Definition sendreq_plain (request_id client_iv : Z) (shared_secret : bytes) : Eff W Z :=
  sendreq (2 * 4) [net32 request_id; net32 0] client_iv shared_secret.
Definition sendreq_id (request_id client_iv : Z) (shared_secret id : bytes) : Eff W Z :=
  sendreq (2 * 4 + 16) [net32 request_id; net32 0; take 16 id] client_iv shared_secret.

Definition protocolservice_api_sendreq_latest_block_id_get_block : Z → bytes → Eff W Z :=
  sendreq_plain UNAUTH_PROTOCOL_REQ_ID_LATEST_BLOCK_ID_GET.
Definition protocolservice_api_sendreq_status_get : Z → bytes → Eff W Z :=
  sendreq_plain UNAUTH_PROTOCOL_REQ_ID_STATUS_GET.
Definition protocolservice_api_sendreq_close : Z → bytes → Eff W Z :=
  sendreq_plain UNAUTH_PROTOCOL_REQ_ID_CLOSE.

Definition protocolservice_api_sendreq_block_get : Z → bytes → bytes → Eff W Z :=
  sendreq_id UNAUTH_PROTOCOL_REQ_ID_BLOCK_BY_ID_GET.
Definition protocolservice_api_sendreq_block_next_id_get : Z → bytes → bytes → Eff W Z :=
  sendreq_id UNAUTH_PROTOCOL_REQ_ID_BLOCK_ID_GET_NEXT.
Definition protocolservice_api_sendreq_block_prev_id_get : Z → bytes → bytes → Eff W Z :=
  sendreq_id UNAUTH_PROTOCOL_REQ_ID_BLOCK_ID_GET_PREV.
Definition protocolservice_api_sendreq_transaction_get : Z → bytes → bytes → Eff W Z :=
  sendreq_id UNAUTH_PROTOCOL_REQ_ID_TRANSACTION_BY_ID_GET.
Definition protocolservice_api_sendreq_transaction_next_id_get : Z → bytes → bytes → Eff W Z :=
  sendreq_id UNAUTH_PROTOCOL_REQ_ID_TRANSACTION_ID_GET_NEXT.
Definition protocolservice_api_sendreq_transaction_prev_id_get : Z → bytes → bytes → Eff W Z :=
  sendreq_id UNAUTH_PROTOCOL_REQ_ID_TRANSACTION_ID_GET_PREV.
Definition protocolservice_api_sendreq_transaction_block_id_get : Z → bytes → bytes → Eff W Z :=
  sendreq_id UNAUTH_PROTOCOL_REQ_ID_TRANSACTION_ID_GET_BLOCK_ID.
Definition protocolservice_api_sendreq_artifact_first_txn_id_get : Z → bytes → bytes → Eff W Z :=
  sendreq_id UNAUTH_PROTOCOL_REQ_ID_ARTIFACT_FIRST_TXN_BY_ID_GET.
Definition protocolservice_api_sendreq_artifact_last_txn_id_get : Z → bytes → bytes → Eff W Z :=
  sendreq_id UNAUTH_PROTOCOL_REQ_ID_ARTIFACT_LAST_TXN_BY_ID_GET.

Definition protocolservice_api_sendreq_block_id_by_height_get_block (client_iv : Z) (shared_secret : bytes)
    (height : Z) : Eff W Z :=
  sendreq (2 * 4 + 1 * 8) [net32 UNAUTH_PROTOCOL_REQ_ID_BLOCK_ID_BY_HEIGHT_GET; net32 0; net64 height]
    client_iv shared_secret.

Definition protocolservice_api_sendreq_transaction_submit (client_iv : Z) (shared_secret : bytes)
    (txn_id artifact_id cert : bytes) : Eff W Z :=
  sendreq (2 * 4 + 2 * 16 + length cert)
    [net32 UNAUTH_PROTOCOL_REQ_ID_TRANSACTION_SUBMIT; net32 0; take 16 txn_id; take 16 artifact_id; cert]
    client_iv shared_secret.

(** ** Responses *)

(** The vector of the next packet, and what the call sets: the offset, the status, and
    after a success the rest. *)
Definition recvd (A : Type) : Type := Z * result (Z * Z * option A).

(** Read a packet and take it apart: the vector is advanced whatever the packet
    holds. *)
Definition recvresp {A} (server_iv : Z) (shared_secret : bytes) (parse : bytes → Eff W A)
  : Act W (Z * result A) :=
  let! val := ipc_read_authed_data_block server_iv shared_secret in
  match val with
  | Err retval => ret (server_iv, Err retval)
  | Ok val => let! r := parse val in ret (wrap64 (server_iv + 1), r)
  end.

(** The request, the status and the offset; [rest] reads what follows them. *)
Definition response_parse {A} (request_id : Z) (rest : bytes → Eff W A) (val : bytes)
  : Eff W (Z * Z * option A) :=
  if (length val <? 3 * 4)%nat then throw AGENTD_ERROR_IPC_READ_UNEXPECTED_DATA_SIZE else
  if negb (request_id =? ntohl (le_dec (sub 0 4 val))) then throw AGENTD_ERROR_IPC_READ_UNEXPECTED_DATA_TYPE else
  let status := ntohl (le_dec (sub 4 4 val)) in
  let offset := ntohl (le_dec (sub 8 4 val)) in
  if negb (AGENTD_STATUS_SUCCESS =? status) then ok (offset, status, None) else
  let* a := rest (drop (3 * 4) val) in ok (offset, status, Some a).

(** An identifier in a buffer of the caller, which is created before the packet is
    read; it is the whole rest. *)
Definition recvresp_buffer (request_id server_iv : Z) (shared_secret : bytes) : Act W (recvd bytes) :=
  let! '(retval, block_id) := vccrypt_buffer_init 16 in
  if negb (retval =? 0) then ret (server_iv, Err AGENTD_ERROR_GENERAL_OUT_OF_MEMORY) else
  recvresp server_iv shared_secret (response_parse request_id (λ rest,
    if negb (length rest =? 16)%nat then throw AGENTD_ERROR_IPC_READ_UNEXPECTED_DATA_SIZE
    else ok (splice 0 rest block_id))).

(** An identifier that is copied to the caller. *)
Definition recvresp_id (request_id server_iv : Z) (shared_secret : bytes) : Act W (recvd bytes) :=
  recvresp server_iv shared_secret (response_parse request_id (λ bval,
    if (length bval <? 16)%nat then throw AGENTD_ERROR_IPC_READ_UNEXPECTED_DATA_SIZE
    else ok (sub 0 16 bval))).

Definition protocolservice_api_recvresp_latest_block_id_get_block : Z → bytes → Act W (recvd bytes) :=
  recvresp_buffer UNAUTH_PROTOCOL_REQ_ID_LATEST_BLOCK_ID_GET.
Definition protocolservice_api_recvresp_block_id_by_height_get_block : Z → bytes → Act W (recvd bytes) :=
  recvresp_buffer UNAUTH_PROTOCOL_REQ_ID_BLOCK_ID_BY_HEIGHT_GET.

Definition protocolservice_api_recvresp_block_next_id_get : Z → bytes → Act W (recvd bytes) :=
  recvresp_id UNAUTH_PROTOCOL_REQ_ID_BLOCK_ID_GET_NEXT.
Definition protocolservice_api_recvresp_block_prev_id_get : Z → bytes → Act W (recvd bytes) :=
  recvresp_id UNAUTH_PROTOCOL_REQ_ID_BLOCK_ID_GET_PREV.
Definition protocolservice_api_recvresp_transaction_next_id_get : Z → bytes → Act W (recvd bytes) :=
  recvresp_id UNAUTH_PROTOCOL_REQ_ID_TRANSACTION_ID_GET_NEXT.
Definition protocolservice_api_recvresp_transaction_prev_id_get : Z → bytes → Act W (recvd bytes) :=
  recvresp_id UNAUTH_PROTOCOL_REQ_ID_TRANSACTION_ID_GET_PREV.
Definition protocolservice_api_recvresp_transaction_block_id_get : Z → bytes → Act W (recvd bytes) :=
  recvresp_id UNAUTH_PROTOCOL_REQ_ID_TRANSACTION_ID_GET_BLOCK_ID.
Definition protocolservice_api_recvresp_artifact_first_txn_id_get : Z → bytes → Act W (recvd bytes) :=
  recvresp_id UNAUTH_PROTOCOL_REQ_ID_ARTIFACT_FIRST_TXN_BY_ID_GET.
Definition protocolservice_api_recvresp_artifact_last_txn_id_get : Z → bytes → Act W (recvd bytes) :=
  recvresp_id UNAUTH_PROTOCOL_REQ_ID_ARTIFACT_LAST_TXN_BY_ID_GET.

(** The structure of the caller is filled field by field; the certificate is the rest. *)
Definition protocolservice_api_recvresp_block_get (server_iv : Z) (shared_secret block_node : bytes)
  : Act W (recvd (bytes * bytes)) :=
  recvresp server_iv shared_secret (response_parse UNAUTH_PROTOCOL_REQ_ID_BLOCK_BY_ID_GET (λ bval,
    let block_node_size := (5 * 16)%nat in
    if (length bval <? block_node_size)%nat then throw AGENTD_ERROR_IPC_READ_UNEXPECTED_DATA_SIZE else
    let block_cert_size := (length bval - block_node_size)%nat in
    let! mem := malloc (Z.of_nat block_cert_size) in
    if negb mem then throw AGENTD_ERROR_GENERAL_OUT_OF_MEMORY else
    let block_node := set_block_node_key (sub 0 16 bval) block_node in
    let block_node := set_block_node_prev (sub 16 16 bval) block_node in
    let block_node := set_block_node_next (sub 32 16 bval) block_node in
    let block_node := set_block_node_first_transaction_id (sub 48 16 bval) block_node in
    let block_node := set_block_node_net_block_height (le_dec (sub 64 8 bval)) block_node in
    let block_node := set_block_node_net_block_cert_size (le_dec (sub 72 8 bval)) block_node in
    ok (block_node, sub 80 block_cert_size bval))).

Definition protocolservice_api_recvresp_transaction_get (server_iv : Z) (shared_secret txn_node : bytes)
  : Act W (recvd (bytes * bytes)) :=
  recvresp server_iv shared_secret (response_parse UNAUTH_PROTOCOL_REQ_ID_TRANSACTION_BY_ID_GET (λ bval,
    let txn_node_size := (5 * 16 + 1 * 8 + 1 * 4)%nat in
    if (length bval <? txn_node_size)%nat then throw AGENTD_ERROR_IPC_READ_UNEXPECTED_DATA_SIZE else
    let txn_cert_size := (length bval - txn_node_size)%nat in
    let! mem := malloc (Z.of_nat txn_cert_size) in
    if negb mem then throw AGENTD_ERROR_GENERAL_OUT_OF_MEMORY else
    let txn_node := set_txn_node_key (sub 0 16 bval) txn_node in
    let txn_node := set_txn_node_prev (sub 16 16 bval) txn_node in
    let txn_node := set_txn_node_next (sub 32 16 bval) txn_node in
    let txn_node := set_txn_node_artifact_id (sub 48 16 bval) txn_node in
    let txn_node := set_txn_node_block_id (sub 64 16 bval) txn_node in
    let txn_node := set_txn_node_net_txn_cert_size (le_dec (sub 80 8 bval)) txn_node in
    let txn_node := set_txn_node_net_txn_state (le_dec (sub 88 4 bval)) txn_node in
    ok (txn_node, sub 92 txn_cert_size bval))).

(** A status only; nothing may follow it. *)
Definition protocolservice_api_recvresp_transaction_submit (server_iv : Z) (shared_secret : bytes)
  : Act W (Z * result (Z * Z)) :=
  recvresp server_iv shared_secret (λ val,
    if negb (length val =? 3 * 4)%nat then throw AGENTD_ERROR_IPC_READ_UNEXPECTED_DATA_SIZE else
    if negb (UNAUTH_PROTOCOL_REQ_ID_TRANSACTION_SUBMIT =? ntohl (le_dec (sub 0 4 val)))
    then throw AGENTD_ERROR_IPC_READ_UNEXPECTED_DATA_TYPE
    else ok (ntohl (le_dec (sub 8 4 val)), ntohl (le_dec (sub 4 4 val)))).

(** Whatever follows is ignored; after a close, also the status. *)
Definition protocolservice_api_recvresp_status_get (server_iv : Z) (shared_secret : bytes)
  : Act W (Z * result (Z * Z)) :=
  recvresp server_iv shared_secret (λ val,
    if (length val <? 3 * 4)%nat then throw AGENTD_ERROR_IPC_READ_UNEXPECTED_DATA_SIZE else
    if negb (UNAUTH_PROTOCOL_REQ_ID_STATUS_GET =? ntohl (le_dec (sub 0 4 val)))
    then throw AGENTD_ERROR_IPC_READ_UNEXPECTED_DATA_TYPE
    else ok (ntohl (le_dec (sub 8 4 val)), ntohl (le_dec (sub 4 4 val)))).

Definition protocolservice_api_recvresp_close (server_iv : Z) (shared_secret : bytes) : Act W (Z * result unit) :=
  recvresp server_iv shared_secret (λ val,
    if (length val <? 3 * 4)%nat then throw AGENTD_ERROR_IPC_READ_UNEXPECTED_DATA_SIZE else
    if negb (UNAUTH_PROTOCOL_REQ_ID_CLOSE =? ntohl (le_dec (sub 0 4 val)))
    then throw AGENTD_ERROR_IPC_READ_UNEXPECTED_DATA_TYPE
    else ok tt).
End client.
