(* ===== verification/ProtocolClientSpec.v ===== *)
(** * Clients of the protocol service

    The calls of the client library as values.  What a client sends is read by the
    service as the requests of its calls, in order ([client_requests_arrive]); and what
    the service answers tells the client what the data service responded to its call
    ([client_calls_answered]). *)

From S2P Require Import Prelude Inet StatusCodes Contexts Lmdb Records RequestCodec RequestSpec ResponseCodec ResponseSpec Ipc IpcSpec AuthedIpc AuthedSpec ClientApi ClientSpec NotificationCodec ProtocolService ProtocolSpec ProtocolControlSpec Handshake HandshakeLaws HandshakeServer HandshakeAgreement ProtocolFibers ProtocolRequests ProtocolResponses ProtocolEndpoints ProtocolScheduler ProtocolContracts ProtocolConnection ProtocolEndpointContracts ProtocolInvariant ProtocolSafety ProtocolClient.

(** ** Calls *)

Inductive client_call : Type :=
  | call_latest_block_id_get
  | call_block_get (block_id : bytes)
  | call_block_next_id_get (block_id : bytes)
  | call_block_prev_id_get (block_id : bytes)
  | call_block_id_by_height_get (height : Z)
  | call_transaction_get (txn_id : bytes)
  | call_transaction_next_id_get (txn_id : bytes)
  | call_transaction_prev_id_get (txn_id : bytes)
  | call_transaction_block_id_get (txn_id : bytes)
  | call_artifact_first_txn_id_get (artifact_id : bytes)
  | call_artifact_last_txn_id_get (artifact_id : bytes)
  | call_transaction_submit (txn_id artifact_id cert : bytes)
  | call_status_get
  | call_close.

Definition call_id (c : client_call) : Z :=
  match c with
  | call_latest_block_id_get => UNAUTH_PROTOCOL_REQ_ID_LATEST_BLOCK_ID_GET
  | call_block_get _ => UNAUTH_PROTOCOL_REQ_ID_BLOCK_BY_ID_GET
  | call_block_next_id_get _ => UNAUTH_PROTOCOL_REQ_ID_BLOCK_ID_GET_NEXT
  | call_block_prev_id_get _ => UNAUTH_PROTOCOL_REQ_ID_BLOCK_ID_GET_PREV
  | call_block_id_by_height_get _ => UNAUTH_PROTOCOL_REQ_ID_BLOCK_ID_BY_HEIGHT_GET
  | call_transaction_get _ => UNAUTH_PROTOCOL_REQ_ID_TRANSACTION_BY_ID_GET
  | call_transaction_next_id_get _ => UNAUTH_PROTOCOL_REQ_ID_TRANSACTION_ID_GET_NEXT
  | call_transaction_prev_id_get _ => UNAUTH_PROTOCOL_REQ_ID_TRANSACTION_ID_GET_PREV
  | call_transaction_block_id_get _ => UNAUTH_PROTOCOL_REQ_ID_TRANSACTION_ID_GET_BLOCK_ID
  | call_artifact_first_txn_id_get _ => UNAUTH_PROTOCOL_REQ_ID_ARTIFACT_FIRST_TXN_BY_ID_GET
  | call_artifact_last_txn_id_get _ => UNAUTH_PROTOCOL_REQ_ID_ARTIFACT_LAST_TXN_BY_ID_GET
  | call_transaction_submit _ _ _ => UNAUTH_PROTOCOL_REQ_ID_TRANSACTION_SUBMIT
  | call_status_get => UNAUTH_PROTOCOL_REQ_ID_STATUS_GET
  | call_close => UNAUTH_PROTOCOL_REQ_ID_CLOSE
  end.

Definition call_fields (c : client_call) : bytes :=
  match c with
  | call_block_get id | call_block_next_id_get id | call_block_prev_id_get id => id
  | call_transaction_get id | call_transaction_next_id_get id | call_transaction_prev_id_get id
  | call_transaction_block_id_get id => id
  | call_artifact_first_txn_id_get id | call_artifact_last_txn_id_get id => id
  | call_block_id_by_height_get h => net64 h
  | call_transaction_submit t a cert => t ++ a ++ cert
  | call_latest_block_id_get | call_status_get | call_close => []
  end.

(** The request of the data service that a call stands for. *)
Definition call_request (c : client_call) : option client_request :=
  match c with
  | call_latest_block_id_get => Some ask_latest_block_id
  | call_block_get id => Some (ask_block id true)
  | call_block_next_id_get id | call_block_prev_id_get id => Some (ask_block id false)
  | call_block_id_by_height_get h => Some (ask_block_id_by_height h)
  | call_transaction_get id => Some (ask_transaction id true)
  | call_transaction_next_id_get id | call_transaction_prev_id_get id
  | call_transaction_block_id_get id => Some (ask_transaction id false)
  | call_artifact_first_txn_id_get id | call_artifact_last_txn_id_get id => Some (ask_artifact id)
  | call_transaction_submit t a cert => Some (ask_submit t a cert)
  | call_status_get | call_close => None
  end.
Definition call_asks (c : client_call) : option asked := Asked (call_id c) 0 <$> call_request c.

Definition call_fits (c : client_call) : Prop :=
  match c with
  | call_block_get id | call_block_next_id_get id | call_block_prev_id_get id => is_uuid id
  | call_transaction_get id | call_transaction_next_id_get id | call_transaction_prev_id_get id
  | call_transaction_block_id_get id => is_uuid id
  | call_artifact_first_txn_id_get id | call_artifact_last_txn_id_get id => is_uuid id
  | call_block_id_by_height_get h => u64 h
  | call_transaction_submit t a cert =>
      is_uuid t ∧ is_uuid a ∧ (length cert ≤ MAX_TRANSACTION_CERTIFICATE_SIZE)%nat
  | call_latest_block_id_get | call_status_get | call_close => True
  end.

(** ** Packets *)

Definition request_bytes (id offset : Z) (fields : bytes) : bytes := net32 id ++ net32 offset ++ fields.
Definition response_bytes (id status offset : Z) (fields : bytes) : bytes :=
  net32 id ++ net32 status ++ net32 offset ++ fields.

Definition call_packet (c : client_call) : bytes := request_bytes (call_id c) 0 (call_fields c).

(** The codec of vcblockchain has the packets that the client library writes and
    reads. *)
Class VCBLOCKCHAIN_layout (W : Type) `{VP : VCBLOCKCHAIN_PROTOCOL W} := {
  layout_block_get : ∀ id o b, is_uuid b → u32 id →
    vcblockchain_protocol_decode_req_block_get (request_bytes id o b) = Ok (id, b);
  layout_block_next : ∀ id o b, is_uuid b → u32 id →
    vcblockchain_protocol_decode_req_block_next_id_get (request_bytes id o b) = Ok (id, b);
  layout_block_prev : ∀ id o b, is_uuid b → u32 id →
    vcblockchain_protocol_decode_req_block_prev_id_get (request_bytes id o b) = Ok (id, b);
  layout_height : ∀ id o h, u64 h → u32 id →
    vcblockchain_protocol_decode_req_block_id_by_height_get (request_bytes id o (net64 h)) = Ok (id, h);
  layout_txn_get : ∀ id o b, is_uuid b → u32 id →
    vcblockchain_protocol_decode_req_txn_get (request_bytes id o b) = Ok (id, b);
  layout_txn_next : ∀ id o b, is_uuid b → u32 id →
    vcblockchain_protocol_decode_req_txn_next_id_get (request_bytes id o b) = Ok (id, b);
  layout_txn_prev : ∀ id o b, is_uuid b → u32 id →
    vcblockchain_protocol_decode_req_txn_prev_id_get (request_bytes id o b) = Ok (id, b);
  layout_txn_block : ∀ id o b, is_uuid b → u32 id →
    vcblockchain_protocol_decode_req_txn_block_id_get (request_bytes id o b) = Ok (id, b);
  layout_artifact_first : ∀ id o b, is_uuid b → u32 id →
    vcblockchain_protocol_decode_req_artifact_first_txn_id_get (request_bytes id o b) = Ok (id, b);
  layout_artifact_last : ∀ id o b, is_uuid b → u32 id →
    vcblockchain_protocol_decode_req_artifact_last_txn_id_get (request_bytes id o b) = Ok (id, b);
  (** Decoding copies, so it needs memory. *)
  layout_submit : ∀ id o t a cert, is_uuid t → is_uuid a → u32 id →
    let decode := vcblockchain_protocol_decode_req_transaction_submit (request_bytes id o (t ++ a ++ cert)) in
    (∃ w w', decode w = (Ok (id, t, a, cert), w')) ∧ ∀ w v w', decode w = (Ok v, w') → v = (id, t, a, cert);
  layout_status : ∀ id o, u32 id → vcblockchain_protocol_decode_req_status_get (request_bytes id o []) = Ok id;
  layout_error_resp : ∀ id o s w p w', vcblockchain_protocol_encode_error_resp id o s w = (Ok p, w') →
    p = response_bytes id s o [];
  layout_latest_resp : ∀ o s b w p w', vcblockchain_protocol_encode_resp_latest_block_id_get o s b w = (Ok p, w') →
    p = response_bytes UNAUTH_PROTOCOL_REQ_ID_LATEST_BLOCK_ID_GET s o b;
  layout_height_resp : ∀ o s b w p w', vcblockchain_protocol_encode_resp_block_id_by_height_get o s b w = (Ok p, w') →
    p = response_bytes UNAUTH_PROTOCOL_REQ_ID_BLOCK_ID_BY_HEIGHT_GET s o b;
  layout_block_next_resp : ∀ o s b w p w', vcblockchain_protocol_encode_resp_block_next_id_get o s b w = (Ok p, w') →
    p = response_bytes UNAUTH_PROTOCOL_REQ_ID_BLOCK_ID_GET_NEXT s o b;
  layout_block_prev_resp : ∀ o s b w p w', vcblockchain_protocol_encode_resp_block_prev_id_get o s b w = (Ok p, w') →
    p = response_bytes UNAUTH_PROTOCOL_REQ_ID_BLOCK_ID_GET_PREV s o b;
  layout_txn_next_resp : ∀ o s b w p w', vcblockchain_protocol_encode_resp_txn_next_id_get o s b w = (Ok p, w') →
    p = response_bytes UNAUTH_PROTOCOL_REQ_ID_TRANSACTION_ID_GET_NEXT s o b;
  layout_txn_prev_resp : ∀ o s b w p w', vcblockchain_protocol_encode_resp_txn_prev_id_get o s b w = (Ok p, w') →
    p = response_bytes UNAUTH_PROTOCOL_REQ_ID_TRANSACTION_ID_GET_PREV s o b;
  layout_txn_block_resp : ∀ o s b w p w', vcblockchain_protocol_encode_resp_txn_block_id_get o s b w = (Ok p, w') →
    p = response_bytes UNAUTH_PROTOCOL_REQ_ID_TRANSACTION_ID_GET_BLOCK_ID s o b;
  layout_artifact_first_resp : ∀ o s b w p w',
    vcblockchain_protocol_encode_resp_artifact_first_txn_id_get o s b w = (Ok p, w') →
    p = response_bytes UNAUTH_PROTOCOL_REQ_ID_ARTIFACT_FIRST_TXN_BY_ID_GET s o b;
  layout_artifact_last_resp : ∀ o s b w p w',
    vcblockchain_protocol_encode_resp_artifact_last_txn_id_get o s b w = (Ok p, w') →
    p = response_bytes UNAUTH_PROTOCOL_REQ_ID_ARTIFACT_LAST_TXN_BY_ID_GET s o b;
  layout_submit_resp : ∀ o s w p w', vcblockchain_protocol_encode_resp_transaction_submit o s w = (Ok p, w') →
    p = response_bytes UNAUTH_PROTOCOL_REQ_ID_TRANSACTION_SUBMIT s o [];
  layout_block_resp : ∀ o s k pr nx f h size cert w p w',
    vcblockchain_protocol_encode_resp_block_get o s k pr nx f h size cert w = (Ok p, w') →
    p = response_bytes UNAUTH_PROTOCOL_REQ_ID_BLOCK_BY_ID_GET s o
          (k ++ pr ++ nx ++ f ++ net64 h ++ net64 size ++ cert);
  layout_txn_resp : ∀ o s k pr nx a b size cert state w p w',
    vcblockchain_protocol_encode_resp_txn_get o s k pr nx a b size cert state w = (Ok p, w') →
    p = response_bytes UNAUTH_PROTOCOL_REQ_ID_TRANSACTION_BY_ID_GET s o
          (k ++ pr ++ nx ++ a ++ b ++ net64 size ++ net32 state ++ cert);
}.

Create Rewrite HintDb layout.
#[export] Hint Rewrite @layout_block_get @layout_block_next @layout_block_prev @layout_height @layout_txn_get
  @layout_txn_next @layout_txn_prev @layout_txn_block @layout_artifact_first @layout_artifact_last @layout_status
  using done : layout.

(** ** What a call tells its caller *)

Inductive received : Type :=
  | rv_nothing
  | rv_id (id : bytes)
  | rv_block (node cert : bytes)
  | rv_transaction (node cert : bytes).

(** An identifier, which may be missing. *)
Definition told_id (status : Z) (id sentinel : bytes) : Z * received :=
  if negb (status =? 0) then (status, rv_nothing)
  else if bool_decide (id = sentinel) then (AGENTD_ERROR_DATASERVICE_NOT_FOUND, rv_nothing)
  else (0, rv_id id).
Definition told_if (status : Z) (r : received) : Z * received :=
  (status, if status =? 0 then r else rv_nothing).

(** When the data service responded [resp], and this is a response to the call: the
    status and the result. *)
Definition told (c : client_call) (resp : bytes) : option (Z * received) :=
  let block k := match dataservice_decode_response_block_get resp with
    | Ok (hdr, node, cert) => Some (k (rh_status hdr) node cert) | Err _ => None end in
  let transaction k := match dataservice_decode_response_canonized_transaction_get resp with
    | Ok (hdr, node, cert) => Some (k (rh_status hdr) node cert) | Err _ => None end in
  let id r := match r with Ok (hdr, id) => Some (told_if (rh_status hdr) (rv_id id)) | Err _ => None end in
  match c with
  | call_latest_block_id_get => id (dataservice_decode_response_latest_block_id_get resp)
  | call_block_id_by_height_get _ => id (dataservice_decode_response_block_id_by_height_get resp)
  | call_block_get _ => block (λ s node cert, told_if s (rv_block node cert))
  | call_block_next_id_get _ => block (λ s node _, told_id s (block_node_next node) ff_uuid)
  | call_block_prev_id_get _ => block (λ s node _, told_id s (block_node_prev node) zero_uuid)
  | call_transaction_get _ => transaction (λ s node cert, told_if s (rv_transaction node cert))
  | call_transaction_next_id_get _ => transaction (λ s node _, told_id s (txn_node_next node) ff_uuid)
  | call_transaction_prev_id_get _ => transaction (λ s node _, told_id s (txn_node_prev node) zero_uuid)
  | call_transaction_block_id_get _ => transaction (λ s node _, told_if s (rv_id (txn_node_block_id node)))
  | call_artifact_first_txn_id_get _ | call_artifact_last_txn_id_get _ =>
      match dataservice_decode_response_artifact_get resp with
      | Ok (hdr, record) => Some (told_if (rh_status hdr) (rv_id
          match c with call_artifact_last_txn_id_get _ => artifact_txn_latest record | _ => artifact_txn_first record end))
      | Err _ => None
      end
  | call_transaction_submit _ _ _ =>
      match dataservice_decode_response_transaction_submit resp with
      | Ok hdr => Some (rh_status hdr, rv_nothing) | Err _ => None end
  | call_status_get | call_close => None
  end.

Section calls.
Context {W : Type} {M : MALLOC W} {IO : POSIX_IO W} {VB : VCCRYPT_BUFFER W} {VS : VCCRYPT_SUITE W}.

Definition send_call (c : client_call) (client_iv : Z) (secret : bytes) : Eff W Z :=
  match c with
  | call_latest_block_id_get => protocolservice_api_sendreq_latest_block_id_get_block client_iv secret
  | call_block_get id => protocolservice_api_sendreq_block_get client_iv secret id
  | call_block_next_id_get id => protocolservice_api_sendreq_block_next_id_get client_iv secret id
  | call_block_prev_id_get id => protocolservice_api_sendreq_block_prev_id_get client_iv secret id
  | call_block_id_by_height_get h => protocolservice_api_sendreq_block_id_by_height_get_block client_iv secret h
  | call_transaction_get id => protocolservice_api_sendreq_transaction_get client_iv secret id
  | call_transaction_next_id_get id => protocolservice_api_sendreq_transaction_next_id_get client_iv secret id
  | call_transaction_prev_id_get id => protocolservice_api_sendreq_transaction_prev_id_get client_iv secret id
  | call_transaction_block_id_get id => protocolservice_api_sendreq_transaction_block_id_get client_iv secret id
  | call_artifact_first_txn_id_get id => protocolservice_api_sendreq_artifact_first_txn_id_get client_iv secret id
  | call_artifact_last_txn_id_get id => protocolservice_api_sendreq_artifact_last_txn_id_get client_iv secret id
  | call_transaction_submit t a cert => protocolservice_api_sendreq_transaction_submit client_iv secret t a cert
  | call_status_get => protocolservice_api_sendreq_status_get client_iv secret
  | call_close => protocolservice_api_sendreq_close client_iv secret
  end.

Definition as_received {A} (f : A → received) (m : Act W (recvd A)) : Act W (Z * result (Z * Z * received)) :=
  let! '(iv, r) := m in
  ret (iv, match r with
           | Ok (o, s, Some a) => Ok (o, s, f a)
           | Ok (o, s, None) => Ok (o, s, rv_nothing)
           | Err e => Err e
           end).
Definition as_status (m : Act W (Z * result (Z * Z))) : Act W (Z * result (Z * Z * received)) :=
  let! '(iv, r) := m in ret (iv, match r with Ok (o, s) => Ok (o, s, rv_nothing) | Err e => Err e end).

(** The vector of the next packet, the offset, the status and the result; structures of
    the caller are cleared. *)
Definition receive_call (c : client_call) (server_iv : Z) (secret : bytes)
  : Act W (Z * result (Z * Z * received)) :=
  match c with
  | call_latest_block_id_get =>
      as_received rv_id (protocolservice_api_recvresp_latest_block_id_get_block server_iv secret)
  | call_block_id_by_height_get _ =>
      as_received rv_id (protocolservice_api_recvresp_block_id_by_height_get_block server_iv secret)
  | call_block_get _ => as_received (λ '(node, cert), rv_block node cert)
      (protocolservice_api_recvresp_block_get server_iv secret (memset Byte.x00 sizeof_block_node))
  | call_block_next_id_get _ => as_received rv_id (protocolservice_api_recvresp_block_next_id_get server_iv secret)
  | call_block_prev_id_get _ => as_received rv_id (protocolservice_api_recvresp_block_prev_id_get server_iv secret)
  | call_transaction_get _ => as_received (λ '(node, cert), rv_transaction node cert)
      (protocolservice_api_recvresp_transaction_get server_iv secret (memset Byte.x00 sizeof_txn_node))
  | call_transaction_next_id_get _ =>
      as_received rv_id (protocolservice_api_recvresp_transaction_next_id_get server_iv secret)
  | call_transaction_prev_id_get _ =>
      as_received rv_id (protocolservice_api_recvresp_transaction_prev_id_get server_iv secret)
  | call_transaction_block_id_get _ =>
      as_received rv_id (protocolservice_api_recvresp_transaction_block_id_get server_iv secret)
  | call_artifact_first_txn_id_get _ =>
      as_received rv_id (protocolservice_api_recvresp_artifact_first_txn_id_get server_iv secret)
  | call_artifact_last_txn_id_get _ =>
      as_received rv_id (protocolservice_api_recvresp_artifact_last_txn_id_get server_iv secret)
  | call_transaction_submit _ _ _ => as_status (protocolservice_api_recvresp_transaction_submit server_iv secret)
  | call_status_get => as_status (protocolservice_api_recvresp_status_get server_iv secret)
  | call_close => as_received (λ _ : unit, rv_nothing)
      (let! '(iv, r) := protocolservice_api_recvresp_close server_iv secret in
       ret (iv, match r with Ok _ => Ok (0, 0, None) | Err e => Err e end))
  end.

(** The calls of a client one after the other, and a service that reads the packets. *)
Fixpoint send_calls (cs : list client_call) (client_iv : Z) (secret : bytes) : Eff W Z :=
  match cs with
  | [] => ok client_iv
  | c :: cs => let* client_iv := send_call c client_iv secret in send_calls cs client_iv secret
  end.

Fixpoint hear_packets `{PA : PSOCK_AUTHED W} (n : nat) (iv : Z) (secret : bytes) : Eff W (list (option bytes)) :=
  match n with
  | O => ok []
  | S n =>
      let! '(retval, packet) := psock_read_authed_data iv secret in
      if negb (retval =? 0) then throw retval else
      let* packets := hear_packets n (wrap64 (iv + 1)) secret in ok (packet :: packets)
  end.
End calls.

(** ** Requests *)

Section requests.
Context {W : Type} {M : MALLOC W} {IO : POSIX_IO W} {IOL : POSIX_IO_laws W}.
Context {PS : PSOCK W} {RA : RCPR_ALLOCATOR W} {VB : VCCRYPT_BUFFER W} {RB : RCPR_RBTREE W}.
Context {RL : RCPR_laws W} {VS : VCCRYPT_SUITE W} {VSL : VCCRYPT_SUITE_laws (λ w : W, (rx w, tx w))}.
Context {PA : PSOCK_AUTHED W} {RE : RANDOM_ENDPOINT W} {KB : KEY_BUFFERS W} {KA : KEY_AGREEMENT W}.
Context {MO : MAC_OPTIONS W} {HL : HANDSHAKE_laws W}.
Context {VP : VCBLOCKCHAIN_PROTOCOL W} {VL : VCBLOCKCHAIN_layout W}.

Abbreviation R := (HANDSHAKE_reliable W).

Lemma call_id_u32 c : u32 (call_id c).
Proof. by destruct c. Qed.

Lemma call_packet_header c :
  ntohl (le_dec (sub 0 4 (call_packet c))) = call_id c ∧ ntohl (le_dec (sub 4 4 (call_packet c))) = 0.
Proof.
  unfold call_packet, request_bytes. rewrite !net32_be. split; [apply read_net32, call_id_u32|].
  rewrite (sub_skip 4 4) by (apply length_be_enc || lia). by apply read_net32.
Qed.

(** The service takes the packet of a call for the request that the call stands for,
    and for no other. *)
Lemma call_packet_asks c q : call_fits c → asks (W := W) (call_packet c) q ↔ call_asks c = Some q.
Proof.
  intros Hc. pose proof (call_id_u32 c) as Hu. destruct (call_packet_header c) as [Hid Ho].
  unfold asks. rewrite Hid, Ho. unfold call_packet, call_asks. destruct q as [id o rq]. simpl.
  destruct c; simpl in *; (split; [intros [Ha ->]; inversion Ha; try done|intros [= <- <- <-]; split_and?; try done]).
  all: try (autorewrite with layout in *; simplify_eq; done).
  all: try (econstructor; autorewrite with layout; done).
  - destruct Hc as (Ht&Hart&_). destruct (layout_submit (W := W) _ 0 _ _ cert Ht Hart Hu) as [_ Hs].
    match goal with H : _ = (Ok _, _) |- _ => apply Hs in H end. by simplify_eq.
  - destruct Hc as (Ht&Hart&Hl). destruct (layout_submit (W := W) _ 0 _ _ cert Ht Hart Hu) as [(w&w'&Hs) _].
    by eapply asks_submit.
Qed.

Lemma call_packet_bounds c : call_fits c → 0 < sizeof (call_packet c) ≤ size_limit.
Proof.
  intros Hc. unfold call_packet, request_bytes, sizeof, size_limit, MAX_TRANSACTION_CERTIFICATE_SIZE in *.
  rewrite !length_app, !length_net32.
  destruct c; simpl in *; rewrite ?length_app, ?length_net64; unfold is_uuid in *; try lia.
  unfold MAX_TRANSACTION_CERTIFICATE_SIZE in Hc. lia.
Qed.

(** The vector after some packets. *)
Fixpoint vector_after (iv : Z) (n : nat) : Z :=
  match n with O => iv | S n => vector_after (wrap64 (iv + 1)) n end.

(** A function of the client library writes the packet of its call. *)
Definition packet_sent (c : client_call) (iv : Z) (s i o : bytes) (r : result Z) (i' o' : bytes) : Prop :=
  match r with
  | Ok iv' => iv' = wrap64 (iv + 1) ∧ i' = i ∧ o' = o ++ authed_packet s (le_enc 8 iv) (call_packet c)
  | Err _ => R → False
  end.

Lemma request_sent_runs c n fields iv s i o :
  concat fields = call_packet c → n = length (call_packet c) →
  runs False i o (sendreq n fields iv s) (packet_sent c iv s i o).
Proof.
  intros Hf ->. unfold sendreq.
  handshake_call; [intros b Hb|intros rc a Hne HR; rewrite (proj2 (Z.eqb_neq _ _)) by done; by apply runs_ret].
  change (negb (0 =? 0)) with false. cbv iota.
  rewrite write_seq_full, Hf by congruence. apply runs_write_authed; [|done]. by apply runs_ret.
Qed.

Lemma send_call_runs c iv s i o : call_fits c → runs False i o (send_call c iv s) (packet_sent c iv s i o).
Proof.
  intros Hc. destruct c; simpl in *; try destruct Hc as (Ht&Ha&_).
  all: apply request_sent_runs; unfold call_packet, request_bytes, is_uuid in *; simpl; rewrite ?app_nil_r.
  all: rewrite ?take_ge by lia; rewrite ?length_app, ?length_net32, ?length_net64; try done; lia.
Qed.

Lemma send_calls_runs cs iv s i o :
  Forall call_fits cs →
  runs False i o (send_calls cs iv s) (λ r i' o', match r with
    | Ok iv' => iv' = vector_after iv (length cs) ∧ i' = i ∧ o' = o ++ authed_packets iv s (call_packet <$> cs)
    | Err _ => R → False
    end).
Proof.
  intros Hcs. revert iv o. induction Hcs as [|c cs Hc _ IH]; intros iv o; simpl.
  { apply runs_ret. by rewrite app_nil_r. }
  eapply runs_bind; [by apply send_call_runs|..]; [|done].
  intros iv' i' o' (->&->&->). rewrite (assoc_L (++)). apply IH.
Qed.

Lemma hear_runs cs iv s i o :
  Forall call_fits cs →
  runs False (authed_packets iv s (call_packet <$> cs) ++ i) o (hear_packets (length cs) iv s) (λ r i' o', o' = o ∧
    match r with Ok ps => ps = Some <$> (call_packet <$> cs) ∧ i' = i | Err _ => R → False end).
Proof.
  intros Hcs. revert iv. induction Hcs as [|c cs Hc _ IH]; intros iv; simpl; [by apply runs_ret|].
  rewrite <- (assoc_L (++)). apply runs_authed_read.
  - intros d i' Hd E. apply packet_inj in E as [<- <-]; [|by apply call_packet_bounds|done].
    change (negb (0 =? 0)) with false. cbv iota. eapply runs_bind; [apply IH|..].
    + intros ps i'' o' [-> [-> ->]]. by apply runs_ret.
    + by intros e i'' o' [-> HR].
  - intros rc i' Hne HR. rewrite (proj2 (Z.eqb_neq _ _)) by done. apply runs_ret. split; [done|].
    intros H. by eapply (HR H _ _ (call_packet_bounds c Hc)).
Qed.
End requests.

(** ** Serving *)

(** The reader of a connection takes a packet, and the dispatcher hands it to the handler
    of its request. *)
Section serving.
Context {W : Type} {M : MALLOC W} {IO : POSIX_IO W} {IOL : POSIX_IO_laws W}.
Context {PS : PSOCK W} {RA : RCPR_ALLOCATOR W} {VB : VCCRYPT_BUFFER W} {RB : RCPR_RBTREE W}.
Context {RL : RCPR_laws W} {RT : RCPR_TREES W} {RF : RCPR_FIBER W} {VS : VCCRYPT_SUITE W}.
Context {VSL : VCCRYPT_SUITE_laws (λ w : W, (rx w, tx w))}.
Context {PA : PSOCK_AUTHED W} {RE : RANDOM_ENDPOINT W} {KB : KEY_BUFFERS W} {KA : KEY_AGREEMENT W}.
Context {MO : MAC_OPTIONS W} {HL : HANDSHAKE_laws W}.
Context {VP : VCBLOCKCHAIN_PROTOCOL W} {VL : VCBLOCKCHAIN_layout W} {PP : PROTOCOL_PLATFORM W}.

Abbreviation program := (prog (service W * W)).

(** The library calls of the reader succeed; decoding fails only for its packet. *)
Record reader_reliable : Prop := {
  reliable_platform : HANDSHAKE_reliable W;
  reliable_memory : ∀ w : W, (memory_reclaim w).1 = 0;
  reliable_decode : ∀ p (w w' w1 w2 : W) e v,
    vcblockchain_protocol_decode_req_transaction_submit p w = (Err e, w') →
    vcblockchain_protocol_decode_req_transaction_submit p w1 ≠ (Ok v, w2);
}.
Context (REL : reader_reliable).

#[local] Instance client_buffer_laws : VCCRYPT_BUFFER_laws W := {| law_buffer_init := law_buffer_size |}.

(** The program goes to waiting for the message to be sent, and returns [v] when it was. *)
Definition sends {A} (to : Z) (m : message) (p : program A) (s : service W) (w : W) (s' : service W) (v : A) : Prop :=
  ∃ k w', run_prog p (s, w) = (Waits (op_message_send to m) k, (s', w')) ∧
    ∀ s1 w1, ∃ w2, run_prog (k 0) (s1, w1) = (Returned v, (s1, w2)).

Lemma run_bind {S A B} (p : prog S A) (f : A → prog S B) s :
  run_prog (pbind p f) s = match run_prog p s with
    | (Returned a, s') => run_prog (f a) s'
    | (Waits o k, s') => (Waits o (λ a, pbind (k a) f), s')
    | (Faulted, s') => (Faulted, s')
    end.
Proof. revert s. induction p as [a| |C m k IH|o k IH]; intros s; simpl; [done..| |done]. by destruct (m s). Qed.

Lemma run_lib {A B} (m : Act W A) (f : A → program B) s w :
  run_prog (pbind (lib m) f) (s, w) = run_prog (f (m w).1) (s, (m w).2).
Proof. simpl. by destruct (m w). Qed.
Lemma run_own {A} j (k : service W → protocol_connection W → program A) s w c :
  sv_connections s !! j = Some c → run_prog (with_connection j k) (s, w) = run_prog (k s c) (s, w).
Proof. intros H. unfold with_connection. simpl. by rewrite H. Qed.

Lemma sends_then {A B} to m (p : program A) (f : A → program B) s w s' a b :
  sends to m p s w s' a → (∀ s1 w1, ∃ w2, run_prog (f a) (s1, w1) = (Returned b, (s1, w2))) →
  sends to m (pbind p f) s w s' b.
Proof.
  intros (k&w'&E&Hk) Hf. exists (λ x, pbind (k x) f), w'. rewrite run_bind, E. split; [done|]. intros s1 w1.
  destruct (Hk s1 w1) as [w2 E2]. destruct (Hf s1 w2) as [w3 E3]. exists w3. by rewrite run_bind, E2.
Qed.
Lemma sends_lib {A B} to m (l : Act W A) (f : A → program B) s w s' b :
  sends to m (f (l w).1) s (l w).2 s' b → sends to m (pbind (lib l) f) s w s' b.
Proof. intros (k&w'&E&Hk). exists k, w'. by rewrite run_lib. Qed.
Lemma sends_own {A} to m j (k : service W → protocol_connection W → program A) s w s' b c :
  sv_connections s !! j = Some c → sends to m (k s c) s w s' b → sends to m (with_connection j k) s w s' b.
Proof. intros H (k'&w'&E&Hk). exists k', w'. by rewrite (run_own _ _ _ _ _ H). Qed.
Lemma sends_update {A} to m f (p : program A) s w s' b :
  sends to m p (f s) w s' b → sends to m (let@ _ := update f in p) s w s' b.
Proof. done. Qed.

(** A call that succeeds. *)
Lemma sends_status {A} to m (l : Act W Z) (f : Z → program A) s w s' b :
  (l w).1 = 0 → sends to m (f 0) s (l w).2 s' b → sends to m (pbind (lib l) f) s w s' b.
Proof. intros E H. apply sends_lib. by rewrite E. Qed.

Lemma send_payload_sends to ret_addr payload s w :
  sends to (Message ret_addr payload) (send_payload to ret_addr payload) s w s 0.
Proof.
  apply sends_status; [apply (reliable_message _ (reliable_platform REL))|].
  eexists _, _. split; [reflexivity|]. intros s1 w1. by exists w1.
Qed.

Lemma allocates n w : (rcpr_allocator_allocate n w).1.1 = 0.
Proof. apply (reliable_allocate _ (reliable_rcpr _ (reliable_platform REL))). Qed.
Lemma buffers n w : ∃ b w', vccrypt_buffer_init n w = ((0, b), w') ∧ length b = n.
Proof.
  pose proof (reliable_buffer_init _ (reliable_rcpr _ (reliable_platform REL)) n w) as H.
  destruct (vccrypt_buffer_init n w) as [[rc b] w'] eqn:E. simpl in H. subst. eexists _, _. split; [done|].
  by eapply law_buffer_size.
Qed.

(** The message that stands for the packet of a call: the request for the data endpoint,
    or the response for the writer of the connection. *)
Definition call_message (s : service W) (cn : protocol_connection W) (c : client_call) : Z * message :=
  match call_asks c with
  | Some q => (de_addr (sv_data s), ask_message (pn_return_addr cn) q)
  | None =>
      (pn_return_addr cn, Message (pn_return_addr cn) (mp_write_endpoint
         (WriteEndpointMessage PROTOCOLSERVICE_PROTOCOL_WRITE_ENDPOINT_PACKET 0 0
            (Some (response_bytes (call_id c) 0 0 [])))))
  end.
Definition after_call (c : client_call) (cn : protocol_connection W) : protocol_connection W :=
  let cn := set_fiber (next_client_iv (pn_fiber cn)) cn in
  match c with call_close => set_req_shutdown cn | _ => cn end.

Lemma error_response_sends j id s w c :
  sv_connections s !! j = Some c → u32 id →
  sends (pn_return_addr c) (Message (pn_return_addr c) (mp_write_endpoint
      (WriteEndpointMessage PROTOCOLSERVICE_PROTOCOL_WRITE_ENDPOINT_PACKET 0 0 (Some (response_bytes id 0 0 [])))))
    (protocolservice_send_error_response_message j id 0 0) s w s 0.
Proof.
  intros Hc Hid. apply (sends_own _ _ _ _ _ _ _ _ _ Hc), sends_lib.
  pose proof (allocates sizeof_write_message w) as Ha. destruct (rcpr_allocator_allocate _ w) as [[rc p] w1].
  simpl in Ha. subst rc. apply sends_lib. destruct (buffers 12 w1) as (b&w2&Hb&Hl). cbn [fst snd].
  assert (splice 0 (response_bytes id 0 0 []) b = response_bytes id 0 0 []) as Hs.
  { apply splice_whole. unfold response_bytes. by rewrite !length_app, !length_net32, Hl. }
  change (length (net32 _ ++ net32 _ ++ net32 _)) with 12%nat. rewrite Hb. cbn [fst snd]. change (negb (0 =? 0)) with false.
  cbv iota. unfold response_bytes in *. rewrite app_nil_r in *.
  change (wrap32 0) with 0. unfold wrap32. rewrite (Z.mod_small id), Hs by done. apply send_payload_sends.
Qed.

Lemma encoded q w : sized q → ∃ w', encode_request (in_context 0 q) w = (Ok (request_packet (in_context 0 q)), w').
Proof.
  intros Hq. destruct (encode_request (in_context 0 q) w) as [[buf|e] w'] eqn:E.
  - apply encode_in_context in E as ->; [by eexists|done].
  - exfalso. destruct q; cbn [in_context encode_request] in E.
    all: unfold dataservice_encode_request_latest_block_id_get, dataservice_encode_request_block_get,
      dataservice_encode_request_block_id_by_height_get, dataservice_encode_request_canonized_transaction_get,
      dataservice_encode_request_artifact_get, dataservice_encode_request_transaction_submit in E.
    all: unfold encode_fields, act in E; match type of E with context [vccrypt_buffer_init ?n ?x] =>
      destruct (buffers n x) as (b&w1&Hb&_); rewrite Hb in E; done end.
Qed.

Lemma encode_and_send_sends j id q checked s w c :
  sv_connections s !! j = Some c → sized q →
  sends (de_addr (sv_data s)) (ask_message (pn_return_addr c) (Asked id 0 q))
    (encode_and_send j id 0 (encode_request (in_context 0 q)) checked) s w s 0.
Proof.
  intros Hc Hq. apply sends_lib. destruct (encoded q w Hq) as [w1 ->]. cbn [fst snd].
  apply (sends_own _ _ _ _ _ _ _ _ _ Hc), sends_lib. unfold protocolservice_dataservice_request_message_create.
  pose proof (allocates sizeof_request_message w1) as Ha. unfold act. destruct (rcpr_allocator_allocate _ w1) as [[rc p] w2].
  simpl in Ha. subst rc. apply send_payload_sends.
Qed.

Lemma decode_and_send_sends {A} j id (a : A) decoded q checked s w c :
  decoded = Ok (id, a) → sv_connections s !! j = Some c → sized (q a) →
  sends (de_addr (sv_data s)) (ask_message (pn_return_addr c) (Asked id 0 (q a)))
    (decode_and_send j 0 decoded (λ a, encode_request (in_context 0 (q a))) checked) s w s 0.
Proof. intros ->. apply encode_and_send_sends. Qed.

Lemma submit_sends j t a cert s w c :
  call_fits (call_transaction_submit t a cert) → sv_connections s !! j = Some c →
  let id := UNAUTH_PROTOCOL_REQ_ID_TRANSACTION_SUBMIT in
  sends (de_addr (sv_data s)) (ask_message (pn_return_addr c) (Asked id 0 (ask_submit t a cert)))
    (protocolservice_protocol_dnd_transaction_submit j 0 (request_bytes id 0 (t ++ a ++ cert))) s w s 0.
Proof.
  intros (Ht&Ha&Hl) Hc id. apply sends_lib.
  destruct (layout_submit (W := W) id 0 t a cert Ht Ha ltac:(done)) as [(w1&w2&Hok) Hval].
  destruct (vcblockchain_protocol_decode_req_transaction_submit _ w) as [[v|e] w'] eqn:E; cbn [fst snd].
  - rewrite (Hval _ _ _ E). rewrite (proj2 (Nat.ltb_ge _ _)) by done.
    by apply (encode_and_send_sends j id (ask_submit t a cert)).
  - by destruct (reliable_decode REL _ _ _ _ _ _ _ E Hok).
Qed.

Lemma status_get_sends j s w c :
  sv_connections s !! j = Some c →
  let id := UNAUTH_PROTOCOL_REQ_ID_STATUS_GET in
  sends (pn_return_addr c) (Message (pn_return_addr c) (mp_write_endpoint
      (WriteEndpointMessage PROTOCOLSERVICE_PROTOCOL_WRITE_ENDPOINT_PACKET 0 0 (Some (response_bytes id 0 0 [])))))
    (protocolservice_protocol_dnd_status_get j 0 (request_bytes id 0 [])) s w s 0.
Proof.
  intros Hc id. unfold protocolservice_protocol_dnd_status_get. rewrite layout_status by done.
  by apply error_response_sends.
Qed.

Lemma close_sends j s w c :
  sv_connections s !! j = Some c →
  sends (pn_return_addr c) (Message (pn_return_addr c) (mp_write_endpoint
      (WriteEndpointMessage PROTOCOLSERVICE_PROTOCOL_WRITE_ENDPOINT_PACKET 0 0
         (Some (response_bytes UNAUTH_PROTOCOL_REQ_ID_CLOSE 0 0 [])))))
    (protocolservice_protocol_dnd_close j 0) s w (set_connection j set_req_shutdown s) 0.
Proof.
  intros Hc. apply sends_update.
  apply (error_response_sends j _ (set_connection j set_req_shutdown s) w (set_req_shutdown c)); [|done].
  simpl. by rewrite list_lookup_alter_eq, Hc.
Qed.

(** The packet of a call is handed to the handler of its request. *)
Lemma call_dispatched c j s w cn :
  call_fits c → sv_connections s !! j = Some cn →
  sends (call_message s cn c).1 (call_message s cn c).2
    (protocolservice_protocol_dispatch j (call_id c) 0 (call_packet c)) s w
    (match c with call_close => set_connection j set_req_shutdown s | _ => s end) 0.
Proof.
  intros Hf Hc. unfold call_message, call_asks, protocolservice_protocol_dispatch, call_packet.
  destruct c; cbn [call_id call_request call_fields call_fits fmap option_fmap option_map fst snd] in *;
    repeat match goal with |- context [?x =? ?y] => let v := eval vm_compute in (x =? y) in
      lazymatch v with true => idtac | false => idtac end; change (x =? y) with v; cbv iota end.
  1: by apply (encode_and_send_sends j _ ask_latest_block_id).
  11: by apply submit_sends.
  11: by apply status_get_sends.
  11: by apply close_sends.
  1: apply (decode_and_send_sends j _ block_id _ (λ b, ask_block b true)).
  4-5: apply (decode_and_send_sends j _ block_id _ (λ b, ask_block b false)).
  10: apply (decode_and_send_sends j _ height _ ask_block_id_by_height).
  13: apply (decode_and_send_sends j _ txn_id _ (λ b, ask_transaction b true)).
  16-18: apply (decode_and_send_sends j _ txn_id _ (λ b, ask_transaction b false)).
  25-26: apply (decode_and_send_sends j _ artifact_id _ ask_artifact).
  all: try done; by autorewrite with layout.
Qed.

(** One round of the loop of the reader: it reads with the vector and the secret of the
    connection, whatever the others do meanwhile, and sends the message of the call. *)
Lemma call_served c j s w cn :
  call_fits c → sv_connections s !! j = Some cn → sv_quiesce s || pn_shutdown cn || pn_req_shutdown cn = false →
  ∃ k, run_prog (protocolservice_protocol_fiber_loop j) (s, w) =
      (Waits (op_client_read j (pf_client_iv (pn_fiber cn)) (pf_shared_secret (pn_fiber cn))) k, (s, w)) ∧
    ∀ s1 w1 cn1, sv_connections s1 !! j = Some cn1 →
      sends (call_message s1 cn1 c).1 (call_message s1 cn1 c).2 (k (0, Some (call_packet c))) s1 w1
        (set_connection j (after_call c) s1) again.
Proof.
  intros Hf Hc Hgo. eexists. split.
  { unfold protocolservice_protocol_fiber_loop. rewrite (run_own _ _ _ _ _ Hc), Hgo.
    unfold protocolservice_protocol_read_decode_and_dispatch_packet. rewrite run_bind, (run_own _ _ _ _ _ Hc). reflexivity. }
  intros s1 w1 cn1 Hc1. cbv beta. apply (sends_then _ _ _ _ _ _ _ 0); [|by intros s2 w2; exists w2].
  cbn [pbind]. apply (sends_then _ _ _ _ _ _ _ 0).
  2: { intros s2 w2. exists (memory_reclaim w2).2. by rewrite run_lib, (reliable_memory REL). }
  change (negb (0 =? 0)) with false. cbv iota. destruct (call_packet_header c) as [-> ->].
  rewrite (proj2 (Nat.ltb_ge _ _)) by (unfold call_packet, request_bytes; rewrite !length_app, !length_net32; lia).
  apply sends_update, (sends_then _ _ _ _ _ _ _ 0); [|by intros s2 w2; exists w2].
  set (next := λ c, set_fiber (next_client_iv (pn_fiber c)) c).
  assert (sv_connections (set_connection j next s1) !! j = Some (next cn1)) as Hc2
    by (simpl; by rewrite list_lookup_alter_eq, Hc1).
  pose proof (call_dispatched c j _ w1 _ Hf Hc2) as H. destruct c; try exact H.
  assert (set_connection j set_req_shutdown (set_connection j next s1) = set_connection j (after_call call_close) s1) as <-; [|done].
  unfold set_connection, set_connections. simpl. f_equal. generalize (sv_connections s1). clear. intros l. revert j.
  induction l as [|x l IH]; intros [|j]; [done..|]. apply (f_equal (cons x)), IH.
Qed.
End serving.

Section client.
Context {W : Type} {M : MALLOC W} {IO : POSIX_IO W} {IOL : POSIX_IO_laws W}.
Context {PS : PSOCK W} {RA : RCPR_ALLOCATOR W} {VB : VCCRYPT_BUFFER W} {RB : RCPR_RBTREE W}.
Context {RL : RCPR_laws W} {RT : RCPR_TREES W} {RF : RCPR_FIBER W} {VS : VCCRYPT_SUITE W}.
Context {VSL : VCCRYPT_SUITE_laws (λ w : W, (rx w, tx w))}.
Context {PA : PSOCK_AUTHED W} {RE : RANDOM_ENDPOINT W} {KB : KEY_BUFFERS W} {KA : KEY_AGREEMENT W}.
Context {MO : MAC_OPTIONS W} {HL : HANDSHAKE_laws W}.
Context {VP : VCBLOCKCHAIN_PROTOCOL W} {VL : VCBLOCKCHAIN_layout W} {PP : PROTOCOL_PLATFORM W}.

(** C14: What a client asks, the service does.  For a sequence of calls whose arguments fit
    ([call_fits]: identifiers of 16 bytes, a height of 64 bits, a certificate of at most
    32767 bytes):
    - the functions of the client library, each with the vector that the one before
      returned, write a sequence of authenticated packets under the vectors of the session;
    - the psock that reads this sequence gets exactly the packets of the calls, in order,
      and leaves what follows;
    - the loop of the reader of a connection, while neither the service nor the connection
      is shut down, waits for a packet under the vector and the secret of the
      connection; given the packet of a call, whatever other fibers did meanwhile, the
      dispatcher and the handler of its request send one message: to the data endpoint,
      with the request that the call stands for, or to the writer of the connection, with
      the response, for the calls that ask nothing of the data service.  The vector is
      advanced, a close marks the connection, and nothing else is changed; when the message
      was sent the loop goes on;
    - this request is the one, and the only one, that [asks] has for the packet.
    Only a failure of the library prevents the first two; the third is for a library
    whose calls succeed ([reader_reliable]). *)
Theorem client_requests_arrive cs iv secret :
  Forall call_fits cs →
  (∀ i o, runs False i o (send_calls cs iv secret) (λ r i' o', match r with
     | Ok iv' => iv' = vector_after iv (length cs) ∧ i' = i ∧ o' = o ++ authed_packets iv secret (call_packet <$> cs)
     | Err _ => HANDSHAKE_reliable W → False
     end)) ∧
  (∀ i o, runs False (authed_packets iv secret (call_packet <$> cs) ++ i) o (hear_packets (length cs) iv secret)
     (λ r i' o', o' = o ∧ match r with
        | Ok heard => heard = Some <$> (call_packet <$> cs) ∧ i' = i
        | Err _ => HANDSHAKE_reliable W → False
        end)) ∧
  (reader_reliable (W := W) → ∀ c j (s : service W) w cn,
     c ∈ cs → sv_connections s !! j = Some cn → sv_quiesce s || pn_shutdown cn || pn_req_shutdown cn = false →
     ∃ k, run_prog (protocolservice_protocol_fiber_loop j) (s, w) =
         (Waits (op_client_read j (pf_client_iv (pn_fiber cn)) (pf_shared_secret (pn_fiber cn))) k, (s, w)) ∧
       ∀ s1 w1 cn1, sv_connections s1 !! j = Some cn1 →
         sends (call_message s1 cn1 c).1 (call_message s1 cn1 c).2 (k (0, Some (call_packet c))) s1 w1
           (set_connection j (after_call c) s1) again) ∧
  ∀ c, c ∈ cs → ∀ q, asks (W := W) (call_packet c) q ↔ call_asks c = Some q.
Proof.
  intros Hcs. split_and!; intros.
  - by apply send_calls_runs.
  - by apply hear_runs.
  - apply call_served; [done| |done..]. by eapply Forall_forall in Hcs.
  - apply call_packet_asks. by eapply Forall_forall in Hcs.
Qed.
End client.


(** ** Responses *)

(** What the decoders of the data service give. *)
Section decoders.
Implicit Types hdr : dataservice_response_header.

Lemma decoded_header ok m resp hdr :
  decode_response_header ok m resp = Ok hdr → ntohl (le_dec (sub 0 4 resp)) = m ∧ u32 (rh_status hdr).
Proof.
  unfold decode_response_header, check. destruct ok; simpl; [|done].
  destruct (Z.eqb_spec m (ntohl (le_dec (sub 0 4 resp)))) as [->|]; simpl; [|done].
  intros [= <-]. split; [done|apply ntohl_u32].
Qed.

Lemma result_bind_ok {A B} (r : result A) (k : A → result B) b :
  result_bind r k = Ok b → ∃ a, r = Ok a ∧ k a = Ok b.
Proof. destruct r; simpl; [eauto|done]. Qed.
Lemma check_then {B} c e (k : unit → result B) b : result_bind (check c e) k = Ok b → c = true ∧ k () = Ok b.
Proof. destruct c; simpl; [done|done]. Qed.

Lemma decoded_id m resp hdr id :
  decode_response_block_id m resp = Ok (hdr, id) →
  ntohl (le_dec (sub 0 4 resp)) = m ∧ u32 (rh_status hdr) ∧ is_uuid id.
Proof.
  unfold decode_response_block_id. intros (h&Hh&H)%result_bind_ok. apply decoded_header in Hh as [Hm Hu].
  destruct (negb _); [injection H as <- <-; split_and!; [done..|apply length_memset]|].
  apply check_then in H as [Hl [= <- <-]]. split_and!; [done..|].
  apply negb_true_iff, Nat.ltb_ge in Hl. unfold is_uuid, response_packet_size in *. apply length_sub. lia.
Qed.

Lemma is_uuid_sub off b : (off + 16 ≤ length b)%nat → is_uuid (sub off 16 b).
Proof. intros. by apply length_sub. Qed.
Lemma block_node_uuid n off : wf_block_node n → (off + 16 ≤ 80)%nat → is_uuid (sub off 16 (enc_block_node n)).
Proof. intros Hn Ho. apply is_uuid_sub. by rewrite length_enc_block_node. Qed.
Lemma txn_node_uuid n off : wf_txn_node n → (off + 16 ≤ 96)%nat → is_uuid (sub off 16 (enc_txn_node n)).
Proof. intros Hn Ho. apply is_uuid_sub. by rewrite length_enc_txn_node. Qed.
Lemma dat_size_u64 resp n : u64 (dat_size resp n).
Proof.
  unfold dat_size, wrap32. set (z := _ - _). pose proof (Z.mod_pos_bound z (2 ^ 32)). unfold u64.
  assert (2 ^ 32 < 2 ^ 64) by done. lia.
Qed.
Lemma field_htonll off b : (off + 8 ≤ length b)%nat → ∃ x, u64 x ∧ le_dec (sub off 8 b) = htonll x.
Proof.
  intros Hl. exists (ntohll (le_dec (sub off 8 b))). split; [apply ntohll_u64|]. apply net_field64; [by apply length_sub|done].
Qed.
Lemma field_htonl off b : (off + 4 ≤ length b)%nat → ∃ x, u32 x ∧ le_dec (sub off 4 b) = htonl x.
Proof.
  intros Hl. exists (ntohl (le_dec (sub off 4 b))). split; [apply ntohl_u32|]. apply net_field32; [by apply length_sub|done].
Qed.

Lemma decoded_block resp hdr node cert :
  dataservice_decode_response_block_get resp = Ok (hdr, node, cert) →
  ntohl (le_dec (sub 0 4 resp)) = DATASERVICE_API_METHOD_APP_BLOCK_READ ∧ u32 (rh_status hdr) ∧
  ∃ n, wf_block_node n ∧ node = enc_block_node n.
Proof.
  unfold dataservice_decode_response_block_get. intros (h&Hh&H)%result_bind_ok.
  apply decoded_header in Hh as [Hm Hu]. destruct (negb _).
  { injection H as <- <- <-. split_and!; [done..|]. eexists; split; [apply wf_zero_block_node|].
    rewrite <- (app_nil_r (memset _ _)), block_node_zero. apply app_nil_r. }
  apply check_then in H as [Hl [= <- <- <-]]. split_and!; [done..|].
  apply negb_true_iff, Nat.ltb_ge in Hl. unfold response_packet_size in *.
  assert (72 ≤ length (drop (4 + 4 + 4) resp))%nat by (rewrite length_drop; lia).
  destruct (field_htonll 64 (drop (4 + 4 + 4) resp)) as (x&Hx&->); [lia|].
  rewrite rebuild_block; try (apply is_uuid_sub; lia); [|done|apply dat_size_u64].
  eexists; split; [|done]. split; try (apply is_uuid_sub; lia); [done|apply dat_size_u64].
Qed.

Lemma decoded_transaction resp hdr node cert :
  dataservice_decode_response_canonized_transaction_get resp = Ok (hdr, node, cert) →
  ntohl (le_dec (sub 0 4 resp)) = DATASERVICE_API_METHOD_APP_TRANSACTION_READ ∧ u32 (rh_status hdr) ∧
  ∃ n, wf_txn_node n ∧ node = enc_txn_node n.
Proof.
  unfold dataservice_decode_response_canonized_transaction_get. intros (h&Hh&H)%result_bind_ok.
  apply decoded_header in Hh as [Hm Hu]. destruct (negb _).
  { injection H as <- <- <-. split_and!; [done..|]. eexists; split; [apply wf_zero_txn_node|].
    rewrite <- (app_nil_r (memset _ _)), txn_node_zero. apply app_nil_r. }
  apply check_then in H as [Hl [= <- <- <-]]. split_and!; [done..|].
  apply negb_true_iff, Nat.ltb_ge in Hl. unfold response_packet_size in *.
  assert (84 ≤ length (drop (4 + 4 + 4) resp))%nat by (rewrite length_drop; lia).
  destruct (field_htonl 80 (drop (4 + 4 + 4) resp)) as (x&Hx&->); [lia|].
  rewrite rebuild_txn; try (apply is_uuid_sub; lia); [|done|apply dat_size_u64].
  eexists; split; [|done]. split; try (apply is_uuid_sub; lia); [apply dat_size_u64|done].
Qed.

(** The record is cleared, or its fields were read. *)
Lemma decoded_artifact resp hdr record :
  dataservice_decode_response_artifact_get resp = Ok (hdr, record) →
  ntohl (le_dec (sub 0 4 resp)) = DATASERVICE_API_METHOD_APP_ARTIFACT_READ ∧ u32 (rh_status hdr) ∧
  length record = sizeof_artifact.
Proof.
  unfold dataservice_decode_response_artifact_get. intros (h&Hh&H)%result_bind_ok.
  apply decoded_header in Hh as [Hm Hu]. destruct (negb _).
  { injection H as <- <-. split_and!; [done..|apply length_memset]. }
  apply check_then in H as [Hl [= <- <-]]. split_and!; [done..|].
  assert (68 ≤ length (drop response_packet_size resp))%nat as Hb.
  { apply Z.eqb_eq in Hl. unfold dat_size, wrap32, sizeof, response_packet_size in *. rewrite length_drop.
    Z.to_euclidean_division_equations. lia. }
  unfold set_artifact_net_state_latest, set_artifact_net_height_latest, set_artifact_net_height_first,
    set_artifact_txn_latest, set_artifact_txn_first, set_artifact_key.
  assert (∀ off n v b, length v = n → (off + n ≤ 72)%nat → length b = 72%nat → length (splice off v b) = 72%nat) as Hs.
  { intros off n v b <- Hn Hlb. by rewrite length_splice by lia. }
  change sizeof_artifact with 72%nat.
  eapply (Hs _ 4%nat), (Hs _ 8%nat), (Hs _ 8%nat), (Hs _ 16%nat), (Hs _ 16%nat), (Hs _ 16%nat), length_memset;
    first [apply length_le_enc|apply length_sub; lia|lia].
Qed.
End decoders.

(** The result that a call may have, and its bytes after the offset of a response. *)
Definition result_fits (c : client_call) (r : received) : Prop :=
  match c, r with
  | call_block_get _, rv_block node _ => ∃ n, wf_block_node n ∧ node = enc_block_node n
  | call_transaction_get _, rv_transaction node _ => ∃ n, wf_txn_node n ∧ node = enc_txn_node n
  | (call_transaction_submit _ _ _ | call_status_get | call_close), rv_nothing => True
  | (call_block_get _ | call_transaction_get _ | call_transaction_submit _ _ _ | call_status_get | call_close), _ => False
  | _, rv_id id => is_uuid id
  | _, _ => False
  end.

Definition result_fields (r : received) : bytes :=
  match r with
  | rv_nothing => []
  | rv_id id => id
  | rv_block node cert =>
      block_node_key node ++ block_node_prev node ++ block_node_next node ++ block_node_first_transaction_id node ++
      net64 (ntohll (block_node_net_block_height node)) ++ net64 (ntohll (block_node_net_block_cert_size node)) ++ cert
  | rv_transaction node cert =>
      txn_node_key node ++ txn_node_prev node ++ txn_node_next node ++ txn_node_artifact_id node ++
      txn_node_block_id node ++ net64 (ntohll (txn_node_net_txn_cert_size node)) ++
      net32 (ntohl (txn_node_net_txn_state node)) ++ cert
  end.

(** The packet is a response to the call with this status and result. *)
Definition responds (c : client_call) (packet : bytes) (status : Z) (r : received) : Prop :=
  ∃ fields, packet = response_bytes (call_id c) status 0 fields ∧ u32 status ∧
    if status =? 0 then fields = result_fields r ∧ result_fits c r
    else r = rv_nothing ∧ ∀ t a cert, c = call_transaction_submit t a cert → fields = [].

Section responses.
Context {W : Type} {VP : VCBLOCKCHAIN_PROTOCOL W} {VL : VCBLOCKCHAIN_layout W}.
Context {M : MALLOC W} {VB : VCCRYPT_BUFFER W} {VS : VCCRYPT_SUITE W} {V : Type} {view : W → V}.
Context {VSL : VCCRYPT_SUITE_laws view}.

Lemma responds_if c id s r fields :
  id = call_id c → u32 s → (s = 0 → fields = result_fields r ∧ result_fits c r) →
  (∀ t a cert, c = call_transaction_submit t a cert → fields = []) →
  responds c (response_bytes id s 0 fields) (told_if s r).1 (told_if s r).2.
Proof.
  intros -> Hs Hr Hc. exists fields. split; [done|]. split; [done|]. simpl.
  destruct (Z.eqb_spec s 0) as [->|]; [by apply Hr|done].
Qed.

Lemma responds_failed c id s fields :
  id = call_id c → u32 s → s ≠ 0 → (∀ t a cert, c = call_transaction_submit t a cert → fields = []) →
  responds c (response_bytes id s 0 fields) s rv_nothing.
Proof. intros -> Hs Hne Hc. exists fields. split_and!; try done. by rewrite (proj2 (Z.eqb_neq _ _)). Qed.

Lemma told_if_failed s r : s ≠ 0 → told_if s r = (s, rv_nothing).
Proof. intros H. unfold told_if. by rewrite (proj2 (Z.eqb_neq _ _)). Qed.
Lemma told_id_failed s id sentinel : s ≠ 0 → told_id s id sentinel = (s, rv_nothing).
Proof. intros H. unfold told_id. by rewrite (proj2 (Z.eqb_neq _ _)). Qed.

(** A sentinel stands for no identifier. *)
Lemma sentinel_packet c id' id sentinel p encode packet w w' :
  is_uuid id → is_uuid sentinel → wm_original_request_id p = id' → id' = call_id c → wm_offset p = 0 →
  (∀ packet w w', encode 0 0 id w = (Ok packet, w') → packet = response_bytes id' 0 0 id) →
  result_fits c (rv_id id) → (∀ t a cert, c ≠ call_transaction_submit t a cert) →
  id_packet p id sentinel encode 0 w = (Ok packet, w') →
  responds c packet (told_id 0 id sentinel).1 (told_id 0 id sentinel).2.
Proof.
  intros Hi Hs Hp Hc Ho He Hf Hnt H. unfold id_packet in H. rewrite Ho in H. unfold told_id. simpl.
  pose proof (law_memcmp (view := view) id sentinel) as Hcmp. rewrite Hi, Hs in Hcmp. specialize (Hcmp eq_refl).
  case_bool_decide as Heq.
  - rewrite (proj2 Hcmp Heq) in H. simpl in H. apply layout_error_resp in H as ->. rewrite Hp, Ho.
    by apply responds_failed.
  - destruct (Z.eqb_spec (crypto_memcmp id sentinel) 0) as [E|_]; [by apply Hcmp in E|].
    apply He in H as ->. exists id. by rewrite Hc.
Qed.

Ltac closed_tests H :=
  repeat match type of H with context [?x =? ?y] =>
    let v := eval vm_compute in (x =? y) in
    lazymatch v with true => idtac | false => idtac end; change (x =? y) with v in H; cbv iota in H
  end.

(** The handler by the method of the response. *)
Ltac handled H Hm Hd :=
  cbv zeta in H; rewrite Hm in H; closed_tests H; rewrite ?Hd in H; cbn [decoded wm_original_request_id wm_offset] in H; closed_tests H.

Ltac tells H status r :=
  match type of H with Some ?t = _ => assert (status = t.1 ∧ r = t.2) as [-> ->] by (by injection H as ->); clear H end.

(** The service answers a call with a packet that tells what the data service
    responded. *)
Lemma answer_responds c q resp packet status r :
  call_asks c = Some q → answers (W := W) q resp packet → told c resp = Some (status, r) →
  responds c packet status r.
Proof.
  intros Hq (w&w'&Ha) Ht. assert (as_id q = call_id c ∧ as_offset q = 0) as [Hid Ho].
  { unfold call_asks in Hq. destruct (call_request c); [|done]. by injection Hq as <-. }
  rewrite Hid, Ho in Ha. clear Hid Ho Hq.
  unfold protocolservice_pwe_dnd_dataservice_message, protocolservice_pwe_dnd_dataservice_block_id_latest_get,
    protocolservice_pwe_dnd_dataservice_block_id_by_height_get, protocolservice_pwe_dnd_dataservice_block_get,
    protocolservice_pwe_dnd_dataservice_transaction_get, protocolservice_pwe_dnd_dataservice_artifact_get,
    protocolservice_pwe_dnd_dataservice_transaction_submit, protocolservice_pwe_dnd_encode_protocol_block_get,
    protocolservice_pwe_dnd_encode_protocol_transaction_get, error_packet in Ha.
  destruct c; cbn [told call_id] in Ht, Ha; try done.
  all: match type of Ht with match ?x with _ => _ end = _ => destruct x as [hdr|] eqn:Hd; [|done] end.
  (* The calls for an identifier. *)
  1,5: destruct hdr as [hdr id]; destruct (decoded_id _ _ _ _ Hd) as (Hm&Hu&Hid); tells Ht status r; handled Ha Hm Hd.
  1: apply layout_latest_resp in Ha as ->; by apply responds_if.
  1: apply layout_height_resp in Ha as ->; by apply responds_if.
  (* The calls for a block. *)
  1-3: destruct hdr as [[hdr node] cert]; destruct (decoded_block _ _ _ _ Hd) as (Hm&Hu&n&Hn&->);
    tells Ht status r; handled Ha Hm Hd; destruct (Z.eqb_spec (rh_status hdr) 0) as [E|E]; cbv iota beta delta [negb] in Ha.
  2,4,6: apply layout_error_resp in Ha as ->; rewrite ?told_if_failed, ?told_id_failed by done; by apply responds_failed.
  1: apply layout_block_resp in Ha as ->; apply responds_if; [done..|split; [done|by exists n]|done].
  1-2: rewrite E in *; eapply sentinel_packet; [..|exact Ha]; try done; try (apply block_node_uuid; [done|lia]).
  1: by intros; eapply layout_block_next_resp.
  1: by intros; eapply layout_block_prev_resp.
  (* The calls for a transaction. *)
  1-4: destruct hdr as [[hdr node] data]; destruct (decoded_transaction _ _ _ _ Hd) as (Hm&Hu&n&Hn&->);
    tells Ht status r; handled Ha Hm Hd; destruct (Z.eqb_spec (rh_status hdr) 0) as [E|E];
    cbv iota beta delta [negb] in Ha.
  2,4,6,8: apply layout_error_resp in Ha as ->; rewrite ?told_if_failed, ?told_id_failed by done; by apply responds_failed.
  1: apply layout_txn_resp in Ha as ->; apply responds_if; [done..|split; [done|by exists n]|done].
  1-2: rewrite E in *; eapply sentinel_packet; [..|exact Ha]; try done; try (apply txn_node_uuid; [done|lia]).
  1: by intros; eapply layout_txn_next_resp.
  1: by intros; eapply layout_txn_prev_resp.
  1: apply layout_txn_block_resp in Ha as ->; apply responds_if; [done..|split; [done|apply txn_node_uuid; [done|lia]]|done].
  (* The calls for an artifact. *)
  1-2: destruct hdr as [hdr record]; destruct (decoded_artifact _ _ _ Hd) as (Hm&Hu&Hl);
    tells Ht status r; handled Ha Hm Hd; destruct (Z.eqb_spec (rh_status hdr) 0) as [E|E];
    cbv iota beta delta [negb] in Ha.
  2,4: apply layout_error_resp in Ha as ->; rewrite told_if_failed by done; by apply responds_failed.
  1: apply layout_artifact_first_resp in Ha as ->.
  2: apply layout_artifact_last_resp in Ha as ->.
  1-2: apply responds_if; [done..|split; [done|by apply is_uuid_sub; rewrite Hl; apply Nat.leb_le]|done].
  destruct (decoded_header _ _ _ _ Hd) as [Hm Hu]. tells Ht status r. handled Ha Hm Hd.
  apply layout_submit_resp in Ha as ->. exists []. split_and!; [done..|]. by destruct (_ =? 0).
Qed.
End responses.

(** ** Receiving *)

Section receiving.
Context {W : Type} {M : MALLOC W} {IO : POSIX_IO W} {IOL : POSIX_IO_laws W}.
Context {PS : PSOCK W} {RA : RCPR_ALLOCATOR W} {VB : VCCRYPT_BUFFER W} {RB : RCPR_RBTREE W}.
Context {RL : RCPR_laws W} {VS : VCCRYPT_SUITE W} {VSL : VCCRYPT_SUITE_laws (λ w : W, (rx w, tx w))}.
Context {PA : PSOCK_AUTHED W} {RE : RANDOM_ENDPOINT W} {KB : KEY_BUFFERS W} {KA : KEY_AGREEMENT W}.
Context {MO : MAC_OPTIONS W} {HL : HANDSHAKE_laws W}.

Abbreviation faulty := (HANDSHAKE_reliable W → False).

(** A call that leaves the streams as they are. *)
Abbreviation gives_back i o P := (λ r (i' o' : bytes), P r ∧ i' = i ∧ o' = o).

Lemma hears_packet iv s d i o :
  0 < sizeof d ≤ size_limit →
  runs faulty (authed_packet s (le_enc 8 iv) d ++ i) o (ipc_read_authed_data_block iv s)
    (gives_back i o (λ r, r = Ok d)).
Proof.
  intros Hd w Hi Ho. eapply post_mono; [apply authed_read_block_spec|]. intros [d'|e] w' [Ht H]; cbn beta iota in H.
  - right. destruct H as [Hd' H]. rewrite Hi in H. apply packet_inj in H as [-> ->]; [|lia|lia]. by rewrite Ht.
  - left. intros HR. destruct H as [[H|H]|H].
    + destruct H. apply (reliable_io _ HR).
    + destruct H. by apply (reliable_suite _ HR).
    + by destruct (H d i Hd).
Qed.

Lemma response_read_runs {A} iv s d i o (parse : bytes → Eff W A) P :
  0 < sizeof d ≤ size_limit → runs faulty i o (parse d) (gives_back i o P) →
  runs faulty (authed_packet s (le_enc 8 iv) d ++ i) o (recvresp iv s parse)
    (gives_back i o (λ r, r.1 = wrap64 (iv + 1) ∧ P r.2)).
Proof.
  intros Hd Hp. unfold recvresp. eapply runs_act; [by apply hears_packet|]. intros r i' o' (->&->&->).
  eapply runs_act; [exact Hp|]. intros r i' o' (Hr&->&->). by apply runs_ret.
Qed.

Lemma response_bytes_parts id st o fields :
  u32 id → u32 st → u32 o →
  let d := response_bytes id st o fields in
  length d = (12 + length fields)%nat ∧ ntohl (le_dec (sub 0 4 d)) = id ∧ ntohl (le_dec (sub 4 4 d)) = st ∧
  ntohl (le_dec (sub 8 4 d)) = o ∧ drop 12 d = fields.
Proof.
  intros. unfold d, response_bytes. rewrite !length_app, !length_net32, !net32_be.
  split_and!; [lia|by apply read_net32|..].
  - rewrite (sub_skip 4 4) by (apply length_be_enc || lia). by apply read_net32.
  - rewrite (sub_skip 8 4), (sub_skip 4 4) by (apply length_be_enc || lia). by apply read_net32.
  - rewrite !(assoc_L (++)), drop_app_length'; [done|]. by rewrite !length_app, !length_be_enc.
Qed.

(** What a response holds after a success is read by the function of its call. *)
Definition when_success {A} (st : Z) (a : A) : option A := if st =? 0 then Some a else None.

Lemma response_parse_runs {A} id st rest fields i o (a : A) :
  u32 id → u32 st → (st = 0 → runs faulty i o (rest fields) (gives_back i o (λ r, r = Ok a))) →
  runs faulty i o (response_parse id rest (response_bytes id st 0 fields))
    (gives_back i o (λ r, r = Ok (0, st, when_success st a))).
Proof.
  intros Hid Hst Hr. unfold response_parse, when_success.
  destruct (response_bytes_parts id st 0 fields Hid Hst ltac:(done)) as (Hl&->&->&->&Hd).
  change (3 * 4)%nat with 12%nat. rewrite Hl, Hd, (proj2 (Nat.ltb_ge _ _)), Z.eqb_refl by lia. cbn [negb].
  unfold AGENTD_STATUS_SUCCESS. rewrite (Z.eqb_sym 0). destruct (Z.eqb_spec st 0) as [->|Hne]; cbn [negb]; [|by apply runs_ret].
  eapply runs_bind; [by apply Hr|..].
  - intros a' i' o' ([= ->]&->&->). by apply runs_ret.
  - by intros e i' o' (?&_).
Qed.

Lemma parsed_runs {A} id st rest fields iv s i o (a : A) :
  u32 id → u32 st → sizeof (response_bytes id st 0 fields) ≤ size_limit →
  (st = 0 → runs faulty i o (rest fields) (gives_back i o (λ r, r = Ok a))) →
  runs faulty (authed_packet s (le_enc 8 iv) (response_bytes id st 0 fields) ++ i) o
    (recvresp iv s (response_parse id rest))
    (gives_back i o (λ r, r = (wrap64 (iv + 1), Ok (0, st, when_success st a)))).
Proof.
  intros Hid Hst Hl Hr. eapply runs_mono;
    [apply (response_read_runs _ _ _ _ _ _ (λ r, r = Ok (0, st, when_success st a))); [|by apply response_parse_runs]|].
  - split; [|done]. unfold sizeof. rewrite (proj1 (response_bytes_parts id st 0 fields Hid Hst ltac:(done))). lia.
  - intros [v r] i' o' ((Hv&Hr')&->&->). simpl in *. by subst.
Qed.

Lemma as_received_runs {A} (f : A → received) (m : Act W (recvd A)) v off st a r i o i' o' :
  runs faulty i o m (gives_back i' o' (λ x, x = (v, Ok (off, st, when_success st a)))) →
  (if st =? 0 then f a = r else r = rv_nothing) →
  runs faulty i o (as_received f m) (gives_back i' o' (λ x, x = (v, Ok (off, st, r)))).
Proof.
  intros Hm Hr. eapply runs_act; [exact Hm|]. intros x i1 o1 (->&->&->). apply runs_ret. unfold when_success.
  split; [|done]. by destruct (st =? 0); subst r.
Qed.

(** The certificate is in memory of its own. *)
Definition has_certificate (r : received) : Prop :=
  match r with rv_block _ cert | rv_transaction _ cert => cert ≠ [] | _ => True end.

Lemma certificate_runs {B} n (k : bool → Act W B) i o Q :
  0 < n → runs faulty i o (k true) Q → runs faulty i o (act (malloc n) k) Q.
Proof.
  intros Hn Hk. eapply (runs_still _ _ _ _ (λ b, b = true)).
  - intros w. destruct (malloc n w) eqn:E. by apply law_io_malloc in E.
  - intros w. pose proof (λ HR : HANDSHAKE_reliable W, reliable_io_malloc _ (reliable_io _ HR) n w Hn) as Hr.
    destruct (malloc n w).1; [by right|left]. intros HR. by specialize (Hr HR).
  - by intros ? ->.
Qed.

Lemma buffer_runs {B} n (k : Z * bytes → Act W B) i o Q :
  (∀ b, length b = n → runs faulty i o (k (0, b)) Q) → runs faulty i o (act (vccrypt_buffer_init n) k) Q.
Proof.
  intros Hk. destruct (gives_buffer (W := W) n) as [Hs Hr Hl].
  eapply (runs_still _ _ _ _ (λ x, x.1 = 0 ∧ length x.2 = n)); [done|..].
  - intros w. specialize (Hl w). specialize (λ HR, Hr HR w).
    destruct (vccrypt_buffer_init n w) as [[rc b] w']. simpl in *.
    destruct (decide (rc = 0)) as [->|Hne]; [right; by eauto|left; auto].
  - intros [rc b] [Hrc Hb]. simpl in *. subst rc. by apply Hk.
Qed.

(** The functions of the library, one for each form of result. *)
Abbreviation sets iv st a i o := (gives_back i o (λ x, x = (wrap64 (iv + 1), Ok (0, st, when_success st a)))).

Lemma recvresp_id_runs id st fields a iv s i o :
  u32 id → u32 st → sizeof (response_bytes id st 0 fields) ≤ size_limit → (st = 0 → fields = a ∧ is_uuid a) →
  runs faulty (authed_packet s (le_enc 8 iv) (response_bytes id st 0 fields) ++ i) o (recvresp_id id iv s)
    (sets iv st a i o).
Proof.
  intros Hid Hst Hl Ha. apply parsed_runs; try done. intros E. destruct (Ha E) as [-> Hu]. unfold is_uuid in Hu.
  rewrite Hu. apply runs_ret. split; [|done]. by rewrite sub_exact.
Qed.

Lemma recvresp_buffer_runs id st fields a iv s i o :
  u32 id → u32 st → sizeof (response_bytes id st 0 fields) ≤ size_limit → (st = 0 → fields = a ∧ is_uuid a) →
  runs faulty (authed_packet s (le_enc 8 iv) (response_bytes id st 0 fields) ++ i) o (recvresp_buffer id iv s)
    (sets iv st a i o).
Proof.
  intros Hid Hst Hl Ha. unfold recvresp_buffer. apply buffer_runs. intros b Hb.
  apply parsed_runs; try done. intros E. destruct (Ha E) as [-> Hu]. unfold is_uuid in Hu.
  rewrite Hu. apply runs_ret. split; [|done]. by rewrite splice_whole by lia.
Qed.

Lemma recvresp_submit_runs st iv s i o :
  u32 st → let id := UNAUTH_PROTOCOL_REQ_ID_TRANSACTION_SUBMIT in
  runs faulty (authed_packet s (le_enc 8 iv) (response_bytes id st 0 []) ++ i) o
    (protocolservice_api_recvresp_transaction_submit iv s)
    (gives_back i o (λ x, x = (wrap64 (iv + 1), Ok (0, st)))).
Proof.
  intros Hst id. destruct (response_bytes_parts id st 0 [] ltac:(done) Hst ltac:(done)) as (Hl&H0&H4&H8&_).
  eapply runs_mono; [apply (response_read_runs _ _ _ _ _ _ (λ r, r = Ok (0, st)))|].
  - unfold sizeof. by rewrite Hl.
  - rewrite Hl, H0, H4, H8. by apply runs_ret.
  - intros [v r] i' o' ((Hv&Hr')&->&->). simpl in *. by subst.
Qed.
(** A field of a structure that was written in network order and read as it is. *)
Lemma net64_field b off : (off + 8 ≤ length b)%nat →
  le_dec (le_enc 8 (htonll (ntohll (le_dec (sub off 8 b))))) = le_dec (sub off 8 b).
Proof.
  intros Hl. pose proof (le_dec_range (sub off 8 b)) as Hr. rewrite length_sub in Hr by lia.
  rewrite htonll_ntohll by done. by apply le_dec_enc.
Qed.
Lemma net32_field b off : (off + 4 ≤ length b)%nat →
  le_dec (le_enc 4 (htonl (ntohl (le_dec (sub off 4 b))))) = le_dec (sub off 4 b).
Proof.
  intros Hl. pose proof (le_dec_range (sub off 4 b)) as Hr. rewrite length_sub in Hr by lia.
  rewrite htonl_ntohl by done. by apply le_dec_enc.
Qed.

(** Take the fields of a structure of a known length apart. *)
Ltac known_length t := assert (length t = 16%nat) by (apply length_sub; lia).
Ltac long_enough :=
  match goal with |- context [(?x <? ?y)%nat] => rewrite (proj2 (Nat.ltb_ge x y)) by lia end.

(** The structure of the caller gets the fields of the structure that was sent. *)
Lemma recvresp_block_runs st fields n cert iv s i o :
  let id := UNAUTH_PROTOCOL_REQ_ID_BLOCK_BY_ID_GET in
  u32 st → sizeof (response_bytes id st 0 fields) ≤ size_limit →
  (st = 0 → fields = result_fields (rv_block (enc_block_node n) cert) ∧ wf_block_node n ∧ cert ≠ []) →
  runs faulty (authed_packet s (le_enc 8 iv) (response_bytes id st 0 fields) ++ i) o
    (protocolservice_api_recvresp_block_get iv s (memset Byte.x00 sizeof_block_node))
    (sets iv st (enc_block_node n, cert) i o).
Proof.
  intros id Hst Hl Hf. apply parsed_runs; try done. intros E. destruct (Hf E) as (->&Hn&Hcert). clear Hf Hl. cbv zeta.
  pose proof (copy_block_node_id n Hn) as Hcopy. pose proof (length_enc_block_node n Hn) as Hlen.
  set (node := enc_block_node n) in *. unfold sizeof_block_node in Hlen. cbn [result_fields].
  known_length (block_node_key node). known_length (block_node_prev node). known_length (block_node_next node).
  known_length (block_node_first_transaction_id node).
  rewrite !length_app, !length_net64. long_enough. assert (length cert ≠ 0%nat) by (by intros ?%nil_length_inv).
  apply certificate_runs; [lia|]. cbn [negb]. apply runs_ret. split; [|done]. unfold net64. fields.
  unfold block_node_net_block_cert_size, block_node_net_block_height. rewrite !net64_field by lia.
  rewrite sub_exact by lia. do 2 f_equal. exact Hcopy.
Qed.

Lemma recvresp_transaction_runs st fields n cert iv s i o :
  let id := UNAUTH_PROTOCOL_REQ_ID_TRANSACTION_BY_ID_GET in
  u32 st → sizeof (response_bytes id st 0 fields) ≤ size_limit →
  (st = 0 → fields = result_fields (rv_transaction (enc_txn_node n) cert) ∧ wf_txn_node n ∧ cert ≠ []) →
  runs faulty (authed_packet s (le_enc 8 iv) (response_bytes id st 0 fields) ++ i) o
    (protocolservice_api_recvresp_transaction_get iv s (memset Byte.x00 sizeof_txn_node))
    (sets iv st (enc_txn_node n, cert) i o).
Proof.
  intros id Hst Hl Hf. apply parsed_runs; try done. intros E. destruct (Hf E) as (->&Hn&Hcert). clear Hf Hl. cbv zeta.
  pose proof (copy_canonized_node_id n Hn) as Hcopy. pose proof (length_enc_txn_node n Hn) as Hlen.
  set (node := enc_txn_node n) in *. unfold sizeof_txn_node in Hlen. cbn [result_fields].
  known_length (txn_node_key node). known_length (txn_node_prev node). known_length (txn_node_next node).
  known_length (txn_node_artifact_id node). known_length (txn_node_block_id node).
  rewrite !length_app, !length_net64, !length_net32. long_enough.
  assert (length cert ≠ 0%nat) by (by intros ?%nil_length_inv).
  apply certificate_runs; [lia|]. cbn [negb]. apply runs_ret. split; [|done]. unfold net64, net32. fields.
  unfold txn_node_net_txn_cert_size, txn_node_net_txn_state. rewrite net64_field, net32_field by lia.
  rewrite sub_exact by lia. do 2 f_equal. exact Hcopy.
Qed.

Lemma as_status_runs (m : Act W (Z * result (Z * Z))) v off st i o i' o' :
  runs faulty i o m (gives_back i' o' (λ x, x = (v, Ok (off, st)))) →
  runs faulty i o (as_status m) (gives_back i' o' (λ x, x = (v, Ok (off, st, rv_nothing)))).
Proof. intros Hm. eapply runs_act; [exact Hm|]. intros x i1 o1 (->&->&->). by apply runs_ret. Qed.

(** The results of the calls for an identifier. *)
Lemma id_result st r fields P :
  (if st =? 0 then fields = result_fields r ∧ match r with rv_id id => is_uuid id | _ => False end
   else r = rv_nothing ∧ P) →
  (st = 0 → fields = result_fields r ∧ is_uuid (result_fields r)) ∧
  (if st =? 0 then rv_id (result_fields r) = r else r = rv_nothing).
Proof.
  destruct (Z.eqb_spec st 0) as [->|Hne]; [|by intros [-> _]]. intros [-> H]. by destruct r.
Qed.

(** A response tells its call the status and the result, and takes one vector. *)
Lemma receive_call_runs c packet st r iv s i o :
  is_Some (call_request c) → responds c packet st r → has_certificate r → sizeof packet ≤ size_limit →
  runs faulty (authed_packet s (le_enc 8 iv) packet ++ i) o (receive_call c iv s)
    (gives_back i o (λ x, x = (wrap64 (iv + 1), Ok (0, st, r)))).
Proof.
  intros Hc (fields&->&Hst&Hr) Hcert Hl.
  destruct c; cbn [receive_call result_fits call_id] in *; try by destruct Hc.
  1,3-5,7-11: apply id_result in Hr as [Hf Hr]; eapply (as_received_runs _ _ _ _ _ (result_fields r));
    [first [by apply recvresp_buffer_runs|by apply recvresp_id_runs]|done].
  - destruct (Z.eqb_spec st 0) as [->|Hne].
    + destruct Hr as [-> Hr]. destruct r as [| |node cert|]; try done. destruct Hr as (n&Hn&->).
      by eapply as_received_runs; [apply recvresp_block_runs|].
    + destruct Hr as [-> _]. eapply as_received_runs; [by apply (recvresp_block_runs _ _ (BlockNode [] [] [] [] 0 0) [])|].
      by rewrite (proj2 (Z.eqb_neq _ _)).
  - destruct (Z.eqb_spec st 0) as [->|Hne].
    + destruct Hr as [-> Hr]. destruct r as [| | |node cert]; try done. destruct Hr as (n&Hn&->).
      by eapply as_received_runs; [apply recvresp_transaction_runs|].
    + destruct Hr as [-> _]. eapply as_received_runs;
        [by apply (recvresp_transaction_runs _ _ (TxnNode [] [] [] [] [] 0 0) [])|].
      by rewrite (proj2 (Z.eqb_neq _ _)).
  - assert (r = rv_nothing ∧ fields = []) as [-> ->].
    { destruct (st =? 0); [destruct Hr as [-> Hr]; by destruct r|destruct Hr as [-> Hr]; split; [done|by eapply Hr]]. }
    by apply as_status_runs, recvresp_submit_runs.
Qed.
End receiving.

(** ** The service and its clients *)

Lemma sublist_of_fmap {A B} (f : A → B) l k : l `sublist_of` f <$> k → ∃ k', l = f <$> k' ∧ k' `sublist_of` k.
Proof.
  revert l. induction k as [|x k IH]; intros l H; simpl in H.
  - apply sublist_nil_r in H as ->. by exists [].
  - apply sublist_cons_r in H as [H|(l'&->&H)]; apply IH in H as (k'&->&H).
    + exists k'. split; [done|by constructor].
    + exists (x :: k'). split; [done|by constructor].
Qed.

Section service.
Context {W : Type} {M : MALLOC W} {IO : POSIX_IO W} {IOL : POSIX_IO_laws W} {PS : PSOCK W}.
Context {RA : RCPR_ALLOCATOR W} {VB : VCCRYPT_BUFFER W} {RB : RCPR_RBTREE W} {RL : RCPR_laws W}.
Context {RT : RCPR_TREES W} {RE : RANDOM_ENDPOINT W} {RF : RCPR_FIBER W} {KB : KEY_BUFFERS W}.
Context {KA : KEY_AGREEMENT W} {VS : VCCRYPT_SUITE W} {MO : MAC_OPTIONS W}.
Context {VP : VCBLOCKCHAIN_PROTOCOL W} {VPL : VCBLOCKCHAIN_laws W} {VEL : VCBLOCKCHAIN_encode_laws W}.
Context {PP : PROTOCOL_PLATFORM W} {TL : RCPR_TREES_laws W}.
Context {VSL : VCCRYPT_SUITE_laws (λ w : W, (rx w, tx w))} {PA : PSOCK_AUTHED W} {HL : HANDSHAKE_laws W}.
Context {VL : VCBLOCKCHAIN_layout W}.
Context (rg : registry) (ctx : protocolservice_context (W := W)).
Context (dict : rbtree nat) (d : protocolservice_dataservice_endpoint_context (W := W))
  (n : protocolservice_notificationservice_fiber_context (W := W)) (w : W).

(** The requests of packets that are calls are those of the calls. *)
Lemma calls_of_requests (l : list (bytes * asked)) cs :
  Forall call_fits cs → Forall (λ '(buf, q), asks (W := W) buf q) l → l.*1 `sublist_of` call_packet <$> cs →
  ∃ k, k `sublist_of` cs ∧ call_asks <$> k = Some <$> l.*2.
Proof.
  intros Hcs Hl H. apply sublist_of_fmap in H as (k&Hk&Hsub). exists k. split; [done|].
  assert (Forall call_fits k) as Hfit.
  { apply Forall_forall. intros c Hc. eapply Forall_forall; [exact Hcs|]. by eapply elem_of_sublist. }
  clear Hsub Hcs. revert k Hk Hfit.
  induction Hl as [|[buf q] l Hq _ IH]; intros [|call k] Hk Hfit; try done. simpl in *.
  apply Forall_cons in Hfit as [Hc Hfit]. injection Hk as -> Hk. f_equal; [|by apply IH].
  by apply call_packet_asks.
Qed.

(** C5: A client gets the answers to its calls, however the fibers of the service run and
    whatever the other clients do.  Suppose that the packets that were read from a client
    are those of calls whose arguments fit ([call_fits]).  Then the requests of its
    connection, which are all the messages in the mailbox of the data endpoint with its
    return address, are those of some of these calls, in order and each at most once
    (which ones: [client_requests_arrive]); the exchanges with the data service for the
    connection are exactly for the first of them, and the packets written in answer are
    for the first of the exchanges.  And when the [k]th answer was written, the response
    of the data service in the [k]th exchange is a response to the [k]th call that its
    decoder accepts ([told] gives a status and a result; other responses are not
    covered), a certificate in it is not empty ([has_certificate]), and the packet is
    at most 10 MB, which is the limit of the reader ([size_limit]), then the function of
    the client library for this call, given the packet under any secret and vector,
    returns that status and that result: the identifier, the structure with its
    certificate, or that there is no such block or transaction.  It takes exactly this
    packet and the next vector.  Under these conditions only a failure of the platform
    of the client prevents it. *)
Theorem client_calls_answered tr c j cn cs :
  starts rg ctx d n → steps (protocol_start ctx dict d n w) tr c → sv_connections (cf_machine c).1 !! j = Some cn →
  Forall call_fits cs → packets_read j tr `prefix_of` call_packet <$> cs →
  let ra := pn_return_addr cn in
  ∃ (calls : list client_call) (qs : list asked),
    calls `sublist_of` cs ∧ call_asks <$> calls = Some <$> qs ∧
    filter (request_from ra) (sent (de_addr d) tr) = ask_message ra <$> qs ∧
    (ex_message <$> served_for ra tr) `prefix_of` (ask_message ra <$> qs) ∧
    (length (answers_written j ra tr) ≤ length (served_for ra tr))%nat ∧
    ∀ k p x call status r,
      answers_written j ra tr !! k = Some p → served_for ra tr !! k = Some x → calls !! k = Some call →
      told call (ex_in x) = Some (status, r) → has_certificate r → sizeof (wr_packet p) ≤ size_limit →
      ∀ iv secret i o, runs (HANDSHAKE_reliable W → False)
        (authed_packet secret (le_enc 8 iv) (wr_packet p) ++ i) o (receive_call call iv secret)
        (λ res i' o', res = (wrap64 (iv + 1), Ok (0, status, r)) ∧ i' = i ∧ o' = o).
Proof.
  intros Hst Hs Hcn Hcs Hread ra. pose proof (reached _ _ _ _ _ _ _ _ Hst Hs) as HS. apply connection_links in Hcn as Hj. fold ra in Hj.
  pose proof (sound_apart _ _ _ _ _ _ HS) as HA. pose proof (in_legal _ _ _ _ _ _ _ _ HS) as HL'.
  destruct (reader_requests _ _ _ _ _ HA _ _ _ _ Hj HL') as [Hsent Hlog].
  destruct (log_requests _ _ Hlog) as (l&E1&E2&Hl).
  pose proof (served_in_order _ _ _ _ _ _ _ _ _ HS Hj) as Hserved.
  destruct (answers_in_order _ _ _ _ _ _ _ _ _ HS Hj) as [Hlen Hans].
  destruct (calls_of_requests l cs Hcs Hl) as (calls&Hsub&Hcalls).
  { rewrite E1. etrans; [by apply sublist_inserts_r|]. etrans; [by eapply reader_packets|].
    destruct Hread as [rest ->]. by apply sublist_inserts_r. }
  exists calls, l.*2. rewrite E2 in Hserved. split_and!; [done..|by rewrite <- E2|done|done|].
  intros k p x call st r Hp Hx Hc Ht Hcert Hsize iv secret i o. destruct (Hans _ _ _ Hp Hx) as [Hrep Hren].
  assert ((ask_message ra <$> l.*2) !! k = Some (ex_message x)) as Hk
    by (eapply prefix_lookup_Some; [|exact Hserved]; by rewrite list_lookup_fmap, Hx).
  assert ((call_asks <$> calls) !! k = Some (call_asks call)) as Hq by (by rewrite list_lookup_fmap, Hc).
  rewrite Hcalls, list_lookup_fmap in Hq. rewrite list_lookup_fmap in Hk.
  destruct (l.*2 !! k) as [q|]; [|done]. injection Hq as Hq. injection Hk as Hk.
  apply receive_call_runs; [|eapply answer_responds; [by symmetry|by eapply answer_of|done]|done..].
  unfold call_asks in Hq. destruct (call_request call); [by eexists|done].
Qed.
End service.
