(* ===== verification/ProtocolRun.v ===== *)
(** * A run of the protocol service

    An executable scheduler, and the service on the platform of [ProtocolExamples] with
    two clients: their handshakes, a context of the data service for each, and a request
    of each with its answer. *)

From S2P Require Import Prelude Inet StatusCodes Contexts Lmdb Records RequestCodec RequestSpec ResponseCodec Ipc IpcSpec CodecExamples AuthedIpc AuthedSpec AuthedExamples ClientApi NotificationCodec ProtocolService ProtocolSpec ProtocolControlSpec Handshake HandshakeLaws HandshakeServer ProtocolExamples ProtocolFibers ProtocolRequests ProtocolResponses ProtocolEndpoints ProtocolScheduler ProtocolContracts ProtocolConnection ProtocolEndpointContracts ProtocolInvariant ProtocolSafety ProtocolClient ProtocolClientSpec.

(** ** The scheduler *)

Section driver.
Context {W : Type} {RB : RCPR_RBTREE W} {RT : RCPR_TREES W} {RA : RCPR_ALLOCATOR W}.
Context {VB : VCCRYPT_BUFFER W} {RE : RANDOM_ENDPOINT W} {RF : RCPR_FIBER W} {VP : VCBLOCKCHAIN_PROTOCOL W}.
Context {KB : KEY_BUFFERS W} {KA : KEY_AGREEMENT W} {VS : VCCRYPT_SUITE W} {MO : MAC_OPTIONS W}.
Context {PP : PROTOCOL_PLATFORM W}.

(** Every call succeeds; what a socket delivers is given. *)
Definition respond (c : config W) (o : op) (delivered : bytes) : option (answer o * config W) :=
  match o return option (answer o * config W) with
  | op_handshake j ctx =>
      let _ := connection_psock j in
      let _ := connection_authed j in
      let s := (cf_machine c).1 in
      let '(r, w) := protocolservice_protocol_handle_handshake sizeof_random_request (sv_ctx s) ctx (cf_machine c).2 in
      Some (r, Config (s, w) (cf_fibers c) (cf_mail c))
  | op_message_send addr m =>
      match cf_mail c !! addr with Some l => Some (0, set_mail <[addr := l ++ [m]]> c) | None => None end
  | op_message_receive addr =>
      match cf_mail c !! addr with Some (m :: l) => Some ((0, m), set_mail <[addr := l]> c) | _ => None end
  | op_mailbox_close addr => Some (0, set_mail (delete addr) c)
  | op_fiber_scheduler_add j =>
      match cf_fibers c (writer j) with Absent => Some (0, set_fiber_state (writer j) Ready c) | _ => None end
  | op_client_read _ _ _ => Some ((0, Some delivered), c)
  | op_client_write _ _ _ _ | op_data_write _ | op_notify_write _ => Some (0, c)
  | op_data_read | op_notify_read => Some ((0, delivered), c)
  end.

Lemma respond_replies c o b a c' : respond c o b = Some (a, c') → replies c o a c'.
Proof.
  destruct o; simpl; intros E.
  - destruct (protocolservice_protocol_handle_handshake _ _ _ _) as [r w] eqn:Eh. injection E as <- <-. by exists w.
  - case_match; [|done]. injection E as <- <-. left. eauto.
  - case_match; [|done]. case_match; [done|]. injection E as <- <-. left. eauto.
  - injection E as <- <-. by left.
  - case_match; try done. injection E as <- <-. by left.
  - injection E as <- <-. split; [|done]. split; [by eexists|done].
  - by injection E as <- <-.
  - by injection E as <- <-.
  - by injection E as <- <-.
  - by injection E as <- <-.
  - by injection E as <- <-.
Qed.

(** A client connects, or a fiber goes on. *)
Inductive choice : Type :=
  | connects (return_addr fiber_addr : Z) (nonces : bytes)
      (offsets : utree protocolservice_extended_api_response_xlat_entry)
  | goes_on (r : role) (delivered : bytes).

Definition drive1 (c : config W) (ch : choice) : option (config W * list event) :=
  match ch with
  | connects ra fa b offsets =>
      if decide (ra ≠ fa ∧ ra ∉ addresses (cf_machine c).1 ∧ fa ∉ addresses (cf_machine c).1)
      then Some (add_connection (new_connection b b b b [] ra fa offsets) c, []) else None
  | goes_on r b =>
      match cf_fibers c r with
      | Ready => Some (resume r (body r) c, [])
      | Blocked o k =>
          match respond c o b with Some (a, c') => Some (resume r (k a) c', [Event r o a]) | None => None end
      | _ => None
      end
  end.

Fixpoint drive (c : config W) (l : list choice) : option (config W * list event) :=
  match l with
  | [] => Some (c, [])
  | ch :: l =>
      match drive1 c ch with
      | Some (c1, t1) => match drive c1 l with Some (c2, t2) => Some (c2, t1 ++ t2) | None => None end
      | None => None
      end
  end.

Lemma drive1_step c ch c' t : drive1 c ch = Some (c', t) → step c t c'.
Proof.
  destruct ch as [ra fa b offsets|r b]; simpl.
  - case_decide as H; [|done]. destruct H as (?&?&?). intros [= <- <-]. by apply step_connect.
  - destruct (cf_fibers c r) as [| |o k| |] eqn:E; try done; [intros [= <- <-]; by constructor|].
    destruct (respond c o b) as [[a c1]|] eqn:Er; [|done]. intros [= <- <-].
    eapply step_call; [done|]. by eapply respond_replies.
Qed.

Lemma steps_cons c1 t1 c2 t2 c3 : step (W := W) c1 t1 c2 → steps c2 t2 c3 → steps c1 (t1 ++ t2) c3.
Proof.
  intros H1. induction 1 as [c|c2 t2 c3 t3 c4 _ IH H3].
  - rewrite app_nil_r. apply (steps_step c1 [] c1 t1 c); [constructor|done].
  - rewrite app_assoc. eapply steps_step; [by apply IH|done].
Qed.

Lemma drive_steps l c c' t : drive c l = Some (c', t) → steps c t c'.
Proof.
  revert c c' t. induction l as [|ch l IH]; intros c c' t; simpl; [intros [= <- <-]; constructor|].
  destruct (drive1 c ch) as [[c1 t1]|] eqn:E1; [|done]. destruct (drive c1 l) as [[c2 t2]|] eqn:E2; [|done].
  intros [= <- <-]. eapply steps_cons; [by eapply drive1_step|by apply IH].
Qed.
End driver.

(** ** The platform *)

#[local] Existing Instance io_malloc.
#[local] Existing Instance io_vccrypt.
#[local] Existing Instance io_posix.
#[local] Existing Instance io_posix_laws.
#[local] Existing Instance io_suite.
#[local] Existing Instance proto_suite_laws.
#[local] Existing Instance proto_tree.
#[local] Existing Instance proto_allocator.
#[local] Existing Instance proto_psock.
#[local] Existing Instance proto_laws.
#[local] Existing Instance proto_keys.
#[local] Existing Instance proto_agreement.
#[local] Existing Instance proto_mac.
#[local] Existing Instance proto_authed.
#[local] Existing Instance proto_random.
#[local] Existing Instance proto_handshake.

#[local] Instance run_trees : RCPR_TREES io_world := {|
  rbtree_delete V t k := ret (0, delete k t);
  utree V := gmap Z V;
  utree_insert V t k v := ret (match t !! k with None => (0, <[k := v]> t) | Some _ => (77, t) end);
  utree_find V t k := ret (match t !! k with None => Err 78 | Some v => Ok v end);
  utree_delete V t k := ret (0, delete k t);
  utree_release V t := ret 0;
|}.
#[local] Instance run_fiber_library : RCPR_FIBER io_world := {|
  fiber_create := ret 0; fiber_unexpected_event_callback_add := ret 0 |}.
#[local] Instance run_platform : PROTOCOL_PLATFORM io_world := {|
  connection_psock j := proto_psock; connection_authed j := proto_authed; memory_reclaim := ret 0;
  sizeof_random_request := 24; sizeof_request_message := 64; sizeof_write_message := 64;
  sizeof_assertion_request := 64; sizeof_assertion_response := 64; sizeof_dict_entry := 64;
  sizeof_response_xlat_entry := 64; sizeof_mailbox_context_entry := 64; sizeof_notification_xlat_entry := 64;
|}.

#[local] Instance run_trees_laws : RCPR_TREES_laws io_world.
Proof.
  refine {| utree_map V t := t |}; try done.
  - intros V t k v w rc t' w' E. simpl in E. unfold ret in E. repeat case_match; simplify_eq/=; done.
  - intros V t k w v w' E. simpl in E. unfold ret in E. repeat case_match; simplify_eq/=; done.
  - by intros V t k w rc t' w' [= _ <- _].
Defined.

(** A codec of the client protocol: the request and an identifier, or less. *)
Definition run_decode_id (p : bytes) : result (Z * bytes) :=
  if (24 <=? length p)%nat then Ok (ntohl (le_dec (sub 0 4 p)), sub 8 16 p) else Err 80.
Definition run_decode_request (p : bytes) : result Z := Ok (ntohl (le_dec (sub 0 4 p))).
Definition run_encode (id offset status : Z) (b : bytes) : Eff io_world bytes :=
  ok (net32 id ++ net32 status ++ net32 offset ++ b).

#[local] Instance run_protocol : VCBLOCKCHAIN_PROTOCOL io_world := {|
  vcblockchain_protocol_decode_req_block_get := run_decode_id;
  vcblockchain_protocol_decode_req_block_next_id_get := run_decode_id;
  vcblockchain_protocol_decode_req_block_prev_id_get := run_decode_id;
  vcblockchain_protocol_decode_req_block_id_by_height_get p :=
    Ok (ntohl (le_dec (sub 0 4 p)), ntohll (le_dec (sub 8 8 p)));
  vcblockchain_protocol_decode_req_txn_get := run_decode_id;
  vcblockchain_protocol_decode_req_txn_next_id_get := run_decode_id;
  vcblockchain_protocol_decode_req_txn_prev_id_get := run_decode_id;
  vcblockchain_protocol_decode_req_txn_block_id_get := run_decode_id;
  vcblockchain_protocol_decode_req_artifact_first_txn_id_get := run_decode_id;
  vcblockchain_protocol_decode_req_artifact_last_txn_id_get := run_decode_id;
  vcblockchain_protocol_decode_req_status_get := run_decode_request;
  vcblockchain_protocol_decode_req_transaction_submit p :=
    ret (if (40 <=? length p)%nat then Ok (ntohl (le_dec (sub 0 4 p)), sub 8 16 p, sub 24 16 p, drop 40 p) else Err 80);
  vcblockchain_protocol_decode_req_assert_latest_block_id := run_decode_id;
  vcblockchain_protocol_decode_req_assert_latest_block_id_cancel p := Ok tt;
  vcblockchain_protocol_decode_req_extended_api_enable := run_decode_request;
  vcblockchain_protocol_decode_req_extended_api p := ok (ntohl (le_dec (sub 4 4 p)), sub 8 16 p, sub 24 16 p, drop 40 p);
  vcblockchain_protocol_decode_req_extended_api_response p :=
    ok (ntohl (le_dec (sub 4 4 p)), ntohl (le_dec (sub 8 4 p)), drop 12 p);
  vcblockchain_protocol_encode_error_resp id offset status := run_encode id offset status [];
  vcblockchain_protocol_encode_resp_generic id offset status b := run_encode id offset status b;
  vcblockchain_protocol_encode_resp_latest_block_id_get :=
    run_encode UNAUTH_PROTOCOL_REQ_ID_LATEST_BLOCK_ID_GET;
  vcblockchain_protocol_encode_resp_block_id_by_height_get :=
    run_encode UNAUTH_PROTOCOL_REQ_ID_BLOCK_ID_BY_HEIGHT_GET;
  vcblockchain_protocol_encode_resp_block_next_id_get :=
    run_encode UNAUTH_PROTOCOL_REQ_ID_BLOCK_ID_GET_NEXT;
  vcblockchain_protocol_encode_resp_block_prev_id_get :=
    run_encode UNAUTH_PROTOCOL_REQ_ID_BLOCK_ID_GET_PREV;
  vcblockchain_protocol_encode_resp_txn_next_id_get :=
    run_encode UNAUTH_PROTOCOL_REQ_ID_TRANSACTION_ID_GET_NEXT;
  vcblockchain_protocol_encode_resp_txn_prev_id_get :=
    run_encode UNAUTH_PROTOCOL_REQ_ID_TRANSACTION_ID_GET_PREV;
  vcblockchain_protocol_encode_resp_txn_block_id_get :=
    run_encode UNAUTH_PROTOCOL_REQ_ID_TRANSACTION_ID_GET_BLOCK_ID;
  vcblockchain_protocol_encode_resp_artifact_first_txn_id_get :=
    run_encode UNAUTH_PROTOCOL_REQ_ID_ARTIFACT_FIRST_TXN_BY_ID_GET;
  vcblockchain_protocol_encode_resp_artifact_last_txn_id_get :=
    run_encode UNAUTH_PROTOCOL_REQ_ID_ARTIFACT_LAST_TXN_BY_ID_GET;
  vcblockchain_protocol_encode_resp_transaction_submit offset status :=
    run_encode UNAUTH_PROTOCOL_REQ_ID_TRANSACTION_SUBMIT offset status [];
  vcblockchain_protocol_encode_resp_block_get offset status k p n t height size cert :=
    run_encode UNAUTH_PROTOCOL_REQ_ID_BLOCK_BY_ID_GET offset status (k ++ p ++ n ++ t ++ net64 height ++ net64 size ++ cert);
  vcblockchain_protocol_encode_resp_txn_get offset status k p n a b size cert state :=
    run_encode UNAUTH_PROTOCOL_REQ_ID_TRANSACTION_BY_ID_GET offset status
      (k ++ p ++ n ++ a ++ b ++ net64 size ++ net32 state ++ cert);
  vcblockchain_protocol_encode_resp_extended_api :=
    run_encode UNAUTH_PROTOCOL_REQ_ID_EXTENDED_API_SENDRECV;
  vcblockchain_protocol_encode_resp_extended_api_client_request offset client verb k1 k2 b :=
    run_encode 0x52 offset 0 (client ++ verb ++ k1 ++ k2 ++ b);
|}.

Lemma run_decode_uuid p id b : run_decode_id p = Ok (id, b) → is_uuid b.
Proof.
  unfold run_decode_id. destruct (Nat.leb_spec 24 (length p)); [|done]. intros [= _ <-]. apply sub_uuid. lia.
Qed.

#[local] Instance run_protocol_laws : VCBLOCKCHAIN_laws io_world.
Proof.
  split; try exact run_decode_uuid.
  intros p w id t a cert w'. cbn -[Nat.leb]. unfold ret. destruct (Nat.leb_spec 40 (length p)); [|by intros [=]].
  intros [= _ <- <- _ _]. split; apply sub_uuid; lia.
Qed.

#[local] Instance run_encode_laws : VCBLOCKCHAIN_encode_laws io_world.
Proof. split; by intros. Qed.

(** It has the packets of the client library. *)
Lemma run_request_parts id o f :
  u32 id → let p := request_bytes id o f in
  length p = (8 + length f)%nat ∧ ntohl (le_dec (sub 0 4 p)) = id ∧
  ∀ off n, (8 ≤ off)%nat → sub off n p = sub (off - 8) n f.
Proof.
  intros Hid p. unfold p, request_bytes. rewrite !length_app, !length_net32, !net32_be. split_and!; [lia|by apply read_net32|].
  intros off n Ho. rewrite (sub_skip _ 4), (sub_skip _ 4) by (apply length_be_enc || lia). f_equal. lia.
Qed.

Lemma run_decode_layout id o b : is_uuid b → u32 id → run_decode_id (request_bytes id o b) = Ok (id, b).
Proof.
  intros Hb Hid. destruct (run_request_parts id o b Hid) as (Hl&H0&Hf). unfold run_decode_id, is_uuid in *.
  rewrite Hl, Hb, H0. simpl. by rewrite Hf, sub_exact by (done || lia).
Qed.

#[local] Instance run_layout : VCBLOCKCHAIN_layout io_world.
Proof.
  split; try (intros; by apply run_decode_layout); try by intros * [= <- _].
  - intros id o h Hh Hid. destruct (run_request_parts id o (net64 h) Hid) as (Hl&H0&Hf). simpl.
    rewrite H0, Hf, net64_be by lia. do 2 f_equal. rewrite <- (app_nil_r (be_enc 8 h)). by apply read_net64.
  - intros id o t a cert Ht Ha Hid. destruct (run_request_parts id o (t ++ a ++ cert) Hid) as (Hl&H0&Hf).
    cbv zeta. cbn -[Nat.leb sub drop]. unfold is_uuid, ret in *. rewrite !length_app, Ht, Ha in Hl.
    rewrite Hl, (proj2 (Nat.leb_le _ _)), H0, !Hf by lia. cbn [Nat.sub].
    rewrite sub_head, (sub_skip 16 16), sub_head by (done || lia).
    assert (drop 40 (request_bytes id o (t ++ a ++ cert)) = cert) as ->.
    { unfold request_bytes. rewrite !(assoc_L (++)). apply drop_app_length'. rewrite !length_app, !length_net32. lia. }
    split; [by exists (ex_input []); eexists|by intros w v w' [= <- _]].
  - intros id o Hid. destruct (run_request_parts id o [] Hid) as (_&H0&_). simpl. unfold run_decode_request. by rewrite H0.
Qed.

(** ** The run *)

Definition run_data : protocolservice_dataservice_endpoint_context (W := io_world) :=
  DataserviceEndpointContext 10 ∅ ∅.
Definition run_notify : protocolservice_notificationservice_fiber_context (W := io_world) :=
  NotificationFiberContext 11 ∅ ∅ 2 0.
Definition run_start : config io_world :=
  protocol_start ex_service ∅ run_data run_notify (ex_input (ex_from_client ++ ex_from_client)).

Definition latest_packet (offset : Z) : bytes :=
  net32 UNAUTH_PROTOCOL_REQ_ID_LATEST_BLOCK_ID_GET ++ net32 offset.
Definition latest_answer (offset : Z) : bytes :=
  net32 UNAUTH_PROTOCOL_REQ_ID_LATEST_BLOCK_ID_GET ++ net32 0 ++ net32 offset.
Definition opened_response (child : Z) : bytes :=
  net32 DATASERVICE_API_METHOD_LL_CHILD_CONTEXT_CREATE ++ net32 0 ++ net32 0 ++ net32 child.
Definition latest_response (child : Z) (b : byte) : bytes :=
  net32 DATASERVICE_API_METHOD_APP_BLOCK_ID_LATEST_READ ++ net32 child ++ net32 0 ++ memset b 16.

Definition again_and_again (r : role) (k : nat) : list choice := replicate k (goes_on r []).
(** The endpoint takes a message, and the data service responds. *)
Definition serves (response : bytes) : list choice :=
  again_and_again data_endpoint 3 ++ [goes_on data_endpoint response] ++ again_and_again data_endpoint 1.

Definition run_script (packet1 packet2 : bytes) : list choice :=
  [connects 20 21 (memset Byte.x00 32) ∅; connects 30 31 (memset Byte.x00 32) ∅]
  ++ again_and_again (reader 0) 1 ++ again_and_again (reader 1) 2 ++ again_and_again (reader 0) 1
  ++ serves (opened_response 4) ++ serves (opened_response 3)
  ++ again_and_again (reader 0) 3 ++ again_and_again (reader 1) 3
  ++ [goes_on (reader 0) packet1; goes_on (reader 1) packet2]
  ++ again_and_again (reader 1) 1 ++ again_and_again (reader 0) 1
  ++ serves (latest_response 4 Byte.xbb) ++ serves (latest_response 3 Byte.xaa)
  ++ again_and_again (writer 0) 3 ++ again_and_again (writer 1) 3.

Definition run_of (packet1 packet2 : bytes) : config io_world * list event :=
  default (run_start, []) (drive run_start (run_script packet1 packet2)).
Definition run_end : config io_world * list event := run_of (latest_packet 7) (latest_packet 9).
Definition run_trace : list event := run_end.2.
Definition run_connections : list (protocol_connection io_world) := sv_connections (cf_machine run_end.1).1.

Lemma run_of_steps packet1 packet2 :
  (if drive run_start (run_script packet1 packet2) then true else false) = true →
  steps run_start (run_of packet1 packet2).2 (run_of packet1 packet2).1.
Proof.
  intros H. apply (drive_steps (run_script packet1 packet2)). unfold run_of.
  by destruct (drive run_start (run_script packet1 packet2)) as [[c t]|].
Qed.

Lemma run_steps : steps run_start run_trace run_end.1.
Proof. apply run_of_steps. by vm_compute. Qed.

Lemma run_starts : starts ex_registry ex_service run_data run_notify.
Proof. split; [exact ex_service_represents|]. by split. Qed.

(** Each client is asked for in its own context, and gets its answer. *)
Example run_requests :
  (ex_out <$> exchanges run_trace) =
    [request_packet (child_context_create (ReqChildCreate [8])); request_packet (child_context_create (ReqChildCreate [8]));
     request_packet (block_id_latest_read (ReqBlockIdLatest 4)); request_packet (block_id_latest_read (ReqBlockIdLatest 3))] ∧
  (ex_out <$> served_for 20 run_trace) = [request_packet (block_id_latest_read (ReqBlockIdLatest 3))] ∧
  (ex_out <$> served_for 30 run_trace) = [request_packet (block_id_latest_read (ReqBlockIdLatest 4))] ∧
  packets_read 0 run_trace = [latest_packet 7] ∧ packets_read 1 run_trace = [latest_packet 9] ∧
  (wr_packet <$> answers_written 0 20 run_trace) = [latest_answer 7 ++ memset Byte.xaa 16] ∧
  (wr_packet <$> answers_written 1 30 run_trace) = [latest_answer 9 ++ memset Byte.xbb 16] ∧
  (wr_iv <$> packets_written 0 20 run_trace) = [0x8000000000000002].
Proof. by vm_compute. Qed.

Lemma requests_served_in_order_witness :
  starts ex_registry ex_service run_data run_notify ∧ steps run_start run_trace run_end.1 ∧
  ∃ cn, run_connections !! 0%nat = Some cn ∧
    let ra := pn_return_addr cn in
    ∃ l : list (bytes * asked),
      l.*1 `sublist_of` packets_read 0 run_trace ∧ Forall (λ '(buf, q), asks buf q) l ∧
      filter (request_from ra) (sent (de_addr run_data) run_trace) = ask_message ra <$> l.*2 ∧
      (ex_message <$> served_for ra run_trace) `prefix_of` (ask_message ra <$> l.*2) ∧
      (length (answers_written 0 ra run_trace) ≤ length (served_for ra run_trace))%nat ∧
      ∀ k p x buf q, answers_written 0 ra run_trace !! k = Some p → served_for ra run_trace !! k = Some x →
        l !! k = Some (buf, q) → answers q (ex_in x) (wr_packet p).
Proof.
  split; [exact run_starts|]. split; [exact run_steps|].
  assert (pn_return_addr <$> run_connections !! 0%nat = Some 20) as Hra by (by vm_compute).
  destruct (run_connections !! 0%nat) as [cn|] eqn:E; [|done]. exists cn. split; [done|].
  exact (requests_served_in_order (W := io_world) ex_registry ex_service ∅ run_data run_notify _ run_trace run_end.1
    0%nat cn run_starts run_steps E).
Defined.

Lemma contexts_keep_clients_apart_witness :
  ∃ x, exchanges run_trace !! 3%nat = Some x ∧
    ∃ j cn, run_connections !! j = Some cn ∧
      permitted ex_registry ex_service run_trace (take 3 (exchanges run_trace)) j (pn_return_addr cn) (pn_fiber_addr cn) x.
Proof.
  assert (ex_out <$> exchanges run_trace !! 3%nat = Some (request_packet (block_id_latest_read (ReqBlockIdLatest 3)))) as Hx
    by (by vm_compute).
  destruct (exchanges run_trace !! 3%nat) as [x|] eqn:E; [|done]. exists x. split; [done|].
  exact (contexts_keep_clients_apart (W := io_world) ex_registry ex_service ∅ run_data run_notify _ run_trace run_end.1
    (take 3 (exchanges run_trace)) x (drop 4 (exchanges run_trace)) run_starts run_steps
    (eq_sym (take_drop_middle _ _ _ E))).
Defined.

(** The last packet is for the second client. *)
Definition run_secret : bytes := default [] (pf_shared_secret <$> user_of 1 run_trace).
Definition run_before : list event := take (length run_trace - 1) run_trace.

Lemma vectors_never_reused_witness :
  let iv := 0x8000000000000002 in
  let buf := latest_answer 9 ++ memset Byte.xbb 16 in
  run_trace = run_before ++ [Event (writer 1) (op_client_write 1 iv buf run_secret) 0] ∧
  ∃ cn f m, run_connections !! 1%nat = Some cn ∧ writer 1 = writer 1 ∧
    user_of 1 run_before = Some f ∧ shook ex_service 1 f ∧ run_secret = pf_shared_secret f ∧
    iv = wrap64 (pf_server_iv f + Z.of_nat (client_writes 1 run_before)) ∧
    m ∈ sent (pn_return_addr cn) run_before ∧ renders (W := io_world) m buf.
Proof.
  intros iv buf.
  assert (run_trace = run_before ++ [Event (writer 1) (op_client_write 1 iv buf run_secret) 0]) as E by (by vm_compute).
  split; [exact E|].
  refine (vectors_never_reused (W := io_world) ex_registry ex_service ∅ run_data run_notify _ run_before
    (writer 1) 1%nat iv buf run_secret 0 [] run_end.1 run_starts _).
  rewrite <- E. exact run_steps.
Defined.

(** ** Clients *)

(** The calls of a client, and what they are on the wire of the platform. *)
Definition run_calls : list client_call :=
  [call_latest_block_id_get; call_block_next_id_get (memset Byte.x2a 16);
   call_transaction_submit (memset Byte.x01 16) (memset Byte.x02 16) [Byte.xce]; call_close].
Definition run_client_secret : bytes := [Byte.x05].
Definition run_calls_wire : bytes := io_tx (send_calls run_calls 8 run_client_secret (ex_input [])).2.

Lemma run_calls_fit : Forall call_fits run_calls.
Proof.
  unfold run_calls. rewrite !Forall_cons, Forall_nil. cbn [call_fits].
  split_and!; first [exact I|apply length_memset|cbn [length]; unfold MAX_TRANSACTION_CERTIFICATE_SIZE; lia].
Qed.

(** The service hears them, and nothing under another vector. *)
Example run_calls_heard :
  (send_calls run_calls 8 run_client_secret (ex_input [])).1 = Ok 12 ∧
  (hear_packets 4 8 run_client_secret (ex_input run_calls_wire)).1 = Ok (Some <$> (call_packet <$> run_calls)) ∧
  (hear_packets 4 7 run_client_secret (ex_input run_calls_wire)).1 = Err 1 ∧
  (call_asks <$> run_calls) =
    [Some (Asked UNAUTH_PROTOCOL_REQ_ID_LATEST_BLOCK_ID_GET 0 ask_latest_block_id);
     Some (Asked UNAUTH_PROTOCOL_REQ_ID_BLOCK_ID_GET_NEXT 0 (ask_block (memset Byte.x2a 16) false));
     Some (Asked UNAUTH_PROTOCOL_REQ_ID_TRANSACTION_SUBMIT 0
             (ask_submit (memset Byte.x01 16) (memset Byte.x02 16) [Byte.xce])); None].
Proof. by vm_compute. Qed.

Lemma run_reader_reliable : reader_reliable (W := io_world).
Proof.
  split; [exact proto_handshake_reliable|done|]. intros p w w' w1 w2 e v. cbn -[Nat.leb]. unfold ret.
  destruct (40 <=? length p)%nat; intros H1 H2; [discriminate H1|discriminate H2].
Qed.

(** A service with a client. *)
Definition run_client : protocol_connection io_world := new_connection [] [] [] [] run_client_secret 20 21 ∅.
Definition run_service : service io_world := set_connections [run_client] (cf_machine run_start).1.

Lemma client_requests_arrive_witness :
  Forall call_fits run_calls ∧ reader_reliable (W := io_world) ∧
  (∀ i o, runs False i o (send_calls run_calls 8 run_client_secret) (λ r i' o', match r with
     | Ok iv' => iv' = vector_after 8 4 ∧ i' = i ∧
         o' = o ++ authed_packets (W := io_world) 8 run_client_secret (call_packet <$> run_calls)
     | Err _ => HANDSHAKE_reliable io_world → False
     end)) ∧
  (∀ i o, runs False (authed_packets (W := io_world) 8 run_client_secret (call_packet <$> run_calls) ++ i) o
     (hear_packets 4 8 run_client_secret)
     (λ r i' o', o' = o ∧ match r with
        | Ok heard => heard = Some <$> (call_packet <$> run_calls) ∧ i' = i
        | Err _ => HANDSHAKE_reliable io_world → False
        end)) ∧
  (∀ c w, c ∈ run_calls →
     ∃ k, run_prog (protocolservice_protocol_fiber_loop 0) (run_service, w) =
         (Waits (op_client_read 0 0 run_client_secret) k, (run_service, w)) ∧
       ∀ s1 w1 cn1, sv_connections s1 !! 0%nat = Some cn1 →
         sends (call_message s1 cn1 c).1 (call_message s1 cn1 c).2 (k (0, Some (call_packet c))) s1 w1
           (set_connection 0 (after_call c) s1) again) ∧
  ∀ c, c ∈ run_calls → ∀ q, asks (W := io_world) (call_packet c) q ↔ call_asks c = Some q.
Proof.
  split; [exact run_calls_fit|]. split; [exact run_reader_reliable|].
  destruct (client_requests_arrive (W := io_world) run_calls 8 run_client_secret run_calls_fit) as (Hs&Hh&Hr&Ha).
  split_and!; [exact Hs|exact Hh| |exact Ha]. intros c w Hc.
  exact (Hr run_reader_reliable c 0%nat run_service w run_client Hc eq_refl eq_refl).
Defined.

(** The run once more, for the calls of two clients. *)
Definition call_end : config io_world * list event :=
  run_of (call_packet call_latest_block_id_get) (call_packet call_latest_block_id_get).
Definition call_trace : list event := call_end.2.
Definition call_connections : list (protocol_connection io_world) := sv_connections (cf_machine call_end.1).1.

Lemma call_steps : steps run_start call_trace call_end.1.
Proof. apply run_of_steps. by vm_compute. Qed.

(** Each client gets what the data service responded to its call. *)
Example calls_answered :
  let received j ra secret : list (Z * result (Z * Z * received)) := (λ p,
      (receive_call call_latest_block_id_get 8 secret (ex_input (authed_packet (W := io_world) secret (le_enc 8 8) (wr_packet p)))).1)
      <$> answers_written j ra call_trace in
  packets_read 0 call_trace = [call_packet call_latest_block_id_get] ∧
  received 0%nat 20 run_client_secret = [(9, Ok (0, 0, rv_id (memset Byte.xaa 16)))] ∧
  received 1%nat 30 run_client_secret = [(9, Ok (0, 0, rv_id (memset Byte.xbb 16)))] ∧
  ((λ x, told call_latest_block_id_get (ex_in x)) <$> served_for 20 call_trace)
    = [Some (0, rv_id (memset Byte.xaa 16))].
Proof. by vm_compute. Qed.

Lemma client_calls_answered_witness :
  starts ex_registry ex_service run_data run_notify ∧ steps run_start call_trace call_end.1 ∧
  Forall call_fits [call_latest_block_id_get] ∧
  packets_read 0 call_trace `prefix_of` call_packet <$> [call_latest_block_id_get] ∧
  ∃ cn, call_connections !! 0%nat = Some cn ∧
    let ra := pn_return_addr cn in
    ∃ (calls : list client_call) (qs : list asked),
      calls `sublist_of` [call_latest_block_id_get] ∧ call_asks <$> calls = Some <$> qs ∧
      filter (request_from ra) (sent (de_addr run_data) call_trace) = ask_message ra <$> qs ∧
      (ex_message <$> served_for ra call_trace) `prefix_of` (ask_message ra <$> qs) ∧
      (length (answers_written 0 ra call_trace) ≤ length (served_for ra call_trace))%nat ∧
      ∀ k p x call status r,
        answers_written 0 ra call_trace !! k = Some p → served_for ra call_trace !! k = Some x →
        calls !! k = Some call → told call (ex_in x) = Some (status, r) → has_certificate r →
        sizeof (wr_packet p) ≤ size_limit →
        ∀ iv secret i o, runs (HANDSHAKE_reliable io_world → False)
          (authed_packet (W := io_world) secret (le_enc 8 iv) (wr_packet p) ++ i) o (receive_call call iv secret)
          (λ res i' o', res = (wrap64 (iv + 1), Ok (0, status, r)) ∧ i' = i ∧ o' = o).
Proof.
  assert (Forall call_fits [call_latest_block_id_get]) as Hfit by (repeat constructor).
  assert (packets_read 0 call_trace `prefix_of` call_packet <$> [call_latest_block_id_get]) as Hread
    by (exists []; by vm_compute).
  split; [exact run_starts|]. split; [exact call_steps|]. split; [exact Hfit|]. split; [exact Hread|].
  assert (pn_return_addr <$> call_connections !! 0%nat = Some 20) as Hra by (by vm_compute).
  destruct (call_connections !! 0%nat) as [cn|] eqn:E; [|done]. exists cn. split; [done|].
  exact (client_calls_answered (W := io_world) ex_registry ex_service ∅ run_data run_notify _ call_trace call_end.1
    0%nat cn [call_latest_block_id_get] run_starts call_steps E Hfit Hread).
Defined.
